(* ===== verification/_CoqProject ===== *)
-Q . S2P
Prelude.v
Vector.v
PrioHeap.v
EventQueue.v
Histogram.v
MessageBuffer.v
Config.v
Address.v
NodeSet.v
NetDest.v
Mapping.v
Replacement.v
DataBlock.v
CacheMemory.v
LineTables.v
H3Table.v
BloomFilter.v
RefCnt.v
DelayQueue.v
Bitset.v
SimtStack.v
OrdMap.v
PtxMemory.v
Kernel.v
Barriers.v
Coalesce.v
CoalesceAtomic.v
SharedBanks.v
Scoreboard.v
GpuMisc.v
AddrDec.v
TagArray.v
Mshr.v
MemFetch.v
GpuCache.v
GpuCacheInv.v
GpuCacheRun.v
TexFifo.v
TexCache.v
MemStats.v
FrFcfs.v
Dram.v
DramServe.v
Dominators.v
Assemble.v
BasicBlocks.v
FlowGraph.v
Reconvergence.v
Partition.v
FetchFrames.v
CacheTraffic.v
PartitionFlow.v
PartitionInv.v
PartitionCache.v
PartitionAccess.v
PartitionRun.v
StreamManager.v
StreamInv.v
StreamRun.v
StreamHost.v
StreamOrder.v
StreamLive.v
MemoryControl.v
MemoryTiming.v
MemoryServe.v
MemoryRun.v
MemoryFair.v
FunctionalSim.v
