(* ===== verification/Prelude.v ===== *)
(** * Verification of GPGPU-Sim with the Ruby memory system

    The repository joins two simulators: GPGPU-Sim (shader cores, caches, DRAM;
    [cuda-sim], [gpgpu-sim], [intersim]) and the Ruby memory system of GEMS
    ([gems-2.1.1/ruby_clean] with the shared containers of [gems-2.1.1/common]).
    Ruby is an event driven simulator: components are consumers that a global
    event queue wakes up; they exchange messages through message buffers whose
    arrival times are events of that queue; cache controllers, generated from the
    protocol tables of [gems-2.1.1/protocols], keep lines in set associative
    caches, transactions in TBE tables, sharers in bit sets, and find each other
    by mappings from addresses to machines.

    GPGPU-Sim is driven by clock cycles: the blocks of a kernel are handed to
    shader cores; a core runs warps in lock step, each with a SIMT stack, holds back
    instructions by a scoreboard and a barrier set, turns the memory accesses of
    the lanes of a warp into requests, and sends these through tag arrays, miss
    status holding registers and texture FIFOs to the memory partitions that the
    decoded address names, where a DRAM channel schedules and serves them.
    Functional simulation works on the memory spaces of [cuda-sim]; a PTX function
    is assembled and its flow of control analysed before it runs, so that the
    SIMT stack knows where diverged lanes meet.

    This library models the components both simulators are built from, one file
    for each, and proves the contracts the rest relies on.

    ** Conventions

    A function that can fail returns an [outcome]: [AssertFailed] for [assert],
    [ErrorMsg] for [ERROR_MSG] and [WARN]-and-abort macros, [BadAccess] for memory
    that is not there, [Undefined] for behaviour C++ leaves open (a shift by 64, a
    missing return value), [OutOfFuel] for a loop that was given too little fuel.
    State is passed explicitly; a method returns the new value of its object.
    Machine integers are [Z] with their wrap-around written out ([u32], [s32],
    [u64], [s64]), and 64-bit words are kept in range by [in_word].  A C array is a
    list read with [aread] and written with [awrite].  Debug output, profiling
    counters and printing are left out, as they change no modelled state.
    Configuration variables are the fields of [RubyConfig] ([Config]) or arguments
    of the section that reads them.

    ** The files

    - [Prelude]: outcomes, integers, arrays, loops, and their lemmas and tactics.
    - [Vector] ([common/Vector.h]): the growable array under every container.
    - [PrioHeap] ([common/PrioHeap.h]): the binary heap, for any node type with a
      comparison (class [PrioNode] and its laws); it sorts.
    - [EventQueue] ([eventqueue/EventQueue.{h,C}], [EventQueueNode.h],
      [common/Consumer.h]): scheduling and [triggerEvents], over arbitrary wakeup
      functions; which events fire, in which order, once per cycle, none lost; what
      the wakeups asked for is what is queued.
    - [Histogram] ([common/Histogram.{h,C}]): samples, bins and rescaling.
    - [MessageBuffer] ([buffers/MessageBuffer.{h,C}], [MessageBufferNode.h]):
      enqueue, dequeue, recycle, flow control; delivery order and accounting.
    - [Config] ([config/RubyConfig.{h,C}]): [init] and what it establishes.
    - [Address] ([common/Address.h]): lines, offsets, bit fields.
    - [NodeSet] ([common/OptBigSet.{h,C}]): sets of nodes as arrays of 64-bit
      words; a refinement of finite sets ([represents]).
    - [NetDest] ([common/NetDest.{h,C}]): one such set for each machine type, a
      refinement of sets of machines ([stands_for]).
    - [Mapping] ([slicc_interface/RubySlicc_ComponentMapping.h]): from addresses
      to directories, L2 banks and cache sets, from processors to chips.
    - [Replacement] ([system/AbstractReplacementPolicy.h], [LRUPolicy.h],
      [PseudoLRUPolicy.h]): the policy interface as a class, its laws, both
      policies as instances.
    - [DataBlock] ([common/DataBlock.{h,C}]): the bytes of a line.
    - [CacheMemory] ([system/CacheMemory.h]): the cache over any policy that
      satisfies the laws; a refinement of a finite map of lines ([cache_rep]).
    - [LineTables] ([common/Map.h], [system/TBETable.h],
      [system/PerfectCacheMemory.h]): the tables that are hash maps.
    - [H3Table], [BloomFilter] ([system/*BloomFilter*]): the seven signatures and
      the generic one that dispatches; each satisfies one contract ([BloomLaws]), from
      which follows what a configured signature answers.
    - [MemoryControl] ([system/MemoryControl.{h,C}], [MemoryNode.h]): the DDR channel
      behind a directory.  [MemoryTiming] has the rules of the device, [MemoryServe] the
      invariant, [MemoryRun] the runs, [MemoryFair] the bound on waiting.
    - [RefCnt] ([common/RefCnt.h], [RefCountable.h]): reference counted handles as
      a step relation over a store; no dangling pointer, no leak.
    - [DelayQueue] ([gpgpu-sim/delayqueue.h]): the delay lines of the GPU's memory
      partitions.
    - [Bitset], [OrdMap]: [std::bitset] as the number its bits spell, [std::map]
      as the ordered list of its pairs.
    - [SimtStack] ([abstract_hardware_model.{h,cc}]: [simt_stack],
      [core_t::updateSIMTStack]): divergence and reconvergence of a warp, as a step
      relation from its launch.
    - [PtxMemory] ([cuda-sim/memory.{h,cc}], [gpgpu_t] of [cuda-sim.cc]): memory
      spaces of any block size, device memory, allocation and copies.
    - [Kernel] ([kernel_info_t], [gpu-sim.cc], [shader_core_config::max_cta]): the
      counters of blocks and threads, the table of running kernels, blocks per core.
    - [FunctionalSim] ([cuda-sim.cc]: [gpgpu_cuda_ptx_sim_main_func],
      [functionalCoreSim], [ptx_sim_init_thread]): a kernel simulated block by block,
      with the threads of a block, their warps and barriers; what an instruction of a
      warp does is a parameter.
    - [Barriers] ([barrier_set_t] of [gpgpu-sim/shader.{h,cc}]).
    - [Coalesce], [CoalesceAtomic], [SharedBanks] ([warp_inst_t] of
      [abstract_hardware_model.cc]): the accesses of a warp; [Coalesce] has the
      definitions and the coalescing of loads and stores, the other two atomics and
      shared memory.
    - [Scoreboard] ([gpgpu-sim/scoreboard.{h,cc}]): against the instructions in
      flight.
    - [GpuMisc] ([gpu-misc.cc], [histogram.{h,cc}]): logarithms, histograms.
    - [AddrDec] ([addrdec.{h,cc}]): partitions, banks, rows and columns of an
      address, and the option string that describes them.
    - [TagArray] ([cache_config] of [gpu-config.h], [tag_array] of
      [gpu-cache.{h,cc}]), [Mshr] ([mshr_table]), [MemFetch] ([mem_fetch.{h,cc}],
      on a heap of requests): the parts of the caches.
    - [GpuCache] ([baseline_cache], [read_only_cache], [data_cache], [l1_cache],
      [l2_cache]), with its invariant in [GpuCacheInv] and runs in [GpuCacheRun].
    - [TexFifo], [TexCache] ([tex_cache] of [gpu-cache.{h,cc}]).
    - [MemStats] ([mem_latency_stat.{h,cc}]), [FrFcfs] ([dram_sched.{h,cc}]), [Dram]
      ([dram.{h,cc}], with the commands it issues against the timing rules of a
      memory device), [DramServe] (requests through a channel): the DRAM model.
    - [Partition] ([l2cache.{h,cc}], the DRAM routes of [ruby_wrapper.cc] and
      [GpusimInterface.C], [system/GpusimDramInterface.{h,C}]): the unit that joins
      interconnect, L2 cache, DRAM channel and Ruby's directories.  [FetchFrames] and
      [CacheTraffic] say which requests the operations of the channel and of the cache
      change; [PartitionFlow] has the places of requests and how they may change,
      [PartitionInv] the invariant and the cycle of the DRAM, [PartitionCache] and
      [PartitionAccess] the cycle of the cache, [PartitionRun] the runs.
    - [Assemble] ([cuda-sim.cc]: [ptx_assemble]), [BasicBlocks] and [Dominators]
      ([ptx_ir.cc]: blocks, links, break targets, dominators, reconvergence points):
      the assembler; [FlowGraph] relates the links to the flow between instructions,
      [Reconvergence] the points found to that flow.
    - [StreamManager] ([stream_manager.{h,cc}]): the operations that host threads put
      into CUDA streams and their way to the GPU, on the table of [Kernel].
      What an operation does to the memories, and what the threads of a running kernel
      do, are the parameters [perform] and [compute].  [StreamInv] has the invariant,
      [StreamRun] the operation of the GPU thread, [StreamHost] the steps of host
      threads and cores, [StreamOrder] and [StreamLive] what follows for every
      interleaving.

    ** The theorems

    Refinements: [NodeSet], [NetDest], [CacheMemory] and [LineTables] against
    finite sets and maps, on every branch, failed assertions included.  Functional
    contracts: sorting ([PrioHeap]), event firing ([EventQueue]), FIFO delivery and
    arrival ([MessageBuffer]), signatures without false negatives ([BloomFilter]),
    home nodes and banks ([Mapping]), victims ([Replacement]), in-order delay lines
    ([DelayQueue]), accesses that serve every lane ([Coalesce], [CoalesceAtomic]),
    one-to-one decoding ([AddrDec]), the choice of a line ([TagArray]), the requests
    a DRAM scheduler takes ([FrFcfs]), dominators ([Dominators]) and points of
    reconvergence ([Reconvergence]).  Invariants
    over reachable states: [RefCnt], the wakeups of [EventQueue], lock step
    ([SimtStack]), dependences ([Scoreboard]), joint release ([Barriers]), the
    caches of the GPU, which given requests they can take stop at no assertion, lose no
    request and drop no modified block ([GpuCacheRun], [TexCache]), the DRAM channel, whose commands the
    device accepts and which answers each request once ([Dram], [DramServe]), and the
    memory partition built from both, through which every request of a core and every
    message of Ruby passes exactly once ([PartitionRun]), and the streams, whose
    operations run in order and apart from those of stream zero ([StreamOrder]), and
    Ruby's memory controller, which keeps to the timing of the device, answers every
    request and sleeps only when it is empty ([MemoryRun]).  Termination and liveness:
    the loops over blocks and threads ([FunctionalSim], with the one case in which they
    never end), fair selection of kernels ([Kernel]), the loop
    of the SIMT stack, draining of the miss registers ([Mshr]) and of the
    streams ([StreamLive]), requests that wait for a bank ([MemoryFair]).  Round trips:
    memory ([PtxMemory]), lines ([CacheMemory], [Address]), addresses of instructions
    ([Assemble]).  Errors: reads of the last block, malformed option strings,
    functions that branch to their entry ([Dominators]), kernels without a slot
    ([StreamLive]).  Bounds: histogram bins, configuration,
    flow control, bank conflicts, blocks per core.  The conditions of a theorem are
    those its comment names; where the code misbehaves without one, an example shows
    it.  Each theorem with
    hypotheses has a lemma [..._witness] that applies it to a concrete instance.

    Some theorems record behaviour that looks unintended: [rescale_never_ends] and
    [Histogram_odd_bins_lose_samples], [mixed_cycle_refuses_free_slot] and
    [clearStats_breaks_enqueue], [mask_63_masks_nothing], [add_beyond_size_corrupts],
    [NetDest_OR_needs_instances], [getChipID_is_not_the_chip],
    [LSB_Counting_unreachable], [lsb_increment_ignores_limit],
    [multigrain_count_forgets], [multigrain_small_page_filter_aborts],
    [n_element_wraps], [divergent_return_keeps_call_entry],
    [stray_reconvergence_point] (of a caller that gives a wrong point),
    [unaligned_access_loses_bytes], [address_above_4GB_truncated],
    [long_operations_mark_operand_index], [register_named_twice_aborts],
    [sweep_test_stops_with_one_partition],
    [burst_mask_is_not_moved], [blocks_above_4GB_alias], [fill_drops_modified_line],
    [reserved_line_without_request], [atomic_with_fill_allocation_stops],
    [texture_hit_at_block_0_stops],
    [available_while_waiting], [exit_outside_every_block], [unlimited_queue_stops],
    [bank_groups_are_merged], [write_delay_wraps], [loop_at_entry_stops],
    [missing_label_stops], [trailing_label_faults], [predicated_return_is_not_linked],
    [first_branch_is_not_linked], [two_labels_fault], [running_off_faults],
    [break_target_in_entry_stops], [allocating_read_lost], [write_back_of_L1_refused],
    [flush_breaks_fill], [latency_table_overrun], [rop_queue_stuck],
    [lost_kernel_blocks_stream], [destroy_waits], [device_copies_are_not_mem],
    [refresh_starves], [refresh_hides_turnaround], [wide_windows_overflow],
    [round_robin_stays], [threads_left_behind_stop], and the part of
    [every_block_and_thread_once] about empty blocks.

    ** Bounds and fuel

    [triggerEvents] runs until no event is due, which need not happen: a wakeup may
    schedule events for ever.  Its theorems assume that a wakeup schedules at most
    [K] events, each later than its own time, and give a bound on the number of steps;
    any fuel above it suffices.  For any consumers it is a potential of the queue,
    exponential in the time to cover; for consumers from a list closed under scheduling,
    each of which is woken at most once a cycle, it is linear.  [heap_limit] is the size
    from which the heap's index arithmetic on [unsigned int] would wrap around.
    [log_int] and the loops of the pseudo-LRU constructor have 64 rounds of fuel,
    one for each bit of their arguments, and are proved to end.  The rescaling loop
    of a histogram ends for samples below [2 ^ 30]; [pad] and [trim] of a delay
    line need one round for each slot.  The loop of the SIMT stack has a round for
    each lane of the warp, the slow routes of a memory a round for each byte, the
    loop over blocks any fuel above the size of the grid, the loop over the warps of a
    block any fuel above the number of instructions and releases in which its threads
    leave; all are proved to be enough.  The iteration of the dominators has [n * n + 1]
    rounds for [n] blocks, since a round that is not the last removes an element of
    one of the sets; the search for leaders a round for each instruction; the loop
    that settles break targets is given its fuel by the caller, and one round is
    proved enough for functions without breaks.

    ** Not modelled

    On the side of Ruby: the protocol tables and the SLICC compiler (not C++; of the
    generated code only the functions on machine types, from
    [slicc/symbols/Type.C]), the network models, the sequencer
    and store buffer, the persistent and timer tables, the testers, profilers and
    recorders, the Simics glue.  On the side of the GPU: the pipeline of a shader
    core around the components above (fetch, schedulers, operand collector, load
    and store unit), the semantics of PTX instructions and their parser, statistics,
    the interconnect (third party) and the floating point clock domains.  The plan is
    to go on with the timer and persistent tables, then the pipeline of the shader core
    and the simple network. *)

From stdpp Require Export base tactics option list numbers gmap sorting.
From Stdlib Require Export ZArith Lia.

#[global] Open Scope Z_scope.

(** [lia] decides division and remainder by constants. *)
#[global] Ltac Zify.zify_post_hook ::= Z.to_euclidean_division_equations.

(** The lemmas that close the routine side conditions of the components. *)
Create HintDb ruby.

(** * Outcomes

    Ruby is compiled with its [assert] and [ERROR_MSG] macros armed
    ([ruby_clean/common/Debug.h]): both stop the simulator.  A step of the
    program therefore either yields a value or stops with a fault. *)

Inductive fault :=
  | AssertFailed  (** [assert(e)] with [e] false *)
  | ErrorMsg      (** [ERROR_MSG(...)] and [abort()] *)
  | Thrown        (** an exception that nothing catches *)
  | BadAccess     (** a raw array accessed outside its storage *)
  | Undefined     (** a shift or a division C++ gives no meaning to *)
  | OutOfFuel.    (** the bound given to a loop was too small *)

Inductive outcome (A : Type) :=
  | Ok (a : A)
  | Err (f : fault).
Arguments Ok {A} a.
Arguments Err {A} f.

#[export] Instance fault_eq_dec : EqDecision fault.
Proof. solve_decision. Defined.

#[export] Instance outcome_ret : MRet outcome := fun A a => Ok a.
#[export] Instance outcome_bind : MBind outcome := fun A B f m =>
  match m with Ok a => f a | Err e => Err e end.

Definition cassert (b : bool) : outcome unit := if b then Ok tt else Err AssertFailed.

(** The value of a run that reaches its end; used on concrete runs only. *)
Definition from_ok {A} `{!Inhabited A} (m : outcome A) : A :=
  match m with Ok a => a | Err _ => inhabitant end.

(** [is_ok m] says the run reaches its end. *)
Definition is_ok {A} (m : outcome A) : Prop := exists a, m = Ok a.

Section outcome_facts.
Context {A B : Type}.
Implicit Types (m : outcome A) (f : A → outcome B).

Lemma bind_ok m f b : (m ≫= f) = Ok b <-> exists a, m = Ok a /\ f a = Ok b.
Proof. unfold mbind, outcome_bind. destruct m; naive_solver. Qed.

Lemma bind_of_ok a f : (Ok a ≫= f) = f a.
Proof. reflexivity. Qed.

Lemma bind_of_err e f : (Err e ≫= f) = Err e.
Proof. reflexivity. Qed.
End outcome_facts.

Lemma bind_assoc {A B C : Type} (m : outcome A) (f : A → outcome B) (g : B → outcome C) :
  ((m ≫= f) ≫= g) = (m ≫= (fun x => f x ≫= g)).
Proof. by destruct m. Qed.

Lemma cassert_ok b u : cassert b = Ok u <-> b = true.
Proof. destruct b, u; naive_solver. Qed.

Lemma cassert_true b : b = true -> cassert b = Ok tt.
Proof. by intros ->. Qed.

(** Splits every hypothesis that says a sequence of steps succeeded. *)
Ltac ok_inv :=
  repeat match goal with
  | H : (_ ≫= _) = Ok _ |- _ => apply bind_ok in H; destruct H as (? & ? & ?)
  | H : cassert _ = Ok _ |- _ => apply cassert_ok in H
  | H : Ok _ = Ok _ |- _ => injection H as H
  | H : mret _ = Ok _ |- _ => injection H as H
  | H : Err _ = Ok _ |- _ => discriminate H
  | H : Ok _ = Err _ |- _ => discriminate H
  end.

(** * Machine integers

    A w-bit integer is kept as a [Z]; these are the conversions C++ applies. *)

Definition uwrap (w x : Z) : Z := x mod 2 ^ w.
Definition swrap (w x : Z) : Z := (x + 2 ^ (w - 1)) mod 2 ^ w - 2 ^ (w - 1).
Abbreviation u32 := (uwrap 32).
Abbreviation u64 := (uwrap 64).
Abbreviation s32 := (swrap 32).
Abbreviation s64 := (swrap 64).

Lemma uwrap_small w x : 0 <= x < 2 ^ w -> uwrap w x = x.
Proof. apply Z.mod_small. Qed.

Lemma uwrap_range w x : 0 <= w -> 0 <= uwrap w x < 2 ^ w.
Proof. intros. apply Z.mod_pos_bound. lia. Qed.

Lemma swrap_small w x : 0 < w -> - 2 ^ (w - 1) <= x < 2 ^ (w - 1) -> swrap w x = x.
Proof.
  intros Hw Hx. unfold swrap.
  assert (2 ^ w = 2 * 2 ^ (w - 1)) as E
    by (rewrite <- Z.pow_succ_r by lia; f_equal; lia).
  rewrite Z.mod_small by lia. lia.
Qed.

Lemma swrap_range w x : 0 < w -> - 2 ^ (w - 1) <= swrap w x < 2 ^ (w - 1).
Proof.
  intros Hw. unfold swrap.
  assert (2 ^ w = 2 * 2 ^ (w - 1)) as E
    by (rewrite <- Z.pow_succ_r by lia; f_equal; lia).
  pose proof (Z.mod_pos_bound (x + 2 ^ (w - 1)) (2 ^ w) ltac:(lia)). lia.
Qed.

Lemma swrap_mod w x y : 0 < w -> x mod 2 ^ w = y mod 2 ^ w -> swrap w x = swrap w y.
Proof. intros Hw E. unfold swrap. f_equal. rewrite Z.add_mod, E, <- Z.add_mod; lia. Qed.

Lemma swrap_idem_mod w x : 0 < w -> swrap w x mod 2 ^ w = x mod 2 ^ w.
Proof.
  intros Hw. unfold swrap. rewrite Zminus_mod_idemp_l. f_equal. lia.
Qed.

Lemma swrap_add_l w x y : 0 < w -> swrap w (swrap w x + y) = swrap w (x + y).
Proof.
  intros Hw. apply swrap_mod; [done|].
  rewrite Z.add_mod, swrap_idem_mod, <- Z.add_mod by lia. done.
Qed.

Lemma uwrap_testbit w x i :
  0 <= w -> 0 <= i -> Z.testbit (uwrap w x) i = bool_decide (i < w) && Z.testbit x i.
Proof.
  intros Hw Hi. unfold uwrap. case_bool_decide; simpl.
  - apply Z.mod_pow2_bits_low. lia.
  - apply Z.mod_pow2_bits_high. lia.
Qed.

Lemma swrap_testbit w x i :
  0 < w -> 0 <= i < w -> Z.testbit (swrap w x) i = Z.testbit x i.
Proof.
  intros Hw Hi. rewrite <- (Z.mod_pow2_bits_low (swrap w x) w), <- (Z.mod_pow2_bits_low x w) by lia.
  by rewrite swrap_idem_mod by lia.
Qed.

(** The low [n] bits and the rest do not overlap. *)
Lemma lor_disjoint x y n : 0 <= n -> 0 <= y < 2 ^ n -> Z.lor (x * 2 ^ n) y = x * 2 ^ n + y.
Proof.
  intros Hn Hy. rewrite <- Z.add_nocarry_lor; [done|]. apply Z.bits_inj'. intros i Hi.
  rewrite Z.land_spec, Z.bits_0. destruct (Z.lt_ge_cases i n).
  - by rewrite Z.mul_pow2_bits_low.
  - destruct (Z.eq_dec y 0) as [->|]; [by rewrite Z.bits_0, andb_false_r|].
    rewrite (Z.bits_above_log2 y); [by rewrite andb_false_r|lia|].
    apply Z.lt_le_trans with n; [|lia]. apply Z.log2_lt_pow2; lia.
Qed.

Lemma ones_bits n i : 0 <= n -> 0 <= i -> Z.testbit (Z.ones n) i = (i <? n).
Proof.
  intros. destruct (Z.ltb_spec i n); [by apply Z.ones_spec_low|by apply Z.ones_spec_high].
Qed.

(** * Signed 64-bit words *)

Definition in_word (w : Z) : Prop := - 2 ^ 63 <= w < 2 ^ 63.

Lemma testbit_above w n i : 0 <= w < 2 ^ n -> n <= i -> Z.testbit w i = false.
Proof.
  intros Hw Hi. destruct (Z.eq_dec w 0) as [->|]; [apply Z.bits_0|].
  apply Z.bits_above_log2; [lia|]. apply Z.lt_le_trans with n; [|done].
  apply Z.log2_lt_pow2; lia.
Qed.

(** A word is a number whose bits from 63 up are its sign. *)
Lemma in_word_sign w : in_word w <-> forall i, 63 <= i -> Z.testbit w i = Z.testbit w 63.
Proof.
  unfold in_word. split.
  - intros Hw i Hi. destruct (Z.le_gt_cases 0 w).
    + rewrite !(testbit_above w 63) by lia. done.
    + rewrite <- (Z.lnot_involutive w), !(Z.lnot_spec (Z.lnot w)) by lia. f_equal.
      rewrite !(testbit_above (Z.lnot w) 63) by (unfold Z.lnot; lia). done.
  - intros H. assert (Z.shiftr w 63 = if Z.testbit w 63 then -1 else 0) as E.
    { apply Z.bits_inj'. intros i Hi. rewrite Z.shiftr_spec by lia. rewrite H by lia.
      destruct (Z.testbit w 63); [by rewrite Z.bits_m1|by rewrite Z.bits_0]. }
    rewrite Z.shiftr_div_pow2 in E by lia. destruct (Z.testbit w 63); lia.
Qed.

Lemma in_word_swrap x : in_word (swrap 64 x).
Proof. apply (swrap_range 64 x). lia. Qed.

Lemma word_ext v w :
  in_word v -> in_word w -> (forall i, 0 <= i < 64 -> Z.testbit v i = Z.testbit w i) -> v = w.
Proof.
  rewrite !in_word_sign. intros Hv Hw H. apply Z.bits_inj'. intros i Hi.
  destruct (Z.lt_ge_cases i 64); [apply H; lia|]. rewrite Hv, Hw by lia. apply H. lia.
Qed.

Lemma in_word_land v w : in_word v -> in_word w -> in_word (Z.land v w).
Proof. rewrite !in_word_sign. intros Hv Hw i Hi. by rewrite !Z.land_spec, Hv, Hw. Qed.
Lemma in_word_lor v w : in_word v -> in_word w -> in_word (Z.lor v w).
Proof. rewrite !in_word_sign. intros Hv Hw i Hi. by rewrite !Z.lor_spec, Hv, Hw. Qed.
Lemma in_word_lnot v : in_word v -> in_word (Z.lnot v).
Proof. rewrite !in_word_sign. intros Hv i Hi. by rewrite !Z.lnot_spec, Hv by lia. Qed.

#[export] Hint Resolve in_word_swrap in_word_land in_word_lor in_word_lnot : ruby.

(** * Arrays indexed by machine integers *)

Section arrays.
Context {A : Type}.
Implicit Types (l : list A) (i j : Z) (x : A).

Definition zread l i : option A := if 0 <=? i then l !! Z.to_nat i else None.
Definition zwrite l i x : list A := if 0 <=? i then <[Z.to_nat i := x]> l else l.
Definition zlen l : Z := Z.of_nat (length l).

(** A checked access: the storage has to be there. *)
Definition aread l i : outcome A :=
  match zread l i with Some x => Ok x | None => Err BadAccess end.
Definition awrite l i x : outcome (list A) :=
  if (0 <=? i) && (i <? zlen l) then Ok (zwrite l i x) else Err BadAccess.

Lemma zread_range l i x : zread l i = Some x -> 0 <= i < zlen l.
Proof.
  unfold zread, zlen. destruct (Z.leb_spec 0 i); [|done].
  intros ?%lookup_lt_Some. lia.
Qed.

Lemma zread_lookup l i : 0 <= i -> zread l i = l !! Z.to_nat i.
Proof. intros. unfold zread. by rewrite (proj2 (Z.leb_le 0 i)). Qed.

Lemma zread_of_nat l k : zread l (Z.of_nat k) = l !! k.
Proof. rewrite zread_lookup by lia. by rewrite Nat2Z.id. Qed.

Lemma zread_elem_of l i x : zread l i = Some x -> x ∈ l.
Proof.
  unfold zread. destruct (0 <=? i); [|done].
  intros. apply list_elem_of_lookup. eauto.
Qed.

Lemma elem_of_zread l x : x ∈ l -> exists i, 0 <= i < zlen l /\ zread l i = Some x.
Proof.
  intros [k Hk]%list_elem_of_lookup. exists (Z.of_nat k). rewrite zread_of_nat.
  split; [|done]. apply lookup_lt_Some in Hk. unfold zlen. lia.
Qed.

Lemma zread_is_some l i : 0 <= i < zlen l -> is_Some (zread l i).
Proof.
  unfold zread, zlen. intros Hi. rewrite (proj2 (Z.leb_le 0 i)) by lia.
  apply lookup_lt_is_Some. lia.
Qed.

Lemma zread_none l i : ~ (0 <= i < zlen l) -> zread l i = None.
Proof.
  intros H. destruct (zread l i) eqn:E; [|done]. by apply zread_range in E.
Qed.

Lemma zlen_nonneg l : 0 <= zlen l.
Proof. unfold zlen. lia. Qed.

Lemma zlen_zwrite l i x : zlen (zwrite l i x) = zlen l.
Proof. unfold zlen, zwrite. destruct (0 <=? i); by rewrite ?length_insert. Qed.

Lemma zread_zwrite_eq l i x : 0 <= i < zlen l -> zread (zwrite l i x) i = Some x.
Proof.
  unfold zread, zwrite, zlen. intros Hi. rewrite (proj2 (Z.leb_le 0 i)) by lia.
  apply list_lookup_insert_eq. lia.
Qed.

Lemma zread_zwrite_ne l i j x : i <> j -> zread (zwrite l i x) j = zread l j.
Proof.
  unfold zread, zwrite. intros Hij.
  destruct (Z.leb_spec 0 i), (Z.leb_spec 0 j); try done.
  apply list_lookup_insert_ne. lia.
Qed.

Lemma zread_zwrite l i j x : 0 <= i < zlen l ->
  zread (zwrite l i x) j = if i =? j then Some x else zread l j.
Proof.
  intros. destruct (Z.eqb_spec i j) as [<-|].
  - by apply zread_zwrite_eq.
  - by apply zread_zwrite_ne.
Qed.

Lemma elem_of_zwrite l i x y : y ∈ zwrite l i x -> y = x \/ y ∈ l.
Proof.
  intros (j & Hj & E)%elem_of_zread. destruct (Z.eq_dec i j) as [->|Hne].
  - rewrite zlen_zwrite in Hj. rewrite zread_zwrite_eq in E by done. left. congruence.
  - rewrite zread_zwrite_ne in E by done. right. by apply zread_elem_of in E.
Qed.

Lemma zread_app_l (l k : list A) i : i < zlen l -> zread (l ++ k) i = zread l i.
Proof.
  unfold zread, zlen. intros Hi. destruct (Z.leb_spec 0 i); [|done].
  apply lookup_app_l. lia.
Qed.

Lemma zread_ext (l1 l2 : list A) :
  zlen l1 = zlen l2 -> (forall i, 0 <= i < zlen l1 -> zread l1 i = zread l2 i) -> l1 = l2.
Proof.
  unfold zlen. intros Hl Hr. apply list_eq_same_length with (length l1); [lia|done|].
  intros i x y Hi Hx Hy. specialize (Hr (Z.of_nat i) ltac:(lia)).
  unfold zread in Hr. rewrite (proj2 (Z.leb_le 0 _)), Nat2Z.id in Hr by lia. congruence.
Qed.

Lemma aread_ok l i x : aread l i = Ok x <-> zread l i = Some x.
Proof. unfold aread. destruct (zread l i); naive_solver. Qed.

Lemma aread_in l i : 0 <= i < zlen l -> exists x, zread l i = Some x /\ aread l i = Ok x.
Proof. intros [x Hx]%zread_is_some. exists x. by rewrite aread_ok. Qed.

Lemma awrite_in l i x : 0 <= i < zlen l -> awrite l i x = Ok (zwrite l i x).
Proof. intros. unfold awrite. by rewrite (proj2 (Z.leb_le 0 i)), (proj2 (Z.ltb_lt i _)) by lia. Qed.

Lemma awrite_ok l i x l' :
  awrite l i x = Ok l' <-> 0 <= i < zlen l /\ l' = zwrite l i x.
Proof.
  unfold awrite. destruct (Z.leb_spec 0 i), (Z.ltb_spec i (zlen l)); simpl; naive_solver lia.
Qed.
End arrays.

Lemma zlen_replicate {A} (x : A) n : 0 <= n -> zlen (replicate (Z.to_nat n) x) = n.
Proof. intros. unfold zlen. rewrite length_replicate. lia. Qed.

Lemma zread_replicate {A} (x : A) n i :
  zread (replicate (Z.to_nat n) x) i = if (0 <=? i) && (i <? n) then Some x else None.
Proof.
  unfold zread. destruct (Z.leb_spec 0 i); [|done]. simpl. destruct (Z.ltb_spec i n).
  - apply lookup_replicate_2. lia.
  - apply lookup_replicate_None. lia.
Qed.

Lemma zlen_app {A} (l k : list A) : zlen (l ++ k) = zlen l + zlen k.
Proof. unfold zlen. rewrite length_app. lia. Qed.

Lemma zread_app {A} (l k : list A) i :
  zread (l ++ k) i = if i <? zlen l then zread l i else zread k (i - zlen l).
Proof.
  destruct (Z.ltb_spec i (zlen l)); [by apply zread_app_l|].
  unfold zread, zlen in *. rewrite !(proj2 (Z.leb_le 0 _)) by lia.
  rewrite lookup_app_r by lia. f_equal. lia.
Qed.

Lemma zread_cons {A} (x : A) l i :
  zread (x :: l) i = if i =? 0 then Some x else zread l (i - 1).
Proof.
  destruct (Z.eqb_spec i 0) as [->|]; [done|]. unfold zread.
  destruct (Z.leb_spec 0 i), (Z.leb_spec 0 (i - 1)); try lia; [|done].
  by replace (Z.to_nat i) with (S (Z.to_nat (i - 1))) by lia.
Qed.

Lemma zread_drop {A} (l : list A) n i :
  0 <= n -> 0 <= i -> zread (drop (Z.to_nat n) l) i = zread l (i + n).
Proof.
  intros. unfold zread. rewrite !(proj2 (Z.leb_le 0 _)) by lia.
  rewrite lookup_drop. f_equal. lia.
Qed.

Lemma zlen_take {A} (l : list A) n : 0 <= n <= zlen l -> zlen (take (Z.to_nat n) l) = n.
Proof. unfold zlen. intros. rewrite length_take. lia. Qed.
Lemma zread_take {A} (l : list A) n i : i < n -> zread (take (Z.to_nat n) l) i = zread l i.
Proof.
  intros Hi. unfold zread. destruct (Z.leb_spec 0 i); [|done]. apply lookup_take_lt. lia.
Qed.
Lemma zlen_drop {A} (l : list A) n : 0 <= n <= zlen l -> zlen (drop (Z.to_nat n) l) = zlen l - n.
Proof. unfold zlen. intros. rewrite length_drop. lia. Qed.

#[export] Hint Resolve zlen_nonneg : ruby.

(** * Loops

    [for_up n i body s] is [for (; n iterations; i++) body] and [for_down] the
    same with [i--]; a fault in the body ends the loop. *)

Section loops.
Context {S : Type}.
Implicit Types (body : Z → S → outcome S) (s : S).

Fixpoint for_up (n : nat) (i : Z) body s : outcome S :=
  match n with
  | O => Ok s
  | Datatypes.S n' => s' ← body i s; for_up n' (i + 1) body s'
  end.
Fixpoint for_down (n : nat) (i : Z) body s : outcome S :=
  match n with
  | O => Ok s
  | Datatypes.S n' => s' ← body i s; for_down n' (i - 1) body s'
  end.
(** [for (i = lo; i < hi; i++)] *)
Definition for_range (lo hi : Z) body s : outcome S := for_up (Z.to_nat (hi - lo)) lo body s.
(** [for (i = hi; i >= lo; i--)] *)
Definition for_range_down (hi lo : Z) body s : outcome S :=
  for_down (Z.to_nat (hi - lo + 1)) hi body s.

Lemma for_up_snoc n i body s :
  for_up (Datatypes.S n) i body s = for_up n i body s ≫= body (i + Z.of_nat n).
Proof.
  revert i s. induction n as [|n IH]; intros i s.
  { simpl. rewrite Z.add_0_r. by destruct (body i s). }
  change (for_up (Datatypes.S (Datatypes.S n)) i body s) with
    (s' ← body i s; for_up (Datatypes.S n) (i + 1) body s').
  simpl (for_up (Datatypes.S n) i body s). destruct (body i s); [|done]. rewrite !bind_of_ok, IH.
  by replace (i + 1 + Z.of_nat n) with (i + Z.of_nat (Datatypes.S n)) by lia.
Qed.

(** The last round of a counted loop. *)
Lemma for_range_snoc lo hi body s :
  lo <= hi -> for_range lo (hi + 1) body s = for_range lo hi body s ≫= body hi.
Proof.
  intros H. unfold for_range. replace (Z.to_nat (hi + 1 - lo)) with (Datatypes.S (Z.to_nat (hi - lo))) by lia.
  rewrite for_up_snoc. by replace (lo + Z.of_nat (Z.to_nat (hi - lo))) with hi by lia.
Qed.

Lemma for_range_inv (P : Z → S → Prop) lo hi body s :
  lo <= hi -> P lo s ->
  (forall i s, lo <= i < hi -> P i s -> exists s', body i s = Ok s' /\ P (i + 1) s') ->
  exists s', for_range lo hi body s = Ok s' /\ P hi s'.
Proof.
  unfold for_range. intros Hle HP Hstep. remember (Z.to_nat (hi - lo)) as n eqn:En.
  revert lo s Hle HP Hstep En. induction n as [|n IH]; intros lo s Hle HP Hstep En; simpl.
  - exists s. replace hi with lo by lia. done.
  - destruct (Hstep lo s ltac:(lia) HP) as (s' & -> & HP').
    apply (IH (lo + 1)); [lia|done| |lia]. intros j t Hj. apply Hstep. lia.
Qed.

Lemma for_range_down_inv (P : Z → S → Prop) hi lo body s :
  lo <= hi + 1 -> P hi s ->
  (forall i s, lo <= i <= hi -> P i s -> exists s', body i s = Ok s' /\ P (i - 1) s') ->
  exists s', for_range_down hi lo body s = Ok s' /\ P (lo - 1) s'.
Proof.
  unfold for_range_down. intros Hle HP Hstep. remember (Z.to_nat (hi - lo + 1)) as n eqn:En.
  revert hi s Hle HP Hstep En. induction n as [|n IH]; intros hi s Hle HP Hstep En; simpl.
  - exists s. replace (lo - 1) with hi by lia. done.
  - destruct (Hstep hi s ltac:(lia) HP) as (s' & -> & HP').
    apply (IH (hi - 1)); [lia|done| |lia]. intros j t Hj. apply Hstep. lia.
Qed.
End loops.

(** The first index of [lo, lo+n) that satisfies a test: a search loop with
    [return i] in its body. *)
Fixpoint search_up (n : nat) (i : Z) (p : Z → bool) : option Z :=
  match n with
  | O => None
  | S n' => if p i then Some i else search_up n' (i + 1) p
  end.
Definition search (lo hi : Z) (p : Z → bool) : option Z := search_up (Z.to_nat (hi - lo)) lo p.

Lemma search_some lo hi p i :
  search lo hi p = Some i <->
  lo <= i < hi /\ p i = true /\ forall j, lo <= j < i -> p j = false.
Proof.
  unfold search. remember (Z.to_nat (hi - lo)) as n eqn:En.
  revert lo En. induction n as [|n IH]; intros lo En; simpl.
  { split; [done|]. lia. }
  destruct (p lo) eqn:Hp.
  - split.
    + intros [= <-]. split_and!; [lia|lia|done|lia].
    + intros (Hi & Hpi & Hj). f_equal. destruct (Z.eq_dec lo i); [done|].
      rewrite Hj in Hp by lia. done.
  - rewrite IH by lia. split; intros (Hi & Hpi & Hj); split_and!; try lia; try done.
    + intros j Hj'. destruct (Z.eq_dec j lo) as [->|]; [done|]. apply Hj. lia.
    + destruct (Z.eq_dec i lo); [congruence|lia].
    + intros j Hj'. apply Hj. lia.
Qed.

Lemma search_none lo hi p :
  search lo hi p = None <-> forall j, lo <= j < hi -> p j = false.
Proof.
  unfold search. remember (Z.to_nat (hi - lo)) as n eqn:En.
  revert lo En. induction n as [|n IH]; intros lo En; simpl.
  { split; [|done]. lia. }
  destruct (p lo) eqn:Hp.
  - split; [done|]. intros Hj. rewrite Hj in Hp by lia. done.
  - rewrite IH by lia. split; intros Hj j Hj'.
    + destruct (Z.eq_dec j lo) as [->|]; [done|]. apply Hj. lia.
    + apply Hj. lia.
Qed.

Lemma search_ext lo hi p q :
  (forall i, lo <= i < hi -> p i = q i) -> search lo hi p = search lo hi q.
Proof.
  unfold search. remember (Z.to_nat (hi - lo)) as n eqn:En.
  revert lo En. induction n as [|n IH]; intros lo En H; simpl; [done|].
  rewrite H, IH by (intros; try apply H; lia). done.
Qed.

(** * Mapping, zipping and filtering arrays *)

Lemma zread_zip_with {A B C} (f : A → B → C) l k i :
  zread (zip_with f l k) i = (x ← zread l i; y ← zread k i; Some (f x y)).
Proof.
  unfold zread. destruct (0 <=? i); [|done]. rewrite lookup_zip_with.
  by destruct (l !! _), (k !! _).
Qed.
Lemma zwrite_split {A} (l : list A) n x y :
  zread l n = Some x -> exists l1 l2, l = l1 ++ x :: l2 /\ zwrite l n y = l1 ++ y :: l2.
Proof.
  intros H. pose proof (zread_range _ _ _ H) as Hr. rewrite zread_lookup in H by lia.
  unfold zwrite. rewrite (proj2 (Z.leb_le 0 n)) by lia. pose proof (take_drop_middle l _ x H) as E.
  exists (take (Z.to_nat n) l), (drop (S (Z.to_nat n)) l). split; [done|].
  apply lookup_lt_Some in H. by rewrite insert_take_drop.
Qed.

Lemma zread_fmap {A B} (f : A → B) (l : list A) i : zread (f <$> l) i = f <$> zread l i.
Proof. unfold zread. destruct (0 <=? i); [|done]. by rewrite list_lookup_fmap. Qed.
Lemma zlen_fmap {A B} (f : A → B) (l : list A) : zlen (f <$> l) = zlen l.
Proof. unfold zlen. by rewrite length_fmap. Qed.
Lemma zlen_zip_with {A B C} (f : A → B → C) l k : zlen l = zlen k -> zlen (zip_with f l k) = zlen l.
Proof. unfold zlen. rewrite length_zip_with. lia. Qed.
Lemma zread_imap {A B} (f : nat → A → B) (l : list A) i : zread (imap f l) i = f (Z.to_nat i) <$> zread l i.
Proof. unfold zread. destruct (0 <=? i); [|done]. by rewrite list_lookup_imap. Qed.
Lemma zlen_imap {A B} (f : nat → A → B) (l : list A) : zlen (imap f l) = zlen l.
Proof. unfold zlen. by rewrite length_imap. Qed.
Lemma zread_zip {A B} (l : list A) (k : list B) i p : zread (zip l k) i = Some p <-> zread l i = Some p.1 /\ zread k i = Some p.2.
Proof. rewrite zread_zip_with. destruct p. destruct (zread l i), (zread k i); simpl; naive_solver. Qed.
Lemma Forall2_zread {A B} (Q : A → B → Prop) l k i x y : Forall2 Q l k -> zread l i = Some x -> zread k i = Some y -> Q x y.
Proof.
  intros HQ Hx Hy. pose proof (zread_range _ _ _ Hx). rewrite zread_lookup in Hx by lia.
  rewrite zread_lookup in Hy by lia. by eapply Forall2_lookup_lr.
Qed.
Lemma Forall2_zlen {A B} (Q : A → B → Prop) l k : Forall2 Q l k -> zlen l = zlen k.
Proof. intros HQ. unfold zlen. by rewrite (Forall2_length _ _ _ HQ). Qed.
Lemma filter_none {A} (P : A → Prop) `{!∀ x, Decision (P x)} (l : list A) : (forall x, x ∈ l -> ~ P x) -> filter P l = [].
Proof.
  induction l as [|x l IH]; intros Hl; [done|]. rewrite filter_cons, decide_False, IH; [done|intros; apply Hl; by right|apply Hl; left].
Qed.
Lemma filter_every {A} (P : A → Prop) `{!∀ x, Decision (P x)} (l : list A) : (forall x, x ∈ l -> P x) -> filter P l = l.
Proof.
  induction l as [|x l IH]; intros Hl; [done|]. rewrite filter_cons, decide_True, IH; [done|intros; apply Hl; by right|apply Hl; left].
Qed.
Lemma filter_only {A} (P : A → Prop) `{!∀ x, Decision (P x)} (l : list A) i x :
  zread l i = Some x -> (forall j y, zread l j = Some y -> P y <-> j = i) -> filter P l = [x].
Proof.
  intros Hx HP. pose proof (zread_range _ _ _ Hx) as Hi.
  assert (Hl : l !! Z.to_nat i = Some x) by (by rewrite zread_lookup in Hx by lia).
  rewrite <- (take_drop_middle l (Z.to_nat i) x Hl) at 1. rewrite filter_app, filter_cons, decide_True by (by rewrite (HP i x Hx)).
  rewrite !filter_none; [done| |]; intros y (k & Hk)%list_elem_of_lookup Hy.
  - rewrite lookup_drop in Hk. apply (HP (Z.of_nat (S (Z.to_nat i) + k))) in Hy; [lia|].
    rewrite zread_lookup by lia. by rewrite Nat2Z.id.
  - apply lookup_take_Some in Hk as [Hk Hlt]. apply (HP (Z.of_nat k)) in Hy; [lia|].
    rewrite zread_lookup by lia. by rewrite Nat2Z.id.
Qed.
Lemma filter_but_one {A} (P : A → Prop) `{!∀ x, Decision (P x)} (l : list A) i x :
  zread l i = Some x -> (forall j y, zread l j = Some y -> P y <-> j <> i) -> zlen (filter P l) = zlen l - 1.
Proof.
  intros Hx HP. assert (zlen (filter P l) + zlen (filter (fun y => ~ P y) l) = zlen l) as E.
  { clear. induction l as [|y l IH]; [done|]. rewrite !filter_cons. unfold zlen in *.
    destruct (decide (P y)); [rewrite (decide_False (P := ~ P y)) by tauto|rewrite (decide_True (P := ~ P y)) by done]; simpl; lia. }
  rewrite (filter_only (fun y => ~ P y) l i x Hx) in E; [change (zlen [x]) with 1 in E; lia|].
  intros j y Hy. rewrite (HP j y Hy). lia.
Qed.

(** * Sorted lists *)

Lemma StronglySorted_snoc {A} (R : relation A) l x :
  StronglySorted R l -> Forall (fun y => R y x) l -> StronglySorted R (l ++ [x]).
Proof.
  induction 1 as [|y l Hl IH Hy]; intros Hx; simpl; [repeat constructor|].
  inversion_clear Hx. constructor; [by apply IH|]. apply Forall_app. split; [done|].
  by repeat constructor.
Qed.

(** Turns the boolean tests of the code into propositions. *)
Ltac to_prop :=
  repeat match goal with
  | H : _ && _ = true |- _ => apply andb_true_iff in H; destruct H
  | H : _ && _ = false |- _ => apply andb_false_iff in H
  | H : _ || _ = false |- _ => apply orb_false_iff in H; destruct H
  | H : _ || _ = true |- _ => apply orb_true_iff in H
  | H : negb _ = true |- _ => apply negb_true_iff in H
  | H : negb _ = false |- _ => apply negb_false_iff in H
  | H : (_ <=? _) = true |- _ => apply Z.leb_le in H
  | H : (_ <=? _) = false |- _ => apply Z.leb_gt in H
  | H : (_ <? _) = true |- _ => apply Z.ltb_lt in H
  | H : (_ <? _) = false |- _ => apply Z.ltb_ge in H
  | H : (_ =? _) = true |- _ => apply Z.eqb_eq in H
  | H : (_ =? _) = false |- _ => apply Z.eqb_neq in H
  | H : bool_decide _ = true |- _ => apply bool_decide_eq_true in H
  | H : bool_decide _ = false |- _ => apply bool_decide_eq_false in H
  end.

(** Filters of a list by comparable conditions. *)
Lemma filter_length_le {A} (P Q : A → Prop) `{!∀ x, Decision (P x), !∀ x, Decision (Q x)} l :
  (forall x, P x -> Q x) -> (length (filter P l) <= length (filter Q l))%nat.
Proof.
  intros HPQ. induction l as [|x l IH]; [done|]. rewrite !filter_cons.
  repeat case_decide; simpl; [lia|naive_solver|lia|lia].
Qed.

Lemma filter_length_lt {A} (P Q : A → Prop) `{!∀ x, Decision (P x), !∀ x, Decision (Q x)} l a :
  (forall x, P x -> Q x) -> a ∈ l -> Q a -> ¬ P a -> (length (filter P l) < length (filter Q l))%nat.
Proof.
  intros HPQ Hin Ha Hn. apply list_elem_of_split in Hin as (l1 & l2 & ->).
  rewrite !filter_app, !filter_cons, !length_app. rewrite (decide_False (P := P a)), (decide_True (P := Q a)) by done.
  pose proof (filter_length_le P Q l1 HPQ). pose proof (filter_length_le P Q l2 HPQ). simpl. lia.
Qed.
