(* ===== verification/Vector.v ===== *)
(** [common/Vector.h]: the growable array every Ruby container is built on.

    A [Vector] owns a heap array [m_vec] of [m_max_size] slots of which the
    first [m_size] are in use.  [new TYPE[n]] fills fresh slots with default
    constructed elements, here [inhabitant].  The [ref] accessors carry the
    bounds assertions (the build does not define [NO_VECTOR_BOUNDS_CHECKS]). *)

From S2P Require Import Prelude.

Record Vector (A : Type) := mkVector {
  m_vec : list A;
  m_size : Z;
  m_max_size : Z;
}.
Arguments mkVector {A}.
Arguments m_vec {A}.
Arguments m_size {A}.
Arguments m_max_size {A}.

Section operations.
  Context {A : Type} `{!Inhabited A}.
  Implicit Types (v : Vector A) (x : A).

Definition Vector_default : Vector A := mkVector [] 0 0.

(** A fresh block of [n] slots with the first [m_size] copied over. *)
Definition grow v (new_max_size : Z) : Vector A :=
  let kept := take (Z.to_nat (m_size v)) (m_vec v) in
  let temp_vec := kept ++ replicate (Z.to_nat (new_max_size - zlen kept)) inhabitant in
  mkVector temp_vec (m_size v) new_max_size.

Definition Vector_sized (initial_size : Z) : Vector A :=
  grow (mkVector [] 0 initial_size) initial_size.

Definition ref v (index : Z) : outcome A :=
  cassert (negb (m_size v =? 0));;
  cassert (index <? m_size v);;
  cassert (0 <=? index);;
  aread (m_vec v) index.

(** [v[index] = x], an assignment through the reference [ref] returns. *)
Definition ref_assign v (index : Z) x : outcome (Vector A) :=
  cassert (negb (m_size v =? 0));;
  cassert (index <? m_size v);;
  cassert (0 <=? index);;
  vec ← awrite (m_vec v) index x;
  mret (mkVector vec (m_size v) (m_max_size v)).

Definition setSize v (new_size : Z) : outcome (Vector A) :=
  let v1 := if m_max_size v <? new_size
            then grow v (Z.max ((m_max_size v + 1) * 2) new_size) else v in
  let v2 := mkVector (m_vec v1) new_size (m_max_size v1) in
  cassert (m_size v2 <=? m_max_size v2);;
  cassert (0 <=? m_size v2);;
  mret v2.

Definition expand v (num : Z) : outcome (Vector A) := setSize v (m_size v + num).

Definition increaseSize v (new_size : Z) (reset : A) : outcome (Vector A) :=
  cassert (m_size v <=? new_size);;
  let v1 := if m_max_size v <=? new_size
            then grow v (Z.max ((m_max_size v + 1) * 2) new_size) else v in
  let old_size := m_size v1 in
  let v2 := mkVector (m_vec v1) new_size (m_max_size v1) in
  v3 ← for_range old_size new_size (fun j w => ref_assign w j reset) v2;
  cassert (m_size v3 <=? m_max_size v3);;
  cassert (0 <=? m_size v3);;
  mret v3.

Definition vclear (v : Vector A) : Vector A := mkVector [] 0 0.

Definition insertAtTop v x : outcome (Vector A) :=
  v1 ← setSize v (m_size v + 1);
  v2 ← for_range_down (m_size v1 - 1) 1
         (fun i w => y ← ref w (i - 1); ref_assign w i y) v1;
  ref_assign v2 0 x.

Definition removeFromTop v (num : Z) : outcome (Vector A) :=
  let num := if m_size v <? num then m_size v else num in
  vec ← for_range 0 (m_size v - num)
          (fun i w => y ← aread w (i + num); awrite w i y) (m_vec v);
  mret (mkVector vec (m_size v - num) (m_max_size v)).

Definition insertAtBottom v x : outcome (Vector A) :=
  v1 ← setSize v (m_size v + 1);
  ref_assign v1 (m_size v1 - 1) x.

(** [sum], for any [+=] on the element type. *)
Definition sum (plus : A → A → A) v : outcome A :=
  cassert (0 <? m_size v);;
  x0 ← ref v 0;
  for_range 1 (m_size v) (fun i acc => y ← ref v i; mret (plus acc y)) x0.

(** The copy constructor: a new block of the same capacity. *)
Definition Vector_copy v : Vector A :=
  let kept := take (Z.to_nat (m_size v)) (m_vec v) in
  mkVector (kept ++ replicate (Z.to_nat (m_max_size v - zlen kept)) inhabitant)
           (m_size v) (m_max_size v).

End operations.

#[export] Instance Vector_inhabited {A} : Inhabited (Vector A) := populate Vector_default.

(** * Correctness *)

Section correctness.
  Context {A : Type} `{!Inhabited A}.
  Implicit Types (v : Vector A) (x : A).

(** The elements in use, the value a client sees. *)
Definition contents v : list A := take (Z.to_nat (m_size v)) (m_vec v).

Record wf v : Prop := {
  wf_size : 0 <= m_size v <= m_max_size v;
  wf_block : zlen (m_vec v) = m_max_size v;
}.

Lemma zlen_contents v : wf v -> zlen (contents v) = m_size v.
Proof. intros [? Hb]. unfold contents, zlen in *. rewrite length_take. lia. Qed.

Lemma zread_contents v i : i < m_size v -> zread (contents v) i = zread (m_vec v) i.
Proof.
  intros. unfold contents, zread. destruct (Z.leb_spec 0 i); [|done].
  rewrite lookup_take. case_decide; [done|lia].
Qed.

Lemma ref_in v i : wf v -> 0 <= i < m_size v ->
  exists x, zread (m_vec v) i = Some x /\ ref v i = Ok x.
Proof.
  intros [? Hb] Hi. destruct (aread_in (m_vec v) i) as (x & Hx & Hr); [lia|].
  exists x. split; [done|]. unfold ref, cassert.
  rewrite (proj2 (Z.eqb_neq _ 0)), (proj2 (Z.ltb_lt i _)), (proj2 (Z.leb_le 0 i)) by lia.
  exact Hr.
Qed.

Lemma ref_ok v i x : ref v i = Ok x -> 0 <= i < m_size v /\ zread (m_vec v) i = Some x.
Proof. unfold ref. intros. ok_inv. to_prop. rewrite <- aread_ok. split; [lia|done]. Qed.

Lemma ref_assign_in v i x : wf v -> 0 <= i < m_size v ->
  ref_assign v i x = Ok (mkVector (zwrite (m_vec v) i x) (m_size v) (m_max_size v)).
Proof.
  intros [? Hb] Hi. unfold ref_assign, cassert.
  rewrite (proj2 (Z.eqb_neq _ 0)), (proj2 (Z.ltb_lt i _)), (proj2 (Z.leb_le 0 i)) by lia.
  simpl. rewrite awrite_in by lia. done.
Qed.

Lemma wf_write v i x : wf v -> wf (mkVector (zwrite (m_vec v) i x) (m_size v) (m_max_size v)).
Proof. intros [? Hb]. split; simpl; [done|]. by rewrite zlen_zwrite. Qed.

Lemma wf_default : wf (Vector_default (A:=A)).
Proof. split; simpl; [lia|done]. Qed.

Lemma wf_grow v n : wf v -> m_size v <= n -> wf (grow v n).
Proof.
  intros Hv Hn. pose proof (zlen_contents v Hv) as Hc. destruct Hv as [? Hb].
  unfold contents, zlen in *. split; simpl; [lia|].
  unfold zlen. rewrite length_app, length_replicate. lia.
Qed.

Lemma grow_read v n i : wf v -> i < m_size v -> zread (m_vec (grow v n)) i = zread (m_vec v) i.
Proof.
  intros Hv Hi. simpl. rewrite zread_app_l.
  - by apply zread_contents.
  - fold (contents v). rewrite zlen_contents by done. done.
Qed.

(** [setSize] never faults on a non-negative size and keeps the old elements. *)
Lemma setSize_spec v n : wf v -> 0 <= n ->
  exists v', setSize v n = Ok v' /\ wf v' /\ m_size v' = n /\
    m_max_size v <= m_max_size v' /\
    forall i, i < Z.min n (m_size v) -> zread (m_vec v') i = zread (m_vec v) i.
Proof.
  intros Hv Hn. unfold setSize. destruct (Z.ltb_spec (m_max_size v) n) as [Hlt|Hge].
  - pose proof (wf_grow v (Z.max ((m_max_size v + 1) * 2) n) Hv) as [Hs Hb];
      [destruct Hv; lia|].
    eexists. split.
    { unfold cassert; simpl. rewrite (proj2 (Z.leb_le n _)), (proj2 (Z.leb_le 0 n)) by lia.
      reflexivity. }
    split_and!; simpl; [|lia|destruct Hv; lia|].
    + split; simpl; [lia|]. apply Hb.
    + intros i Hi. apply (grow_read v _ i Hv). lia.
  - eexists. split.
    { unfold cassert; simpl. rewrite (proj2 (Z.leb_le n _)), (proj2 (Z.leb_le 0 n)) by lia.
      reflexivity. }
    split_and!; simpl; [|lia|lia|done].
    destruct Hv. split; simpl; [lia|done].
Qed.

Lemma contents_ext v v' :
  wf v -> wf v' -> m_size v = m_size v' ->
  (forall i, 0 <= i < m_size v -> zread (m_vec v) i = zread (m_vec v') i) ->
  contents v = contents v'.
Proof.
  intros Hv Hv' Hs Hr. apply zread_ext; rewrite !zlen_contents by done; [done|].
  intros i Hi. rewrite !zread_contents by lia. by apply Hr.
Qed.

Lemma contents_is v (l : list A) :
  wf v -> m_size v = zlen l ->
  (forall i, 0 <= i < zlen l -> zread (m_vec v) i = zread l i) -> contents v = l.
Proof.
  intros Hv Hs Hr. apply zread_ext; rewrite zlen_contents by done; [done|].
  intros i Hi. rewrite zread_contents by lia. apply Hr. lia.
Qed.

(** The first growth of a vector: all default elements. *)
Lemma setSize_default n :
  0 < n -> exists v, setSize (Vector_default (A:=A)) n = Ok v /\ wf v /\ m_size v = n /\
    contents v = replicate (Z.to_nat n) inhabitant.
Proof.
  intros Hn. destruct (setSize_spec (Vector_default (A:=A)) n wf_default) as (v & E & Hv & Hs & _); [lia|].
  exists v. split_and!; [done|done|done|]. apply contents_is; [done|by rewrite zlen_replicate by lia|].
  intros i Hi. rewrite zlen_replicate in Hi by lia. unfold setSize in E. simpl in E.
  rewrite (proj2 (Z.ltb_lt 0 n)) in E by done. ok_inv. subst. simpl.
  rewrite zread_replicate, zread_replicate.
  rewrite (proj2 (Z.leb_le 0 i)), !(proj2 (Z.ltb_lt i _)) by (unfold zlen; simpl; lia). done.
Qed.

End correctness.

Section main_theorems.
  Context {A : Type} `{!Inhabited A}.
  Implicit Types (v : Vector A) (x : A).

(** Reading and assigning through [ref], on the contents. *)
Lemma ref_contents v i x : wf v -> ref v i = Ok x <-> zread (contents v) i = Some x.
Proof.
  intros Hv. split.
  - intros [Hi Hx]%ref_ok. rewrite zread_contents by lia. done.
  - intros Hx. pose proof (zread_range _ _ _ Hx) as Hi. rewrite zlen_contents in Hi by done.
    rewrite zread_contents in Hx by lia. destruct (ref_in v i Hv Hi) as (y & Hy & ->). congruence.
Qed.

Lemma ref_assign_contents v i x : wf v -> 0 <= i < m_size v ->
  exists v', ref_assign v i x = Ok v' /\ wf v' /\ m_size v' = m_size v /\
    contents v' = zwrite (contents v) i x.
Proof.
  intros Hv Hi. rewrite ref_assign_in by done. eexists. split; [done|].
  split_and!; [by apply wf_write|done|].
  apply contents_is; [by apply wf_write|by rewrite zlen_zwrite, zlen_contents|].
  intros j Hj. simpl. rewrite zlen_zwrite, zlen_contents in Hj by done.
  rewrite !zread_zwrite by (rewrite ?zlen_contents, ?(wf_block _ Hv) by done; pose proof (wf_size _ Hv); lia).
  rewrite zread_contents by lia. done.
Qed.

Lemma insertAtBottom_spec v x : wf v ->
  exists v', insertAtBottom v x = Ok v' /\ wf v' /\ contents v' = contents v ++ [x].
Proof.
  intros Hv. pose proof (zlen_contents v Hv) as Hc.
  destruct (setSize_spec v (m_size v + 1)) as (v1 & E & Hv1 & Hs & _ & Hr);
    [done|destruct Hv; lia|].
  unfold insertAtBottom. rewrite E; simpl. rewrite Hs.
  replace (m_size v + 1 - 1) with (m_size v) by lia.
  pose proof (wf_size v Hv). pose proof (wf_block v1 Hv1). pose proof (wf_size v1 Hv1).
  rewrite ref_assign_in by (done || lia). eexists. split; [done|].
  split; [by apply wf_write|]. apply contents_is; [by apply wf_write| |].
  - simpl. rewrite zlen_app, Hc. unfold zlen; simpl; lia.
  - simpl. rewrite zlen_app, Hc. change (zlen [x]) with 1. intros i Hi.
    rewrite zread_app, Hc. destruct (Z.ltb_spec i (m_size v)).
    + rewrite zread_zwrite_ne by lia. rewrite Hr by lia. by rewrite zread_contents.
    + replace i with (m_size v) by lia. rewrite zread_zwrite_eq by lia.
      by rewrite Z.sub_diag.
Qed.

Lemma insertAtTop_spec v x : wf v ->
  exists v', insertAtTop v x = Ok v' /\ wf v' /\ contents v' = x :: contents v.
Proof.
  intros Hv. pose proof (zlen_contents v Hv) as Hc. pose proof (wf_size v Hv).
  destruct (setSize_spec v (m_size v + 1)) as (v1 & E & Hv1 & Hs & _ & Hr); [done|lia|].
  unfold insertAtTop. rewrite E; simpl.
  destruct (for_range_down_inv
    (fun i w => wf w /\ m_size w = m_size v + 1 /\
       (forall j, 0 <= j <= i -> j < m_size v -> zread (m_vec w) j = zread (m_vec v) j) /\
       (forall j, i < j <= m_size v -> zread (m_vec w) j = zread (m_vec v) (j - 1)))
    (m_size v1 - 1) 1 (fun i w => y ← ref w (i - 1); ref_assign w i y) v1)
    as (v2 & E2 & Hv2 & Hs2 & Hlo & Hhi).
  - lia.
  - split_and!; [done|done| |]; intros j Hj; [|lia]. intros. apply Hr. lia.
  - intros i w Hi (Hw & Hsw & Hlo & Hhi).
    destruct (ref_in w (i - 1) Hw) as (y & Hy & Ey); [lia|].
    rewrite Ey; simpl. rewrite ref_assign_in by (done || lia). eexists. split; [done|].
    pose proof (wf_block w Hw). pose proof (wf_size w Hw).
    split_and!; simpl; [by apply wf_write|done| |]; intros j Hj.
    + intros. rewrite zread_zwrite_ne by lia. apply Hlo; lia.
    + destruct (Z.eq_dec i j) as [->|].
      * rewrite zread_zwrite_eq by lia. rewrite <- Hy. apply Hlo; lia.
      * rewrite zread_zwrite_ne by lia. apply Hhi. lia.
  - rewrite E2; simpl. pose proof (wf_block v2 Hv2). pose proof (wf_size v2 Hv2).
    rewrite ref_assign_in by (done || lia). eexists. split; [done|].
    split; [by apply wf_write|]. apply contents_is; [by apply wf_write| |].
    + simpl. unfold zlen in *. simpl. lia.
    + intros i Hi. simpl. rewrite zread_cons. unfold zlen in Hi, Hc; simpl in Hi.
      destruct (Z.eqb_spec i 0) as [->|]; [by rewrite zread_zwrite_eq by (unfold zlen in *; lia)|].
      rewrite zread_zwrite_ne by lia. rewrite Hhi by lia. symmetry. apply zread_contents. lia.
Qed.

Lemma removeFromTop_spec v n : wf v -> 0 <= n ->
  exists v', removeFromTop v n = Ok v' /\ wf v' /\
    contents v' = drop (Z.to_nat n) (contents v).
Proof.
  intros Hv Hn. pose proof (zlen_contents v Hv) as Hc. destruct (wf_size v Hv).
  pose proof (wf_block v Hv) as Hb. unfold removeFromTop.
  set (k := if m_size v <? n then m_size v else n).
  assert (0 <= k <= m_size v /\ drop (Z.to_nat n) (contents v) = drop (Z.to_nat k) (contents v))
    as [Hk ->].
  { subst k. destruct (Z.ltb_spec (m_size v) n); [|done]. split; [lia|].
    unfold zlen in Hc. rewrite !drop_ge by lia. done. }
  destruct (for_range_inv
    (fun i w => zlen w = m_max_size v /\
       (forall j, 0 <= j < i -> zread w j = zread (m_vec v) (j + k)) /\
       (forall j, i <= j -> zread w j = zread (m_vec v) j))
    0 (m_size v - k) (fun i w => y ← aread w (i + k); awrite w i y) (m_vec v))
    as (w & -> & Hw & Hlo & _).
  - lia.
  - split_and!; [done| |done]. lia.
  - intros i w Hi (Hw & Hlo & Hhi). destruct (aread_in w (i + k)) as (y & Hy & ->); [lia|].
    simpl. rewrite awrite_in by lia. eexists. split; [done|].
    split_and!; [by rewrite zlen_zwrite| |]; intros j Hj.
    + destruct (Z.eq_dec i j) as [->|].
      * rewrite zread_zwrite_eq by lia. rewrite <- Hy. apply Hhi. lia.
      * rewrite zread_zwrite_ne by lia. apply Hlo. lia.
    + rewrite zread_zwrite_ne by lia. apply Hhi. lia.
  - simpl. eexists. split; [done|].
    assert (wf (mkVector w (m_size v - k) (m_max_size v))) by (split; simpl; lia).
    split; [done|]. apply contents_is; [done| |]; simpl.
    + unfold zlen in *. rewrite length_drop. lia.
    + intros i Hi. unfold zlen in Hi, Hc. rewrite length_drop in Hi.
      rewrite Hlo by lia. rewrite zread_drop by lia. symmetry. apply zread_contents. lia.
Qed.

Lemma increaseSize_spec v n x : wf v -> m_size v <= n ->
  exists v', increaseSize v n x = Ok v' /\ wf v' /\
    contents v' = contents v ++ replicate (Z.to_nat (n - m_size v)) x.
Proof.
  intros Hv Hn. pose proof (zlen_contents v Hv) as Hc. destruct (wf_size v Hv).
  unfold increaseSize. rewrite (cassert_true _ (proj2 (Z.leb_le _ _) Hn)); simpl.
  set (v1 := if m_max_size v <=? n then _ else v).
  assert (wf v1 /\ m_size v1 = m_size v /\ n <= m_max_size v1 /\
          forall i, i < m_size v -> zread (m_vec v1) i = zread (m_vec v) i) as (Hv1 & Hs1 & Hm1 & Hr1).
  { subst v1. destruct (Z.leb_spec (m_max_size v) n).
    - split_and!; [apply wf_grow; [done|lia]|done|simpl; lia|].
      intros. by apply grow_read.
    - split_and!; [done|done|lia|done]. }
  destruct (for_range_inv
    (fun i w => wf w /\ m_size w = n /\ m_max_size w = m_max_size v1 /\
       (forall j, j < m_size v -> zread (m_vec w) j = zread (m_vec v) j) /\
       (forall j, m_size v <= j < i -> zread (m_vec w) j = Some x))
    (m_size v1) n (fun j w => ref_assign w j x) (mkVector (m_vec v1) n (m_max_size v1)))
    as (w & -> & Hw & Hsw & Hmw & Hlo & Hhi).
  - lia.
  - split_and!; simpl; [|done|done|done|lia]. destruct Hv1. split; simpl; [lia|done].
  - intros i w Hi (Hw & Hsw & Hmw & Hlo & Hhi). pose proof (wf_block w Hw).
    rewrite ref_assign_in by (done || lia). eexists. split; [done|].
    split_and!; simpl; [by apply wf_write|done|done| |]; intros j Hj.
    + rewrite zread_zwrite_ne by lia. by apply Hlo.
    + destruct (Z.eq_dec i j) as [->|]; [by apply zread_zwrite_eq; lia|].
      rewrite zread_zwrite_ne by lia. apply Hhi. lia.
  - simpl. rewrite !cassert_true by (apply Z.leb_le; lia). simpl. eexists. split; [done|].
    split; [done|]. apply contents_is; [done| |].
    + rewrite zlen_app, zlen_replicate by lia. lia.
    + rewrite zlen_app, zlen_replicate by lia. intros i Hi. rewrite zread_app, Hc.
      destruct (Z.ltb_spec i (m_size v)).
      * rewrite Hlo by lia. by rewrite zread_contents.
      * rewrite zread_replicate, Hhi by lia.
        by rewrite (proj2 (Z.leb_le 0 _)), (proj2 (Z.ltb_lt _ _)) by lia.
Qed.

Lemma Vector_copy_spec v : wf v -> wf (Vector_copy v) /\ contents (Vector_copy v) = contents v.
Proof.
  intros Hv. pose proof (zlen_contents v Hv) as Hc. destruct (wf_size v Hv).
  assert (wf (Vector_copy v)) as Hw.
  { pose proof (wf_block v Hv). unfold contents in Hc. split; simpl; [lia|].
    rewrite zlen_app, zlen_replicate by lia. lia. }
  split; [done|]. apply contents_ext; [done|done|done|]. intros i Hi. simpl in *.
  rewrite zread_app_l by (fold (contents v); lia). apply zread_contents. lia.
Qed.

End main_theorems.
