(* ===== verification/PrioHeap.v ===== *)
(** [common/PrioHeap.h]: the binary heap behind the event queue and behind every
    message buffer.

    The elements live in slots 1..[m_current_size] of a [Vector]; slot 0 is only
    written to keep a memory checker quiet.  Element types provide
    [node_less_then_eq], which may itself stop the simulator (the comparison of
    two message nodes asserts that they are not the same message), so it returns
    an outcome. *)

From S2P Require Import Prelude Vector.

(** What an element type has to provide. *)
Class PrioNode (A : Type) := node_less_then_eq : A → A → outcome bool.

(** What the heap relies on: on elements that may meet in one heap the
    comparison does not stop and is a total preorder. *)
Class PrioNodeLaws (A : Type) `{!PrioNode A} := {
  node_leb : A → A → bool;
  node_compat : A → A → Prop;
  node_compat_sym a b : node_compat a b -> node_compat b a;
  node_compare_ok a b : node_compat a b -> node_less_then_eq a b = Ok (node_leb a b);
  node_leb_trans a b c : node_leb a b = true -> node_leb b c = true -> node_leb a c = true;
  node_leb_total a b : node_leb a b = false -> node_leb b a = true;
}.

(** [HeapIndex] is [unsigned int]. *)
Definition get_parent (i : Z) : Z := Z.shiftr i 1.
Definition get_right (i : Z) : Z := Z.lor (u32 (Z.shiftl i 1)) 1.
Definition get_left (i : Z) : Z := u32 (Z.shiftl i 1).

Record PrioHeap (A : Type) := mkPrioHeap {
  m_heap : Vector A;
  m_current_size : Z;
}.
Arguments mkPrioHeap {A}.
Arguments m_heap {A}.
Arguments m_current_size {A}.

Section operations.
  Context {A : Type} `{!Inhabited A, !PrioNode A}.
  Implicit Types (h : PrioHeap A) (v : Vector A) (key : A).

Definition heap_init : PrioHeap A := mkPrioHeap Vector_default 0.
Definition heap_size h : Z := m_current_size h.

(** The [while] of [insert]; [i] at least halves in every round. *)
Fixpoint sift_up (fuel : nat) v key (i : Z) : outcome (Vector A * Z) :=
  match fuel with
  | O => Err OutOfFuel
  | S fuel' =>
      if 1 <? i then
        p ← ref v (get_parent i);
        b ← node_less_then_eq key p;
        if b : bool then
          v' ← ref_assign v i p;
          sift_up fuel' v' key (get_parent i)
        else Ok (v, i)
      else Ok (v, i)
  end.

Definition insert h key : outcome (PrioHeap A) :=
  let n := u32 (m_current_size h + 1) in
  v1 ← setSize (m_heap h) (n + 1);
  v2 ← (if n =? 1 then ref_assign v1 0 key else Ok v1);
  r ← sift_up (S (Z.to_nat n)) v2 key n;
  v4 ← ref_assign (fst r) (snd r) key;
  mret (mkPrioHeap v4 n).

Definition peekMin h : outcome A :=
  cassert (0 <? heap_size h);; ref (m_heap h) 1.

Definition peekElement h (index : Z) : outcome A :=
  cassert (0 <? heap_size h);; ref (m_heap h) index.

Definition prio_heap_swap v (i j : Z) : outcome (Vector A) :=
  temp ← ref v i;
  y ← ref v j;
  v1 ← ref_assign v i y;
  ref_assign v1 j temp.

(** Find the smallest of the current node and its children. *)
Definition pick_smallest v (size current_node : Z) : outcome Z :=
  let left := get_left current_node in
  let right := get_right current_node in
  smallest ← (if left <=? size then
                l ← ref v left; c ← ref v current_node;
                b ← node_less_then_eq l c;
                mret (if b : bool then left else current_node)
              else mret current_node);
  if right <=? size then
    r ← ref v right; s ← ref v smallest;
    b ← node_less_then_eq r s;
    mret (if b : bool then right else smallest)
  else mret smallest.

(** The [while(true)] of [heapify]; [current_node] at least doubles. *)
Fixpoint heapify (fuel : nat) v (size current_node : Z) : outcome (Vector A) :=
  match fuel with
  | O => Err OutOfFuel
  | S fuel' =>
      smallest ← pick_smallest v size current_node;
      if smallest =? current_node then Ok v
      else
        v' ← prio_heap_swap v current_node smallest;
        heapify fuel' v' size smallest
  end.

Definition extractMin h : outcome (A * PrioHeap A) :=
  cassert (0 <? heap_size h);;
  temp ← ref (m_heap h) 1;
  last ← ref (m_heap h) (m_current_size h);
  v1 ← ref_assign (m_heap h) 1 last;
  let n := u32 (m_current_size h - 1) in
  v2 ← heapify (S (Z.to_nat n)) v1 n 1;
  mret (temp, mkPrioHeap v2 n).

(** [verifyHeap(index)]; the recursion leaves the heap after
    [m_current_size] doublings. *)
Fixpoint verifyHeap_from (fuel : nat) h (index : Z) : outcome bool :=
  match fuel with
  | O => Err OutOfFuel
  | S fuel' =>
      let below :=
        r ← verifyHeap_from fuel' h (get_right index);
        if r : bool then verifyHeap_from fuel' h (get_left index) else Ok false in
      if m_current_size h <? index then Ok true
      else if index =? 1 then below
      else
        p ← ref (m_heap h) (get_parent index);
        x ← ref (m_heap h) index;
        b ← node_less_then_eq p x;
        if b : bool then below else Ok false
  end.
Definition verifyHeap h : outcome bool :=
  verifyHeap_from (S (Z.to_nat (m_current_size h))) h 1.

End operations.

(** * Index arithmetic *)

Lemma get_left_val i : 0 <= i < 2 ^ 31 -> get_left i = 2 * i.
Proof.
  intros. unfold get_left. rewrite Z.shiftl_mul_pow2 by lia.
  rewrite uwrap_small; lia.
Qed.

Lemma get_right_val i : 0 <= i < 2 ^ 31 -> get_right i = 2 * i + 1.
Proof.
  intros. change (get_right i) with (Z.lor (get_left i) 1). rewrite get_left_val by lia.
  rewrite <- Z.add_nocarry_lor; [lia|]. apply Z.bits_inj'. intros n Hn.
  rewrite Z.land_spec, Z.bits_0. destruct (Z.eq_dec n 0) as [->|].
  - by rewrite Z.testbit_even_0.
  - rewrite (Z.testbit_odd 1), Z.shiftr_div_pow2 by lia.
    rewrite Z.div_small; [by rewrite andb_false_r|].
    split; [lia|]. apply Z.pow_gt_1; lia.
Qed.

Lemma get_parent_val i : get_parent i = i / 2.
Proof. unfold get_parent. by rewrite Z.shiftr_div_pow2. Qed.

(** * Heaps as lists *)

Lemma zwrite_zwrite_eq {A} (l : list A) i x y : zwrite (zwrite l i x) i y = zwrite l i y.
Proof. unfold zwrite. destruct (0 <=? i); [by apply list_insert_insert_eq|done]. Qed.

(** The elements held in slots 1..n. *)
Definition live {A} (vec : list A) (n : Z) : list A := take (Z.to_nat n) (drop 1 vec).

Section live.
  Context {A : Type}.
  Implicit Types (vec : list A) (n i j : Z) (x : A).

Lemma zread_live vec n k : 0 <= k < n -> zread (live vec n) k = zread vec (k + 1).
Proof.
  intros. unfold live, zread. rewrite !(proj2 (Z.leb_le 0 _)) by lia.
  rewrite lookup_take. case_decide; [|lia]. rewrite lookup_drop. f_equal. lia.
Qed.

Lemma zlen_live vec n : 0 <= n < zlen vec -> zlen (live vec n) = n.
Proof. unfold zlen, live. rewrite length_take, length_drop. lia. Qed.

Lemma live_0 vec : live vec 0 = [].
Proof. unfold live. done. Qed.

Lemma live_zwrite vec n i x :
  1 <= i <= n -> live (zwrite vec i x) n = zwrite (live vec n) (i - 1) x.
Proof.
  intros. unfold live, zwrite. rewrite !(proj2 (Z.leb_le 0 _)) by lia.
  rewrite drop_insert_ge by lia. rewrite take_insert_lt by lia. f_equal. lia.
Qed.

Lemma live_ext vec vec' n :
  0 <= n < zlen vec -> n < zlen vec' ->
  (forall i, 1 <= i <= n -> zread vec i = zread vec' i) -> live vec n = live vec' n.
Proof.
  intros ?? H. apply zread_ext; rewrite !zlen_live by lia; [done|].
  intros i Hi. rewrite !zread_live by lia. apply H. lia.
Qed.

Lemma live_snoc vec n x :
  0 <= n -> zread vec (n + 1) = Some x -> live vec (n + 1) = live vec n ++ [x].
Proof.
  intros Hn Hx. pose proof (zread_range _ _ _ Hx).
  apply zread_ext; rewrite ?zlen_app, !zlen_live by lia; [done|].
  intros i Hi. rewrite zread_app, zread_live, zlen_live by lia.
  destruct (Z.ltb_spec i n); [by rewrite zread_live by lia|].
  replace i with n by lia. by rewrite Z.sub_diag.
Qed.

Lemma live_lookup vec n i x :
  1 <= i <= n -> zread vec i = Some x -> zread (live vec n) (i - 1) = Some x.
Proof. intros. rewrite zread_live by lia. by replace (i - 1 + 1) with i by lia. Qed.

Lemma elem_of_live vec n x :
  x ∈ live vec n -> exists i, 1 <= i <= n /\ zread vec i = Some x.
Proof.
  intros [k Hk]%list_elem_of_lookup. pose proof (lookup_lt_Some _ _ _ Hk) as Hl.
  assert (Z.of_nat k < n).
  { unfold live in Hl. rewrite length_take in Hl. lia. }
  exists (Z.of_nat k + 1). split; [lia|]. rewrite <- zread_live with (n := n) by lia.
  by rewrite zread_of_nat.
Qed.

Lemma live_swap vec n i j x y :
  1 <= i <= n -> 1 <= j <= n -> zread vec i = Some x -> zread vec j = Some y ->
  live (zwrite (zwrite vec i y) j x) n ≡ₚ live vec n.
Proof.
  intros Hi Hj Hx%(live_lookup vec n i x Hi) Hy%(live_lookup vec n j y Hj).
  rewrite !live_zwrite by lia. unfold zread, zwrite in *.
  rewrite (proj2 (Z.leb_le 0 (i - 1))), (proj2 (Z.leb_le 0 (j - 1))) in * by lia.
  by apply Permutation_insert_swap.
Qed.

End live.

(** Any two elements of the list may be compared. *)
Definition all_compat {A} `{!PrioNode A, !PrioNodeLaws A} (l : list A) : Prop :=
  forall i j a b, i <> j -> zread l i = Some a -> zread l j = Some b -> node_compat a b.

Section compat.
  Context {A : Type} `{!PrioNode A, !PrioNodeLaws A}.
  Implicit Types (l k : list A).

Lemma all_compat_perm l k : l ≡ₚ k -> all_compat k -> all_compat l.
Proof.
  intros (_ & f & Hf & Hl)%Permutation_inj Hk i j a b Hij Ha Hb.
  pose proof (zread_range _ _ _ Ha). pose proof (zread_range _ _ _ Hb).
  rewrite zread_lookup in Ha by lia. rewrite zread_lookup in Hb by lia.
  rewrite Hl in Ha, Hb.
  apply (Hk (Z.of_nat (f (Z.to_nat i))) (Z.of_nat (f (Z.to_nat j))));
    [|by rewrite zread_of_nat..].
  intros E%Nat2Z.inj%Hf. lia.
Qed.

Lemma all_compat_cons x l :
  all_compat (x :: l) <-> all_compat l /\ forall y, y ∈ l -> node_compat x y.
Proof.
  split.
  - intros H. split.
    + intros i j a b Hij Ha Hb. apply (H (i + 1) (j + 1)); [lia| |];
        rewrite zread_cons; pose proof (zread_range _ _ _ Ha); pose proof (zread_range _ _ _ Hb);
        rewrite (proj2 (Z.eqb_neq _ 0)), Z.add_simpl_r by lia; done.
    + intros y [i Hi]%list_elem_of_lookup. apply (H 0 (Z.of_nat i + 1)); [lia|done|].
      rewrite zread_cons, (proj2 (Z.eqb_neq _ 0)), Z.add_simpl_r by lia.
      by rewrite zread_of_nat.
  - intros [Hl Hx] i j a b Hij. rewrite !zread_cons.
    destruct (Z.eqb_spec i 0), (Z.eqb_spec j 0); [lia| | |].
    + intros [= <-] ?. apply Hx. eauto using zread_elem_of.
    + intros ? [= <-]. apply node_compat_sym, Hx. eauto using zread_elem_of.
    + apply Hl. lia.
Qed.

Lemma node_leb_refl (a : A) : node_leb a a = true.
Proof.
  destruct (node_leb a a) eqn:E; [done|].
  pose proof (node_leb_total _ _ E). congruence.
Qed.

End compat.

(** * The heap order *)

Section order.
  Context {A : Type} `{!Inhabited A, !PrioNode A, !PrioNodeLaws A}.
  Implicit Types (vec : list A) (n i j : Z) (a b key : A).

(** Every slot but the root is above its parent. *)
Definition heap_ordered vec n : Prop :=
  forall j a b, 2 <= j <= n -> zread vec (j / 2) = Some a -> zread vec j = Some b ->
    node_leb a b = true.

(** The order while slot [i] is on its way up: it may be below its parent. *)
Definition ordered_but_up vec n i : Prop :=
  (forall j a b, 2 <= j <= n -> j <> i ->
     zread vec (j / 2) = Some a -> zread vec j = Some b -> node_leb a b = true) /\
  (forall j a b, 2 <= i -> 2 <= j <= n -> j / 2 = i ->
     zread vec (i / 2) = Some a -> zread vec j = Some b -> node_leb a b = true).

(** The order while slot [i] is on its way down: it may be above its children. *)
Definition ordered_but_down vec n i : Prop :=
  (forall j a b, 2 <= j <= n -> j / 2 <> i ->
     zread vec (j / 2) = Some a -> zread vec j = Some b -> node_leb a b = true) /\
  (forall j a b, 2 <= i -> 2 <= j <= n -> j / 2 = i ->
     zread vec (i / 2) = Some a -> zread vec j = Some b -> node_leb a b = true).

Ltac slots :=
  repeat match goal with
  | H : context [zread (zwrite _ _ _) _] |- _ =>
      rewrite zread_zwrite in H by (rewrite ?zlen_zwrite; lia)
  | H : context [if ?i =? ?j then _ else _] |- _ => destruct (Z.eqb_spec i j)
  | H : Some _ = Some _ |- _ => injection H as <-
  end; try lia.

Lemma up_step vec n i key p :
  2 <= i <= n -> n < zlen vec -> zread vec i = Some key -> zread vec (i / 2) = Some p ->
  node_leb key p = true -> ordered_but_up vec n i ->
  ordered_but_up (zwrite (zwrite vec i p) (i / 2) key) n (i / 2).
Proof.
  intros Hi Hn Hk Hp Hle [H1 H2]. split.
  - intros j a b Hj Hne Ha Hb. slots; try done.
    + apply node_leb_trans with p; [done|]. apply (H1 j); (done || lia || congruence).
    + apply (H2 j); (done || lia || congruence).
    + apply (H1 j); (done || lia).
  - intros j a b Hq Hj Hjq Ha Hb. slots.
    + apply (H1 (i / 2)); (done || lia).
    + apply node_leb_trans with p; [apply (H1 (i / 2))|apply (H1 j)];
        (done || lia || congruence).
Qed.

Lemma up_done vec n i :
  ordered_but_up vec n i ->
  (i <= 1 \/ exists a b, zread vec (i / 2) = Some a /\ zread vec i = Some b /\
                        node_leb a b = true) ->
  heap_ordered vec n.
Proof.
  intros [H1 _] Hend j a b Hj Ha Hb. destruct (Z.eq_dec j i) as [->|]; [|by eapply H1].
  destruct Hend as [|(a' & b' & Ha' & Hb' & Hle)]; [lia|]. congruence.
Qed.

Lemma heap_ordered_up vec n key :
  0 <= n -> n + 1 < zlen vec -> heap_ordered vec n ->
  ordered_but_up (zwrite vec (n + 1) key) (n + 1) (n + 1).
Proof.
  intros Hn Hl H. split.
  - intros j a b Hj Hne Ha Hb. slots. eapply (H j); eauto. lia.
  - intros j a b Hj. lia.
Qed.

(** One exchange of the downward pass; [s] is the child the code picks. *)
Lemma down_step vec n i s x y :
  1 <= i -> s / 2 = i -> 2 <= s <= n -> n < zlen vec ->
  zread vec i = Some x -> zread vec s = Some y -> node_leb y x = true ->
  (forall j b, 2 <= j <= n -> j / 2 = i -> zread vec j = Some b -> node_leb y b = true) ->
  ordered_but_down vec n i ->
  ordered_but_down (zwrite (zwrite vec i y) s x) n s.
Proof.
  intros Hi Hs Hsn Hn Hx Hy Hle Hmin [H1 H2]. split.
  - intros j a b Hj Hne Ha Hb. slots; try done.
    + apply (H2 s); (done || lia || congruence).
    + by apply (Hmin j).
    + by apply (H1 j).
  - intros j a b Hs2 Hj Hjs Ha Hb. slots.
    apply (H1 j); (done || lia || congruence).
Qed.

Lemma down_done vec n i x :
  zread vec i = Some x ->
  (forall j b, 2 <= j <= n -> j / 2 = i -> zread vec j = Some b -> node_leb x b = true) ->
  ordered_but_down vec n i -> heap_ordered vec n.
Proof.
  intros Hx Hmin [H1 _] j a b Hj Ha Hb. destruct (Z.eq_dec (j / 2) i) as [E|]; [|by eapply H1].
  rewrite E in Ha. simplify_eq. by apply (Hmin j).
Qed.

Lemma heap_ordered_down vec n x :
  n < zlen vec -> heap_ordered vec (n + 1) -> ordered_but_down (zwrite vec 1 x) n 1.
Proof.
  intros Hl H. split.
  - intros j a b Hj Hne Ha Hb. slots. eapply (H j); eauto. lia.
  - intros j a b Hj. lia.
Qed.

(** The root is a minimum. *)
Lemma root_min vec n r i b :
  n < zlen vec -> heap_ordered vec n -> zread vec 1 = Some r -> 1 <= i <= n ->
  zread vec i = Some b -> node_leb r b = true.
Proof.
  intros Hl H Hr. revert b. induction i as [i IH] using (well_founded_induction (Z.lt_wf 0)).
  intros b Hi Hb. destruct (Z.eq_dec i 1) as [->|].
  - simplify_eq. apply node_leb_refl.
  - destruct (zread_is_some vec (i / 2)) as [a Ha]; [lia|].
    apply node_leb_trans with a; [apply (IH (i / 2)); [lia|lia|done]|].
    eapply (H i); eauto. lia.
Qed.

End order.

(** * The operations *)

Section correctness.
  Context {A : Type} `{!Inhabited A, !PrioNode A, !PrioNodeLaws A}.
  Implicit Types (h : PrioHeap A) (v : Vector A) (key : A).

(** The multiset a heap holds, up to the order of the list. *)
Definition heap_list h : list A := live (m_vec (m_heap h)) (m_current_size h).

(** Sizes stay below 2^30, so that child indices fit [unsigned int]. *)
Definition heap_limit : Z := 2 ^ 30.

Record heap_wf h : Prop := {
  hw_vec : wf (m_heap h);
  hw_size : 0 <= m_current_size h < heap_limit;
  hw_room : m_current_size h = 0 \/ m_current_size h < m_size (m_heap h);
  hw_compat : all_compat (heap_list h);
  hw_order : heap_ordered (m_vec (m_heap h)) (m_current_size h);
}.

Lemma compare_slots vec n i j a b :
  all_compat (live vec n) -> 1 <= i <= n -> 1 <= j <= n -> i <> j ->
  zread vec i = Some a -> zread vec j = Some b ->
  node_less_then_eq a b = Ok (node_leb a b).
Proof.
  intros Hc Hi Hj Hij Ha Hb. apply node_compare_ok, (Hc (i - 1) (j - 1)); [lia| |];
    by apply live_lookup.
Qed.

Lemma sift_up_spec fuel v key i n :
  wf v -> n < m_size v -> 1 <= i <= n -> (Z.to_nat i < fuel)%nat ->
  ordered_but_up (zwrite (m_vec v) i key) n i ->
  all_compat (live (zwrite (m_vec v) i key) n) ->
  exists v' i', sift_up fuel v key i = Ok (v', i') /\ wf v' /\ m_size v' = m_size v /\
    1 <= i' <= n /\ heap_ordered (zwrite (m_vec v') i' key) n /\
    live (zwrite (m_vec v') i' key) n ≡ₚ live (zwrite (m_vec v) i key) n.
Proof.
  revert v i. induction fuel as [|fuel IH]; intros v i Hv Hn Hi Hf Ho Hc; [lia|].
  pose proof (wf_block v Hv). pose proof (wf_size v Hv). cbn [sift_up].
  assert (zread (zwrite (m_vec v) i key) i = Some key) as Hk by (apply zread_zwrite_eq; lia).
  destruct (Z.ltb_spec 1 i) as [Hi1|Hi1].
  2:{ exists v, i. split_and!; try (done || lia). apply up_done with i; [done|]. left. lia. }
  rewrite get_parent_val. destruct (ref_in v (i / 2) Hv) as (p & Hp & ->); [lia|]. simpl.
  assert (zread (zwrite (m_vec v) i key) (i / 2) = Some p) as Hp'
    by (rewrite zread_zwrite_ne by lia; done).
  rewrite (compare_slots _ n i (i / 2) key p Hc) by (done || lia). simpl.
  destruct (node_leb key p) eqn:Hle.
  - rewrite ref_assign_in by (done || lia). simpl.
    set (v1 := mkVector _ _ _).
    pose proof (up_step (zwrite (m_vec v) i key) n i key p ltac:(lia) ltac:(rewrite zlen_zwrite; lia) Hk Hp' Hle Ho) as Ho1.
    pose proof (live_swap (zwrite (m_vec v) i key) n i (i / 2) key p ltac:(lia) ltac:(lia) Hk Hp') as Hperm.
    rewrite zwrite_zwrite_eq in Ho1, Hperm.
    destruct (IH v1 (i / 2)) as (v' & i' & E & Hv' & Hs' & Hi' & Ho' & Hp2).
    { by apply wf_write. } { done. } { lia. } { lia. } { done. }
    { by apply all_compat_perm with (live (zwrite (m_vec v) i key) n). }
    exists v', i'. split_and!; try (done || lia). by rewrite Hp2.
  - exists v, i. split_and!; try (done || lia). apply up_done with i; [done|].
    right. exists p, key. split_and!; [done|done|]. by apply node_leb_total.
Qed.

(** The vector [insert] starts its loop from. *)
Lemma insert_prepare h key :
  heap_wf h ->
  exists v, (v1 ← setSize (m_heap h) (m_current_size h + 1 + 1);
             (if m_current_size h + 1 =? 1 then ref_assign v1 0 key else Ok v1)) = Ok v /\
    wf v /\ m_size v = m_current_size h + 2 /\
    (forall i, 1 <= i <= m_current_size h -> zread (m_vec v) i = zread (m_vec (m_heap h)) i).
Proof.
  intros Hh. destruct (hw_size h Hh). pose proof (hw_room h Hh) as Hroom.
  set (n := m_current_size h) in *.
  destruct (setSize_spec (m_heap h) (n + 1 + 1)) as (v1 & -> & Hv1 & Hs1 & _ & Hr1);
    [apply Hh|lia|].
  assert (forall i, 1 <= i <= n -> zread (m_vec v1) i = zread (m_vec (m_heap h)) i) as Hr.
  { intros i Hi. apply Hr1. lia. }
  simpl. destruct (Z.eqb_spec (n + 1) 1).
  - rewrite ref_assign_in by (done || lia). eexists. split_and!; [done|by apply wf_write|simpl; lia|].
    intros. lia.
  - exists v1. split_and!; [done|done|lia|done].
Qed.

(** [insert] adds its key to the multiset and keeps the heap order. *)
Lemma insert_spec h key :
  heap_wf h -> m_current_size h + 1 < heap_limit ->
  (forall x, x ∈ heap_list h -> node_compat key x) ->
  exists h', insert h key = Ok h' /\ heap_wf h' /\
    m_current_size h' = m_current_size h + 1 /\ heap_list h' ≡ₚ key :: heap_list h.
Proof.
  intros Hh Hlim Hk. destruct (hw_size h Hh).
  unfold insert. rewrite uwrap_small by (unfold heap_limit in *; lia).
  destruct (insert_prepare h key Hh) as (v & E & Hv & Hs & Hr).
  pose proof (hw_room h Hh) as Hroom. set (n := m_current_size h) in *.
  rewrite <- bind_assoc, E, bind_of_ok.
  pose proof (wf_block v Hv) as Hb. pose proof (wf_size v Hv).
  assert (zlen (m_vec v) > n + 1) by lia.
  assert (live (m_vec v) n = heap_list h) as Hlive.
  { unfold heap_list. fold n. destruct (Z.eq_dec n 0) as [->|]; [done|].
    pose proof (wf_block _ (hw_vec h Hh)). pose proof (wf_size _ (hw_vec h Hh)).
    apply live_ext; [lia|lia|]. intros. apply Hr. lia. }
  assert (live (zwrite (m_vec v) (n + 1) key) (n + 1) = heap_list h ++ [key]) as Hlive1.
  { rewrite live_snoc with (x := key); [|lia|by apply zread_zwrite_eq; lia].
    f_equal. rewrite <- Hlive. apply live_ext; rewrite ?zlen_zwrite; [lia|lia|].
    intros. apply zread_zwrite_ne. lia. }
  assert (all_compat (heap_list h ++ [key])) as Hc.
  { apply all_compat_perm with (key :: heap_list h); [by rewrite Permutation_app_comm|].
    apply all_compat_cons. split; [apply Hh|done]. }
  destruct (sift_up_spec (S (Z.to_nat (n + 1))) v key (n + 1) (n + 1))
    as (v' & i' & E1 & Hv' & Hs' & Hi' & Ho' & Hp').
  { done. } { lia. } { lia. } { lia. }
  { apply heap_ordered_up; [lia|lia|]. intros j a b Hj Ha Hb'.
    rewrite Hr in Ha, Hb' by lia. by eapply (hw_order h Hh). }
  { by rewrite Hlive1. }
  rewrite E1, bind_of_ok. cbn [fst snd]. rewrite ref_assign_in by (done || lia).
  eexists. split; [done|]. rewrite Hlive1 in Hp'.
  assert (heap_list (mkPrioHeap (mkVector (zwrite (m_vec v') i' key) (m_size v') (m_max_size v'))
            (n + 1)) ≡ₚ key :: heap_list h) as Hperm.
  { unfold heap_list at 1; simpl. rewrite Hp'. by rewrite Permutation_app_comm. }
  split_and!; [|done|done].
  split; simpl; [by apply wf_write|unfold heap_limit in *; lia|lia| |done].
  eapply all_compat_perm; [done|]. apply all_compat_cons. split; [apply Hh|done].
Qed.

Lemma prio_heap_swap_in v i j x y :
  wf v -> 0 <= i < m_size v -> 0 <= j < m_size v ->
  zread (m_vec v) i = Some x -> zread (m_vec v) j = Some y ->
  prio_heap_swap v i j =
    Ok (mkVector (zwrite (zwrite (m_vec v) i y) j x) (m_size v) (m_max_size v)).
Proof.
  intros Hv Hi Hj Hx Hy. unfold prio_heap_swap.
  destruct (ref_in v i Hv Hi) as (x' & Hx' & ->). rewrite Hx in Hx'. injection Hx' as <-.
  destruct (ref_in v j Hv Hj) as (y' & Hy' & ->). rewrite Hy in Hy'. injection Hy' as <-. simpl.
  rewrite ref_assign_in by done. simpl.
  by rewrite ref_assign_in by (done || by apply wf_write).
Qed.

Lemma ref_val v i x : wf v -> i < m_size v -> zread (m_vec v) i = Some x -> ref v i = Ok x.
Proof.
  intros Hv Hi Hx. pose proof (zread_range _ _ _ Hx).
  destruct (ref_in v i Hv) as (x' & Hx' & ->); [lia|]. congruence.
Qed.

(** [pick_smallest] returns the slot of a least element among the node and its
    children. *)
Lemma pick_smallest_spec v n i x :
  wf v -> 0 <= n < heap_limit -> n < m_size v -> 1 <= i <= Z.max 1 n ->
  all_compat (live (m_vec v) n) -> zread (m_vec v) i = Some x ->
  exists s y, pick_smallest v n i = Ok s /\ zread (m_vec v) s = Some y /\
    (s = i \/ (s / 2 = i /\ 2 <= s <= n)) /\ node_leb y x = true /\
    (forall j b, 2 <= j <= n -> j / 2 = i -> zread (m_vec v) j = Some b -> node_leb y b = true).
Proof.
  intros Hv Hlim Hn Hi Hc Hx. unfold heap_limit in Hlim.
  pose proof (wf_block v Hv). pose proof (wf_size v Hv).
  unfold pick_smallest. rewrite get_left_val, get_right_val by lia.
  destruct (Z.leb_spec (2 * i) n) as [Hl|Hl].
  2:{ rewrite (proj2 (Z.leb_gt (2 * i + 1) n)) by lia. exists i, x.
      split_and!; [done|done|by left|apply node_leb_refl|]. intros j b ??. lia. }
  destruct (zread_is_some (m_vec v) (2 * i)) as [l El]; [lia|].
  rewrite (ref_val v (2 * i) l), (ref_val v i x) by (done || lia). simpl.
  rewrite (compare_slots _ n (2 * i) i l x Hc) by (done || lia). simpl.
  assert (forall j : Z, 2 <= j <= n -> j / 2 = i -> j = 2 * i \/ j = 2 * i + 1) as Hch by lia.
  destruct (Z.leb_spec (2 * i + 1) n) as [Hr|Hr].
  - destruct (zread_is_some (m_vec v) (2 * i + 1)) as [r Er]; [lia|].
    rewrite (ref_val v (2 * i + 1) r) by (done || lia). simpl.
    destruct (node_leb l x) eqn:Elx; simpl.
    + rewrite (ref_val v (2 * i) l) by (done || lia). simpl.
      rewrite (compare_slots _ n (2 * i + 1) (2 * i) r l Hc) by (done || lia). simpl.
      destruct (node_leb r l) eqn:Erl; eexists _, _; (split_and!; [done|eassumption|lia| |]);
        [by eapply node_leb_trans| |done|]; intros j b Hj Hji Hb;
        destruct (Hch j Hj Hji) as [-> | ->]; simplify_eq;
        auto using node_leb_refl, node_leb_total.
    + rewrite (ref_val v i x) by (done || lia). simpl.
      rewrite (compare_slots _ n (2 * i + 1) i r x Hc) by (done || lia). simpl.
      apply node_leb_total in Elx.
      destruct (node_leb r x) eqn:Erx; eexists _, _; (split_and!; [done|eassumption|lia| |]);
        [done| |apply node_leb_refl|]; intros j b Hj Hji Hb;
        destruct (Hch j Hj Hji) as [-> | ->]; simplify_eq;
        eauto using node_leb_refl, node_leb_total, node_leb_trans.
  - destruct (node_leb l x) eqn:Elx; eexists _, _; (split_and!; [done|eassumption|lia| |]);
      [done| |apply node_leb_refl|]; intros j b Hj Hji Hb;
      assert (j = 2 * i) as -> by lia; simplify_eq; auto using node_leb_refl, node_leb_total.
Qed.

Lemma heapify_spec fuel v n i :
  wf v -> 0 <= n < heap_limit -> n < m_size v -> 1 < m_size v -> 1 <= i <= Z.max 1 n ->
  (Z.to_nat (n - i) < fuel)%nat ->
  all_compat (live (m_vec v) n) -> ordered_but_down (m_vec v) n i ->
  exists v', heapify fuel v n i = Ok v' /\ wf v' /\ m_size v' = m_size v /\
    heap_ordered (m_vec v') n /\ live (m_vec v') n ≡ₚ live (m_vec v) n.
Proof.
  revert v i. induction fuel as [|fuel IH]; intros v i Hv Hlim Hn Hn1 Hi Hf Hc Ho; [lia|].
  pose proof (wf_block v Hv). pose proof (wf_size v Hv). cbn [heapify].
  destruct (zread_is_some (m_vec v) i) as [x Hx]; [lia|].
  destruct (pick_smallest_spec v n i x) as (s & y & -> & Hy & Hs & Hle & Hmin);
    [done|done|done|done|done|done|].
  rewrite bind_of_ok. destruct (Z.eqb_spec s i) as [->|Hne].
  - simplify_eq. exists v. split_and!; try done. by eapply down_done.
  - destruct Hs as [?|[Hsi Hsn]]; [done|].
    rewrite (prio_heap_swap_in v i s x y) by (done || lia). rewrite bind_of_ok.
    pose proof (live_swap (m_vec v) n i s x y ltac:(lia) ltac:(lia) Hx Hy) as Hperm.
    destruct (IH (mkVector (zwrite (zwrite (m_vec v) i y) s x) (m_size v) (m_max_size v)) s)
      as (v' & E & Hv' & Hs' & Ho' & Hp').
    { by apply (wf_write (mkVector _ _ _)), wf_write. }
    1-5: simpl; lia.
    { simpl. by apply all_compat_perm with (live (m_vec v) n). }
    { simpl. apply down_step; (done || lia). }
    exists v'. split_and!; try done. by rewrite Hp'.
Qed.

(** [extractMin] returns a least element, removes it and keeps the heap order. *)
Lemma extractMin_spec h :
  heap_wf h -> 0 < m_current_size h ->
  exists x h', extractMin h = Ok (x, h') /\ peekMin h = Ok x /\ heap_wf h' /\
    m_current_size h' = m_current_size h - 1 /\
    heap_list h ≡ₚ x :: heap_list h' /\
    (forall y, y ∈ heap_list h -> node_leb x y = true).
Proof.
  intros Hh Hpos. destruct (hw_size h Hh). pose proof (hw_vec h Hh) as Hv.
  assert (m_current_size h < m_size (m_heap h)) as Hroom by (destruct (hw_room h Hh); lia).
  pose proof (wf_block _ Hv). pose proof (wf_size _ Hv).
  unfold extractMin, peekMin, heap_size.
  rewrite (cassert_true _ (proj2 (Z.ltb_lt _ _) Hpos)), !bind_of_ok.
  set (n := m_current_size h) in *. set (vec := m_vec (m_heap h)) in *.
  destruct (zread_is_some vec 1) as [x Hx]; [lia|].
  destruct (zread_is_some vec n) as [z Hz]; [lia|].
  rewrite (ref_val _ 1 x), (ref_val _ n z), !bind_of_ok by (done || lia).
  rewrite ref_assign_in, bind_of_ok by (done || lia). fold vec.
  rewrite uwrap_small by (unfold heap_limit in *; lia).
  assert (live vec n ≡ₚ x :: live (zwrite vec 1 z) (n - 1)) as Hperm.
  { rewrite <- (live_swap vec n 1 n x z) by (done || lia).
    set (w := zwrite (zwrite vec 1 z) n x).
    assert (live w n = live w (n - 1) ++ [x]) as ->.
    { rewrite <- live_snoc; [f_equal; lia|lia|].
      replace (n - 1 + 1) with n by lia. apply zread_zwrite_eq. rewrite zlen_zwrite. lia. }
    rewrite Permutation_app_comm. simpl. enough (live w (n - 1) = live (zwrite vec 1 z) (n - 1)) as -> by done. subst w.
    apply live_ext; rewrite ?zlen_zwrite; [lia|lia|]. intros. apply zread_zwrite_ne. lia. }
  assert (all_compat (live (zwrite vec 1 z) (n - 1))) as Hc.
  { apply (all_compat_cons x), (all_compat_perm _ (live vec n)); [by rewrite Hperm|apply Hh]. }
  destruct (heapify_spec (S (Z.to_nat (n - 1)))
      (mkVector (zwrite vec 1 z) (m_size (m_heap h)) (m_max_size (m_heap h))) (n - 1) 1)
    as (v' & -> & Hv' & Hs' & Ho' & Hp').
  { by apply wf_write. } { unfold heap_limit in *. lia. } 1-4: simpl; lia.
  { done. }
  { simpl. apply heap_ordered_down; [lia|]. replace (n - 1 + 1) with n by lia. apply Hh. }
  rewrite bind_of_ok. simpl in *. eexists x, _. split_and!; [done|done| |done| |].
  - split; simpl; [done|unfold heap_limit in *; lia|lia| |done].
    eapply all_compat_perm; [done|]. exact Hc.
  - unfold heap_list; simpl. fold n vec. rewrite Hp'. exact Hperm.
  - intros y [i [Hi Hy]]%elem_of_live. apply root_min with vec n i; try done; [lia|apply Hh].
Qed.

Lemma heap_wf_init : heap_wf heap_init.
Proof.
  split; simpl; [apply wf_default|unfold heap_limit; lia|by left| |].
  - intros i j a b _ Ha%zread_range. change (0 <= i < 0) in Ha. lia.
  - intros j a b Hj. lia.
Qed.

(** Slot [j] lies in the subtree of slot [i]. *)
Definition in_subtree (i j : Z) : Prop := exists k, 0 <= k /\ j / 2 ^ k = i.

Lemma in_subtree_root j : 1 <= j -> in_subtree 1 j.
Proof.
  intros. exists (Z.log2 j). split; [apply Z.log2_nonneg|].
  pose proof (Z.log2_spec j ltac:(lia)) as Hl. rewrite Z.pow_succ_r in Hl by apply Z.log2_nonneg.
  symmetry. apply (Z.div_unique_pos _ _ _ (j - 2 ^ Z.log2 j)); lia.
Qed.

Lemma in_subtree_split i j :
  1 <= i -> in_subtree i j <-> j = i \/ in_subtree (2 * i) j \/ in_subtree (2 * i + 1) j.
Proof.
  intros Hi. split.
  - intros (k & Hk & E). destruct (Z.eq_dec k 0) as [->|].
    { left. rewrite <- E. change (2 ^ 0) with 1. by rewrite Z.div_1_r. }
    right. assert (j / 2 ^ k = j / 2 ^ (k - 1) / 2) as Hd.
    { rewrite Z.div_div by lia. f_equal. rewrite Z.mul_comm, <- Z.pow_succ_r by lia. f_equal. lia. }
    destruct (Z.eq_dec (j / 2 ^ (k - 1)) (2 * i)); [left|right]; exists (k - 1); split; lia.
  - assert (forall c, c / 2 = i -> in_subtree c j -> in_subtree i j) as Hup.
    { intros c Hc (k & Hk & E). exists (k + 1). split; [lia|].
      rewrite Z.pow_add_r, <- Z.div_div by lia. change (2 ^ 1) with 2. by rewrite E. }
    intros [-> |[H|H]].
    + exists 0. split; [lia|]. change (2 ^ 0) with 1. apply Z.div_1_r.
    + apply (Hup (2 * i)); [lia|done].
    + apply (Hup (2 * i + 1)); [lia|done].
Qed.

Lemma in_subtree_le i j : 1 <= i -> in_subtree i j -> i <= j.
Proof.
  intros Hi (k & Hk & E). pose proof (Z.pow_pos_nonneg 2 k ltac:(lia) Hk).
  destruct (Z.le_gt_cases 0 j).
  - rewrite <- E. apply Z.div_le_upper_bound; [done|]. nia.
  - pose proof (Z.div_lt_upper_bound j (2 ^ k) 0). lia.
Qed.

Definition subtree_ordered vec n i : Prop :=
  forall j a b, in_subtree i j -> 2 <= j <= n ->
    zread vec (j / 2) = Some a -> zread vec j = Some b -> node_leb a b = true.

Lemma subtree_ordered_split vec n i :
  1 <= i ->
  subtree_ordered vec n i <->
  (forall a b, 2 <= i <= n -> zread vec (i / 2) = Some a -> zread vec i = Some b ->
     node_leb a b = true) /\
  subtree_ordered vec n (2 * i) /\ subtree_ordered vec n (2 * i + 1).
Proof.
  intros Hi. split.
  - intros H. split_and!; [intros a b; apply (H i)|intros j a b Hj; apply (H j)..];
      rewrite in_subtree_split; tauto.
  - intros (H1 & H2 & H3) j a b [-> |[Hj|Hj]]%in_subtree_split; eauto.
Qed.

Lemma verifyHeap_from_spec fuel h i :
  wf (m_heap h) -> 0 <= m_current_size h < heap_limit ->
  m_current_size h < m_size (m_heap h) -> all_compat (heap_list h) ->
  1 <= i < 2 ^ 31 -> (Z.to_nat (m_current_size h + 1 - i) < fuel)%nat ->
  exists b, verifyHeap_from fuel h i = Ok b /\
    (b = true <-> subtree_ordered (m_vec (m_heap h)) (m_current_size h) i).
Proof.
  intros Hv Hlim Hn Hc. unfold heap_limit in Hlim. revert i.
  set (n := m_current_size h) in *. set (vec := m_vec (m_heap h)) in *.
  induction fuel as [|fuel IH]; intros i Hi Hf; [lia|].
  cbn [verifyHeap_from]. fold n. destruct (Z.ltb_spec n i).
  { exists true. split; [done|]. split; [|done]. intros _ j a b Hj ?.
    apply in_subtree_le in Hj; lia. }
  rewrite get_left_val, get_right_val by lia.
  destruct (IH (2 * i + 1)) as (br & -> & Hbr); [lia|lia|].
  destruct (IH (2 * i)) as (bl & -> & Hbl); [lia|lia|].
  pose proof (subtree_ordered_split vec n i ltac:(lia)) as Hsp. pose proof (wf_block _ Hv). pose proof (wf_size _ Hv).
  assert (exists c, ((r ← Ok br; if r : bool then Ok bl else Ok false) : outcome bool) = Ok c /\
    (c = true <-> subtree_ordered vec n (2 * i) /\ subtree_ordered vec n (2 * i + 1)))
    as (c & Ec & Hbc).
  { rewrite bind_of_ok. destruct br; [exists bl|exists false]; (split; [done|]);
      rewrite <- Hbl, <- Hbr; naive_solver. }
  rewrite Ec. destruct (Z.eqb_spec i 1) as [->|].
  { exists c. split; [done|]. rewrite Hsp, Hbc. split; [|tauto].
    intros ?. split; [|done]. lia. }
  rewrite get_parent_val.
  destruct (zread_is_some vec (i / 2)) as [p Hp]; [subst vec; lia|].
  destruct (zread_is_some vec i) as [x Hx]; [subst vec; lia|].
  rewrite (ref_val _ (i / 2) p), (ref_val _ i x), !bind_of_ok by (done || lia).
  rewrite (compare_slots vec n (i / 2) i p x) by (done || lia). rewrite bind_of_ok.
  destruct (node_leb p x) eqn:E; [exists c|exists false]; (split; [done|]).
  - rewrite Hsp, Hbc. split; [|tauto]. intros ?. split; [|done]. intros; congruence.
  - rewrite Hsp. split; [done|]. intros [Hp' _]. rewrite (Hp' p x) in E by (done || lia). done.
Qed.

(** The debugging check [verifyHeap] decides the heap order. *)
Lemma verifyHeap_spec h :
  wf (m_heap h) -> 0 <= m_current_size h < heap_limit ->
  m_current_size h < m_size (m_heap h) -> all_compat (heap_list h) ->
  exists b, verifyHeap h = Ok b /\
    (b = true <-> heap_ordered (m_vec (m_heap h)) (m_current_size h)).
Proof.
  intros Hv Hlim Hn Hc.
  destruct (verifyHeap_from_spec (S (Z.to_nat (m_current_size h))) h 1) as (b & E & Hb);
    [done|done|done|done|lia|lia|].
  exists b. split; [done|]. rewrite Hb. split; intros H j x y.
  - intros ?. apply H; [|done]. apply in_subtree_root. lia.
  - intros _. apply H.
Qed.

(** * A heap is a sorted multiset *)

Fixpoint insert_all (keys : list A) h : outcome (PrioHeap A) :=
  match keys with [] => Ok h | k :: keys' => h' ← insert h k; insert_all keys' h' end.

Fixpoint extract_all (n : nat) h : outcome (list A * PrioHeap A) :=
  match n with
  | O => Ok ([], h)
  | S n' => r ← extractMin h; r' ← extract_all n' (snd r); mret (fst r :: fst r', snd r')
  end.

Lemma insert_all_spec keys h :
  heap_wf h -> m_current_size h + zlen keys < heap_limit -> all_compat (keys ++ heap_list h) ->
  exists h', insert_all keys h = Ok h' /\ heap_wf h' /\
    m_current_size h' = m_current_size h + zlen keys /\ heap_list h' ≡ₚ keys ++ heap_list h.
Proof.
  revert h. induction keys as [|k keys IH]; intros h Hh Hlim Hc; simpl.
  { exists h. split_and!; [done|done|unfold zlen; simpl; lia|done]. }
  change (zlen (k :: keys)) with (zlen ([k] ++ keys)) in *. rewrite zlen_app in *.
  change (zlen [k]) with 1 in *. pose proof (zlen_nonneg keys).
  apply all_compat_cons in Hc as [Hc Hk].
  destruct (insert_spec h k Hh) as (h1 & -> & Hh1 & Hs1 & Hp1); [lia| |].
  { intros x Hx. apply Hk, elem_of_app. by right. }
  rewrite bind_of_ok. destruct (IH h1 Hh1) as (h2 & -> & Hh2 & Hs2 & Hp2); [lia| |].
  { apply (all_compat_perm _ (k :: keys ++ heap_list h)); [by rewrite Hp1, <- Permutation_middle|].
    by apply all_compat_cons. }
  exists h2. split_and!; [done|done|lia|]. by rewrite Hp2, Hp1, <- Permutation_middle.
Qed.

Lemma extract_all_spec n h :
  heap_wf h -> m_current_size h = Z.of_nat n ->
  exists out h', extract_all n h = Ok (out, h') /\ heap_wf h' /\ m_current_size h' = 0 /\
    out ≡ₚ heap_list h /\ StronglySorted (fun a b => node_leb a b = true) out.
Proof.
  revert h. induction n as [|n IH]; intros h Hh Hs.
  { exists [], h. split_and!; [done|done|done| |constructor].
    unfold heap_list. by rewrite Hs, live_0. }
  destruct (extractMin_spec h Hh) as (x & h1 & E1 & _ & Hh1 & Hs1 & Hp1 & Hmin); [lia|].
  destruct (IH h1 Hh1) as (out & h2 & E2 & Hh2 & Hs2 & Hp2 & Hso); [lia|].
  exists (x :: out), h2. cbn [extract_all]. rewrite E1, bind_of_ok. cbn [snd]. rewrite E2, bind_of_ok.
  split_and!; [done|done|done|by rewrite Hp1, Hp2|].
  constructor; [done|]. apply Forall_forall. intros y Hy. apply Hmin. rewrite Hp1. right.
  by rewrite <- Hp2.
Qed.

(** Inserting any keys into an empty heap and extracting as many succeeds, empties the
    heap and returns the keys in ascending order, for any node type whose comparison is
    a total preorder. *)
Theorem heap_sorts keys :
  all_compat keys -> zlen keys < heap_limit ->
  exists h out h', insert_all keys heap_init = Ok h /\ extract_all (length keys) h = Ok (out, h') /\
    heap_size h' = 0 /\ out ≡ₚ keys /\ StronglySorted (fun a b => node_leb a b = true) out.
Proof.
  intros Hc Hlim. assert (heap_list heap_init = @nil A) as H0 by reflexivity.
  destruct (insert_all_spec keys heap_init heap_wf_init) as (h & E & Hh & Hs & Hp).
  { exact Hlim. } { by rewrite H0, app_nil_r. } rewrite H0, app_nil_r in Hp.
  destruct (extract_all_spec (length keys) h Hh) as (out & h' & E' & _ & Hs' & Hp' & Hso).
  { rewrite Hs. unfold zlen. simpl. lia. }
  exists h, out, h'. split_and!; [done|done|done|by rewrite Hp'|done].
Qed.

(** The heap's own check holds after any insertions and extractions. *)
Theorem verifyHeap_after_operations keys n h :
  all_compat keys -> zlen keys < heap_limit -> insert_all keys heap_init = Ok h ->
  (n < length keys)%nat ->
  exists out h', extract_all n h = Ok (out, h') /\ verifyHeap h' = Ok true.
Proof.
  intros Hc Hlim E Hn. assert (heap_list heap_init = @nil A) as H0 by reflexivity.
  destruct (insert_all_spec keys heap_init heap_wf_init) as (h1 & E1 & Hh & Hs & _).
  { exact Hlim. } { by rewrite H0, app_nil_r. } rewrite E in E1. injection E1 as <-.
  assert (Z.of_nat n < m_current_size h) as Hn' by (rewrite Hs; unfold zlen; simpl; lia). clear E Hs Hn.
  revert h Hh Hn'. induction n as [|n IH]; intros h Hh Hn'.
  - exists [], h. split; [done|]. destruct (hw_room _ Hh) as [|Hr]; [lia|].
    destruct (verifyHeap_spec h (hw_vec _ Hh) (hw_size _ Hh) Hr (hw_compat _ Hh)) as (b & -> & Hb).
    f_equal. apply Hb, Hh.
  - destruct (extractMin_spec h Hh) as (x & h1 & E1 & _ & Hh1 & Hs1 & _); [lia|].
    destruct (IH h1 Hh1) as (out & h2 & E2 & Hv); [lia|].
    exists (x :: out), h2. cbn [extract_all]. rewrite E1, bind_of_ok. cbn [snd].
    by rewrite E2, bind_of_ok.
Qed.

End correctness.

(** * A heap of integers *)

#[local] Instance Z_node : PrioNode Z := fun a b => Ok (a <=? b).

#[local] Instance Z_node_laws : PrioNodeLaws Z.
Proof.
  refine {| node_leb a b := a <=? b; node_compat _ _ := True |};
    intros; try done; rewrite ?Z.leb_le, ?Z.leb_gt in *; lia.
Defined.

Lemma heap_sorts_witness :
  exists h out h', insert_all [5; 3; 9; 1; 3] heap_init = Ok h /\ extract_all 5 h = Ok (out, h') /\
    heap_size h' = 0 /\ out ≡ₚ [5; 3; 9; 1; 3] /\
    StronglySorted (fun a b => node_leb a b = true) out.
Proof. apply (heap_sorts [5; 3; 9; 1; 3]); [by intros ?|vm_compute; reflexivity]. Defined.

Lemma verifyHeap_after_operations_witness :
  exists h out h', insert_all [5; 3; 9; 1; 3] heap_init = Ok h /\
    extract_all 2 h = Ok (out, h') /\ verifyHeap h' = Ok true.
Proof.
  assert (exists h, insert_all [5; 3; 9; 1; 3] heap_init = Ok h) as [h E]
    by (eexists; vm_compute; reflexivity).
  destruct (verifyHeap_after_operations [5; 3; 9; 1; 3] 2 h) as (out & h' & E' & Hv);
    [by intros ?|vm_compute; reflexivity|exact E|simpl; lia|].
  exists h, out, h'. exact (conj E (conj E' Hv)).
Defined.
