(* ===== verification/EventQueue.v ===== *)
(** [eventqueue/EventQueue.{h,C}], [eventqueue/EventQueueNode.h] and
    [common/Consumer.h]: the discrete-event core of Ruby.

    A consumer is known by its address; [None] is the null pointer.  What a
    consumer does in its virtual [wakeup()] is the parameter [wakeup] of the
    second half of the file: it sees the current time, updates the rest of the
    simulator ([W]) and schedules events, in order.  [sim] also carries three
    observation traces the C++ code does not keep: the events popped, the
    [wakeup()] calls made and the scheduling requests these made, the latest
    first. *)

From S2P Require Import Prelude Vector PrioHeap.

Abbreviation Time := Z (only parsing).

Record EventQueueNode := mkEventQueueNode {
  m_time : Time;
  m_consumer_ptr : option Z;
}.

#[export] Instance EventQueueNode_inhabited : Inhabited EventQueueNode :=
  populate (mkEventQueueNode 0 None).

#[export] Instance event_node : PrioNode EventQueueNode := fun n1 n2 =>
  Ok (m_time n1 <=? m_time n2).

#[export] Instance event_node_laws : PrioNodeLaws EventQueueNode.
Proof.
  refine {| node_leb n1 n2 := m_time n1 <=? m_time n2; node_compat _ _ := True |};
    intros; try done; rewrite ?Z.leb_le, ?Z.leb_gt in *; lia.
Defined.

(** The two time stamps of [Consumer]. *)
Record Consumer := mkConsumer {
  m_last_scheduled_wakeup : Time;
  m_last_wakeup : Time;
}.
Definition Consumer_init : Consumer := mkConsumer 0 0.

Record EventQueue := mkEventQueue {
  m_prio_heap : PrioHeap EventQueueNode;
  m_globalTime : Time;
  m_timeOfLastRecovery : Time;
}.

Definition EventQueue_init : EventQueue := mkEventQueue heap_init 1 1.
Definition isEmpty (q : EventQueue) : bool := heap_size (m_prio_heap q) =? 0.
Definition getTime (q : EventQueue) : Time := m_globalTime q.
Definition setTimeOfLastRecovery (q : EventQueue) (t : Time) : EventQueue :=
  mkEventQueue (m_prio_heap q) (m_globalTime q) t.
Definition setTime (q : EventQueue) (t : Time) : EventQueue :=
  mkEventQueue (m_prio_heap q) t (m_timeOfLastRecovery q).
Definition setHeap (q : EventQueue) h : EventQueue :=
  mkEventQueue h (m_globalTime q) (m_timeOfLastRecovery q).

(** The consumers by address; one never written has its constructor's stamps. *)
Definition consumer_at (cs : gmap Z Consumer) (c : Z) : Consumer :=
  default Consumer_init (cs !! c).

Definition setLastScheduledWakeup (cs : gmap Z Consumer) (c : Z) (t : Time) : gmap Z Consumer :=
  <[c := mkConsumer t (m_last_wakeup (consumer_at cs c))]> cs.
Definition setLastWakeup (cs : gmap Z Consumer) (c : Z) (t : Time) : gmap Z Consumer :=
  <[c := mkConsumer (m_last_scheduled_wakeup (consumer_at cs c)) t]> cs.

Definition scheduleEventAbsolute (q : EventQueue) (cs : gmap Z Consumer)
    (consumer : option Z) (timeAbs : Time) : outcome (EventQueue * gmap Z Consumer) :=
  match consumer with
  | None => Err AssertFailed
  | Some c =>
      if negb (m_last_scheduled_wakeup (consumer_at cs c) =? timeAbs) then
        cassert (m_globalTime q <? timeAbs);;
        h ← insert (m_prio_heap q) (mkEventQueueNode timeAbs (Some c));
        mret (setHeap q h, setLastScheduledWakeup cs c timeAbs)
      else mret (q, cs)
  end.

Definition scheduleEvent (q : EventQueue) (cs : gmap Z Consumer)
    (consumer : option Z) (timeDelta : Time) : outcome (EventQueue * gmap Z Consumer) :=
  scheduleEventAbsolute q cs consumer (timeDelta + m_globalTime q).

Section simulation.
  Context {W : Type}.
  (** [wakeup c t w]: what consumer [c] does when woken at time [t]; the second
      component is the list of its calls [scheduleEventAbsolute(c', t')]. *)
  Context (wakeup : Z → Time → W → W * list (Z * Time)).

Record sim := mkSim {
  queue : EventQueue;
  consumers : gmap Z Consumer;
  world : W;
  fired : list EventQueueNode;       (** the events popped so far *)
  calls : list (Z * Time);           (** the wakeups called so far *)
  requests : list (Z * Time);        (** their calls of [scheduleEventAbsolute] *)
}.

Fixpoint schedule_all (reqs : list (Z * Time)) (q : EventQueue) (cs : gmap Z Consumer) :
    outcome (EventQueue * gmap Z Consumer) :=
  match reqs with
  | [] => Ok (q, cs)
  | (c, t) :: reqs' =>
      r ← scheduleEventAbsolute q cs (Some c) t;
      schedule_all reqs' (fst r) (snd r)
  end.

(** [Consumer::triggerWakeup]. *)
Definition triggerWakeup (st : sim) (c : Z) : outcome sim :=
  let time := getTime (queue st) in
  if negb (m_last_wakeup (consumer_at (consumers st) c) =? time) then
    let (w', reqs) := wakeup c time (world st) in
    r ← schedule_all reqs (queue st) (consumers st);
    mret (mkSim (fst r) (setLastWakeup (snd r) c time) w' (fired st) ((c, time) :: calls st) (reqs ++ requests st))
  else mret st.

(** One round of the loop of [triggerEvents]/[triggerAllEvents]. *)
Definition fire (st : sim) : outcome sim :=
  top ← peekMin (m_prio_heap (queue st));
  let q1 := setTime (queue st) (m_time top) in
  r ← extractMin (m_prio_heap q1);
  let (thisNode, h) := r : EventQueueNode * PrioHeap EventQueueNode in
  let st1 := mkSim (setHeap q1 h) (consumers st) (world st) (thisNode :: fired st) (calls st) (requests st) in
  match m_consumer_ptr thisNode with
  | None => Err AssertFailed
  | Some c => triggerWakeup st1 c
  end.

Fixpoint trigger_loop (fuel : nat) (st : sim) (t : Time) : outcome sim :=
  match fuel with
  | O => Err OutOfFuel
  | S fuel' =>
      if 0 <? heap_size (m_prio_heap (queue st)) then
        top ← peekMin (m_prio_heap (queue st));
        if m_time top <=? t then st' ← fire st; trigger_loop fuel' st' t
        else Ok st
      else Ok st
  end.

Definition triggerEvents (fuel : nat) (st : sim) (t : Time) : outcome sim :=
  st' ← trigger_loop fuel st t;
  mret (mkSim (setTime (queue st') t) (consumers st') (world st') (fired st') (calls st') (requests st')).

Fixpoint triggerAllEvents (fuel : nat) (st : sim) : outcome sim :=
  match fuel with
  | O => Err OutOfFuel
  | S fuel' =>
      if 0 <? heap_size (m_prio_heap (queue st)) then
        st' ← fire st; triggerAllEvents fuel' st'
      else Ok st
  end.

End simulation.
Arguments mkSim {W}.
Arguments queue {W}.
Arguments consumers {W}.
Arguments world {W}.
Arguments fired {W}.
Arguments calls {W}.
Arguments requests {W}.
Arguments sim : clear implicits.

(** * Invariant *)

Definition events (q : EventQueue) : list EventQueueNode := heap_list (m_prio_heap q).

(** Nothing queued lies in the past and every event has a consumer. *)
Record queue_inv (q : EventQueue) : Prop := {
  qi_heap : heap_wf (m_prio_heap q);
  qi_future e : e ∈ events q -> m_globalTime q <= m_time e;
  qi_target e : e ∈ events q -> is_Some (m_consumer_ptr e);
}.

Lemma queue_inv_init : queue_inv EventQueue_init.
Proof. split; [apply heap_wf_init| |]; intros e He; by apply elem_of_nil in He. Qed.

Lemma zlen_events q : queue_inv q -> zlen (events q) = heap_size (m_prio_heap q).
Proof.
  intros [Hh _ _]. unfold events, heap_list, heap_size. destruct (hw_size _ Hh).
  destruct (hw_room _ Hh) as [->|]; [by rewrite live_0|].
  pose proof (wf_block _ (hw_vec _ Hh)). pose proof (wf_size _ (hw_vec _ Hh)).
  apply zlen_live. lia.
Qed.

(** A consumer whose last request lies in the future still has that event queued:
    what makes it safe to drop a repeated request. *)
Definition wakeups_pending (q : EventQueue) (cs : gmap Z Consumer) : Prop :=
  forall c, m_globalTime q < m_last_scheduled_wakeup (consumer_at cs c) ->
    mkEventQueueNode (m_last_scheduled_wakeup (consumer_at cs c)) (Some c) ∈ events q.

Lemma wakeups_pending_init q : 0 <= m_globalTime q -> wakeups_pending q ∅.
Proof. intros Hq c. unfold consumer_at. rewrite lookup_empty. simpl. lia. Qed.

Lemma consumer_at_rescheduled cs c t c' :
  m_last_scheduled_wakeup (consumer_at (setLastScheduledWakeup cs c t) c') =
  if decide (c = c') then t else m_last_scheduled_wakeup (consumer_at cs c').
Proof. unfold consumer_at, setLastScheduledWakeup. rewrite lookup_insert. by case_decide. Qed.

Lemma consumer_at_woken_scheduled cs c t c' :
  m_last_scheduled_wakeup (consumer_at (setLastWakeup cs c t) c') =
  m_last_scheduled_wakeup (consumer_at cs c').
Proof.
  unfold consumer_at, setLastWakeup. rewrite lookup_insert. case_decide; [by subst|done].
Qed.

Lemma consumer_at_scheduled cs c t c' :
  m_last_wakeup (consumer_at (setLastScheduledWakeup cs c t) c') =
  m_last_wakeup (consumer_at cs c').
Proof.
  unfold consumer_at, setLastScheduledWakeup. rewrite lookup_insert. case_decide; [by subst|done].
Qed.

Lemma consumer_at_woken cs c t c' :
  m_last_wakeup (consumer_at (setLastWakeup cs c t) c') =
  if decide (c = c') then t else m_last_wakeup (consumer_at cs c').
Proof. unfold consumer_at, setLastWakeup. rewrite lookup_insert. by case_decide. Qed.

(** Scheduling for a later cycle never faults; it adds the event unless the
    consumer's last request was for the same cycle. *)
Lemma schedule_spec q cs c t :
  queue_inv q -> m_globalTime q < t -> zlen (events q) + 1 < heap_limit ->
  exists q' cs' added, scheduleEventAbsolute q cs (Some c) t = Ok (q', cs') /\ queue_inv q' /\
    m_globalTime q' = m_globalTime q /\ events q' ≡ₚ added ++ events q /\
    added = (if m_last_scheduled_wakeup (consumer_at cs c) =? t then []
             else [mkEventQueueNode t (Some c)]) /\
    (forall c', m_last_wakeup (consumer_at cs' c') = m_last_wakeup (consumer_at cs c')) /\
    (wakeups_pending q cs ->
       mkEventQueueNode t (Some c) ∈ events q' /\ wakeups_pending q' cs').
Proof.
  intros Hq Ht Hlim. unfold scheduleEventAbsolute.
  destruct (Z.eqb_spec (m_last_scheduled_wakeup (consumer_at cs c)) t); simpl.
  { exists q, cs, []. split_and!; try done. intros Hp. split; [|done]. subst t. by apply Hp. }
  rewrite cassert_true, bind_of_ok by (apply Z.ltb_lt; lia).
  pose proof (zlen_events q Hq) as Hl. unfold heap_size in Hl.
  destruct (insert_spec (m_prio_heap q) (mkEventQueueNode t (Some c)))
    as (h' & -> & Hh' & _ & Hp); [apply Hq|lia|done|]. rewrite bind_of_ok.
  eexists _, _, [mkEventQueueNode t (Some c)]. split; [done|].
  split; [|split_and!; [done|exact Hp|done| |]].
  - split; [done| |]; intros e; unfold events at 1; simpl; rewrite Hp, elem_of_cons.
    + intros [->|He]; simpl; [lia|]. by apply Hq.
    + intros [->|He]; simpl; [eauto|]. by apply Hq.
  - intros. apply consumer_at_scheduled.
  - intros Hw. split; [unfold events; simpl; rewrite Hp; by left|].
    intros c'. rewrite consumer_at_rescheduled. unfold events. simpl. rewrite Hp.
    case_decide; [subst; by left|]. intros H'. right. by apply Hw.
Qed.

(** The event a request stands for. *)
Definition node (r : Z * Time) : EventQueueNode := mkEventQueueNode (snd r) (Some (fst r)).

Lemma schedule_all_spec reqs q cs :
  queue_inv q -> Forall (fun r => m_globalTime q < snd r) reqs ->
  zlen (events q) + zlen reqs < heap_limit ->
  exists q' cs' added, schedule_all reqs q cs = Ok (q', cs') /\ queue_inv q' /\
    m_globalTime q' = m_globalTime q /\ events q' ≡ₚ added ++ events q /\
    zlen added <= zlen reqs /\ Forall (fun e => m_globalTime q < m_time e) added /\
    (forall c', m_last_wakeup (consumer_at cs' c') = m_last_wakeup (consumer_at cs c')) /\
    (wakeups_pending q cs -> wakeups_pending q' cs') /\ added ⊆+ map node reqs /\
    (wakeups_pending q cs -> forall r, r ∈ reqs -> node r ∈ events q').
Proof.
  revert q cs. induction reqs as [|[c t] reqs IH]; intros q cs Hq Hfut Hlim.
  { exists q, cs, []. split_and!; try done. by intros _ r []%elem_of_nil. }
  inversion_clear Hfut as [|?? Ht Hfut']. change (zlen ((c, t) :: reqs)) with (zlen ([(c, t)] ++ reqs)) in *.
  rewrite zlen_app in *. change (zlen [(c, t)]) with 1 in *. simpl in Ht.
  pose proof (zlen_nonneg reqs).
  destruct (schedule_spec q cs c t) as (q1 & cs1 & a1 & E1 & Hq1 & Ht1 & Hp1 & Ha1 & Hw1 & Hk1);
    [done|done|lia|].
  assert (zlen a1 <= 1 /\ Forall (fun e => m_globalTime q < m_time e) a1) as [Hl1 Hf1].
  { subst a1. case_match; split; try done; by repeat constructor. }
  pose proof (Permutation_length Hp1) as Hlen. rewrite length_app in Hlen.
  destruct (IH q1 cs1) as (q2 & cs2 & a2 & E2 & Hq2 & Ht2 & Hp2 & Hl2 & Hf2 & Hw2 & Hk2 & Hs2 & Hin2).
  { done. } { by rewrite Ht1. } { unfold zlen in *. lia. }
  exists q2, cs2, (a2 ++ a1). cbn [schedule_all]. rewrite E1, bind_of_ok. cbn [fst snd].
  split_and!; [done|done|congruence| | | | | | |].
  - by rewrite Hp2, Hp1, app_assoc.
  - rewrite zlen_app. lia.
  - apply Forall_app. split; [by rewrite <- Ht1|done].
  - intros. by rewrite Hw2.
  - intros Hw%Hk1. by apply Hk2, Hw.
  - rewrite (Permutation_app_comm a2 a1). change (map node ((c, t) :: reqs)) with ([node (c, t)] ++ map node reqs).
    apply submseteq_app; [|done]. rewrite Ha1. case_match; [apply submseteq_nil_l|done].
  - intros Hw r [->|Hr]%elem_of_cons; [|by apply Hin2; [apply Hk1|]].
    rewrite Hp2. apply elem_of_app. right. by apply Hk1.
Qed.

(** * Progress of one round *)

Section progress.
  Context {W : Type} (wakeup : Z → Time → W → W * list (Z * Time)) (K : Z).
  (** Consumers schedule a bounded number of events, all for later cycles. *)
  Context (HK : forall c t w, zlen (snd (wakeup c t w)) <= K).
  Context (Hlater : forall c t w, Forall (fun r => t < snd r) (snd (wakeup c t w))).
  Implicit Types (st : sim W) (t : Time).

Lemma K_nonneg (w : W) : 0 <= K.
Proof. pose proof (HK 0 0 w). pose proof (zlen_nonneg (snd (wakeup 0 0 w))). lia. Qed.

(** What one round does to the queue, the clock and the traces. *)
Record fired_once st st' (e : EventQueueNode) (added : list EventQueueNode) : Prop := {
  fo_inv : queue_inv (queue st');
  fo_time : m_globalTime (queue st') = m_time e;
  fo_fired : fired st' = e :: fired st;
  fo_rest : exists rest, events (queue st) ≡ₚ e :: rest /\ events (queue st') ≡ₚ added ++ rest;
  fo_added : Forall (fun e' => m_time e < m_time e') added;
  fo_few : zlen added <= K;
  fo_calls : exists c, m_consumer_ptr e = Some c /\
    ((calls st' = calls st /\ added = [] /\ m_last_wakeup (consumer_at (consumers st) c) = m_time e /\
      (forall c', m_last_wakeup (consumer_at (consumers st') c') =
                  m_last_wakeup (consumer_at (consumers st) c'))) \/
     (calls st' = (c, m_time e) :: calls st /\
      m_last_wakeup (consumer_at (consumers st) c) <> m_time e /\
      (forall c', m_last_wakeup (consumer_at (consumers st') c') =
                  if decide (c = c') then m_time e
                  else m_last_wakeup (consumer_at (consumers st) c'))));
  fo_pending : wakeups_pending (queue st) (consumers st) ->
    wakeups_pending (queue st') (consumers st');
  fo_requests : exists c reqs, m_consumer_ptr e = Some c /\
    (reqs = [] \/ reqs = snd (wakeup c (m_time e) (world st))) /\ requests st' = reqs ++ requests st /\
    added ⊆+ map node reqs /\
    (wakeups_pending (queue st) (consumers st) -> forall r, r ∈ reqs -> node r ∈ events (queue st'));
}.

Lemma fire_spec st :
  queue_inv (queue st) -> 0 < heap_size (m_prio_heap (queue st)) ->
  zlen (events (queue st)) + K < heap_limit ->
  exists st' e added, fire wakeup st = Ok st' /\ peekMin (m_prio_heap (queue st)) = Ok e /\
    m_globalTime (queue st) <= m_time e /\ fired_once st st' e added.
Proof.
  intros Hq Hpos Hlim. pose proof (K_nonneg (world st)) as HK0.
  destruct (extractMin_spec (m_prio_heap (queue st))) as (e & h' & Ex & Ep & Hh' & Hs' & Hp & Hmin);
    [apply Hq|done|].
  assert (e ∈ events (queue st)) as Hin by (unfold events; rewrite Hp; left).
  destruct (qi_target _ Hq e Hin) as [c Hc]. pose proof (qi_future _ Hq e Hin) as Hnow.
  unfold fire. rewrite Ep, bind_of_ok. simpl. rewrite Ex, bind_of_ok, Hc.
  set (q1 := setHeap (setTime (queue st) (m_time e)) h').
  assert (queue_inv q1) as Hq1.
  { split; [done| |]; intros e' He'; simpl.
    - assert (e' ∈ events (queue st)) as H' by (unfold events; rewrite Hp; by right).
      apply Hmin in H'. by apply Z.leb_le in H'.
    - apply Hq. unfold events. rewrite Hp. by right. }
  assert (events (queue st) ≡ₚ e :: events q1) as Hp1 by exact Hp.
  pose proof (Permutation_length Hp1) as Hl1. cbn [length] in Hl1.
  assert (wakeups_pending (queue st) (consumers st) -> wakeups_pending q1 (consumers st)) as Hk1.
  { intros Hk c' Hc'. simpl in Hc'. specialize (Hk c' ltac:(lia)). rewrite Hp1 in Hk.
    apply elem_of_cons in Hk as [E|Hk]; [|done]. rewrite <- E in Hc'. simpl in Hc'. lia. }
  unfold triggerWakeup, getTime. simpl.
  destruct (Z.eqb_spec (m_last_wakeup (consumer_at (consumers st) c)) (m_time e)) as [Hw|Hw]; simpl.
  { eexists _, e, []. split_and!; [done|done|done|].
    split; simpl; try done; [by exists (events q1)| |].
    - exists c. split; [done|]. left. done.
    - exists c, []. split_and!; try done; [by left|]. by intros _ r []%elem_of_nil. }
  pose proof (HK c (m_time e) (world st)) as Hk. pose proof (Hlater c (m_time e) (world st)) as Hl.
  destruct (wakeup c (m_time e) (world st)) as [w' reqs] eqn:Ew. simpl in Hk, Hl.
  destruct (schedule_all_spec reqs q1 (consumers st))
    as (q2 & cs2 & added & E2 & Hq2 & Ht2 & Hp2 & Hl2 & Hf2 & Hw2 & Hk2 & Hsub & Hin2);
    [done|done|unfold zlen in *; lia|].
  rewrite E2, bind_of_ok. eexists _, e, added. split_and!; [done|done|done|].
  split; simpl; try done; [by exists (events q1)|lia| | |].
  - exists c. split; [done|]. right. split_and!; [done|done|].
    intros c'. rewrite consumer_at_woken. case_decide; [done|]. apply Hw2.
  - intros Hpd c'. rewrite consumer_at_woken_scheduled. by apply Hk2, Hk1.
  - exists c, reqs. split_and!; try done; [right; by rewrite Ew|]. intros Hpd. by apply Hin2, Hk1.
Qed.

(** * Termination measure

    An event at time [s] weighs (K+1)^(t-s+1): more than the K later events its
    wakeup may schedule. *)
Definition weight t (e : EventQueueNode) : Z :=
  if m_time e <=? t then (K + 1) ^ (t - m_time e + 1) else 0.
Definition potential t (l : list EventQueueNode) : Z :=
  foldr (fun e acc => weight t e + acc) 0 l.

Lemma potential_perm t l k : l ≡ₚ k -> potential t l = potential t k.
Proof. induction 1; simpl; lia. Qed.

Lemma potential_app t l k : potential t (l ++ k) = potential t l + potential t k.
Proof. induction l; simpl; lia. Qed.

Lemma weight_nonneg t e : 0 <= K -> 0 <= weight t e.
Proof. intros. unfold weight. case_match; [|done]. apply Z.pow_nonneg. lia. Qed.

Lemma potential_nonneg t l : 0 <= K -> 0 <= potential t l.
Proof. intros HK0. induction l as [|e l IH]; simpl; [done|]. pose proof (weight_nonneg t e HK0). lia. Qed.

Lemma potential_later t s l :
  0 <= K -> s <= t -> Forall (fun e => s < m_time e) l ->
  potential t l <= zlen l * (K + 1) ^ (t - s).
Proof.
  intros HK0 Hs. induction 1 as [|e l He Hl IH]; [done|].
  change (zlen (e :: l)) with (zlen ([e] ++ l)). rewrite zlen_app. change (zlen [e]) with 1.
  simpl. enough (weight t e <= (K + 1) ^ (t - s)) by lia.
  unfold weight. destruct (Z.leb_spec (m_time e) t); [|apply Z.pow_nonneg; lia].
  apply Z.pow_le_mono_r; lia.
Qed.

(** Each round strictly decreases the potential. *)
Lemma fired_once_potential st st' e added t :
  m_time e <= t -> fired_once st st' e added ->
  potential t (events (queue st')) + 1 <= potential t (events (queue st)).
Proof.
  intros Ht Hf. pose proof (K_nonneg (world st)) as HK0.
  destruct (fo_rest _ _ _ _ Hf) as (rest & Hr & Hr').
  rewrite (potential_perm _ _ _ Hr), (potential_perm _ _ _ Hr'), potential_app. simpl.
  pose proof (potential_later t (m_time e) added HK0 Ht (fo_added _ _ _ _ Hf)) as Ha.
  unfold weight at 1. rewrite (proj2 (Z.leb_le _ _) Ht).
  rewrite Z.pow_add_r, Z.pow_1_r by lia.
  pose proof (fo_few _ _ _ _ Hf). pose proof (zlen_nonneg added).
  assert (0 < (K + 1) ^ (t - m_time e)) by (apply Z.pow_pos_nonneg; lia). nia.
Qed.

Lemma fired_once_size st st' e added :
  fired_once st st' e added ->
  zlen (events (queue st')) <= zlen (events (queue st)) - 1 + K.
Proof.
  intros Hf. destruct (fo_rest _ _ _ _ Hf) as (rest & Hr%Permutation_length & Hr'%Permutation_length).
  pose proof (fo_few _ _ _ _ Hf). unfold zlen in *. rewrite length_app in Hr'. simpl in Hr. lia.
Qed.

(** What a run of the loop leaves behind, for the events [newf] it popped and the
    calls [newc] it made (both latest first). *)
Record ran st st' (newf : list EventQueueNode) (newc : list (Z * Time)) : Prop := {
  ran_inv : queue_inv (queue st');
  ran_clock : m_globalTime (queue st) <= m_globalTime (queue st');
  ran_fired : fired st' = newf ++ fired st;
  ran_sorted : StronglySorted (fun a b => m_time b <= m_time a) newf;
  ran_times : Forall (fun e => m_globalTime (queue st) <= m_time e <= m_globalTime (queue st')) newf;
  ran_balance : exists scheduled made, requests st' = made ++ requests st /\ scheduled ⊆+ map node made /\
    events (queue st) ++ scheduled ≡ₚ newf ++ events (queue st') /\
    (wakeups_pending (queue st) (consumers st) -> forall r, r ∈ made -> node r ∈ newf ++ events (queue st'));
  ran_calls : calls st' = newc ++ calls st;
  ran_calls_nodup : NoDup newc;
  ran_calls_from : forall c s, (c, s) ∈ newc -> m_globalTime (queue st) <= s;
  ran_calls_fresh : forall c,
    m_last_wakeup (consumer_at (consumers st) c) = m_globalTime (queue st) ->
    (c, m_globalTime (queue st)) ∉ newc;
  ran_pending : wakeups_pending (queue st) (consumers st) ->
    wakeups_pending (queue st') (consumers st');
}.

Lemma ran_nothing st : queue_inv (queue st) -> ran st st [] [].
Proof.
  intros Hq. split; try done; try by constructor.
  - exists [], []. rewrite app_nil_r. split_and!; try done. by intros _ r []%elem_of_nil.
  - intros c s H%elem_of_nil. done.
  - intros c _. apply not_elem_of_nil.
Qed.

Lemma ran_step_calls st st1 st' e added newf newc :
  m_globalTime (queue st) <= m_time e ->
  fired_once st st1 e added -> ran st1 st' newf newc ->
  exists newc', calls st' = newc' ++ calls st /\ NoDup newc' /\
    (forall c s, (c, s) ∈ newc' -> m_globalTime (queue st) <= s) /\
    (forall c, m_last_wakeup (consumer_at (consumers st) c) = m_globalTime (queue st) ->
       (c, m_globalTime (queue st)) ∉ newc').
Proof.
  intros He Hf Hr. pose proof (fo_time _ _ _ _ Hf) as Ht.
  destruct Hr as [_ _ _ _ _ _ Hc Hnd Hfrom Hfresh _]. rewrite Ht in Hfrom, Hfresh.
  destruct (fo_calls _ _ _ _ Hf) as (c & _ & [(Hc1 & _ & Hw & Hws)|(Hc1 & Hw & Hws)]); rewrite Hc1 in Hc.
  - exists newc. split_and!; [done|done| |].
    + intros c' s H'. apply Hfrom in H'. lia.
    + intros c' Hc' Hin. pose proof (Hfrom _ _ Hin).
      assert (m_globalTime (queue st) = m_time e) as E by lia. rewrite E in *.
      apply (Hfresh c'); [by rewrite Hws|done].
  - exists (newc ++ [(c, m_time e)]). split_and!.
    + by rewrite Hc, <- app_assoc.
    + apply NoDup_app. split_and!; [done| |apply NoDup_singleton].
      intros [c' s] Hin [= -> ->]%list_elem_of_singleton. revert Hin. apply Hfresh.
      rewrite Hws. by rewrite decide_True.
    + intros c' s [H'|[= -> ->]%list_elem_of_singleton]%elem_of_app; [apply Hfrom in H'|]; lia.
    + intros c' Hc' [Hin|[= -> E]%list_elem_of_singleton]%elem_of_app; [|congruence].
      pose proof (Hfrom _ _ Hin). assert (m_globalTime (queue st) = m_time e) as E by lia.
      rewrite E in *. apply (Hfresh c'); [|done]. rewrite Hws. by case_decide.
Qed.

Lemma ran_step st st1 st' e added newf newc :
  m_globalTime (queue st) <= m_time e ->
  fired_once st st1 e added -> ran st1 st' newf newc ->
  exists newc', ran st st' (newf ++ [e]) newc'.
Proof.
  intros He Hf Hr. destruct (ran_step_calls st st1 st' e added newf newc He Hf Hr)
    as (newc' & Hc & Hnd & Hfrom & Hfresh).
  pose proof (fo_time _ _ _ _ Hf) as Ht. destruct Hr as [Hq Hcl Hfd Hso Hti Hba _ _ _ _ Hpe].
  rewrite Ht in Hcl, Hti. exists newc'. split; try done; try lia.
  - by rewrite Hfd, (fo_fired _ _ _ _ Hf), <- app_assoc.
  - apply StronglySorted_snoc; [done|]. eapply Forall_impl; [done|]. simpl. lia.
  - apply Forall_app. split; [eapply Forall_impl; [done|]; simpl; lia|].
    repeat constructor; lia.
  - destruct Hba as (sch & made & Hm & Hsub & Hba & Hall). destruct (fo_rest _ _ _ _ Hf) as (rest & Hr & Hr').
    destruct (fo_requests _ _ _ _ Hf) as (c & reqs & _ & _ & Hq1 & Hs1 & Hin1).
    assert (forall x, x ∈ newf ++ events (queue st') -> x ∈ (newf ++ [e]) ++ events (queue st')) as Hmore.
    { intros x. rewrite !elem_of_app. tauto. }
    exists (added ++ sch), (made ++ reqs). split_and!.
    + by rewrite Hm, Hq1, app_assoc.
    + rewrite map_app, (Permutation_app_comm (map node made)). by apply submseteq_app.
    + rewrite Hr. rewrite <- app_assoc. simpl. rewrite <- Permutation_middle, <- Hba, Hr'. f_equiv.
      rewrite !app_assoc. f_equiv. apply Permutation_app_comm.
    + intros Hpd r [Hi|Hi]%elem_of_app; apply Hmore; [apply Hall; [by apply (fo_pending _ _ _ _ Hf)|done]|].
      rewrite <- Hba. apply elem_of_app. left. by apply Hin1.
  - intros Hk. by apply Hpe, (fo_pending _ _ _ _ Hf).
Qed.

Lemma potential_pos t q e :
  0 <= K -> e ∈ events q -> m_time e <= t -> 1 <= potential t (events q).
Proof.
  intros HK0 [l [k E]]%list_elem_of_split Ht. rewrite E, potential_app. simpl.
  pose proof (potential_nonneg t l HK0). pose proof (potential_nonneg t k HK0).
  unfold weight. rewrite (proj2 (Z.leb_le _ _) Ht).
  pose proof (Z.pow_pos_nonneg (K + 1) (t - m_time e + 1)). lia.
Qed.

(** ** The loop, for any measure that each round decreases

    [mu] bounds the rounds still to come and [bound] the size of the queue. *)
Section loop.
  Context (t : Time) (I : sim W → Prop) (mu bound : sim W → Z).
  Context (Hmu : forall st, I st -> 0 <= mu st).
  Context (Hsize : forall st, I st -> zlen (events (queue st)) <= bound st).
  Context (Hroom : forall st e, I st -> e ∈ events (queue st) -> m_time e <= t ->
    zlen (events (queue st)) + K <= bound st).
  Context (Hstep : forall st st' e added, I st -> m_globalTime (queue st) <= m_time e -> m_time e <= t ->
    fired_once st st' e added -> I st' /\ mu st' + 1 <= mu st /\ bound st' <= bound st).

Lemma rounds_spec fuel st :
  I st -> queue_inv (queue st) -> m_globalTime (queue st) <= t ->
  bound st < heap_limit -> mu st < Z.of_nat fuel ->
  exists st' newf newc, trigger_loop wakeup fuel st t = Ok st' /\ ran st st' newf newc /\
    m_globalTime (queue st') <= t /\ (forall e, e ∈ events (queue st') -> t < m_time e) /\
    zlen (events (queue st')) <= bound st.
Proof.
  revert st. induction fuel as [|fuel IH]; intros st HI Hq Hnow Hlim Hfuel.
  { pose proof (Hmu st HI). lia. }
  pose proof (zlen_events _ Hq) as Hl. cbn [trigger_loop].
  destruct (Z.ltb_spec 0 (heap_size (m_prio_heap (queue st)))) as [Hpos|Hzero].
  2:{ exists st, [], []. split_and!; [done|by apply ran_nothing|done| |by apply Hsize].
      intros e He. unfold zlen in Hl. destruct (events (queue st)); [by apply elem_of_nil in He|].
      simpl in Hl. lia. }
  destruct (extractMin_spec (m_prio_heap (queue st))) as (e & h' & _ & Ep & _ & _ & Hpm & Hmin);
    [apply Hq|done|].
  assert (e ∈ events (queue st)) as Hin by (unfold events; rewrite Hpm; left).
  rewrite Ep, bind_of_ok. destruct (Z.leb_spec (m_time e) t) as [Ht|Ht].
  2:{ exists st, [], []. split_and!; [done|by apply ran_nothing|done| |by apply Hsize].
      intros e' He'. apply Hmin in He'. apply Z.leb_le in He'. lia. }
  pose proof (Hroom st e HI Hin Ht).
  destruct (fire_spec st Hq Hpos) as (st1 & e' & added & E1 & Ep' & He & Hf); [lia|].
  rewrite Ep in Ep'. injection Ep' as <-. rewrite E1, bind_of_ok.
  destruct (Hstep st st1 e added HI He Ht Hf) as (HI1 & Hdec & Hb).
  destruct (IH st1) as (st' & newf & newc & E & Hr & Hcl & Hdone & Hsz').
  { done. } { apply Hf. } { by rewrite (fo_time _ _ _ _ Hf). } { lia. } { lia. }
  destruct (ran_step st st1 st' e added newf newc He Hf Hr) as [newc' Hr'].
  exists st', (newf ++ [e]), newc'. split_and!; [done|done|done|done|lia].
Qed.

End loop.

(** With fuel above the potential the loop ends, having popped every event up
    to [t]. *)
Lemma trigger_loop_spec fuel st t :
  queue_inv (queue st) -> m_globalTime (queue st) <= t ->
  zlen (events (queue st)) + K * potential t (events (queue st)) < heap_limit ->
  potential t (events (queue st)) < Z.of_nat fuel ->
  exists st' newf newc, trigger_loop wakeup fuel st t = Ok st' /\ ran st st' newf newc /\
    m_globalTime (queue st') <= t /\ (forall e, e ∈ events (queue st') -> t < m_time e) /\
    zlen (events (queue st')) <=
      zlen (events (queue st)) + K * potential t (events (queue st)).
Proof.
  intros Hq Hnow Hlim Hfuel. pose proof (K_nonneg (world st)) as HK0.
  apply (rounds_spec t (fun _ => True) (fun st => potential t (events (queue st)))
    (fun st => zlen (events (queue st)) + K * potential t (events (queue st)))); try done.
  - intros st1 _. by apply potential_nonneg.
  - intros st1 _. pose proof (potential_nonneg t (events (queue st1)) HK0). nia.
  - intros st1 e _ Hin Ht. pose proof (potential_pos t (queue st1) e HK0 Hin Ht). nia.
  - intros st1 st2 e added _ _ Ht Hf. pose proof (fired_once_potential st1 st2 e added t Ht Hf).
    pose proof (fired_once_size st1 st2 e added Hf). split_and!; [done|lia|nia].
Qed.

(** ** A closed set of consumers

    When only the consumers of a list [C] are ever scheduled, each of them is
    woken at most once a cycle: the rounds are linear in the time to cover. *)
Section closed.
  Context (C : list Z).
  Context (HC : forall c t w, c ∈ C -> Forall (fun r => fst r ∈ C) (snd (wakeup c t w))).

Definition targets_in (q : EventQueue) : Prop :=
  forall e c, e ∈ events q -> m_consumer_ptr e = Some c -> c ∈ C.

(** The consumers that may still be woken in the current cycle. *)
Definition unwoken st : list Z :=
  filter (fun c => m_last_wakeup (consumer_at (consumers st) c) <> m_globalTime (queue st)) C.
Definition wakeups_left t st : Z := zlen C * (t - m_globalTime (queue st)) + zlen (unwoken st).

Lemma unwoken_le st : zlen (unwoken st) <= zlen C.
Proof. unfold zlen, unwoken. pose proof (length_filter (fun c => m_last_wakeup (consumer_at (consumers st) c) <> m_globalTime (queue st)) C). lia. Qed.

Lemma wakeups_left_nonneg t st : m_globalTime (queue st) <= t -> 0 <= wakeups_left t st.
Proof. intros. unfold wakeups_left. pose proof (zlen_nonneg (unwoken st)). pose proof (zlen_nonneg C). nia. Qed.

(** A round wakes a consumer that is one fewer to wake, or leaves the queue shorter. *)
Lemma fired_once_left t st st' e added :
  targets_in (queue st) -> m_globalTime (queue st) <= m_time e -> fired_once st st' e added ->
  (added = [] /\ wakeups_left t st' <= wakeups_left t st) \/ wakeups_left t st' + 1 <= wakeups_left t st.
Proof.
  intros HT He Hf. destruct (fo_calls _ _ _ _ Hf) as (c & Hc & Hcalls).
  assert (c ∈ C) as HcC.
  { destruct (fo_rest _ _ _ _ Hf) as (rest & Hr & _). apply (HT e); [|done]. rewrite Hr. by left. }
  unfold wakeups_left. rewrite (fo_time _ _ _ _ Hf). pose proof (zlen_nonneg C).
  pose proof (unwoken_le st'). pose proof (zlen_nonneg (unwoken st)).
  destruct (decide (m_globalTime (queue st) = m_time e)) as [E|Hne].
  - rewrite <- E. destruct Hcalls as [(_ & Ha & _ & Hws)|(_ & Hw & Hws)]; [left|right].
    + split; [done|]. enough (length (unwoken st') <= length (unwoken st))%nat by (unfold zlen; lia).
      apply filter_length_le. intros x. by rewrite Hws, (fo_time _ _ _ _ Hf), E.
    + enough (length (unwoken st') < length (unwoken st))%nat by (unfold zlen; lia).
      apply filter_length_lt with c; [|done|by rewrite E|].
      * intros x. rewrite Hws, (fo_time _ _ _ _ Hf), E. by case_decide.
      * rewrite Hws, (fo_time _ _ _ _ Hf), decide_True by done. naive_solver.
  - destruct Hcalls as [(_ & Ha & _ & Hws)|(_ & Hw & Hws)]; [left; split; [done|nia]|right].
    enough (length (unwoken st') < length C)%nat by (unfold zlen in *; nia).
    unfold unwoken. eapply length_filter_lt; [exact HcC|].
    rewrite Hws, (fo_time _ _ _ _ Hf), decide_True by done. naive_solver.
Qed.

Lemma fired_once_targets st st' e added :
  targets_in (queue st) -> fired_once st st' e added -> targets_in (queue st').
Proof.
  intros HT Hf. destruct (fo_rest _ _ _ _ Hf) as (rest & Hr & Hr').
  destruct (fo_requests _ _ _ _ Hf) as (c & reqs & Hc & Hreqs & _ & Hsub & _).
  assert (c ∈ C) as HcC by (apply (HT e); [rewrite Hr; by left|done]).
  intros e' c' He' Hc'. rewrite Hr' in He'. apply elem_of_app in He' as [Ha|Ha];
    [|apply (HT e'); [rewrite Hr; by right|done]].
  apply (elem_of_submseteq _ _ _ Ha) in Hsub. apply list_elem_of_fmap in Hsub as (r & -> & Hin).
  injection Hc' as <-. destruct Hreqs as [->| ->]; [by apply elem_of_nil in Hin|].
  pose proof (HC c (m_time e) (world st) HcC) as Hall. rewrite Forall_forall in Hall. by apply Hall.
Qed.

Lemma closed_loop_spec fuel st t :
  queue_inv (queue st) -> targets_in (queue st) -> m_globalTime (queue st) <= t ->
  zlen (events (queue st)) + K * (wakeups_left t st + 1) < heap_limit ->
  zlen (events (queue st)) + K * wakeups_left t st < Z.of_nat fuel ->
  exists st' newf newc, trigger_loop wakeup fuel st t = Ok st' /\ ran st st' newf newc /\
    m_globalTime (queue st') <= t /\ (forall e, e ∈ events (queue st') -> t < m_time e) /\
    zlen (events (queue st')) <= zlen (events (queue st)) + K * (wakeups_left t st + 1).
Proof.
  intros Hq HT Hnow Hlim Hfuel. pose proof (K_nonneg (world st)) as HK0.
  apply (rounds_spec t (fun st => targets_in (queue st) /\ m_globalTime (queue st) <= t)
    (fun st => zlen (events (queue st)) + K * wakeups_left t st)
    (fun st => zlen (events (queue st)) + K * (wakeups_left t st + 1))); try done.
  - intros st1 [_ H1]. pose proof (wakeups_left_nonneg t st1 H1). pose proof (zlen_nonneg (events (queue st1))). nia.
  - intros st1 [_ H1]. pose proof (wakeups_left_nonneg t st1 H1). nia.
  - intros st1 e [_ H1] _ _. pose proof (wakeups_left_nonneg t st1 H1). nia.
  - intros st1 st2 e added [HT1 H1] He Ht Hf. rewrite (fo_time _ _ _ _ Hf).
    split; [split; [by eapply fired_once_targets|done]|].
    pose proof (fired_once_size st1 st2 e added Hf) as Hs.
    destruct (fired_once_left t st1 st2 e added HT1 He Hf) as [[-> Hl]|Hl]; [|split; nia].
    enough (zlen (events (queue st2)) = zlen (events (queue st1)) - 1) by (split; nia).
    destruct (fo_rest _ _ _ _ Hf) as (rest & Hr%Permutation_length & Hr'%Permutation_length).
    unfold zlen. simpl in *. lia.
Qed.

(** C19: Advancing the simulation to time t returns: every event that was due at or
    before t has fired, every event still queued is later than t and the clock stands at
    t. The fired and the queued events together are exactly the events there were plus
    events scheduled by the wakeups called, at most one for each call of
    scheduleEventAbsolute they made, and for each such call the event of its consumer
    and time is among them. Consumers come from a list C closed under scheduling, and a
    wakeup schedules at most K events, all for later cycles (the code asserts it); the
    fuel is above, and the room of the heap (2^30) allows, the number of queued events
    plus K times the length of C times the cycles to cover. *)
Theorem triggerEvents_fires_due fuel st t :
  queue_inv (queue st) -> wakeups_pending (queue st) (consumers st) -> targets_in (queue st) ->
  m_globalTime (queue st) <= t ->
  zlen (events (queue st)) + K * (zlen C * (t - m_globalTime (queue st) + 1) + 1) < heap_limit ->
  zlen (events (queue st)) + K * (zlen C * (t - m_globalTime (queue st) + 1)) < Z.of_nat fuel ->
  exists st' popped scheduled made, triggerEvents wakeup fuel st t = Ok st' /\
    m_globalTime (queue st') = t /\ queue_inv (queue st') /\
    fired st' = popped ++ fired st /\ requests st' = made ++ requests st /\
    (forall e, e ∈ events (queue st) -> m_time e <= t -> e ∈ popped) /\
    (forall e, e ∈ events (queue st') -> t < m_time e) /\
    events (queue st) ++ scheduled ≡ₚ popped ++ events (queue st') /\
    scheduled ⊆+ map node made /\
    (forall r, r ∈ made -> node r ∈ popped ++ events (queue st')).
Proof.
  intros Hq Hpd HT Hnow Hlim Hfuel. pose proof (K_nonneg (world st)) as HK0.
  assert (wakeups_left t st <= zlen C * (t - m_globalTime (queue st) + 1)) as Hleft
    by (unfold wakeups_left; pose proof (unwoken_le st); lia).
  destruct (closed_loop_spec fuel st t Hq HT Hnow) as (st' & newf & newc & E & Hr & Hcl & Hdone & _);
    [nia|nia|].
  unfold triggerEvents. rewrite E, bind_of_ok.
  destruct (ran_balance _ _ _ _ Hr) as (sch & made & Hm & Hsub & Hb & Hall).
  destruct (ran_inv _ _ _ _ Hr) as [Hh _ Htg].
  eexists _, newf, sch, made. split; [done|].
  split_and!; simpl; [done| |apply Hr|done| |exact Hdone|done|done|by apply Hall].
  - split; [done| |exact Htg]. intros e He. apply Hdone in He. simpl. lia.
  - intros e He Ht. assert (e ∈ newf ++ events (queue st')) as [?|H]%elem_of_app;
      [rewrite <- Hb; apply elem_of_app; by left|done|].
    apply Hdone in H. lia.
Qed.

End closed.

(** C20: The events that one call of triggerEvents fires, those its own wakeups
    scheduled included, fire in the order of their times, none before the clock and none
    after t. A wakeup schedules at most K events, all for later cycles, and the queue
    has room for (K+1)^(t-s+1) events for each event at a time s up to t. *)
Theorem triggerEvents_in_order fuel st t :
  queue_inv (queue st) -> m_globalTime (queue st) <= t ->
  zlen (events (queue st)) + K * potential t (events (queue st)) < heap_limit ->
  potential t (events (queue st)) < Z.of_nat fuel ->
  exists st' popped, triggerEvents wakeup fuel st t = Ok st' /\ fired st' = popped ++ fired st /\
    StronglySorted (fun later earlier => m_time earlier <= m_time later) popped /\
    Forall (fun e => m_globalTime (queue st) <= m_time e <= t) popped.
Proof.
  intros Hq Hnow Hlim Hfuel.
  destruct (trigger_loop_spec fuel st t Hq Hnow Hlim Hfuel) as (st' & newf & newc & E & Hr & Hcl & _).
  unfold triggerEvents. rewrite E, bind_of_ok. eexists _, newf.
  split_and!; [done|apply Hr|apply Hr|].
  eapply Forall_impl; [apply Hr|]. simpl. lia.
Qed.

(** However often a consumer is scheduled for a cycle, its wakeup is called at most once
    in that cycle: the pairs of consumer and time of the calls made are all different. *)
Theorem triggerEvents_once_per_cycle fuel st t :
  queue_inv (queue st) -> m_globalTime (queue st) <= t ->
  zlen (events (queue st)) + K * potential t (events (queue st)) < heap_limit ->
  potential t (events (queue st)) < Z.of_nat fuel ->
  exists st' made, triggerEvents wakeup fuel st t = Ok st' /\ calls st' = made ++ calls st /\
    NoDup made.
Proof.
  intros Hq Hnow Hlim Hfuel.
  destruct (trigger_loop_spec fuel st t Hq Hnow Hlim Hfuel) as (st' & newf & newc & E & Hr & _).
  unfold triggerEvents. rewrite E, bind_of_ok. eexists _, newc.
  split_and!; [done|apply Hr|apply Hr].
Qed.

(** C21: Skipping the insertion of an event a consumer has already scheduled loses
    nothing: after any run of triggerEvents, scheduling a consumer for a later time
    leaves an event for that consumer and time in the queue, and the invariant that
    justifies the shortcut holds again. A wakeup schedules at most K events, all for
    later cycles, and the queue has room for (K+1)^(t-s+1) events for each event at a
    time s up to t. *)
Theorem triggerEvents_loses_no_wakeup fuel st t c s :
  queue_inv (queue st) -> m_globalTime (queue st) <= t ->
  zlen (events (queue st)) + K * potential t (events (queue st)) + 1 < heap_limit ->
  potential t (events (queue st)) < Z.of_nat fuel ->
  wakeups_pending (queue st) (consumers st) -> t < s ->
  exists st' q' cs', triggerEvents wakeup fuel st t = Ok st' /\
    scheduleEventAbsolute (queue st') (consumers st') (Some c) s = Ok (q', cs') /\
    mkEventQueueNode s (Some c) ∈ events q' /\ wakeups_pending q' cs'.
Proof.
  intros Hq Hnow Hlim Hfuel Hk Hs.
  destruct (trigger_loop_spec fuel st t Hq Hnow) as (st' & newf & newc & E & Hr & Hcl & Hdone & Hsz);
    [lia|done|].
  unfold triggerEvents. rewrite E, bind_of_ok.
  destruct (ran_inv _ _ _ _ Hr) as [Hh Hfu Htg].
  assert (queue_inv (setTime (queue st') t)) as Hq'.
  { split; [done| |exact Htg]. intros e He. apply Hdone in He. simpl. lia. }
  assert (wakeups_pending (setTime (queue st') t) (consumers st')) as Hk'.
  { intros c' Hc'. apply (ran_pending _ _ _ _ Hr Hk). simpl in Hc'. lia. }
  destruct (schedule_spec (setTime (queue st') t) (consumers st') c s Hq')
    as (q' & cs' & a & E' & _ & _ & _ & _ & _ & Hp); [done| |].
  { change (events (setTime (queue st') t)) with (events (queue st')). lia. }
  eexists _, q', cs'. split_and!; [done|exact E'|by apply Hp..].
Qed.

End progress.

(** * A concrete simulation

    Consumer 7 reschedules itself every cycle until time 5. *)
Definition ticker (c : Z) (t : Time) (w : Z) : Z * list (Z * Time) :=
  (w + 1, if t <? 5 then [(c, t + 1)] else []).

Definition ticker_start : outcome (sim Z) :=
  r ← scheduleEvent EventQueue_init ∅ (Some 7) 1;
  r ← scheduleEventAbsolute (fst r) (snd r) (Some 9) 3;
  mret (mkSim (fst r) (snd r) 0 [] [] []).

Example ticker_run :
  (st ← ticker_start; st' ← triggerEvents ticker 100 st 4; mret (rev (calls st'), world st', map m_time (events (queue st')))) =
  Ok ([(7, 2); (7, 3); (9, 3); (9, 4); (7, 4)], 5, [5; 5]).
Proof. vm_compute. reflexivity. Qed.

Definition ticker_sim : sim Z :=
  match ticker_start with Ok st => st | Err _ => mkSim EventQueue_init ∅ 0 [] [] [] end.

Lemma ticker_few c t w : zlen (snd (ticker c t w)) <= 1.
Proof. unfold ticker; simpl. by case_match. Qed.

Lemma ticker_later c t w : Forall (fun r => t < snd r) (snd (ticker c t w)).
Proof. unfold ticker; simpl. case_match; repeat constructor. simpl. lia. Qed.

Lemma ticker_ok :
  queue_inv (queue ticker_sim) /\ wakeups_pending (queue ticker_sim) (consumers ticker_sim).
Proof.
  destruct (schedule_spec EventQueue_init ∅ 7 2 queue_inv_init)
    as (q1 & cs1 & a1 & E1 & Hq1 & Ht1 & Hp1 & Ha1 & _ & Hk1); [done|done|].
  destruct Hk1 as [_ Hk1]; [by apply wakeups_pending_init|].
  assert (m_globalTime q1 = 1) as Hg by (rewrite Ht1; done).
  destruct (schedule_spec q1 cs1 9 3 Hq1) as (q2 & cs2 & a2 & E2 & Hq2 & _ & _ & _ & _ & Hk2);
    [lia| |].
  { unfold zlen. apply Permutation_length in Hp1. rewrite length_app in Hp1.
    subst a1. change (events EventQueue_init) with (@nil EventQueueNode) in Hp1.
    rewrite Hp1. done. }
  destruct (Hk2 Hk1) as [_ Hk]. clear Hk1 Hk2 Hq1 Ht1 Hp1 Hg.
  vm_compute in E1. injection E1 as <- <-. vm_compute in E2. injection E2 as <- <-.
  done.
Qed.

Lemma ticker_closed c t w : c ∈ [7; 9] -> Forall (fun r => fst r ∈ [7; 9]) (snd (ticker c t w)).
Proof. intros. unfold ticker; simpl. case_match; [constructor; [done|constructor]|constructor]. Qed.

Lemma ticker_targets : targets_in [7; 9] (queue ticker_sim).
Proof.
  intros e c He. assert (e ∈ [mkEventQueueNode 2 (Some 7); mkEventQueueNode 3 (Some 9)]) as H by exact He.
  set_solver.
Qed.

Lemma triggerEvents_fires_due_witness :
  exists st' popped scheduled made, triggerEvents ticker 1000 ticker_sim 400 = Ok st' /\
    m_globalTime (queue st') = 400 /\ queue_inv (queue st') /\
    fired st' = popped ++ fired ticker_sim /\ requests st' = made ++ requests ticker_sim /\
    (forall e, e ∈ events (queue ticker_sim) -> m_time e <= 400 -> e ∈ popped) /\
    (forall e, e ∈ events (queue st') -> 400 < m_time e) /\
    events (queue ticker_sim) ++ scheduled ≡ₚ popped ++ events (queue st') /\
    scheduled ⊆+ map node made /\
    (forall r, r ∈ made -> node r ∈ popped ++ events (queue st')).
Proof.
  apply (triggerEvents_fires_due ticker 1 ticker_few ticker_later [7; 9] ticker_closed 1000 ticker_sim 400
           (proj1 ticker_ok) (proj2 ticker_ok) ticker_targets); vm_compute; congruence.
Defined.

Lemma triggerEvents_loses_no_wakeup_witness :
  exists st' q' cs', triggerEvents ticker 100 ticker_sim 4 = Ok st' /\
    scheduleEventAbsolute (queue st') (consumers st') (Some 7) 5 = Ok (q', cs') /\
    mkEventQueueNode 5 (Some 7) ∈ events q' /\ wakeups_pending q' cs'.
Proof.
  apply (triggerEvents_loses_no_wakeup ticker 1 ticker_few ticker_later 100 ticker_sim 4 7 5
           (proj1 ticker_ok)); [vm_compute; congruence..|apply ticker_ok|done].
Defined.

Lemma triggerEvents_in_order_witness :
  exists st' popped, triggerEvents ticker 100 ticker_sim 4 = Ok st' /\
    fired st' = popped ++ fired ticker_sim /\
    StronglySorted (fun later earlier => m_time earlier <= m_time later) popped /\
    Forall (fun e => m_globalTime (queue ticker_sim) <= m_time e <= 4) popped.
Proof.
  apply (triggerEvents_in_order ticker 1 ticker_few ticker_later 100 ticker_sim 4 (proj1 ticker_ok));
    vm_compute; congruence.
Defined.

Lemma triggerEvents_once_per_cycle_witness :
  exists st' made, triggerEvents ticker 100 ticker_sim 4 = Ok st' /\
    calls st' = made ++ calls ticker_sim /\ NoDup made.
Proof.
  apply (triggerEvents_once_per_cycle ticker 1 ticker_few ticker_later 100 ticker_sim 4 (proj1 ticker_ok));
    vm_compute; congruence.
Defined.
