(* ===== verification/Histogram.v ===== *)
(** [common/Histogram.{h,C}]: the sample histograms every profiled quantity of
    Ruby is fed to, among them the occupancy of each message buffer.

    Linear histograms double their bin size and merge neighbouring bins when a
    sample does not fit; a bin size of -1 selects a log2 histogram.  The log2
    index is computed with libm's [log], the parameter [log2_index].  The
    printing functions and the standard deviation are left out. *)

From S2P Require Import Prelude Vector.

Record Histogram := mkHistogram {
  m_data : Vector Z;
  m_max : Z;
  m_count : Z;
  m_binsize : Z;
  m_bins : Z;
  m_largest_bin : Z;
  m_sumSamples : Z;
  m_sumSquaredSamples : Z;
}.

(** [clear(int bins)]. *)
Definition Histogram_clear (h : Histogram) (bins : Z) : outcome Histogram :=
  d ← setSize (m_data h) bins;
  d ← for_range 0 bins (fun i w => ref_assign w i 0) d;
  mret (mkHistogram d 0 0 (m_binsize h) bins 0 0 0).

(** [clear(int binsize, int bins)]. *)
Definition Histogram_clear_binsize (h : Histogram) (binsize bins : Z) : outcome Histogram :=
  Histogram_clear
    (mkHistogram (m_data h) (m_max h) (m_count h) binsize (m_bins h) (m_largest_bin h)
                 (m_sumSamples h) (m_sumSquaredSamples h)) bins.

(** The constructor; its defaults are [binsize = 1], [bins = 50]. *)
Definition Histogram_new (binsize bins : Z) : outcome Histogram :=
  Histogram_clear (mkHistogram Vector_default 0 0 binsize bins 0 0 0) bins.

(** The two [for] loops that merge neighbouring bins. *)
Definition merge_bins (bins : Z) (d : Vector Z) : outcome (Vector Z) :=
  d ← for_range 0 (bins / 2)
        (fun i w => x ← ref w (i * 2); y ← ref w (i * 2 + 1); ref_assign w i (x + y)) d;
  for_range (bins / 2) bins (fun i w => ref_assign w i 0) d.

(** [while (m_max >= (m_bins * m_binsize))], an [int] product. *)
Fixpoint rescale (fuel : nat) (max bins : Z) (d : Vector Z) (binsize : Z) :
    outcome (Vector Z * Z) :=
  match fuel with
  | O => Err OutOfFuel
  | S fuel' =>
      if s32 (bins * binsize) <=? max then
        d' ← merge_bins bins d;
        rescale fuel' max bins d' (s32 (binsize * 2))
      else Ok (d, binsize)
  end.

(** Enough doublings for any [int] product. *)
Definition rescale_fuel : nat := 64.

Section add.
  (** [int(log(double(value))/log(2.0))] for positive [value]. *)
  Context (log2_index : Z → Z).

Definition Histogram_add (h : Histogram) (value : Z) : outcome Histogram :=
  cassert (0 <=? value);;
  let max := Z.max (m_max h) value in
  let count := m_count h + 1 in
  let sum := s64 (m_sumSamples h + value) in
  let sumsq := s64 (m_sumSquaredSamples h + s64 (value * value)) in
  r ← (if m_binsize h =? -1 then
         let index := if value =? 0 then 0 else
                        let i := log2_index value + 1 in
                        if m_size (m_data h) <=? i then m_size (m_data h) - 1 else i in
         mret (m_data h, m_binsize h, index)
       else
         p ← rescale rescale_fuel max (m_bins h) (m_data h) (m_binsize h);
         mret (fst p, snd p, value / snd p));
  let '(d, binsize, index) := r in
  cassert (0 <=? index);;
  x ← ref d index;
  d ← ref_assign d index (x + 1);
  mret (mkHistogram d max count binsize (m_bins h) (Z.max (m_largest_bin h) index) sum sumsq).

(** [add(const Histogram&)]: replays a log2 histogram bin by bin. *)
Definition Histogram_add_hist (h hist : Histogram) : outcome Histogram :=
  cassert (m_bins hist =? m_bins h);;
  cassert (m_binsize hist =? -1);;
  cassert (m_binsize h =? -1);;
  n0 ← ref (m_data hist) 0;
  h ← for_range 0 n0 (fun _ g => Histogram_add g 0) h;
  for_range 1 (m_bins h)
    (fun i g => n ← ref (m_data hist) i;
                for_range 0 n (fun _ g' => Histogram_add g' (Z.shiftl 1 (i - 1))) g) h.

End add.

(** * Linear histograms count their samples *)

(** How many samples fall in bin [i] of width [b]. *)
Definition in_bin (b i : Z) (xs : list Z) : Z := zlen (filter (fun x => x / b = i) xs).

(** The histogram [h] was fed exactly the samples [xs] (latest first). *)
Record counts (h : Histogram) (xs : list Z) : Prop := {
  ct_data : wf (m_data h);
  ct_size : m_size (m_data h) = m_bins h;
  ct_bins : 0 < m_bins h /\ m_bins h mod 2 = 0;
  ct_binsize : 0 < m_binsize h;
  ct_range : Forall (fun x => 0 <= x < m_bins h * m_binsize h) xs;
  ct_fit : m_bins h * m_binsize h < 2 ^ 31;
  ct_max : 0 <= m_max h < 2 ^ 30 /\ m_max h < m_bins h * m_binsize h /\
           Forall (fun x => x <= m_max h) xs;
  ct_count : m_count h = zlen xs;
  ct_sum : m_sumSamples h = s64 (foldr Z.add 0 xs);
  ct_bin i : 0 <= i < m_bins h -> zread (m_vec (m_data h)) i = Some (in_bin (m_binsize h) i xs);
}.

Lemma in_bin_cons b i x xs :
  in_bin b i (x :: xs) = (if x / b =? i then 1 else 0) + in_bin b i xs.
Proof.
  unfold in_bin, zlen. rewrite filter_cons.
  destruct (Z.eqb_spec (x / b) i); case_decide; try done. cbn [length]. lia.
Qed.

Lemma in_bin_merge b i xs :
  0 < b -> in_bin (2 * b) i xs = in_bin b (2 * i) xs + in_bin b (2 * i + 1) xs.
Proof.
  intros Hb. induction xs as [|x xs IH]; [done|]. rewrite !in_bin_cons, IH.
  assert (x / (2 * b) = x / b / 2) as E by (rewrite Z.div_div by lia; f_equal; lia).
  rewrite E. generalize (x / b) as y. intros y.
  destruct (Z.eqb_spec (y / 2) i), (Z.eqb_spec y (2 * i)), (Z.eqb_spec y (2 * i + 1)); lia.
Qed.

Lemma in_bin_empty b n i xs :
  0 < b -> Forall (fun x => 0 <= x < n * b) xs -> n <= i -> in_bin b i xs = 0.
Proof.
  intros Hb. induction 1 as [|x xs Hx _ IH]; intros Hi; [done|].
  rewrite in_bin_cons, IH by done. destruct (Z.eqb_spec (x / b) i); [|done].
  assert (x / b < n) by (apply Z.div_lt_upper_bound; lia). lia.
Qed.

Lemma fill_zero_spec (d : Vector Z) lo hi :
  wf d -> 0 <= lo <= hi -> hi <= m_size d ->
  exists d', for_range lo hi (fun i w => ref_assign w i 0) d = Ok d' /\ wf d' /\
    m_size d' = m_size d /\
    (forall i, lo <= i < hi -> zread (m_vec d') i = Some 0) /\
    (forall i, ~ (lo <= i < hi) -> zread (m_vec d') i = zread (m_vec d) i).
Proof.
  intros Hd Hlo Hhi.
  destruct (for_range_inv
    (fun k w => wf w /\ m_size w = m_size d /\
       (forall i, lo <= i < k -> zread (m_vec w) i = Some 0) /\
       (forall i, ~ (lo <= i < k) -> zread (m_vec w) i = zread (m_vec d) i))
    lo hi (fun i w => ref_assign w i 0) d) as (w & E & Hw & Hs & H0 & H1).
  - lia.
  - split_and!; [done|done|lia|done].
  - intros i w Hi (Hw & Hs & H0 & H1). pose proof (wf_block w Hw). pose proof (wf_size w Hw).
    rewrite ref_assign_in by (done || lia). eexists. split; [done|].
    split_and!; simpl; [by apply wf_write|done| |]; intros j Hj.
    + destruct (Z.eq_dec i j) as [->|]; [apply zread_zwrite_eq; lia|].
      rewrite zread_zwrite_ne by lia. apply H0. lia.
    + rewrite zread_zwrite_ne by lia. apply H1. lia.
  - exists w. done.
Qed.

(** Merging: bin [i] becomes the sum of bins [2i] and [2i+1]. *)
Lemma merge_bins_spec n (d : Vector Z) (f : Z → Z) :
  wf d -> m_size d = n -> 0 < n -> n mod 2 = 0 ->
  (forall i, 0 <= i < n -> zread (m_vec d) i = Some (f i)) ->
  exists d', merge_bins n d = Ok d' /\ wf d' /\ m_size d' = n /\
    forall i, 0 <= i < n ->
      zread (m_vec d') i = Some (if i <? n / 2 then f (2 * i) + f (2 * i + 1) else 0).
Proof.
  intros Hd Hs Hn He Hf. unfold merge_bins.
  destruct (for_range_inv
    (fun k w => wf w /\ m_size w = n /\
       (forall i, 0 <= i < k -> zread (m_vec w) i = Some (f (2 * i) + f (2 * i + 1))) /\
       (forall i, k <= i < n -> zread (m_vec w) i = Some (f i)))
    0 (n / 2) (fun i w => x ← ref w (i * 2); y ← ref w (i * 2 + 1); ref_assign w i (x + y)) d)
    as (w & -> & Hw & Hsw & H0 & H1).
  - lia.
  - split_and!; [done|done|lia|done].
  - intros i w Hi (Hw & Hsw & H0 & H1). pose proof (wf_block w Hw). pose proof (wf_size w Hw).
    destruct (ref_in w (i * 2) Hw) as (x & Hx & ->); [lia|]. rewrite bind_of_ok.
    destruct (ref_in w (i * 2 + 1) Hw) as (y & Hy & ->); [lia|]. rewrite bind_of_ok.
    rewrite H1 in Hx, Hy by lia. injection Hx as <-. injection Hy as <-.
    rewrite ref_assign_in by (done || lia). eexists. split; [done|].
    split_and!; simpl; [by apply wf_write|done| |]; intros j Hj.
    + destruct (Z.eq_dec i j) as [->|].
      * rewrite zread_zwrite_eq by lia. do 2 f_equal; f_equal; lia.
      * rewrite zread_zwrite_ne by lia. apply H0. lia.
    + rewrite zread_zwrite_ne by lia. apply H1. lia.
  - rewrite bind_of_ok. destruct (fill_zero_spec w (n / 2) n Hw) as (d' & E & Hd' & Hs' & Hz & Ho);
      [lia|lia|].
    exists d'. split_and!; [done|done|lia|]. intros i Hi. destruct (Z.ltb_spec i (n / 2)).
    + rewrite Ho by lia. apply H0. lia.
    + apply Hz. lia.
Qed.

(** The rescaling loop ends with bins wide enough for [max]. *)
Lemma rescale_spec fuel max n (d : Vector Z) b xs :
  wf d -> m_size d = n -> 0 < n -> n mod 2 = 0 -> 0 < b -> n * b < 2 ^ 31 -> 0 <= max < 2 ^ 30 ->
  Forall (fun x => 0 <= x < n * b) xs ->
  (forall i, 0 <= i < n -> zread (m_vec d) i = Some (in_bin b i xs)) ->
  max < n * b * 2 ^ Z.of_nat fuel ->
  exists d' b', rescale (S fuel) max n d b = Ok (d', b') /\ wf d' /\ m_size d' = n /\
    b <= b' /\ n * b' < 2 ^ 31 /\ max < n * b' /\
    forall i, 0 <= i < n -> zread (m_vec d') i = Some (in_bin b' i xs).
Proof.
  revert d b. induction fuel as [|fuel IH]; intros d b Hd Hs Hn He Hb Hfit Hmax Hxs Hbin Hf;
    cbn [rescale]; rewrite (swrap_small 32 (n * b)) by lia.
  { rewrite (proj2 (Z.leb_gt _ _)) by lia. exists d, b. split_and!; (done || lia). }
  destruct (Z.leb_spec (n * b) max) as [Hle|Hgt].
  2:{ exists d, b. split_and!; (done || lia). }
  destruct (merge_bins_spec n d (fun i => in_bin b i xs)) as (d1 & -> & Hd1 & Hs1 & Hb1);
    [done|done|done|done|done|].
  assert (n * (2 * b) = 2 * (n * b)) as H2 by lia. assert (b <= n * b) as Hnb by nia.
  rewrite bind_of_ok, (swrap_small 32 (b * 2)) by lia. rewrite (Z.mul_comm b 2).
  destruct (IH d1 (2 * b)) as (d' & b' & E & Hd' & Hs' & Hle' & Hfit' & Hmax' & Hbin').
  all: try (done || lia).
  - eapply Forall_impl; [done|]. simpl. lia.
  - intros i Hi. rewrite Hb1 by done. f_equal. destruct (Z.ltb_spec i (n / 2)).
    + by rewrite in_bin_merge.
    + symmetry. apply (in_bin_empty _ (n / 2)); [lia| |lia].
      eapply Forall_impl; [done|]. simpl. intros x.
      replace (n / 2 * (2 * b)) with (n * b); [done|].
      rewrite Z.mul_assoc. f_equal. lia.
  - rewrite Nat2Z.inj_succ, Z.pow_succ_r in Hf by lia. lia.
  - exists d', b'. split_and!; (done || lia).
Qed.

Lemma Histogram_new_counts b n :
  0 < b -> 0 < n -> n mod 2 = 0 -> n * b < 2 ^ 31 ->
  exists h, Histogram_new b n = Ok h /\ counts h [] /\ m_binsize h = b /\ m_bins h = n.
Proof.
  intros Hb Hn He Hfit. unfold Histogram_new, Histogram_clear. cbn [m_data m_binsize].
  destruct (setSize_spec (Vector_default (A:=Z)) n wf_default) as (d & -> & Hd & Hs & _ & _); [lia|].
  rewrite bind_of_ok.
  destruct (fill_zero_spec d 0 n Hd) as (d' & -> & Hd' & Hs' & Hz & _); [lia|lia|].
  rewrite bind_of_ok. eexists. split; [done|]. split; [|done].
  split; simpl; try done; try lia.
  split_and!; [lia|lia|nia|done].
Qed.

Section adding.
  Context (log2_index : Z → Z).

(** Adding a sample to a linear histogram never faults and counts it in the
    right bin, whatever rescaling it causes. *)
Lemma add_counts h xs v :
  counts h xs -> 0 <= v < 2 ^ 30 ->
  exists h', Histogram_add log2_index h v = Ok h' /\ counts h' (v :: xs) /\ m_bins h' = m_bins h.
Proof.
  intros [Hd Hs [Hn He] Hb Hrg Hfit (Hm1 & Hm2 & Hm3) Hc Hsum Hbin] Hv. unfold Histogram_add.
  rewrite cassert_true, bind_of_ok by (apply Z.leb_le; lia).
  rewrite (proj2 (Z.eqb_neq (m_binsize h) (-1))) by lia.
  assert (1 <= m_bins h * m_binsize h) by nia.
  destruct (rescale_spec 63 (Z.max (m_max h) v) (m_bins h) (m_data h) (m_binsize h) xs)
    as (d' & b' & E & Hd' & Hs' & Hle' & Hfit' & Hmax' & Hbin'); try (done || lia).
  unfold rescale_fuel. rewrite E, !bind_of_ok. cbn [fst snd].
  assert (m_bins h * m_binsize h <= m_bins h * b') as Hmono by (apply Z.mul_le_mono_nonneg_l; lia).
  assert (0 <= v / b' < m_bins h) as Hi.
  { split; [apply Z.div_pos; lia|apply Z.div_lt_upper_bound; lia]. }
  rewrite cassert_true, bind_of_ok by (apply Z.leb_le; lia).
  pose proof (wf_block d' Hd'). pose proof (wf_size d' Hd').
  destruct (ref_in d' (v / b') Hd') as (x & Hx & ->); [lia|]. rewrite bind_of_ok.
  rewrite Hbin' in Hx by done. injection Hx as <-.
  rewrite ref_assign_in, bind_of_ok by (done || lia).
  eexists. split; [done|]. split; [|done].
  split; simpl; try done; try lia.
  - by apply wf_write.
  - constructor; [lia|]. eapply Forall_impl; [exact Hrg|]. simpl. lia.
  - split_and!; [lia|lia|lia|]. constructor; [lia|]. eapply Forall_impl; [exact Hm3|]. simpl. lia.
  - rewrite Hc. unfold zlen. cbn [length]. lia.
  - rewrite Hsum, swrap_add_l by lia. f_equal. lia.
  - intros i Hi'. rewrite in_bin_cons. destruct (Z.eqb_spec (v / b') i) as [<-|].
    + rewrite zread_zwrite_eq by lia. f_equal. lia.
    + rewrite zread_zwrite_ne by done. by apply Hbin'.
Qed.

Definition add_all (h : Histogram) (xs : list Z) : outcome Histogram :=
  foldr (fun x r => h ← r; Histogram_add log2_index h x) (Ok h) xs.

Lemma add_all_counts h xs ys :
  counts h ys -> Forall (fun x => 0 <= x < 2 ^ 30) xs ->
  exists h', add_all h xs = Ok h' /\ counts h' (xs ++ ys) /\ m_bins h' = m_bins h.
Proof.
  intros Hh. induction 1 as [|x xs Hx _ (h1 & E1 & Hc1 & Hb1)]; [by exists h|].
  simpl. rewrite E1, bind_of_ok.
  destruct (add_counts h1 (xs ++ ys) x Hc1 Hx) as (h2 & E2 & Hc2 & Hb2).
  exists h2. split_and!; [done|done|congruence].
Qed.

End adding.

(** The bins of a list of samples add up to its length. *)
Fixpoint bin_total (n : nat) (b : Z) (xs : list Z) : Z :=
  match n with O => 0 | S n' => bin_total n' b xs + in_bin b (Z.of_nat n') xs end.

Lemma bin_total_cons n b x xs :
  0 < b -> 0 <= x ->
  bin_total n b (x :: xs) = (if x / b <? Z.of_nat n then 1 else 0) + bin_total n b xs.
Proof.
  intros Hb Hx. assert (0 <= x / b) by (apply Z.div_pos; lia).
  induction n as [|n IH]; cbn [bin_total].
  { by rewrite (proj2 (Z.ltb_ge _ _)) by lia. }
  rewrite IH, in_bin_cons.
  destruct (Z.ltb_spec (x / b) (Z.of_nat n)), (Z.eqb_spec (x / b) (Z.of_nat n)),
    (Z.ltb_spec (x / b) (Z.of_nat (S n))); lia.
Qed.

Lemma bin_total_all n b xs :
  0 < b -> Forall (fun x => 0 <= x < Z.of_nat n * b) xs -> bin_total n b xs = zlen xs.
Proof.
  intros Hb. induction 1 as [|x xs Hx _ IH].
  { clear. induction n as [|n IH]; cbn [bin_total]; [done|]. rewrite IH. done. }
  rewrite bin_total_cons, IH by lia. rewrite (proj2 (Z.ltb_lt _ _)).
  - unfold zlen. cbn [length]. lia.
  - apply Z.div_lt_upper_bound; lia.
Qed.

(** The sum over the array a client can see with [getData]. *)
Lemma data_total n (d : Vector Z) b xs :
  (forall i, 0 <= i < Z.of_nat n -> zread (m_vec d) i = Some (in_bin b i xs)) ->
  foldr Z.add 0 (take n (m_vec d)) = bin_total n b xs.
Proof.
  induction n as [|n IH]; intros H; [done|]. cbn [bin_total].
  pose proof (H (Z.of_nat n) ltac:(lia)) as Hn. rewrite zread_of_nat in Hn.
  rewrite (take_S_r _ _ _ Hn), foldr_app, <- IH by (intros; apply H; lia). simpl.
  generalize (take n (m_vec d)). intros l. induction l; simpl; lia.
Qed.

(** With an even number of bins and samples below two to the thirtieth, after any
    additions each bin holds the number of samples in its range at the current bin size,
    the bins sum up to the number of samples, and the sum of the samples is right modulo
    64 bits. *)
Theorem Histogram_accounts_for_every_sample log2_index b n xs :
  0 < b -> 0 < n -> n mod 2 = 0 -> n * b < 2 ^ 31 -> Forall (fun x => 0 <= x < 2 ^ 30) xs ->
  exists h0 h, Histogram_new b n = Ok h0 /\ add_all log2_index h0 xs = Ok h /\
    m_count h = zlen xs /\ foldr Z.add 0 (contents (m_data h)) = zlen xs /\
    m_sumSamples h = s64 (foldr Z.add 0 xs) /\
    forall i, 0 <= i < n ->
      zread (m_vec (m_data h)) i = Some (in_bin (m_binsize h) i xs).
Proof.
  intros Hb Hn He Hfit Hxs.
  destruct (Histogram_new_counts b n Hb Hn He Hfit) as (h0 & E0 & Hc0 & _ & Hn0).
  destruct (add_all_counts log2_index h0 xs [] Hc0 Hxs) as (h & E & Hc & Hn').
  rewrite app_nil_r in Hc. rewrite Hn0 in Hn'. destruct Hc as [Hd Hs _ Hb' Hrg _ _ Hc Hsum Hbin].
  rewrite Hn' in *. exists h0, h. split_and!; try done. unfold contents. rewrite Hs.
  rewrite (data_total _ _ (m_binsize h) xs), bin_total_all; [done|done| |].
  - rewrite Z2Nat.id by lia. done.
  - intros i Hi. apply Hbin. lia.
Qed.

Lemma Histogram_accounts_for_every_sample_witness :
  exists h0 h, Histogram_new 1 4 = Ok h0 /\ add_all Z.log2 h0 [9; 2; 0; 3] = Ok h /\
    m_count h = 4 /\ foldr Z.add 0 (contents (m_data h)) = 4 /\
    m_sumSamples h = s64 (foldr Z.add 0 [9; 2; 0; 3]) /\
    forall i, 0 <= i < 4 ->
      zread (m_vec (m_data h)) i = Some (in_bin (m_binsize h) i [9; 2; 0; 3]).
Proof.
  apply (Histogram_accounts_for_every_sample Z.log2 1 4 [9; 2; 0; 3]); try lia; try reflexivity.
  repeat constructor; lia.
Defined.

(** With an odd number of bins the merge of neighbours drops the last bin: a sample is
    counted but in no bin. *)
Theorem Histogram_odd_bins_lose_samples :
  exists h0 h, Histogram_new 1 3 = Ok h0 /\ add_all Z.log2 h0 [3; 2] = Ok h /\
    m_count h = 2 /\ foldr Z.add 0 (contents (m_data h)) = 1.
Proof. eexists _, _. split; [reflexivity|]. split; vm_compute; [reflexivity|done]. Qed.

(** The bin sizes the loop runs through from 1 when no [int] product exceeds the
    sample: the powers of two up to the wrap-around, then 0 for ever. *)
Definition wrapped_sizes : list Z := (fun k => s32 (2 ^ Z.of_nat k)) <$> seq 0 33.

Lemma wrapped_sizes_closed :
  forallb (fun b => (s32 (50 * b) <=? 2000000000) &&
                    bool_decide (s32 (b * 2) ∈ wrapped_sizes)) wrapped_sizes = true.
Proof. vm_compute. reflexivity. Qed.

(** A sample beyond the range of [int] never ends the rescaling loop, whatever the fuel:
    the bin size wraps around. *)
Theorem rescale_never_ends fuel (d : Vector Z) :
  wf d -> m_size d = 50 -> rescale fuel 2000000000 50 d 1 = Err OutOfFuel.
Proof.
  intros Hd Hs. assert (1 ∈ wrapped_sizes) as Hb by (vm_compute; left).
  revert d Hd Hs Hb. generalize 1 as b. induction fuel as [|fuel IH]; intros b d Hd Hs Hb; [done|].
  pose proof wrapped_sizes_closed as Hall. rewrite forallb_forall in Hall.
  specialize (Hall b (proj1 (list_elem_of_In _ _) Hb)). to_prop. cbn [rescale].
  rewrite (proj2 (Z.leb_le _ _)) by done.
  destruct (merge_bins_spec 50 d (fun i => default 0 (zread (m_vec d) i)))
    as (d' & -> & Hd' & Hs' & _); [done|done|lia|done| |].
  - intros i Hi. pose proof (wf_block d Hd). pose proof (wf_size d Hd).
    destruct (zread_is_some (m_vec d) i) as [x ->]; [lia|]. done.
  - rewrite bind_of_ok. by apply IH.
Qed.

Lemma rescale_never_ends_witness :
  rescale 1000 2000000000 50 (mkVector (replicate 50 0) 50 50) 1 = Err OutOfFuel.
Proof. apply (rescale_never_ends 1000); [split; simpl; [lia|reflexivity]|reflexivity]. Defined.
