(* ===== verification/MessageBuffer.v ===== *)
(** [buffers/MessageBuffer.{h,C}], [buffers/MessageBufferNode.h] and the part of
    [slicc_interface/Message.h] the buffers use: the timed queues every
    controller and every switch of Ruby communicates through.

    Messages are shared: a [MsgPtr] is the address of a message in the store
    [msgs] ([None] is the null pointer), and enqueueing a message writes to it.
    [random()] is called for its value only; the three values [random_time] may
    draw are an argument.  [RANDOMIZATION] and [RECYCLE_LATENCY] come from the
    configuration. *)

From S2P Require Import Prelude Vector PrioHeap EventQueue Histogram.

(** The fields of [Message] that belong to the base class. *)
Record Message := mkMessage {
  msg_time : Time;
  m_LastEnqueueTime : Time;
  m_DelayedCycles : Z;
}.

Definition Message_new (now : Time) : Message := mkMessage now now 0.

Record MessageBufferNode := mkMessageBufferNode {
  n_time : Time;
  n_msg_counter : Z;
  n_msgptr : option Z;
}.

#[export] Instance MessageBufferNode_inhabited : Inhabited MessageBufferNode :=
  populate (mkMessageBufferNode 0 0 None).

#[export] Instance message_node : PrioNode MessageBufferNode := fun n1 n2 =>
  if n_time n1 =? n_time n2 then
    cassert (negb (n_msg_counter n1 =? n_msg_counter n2));;
    mret (n_msg_counter n1 <=? n_msg_counter n2)
  else mret (n_time n1 <=? n_time n2).

Record MessageBuffer := mkMessageBuffer {
  m_consumer_ptr : option Z;
  m_prio_heap : PrioHeap MessageBufferNode;
  m_max_size : Z;
  m_size : Z;
  m_time_last_time_size_checked : Time;
  m_size_last_time_size_checked : Z;
  m_time_last_time_enqueue : Time;
  m_time_last_time_pop : Time;
  m_size_at_cycle_start : Z;
  m_msgs_this_cycle : Z;
  m_not_avail_count : Z;
  m_msg_counter : Z;
  m_priority_rank : Z;
  m_strict_fifo : bool;
  m_ordering_set : bool;
  m_randomization : bool;
  m_last_arrival_time : Time;
  m_buffer_size : Histogram;
}.

(** One field at a time. *)
Definition with_consumer (b : MessageBuffer) v : MessageBuffer :=
  mkMessageBuffer v (m_prio_heap b) (m_max_size b) (m_size b) (m_time_last_time_size_checked b)
    (m_size_last_time_size_checked b) (m_time_last_time_enqueue b) (m_time_last_time_pop b)
    (m_size_at_cycle_start b) (m_msgs_this_cycle b) (m_not_avail_count b) (m_msg_counter b)
    (m_priority_rank b) (m_strict_fifo b) (m_ordering_set b) (m_randomization b)
    (m_last_arrival_time b) (m_buffer_size b).
Definition with_heap (b : MessageBuffer) v : MessageBuffer :=
  mkMessageBuffer (m_consumer_ptr b) v (m_max_size b) (m_size b) (m_time_last_time_size_checked
    b) (m_size_last_time_size_checked b) (m_time_last_time_enqueue b) (m_time_last_time_pop b)
    (m_size_at_cycle_start b) (m_msgs_this_cycle b) (m_not_avail_count b) (m_msg_counter b)
    (m_priority_rank b) (m_strict_fifo b) (m_ordering_set b) (m_randomization b)
    (m_last_arrival_time b) (m_buffer_size b).
Definition with_max_size (b : MessageBuffer) v : MessageBuffer :=
  mkMessageBuffer (m_consumer_ptr b) (m_prio_heap b) v (m_size b) (m_time_last_time_size_checked
    b) (m_size_last_time_size_checked b) (m_time_last_time_enqueue b) (m_time_last_time_pop b)
    (m_size_at_cycle_start b) (m_msgs_this_cycle b) (m_not_avail_count b) (m_msg_counter b)
    (m_priority_rank b) (m_strict_fifo b) (m_ordering_set b) (m_randomization b)
    (m_last_arrival_time b) (m_buffer_size b).
Definition with_size (b : MessageBuffer) v : MessageBuffer :=
  mkMessageBuffer (m_consumer_ptr b) (m_prio_heap b) (m_max_size b) v
    (m_time_last_time_size_checked b) (m_size_last_time_size_checked b)
    (m_time_last_time_enqueue b) (m_time_last_time_pop b) (m_size_at_cycle_start b)
    (m_msgs_this_cycle b) (m_not_avail_count b) (m_msg_counter b) (m_priority_rank b)
    (m_strict_fifo b) (m_ordering_set b) (m_randomization b) (m_last_arrival_time b)
    (m_buffer_size b).
Definition with_time_size_checked (b : MessageBuffer) v : MessageBuffer :=
  mkMessageBuffer (m_consumer_ptr b) (m_prio_heap b) (m_max_size b) (m_size b) v
    (m_size_last_time_size_checked b) (m_time_last_time_enqueue b) (m_time_last_time_pop b)
    (m_size_at_cycle_start b) (m_msgs_this_cycle b) (m_not_avail_count b) (m_msg_counter b)
    (m_priority_rank b) (m_strict_fifo b) (m_ordering_set b) (m_randomization b)
    (m_last_arrival_time b) (m_buffer_size b).
Definition with_size_checked (b : MessageBuffer) v : MessageBuffer :=
  mkMessageBuffer (m_consumer_ptr b) (m_prio_heap b) (m_max_size b) (m_size b)
    (m_time_last_time_size_checked b) v (m_time_last_time_enqueue b) (m_time_last_time_pop b)
    (m_size_at_cycle_start b) (m_msgs_this_cycle b) (m_not_avail_count b) (m_msg_counter b)
    (m_priority_rank b) (m_strict_fifo b) (m_ordering_set b) (m_randomization b)
    (m_last_arrival_time b) (m_buffer_size b).
Definition with_time_enqueue (b : MessageBuffer) v : MessageBuffer :=
  mkMessageBuffer (m_consumer_ptr b) (m_prio_heap b) (m_max_size b) (m_size b)
    (m_time_last_time_size_checked b) (m_size_last_time_size_checked b) v (m_time_last_time_pop
    b) (m_size_at_cycle_start b) (m_msgs_this_cycle b) (m_not_avail_count b) (m_msg_counter b)
    (m_priority_rank b) (m_strict_fifo b) (m_ordering_set b) (m_randomization b)
    (m_last_arrival_time b) (m_buffer_size b).
Definition with_time_pop (b : MessageBuffer) v : MessageBuffer :=
  mkMessageBuffer (m_consumer_ptr b) (m_prio_heap b) (m_max_size b) (m_size b)
    (m_time_last_time_size_checked b) (m_size_last_time_size_checked b)
    (m_time_last_time_enqueue b) v (m_size_at_cycle_start b) (m_msgs_this_cycle b)
    (m_not_avail_count b) (m_msg_counter b) (m_priority_rank b) (m_strict_fifo b)
    (m_ordering_set b) (m_randomization b) (m_last_arrival_time b) (m_buffer_size b).
Definition with_cycle_start (b : MessageBuffer) v : MessageBuffer :=
  mkMessageBuffer (m_consumer_ptr b) (m_prio_heap b) (m_max_size b) (m_size b)
    (m_time_last_time_size_checked b) (m_size_last_time_size_checked b)
    (m_time_last_time_enqueue b) (m_time_last_time_pop b) v (m_msgs_this_cycle b)
    (m_not_avail_count b) (m_msg_counter b) (m_priority_rank b) (m_strict_fifo b)
    (m_ordering_set b) (m_randomization b) (m_last_arrival_time b) (m_buffer_size b).
Definition with_msgs_this_cycle (b : MessageBuffer) v : MessageBuffer :=
  mkMessageBuffer (m_consumer_ptr b) (m_prio_heap b) (m_max_size b) (m_size b)
    (m_time_last_time_size_checked b) (m_size_last_time_size_checked b)
    (m_time_last_time_enqueue b) (m_time_last_time_pop b) (m_size_at_cycle_start b) v
    (m_not_avail_count b) (m_msg_counter b) (m_priority_rank b) (m_strict_fifo b)
    (m_ordering_set b) (m_randomization b) (m_last_arrival_time b) (m_buffer_size b).
Definition with_not_avail (b : MessageBuffer) v : MessageBuffer :=
  mkMessageBuffer (m_consumer_ptr b) (m_prio_heap b) (m_max_size b) (m_size b)
    (m_time_last_time_size_checked b) (m_size_last_time_size_checked b)
    (m_time_last_time_enqueue b) (m_time_last_time_pop b) (m_size_at_cycle_start b)
    (m_msgs_this_cycle b) v (m_msg_counter b) (m_priority_rank b) (m_strict_fifo b)
    (m_ordering_set b) (m_randomization b) (m_last_arrival_time b) (m_buffer_size b).
Definition with_counter (b : MessageBuffer) v : MessageBuffer :=
  mkMessageBuffer (m_consumer_ptr b) (m_prio_heap b) (m_max_size b) (m_size b)
    (m_time_last_time_size_checked b) (m_size_last_time_size_checked b)
    (m_time_last_time_enqueue b) (m_time_last_time_pop b) (m_size_at_cycle_start b)
    (m_msgs_this_cycle b) (m_not_avail_count b) v (m_priority_rank b) (m_strict_fifo b)
    (m_ordering_set b) (m_randomization b) (m_last_arrival_time b) (m_buffer_size b).
Definition with_priority (b : MessageBuffer) v : MessageBuffer :=
  mkMessageBuffer (m_consumer_ptr b) (m_prio_heap b) (m_max_size b) (m_size b)
    (m_time_last_time_size_checked b) (m_size_last_time_size_checked b)
    (m_time_last_time_enqueue b) (m_time_last_time_pop b) (m_size_at_cycle_start b)
    (m_msgs_this_cycle b) (m_not_avail_count b) (m_msg_counter b) v (m_strict_fifo b)
    (m_ordering_set b) (m_randomization b) (m_last_arrival_time b) (m_buffer_size b).
Definition with_strict_fifo (b : MessageBuffer) v : MessageBuffer :=
  mkMessageBuffer (m_consumer_ptr b) (m_prio_heap b) (m_max_size b) (m_size b)
    (m_time_last_time_size_checked b) (m_size_last_time_size_checked b)
    (m_time_last_time_enqueue b) (m_time_last_time_pop b) (m_size_at_cycle_start b)
    (m_msgs_this_cycle b) (m_not_avail_count b) (m_msg_counter b) (m_priority_rank b) v
    (m_ordering_set b) (m_randomization b) (m_last_arrival_time b) (m_buffer_size b).
Definition with_ordering_set (b : MessageBuffer) v : MessageBuffer :=
  mkMessageBuffer (m_consumer_ptr b) (m_prio_heap b) (m_max_size b) (m_size b)
    (m_time_last_time_size_checked b) (m_size_last_time_size_checked b)
    (m_time_last_time_enqueue b) (m_time_last_time_pop b) (m_size_at_cycle_start b)
    (m_msgs_this_cycle b) (m_not_avail_count b) (m_msg_counter b) (m_priority_rank b)
    (m_strict_fifo b) v (m_randomization b) (m_last_arrival_time b) (m_buffer_size b).
Definition with_randomization (b : MessageBuffer) v : MessageBuffer :=
  mkMessageBuffer (m_consumer_ptr b) (m_prio_heap b) (m_max_size b) (m_size b)
    (m_time_last_time_size_checked b) (m_size_last_time_size_checked b)
    (m_time_last_time_enqueue b) (m_time_last_time_pop b) (m_size_at_cycle_start b)
    (m_msgs_this_cycle b) (m_not_avail_count b) (m_msg_counter b) (m_priority_rank b)
    (m_strict_fifo b) (m_ordering_set b) v (m_last_arrival_time b) (m_buffer_size b).
Definition with_last_arrival (b : MessageBuffer) v : MessageBuffer :=
  mkMessageBuffer (m_consumer_ptr b) (m_prio_heap b) (m_max_size b) (m_size b)
    (m_time_last_time_size_checked b) (m_size_last_time_size_checked b)
    (m_time_last_time_enqueue b) (m_time_last_time_pop b) (m_size_at_cycle_start b)
    (m_msgs_this_cycle b) (m_not_avail_count b) (m_msg_counter b) (m_priority_rank b)
    (m_strict_fifo b) (m_ordering_set b) (m_randomization b) v (m_buffer_size b).
Definition with_buffer_size (b : MessageBuffer) v : MessageBuffer :=
  mkMessageBuffer (m_consumer_ptr b) (m_prio_heap b) (m_max_size b) (m_size b)
    (m_time_last_time_size_checked b) (m_size_last_time_size_checked b)
    (m_time_last_time_enqueue b) (m_time_last_time_pop b) (m_size_at_cycle_start b)
    (m_msgs_this_cycle b) (m_not_avail_count b) (m_msg_counter b) (m_priority_rank b)
    (m_strict_fifo b) (m_ordering_set b) (m_randomization b) (m_last_arrival_time b) v.

(** What a buffer operation sees of the rest of the simulator. *)
Record env := mkEnv {
  g_eventQueue : EventQueue;
  g_consumers : gmap Z Consumer;
  msgs : gmap Z Message;
}.

Definition now (e : env) : Time := getTime (g_eventQueue e).
Definition set_msg (e : env) (p : Z) (m : Message) : env :=
  mkEnv (g_eventQueue e) (g_consumers e) (<[p := m]> (msgs e)).

Definition schedule (e : env) (consumer : option Z) (t : Time) : outcome env :=
  r ← scheduleEventAbsolute (g_eventQueue e) (g_consumers e) consumer t;
  mret (mkEnv (fst r) (snd r) (msgs e)).

Definition load_msg (e : env) (p : Z) : outcome Message :=
  match msgs e !! p with Some m => Ok m | None => Err BadAccess end.

Definition MessageBuffer_new : outcome MessageBuffer :=
  stats ← Histogram_new 1 50;
  mret (mkMessageBuffer None heap_init (-1) 0 0 0 0 0 0 0 0 0 0 true false true 0 stats).

Definition isReady (b : MessageBuffer) (e : env) : outcome bool :=
  if 0 <? heap_size (m_prio_heap b) then
    n ← peekMin (m_prio_heap b);
    mret (n_time n <=? now e)
  else mret false.

Definition setConsumer (b : MessageBuffer) (c : option Z) : outcome MessageBuffer :=
  match m_consumer_ptr b with
  | Some _ => Err AssertFailed
  | None => mret (with_consumer b c)
  end.
Definition setPriority (b : MessageBuffer) (rank : Z) : MessageBuffer := with_priority b rank.
Definition setOrdering (b : MessageBuffer) (order : bool) : MessageBuffer :=
  with_ordering_set (with_strict_fifo b order) true.
Definition set_buffer_size (b : MessageBuffer) (size : Z) : MessageBuffer := with_max_size b size.
Definition setRandomization (b : MessageBuffer) (random_flag : bool) : MessageBuffer :=
  with_randomization b random_flag.
Definition isEmptyBuffer (b : MessageBuffer) : bool := heap_size (m_prio_heap b) =? 0.

Definition clearStats (b : MessageBuffer) : outcome MessageBuffer :=
  let b1 := with_counter (with_not_avail b 0) 0 in
  stats ← Histogram_clear (m_buffer_size b1) (m_bins (m_buffer_size b1));
  mret (with_buffer_size b1 stats).

Definition getSize (b : MessageBuffer) (e : env) : Z * MessageBuffer :=
  if m_time_last_time_size_checked b =? now e then (m_size_last_time_size_checked b, b)
  else (m_size b, with_size_checked (with_time_size_checked b (now e)) (m_size b)).

(** The [current_size] computed by [areNSlotsAvailable]. *)
Definition visible_size (b : MessageBuffer) (t : Time) : Z :=
  if m_time_last_time_pop b <? t then m_size b
  else if m_time_last_time_enqueue b <? t then m_size_at_cycle_start b
  else s32 (m_size_at_cycle_start b + m_msgs_this_cycle b).

Definition areNSlotsAvailable (b : MessageBuffer) (e : env) (n : Z) : bool * MessageBuffer :=
  if m_max_size b =? -1 then (true, b)
  else
    let current_size := visible_size b (now e) in
    if s32 (current_size + n) <=? m_max_size b then (true, b)
    else (false, with_not_avail b (s32 (m_not_avail_count b + 1))).

Definition peekMsgPtr (b : MessageBuffer) (e : env) : outcome (option Z) :=
  ready ← isReady b e;
  cassert ready;;
  n ← peekMin (m_prio_heap b);
  mret (n_msgptr n).

Definition peekAtHeadOfQueue (b : MessageBuffer) (e : env) : outcome Z :=
  p ← peekMsgPtr b e;
  match p with Some q => mret q | None => Err AssertFailed end.

(** [random_time()] with the values its calls of [random()] return. *)
Definition random_time (rnd : Z * Z * Z) : Z :=
  let '(r1, r2, r3) := rnd in
  let time := 1 + Z.land r1 3 in
  if Z.land r2 7 =? 0 then time + (100 + Z.rem r3 15) else time.

Section configured.
  Context (RANDOMIZATION : bool) (RECYCLE_LATENCY : Z) (log2_index : Z → Z).

(** The first cycle the message can be dequeued, and [m_last_arrival_time] as
    the computation leaves it. *)
Definition arrival (b : MessageBuffer) (t delta : Time) (rnd : Z * Z * Z) : Time * Time :=
  if negb RANDOMIZATION || negb (m_randomization b) then (t + delta, m_last_arrival_time b)
  else if m_strict_fifo b then
    let last := if m_last_arrival_time b <? t then t else m_last_arrival_time b in
    (last + random_time rnd, last)
  else (t + random_time rnd, m_last_arrival_time b).

Definition enqueue (b : MessageBuffer) (e : env) (message : option Z) (delta : Time)
    (rnd : Z * Z * Z) : outcome (MessageBuffer * env) :=
  let b := with_size (with_counter b (s32 (m_msg_counter b + 1))) (s32 (m_size b + 1)) in
  stats ← Histogram_add log2_index (m_buffer_size b) (m_size b);
  let b := with_buffer_size b stats in
  let b := if m_time_last_time_enqueue b <? now e
           then with_time_enqueue (with_msgs_this_cycle b 0) (now e) else b in
  let b := with_msgs_this_cycle b (s32 (m_msgs_this_cycle b + 1)) in
  if negb (m_ordering_set b) then Err ErrorMsg else
  cassert (0 <? delta);;
  let '(arrival_time, last) := arrival b (now e) delta rnd in
  let b := with_last_arrival b last in
  cassert (now e <? arrival_time);;
  if m_strict_fifo b && negb (m_last_arrival_time b <=? arrival_time) then Err ErrorMsg else
  let b := with_last_arrival b arrival_time in
  match message with
  | None => Err AssertFailed
  | Some p =>
      m ← load_msg e p;
      cassert (m_LastEnqueueTime m <=? now e);;
      let m' := mkMessage (msg_time m) arrival_time
                          (s32 (now e - m_LastEnqueueTime m + m_DelayedCycles m)) in
      let e := set_msg e p m' in
      h ← insert (m_prio_heap b) (mkMessageBufferNode arrival_time (m_msg_counter b) (Some p));
      let b := with_heap b h in
      match m_consumer_ptr b with
      | None => Err ErrorMsg
      | Some c => e' ← schedule e (Some c) arrival_time; mret (b, e')
      end
  end.

Definition pop (b : MessageBuffer) (e : env) : outcome MessageBuffer :=
  ready ← isReady b e;
  cassert ready;;
  r ← extractMin (m_prio_heap b);
  let b := with_heap b (snd r) in
  let b := if m_time_last_time_pop b <? now e
           then with_time_pop (with_cycle_start b (m_size b)) (now e) else b in
  mret (with_size b (s32 (m_size b - 1))).

Definition dequeue (b : MessageBuffer) (e : env) : outcome (option Z * MessageBuffer) :=
  n ← peekMin (m_prio_heap b);
  b' ← pop b e;
  mret (n_msgptr n, b').

Definition setAndReturnDelayCycles (e : env) (message : option Z) : outcome (Z * env) :=
  match message with
  | None => Err BadAccess
  | Some p =>
      m ← load_msg e p;
      cassert (m_LastEnqueueTime m <=? now e);;
      let delay := s32 (now e - m_LastEnqueueTime m + m_DelayedCycles m) in
      cassert (0 <=? delay);;
      mret (delay, set_msg e p (mkMessage (msg_time m) (m_LastEnqueueTime m) delay))
  end.

(** [dequeue_getDelayCycles(MsgPtr& message)]. *)
Definition dequeue_getDelayCycles_msg (b : MessageBuffer) (e : env) :
    outcome (Z * option Z * MessageBuffer * env) :=
  r ← dequeue b e;
  d ← setAndReturnDelayCycles e (fst r);
  cassert (0 <=? fst d);;
  mret (fst d, fst r, snd r, snd d).

(** [dequeue_getDelayCycles()]. *)
Definition dequeue_getDelayCycles (b : MessageBuffer) (e : env) :
    outcome (Z * MessageBuffer * env) :=
  n ← peekMin (m_prio_heap b);
  d ← setAndReturnDelayCycles e (n_msgptr n);
  b' ← pop b (snd d);
  cassert (0 <=? fst d);;
  mret (fst d, b', snd d).

Fixpoint drain (fuel : nat) (h : PrioHeap MessageBufferNode) :
    outcome (PrioHeap MessageBufferNode) :=
  match fuel with
  | O => Err OutOfFuel
  | S fuel' =>
      if 0 <? heap_size h then r ← extractMin h; drain fuel' (snd r) else Ok h
  end.

Definition clear (b : MessageBuffer) : outcome MessageBuffer :=
  h ← drain (S (Z.to_nat (heap_size (m_prio_heap b)))) (m_prio_heap b);
  cassert (heap_size h =? 0);;
  mret (with_msgs_this_cycle (with_cycle_start (with_time_pop (with_time_enqueue
         (with_size (with_counter (with_heap b h) 0) 0) 0) 0) 0) 0).

Definition recycle (b : MessageBuffer) (e : env) : outcome (MessageBuffer * env) :=
  ready ← isReady b e;
  cassert ready;;
  r ← extractMin (m_prio_heap b);
  let node := mkMessageBufferNode (now e + RECYCLE_LATENCY) (n_msg_counter (fst r))
                                  (n_msgptr (fst r)) in
  h ← insert (snd r) node;
  e' ← schedule e (m_consumer_ptr b) (now e + RECYCLE_LATENCY);
  mret (with_heap b h, e').

End configured.

(** * Order of messages *)

#[export] Instance message_node_laws : PrioNodeLaws MessageBufferNode.
Proof.
  refine {| node_leb n1 n2 := if n_time n1 =? n_time n2 then n_msg_counter n1 <=? n_msg_counter n2
                              else n_time n1 <=? n_time n2;
            node_compat n1 n2 := n_time n1 = n_time n2 -> n_msg_counter n1 <> n_msg_counter n2 |}.
  - intros a b H E E'. by apply H.
  - intros a b H. unfold node_less_then_eq, message_node. case_match; [|done].
    rewrite cassert_true; [done|]. to_prop. apply negb_true_iff, Z.eqb_neq. auto.
  - intros a b c. repeat case_match; to_prop; rewrite ?Z.leb_le; lia.
  - intros a b. rewrite Z.eqb_sym. case_match; rewrite ?Z.leb_gt, ?Z.leb_le; lia.
Defined.

(** The delivery order: earlier arrival first, then earlier enqueue. *)
Definition node_lt (a b : MessageBufferNode) : Prop :=
  n_time a < n_time b \/ (n_time a = n_time b /\ n_msg_counter a < n_msg_counter b).

Lemma node_leb_spec (a b : MessageBufferNode) :
  node_leb a b = true <->
  n_time a < n_time b \/ (n_time a = n_time b /\ n_msg_counter a <= n_msg_counter b).
Proof.
  change (node_leb a b) with
    (if n_time a =? n_time b then n_msg_counter a <=? n_msg_counter b else n_time a <=? n_time b).
  case_match; to_prop; rewrite Z.leb_le; lia.
Qed.

Lemma random_time_range r1 r2 r3 :
  0 <= r3 -> 1 <= random_time (r1, r2, r3) <= 118.
Proof.
  intros Hr. unfold random_time.
  assert (0 <= Z.land r1 3 <= 3).
  { replace (Z.land r1 3) with (r1 mod 4) by (symmetry; apply (Z.land_ones r1 2); lia). lia. }
  rewrite Z.rem_mod_nonneg by lia. case_match; lia.
Qed.

(** * Invariant *)

Definition nodes (b : MessageBuffer) : list MessageBufferNode := heap_list (m_prio_heap b).

Record buf_inv (b : MessageBuffer) : Prop := {
  bi_heap : heap_wf (m_prio_heap b);
  bi_size : m_size b = heap_size (m_prio_heap b);
  bi_stats : exists xs, counts (m_buffer_size b) xs;
  bi_counter : 0 <= m_msg_counter b;
  bi_counters n : n ∈ nodes b -> 0 < n_msg_counter n <= m_msg_counter b;
  bi_distinct : NoDup (n_msg_counter <$> nodes b);
}.

Definition env_ok (e : env) : Prop := queue_inv (g_eventQueue e) /\ 
  wakeups_pending (g_eventQueue e) (g_consumers e).

Lemma buf_inv_new : exists b, MessageBuffer_new = Ok b /\ buf_inv b /\ nodes b = [].
Proof.
  destruct (Histogram_new_counts 1 50) as (h & E & Hh & _); [lia|lia|done|lia|].
  unfold MessageBuffer_new. rewrite E, bind_of_ok. eexists. split; [reflexivity|].
  match goal with |- buf_inv ?b /\ _ => assert (nodes b = []) as Hn by reflexivity end.
  split; [|done]. split; [exact heap_wf_init|done|by exists []|done| |]; rewrite Hn.
  - intros n []%elem_of_nil.
  - constructor.
Qed.

Lemma fresh_counter_compat b n :
  buf_inv b -> m_msg_counter b < n_msg_counter n ->
  forall x, x ∈ nodes b -> node_compat n x.
Proof. intros Hb Hn x Hx _. apply (bi_counters _ Hb) in Hx. lia. Qed.

(** The arrival time is in the future, and for an ordered buffer with
    randomization it is never before the last one. *)
Definition keeps_order (R : bool) (b : MessageBuffer) (t delta : Time) : Prop :=
  m_strict_fifo b = true -> R && m_randomization b = false -> m_last_arrival_time b <= t + delta.

Lemma arrival_spec R b t delta r1 r2 r3 :
  0 < delta -> 0 <= r3 ->
  t < fst (arrival R b t delta (r1, r2, r3)) /\
  (keeps_order R b t delta -> m_strict_fifo b = true ->
   m_last_arrival_time b <= fst (arrival R b t delta (r1, r2, r3)) /\
   snd (arrival R b t delta (r1, r2, r3)) <= fst (arrival R b t delta (r1, r2, r3))).
Proof.
  intros Hd Hr. pose proof (random_time_range r1 r2 r3 Hr) as Hrt. unfold arrival, keeps_order.
  destruct R, (m_randomization b), (m_strict_fifo b); simpl; try naive_solver lia.
  destruct (Z.ltb_spec (m_last_arrival_time b) t); simpl; naive_solver lia.
Qed.

Lemma buf_inv_insert b b' n :
  buf_inv b -> heap_wf (m_prio_heap b') -> m_size b' = heap_size (m_prio_heap b') ->
  (exists xs, counts (m_buffer_size b') xs) ->
  m_msg_counter b' = n_msg_counter n -> m_msg_counter b < n_msg_counter n ->
  nodes b' ≡ₚ n :: nodes b -> buf_inv b'.
Proof.
  intros Hb Hh Hs Hst Hc Hlt Hp. pose proof (bi_counter _ Hb). split; try done; [lia| |].
  - intros x. rewrite Hp, elem_of_cons. intros [->|Hx]; [lia|]. apply (bi_counters _ Hb) in Hx. lia.
  - rewrite Hp. simpl. apply NoDup_cons. split; [|apply Hb].
    intros (x & E & Hx)%list_elem_of_fmap. apply (bi_counters _ Hb) in Hx. lia.
Qed.

Lemma isReady_spec b e :
  buf_inv b -> 0 < m_size b ->
  exists n, peekMin (m_prio_heap b) = Ok n /\ isReady b e = Ok (n_time n <=? now e).
Proof.
  intros Hb Hs. rewrite (bi_size _ Hb) in Hs.
  destruct (extractMin_spec (m_prio_heap b) (bi_heap _ Hb) Hs) as (n & h & _ & Hn & _).
  exists n. split; [done|]. unfold isReady. rewrite (proj2 (Z.ltb_lt _ _) Hs), Hn. done.
Qed.

(** The next message: the least of those held. *)
Definition is_next (b : MessageBuffer) (n : MessageBufferNode) : Prop :=
  n ∈ nodes b /\ forall x, x ∈ nodes b -> node_leb n x = true.

Lemma pop_spec b e :
  buf_inv b -> 0 < m_size b ->
  exists n rest, peekMin (m_prio_heap b) = Ok n /\ is_next b n /\ nodes b ≡ₚ n :: rest /\
    if n_time n <=? now e then
      exists b', pop b e = Ok b' /\ buf_inv b' /\ nodes b' ≡ₚ rest /\ m_size b' = m_size b - 1 /\
        m_strict_fifo b' = m_strict_fifo b /\ m_last_arrival_time b' = m_last_arrival_time b
    else pop b e = Err AssertFailed.
Proof.
  intros Hb Hs. destruct (isReady_spec b e Hb Hs) as (n & Hn & Hr).
  pose proof (bi_size _ Hb) as Hsize.
  destruct (extractMin_spec (m_prio_heap b) (bi_heap _ Hb)) as (n' & h & Ex & Hn' & Hh & Hhs & Hp & Hmin);
    [unfold heap_size in Hsize; lia|].
  rewrite Hn in Hn'. injection Hn' as <-.
  exists n, (heap_list h). split_and!; [done| |exact Hp|].
  { split; [|exact Hmin]. unfold nodes. rewrite Hp. by left. }
  unfold pop. rewrite Hr, bind_of_ok. destruct (n_time n <=? now e); [|done].
  rewrite cassert_true, bind_of_ok, Ex, bind_of_ok by done. cbn [snd].
  pose proof (hw_size _ (bi_heap _ Hb)) as Hlim. unfold heap_limit, heap_size in *.
  set (b1 := if m_time_last_time_pop (with_heap b h) <? now e then _ else with_heap b h).
  assert (m_prio_heap b1 = h /\ m_size b1 = m_size b /\ m_msg_counter b1 = m_msg_counter b /\
    m_buffer_size b1 = m_buffer_size b /\ m_strict_fifo b1 = m_strict_fifo b /\
    m_last_arrival_time b1 = m_last_arrival_time b) as (F1 & F2 & F3 & F4 & F5 & F6)
    by (unfold b1; case_match; done).
  clearbody b1. rewrite F2, swrap_small by lia. eexists. split; [reflexivity|].
  split_and!; simpl; try done; [|unfold nodes; simpl; by rewrite F1].
  assert (nodes (with_size b1 (m_size b - 1)) = heap_list h) as Hno by (unfold nodes; simpl; by rewrite F1).
  split; rewrite ?Hno; simpl; rewrite ?F1, ?F3, ?F4; try apply Hb; [done|unfold heap_size; lia| |].
  - intros x Hx. apply (bi_counters _ Hb). unfold nodes. rewrite Hp. by right.
  - pose proof (bi_distinct _ Hb) as Hd. unfold nodes in Hd. rewrite Hp in Hd.
    simpl in Hd. by apply NoDup_cons in Hd as [_ Hd].
Qed.

Lemma dequeue_spec b e :
  buf_inv b -> 0 < m_size b ->
  exists n rest, is_next b n /\ nodes b ≡ₚ n :: rest /\
    if n_time n <=? now e then
      exists b', dequeue b e = Ok (n_msgptr n, b') /\ buf_inv b' /\ nodes b' ≡ₚ rest /\
        m_size b' = m_size b - 1 /\
        m_strict_fifo b' = m_strict_fifo b /\ m_last_arrival_time b' = m_last_arrival_time b
    else dequeue b e = Err AssertFailed.
Proof.
  intros Hb Hs. destruct (pop_spec b e Hb Hs) as (n & rest & Hn & Hnext & Hp & Hpop).
  exists n, rest. split_and!; [done|done|]. unfold dequeue. rewrite Hn, bind_of_ok.
  destruct (n_time n <=? now e); [|by rewrite Hpop].
  destruct Hpop as (b' & -> & H). by exists b'.
Qed.

(** Recycling the head of a buffer keeps the message and the size of the buffer: the
    message is queued again, with its sequence number, RECYCLE_LATENCY cycles later, and
    the consumer is scheduled for then; a head that is not ready stops the run. *)
Theorem recycle_keeps_message RECYCLE_LATENCY b e c :
  buf_inv b -> env_ok e -> 0 < m_size b -> 0 < RECYCLE_LATENCY -> m_consumer_ptr b = Some c ->
  zlen (events (g_eventQueue e)) + 1 < heap_limit ->
  exists n rest, is_next b n /\ nodes b ≡ₚ n :: rest /\
    if n_time n <=? now e then
      exists b' e', recycle RECYCLE_LATENCY b e = Ok (b', e') /\ buf_inv b' /\ env_ok e' /\
        m_size b' = m_size b /\ msgs e' = msgs e /\
        nodes b' ≡ₚ mkMessageBufferNode (now e + RECYCLE_LATENCY) (n_msg_counter n) (n_msgptr n) :: rest /\
        mkEventQueueNode (now e + RECYCLE_LATENCY) (Some c) ∈ events (g_eventQueue e')
    else recycle RECYCLE_LATENCY b e = Err AssertFailed.
Proof.
  intros Hb [Hq Hw] Hs Hlat Hc Hroom. destruct (isReady_spec b e Hb Hs) as (n & Hn & Hr).
  pose proof (bi_size _ Hb) as Hsize. unfold heap_size in Hsize.
  destruct (extractMin_spec (m_prio_heap b) (bi_heap _ Hb)) as (n' & h & Ex & Hn' & Hh & Hhs & Hp & Hmin);
    [lia|]. rewrite Hn in Hn'. injection Hn' as <-.
  exists n, (heap_list h). split_and!; [|exact Hp|].
  { split; [|exact Hmin]. unfold nodes. rewrite Hp. by left. }
  unfold recycle. rewrite Hr, bind_of_ok. destruct (n_time n <=? now e); [|done].
  rewrite cassert_true, bind_of_ok, Ex, bind_of_ok by done. cbn [fst snd].
  set (n' := mkMessageBufferNode _ _ _).
  assert (Hd := bi_distinct _ Hb). unfold nodes in Hd. rewrite Hp in Hd. simpl in Hd.
  apply NoDup_cons in Hd as [Hnotin Hd].
  pose proof (hw_size _ (bi_heap _ Hb)) as Hlim.
  destruct (insert_spec h n' Hh) as (h' & Eh' & Hh' & Hhs' & Hp'); [lia| |].
  { intros x Hx _ E. apply Hnotin. apply list_elem_of_fmap. by exists x. }
  rewrite Eh', bind_of_ok, Hc. unfold schedule.
  destruct (schedule_spec (g_eventQueue e) (g_consumers e) c (now e + RECYCLE_LATENCY) Hq)
    as (q' & cs' & added & -> & Hq' & _ & _ & _ & _ & Hpend); [unfold now, getTime; lia|done|].
  destruct (Hpend Hw) as [Hin Hw']. rewrite !bind_of_ok. eexists _, _.
  split; [reflexivity|]. split_and!; try done.
  assert (forall x, x ∈ nodes b -> 0 < n_msg_counter x <= m_msg_counter b) as Hcs by apply Hb.
  unfold nodes in Hcs. setoid_rewrite Hp in Hcs.
  split; simpl; try apply Hb; [done|unfold heap_size; lia| |]; unfold nodes; simpl.
  - intros x. rewrite Hp', elem_of_cons. intros [->|Hx]; [apply (Hcs n); by left|].
    apply Hcs. by right.
  - rewrite Hp'. simpl. by apply NoDup_cons.
Qed.

Lemma drain_spec fuel (h : PrioHeap MessageBufferNode) :
  heap_wf h -> m_current_size h < Z.of_nat fuel ->
  exists h', drain fuel h = Ok h' /\ heap_wf h' /\ heap_size h' = 0.
Proof.
  revert h. induction fuel as [|fuel IH]; intros h Hh Hf; pose proof (hw_size _ Hh); [lia|].
  simpl. unfold heap_size. destruct (Z.ltb_spec 0 (m_current_size h)).
  - destruct (extractMin_spec h Hh) as (x & h1 & -> & _ & Hh1 & Hs1 & _); [done|].
    rewrite bind_of_ok. apply IH; [done|]. simpl. lia.
  - exists h. split_and!; [done|done|lia].
Qed.

Lemma clear_spec b :
  buf_inv b -> exists b', clear b = Ok b' /\ buf_inv b' /\ nodes b' = [] /\ m_size b' = 0.
Proof.
  intros Hb. pose proof (hw_size _ (bi_heap _ Hb)). unfold clear, heap_size.
  destruct (drain_spec (S (Z.to_nat (m_current_size (m_prio_heap b)))) (m_prio_heap b)) as (h & -> & Hh & Hs);
    [apply Hb|lia|]. unfold heap_size in Hs. rewrite bind_of_ok, Hs. simpl. eexists. split; [reflexivity|].
  assert (heap_list h = []) as Hno by (unfold heap_list; rewrite Hs; apply live_0).
  split_and!; [|done|done]. split; unfold nodes; simpl; rewrite ?Hno; try done; [apply Hb| |].
  - by intros n ?%elem_of_nil.
  - constructor.
Qed.

Section behaviour.
  Context (RANDOMIZATION : bool) (log2_index : Z → Z).
  Abbreviation arrival_of b e delta rnd := (fst (arrival RANDOMIZATION b (now e) delta rnd)).

(** The conditions under which a client may enqueue. *)
Record may_enqueue b e (p : Z) (delta : Time) (rnd : Z * Z * Z) : Prop := {
  me_inv : buf_inv b;
  me_env : env_ok e;
  me_ordering : m_ordering_set b = true;
  me_consumer : is_Some (m_consumer_ptr b);
  me_delta : 0 < delta;
  me_random : 0 <= snd rnd;
  me_order : keeps_order RANDOMIZATION b (now e) delta;
  me_msg : exists m, msgs e !! p = Some m /\ m_LastEnqueueTime m <= now e;
  me_size : m_size b + 1 < heap_limit;
  me_counter : m_msg_counter b + 1 < 2 ^ 31;
  me_events : zlen (events (g_eventQueue e)) + 1 < heap_limit;
}.

(** What a completed enqueue leaves behind. *)
Record enqueued b e (p : Z) (t : Time) b' e' : Prop := {
  eq_future : now e < t;
  eq_inv : buf_inv b';
  eq_env : env_ok e';
  eq_nodes : nodes b' ≡ₚ mkMessageBufferNode t (m_msg_counter b + 1) (Some p) :: nodes b;
  eq_size : m_size b' = m_size b + 1;
  eq_counter : m_msg_counter b' = m_msg_counter b + 1;
  eq_last : m_last_arrival_time b' = t;
  eq_fifo : m_strict_fifo b' = m_strict_fifo b;
  eq_now : now e' = now e;
  eq_msgs : exists m, msgs e !! p = Some m /\
    msgs e' = <[p := mkMessage (msg_time m) t
                       (s32 (now e - m_LastEnqueueTime m + m_DelayedCycles m))]> (msgs e);
  eq_wakeup c : m_consumer_ptr b = Some c ->
    mkEventQueueNode t (Some c) ∈ events (g_eventQueue e');
}.

Lemma enqueue_spec b e p delta rnd :
  may_enqueue b e p delta rnd ->
  exists b' e', enqueue RANDOMIZATION log2_index b e (Some p) delta rnd = Ok (b', e') /\
    enqueued b e p (arrival_of b e delta rnd) b' e'.
Proof.
  intros [Hb [Hq Hw] Hord [c Hc] Hdelta Hrnd Hkeep (m & Hm & Hmt) Hsz Hct Hev].
  destruct rnd as [[r1 r2] r3]. simpl in Hrnd.
  destruct (arrival_spec RANDOMIZATION b (now e) delta r1 r2 r3 Hdelta Hrnd) as [Hfut Hlast].
  pose proof (hw_size _ (bi_heap _ Hb)) as [Hs0 _]. pose proof (bi_size _ Hb) as Hsize.
  unfold heap_size in Hsize. pose proof (bi_counter _ Hb) as Hc0. unfold heap_limit in *.
  destruct (bi_stats _ Hb) as [xs Hxs].
  destruct (add_counts log2_index (m_buffer_size b) xs (m_size b + 1) Hxs) as (st & Est & Hst & _); [lia|].
  set (n := mkMessageBufferNode (arrival_of b e delta (r1, r2, r3)) (m_msg_counter b + 1) (Some p)).
  destruct (insert_spec (m_prio_heap b) n) as (h & Eh & Hh & Hhs & Hp);
    [apply Hb|unfold heap_limit; lia|apply fresh_counter_compat; simpl; (done || lia)|].
  destruct (schedule_spec (g_eventQueue e) (g_consumers e) c (n_time n) Hq)
    as (q' & cs' & added & Eq & Hq' & Htime & _ & _ & _ & Hpend);
    [done|unfold heap_limit; lia|]. destruct (Hpend Hw) as [Hin Hw'].
  unfold enqueue. cbn [with_size with_counter m_buffer_size m_size m_msg_counter].
  rewrite (swrap_small 32 (m_msg_counter b + 1)), (swrap_small 32 (m_size b + 1)), Est, bind_of_ok by lia.
  set (b1 := with_buffer_size _ st).
  set (b2 := if m_time_last_time_enqueue b1 <? now e then _ else b1).
  set (b3 := with_msgs_this_cycle b2 _).
  assert (m_ordering_set b3 = true /\ m_prio_heap b3 = m_prio_heap b /\ m_size b3 = m_size b + 1 /\
    m_msg_counter b3 = m_msg_counter b + 1 /\ m_buffer_size b3 = st /\
    m_consumer_ptr b3 = Some c /\ m_strict_fifo b3 = m_strict_fifo b /\
    m_last_arrival_time b3 = m_last_arrival_time b /\
    m_randomization b3 = m_randomization b) as (F1 & F2 & F3 & F4 & F5 & F6 & F7 & F8 & F9).
  { unfold b3, b2. destruct (m_time_last_time_enqueue b1 <? now e); done. }
  clearbody b3. clear b2 b1. rewrite F1. simpl negb. cbv iota.
  rewrite cassert_true, bind_of_ok by (apply Z.ltb_lt; lia).
  assert (arrival RANDOMIZATION b3 (now e) delta (r1, r2, r3) =
          arrival RANDOMIZATION b (now e) delta (r1, r2, r3)) as Ea
    by (unfold arrival; by rewrite F7, F8, F9).
  rewrite Ea. destruct (arrival RANDOMIZATION b (now e) delta (r1, r2, r3)) as [t last] eqn:Et.
  cbn [fst snd] in Hfut, Hlast, n |- *. subst n. cbn [n_time] in Eq, Hin.
  rewrite cassert_true, bind_of_ok by (apply Z.ltb_lt; lia).
  assert (m_strict_fifo b && negb (last <=? t) = false) as Hfifo.
  { destruct (m_strict_fifo b) eqn:Hf; [|done]. simpl. apply negb_false_iff, Z.leb_le.
    by apply Hlast. }
  cbn [with_last_arrival m_strict_fifo m_last_arrival_time]. rewrite F7, Hfifo.
  unfold load_msg. rewrite Hm, bind_of_ok, cassert_true, bind_of_ok by (apply Z.leb_le; lia).
  cbn [m_prio_heap m_msg_counter with_heap with_last_arrival m_consumer_ptr]. rewrite F2, F4, Eh, bind_of_ok, F6.
  unfold schedule. cbn [set_msg g_eventQueue g_consumers]. rewrite Eq, bind_of_ok.
  eexists _, _. split; [reflexivity|]. split; try done; simpl.
  - apply (buf_inv_insert b _ (mkMessageBufferNode t (m_msg_counter b + 1) (Some p))); simpl;
      try done; [unfold heap_size; lia|by exists (m_size b + 1 :: xs); rewrite F5|lia].
  - by exists m.
  - intros c' [= <-]%(eq_trans (eq_sym Hc)). done.
Qed.

(** * Ordered buffers are FIFO queues *)

(** An ordered buffer holds the queue [q], oldest first. *)
Record fifo (b : MessageBuffer) (q : list MessageBufferNode) : Prop := {
  ff_inv : buf_inv b;
  ff_strict : m_strict_fifo b = true;
  ff_nodes : nodes b ≡ₚ q;
  ff_sorted : StronglySorted node_lt q;
  ff_last : Forall (fun n => n_time n <= m_last_arrival_time b) q;
}.

Lemma fifo_enqueue b q e p delta rnd b' e' :
  fifo b q -> may_enqueue b e p delta rnd ->
  enqueue RANDOMIZATION log2_index b e (Some p) delta rnd = Ok (b', e') ->
  fifo b' (q ++ [mkMessageBufferNode (arrival_of b e delta rnd) (m_msg_counter b + 1) (Some p)]).
Proof.
  intros [Hb Hst Hq Hso Hla] Hmay E.
  destruct (enqueue_spec b e p delta rnd Hmay) as (b1 & e1 & E1 & [Hfut Hinv Henv Hno _ _ Hl Hf _ _ _]).
  rewrite E in E1. injection E1 as <- <-.
  destruct rnd as [[r1 r2] r3].
  destruct (arrival_spec RANDOMIZATION b (now e) delta r1 r2 r3) as [_ Harr];
    [apply Hmay|apply Hmay|]. destruct (Harr (me_order _ _ _ _ _ Hmay) Hst) as [Hge _].
  split; [done|by rewrite Hf|by rewrite Hno, Hq, <- Permutation_cons_append| |].
  - apply StronglySorted_snoc; [done|]. apply Forall_forall. intros x Hx.
    assert (n_msg_counter x <= m_msg_counter b) by (apply (bi_counters _ Hb); by rewrite Hq).
    rewrite Forall_forall in Hla. apply Hla in Hx. unfold node_lt; simpl. lia.
  - rewrite Hl. apply Forall_app. split; [|by repeat constructor].
    eapply Forall_impl; [done|]. simpl. lia.
Qed.

Lemma fifo_next b n q : fifo b (n :: q) -> forall x, is_next b x -> x = n.
Proof.
  intros [Hb _ Hq Hso _] x [Hx Hmin]. rewrite Hq in Hx. apply elem_of_cons in Hx as [->|Hx]; [done|].
  apply StronglySorted_inv in Hso as [_ Hn]. rewrite Forall_forall in Hn. apply Hn in Hx.
  specialize (Hmin n). rewrite Hq, node_leb_spec in Hmin. destruct Hmin; [by left|..];
    unfold node_lt in Hx; lia.
Qed.

Lemma fifo_dequeue b n q e :
  fifo b (n :: q) -> 
  if n_time n <=? now e then
    exists b', dequeue b e = Ok (n_msgptr n, b') /\ fifo b' q
  else dequeue b e = Err AssertFailed.
Proof.
  intros Hf. pose proof Hf as [Hb Hst Hq Hso Hla].
  pose proof (bi_size _ Hb) as Hs. pose proof (Permutation_length Hq) as Hl. simpl in Hl.
  assert (0 < m_size b) as Hpos.
  { rewrite Hs. unfold nodes, heap_list, heap_size in *. destruct (hw_size _ (bi_heap _ Hb)).
    destruct (Z.eq_dec (m_current_size (m_prio_heap b)) 0) as [E|]; [|lia].
    rewrite E in Hl. by rewrite live_0 in Hl. }
  destruct (dequeue_spec b e Hb Hpos) as (n' & rest & Hn & Hp & Hd).
  apply (fifo_next b n q Hf) in Hn as ->.
  destruct (n_time n <=? now e); [|done].
  destruct Hd as (b' & E & Hb' & Hno & _ & Hf' & Hl'). exists b'. split; [done|].
  apply StronglySorted_inv in Hso as [Hso _]. inversion_clear Hla.
  split; [done|by rewrite Hf'| |done|by rewrite Hl'].
  rewrite Hno. apply (Permutation_cons_inv (a := n)). by rewrite <- Hp.
Qed.

(** The life of an ordered buffer: any interleaving, at any times and seen from
    any state of the rest of the simulator, of enqueues, dequeues and queries. *)
Inductive fifo_run (b0 : MessageBuffer) : list Z → list (option Z) → MessageBuffer → Prop :=
  | run_start : fifo_run b0 [] [] b0
  | run_enqueue sent received b e p delta rnd b' e' :
      fifo_run b0 sent received b -> may_enqueue b e p delta rnd ->
      enqueue RANDOMIZATION log2_index b e (Some p) delta rnd = Ok (b', e') ->
      fifo_run b0 (sent ++ [p]) received b'
  | run_dequeue sent received b e m b' :
      fifo_run b0 sent received b -> dequeue b e = Ok (m, b') ->
      fifo_run b0 sent (received ++ [m]) b'
  | run_slots sent received b e n r b' :
      fifo_run b0 sent received b -> areNSlotsAvailable b e n = (r, b') ->
      fifo_run b0 sent received b'
  | run_size sent received b e n b' :
      fifo_run b0 sent received b -> getSize b e = (n, b') ->
      fifo_run b0 sent received b'.

Lemma fifo_irrelevant b b' q :
  m_prio_heap b' = m_prio_heap b -> m_size b' = m_size b -> m_buffer_size b' = m_buffer_size b ->
  m_msg_counter b' = m_msg_counter b -> m_strict_fifo b' = m_strict_fifo b ->
  m_last_arrival_time b' = m_last_arrival_time b -> fifo b q -> fifo b' q.
Proof.
  intros E1 E2 E3 E4 E5 E6 [[H1 H2 H3 H4 H5 H6] H7 H8 H9 H10].
  assert (nodes b' = nodes b) as En by (unfold nodes; by rewrite E1).
  split; rewrite ?En, ?E5, ?E6; try done.
  split; rewrite ?En, ?E1, ?E2, ?E3, ?E4; done.
Qed.

Lemma fifo_dequeue_empty b e m b' : fifo b [] -> dequeue b e = Ok (m, b') -> False.
Proof.
  intros [Hb _ Hq _ _] E. unfold dequeue, peekMin in E. ok_inv. to_prop.
  apply Permutation_nil_r in Hq. unfold nodes, heap_list, heap_size in *.
  pose proof (f_equal zlen Hq) as Hl. destruct (hw_room _ (bi_heap _ Hb)); [lia|].
  pose proof (wf_block _ (hw_vec _ (bi_heap _ Hb))). pose proof (wf_size _ (hw_vec _ (bi_heap _ Hb))).
  rewrite zlen_live in Hl by lia. change (zlen (@nil MessageBufferNode)) with 0 in Hl. lia.
Qed.

(** C22: A buffer in FIFO order that starts empty delivers messages in the order in
    which they were sent, whatever the interleaving of enqueues and dequeues and their
    latencies: the messages received are a prefix of those sent and the rest is still
    queued in order. *)
Theorem fifo_delivery b0 sent received b :
  fifo b0 [] -> fifo_run b0 sent received b ->
  exists q, fifo b q /\ map Some sent = received ++ map n_msgptr q.
Proof.
  intros H0. induction 1 as
    [|sent received b e p delta rnd b' e' _ (q & Hq & Hs) Hmay E
     |sent received b e m b' _ (q & Hq & Hs) E|sent received b e n r b' _ (q & Hq & Hs) E
     |sent received b e n b' _ (q & Hq & Hs) E].
  - by exists [].
  - eexists. split; [by eapply fifo_enqueue|]. rewrite !map_app, Hs, <- app_assoc. done.
  - destruct q as [|n q]; [by destruct (fifo_dequeue_empty b e m b')|].
    pose proof (fifo_dequeue b n q e Hq) as Hd. rewrite E in Hd.
    destruct (n_time n <=? now e); [|done]. destruct Hd as (b1 & [= -> <-] & Hq').
    exists q. split; [done|]. rewrite Hs. simpl. by rewrite <- app_assoc.
  - exists q. split; [|done]. unfold areNSlotsAvailable in E.
    repeat case_match; injection E as <- <-; by eapply fifo_irrelevant; [..|exact Hq].
  - exists q. split; [|done]. unfold getSize in E.
    repeat case_match; injection E as <- <-; by eapply fifo_irrelevant; [..|exact Hq].
Qed.

(** An enqueue whose message and latency are legal succeeds: the message is queued under
    the next sequence number at its arrival time, the consumer has a wakeup scheduled
    for that time, and the message's delay accounting is updated. *)
Theorem enqueue_arrives b e p delta rnd :
  may_enqueue b e p delta rnd ->
  exists b' e', enqueue RANDOMIZATION log2_index b e (Some p) delta rnd = Ok (b', e') /\
    enqueued b e p (arrival_of b e delta rnd) b' e'.
Proof. apply enqueue_spec. Qed.

(** A dequeue of a buffer that is not empty delivers the message with the least arrival
    time and, among equals, the least sequence number, and removes just that message;
    when it is not ready yet the assertion stops the run. *)
Theorem dequeue_delivers_next b e :
  buf_inv b -> 0 < m_size b ->
  exists n rest, is_next b n /\ nodes b ≡ₚ n :: rest /\
    if n_time n <=? now e then
      exists b', dequeue b e = Ok (n_msgptr n, b') /\ buf_inv b' /\ nodes b' ≡ₚ rest /\
        m_size b' = m_size b - 1
    else dequeue b e = Err AssertFailed.
Proof.
  intros Hb Hs. destruct (dequeue_spec b e Hb Hs) as (n & rest & Hn & Hp & Hd).
  exists n, rest. split_and!; [done|done|]. destruct (n_time n <=? now e); naive_solver.
Qed.

(** * Enqueueing twice *)

Lemma enqueue_stamps b e p delta rnd b' e' :
  enqueue RANDOMIZATION log2_index b e (Some p) delta rnd = Ok (b', e') ->
  now e' = now e /\ exists m, msgs e' !! p = Some m /\ now e < m_LastEnqueueTime m.
Proof.
  unfold enqueue. intros E. ok_inv. case_match; [done|]. ok_inv.
  destruct (arrival _ _ _ _ _) as [t last]. ok_inv. case_match; [done|]. ok_inv.
  case_match; [|done]. unfold schedule in *. ok_inv. simplify_eq. to_prop.
  match goal with H : scheduleEventAbsolute _ _ _ _ = Ok ?r |- _ => destruct r as [q' cs'] end. simpl.
  split.
  - unfold now, getTime. simpl.
    match goal with H : scheduleEventAbsolute _ _ _ _ = Ok _ |- _ => unfold scheduleEventAbsolute in H end.
    case_match; ok_inv; by simplify_eq.
  - eexists. rewrite lookup_insert_eq. split; [done|]. done.
Qed.

(** A message that was enqueued once cannot be enqueued again in the same cycle: its own
    time stamp stops the run. *)
Theorem enqueue_twice_stops b1 b2 e p delta1 delta2 rnd1 rnd2 b1' e' :
  enqueue RANDOMIZATION log2_index b1 e (Some p) delta1 rnd1 = Ok (b1', e') ->
  exists f, enqueue RANDOMIZATION log2_index b2 e' (Some p) delta2 rnd2 = Err f.
Proof.
  intros E1. destruct (enqueue _ _ b2 e' (Some p) delta2 rnd2) as [[b2' e'']|f] eqn:E2; [|by exists f].
  exfalso. destruct (enqueue_stamps _ _ _ _ _ _ _ E1) as (Hnow & m & Hm & Hlt).
  unfold enqueue in E2. ok_inv. case_match; [done|]. ok_inv.
  destruct (arrival _ _ _ _ _) as [t last]. ok_inv. case_match; [done|]. ok_inv.
  unfold load_msg in *. rewrite Hm in *. ok_inv. simplify_eq. to_prop. lia.
Qed.

(** * The size the network sees *)

(** What happened to a buffer so far in one cycle: enqueues before the first
    pop, enqueues after it, and pops. *)
Record tally := mkTally { before : Z; after : Z; pops : Z }.

Inductive cycle_run (t : Time) (b0 : MessageBuffer) : tally → MessageBuffer → Prop :=
  | cycle_start : cycle_run t b0 (mkTally 0 0 0) b0
  | cycle_enqueue k b e m delta rnd b' e' :
      cycle_run t b0 k b -> now e = t ->
      enqueue RANDOMIZATION log2_index b e m delta rnd = Ok (b', e') ->
      cycle_run t b0 (if pops k =? 0 then mkTally (before k + 1) (after k) (pops k)
                      else mkTally (before k) (after k + 1) (pops k)) b'
  | cycle_pop k b e b' :
      cycle_run t b0 k b -> now e = t -> pop b e = Ok b' ->
      cycle_run t b0 (mkTally (before k) (after k) (pops k + 1)) b'.

Lemma enqueue_sizes b e m delta rnd b' e' :
  enqueue RANDOMIZATION log2_index b e m delta rnd = Ok (b', e') ->
  m_size b' = s32 (m_size b + 1) /\ m_time_last_time_pop b' = m_time_last_time_pop b /\
  m_size_at_cycle_start b' = m_size_at_cycle_start b /\
  m_time_last_time_enqueue b' = Z.max (m_time_last_time_enqueue b) (now e) /\
  m_msgs_this_cycle b' =
    s32 ((if m_time_last_time_enqueue b <? now e then 0 else m_msgs_this_cycle b) + 1).
Proof.
  unfold enqueue. intros E. ok_inv. case_match; [done|]. ok_inv.
  destruct (arrival _ _ _ _ _) as [t last]. ok_inv. case_match; [done|].
  case_match; [|done]. ok_inv. case_match; [|done]. ok_inv. simplify_eq. simpl.
  destruct (Z.ltb_spec (m_time_last_time_enqueue b) (now e)); simpl; split_and!; (done || lia).
Qed.

Lemma pop_sizes b e b' :
  pop b e = Ok b' ->
  m_size b' = s32 (m_size b - 1) /\
  m_time_last_time_enqueue b' = m_time_last_time_enqueue b /\
  m_msgs_this_cycle b' = m_msgs_this_cycle b /\
  m_time_last_time_pop b' = Z.max (m_time_last_time_pop b) (now e) /\
  m_size_at_cycle_start b' =
    (if m_time_last_time_pop b <? now e then m_size b else m_size_at_cycle_start b).
Proof.
  unfold pop. intros E. ok_inv. simplify_eq. simpl.
  destruct (Z.ltb_spec (m_time_last_time_pop b) (now e)); simpl; split_and!; (done || lia).
Qed.

(** The bookkeeping of one cycle. *)
Record tallied (t : Time) (b0 : MessageBuffer) (k : tally) (b : MessageBuffer) : Prop := {
  ta_nonneg : 0 <= before k /\ 0 <= after k /\ 0 <= pops k /\ (pops k = 0 -> after k = 0);
  ta_size : m_size b = s32 (m_size b0 + before k + after k - pops k);
  ta_pop : if pops k =? 0 then m_time_last_time_pop b < t
           else m_time_last_time_pop b = t /\ m_size_at_cycle_start b = s32 (m_size b0 + before k);
  ta_enqueue : if before k + after k =? 0 then m_time_last_time_enqueue b < t
               else m_time_last_time_enqueue b = t /\
                    m_msgs_this_cycle b = s32 (before k + after k);
}.

Lemma cycle_run_tallied t b0 k b :
  s32 (m_size b0) = m_size b0 -> m_time_last_time_pop b0 < t -> m_time_last_time_enqueue b0 < t ->
  cycle_run t b0 k b -> tallied t b0 k b.
Proof.
  intros H0 Hp He. induction 1 as [|k b e m delta rnd b' e' _ [Hk Hs Hpo Hen] Hnow E
                                   |k b e b' _ [Hk Hs Hpo Hen] Hnow E].
  - split; simpl; [lia| |done|done]. rewrite <- H0 at 1. f_equal. lia.
  - apply enqueue_sizes in E as (E1 & E2 & E3 & E4 & E5). rewrite Hnow in *.
    destruct (Z.eqb_spec (pops k) 0) as [Hz|Hz], (Z.eqb_spec (before k + after k) 0);
      (split; simpl; rewrite ?E1, ?E2, ?E3, ?E4, ?E5, ?Hs, ?swrap_add_l by lia;
       [lia|f_equal; lia| |]);
      rewrite ?(proj2 (Z.eqb_eq _ _) Hz), ?(proj2 (Z.eqb_neq _ _) Hz); try done;
      rewrite (proj2 (Z.eqb_neq _ 0)) by lia; (split; [lia|]);
      repeat case_match; to_prop; try lia; try destruct Hen as [_ ->];
      rewrite ?swrap_add_l by lia; f_equal; lia.
  - apply pop_sizes in E as (E1 & E2 & E3 & E4 & E5). rewrite Hnow in *.
    split; simpl; rewrite ?E1, ?E2, ?E3, ?E4, ?E5, ?Hs.
    + lia.
    + unfold Z.sub at 1. rewrite swrap_add_l by lia. f_equal. lia.
    + rewrite (proj2 (Z.eqb_neq _ 0)) by lia. destruct (Z.eqb_spec (pops k) 0) as [Hz|Hz].
      * rewrite (proj2 (Z.ltb_lt _ _) Hpo). split; [lia|]. f_equal. lia.
      * destruct Hpo as [-> ->]. rewrite Z.ltb_irrefl. split; [lia|done].
    + done.
Qed.

(** Within a cycle the size that areNSlotsAvailable compares with the capacity is the
    size at the start of the cycle plus the messages enqueued since: messages popped in
    the cycle still count, and messages enqueued before the first pop of the cycle count
    twice. *)
Theorem visible_size_in_cycle t b0 k b :
  s32 (m_size b0) = m_size b0 -> m_time_last_time_pop b0 < t -> m_time_last_time_enqueue b0 < t ->
  cycle_run t b0 k b ->
  visible_size b t =
    s32 (m_size b0 + before k + after k + (if pops k =? 0 then 0 else before k)).
Proof.
  intros H0 Hp He Hr. destruct (cycle_run_tallied t b0 k b H0 Hp He Hr) as [Hk Hs Hpo Hen].
  unfold visible_size. destruct (Z.eqb_spec (pops k) 0) as [Hz|Hz].
  - rewrite (proj2 (Z.ltb_lt _ _) Hpo), Hs. f_equal. lia.
  - destruct Hpo as [-> Hc]. rewrite Z.ltb_irrefl. destruct (Z.eqb_spec (before k + after k) 0).
    + rewrite (proj2 (Z.ltb_lt _ _) Hen), Hc. f_equal. lia.
    + destruct Hen as [-> ->]. rewrite Z.ltb_irrefl, Hc.
      rewrite swrap_add_l, Z.add_comm, swrap_add_l by lia. f_equal. lia.
Qed.

End behaviour.
(** * Concrete buffers *)

#[export] Instance MessageBuffer_inhabited : Inhabited MessageBuffer :=
  populate (mkMessageBuffer None heap_init (-1) 0 0 0 0 0 0 0 0 0 0 true false true 0
              (mkHistogram Vector_default 0 0 1 50 0 0 0)).

(** An ordered buffer that wakes consumer 4, and two messages created at time 1. *)
Definition demo_buffer : MessageBuffer :=
  Eval vm_compute in
  from_ok (b ← MessageBuffer_new; b ← setConsumer b (Some 4);
           mret (setRandomization (setOrdering b true) false)).
Definition demo_env : env :=
  mkEnv EventQueue_init ∅ {[100 := Message_new 1; 101 := Message_new 1]}.

Lemma demo_fifo : fifo demo_buffer [].
Proof.
  destruct buf_inv_new as (b & E & [H1 H2 H3 H4 H5 H6] & Hn). vm_compute in E. injection E as <-.
  split; [by split|done..|constructor|constructor].
Qed.

Lemma demo_env_ok : env_ok demo_env.
Proof. split; [apply queue_inv_init|]. by apply wakeups_pending_init. Qed.

Lemma demo_may_enqueue : may_enqueue false demo_buffer demo_env 100 3 (0, 0, 0).
Proof.
  split.
  - apply demo_fifo.
  - apply demo_env_ok.
  - vm_compute. reflexivity.
  - by eexists.
  - lia.
  - simpl. lia.
  - intros _ _. vm_compute. congruence.
  - exists (Message_new 1). split; [reflexivity|vm_compute; congruence].
  - vm_compute. reflexivity.
  - vm_compute. reflexivity.
  - vm_compute. reflexivity.
Qed.

#[export] Instance env_inhabited : Inhabited env := populate demo_env.

(** The buffer with message 100 in it, and the simulator when it arrives. *)
Definition demo_full : MessageBuffer :=
  Eval vm_compute in fst (from_ok (enqueue false Z.log2 demo_buffer demo_env (Some 100) 3 (0, 0, 0))).
Definition demo_later : env :=
  Eval vm_compute in
  let e := snd (from_ok (enqueue false Z.log2 demo_buffer demo_env (Some 100) 3 (0, 0, 0))) in
  mkEnv (setTime (g_eventQueue e) 4) (g_consumers e) (msgs e).

Lemma enqueue_arrives_witness :
  exists b' e', enqueue false Z.log2 demo_buffer demo_env (Some 100) 3 (0, 0, 0) = Ok (b', e') /\
    enqueued demo_buffer demo_env 100 4 b' e'.
Proof. apply (enqueue_arrives false Z.log2 _ _ _ _ _ demo_may_enqueue). Defined.

Lemma demo_full_ok :
  exists e', enqueue false Z.log2 demo_buffer demo_env (Some 100) 3 (0, 0, 0) = Ok (demo_full, e') /\
    demo_later = mkEnv (setTime (g_eventQueue e') 4) (g_consumers e') (msgs e') /\
    enqueued demo_buffer demo_env 100 4 demo_full e'.
Proof.
  destruct (enqueue_spec false Z.log2 _ _ _ _ _ demo_may_enqueue) as (b' & e' & E & H).
  exists e'. rewrite E. vm_compute in E. injection E as <- <-. split_and!; [done..|exact H].
Qed.

Lemma fifo_delivery_witness :
  exists b q, fifo_run false Z.log2 demo_buffer [100] [Some 100] b /\ fifo b q /\
    map Some [100] = [Some 100] ++ map n_msgptr q.
Proof.
  destruct demo_full_ok as (e' & E & _).
  assert (exists b, dequeue demo_full demo_later = Ok (Some 100, b)) as [b Eb]
    by (eexists; vm_compute; reflexivity).
  assert (fifo_run false Z.log2 demo_buffer [100] [Some 100] b) as Hr.
  { apply (run_dequeue _ _ _ [100] [] demo_full demo_later); [|done].
    by apply (run_enqueue _ _ _ [] [] demo_buffer demo_env 100 3 (0, 0, 0) demo_full e');
      [constructor|apply demo_may_enqueue|]. }
  destruct (fifo_delivery false Z.log2 _ _ _ _ demo_fifo Hr) as [q Hq]. by exists b, q.
Defined.

Lemma dequeue_delivers_next_witness :
  exists n rest, is_next demo_full n /\ nodes demo_full ≡ₚ n :: rest /\
    if n_time n <=? now demo_later then
      exists b', dequeue demo_full demo_later = Ok (n_msgptr n, b') /\ buf_inv b' /\
        nodes b' ≡ₚ rest /\ m_size b' = m_size demo_full - 1
    else dequeue demo_full demo_later = Err AssertFailed.
Proof.
  apply (dequeue_delivers_next demo_full demo_later); [|vm_compute; reflexivity].
  destruct demo_full_ok as (e' & _ & _ & H). apply H.
Defined.

Lemma enqueue_twice_stops_witness :
  exists e' f, enqueue false Z.log2 demo_buffer demo_env (Some 100) 3 (0, 0, 0) = Ok (demo_full, e') /\
    enqueue false Z.log2 demo_buffer e' (Some 100) 3 (0, 0, 0) = Err f.
Proof.
  destruct demo_full_ok as (e' & E & _). exists e'.
  destruct (enqueue_twice_stops false Z.log2 demo_buffer demo_buffer demo_env 100 3 3
              (0, 0, 0) (0, 0, 0) demo_full e' E) as [f Hf]. by exists f.
Defined.

(** The simulator at time 4, with an empty event queue. *)
Definition demo_time4 : env := mkEnv (setTime EventQueue_init 4) ∅ (msgs demo_later).

Lemma demo_time4_ok : env_ok demo_time4.
Proof.
  split; [|by apply wakeups_pending_init].
  destruct queue_inv_init as [H1 H2 H3]. split; [exact H1| |exact H3].
  intros x Hx. change (x ∈ (@nil EventQueueNode)) in Hx. by apply elem_of_nil in Hx.
Qed.

Lemma recycle_keeps_message_witness :
  exists n rest, is_next demo_full n /\ nodes demo_full ≡ₚ n :: rest /\
    if n_time n <=? now demo_time4 then
      exists b' e', recycle 3 demo_full demo_time4 = Ok (b', e') /\ buf_inv b' /\ env_ok e' /\
        m_size b' = m_size demo_full /\ msgs e' = msgs demo_time4 /\
        nodes b' ≡ₚ mkMessageBufferNode (now demo_time4 + 3) (n_msg_counter n) (n_msgptr n) :: rest /\
        mkEventQueueNode (now demo_time4 + 3) (Some 4) ∈ events (g_eventQueue e')
    else recycle 3 demo_full demo_time4 = Err AssertFailed.
Proof.
  apply (recycle_keeps_message 3 demo_full demo_time4 4);
    [|apply demo_time4_ok|vm_compute; reflexivity..].
  destruct demo_full_ok as (e' & _ & _ & H). apply H.
Defined.

Lemma visible_size_in_cycle_witness :
  exists b k, cycle_run false Z.log2 4 demo_full k b /\ before k = 1 /\ pops k = 1 /\
    visible_size b 4 = 3 /\ m_size b = 1.
Proof.
  assert (exists b1 e1, enqueue false Z.log2 demo_full demo_time4 (Some 101) 3 (0, 0, 0) = Ok (b1, e1) /\
    exists b2, pop b1 e1 = Ok b2 /\ m_size b2 = 1 /\ now e1 = 4) as (b1 & e1 & E1 & b2 & E2 & Hs & Hn).
  { eexists _, _. split; [vm_compute; reflexivity|]. eexists. vm_compute. done. }
  assert (cycle_run false Z.log2 4 demo_full (mkTally 1 0 1) b2) as Hr.
  { apply (cycle_pop _ _ _ _ (mkTally 1 0 0) b1 e1); [|done|done].
    by apply (cycle_enqueue _ _ _ _ (mkTally 0 0 0) demo_full demo_time4 (Some 101) 3 (0, 0, 0) b1 e1);
      [constructor|reflexivity|]. }
  exists b2, (mkTally 1 0 1). split_and!; [done|done|done| |done].
  rewrite (visible_size_in_cycle false Z.log2 4 demo_full (mkTally 1 0 1) b2);
    [vm_compute; reflexivity..|done].
Defined.

(** A buffer with a free slot refuses a message after an enqueue and a pop in the same
    cycle. *)
Theorem mixed_cycle_refuses_free_slot :
  exists b1 e1 b2, enqueue false Z.log2 (set_buffer_size demo_full 3) demo_time4 (Some 101) 3 (0, 0, 0) = Ok (b1, e1) /\
    pop b1 e1 = Ok b2 /\ m_size b2 = 1 /\ fst (areNSlotsAvailable b1 e1 1) = true /\
    fst (areNSlotsAvailable b2 e1 1) = false.
Proof.
  eexists _, _, _. split; [vm_compute; reflexivity|]. split; [vm_compute; reflexivity|].
  vm_compute. done.
Qed.

(** Clearing the statistics resets the sequence numbers that enqueue compares with the
    queue: the next enqueue fails. *)
Theorem clearStats_breaks_enqueue :
  exists e' b, enqueue false Z.log2 demo_buffer demo_env (Some 100) 3 (0, 0, 0) = Ok (demo_full, e') /\
    clearStats demo_full = Ok b /\
    is_ok (enqueue false Z.log2 demo_full e' (Some 101) 3 (0, 0, 0)) /\
    enqueue false Z.log2 b e' (Some 101) 3 (0, 0, 0) = Err AssertFailed.
Proof.
  eexists _, _. split; [vm_compute; reflexivity|]. split; [vm_compute; reflexivity|].
  split; [eexists|]; vm_compute; reflexivity.
Qed.
