(* ===== verification/Config.v ===== *)
(** [config/RubyConfig.{h,C}] with the configuration variables of
    [config/config.include] it reads, and [log_int] and [is_power_of_2] of
    [common/util.C].

    The variables are read from a configuration file; the derived ones have to
    be zero before [init] computes them. *)

From S2P Require Import Prelude.

(** [NUMBER_WORDS_PER_SET]: the words of a set held without allocation. *)
Definition NUMBER_WORDS_PER_SET : Z := 4.

Record RubyConfig := mkRubyConfig {
  MEM_BUS_CYCLE_MULTIPLIER : Z;
  BANKS_PER_RANK : Z;
  RANKS_PER_DIMM : Z;
  DIMMS_PER_CHANNEL : Z;
  BANK_QUEUE_SIZE : Z;
  BANK_BUSY_TIME : Z;
  MEM_CTL_LATENCY : Z;
  REFRESH_PERIOD : Z;
  BASIC_BUS_BUSY_TIME : Z;
  g_MEMORY_SIZE_BYTES : Z;
  g_DATA_BLOCK_BYTES : Z;
  g_PAGE_SIZE_BYTES : Z;
  g_NUM_PROCESSORS : Z;
  g_PROCS_PER_CHIP : Z;
  g_NUM_SMT_THREADS : Z;
  g_NUM_L2_BANKS : Z;
  g_NUM_MEMORIES : Z;
  L2_CACHE_NUM_SETS_BITS : Z;
  L2_DIRECTORY_NUM_SETS_BITS : Z;
  (* derived by [init] *)
  g_NUM_CHIPS : Z;
  g_NUM_CHIP_BITS : Z;
  g_MEMORY_SIZE_BITS : Z;
  g_DATA_BLOCK_BITS : Z;
  g_PAGE_SIZE_BITS : Z;
  g_NUM_PROCESSORS_BITS : Z;
  g_PROCS_PER_CHIP_BITS : Z;
  g_NUM_L2_BANKS_BITS : Z;
  g_NUM_L2_BANKS_PER_CHIP : Z;
  g_NUM_L2_BANKS_PER_CHIP_BITS : Z;
  g_NUM_MEMORIES_BITS : Z;
  g_NUM_MEMORIES_PER_CHIP : Z;
  g_MEMORY_MODULE_BITS : Z;
  g_MEMORY_MODULE_BLOCKS : Z;
  MAP_L2BANKS_TO_LOWEST_BITS : bool;
  (* [Protocol::m_CMP], generated with the protocol *)
  m_CMP : bool;
}.

(** [log_int]; a [long long] is halved at most 63 times. *)
Fixpoint log_int_loop (fuel : nat) (counter n : Z) : outcome Z :=
  match fuel with
  | O => Err OutOfFuel
  | S fuel' => if 2 <=? n then log_int_loop fuel' (counter + 1) (Z.shiftr n 1) else Ok counter
  end.
Definition log_int (n : Z) : outcome Z := cassert (0 <? n);; log_int_loop 64 0 n.

Definition is_power_of_2 (n : Z) : outcome bool :=
  l ← log_int n; mret (n =? s64 (Z.shiftl 1 l)).

Definition CHECK_POWER_OF_2 (n : Z) : outcome unit :=
  b ← is_power_of_2 n; if b : bool then Ok tt else Err ErrorMsg.
Definition CHECK_ZERO (n : Z) : outcome unit := if n =? 0 then Ok tt else Err ErrorMsg.
Definition CHECK_NON_ZERO (n : Z) : outcome unit := if n =? 0 then Err ErrorMsg else Ok tt.

(** [int64(1) << bits]. *)
Definition shift_one (bits : Z) : outcome Z :=
  if (0 <=? bits) && (bits <? 64) then Ok (s64 (Z.shiftl 1 bits)) else Err Undefined.

(** [RubyConfig::init], less the seeding of [random()]. *)
Definition init (c : RubyConfig) : outcome RubyConfig :=
  CHECK_NON_ZERO (MEM_BUS_CYCLE_MULTIPLIER c);;
  CHECK_NON_ZERO (BANKS_PER_RANK c);;
  CHECK_NON_ZERO (RANKS_PER_DIMM c);;
  CHECK_NON_ZERO (DIMMS_PER_CHANNEL c);;
  CHECK_NON_ZERO (BANK_QUEUE_SIZE c);;
  CHECK_NON_ZERO (BANK_BUSY_TIME c);;
  CHECK_NON_ZERO (MEM_CTL_LATENCY c);;
  CHECK_NON_ZERO (REFRESH_PERIOD c);;
  CHECK_NON_ZERO (BASIC_BUS_BUSY_TIME c);;
  CHECK_POWER_OF_2 (BANKS_PER_RANK c);;
  CHECK_POWER_OF_2 (RANKS_PER_DIMM c);;
  CHECK_POWER_OF_2 (DIMMS_PER_CHANNEL c);;
  CHECK_NON_ZERO (g_MEMORY_SIZE_BYTES c);;
  CHECK_NON_ZERO (g_DATA_BLOCK_BYTES c);;
  CHECK_NON_ZERO (g_PAGE_SIZE_BYTES c);;
  CHECK_NON_ZERO (g_NUM_PROCESSORS c);;
  CHECK_NON_ZERO (g_PROCS_PER_CHIP c);;
  let smt_threads := if g_NUM_SMT_THREADS c =? 0 then 1 else g_NUM_SMT_THREADS c in
  let l2_banks := if g_NUM_L2_BANKS c =? 0 then g_NUM_PROCESSORS c else g_NUM_L2_BANKS c in
  CHECK_ZERO (g_MEMORY_SIZE_BITS c);;
  CHECK_ZERO (g_DATA_BLOCK_BITS c);;
  CHECK_ZERO (g_PAGE_SIZE_BITS c);;
  CHECK_ZERO (g_NUM_PROCESSORS_BITS c);;
  CHECK_ZERO (g_NUM_CHIP_BITS c);;
  CHECK_ZERO (g_NUM_L2_BANKS_BITS c);;
  CHECK_ZERO (g_NUM_MEMORIES_BITS c);;
  CHECK_ZERO (g_PROCS_PER_CHIP_BITS c);;
  CHECK_ZERO (g_NUM_L2_BANKS_PER_CHIP c);;
  CHECK_ZERO (g_NUM_L2_BANKS_PER_CHIP_BITS c);;
  CHECK_ZERO (g_NUM_MEMORIES_BITS c);;
  CHECK_ZERO (g_MEMORY_MODULE_BLOCKS c);;
  CHECK_ZERO (g_MEMORY_MODULE_BITS c);;
  (if negb (g_NUM_MEMORIES c =? 0) then CHECK_ZERO (g_NUM_MEMORIES_PER_CHIP c) else Ok tt);;
  CHECK_POWER_OF_2 (g_MEMORY_SIZE_BYTES c);;
  CHECK_POWER_OF_2 (g_DATA_BLOCK_BYTES c);;
  CHECK_POWER_OF_2 (g_NUM_PROCESSORS c);;
  CHECK_POWER_OF_2 l2_banks;;
  (if negb (g_NUM_MEMORIES c =? 0) then CHECK_POWER_OF_2 (g_NUM_MEMORIES c) else Ok tt);;
  CHECK_POWER_OF_2 (g_PROCS_PER_CHIP c);;
  cassert (g_PROCS_PER_CHIP c <=? g_NUM_PROCESSORS c);;
  let chips := Z.quot (g_NUM_PROCESSORS c) (g_PROCS_PER_CHIP c) in
  cassert (chips <=? l2_banks);;
  let l2_per_chip := Z.quot l2_banks chips in
  l2_per_chip_bits ← log_int l2_per_chip;
  cassert (l2_per_chip_bits <? L2_CACHE_NUM_SETS_BITS c);;
  cassert (l2_per_chip_bits <? L2_DIRECTORY_NUM_SETS_BITS c);;
  let memories_per_chip :=
    if negb (g_NUM_MEMORIES c =? 0) && (g_NUM_MEMORIES c <? chips) then 1
    else Z.quot (g_NUM_MEMORIES c) chips in
  chip_bits ← log_int chips;
  memory_size_bits ← log_int (g_MEMORY_SIZE_BYTES c);
  data_block_bits ← log_int (g_DATA_BLOCK_BYTES c);
  page_size_bits ← log_int (g_PAGE_SIZE_BYTES c);
  processors_bits ← log_int (g_NUM_PROCESSORS c);
  l2_bits ← log_int l2_banks;
  memories_bits ← (if negb (g_NUM_MEMORIES c =? 0) then log_int (g_NUM_MEMORIES c)
                   else Ok (g_NUM_MEMORIES_BITS c));
  procs_per_chip_bits ← log_int (g_PROCS_PER_CHIP c);
  let module_bits := memory_size_bits - data_block_bits - memories_bits in
  module_blocks ← shift_one module_bits;
  if negb (m_CMP c) && (1 <? g_PROCS_PER_CHIP c) then Err ErrorMsg
  else mret {|
    MEM_BUS_CYCLE_MULTIPLIER := MEM_BUS_CYCLE_MULTIPLIER c;
    BANKS_PER_RANK := BANKS_PER_RANK c;
    RANKS_PER_DIMM := RANKS_PER_DIMM c;
    DIMMS_PER_CHANNEL := DIMMS_PER_CHANNEL c;
    BANK_QUEUE_SIZE := BANK_QUEUE_SIZE c;
    BANK_BUSY_TIME := BANK_BUSY_TIME c;
    MEM_CTL_LATENCY := MEM_CTL_LATENCY c;
    REFRESH_PERIOD := REFRESH_PERIOD c;
    BASIC_BUS_BUSY_TIME := BASIC_BUS_BUSY_TIME c;
    g_MEMORY_SIZE_BYTES := g_MEMORY_SIZE_BYTES c;
    g_DATA_BLOCK_BYTES := g_DATA_BLOCK_BYTES c;
    g_PAGE_SIZE_BYTES := g_PAGE_SIZE_BYTES c;
    g_NUM_PROCESSORS := g_NUM_PROCESSORS c;
    g_PROCS_PER_CHIP := g_PROCS_PER_CHIP c;
    g_NUM_SMT_THREADS := smt_threads;
    g_NUM_L2_BANKS := l2_banks;
    g_NUM_MEMORIES := g_NUM_MEMORIES c;
    L2_CACHE_NUM_SETS_BITS := L2_CACHE_NUM_SETS_BITS c - l2_per_chip_bits;
    L2_DIRECTORY_NUM_SETS_BITS := L2_DIRECTORY_NUM_SETS_BITS c - l2_per_chip_bits;
    g_NUM_CHIPS := chips;
    g_NUM_CHIP_BITS := chip_bits;
    g_MEMORY_SIZE_BITS := memory_size_bits;
    g_DATA_BLOCK_BITS := data_block_bits;
    g_PAGE_SIZE_BITS := page_size_bits;
    g_NUM_PROCESSORS_BITS := processors_bits;
    g_PROCS_PER_CHIP_BITS := procs_per_chip_bits;
    g_NUM_L2_BANKS_BITS := l2_bits;
    g_NUM_L2_BANKS_PER_CHIP := l2_per_chip;
    g_NUM_L2_BANKS_PER_CHIP_BITS := l2_per_chip_bits;
    g_NUM_MEMORIES_BITS := memories_bits;
    g_NUM_MEMORIES_PER_CHIP := memories_per_chip;
    g_MEMORY_MODULE_BITS := module_bits;
    g_MEMORY_MODULE_BLOCKS := module_blocks;
    MAP_L2BANKS_TO_LOWEST_BITS := MAP_L2BANKS_TO_LOWEST_BITS c;
    m_CMP := m_CMP c;
  |}.

(** The accessors of [RubyConfig] the other components use. *)
Definition dataBlockBits (c : RubyConfig) : Z := g_DATA_BLOCK_BITS c.
Definition dataBlockBytes (c : RubyConfig) : Z := g_DATA_BLOCK_BYTES c.
Definition pageSizeBits (c : RubyConfig) : Z := g_PAGE_SIZE_BITS c.
Definition memorySizeBits (c : RubyConfig) : Z := g_MEMORY_SIZE_BITS c.
Definition memoryModuleBlocks (c : RubyConfig) : Z := g_MEMORY_MODULE_BLOCKS c.
Definition numberOfProcessors (c : RubyConfig) : Z := g_NUM_PROCESSORS c.
Definition numberOfProcsPerChip (c : RubyConfig) : Z := g_PROCS_PER_CHIP c.
Definition numberOfChips (c : RubyConfig) : Z := g_NUM_CHIPS c.
Definition numberOfL1CachePerChip (c : RubyConfig) : Z := numberOfProcsPerChip c.
Definition numberOfL2Cache (c : RubyConfig) : Z := g_NUM_L2_BANKS c.
Definition L2CachePerChipBits (c : RubyConfig) : Z := g_NUM_L2_BANKS_PER_CHIP_BITS c.
Definition numberOfL2CachePerChip (c : RubyConfig) : Z := g_NUM_L2_BANKS_PER_CHIP c.
Definition memoryBits (c : RubyConfig) : Z := g_NUM_MEMORIES_BITS c.
Definition numberOfMemories (c : RubyConfig) : Z := g_NUM_MEMORIES c.
Definition L1CacheNumToL2Base (c : RubyConfig) (L1CacheNum : Z) : Z :=
  Z.quot L1CacheNum (g_PROCS_PER_CHIP c).

(** * Logarithms *)

Lemma log_int_loop_spec fuel counter n :
  0 < n -> Z.log2 n < Z.of_nat fuel -> log_int_loop fuel counter n = Ok (counter + Z.log2 n).
Proof.
  revert counter n. induction fuel as [|fuel IH]; intros counter n Hn Hf.
  { pose proof (Z.log2_nonneg n). lia. }
  simpl. destruct (Z.leb_spec 2 n).
  - rewrite Z.shiftr_div_pow2 by lia. change (2 ^ 1) with 2.
    assert (Z.log2 n = Z.succ (Z.log2 (n / 2))) as E.
    { rewrite (Z.div_mod n 2) at 1 by lia. destruct (Z.eq_dec (n mod 2) 0) as [->|].
      - rewrite Z.add_0_r. apply Z.log2_double. lia.
      - replace (n mod 2) with 1 by lia. apply Z.log2_succ_double. lia. }
    rewrite IH by lia. f_equal. lia.
  - replace n with 1 by lia. change (Z.log2 1) with 0. f_equal. lia.
Qed.

Lemma log_int_spec n : 0 < n < 2 ^ 63 -> log_int n = Ok (Z.log2 n).
Proof.
  intros Hn. unfold log_int. rewrite cassert_true, bind_of_ok by (apply Z.ltb_lt; lia).
  apply log_int_loop_spec; [lia|]. apply Z.log2_lt_pow2; lia.
Qed.

Lemma log_int_ok n l : n < 2 ^ 63 -> log_int n = Ok l -> 0 < n /\ l = Z.log2 n.
Proof.
  intros Hn H. assert (0 < n) as H0 by (unfold log_int in H; ok_inv; by to_prop).
  rewrite log_int_spec in H by lia. naive_solver.
Qed.

Lemma CHECK_POWER_OF_2_ok n u :
  n < 2 ^ 63 -> CHECK_POWER_OF_2 n = Ok u -> 0 < n /\ n = 2 ^ Z.log2 n.
Proof.
  intros Hn H. unfold CHECK_POWER_OF_2, is_power_of_2 in H. ok_inv. simplify_eq.
  match goal with E : log_int n = Ok _ |- _ => destruct (log_int_ok n _ Hn E) as [Hpos ->] end.
  split; [done|]. case_match; [|done]. to_prop.
  pose proof (Z.log2_nonneg n). assert (Z.log2 n < 63) by (apply Z.log2_lt_pow2; lia).
  assert (s64 (Z.shiftl 1 (Z.log2 n)) = 2 ^ Z.log2 n) as <-; [|done].
  rewrite Z.shiftl_mul_pow2, Z.mul_1_l by lia. apply swrap_small; [lia|].
  split; [pose proof (Z.pow_nonneg 2 (Z.log2 n)); lia|]. apply Z.pow_lt_mono_r; lia.
Qed.

Lemma CHECK_POWER_OF_2_pow k : 0 <= k < 63 -> CHECK_POWER_OF_2 (2 ^ k) = Ok tt.
Proof.
  intros Hk. assert (0 < 2 ^ k < 2 ^ 63)
    by (split; [apply Z.pow_pos_nonneg; lia|apply Z.pow_lt_mono_r; lia]).
  unfold CHECK_POWER_OF_2, is_power_of_2. rewrite log_int_spec, bind_of_ok by done.
  rewrite Z.log2_pow2, Z.shiftl_mul_pow2, Z.mul_1_l, swrap_small, Z.eqb_refl by lia. done.
Qed.

Lemma pow_quot a b : 0 <= b <= a -> Z.quot (2 ^ a) (2 ^ b) = 2 ^ (a - b).
Proof.
  intros Hab. rewrite Z.quot_div_nonneg; [|apply Z.pow_nonneg; lia|apply Z.pow_pos_nonneg; lia].
  rewrite Z.pow_sub_r by lia. done.
Qed.

(** What [init] establishes: every size is the power of two of its number of
    bits, and the parts multiply up to the whole. *)
Record configured (c : RubyConfig) : Prop := {
  cf_block : g_DATA_BLOCK_BYTES c = 2 ^ g_DATA_BLOCK_BITS c /\ 0 <= g_DATA_BLOCK_BITS c < 31;
  cf_memory : g_MEMORY_SIZE_BYTES c = 2 ^ g_MEMORY_SIZE_BITS c /\ 0 <= g_MEMORY_SIZE_BITS c < 63;
  cf_memories : g_NUM_MEMORIES c = 0 \/ (g_NUM_MEMORIES c = 2 ^ g_NUM_MEMORIES_BITS c);
  cf_memories_bits : 0 <= g_NUM_MEMORIES_BITS c < 31;
  cf_module : g_MEMORY_MODULE_BLOCKS c = 2 ^ g_MEMORY_MODULE_BITS c /\ 0 <= g_MEMORY_MODULE_BITS c /\
    g_MEMORY_SIZE_BITS c = g_DATA_BLOCK_BITS c + g_NUM_MEMORIES_BITS c + g_MEMORY_MODULE_BITS c;
  cf_chips : g_NUM_CHIPS c = 2 ^ g_NUM_CHIP_BITS c /\ 0 <= g_NUM_CHIP_BITS c;
  cf_procs : g_PROCS_PER_CHIP c = 2 ^ g_PROCS_PER_CHIP_BITS c /\ 0 <= g_PROCS_PER_CHIP_BITS c;
  cf_processors : g_NUM_PROCESSORS c = g_PROCS_PER_CHIP c * g_NUM_CHIPS c;
  cf_l2_per_chip : g_NUM_L2_BANKS_PER_CHIP c = 2 ^ g_NUM_L2_BANKS_PER_CHIP_BITS c /\
    0 <= g_NUM_L2_BANKS_PER_CHIP_BITS c < 31;
  cf_l2 : g_NUM_L2_BANKS c = g_NUM_L2_BANKS_PER_CHIP c * g_NUM_CHIPS c /\ g_NUM_L2_BANKS c < 2 ^ 31;
  cf_l2_sets : 0 < L2_CACHE_NUM_SETS_BITS c;
}.

(** The configuration variables are [int]s, the memory size fits [long long]. *)
Definition in_range (c : RubyConfig) : Prop :=
  g_DATA_BLOCK_BYTES c < 2 ^ 31 /\ g_MEMORY_SIZE_BYTES c < 2 ^ 63 /\ g_PAGE_SIZE_BYTES c < 2 ^ 31 /\
  g_NUM_PROCESSORS c < 2 ^ 31 /\ g_PROCS_PER_CHIP c < 2 ^ 31 /\ g_NUM_L2_BANKS c < 2 ^ 31 /\
  0 <= g_NUM_MEMORIES c < 2 ^ 31.

Lemma log2_small n k : 0 < n < 2 ^ k -> 0 <= k -> 0 <= Z.log2 n < k.
Proof. intros Hn Hk. split; [apply Z.log2_nonneg|apply Z.log2_lt_pow2; lia]. Qed.

Lemma pow2_le_inv a b : 0 <= b -> 2 ^ a <= 2 ^ b -> a <= b.
Proof. intros Hb H. destruct (Z.le_gt_cases a b); [done|]. pose proof (Z.pow_lt_mono_r 2 b a). lia. Qed.

Lemma shift_one_ok k x : k < 63 -> shift_one k = Ok x -> 0 <= k /\ x = 2 ^ k.
Proof.
  intros Hk H. unfold shift_one in H. case_match; [|done]. to_prop. ok_inv. subst x.
  split; [done|]. rewrite Z.shiftl_mul_pow2, Z.mul_1_l by lia. apply swrap_small; [lia|].
  split; [pose proof (Z.pow_nonneg 2 k); lia|]. apply Z.pow_lt_mono_r; lia.
Qed.

Lemma lt_31_63 n : n < 2 ^ 31 -> n < 2 ^ 63.
Proof. lia. Qed.

Lemma pow2_check n u k :
  0 <= k < 64 -> n < 2 ^ k -> k <= 63 -> CHECK_POWER_OF_2 n = Ok u ->
  n = 2 ^ Z.log2 n /\ 0 < n /\ 0 <= Z.log2 n < k.
Proof.
  intros Hk Hn Hk' H. assert (n < 2 ^ 63) as Hn'.
  { apply (Z.lt_le_trans _ _ _ Hn). apply Z.pow_le_mono_r; lia. }
  destruct (CHECK_POWER_OF_2_ok n u Hn' H) as [H0 E].
  split; [done|]. split; [done|]. apply log2_small; lia.
Qed.

Lemma log_of_pow2 n x k : n = 2 ^ k -> 0 <= k < 63 -> log_int n = Ok x -> x = k.
Proof.
  intros -> Hk H. assert (2 ^ k < 2 ^ 63) by (apply Z.pow_lt_mono_r; lia).
  destruct (log_int_ok _ _ H0 H) as [_ ->]. apply Z.log2_pow2. lia.
Qed.

Lemma quot_pow2 n m a b :
  n = 2 ^ a -> m = 2 ^ b -> 0 <= a -> 0 <= b -> m <= n ->
  Z.quot n m = 2 ^ (a - b) /\ b <= a /\ n = m * 2 ^ (a - b).
Proof.
  intros -> -> Ha Hb Hle. apply pow2_le_inv in Hle; [|done].
  split_and!; [by apply pow_quot|done|]. rewrite <- Z.pow_add_r by lia. f_equal. lia.
Qed.

(** Turns each successful check into what it says. *)
Ltac checked n k Hn Hl :=
  match goal with E : CHECK_POWER_OF_2 n = Ok _ |- _ =>
    destruct (pow2_check n _ k ltac:(lia) ltac:(assumption) ltac:(lia) E) as (Hn & _ & Hl); clear E end.
Ltac logged n k :=
  match goal with E : log_int n = Ok ?x |- _ =>
    apply (log_of_pow2 n x k) in E; [subst x|assumption|clear E] end.

(** The number of memories is zero, with no bits, or a power of two of its bits. *)
Lemma memories_bits c u v :
  0 <= g_NUM_MEMORIES c < 2 ^ 31 -> CHECK_ZERO (g_NUM_MEMORIES_BITS c) = Ok v ->
  (if negb (g_NUM_MEMORIES c =? 0) then CHECK_POWER_OF_2 (g_NUM_MEMORIES c) else Ok tt) = Ok u ->
  exists k, (g_NUM_MEMORIES c = 0 \/ g_NUM_MEMORIES c = 2 ^ k) /\ 0 <= k < 31 /\
    (if negb (g_NUM_MEMORIES c =? 0) then log_int (g_NUM_MEMORIES c)
     else Ok (g_NUM_MEMORIES_BITS c)) = Ok k.
Proof.
  intros [_ R] Hz0 H. destruct (Z.eqb_spec (g_NUM_MEMORIES c) 0) as [Hz|Hz]; simpl in *.
  - exists 0. split_and!; [by left|lia|lia|]. unfold CHECK_ZERO in *.
    destruct (Z.eqb_spec (g_NUM_MEMORIES_BITS c) 0) as [->|]; done.
  - checked (g_NUM_MEMORIES c) 31 Hm Hml.
    exists (Z.log2 (g_NUM_MEMORIES c)). split_and!; [by right|lia|lia|].
    apply log_int_spec. lia.
Qed.

(** A configuration that RubyConfig::init accepts is consistent: block, memory, chip,
    processor and bank counts are powers of two of their bit counts and multiply up to
    their totals. *)
Theorem init_configures c c' : in_range c -> init c = Ok c' -> configured c'.
Proof.
  intros (R1 & R2 & R3 & R4 & R5 & R6 & R7) H. unfold init in H. ok_inv.
  set (l2 := if g_NUM_L2_BANKS c =? 0 then g_NUM_PROCESSORS c else g_NUM_L2_BANKS c) in *.
  assert (l2 < 2 ^ 31) as Rl2 by (unfold l2; destruct (g_NUM_L2_BANKS c =? 0); lia).
  clearbody l2. case_match; [done|]. ok_inv. subst c'.
  match goal with E : CHECK_ZERO (g_NUM_MEMORIES_BITS c) = Ok _,
      E' : (if _ then CHECK_POWER_OF_2 (g_NUM_MEMORIES c) else _) = Ok _ |- _ =>
    destruct (memories_bits c _ _ R7 E E') as (mk & M1 & M2 & M3); clear E E' end.
  rewrite M3 in *. ok_inv. subst.
  checked (g_MEMORY_SIZE_BYTES c) 63 A1 L1. checked (g_DATA_BLOCK_BYTES c) 31 A2 L2.
  checked (g_NUM_PROCESSORS c) 31 A3 L3. checked l2 31 A4 L4. checked (g_PROCS_PER_CHIP c) 31 A5 L5.
  set (k1 := Z.log2 (g_MEMORY_SIZE_BYTES c)) in *. set (k2 := Z.log2 (g_DATA_BLOCK_BYTES c)) in *.
  set (k3 := Z.log2 (g_NUM_PROCESSORS c)) in *. set (k4 := Z.log2 l2) in *.
  set (k5 := Z.log2 (g_PROCS_PER_CHIP c)) in *. clearbody k1 k2 k3 k4 k5. to_prop.
  destruct (quot_pow2 (g_NUM_PROCESSORS c) (g_PROCS_PER_CHIP c) k3 k5) as (C1 & C2 & C3);
    [done|done|lia|lia|done|].
  destruct (quot_pow2 l2 (Z.quot (g_NUM_PROCESSORS c) (g_PROCS_PER_CHIP c)) k4 (k3 - k5))
    as (B1 & B2 & B3); [done|done|lia|lia|done|].
  logged (g_MEMORY_SIZE_BYTES c) k1; [|exact L1].
  logged (g_DATA_BLOCK_BYTES c) k2; [|clear -L2; lia].
  logged (g_PROCS_PER_CHIP c) k5; [|clear -L5; lia].
  logged (Z.quot (g_NUM_PROCESSORS c) (g_PROCS_PER_CHIP c)) (k3 - k5); [|clear -L3 L5 C2; lia].
  logged (Z.quot l2 (Z.quot (g_NUM_PROCESSORS c) (g_PROCS_PER_CHIP c))) (k4 - (k3 - k5));
    [|clear -L3 L4 L5 B2 C2; lia].
  match goal with E : shift_one _ = Ok _ |- _ =>
    apply shift_one_ok in E; [destruct E as [S1 S2]|clear -L1 L2 M2; lia] end.
  split; cbn.
  - split; [exact A2|exact L2].
  - split; [exact A1|exact L1].
  - exact M1.
  - exact M2.
  - split; [exact S2|]. split; [exact S1|clear -M2 L1; lia].
  - split; [exact C1|clear -C2; lia].
  - split; [exact A5|apply L5].
  - rewrite C1. exact C3.
  - split; [exact B1|clear -B2 L3 L4 L5 C2; lia].
  - split; [|exact Rl2]. rewrite B1. rewrite B3 at 1. apply Z.mul_comm.
  - match goal with E : _ < L2_CACHE_NUM_SETS_BITS c |- _ => clear -E; lia end.
Qed.

(** Sixteen processors on four chips, eight memories and 4 GB. *)
Definition demo_config : RubyConfig :=
  mkRubyConfig 10 8 2 2 12 11 12 1560 2 4294967296 64 4096 16 4 0 8 8 16 16
    0 0 0 0 0 0 0 0 0 0 0 0 0 0 false true.

#[export] Instance RubyConfig_inhabited : Inhabited RubyConfig := populate demo_config.
Definition demo_configured : RubyConfig := Eval vm_compute in from_ok (init demo_config).

Lemma init_configures_witness : init demo_config = Ok demo_configured /\ configured demo_configured.
Proof.
  assert (init demo_config = Ok demo_configured) as E by (vm_compute; reflexivity).
  split; [exact E|]. apply (init_configures demo_config _); [|exact E].
  unfold in_range. vm_compute. intuition congruence.
Defined.

Lemma demo_configured_ok : configured demo_configured.
Proof. split; vm_compute; intuition congruence. Qed.
