(* ===== verification/Address.v ===== *)
(** [common/Address.{h,C}]: the bit arithmetic on physical addresses.

    An address is its only field, a 64-bit unsigned integer.  The functions that
    read the configuration take it as an argument. *)

From S2P Require Import Prelude Config.

Abbreviation physical_address := Z (only parsing).

Definition ADDRESS_WIDTH : Z := 64.

(** 64-bit unsigned shifts; other counts have no meaning in C++. *)
Definition shl64 (x n : Z) : outcome Z :=
  if (0 <=? n) && (n <? 64) then Ok (u64 (Z.shiftl x n)) else Err Undefined.
Definition shr64 (x n : Z) : outcome Z :=
  if (0 <=? n) && (n <? 64) then Ok (Z.shiftr x n) else Err Undefined.
(** [~x] on 64 bits, and [(physical_address_t)~0]. *)
Definition not64 (x : Z) : Z := u64 (Z.lnot x).
Definition all_ones : Z := not64 0.

Definition bitSelect (a : physical_address) (small big : Z) : outcome Z :=
  cassert (small <=? big);;
  if ADDRESS_WIDTH - 1 <=? big then shr64 a small
  else
    m ← shl64 all_ones (big + 1);
    shr64 (Z.land a (not64 m)) small.

Definition maskLowOrderBits (a : physical_address) (number : Z) : outcome Z :=
  mask ← (if ADDRESS_WIDTH - 1 <=? number then Ok all_ones else shl64 all_ones number);
  mret (Z.land a mask).

Definition maskHighOrderBits (a : physical_address) (number : Z) : outcome Z :=
  mask ← (if ADDRESS_WIDTH - 1 <=? number then Ok all_ones else shr64 all_ones number);
  mret (Z.land a mask).

Definition shiftLowOrderBits (a : physical_address) (number : Z) : outcome Z := shr64 a number.

Section configured.
  Context (cfg : RubyConfig).

Definition getLineAddress (a : physical_address) : outcome Z :=
  bitSelect a (dataBlockBits cfg) ADDRESS_WIDTH.
Definition getOffset (a : physical_address) : outcome Z := bitSelect a 0 (dataBlockBits cfg - 1).
Definition makeLineAddress (a : physical_address) : outcome Z :=
  maskLowOrderBits a (dataBlockBits cfg).
Definition makeNextStrideAddress (a : physical_address) (stride : Z) : outcome Z :=
  l ← maskLowOrderBits a (dataBlockBits cfg);
  mret (u64 (l + s32 (dataBlockBytes cfg * stride))).
Definition makePageAddress (a : physical_address) : outcome Z :=
  maskLowOrderBits a (pageSizeBits cfg).
Definition setOffset (a : physical_address) (offset : Z) : outcome Z :=
  l ← makeLineAddress a; mret (Z.lor l (u64 offset)).
Definition line_address (a : physical_address) : outcome Z := makeLineAddress a.
Definition next_stride_address (a : physical_address) (stride : Z) : outcome Z :=
  t ← makeNextStrideAddress a stride;
  maskHighOrderBits t (ADDRESS_WIDTH - memorySizeBits cfg).
Definition page_address (a : physical_address) : outcome Z := makePageAddress a.

Definition memoryModuleIndex (a : physical_address) : outcome Z :=
  index ← bitSelect a (dataBlockBits cfg + memoryBits cfg) ADDRESS_WIDTH;
  let index := s64 index in
  cassert (0 <=? index);;
  cassert (index <? memoryModuleBlocks cfg);;
  mret index.

End configured.

(** * Bits as arithmetic *)

Definition is_address (a : Z) : Prop := 0 <= a < 2 ^ 64.

Lemma address_testbit a i : is_address a -> 64 <= i -> Z.testbit a i = false.
Proof.
  intros Ha Hi. destruct (Z.eq_dec a 0) as [->|]; [apply Z.bits_0|].
  apply Z.bits_above_log2; [apply Ha|]. apply Z.lt_le_trans with 64; [|done].
  apply Z.log2_lt_pow2; unfold is_address in Ha; lia.
Qed.

Lemma all_ones_val : all_ones = Z.ones 64.
Proof. reflexivity. Qed.

(** Masking with ones from bit [n] up keeps the high part. *)
Lemma land_high a n m :
  is_address a -> 0 <= n -> shl64 all_ones n = Ok m -> Z.land a m = a / 2 ^ n * 2 ^ n.
Proof.
  intros Ha Hn E. unfold shl64 in E. case_match; [|done]. injection E as <-. to_prop.
  rewrite <- Z.shiftr_div_pow2, <- Z.shiftl_mul_pow2 by lia.
  apply Z.bits_inj'. intros i Hi. rewrite Z.land_spec, uwrap_testbit, all_ones_val by lia.
  rewrite !Z.shiftl_spec by lia. destruct (Z.le_gt_cases n i).
  - rewrite Z.shiftr_spec by lia. replace (i - n + n) with i by lia.
    case_bool_decide; simpl; [|by rewrite (address_testbit a i), andb_false_r by (done || lia)].
    rewrite Z.ones_spec_low by lia. by rewrite andb_true_r.
  - rewrite !(Z.testbit_neg_r _ (i - n)) by lia. by rewrite !andb_false_r.
Qed.

(** Masking with ones below bit [n] keeps the low part. *)
Lemma land_low a n m :
  is_address a -> 0 <= n -> shl64 all_ones n = Ok m -> Z.land a (not64 m) = a mod 2 ^ n.
Proof.
  intros Ha Hn E. unfold shl64 in E. case_match; [|done]. injection E as <-. to_prop.
  rewrite <- Z.land_ones by lia.
  apply Z.bits_inj'. intros i Hi. unfold not64. rewrite !Z.land_spec, uwrap_testbit by lia.
  rewrite Z.lnot_spec, uwrap_testbit, all_ones_val, Z.shiftl_spec by lia.
  destruct (Z.le_gt_cases n i).
  - rewrite (Z.ones_spec_high n) by lia. case_bool_decide; simpl; [|done].
    rewrite Z.ones_spec_low by lia. done.
  - rewrite (Z.testbit_neg_r _ (i - n)), andb_false_r by lia. simpl.
    rewrite bool_decide_eq_true_2 by lia. by rewrite Z.ones_spec_low by lia.
Qed.

Lemma shl64_ones_ok n : 0 <= n < 64 -> exists m, shl64 all_ones n = Ok m.
Proof.
  intros Hn. unfold shl64. rewrite (proj2 (Z.leb_le 0 n)), (proj2 (Z.ltb_lt n 64)) by lia. eauto.
Qed.

Lemma shr64_val x n : 0 <= n < 64 -> shr64 x n = Ok (x / 2 ^ n).
Proof.
  intros Hn. unfold shr64. rewrite (proj2 (Z.leb_le 0 n)), (proj2 (Z.ltb_lt n 64)) by lia.
  simpl. by rewrite Z.shiftr_div_pow2 by lia.
Qed.

Lemma bitSelect_val a small big :
  is_address a -> 0 <= small < 64 -> small <= big ->
  bitSelect a small big = Ok ((a / 2 ^ small) mod 2 ^ (big - small + 1)).
Proof.
  intros Ha Hs Hb. unfold bitSelect, ADDRESS_WIDTH.
  rewrite cassert_true, bind_of_ok by (apply Z.leb_le; lia).
  assert (0 < 2 ^ small) as Hp by (apply Z.pow_pos_nonneg; lia).
  destruct (Z.leb_spec (64 - 1) big).
  - rewrite shr64_val, Z.mod_small; [done| |lia]. split; [apply Z.div_pos; [apply Ha|done]|].
    apply Z.div_lt_upper_bound; [done|]. rewrite <- Z.pow_add_r by lia.
    apply Z.lt_le_trans with (2 ^ 64); [apply Ha|]. apply Z.pow_le_mono_r; lia.
  - destruct (shl64_ones_ok (big + 1)) as [m Em]; [lia|]. rewrite Em, bind_of_ok.
    rewrite (land_low a (big + 1) m), shr64_val by (done || lia). f_equal.
    rewrite <- !Z.land_ones, <- !Z.shiftr_div_pow2 by lia.
    apply Z.bits_inj'. intros i Hi. rewrite Z.shiftr_spec, !Z.land_spec, Z.shiftr_spec by lia.
    f_equal. destruct (Z.lt_ge_cases i (big - small + 1)).
    + by rewrite !Z.ones_spec_low by lia.
    + by rewrite !Z.ones_spec_high by lia.
Qed.

Lemma maskLowOrderBits_val a n :
  is_address a -> 0 <= n < 63 -> maskLowOrderBits a n = Ok (a / 2 ^ n * 2 ^ n).
Proof.
  intros Ha Hn. unfold maskLowOrderBits, ADDRESS_WIDTH.
  rewrite (proj2 (Z.leb_gt (64 - 1) n)) by lia.
  destruct (shl64_ones_ok n) as [m Em]; [lia|]. rewrite Em, bind_of_ok.
  by rewrite (land_high a n m) by (done || lia).
Qed.

Lemma maskHighOrderBits_val a n :
  is_address a -> 0 <= n < 63 -> maskHighOrderBits a n = Ok (a mod 2 ^ (64 - n)).
Proof.
  intros Ha Hn. unfold maskHighOrderBits, ADDRESS_WIDTH.
  rewrite (proj2 (Z.leb_gt (64 - 1) n)) by lia. rewrite shr64_val, bind_of_ok by lia.
  rewrite all_ones_val, Z.ones_div_pow2, Z.land_ones by lia. done.
Qed.

Section lines.
  Context (cfg : RubyConfig) (Hcfg : configured cfg).
  Implicit Types a : Z.

Lemma block_pos : 0 < dataBlockBytes cfg.
Proof.
  destruct (cf_block _ Hcfg) as [E Hb]. unfold dataBlockBytes. rewrite E.
  apply Z.pow_pos_nonneg; lia.
Qed.

Lemma makeLineAddress_val a :
  is_address a -> makeLineAddress cfg a = Ok (a / dataBlockBytes cfg * dataBlockBytes cfg).
Proof.
  intros Ha. destruct (cf_block _ Hcfg) as [E Hb]. unfold makeLineAddress, dataBlockBits, dataBlockBytes.
  rewrite maskLowOrderBits_val, E by (done || lia). done.
Qed.

Lemma line_is_address a :
  is_address a -> is_address (a / dataBlockBytes cfg * dataBlockBytes cfg).
Proof.
  intros Ha. pose proof block_pos. unfold is_address in *.
  pose proof (Z.div_mod a (dataBlockBytes cfg)). pose proof (Z.mod_pos_bound a (dataBlockBytes cfg)).
  pose proof (Z.div_pos a (dataBlockBytes cfg)). nia.
Qed.

(** Line address and offset take an address apart and put it together again: the line is
    a multiple of the block size, the offset is below it, their sum is the address, and
    setting the offset of the line restores the address. *)
Theorem line_offset_roundtrip a :
  is_address a -> 0 < dataBlockBits cfg ->
  exists l o g, makeLineAddress cfg a = Ok l /\ getOffset cfg a = Ok o /\
    getLineAddress cfg a = Ok g /\ l = g * dataBlockBytes cfg /\ 0 <= o < dataBlockBytes cfg /\
    l + o = a /\ setOffset cfg l o = Ok a /\ makeLineAddress cfg l = Ok l.
Proof.
  intros Ha Hpos. pose proof block_pos as Hbp. destruct (cf_block _ Hcfg) as [E Hb].
  pose proof (makeLineAddress_val a Ha) as El. pose proof (line_is_address a Ha) as Hl.
  set (B := dataBlockBytes cfg) in *. set (k := dataBlockBits cfg) in *.
  assert (B = 2 ^ k) as EB by exact E. assert (0 <= k < 31) as Hk by exact Hb.
  pose proof (Z.div_mod a B ltac:(lia)) as Hdm. pose proof (Z.mod_pos_bound a B Hbp) as Hm.
  assert (a / B * B / B = a / B) as Hid by (apply Z.div_mul; lia).
  assert (makeLineAddress cfg (a / B * B) = Ok (a / B * B)) as Ell
    by (rewrite makeLineAddress_val by done; fold B; by rewrite Hid).
  exists (a / B * B), (a mod B), (a / B). split_and!; try done; try lia.
  - unfold getOffset. fold k. rewrite bitSelect_val, Z.pow_0_r, Z.div_1_r, EB by (done || lia).
    do 3 f_equal. lia.
  - unfold getLineAddress, ADDRESS_WIDTH. fold k. rewrite bitSelect_val, <- EB by (done || lia).
    f_equal. apply Z.mod_small. split; [apply Z.div_pos; [apply Ha|lia]|].
    apply Z.div_lt_upper_bound; [lia|]. rewrite EB, <- Z.pow_add_r by lia.
    apply Z.lt_le_trans with (2 ^ 64); [apply Ha|]. apply Z.pow_le_mono_r; lia.
  - unfold setOffset. rewrite Ell, bind_of_ok, uwrap_small by (unfold is_address in *; lia).
    rewrite EB in Hm |- *. rewrite lor_disjoint by lia. unfold mret, outcome_ret. f_equal.
    rewrite <- EB. lia.
Qed.

(** The next address of a stride is line aligned and within the memory. *)
Theorem next_stride_in_memory a stride :
  is_address a -> 2 <= memorySizeBits cfg -> dataBlockBits cfg <= memorySizeBits cfg ->
  exists t, next_stride_address cfg a stride = Ok t /\
    0 <= t < g_MEMORY_SIZE_BYTES cfg /\ t mod dataBlockBytes cfg = 0.
Proof.
  intros Ha Hms Hbm. pose proof block_pos as Hbp. destruct (cf_block _ Hcfg) as [E Hb].
  destruct (cf_memory _ Hcfg) as [Em Hmb].
  unfold next_stride_address, makeNextStrideAddress, ADDRESS_WIDTH.
  change (maskLowOrderBits a (dataBlockBits cfg)) with (makeLineAddress cfg a).
  rewrite makeLineAddress_val, !bind_of_ok by done.
  set (B := dataBlockBytes cfg) in *. set (k := dataBlockBits cfg) in *.
  set (n := memorySizeBits cfg) in *. assert (B = 2 ^ k) as EB by exact E.
  set (x := u64 _). assert (is_address x) as Hx by (apply uwrap_range; lia).
  rewrite maskHighOrderBits_val by (done || (unfold n, memorySizeBits in *; lia)).
  replace (64 - (64 - n)) with n by lia. eexists. split; [done|].
  assert (0 < 2 ^ n) by (apply Z.pow_pos_nonneg; lia).
  split; [rewrite Em; apply Z.mod_pos_bound; done|].
  assert ((B | x)) as Hd.
  { unfold x, uwrap. rewrite Z.mod_eq by lia. apply Z.divide_sub_r.
    - apply Z.divide_add_r; [apply Z.divide_factor_r|]. unfold swrap.
      rewrite Z.mod_eq by lia. replace (B * stride + 2 ^ (32 - 1) - 2 ^ 32 * ((B * stride + 2 ^ (32 - 1)) / 2 ^ 32) - 2 ^ (32 - 1))
        with (B * stride - 2 ^ 32 * ((B * stride + 2 ^ (32 - 1)) / 2 ^ 32)) by lia.
      apply Z.divide_sub_r; [apply Z.divide_factor_l|]. apply Z.divide_mul_l.
      rewrite EB. exists (2 ^ (32 - k)). rewrite <- Z.pow_add_r by (unfold k, dataBlockBits; lia). f_equal; lia.
    - apply Z.divide_mul_l. rewrite EB. exists (2 ^ (64 - k)).
      rewrite <- Z.pow_add_r by (unfold k, dataBlockBits; lia). f_equal; lia. }
  apply Z.mod_divide; [lia|]. rewrite Z.mod_eq by lia. apply Z.divide_sub_r; [done|].
  apply Z.divide_mul_l. rewrite EB. exists (2 ^ (n - k)).
  rewrite <- Z.pow_add_r by (unfold k, dataBlockBits in *; lia). f_equal. lia.
Qed.

End lines.

Lemma line_offset_roundtrip_witness :
  exists l o g, makeLineAddress demo_configured 4660 = Ok l /\ getOffset demo_configured 4660 = Ok o /\
    getLineAddress demo_configured 4660 = Ok g /\ l = g * dataBlockBytes demo_configured /\
    0 <= o < dataBlockBytes demo_configured /\
    l + o = 4660 /\ setOffset demo_configured l o = Ok 4660 /\ makeLineAddress demo_configured l = Ok l.
Proof.
  apply (line_offset_roundtrip demo_configured demo_configured_ok 4660);
    [unfold is_address; lia|vm_compute; reflexivity].
Defined.

Lemma next_stride_in_memory_witness :
  exists t, next_stride_address demo_configured 4660 (-100) = Ok t /\
    0 <= t < g_MEMORY_SIZE_BYTES demo_configured /\ t mod dataBlockBytes demo_configured = 0.
Proof.
  apply (next_stride_in_memory demo_configured demo_configured_ok 4660 (-100));
    [unfold is_address; lia|vm_compute; congruence..].
Defined.

(** Masking sixty-three bits masks none. *)
Theorem mask_63_masks_nothing a :
  is_address a -> maskLowOrderBits a 63 = Ok a /\ maskHighOrderBits a 63 = Ok a.
Proof.
  intros Ha. assert (Z.land a all_ones = a) as E.
  { rewrite all_ones_val, Z.land_ones by lia. apply Z.mod_small, Ha. }
  unfold maskLowOrderBits, maskHighOrderBits, ADDRESS_WIDTH.
  change (64 - 1 <=? 63) with true. cbv iota. by rewrite !bind_of_ok, E.
Qed.

Lemma mask_63_masks_nothing_witness :
  maskLowOrderBits 4660 63 = Ok 4660 /\ maskHighOrderBits 4660 63 = Ok 4660.
Proof. apply (mask_63_masks_nothing 4660). unfold is_address. lia. Defined.
