(* ===== verification/NodeSet.v ===== *)
(** [common/OptBigSet.{h,C}] (through [common/Set.{h,C}], which select it): sets
    of node numbers as arrays of 64-bit words, in the 64-bit build.

    A word is a signed 64-bit integer kept as a [Z], so that the bit operations
    of [Z], which work on infinite two's complement, are the C++ ones.  Up to
    [NUMBER_WORDS_PER_SET] words the array is the static member, which always has
    that many words; words nobody wrote read as zero.  The class is called [Set]
    in the source. *)

From S2P Require Import Prelude Config.

Record NodeSet := mkNodeSet {
  m_nSize : Z;
  m_nArrayLen : Z;
  m_p_nArray : list Z;
}.

(** [((unsigned long) 1) << (index & 0x03F)], as a signed word. *)
Definition bit (k : Z) : Z := s64 (Z.shiftl 1 k).
Definition low6 (index : Z) : Z := Z.land index 63.

Definition set_words (s : NodeSet) (a : list Z) : NodeSet :=
  mkNodeSet (m_nSize s) (m_nArrayLen s) a.

Definition clear (s : NodeSet) : outcome NodeSet :=
  a ← for_range 0 (m_nArrayLen s) (fun i a => awrite a i 0) (m_p_nArray s);
  mret (set_words s a).

Definition setSize (size : Z) : outcome NodeSet :=
  let len := Z.quot size 64 + (if Z.rem size 64 =? 0 then 0 else 1) in
  if len <=? NUMBER_WORDS_PER_SET then
    clear (mkNodeSet size len (replicate (Z.to_nat NUMBER_WORDS_PER_SET) 0))
  else clear (mkNodeSet size len (replicate (Z.to_nat len) 0)).

(** [Set(int size)]. *)
Definition Set_sized (size : Z) : outcome NodeSet := cassert (0 <? size);; setSize size.

(** [Set()]. *)
Definition Set_new (cfg : RubyConfig) : outcome NodeSet := setSize (numberOfProcessors cfg).

(** One pass over the words of two sets. *)
Definition zip_words (f : Z → Z → Z) (len : Z) (a b c : list Z) : outcome (list Z) :=
  for_range 0 len (fun i acc => x ← aread a i; y ← aread b i; awrite acc i (f x y)) c.

(** The copy constructor and [operator=]. *)
Definition Set_copy (s : NodeSet) : outcome NodeSet :=
  t ← setSize (m_nSize s);
  a ← zip_words (fun x _ => x) (m_nArrayLen t) (m_p_nArray s) (m_p_nArray s) (m_p_nArray t);
  mret (set_words t a).

Definition getSize (s : NodeSet) : Z := m_nSize s.

Definition add (s : NodeSet) (index : Z) : outcome NodeSet :=
  w ← aread (m_p_nArray s) (Z.shiftr index 6);
  a ← awrite (m_p_nArray s) (Z.shiftr index 6) (Z.lor w (bit (low6 index)));
  mret (set_words s a).

Definition remove (s : NodeSet) (index : Z) : outcome NodeSet :=
  w ← aread (m_p_nArray s) (Z.shiftr index 6);
  a ← awrite (m_p_nArray s) (Z.shiftr index 6) (Z.land w (Z.lnot (bit (low6 index))));
  mret (set_words s a).

Definition isElement (s : NodeSet) (element : Z) : outcome bool :=
  w ← aread (m_p_nArray s) (Z.shiftr element 6);
  mret (negb (Z.land w (bit (low6 element)) =? 0)).

(** [elementAt] answers with the boolean itself. *)
Definition elementAt (s : NodeSet) (index : Z) : outcome Z :=
  b ← isElement s index; mret (if b : bool then 1 else 0).

Definition addSet (s set : NodeSet) : outcome NodeSet :=
  cassert (getSize s =? getSize set);;
  a ← zip_words Z.lor (m_nArrayLen s) (m_p_nArray s) (m_p_nArray set) (m_p_nArray s);
  mret (set_words s a).

Definition removeSet (s set : NodeSet) : outcome NodeSet :=
  cassert (m_nSize s =? m_nSize set);;
  a ← zip_words (fun x y => Z.land x (Z.lnot y)) (m_nArrayLen s)
        (m_p_nArray s) (m_p_nArray set) (m_p_nArray s);
  mret (set_words s a).

(** The loop that clears the bits of the last word beyond the size. *)
Definition trim_last (s : NodeSet) (a : list Z) : outcome (list Z) :=
  if negb (Z.rem (m_nSize s) 64 =? 0) then
    r ← for_range 0 (64 - low6 (m_nSize s))
          (fun _ st => w ← aread (fst st) (m_nArrayLen s - 1);
                       a' ← awrite (fst st) (m_nArrayLen s - 1) (Z.land w (snd st));
                       mret (a', Z.shiftr (snd st) 1))
          (a, 2 ^ 63 - 1);
    mret (fst r)
  else mret a.

(** [addRandom]; [rnd i] is the [i]-th word's [random() ^ (random() << 4)]. *)
Definition addRandom (s : NodeSet) (rnd : Z → Z) : outcome NodeSet :=
  a ← for_range 0 (m_nArrayLen s)
        (fun i a => w ← aread a i; awrite a i (Z.lor w (s64 (rnd i)))) (m_p_nArray s);
  a ← trim_last s a;
  mret (set_words s a).

Definition broadcast (s : NodeSet) : outcome NodeSet :=
  a ← for_range 0 (m_nArrayLen s) (fun i a => awrite a i (-1)) (m_p_nArray s);
  a ← trim_last s a;
  mret (set_words s a).

Definition count (s : NodeSet) : outcome Z :=
  for_range 0 (m_nArrayLen s)
    (fun i counter =>
       r ← for_range 0 64
             (fun _ st => w ← aread (m_p_nArray s) i;
                          mret (if negb (Z.land w (snd st) =? 0) then fst st + 1 else fst st,
                                s64 (Z.shiftl (snd st) 1)))
             (counter, 1);
       mret (fst r)) 0.

(** A loop over the words of two sets that returns at the first word pair
    failing [p]. *)
Fixpoint all_words (p : Z → Z → bool) (n : nat) (i : Z) (a b : list Z) : outcome bool :=
  match n with
  | O => Ok true
  | S n' =>
      x ← aread a i; y ← aread b i;
      if p x y then all_words p n' (i + 1) a b else Ok false
  end.
Definition words_agree (p : Z → Z → bool) (s t : NodeSet) : outcome bool :=
  all_words p (Z.to_nat (m_nArrayLen s)) 0 (m_p_nArray s) (m_p_nArray t).

Definition isEqual (s set : NodeSet) : outcome bool :=
  cassert (m_nSize s =? m_nSize set);; words_agree Z.eqb s set.

Definition isEmpty (s : NodeSet) : outcome bool := words_agree (fun x _ => x =? 0) s s.

Definition intersectionIsEmpty (s other : NodeSet) : outcome bool :=
  words_agree (fun x y => Z.land x y =? 0) s other.
Definition intersectionIsNotEmpty (s other : NodeSet) : outcome bool :=
  b ← words_agree (fun x y => Z.land x y =? 0) s other; mret (negb b).

Definition isSuperset (s test : NodeSet) : outcome bool :=
  cassert (m_nSize s =? m_nSize test);;
  words_agree (fun x y => Z.lor (Z.land y x) (Z.lnot y) =? -1) s test.
Definition isSubset (s test : NodeSet) : outcome bool := isSuperset test s.

Definition OR (s orSet : NodeSet) : outcome NodeSet :=
  result ← Set_sized (m_nSize s);
  cassert (m_nSize s =? m_nSize orSet);;
  a ← zip_words Z.lor (m_nArrayLen s) (m_p_nArray s) (m_p_nArray orSet) (m_p_nArray result);
  mret (set_words result a).

Definition AND (s andSet : NodeSet) : outcome NodeSet :=
  result ← Set_sized (m_nSize s);
  cassert (m_nSize s =? m_nSize andSet);;
  a ← zip_words Z.land (m_nArrayLen s) (m_p_nArray s) (m_p_nArray andSet) (m_p_nArray result);
  mret (set_words result a).

(** The bits of the last word, for [isBroadcast]. *)
Fixpoint all_bits (n : nat) (w mask : Z) : bool :=
  match n with
  | O => true
  | S n' => if Z.land mask w =? 0 then false else all_bits n' w (s64 (Z.shiftl mask 1))
  end.

Definition isBroadcast (s : NodeSet) : outcome bool :=
  let full := if Z.rem (m_nSize s) 64 =? 0 then m_nArrayLen s else m_nArrayLen s - 1 in
  b ← all_words (fun x _ => x =? -1) (Z.to_nat full) 0 (m_p_nArray s) (m_p_nArray s);
  if negb b then mret false
  else if 0 <? Z.rem (m_nSize s) 64 then
    w ← aread (m_p_nArray s) (m_nArrayLen s - 1);
    mret (all_bits (Z.to_nat (Z.rem (m_nSize s) 64)) w 1)
  else mret true.

(** The two loops of [smallestElement]. *)
Fixpoint first_bit (n : nat) (j x : Z) : option Z :=
  match n with
  | O => None
  | S n' => if negb (Z.land x 1 =? 0) then Some j else first_bit n' (j + 1) (Z.shiftr x 1)
  end.
Fixpoint first_word (n : nat) (i : Z) (a : list Z) : outcome Z :=
  match n with
  | O => Err ErrorMsg
  | S n' =>
      w ← aread a i;
      if negb (w =? 0) then
        match first_bit 64 0 w with Some j => Ok (64 * i + j) | None => Err ErrorMsg end
      else first_word n' (i + 1) a
  end.
Definition smallestElement (s : NodeSet) : outcome Z :=
  c ← count s;
  cassert (0 <? c);;
  first_word (Z.to_nat (m_nArrayLen s)) 0 (m_p_nArray s).

(** * Bits *)

(** Bit [i] of the array. *)
Definition bit_at (a : list Z) (i : Z) : bool :=
  match zread a (i / 64) with Some w => Z.testbit w (i mod 64) | None => false end.

Lemma low6_val i : low6 i = i mod 64.
Proof. apply (Z.land_ones i 6). lia. Qed.

Lemma word_index i : Z.shiftr i 6 = i / 64.
Proof. by rewrite Z.shiftr_div_pow2 by lia. Qed.

Lemma bit_testbit k j : 0 <= k < 64 -> 0 <= j < 64 -> Z.testbit (bit k) j = (j =? k).
Proof.
  intros Hk Hj. unfold bit. rewrite swrap_testbit, Z.shiftl_spec by lia.
  destruct (Z.eqb_spec j k) as [->|]; [by rewrite Z.sub_diag|].
  destruct (Z.lt_ge_cases j k); [apply Z.testbit_neg_r; lia|]. apply (testbit_above 1 1); lia.
Qed.

Lemma in_word_bit k : in_word (bit k).
Proof. apply in_word_swrap. Qed.
#[export] Hint Resolve in_word_bit : ruby.

Lemma word_zero w : in_word w -> (w =? 0) = true <-> forall j, 0 <= j < 64 -> Z.testbit w j = false.
Proof.
  intros Hw. rewrite Z.eqb_eq. split; [intros -> j _; apply Z.bits_0|].
  intros H. apply word_ext; [done|unfold in_word; lia|]. intros j Hj. by rewrite H, Z.bits_0.
Qed.

Lemma word_ones w : in_word w -> (w =? -1) = true <-> forall j, 0 <= j < 64 -> Z.testbit w j = true.
Proof.
  intros Hw. rewrite Z.eqb_eq. split; [intros -> j Hj; apply Z.bits_m1; lia|].
  intros H. apply word_ext; [done|unfold in_word; lia|]. intros j Hj. by rewrite H, Z.bits_m1 by lia.
Qed.

Lemma land_bit_test w k : in_word w -> 0 <= k < 64 -> negb (Z.land w (bit k) =? 0) = Z.testbit w k.
Proof.
  intros Hw Hk. destruct (Z.testbit w k) eqn:E.
  - apply negb_true_iff, not_true_iff_false. rewrite word_zero by auto with ruby.
    intros H. specialize (H k Hk). rewrite Z.land_spec, bit_testbit, Z.eqb_refl, E in H by done. done.
  - apply negb_false_iff, word_zero; [auto with ruby|]. intros j Hj.
    rewrite Z.land_spec, bit_testbit by done. destruct (Z.eqb_spec j k) as [->|]; by rewrite ?E, ?andb_false_r.
Qed.

(** * Well-formed sets *)

Record set_wf (s : NodeSet) : Prop := {
  sw_size : 0 <= m_nSize s < 2 ^ 31;
  sw_len : m_nArrayLen s = (m_nSize s + 63) / 64;
  sw_block : m_nArrayLen s <= zlen (m_p_nArray s);
  sw_words : Forall in_word (m_p_nArray s);
  sw_extra i : m_nSize s <= i < 64 * m_nArrayLen s -> bit_at (m_p_nArray s) i = false;
}.

(** [s] represents the set of numbers [X]. *)
Definition represents (s : NodeSet) (X : gset Z) : Prop :=
  set_wf s /\ forall i, i ∈ X <-> 0 <= i < m_nSize s /\ bit_at (m_p_nArray s) i = true.

Lemma word_at s i :
  set_wf s -> 0 <= i < m_nArrayLen s -> exists w, zread (m_p_nArray s) i = Some w /\
    aread (m_p_nArray s) i = Ok w /\ in_word w /\
    forall j, 0 <= j < 64 -> Z.testbit w j = bit_at (m_p_nArray s) (64 * i + j).
Proof.
  intros Hs Hi. destruct (aread_in (m_p_nArray s) i) as (w & Hw & Ew); [pose proof (sw_block _ Hs); lia|].
  exists w. split_and!; [done|done| |].
  - pose proof (sw_words _ Hs) as Hf. rewrite Forall_forall in Hf. apply Hf. by apply zread_elem_of in Hw.
  - intros j Hj. unfold bit_at. replace ((64 * i + j) / 64) with i by lia.
    replace ((64 * i + j) mod 64) with j by lia. by rewrite Hw.
Qed.

Lemma represents_intro s X n a :
  0 <= n < 2 ^ 31 -> s = mkNodeSet n ((n + 63) / 64) a -> (n + 63) / 64 <= zlen a -> Forall in_word a ->
  (forall i, 0 <= i < 64 * ((n + 63) / 64) -> bit_at a i = true <-> i ∈ X) ->
  (forall i, i ∈ X -> 0 <= i < n) -> represents s X.
Proof.
  intros Hn -> Hl Hw Hb HX. split.
  - split; simpl; try done. intros i Hi. apply not_true_iff_false. rewrite Hb by lia.
    intros H%HX. lia.
  - intros i. simpl. split; [|intros [Hi H]; apply Hb; [lia|done]].
    intros H. pose proof (HX i H). split; [done|]. by apply Hb; [lia|].
Qed.

Lemma represents_bit s X i :
  represents s X -> 0 <= i < 64 * m_nArrayLen s -> bit_at (m_p_nArray s) i = true <-> i ∈ X.
Proof.
  intros [Hs HX] Hi. rewrite HX. split; [|tauto]. intros Hb. split; [|done].
  split; [lia|]. destruct (Z.lt_ge_cases i (m_nSize s)); [done|].
  rewrite (sw_extra _ Hs) in Hb by lia. done.
Qed.

Lemma represents_range s X i : represents s X -> i ∈ X -> 0 <= i < m_nSize s.
Proof. intros [_ HX] Hi%HX. tauto. Qed.

(** Shape of a well-formed set, for rebuilding it with other words. *)
Lemma set_wf_shape s : set_wf s -> s = mkNodeSet (m_nSize s) ((m_nSize s + 63) / 64) (m_p_nArray s).
Proof. intros Hs. destruct s as [n len a]. simpl. f_equal. apply (sw_len _ Hs). Qed.

Lemma represents_words s X Y a :
  represents s X -> zlen a = zlen (m_p_nArray s) -> Forall in_word a ->
  (forall i, 0 <= i < 64 * m_nArrayLen s -> bit_at a i = true <-> i ∈ Y) ->
  (forall i, i ∈ Y -> 0 <= i < m_nSize s) -> represents (set_words s a) Y.
Proof.
  intros [Hs _] Hl Hw Hb HY. pose proof (sw_len _ Hs) as El.
  apply (represents_intro _ _ (m_nSize s) a); try done; [apply Hs| | |by rewrite <- El].
  - unfold set_words. by rewrite El.
  - rewrite Hl, <- El. apply Hs.
Qed.

Lemma represents_ext s X Y : (forall i, i ∈ X <-> i ∈ Y) -> represents s X -> represents s Y.
Proof. intros H [Hs HX]. split; [done|]. intros i. by rewrite <- H, HX. Qed.

(** * One pass over the words *)

Lemma Forall_zwrite {P : Z → Prop} (l : list Z) i x : Forall P l -> P x -> Forall P (zwrite l i x).
Proof. intros Hl Hx. unfold zwrite. destruct (0 <=? i); [|done]. by apply Forall_insert. Qed.

(** A loop that writes [g i] to word [i]. *)
Lemma write_words_spec len (a : list Z) (body : Z → list Z → outcome (list Z)) (g : Z → Z) :
  0 <= len <= zlen a ->
  (forall i b, 0 <= i < len -> zlen b = zlen a -> zread b i = zread a i ->
     body i b = Ok (zwrite b i (g i))) ->
  exists a', for_range 0 len body a = Ok a' /\ zlen a' = zlen a /\
    (forall i, 0 <= i < len -> zread a' i = Some (g i)) /\
    (forall i, len <= i -> zread a' i = zread a i).
Proof.
  intros Hlen Hbody.
  destruct (for_range_inv (fun k b => zlen b = zlen a /\
      (forall i, 0 <= i < k -> zread b i = Some (g i)) /\ forall i, k <= i -> zread b i = zread a i)
    0 len body a) as (a' & E & Hl & H1 & H2); [lia| | |by exists a'].
  - split_and!; [done|lia|done].
  - intros i b Hi (Hl & H1 & H2). exists (zwrite b i (g i)).
    split; [apply Hbody; [lia|done|by apply H2]|]. split_and!.
    + by rewrite zlen_zwrite.
    + intros j Hj. rewrite zread_zwrite by lia. destruct (Z.eqb_spec i j) as [->|]; [done|].
      apply H1. lia.
    + intros j Hj. rewrite zread_zwrite_ne by lia. apply H2. lia.
Qed.

(** ... and what it does to the bits, when word [i] gets the bits [F]. *)
Lemma write_words_bits len (a : list Z) body (g : Z → Z) (F : Z → bool) :
  0 <= len <= zlen a -> Forall in_word a ->
  (forall i b, 0 <= i < len -> zlen b = zlen a -> zread b i = zread a i ->
     body i b = Ok (zwrite b i (g i))) ->
  (forall i, 0 <= i < len -> in_word (g i)) ->
  (forall i j, 0 <= i < len -> 0 <= j < 64 -> Z.testbit (g i) j = F (64 * i + j)) ->
  exists a', for_range 0 len body a = Ok a' /\ zlen a' = zlen a /\ Forall in_word a' /\
    forall i, 0 <= i < 64 * len -> bit_at a' i = F i.
Proof.
  intros Hlen Ha Hbody Hg HF.
  destruct (write_words_spec len a body g Hlen Hbody) as (a' & E & Hl & H1 & H2).
  exists a'. split_and!; [done|done| |].
  - apply Forall_forall. intros w (i & Hi & Hw)%elem_of_zread. destruct (Z.lt_ge_cases i len).
    + rewrite H1 in Hw by lia. injection Hw as <-. by apply Hg; lia.
    + rewrite H2 in Hw by lia. rewrite Forall_forall in Ha. apply Ha. by apply zread_elem_of in Hw.
  - intros i Hi. unfold bit_at. rewrite H1 by lia. rewrite HF by lia. f_equal. lia.
Qed.

Lemma zip_words_bits f (G : bool → bool → bool) s X t Y c :
  represents s X -> represents t Y -> m_nSize s = m_nSize t ->
  m_nArrayLen s <= zlen c -> Forall in_word c ->
  (forall x y, in_word x -> in_word y -> in_word (f x y)) ->
  (forall x y j, 0 <= j -> Z.testbit (f x y) j = G (Z.testbit x j) (Z.testbit y j)) ->
  exists a, zip_words f (m_nArrayLen s) (m_p_nArray s) (m_p_nArray t) c = Ok a /\
    zlen a = zlen c /\ Forall in_word a /\
    forall i, 0 <= i < 64 * m_nArrayLen s ->
      bit_at a i = G (bit_at (m_p_nArray s) i) (bit_at (m_p_nArray t) i).
Proof.
  intros [Hs _] [Ht _] Hn Hc Hcw Hf HG. unfold zip_words.
  pose proof (sw_len _ Hs) as El. pose proof (sw_len _ Ht) as El'. pose proof (sw_size _ Hs).
  assert (m_nArrayLen t = m_nArrayLen s) as Elt by (rewrite El, El', Hn; done).
  apply (write_words_bits (m_nArrayLen s) c _
    (fun i => f (default 0 (zread (m_p_nArray s) i)) (default 0 (zread (m_p_nArray t) i)))).
  - split; [rewrite El|]; lia.
  - done.
  - intros i b Hi Hl _. destruct (word_at s i Hs Hi) as (x & Hx & -> & _).
    destruct (word_at t i Ht) as (y & Hy & -> & _); [lia|]. rewrite !bind_of_ok, Hx, Hy.
    apply awrite_in. lia.
  - intros i Hi. destruct (word_at s i Hs Hi) as (x & Hx & _ & Hxw & _).
    destruct (word_at t i Ht) as (y & Hy & _ & Hyw & _); [lia|]. rewrite Hx, Hy. by apply Hf.
  - intros i j Hi Hj. destruct (word_at s i Hs Hi) as (x & Hx & _ & _ & Hxb).
    destruct (word_at t i Ht) as (y & Hy & _ & _ & Hyb); [lia|]. rewrite Hx, Hy. simpl.
    by rewrite HG, Hxb, Hyb by lia.
Qed.

(** * Construction *)

Lemma bit_at_range (a : list Z) i : bit_at a i = true -> 0 <= i / 64 < zlen a.
Proof. unfold bit_at. destruct (zread a (i / 64)) eqn:E; [|done]. intros _. by apply zread_range in E. Qed.

Lemma Set_setSize_spec n : 0 <= n < 2 ^ 31 -> exists s, setSize n = Ok s /\ m_nSize s = n /\ represents s ∅.
Proof.
  intros Hn. unfold setSize, NUMBER_WORDS_PER_SET.
  assert (Z.quot n 64 + (if Z.rem n 64 =? 0 then 0 else 1) = (n + 63) / 64) as ->.
  { rewrite Z.quot_div_nonneg, Z.rem_mod_nonneg by lia. destruct (Z.eqb_spec (n mod 64) 0); lia. }
  set (len := (n + 63) / 64). assert (0 <= len) by (unfold len; lia).
  assert (forall k, len <= k -> exists s,
    clear (mkNodeSet n len (replicate (Z.to_nat k) 0)) = Ok s /\ m_nSize s = n /\ represents s ∅) as Hk.
  { intros k Hk. unfold clear. simpl.
    destruct (write_words_bits len (replicate (Z.to_nat k) 0) (fun i a => awrite a i 0)
                (fun _ => 0) (fun _ => false)) as (a & -> & Hl & Hw & Hb).
    - rewrite zlen_replicate by lia. lia.
    - apply Forall_replicate. unfold in_word. lia.
    - intros i b Hi Hl _. apply awrite_in. rewrite Hl, zlen_replicate by lia. lia.
    - intros _ _. unfold in_word. lia.
    - intros i j _ _. apply Z.bits_0.
    - rewrite bind_of_ok. eexists. split; [done|]. split; [done|].
      apply (represents_intro _ _ n a); try done.
      + rewrite Hl, zlen_replicate by lia. done.
      + intros i Hi. rewrite Hb by done. set_solver. }
  destruct (Z.leb_spec len 4); apply Hk; lia.
Qed.

Lemma Set_sized_spec n :
  0 < n < 2 ^ 31 -> exists s, Set_sized n = Ok s /\ m_nSize s = n /\ represents s ∅.
Proof.
  intros Hn. unfold Set_sized. rewrite cassert_true, bind_of_ok by (apply Z.ltb_lt; lia).
  apply Set_setSize_spec. lia.
Qed.

(** * Single elements *)

Lemma index_word s i : set_wf s -> 0 <= i < m_nSize s -> 0 <= i / 64 < m_nArrayLen s.
Proof. intros Hs Hi. rewrite (sw_len _ Hs). lia. Qed.

Lemma isElement_spec s X i :
  represents s X -> 0 <= i < m_nSize s -> isElement s i = Ok (bool_decide (i ∈ X)).
Proof.
  intros Hr Hi. pose proof (proj1 Hr) as Hs. pose proof (index_word s i Hs Hi) as Hw.
  unfold isElement. rewrite word_index, low6_val.
  destruct (word_at s (i / 64) Hs Hw) as (w & _ & -> & Hiw & Hb).
  rewrite bind_of_ok, land_bit_test, Hb by (done || lia).
  replace (64 * (i / 64) + i mod 64) with i by lia. unfold mret, outcome_ret. f_equal.
  apply eq_bool_prop_intro. rewrite bool_decide_spec, <- (represents_bit s X i Hr) by lia.
  by rewrite Is_true_true.
Qed.

(** Writing word [i / 64] with the bits [F]. *)
Lemma write_bit_spec s X Y i (f : Z → Z) :
  represents s X -> 0 <= i < m_nSize s ->
  (forall w, in_word w -> in_word (f w)) ->
  (forall w j, in_word w -> 0 <= j < 64 ->
     Z.testbit (f w) j = if j =? i mod 64 then bool_decide (i ∈ Y) else Z.testbit w j) ->
  (forall j, j <> i -> j ∈ Y <-> j ∈ X) ->
  exists s', (w ← aread (m_p_nArray s) (Z.shiftr i 6);
              a ← awrite (m_p_nArray s) (Z.shiftr i 6) (f w); mret (set_words s a)) = Ok s' /\
    m_nSize s' = m_nSize s /\ represents s' Y.
Proof.
  intros Hr Hi Hf Hbits HY. pose proof (proj1 Hr) as Hs. pose proof (index_word s i Hs Hi) as Hw.
  rewrite word_index. destruct (word_at s (i / 64) Hs Hw) as (w & Hz & -> & Hiw & Hb).
  rewrite bind_of_ok. pose proof (sw_block _ Hs). rewrite awrite_in, bind_of_ok by lia.
  eexists. split; [done|]. split; [done|].
  apply (represents_words s X); [done|apply zlen_zwrite| | |].
  - apply Forall_zwrite; [apply Hs|by apply Hf].
  - intros j Hj. unfold bit_at. rewrite zread_zwrite by lia.
    destruct (Z.eqb_spec (i / 64) (j / 64)) as [E|E].
    + rewrite Hbits by (done || lia). destruct (Z.eqb_spec (j mod 64) (i mod 64)).
      * replace j with i by lia. apply bool_decide_eq_true.
      * rewrite HY by congruence. rewrite Hb by lia.
        replace (64 * (i / 64) + j mod 64) with j by lia. by apply represents_bit.
    + rewrite HY by congruence. by apply (represents_bit s X j).
  - intros j Hj. destruct (Z.eq_dec j i) as [->|]; [done|]. apply (represents_range s X); [done|].
    by apply HY.
Qed.

Lemma add_spec s X i :
  represents s X -> 0 <= i < m_nSize s ->
  exists s', add s i = Ok s' /\ m_nSize s' = m_nSize s /\ represents s' ({[i]} ∪ X).
Proof.
  intros Hr Hi. apply (write_bit_spec s X _ i (fun w => Z.lor w (bit (low6 i)))); [done|done| | |].
  - auto with ruby.
  - intros w j Hw Hj. rewrite Z.lor_spec, low6_val, bit_testbit by lia.
    rewrite bool_decide_eq_true_2 by set_solver. by destruct (Z.eqb_spec j (i mod 64)); rewrite ?orb_true_r, ?orb_false_r.
  - set_solver.
Qed.

Lemma remove_spec s X i :
  represents s X -> 0 <= i < m_nSize s ->
  exists s', remove s i = Ok s' /\ m_nSize s' = m_nSize s /\ represents s' (X ∖ {[i]}).
Proof.
  intros Hr Hi.
  apply (write_bit_spec s X _ i (fun w => Z.land w (Z.lnot (bit (low6 i))))); [done|done| | |].
  - auto with ruby.
  - intros w j Hw Hj. rewrite Z.land_spec, Z.lnot_spec, low6_val, bit_testbit by lia.
    rewrite bool_decide_eq_false_2 by set_solver.
    by destruct (Z.eqb_spec j (i mod 64)); simpl; rewrite ?andb_true_r, ?andb_false_r.
  - set_solver.
Qed.

(** * Whole sets *)

Lemma same_size_len s t : set_wf s -> set_wf t -> m_nSize s = m_nSize t -> m_nArrayLen s = m_nArrayLen t.
Proof. intros Hs Ht E. by rewrite (sw_len _ Hs), (sw_len _ Ht), E. Qed.

(** The binary operations: [G] is what they do to one bit, [Z] to the sets. *)
Lemma zip_represents f (G : bool → bool → bool) s X t Y r R V :
  represents s X -> represents t Y -> represents r R -> m_nSize s = m_nSize t -> m_nSize r = m_nSize s ->
  (forall x y, in_word x -> in_word y -> in_word (f x y)) ->
  (forall x y j, 0 <= j -> Z.testbit (f x y) j = G (Z.testbit x j) (Z.testbit y j)) ->
  (forall i, i ∈ V <-> G (bool_decide (i ∈ X)) (bool_decide (i ∈ Y)) = true) -> G false false = false ->
  exists a, zip_words f (m_nArrayLen s) (m_p_nArray s) (m_p_nArray t) (m_p_nArray r) = Ok a /\
    represents (set_words r a) V.
Proof.
  intros Hs Ht Hr Hst Hrs Hf HG HV HG0.
  assert (m_nArrayLen r = m_nArrayLen s) as El by (apply same_size_len; [apply Hr|apply Hs|done]).
  assert (m_nArrayLen t = m_nArrayLen s) as El' by (apply same_size_len; [apply Ht|apply Hs|done]).
  destruct (zip_words_bits f G s X t Y (m_p_nArray r)) as (a & Ea & Hl & Hw & Hb); try done.
  { rewrite <- El. apply Hr. } { apply Hr. }
  exists a. split; [done|]. apply (represents_words r R); [done|done|done| |].
  - intros i Hi. rewrite Hb by lia. rewrite HV.
    assert (bit_at (m_p_nArray s) i = bool_decide (i ∈ X)) as ->.
    { apply eq_bool_prop_intro. rewrite bool_decide_spec, <- (represents_bit s X i Hs) by lia.
      by rewrite Is_true_true. }
    assert (bit_at (m_p_nArray t) i = bool_decide (i ∈ Y)) as ->; [|done].
    apply eq_bool_prop_intro. rewrite bool_decide_spec, <- (represents_bit t Y i Ht) by lia.
    by rewrite Is_true_true.
  - intros i Hi. rewrite HV in Hi. destruct (bool_decide_reflect (i ∈ X)) as [HX|HX].
    + apply (represents_range _ _ _ Hs) in HX. lia.
    + destruct (bool_decide_reflect (i ∈ Y)) as [HY|HY]; [|congruence].
      apply (represents_range _ _ _ Ht) in HY. lia.
Qed.

Section binary.
  Context s X t Y (Hs : represents s X) (Ht : represents t Y) (Hn : m_nSize s = m_nSize t).

Lemma addSet_spec :
  exists s', addSet s t = Ok s' /\ m_nSize s' = m_nSize s /\ represents s' (X ∪ Y).
Proof.
  unfold addSet, getSize. rewrite cassert_true, bind_of_ok by (by apply Z.eqb_eq).
  destruct (zip_represents Z.lor orb s X t Y s X (X ∪ Y)) as (a & -> & Ha); try done; auto with ruby.
  - intros. apply Z.lor_spec.
  - intros i. rewrite orb_true_iff, !bool_decide_eq_true. set_solver.
  - rewrite bind_of_ok. by eexists.
Qed.

Lemma removeSet_spec :
  exists s', removeSet s t = Ok s' /\ m_nSize s' = m_nSize s /\ represents s' (X ∖ Y).
Proof.
  unfold removeSet. rewrite cassert_true, bind_of_ok by (by apply Z.eqb_eq).
  destruct (zip_represents (fun x y => Z.land x (Z.lnot y)) (fun a b => a && negb b) s X t Y s X (X ∖ Y))
    as (a & -> & Ha); try done; auto with ruby.
  - intros. by rewrite Z.land_spec, Z.lnot_spec.
  - intros i. rewrite andb_true_iff, negb_true_iff, bool_decide_eq_true, bool_decide_eq_false. set_solver.
  - rewrite bind_of_ok. by eexists.
Qed.

Lemma OR_spec : 0 < m_nSize s ->
  exists s', OR s t = Ok s' /\ m_nSize s' = m_nSize s /\ represents s' (X ∪ Y).
Proof.
  intros Hpos. destruct (Set_sized_spec (m_nSize s)) as (r & Er & Hr & HR).
  { pose proof (sw_size _ (proj1 Hs)). lia. }
  unfold OR. rewrite Er, bind_of_ok, cassert_true, bind_of_ok by (by apply Z.eqb_eq).
  destruct (zip_represents Z.lor orb s X t Y r ∅ (X ∪ Y)) as (a & -> & Ha); try done; auto with ruby.
  - intros. apply Z.lor_spec.
  - intros i. rewrite orb_true_iff, !bool_decide_eq_true. set_solver.
  - rewrite bind_of_ok. by eexists.
Qed.

Lemma AND_spec : 0 < m_nSize s ->
  exists s', AND s t = Ok s' /\ m_nSize s' = m_nSize s /\ represents s' (X ∩ Y).
Proof.
  intros Hpos. destruct (Set_sized_spec (m_nSize s)) as (r & Er & Hr & HR).
  { pose proof (sw_size _ (proj1 Hs)). lia. }
  unfold AND. rewrite Er, bind_of_ok, cassert_true, bind_of_ok by (by apply Z.eqb_eq).
  destruct (zip_represents Z.land andb s X t Y r ∅ (X ∩ Y)) as (a & -> & Ha); try done; auto with ruby.
  - intros. apply Z.land_spec.
  - intros i. rewrite andb_true_iff, !bool_decide_eq_true. set_solver.
  - rewrite bind_of_ok. by eexists.
Qed.

(** The queries compare word by word: [p] holds of two words iff [P] holds of
    each pair of bits. *)
Lemma all_words_spec (p : Z → Z → bool) (P : bool → bool → Prop) n i :
  (forall x y, in_word x -> in_word y ->
     p x y = true <-> forall j, 0 <= j < 64 -> P (Z.testbit x j) (Z.testbit y j)) ->
  0 <= i -> i + Z.of_nat n <= m_nArrayLen s ->
  exists b, all_words p n i (m_p_nArray s) (m_p_nArray t) = Ok b /\
    (b = true <-> forall k, 64 * i <= k < 64 * (i + Z.of_nat n) ->
       P (bit_at (m_p_nArray s) k) (bit_at (m_p_nArray t) k)).
Proof.
  intros Hp. pose proof (proj1 Hs) as Hsw. pose proof (proj1 Ht) as Htw.
  assert (m_nArrayLen t = m_nArrayLen s) as El by (symmetry; by apply same_size_len).
  revert i. induction n as [|n IH]; intros i Hi Hn'; cbn [all_words].
  { exists true. split; [done|]. split; [|done]. intros _ k Hk. lia. }
  destruct (word_at s i Hsw) as (x & _ & -> & Hx & Hxb); [lia|].
  destruct (word_at t i Htw) as (y & _ & -> & Hy & Hyb); [lia|]. rewrite !bind_of_ok.
  specialize (Hp x y Hx Hy). destruct (p x y).
  - destruct (IH (i + 1)) as (b & -> & Hb); [lia|lia|]. exists b. split; [done|]. rewrite Hb.
    split; intros H k Hk; [|apply H; lia]. destruct (Z.lt_ge_cases k (64 * (i + 1))); [|apply H; lia].
    pose proof (proj1 Hp eq_refl (k - 64 * i) ltac:(lia)) as Hbit. rewrite Hxb, Hyb in Hbit by lia.
    by replace (64 * i + (k - 64 * i)) with k in Hbit by lia.
  - exists false. split; [done|]. split; [done|]. intros H. apply Hp. intros j Hj.
    rewrite Hxb, Hyb by lia. apply H. lia.
Qed.

(** The same, in terms of the sets. *)
Lemma words_agree_sets (p : Z → Z → bool) (P : bool → bool → Prop) (Q : Prop) `{!Decision Q} :
  (forall x y, in_word x -> in_word y ->
     p x y = true <-> forall j, 0 <= j < 64 -> P (Z.testbit x j) (Z.testbit y j)) ->
  P false false ->
  (Q <-> forall i, P (bool_decide (i ∈ X)) (bool_decide (i ∈ Y))) ->
  words_agree p s t = Ok (bool_decide Q).
Proof.
  intros Hp HP0 HQ. unfold words_agree. pose proof (sw_len _ (proj1 Hs)) as Hlen0.
  pose proof (sw_size _ (proj1 Hs)) as Hsz0.
  destruct (all_words_spec p P (Z.to_nat (m_nArrayLen s)) 0 Hp) as (b & -> & Hb); [lia|lia|]. f_equal.
  replace (64 * 0) with 0 in Hb by lia.
  replace (64 * (0 + Z.of_nat (Z.to_nat (m_nArrayLen s)))) with (64 * m_nArrayLen s) in Hb by lia.
  assert (m_nArrayLen t = m_nArrayLen s) as El
    by (symmetry; apply same_size_len; [apply Hs|apply Ht|done]).
  assert (forall i, 0 <= i < 64 * m_nArrayLen s -> bit_at (m_p_nArray s) i = bool_decide (i ∈ X) /\
            bit_at (m_p_nArray t) i = bool_decide (i ∈ Y)) as Hbits.
  { intros i Hi. split; apply eq_bool_prop_intro; rewrite bool_decide_spec.
    - rewrite <- (represents_bit s X i Hs) by lia. by rewrite Is_true_true.
    - rewrite <- (represents_bit t Y i Ht) by lia. by rewrite Is_true_true. }
  apply eq_bool_prop_intro. rewrite bool_decide_spec, Is_true_true, Hb, HQ.
  split; intros H i; [|intros Hi; destruct (Hbits i Hi) as [-> ->]; apply H].
  destruct (decide (0 <= i < 64 * m_nArrayLen s)) as [Hi|Hi].
  { destruct (Hbits i Hi) as [<- <-]. by apply H. }
  pose proof (sw_len _ (proj1 Hs)) as Hlen. pose proof (sw_size _ (proj1 Hs)).
  rewrite !bool_decide_eq_false_2; [done| |].
  - intros HY%(represents_range _ _ _ Ht). lia.
  - intros HX%(represents_range _ _ _ Hs). lia.
Qed.

Lemma isEqual_spec : isEqual s t = Ok (bool_decide (X = Y)).
Proof.
  unfold isEqual. rewrite cassert_true, bind_of_ok by (by apply Z.eqb_eq).
  apply (words_agree_sets _ eq); [| done|].
  - intros x y Hx Hy. rewrite Z.eqb_eq. split; [by intros ->|]. by apply word_ext.
  - split; [by intros ->|]. intros H. apply set_eq. intros i. specialize (H i).
    by destruct (bool_decide_reflect (i ∈ X)), (bool_decide_reflect (i ∈ Y)).
Qed.

Lemma isSuperset_spec : isSuperset s t = Ok (bool_decide (Y ⊆ X)).
Proof.
  unfold isSuperset. rewrite cassert_true, bind_of_ok by (by apply Z.eqb_eq).
  apply (words_agree_sets _ (fun a b => b = true -> a = true)); [|done|].
  - intros x y Hx Hy. rewrite word_ones by auto with ruby.
    split; intros H j Hj; specialize (H j Hj); revert H; rewrite Z.lor_spec, Z.land_spec, Z.lnot_spec by lia;
      destruct (Z.testbit x j), (Z.testbit y j); naive_solver.
  - setoid_rewrite bool_decide_eq_true. set_solver.
Qed.

Lemma disjoint_words : words_agree (fun x y => Z.land x y =? 0) s t = Ok (bool_decide (X ∩ Y = ∅)).
Proof.
  apply (words_agree_sets _ (fun a b => a && b = false)); [|done|].
  - intros x y Hx Hy. rewrite word_zero by auto with ruby.
    split; intros H j Hj; specialize (H j Hj); by rewrite ?Z.land_spec in *.
  - setoid_rewrite andb_false_iff. setoid_rewrite bool_decide_eq_false.
    split; [|set_solver]. intros H i. destruct (decide (i ∈ X)); [right|by left]. set_solver.
Qed.

End binary.

Lemma isEmpty_spec s X : represents s X -> isEmpty s = Ok (bool_decide (X = ∅)).
Proof.
  intros Hs. apply (words_agree_sets s X s X Hs Hs eq_refl _ (fun a _ => a = false)); [|done|].
  - intros x y Hx _. by apply word_zero.
  - setoid_rewrite bool_decide_eq_false. set_solver.
Qed.

(** * Broadcast *)

Definition all_nodes (n : Z) : gset Z := list_to_set (seqZ 0 n).

Lemma elem_of_all_nodes n i : i ∈ all_nodes n <-> 0 <= i < n.
Proof. unfold all_nodes. rewrite elem_of_list_to_set, elem_of_seqZ. lia. Qed.

Lemma mask_bits k i : 0 <= k -> 0 <= i -> Z.testbit (2 ^ k - 1) i = (i <? k).
Proof.
  intros Hk Hi. rewrite Z.sub_1_r, <- Z.ones_equiv.
  destruct (Z.ltb_spec i k); [apply Z.ones_spec_low|apply Z.ones_spec_high]; lia.
Qed.

(** The trimming loop keeps the bits below the size, and only those. *)
Lemma trim_last_spec s a :
  0 < m_nSize s < 2 ^ 31 -> m_nArrayLen s = (m_nSize s + 63) / 64 ->
  m_nArrayLen s <= zlen a -> Forall in_word a ->
  exists a', trim_last s a = Ok a' /\ zlen a' = zlen a /\ Forall in_word a' /\
    forall i, 0 <= i < 64 * m_nArrayLen s -> bit_at a' i = (i <? m_nSize s) && bit_at a i.
Proof.
  intros Hn El Hl Ha. unfold trim_last. rewrite Z.rem_mod_nonneg, low6_val by lia.
  destruct (Z.eqb_spec (m_nSize s mod 64) 0) as [Hz|Hz]; simpl.
  { exists a. split_and!; try done. intros i Hi. by rewrite (proj2 (Z.ltb_lt _ _)) by lia. }
  set (r := m_nSize s mod 64) in *. set (last := m_nArrayLen s - 1).
  assert (0 <= last < zlen a) as Hlast by (unfold last; lia).
  destruct (for_range_inv (fun k st => 0 <= k <= 64 - r /\ zlen (fst st) = zlen a /\
      Forall in_word (fst st) /\ snd st = 2 ^ (63 - k) - 1 /\
      (forall i, i <> last -> zread (fst st) i = zread a i) /\
      (forall j, 0 <= j < 64 -> bit_at (fst st) (64 * last + j) =
         (if k =? 0 then true else j <? 64 - k) && bit_at a (64 * last + j)))
    0 (64 - r) (fun _ st => w ← aread (fst st) last; a' ← awrite (fst st) last (Z.land w (snd st));
                            mret (a', Z.shiftr (snd st) 1)) (a, 2 ^ 63 - 1))
    as ([a' m'] & E & _ & Hl' & Hw' & _ & Hne & Hlb).
  - unfold r. lia.
  - split_and!; try done; unfold r; lia.
  - intros k [b m] Hk (_ & Hlb & Hwb & -> & Hne & Hbits). cbn [fst snd] in *.
    destruct (aread_in b last) as (w & Hw & ->); [lia|]. rewrite bind_of_ok.
    rewrite awrite_in, bind_of_ok by lia. eexists. split; [done|]. cbn [fst snd].
    assert (in_word w) as Hww by (rewrite Forall_forall in Hwb; by apply Hwb, (zread_elem_of b last)).
    assert (in_word (2 ^ (63 - k) - 1)) as Hmw.
    { unfold in_word. assert (2 ^ (63 - k) <= 2 ^ 63) by (apply Z.pow_le_mono_r; lia).
      pose proof (Z.pow_pos_nonneg 2 (63 - k)). lia. }
    split_and!.
    + lia.
    + lia.
    + by rewrite zlen_zwrite.
    + apply Forall_zwrite; auto with ruby.
    + rewrite Z.shiftr_div_pow2, Z.pow_1_r by lia. replace (63 - k) with (Z.succ (63 - (k + 1))) by lia.
      rewrite Z.pow_succ_r by lia. lia.
    + intros i Hi. rewrite zread_zwrite_ne by done. by apply Hne.
    + intros j Hj. specialize (Hbits j Hj). unfold bit_at in Hbits |- *.
      replace ((64 * last + j) / 64) with last in * by lia.
      replace ((64 * last + j) mod 64) with j in * by lia.
      rewrite zread_zwrite_eq by lia. rewrite Hw in Hbits. rewrite Z.land_spec, mask_bits, Hbits by lia.
      rewrite (proj2 (Z.eqb_neq (k + 1) 0)) by lia.
      destruct (Z.eqb_spec k 0), (Z.ltb_spec j (63 - k)), (Z.ltb_spec j (64 - k)), (Z.ltb_spec j (64 - (k + 1)));
        simpl; rewrite ?andb_true_r, ?andb_false_r; (done || lia).
  - fold last r. rewrite E, bind_of_ok. cbn [fst snd] in *. exists a'. split_and!; [done|done|done|].
    intros i Hi. destruct (Z.eq_dec (i / 64) last) as [Ei|Ei].
    + specialize (Hlb (i mod 64) ltac:(lia)). replace (64 * last + i mod 64) with i in Hlb by lia.
      rewrite Hlb. f_equal. rewrite (proj2 (Z.eqb_neq (64 - r) 0)) by (unfold r; lia).
      apply eq_bool_prop_intro. rewrite !Is_true_true, !Z.ltb_lt. unfold r, last in *. lia.
    + rewrite (proj2 (Z.ltb_lt i (m_nSize s))) by (unfold last in *; lia).
      unfold bit_at. by rewrite Hne.
Qed.

Lemma broadcast_spec s X :
  represents s X -> 0 < m_nSize s ->
  exists s', broadcast s = Ok s' /\ m_nSize s' = m_nSize s /\ represents s' (all_nodes (m_nSize s)).
Proof.
  intros Hr Hpos. pose proof (proj1 Hr) as Hs. pose proof (sw_size _ Hs). pose proof (sw_len _ Hs) as El.
  pose proof (sw_block _ Hs). unfold broadcast.
  destruct (write_words_bits (m_nArrayLen s) (m_p_nArray s) (fun i a => awrite a i (-1))
              (fun _ => -1) (fun _ => true)) as (a & -> & Hl & Hw & Hb).
  - lia.
  - apply Hs.
  - intros i b Hi Hl _. apply awrite_in. lia.
  - intros _ _. unfold in_word. lia.
  - intros i j _ Hj. apply Z.bits_m1. lia.
  - rewrite bind_of_ok. destruct (trim_last_spec s a) as (a' & -> & Hl' & Hw' & Hb');
      [lia|done|lia|done|]. rewrite bind_of_ok. eexists. split; [done|]. split; [done|].
    apply (represents_words s X); [done|congruence|done| |].
    + intros i Hi. rewrite Hb', Hb, andb_true_r, Z.ltb_lt, elem_of_all_nodes by done. lia.
    + intros i. by rewrite elem_of_all_nodes.
Qed.

Lemma addRandom_spec s X rnd :
  represents s X -> 0 < m_nSize s ->
  exists s' Y, addRandom s rnd = Ok s' /\ m_nSize s' = m_nSize s /\ represents s' Y /\ X ⊆ Y.
Proof.
  intros Hr Hpos. pose proof (proj1 Hr) as Hs. pose proof (sw_size _ Hs). pose proof (sw_len _ Hs) as El.
  pose proof (sw_block _ Hs). unfold addRandom.
  destruct (write_words_bits (m_nArrayLen s) (m_p_nArray s)
      (fun i a => w ← aread a i; awrite a i (Z.lor w (s64 (rnd i))))
      (fun i => Z.lor (default 0 (zread (m_p_nArray s) i)) (s64 (rnd i)))
      (fun i => bit_at (m_p_nArray s) i || Z.testbit (s64 (rnd (i / 64))) (i mod 64)))
    as (a & -> & Hl & Hw & Hb).
  - lia.
  - apply Hs.
  - intros i b Hi Hl Hz. unfold aread. destruct (word_at s i Hs Hi) as (x & Hx & _). rewrite Hz, Hx, bind_of_ok.
    apply awrite_in. lia.
  - intros i Hi. destruct (word_at s i Hs Hi) as (x & -> & _ & Hx & _). simpl. auto with ruby.
  - intros i j Hi Hj. destruct (word_at s i Hs Hi) as (x & -> & _ & _ & Hx). simpl.
    rewrite Z.lor_spec, Hx by done.
    replace ((64 * i + j) / 64) with i by lia. by replace ((64 * i + j) mod 64) with j by lia.
  - rewrite bind_of_ok. destruct (trim_last_spec s a) as (a' & -> & Hl' & Hw' & Hb');
      [lia|done|lia|done|]. rewrite bind_of_ok.
    exists (set_words s a'), (filter (fun i => bit_at a' i = true) (all_nodes (m_nSize s))).
    split_and!; [done|done| |].
    + apply (represents_words s X); [done|congruence|done| |].
      * intros i Hi. rewrite elem_of_filter, elem_of_all_nodes. split; [|tauto].
        intros Hbi. split; [done|]. rewrite Hb' in Hbi by done. to_prop. lia.
      * intros i. rewrite elem_of_filter, elem_of_all_nodes. tauto.
    + intros i Hi. pose proof (represents_range _ _ _ Hr Hi).
      rewrite elem_of_filter, elem_of_all_nodes. split; [|done]. rewrite Hb', Hb by lia.
      rewrite (proj2 (Z.ltb_lt _ _)), (proj2 (represents_bit s X i Hr ltac:(lia)) Hi) by lia. done.
Qed.

Lemma all_bits_spec n w j :
  in_word w -> 0 <= j -> j + Z.of_nat n <= 64 ->
  all_bits n w (bit j) = true <-> forall k, j <= k < j + Z.of_nat n -> Z.testbit w k = true.
Proof.
  intros Hw. revert j. induction n as [|n IH]; intros j Hj Hn; cbn [all_bits]; [split; [lia|done]|].
  rewrite Z.land_comm. pose proof (land_bit_test w j Hw ltac:(lia)) as Ht.
  destruct (Z.land w (bit j) =? 0); simpl in Ht.
  - split; [done|]. intros H. rewrite <- (H j), <- Ht by lia. done.
  - destruct n as [|n].
    { split; [|done]. intros _ k Hk. by replace k with j by lia. }
    assert (s64 (Z.shiftl (bit j) 1) = bit (j + 1)) as ->.
    { unfold bit. rewrite !Z.shiftl_mul_pow2, !Z.mul_1_l, Z.pow_1_r by lia.
      assert (2 ^ j < 2 ^ 63) by (apply Z.pow_lt_mono_r; lia). pose proof (Z.pow_nonneg 2 j).
      by rewrite (swrap_small 64 (2 ^ j)), Z.pow_add_r, Z.pow_1_r by lia. }
    rewrite IH by lia. split; intros H k Hk; [|apply H; lia].
    destruct (Z.eq_dec k j) as [->|]; [done|]. apply H. lia.
Qed.

Lemma isBroadcast_spec s X :
  represents s X -> isBroadcast s = Ok (bool_decide (X = all_nodes (m_nSize s))).
Proof.
  intros Hr. pose proof (proj1 Hr) as Hs. pose proof (sw_size _ Hs). pose proof (sw_len _ Hs) as El.
  unfold isBroadcast. rewrite Z.rem_mod_nonneg by lia.
  set (full := if m_nSize s mod 64 =? 0 then m_nArrayLen s else m_nArrayLen s - 1).
  assert (full = m_nSize s / 64) as Hfull by (unfold full; destruct (Z.eqb_spec (m_nSize s mod 64) 0); lia).
  assert (forall b, (b = true <-> forall k, 0 <= k < m_nSize s -> bit_at (m_p_nArray s) k = true) ->
    Ok b = Ok (bool_decide (X = all_nodes (m_nSize s)))) as Hfin.
  { intros b Hb. f_equal. apply eq_bool_prop_intro. rewrite bool_decide_spec, Is_true_true, Hb.
    rewrite set_eq. setoid_rewrite elem_of_all_nodes. split.
    - intros H' i. split; [apply (represents_range _ _ _ Hr)|]. intros Hi.
      apply (represents_bit s X i Hr); [lia|by apply H'].
    - intros H' k Hk. apply (represents_bit s X k Hr); [lia|]. by apply H'. }
  destruct (all_words_spec s X s X Hr Hr eq_refl (fun x _ => x =? -1) (fun a _ => a = true)
              (Z.to_nat full) 0) as (b & -> & Hb).
  { intros x y Hx _. by apply word_ones. } { lia. } { lia. }
  replace (64 * 0) with 0 in Hb by lia. rewrite Z.add_0_l, Z2Nat.id in Hb by lia.
  rewrite bind_of_ok. destruct b; simpl.
  - destruct (Z.ltb_spec 0 (m_nSize s mod 64)).
    + destruct (word_at s (m_nArrayLen s - 1) Hs) as (w & _ & -> & Hw & Hwb); [lia|].
      rewrite bind_of_ok. apply Hfin. change 1 with (bit 0) at 1. rewrite all_bits_spec by (done || lia).
      split.
      * intros Hk k Hk'. destruct (Z.lt_ge_cases k (64 * full)); [apply Hb; [done|lia]|].
        specialize (Hk (k - 64 * full) ltac:(lia)). rewrite Hwb in Hk by lia.
        by replace (64 * (m_nArrayLen s - 1) + (k - 64 * full)) with k in Hk by lia.
      * intros Hk k Hk'. rewrite Hwb by lia. apply Hk. lia.
    + apply Hfin. split; [|done]. intros _ k Hk. apply Hb; [done|lia].
  - apply Hfin. split; [done|]. intros Hk. apply Hb. intros k Hk'. apply Hk. lia.
Qed.

(** * Counting *)

(** The number of [i < n] with [f i]. *)
Fixpoint count_upto (f : Z → bool) (n : nat) : Z :=
  match n with O => 0 | S n' => count_upto f n' + (if f (Z.of_nat n') then 1 else 0) end.

Lemma count_upto_ext f g n :
  (forall i, 0 <= i < Z.of_nat n -> f i = g i) -> count_upto f n = count_upto g n.
Proof.
  induction n as [|n IH]; intros H; simpl; [done|]. rewrite IH, H by (intros; try apply H; lia). done.
Qed.

Lemma count_upto_size (X : gset Z) n :
  (forall i, i ∈ X -> 0 <= i < Z.of_nat n) ->
  count_upto (fun i => bool_decide (i ∈ X)) n = Z.of_nat (size X).
Proof.
  revert X. induction n as [|n IH]; intros X HX.
  { assert (X = ∅) as ->; [|done]. apply set_eq. intros i. split; [|set_solver]. intros H%HX. lia. }
  cbn [count_upto]. rewrite (count_upto_ext _ (fun i => bool_decide (i ∈ X ∖ {[Z.of_nat n]}))).
  - rewrite IH.
    + destruct (bool_decide_reflect (Z.of_nat n ∈ X)) as [H|H].
      * rewrite size_difference by set_solver. rewrite size_singleton.
        assert (0 < size X)%nat; [|lia]. apply Nat.neq_0_lt_0. intros E%size_empty_inv. set_solver.
      * assert (X ∖ {[Z.of_nat n]} = X) as -> by set_solver. lia.
    + intros i Hi. assert (i ∈ X) as Hi' by set_solver. apply HX in Hi'.
      assert (i <> Z.of_nat n) by set_solver. lia.
  - intros i Hi. apply bool_decide_ext. assert (i <> Z.of_nat n) by lia. set_solver.
Qed.

Lemma count_upto_extend f n m :
  (n <= m)%nat -> (forall i, Z.of_nat n <= i < Z.of_nat m -> f i = false) ->
  count_upto f m = count_upto f n.
Proof.
  intros Hnm. induction Hnm as [|m Hnm IH]; intros Hf; [done|]. cbn [count_upto].
  rewrite Hf, IH by (intros; try apply Hf; lia). lia.
Qed.

Lemma count_spec s X : represents s X -> count s = Ok (Z.of_nat (size X)).
Proof.
  intros Hr. pose proof (proj1 Hr) as Hs. pose proof (sw_len _ Hs) as El. pose proof (sw_size _ Hs).
  set (f := bit_at (m_p_nArray s)). unfold count.
  destruct (for_range_inv (fun i c => 0 <= i <= m_nArrayLen s /\ c = count_upto f (Z.to_nat (64 * i)))
    0 (m_nArrayLen s) (fun i counter =>
       r ← for_range 0 64
             (fun _ st => w ← aread (m_p_nArray s) i;
                          mret (if negb (Z.land w (snd st) =? 0) then fst st + 1 else fst st,
                                s64 (Z.shiftl (snd st) 1)))
             (counter, 1);
       mret (fst r)) 0) as (c & -> & _ & ->).
  - rewrite El. lia.
  - split; [rewrite El; lia|done].
  - intros i c Hi [_ ->]. destruct (word_at s i Hs Hi) as (w & _ & Ew & Hw & Hb).
    destruct (for_range_inv (fun j st => 0 <= j <= 64 /\
        fst st = count_upto f (Z.to_nat (64 * i + j)) /\ (j < 64 -> snd st = bit j))
      0 64 (fun _ st => w ← aread (m_p_nArray s) i;
                          mret (if negb (Z.land w (snd st) =? 0) then fst st + 1 else fst st,
                                s64 (Z.shiftl (snd st) 1)))
      (count_upto f (Z.to_nat (64 * i)), 1)) as ([c m] & -> & _ & Hc & _).
    + lia.
    + simpl. split_and!; [lia|lia|by rewrite Z.add_0_r|done].
    + intros j [c m] Hj (_ & Hc & Hm). cbn [fst snd] in *. rewrite Ew, bind_of_ok, Hm, land_bit_test by (done || lia).
      rewrite Hb by lia. eexists. split; [done|]. cbn [fst snd]. split_and!; [lia|lia| |].
      * replace (Z.to_nat (64 * i + (j + 1))) with (S (Z.to_nat (64 * i + j))) by lia. cbn [count_upto].
        rewrite Z2Nat.id by lia. unfold f. rewrite Hc. destruct (bit_at _ _); unfold f; lia.
      * intros Hj'. unfold bit. rewrite !Z.shiftl_mul_pow2, !Z.mul_1_l, Z.pow_1_r by lia.
        assert (2 ^ j < 2 ^ 63) by (apply Z.pow_lt_mono_r; lia). pose proof (Z.pow_nonneg 2 j).
        rewrite (swrap_small 64 (2 ^ j)), Z.pow_add_r, Z.pow_1_r by lia. done.
    + rewrite bind_of_ok. eexists. split; [done|]. split; [lia|]. cbn [fst] in Hc |- *. rewrite Hc. f_equal. lia.
  - f_equal. rewrite <- (count_upto_size X (Z.to_nat (m_nSize s))).
    + rewrite (count_upto_extend f (Z.to_nat (m_nSize s))).
      * apply count_upto_ext. intros i Hi. apply eq_bool_prop_intro.
        rewrite bool_decide_spec, Is_true_true. apply (represents_bit s X i Hr). lia.
      * lia.
      * intros i Hi. apply Hs. lia.
    + intros i Hi%(represents_range _ _ _ Hr). lia.
Qed.

(** * The smallest element *)

Lemma first_bit_spec n j x :
  0 <= j -> match first_bit n j x with
  | Some k => j <= k < j + Z.of_nat n /\ Z.testbit x (k - j) = true /\
              forall i, 0 <= i < k - j -> Z.testbit x i = false
  | None => forall i, 0 <= i < Z.of_nat n -> Z.testbit x i = false
  end.
Proof.
  revert j x. induction n as [|n IH]; intros j x Hj; cbn [first_bit]; [lia|].
  assert (negb (Z.land x 1 =? 0) = Z.testbit x 0) as ->.
  { change 1 with (Z.ones 1). rewrite Z.land_ones, Z.bit0_odd, Zmod_odd by lia. by destruct (Z.odd x). }
  destruct (Z.testbit x 0) eqn:E0.
  { split_and!; [lia|lia| |lia]. by rewrite Z.sub_diag. }
  specialize (IH (j + 1) (Z.shiftr x 1) ltac:(lia)).
  destruct (first_bit n (j + 1) (Z.shiftr x 1)) as [k|].
  - destruct IH as (Hk & Hb & Hl). rewrite Z.shiftr_spec in Hb by lia. split_and!; [lia|lia| |].
    + by replace (k - j) with (k - (j + 1) + 1) by lia.
    + intros i Hi. destruct (Z.eq_dec i 0) as [->|]; [done|]. specialize (Hl (i - 1) ltac:(lia)).
      rewrite Z.shiftr_spec in Hl by lia. by replace (i - 1 + 1) with i in Hl by lia.
  - intros i Hi. destruct (Z.eq_dec i 0) as [->|]; [done|]. specialize (IH (i - 1) ltac:(lia)).
    rewrite Z.shiftr_spec in IH by lia. by replace (i - 1 + 1) with i in IH by lia.
Qed.

Lemma first_word_spec s n i :
  set_wf s -> 0 <= i -> i + Z.of_nat n = m_nArrayLen s ->
  match first_word n i (m_p_nArray s) with
  | Ok k => 64 * i <= k < 64 * m_nArrayLen s /\ bit_at (m_p_nArray s) k = true /\
            forall j, 64 * i <= j < k -> bit_at (m_p_nArray s) j = false
  | Err _ => forall j, 64 * i <= j < 64 * m_nArrayLen s -> bit_at (m_p_nArray s) j = false
  end.
Proof.
  intros Hs. revert i. induction n as [|n IH]; intros i Hi Hn; cbn [first_word]; [lia|].
  destruct (word_at s i Hs) as (w & _ & -> & Hw & Hb); [lia|]. rewrite bind_of_ok.
  pose proof (word_zero w Hw) as Hz. destruct (w =? 0); simpl negb; cbv iota.
  - assert (forall j, 64 * i <= j < 64 * (i + 1) -> bit_at (m_p_nArray s) j = false) as H0.
    { intros j Hj. pose proof (proj1 Hz eq_refl (j - 64 * i) ltac:(lia)) as Hj'.
      rewrite Hb in Hj' by lia. by replace (64 * i + (j - 64 * i)) with j in Hj' by lia. }
    specialize (IH (i + 1) ltac:(lia) ltac:(lia)). destruct (first_word n (i + 1) (m_p_nArray s)).
    + destruct IH as (Hk & Hbk & Hl). split_and!; [lia|lia|done|]. intros j Hj.
      destruct (Z.lt_ge_cases j (64 * (i + 1))); [apply H0|apply Hl]; lia.
    + intros j Hj. destruct (Z.lt_ge_cases j (64 * (i + 1))); [apply H0|apply IH]; lia.
  - pose proof (first_bit_spec 64 0 w ltac:(lia)) as Hf. destruct (first_bit 64 0 w) as [k|].
    + destruct Hf as (Hk & Hbk & Hl). rewrite Z.sub_0_r in *. split_and!; [lia|lia|by rewrite <- Hb by lia|].
      intros j Hj. specialize (Hl (j - 64 * i) ltac:(lia)). rewrite Hb in Hl by lia.
      by replace (64 * i + (j - 64 * i)) with j in Hl by lia.
    + assert (false = true) as H by (apply Hz; intros j Hj; by apply Hf). done.
Qed.

Lemma smallestElement_spec s X :
  represents s X -> X <> ∅ ->
  exists m, smallestElement s = Ok m /\ m ∈ X /\ forall i, i ∈ X -> m <= i.
Proof.
  intros Hr HX. pose proof (proj1 Hr) as Hs. pose proof (sw_len _ Hs) as El. pose proof (sw_size _ Hs).
  unfold smallestElement. rewrite (count_spec s X Hr), bind_of_ok.
  rewrite cassert_true, bind_of_ok.
  2:{ apply Z.ltb_lt. assert (size X <> 0%nat) by (intros E%size_empty_inv; set_solver). lia. }
  pose proof (first_word_spec s (Z.to_nat (m_nArrayLen s)) 0 Hs ltac:(lia) ltac:(lia)) as H1.
  destruct (first_word (Z.to_nat (m_nArrayLen s)) 0 (m_p_nArray s)) as [m|].
  - destruct H1 as (Hm & Hb & Hl). exists m. split_and!; [done|by apply (represents_bit s X m Hr); [lia|]|].
    intros i Hi. destruct (Z.le_gt_cases m i); [done|]. pose proof (represents_range _ _ _ Hr Hi).
    apply (represents_bit s X i Hr) in Hi; [|lia]. rewrite Hl in Hi by lia. done.
  - exfalso. apply HX, set_eq. intros i. split; [|set_solver]. intros Hi.
    pose proof (represents_range _ _ _ Hr Hi). apply (represents_bit s X i Hr) in Hi; [|lia].
    rewrite H1 in Hi by lia. done.
Qed.

(** * The sets the program computes with *)

Lemma Set_copy_spec s X :
  represents s X -> exists t, Set_copy s = Ok t /\ m_nSize t = m_nSize s /\ represents t X.
Proof.
  intros Hr. destruct (Set_setSize_spec (m_nSize s)) as (t & Et & Hn & Ht); [apply Hr|].
  unfold Set_copy. rewrite Et, bind_of_ok.
  rewrite (same_size_len t s) by (apply Ht || apply Hr || done).
  destruct (zip_represents (fun x _ => x) (fun a _ => a) s X s X t ∅ X) as (a & -> & Ha); try done.
  - intros i. by rewrite bool_decide_eq_true.
  - rewrite bind_of_ok. by eexists.
Qed.

(** For a node within the size of the set, isElement decides membership, add inserts the
    node and remove takes it out, and the set stays well formed. *)
Theorem Set_elements_refine s X i :
  represents s X -> 0 <= i < m_nSize s ->
  isElement s i = Ok (bool_decide (i ∈ X)) /\
  (exists s', add s i = Ok s' /\ represents s' ({[i]} ∪ X)) /\
  (exists s', remove s i = Ok s' /\ represents s' (X ∖ {[i]})).
Proof.
  intros Hr Hi. split; [by apply isElement_spec|].
  destruct (add_spec s X i Hr Hi) as (s1 & E1 & _ & H1).
  destruct (remove_spec s X i Hr Hi) as (s2 & E2 & _ & H2). split; eauto.
Qed.

(** On sets of the same size the word by word operations of Set are the operations of
    finite sets: addSet and OR are union, removeSet difference, AND intersection,
    broadcast all nodes, and a copy the same set. *)
Theorem Set_algebra_refines s X t Y :
  represents s X -> represents t Y -> m_nSize s = m_nSize t -> 0 < m_nSize s ->
  (exists r, addSet s t = Ok r /\ represents r (X ∪ Y)) /\
  (exists r, removeSet s t = Ok r /\ represents r (X ∖ Y)) /\
  (exists r, OR s t = Ok r /\ represents r (X ∪ Y)) /\
  (exists r, AND s t = Ok r /\ represents r (X ∩ Y)) /\
  (exists r, broadcast s = Ok r /\ represents r (all_nodes (m_nSize s))) /\
  (exists r, Set_copy s = Ok r /\ represents r X).
Proof.
  intros Hs Ht Hn Hpos.
  destruct (addSet_spec s X t Y Hs Ht Hn) as (r1 & E1 & _ & H1).
  destruct (removeSet_spec s X t Y Hs Ht Hn) as (r2 & E2 & _ & H2).
  destruct (OR_spec s X t Y Hs Ht Hn Hpos) as (r3 & E3 & _ & H3).
  destruct (AND_spec s X t Y Hs Ht Hn Hpos) as (r4 & E4 & _ & H4).
  destruct (broadcast_spec s X Hs Hpos) as (r5 & E5 & _ & H5).
  destruct (Set_copy_spec s X Hs) as (r6 & E6 & _ & H6). eauto 20.
Qed.

(** C39: On sets of the same size isEqual, isSuperset, isSubset, intersectionIsEmpty,
    intersectionIsNotEmpty, isEmpty and isBroadcast decide equality, inclusion,
    disjointness, emptiness and being all nodes. *)
Theorem Set_queries_decide s X t Y :
  represents s X -> represents t Y -> m_nSize s = m_nSize t ->
  isEqual s t = Ok (bool_decide (X = Y)) /\
  isSuperset s t = Ok (bool_decide (Y ⊆ X)) /\ isSubset s t = Ok (bool_decide (X ⊆ Y)) /\
  intersectionIsEmpty s t = Ok (bool_decide (X ∩ Y = ∅)) /\
  intersectionIsNotEmpty s t = Ok (bool_decide (X ∩ Y <> ∅)) /\
  isEmpty s = Ok (bool_decide (X = ∅)) /\
  isBroadcast s = Ok (bool_decide (X = all_nodes (m_nSize s))).
Proof.
  intros Hs Ht Hn. split_and!.
  - by apply isEqual_spec.
  - by apply isSuperset_spec.
  - by apply isSuperset_spec.
  - by apply disjoint_words.
  - unfold intersectionIsNotEmpty. rewrite (disjoint_words s X t Y) by done.
    rewrite bind_of_ok. unfold mret, outcome_ret. f_equal. symmetry. apply bool_decide_not.
  - by apply isEmpty_spec.
  - by apply isBroadcast_spec.
Qed.

(** count is the number of elements of the set and smallestElement its least element; on
    the empty set smallestElement stops at its error. *)
Theorem Set_count_and_smallest s X :
  represents s X ->
  count s = Ok (Z.of_nat (size X)) /\
  (if decide (X = ∅) then smallestElement s = Err AssertFailed
   else exists m, smallestElement s = Ok m /\ m ∈ X /\ forall i, i ∈ X -> m <= i).
Proof.
  intros Hr. split; [by apply count_spec|]. case_decide as HX; [|by apply smallestElement_spec].
  unfold smallestElement. rewrite (count_spec s X Hr), bind_of_ok, HX. done.
Qed.

(** A set of 70 nodes with members 3 and 69, in two words. *)
#[export] Instance NodeSet_inhabited : Inhabited NodeSet := populate (mkNodeSet 0 0 []).
Definition demo_set : NodeSet :=
  Eval vm_compute in from_ok (s ← Set_sized 70; s ← add s 3; add s 69).

Lemma demo_set_ok : represents demo_set {[3; 69]}.
Proof.
  destruct (Set_sized_spec 70) as (s & Es & Hn & Hs); [lia|].
  destruct (add_spec s ∅ 3 Hs) as (s1 & E1 & Hn1 & H1); [lia|].
  destruct (add_spec s1 _ 69 H1) as (s2 & E2 & Hn2 & H2); [lia|].
  vm_compute in Es. injection Es as <-. vm_compute in E1. injection E1 as <-.
  vm_compute in E2. injection E2 as <-. eapply represents_ext; [|exact H2]. set_solver.
Qed.

Lemma Set_elements_refine_witness :
  isElement demo_set 3 = Ok (bool_decide (3 ∈ ({[3; 69]} : gset Z))) /\
  (exists s', add demo_set 3 = Ok s' /\ represents s' ({[3]} ∪ {[3; 69]})) /\
  (exists s', remove demo_set 3 = Ok s' /\ represents s' ({[3; 69]} ∖ {[3]})).
Proof. apply (Set_elements_refine demo_set {[3; 69]} 3 demo_set_ok). simpl. lia. Defined.

Lemma Set_algebra_refines_witness :
  (exists r, addSet demo_set demo_set = Ok r /\ represents r ({[3; 69]} ∪ {[3; 69]})) /\
  (exists r, removeSet demo_set demo_set = Ok r /\ represents r ({[3; 69]} ∖ {[3; 69]})) /\
  (exists r, OR demo_set demo_set = Ok r /\ represents r ({[3; 69]} ∪ {[3; 69]})) /\
  (exists r, AND demo_set demo_set = Ok r /\ represents r ({[3; 69]} ∩ {[3; 69]})) /\
  (exists r, broadcast demo_set = Ok r /\ represents r (all_nodes 70)) /\
  (exists r, Set_copy demo_set = Ok r /\ represents r {[3; 69]}).
Proof. apply (Set_algebra_refines demo_set _ demo_set _ demo_set_ok demo_set_ok); simpl; lia. Defined.

Lemma Set_queries_decide_witness :
  isEqual demo_set demo_set = Ok (bool_decide (({[3; 69]} : gset Z) = {[3; 69]})) /\
  isSuperset demo_set demo_set = Ok (bool_decide (({[3; 69]} : gset Z) ⊆ {[3; 69]})) /\
  isSubset demo_set demo_set = Ok (bool_decide (({[3; 69]} : gset Z) ⊆ {[3; 69]})) /\
  intersectionIsEmpty demo_set demo_set = Ok (bool_decide (({[3; 69]} : gset Z) ∩ {[3; 69]} = ∅)) /\
  intersectionIsNotEmpty demo_set demo_set = Ok (bool_decide (({[3; 69]} : gset Z) ∩ {[3; 69]} <> ∅)) /\
  isEmpty demo_set = Ok (bool_decide (({[3; 69]} : gset Z) = ∅)) /\
  isBroadcast demo_set = Ok (bool_decide (({[3; 69]} : gset Z) = all_nodes (m_nSize demo_set))).
Proof. apply (Set_queries_decide demo_set _ demo_set _ demo_set_ok demo_set_ok). reflexivity. Defined.

Lemma Set_count_and_smallest_witness :
  count demo_set = Ok 2 /\
  exists m, smallestElement demo_set = Ok m /\ m ∈ ({[3; 69]} : gset Z) /\
    forall i, i ∈ ({[3; 69]} : gset Z) -> m <= i.
Proof.
  destruct (Set_count_and_smallest demo_set {[3; 69]} demo_set_ok) as [H1 H2].
  split; [rewrite H1; vm_compute; reflexivity|].
  destruct (decide (({[3; 69]} : gset Z) = ∅)) as [H|_]; [|exact H2].
  assert (3 ∈ (∅ : gset Z)) as []%elem_of_empty by (rewrite <- H; set_solver).
Defined.

(** Adding a node beyond the size leaves a set that has an element for some operations
    and none for others. *)
Theorem add_beyond_size_corrupts :
  exists s, (s ← Set_sized 70; add s 71) = Ok s /\ isEmpty s = Ok false /\ count s = Ok 1 /\
    smallestElement s = Ok 71 /\ forall i, 0 <= i < m_nSize s -> isElement s i = Ok false.
Proof.
  eexists. split; [vm_compute; reflexivity|]. split; [vm_compute; reflexivity|].
  split; [vm_compute; reflexivity|]. split; [vm_compute; reflexivity|].
  simpl. intros i Hi. unfold isElement. rewrite word_index, low6_val. simpl m_p_nArray.
  assert (i / 64 = 0 \/ (i / 64 = 1 /\ 0 <= i mod 64 < 6)) as [->|[-> Hm]] by lia.
  - done.
  - change (aread _ 1) with (Ok 128). rewrite bind_of_ok, land_bit_test by (unfold in_word; lia).
    unfold mret, outcome_ret. f_equal. change 128 with (2 ^ 7). rewrite Z.pow2_bits_eqb by lia.
    apply Z.eqb_neq. lia.
Qed.
