(* ===== verification/NetDest.v ===== *)
(** [common/NetDest.{h,C}] and [system/MachineID.h]: destinations of network
    messages, one set of node numbers per machine type.

    The machine types of a protocol are generated by [slicc]; what
    [slicc/symbols/Type.C] writes for them depends only on the number of
    instances of each type, the list [counts].  A [NetDest] is the contents of
    its [Vector] of sets, whose accesses assert the index. *)

From S2P Require Import Prelude NodeSet.

Record MachineID := mkMachineID { mtype : Z; num : Z }.

#[export] Instance MachineID_eq_dec : EqDecision MachineID.
Proof. solve_decision. Defined.

(** [m_bits[i]], read and written. *)
Definition vref {A} (l : list A) (i : Z) : outcome A :=
  match zread l i with Some x => Ok x | None => Err AssertFailed end.
Definition vset {A} (l : list A) (i : Z) (x : A) : outcome (list A) :=
  if (0 <=? i) && (i <? zlen l) then Ok (zwrite l i x) else Err AssertFailed.

Section machines.
  (** How many machines of each type there are. *)
  Context (counts : list Z).

Definition MachineType_NUM : Z := zlen counts.
Definition MachineType_base_level (t : Z) : outcome Z :=
  if (0 <=? t) && (t <=? MachineType_NUM) then Ok t else Err ErrorMsg.
Definition MachineType_base_number (t : Z) : outcome Z :=
  if (0 <=? t) && (t <=? MachineType_NUM) then Ok (foldr Z.add 0 (take (Z.to_nat t) counts))
  else Err ErrorMsg.
Definition MachineType_base_count (t : Z) : outcome Z :=
  match zread counts t with Some n => Ok n | None => Err ErrorMsg end.

Abbreviation NetDest := (list NodeSet) (only parsing).

Definition vecIndex (d : NetDest) (m : MachineID) : outcome Z :=
  v ← MachineType_base_level (mtype m); cassert (v <? zlen d);; mret v.

(** A loop [for (i = 0; i < m_bits.size(); i++) m_bits[i] = op(m_bits[i])]. *)
Definition update_rows (op : Z → NodeSet → outcome NodeSet) (d : NetDest) : outcome NetDest :=
  for_range 0 (zlen d) (fun i d => s ← vref d i; s' ← op i s; vset d i s') d.

(** A loop that returns [false] at the first row failing [p]. *)
Fixpoint rows_from (p : Z → NodeSet → outcome bool) (n : nat) (i : Z) (d : NetDest) : outcome bool :=
  match n with
  | O => Ok true
  | S n' => s ← vref d i; b ← p i s; if b : bool then rows_from p n' (i + 1) d else Ok false
  end.
Definition all_rows (p : Z → NodeSet → outcome bool) (d : NetDest) : outcome bool :=
  rows_from p (length d) 0 d.

(** The constructor, through [setSize]. *)
Definition NetDest_new : outcome NetDest :=
  n ← MachineType_base_level MachineType_NUM;
  let d := replicate (Z.to_nat n) (mkNodeSet 0 0 []) in
  cassert (zlen d =? MachineType_NUM);;
  update_rows (fun i _ => c ← MachineType_base_count i; setSize c) d.

Definition nd_add (d : NetDest) (m : MachineID) : outcome NetDest :=
  i ← vecIndex d m; s ← vref d i; s' ← add s (num m); vset d i s'.
Definition nd_remove (d : NetDest) (m : MachineID) : outcome NetDest :=
  i ← vecIndex d m; s ← vref d i; s' ← remove s (num m); vset d i s'.
Definition nd_isElement (d : NetDest) (m : MachineID) : outcome bool :=
  i ← vecIndex d m; s ← vref d i; isElement s (num m).
Definition nd_elementAt (d : NetDest) (m : MachineID) : outcome Z :=
  i ← vecIndex d m; s ← vref d i; elementAt s (num m).

Definition addNetDest (d netDest : NetDest) : outcome NetDest :=
  cassert (zlen d =? zlen netDest);;
  update_rows (fun i s => t ← vref netDest i; addSet s t) d.
Definition removeNetDest (d netDest : NetDest) : outcome NetDest :=
  cassert (zlen d =? zlen netDest);;
  update_rows (fun i s => t ← vref netDest i; removeSet s t) d.
Definition nd_clear (d : NetDest) : outcome NetDest := update_rows (fun _ s => clear s) d.

(** [addRandom]; [pick] and [rnd] are the values of [random()]. *)
Definition nd_addRandom (d : NetDest) (pick : Z) (rnd : Z → Z) : outcome NetDest :=
  let i := Z.rem pick (zlen d) in
  s ← vref d i; s' ← addRandom s rnd; vset d i s'.

Definition setNetDest (d : NetDest) (machine : Z) (set : NodeSet) : outcome NetDest :=
  above ← MachineType_base_level (machine + 1);
  here ← MachineType_base_level machine;
  cassert (above - here =? 1);;
  vref d here;; vset d here set.

Definition broadcast_type (d : NetDest) (machineType : Z) : outcome NetDest :=
  n ← MachineType_base_count machineType;
  for_range 0 n (fun i d => nd_add d (mkMachineID machineType i)) d.
Definition nd_broadcast (d : NetDest) : outcome NetDest :=
  for_range 0 MachineType_NUM (fun t d => broadcast_type d t) d.

Definition nd_count (d : NetDest) : outcome Z :=
  for_range 0 (zlen d) (fun i counter => s ← vref d i; c ← count s; mret (counter + c)) 0.

(** The members of row [i] from [j] on, in order. *)
Fixpoint row_members (n : nat) (s : NodeSet) (j : Z) : outcome (list Z) :=
  match n with
  | O => Ok []
  | S n' => b ← isElement s j; r ← row_members n' s (j + 1); mret (if b : bool then j :: r else r)
  end.

Definition getAllDest (d : NetDest) : outcome (list Z) :=
  for_range 0 (zlen d)
    (fun i dest =>
       s ← vref d i;
       ms ← row_members (Z.to_nat (getSize s)) s 0;
       match ms with
       | [] => mret dest
       | _ => base ← MachineType_base_number i; mret (dest ++ ((fun j => base + j) <$> ms))
       end) [].

(** The first member of a row: the loop returns there. *)
Fixpoint first_in_row (n : nat) (s : NodeSet) (j : Z) : outcome (option Z) :=
  match n with
  | O => Ok None
  | S n' => b ← isElement s j; if b : bool then Ok (Some j) else first_in_row n' s (j + 1)
  end.

Definition nd_smallestElement_of (d : NetDest) (machine : Z) : outcome MachineID :=
  i ← MachineType_base_level machine;
  s ← vref d i;
  m ← first_in_row (Z.to_nat (getSize s)) s 0;
  match m with None => Err ErrorMsg | Some j => mret (mkMachineID machine j) end.

Fixpoint first_member (n : nat) (i : Z) (d : NetDest) : outcome Z :=
  match n with
  | O => Err ErrorMsg
  | S n' =>
      s ← vref d i;
      m ← first_in_row (Z.to_nat (getSize s)) s 0;
      match m with None => first_member n' (i + 1) d | Some j => Ok j end
  end.
Definition nd_smallestElement (d : NetDest) : outcome Z :=
  c ← nd_count d; cassert (0 <? c);; first_member (length d) 0 d.

Definition nd_isBroadcast (d : NetDest) : outcome bool := all_rows (fun _ s => isBroadcast s) d.
Definition nd_isEmpty (d : NetDest) : outcome bool := all_rows (fun _ s => isEmpty s) d.

Definition nd_OR (d orNetDest : NetDest) : outcome NetDest :=
  cassert (zlen d =? zlen orNetDest);;
  result ← NetDest_new;
  for_range 0 (zlen d)
    (fun i r => s ← vref d i; t ← vref orNetDest i; u ← OR s t; vref r i;; vset r i u) result.
Definition nd_AND (d andNetDest : NetDest) : outcome NetDest :=
  cassert (zlen d =? zlen andNetDest);;
  result ← NetDest_new;
  for_range 0 (zlen d)
    (fun i r => s ← vref d i; t ← vref andNetDest i; u ← AND s t; vref r i;; vset r i u) result.

Definition nd_intersectionIsNotEmpty (d other : NetDest) : outcome bool :=
  cassert (zlen d =? zlen other);;
  b ← all_rows (fun i s => t ← vref other i; b ← intersectionIsNotEmpty s t; mret (negb b)) d;
  mret (negb b).
Definition nd_isSuperset (d test : NetDest) : outcome bool :=
  cassert (zlen d =? zlen test);;
  all_rows (fun i s => t ← vref test i; isSuperset s t) d.
Definition nd_isSubset (d test : NetDest) : outcome bool := nd_isSuperset test d.

End machines.

(** * What a destination stands for *)

(** The members of [D] with machine type [i]. *)
Definition row (D : gset (Z * Z)) (i : Z) : gset Z := set_map snd (filter (fun p => fst p = i) D).

Lemma elem_of_row D i j : j ∈ row D i <-> (i, j) ∈ D.
Proof.
  unfold row. rewrite elem_of_map. setoid_rewrite elem_of_filter. split.
  - by intros ([i' j'] & -> & <- & H).
  - intros H. by exists (i, j).
Qed.

Section correctness.
  Context (counts : list Z) (Hcounts : Forall (fun n => 0 <= n < 2 ^ 31) counts).
  Abbreviation NetDest := (list NodeSet) (only parsing).
  Implicit Types (d e r : NetDest) (D E R : gset (Z * Z)) (m : MachineID).

(** The machines there are. *)
Definition valid (i j : Z) : Prop := exists n, zread counts i = Some n /\ 0 <= j < n.

(** The destination [d] stands for the machines [D]. *)
Record stands_for d D : Prop := {
  sf_len : zlen d = MachineType_NUM counts;
  sf_row i n : zread counts i = Some n ->
    exists s, zread d i = Some s /\ m_nSize s = n /\ represents s (row D i);
  sf_valid i j : (i, j) ∈ D -> valid i j;
}.

Lemma vref_in {A} (l : list A) i x : zread l i = Some x -> vref l i = Ok x.
Proof. intros H. unfold vref. by rewrite H. Qed.

Lemma vset_in {A} (l : list A) i (x : A) : 0 <= i < zlen l -> vset l i x = Ok (zwrite l i x).
Proof. intros. unfold vset. by rewrite (proj2 (Z.leb_le 0 i)), (proj2 (Z.ltb_lt i _)) by lia. Qed.

Lemma counts_at i : 0 <= i < MachineType_NUM counts -> exists n, zread counts i = Some n /\ 0 <= n < 2 ^ 31.
Proof.
  intros Hi. destruct (zread_is_some counts i Hi) as [n Hn]. exists n. split; [done|].
  rewrite Forall_forall in Hcounts. by apply Hcounts, (zread_elem_of counts i).
Qed.

Lemma counts_range i n : zread counts i = Some n -> 0 <= i < MachineType_NUM counts.
Proof. apply zread_range. Qed.

Lemma base_level_in i : 0 <= i <= MachineType_NUM counts -> MachineType_base_level counts i = Ok i.
Proof.
  intros. unfold MachineType_base_level.
  by rewrite (proj2 (Z.leb_le 0 i)), (proj2 (Z.leb_le i _)) by lia.
Qed.

Lemma vecIndex_in d D m n :
  stands_for d D -> zread counts (mtype m) = Some n -> vecIndex counts d m = Ok (mtype m).
Proof.
  intros Hd Hn. pose proof (counts_range _ _ Hn). unfold vecIndex. rewrite base_level_in, bind_of_ok by lia.
  rewrite cassert_true; [done|]. apply Z.ltb_lt. rewrite (sf_len _ _ Hd). lia.
Qed.

(** ** Loops over the rows *)

Lemma update_rows_spec (n : Z) (d : NetDest) (body : Z → NetDest → outcome NetDest) (Q : Z → NodeSet → Prop) :
  0 <= n <= zlen d ->
  (forall i e, 0 <= i < n -> zlen e = zlen d -> zread e i = zread d i ->
     exists s, body i e = Ok (zwrite e i s) /\ Q i s) ->
  exists d', for_range 0 n body d = Ok d' /\ zlen d' = zlen d /\
    forall i, 0 <= i < n -> exists s, zread d' i = Some s /\ Q i s.
Proof.
  intros Hn Hbody.
  destruct (for_range_inv (fun k e => zlen e = zlen d /\
      (forall i, 0 <= i < k -> exists s, zread e i = Some s /\ Q i s) /\
      (forall i, k <= i -> zread e i = zread d i)) 0 n body d) as (d' & E & Hl & H1 & _);
    [lia| | |by exists d'].
  - split_and!; [done|lia|done].
  - intros i e Hi (Hl & H1 & H2). destruct (Hbody i e Hi Hl (H2 i ltac:(lia))) as (s & Es & Hs).
    exists (zwrite e i s). split_and!; [done|by rewrite zlen_zwrite| |].
    + intros j Hj. rewrite zread_zwrite by lia. destruct (Z.eqb_spec i j) as [->|]; [eauto|].
      apply H1. lia.
    + intros j Hj. rewrite zread_zwrite_ne by lia. apply H2. lia.
Qed.

Lemma stands_for_intro d D :
  zlen d = MachineType_NUM counts ->
  (forall i, 0 <= i < MachineType_NUM counts -> exists s, zread d i = Some s /\
     forall n, zread counts i = Some n -> m_nSize s = n /\ represents s (row D i)) ->
  (forall i j, (i, j) ∈ D -> 0 <= i < MachineType_NUM counts) -> stands_for d D.
Proof.
  intros Hl Hr HD. split; [done| |].
  - intros i n Hn. destruct (Hr i (counts_range _ _ Hn)) as (s & Hs & H). exists s.
    split; [done|]. by apply H.
  - intros i j Hij. destruct (counts_at i (HD i j Hij)) as (n & Hn & _). exists n. split; [done|].
    destruct (Hr i (HD i j Hij)) as (s & _ & H). destruct (H n Hn) as [<- Hrep].
    apply (represents_range _ _ _ Hrep). by apply elem_of_row.
Qed.

Lemma row_at d D i :
  stands_for d D -> 0 <= i < MachineType_NUM counts ->
  exists n s, zread counts i = Some n /\ zread d i = Some s /\ m_nSize s = n /\ represents s (row D i).
Proof.
  intros Hd Hi. destruct (counts_at i Hi) as (n & Hn & _).
  destruct (sf_row _ _ Hd i n Hn) as (s & Hs & Hsz & Hr). by exists n, s.
Qed.

Lemma represents_eq s (X Y : gset Z) : X = Y -> represents s X -> represents s Y.
Proof. by intros ->. Qed.

Lemma NetDest_new_spec : exists d, NetDest_new counts = Ok d /\ stands_for d ∅.
Proof.
  unfold NetDest_new. assert (0 <= MachineType_NUM counts) by apply zlen_nonneg.
  rewrite base_level_in, bind_of_ok by lia.
  rewrite zlen_replicate, Z.eqb_refl by done. simpl. unfold update_rows. rewrite zlen_replicate by done.
  destruct (update_rows_spec (MachineType_NUM counts) (replicate (Z.to_nat (MachineType_NUM counts)) (mkNodeSet 0 0 []))
    (fun i d => s ← vref d i; s' ← (c ← MachineType_base_count counts i; setSize c); vset d i s')
    (fun i s => forall n, zread counts i = Some n -> m_nSize s = n /\ represents s ∅))
    as (d & E & Hl & Hr).
  - rewrite zlen_replicate by done. lia.
  - intros i e Hi Hl Hz. rewrite zlen_replicate in Hl by done.
    destruct (zread_is_some e i) as [s0 Hs0]; [lia|]. rewrite (vref_in e i s0 Hs0), bind_of_ok.
    destruct (counts_at i Hi) as (n & Hn & Hnr). unfold MachineType_base_count. rewrite Hn, bind_of_ok.
    destruct (Set_setSize_spec n Hnr) as (s & Es & Hsz & Hrep). rewrite Es, bind_of_ok.
    rewrite vset_in by lia. exists s. split; [done|]. intros n' [= <-]. done.
  - rewrite zlen_replicate in Hl by done. exists d. split; [exact E|].
    apply stands_for_intro; [done| |by intros ?? ?%elem_of_empty].
    intros i Hi. destruct (Hr i Hi) as (s & Hs & H'). exists s. split; [done|]. intros n Hn.
    destruct (H' n Hn). split; [done|]. eapply represents_eq; [|done]. set_solver.
Qed.

(** ** Single machines *)

Lemma change_row d D D' m n s s' :
  stands_for d D -> zread counts (mtype m) = Some n -> zread d (mtype m) = Some s ->
  m_nSize s' = n -> represents s' (row D' (mtype m)) ->
  (forall i, i <> mtype m -> row D' i = row D i) ->
  (forall i j, (i, j) ∈ D' -> i = mtype m \/ (i, j) ∈ D) ->
  stands_for (zwrite d (mtype m) s') D'.
Proof.
  intros Hd Hn Hs Hsz Hr Hrow HD. pose proof (counts_range _ _ Hn) as Hi. pose proof (zread_range _ _ _ Hs).
  apply stands_for_intro; [by rewrite zlen_zwrite, (sf_len _ _ Hd)| |].
  - intros i Hi'. rewrite zread_zwrite by lia. destruct (Z.eqb_spec (mtype m) i) as [<-|Hne].
    + exists s'. split; [done|]. intros n' Hn'. by simplify_eq.
    + destruct (row_at d D i Hd Hi') as (n' & t & Hn' & Ht & Htn & Htr). exists t. split; [done|].
      intros n'' Hn''. rewrite Hrow by done. by simplify_eq.
  - intros i j Hij. destruct (HD i j Hij) as [->|H']; [done|].
    destruct (sf_valid _ _ Hd i j H') as (n' & Hn' & _). by apply counts_range in Hn'.
Qed.

Lemma nd_add_spec d D m :
  stands_for d D -> valid (mtype m) (num m) ->
  exists d', nd_add counts d m = Ok d' /\ stands_for d' ({[(mtype m, num m)]} ∪ D).
Proof.
  intros Hd (n & Hn & Hm). destruct (sf_row _ _ Hd _ _ Hn) as (s & Hs & Hsz & Hr).
  unfold nd_add. rewrite (vecIndex_in d D m n Hd Hn), bind_of_ok, (vref_in _ _ _ Hs), bind_of_ok.
  destruct (add_spec s _ (num m) Hr) as (s' & -> & Hsz' & Hr'); [lia|]. rewrite bind_of_ok.
  rewrite vset_in by (by apply zread_range in Hs). eexists. split; [done|].
  eapply change_row; [done|done|done|congruence| | |].
  - eapply represents_eq; [|exact Hr']. apply set_eq. intros j. rewrite elem_of_row.
    rewrite !elem_of_union, !elem_of_singleton, elem_of_row. naive_solver.
  - intros i Hi. apply set_eq. intros j. rewrite !elem_of_row. set_solver.
  - intros i j. set_solver.
Qed.

Lemma nd_remove_spec d D m :
  stands_for d D -> valid (mtype m) (num m) ->
  exists d', nd_remove counts d m = Ok d' /\ stands_for d' (D ∖ {[(mtype m, num m)]}).
Proof.
  intros Hd (n & Hn & Hm). destruct (sf_row _ _ Hd _ _ Hn) as (s & Hs & Hsz & Hr).
  unfold nd_remove. rewrite (vecIndex_in d D m n Hd Hn), bind_of_ok, (vref_in _ _ _ Hs), bind_of_ok.
  destruct (remove_spec s _ (num m) Hr) as (s' & -> & Hsz' & Hr'); [lia|]. rewrite bind_of_ok.
  rewrite vset_in by (by apply zread_range in Hs). eexists. split; [done|].
  eapply change_row; [done|done|done|congruence| | |].
  - eapply represents_eq; [|exact Hr']. apply set_eq. intros j. rewrite elem_of_row.
    rewrite !elem_of_difference, !elem_of_singleton, elem_of_row. naive_solver.
  - intros i Hi. apply set_eq. intros j. rewrite !elem_of_row. set_solver.
  - intros i j. set_solver.
Qed.

Lemma nd_isElement_spec d D m :
  stands_for d D -> valid (mtype m) (num m) ->
  nd_isElement counts d m = Ok (bool_decide ((mtype m, num m) ∈ D)).
Proof.
  intros Hd (n & Hn & Hm). destruct (sf_row _ _ Hd _ _ Hn) as (s & Hs & Hsz & Hr).
  unfold nd_isElement. rewrite (vecIndex_in d D m n Hd Hn), bind_of_ok, (vref_in _ _ _ Hs), bind_of_ok.
  rewrite (isElement_spec s _ (num m) Hr) by lia. f_equal. apply bool_decide_ext. apply elem_of_row.
Qed.

(** ** Whole destinations *)

(** A row-wise binary operation [op] that implements [f] on sets. *)
Lemma rowwise_spec (op : NodeSet → NodeSet → outcome NodeSet) (f : gset Z → gset Z → gset Z)
    (F : gset (Z * Z)) d D e E r R :
  (forall s X t Y, represents s X -> represents t Y -> m_nSize s = m_nSize t ->
     (exists i, zread counts i = Some (m_nSize s)) ->
     exists u, op s t = Ok u /\ m_nSize u = m_nSize s /\ represents u (f X Y)) ->
  stands_for d D -> stands_for e E -> stands_for r R ->
  (forall i, row F i = f (row D i) (row E i)) ->
  (forall i j, (i, j) ∈ F -> (i, j) ∈ D \/ (i, j) ∈ E) ->
  exists r', for_range 0 (zlen d) (fun i r => s ← vref d i; t ← vref e i; u ← op s t; vref r i;; vset r i u) r = Ok r' /\
    stands_for r' F.
Proof.
  intros Hop Hd He Hr HF HFi. pose proof (sf_len _ _ Hd) as Ld. pose proof (sf_len _ _ He).
  pose proof (sf_len _ _ Hr) as Lr.
  destruct (update_rows_spec (zlen d) r (fun i r => s ← vref d i; t ← vref e i; u ← op s t; vref r i;; vset r i u)
    (fun i u => forall n, zread counts i = Some n -> m_nSize u = n /\ represents u (row F i)))
    as (r' & E' & Hl & Hrows).
  - split; [apply zlen_nonneg|lia].
  - intros i q Hi Hl Hz. destruct (row_at d D i Hd) as (n & s & Hn & Hs & Hsn & Hsr); [lia|].
    destruct (sf_row _ _ He i n Hn) as (t & Ht & Htn & Htr).
    rewrite (vref_in d i s Hs), (vref_in e i t Ht), !bind_of_ok.
    destruct (Hop s _ t _ Hsr Htr) as (u & -> & Hun & Hur); [congruence|exists i; congruence|].
    rewrite bind_of_ok. destruct (zread_is_some q i) as [q0 Hq0]; [lia|].
    rewrite (vref_in q i q0 Hq0), bind_of_ok, vset_in by lia. exists u. split; [done|].
    intros n' [= <-]%(eq_trans (eq_sym Hn)). split; [congruence|]. by rewrite HF.
  - exists r'. split; [done|]. apply stands_for_intro; [lia| |].
    + intros i Hi. apply Hrows. lia.
    + intros i j Hij. destruct (HFi i j Hij) as [H'|H'].
      * destruct (sf_valid _ _ Hd i j H') as (n' & Hn' & _). by apply counts_range in Hn'.
      * destruct (sf_valid _ _ He i j H') as (n' & Hn' & _). by apply counts_range in Hn'.
Qed.

(** The in-place loops: the target row is read from the array under update. *)
Lemma update_rows_as_rowwise (op : NodeSet → NodeSet → outcome NodeSet) d D e :
  stands_for d D -> zlen e = zlen d ->
  (forall i s t, zread d i = Some s -> zread e i = Some t -> exists u, op s t = Ok u) ->
  update_rows (fun i s => t ← vref e i; op s t) d =
  for_range 0 (zlen d) (fun i r => s ← vref d i; t ← vref e i; u ← op s t; vref r i;; vset r i u) d.
Proof.
  intros Hd Hl Hop. unfold update_rows.
  destruct (for_range_inv (fun k q => zlen q = zlen d /\ (forall i, k <= i -> zread q i = zread d i) /\
      for_range 0 k (fun i d => s ← vref d i; s' ← (t ← vref e i; op s t); vset d i s') d = Ok q /\
      for_range 0 k (fun i r => s ← vref d i; t ← vref e i; u ← op s t; vref r i;; vset r i u) d = Ok q)
    0 (zlen d) (fun i d => s ← vref d i; s' ← (t ← vref e i; op s t); vset d i s') d)
    as (q & _ & _ & _ & -> & ->); [apply zlen_nonneg|done| |done].
  intros i q Hi (Hq & Hz & E1 & E2).
  destruct (zread_is_some d i) as [s Hs]; [lia|]. destruct (zread_is_some e i) as [t Ht]; [lia|].
  destruct (Hop i s t Hs Ht) as [u Hu].
  assert (zread q i = Some s) as Hqs by (rewrite Hz; [done|lia]).
  exists (zwrite q i u). rewrite (vref_in q i s Hqs), (vref_in e i t Ht), !bind_of_ok, Hu, bind_of_ok.
  rewrite vset_in by lia. split_and!; [done|by rewrite zlen_zwrite| | |].
  - intros j Hj. rewrite zread_zwrite_ne by lia. apply Hz. lia.
  - rewrite for_range_snoc, E1 by lia. rewrite bind_of_ok, (vref_in q i s Hqs), (vref_in e i t Ht), !bind_of_ok, Hu, bind_of_ok.
    by rewrite vset_in by lia.
  - rewrite for_range_snoc, E2 by lia. rewrite bind_of_ok, (vref_in d i s Hs), (vref_in e i t Ht), !bind_of_ok, Hu, bind_of_ok.
    rewrite (vref_in q i s Hqs), bind_of_ok. by rewrite vset_in by lia.
Qed.

Lemma row_union D E i : row (D ∪ E) i = row D i ∪ row E i.
Proof. apply set_eq. intros j. rewrite elem_of_union, !elem_of_row. set_solver. Qed.
Lemma row_difference D E i : row (D ∖ E) i = row D i ∖ row E i.
Proof. apply set_eq. intros j. rewrite elem_of_difference, !elem_of_row. set_solver. Qed.
Lemma row_intersection D E i : row (D ∩ E) i = row D i ∩ row E i.
Proof. apply set_eq. intros j. rewrite elem_of_intersection, !elem_of_row. set_solver. Qed.

Lemma row_of_reads d D e E i s t :
  stands_for d D -> stands_for e E -> zread d i = Some s -> zread e i = Some t ->
  represents s (row D i) /\ represents t (row E i) /\ m_nSize s = m_nSize t.
Proof.
  intros Hd He Hs Ht. pose proof (zread_range _ _ _ Hs) as Hi. rewrite (sf_len _ _ Hd) in Hi.
  destruct (row_at d D i Hd Hi) as (n & s' & Hn & Hs' & Hsn & Hsr).
  destruct (sf_row _ _ He i n Hn) as (t' & Ht' & Htn & Htr). simplify_eq. done.
Qed.

Lemma addNetDest_spec d D e E :
  stands_for d D -> stands_for e E -> exists d', addNetDest d e = Ok d' /\ stands_for d' (D ∪ E).
Proof.
  intros Hd He. unfold addNetDest. rewrite cassert_true, bind_of_ok
    by (apply Z.eqb_eq; rewrite (sf_len _ _ Hd), (sf_len _ _ He); done).
  rewrite (update_rows_as_rowwise addSet d D e Hd).
  - apply (rowwise_spec addSet (∪) _ d D e E d D); try done; [|apply row_union|set_solver].
    intros s X t Y Hs Ht Hn _. by apply addSet_spec.
  - by rewrite (sf_len _ _ Hd), (sf_len _ _ He).
  - intros i s t Hs Ht. destruct (row_of_reads d D e E i s t Hd He Hs Ht) as (H1 & H2 & H3).
    destruct (addSet_spec s _ t _ H1 H2 H3) as (u & -> & _). eauto.
Qed.

Lemma removeNetDest_spec d D e E :
  stands_for d D -> stands_for e E -> exists d', removeNetDest d e = Ok d' /\ stands_for d' (D ∖ E).
Proof.
  intros Hd He. unfold removeNetDest. rewrite cassert_true, bind_of_ok
    by (apply Z.eqb_eq; rewrite (sf_len _ _ Hd), (sf_len _ _ He); done).
  rewrite (update_rows_as_rowwise removeSet d D e Hd).
  - apply (rowwise_spec removeSet (∖) _ d D e E d D); try done; [|apply row_difference|set_solver].
    intros s X t Y Hs Ht Hn _. by apply removeSet_spec.
  - by rewrite (sf_len _ _ Hd), (sf_len _ _ He).
  - intros i s t Hs Ht. destruct (row_of_reads d D e E i s t Hd He Hs Ht) as (H1 & H2 & H3).
    destruct (removeSet_spec s _ t _ H1 H2 H3) as (u & -> & _). eauto.
Qed.

(** [OR] and [AND] allocate a fresh set per row, so every machine type needs an
    instance. *)
Definition inhabited_types : Prop := Forall (fun n => 0 < n) counts.

Lemma count_positive n : inhabited_types -> (exists i, zread counts i = Some n) -> 0 < n.
Proof. intros Hp [i Hi]. unfold inhabited_types in Hp. rewrite Forall_forall in Hp. by apply Hp, (zread_elem_of counts i). Qed.

Lemma nd_OR_spec d D e E :
  inhabited_types -> stands_for d D -> stands_for e E ->
  exists r, nd_OR counts d e = Ok r /\ stands_for r (D ∪ E).
Proof.
  intros Hp Hd He. unfold nd_OR. rewrite cassert_true, bind_of_ok
    by (apply Z.eqb_eq; rewrite (sf_len _ _ Hd), (sf_len _ _ He); done).
  destruct NetDest_new_spec as (r & -> & Hr). rewrite bind_of_ok.
  apply (rowwise_spec OR (∪) _ d D e E r ∅); try done; [|apply row_union|set_solver].
  intros s X t Y Hs Ht Hn Hc. apply OR_spec; try done. by apply count_positive.
Qed.

Lemma nd_AND_spec d D e E :
  inhabited_types -> stands_for d D -> stands_for e E ->
  exists r, nd_AND counts d e = Ok r /\ stands_for r (D ∩ E).
Proof.
  intros Hp Hd He. unfold nd_AND. rewrite cassert_true, bind_of_ok
    by (apply Z.eqb_eq; rewrite (sf_len _ _ Hd), (sf_len _ _ He); done).
  destruct NetDest_new_spec as (r & -> & Hr). rewrite bind_of_ok.
  apply (rowwise_spec AND (∩) _ d D e E r ∅); try done; [|apply row_intersection|set_solver].
  intros s X t Y Hs Ht Hn Hc. apply AND_spec; try done. by apply count_positive.
Qed.

(** ** Queries *)

Lemma rows_from_spec (p : Z → NodeSet → outcome bool) (P : Z → Prop) d D n i :
  stands_for d D ->
  (forall i s, 0 <= i < MachineType_NUM counts -> zread d i = Some s ->
     exists b, p i s = Ok b /\ (b = true <-> P i)) ->
  0 <= i -> i + Z.of_nat n = MachineType_NUM counts ->
  exists b, rows_from p n i d = Ok b /\
    (b = true <-> forall k, i <= k < MachineType_NUM counts -> P k).
Proof.
  intros Hd Hp. revert i. induction n as [|n IH]; intros i Hi Hn; cbn [rows_from].
  { exists true. split; [done|]. split; [|done]. intros _ k Hk. lia. }
  destruct (row_at d D i Hd) as (c & s & _ & Hs & _); [lia|]. rewrite (vref_in d i s Hs), bind_of_ok.
  destruct (Hp i s) as (b & -> & Hb); [lia|done|]. rewrite bind_of_ok. destruct b.
  - destruct (IH (i + 1)) as (b & -> & Hb'); [lia|lia|]. exists b. split; [done|]. rewrite Hb'.
    split; intros H k Hk; [|apply H; lia]. destruct (Z.eq_dec k i) as [->|]; [by apply Hb|]. apply H. lia.
  - exists false. split; [done|]. split; [done|]. intros H. apply Hb, H. lia.
Qed.

Lemma all_rows_spec (p : Z → NodeSet → outcome bool) (P : Z → Prop) (Q : Prop) `{!Decision Q} d D :
  stands_for d D ->
  (forall i s, 0 <= i < MachineType_NUM counts -> zread d i = Some s ->
     exists b, p i s = Ok b /\ (b = true <-> P i)) ->
  (Q <-> forall k, 0 <= k < MachineType_NUM counts -> P k) ->
  all_rows p d = Ok (bool_decide Q).
Proof.
  intros Hd Hp HQ. unfold all_rows.
  destruct (rows_from_spec p P d D (length d) 0 Hd Hp) as (b & -> & Hb);
    [lia|pose proof (sf_len _ _ Hd); unfold zlen in *; lia|].
  f_equal. apply eq_bool_prop_intro. by rewrite bool_decide_spec, Is_true_true, Hb, HQ.
Qed.

Lemma decided {X} (m : outcome bool) (Q : Prop) `{!Decision Q} (_ : X) :
  m = Ok (bool_decide Q) -> exists b, m = Ok b /\ (b = true <-> Q).
Proof. intros ->. eexists. split; [done|]. apply bool_decide_eq_true. Qed.

Lemma nd_isEmpty_spec d D : stands_for d D -> nd_isEmpty d = Ok (bool_decide (D = ∅)).
Proof.
  intros Hd. apply (all_rows_spec _ (fun i => row D i = ∅) _ d D Hd).
  - intros i s Hi Hs. destruct (row_of_reads d D d D i s s Hd Hd Hs Hs) as (Hr & _).
    apply (decided _ _ tt), isEmpty_spec, Hr.
  - split; [intros ->; intros; apply set_eq; intros j; rewrite elem_of_row; set_solver|].
    intros H. apply set_eq. intros [i j]. split; [|set_solver]. intros Hij.
    destruct (sf_valid _ _ Hd i j Hij) as (n & Hn & _). rewrite <- elem_of_row, H in Hij; [set_solver|].
    by apply counts_range in Hn.
Qed.

Lemma nd_isSuperset_spec d D e E :
  stands_for d D -> stands_for e E -> nd_isSuperset d e = Ok (bool_decide (E ⊆ D)).
Proof.
  intros Hd He. unfold nd_isSuperset. rewrite cassert_true, bind_of_ok
    by (apply Z.eqb_eq; rewrite (sf_len _ _ Hd), (sf_len _ _ He); done).
  apply (all_rows_spec _ (fun i => row E i ⊆ row D i) _ d D Hd).
  - intros i s Hi Hs. destruct (row_at e E i He Hi) as (n & t & _ & Ht & _).
    destruct (row_of_reads d D e E i s t Hd He Hs Ht) as (H1 & H2 & H3).
    rewrite (vref_in e i t Ht), bind_of_ok. apply (decided _ _ tt). by apply isSuperset_spec.
  - split.
    + intros H i _ j. rewrite !elem_of_row. apply H.
    + intros H [i j] Hij. destruct (sf_valid _ _ He i j Hij) as (n & Hn & _).
      apply elem_of_row, H, elem_of_row, Hij. by apply counts_range in Hn.
Qed.

Lemma nd_intersectionIsNotEmpty_spec d D e E :
  stands_for d D -> stands_for e E ->
  nd_intersectionIsNotEmpty d e = Ok (bool_decide (D ∩ E <> ∅)).
Proof.
  intros Hd He. unfold nd_intersectionIsNotEmpty. rewrite cassert_true, bind_of_ok
    by (apply Z.eqb_eq; rewrite (sf_len _ _ Hd), (sf_len _ _ He); done).
  rewrite (all_rows_spec _ (fun i => row D i ∩ row E i = ∅) (D ∩ E = ∅) d D Hd).
  - rewrite bind_of_ok. unfold mret, outcome_ret. f_equal. symmetry. apply bool_decide_not.
  - intros i s Hi Hs. destruct (row_at e E i He Hi) as (n & t & _ & Ht & _).
    destruct (row_of_reads d D e E i s t Hd He Hs Ht) as (H1 & H2 & H3).
    rewrite (vref_in e i t Ht), bind_of_ok. unfold intersectionIsNotEmpty.
    rewrite (disjoint_words s _ t _ H1 H2 H3), !bind_of_ok, negb_involutive.
    by apply (decided _ _ tt).
  - setoid_rewrite <- row_intersection. split.
    + intros -> i _. apply set_eq. intros j. rewrite elem_of_row. set_solver.
    + intros H. apply set_eq. intros [i j]. split; [|set_solver]. intros Hij.
      assert ((i, j) ∈ D) as HD by set_solver.
      destruct (sf_valid _ _ Hd i j HD) as (n & Hn & _). rewrite <- elem_of_row, H in Hij; [set_solver|].
      by apply counts_range in Hn.
Qed.

(** ** Broadcast and counting *)

(** Every machine of type [t] below number [k]. *)
Definition machines_below (t k : Z) : gset (Z * Z) := set_map (pair t) (all_nodes k).

Lemma elem_of_machines_below t k i j : (i, j) ∈ machines_below t k <-> i = t /\ 0 <= j < k.
Proof.
  unfold machines_below. rewrite elem_of_map. setoid_rewrite elem_of_all_nodes. naive_solver.
Qed.

Lemma broadcast_type_spec d D t n :
  stands_for d D -> zread counts t = Some n ->
  exists d', broadcast_type counts d t = Ok d' /\ stands_for d' (D ∪ machines_below t n).
Proof.
  intros Hd Hn. unfold broadcast_type, MachineType_base_count. rewrite Hn, bind_of_ok.
  destruct (counts_at t (counts_range _ _ Hn)) as (n' & Hn' & Hr). simplify_eq.
  destruct (for_range_inv (fun k e => 0 <= k <= n /\ stands_for e (D ∪ machines_below t k)) 0 n
    (fun i d => nd_add counts d (mkMachineID t i)) d) as (d' & E & _ & Hd'); [lia| | |by exists d'].
  - split; [lia|]. assert (D ∪ machines_below t 0 = D) as ->; [|done].
    apply set_eq. intros [i j]. rewrite elem_of_union, elem_of_machines_below.
    split; [intros [H|[_ H]]; [done|lia]|by left].
  - intros k e Hk [_ He]. destruct (nd_add_spec e _ (mkMachineID t k) He) as (e' & E & He'); [by exists n|].
    exists e'. split; [done|]. split; [lia|]. simpl in He'.
    assert (D ∪ machines_below t (k + 1) = {[(t, k)]} ∪ (D ∪ machines_below t k)) as ->; [|done].
    apply set_eq. intros [i j]. rewrite !elem_of_union, elem_of_singleton, !elem_of_machines_below.
    split; [|intros [[= -> ->]|[H|[-> Hj]]]; [right; lia|by left|right; lia]].
    intros [H|[-> Hj]]; [by right; left|].
    destruct (Z.eq_dec j k) as [->|]; [by left|]. right. right. lia.
Qed.

(** broadcast makes every machine of every type a destination, and nothing that does not
    exist. *)
Theorem nd_broadcast_reaches_all d D :
  stands_for d D ->
  exists d' D', nd_broadcast counts d = Ok d' /\ stands_for d' D' /\
    forall i j, (i, j) ∈ D' <-> valid i j.
Proof.
  intros Hd. unfold nd_broadcast.
  destruct (for_range_inv (fun k e => 0 <= k <= MachineType_NUM counts /\ exists D', stands_for e D' /\
      forall i j, i < k -> valid i j -> (i, j) ∈ D') 0 (MachineType_NUM counts)
    (fun t d => broadcast_type counts d t) d) as (d' & E & _ & D' & Hd' & HD').
  - apply zlen_nonneg.
  - split; [split; [lia|apply zlen_nonneg]|]. exists D. split; [done|].
    intros i j Hi (n & Hn%counts_range & _). lia.
  - intros k e Hk (_ & D' & He & HD'). destruct (counts_at k Hk) as (n & Hn & _).
    destruct (broadcast_type_spec e D' k n He Hn) as (e' & E & He'). exists e'.
    split; [done|]. split; [lia|]. exists (D' ∪ machines_below k n). split; [done|].
    intros i j Hi Hv. rewrite elem_of_union, elem_of_machines_below.
    destruct (Z.eq_dec i k) as [->|]; [|left; apply HD'; [lia|done]].
    right. destruct Hv as (n' & Hn' & Hj). simplify_eq. done.
  - exists d', D'. split_and!; [done|done|]. intros i j. split; [apply Hd'|].
    intros Hv. apply HD'; [|done]. destruct Hv as (n & Hn%counts_range & _). lia.
Qed.

(** For a machine that exists, isElement decides whether it is a destination, add makes
    it one and remove takes it out. *)
Theorem NetDest_elements_refine d D m :
  stands_for d D -> valid (mtype m) (num m) ->
  nd_isElement counts d m = Ok (bool_decide ((mtype m, num m) ∈ D)) /\
  (exists d', nd_add counts d m = Ok d' /\ stands_for d' ({[(mtype m, num m)]} ∪ D)) /\
  (exists d', nd_remove counts d m = Ok d' /\ stands_for d' (D ∖ {[(mtype m, num m)]})).
Proof.
  intros Hd Hv. split_and!; [by apply nd_isElement_spec|by apply nd_add_spec|by apply nd_remove_spec].
Qed.

(** When every machine type has instances, the operations of NetDest are those of sets
    of machines: addNetDest and OR are union, removeNetDest difference, AND
    intersection, and isEmpty, isSuperset and intersectionIsNotEmpty decide emptiness,
    inclusion and overlap. *)
Theorem NetDest_algebra_refines d D e E :
  inhabited_types -> stands_for d D -> stands_for e E ->
  (exists r, addNetDest d e = Ok r /\ stands_for r (D ∪ E)) /\
  (exists r, removeNetDest d e = Ok r /\ stands_for r (D ∖ E)) /\
  (exists r, nd_OR counts d e = Ok r /\ stands_for r (D ∪ E)) /\
  (exists r, nd_AND counts d e = Ok r /\ stands_for r (D ∩ E)) /\
  nd_isEmpty d = Ok (bool_decide (D = ∅)) /\
  nd_isSuperset d e = Ok (bool_decide (E ⊆ D)) /\
  nd_intersectionIsNotEmpty d e = Ok (bool_decide (D ∩ E <> ∅)).
Proof.
  intros Hp Hd He. split_and!.
  - by apply addNetDest_spec.
  - by apply removeNetDest_spec.
  - by apply nd_OR_spec.
  - by apply nd_AND_spec.
  - by apply nd_isEmpty_spec.
  - by apply nd_isSuperset_spec.
  - by apply nd_intersectionIsNotEmpty_spec.
Qed.

End correctness.

(** Three machine types with four, two and one instance. *)
Definition demo_counts : list Z := [4; 2; 1].
Definition demo_dest : list NodeSet :=
  Eval vm_compute in from_ok (d ← NetDest_new demo_counts; nd_add demo_counts d (mkMachineID 1 1)).

Lemma demo_counts_ok : Forall (fun n => 0 <= n < 2 ^ 31) demo_counts.
Proof. repeat constructor; lia. Qed.

Lemma demo_valid : valid demo_counts 1 1.
Proof. exists 2. split; [reflexivity|lia]. Qed.

Lemma demo_dest_ok : stands_for demo_counts demo_dest {[(1, 1)]}.
Proof.
  destruct (NetDest_new_spec demo_counts demo_counts_ok) as (d & E & Hd).
  destruct (nd_add_spec demo_counts demo_counts_ok d ∅ (mkMachineID 1 1) Hd demo_valid) as (d' & E' & Hd').
  vm_compute in E. injection E as <-. vm_compute in E'. injection E' as <-.
  by rewrite union_empty_r_L in Hd'.
Qed.

Lemma nd_broadcast_reaches_all_witness :
  exists d' D', nd_broadcast demo_counts demo_dest = Ok d' /\ stands_for demo_counts d' D' /\
    forall i j, (i, j) ∈ D' <-> valid demo_counts i j.
Proof. exact (nd_broadcast_reaches_all demo_counts demo_counts_ok demo_dest _ demo_dest_ok). Defined.

Lemma NetDest_elements_refine_witness :
  nd_isElement demo_counts demo_dest (mkMachineID 1 1) = Ok (bool_decide ((1, 1) ∈ ({[(1, 1)]} : gset (Z * Z)))) /\
  (exists d', nd_add demo_counts demo_dest (mkMachineID 1 1) = Ok d' /\
     stands_for demo_counts d' ({[(1, 1)]} ∪ {[(1, 1)]})) /\
  (exists d', nd_remove demo_counts demo_dest (mkMachineID 1 1) = Ok d' /\
     stands_for demo_counts d' ({[(1, 1)]} ∖ {[(1, 1)]})).
Proof.
  exact (NetDest_elements_refine demo_counts demo_counts_ok demo_dest _ (mkMachineID 1 1)
           demo_dest_ok demo_valid).
Defined.

Lemma NetDest_algebra_refines_witness :
  (exists r, addNetDest demo_dest demo_dest = Ok r /\ stands_for demo_counts r ({[(1, 1)]} ∪ {[(1, 1)]})) /\
  (exists r, removeNetDest demo_dest demo_dest = Ok r /\ stands_for demo_counts r ({[(1, 1)]} ∖ {[(1, 1)]})) /\
  (exists r, nd_OR demo_counts demo_dest demo_dest = Ok r /\ stands_for demo_counts r ({[(1, 1)]} ∪ {[(1, 1)]})) /\
  (exists r, nd_AND demo_counts demo_dest demo_dest = Ok r /\ stands_for demo_counts r ({[(1, 1)]} ∩ {[(1, 1)]})) /\
  nd_isEmpty demo_dest = Ok (bool_decide (({[(1, 1)]} : gset (Z * Z)) = ∅)) /\
  nd_isSuperset demo_dest demo_dest = Ok (bool_decide (({[(1, 1)]} : gset (Z * Z)) ⊆ {[(1, 1)]})) /\
  nd_intersectionIsNotEmpty demo_dest demo_dest =
    Ok (bool_decide (({[(1, 1)]} : gset (Z * Z)) ∩ {[(1, 1)]} <> ∅)).
Proof.
  apply (NetDest_algebra_refines demo_counts demo_counts_ok demo_dest _ demo_dest _);
    [|exact demo_dest_ok|exact demo_dest_ok]. repeat constructor.
Defined.

(** OR stops at an assertion when a machine type has no instance, where addNetDest does
    not. *)
Theorem NetDest_OR_needs_instances :
  exists d, NetDest_new [4; 0] = Ok d /\ nd_isEmpty d = Ok true /\
    is_ok (addNetDest d d) /\ nd_OR [4; 0] d d = Err AssertFailed.
Proof.
  eexists. split; [vm_compute; reflexivity|]. split; [vm_compute; reflexivity|].
  split; [eexists|]; vm_compute; reflexivity.
Qed.
