(* ===== verification/Mapping.v ===== *)
(** [slicc_interface/RubySlicc_ComponentMapping.h]: which machine is responsible
    for an address, and which machines share a chip.

    The numbers of the machine types are generated with the protocol and are
    parameters. *)

From S2P Require Import Prelude Config Address NodeSet NetDest.

Section mapping.
  Context (cfg : RubyConfig) (counts : list Z).
  Context (MACHINETYPE_L1CACHE_ENUM MACHINETYPE_L2CACHE_ENUM MachineType_Directory
           MACHINETYPE_PERSISTENTARBITER_ENUM MACHINETYPE_COLLECTOR_ENUM : Z).
  Implicit Types addr : Z.

Definition map_address_to_L1CacheSet addr (cache_num_set_bits : Z) : outcome Z :=
  r ← bitSelect addr (dataBlockBits cfg) (dataBlockBits cfg + cache_num_set_bits - 1); mret (s32 r).

Definition map_address_to_L2CacheSet addr (cache_num_set_bits : Z) : outcome Z :=
  r ← (if MAP_L2BANKS_TO_LOWEST_BITS cfg then
         bitSelect addr (dataBlockBits cfg + L2CachePerChipBits cfg)
           (dataBlockBits cfg + L2CachePerChipBits cfg + cache_num_set_bits - 1)
       else bitSelect addr (dataBlockBits cfg) (dataBlockBits cfg + cache_num_set_bits - 1));
  mret (s32 r).

(** The bank within a chip, computed alike by the two mappings to L2 caches. *)
Definition L2bank addr : outcome Z :=
  b ← (if 0 <? L2CachePerChipBits cfg then
         r ← (if MAP_L2BANKS_TO_LOWEST_BITS cfg then
                bitSelect addr (dataBlockBits cfg) (dataBlockBits cfg + L2CachePerChipBits cfg - 1)
              else
                bitSelect addr (dataBlockBits cfg + L2_CACHE_NUM_SETS_BITS cfg)
                  (dataBlockBits cfg + L2_CACHE_NUM_SETS_BITS cfg + L2CachePerChipBits cfg - 1));
         mret (s32 r)
       else mret 0);
  cassert (b <? numberOfL2CachePerChip cfg);;
  cassert (0 <=? b);;
  mret b.

Definition map_L1CacheMachId_to_L2Cache addr (L1CacheMachId : MachineID) : outcome MachineID :=
  b ← L2bank addr;
  let n := L1CacheNumToL2Base cfg (num L1CacheMachId) * numberOfL2CachePerChip cfg + b in
  cassert (n <? numberOfL2Cache cfg);;
  mret (mkMachineID MACHINETYPE_L2CACHE_ENUM n).

Definition map_L2ChipId_to_L2Cache addr (L2ChipId : Z) : outcome MachineID :=
  cassert (L2ChipId <? numberOfChips cfg);;
  b ← L2bank addr;
  let n := L2ChipId * numberOfL2CachePerChip cfg + b in
  cassert (n <? numberOfL2Cache cfg);;
  mret (mkMachineID MACHINETYPE_L2CACHE_ENUM n).

Definition map_Address_to_DirectoryNode addr : outcome Z :=
  dirNode ← (if 0 <? memoryBits cfg then
               r ← bitSelect addr (dataBlockBits cfg) (dataBlockBits cfg + memoryBits cfg - 1);
               mret (s32 r)
             else mret 0);
  cassert (dirNode <? numberOfMemories cfg);;
  cassert (0 <=? dirNode);;
  mret dirNode.

Definition map_Address_to_Directory addr : outcome MachineID :=
  n ← map_Address_to_DirectoryNode addr; mret (mkMachineID MachineType_Directory n).

Definition map_Address_to_CentralArbiterNode addr : outcome MachineID :=
  n ← map_Address_to_DirectoryNode addr;
  cassert (n <? numberOfMemories cfg);;
  cassert (0 <=? n);;
  mret (mkMachineID MACHINETYPE_PERSISTENTARBITER_ENUM n).

Definition getMultiStaticL2BankNetDest addr (sharers : NodeSet) : outcome (list NodeSet) :=
  dest ← NetDest_new counts;
  for_range 0 (getSize sharers)
    (fun i dest => b ← isElement sharers i;
       if b : bool then m ← map_L2ChipId_to_L2Cache addr i; nd_add counts dest m else mret dest) dest.

(** [for (i = start; i < start + n; i++) if (keep i) ret.add({L1, i})]. *)
Definition add_L1s (keep : Z → bool) (start n : Z) (ret : list NodeSet) : outcome (list NodeSet) :=
  for_range start (start + n)
    (fun i ret => if keep i then nd_add counts ret (mkMachineID MACHINETYPE_L1CACHE_ENUM i)
                  else mret ret) ret.

Definition L1_defined : bool := negb (MACHINETYPE_L1CACHE_ENUM =? MachineType_NUM counts).

Definition getOtherLocalL1IDs (L1 : MachineID) : outcome (list NodeSet) :=
  let start := Z.quot (num L1) (numberOfProcsPerChip cfg) * numberOfProcsPerChip cfg in
  ret ← NetDest_new counts;
  cassert L1_defined;;
  add_L1s (fun i => negb (i =? num L1)) start (numberOfProcsPerChip cfg) ret.

Definition getLocalL1IDs (mach : MachineID) : outcome (list NodeSet) :=
  cassert L1_defined;;
  ret ← NetDest_new counts;
  if mtype mach =? MACHINETYPE_L1CACHE_ENUM then
    let start := Z.quot (num mach) (numberOfL1CachePerChip cfg) * numberOfProcsPerChip cfg in
    add_L1s (fun _ => true) start (numberOfProcsPerChip cfg) ret
  else if mtype mach =? MACHINETYPE_L2CACHE_ENUM then
    let chip := Z.quot (num mach) (numberOfL2CachePerChip cfg) in
    let start := chip * numberOfL1CachePerChip cfg in
    add_L1s (fun _ => true) start (numberOfL1CachePerChip cfg) ret
  else mret ret.

Definition getExternalL1IDs (L1 : MachineID) : outcome (list NodeSet) :=
  ret ← NetDest_new counts;
  cassert L1_defined;;
  ret ← add_L1s (fun _ => true) 0 (numberOfProcessors cfg) ret;
  local ← getLocalL1IDs L1;
  removeNetDest ret local.

Definition isLocalProcessor (thisId tarID : MachineID) : bool :=
  let start := Z.quot (num thisId) (numberOfProcsPerChip cfg) * numberOfProcsPerChip cfg in
  match search start (start + numberOfProcsPerChip cfg) (fun i => i =? num tarID) with
  | Some _ => true
  | None => false
  end.

Definition getAllPertinentL2Banks addr : outcome (list NodeSet) :=
  dest ← NetDest_new counts;
  for_range 0 (numberOfChips cfg)
    (fun i dest => m ← map_L2ChipId_to_L2Cache addr i; nd_add counts dest m) dest.

Definition isL1OnChip (L1machID : MachineID) (L2NodeID : Z) : bool :=
  if mtype L1machID =? MACHINETYPE_L1CACHE_ENUM then num L1machID =? L2NodeID else false.
Definition isL2OnChip (L2machID : MachineID) (L2NodeID : Z) : bool :=
  if mtype L2machID =? MACHINETYPE_L2CACHE_ENUM then num L2machID =? L2NodeID else false.

Definition closest_clockwise_distance (this_node next_node : Z) : Z :=
  if this_node <=? next_node then next_node - this_node
  else next_node - this_node + numberOfChips cfg.
Definition closer_clockwise_processor (this_node newer older : Z) : bool :=
  closest_clockwise_distance this_node newer <? closest_clockwise_distance this_node older.

Definition getChipID (L2machID : MachineID) : Z :=
  Z.quot (Z.rem (num L2machID) (numberOfChips cfg)) (numberOfProcsPerChip cfg).
Definition machineIDToNodeID (machID : MachineID) : Z := num machID.
Definition machineIDToVersion (machID : MachineID) : Z := Z.quot (num machID) (numberOfChips cfg).
Definition machineIDToMachineType (machID : MachineID) : Z := mtype machID.
Definition L1CacheMachIDToProcessorNum (machID : MachineID) : outcome Z :=
  cassert (mtype machID =? MACHINETYPE_L1CACHE_ENUM);; mret (num machID).
Definition L2CacheMachIDToChipID (machID : MachineID) : outcome Z :=
  cassert (mtype machID =? MACHINETYPE_L2CACHE_ENUM);;
  mret (Z.quot (num machID) (numberOfL2CachePerChip cfg)).
Definition getCollectorDest (L1MachID : MachineID) : MachineID :=
  mkMachineID MACHINETYPE_COLLECTOR_ENUM (num L1MachID).

(** * Where an address lives *)

  Context (Hcfg : configured cfg).

Lemma bits_field addr lo n :
  is_address addr -> 0 <= lo -> 0 < n -> lo + n <= 63 -> n < 32 ->
  (r ← bitSelect addr lo (lo + n - 1); mret (s32 r)) = Ok ((addr / 2 ^ lo) mod 2 ^ n).
Proof.
  intros Ha Hlo Hn Hb H32. rewrite bitSelect_val, bind_of_ok by (done || lia).
  replace (lo + n - 1 - lo + 1) with n by lia. unfold mret, outcome_ret. f_equal.
  assert (0 < 2 ^ n) by (apply Z.pow_pos_nonneg; lia).
  pose proof (Z.mod_pos_bound (addr / 2 ^ lo) (2 ^ n) ltac:(done)).
  assert (2 ^ n <= 2 ^ 31) by (apply Z.pow_le_mono_r; lia).
  apply swrap_small; lia.
Qed.

Lemma DirectoryNode_val addr :
  is_address addr -> g_NUM_MEMORIES cfg <> 0 ->
  map_Address_to_DirectoryNode addr = Ok ((addr / dataBlockBytes cfg) mod numberOfMemories cfg).
Proof.
  intros Ha Hm. destruct (cf_block _ Hcfg) as [EB HB]. pose proof (cf_memories_bits _ Hcfg) as HMb.
  destruct (cf_memories _ Hcfg) as [|EM]; [done|]. unfold map_Address_to_DirectoryNode.
  unfold dataBlockBits, dataBlockBytes, memoryBits, numberOfMemories in *.
  assert (0 < 2 ^ g_NUM_MEMORIES_BITS cfg) as Hp by (apply Z.pow_pos_nonneg; lia).
  destruct (Z.ltb_spec 0 (g_NUM_MEMORIES_BITS cfg)) as [H0|H0].
  - rewrite bits_field, bind_of_ok by (done || lia). rewrite <- EB, <- EM.
    pose proof (Z.mod_pos_bound (addr / g_DATA_BLOCK_BYTES cfg) (g_NUM_MEMORIES cfg) ltac:(lia)).
    rewrite !cassert_true; [done|apply Z.ltb_lt; lia|apply Z.leb_le; lia].
  - rewrite bind_of_ok. replace (g_NUM_MEMORIES_BITS cfg) with 0 in EM by lia.
    rewrite EM, Z.pow_0_r, Z.mod_1_r. done.
Qed.

Lemma memoryModuleIndex_val addr :
  0 <= addr < g_MEMORY_SIZE_BYTES cfg -> g_NUM_MEMORIES cfg <> 0 ->
  memoryModuleIndex cfg addr = Ok (addr / dataBlockBytes cfg / numberOfMemories cfg).
Proof.
  intros Ha Hm. destruct (cf_block _ Hcfg) as [EB HB]. pose proof (cf_memories_bits _ Hcfg) as HMb.
  destruct (cf_memories _ Hcfg) as [|EM]; [done|]. destruct (cf_memory _ Hcfg) as [ES HS].
  destruct (cf_module _ Hcfg) as (EK & HK & Hsum).
  assert (g_MEMORY_SIZE_BYTES cfg < 2 ^ 63) by (rewrite ES; apply Z.pow_lt_mono_r; lia).
  unfold memoryModuleIndex, dataBlockBits, dataBlockBytes, memoryBits, numberOfMemories,
    memoryModuleBlocks, ADDRESS_WIDTH in *.
  set (B := g_DATA_BLOCK_BITS cfg) in *. set (M := g_NUM_MEMORIES_BITS cfg) in *.
  assert (0 < 2 ^ B /\ 0 < 2 ^ M) as [HpB HpM] by (split; apply Z.pow_pos_nonneg; lia).
  rewrite bitSelect_val, bind_of_ok by (unfold is_address; lia).
  assert ((addr / 2 ^ (B + M)) mod 2 ^ (64 - (B + M) + 1) = addr / g_DATA_BLOCK_BYTES cfg / g_NUM_MEMORIES cfg) as ->.
  { rewrite EB, EM, Z.div_div, <- Z.pow_add_r by lia. apply Z.mod_small.
    assert (0 < 2 ^ (B + M)) by (apply Z.pow_pos_nonneg; lia).
    split; [apply Z.div_pos; lia|]. apply Z.div_lt_upper_bound; [done|]. rewrite <- Z.pow_add_r by lia.
    apply Z.lt_le_trans with (2 ^ 63); [lia|]. apply Z.pow_le_mono_r; lia. }
  rewrite EB, EM, Z.div_div by lia. rewrite <- Z.pow_add_r by lia.
  assert (0 <= addr / 2 ^ (B + M) < 2 ^ g_MEMORY_MODULE_BITS cfg) as Hr.
  { assert (0 < 2 ^ (B + M)) by (apply Z.pow_pos_nonneg; lia).
    split; [apply Z.div_pos; lia|]. apply Z.div_lt_upper_bound; [done|]. rewrite <- Z.pow_add_r by lia.
    replace (B + M + g_MEMORY_MODULE_BITS cfg) with (g_MEMORY_SIZE_BITS cfg) by lia. lia. }
  assert (2 ^ g_MEMORY_MODULE_BITS cfg < 2 ^ 63) by (apply Z.pow_lt_mono_r; lia).
  rewrite swrap_small by lia. rewrite !cassert_true; [done|apply Z.leb_le; lia|apply Z.ltb_lt; lia].
Qed.

(** Each line of the physical memory has one home: the directory node and the index
    within its memory module are in range, they determine the line, and the line is the
    one at that place of the interleaving. *)
Theorem home_is_a_bijection addr :
  g_NUM_MEMORIES cfg <> 0 -> 0 <= addr < g_MEMORY_SIZE_BYTES cfg ->
  exists node index, map_Address_to_DirectoryNode addr = Ok node /\ memoryModuleIndex cfg addr = Ok index /\
    0 <= node < numberOfMemories cfg /\ 0 <= index < memoryModuleBlocks cfg /\
    makeLineAddress cfg addr = Ok ((index * numberOfMemories cfg + node) * dataBlockBytes cfg) /\
    forall addr', 0 <= addr' < g_MEMORY_SIZE_BYTES cfg ->
      map_Address_to_DirectoryNode addr' = Ok node -> memoryModuleIndex cfg addr' = Ok index ->
      makeLineAddress cfg addr' = makeLineAddress cfg addr.
Proof.
  intros Hm Ha. destruct (cf_memory _ Hcfg) as [ES HS].
  assert (g_MEMORY_SIZE_BYTES cfg < 2 ^ 63) as H63 by (rewrite ES; apply Z.pow_lt_mono_r; lia).
  assert (forall a, 0 <= a < g_MEMORY_SIZE_BYTES cfg -> is_address a) as Hia by (unfold is_address; lia).
  pose proof (memoryModuleIndex_val addr Ha Hm) as Ei.
  assert (0 < numberOfMemories cfg) as Hnm.
  { destruct (cf_memories _ Hcfg) as [|EM]; [done|]. unfold numberOfMemories. rewrite EM.
    apply Z.pow_pos_nonneg; [lia|]. apply Hcfg. }
  eexists _, _. split; [by apply DirectoryNode_val; [apply Hia|]|]. split; [exact Ei|].
  split; [by apply Z.mod_pos_bound|]. split.
  { unfold memoryModuleIndex in Ei. ok_inv. to_prop. subst. lia. }
  assert (forall a, 0 <= a < g_MEMORY_SIZE_BYTES cfg -> makeLineAddress cfg a =
    Ok ((a / dataBlockBytes cfg / numberOfMemories cfg * numberOfMemories cfg +
         (a / dataBlockBytes cfg) mod numberOfMemories cfg) * dataBlockBytes cfg)) as Hl.
  { intros a Hra. rewrite makeLineAddress_val by auto. do 2 f_equal.
    pose proof (Z.div_mod (a / dataBlockBytes cfg) (numberOfMemories cfg)). lia. }
  split; [by apply Hl|]. intros a' Ha' En Ei'. rewrite !Hl by done.
  rewrite DirectoryNode_val in En by auto. rewrite memoryModuleIndex_val in Ei' by auto.
  injection En as ->. injection Ei' as ->. done.
Qed.

(** * L2 banks *)

(** The lowest bit of the bank number, and of the set number. *)
Definition bank_lo : Z :=
  dataBlockBits cfg + (if MAP_L2BANKS_TO_LOWEST_BITS cfg then 0 else L2_CACHE_NUM_SETS_BITS cfg).
Definition set_lo : Z :=
  dataBlockBits cfg + (if MAP_L2BANKS_TO_LOWEST_BITS cfg then L2CachePerChipBits cfg else 0).

(** The set and bank fields fit an address and an [int]. *)
Definition l2_fits : Prop :=
  dataBlockBits cfg + L2CachePerChipBits cfg + L2_CACHE_NUM_SETS_BITS cfg <= 63 /\
  L2_CACHE_NUM_SETS_BITS cfg < 32.

Lemma L2bank_val addr :
  is_address addr -> l2_fits -> L2bank addr = Ok ((addr / 2 ^ bank_lo) mod numberOfL2CachePerChip cfg).
Proof.
  intros Ha [Hfit _]. destruct (cf_block _ Hcfg) as [_ HB]. destruct (cf_l2_per_chip _ Hcfg) as [E Hb].
  pose proof (cf_l2_sets _ Hcfg) as Hs. unfold L2bank, bank_lo.
  unfold dataBlockBits, L2CachePerChipBits, numberOfL2CachePerChip in *.
  set (b := g_NUM_L2_BANKS_PER_CHIP_BITS cfg) in *. set (B := g_DATA_BLOCK_BITS cfg) in *.
  set (lo := B + (if MAP_L2BANKS_TO_LOWEST_BITS cfg then 0 else L2_CACHE_NUM_SETS_BITS cfg)).
  assert (0 < 2 ^ b) as Hp by (apply Z.pow_pos_nonneg; lia).
  pose proof (Z.mod_pos_bound (addr / 2 ^ lo) (g_NUM_L2_BANKS_PER_CHIP cfg) ltac:(lia)) as Hm.
  assert ((if 0 <? b then
      r ← (if MAP_L2BANKS_TO_LOWEST_BITS cfg then bitSelect addr B (B + b - 1)
           else bitSelect addr (B + L2_CACHE_NUM_SETS_BITS cfg) (B + L2_CACHE_NUM_SETS_BITS cfg + b - 1));
      mret (s32 r) else mret 0) = Ok ((addr / 2 ^ lo) mod g_NUM_L2_BANKS_PER_CHIP cfg)) as ->.
  { destruct (Z.ltb_spec 0 b).
    - rewrite E. unfold lo. destruct (MAP_L2BANKS_TO_LOWEST_BITS cfg).
      + rewrite Z.add_0_r. apply bits_field; (done || lia).
      + apply bits_field; (done || lia).
    - rewrite E. replace b with 0 by lia. by rewrite Z.pow_0_r, Z.mod_1_r. }
  rewrite bind_of_ok, !cassert_true; [done|apply Z.ltb_lt; lia|apply Z.leb_le; lia].
Qed.

Lemma L2CacheSet_val addr :
  is_address addr -> l2_fits ->
  map_address_to_L2CacheSet addr (L2_CACHE_NUM_SETS_BITS cfg) =
    Ok ((addr / 2 ^ set_lo) mod 2 ^ L2_CACHE_NUM_SETS_BITS cfg).
Proof.
  intros Ha [Hfit H32]. destruct (cf_block _ Hcfg) as [_ HB]. destruct (cf_l2_per_chip _ Hcfg) as [_ Hb].
  pose proof (cf_l2_sets _ Hcfg) as Hs. unfold map_address_to_L2CacheSet, set_lo.
  unfold dataBlockBits, L2CachePerChipBits in *. destruct (MAP_L2BANKS_TO_LOWEST_BITS cfg).
  - apply bits_field; (done || lia).
  - rewrite Z.add_0_r. apply bits_field; (done || lia).
Qed.

Lemma chips_pos : 0 < numberOfChips cfg.
Proof. destruct (cf_chips _ Hcfg) as [E Hc]. unfold numberOfChips. rewrite E. apply Z.pow_pos_nonneg; lia. Qed.
Lemma procs_pos : 0 < numberOfProcsPerChip cfg.
Proof. destruct (cf_procs _ Hcfg) as [E Hc]. unfold numberOfProcsPerChip. rewrite E. apply Z.pow_pos_nonneg; lia. Qed.
Lemma banks_pos : 0 < numberOfL2CachePerChip cfg.
Proof.
  destruct (cf_l2_per_chip _ Hcfg) as [E Hc]. unfold numberOfL2CachePerChip. rewrite E.
  apply Z.pow_pos_nonneg; lia.
Qed.

Lemma map_L2ChipId_val addr chip :
  is_address addr -> l2_fits -> 0 <= chip < numberOfChips cfg ->
  map_L2ChipId_to_L2Cache addr chip = Ok (mkMachineID MACHINETYPE_L2CACHE_ENUM
    (chip * numberOfL2CachePerChip cfg + (addr / 2 ^ bank_lo) mod numberOfL2CachePerChip cfg)).
Proof.
  intros Ha Hf Hc. unfold map_L2ChipId_to_L2Cache. rewrite cassert_true, bind_of_ok by (apply Z.ltb_lt; lia).
  rewrite L2bank_val, bind_of_ok by done. pose proof banks_pos as Hb.
  pose proof (Z.mod_pos_bound (addr / 2 ^ bank_lo) _ Hb) as Hm. destruct (cf_l2 _ Hcfg) as [El2 _].
  unfold numberOfL2Cache, numberOfL2CachePerChip, numberOfChips in *.
  rewrite cassert_true; [done|]. apply Z.ltb_lt. nia.
Qed.

(** The L2 bank a processor's L1 cache uses for an address exists, lies on the
    processor's own chip, and is the bank that the mapping by chip number gives. *)
Theorem L2_of_processor_is_on_its_chip addr p :
  is_address addr -> l2_fits -> 0 <= p < numberOfProcessors cfg ->
  exists m, map_L1CacheMachId_to_L2Cache addr (mkMachineID MACHINETYPE_L1CACHE_ENUM p) = Ok m /\
    map_L2ChipId_to_L2Cache addr (p / numberOfProcsPerChip cfg) = Ok m /\
    L2CacheMachIDToChipID m = Ok (p / numberOfProcsPerChip cfg) /\
    0 <= num m < numberOfL2Cache cfg.
Proof.
  intros Ha Hf Hp. pose proof chips_pos as Hcp. pose proof procs_pos as Hpp. pose proof banks_pos as Hb.
  assert (0 <= p / numberOfProcsPerChip cfg < numberOfChips cfg) as Hchip.
  { split; [apply Z.div_pos; lia|]. apply Z.div_lt_upper_bound; [done|].
    pose proof (cf_processors _ Hcfg) as E. unfold numberOfProcessors, numberOfChips, numberOfProcsPerChip in *.
    lia. }
  pose proof (map_L2ChipId_val addr _ Ha Hf Hchip) as E2. rewrite E2. eexists. split; [|split; [done|]].
  - unfold map_L1CacheMachId_to_L2Cache. rewrite L2bank_val, bind_of_ok by done. simpl.
    unfold map_L2ChipId_to_L2Cache in E2. rewrite L2bank_val in E2 by done. ok_inv.
    unfold L1CacheNumToL2Base. rewrite Z.quot_div_nonneg by (unfold numberOfProcsPerChip in *; lia).
    unfold numberOfProcsPerChip in *. subst. rewrite cassert_true; [done|]. simplify_eq. done.
  - unfold L2CacheMachIDToChipID. simpl. rewrite Z.eqb_refl. simpl.
    pose proof (Z.mod_pos_bound (addr / 2 ^ bank_lo) _ Hb) as Hm.
    set (k := p / numberOfProcsPerChip cfg) in *. set (r := _ mod _) in *. split.
    + f_equal. rewrite Z.quot_div_nonneg by nia. symmetry.
      apply (Z.div_unique_pos _ _ _ r); [done|lia].
    + destruct (cf_l2 _ Hcfg) as [El2 _].
      unfold numberOfL2Cache, numberOfL2CachePerChip, numberOfChips in *. nia.
Qed.

(** A number above bit [B] is two adjacent fields and what lies above them. *)
Lemma bits_split a B x y :
  0 <= B -> 0 <= x -> 0 <= y ->
  a / 2 ^ B = (a / 2 ^ (B + x + y)) * 2 ^ (x + y) + (a / 2 ^ (B + x)) mod 2 ^ y * 2 ^ x +
              (a / 2 ^ B) mod 2 ^ x.
Proof.
  intros HB Hx Hy. rewrite !Z.pow_add_r by lia.
  assert (0 < 2 ^ B) by (apply Z.pow_pos_nonneg; lia). assert (0 < 2 ^ x) by (apply Z.pow_pos_nonneg; lia).
  assert (0 < 2 ^ y) by (apply Z.pow_pos_nonneg; lia).
  rewrite <- !Z.div_div by nia. set (q := a / 2 ^ B).
  pose proof (Z.div_mod q (2 ^ x) ltac:(lia)) as D1.
  pose proof (Z.div_mod (q / 2 ^ x) (2 ^ y) ltac:(lia)) as D2. rewrite D1 at 1. rewrite D2 at 1. ring.
Qed.

(** Bank bits and set bits do not overlap and leave no bit out: two addresses with the
    same bank, the same set and the same tag above them are on the same line, in both
    layouts of the banks. *)
Theorem L2_bank_and_set_are_disjoint addr addr' :
  is_address addr -> is_address addr' -> l2_fits ->
  L2bank addr = L2bank addr' ->
  map_address_to_L2CacheSet addr (L2_CACHE_NUM_SETS_BITS cfg) =
    map_address_to_L2CacheSet addr' (L2_CACHE_NUM_SETS_BITS cfg) ->
  (let top := dataBlockBits cfg + L2CachePerChipBits cfg + L2_CACHE_NUM_SETS_BITS cfg in
   addr / 2 ^ top = addr' / 2 ^ top) ->
  makeLineAddress cfg addr = makeLineAddress cfg addr'.
Proof.
  intros Ha Ha' Hf Eb Es Et. rewrite !L2bank_val in Eb by done. rewrite !L2CacheSet_val in Es by done.
  injection Eb as Eb. injection Es as Es. simpl in Et.
  destruct (cf_block _ Hcfg) as [EB HB]. destruct (cf_l2_per_chip _ Hcfg) as [Ebk Hbk].
  pose proof (cf_l2_sets _ Hcfg) as Hs. rewrite !makeLineAddress_val by done. do 2 f_equal.
  unfold bank_lo, set_lo, dataBlockBits, dataBlockBytes, L2CachePerChipBits, numberOfL2CachePerChip in *.
  rewrite EB, Ebk in *. clear EB Ebk.
  set (B := g_DATA_BLOCK_BITS cfg) in *. set (b := g_NUM_L2_BANKS_PER_CHIP_BITS cfg) in *.
  set (n := L2_CACHE_NUM_SETS_BITS cfg) in *.
  destruct (MAP_L2BANKS_TO_LOWEST_BITS cfg).
  - rewrite (bits_split addr B b n), (bits_split addr' B b n) by (clear -HB Hbk Hs; lia).
    rewrite Z.add_0_r in *. by rewrite Eb, Es, Et.
  - rewrite (bits_split addr B n b), (bits_split addr' B n b) by (clear -HB Hbk Hs; lia).
    rewrite Z.add_0_r in *. replace (B + n + b) with (B + b + n) by ring. by rewrite Eb, Es, Et.
Qed.

(** * Chips *)

(** The clockwise distance is the distance on the ring of chips. *)
Theorem clockwise_distance_is_modular this_node next_node :
  0 <= this_node < numberOfChips cfg -> 0 <= next_node < numberOfChips cfg ->
  0 <= closest_clockwise_distance this_node next_node < numberOfChips cfg /\
  (this_node + closest_clockwise_distance this_node next_node) mod numberOfChips cfg = next_node.
Proof.
  intros Ht Hn. unfold closest_clockwise_distance. set (n := numberOfChips cfg) in *. clearbody n.
  destruct (Z.leb_spec this_node next_node).
  - split; [lia|]. replace (this_node + (next_node - this_node)) with next_node by ring.
    exact (Z.mod_small _ _ Hn).
  - split; [lia|]. replace (this_node + (next_node - this_node + n)) with (next_node + 1 * n) by ring.
    rewrite Z.mod_add by lia. exact (Z.mod_small _ _ Hn).
Qed.

(** * Processors of a chip *)

  Context (Hcounts : Forall (fun n => 0 <= n < 2 ^ 31) counts).
  Context (HL1 : zread counts MACHINETYPE_L1CACHE_ENUM = Some (numberOfProcessors cfg)).
  Abbreviation L1 := MACHINETYPE_L1CACHE_ENUM.

Lemma L1_defined_true : L1_defined = true.
Proof.
  unfold L1_defined, MachineType_NUM. apply negb_true_iff, Z.eqb_neq.
  pose proof (zread_range _ _ _ HL1). lia.
Qed.

Lemma add_L1s_spec keep start n ret R :
  0 <= start -> 0 <= n -> start + n <= numberOfProcessors cfg -> stands_for counts ret R ->
  exists d D, add_L1s keep start n ret = Ok d /\ stands_for counts d D /\
    forall i j, (i, j) ∈ D <-> (i, j) ∈ R \/ (i = L1 /\ start <= j < start + n /\ keep j = true).
Proof.
  intros Hs Hn Hle HR. unfold add_L1s.
  destruct (for_range_inv (fun k e => start <= k <= start + n /\ exists D, stands_for counts e D /\
      forall i j, (i, j) ∈ D <-> (i, j) ∈ R \/ (i = L1 /\ start <= j < k /\ keep j = true))
    start (start + n) (fun i ret => if keep i then nd_add counts ret (mkMachineID L1 i) else mret ret) ret)
    as (d & E & _ & D & Hd & HD); [lia| | |by exists d, D].
  - split; [lia|]. exists R. split; [done|]. intros i j. split; [by left|]. intros [?|(_ & ? & _)]; [done|lia].
  - intros k e Hk (_ & D & He & HD). destruct (keep k) eqn:Ek.
    + destruct (nd_add_spec counts Hcounts e D (mkMachineID L1 k) He) as (e' & E & He').
      { exists (numberOfProcessors cfg). split; [done|]. simpl. lia. }
      exists e'. split; [done|]. split; [lia|]. eexists. split; [exact He'|]. simpl. intros i j.
      rewrite elem_of_union, elem_of_singleton, HD. split.
      * intros [[= -> ->]|[H|(-> & Hj & Hkp)]]; [right; split_and!; (done || lia)|by left|].
        right. split_and!; (done || lia).
      * intros [H|(-> & Hj & Hkp)]; [by right; left|]. destruct (Z.eq_dec j k) as [->|]; [by left|].
        right. right. split_and!; (done || lia).
    + exists e. split; [done|]. split; [lia|]. exists D. split; [done|]. intros i j. rewrite HD.
      split; (intros [H|(-> & Hj & Hkp)]; [by left|]); right; split_and!; try (done || lia).
      destruct (Z.eq_dec j k) as [->|]; [congruence|lia].
Qed.

Lemma chip_range p j :
  0 <= p -> 0 <= j ->
  p / numberOfProcsPerChip cfg * numberOfProcsPerChip cfg <= j <
    p / numberOfProcsPerChip cfg * numberOfProcsPerChip cfg + numberOfProcsPerChip cfg <->
  j / numberOfProcsPerChip cfg = p / numberOfProcsPerChip cfg.
Proof.
  intros Hp Hj. pose proof procs_pos as Hpp. set (n := numberOfProcsPerChip cfg) in *. set (c := p / n).
  split.
  - intros H. symmetry. apply (Z.div_unique_pos j n c (j - c * n)); lia.
  - intros <-. pose proof (Z.div_mod j n ltac:(lia)). pose proof (Z.mod_pos_bound j n Hpp). lia.
Qed.

Lemma chip_fits p :
  0 <= p < numberOfProcessors cfg ->
  0 <= p / numberOfProcsPerChip cfg * numberOfProcsPerChip cfg /\
  p / numberOfProcsPerChip cfg * numberOfProcsPerChip cfg + numberOfProcsPerChip cfg <= numberOfProcessors cfg.
Proof.
  intros Hp. pose proof procs_pos as Hpp. pose proof chips_pos as Hcp.
  pose proof (cf_processors _ Hcfg) as E. unfold numberOfProcessors, numberOfChips, numberOfProcsPerChip in *.
  set (n := g_PROCS_PER_CHIP cfg) in *. set (m := g_NUM_CHIPS cfg) in *. rewrite E in *.
  assert (p / n < m) by (apply Z.div_lt_upper_bound; lia). pose proof (Z.div_pos p n). nia.
Qed.

Lemma getLocalL1IDs_spec p :
  0 <= p < numberOfProcessors cfg ->
  exists d D, getLocalL1IDs (mkMachineID L1 p) = Ok d /\ stands_for counts d D /\
    forall i j, (i, j) ∈ D <-> i = L1 /\ 0 <= j < numberOfProcessors cfg /\
      j / numberOfProcsPerChip cfg = p / numberOfProcsPerChip cfg.
Proof.
  intros Hp. pose proof procs_pos as Hpp. destruct (chip_fits p Hp) as [Hf1 Hf2].
  unfold getLocalL1IDs. rewrite L1_defined_true. simpl.
  destruct (NetDest_new_spec counts Hcounts) as (r & -> & Hr). cbn [num mtype].
  rewrite bind_of_ok, Z.eqb_refl.
  unfold numberOfL1CachePerChip. rewrite Z.quot_div_nonneg by lia.
  destruct (add_L1s_spec (fun _ => true) _ _ r ∅ Hf1 (Z.lt_le_incl _ _ Hpp) Hf2 Hr) as (d & D & E & Hd & HD).
  exists d, D. split_and!; [done|done|]. intros i j. rewrite HD. split.
  - intros [H%elem_of_empty|(-> & Hj & _)]; [done|]. split; [done|]. split; [lia|]. apply chip_range; lia.
  - intros (-> & Hj & Hc). right. split; [done|]. split; [|done]. apply chip_range; (done || lia).
Qed.

(** For a processor, the L1 caches that getLocalL1IDs collects are those of its own chip
    and the ones getExternalL1IDs collects those of the other chips, in agreement with
    isLocalProcessor, so the two partition the processors. *)
Theorem local_and_external_L1s_partition p :
  0 <= p < numberOfProcessors cfg ->
  exists l D e E, getLocalL1IDs (mkMachineID L1 p) = Ok l /\ stands_for counts l D /\
    getExternalL1IDs (mkMachineID L1 p) = Ok e /\ stands_for counts e E /\
    forall q, 0 <= q < numberOfProcessors cfg ->
      let same := bool_decide (q / numberOfProcsPerChip cfg = p / numberOfProcsPerChip cfg) in
      isLocalProcessor (mkMachineID L1 p) (mkMachineID L1 q) = same /\
      nd_isElement counts l (mkMachineID L1 q) = Ok same /\
      nd_isElement counts e (mkMachineID L1 q) = Ok (negb same).
Proof.
  intros Hp. destruct (getLocalL1IDs_spec p Hp) as (l & D & El & Hl & HD).
  destruct (NetDest_new_spec counts Hcounts) as (r & Er & Hr).
  destruct (add_L1s_spec (fun _ => true) 0 (numberOfProcessors cfg) r ∅) as (a & A & Ea & Ha & HA);
    [lia|lia|lia|done|].
  destruct (removeNetDest_spec counts Hcounts a A l D Ha Hl) as (e & Ee & He).
  exists l, D, e, (A ∖ D). split; [done|]. split; [done|]. split.
  { unfold getExternalL1IDs. rewrite Er, bind_of_ok, L1_defined_true. simpl.
    by rewrite Ea, bind_of_ok, El, bind_of_ok. }
  split; [done|]. intros q Hq. simpl.
  assert (valid counts L1 q) as Hv by (exists (numberOfProcessors cfg); done).
  split_and!.
  - unfold isLocalProcessor. simpl. rewrite Z.quot_div_nonneg by (pose proof procs_pos; lia).
    apply eq_bool_prop_intro. rewrite bool_decide_spec, <- (chip_range p q) by lia.
    destruct (search _ _ _) as [k|] eqn:Es.
    + apply search_some in Es as (Hk & Ek & _). apply Z.eqb_eq in Ek. subst k. split; [done|by intros _].
    + rewrite search_none in Es. split; [done|]. intros Hk. specialize (Es q Hk). by rewrite Z.eqb_refl in Es.
  - rewrite (nd_isElement_spec counts l D (mkMachineID L1 q) Hl Hv). simpl. f_equal.
    apply bool_decide_ext. rewrite HD. naive_solver.
  - rewrite (nd_isElement_spec counts e (A ∖ D) (mkMachineID L1 q) He Hv). simpl. f_equal.
    rewrite <- bool_decide_not. apply bool_decide_ext. rewrite elem_of_difference, HD, HA.
    split; [intros [_ H] Hc; apply H; done|]. intros Hc. split; [|by intros (_ & _ & ?)].
    right. split_and!; (done || lia).
Qed.

End mapping.

(** * The concrete configuration *)

(** Machine types: L1 caches, L2 caches, directories. *)
Definition demo_machines : list Z := [16; 8; 8].

Lemma home_is_a_bijection_witness :
  exists node index, map_Address_to_DirectoryNode demo_configured 74565 = Ok node /\
    memoryModuleIndex demo_configured 74565 = Ok index /\
    0 <= node < numberOfMemories demo_configured /\ 0 <= index < memoryModuleBlocks demo_configured /\
    makeLineAddress demo_configured 74565 =
      Ok ((index * numberOfMemories demo_configured + node) * dataBlockBytes demo_configured) /\
    forall addr', 0 <= addr' < g_MEMORY_SIZE_BYTES demo_configured ->
      map_Address_to_DirectoryNode demo_configured addr' = Ok node ->
      memoryModuleIndex demo_configured addr' = Ok index ->
      makeLineAddress demo_configured addr' = makeLineAddress demo_configured 74565.
Proof.
  apply (home_is_a_bijection demo_configured demo_configured_ok 74565); [done|].
  vm_compute. intuition congruence.
Defined.

Lemma demo_l2_fits : l2_fits demo_configured.
Proof. split; vm_compute; congruence. Qed.

Lemma L2_of_processor_is_on_its_chip_witness :
  exists m, map_L1CacheMachId_to_L2Cache demo_configured 1 74565 (mkMachineID 0 9) = Ok m /\
    map_L2ChipId_to_L2Cache demo_configured 1 74565 (9 / numberOfProcsPerChip demo_configured) = Ok m /\
    L2CacheMachIDToChipID demo_configured 1 m = Ok (9 / numberOfProcsPerChip demo_configured) /\
    0 <= num m < numberOfL2Cache demo_configured.
Proof.
  apply (L2_of_processor_is_on_its_chip demo_configured 0 1 demo_configured_ok 74565 9);
    [unfold is_address; lia|apply demo_l2_fits|vm_compute; intuition congruence].
Defined.

Lemma L2_bank_and_set_are_disjoint_witness :
  makeLineAddress demo_configured 74565 = makeLineAddress demo_configured 74560.
Proof.
  apply (L2_bank_and_set_are_disjoint demo_configured demo_configured_ok 74565 74560);
    [unfold is_address; lia|unfold is_address; lia|apply demo_l2_fits|vm_compute; reflexivity..].
Defined.

Lemma clockwise_distance_is_modular_witness :
  0 <= closest_clockwise_distance demo_configured 3 1 < 4 /\
  (3 + closest_clockwise_distance demo_configured 3 1) mod 4 = 1.
Proof. apply (clockwise_distance_is_modular demo_configured 3 1); vm_compute; intuition congruence. Defined.

Lemma local_and_external_L1s_partition_witness :
  exists l D e E, getLocalL1IDs demo_configured demo_machines 0 1 (mkMachineID 0 6) = Ok l /\
    stands_for demo_machines l D /\
    getExternalL1IDs demo_configured demo_machines 0 1 (mkMachineID 0 6) = Ok e /\
    stands_for demo_machines e E /\
    forall q, 0 <= q < numberOfProcessors demo_configured ->
      let same := bool_decide (q / numberOfProcsPerChip demo_configured =
                               6 / numberOfProcsPerChip demo_configured) in
      isLocalProcessor demo_configured (mkMachineID 0 6) (mkMachineID 0 q) = same /\
      nd_isElement demo_machines l (mkMachineID 0 q) = Ok same /\
      nd_isElement demo_machines e (mkMachineID 0 q) = Ok (negb same).
Proof.
  apply (local_and_external_L1s_partition demo_configured demo_machines 0 1 demo_configured_ok);
    [repeat constructor; lia|reflexivity|vm_compute; intuition congruence].
Defined.

(** getChipID disagrees with the chip of an L2 bank. *)
Theorem getChipID_is_not_the_chip :
  getChipID demo_configured (mkMachineID 1 2) = 0 /\
  L2CacheMachIDToChipID demo_configured 1 (mkMachineID 1 2) = Ok 1.
Proof. split; reflexivity. Qed.
