(* ===== verification/Replacement.v ===== *)
(** [system/AbstractReplacementPolicy.h], [system/LRUPolicy.h] and
    [system/PseudoLRUPolicy.h]: which way of a cache set to replace.

    The two policies implement the virtual interface [ReplacementPolicy]; the
    laws a cache relies on are stated once and proved for both. *)

From S2P Require Import Prelude Vector EventQueue.

(** * The virtual interface *)

Class ReplacementPolicy (P : Type) := {
  touch : P → Z → Z → Time → outcome P;
  getVictim : P → Z → outcome Z;
  getLastAccess : P → Z → Z → outcome Time;
}.

(** What a cache with [sets] sets of [assoc] ways relies on. *)
Class PolicyLaws (P : Type) `{!ReplacementPolicy P} := {
  policy_for : P → Z → Z → Prop;
  touch_ok p sets assoc set way t :
    policy_for p sets assoc -> 0 <= set < sets -> 0 <= way < assoc ->
    exists p', touch p set way t = Ok p' /\ policy_for p' sets assoc /\
      getLastAccess p' set way = Ok t;
  victim_ok p sets assoc set :
    policy_for p sets assoc -> 0 <= set < sets ->
    exists v, getVictim p set = Ok v /\ 0 <= v < assoc;
  last_access_ok p sets assoc set way :
    policy_for p sets assoc -> 0 <= set < sets -> 0 <= way < assoc ->
    is_ok (getLastAccess p set way);
}.

(** * The common base *)

Record AbstractReplacementPolicy := mkPolicy {
  m_num_sets : Z;
  m_assoc : Z;
  m_last_ref_ptr : list (list Time);
}.

Definition Policy_new (num_sets assoc : Z) : AbstractReplacementPolicy :=
  mkPolicy (u32 num_sets) (u32 assoc)
    (replicate (Z.to_nat (u32 num_sets)) (replicate (Z.to_nat (u32 assoc)) 0)).

Definition base_getLastAccess (p : AbstractReplacementPolicy) (set way : Z) : outcome Time :=
  row ← aread (m_last_ref_ptr p) set; aread row way.

(** [m_last_ref_ptr[set][index] = time]. *)
Definition set_last_ref (p : AbstractReplacementPolicy) (set index : Z) (time : Time) :
    outcome AbstractReplacementPolicy :=
  row ← aread (m_last_ref_ptr p) set;
  row' ← awrite row index time;
  refs ← awrite (m_last_ref_ptr p) set row';
  mret (mkPolicy (m_num_sets p) (m_assoc p) refs).

Definition in_bounds (p : AbstractReplacementPolicy) (set index : Z) : outcome unit :=
  cassert ((0 <=? index) && (index <? m_assoc p));;
  cassert ((0 <=? set) && (set <? m_num_sets p)).

(** * True LRU *)

Record LRUPolicy := mkLRU { lru_base : AbstractReplacementPolicy }.

Definition LRUPolicy_new (num_sets assoc : Z) : LRUPolicy := mkLRU (Policy_new num_sets assoc).

Definition lru_touch (p : LRUPolicy) (set index : Z) (time : Time) : outcome LRUPolicy :=
  in_bounds (lru_base p) set index;;
  b ← set_last_ref (lru_base p) set index time;
  mret (mkLRU b).

Definition lru_getVictim (p : LRUPolicy) (set : Z) : outcome Z :=
  row ← aread (m_last_ref_ptr (lru_base p)) set;
  t0 ← aread row 0;
  r ← for_range 0 (m_assoc (lru_base p))
        (fun i st => time ← aread row i;
                     mret (if time <? snd st then (i, time) else st)) (0, t0);
  mret (fst r).

#[export] Instance LRU_policy : ReplacementPolicy LRUPolicy := {|
  touch := lru_touch;
  getVictim := lru_getVictim;
  getLastAccess p := base_getLastAccess (lru_base p);
|}.

(** * Tree pseudo-LRU *)

Record PseudoLRUPolicy := mkPLRU {
  plru_base : AbstractReplacementPolicy;
  m_effective_assoc : Z;
  m_num_levels : Z;
  m_trees : list Z;
}.

(** [while(m_effective_assoc < assoc) m_effective_assoc <<= 1] *)
Fixpoint ceil_pow2 (fuel : nat) (eff assoc : Z) : outcome Z :=
  match fuel with
  | O => Err OutOfFuel
  | S fuel' => if eff <? assoc then ceil_pow2 fuel' (u32 (Z.shiftl eff 1)) assoc else Ok eff
  end.
(** [while(true) { assoc /= 2; if(!assoc) break; m_num_levels++; }] *)
Fixpoint count_levels (fuel : nat) (assoc levels : Z) : outcome Z :=
  match fuel with
  | O => Err OutOfFuel
  | S fuel' =>
      let assoc' := Z.quot assoc 2 in
      if assoc' =? 0 then Ok levels else count_levels fuel' assoc' (levels + 1)
  end.

Definition PseudoLRUPolicy_new (num_sets assoc : Z) : outcome PseudoLRUPolicy :=
  let base := Policy_new num_sets assoc in
  cassert ((0 <? num_sets) && (1 <? assoc) && (assoc <=? 8 * 4));;
  eff ← ceil_pow2 64 1 assoc;
  levels ← count_levels 64 eff 0;
  cassert (levels <? 4 * 4);;
  mret (mkPLRU base eff levels (replicate (Z.to_nat (m_num_sets base)) 0)).

(** [1 << tree_index] on [int], converted to [uint64]. *)
Definition node_bit (tree_index : Z) : Z := s32 (Z.shiftl 1 tree_index).

(** One step of the walk of [touch] from the root to the leaf [index]. *)
Definition touch_step (index i : Z) (st : Z * Z) : outcome (Z * Z) :=
  let '(tree, tree_index) := st in
  let node_val := Z.land (Z.shiftr index i) 1 in
  if negb (node_val =? 0) then
    mret (u64 (Z.lor tree (u64 (node_bit tree_index))), tree_index * 2 + 2)
  else
    mret (Z.land tree (u64 (Z.lnot (node_bit tree_index))), tree_index * 2 + 1).

Definition plru_touch (p : PseudoLRUPolicy) (set index : Z) (time : Time) : outcome PseudoLRUPolicy :=
  in_bounds (plru_base p) set index;;
  tree ← aread (m_trees p) set;
  r ← for_range_down (m_num_levels p - 1) 0 (touch_step index) (tree, 0);
  trees ← awrite (m_trees p) set (fst r);
  b ← set_last_ref (plru_base p) set index time;
  mret (mkPLRU b (m_effective_assoc p) (m_num_levels p) trees).

(** One step of the walk of [getVictim]. *)
Definition victim_step (eff tree i : Z) (st : Z * Z) : outcome (Z * Z) :=
  let '(index, tree_index) := st in
  let node_val := Z.land (Z.shiftr tree tree_index) 1 in
  if negb (node_val =? 0) then mret (index, tree_index * 2 + 1)
  else mret (index + Z.shiftr eff (i + 1), tree_index * 2 + 2).

Definition plru_getVictim (p : PseudoLRUPolicy) (set : Z) : outcome Z :=
  tree ← aread (m_trees p) set;
  r ← for_range 0 (m_num_levels p) (victim_step (m_effective_assoc p) tree) (0, 0);
  let index := fst r in
  cassert ((0 <=? index) && (index <? m_effective_assoc p));;
  mret (if m_assoc (plru_base p) - 1 <? index then m_assoc (plru_base p) - 1 else index).

#[export] Instance PLRU_policy : ReplacementPolicy PseudoLRUPolicy := {|
  touch := plru_touch;
  getVictim := plru_getVictim;
  getLastAccess p := base_getLastAccess (plru_base p);
|}.

(** * The time stamps *)

Record base_for (p : AbstractReplacementPolicy) (sets assoc : Z) : Prop := {
  bf_sets : m_num_sets p = sets;
  bf_assoc : m_assoc p = assoc;
  bf_len : zlen (m_last_ref_ptr p) = sets;
  bf_rows : Forall (fun row => zlen row = assoc) (m_last_ref_ptr p);
}.

Lemma base_row p sets assoc set :
  base_for p sets assoc -> 0 <= set < sets ->
  exists row, zread (m_last_ref_ptr p) set = Some row /\ aread (m_last_ref_ptr p) set = Ok row /\
    zlen row = assoc.
Proof.
  intros Hp Hs. destruct (aread_in (m_last_ref_ptr p) set) as (row & Hr & Er);
    [rewrite (bf_len _ _ _ Hp); done|].
  exists row. split_and!; [done|done|]. pose proof (bf_rows _ _ _ Hp) as Hf. rewrite Forall_forall in Hf.
  by apply Hf, (zread_elem_of (m_last_ref_ptr p) set).
Qed.

Lemma Policy_new_for sets assoc :
  0 <= sets < 2 ^ 32 -> 0 <= assoc < 2 ^ 32 -> base_for (Policy_new sets assoc) sets assoc.
Proof.
  intros Hs Ha. unfold Policy_new. rewrite !uwrap_small by lia. split; simpl; [done|done| |].
  - apply zlen_replicate. lia.
  - apply Forall_replicate. apply zlen_replicate. lia.
Qed.

Lemma set_last_ref_spec p sets assoc set way t :
  base_for p sets assoc -> 0 <= set < sets -> 0 <= way < assoc ->
  exists p', set_last_ref p set way t = Ok p' /\ base_for p' sets assoc /\
    base_getLastAccess p' set way = Ok t /\
    forall set' way', (set', way') <> (set, way) -> 0 <= set' -> 0 <= way' ->
      base_getLastAccess p' set' way' = base_getLastAccess p set' way'.
Proof.
  intros Hp Hs Hw. destruct (base_row p sets assoc set Hp Hs) as (row & Hr & Er & Hl).
  pose proof (bf_len _ _ _ Hp) as Hlen. unfold set_last_ref.
  rewrite Er, bind_of_ok, awrite_in, bind_of_ok, awrite_in, bind_of_ok by lia.
  eexists. split; [done|]. split_and!.
  - split; simpl; [apply Hp|apply Hp|by rewrite zlen_zwrite|].
    unfold zwrite. destruct (0 <=? set); [|apply Hp].
    apply Forall_insert; [apply Hp|]. unfold zlen in *. destruct (0 <=? way); by rewrite ?length_insert.
  - unfold base_getLastAccess. simpl. unfold aread.
    rewrite zread_zwrite_eq, bind_of_ok by lia. by rewrite zread_zwrite_eq by lia.
  - intros set' way' Hne Hs' Hw'. unfold base_getLastAccess. simpl. unfold aread.
    rewrite zread_zwrite by lia. destruct (Z.eqb_spec set set') as [<-|]; [|done].
    rewrite Hr, !bind_of_ok, zread_zwrite_ne by congruence. done.
Qed.

Lemma in_bounds_ok p sets assoc set way :
  base_for p sets assoc -> 0 <= set < sets -> 0 <= way < assoc -> in_bounds p set way = Ok tt.
Proof.
  intros Hp Hs Hw. unfold in_bounds. rewrite (bf_assoc _ _ _ Hp), (bf_sets _ _ _ Hp).
  rewrite !(proj2 (Z.leb_le 0 _)), !(proj2 (Z.ltb_lt _ _)) by lia. done.
Qed.

Lemma base_last_access p sets assoc set way :
  base_for p sets assoc -> 0 <= set < sets -> 0 <= way < assoc -> is_ok (base_getLastAccess p set way).
Proof.
  intros Hp Hs Hw. destruct (base_row p sets assoc set Hp Hs) as (row & _ & Er & Hl).
  unfold base_getLastAccess. rewrite Er, bind_of_ok.
  destruct (aread_in row way) as (t & _ & ->); [lia|]. by exists t.
Qed.

(** * LRU evicts the least recently used way *)

(** The way whose time stamp is least, the first such. *)
Definition least_recent (row : list Time) (v : Z) : Prop :=
  exists t, zread row v = Some t /\
    (forall i s, zread row i = Some s -> t <= s) /\ (forall i s, zread row i = Some s -> i < v -> t < s).

Lemma lru_victim_spec p sets assoc set :
  base_for (lru_base p) sets assoc -> 0 < assoc -> 0 <= set < sets ->
  exists row v, zread (m_last_ref_ptr (lru_base p)) set = Some row /\
    lru_getVictim p set = Ok v /\ 0 <= v < assoc /\ least_recent row v.
Proof.
  intros Hp Ha Hs. destruct (base_row _ sets assoc set Hp Hs) as (row & Hr & Er & Hl).
  unfold lru_getVictim. rewrite Er, bind_of_ok, (bf_assoc _ _ _ Hp).
  destruct (aread_in row 0) as (t0 & Ht0 & ->); [lia|]. rewrite bind_of_ok.
  destruct (for_range_inv (fun k st => 0 <= k <= assoc /\ 0 <= fst st < assoc /\ zread row (fst st) = Some (snd st) /\
      (fst st < k \/ fst st = 0) /\
      (forall i s, zread row i = Some s -> i < k -> snd st <= s) /\
      (forall i s, zread row i = Some s -> i < fst st -> snd st < s))
    0 assoc (fun i st => time ← aread row i; mret (if time <? snd st then (i, time) else st)) (0, t0))
    as ([v t] & -> & _ & Hv & Ht & _ & Hle & Hlt).
  - lia.
  - simpl. split_and!; try lia; try done; intros i s Hi%zread_range; lia.
  - intros k [v t] Hk (_ & Hv & Ht & Hvk & Hle & Hlt). cbn [fst snd] in *.
    destruct (aread_in row k) as (s & Hsr & ->); [lia|]. rewrite bind_of_ok. cbn [fst snd].
    destruct (Z.ltb_spec s t); eexists; (split; [done|]); cbn [fst snd]; split_and!; try lia; try done.
    + intros i s' Hi Hik. destruct (Z.eq_dec i k) as [->|]; [rewrite Hsr in Hi; injection Hi as <-; lia|].
      specialize (Hle i s' Hi ltac:(lia)). lia.
    + intros i s' Hi Hik. specialize (Hle i s' Hi Hik). lia.
    + intros i s' Hi Hik. destruct (Z.eq_dec i k) as [->|]; [rewrite Hsr in Hi; injection Hi as <-; lia|].
      apply (Hle i s' Hi). lia.
  - cbn [fst snd] in *. rewrite bind_of_ok. exists row, v. split_and!; [done|done|lia|lia|]. exists t.
    split_and!; [done| |done]. intros i s Hi. apply (Hle i s Hi). apply zread_range in Hi. lia.
Qed.

#[export] Instance LRU_laws : PolicyLaws LRUPolicy.
Proof.
  refine {| policy_for p sets assoc := base_for (lru_base p) sets assoc /\ 0 < assoc |}.
  - intros p sets assoc set way t [Hp Ha] Hs Hw. simpl. unfold lru_touch.
    rewrite (in_bounds_ok _ sets assoc) by done. rewrite bind_of_ok.
    destruct (set_last_ref_spec _ sets assoc set way t Hp Hs Hw) as (b & -> & Hb & Hl & _).
    rewrite bind_of_ok. by exists (mkLRU b).
  - intros p sets assoc set [Hp Ha] Hs.
    destruct (lru_victim_spec p sets assoc set Hp Ha Hs) as (row & v & _ & E & Hv & _). by exists v.
  - intros p sets assoc set way [Hp _]. by apply base_last_access.
Defined.

(** * The pseudo-LRU tree *)

Record plru_for (p : PseudoLRUPolicy) (sets assoc : Z) : Prop := {
  pf_base : base_for (plru_base p) sets assoc;
  pf_levels : 1 <= m_num_levels p <= 5;
  pf_eff : m_effective_assoc p = 2 ^ m_num_levels p;
  pf_fit : 2 ^ (m_num_levels p - 1) < assoc <= 2 ^ m_num_levels p;
  pf_trees : zlen (m_trees p) = sets;
  pf_words : Forall (fun t => 0 <= t < 2 ^ 64) (m_trees p);
}.

(** The sizes the constructor accepts, one by one. *)
Lemma plru_sizes :
  forallb (fun a => match ceil_pow2 64 1 a with
                    | Ok e => match count_levels 64 e 0 with
                              | Ok l => (e =? 2 ^ l) && (1 <=? l) && (l <=? 5) &&
                                        (2 ^ (l - 1) <? a) && (a <=? 2 ^ l)
                              | Err _ => false
                              end
                    | Err _ => false
                    end) (seqZ 2 31) = true.
Proof. vm_compute. reflexivity. Qed.

Lemma PseudoLRUPolicy_new_for sets assoc :
  0 < sets < 2 ^ 32 -> 2 <= assoc <= 32 ->
  exists p, PseudoLRUPolicy_new sets assoc = Ok p /\ plru_for p sets assoc.
Proof.
  intros Hs Ha. unfold PseudoLRUPolicy_new.
  rewrite (proj2 (Z.ltb_lt 0 sets)), (proj2 (Z.ltb_lt 1 assoc)), (proj2 (Z.leb_le assoc _)) by lia.
  cbn [andb]. rewrite (cassert_true true), bind_of_ok by done.
  pose proof plru_sizes as H. rewrite forallb_forall in H.
  assert (Hin : In assoc (seqZ 2 31)) by (apply list_elem_of_In, elem_of_seqZ; lia).
  specialize (H assoc Hin). clear Hin.
  destruct (ceil_pow2 64 1 assoc) as [e|]; [|done]. rewrite bind_of_ok.
  destruct (count_levels 64 e 0) as [l|]; [|done]. rewrite bind_of_ok. to_prop.
  rewrite cassert_true, bind_of_ok by (apply Z.ltb_lt; lia). eexists. split; [done|].
  pose proof (Policy_new_for sets assoc ltac:(lia) ltac:(lia)) as Hb.
  rewrite (bf_sets _ _ _ Hb). split; cbn [plru_base m_num_levels m_effective_assoc m_trees]; try lia; try done.
  - apply zlen_replicate. lia.
  - apply Forall_replicate. lia.
Qed.

Lemma land_1_testbit x : 0 <= x \/ True -> negb (Z.land x 1 =? 0) = Z.testbit x 0.
Proof.
  intros _. change 1 with (Z.ones 1) at 1. rewrite Z.land_ones, Z.bit0_odd, Zmod_odd by lia.
  by destruct (Z.odd x).
Qed.

Lemma node_bit_val k : 0 <= k < 31 -> node_bit k = 2 ^ k /\ 0 < 2 ^ k < 2 ^ 31.
Proof.
  intros Hk. assert (0 < 2 ^ k < 2 ^ 31)
    by (split; [apply Z.pow_pos_nonneg; lia|apply Z.pow_lt_mono_r; lia]).
  split; [|done]. unfold node_bit. rewrite Z.shiftl_mul_pow2, Z.mul_1_l by lia. apply swrap_small; lia.
Qed.

Lemma land_range n x y : 0 <= n -> 0 <= y < 2 ^ n -> 0 <= Z.land x y < 2 ^ n.
Proof.
  intros Hn Hy. assert (Z.land x y = Z.land x y mod 2 ^ n) as ->; [|apply Z.mod_pos_bound; lia].
  rewrite <- Z.land_ones, <- Z.land_assoc, Z.land_ones, (Z.mod_small y) by lia. done.
Qed.

(** One step sets the bit of the current node to the direction taken and leaves
    every other bit. *)
Lemma touch_step_spec index i tree ti :
  0 <= i -> 0 <= ti < 31 -> 0 <= tree < 2 ^ 64 ->
  exists tree', touch_step index i (tree, ti) =
      Ok (tree', ti * 2 + (if Z.testbit index i then 2 else 1)) /\ 0 <= tree' < 2 ^ 64 /\
    forall j, 0 <= j < 64 -> Z.testbit tree' j = if j =? ti then Z.testbit index i else Z.testbit tree j.
Proof.
  intros Hi Hti Ht. destruct (node_bit_val ti Hti) as [En Hn]. unfold touch_step.
  rewrite land_1_testbit, Z.shiftr_spec, Z.add_0_l, En by (auto || lia).
  destruct (Z.testbit index i); eexists; (split; [done|]).
  - rewrite (uwrap_small 64 (2 ^ ti)) by lia. split; [apply uwrap_range; lia|]. intros j Hj.
    rewrite uwrap_testbit, bool_decide_eq_true_2, Z.lor_spec, Z.pow2_bits_eqb by lia. simpl.
    rewrite (Z.eqb_sym ti j). destruct (j =? ti); by rewrite ?orb_true_r, ?orb_false_r.
  - split.
    + apply land_range; [lia|apply uwrap_range; lia].
    + intros j Hj. rewrite Z.land_spec, uwrap_testbit, bool_decide_eq_true_2, Z.lnot_spec, Z.pow2_bits_eqb by lia.
      simpl. rewrite (Z.eqb_sym ti j). destruct (j =? ti); simpl; by rewrite ?andb_true_r, ?andb_false_r.
Qed.


(** The walk of [touch] visits, at level [k], a node of the [2 ^ k] of that
    level, and leaves the root pointing to the half that holds [index]. *)
Lemma touch_walk L index tree :
  1 <= L <= 5 -> 0 <= tree < 2 ^ 64 ->
  exists tree' ti, for_range_down (L - 1) 0 (touch_step index) (tree, 0) = Ok (tree', ti) /\
    0 <= tree' < 2 ^ 64 /\ Z.testbit tree' 0 = Z.testbit index (L - 1).
Proof.
  intros HL Ht.
  destruct (for_range_down_inv (fun i st => 0 <= fst st < 2 ^ 64 /\
      2 ^ (L - 1 - i) <= snd st + 1 < 2 ^ (L - i) /\
      (i < L - 1 -> Z.testbit (fst st) 0 = Z.testbit index (L - 1)))
    (L - 1) 0 (touch_step index) (tree, 0)) as ([tree' ti] & -> & Hr & _ & Hb).
  - lia.
  - cbn [fst snd]. replace (L - 1 - (L - 1)) with 0 by lia. replace (L - (L - 1)) with 1 by lia.
    split_and!; lia.
  - intros i [tr ti] Hi (Hr & Hti & Hb). cbn [fst snd] in *.
    assert (Hp : 2 ^ (L - i) = 2 * 2 ^ (L - 1 - i)) by (rewrite <- Z.pow_succ_r by lia; f_equal; lia).
    assert (Hp2 : 2 ^ (L - (i - 1)) = 2 * 2 ^ (L - i)) by (rewrite <- Z.pow_succ_r by lia; f_equal; lia).
    assert (Hle : 2 ^ (L - i) <= 2 ^ 5) by (apply Z.pow_le_mono_r; lia). change (2 ^ 5) with 32 in Hle.
    assert (0 < 2 ^ (L - 1 - i)) by (apply Z.pow_pos_nonneg; lia).
    destruct (touch_step_spec index i tr ti) as (tr' & -> & Hr' & Hbits); [lia|lia|done|].
    eexists. split; [done|]. cbn [fst snd]. split_and!; [lia|lia| | |].
    + replace (L - 1 - (i - 1)) with (L - i) by lia. destruct (Z.testbit index i); lia.
    + destruct (Z.testbit index i); lia.
    + intros _. rewrite Hbits by lia. destruct (Z.eqb_spec 0 ti) as [<-|Hne].
      * f_equal. assert (2 ^ (L - 1 - i) <= 1) as Hone by lia.
        destruct (Z.eq_dec i (L - 1)); [done|].
        assert (2 ^ 1 <= 2 ^ (L - 1 - i)) by (apply Z.pow_le_mono_r; lia). lia.
      * apply Hb. destruct (Z.eq_dec i (L - 1)) as [->|]; [|lia].
        replace (L - (L - 1)) with 1 in Hti by lia. lia.
  - cbn [fst snd] in *. exists tree', ti. split_and!; try done; try lia. apply Hb. lia.
Qed.

(** The walk of [getVictim] ends at a leaf of the half the root bit points away
    from. *)
Lemma victim_walk L tree :
  1 <= L -> exists index ti, for_range 0 L (victim_step (2 ^ L) tree) (0, 0) = Ok (index, ti) /\
    0 <= index < 2 ^ L /\ (Z.testbit tree 0 = true <-> index < 2 ^ (L - 1)).
Proof.
  intros HL.
  destruct (for_range_inv (fun k st => 0 <= fst st /\ fst st + 2 ^ (L - k) <= 2 ^ L /\
      (k = 0 -> snd st = 0) /\
      (1 <= k -> if Z.testbit tree 0 then fst st + 2 ^ (L - k) <= 2 ^ (L - 1) else 2 ^ (L - 1) <= fst st))
    0 L (victim_step (2 ^ L) tree) (0, 0)) as ([index ti] & -> & H0 & H1 & _ & Hh).
  - lia.
  - cbn [fst snd]. rewrite Z.sub_0_r. split_and!; lia.
  - intros k [index ti] Hk (H0 & H1 & Hz & Hh). cbn [fst snd] in *. unfold victim_step.
    rewrite land_1_testbit, Z.shiftr_spec, Z.add_0_l by (auto || lia).
    assert (Hp : 2 ^ (L - k) = 2 * 2 ^ (L - (k + 1))) by (rewrite <- Z.pow_succ_r by lia; f_equal; lia).
    assert (0 < 2 ^ (L - (k + 1))) by (apply Z.pow_pos_nonneg; lia).
    assert (Hs : Z.shiftr (2 ^ L) (k + 1) = 2 ^ (L - (k + 1)))
      by (rewrite Z.shiftr_div_pow2, <- Z.pow_sub_r by lia; done).
    destruct (Z.eq_dec k 0) as [->|Hk0].
    + rewrite Hz by done. replace (0 + 1) with 1 in * by lia. rewrite Z.sub_0_r in *.
      destruct (Z.testbit tree 0); eexists; (split; [done|]); cbn [fst snd]; split_and!; lia.
    + specialize (Hh ltac:(lia)).
      destruct (Z.testbit tree ti); eexists; (split; [done|]); cbn [fst snd];
        (split_and!; [lia|lia|lia|]); intros _; destruct (Z.testbit tree 0); lia.
  - cbn [fst snd] in *. exists index, ti. specialize (Hh ltac:(lia)). rewrite Z.sub_diag in *.
    change (2 ^ 0) with 1 in *. split_and!; [done|lia|lia|].
    destruct (Z.testbit tree 0); split; intros; try done; lia.
Qed.

Lemma tree_read p sets assoc set :
  plru_for p sets assoc -> 0 <= set < sets ->
  exists tree, zread (m_trees p) set = Some tree /\ aread (m_trees p) set = Ok tree /\ 0 <= tree < 2 ^ 64.
Proof.
  intros Hp Hs. destruct (aread_in (m_trees p) set) as (tree & Hr & Er);
    [by rewrite (pf_trees _ _ _ Hp)|].
  exists tree. split; [done|]. split; [done|]. pose proof (pf_words _ _ _ Hp) as Hf.
  rewrite Forall_forall in Hf. apply Hf. by apply (zread_elem_of (m_trees p) set).
Qed.

Lemma plru_touch_spec p sets assoc set way t :
  plru_for p sets assoc -> 0 <= set < sets -> 0 <= way < assoc ->
  exists p' tree, plru_touch p set way t = Ok p' /\ plru_for p' sets assoc /\
    m_num_levels p' = m_num_levels p /\
    base_getLastAccess (plru_base p') set way = Ok t /\
    zread (m_trees p') set = Some tree /\
    Z.testbit tree 0 = Z.testbit way (m_num_levels p - 1).
Proof.
  intros Hp Hs Hw. destruct (tree_read p sets assoc set Hp Hs) as (tree & Hr & Er & Ht).
  pose proof (pf_trees _ _ _ Hp) as Hlen.
  unfold plru_touch. rewrite (in_bounds_ok _ sets assoc) by (done || apply Hp).
  rewrite bind_of_ok, Er, bind_of_ok.
  destruct (touch_walk (m_num_levels p) way tree (pf_levels _ _ _ Hp) Ht) as (tree' & ti & -> & Ht' & Hb).
  rewrite bind_of_ok, awrite_in, bind_of_ok by lia.
  destruct (set_last_ref_spec _ sets assoc set way t (pf_base _ _ _ Hp) Hs Hw) as (b & -> & Hb' & Hl & _).
  rewrite bind_of_ok. eexists _, tree'. split; [done|]. destruct Hp. split_and!; try done.
  - split; simpl; try done; [by rewrite zlen_zwrite|]. unfold zwrite. destruct (0 <=? set); [|done].
    by apply Forall_insert.
  - simpl. apply zread_zwrite_eq. lia.
Qed.

Lemma plru_victim_spec p sets assoc set tree :
  plru_for p sets assoc -> 0 <= set < sets -> zread (m_trees p) set = Some tree ->
  exists v, plru_getVictim p set = Ok v /\ 0 <= v < assoc /\
    (Z.testbit tree 0 = true <-> v < 2 ^ (m_num_levels p - 1)).
Proof.
  intros Hp Hs Hr. unfold plru_getVictim. rewrite (proj2 (aread_ok _ _ _) Hr), bind_of_ok.
  pose proof (pf_fit _ _ _ Hp) as Hfit. pose proof (pf_levels _ _ _ Hp) as HL.
  rewrite (pf_eff _ _ _ Hp), (bf_assoc _ _ _ (pf_base _ _ _ Hp)).
  destruct (victim_walk (m_num_levels p) tree) as (index & ti & -> & Hi & Hb); [lia|].
  rewrite bind_of_ok. cbn [fst]. rewrite cassert_true, bind_of_ok
    by (apply andb_true_iff; split; [apply Z.leb_le|apply Z.ltb_lt]; lia).
  eexists. split; [done|]. destruct (Z.ltb_spec (assoc - 1) index); (split; [lia|]); [|done].
  rewrite Hb. lia.
Qed.

#[export] Instance PLRU_laws : PolicyLaws PseudoLRUPolicy.
Proof.
  refine {| policy_for := plru_for |}.
  - intros p sets assoc set way t Hp Hs Hw. simpl.
    destruct (plru_touch_spec p sets assoc set way t Hp Hs Hw) as (p' & tree & E & Hp' & _ & Hl & _).
    by exists p'.
  - intros p sets assoc set Hp Hs. destruct (tree_read p sets assoc set Hp Hs) as (tree & Hr & _ & _).
    destruct (plru_victim_spec p sets assoc set tree Hp Hs Hr) as (v & E & Hv & _). by exists v.
  - intros p sets assoc set way Hp. apply base_last_access, Hp.
Defined.

(** After a way was touched later than every other, the LRU policy's victim is another
    way: the one with the least time stamp, the lowest numbered of those. *)
Theorem lru_evicts_least_recent (p p' : LRUPolicy) sets assoc set way t :
  base_for (lru_base p) sets assoc -> 2 <= assoc -> 0 <= set < sets -> 0 <= way < assoc ->
  (forall w s, base_getLastAccess (lru_base p) set w = Ok s -> s < t) ->
  touch p set way t = Ok p' ->
  exists v, getVictim p' set = Ok v /\ 0 <= v < assoc /\ v <> way /\
    forall w s s', w <> v ->
      getLastAccess p' set v = Ok s -> getLastAccess p' set w = Ok s' ->
      s < s' \/ (s = s' /\ v < w).
Proof.
  intros Hp Ha Hs Hw Hlt E. cbn [touch getVictim getLastAccess LRU_policy] in *. unfold lru_touch in E.
  rewrite (in_bounds_ok _ sets assoc), bind_of_ok in E by done.
  destruct (set_last_ref_spec _ sets assoc set way t Hp Hs Hw) as (b & Eb & Hb & Hl & Hother).
  rewrite Eb, bind_of_ok in E. injection E as <-.
  destruct (lru_victim_spec (mkLRU b) sets assoc set Hb ltac:(lia) Hs)
    as (row & v & Hr & Ev & Hv & (tv & Htv & Hle & Hfirst)).
  assert (Hacc : forall w s, base_getLastAccess b set w = Ok s <-> zread row w = Some s).
  { intros w s. unfold base_getLastAccess. cbn [lru_base] in Hr.
    rewrite (proj2 (aread_ok _ _ _) Hr), bind_of_ok. apply aread_ok. }
  exists v. split; [done|]. split; [done|]. split.
  - intros ->. apply Hacc in Htv. rewrite Hl in Htv. injection Htv as <-.
    set (o := if way =? 0 then 1 else 0). assert (0 <= o < assoc /\ o <> way) as [Ho Hne]
      by (unfold o; destruct (Z.eqb_spec way 0); lia).
    destruct (base_last_access _ sets assoc set o Hp Hs Ho) as [s Es]. pose proof (Hlt o s Es) as Hst.
    rewrite <- (Hother set o) in Es by (congruence || lia). apply Hacc, Hle in Es. lia.
  - intros w s s' Hne Hsv Hsw. apply Hacc in Hsv, Hsw. rewrite Htv in Hsv. injection Hsv as <-.
    pose proof (Hle w s' Hsw). pose proof (Hfirst w s' Hsw). lia.
Qed.

Lemma lru_evicts_least_recent_witness :
  exists p' v, touch (LRUPolicy_new 2 4) 1 0 7 = Ok p' /\ getVictim p' 1 = Ok v /\ v <> 0.
Proof.
  destruct (touch (LRUPolicy_new 2 4) 1 0 7) as [p'|] eqn:E; [|vm_compute in E; discriminate].
  destruct (lru_evicts_least_recent (LRUPolicy_new 2 4) p' 2 4 1 0 7) as (v & Hv & _ & Hne & _);
    [apply Policy_new_for; lia|lia|lia|lia| |done|].
  - intros w s Es. unfold base_getLastAccess in Es. ok_inv.
    match goal with H : aread _ 1 = Ok _ |- _ => vm_compute in H; injection H as <- end.
    match goal with H : aread _ _ = Ok s |- _ => apply aread_ok, zread_elem_of in H end.
    set_solver by lia.
  - exists p', v. split; [reflexivity|]. split; [exact Hv|exact Hne].
Defined.

(** After a way was touched, the pseudo-LRU policy's victim is a way of the set in the
    other half of the tree, for every associativity the constructor accepts, powers of
    two or not. *)
Theorem plru_spares_touched_half (p : PseudoLRUPolicy) sets assoc set way t :
  plru_for p sets assoc -> 0 <= set < sets -> 0 <= way < assoc ->
  exists p' v, touch p set way t = Ok p' /\ getVictim p' set = Ok v /\ 0 <= v < assoc /\
    (way < m_effective_assoc p / 2 <-> m_effective_assoc p / 2 <= v).
Proof.
  intros Hp Hs Hw.
  destruct (plru_touch_spec p sets assoc set way t Hp Hs Hw) as (p' & tree & E & Hp' & HL & _ & Hr & Hb).
  destruct (plru_victim_spec p' sets assoc set tree Hp' Hs Hr) as (v & Ev & Hv & Hh).
  exists p', v. split; [done|]. split; [done|]. split; [done|].
  pose proof (pf_levels _ _ _ Hp) as Hl. pose proof (pf_fit _ _ _ Hp) as Hfit.
  assert (Hpow : 2 ^ m_num_levels p = 2 * 2 ^ (m_num_levels p - 1))
    by (rewrite <- Z.pow_succ_r by lia; f_equal; lia).
  rewrite (pf_eff _ _ _ Hp), Hpow, Z.mul_comm, Z.div_mul by lia. rewrite HL, Hb in Hh.
  assert (Hbit : Z.testbit way (m_num_levels p - 1) = true <-> 2 ^ (m_num_levels p - 1) <= way).
  { rewrite Z.testbit_true by lia. destruct (Z.le_gt_cases (2 ^ (m_num_levels p - 1)) way) as [Hge|Hlt].
    - replace (way / _) with 1; [done|]. apply Z.div_unique with (way - 2 ^ (m_num_levels p - 1)); lia.
    - rewrite Z.div_small by lia. split; [done|lia]. }
  rewrite Hbit in Hh. lia.
Qed.

Lemma plru_spares_touched_half_witness :
  exists p p' v, PseudoLRUPolicy_new 4 6 = Ok p /\ touch p 2 5 9 = Ok p' /\ getVictim p' 2 = Ok v /\ v <> 5.
Proof.
  destruct (PseudoLRUPolicy_new_for 4 6 ltac:(lia) ltac:(lia)) as (p & E & Hp).
  destruct (plru_spares_touched_half p 4 6 2 5 9 Hp ltac:(lia) ltac:(lia)) as (p' & v & Et & Ev & _ & Hh).
  exists p, p', v. split; [exact E|]. split; [exact Et|]. split; [exact Ev|]. lia.
Defined.
