(* ===== verification/DataBlock.v ===== *)
(** [common/DataBlock.{h,C}]: the bytes of a cache line.

    With neither [DATA_BLOCK] nor [XACT_MEMORY] configured a block takes no
    space, reads as zero and ignores writes. *)

From S2P Require Import Prelude Vector Config.

Section datablock.
  Context (DATA_BLOCK XACT_MEMORY : bool) (cfg : RubyConfig).

Record DataBlock := mkDataBlock { m_data : Vector Z }.
#[export] Instance DataBlock_inhabited : Inhabited DataBlock := populate (mkDataBlock Vector_default).

Definition data_clear (b : DataBlock) : outcome DataBlock :=
  d ← for_range 0 (m_size (m_data b)) (fun i d => ref_assign d i 0) (m_data b);
  mret (mkDataBlock d).

Definition DataBlock_new : outcome DataBlock :=
  d ← (if DATA_BLOCK || XACT_MEMORY then setSize Vector_default (dataBlockBytes cfg)
       else mret Vector_default);
  data_clear (mkDataBlock d).

(** [value = value && (m_data[i] == obj.m_data[i])]: the right operand is not
    evaluated once a difference was found. *)
Definition data_equal (b obj : DataBlock) : outcome bool :=
  for_range 0 (m_size (m_data b))
    (fun i value => if (value : bool) then
                      x ← ref (m_data b) i; y ← ref (m_data obj) i; mret (x =? y)
                    else mret false) true.

Definition getByte (b : DataBlock) (whichByte : Z) : outcome Z :=
  if DATA_BLOCK || XACT_MEMORY then ref (m_data b) whichByte else mret 0.

Definition setByte (b : DataBlock) (whichByte data : Z) : outcome DataBlock :=
  if DATA_BLOCK || XACT_MEMORY then
    d ← ref_assign (m_data b) whichByte data; mret (mkDataBlock d)
  else mret b.

(** * A block of the configured size *)

Record block_wf (b : DataBlock) : Prop := {
  bw_vec : wf (m_data b);
  bw_size : m_size (m_data b) = if DATA_BLOCK || XACT_MEMORY then dataBlockBytes cfg else 0;
}.

(** The bytes as a list, the value of the block. *)
Definition bytes (b : DataBlock) : list Z := contents (m_data b).

Lemma data_clear_spec b :
  block_wf b -> exists b', data_clear b = Ok b' /\ block_wf b' /\
    bytes b' = replicate (Z.to_nat (m_size (m_data b))) 0.
Proof.
  intros [Hw Hs]. unfold data_clear.
  destruct (for_range_inv (fun k d => wf d /\ m_size d = m_size (m_data b) /\
      forall i, 0 <= i < k -> zread (m_vec d) i = Some 0)
    0 (m_size (m_data b)) (fun i d => ref_assign d i 0) (m_data b)) as (d & -> & Hd & Hsz & Hz).
  - apply Hw.
  - split_and!; [done|done|lia].
  - intros i d Hi (Hd & Hsz & Hz). rewrite ref_assign_in by (done || lia). eexists. split; [done|].
    split_and!; [by apply wf_write|done|]. intros j Hj. simpl.
    rewrite zread_zwrite by (rewrite (wf_block _ Hd); pose proof (wf_size _ Hd); lia).
    destruct (Z.eqb_spec i j); [done|]. apply Hz. lia.
  - rewrite bind_of_ok. eexists. split; [done|]. split; [split; simpl; [done|lia]|].
    pose proof (wf_size _ Hw). unfold bytes. simpl. apply contents_is; [done| |].
    + rewrite zlen_replicate by lia. done.
    + intros i Hi. rewrite zlen_replicate in Hi by lia. rewrite Hz, zread_replicate by lia.
      by rewrite (proj2 (Z.leb_le 0 i)), (proj2 (Z.ltb_lt i _)) by lia.
Qed.

Lemma DataBlock_new_spec :
  0 <= dataBlockBytes cfg -> exists b, DataBlock_new = Ok b /\ block_wf b /\
    bytes b = replicate (Z.to_nat (if DATA_BLOCK || XACT_MEMORY then dataBlockBytes cfg else 0)) 0.
Proof.
  intros Hn. unfold DataBlock_new.
  assert (exists d, (if DATA_BLOCK || XACT_MEMORY then setSize Vector_default (dataBlockBytes cfg)
      else mret Vector_default) = Ok d /\ block_wf (mkDataBlock d)) as (d & -> & Hd).
  { destruct (DATA_BLOCK || XACT_MEMORY) eqn:Eb.
    - destruct (setSize_spec (Vector_default (A:=Z)) _ wf_default Hn) as (d & -> & Hw & Hs & _).
      exists d. split; [done|]. split; simpl; rewrite ?Eb; done.
    - exists Vector_default. split; [done|]. split; simpl; rewrite ?Eb; [apply wf_default|done]. }
  rewrite bind_of_ok. destruct (data_clear_spec _ Hd) as (b & -> & Hb & E).
  exists b. rewrite E, (bw_size _ Hd). done.
Qed.

Lemma getByte_spec b i :
  block_wf b -> 0 <= i < dataBlockBytes cfg -> DATA_BLOCK || XACT_MEMORY = true ->
  exists x, getByte b i = Ok x /\ zread (bytes b) i = Some x.
Proof.
  intros [Hw Hs] Hi Eb. unfold getByte, bytes. rewrite Eb in *.
  destruct (ref_in (m_data b) i) as (x & Hx & ->); [done|lia|]. exists x. split; [done|].
  rewrite zread_contents by lia. done.
Qed.

Lemma setByte_spec b i x :
  block_wf b -> 0 <= i < dataBlockBytes cfg -> DATA_BLOCK || XACT_MEMORY = true ->
  exists b', setByte b i x = Ok b' /\ block_wf b' /\ bytes b' = zwrite (bytes b) i x.
Proof.
  intros [Hw Hs] Hi Eb. unfold setByte, bytes. rewrite Eb in *.
  destruct (ref_assign_contents (m_data b) i x) as (d & -> & Hd & Hsz & Hc); [done|lia|].
  rewrite bind_of_ok. eexists. split; [done|]. split; [split; simpl; rewrite ?Eb; [done|lia]|done].
Qed.

(** [equal] decides whether two blocks of the configured size have the same bytes. *)
Theorem data_equal_decides b obj :
  block_wf b -> block_wf obj -> data_equal b obj = Ok (bool_decide (bytes b = bytes obj)).
Proof.
  intros [Hw Hs] [Hw' Hs']. unfold data_equal.
  destruct (for_range_inv (fun k v => v = true <-> forall i, 0 <= i < k -> zread (bytes b) i = zread (bytes obj) i)
    0 (m_size (m_data b)) (fun i value => if (value : bool) then
      x ← ref (m_data b) i; y ← ref (m_data obj) i; mret (x =? y) else mret false) true) as (v & -> & Hv).
  - apply Hw.
  - split; [lia|done].
  - intros i v Hi Hv. destruct v.
    + destruct (ref_in (m_data b) i Hw ltac:(lia)) as (x & Hx & ->).
      destruct (ref_in (m_data obj) i Hw' ltac:(lia)) as (y & Hy & ->). rewrite !bind_of_ok.
      eexists. split; [done|]. rewrite Z.eqb_eq.
      assert (zread (bytes b) i = Some x /\ zread (bytes obj) i = Some y) as [Ex Ey]
        by (unfold bytes; rewrite !zread_contents by lia; done).
      split.
      * intros -> j Hj. destruct (Z.eq_dec j i) as [->|]; [congruence|]. apply (proj1 Hv); [done|lia].
      * intros H. specialize (H i ltac:(lia)). congruence.
    + eexists. split; [done|]. split; [done|]. intros H. apply Hv. intros j Hj. apply H. lia.
  - f_equal. assert (Hiff : v = true <-> bytes b = bytes obj); [|case_bool_decide; destruct v; naive_solver].
    rewrite Hv. split; [|by intros ->].
    intros H. apply zread_ext; unfold bytes in *; rewrite !zlen_contents by done; [lia|done].
Qed.

End datablock.

Definition demo_block : DataBlock :=
  Eval vm_compute in from_ok (b ← DataBlock_new true false demo_configured; setByte true false b 3 7).

Lemma demo_block_wf : block_wf true false demo_configured demo_block.
Proof. split; [split; vm_compute; [split; discriminate|]|]; reflexivity. Qed.

Lemma data_equal_decides_witness :
  data_equal demo_block demo_block = Ok true /\ getByte true false demo_block 3 = Ok 7.
Proof.
  split; [|vm_compute; reflexivity].
  rewrite (data_equal_decides true false demo_configured demo_block demo_block demo_block_wf demo_block_wf).
  rewrite bool_decide_eq_true_2 by reflexivity. reflexivity.
Defined.
