(* ===== verification/CacheMemory.v ===== *)
(** [system/CacheMemory.h]: the set-associative cache every controller of a
    protocol keeps its lines in.

    The template argument [ENTRY] is a protocol's cache entry: what the cache
    reads of it ([m_Address], [m_Permission], [m_DataBlk]) and the protocol's own
    fields, of any type.  The simulated time is an argument, a pointer to the
    data of an entry is the place of the entry. *)

From stdpp Require Import strings.
From S2P Require Import Prelude Vector EventQueue Config Address Mapping Replacement DataBlock.

Inductive AccessPermission :=
  | Busy | Read_Only | Read_Write | Invalid | NotPresent | OnHold | ReadUpgradingToWrite | Stale.
#[export] Instance AccessPermission_eq_dec : EqDecision AccessPermission.
Proof. solve_decision. Defined.

Inductive CacheRequestType :=
  | LD | ST | ATOMIC | IFETCH | IO | REPLACEMENT | COMMIT | LD_XACT | LDX_XACT | ST_XACT
  | BEGIN_XACT | COMMIT_XACT | ABORT_XACT | MEM_FENCE | IDEAL_INV | NULL.
#[export] Instance CacheRequestType_eq_dec : EqDecision CacheRequestType.
Proof. solve_decision. Defined.

(** The policy object behind [m_replacementPolicy_ptr], and its virtual calls. *)
Inductive AnyPolicy := PLRU (p : PseudoLRUPolicy) | LRU (p : LRUPolicy).

#[export] Instance AnyPolicy_policy : ReplacementPolicy AnyPolicy := {|
  touch p set way t := match p with
    | PLRU q => q' ← touch q set way t; mret (PLRU q')
    | LRU q => q' ← touch q set way t; mret (LRU q')
    end;
  getVictim p set := match p with PLRU q => getVictim q set | LRU q => getVictim q set end;
  getLastAccess p set way := match p with
    | PLRU q => getLastAccess q set way
    | LRU q => getLastAccess q set way
    end;
|}.

#[export] Instance AnyPolicy_laws : PolicyLaws AnyPolicy.
Proof.
  refine {| policy_for p sets assoc := match p with
    | PLRU q => policy_for q sets assoc
    | LRU q => policy_for q sets assoc
    end |}.
  - intros [q|q] sets assoc set way t Hp Hs Hw; cbn [touch AnyPolicy_policy];
      destruct (touch_ok q sets assoc set way t Hp Hs Hw) as (q' & E & Hq & Hl);
      rewrite E, bind_of_ok; eexists; (split; [reflexivity|]); split; assumption.
  - intros [q|q] sets assoc set Hp Hs; by apply (victim_ok q sets assoc).
  - intros [q|q] sets assoc set way Hp Hs Hw; by apply (last_access_ok q sets assoc).
Defined.

Section cache.
  Context {P : Type} `{!ReplacementPolicy P} {X : Type} `{!Inhabited X}.
  Context (cfg : RubyConfig) (MACHINETYPE_L1CACHE_ENUM MACHINETYPE_L2CACHE_ENUM : Z).
  Context (DATA_BLOCK XACT_MEMORY : bool).

Record Entry := mkEntry {
  m_Address : Z;
  m_Permission : AccessPermission;
  m_DataBlk : DataBlock;
  m_protocol : X;
}.
#[export] Instance Entry_inhabited : Inhabited Entry :=
  populate (mkEntry 0 NotPresent inhabitant inhabitant).

Record CacheMemory := mkCacheMemory {
  m_chip_id : Z;
  m_machType : Z;
  m_is_instruction_cache : bool;
  m_cache : Vector (Vector Entry);
  m_replacementPolicy_ptr : P;
  m_cache_num_sets : Z;
  m_cache_num_set_bits : Z;
  m_cache_assoc : Z;
}.
Implicit Types (c : CacheMemory) (address : Z).

Definition with_cache c (v : Vector (Vector Entry)) : CacheMemory :=
  mkCacheMemory (m_chip_id c) (m_machType c) (m_is_instruction_cache c) v
    (m_replacementPolicy_ptr c) (m_cache_num_sets c) (m_cache_num_set_bits c) (m_cache_assoc c).
Definition with_policy c (p : P) : CacheMemory :=
  mkCacheMemory (m_chip_id c) (m_machType c) (m_is_instruction_cache c) (m_cache c)
    p (m_cache_num_sets c) (m_cache_num_set_bits c) (m_cache_assoc c).
Definition setAsInstructionCache c (is_icache : bool) : CacheMemory :=
  mkCacheMemory (m_chip_id c) (m_machType c) is_icache (m_cache c)
    (m_replacementPolicy_ptr c) (m_cache_num_sets c) (m_cache_num_set_bits c) (m_cache_assoc c).

(** [m_cache[set][way]] read, and assigned. *)
Definition cell c (set way : Z) : outcome Entry := row ← ref (m_cache c) set; ref row way.
Definition cell_assign c (set way : Z) (e : Entry) : outcome CacheMemory :=
  row ← ref (m_cache c) set;
  row' ← ref_assign row way e;
  v ← ref_assign (m_cache c) set row';
  mret (with_cache c v).

Definition with_permission (e : Entry) (p : AccessPermission) : Entry :=
  mkEntry (m_Address e) p (m_DataBlk e) (m_protocol e).
Definition with_data (e : Entry) (b : DataBlock) : Entry :=
  mkEntry (m_Address e) (m_Permission e) b (m_protocol e).
(** [ENTRY()]: a default constructed entry, its block cleared. *)
Definition Entry_new : outcome Entry :=
  b ← DataBlock_new DATA_BLOCK XACT_MEMORY cfg; mret (mkEntry 0 NotPresent b inhabitant).

(** The loop the constructor and [flushCache] share: every way of every set loses
    its address and its permission. *)
Definition reset_way (i j : Z) c : outcome CacheMemory :=
  e ← cell c i j; cell_assign c i j (mkEntry 0 NotPresent (m_DataBlk e) (m_protocol e)).
Definition reset_set (i : Z) c : outcome CacheMemory :=
  row ← ref (m_cache c) i;
  row' ← setSize row (m_cache_assoc c);
  v ← ref_assign (m_cache c) i row';
  for_range 0 (m_cache_assoc c) (reset_way i) (with_cache c v).
Definition reset_all c : outcome CacheMemory := for_range 0 (m_cache_num_sets c) reset_set c.

Definition flushCache c : outcome CacheMemory := reset_all c.

Definition assert_line address : outcome unit :=
  l ← line_address cfg address; cassert (address =? l).

Definition addressToCacheSet c address : outcome Z :=
  assert_line address;;
  temp ← (if m_machType c =? MACHINETYPE_L1CACHE_ENUM then
            map_address_to_L1CacheSet cfg address (m_cache_num_set_bits c)
          else if m_machType c =? MACHINETYPE_L2CACHE_ENUM then
            map_address_to_L2CacheSet cfg address (m_cache_num_set_bits c)
          else Err ErrorMsg);
  cassert (temp <? m_cache_num_sets c);;
  cassert (0 <=? temp);;
  mret temp.

(** [for (int i=lo; i < hi; i++) if (p(i)) return i; return -1;] *)
Fixpoint find_way (n : nat) (i : Z) (p : Z → outcome bool) : outcome Z :=
  match n with
  | O => Ok (-1)
  | S n' => b ← p i; if (b : bool) then mret i else find_way n' (i + 1) p
  end.

Definition findTagInSet c (cacheSet tag : Z) : outcome Z :=
  assert_line tag;;
  find_way (Z.to_nat (m_cache_assoc c)) 0 (fun i =>
    e ← cell c cacheSet i;
    mret ((m_Address e =? tag) && bool_decide (m_Permission e <> NotPresent))).

Definition findTagInSetIgnorePermissions c (cacheSet tag : Z) : outcome Z :=
  assert_line tag;;
  find_way (Z.to_nat (m_cache_assoc c)) 0 (fun i =>
    e ← cell c cacheSet i; mret (m_Address e =? tag)).

Definition policy_touch c (set way : Z) (now : Time) : outcome CacheMemory :=
  p ← touch (m_replacementPolicy_ptr c) set way now; mret (with_policy c p).

(** Whether the access hits, and the entry [data_ptr] then points into. *)
Definition tryCacheAccess c address (type : CacheRequestType) (now : Time) :
    outcome (bool * option (Z * Z) * CacheMemory) :=
  assert_line address;;
  cacheSet ← addressToCacheSet c address;
  loc ← findTagInSet c cacheSet address;
  if negb (loc =? -1) then
    c' ← policy_touch c cacheSet loc now;
    entry ← cell c' cacheSet loc;
    if bool_decide (m_Permission entry = Read_Write) then mret (true, Some (cacheSet, loc), c')
    else if bool_decide (m_Permission entry = Read_Only) &&
            (bool_decide (type = LD) || bool_decide (type = IFETCH))
    then mret (true, Some (cacheSet, loc), c')
    else mret (false, None, c')
  else mret (false, None, c).

Definition testCacheAccess c address (type : CacheRequestType) (now : Time) :
    outcome (bool * option (Z * Z) * CacheMemory) :=
  assert_line address;;
  cacheSet ← addressToCacheSet c address;
  loc ← findTagInSet c cacheSet address;
  if negb (loc =? -1) then
    c' ← policy_touch c cacheSet loc now;
    entry ← cell c' cacheSet loc;
    mret (bool_decide (m_Permission entry <> NotPresent), Some (cacheSet, loc), c')
  else mret (false, None, c).

Definition isTagPresent c address : outcome bool :=
  assert_line address;;
  cacheSet ← addressToCacheSet c address;
  location ← findTagInSet c cacheSet address;
  mret (negb (location =? -1)).

Definition cacheAvail c address : outcome bool :=
  assert_line address;;
  cacheSet ← addressToCacheSet c address;
  w ← find_way (Z.to_nat (m_cache_assoc c)) 0 (fun i =>
        e ← cell c cacheSet i;
        mret ((m_Address e =? address) || bool_decide (m_Permission e = NotPresent)));
  mret (negb (w =? -1)).

Definition allocate c address (now : Time) : outcome CacheMemory :=
  assert_line address;;
  present ← isTagPresent c address;
  cassert (negb present);;
  avail ← cacheAvail c address;
  cassert avail;;
  cacheSet ← addressToCacheSet c address;
  i ← find_way (Z.to_nat (m_cache_assoc c)) 0 (fun i =>
        e ← cell c cacheSet i; mret (bool_decide (m_Permission e = NotPresent)));
  if i =? -1 then Err ErrorMsg
  else
    e ← Entry_new;
    c' ← cell_assign c cacheSet i (mkEntry address Invalid (m_DataBlk e) (m_protocol e));
    policy_touch c' cacheSet i now.

(** The place of the entry [lookup] returns a reference to. *)
Definition lookup_place c address : outcome (Z * Z) :=
  assert_line address;;
  cacheSet ← addressToCacheSet c address;
  loc ← findTagInSet c cacheSet address;
  cassert (negb (loc =? -1));;
  mret (cacheSet, loc).
Definition lookup c address : outcome Entry :=
  '(s, w) ← lookup_place c address; cell c s w.

Definition deallocate c address : outcome CacheMemory :=
  assert_line address;;
  present ← isTagPresent c address;
  cassert present;;
  '(s, w) ← lookup_place c address;
  e ← cell c s w;
  cell_assign c s w (with_permission e NotPresent).

Definition cacheProbe c address : outcome Z :=
  assert_line address;;
  avail ← cacheAvail c address;
  cassert (negb avail);;
  cacheSet ← addressToCacheSet c address;
  v ← getVictim (m_replacementPolicy_ptr c) cacheSet;
  e ← cell c cacheSet v;
  mret (m_Address e).

Definition getPermission c address : outcome AccessPermission :=
  assert_line address;;
  e ← lookup c address; mret (m_Permission e).

Definition changePermission c address (new_perm : AccessPermission) : outcome CacheMemory :=
  assert_line address;;
  '(s, w) ← lookup_place c address;
  e ← cell c s w;
  c' ← cell_assign c s w (with_permission e new_perm);
  p ← getPermission c' address;
  cassert (bool_decide (p = new_perm));;
  mret c'.

Definition setMRU c address (now : Time) : outcome CacheMemory :=
  cacheSet ← addressToCacheSet c address;
  loc ← findTagInSet c cacheSet address;
  policy_touch c cacheSet loc now.

(** The calls of [addRecord], in order: chip, line, request, last access. *)
Definition record_type c (perm : AccessPermission) : CacheRequestType :=
  if bool_decide (perm = Read_Only) then (if m_is_instruction_cache c then IFETCH else LD)
  else if bool_decide (perm = Read_Write) then ST else NULL.
Definition record_way c (i j : Z) (tr : list (Z * Z * CacheRequestType * Time)) :
    outcome (list (Z * Z * CacheRequestType * Time)) :=
  e ← cell c i j;
  let request_type := record_type c (m_Permission e) in
  if bool_decide (request_type <> NULL) then
    t ← getLastAccess (m_replacementPolicy_ptr c) i j;
    mret (tr ++ [(m_chip_id c, m_Address e, request_type, t)])
  else mret tr.
Definition recordCacheContents c (tr : list (Z * Z * CacheRequestType * Time)) :
    outcome (list (Z * Z * CacheRequestType * Time)) :=
  for_range 0 (m_cache_num_sets c)
    (fun i tr => for_range 0 (m_cache_assoc c) (record_way c i) tr) tr.

Definition getMemoryValue c (addr : Z) (value : list Z) (size_in_bytes : Z) : outcome (list Z) :=
  l ← line_address cfg addr;
  entry ← lookup c l;
  let startByte := u32 (addr - l) in
  for_range 0 size_in_bytes (fun i value =>
    b ← getByte DATA_BLOCK XACT_MEMORY (m_DataBlk entry) (s32 (u32 (i + startByte)));
    awrite value i (swrap 8 b)) value.

(** The closing self assignment [entry = lookup(...)] changes nothing. *)
Definition setMemoryValue c (addr : Z) (value : list Z) (size_in_bytes : Z) : outcome CacheMemory :=
  l ← line_address cfg addr;
  '(s, w) ← lookup_place c l;
  let startByte := u32 (addr - l) in
  cassert (0 <? size_in_bytes);;
  c' ← for_range 0 size_in_bytes (fun i c =>
    v ← aread value i;
    e ← cell c s w;
    b ← setByte DATA_BLOCK XACT_MEMORY (m_DataBlk e) (s32 (u32 (i + startByte))) (uwrap 8 v);
    cell_assign c s w (with_data e b)) c;
  lookup_place c' l;;
  mret c'.

End cache.
Arguments Entry : clear implicits.
Arguments CacheMemory : clear implicits.

(** The constructor chooses the policy by its configured name. *)
Definition CacheMemory_new {X} `{!Inhabited X} (g_REPLACEMENT_POLICY : string)
    (chip_ptr numSetBits cacheAssoc machType : Z) : outcome (CacheMemory AnyPolicy X) :=
  let num_sets := s32 (Z.shiftl 1 numSetBits) in
  v ← setSize Vector_default num_sets;
  p ← (if bool_decide (g_REPLACEMENT_POLICY = "PSEDUO_LRU"%string) then
         q ← PseudoLRUPolicy_new num_sets cacheAssoc; mret (PLRU q)
       else if bool_decide (g_REPLACEMENT_POLICY = "LRU"%string) then
         mret (LRU (LRUPolicy_new num_sets cacheAssoc))
       else Err AssertFailed);
  reset_all (mkCacheMemory chip_ptr machType false v p num_sets numSetBits cacheAssoc).

(** * A cache is a finite map of lines *)

Section proofs.
  Context {P : Type} `{!ReplacementPolicy P} `{!PolicyLaws P} {X : Type} `{!Inhabited X}.
  Context (cfg : RubyConfig) (L1_ENUM L2_ENUM : Z) (DATA_BLOCK XACT_MEMORY : bool).
  Context (Hcfg : configured cfg).
  Implicit Types (c : CacheMemory P X) (e : Entry X) (M : gmap Z (Entry X)) (a s w : Z).
  Abbreviation addressToCacheSet := (addressToCacheSet cfg L1_ENUM L2_ENUM).
  Abbreviation findTagInSet := (findTagInSet cfg).
  Abbreviation isTagPresent := (isTagPresent cfg L1_ENUM L2_ENUM).
  Abbreviation cacheAvail := (cacheAvail cfg L1_ENUM L2_ENUM).
  Abbreviation allocate := (allocate cfg L1_ENUM L2_ENUM DATA_BLOCK XACT_MEMORY).
  Abbreviation lookup_place := (lookup_place cfg L1_ENUM L2_ENUM).
  Abbreviation lookup_line := (CacheMemory.lookup cfg L1_ENUM L2_ENUM).
  Abbreviation deallocate := (deallocate cfg L1_ENUM L2_ENUM).
  Abbreviation cacheProbe := (cacheProbe cfg L1_ENUM L2_ENUM).
  Abbreviation getPermission := (getPermission cfg L1_ENUM L2_ENUM).
  Abbreviation changePermission := (changePermission cfg L1_ENUM L2_ENUM).
  Abbreviation tryCacheAccess := (tryCacheAccess cfg L1_ENUM L2_ENUM).

Definition is_line a : Prop := is_address a /\ a mod dataBlockBytes cfg = 0.
Definition present e : Prop := m_Permission e <> NotPresent.

(** The set of a line, by arithmetic. *)
Definition set_low c : Z :=
  dataBlockBits cfg +
  (if m_machType c =? L1_ENUM then 0
   else if MAP_L2BANKS_TO_LOWEST_BITS cfg then L2CachePerChipBits cfg else 0).
Definition set_of c a : Z := (a / 2 ^ set_low c) mod 2 ^ m_cache_num_set_bits c.

Definition at_place c s w : option (Entry X) :=
  match zread (contents (m_cache c)) s with Some row => zread (contents row) w | None => None end.

(** The geometry, which no operation changes. *)
Record geometry c : Prop := {
  cg_sets : m_cache_num_sets c = 2 ^ m_cache_num_set_bits c;
  cg_bits : 0 < m_cache_num_set_bits c < 31;
  cg_assoc : 0 < m_cache_assoc c;
  cg_fits : set_low c + m_cache_num_set_bits c <= 63;
  cg_type : m_machType c = L1_ENUM \/ m_machType c = L2_ENUM;
  cg_vec : wf (m_cache c);
  cg_size : m_size (m_cache c) = m_cache_num_sets c;
  cg_rows : Forall (fun row => wf row /\ m_size row = m_cache_assoc c) (contents (m_cache c));
  cg_policy : policy_for (m_replacementPolicy_ptr c) (m_cache_num_sets c) (m_cache_assoc c);
}.

(** The cache [c] holds the lines of [M]: each in its set, in one way only. *)
Record cache_rep c M : Prop := {
  cr_geo : geometry c;
  cr_here s w e : at_place c s w = Some e -> present e ->
    is_line (m_Address e) /\ set_of c (m_Address e) = s /\ M !! m_Address e = Some e;
  cr_map a e : M !! a = Some e ->
    m_Address e = a /\ present e /\ exists w, at_place c (set_of c a) w = Some e;
  cr_unique s w w' e e' : at_place c s w = Some e -> at_place c s w' = Some e' ->
    present e -> present e' -> m_Address e = m_Address e' -> w = w';
}.

Lemma assert_line_ok a : is_line a -> assert_line cfg a = Ok tt.
Proof.
  intros [Ha Hm]. unfold assert_line, line_address. rewrite makeLineAddress_val, bind_of_ok by done.
  apply cassert_true, Z.eqb_eq. pose proof (block_pos cfg Hcfg) as Hb.
  pose proof (Z.div_mod a (dataBlockBytes cfg) ltac:(lia)). lia.
Qed.

Lemma addressToCacheSet_val c a :
  geometry c -> is_line a -> addressToCacheSet c a = Ok (set_of c a).
Proof.
  intros Hg Ha. pose proof (assert_line_ok a Ha) as Hl. destruct Ha as [Ha _].
  destruct (cf_block _ Hcfg) as [_ Hb]. destruct (cf_l2_per_chip _ Hcfg) as [_ Hk].
  pose proof (cg_bits _ Hg) as Hbits. pose proof (cg_fits _ Hg) as Hfits.
  unfold CacheMemory.addressToCacheSet. rewrite Hl, bind_of_ok.
  assert ((if m_machType c =? L1_ENUM then map_address_to_L1CacheSet cfg a (m_cache_num_set_bits c)
           else if m_machType c =? L2_ENUM then map_address_to_L2CacheSet cfg a (m_cache_num_set_bits c)
           else Err ErrorMsg) = Ok (set_of c a)) as ->.
  { unfold set_of, set_low, map_address_to_L1CacheSet, map_address_to_L2CacheSet in *.
    unfold dataBlockBits, L2CachePerChipBits in *.
    destruct (Z.eqb_spec (m_machType c) L1_ENUM) as [|Hne].
    - rewrite Z.add_0_r in *. apply bits_field; (done || lia).
    - destruct (cg_type _ Hg) as [|E]; [done|]. rewrite (proj2 (Z.eqb_eq _ _) E).
      destruct (MAP_L2BANKS_TO_LOWEST_BITS cfg);
        [|rewrite Z.add_0_r in *]; apply bits_field; (done || lia). }
  rewrite bind_of_ok, (cg_sets _ Hg).
  assert (0 <= set_of c a < 2 ^ m_cache_num_set_bits c)
    by (apply Z.mod_pos_bound, Z.pow_pos_nonneg; lia).
  rewrite !cassert_true by (apply Z.ltb_lt || apply Z.leb_le; lia). done.
Qed.

Lemma set_of_range c a : geometry c -> 0 <= set_of c a < m_cache_num_sets c.
Proof.
  intros Hg. rewrite (cg_sets _ Hg). apply Z.mod_pos_bound, Z.pow_pos_nonneg; [lia|].
  pose proof (cg_bits _ Hg). lia.
Qed.

(** ** Cells *)

Lemma row_of c s : geometry c -> 0 <= s < m_cache_num_sets c ->
  exists row, zread (contents (m_cache c)) s = Some row /\ ref (m_cache c) s = Ok row /\
    wf row /\ m_size row = m_cache_assoc c.
Proof.
  intros Hg Hs. destruct (zread_is_some (contents (m_cache c)) s) as [row Hr].
  { rewrite zlen_contents by apply Hg. by rewrite (cg_size _ Hg). }
  exists row. split; [done|]. split; [by apply ref_contents; [apply Hg|]|].
  pose proof (cg_rows _ Hg) as Hf. rewrite Forall_forall in Hf. apply Hf. by eapply zread_elem_of.
Qed.

Lemma at_place_range c s w e : geometry c -> at_place c s w = Some e ->
  0 <= s < m_cache_num_sets c /\ 0 <= w < m_cache_assoc c.
Proof.
  intros Hg. unfold at_place. destruct (zread (contents (m_cache c)) s) as [row|] eqn:Hr; [|done].
  intros Hw. apply zread_range in Hr as Hs. rewrite zlen_contents, (cg_size _ Hg) in Hs by apply Hg.
  destruct (row_of c s Hg Hs) as (row' & Hr' & _ & Hwf & Hsz). rewrite Hr in Hr'. injection Hr' as <-.
  apply zread_range in Hw. rewrite zlen_contents in Hw by done. lia.
Qed.

Lemma cell_in c s w : geometry c -> 0 <= s < m_cache_num_sets c -> 0 <= w < m_cache_assoc c ->
  exists e, cell c s w = Ok e /\ at_place c s w = Some e.
Proof.
  intros Hg Hs Hw. destruct (row_of c s Hg Hs) as (row & Hr & Er & Hwf & Hsz).
  unfold cell, at_place. rewrite Er, bind_of_ok, Hr.
  destruct (ref_in row w) as (e & He & ->); [done|lia|]. exists e. split; [done|].
  rewrite zread_contents by lia. done.
Qed.

Lemma cell_at c s w e : geometry c -> at_place c s w = Some e -> cell c s w = Ok e.
Proof.
  intros Hg He. destruct (at_place_range c s w e Hg He) as [Hs Hw].
  destruct (cell_in c s w Hg Hs Hw) as (e' & -> & He'). congruence.
Qed.

Lemma cell_assign_spec c s w e :
  geometry c -> 0 <= s < m_cache_num_sets c -> 0 <= w < m_cache_assoc c ->
  exists v, cell_assign c s w e = Ok (with_cache c v) /\ geometry (with_cache c v) /\
    forall s' w', at_place (with_cache c v) s' w' =
      if bool_decide (s' = s /\ w' = w) then Some e else at_place c s' w'.
Proof.
  intros Hg Hs Hw. destruct (row_of c s Hg Hs) as (row & Hr & Er & Hwf & Hsz).
  unfold cell_assign. rewrite Er, bind_of_ok.
  destruct (ref_assign_contents row w e) as (row' & -> & Hwf' & Hsz' & Hc'); [done|lia|]. rewrite bind_of_ok.
  destruct (ref_assign_contents (m_cache c) s row') as (v & -> & Hv & Hvs & Hvc);
    [apply Hg|by rewrite (cg_size _ Hg)|]. rewrite bind_of_ok.
  exists v. split; [done|]. split.
  - destruct Hg. split; simpl; try done; [lia|]. rewrite Hvc. unfold zwrite.
    destruct (0 <=? s); [|done]. apply Forall_insert; [done|]. split; [done|lia].
  - intros s' w'. unfold at_place. simpl. rewrite Hvc.
    rewrite zread_zwrite by (rewrite zlen_contents, (cg_size _ Hg) by apply Hg; done).
    destruct (Z.eqb_spec s s') as [<-|Hne]; [|rewrite bool_decide_eq_false_2 by naive_solver; done].
    rewrite Hr, Hc', zread_zwrite by (rewrite zlen_contents by done; lia).
    destruct (Z.eqb_spec w w') as [<-|Hne];
      [by rewrite bool_decide_eq_true_2|by rewrite bool_decide_eq_false_2 by naive_solver].
Qed.

(** The lines after the entry of a way went from [e0] to [e]. *)
Definition replaced M e0 e : gmap Z (Entry X) :=
  let M1 := if decide (present e0) then delete (m_Address e0) M else M in
  if decide (present e) then <[m_Address e := e]> M1 else M1.

(** ** Overwriting a way *)

Lemma put_rep c M s w e0 e :
  cache_rep c M -> at_place c s w = Some e0 ->
  (present e -> is_line (m_Address e) /\ set_of c (m_Address e) = s /\
    (M !! m_Address e = None \/ present e0 /\ m_Address e0 = m_Address e)) ->
  exists v, cell_assign c s w e = Ok (with_cache c v) /\ cache_rep (with_cache c v) (replaced M e0 e) /\
    at_place (with_cache c v) s w = Some e.
Proof.
  intros HM H0 Hok. pose proof (cr_geo _ _ HM) as Hg. destruct (at_place_range c s w e0 Hg H0) as [Hs Hw].
  destruct (cell_assign_spec c s w e Hg Hs Hw) as (v & E & Hg' & Hat). exists v. split; [done|].
  split; [|by rewrite Hat, bool_decide_eq_true_2].
  (* a present entry elsewhere has another address than the old and the new one *)
  assert (Hother : forall s' w' e', ~ (s' = s /\ w' = w) -> at_place c s' w' = Some e' -> present e' ->
    (present e0 -> m_Address e' <> m_Address e0) /\ (present e -> m_Address e' <> m_Address e)).
  { intros s' w' e' Hne He' Hp'. destruct (cr_here _ _ HM _ _ _ He' Hp') as (_ & Hs' & HMe').
    assert (Hold : present e0 -> m_Address e' <> m_Address e0).
    { intros Hp0 Heq. apply Hne. destruct (cr_here _ _ HM _ _ _ H0 Hp0) as (_ & Hs0 & _).
      assert (s' = s) as -> by congruence. split; [done|]. by apply (cr_unique _ _ HM s w' w e' e0). }
    split; [done|]. intros Hp Heq. destruct (Hok Hp) as (_ & _ & [Hnone|[Hp0 Heq0]]); [congruence|].
    apply (Hold Hp0). congruence. }
  split; [done| | |].
  - intros s' w' e' He' Hp'. change (set_of (with_cache c v)) with (set_of c). rewrite Hat in He'.
    unfold replaced. case_bool_decide as Hsw.
    + injection He' as <-. destruct Hsw as [-> ->]. destruct (Hok Hp') as (Hl & Hset & _).
      rewrite decide_True by done. rewrite lookup_insert_eq. done.
    + destruct (cr_here _ _ HM _ _ _ He' Hp') as (Hl & Hset & HMe').
      destruct (Hother s' w' e' Hsw He' Hp') as [Hn0 Hn]. split_and!; [done..|].
      destruct (decide (present e)); destruct (decide (present e0));
        rewrite ?lookup_insert_ne, ?lookup_delete_ne by (symmetry; auto); done.
  - intros a e' He'. change (set_of (with_cache c v)) with (set_of c).
    assert (Hcase : (present e /\ a = m_Address e /\ e' = e) \/
      ((present e -> a <> m_Address e) /\ (present e0 -> a <> m_Address e0) /\ M !! a = Some e')).
    { unfold replaced in He'. destruct (decide (present e)) as [Hp|Hp].
      - apply lookup_insert_Some in He' as [[<- <-]|[Hne He']]; [by left|].
        right. split; [done|]. destruct (decide (present e0)); [|done].
        apply lookup_delete_Some in He' as [Hne0 He']. done.
      - right. split; [done|]. destruct (decide (present e0)); [|done].
        apply lookup_delete_Some in He' as [Hne0 He']. done. }
    destruct Hcase as [(Hp & -> & ->)|(Hn & Hn0 & He)].
    + destruct (Hok Hp) as (_ & -> & _). split_and!; [done..|]. exists w. rewrite Hat, bool_decide_eq_true_2; done.
    + destruct (cr_map _ _ HM _ _ He) as (Ha & Hp & w' & Hw'). split_and!; [done..|]. exists w'. rewrite Hat.
      case_bool_decide as Hsw; [|done]. destruct Hsw as [Hset ->]. rewrite Hset, H0 in Hw'.
      injection Hw' as <-. destruct (Hn0 Hp). done.
  - intros s' w1 w2 e1 e2. rewrite !Hat. do 2 case_bool_decide; intros; simplify_eq.
    + naive_solver.
    + destruct (Hother s' w2 e2) as [_ Hd]; [done..|]. destruct H as [-> ->]. by destruct (Hd ltac:(done)).
    + destruct (Hother s' w1 e1) as [_ Hd]; [done..|]. by destruct (Hd ltac:(done)).
    + by apply (cr_unique _ _ HM s' w1 w2 e1 e2).
Qed.

Lemma policy_touch_rep c M s w now :
  cache_rep c M -> 0 <= s < m_cache_num_sets c -> 0 <= w < m_cache_assoc c ->
  exists p, policy_touch c s w now = Ok (with_policy c p) /\ cache_rep (with_policy c p) M /\
    (forall s' w', at_place (with_policy c p) s' w' = at_place c s' w') /\
    getLastAccess p s w = Ok now.
Proof.
  intros HM Hs Hw. pose proof (cr_geo _ _ HM) as Hg.
  destruct (touch_ok _ _ _ s w now (cg_policy _ Hg) Hs Hw) as (p & E & Hp & Hl).
  exists p. unfold policy_touch. rewrite E, bind_of_ok. split_and!; [done| |done|done].
  destruct HM as [_ Hh Hm Hu]. split; [destruct Hg; split; done|exact Hh|exact Hm|exact Hu].
Qed.

(** ** Searching a set *)

Lemma find_way_spec n lo p q :
  (forall i, lo <= i < lo + Z.of_nat n -> p i = Ok (q i)) ->
  find_way n lo p = Ok (default (-1) (search_up n lo q)).
Proof.
  revert lo. induction n as [|n IH]; intros lo Hp; simpl; [done|].
  rewrite Hp, bind_of_ok by lia. destruct (q lo); [done|]. apply IH. intros i Hi. apply Hp. lia.
Qed.

(** A search of the ways of a set for the first entry that satisfies [q]. *)
Lemma find_cell c s (q : Entry X → bool) :
  geometry c -> 0 <= s < m_cache_num_sets c ->
  exists r, find_way (Z.to_nat (m_cache_assoc c)) 0 (fun i => e ← cell c s i; mret (q e)) = Ok r /\
    ((r = -1 /\ forall w e, at_place c s w = Some e -> q e = false) \/
     (exists e, at_place c s r = Some e /\ q e = true /\ r <> -1)).
Proof.
  intros Hg Hs. pose proof (cg_assoc _ Hg) as Ha.
  set (qi := fun i => match at_place c s i with Some e => q e | None => false end).
  rewrite (find_way_spec _ _ _ qi).
  2: { intros i Hi. destruct (cell_in c s i Hg Hs ltac:(lia)) as (e & -> & He).
       rewrite bind_of_ok. unfold qi. by rewrite He. }
  eexists. split; [done|]. pose proof (search_some 0 (m_cache_assoc c) qi) as Hsome.
  pose proof (search_none 0 (m_cache_assoc c) qi) as Hnone. unfold search in *. rewrite Z.sub_0_r in *.
  destruct (search_up _ 0 qi) as [i|]; simpl.
  - right. destruct (proj1 (Hsome i) eq_refl) as (Hi & Hq & _). unfold qi in Hq.
    destruct (at_place c s i) as [e|]; [|done]. exists e. split_and!; [done|done|lia].
  - left. split; [done|]. intros w e He. pose proof (proj1 Hnone eq_refl w) as Hq.
    unfold qi in Hq. rewrite He in Hq. apply Hq. apply (at_place_range c s w e Hg He).
Qed.

Lemma findTag_hit c M a e :
  cache_rep c M -> M !! a = Some e ->
  exists w, findTagInSet c (set_of c a) a = Ok w /\ at_place c (set_of c a) w = Some e /\ w <> -1.
Proof.
  intros HM He. pose proof (cr_geo _ _ HM) as Hg. destruct (cr_map _ _ HM a e He) as (Ha & Hp & w & Hw).
  destruct (cr_here _ _ HM _ _ _ Hw Hp) as (Hl & _ & _). rewrite Ha in Hl.
  unfold CacheMemory.findTagInSet. rewrite assert_line_ok, bind_of_ok by done.
  destruct (find_cell c (set_of c a) (fun e => (m_Address e =? a) && bool_decide (m_Permission e <> NotPresent))
    Hg (set_of_range c a Hg)) as (r & -> & [[_ Hno]|(e' & He' & Hq & Hr)]).
  - specialize (Hno w e Hw). rewrite (proj2 (Z.eqb_eq _ _) Ha), bool_decide_eq_true_2 in Hno by done. done.
  - exists r. to_prop. destruct (cr_here _ _ HM _ _ _ He' ltac:(done)) as (_ & _ & HM').
    split_and!; [done| |done]. congruence.
Qed.

Lemma findTag_miss c M a :
  cache_rep c M -> is_line a -> M !! a = None -> findTagInSet c (set_of c a) a = Ok (-1).
Proof.
  intros HM Hl Hn. pose proof (cr_geo _ _ HM) as Hg.
  unfold CacheMemory.findTagInSet. rewrite assert_line_ok, bind_of_ok by done.
  destruct (find_cell c (set_of c a) (fun e => (m_Address e =? a) && bool_decide (m_Permission e <> NotPresent))
    Hg (set_of_range c a Hg)) as (r & -> & [[-> _]|(e' & He' & Hq & Hr)]); [done|].
  to_prop. destruct (cr_here _ _ HM _ _ _ He' ltac:(done)) as (_ & _ & HM'). congruence.
Qed.

(** ** The queries *)

Lemma assert_line_err a : is_address a -> a mod dataBlockBytes cfg <> 0 -> assert_line cfg a = Err AssertFailed.
Proof.
  intros Ha Hm. unfold assert_line, line_address. rewrite makeLineAddress_val, bind_of_ok by done.
  pose proof (block_pos cfg Hcfg) as Hb. pose proof (Z.div_mod a (dataBlockBytes cfg) ltac:(lia)).
  unfold cassert. rewrite (proj2 (Z.eqb_neq _ _)) by lia. done.
Qed.

Lemma line_of_map c M a e : cache_rep c M -> M !! a = Some e -> is_line a /\ m_Address e = a /\ present e.
Proof.
  intros HM He. destruct (cr_map _ _ HM a e He) as (Ha & Hp & w & Hw).
  destruct (cr_here _ _ HM _ _ _ Hw Hp) as (Hl & _ & _). by rewrite Ha in Hl.
Qed.

Lemma isTagPresent_val c M a :
  cache_rep c M -> is_line a -> isTagPresent c a = Ok (bool_decide (is_Some (M !! a))).
Proof.
  intros HM Hl. pose proof (cr_geo _ _ HM) as Hg. unfold CacheMemory.isTagPresent.
  rewrite assert_line_ok, bind_of_ok, addressToCacheSet_val, bind_of_ok by done.
  destruct (M !! a) as [e|] eqn:He.
  - destruct (findTag_hit c M a e HM He) as (w & -> & _ & Hw). rewrite bind_of_ok.
    by rewrite (proj2 (Z.eqb_neq w (-1)) Hw), bool_decide_eq_true_2.
  - rewrite (findTag_miss c M a HM Hl He), bind_of_ok. rewrite bool_decide_eq_false_2; [done|]. by intros [].
Qed.

(** A set with an unused way. *)
Definition has_room c s : Prop := exists w e, at_place c s w = Some e /\ ~ present e.

Lemma cacheAvail_val c M a :
  cache_rep c M -> is_line a ->
  exists b, cacheAvail c a = Ok b /\ (b = true <-> is_Some (M !! a) \/ has_room c (set_of c a)).
Proof.
  intros HM Hl. pose proof (cr_geo _ _ HM) as Hg. unfold CacheMemory.cacheAvail.
  rewrite assert_line_ok, bind_of_ok, addressToCacheSet_val, bind_of_ok by done.
  destruct (find_cell c (set_of c a) (fun e => (m_Address e =? a) || bool_decide (m_Permission e = NotPresent))
    Hg (set_of_range c a Hg)) as (r & -> & Hcase); rewrite bind_of_ok; eexists; (split; [done|]).
  destruct Hcase as [[-> Hno]|(e & He & Hq & Hr)].
  - split; [done|]. intros [[e He]|(w & e & He & Hn)].
    + destruct (cr_map _ _ HM a e He) as (Ha & Hp & w & Hw). specialize (Hno w e Hw). to_prop. done.
    + specialize (Hno w e He). unfold present in Hn. to_prop. done.
  - rewrite (proj2 (Z.eqb_neq r (-1)) Hr). split; [intros _|done].
    destruct (decide (m_Permission e = NotPresent)) as [Hn|Hp].
    + right. exists r, e. split; [done|]. unfold present. by intros [].
    + left. apply orb_true_iff in Hq as [<-%Z.eqb_eq|Hq%bool_decide_eq_true]; [|done]. destruct (cr_here _ _ HM _ _ _ He Hp) as (_ & _ & ->). by eexists.
Qed.

Lemma lookup_place_hit c M a e :
  cache_rep c M -> M !! a = Some e ->
  exists w, lookup_place c a = Ok (set_of c a, w) /\ at_place c (set_of c a) w = Some e.
Proof.
  intros HM He. pose proof (cr_geo _ _ HM) as Hg. destruct (line_of_map c M a e HM He) as (Hl & _ & _).
  unfold CacheMemory.lookup_place.
  rewrite assert_line_ok, bind_of_ok, addressToCacheSet_val, bind_of_ok by done.
  destruct (findTag_hit c M a e HM He) as (w & -> & Hw & Hne). rewrite bind_of_ok, cassert_true, bind_of_ok.
  - by exists w.
  - by rewrite (proj2 (Z.eqb_neq w (-1)) Hne).
Qed.

Lemma lookup_hit c M a e : cache_rep c M -> M !! a = Some e -> lookup_line c a = Ok e.
Proof.
  intros HM He. destruct (lookup_place_hit c M a e HM He) as (w & E & Hw). unfold CacheMemory.lookup.
  rewrite E, bind_of_ok. by apply cell_at; [apply HM|].
Qed.

Lemma lookup_miss c M a :
  cache_rep c M -> is_line a -> M !! a = None -> lookup_line c a = Err AssertFailed.
Proof.
  intros HM Hl Hn. pose proof (cr_geo _ _ HM) as Hg. unfold CacheMemory.lookup, CacheMemory.lookup_place.
  rewrite assert_line_ok, bind_of_ok, addressToCacheSet_val, bind_of_ok by done.
  by rewrite (findTag_miss c M a HM Hl Hn), bind_of_ok.
Qed.

(** ** Updating a resident line *)

Lemma update_rep c M a e0 e w :
  cache_rep c M -> M !! a = Some e0 -> at_place c (set_of c a) w = Some e0 ->
  m_Address e = a -> present e ->
  exists v, cell_assign c (set_of c a) w e = Ok (with_cache c v) /\
    cache_rep (with_cache c v) (<[a := e]> M) /\ at_place (with_cache c v) (set_of c a) w = Some e.
Proof.
  intros HM H0 Hw Ha Hp. destruct (line_of_map c M a e0 HM H0) as (Hl & Ha0 & Hp0).
  destruct (put_rep c M (set_of c a) w e0 e HM Hw) as (v & E & Hrep & Hat).
  { intros _. rewrite Ha. split_and!; [done..|]. right. by rewrite Ha0. }
  exists v. split; [done|]. split; [|done]. unfold replaced in Hrep.
  rewrite !decide_True, Ha, Ha0, insert_delete_eq in Hrep by done. done.
Qed.

(** isTagPresent, lookup and getPermission answer from the map of resident lines: the
    entry of a resident line, an assertion failure for an absent line and for an address
    that is not line aligned. *)
Theorem cache_lookup_refines c M a :
  cache_rep c M -> is_address a ->
  isTagPresent c a = (if decide (is_line a) then Ok (bool_decide (is_Some (M !! a))) else Err AssertFailed) /\
  lookup_line c a = (match M !! a with Some e => Ok e | None => Err AssertFailed end) /\
  getPermission c a = (match M !! a with Some e => Ok (m_Permission e) | None => Err AssertFailed end).
Proof.
  intros HM Ha. destruct (decide (is_line a)) as [Hl|Hn].
  - split; [by apply isTagPresent_val|]. unfold CacheMemory.getPermission.
    rewrite assert_line_ok, bind_of_ok by done. destruct (M !! a) as [e|] eqn:He.
    + by rewrite (lookup_hit c M a e HM He).
    + by rewrite (lookup_miss c M a HM Hl He).
  - assert (assert_line cfg a = Err AssertFailed) as Ea by (apply assert_line_err; [done|by intros ?; apply Hn]).
    assert (M !! a = None) as -> by (destruct (M !! a) eqn:He; [|done]; by apply (line_of_map c) in He as (? & _)).
    unfold CacheMemory.isTagPresent, CacheMemory.getPermission, CacheMemory.lookup, CacheMemory.lookup_place.
    by rewrite Ea.
Qed.

(** ** Allocation and replacement *)

(** A line as [allocate] leaves it. *)
Record fresh_line a e : Prop := {
  fl_address : m_Address e = a;
  fl_permission : m_Permission e = Invalid;
  fl_block : block_wf DATA_BLOCK XACT_MEMORY cfg (m_DataBlk e);
  fl_zero : Forall (eq 0) (bytes (m_DataBlk e));
  fl_protocol : m_protocol e = inhabitant;
}.

Lemma Entry_new_spec :
  exists e, Entry_new (X:=X) cfg DATA_BLOCK XACT_MEMORY = Ok e /\
    fresh_line (m_Address e) (with_permission e Invalid).
Proof.
  destruct (DataBlock_new_spec DATA_BLOCK XACT_MEMORY cfg) as (b & E & Hb & Hz);
    [pose proof (block_pos cfg Hcfg); lia|].
  unfold Entry_new. rewrite E, bind_of_ok. eexists. split; [done|].
  split; simpl; try done. rewrite Hz. by apply Forall_replicate.
Qed.

Lemma allocate_spec c M a now :
  cache_rep c M -> is_line a -> M !! a = None -> has_room c (set_of c a) ->
  exists c' e, allocate c a now = Ok c' /\ cache_rep c' (<[a := e]> M) /\ fresh_line a e.
Proof.
  intros HM Hl Hn Hroom. pose proof (cr_geo _ _ HM) as Hg. unfold CacheMemory.allocate.
  rewrite assert_line_ok, bind_of_ok, (isTagPresent_val c M a), bind_of_ok by done.
  rewrite cassert_true, bind_of_ok by (rewrite Hn, bool_decide_eq_false_2; [done|by intros []]).
  destruct (cacheAvail_val c M a HM Hl) as (b & -> & Hb). rewrite bind_of_ok, cassert_true, bind_of_ok
    by (apply Hb; by right).
  rewrite addressToCacheSet_val, bind_of_ok by done.
  destruct (find_cell c (set_of c a) (fun e => bool_decide (m_Permission e = NotPresent))
    Hg (set_of_range c a Hg)) as (r & -> & [[_ Hno]|(e0 & He0 & Hq & Hr)]).
  { destruct Hroom as (w & e & He & Hp). specialize (Hno w e He). apply bool_decide_eq_false in Hno.
    destruct (Hp Hno). }
  rewrite bind_of_ok, (proj2 (Z.eqb_neq r (-1)) Hr). apply bool_decide_eq_true in Hq.
  destruct Entry_new_spec as (e1 & -> & [_ _ Hblk Hz Hx]). rewrite bind_of_ok. cbn [with_permission m_DataBlk m_protocol] in *.
  set (e := mkEntry a Invalid (m_DataBlk e1) (m_protocol e1)).
  destruct (put_rep c M (set_of c a) r e0 e HM He0) as (v & -> & Hrep & _).
  { intros _. split_and!; [done..|]. by left. }
  unfold replaced in Hrep. rewrite (decide_False (P:=present e0)), decide_True in Hrep by (unfold present; naive_solver).
  rewrite bind_of_ok. destruct (at_place_range c _ _ _ Hg He0) as [Hs Hw].
  destruct (policy_touch_rep _ _ (set_of c a) r now Hrep Hs Hw) as (p & E & Hrep' & _).
  exists (with_policy (with_cache c v) p), e. split; [exact E|]. split; [exact Hrep'|]. by split.
Qed.

Lemma deallocate_spec c M a e :
  cache_rep c M -> M !! a = Some e ->
  exists v, deallocate c a = Ok (with_cache c v) /\ cache_rep (with_cache c v) (delete a M) /\
    has_room (with_cache c v) (set_of c a).
Proof.
  intros HM He. pose proof (cr_geo _ _ HM) as Hg. destruct (line_of_map c M a e HM He) as (Hl & Ha & Hp).
  unfold CacheMemory.deallocate.
  rewrite assert_line_ok, bind_of_ok, (isTagPresent_val c M a), bind_of_ok by done.
  rewrite cassert_true, bind_of_ok by (rewrite He, bool_decide_eq_true_2; done).
  destruct (lookup_place_hit c M a e HM He) as (w & -> & Hw). rewrite bind_of_ok.
  rewrite (cell_at c _ w e Hg Hw), bind_of_ok.
  assert (Hgone : ~ present (with_permission e NotPresent)) by (unfold present; simpl; by intros []).
  destruct (put_rep c M (set_of c a) w e (with_permission e NotPresent) HM Hw) as (v & E & Hrep & Hat); [done|].
  exists v. split; [done|]. unfold replaced in Hrep. rewrite decide_False, decide_True, Ha in Hrep by done.
  split; [done|]. by exists w, (with_permission e NotPresent).
Qed.

(** C24: On the map of resident lines, allocate inserts a fresh line with permission
    Invalid and zero data exactly when the line is absent and cacheAvail says there is
    room, and otherwise stops at an assertion; the error message after its search is
    never reached. *)
Theorem allocate_refines c M a now :
  cache_rep c M -> is_line a ->
  match M !! a with
  | Some _ => allocate c a now = Err AssertFailed
  | None =>
      (cacheAvail c a = Ok true /\
       exists c' e, allocate c a now = Ok c' /\ cache_rep c' (<[a := e]> M) /\ fresh_line a e) \/
      (cacheAvail c a = Ok false /\ allocate c a now = Err AssertFailed)
  end.
Proof.
  intros HM Hl. destruct (cacheAvail_val c M a HM Hl) as (b & Eb & Hb). destruct (M !! a) as [e|] eqn:He.
  - unfold CacheMemory.allocate. rewrite assert_line_ok, bind_of_ok, (isTagPresent_val c M a), bind_of_ok by done.
    by rewrite He, bool_decide_eq_true_2.
  - destruct b; [left|right]; (split; [done|]).
    + apply (allocate_spec c M a now HM Hl He). destruct (proj1 Hb eq_refl) as [[]|]; done.
    + unfold CacheMemory.allocate. rewrite assert_line_ok, bind_of_ok, (isTagPresent_val c M a), bind_of_ok by done.
      rewrite cassert_true, bind_of_ok by (rewrite He, bool_decide_eq_false_2; [done|by intros []]).
      by rewrite Eb.
Qed.

(** On the map of resident lines, deallocate removes the line: a lookup of it stops at
    an assertion afterwards, every other line stays, and any line of the same set can be
    allocated. *)
Theorem deallocate_refines c M a e b :
  cache_rep c M -> M !! a = Some e -> is_line b -> set_of c b = set_of c a ->
  exists c', deallocate c a = Ok c' /\ cache_rep c' (delete a M) /\ cacheAvail c' b = Ok true /\
    lookup_line c' a = Err AssertFailed.
Proof.
  intros HM He Hl Hset. destruct (deallocate_spec c M a e HM He) as (v & E & Hrep & Hroom).
  exists (with_cache c v). split; [done|]. split; [done|]. split.
  - destruct (cacheAvail_val _ _ b Hrep Hl) as (r & -> & Hr). f_equal. apply Hr. right.
    change (set_of (with_cache c v) b) with (set_of c b). by rewrite Hset.
  - destruct (line_of_map c M a e HM He) as (Hla & _ & _).
    apply (lookup_miss _ _ a Hrep Hla), lookup_delete_eq.
Qed.

(** C23: When a set has no room for a line, cacheProbe names a different line that is
    resident in the same set, deallocating that line succeeds and the line can then be
    allocated: the replacement sequence of the protocols cannot fail, for any
    replacement policy. *)
Theorem replacement_makes_room c M a now :
  cache_rep c M -> is_line a -> cacheAvail c a = Ok false ->
  exists v c1 c2 e, cacheProbe c a = Ok v /\ is_Some (M !! v) /\ v <> a /\ set_of c v = set_of c a /\
    deallocate c v = Ok c1 /\ allocate c1 a now = Ok c2 /\
    cache_rep c2 (<[a := e]> (delete v M)) /\ fresh_line a e.
Proof.
  intros HM Hl Eav. pose proof (cr_geo _ _ HM) as Hg.
  destruct (cacheAvail_val c M a HM Hl) as (b & Eb & Hb). rewrite Eav in Eb. injection Eb as <-.
  assert (Hna : M !! a = None) by (destruct (M !! a) eqn:E; [|done]; discriminate (proj2 Hb (or_introl (ex_intro _ _ eq_refl)))).
  destruct (victim_ok _ _ _ (set_of c a) (cg_policy _ Hg) (set_of_range c a Hg)) as (w & Ew & Hw).
  destruct (cell_in c (set_of c a) w Hg (set_of_range c a Hg) Hw) as (e0 & Ec & He0).
  assert (Hp : present e0).
  { destruct (decide (present e0)) as [|Hn]; [done|]. discriminate (proj2 Hb). right. by exists w, e0. }
  destruct (cr_here _ _ HM _ _ _ He0 Hp) as (Hlv & Hset & HMv).
  destruct (deallocate_spec c M _ e0 HM HMv) as (v & Ed & Hrep & Hroom).
  assert (Hne : m_Address e0 <> a) by congruence.
  destruct (allocate_spec (with_cache c v) _ a now Hrep Hl) as (c2 & e & Ea & Hrep2 & Hf).
  - by rewrite lookup_delete_ne.
  - change (set_of (with_cache c v) a) with (set_of c a). by rewrite <- Hset.
  - exists (m_Address e0), (with_cache c v), c2, e. split_and!; try done.
    unfold CacheMemory.cacheProbe. rewrite assert_line_ok, bind_of_ok, Eav, bind_of_ok by done.
    rewrite (cassert_true (negb false)), bind_of_ok, addressToCacheSet_val, bind_of_ok, Ew, bind_of_ok by done.
    by rewrite Ec.
Qed.

(** ** Accesses *)

(** What the permission of a line allows. *)
Definition allows (p : AccessPermission) (type : CacheRequestType) : bool :=
  match p, type with
  | Read_Write, _ => true
  | Read_Only, (LD | IFETCH) => true
  | _, _ => false
  end.

(** tryCacheAccess hits exactly when the line is resident with Read_Write permission, or
    with Read_Only permission and the request is a load or an instruction fetch; a hit
    points at the line's entry, a resident line becomes the most recently used of its
    set even on a miss, and no line changes. *)
Theorem tryCacheAccess_hits c M a type now :
  cache_rep c M -> is_line a ->
  match M !! a with
  | None => tryCacheAccess c a type now = Ok (false, None, c)
  | Some e => exists w p,
      tryCacheAccess c a type now =
        Ok (allows (m_Permission e) type,
            if allows (m_Permission e) type then Some (set_of c a, w) else None, with_policy c p) /\
      cell c (set_of c a) w = Ok e /\ cache_rep (with_policy c p) M /\
      getLastAccess p (set_of c a) w = Ok now
  end.
Proof.
  intros HM Hl. pose proof (cr_geo _ _ HM) as Hg. unfold CacheMemory.tryCacheAccess.
  rewrite assert_line_ok, bind_of_ok, addressToCacheSet_val, bind_of_ok by done.
  destruct (M !! a) as [e|] eqn:He.
  - destruct (findTag_hit c M a e HM He) as (w & -> & Hw & Hne).
    rewrite bind_of_ok, (proj2 (Z.eqb_neq w (-1)) Hne). cbn [negb].
    destruct (at_place_range c _ _ _ Hg Hw) as [Hs Hwr].
    destruct (policy_touch_rep c M (set_of c a) w now HM Hs Hwr) as (p & -> & Hrep & Hat & Hlast).
    rewrite bind_of_ok, (cell_at (with_policy c p) _ w e), bind_of_ok by (apply Hrep || by rewrite Hat).
    exists w, p. split; [|split_and!; [by apply cell_at|done|done]].
    destruct (m_Permission e); try reflexivity. by destruct type.
  - by rewrite (findTag_miss c M a HM Hl He), bind_of_ok.
Qed.

(** changePermission sets the permission of a resident line and changes nothing else;
    changing it to NotPresent stops at the function's own closing assertion. *)
Theorem changePermission_refines c M a e new_perm :
  cache_rep c M -> M !! a = Some e ->
  if decide (new_perm = NotPresent) then changePermission c a new_perm = Err AssertFailed
  else exists c', changePermission c a new_perm = Ok c' /\
    cache_rep c' (<[a := with_permission e new_perm]> M).
Proof.
  intros HM He. pose proof (cr_geo _ _ HM) as Hg. destruct (line_of_map c M a e HM He) as (Hl & Ha & Hp).
  unfold CacheMemory.changePermission. rewrite assert_line_ok, bind_of_ok by done.
  destruct (lookup_place_hit c M a e HM He) as (w & -> & Hw). rewrite bind_of_ok.
  rewrite (cell_at c _ w e Hg Hw), bind_of_ok. destruct (decide (new_perm = NotPresent)) as [->|Hnp].
  - destruct (put_rep c M (set_of c a) w e (with_permission e NotPresent) HM Hw) as (v & -> & Hrep & _);
      [unfold present; simpl; done|].
    unfold replaced in Hrep. rewrite decide_False, decide_True, Ha in Hrep by (done || unfold present; simpl; by intros []).
    rewrite bind_of_ok. unfold CacheMemory.getPermission. rewrite assert_line_ok, bind_of_ok by done.
    by rewrite (lookup_miss _ _ a Hrep Hl (lookup_delete_eq _ _)).
  - destruct (update_rep c M a e (with_permission e new_perm) w HM He Hw Ha Hnp) as (v & -> & Hrep & _).
    rewrite bind_of_ok. unfold CacheMemory.getPermission. rewrite assert_line_ok, bind_of_ok by done.
    rewrite (lookup_hit _ _ a (with_permission e new_perm) Hrep), !bind_of_ok by apply lookup_insert_eq.
    rewrite cassert_true, bind_of_ok by (by apply bool_decide_eq_true_2). by exists (with_cache c v).
Qed.

(** ** Emptying the cache *)

Definition blank_row c (row : Vector (Entry X)) : Prop :=
  wf row /\ m_size row = m_cache_assoc c /\ Forall (fun e => m_Permission e = NotPresent) (contents row).

(** Every set before [i] is blank, the vector of sets is sound. *)
Record blank_before c (i : Z) c' : Prop := {
  bb_cache : exists v, c' = with_cache c v;
  bb_wf : wf (m_cache c');
  bb_size : m_size (m_cache c') = m_cache_num_sets c;
  bb_rows : Forall wf (contents (m_cache c'));
  bb_blank s row : s < i -> zread (contents (m_cache c')) s = Some row -> blank_row c row;
}.

(** Within set [i], the ways before [j] are blank; the other sets are as in [c0]. *)
Record blank_ways c c0 (i j : Z) c' : Prop := {
  bw_cache : exists v, c' = with_cache c v;
  bw_wf : wf (m_cache c');
  bw_sets : m_size (m_cache c') = m_cache_num_sets c;
  bw_row : exists row, zread (contents (m_cache c')) i = Some row /\ wf row /\
    m_size row = m_cache_assoc c /\ forall w e, w < j -> zread (contents row) w = Some e -> m_Permission e = NotPresent;
  bw_other s : s <> i -> zread (contents (m_cache c')) s = zread (contents (m_cache c0)) s;
}.

Lemma reset_way_spec c c0 i j c1 :
  0 <= i < m_cache_num_sets c -> 0 <= j < m_cache_assoc c -> blank_ways c c0 i j c1 ->
  exists c2, reset_way i j c1 = Ok c2 /\ blank_ways c c0 i (j + 1) c2.
Proof.
  intros Hi Hj [[v ->] Hwf Hsz (row & Hr & Hrw & Hrs & Hblank) Hother]. cbn [with_cache m_cache] in *.
  unfold reset_way, cell, cell_assign. cbn [with_cache m_cache].
  rewrite (proj2 (ref_contents v i row Hwf) Hr), bind_of_ok.
  destruct (ref_in row j) as (e & He & ->); [done|lia|]. rewrite !bind_of_ok.
  destruct (ref_assign_contents row j (mkEntry 0 NotPresent (m_DataBlk e) (m_protocol e)))
    as (row' & -> & Hw' & Hs' & Hc'); [done|lia|]. rewrite bind_of_ok.
  destruct (ref_assign_contents v i row') as (v' & -> & Hv' & Hvs & Hvc); [done|lia|]. rewrite bind_of_ok.
  eexists. split; [done|].
  assert (Hread : forall s, zread (contents v') s = if i =? s then Some row' else zread (contents v) s).
  { intros s. rewrite Hvc, zread_zwrite by (rewrite zlen_contents by done; lia). done. }
  split; cbn [with_cache m_cache].
  - by exists v'.
  - done.
  - lia.
  - exists row'. rewrite Hread, Z.eqb_refl. split_and!; [done|done|lia|]. intros w e' Hw. rewrite Hc'.
    rewrite zread_zwrite by (rewrite zlen_contents by done; lia).
    destruct (Z.eqb_spec j w); [by intros [= <-]|]. apply Hblank. lia.
  - intros s Hs. rewrite Hread, (proj2 (Z.eqb_neq i s)) by done. by apply Hother.
Qed.

Lemma reset_set_spec c i c1 :
  0 <= m_cache_assoc c -> 0 <= i < m_cache_num_sets c -> blank_before c i c1 ->
  exists c2, reset_set i c1 = Ok c2 /\ blank_before c (i + 1) c2.
Proof.
  intros Ha Hi [[v ->] Hwf Hsz Hrows Hblank]. cbn [with_cache m_cache] in *. unfold reset_set.
  cbn [with_cache m_cache m_cache_assoc].
  destruct (zread_is_some (contents v) i) as [row Hr]; [rewrite zlen_contents by done; lia|].
  assert (Hrw : wf row) by (rewrite Forall_forall in Hrows; eapply Hrows, zread_elem_of, Hr).
  rewrite (proj2 (ref_contents v i row Hwf) Hr), bind_of_ok.
  destruct (setSize_spec row _ Hrw Ha) as (row' & -> & Hw' & Hs' & _). rewrite bind_of_ok.
  destruct (ref_assign_contents v i row') as (v' & -> & Hv' & Hvs & Hvc); [done|lia|]. rewrite bind_of_ok.
  assert (Hread : forall s, zread (contents v') s = if i =? s then Some row' else zread (contents v) s).
  { intros s. rewrite Hvc, zread_zwrite by (rewrite zlen_contents by done; lia). done. }
  change (with_cache (with_cache c v) v') with (with_cache c v').
  destruct (for_range_inv (blank_ways c (with_cache c v') i) 0 (m_cache_assoc c) (reset_way i) (with_cache c v'))
    as (c2 & -> & [[v2 ->] Hwf2 Hsz2 (row2 & Hr2 & Hrw2 & Hrs2 & Hb2) Hother]).
  - lia.
  - split; cbn [with_cache m_cache]; [by exists v'|done|lia| |done].
    exists row'. rewrite Hread, Z.eqb_refl. split_and!; [done|done|done|]. intros w e Hw He.
    apply zread_range in He. lia.
  - intros j c' Hj Hb. by apply reset_way_spec.
  - eexists. split; [done|]. cbn [with_cache m_cache] in *.
    assert (Hold : forall s, s <> i -> zread (contents v2) s = zread (contents v) s)
      by (intros s Hs; rewrite Hother, Hread, (proj2 (Z.eqb_neq i s)) by done; done).
    split; cbn [with_cache m_cache]; [by exists v2|done|done| |].
    + apply Forall_forall. intros r Hin. apply elem_of_zread in Hin as (s & _ & Hs).
      destruct (Z.eq_dec s i) as [->|Hne]; [congruence|]. rewrite Hold in Hs by done.
      rewrite Forall_forall in Hrows. by eapply Hrows, zread_elem_of.
    + intros s r Hsi Hs. destruct (Z.eq_dec s i) as [->|Hne].
      * rewrite Hr2 in Hs. injection Hs as <-. split_and!; [done|done|].
        apply Forall_forall. intros e Hin. apply elem_of_zread in Hin as (w & Hwr & Hwe).
        rewrite zlen_contents in Hwr by done. apply (Hb2 w e); [lia|done].
      * rewrite Hold in Hs by done. apply (Hblank s r); [lia|done].
Qed.

Lemma reset_all_spec c :
  0 <= m_cache_num_sets c -> 0 <= m_cache_assoc c -> blank_before c 0 c ->
  exists v, reset_all c = Ok (with_cache c v) /\ blank_before c (m_cache_num_sets c) (with_cache c v).
Proof.
  intros Hs Ha H0. unfold reset_all.
  destruct (for_range_inv (blank_before c) 0 (m_cache_num_sets c) reset_set c) as (c' & -> & Hb);
    [done|done| |].
  - intros i c1 Hi H1. by apply reset_set_spec.
  - destruct (bb_cache _ _ _ Hb) as [v ->]. by exists v.
Qed.

Lemma blank_rep c v :
  m_cache_num_sets c = 2 ^ m_cache_num_set_bits c -> 0 < m_cache_num_set_bits c < 31 ->
  0 < m_cache_assoc c -> set_low c + m_cache_num_set_bits c <= 63 ->
  m_machType c = L1_ENUM \/ m_machType c = L2_ENUM ->
  policy_for (m_replacementPolicy_ptr c) (m_cache_num_sets c) (m_cache_assoc c) ->
  blank_before c (m_cache_num_sets c) (with_cache c v) ->
  cache_rep (with_cache c v) ∅.
Proof.
  intros H1 H2 H3 H4 H5 H6 [_ Hwf Hsz Hrows Hblank]. cbn [with_cache m_cache] in *.
  assert (Hgood : forall s row, zread (contents v) s = Some row -> blank_row c row).
  { intros s row Hr. apply (Hblank s); [|done]. apply zread_range in Hr. rewrite zlen_contents in Hr by done. lia. }
  assert (Hnone : forall s w e, at_place (with_cache c v) s w = Some e -> ~ present e).
  { intros s w e He Hp. unfold at_place in He. cbn [with_cache m_cache] in He.
    destruct (zread (contents v) s) as [row|] eqn:Hr; [|done]. destruct (Hgood s row Hr) as (_ & _ & Hf).
    rewrite Forall_forall in Hf. apply Hp, Hf. by eapply zread_elem_of. }
  split.
  - split; try done. apply Forall_forall. intros row Hin. cbn [with_cache m_cache] in Hin.
    apply elem_of_zread in Hin as (s & _ & Hr). by destruct (Hgood s row Hr) as (? & ? & _).
  - intros s w e He Hp. by destruct (Hnone s w e He).
  - intros a e He. by rewrite lookup_empty in He.
  - intros s w w' e e' He _ Hp. by destruct (Hnone s w e He).
Qed.

(** flushCache succeeds on every cache and leaves no line resident; the geometry and the
    replacement state stay. *)
Theorem flushCache_empties c M :
  cache_rep c M ->
  exists v, flushCache c = Ok (with_cache c v) /\ cache_rep (with_cache c v) ∅.
Proof.
  intros HM. pose proof (cr_geo _ _ HM) as Hg.
  assert (0 < 2 ^ m_cache_num_set_bits c) by (apply Z.pow_pos_nonneg; [lia|]; pose proof (cg_bits _ Hg); lia).
  destruct (reset_all_spec c) as (v & E & Hb); [rewrite (cg_sets _ Hg); lia|pose proof (cg_assoc _ Hg); lia| |].
  - split; [exists (m_cache c); by destruct c|apply Hg|apply Hg| |intros s row Hs Hr; apply zread_range in Hr; lia].
    eapply Forall_impl; [apply (cg_rows _ Hg)|]. by intros row [? _].
  - exists v. split; [done|]. by apply (blank_rep c v); [apply Hg..|].
Qed.

(** ** The bytes of a line *)

Abbreviation setMemoryValue := (setMemoryValue cfg L1_ENUM L2_ENUM DATA_BLOCK XACT_MEMORY).
Abbreviation getMemoryValue := (getMemoryValue cfg L1_ENUM L2_ENUM DATA_BLOCK XACT_MEMORY).

(** The bytes of a block after [k] bytes of [value] were stored from [off] on. *)
Definition stored (old new : DataBlock) (off k : Z) (value : list Z) : Prop :=
  forall j, zread (bytes new) j =
    if bool_decide (off <= j < off + k) then uwrap 8 <$> zread value (j - off) else zread (bytes old) j.

Lemma stored_step old b b' off k value x :
  0 <= off -> 0 <= k -> off + k < zlen (bytes b) -> zread value k = Some x ->
  stored old b off k value -> bytes b' = zwrite (bytes b) (off + k) (uwrap 8 x) ->
  stored old b' off (k + 1) value.
Proof.
  intros Ho Hk Hlen Hx Hst Hb j. rewrite Hb, zread_zwrite by lia.
  destruct (Z.eqb_spec (off + k) j) as [<-|Hne].
  - rewrite bool_decide_eq_true_2 by lia. replace (off + k - off) with k by lia. by rewrite Hx.
  - rewrite Hst. destruct (bool_decide_reflect (off <= j < off + k)).
    + by rewrite bool_decide_eq_true_2 by lia.
    + by rewrite bool_decide_eq_false_2 by lia.
Qed.

Lemma byte_index off k :
  0 <= off -> 0 <= k -> off + k < dataBlockBytes cfg -> s32 (u32 (k + u32 off)) = off + k.
Proof.
  intros Ho Hk Hb. destruct (cf_block _ Hcfg) as [E Hbits]. unfold dataBlockBytes in Hb.
  assert (2 ^ g_DATA_BLOCK_BITS cfg <= 2 ^ 30) by (apply Z.pow_le_mono_r; lia).
  rewrite (uwrap_small 32 off) by lia. rewrite uwrap_small by lia. rewrite swrap_small by lia. lia.
Qed.

Lemma setMemoryValue_spec c M addr e value n :
  DATA_BLOCK || XACT_MEMORY = true -> is_address addr ->
  let l := addr / dataBlockBytes cfg * dataBlockBytes cfg in
  cache_rep c M -> M !! l = Some e -> block_wf DATA_BLOCK XACT_MEMORY cfg (m_DataBlk e) ->
  0 < n <= zlen value -> addr - l + n <= dataBlockBytes cfg ->
  exists c' b, setMemoryValue c addr value n = Ok c' /\
    block_wf DATA_BLOCK XACT_MEMORY cfg b /\ cache_rep c' (<[l := with_data e b]> M) /\
    stored (m_DataBlk e) b (addr - l) n value.
Proof.
  intros Hdata Haddr l HM He Hblk Hn Hfit. unfold CacheMemory.setMemoryValue, line_address.
  rewrite makeLineAddress_val, bind_of_ok by done. fold l. destruct (line_of_map c M l e HM He) as (_ & Ha & Hp).
  assert (Hoff : 0 <= addr - l).
  { pose proof (block_pos cfg Hcfg) as Hb. pose proof (Z.div_mod addr (dataBlockBytes cfg) ltac:(lia)).
    pose proof (Z.mod_pos_bound addr _ Hb). lia. }
  destruct (lookup_place_hit c M l e HM He) as (w & Ep & Hw). rewrite Ep, bind_of_ok.
  rewrite cassert_true, bind_of_ok by (apply Z.ltb_lt; lia).
  set (body := fun i c1 => v ← aread value i; e1 ← cell c1 (set_of c l) w;
    b ← setByte DATA_BLOCK XACT_MEMORY (m_DataBlk e1) (s32 (u32 (i + u32 (addr - l)))) (uwrap 8 v);
    cell_assign c1 (set_of c l) w (with_data e1 b)).
  destruct (for_range_inv (fun k c1 => exists v b, c1 = with_cache c v /\
      block_wf DATA_BLOCK XACT_MEMORY cfg b /\ cache_rep c1 (<[l := with_data e b]> M) /\
      at_place c1 (set_of c l) w = Some (with_data e b) /\ stored (m_DataBlk e) b (addr - l) k value)
    0 n body c) as (c' & -> & v & b & -> & Hb & Hrep & Hat & Hst).
  - lia.
  - exists (m_cache c), (m_DataBlk e). assert (with_data e (m_DataBlk e) = e) as -> by by destruct e.
    split_and!; [by destruct c|done|by rewrite insert_id|done|].
    intros j. by rewrite bool_decide_eq_false_2 by lia.
  - intros i c1 Hi (v & b & -> & Hb & Hrep & Hat & Hst). unfold body.
    destruct (aread_in value i) as (x & Hx & ->); [lia|].
    rewrite bind_of_ok, (cell_at _ _ _ _ (cr_geo _ _ Hrep) Hat), bind_of_ok.
    cbn [with_data m_DataBlk]. rewrite byte_index by lia.
    destruct (setByte_spec DATA_BLOCK XACT_MEMORY cfg b (addr - l + i) (uwrap 8 x)) as (b' & -> & Hb' & Hbytes);
      [done|lia|done|]. rewrite bind_of_ok.
    destruct (update_rep (with_cache c v) _ l (with_data e b) (with_data e b') w Hrep) as (v' & E & Hrep' & Hat');
      [apply lookup_insert_eq|done|done|done|].
    eexists. split; [exact E|]. exists v', b'. rewrite insert_insert_eq in Hrep'.
    split_and!; [done|done|done|done|]. eapply stored_step; [lia|lia| |done|done|done].
    unfold bytes. rewrite zlen_contents by apply Hb. rewrite (bw_size _ _ _ _ Hb), Hdata. lia.
  - rewrite bind_of_ok. destruct (lookup_place_hit _ _ l (with_data e b) Hrep) as (w' & -> & _);
      [apply lookup_insert_eq|]. rewrite bind_of_ok. by exists (with_cache c v), b.
Qed.

Lemma getMemoryValue_spec c M addr e value n :
  DATA_BLOCK || XACT_MEMORY = true -> is_address addr ->
  let l := addr / dataBlockBytes cfg * dataBlockBytes cfg in
  cache_rep c M -> M !! l = Some e -> block_wf DATA_BLOCK XACT_MEMORY cfg (m_DataBlk e) ->
  0 <= n <= zlen value -> addr - l + n <= dataBlockBytes cfg ->
  exists value', getMemoryValue c addr value n = Ok value' /\
    forall i, 0 <= i < n -> zread value' i = swrap 8 <$> zread (bytes (m_DataBlk e)) (addr - l + i).
Proof.
  intros Hdata Haddr l HM He Hblk Hn Hfit. unfold CacheMemory.getMemoryValue, line_address.
  rewrite makeLineAddress_val, bind_of_ok by done. fold l. rewrite (lookup_hit c M l e HM He), bind_of_ok.
  assert (Hoff : 0 <= addr - l).
  { pose proof (block_pos cfg Hcfg) as Hb. pose proof (Z.div_mod addr (dataBlockBytes cfg) ltac:(lia)).
    pose proof (Z.mod_pos_bound addr _ Hb). lia. }
  match goal with |- exists _, for_range 0 n ?body value = _ /\ _ =>
    destruct (for_range_inv (fun k val => zlen val = zlen value /\ forall i, 0 <= i < k ->
      zread val i = swrap 8 <$> zread (bytes (m_DataBlk e)) (addr - l + i)) 0 n body value)
      as (val & -> & _ & Hval) end.
  - lia.
  - split; [done|lia].
  - intros i val Hi [Hlen Hval]. rewrite byte_index by lia.
    destruct (getByte_spec DATA_BLOCK XACT_MEMORY cfg (m_DataBlk e) (addr - l + i)) as (x & -> & Hx); [done|lia|done|].
    rewrite bind_of_ok, awrite_in by lia. eexists. split; [done|]. rewrite zlen_zwrite. split; [done|].
    intros j Hj. rewrite zread_zwrite by lia. destruct (Z.eqb_spec i j) as [<-|]; [by rewrite Hx|].
    apply Hval. lia.
  - by exists val.
Qed.

(** Bytes written into a resident line with setMemoryValue are read back by
    getMemoryValue, and the other bytes of the line and the other lines keep their
    values. *)
Theorem memory_value_roundtrip c M addr e value buffer n :
  DATA_BLOCK || XACT_MEMORY = true -> is_address addr ->
  let l := addr / dataBlockBytes cfg * dataBlockBytes cfg in
  cache_rep c M -> M !! l = Some e -> block_wf DATA_BLOCK XACT_MEMORY cfg (m_DataBlk e) ->
  0 < n <= zlen value -> n <= zlen buffer -> addr - l + n <= dataBlockBytes cfg ->
  Forall (fun x => -128 <= x < 128) value ->
  exists c' b read, setMemoryValue c addr value n = Ok c' /\ cache_rep c' (<[l := with_data e b]> M) /\
    getMemoryValue c' addr buffer n = Ok read /\
    (forall i, 0 <= i < n -> zread read i = zread value i) /\
    (forall j, ~ (addr - l <= j < addr - l + n) -> zread (bytes b) j = zread (bytes (m_DataBlk e)) j).
Proof.
  intros Hdata Haddr l HM He Hblk Hn Hbuf Hfit Hchar.
  destruct (setMemoryValue_spec c M addr e value n Hdata Haddr HM He Hblk Hn Hfit) as (c' & b & Es & Hb & Hrep & Hst).
  destruct (getMemoryValue_spec c' _ addr (with_data e b) buffer n Hdata Haddr Hrep (lookup_insert_eq _ _ _) Hb)
    as (read & Eg & Hread); [lia|done|].
  exists c', b, read. split_and!; [done|done|done| |].
  - intros i Hi. rewrite Hread by done. cbn [with_data m_DataBlk]. rewrite Hst.
    rewrite bool_decide_eq_true_2 by (subst l; lia). replace (addr - _ + i - (addr - _)) with i by lia.
    destruct (zread value i) as [x|] eqn:Hx; [|done]. simpl. f_equal.
    rewrite Forall_forall in Hchar. specialize (Hchar x (zread_elem_of _ _ _ Hx)).
    rewrite (swrap_mod 8 (uwrap 8 x) x) by (lia || (unfold uwrap; apply Z.mod_mod; lia)).
    apply swrap_small; lia.
  - intros j Hj. rewrite Hst. by rewrite bool_decide_eq_false_2.
Qed.

End proofs.

(** * The constructor *)

Lemma CacheMemory_new_rep {X} `{!Inhabited X} cfg L1_ENUM L2_ENUM policy chip bits assoc machType :
  configured cfg -> 0 < bits < 31 ->
  dataBlockBits cfg + L2CachePerChipBits cfg + bits <= 63 ->
  machType = L1_ENUM \/ machType = L2_ENUM ->
  (policy = "PSEDUO_LRU"%string /\ 2 <= assoc <= 32 \/ policy = "LRU"%string /\ 0 < assoc < 2 ^ 31) ->
  exists c, CacheMemory_new (X:=X) policy chip bits assoc machType = Ok c /\
    cache_rep cfg L1_ENUM L2_ENUM c ∅ /\ m_cache_num_sets c = 2 ^ bits /\ m_cache_assoc c = assoc.
Proof.
  intros Hcfg Hbits Hfits Htype Hpol. unfold CacheMemory_new.
  assert (Hp : 0 < 2 ^ bits <= 2 ^ 30) by (split; [apply Z.pow_pos_nonneg|apply Z.pow_le_mono_r]; lia).
  assert (s32 (Z.shiftl 1 bits) = 2 ^ bits) as ->
    by (rewrite Z.shiftl_mul_pow2, Z.mul_1_l by lia; apply swrap_small; lia).
  destruct (setSize_default (A:=Vector (Entry X)) (2 ^ bits)) as (v & -> & Hv & Hs & Hc); [lia|].
  rewrite bind_of_ok.
  assert (exists p, (if bool_decide (policy = "PSEDUO_LRU"%string) then
         q ← PseudoLRUPolicy_new (2 ^ bits) assoc; mret (PLRU q)
       else if bool_decide (policy = "LRU"%string) then mret (LRU (LRUPolicy_new (2 ^ bits) assoc))
       else Err AssertFailed) = Ok p /\ policy_for p (2 ^ bits) assoc) as (p & -> & Hpf).
  { destruct Hpol as [[-> Ha]|[-> Ha]].
    - destruct (PseudoLRUPolicy_new_for (2 ^ bits) assoc) as (q & E & Hq); [lia|done|].
      rewrite bool_decide_eq_true_2, E, bind_of_ok by done. by exists (PLRU q).
    - rewrite bool_decide_eq_false_2, bool_decide_eq_true_2 by done.
      eexists. split; [done|]. split; [|lia]. apply Policy_new_for; lia. }
  rewrite bind_of_ok. set (c := mkCacheMemory chip machType false v p (2 ^ bits) bits assoc).
  assert (Ha : 0 < assoc) by (clear -Hpol; lia).
  destruct (reset_all_spec c) as (v' & -> & Hb); [simpl; lia|simpl; lia| |].
  - split; [by exists v|done|done| |intros s row Hlt Hr; apply zread_range in Hr; lia].
    unfold c. cbn [m_cache]. rewrite Hc. apply Forall_replicate, wf_default.
  - exists (with_cache c v'). split; [done|]. split; [|done]. apply (blank_rep cfg L1_ENUM L2_ENUM c v'); try done.
    unfold set_low. cbn [c m_machType m_cache_num_set_bits].
    destruct (cf_l2_per_chip _ Hcfg) as [_ Hk]. unfold L2CachePerChipBits in *.
    destruct (machType =? L1_ENUM); [lia|]. destruct (MAP_L2BANKS_TO_LOWEST_BITS cfg); lia.
Qed.

(** The constructor builds an empty cache of the requested geometry, for both policy
    names. *)
Theorem CacheMemory_new_empty {X} `{!Inhabited X} cfg L1_ENUM L2_ENUM policy chip bits assoc machType :
  configured cfg -> 0 < bits < 31 ->
  dataBlockBits cfg + L2CachePerChipBits cfg + bits <= 63 ->
  machType = L1_ENUM \/ machType = L2_ENUM ->
  (policy = "PSEDUO_LRU"%string /\ 2 <= assoc <= 32 \/ policy = "LRU"%string /\ 0 < assoc < 2 ^ 31) ->
  exists c, CacheMemory_new (X:=X) policy chip bits assoc machType = Ok c /\
    cache_rep cfg L1_ENUM L2_ENUM c ∅ /\ m_cache_num_sets c = 2 ^ bits /\ m_cache_assoc c = assoc.
Proof. apply CacheMemory_new_rep. Qed.

(** * A cache of two sets of two ways *)

Definition demo_cache : CacheMemory AnyPolicy unit := Eval vm_compute in
  match CacheMemory_new "LRU" 0 1 2 0 with
  | Ok c => c
  | Err _ => mkCacheMemory 0 0 false Vector_default (LRU (LRUPolicy_new 0 0)) 0 0 0
  end.
Definition demo_allocate (c : CacheMemory AnyPolicy unit) (a : Z) (now : Time) : CacheMemory AnyPolicy unit :=
  match allocate demo_configured 0 1 true false c a now with Ok c' => c' | Err _ => c end.
Definition demo_one : CacheMemory AnyPolicy unit := Eval vm_compute in demo_allocate demo_cache 0 5.
Definition demo_full : CacheMemory AnyPolicy unit := Eval vm_compute in demo_allocate demo_one 128 6.
Abbreviation demo_rep := (cache_rep demo_configured 0 1).

Lemma demo_line k : 0 <= k < 2 ^ 50 -> is_line demo_configured (64 * k).
Proof.
  intros Hk. split; [split; lia|]. change (dataBlockBytes demo_configured) with 64.
  rewrite Z.mul_comm. apply Z.mod_mul. done.
Qed.

Lemma demo_cache_rep : demo_rep demo_cache ∅.
Proof.
  destruct (CacheMemory_new_rep (X:=unit) demo_configured 0 1 "LRU" 0 1 2 0 demo_configured_ok)
    as (c & E & Hc & _); [lia|vm_compute; discriminate|by left|right; split; [done|lia]|].
  assert (Ok demo_cache = Ok c) as [= ->] by (rewrite <- E; vm_compute; reflexivity). exact Hc.
Qed.

Lemma demo_one_rep : exists e, demo_rep demo_one {[0 := e]} /\ fresh_line demo_configured true false 0 e.
Proof.
  destruct (allocate_spec demo_configured 0 1 true false demo_configured_ok demo_cache ∅ 0 5 demo_cache_rep)
    as (c & e & E & Hrep & Hf).
  - apply (demo_line 0). lia.
  - apply lookup_empty.
  - exists 0. eexists. split; [vm_compute; reflexivity|]. by intros [].
  - exists e. split; [|exact Hf].
    assert (Ok demo_one = Ok c) as [= ->] by (rewrite <- E; vm_compute; reflexivity). exact Hrep.
Qed.

Lemma demo_full_rep : exists M, demo_rep demo_full M /\ is_Some (M !! 0) /\ is_Some (M !! 128).
Proof.
  destruct demo_one_rep as (e1 & Hone & _).
  destruct (allocate_spec demo_configured 0 1 true false demo_configured_ok demo_one {[0 := e1]} 128 6 Hone)
    as (c & e & E & Hrep & _).
  - apply (demo_line 2). lia.
  - by rewrite lookup_singleton_ne.
  - exists 1. eexists. split; [vm_compute; reflexivity|]. by intros [].
  - exists (<[128 := e]> {[0 := e1]}). rewrite lookup_insert_eq, lookup_insert_ne, lookup_singleton_eq by done.
    split; [|split; eexists; reflexivity].
    assert (Ok demo_full = Ok c) as [= ->] by (rewrite <- E; vm_compute; reflexivity). exact Hrep.
Qed.

Lemma cache_lookup_refines_witness :
  isTagPresent demo_configured 0 1 demo_one 0 = Ok true /\
  CacheMemory.lookup demo_configured 0 1 demo_one 128 = Err AssertFailed.
Proof.
  destruct demo_one_rep as (e & Hrep & _). split.
  - destruct (cache_lookup_refines demo_configured 0 1 demo_configured_ok demo_one _ 0 Hrep) as (E & _);
      [split; lia|]. rewrite E. rewrite decide_True by (apply (demo_line 0); lia).
    rewrite lookup_singleton_eq. reflexivity.
  - destruct (cache_lookup_refines demo_configured 0 1 demo_configured_ok demo_one _ 128 Hrep) as (_ & E & _);
      [split; lia|]. rewrite E. reflexivity.
Defined.

Lemma allocate_refines_witness :
  allocate demo_configured 0 1 true false demo_cache 0 5 = Ok demo_one /\ exists e, demo_rep demo_one {[0 := e]}.
Proof.
  assert (E : allocate demo_configured 0 1 true false demo_cache 0 5 = Ok demo_one) by (vm_compute; reflexivity).
  split; [exact E|].
  pose proof (allocate_refines demo_configured 0 1 true false demo_configured_ok demo_cache ∅ 0 5
    demo_cache_rep (demo_line 0 ltac:(lia))) as H. rewrite lookup_empty in H.
  destruct H as [(_ & c & e & E' & Hrep & _)|(_ & E')]; rewrite E in E'; [|discriminate].
  injection E' as <-. exists e. exact Hrep.
Defined.

Lemma deallocate_refines_witness :
  exists c, deallocate demo_configured 0 1 demo_full 0 = Ok c /\
    cacheAvail demo_configured 0 1 c 256 = Ok true.
Proof.
  destruct demo_full_rep as (M & Hrep & [e He] & _).
  destruct (deallocate_refines demo_configured 0 1 demo_configured_ok demo_full M 0 e 256 Hrep He
    (demo_line 4 ltac:(lia))) as (c & E & _ & Ha & _); [vm_compute; reflexivity|].
  exists c. split; [exact E|exact Ha].
Defined.

Lemma replacement_makes_room_witness :
  exists c1 c2, cacheProbe demo_configured 0 1 demo_full 256 = Ok 0 /\
    deallocate demo_configured 0 1 demo_full 0 = Ok c1 /\
    allocate demo_configured 0 1 true false c1 256 7 = Ok c2.
Proof.
  destruct demo_full_rep as (M & Hrep & _).
  destruct (replacement_makes_room demo_configured 0 1 true false demo_configured_ok demo_full M 256 7 Hrep
    (demo_line 4 ltac:(lia))) as (v & c1 & c2 & e & Ep & _ & _ & _ & Ed & Ea & _); [vm_compute; reflexivity|].
  assert (E0 : cacheProbe demo_configured 0 1 demo_full 256 = Ok 0) by (vm_compute; reflexivity).
  rewrite E0 in Ep. injection Ep as <-. exists c1, c2. split; [exact E0|]. split; [exact Ed|exact Ea].
Defined.

Lemma tryCacheAccess_hits_witness :
  exists c, tryCacheAccess demo_configured 0 1 demo_one 0 LD 9 = Ok (false, None, c) /\
    tryCacheAccess demo_configured 0 1 demo_one 128 ST 9 = Ok (false, None, demo_one).
Proof.
  destruct demo_one_rep as (e & Hrep & Hf).
  pose proof (tryCacheAccess_hits demo_configured 0 1 demo_configured_ok demo_one _ 0 LD 9 Hrep
    (demo_line 0 ltac:(lia))) as H. rewrite lookup_singleton_eq in H. destruct H as (w & p & E & _).
  rewrite (fl_permission _ _ _ _ _ Hf) in E. exists (with_policy demo_one p). split; [exact E|].
  exact (tryCacheAccess_hits demo_configured 0 1 demo_configured_ok demo_one {[0 := e]} 128 ST 9 Hrep
    (demo_line 2 ltac:(lia))).
Defined.

Lemma changePermission_refines_witness :
  changePermission demo_configured 0 1 demo_one 0 NotPresent = Err AssertFailed /\
  exists c, changePermission demo_configured 0 1 demo_one 0 Read_Write = Ok c.
Proof.
  destruct demo_one_rep as (e & Hrep & _). split.
  - exact (changePermission_refines demo_configured 0 1 demo_configured_ok demo_one {[0 := e]} 0 e NotPresent
      Hrep (lookup_singleton_eq _ _)).
  - destruct (changePermission_refines demo_configured 0 1 demo_configured_ok demo_one {[0 := e]} 0 e Read_Write
      Hrep (lookup_singleton_eq _ _)) as (c & E & _). exists c. exact E.
Defined.

Lemma flushCache_empties_witness : exists v, flushCache demo_full = Ok (with_cache demo_full v).
Proof.
  destruct demo_full_rep as (M & Hrep & _).
  destruct (flushCache_empties demo_configured 0 1 demo_full M Hrep) as (v & E & _). exists v. exact E.
Defined.

Lemma memory_value_roundtrip_witness :
  exists c read, setMemoryValue demo_configured 0 1 true false demo_one 4 [1; -2; 3] 3 = Ok c /\
    getMemoryValue demo_configured 0 1 true false c 4 [0; 0; 0] 3 = Ok read /\ zread read 1 = Some (-2).
Proof.
  destruct demo_one_rep as (e & Hrep & Hf).
  destruct (memory_value_roundtrip demo_configured 0 1 true false demo_configured_ok demo_one {[0 := e]} 4 e
    [1; -2; 3] [0; 0; 0] 3) as (c & b & read & Es & _ & Eg & Hr & _).
  - reflexivity.
  - split; lia.
  - exact Hrep.
  - reflexivity.
  - exact (fl_block _ _ _ _ _ Hf).
  - vm_compute. split; [reflexivity|discriminate].
  - vm_compute. discriminate.
  - vm_compute. discriminate.
  - repeat (apply List.Forall_cons; [lia|]). apply List.Forall_nil.
  - exists c, read. split; [exact Es|]. split; [exact Eg|]. rewrite Hr by lia. reflexivity.
Defined.

Lemma CacheMemory_new_empty_witness :
  exists c, CacheMemory_new (X:=unit) "PSEDUO_LRU" 0 3 4 0 = Ok c /\ cache_rep demo_configured 0 1 c ∅.
Proof.
  destruct (CacheMemory_new_empty (X:=unit) demo_configured 0 1 "PSEDUO_LRU" 0 3 4 0 demo_configured_ok)
    as (c & E & Hc & _); [lia|vm_compute; discriminate|by left|left; split; [reflexivity|lia]|].
  exists c. split; [exact E|exact Hc].
Defined.
