(* ===== verification/LineTables.v ===== *)
(** [common/Map.h], [system/TBETable.h] and [system/PerfectCacheMemory.h]: tables
    of lines that are hash maps.

    The hash table of the C++ library is a finite map; its operations here are
    [Map]'s, with [Map]'s assertions. *)

From S2P Require Import Prelude Config Address CacheMemory.

(** * Map *)

Section map.
  Context {V : Type}.
  Implicit Types (m : gmap Z V) (key : Z).

Definition exist m key : bool := bool_decide (is_Some (m !! key)).
Definition map_add m key (value : V) : gmap Z V := <[key := value]> m.
Definition map_erase m key : outcome (gmap Z V) := cassert (exist m key);; mret (delete key m).
Definition map_lookup m key : outcome V :=
  cassert (exist m key);; match m !! key with Some v => Ok v | None => Err BadAccess end.
Definition msize m : Z := Z.of_nat (size m).

Lemma map_lookup_val m key v : m !! key = Some v -> map_lookup m key = Ok v.
Proof. intros E. unfold map_lookup, exist. by rewrite E. Qed.
Lemma map_erase_val m key v : m !! key = Some v -> map_erase m key = Ok (delete key m).
Proof. intros E. unfold map_erase, exist. by rewrite E. Qed.
Lemma exist_none m key : m !! key = None -> exist m key = false.
Proof. intros E. unfold exist. rewrite E. by apply bool_decide_eq_false_2; intros []. Qed.
Lemma exist_some m key v : m !! key = Some v -> exist m key = true.
Proof. intros E. unfold exist. by rewrite E. Qed.

End map.

(** * TBETable *)

Section tbes.
  Context {E : Type} (entry_new : E) (cfg : RubyConfig) (NUMBER_OF_TBES : Z).
  Implicit Types (t : gmap Z E) (address : Z).

Definition tbe_isPresent t address : outcome bool :=
  assert_line cfg address;;
  cassert (msize t <=? NUMBER_OF_TBES);;
  mret (exist t address).
Definition tbe_allocate t address : outcome (gmap Z E) :=
  present ← tbe_isPresent t address;
  cassert (negb present);;
  cassert (msize t <? NUMBER_OF_TBES);;
  mret (map_add t address entry_new).
Definition tbe_deallocate t address : outcome (gmap Z E) :=
  present ← tbe_isPresent t address;
  cassert present;;
  cassert (0 <? msize t);;
  map_erase t address.
Definition tbe_lookup t address : outcome E :=
  present ← tbe_isPresent t address;
  cassert present;;
  map_lookup t address.
Definition tbe_areNSlotsAvailable t (n : Z) : bool := n <=? NUMBER_OF_TBES - msize t.

Fixpoint tbe_allocate_all t (ls : list Z) : outcome (gmap Z E) :=
  match ls with
  | [] => Ok t
  | a :: ls' => t' ← tbe_allocate t a; tbe_allocate_all t' ls'
  end.

  Context (Hcfg : configured cfg).

Lemma tbe_isPresent_val t address :
  is_line cfg address -> msize t <= NUMBER_OF_TBES -> tbe_isPresent t address = Ok (exist t address).
Proof.
  intros Hl Hs. unfold tbe_isPresent. rewrite (assert_line_ok cfg Hcfg address Hl), bind_of_ok.
  by rewrite cassert_true by (by apply Z.leb_le).
Qed.

Lemma msize_add t address e : t !! address = None -> msize (map_add t address e) = msize t + 1.
Proof. intros H. unfold msize, map_add. rewrite map_size_insert_None by done. lia. Qed.

Lemma tbe_allocate_val t address :
  is_line cfg address -> t !! address = None -> msize t < NUMBER_OF_TBES ->
  tbe_allocate t address = Ok (<[address := entry_new]> t).
Proof.
  intros Hl Hn Hs. unfold tbe_allocate. rewrite tbe_isPresent_val, bind_of_ok by (done || lia).
  rewrite (exist_none t address Hn), (cassert_true (negb false)), bind_of_ok by done.
  by rewrite cassert_true by (by apply Z.ltb_lt).
Qed.

(** When areNSlotsAvailable grants n entries, any n different lines without an entry can
    be allocated one after the other without an assertion failing, and the table never
    exceeds its size. *)
Theorem available_tbes_can_be_allocated t ls :
  NoDup ls -> Forall (fun a => is_line cfg a /\ t !! a = None) ls ->
  tbe_areNSlotsAvailable t (zlen ls) = true ->
  exists t', tbe_allocate_all t ls = Ok t' /\ msize t' = msize t + zlen ls /\ msize t' <= NUMBER_OF_TBES /\
    forall a, t' !! a = (if bool_decide (a ∈ ls) then Some entry_new else t !! a).
Proof.
  unfold tbe_areNSlotsAvailable. rewrite Z.leb_le. revert t. induction ls as [|a ls IH]; intros t Hnd Hf Hav.
  - exists t. change (zlen (@nil Z)) with 0 in *. split_and!; [done|lia|lia|done].
  - apply NoDup_cons in Hnd as [Hnin Hnd]. apply Forall_cons in Hf as [[Hl Hn] Hf].
    assert (Hz : zlen (a :: ls) = zlen ls + 1) by (unfold zlen; simpl; lia). rewrite Hz in *.
    pose proof (zlen_nonneg ls). cbn [tbe_allocate_all]. rewrite tbe_allocate_val, bind_of_ok by (done || lia).
    pose proof (msize_add t a entry_new Hn) as Hs. unfold map_add in Hs.
    destruct (IH (<[a := entry_new]> t)) as (t' & -> & Hsz & Hmax & Hlk); [done| |lia|].
    + apply Forall_forall. intros b Hb. rewrite Forall_forall in Hf. destruct (Hf b Hb) as [? ?].
      split; [done|]. rewrite lookup_insert_ne; [done|]. by intros ->.
    + exists t'. split_and!; [done|lia|done|]. intros b. rewrite Hlk.
      destruct (decide (b = a)) as [->|Hne].
      * rewrite (bool_decide_eq_false_2 (a ∈ ls)), bool_decide_eq_true_2, lookup_insert_eq by (done || left). done.
      * rewrite lookup_insert_ne by done. rewrite (bool_decide_ext (b ∈ a :: ls) (b ∈ ls)); [done|].
        rewrite elem_of_cons. naive_solver.
Qed.

(** The table's operations on a line, present or absent, with room or without. *)
Theorem tbe_allocate_lookup_deallocate t address :
  is_line cfg address -> msize t <= NUMBER_OF_TBES ->
  match t !! address with
  | Some e => tbe_allocate t address = Err AssertFailed /\ tbe_lookup t address = Ok e /\
      tbe_deallocate t address = Ok (delete address t)
  | None => tbe_lookup t address = Err AssertFailed /\ tbe_deallocate t address = Err AssertFailed /\
      (tbe_areNSlotsAvailable t 1 = false -> tbe_allocate t address = Err AssertFailed) /\
      (tbe_areNSlotsAvailable t 1 = true -> exists t', tbe_allocate t address = Ok t' /\
         tbe_lookup t' address = Ok entry_new /\ tbe_deallocate t' address = Ok t)
  end.
Proof.
  intros Hl Hs. unfold tbe_areNSlotsAvailable.
  assert (Hpresent : forall t e, msize t <= NUMBER_OF_TBES -> t !! address = Some e ->
    tbe_lookup t address = Ok e /\ tbe_deallocate t address = Ok (delete address t)).
  { intros t0 e Hs0 He. unfold tbe_lookup, tbe_deallocate. rewrite !tbe_isPresent_val, !bind_of_ok by done.
    rewrite (exist_some _ _ _ He), (map_lookup_val _ _ _ He), (map_erase_val _ _ _ He). cbn [cassert].
    rewrite !bind_of_ok. split; [done|]. rewrite cassert_true; [done|]. apply Z.ltb_lt. unfold msize.
    assert (size t0 <> 0)%nat; [|lia]. intros E0. apply map_size_empty_iff in E0. by rewrite E0, lookup_empty in He. }
  destruct (t !! address) as [e|] eqn:He.
  - split; [|by apply Hpresent]. unfold tbe_allocate. rewrite tbe_isPresent_val, bind_of_ok by done.
    by rewrite (exist_some _ _ _ He).
  - unfold tbe_lookup at 1, tbe_deallocate at 1. rewrite !tbe_isPresent_val, !bind_of_ok, (exist_none _ _ He) by done.
    split; [done|]. split; [done|]. split; intros Hav.
    + apply Z.leb_gt in Hav. unfold tbe_allocate. rewrite tbe_isPresent_val, bind_of_ok, (exist_none _ _ He) by done.
      cbn [negb cassert]. rewrite bind_of_ok. unfold cassert. by rewrite (proj2 (Z.ltb_ge _ _)) by lia.
    + apply Z.leb_le in Hav. eexists. split; [apply tbe_allocate_val; (done || lia)|].
      pose proof (msize_add t address entry_new He) as Hsz. unfold map_add in Hsz.
      destruct (Hpresent (<[address := entry_new]> t) entry_new) as [-> ->]; [lia|apply lookup_insert_eq|].
      split; [done|]. by rewrite delete_insert_id.
Qed.

End tbes.

(** * PerfectCacheMemory *)

Section perfect.
  Context {E : Type} (entry_new : E) (cfg : RubyConfig).
  Implicit Types (c : gmap Z (AccessPermission * E)) (address : Z).

Definition perfect_isTagPresent c address : outcome bool :=
  l ← line_address cfg address; mret (exist c l).
Definition perfect_cacheAvail c address : bool := true.
Definition perfect_allocate c address : outcome (gmap Z (AccessPermission * E)) :=
  l ← line_address cfg address; mret (map_add c l (Busy, entry_new)).
Definition perfect_deallocate c address : outcome (gmap Z (AccessPermission * E)) :=
  l ← line_address cfg address; map_erase c l.
Definition perfect_cacheProbe c (newAddress : Z) : outcome Z := Err ErrorMsg.
Definition perfect_lookup c address : outcome E :=
  l ← line_address cfg address; line ← map_lookup c l; mret (snd line).
Definition perfect_getPermission c address : outcome AccessPermission :=
  l ← line_address cfg address; line ← map_lookup c l; mret (fst line).
Definition perfect_changePermission c address (new_perm : AccessPermission) :
    outcome (gmap Z (AccessPermission * E)) :=
  l ← line_address cfg address; line ← map_lookup c l; mret (<[l := (new_perm, snd line)]> c).

  Context (Hcfg : configured cfg).

Definition line_of address : Z := address / dataBlockBytes cfg * dataBlockBytes cfg.

(** The perfect cache keeps one entry for each line, whatever address of the line it is
    asked by. *)
Theorem perfect_cache_by_line c a b p :
  is_address a -> is_address b ->
  exists c1 c2, perfect_allocate c a = Ok c1 /\ perfect_changePermission c1 a p = Ok c2 /\
    (line_of b = line_of a -> perfect_isTagPresent c2 b = Ok true /\ perfect_getPermission c1 b = Ok Busy /\
       perfect_getPermission c2 b = Ok p /\ perfect_lookup c2 b = Ok entry_new /\
       perfect_deallocate c2 b = Ok (delete (line_of a) c)) /\
    (line_of b <> line_of a -> perfect_isTagPresent c2 b = perfect_isTagPresent c b /\
       perfect_lookup c2 b = perfect_lookup c b /\ perfect_getPermission c2 b = perfect_getPermission c b).
Proof.
  intros Ha Hb. unfold perfect_allocate, perfect_changePermission, perfect_isTagPresent, perfect_getPermission,
    perfect_lookup, perfect_deallocate, line_address. rewrite !(makeLineAddress_val cfg Hcfg) by done. fold (line_of a) (line_of b).
  rewrite !bind_of_ok. unfold map_add.
  exists (<[line_of a := (Busy, entry_new)]> c), (<[line_of a := (p, entry_new)]> c). split; [done|].
  rewrite !bind_of_ok.
  rewrite (map_lookup_val (<[line_of a := (Busy, entry_new)]> c) (line_of a) (Busy, entry_new)) by apply lookup_insert_eq.
  rewrite bind_of_ok. cbn [snd]. rewrite insert_insert_eq. split; [done|]. split.
  - intros ->. assert (H1 : (<[line_of a := (Busy, entry_new)]> c) !! line_of a = Some (Busy, entry_new))
      by apply lookup_insert_eq.
    assert (H2 : (<[line_of a := (p, entry_new)]> c) !! line_of a = Some (p, entry_new)) by apply lookup_insert_eq.
    rewrite (exist_some _ _ _ H2), (map_lookup_val _ _ _ H1), (map_lookup_val _ _ _ H2), (map_erase_val _ _ _ H2).
    by rewrite delete_insert_eq.
  - intros Hne. unfold map_lookup, exist. by rewrite lookup_insert_ne by done.
Qed.

End perfect.

(** * Examples *)

Lemma available_tbes_can_be_allocated_witness :
  exists t, tbe_allocate_all tt demo_configured 4 ∅ [64; 128] = Ok t /\ msize t = 2.
Proof.
  destruct (available_tbes_can_be_allocated tt demo_configured 4 demo_configured_ok ∅ [64; 128])
    as (t & E & Hs & _).
  - apply NoDup_cons. split; [|apply NoDup_singleton]. rewrite list_elem_of_singleton. discriminate.
  - repeat (apply List.Forall_cons; [split; [|apply lookup_empty]|]); [apply (demo_line 1); lia|apply (demo_line 2); lia|].
    apply List.Forall_nil.
  - reflexivity.
  - exists t. split; [exact E|exact Hs].
Defined.

Lemma tbe_allocate_lookup_deallocate_witness :
  exists t, tbe_allocate 9 demo_configured 4 ∅ 64 = Ok t /\ tbe_lookup demo_configured 4 t 64 = Ok 9.
Proof.
  assert (Hs : msize (∅ : gmap Z Z) <= 4) by (vm_compute; discriminate).
  pose proof (tbe_allocate_lookup_deallocate 9 demo_configured 4 demo_configured_ok ∅ 64
    (demo_line 1 ltac:(lia)) Hs) as H. rewrite lookup_empty in H. destruct H as (_ & _ & _ & H).
  destruct (H eq_refl) as (t & E & El & _). exists t. split; [exact E|exact El].
Defined.

Lemma perfect_cache_by_line_witness :
  exists c1 c2, perfect_allocate tt demo_configured ∅ 64 = Ok c1 /\
    perfect_changePermission demo_configured c1 64 Read_Only = Ok c2 /\
    perfect_getPermission demo_configured c2 100 = Ok Read_Only.
Proof.
  destruct (perfect_cache_by_line tt demo_configured demo_configured_ok ∅ 64 100 Read_Only)
    as (c1 & c2 & E1 & E2 & Hs & _); [split; lia|split; lia|].
  exists c1, c2. split; [exact E1|]. split; [exact E2|]. apply Hs. reflexivity.
Defined.
