(* ===== verification/BloomFilter.v ===== *)
(** [system/*BloomFilter*.{h,C}]: the signatures that summarise sets of line
    addresses, and [common/util.C]'s [string_split] that reads their
    configuration.

    The virtual interface is a class; each kind of filter is an instance, and
    [GenericBloomFilter], which holds a pointer to one of them, dispatches.  Two
    of the queries change the filter they query, so all of them return it. *)

From stdpp Require Import strings.
From S2P Require Import Prelude Vector Config Address Mapping H3Table.
From Stdlib Require Import Ascii.

(** * Reading a configuration string *)

(** The characters before the first [split_character], and those after it. *)
Fixpoint string_split (str : string) (split_character : ascii) : string * string :=
  match str with
  | EmptyString => (EmptyString, EmptyString)
  | String x rest =>
      if bool_decide (x = split_character) then (EmptyString, rest)
      else let '(head, tail) := string_split rest split_character in (String x head, tail)
  end.

(** [atoi] of the C library. *)
Definition is_digit (x : ascii) : bool :=
  let n := Z.of_N (N_of_ascii x) in (48 <=? n) && (n <=? 57).
Definition is_space (x : ascii) : bool :=
  let n := Z.of_N (N_of_ascii x) in (n =? 32) || ((9 <=? n) && (n <=? 13)).
Fixpoint digits (acc : Z) (s : string) : Z :=
  match s with
  | String x rest => if is_digit x then digits (acc * 10 + (Z.of_N (N_of_ascii x) - 48)) rest else acc
  | EmptyString => acc
  end.
Fixpoint atoi_value (s : string) : Z :=
  match s with
  | String x rest =>
      if is_space x then atoi_value rest
      else if bool_decide (x = "-"%char) then - digits 0 rest
      else if bool_decide (x = "+"%char) then digits 0 rest
      else digits 0 s
  | EmptyString => 0
  end.
Definition atoi (s : string) : outcome Z :=
  let v := atoi_value s in
  if (- 2 ^ 31 <=? v) && (v <? 2 ^ 31) then Ok v else Err Undefined.

(** * The virtual interface *)

Class AbstractBloomFilter (F : Type) := {
  bf_clear : F → outcome F;
  bf_increment : RubyConfig → F → Z → outcome F;
  bf_decrement : RubyConfig → F → Z → outcome F;
  bf_merge : F → F → outcome F;
  bf_set : RubyConfig → F → Z → outcome F;
  bf_unset : RubyConfig → F → Z → outcome F;
  bf_isSet : RubyConfig → F → Z → outcome (bool * F);
  bf_getCount : RubyConfig → F → Z → outcome (Z * F);
  bf_getTotalCount : F → outcome (Z * F);
  bf_getIndex : RubyConfig → F → Z → outcome Z;
  bf_readBit : F → Z → outcome Z;
  bf_writeBit : F → Z → Z → outcome F;
}.

(** The loops the filters share. *)
Definition vec_clear (v : Vector Z) (n : Z) : outcome (Vector Z) :=
  for_range 0 n (fun i v => ref_assign v i 0) v.
Definition vec_total (v : Vector Z) (n : Z) : outcome Z :=
  for_range 0 n (fun i count => x ← ref v i; mret (s32 (count + x))) 0.
Definition vec_nonzero (v : Vector Z) (n : Z) : outcome Z :=
  for_range 0 n (fun i count => x ← ref v i; mret (if negb (x =? 0) then count + 1 else count)) 0.
(** [m_filter[i] |= other[i]] *)
Definition vec_merge (v other : Vector Z) (n : Z) : outcome (Vector Z) :=
  for_range 0 n (fun i v => x ← ref v i; y ← ref other i; ref_assign v i (Z.lor x y)) v.
(** A bit field of an address, as an [int]. *)
Definition int_field (addr small big : Z) : outcome Z := r ← bitSelect addr small big; mret (s32 r).

(** * NonCounting *)

Record NonCountingBloomFilter := mkNonCounting {
  nc_filter : Vector Z;
  nc_filter_size : Z;
  nc_offset : Z;
  nc_filter_size_bits : Z;
}.
Definition nc_with (f : NonCountingBloomFilter) (v : Vector Z) : NonCountingBloomFilter :=
  mkNonCounting v (nc_filter_size f) (nc_offset f) (nc_filter_size_bits f).

Definition nc_clear (f : NonCountingBloomFilter) : outcome NonCountingBloomFilter :=
  v ← vec_clear (nc_filter f) (nc_filter_size f); mret (nc_with f v).
Definition nc_new (str : string) : outcome NonCountingBloomFilter :=
  let '(head, tail) := string_split str "_" in
  size ← atoi head;
  offset ← atoi tail;
  bits ← log_int size;
  v ← setSize Vector_default size;
  nc_clear (mkNonCounting v size offset bits).
Definition nc_get_index (cfg : RubyConfig) (f : NonCountingBloomFilter) (addr : Z) : outcome Z :=
  int_field addr (dataBlockBits cfg + nc_offset f)
    (dataBlockBits cfg + nc_offset f + nc_filter_size_bits f - 1).
Definition nc_write (cfg : RubyConfig) (f : NonCountingBloomFilter) (addr x : Z) :
    outcome NonCountingBloomFilter :=
  i ← nc_get_index cfg f addr; v ← ref_assign (nc_filter f) i x; mret (nc_with f v).
Definition nc_isSet (cfg : RubyConfig) (f : NonCountingBloomFilter) (addr : Z) :
    outcome (bool * NonCountingBloomFilter) :=
  i ← nc_get_index cfg f addr; x ← ref (nc_filter f) i; mret (negb (x =? 0), f).
Definition nc_getCount (cfg : RubyConfig) (f : NonCountingBloomFilter) (addr : Z) :
    outcome (Z * NonCountingBloomFilter) :=
  i ← nc_get_index cfg f addr; x ← ref (nc_filter f) i; mret (x, f).
Definition nc_merge (f other : NonCountingBloomFilter) : outcome NonCountingBloomFilter :=
  v ← vec_merge (nc_filter f) (nc_filter other) (nc_filter_size f); mret (nc_with f v).

#[export] Instance NonCounting_filter : AbstractBloomFilter NonCountingBloomFilter := {|
  bf_clear := nc_clear;
  bf_increment _ f _ := Ok f;
  bf_decrement _ f _ := Ok f;
  bf_merge := nc_merge;
  bf_set cfg f addr := nc_write cfg f addr 1;
  bf_unset cfg f addr := nc_write cfg f addr 0;
  bf_isSet := nc_isSet;
  bf_getCount := nc_getCount;
  bf_getTotalCount f := n ← vec_total (nc_filter f) (nc_filter_size f); mret (n, f);
  bf_getIndex := nc_get_index;
  bf_readBit f i := ref (nc_filter f) i;
  bf_writeBit f i x := v ← ref_assign (nc_filter f) i x; mret (nc_with f v);
|}.

(** * LSB_Counting *)

Record LSB_CountingBloomFilter := mkLSB {
  lsb_filter : Vector Z;
  lsb_filter_size : Z;
  lsb_filter_size_bits : Z;
  lsb_count : Z;
  lsb_count_bits : Z;
}.
Definition lsb_with (f : LSB_CountingBloomFilter) (v : Vector Z) : LSB_CountingBloomFilter :=
  mkLSB v (lsb_filter_size f) (lsb_filter_size_bits f) (lsb_count f) (lsb_count_bits f).
Definition lsb_clear (f : LSB_CountingBloomFilter) : outcome LSB_CountingBloomFilter :=
  v ← vec_clear (lsb_filter f) (lsb_filter_size f); mret (lsb_with f v).
Definition lsb_new (str : string) : outcome LSB_CountingBloomFilter :=
  let '(head, tail) := string_split str ":" in
  size ← atoi head;
  bits ← log_int size;
  count ← atoi tail;
  count_bits ← log_int count;
  v ← setSize Vector_default size;
  lsb_clear (mkLSB v size bits count count_bits).
Definition lsb_get_index (cfg : RubyConfig) (f : LSB_CountingBloomFilter) (addr : Z) : outcome Z :=
  int_field addr (dataBlockBits cfg) (dataBlockBits cfg + lsb_filter_size_bits f - 1).
(** The comparison with [m_count] guards an empty statement. *)
Definition lsb_increment (cfg : RubyConfig) (f : LSB_CountingBloomFilter) (addr : Z) :
    outcome LSB_CountingBloomFilter :=
  i ← lsb_get_index cfg f addr;
  x ← ref (lsb_filter f) i;
  v ← ref_assign (lsb_filter f) i (s32 (x + 1));
  mret (lsb_with f v).
Definition lsb_decrement (cfg : RubyConfig) (f : LSB_CountingBloomFilter) (addr : Z) :
    outcome LSB_CountingBloomFilter :=
  i ← lsb_get_index cfg f addr;
  x ← ref (lsb_filter f) i;
  if 0 <? x then v ← ref_assign (lsb_filter f) i (x - 1); mret (lsb_with f v) else mret f.
Definition lsb_getCount (cfg : RubyConfig) (f : LSB_CountingBloomFilter) (addr : Z) :
    outcome (Z * LSB_CountingBloomFilter) :=
  i ← lsb_get_index cfg f addr; x ← ref (lsb_filter f) i; mret (x, f).

(** [isSet] runs off its end without a return statement. *)
#[export] Instance LSB_Counting_filter : AbstractBloomFilter LSB_CountingBloomFilter := {|
  bf_clear := lsb_clear;
  bf_increment := lsb_increment;
  bf_decrement := lsb_decrement;
  bf_merge f _ := Ok f;
  bf_set _ f _ := Ok f;
  bf_unset _ f _ := Ok f;
  bf_isSet _ _ _ := Err Undefined;
  bf_getCount := lsb_getCount;
  bf_getTotalCount f := n ← vec_total (lsb_filter f) (lsb_filter_size f); mret (n, f);
  bf_getIndex := lsb_get_index;
  bf_readBit _ _ := Ok 0;
  bf_writeBit f _ _ := Ok f;
|}.

(** * Block *)

Record BlockBloomFilter := mkBlock {
  blk_filter : Vector Z;
  blk_filter_size : Z;
  blk_filter_size_bits : Z;
}.
Definition blk_with (f : BlockBloomFilter) (v : Vector Z) : BlockBloomFilter :=
  mkBlock v (blk_filter_size f) (blk_filter_size_bits f).
Definition blk_clear (f : BlockBloomFilter) : outcome BlockBloomFilter :=
  v ← vec_clear (blk_filter f) (blk_filter_size f); mret (blk_with f v).
Definition blk_new (str : string) : outcome BlockBloomFilter :=
  let '(head, _) := string_split str "_" in
  size ← atoi head;
  bits ← log_int size;
  v ← setSize Vector_default size;
  blk_clear (mkBlock v size bits).
Definition blk_get_index (cfg : RubyConfig) (f : BlockBloomFilter) (addr : Z) : outcome Z :=
  block_bits ← bitSelect addr (dataBlockBits cfg) (2 * dataBlockBits cfg - 1);
  let offset := 5 in
  other_bits ← bitSelect addr (2 * dataBlockBits cfg + offset)
                 (2 * dataBlockBits cfg + offset + blk_filter_size_bits f - 1);
  let index := s32 (Z.lxor block_bits other_bits) in
  cassert (index <? blk_filter_size f);;
  mret index.
Definition blk_write (cfg : RubyConfig) (f : BlockBloomFilter) (addr x : Z) : outcome BlockBloomFilter :=
  i ← blk_get_index cfg f addr; v ← ref_assign (blk_filter f) i x; mret (blk_with f v).
Definition blk_isSet (cfg : RubyConfig) (f : BlockBloomFilter) (addr : Z) :
    outcome (bool * BlockBloomFilter) :=
  i ← blk_get_index cfg f addr; x ← ref (blk_filter f) i; mret (negb (x =? 0), f).
Definition blk_getCount (cfg : RubyConfig) (f : BlockBloomFilter) (addr : Z) :
    outcome (Z * BlockBloomFilter) :=
  i ← blk_get_index cfg f addr; x ← ref (blk_filter f) i; mret (x, f).

#[export] Instance Block_filter : AbstractBloomFilter BlockBloomFilter := {|
  bf_clear := blk_clear;
  bf_increment _ f _ := Ok f;
  bf_decrement _ f _ := Ok f;
  bf_merge f _ := Ok f;
  bf_set cfg f addr := blk_write cfg f addr 1;
  bf_unset cfg f addr := blk_write cfg f addr 0;
  bf_isSet := blk_isSet;
  bf_getCount := blk_getCount;
  bf_getTotalCount f := n ← vec_nonzero (blk_filter f) (blk_filter_size f); mret (n, f);
  bf_getIndex := blk_get_index;
  bf_readBit f i := ref (blk_filter f) i;
  bf_writeBit f i x := v ← ref_assign (blk_filter f) i x; mret (blk_with f v);
|}.

(** * Bulk *)

Record BulkBloomFilter := mkBulk {
  bulk_filter : Vector Z;
  bulk_temp_filter : Vector Z;
  bulk_filter_size : Z;
  bulk_filter_size_bits : Z;
  bulk_sector_bits : Z;
}.
Definition bulk_with (f : BulkBloomFilter) (v temp : Vector Z) : BulkBloomFilter :=
  mkBulk v temp (bulk_filter_size f) (bulk_filter_size_bits f) (bulk_sector_bits f).
Definition bulk_clear (f : BulkBloomFilter) : outcome BulkBloomFilter :=
  v ← vec_clear (bulk_filter f) (bulk_filter_size f); mret (bulk_with f v (bulk_temp_filter f)).
Definition bulk_new (str : string) : outcome BulkBloomFilter :=
  let '(head, _) := string_split str "_" in
  size ← atoi head;
  bits ← log_int size;
  temp ← setSize Vector_default size;
  v ← setSize Vector_default size;
  f ← bulk_clear (mkBulk v temp size bits (bits - 1));
  temp' ← vec_clear (bulk_temp_filter f) size;
  mret (bulk_with f (bulk_filter f) temp').
Definition bulk_c0 (cfg : RubyConfig) (f : BulkBloomFilter) (addr : Z) : outcome Z :=
  int_field addr (dataBlockBits cfg) (dataBlockBits cfg + bulk_sector_bits f - 1).
Definition bulk_c1 (cfg : RubyConfig) (f : BulkBloomFilter) (addr : Z) : outcome Z :=
  int_field addr (dataBlockBits cfg + bulk_sector_bits f)
    (dataBlockBits cfg + 2 * bulk_sector_bits f - 1).
Definition bulk_set (cfg : RubyConfig) (f : BulkBloomFilter) (addr : Z) : outcome BulkBloomFilter :=
  c0 ← bulk_c0 cfg f addr;
  c1 ← bulk_c1 cfg f addr;
  v ← ref_assign (bulk_filter f) (c0 + Z.quot (bulk_filter_size f) 2) 1;
  v' ← ref_assign v c1 1;
  mret (bulk_with f v' (bulk_temp_filter f)).
(** [temp[i] = temp[i] && filter[i]; zero = zero || temp[i]] *)
Definition intersect (filter : Vector Z) (lo hi : Z) (temp : Vector Z) : outcome (Vector Z * bool) :=
  for_range lo hi (fun i st =>
    t ← ref (fst st) i;
    x ← (if negb (t =? 0) then ref filter i else mret 0);
    let b := negb (x =? 0) in
    temp' ← ref_assign (fst st) i (Z.b2z b);
    mret (temp', snd st || b)) (temp, false).
Definition bulk_isSet (cfg : RubyConfig) (f : BulkBloomFilter) (addr : Z) :
    outcome (bool * BulkBloomFilter) :=
  c0 ← bulk_c0 cfg f addr;
  c1 ← bulk_c1 cfg f addr;
  let half := Z.quot (bulk_filter_size f) 2 in
  let finish temp result :=
    t ← ref_assign temp (c0 + half) 0;
    t' ← ref_assign t c1 0;
    mret ((result : bool), bulk_with f (bulk_filter f) t') in
  t0 ← ref_assign (bulk_temp_filter f) (c0 + half) 1;
  t1 ← ref_assign t0 c1 1;
  '(t2, any1) ← intersect (bulk_filter f) 0 half t1;
  if negb any1 then finish t2 false
  else
    '(t3, any2) ← intersect (bulk_filter f) half (bulk_filter_size f) t2;
    if negb any2 then finish t3 false else finish t3 true.
Definition bulk_get_index (cfg : RubyConfig) (f : BulkBloomFilter) (addr : Z) : outcome Z :=
  int_field addr (dataBlockBits cfg) (dataBlockBits cfg + bulk_filter_size_bits f - 1).

#[export] Instance Bulk_filter : AbstractBloomFilter BulkBloomFilter := {|
  bf_clear := bulk_clear;
  bf_increment _ f _ := Ok f;
  bf_decrement _ f _ := Ok f;
  bf_merge f _ := Ok f;
  bf_set := bulk_set;
  bf_unset _ f _ := Ok f;
  bf_isSet := bulk_isSet;
  bf_getCount _ f _ := Ok (0, f);
  bf_getTotalCount f := n ← vec_nonzero (bulk_filter f) (bulk_filter_size f); mret (n, f);
  bf_getIndex := bulk_get_index;
  bf_readBit _ _ := Ok 0;
  bf_writeBit f _ _ := Ok f;
|}.

(** * Multigrain *)

Record MultiGrainBloomFilter := mkMultiGrain {
  mg_filter : Vector Z;
  mg_filter_size : Z;
  mg_filter_size_bits : Z;
  mg_page_filter : Vector Z;
  mg_page_filter_size : Z;
  mg_page_filter_size_bits : Z;
}.
Definition mg_with (f : MultiGrainBloomFilter) (v page : Vector Z) : MultiGrainBloomFilter :=
  mkMultiGrain v (mg_filter_size f) (mg_filter_size_bits f)
    page (mg_page_filter_size f) (mg_page_filter_size_bits f).
Definition mg_clear (f : MultiGrainBloomFilter) : outcome MultiGrainBloomFilter :=
  v ← vec_clear (mg_filter f) (mg_filter_size f);
  page ← vec_clear (mg_page_filter f) (mg_page_filter_size f);
  mret (mg_with f v page).
Definition mg_new (str : string) : outcome MultiGrainBloomFilter :=
  let '(head, tail) := string_split str "_" in
  size ← atoi head;
  bits ← log_int size;
  page_size ← atoi tail;
  page_bits ← log_int page_size;
  v ← setSize Vector_default size;
  page ← setSize Vector_default page_size;
  mg_clear (mkMultiGrain v size bits page page_size page_bits).
Definition get_block_index (cfg : RubyConfig) (f : MultiGrainBloomFilter) (addr : Z) : outcome Z :=
  int_field addr (dataBlockBits cfg) (dataBlockBits cfg + mg_filter_size_bits f - 1).
Definition get_page_index (cfg : RubyConfig) (f : MultiGrainBloomFilter) (addr : Z) : outcome Z :=
  int_field addr (dataBlockBits cfg + mg_filter_size_bits f - 1)
    (dataBlockBits cfg + mg_filter_size_bits f - 1 + mg_page_filter_size_bits f - 1).
(** The page filter is written, and read, at the block index. *)
Definition mg_set (cfg : RubyConfig) (f : MultiGrainBloomFilter) (addr : Z) : outcome MultiGrainBloomFilter :=
  i ← get_block_index cfg f addr;
  j ← get_page_index cfg f addr;
  cassert (i <? mg_filter_size f);;
  cassert (j <? mg_page_filter_size f);;
  v ← ref_assign (mg_filter f) i 1;
  page ← ref_assign (mg_page_filter f) i 1;
  mret (mg_with f v page).
Definition mg_isSet (cfg : RubyConfig) (f : MultiGrainBloomFilter) (addr : Z) :
    outcome (bool * MultiGrainBloomFilter) :=
  i ← get_block_index cfg f addr;
  j ← get_page_index cfg f addr;
  cassert (i <? mg_filter_size f);;
  cassert (j <? mg_page_filter_size f);;
  x ← ref (mg_filter f) i;
  if negb (x =? 0) then y ← ref (mg_page_filter f) i; mret (negb (y =? 0), f) else mret (false, f).
(** [count += m_page_filter[i] = 0] adds nothing and clears the page filter. *)
Definition mg_getTotalCount (f : MultiGrainBloomFilter) : outcome (Z * MultiGrainBloomFilter) :=
  n ← vec_total (mg_filter f) (mg_filter_size f);
  page ← vec_clear (mg_page_filter f) (mg_page_filter_size f);
  mret (n, mg_with f (mg_filter f) page).

#[export] Instance MultiGrain_filter : AbstractBloomFilter MultiGrainBloomFilter := {|
  bf_clear := mg_clear;
  bf_increment _ f _ := Ok f;
  bf_decrement _ f _ := Ok f;
  bf_merge f _ := Ok f;
  bf_set := mg_set;
  bf_unset _ f _ := Ok f;
  bf_isSet := mg_isSet;
  bf_getCount _ f _ := Ok (0, f);
  bf_getTotalCount := mg_getTotalCount;
  bf_getIndex _ _ _ := Ok 0;
  bf_readBit _ _ := Ok 0;
  bf_writeBit f _ _ := Ok f;
|}.

(** * The filters with several hash functions *)

(** [for (i < n) { idx = get_index(addr, i); m_filter[idx] = 1; }] *)
Definition set_hashes (v : Vector Z) (n : Z) (get_index : Z → outcome Z) : outcome (Vector Z) :=
  for_range 0 n (fun i v => idx ← get_index i; ref_assign v idx 1) v.
(** [res = res && m_filter[idx]]; the filter is not read once [res] is false. *)
Definition test_hashes (v : Vector Z) (n : Z) (get_index : Z → outcome Z) : outcome bool :=
  for_range 0 n (fun i res => idx ← get_index i;
    if (res : bool) then x ← ref v idx; mret (negb (x =? 0)) else mret false) true.
(** Where the hash value [y] of function [i] goes. *)
Definition spread (isParallel : bool) (par_size size y i : Z) : Z :=
  if isParallel then Z.rem y par_size + i * par_size else Z.rem y size.

Record MultiBitSelBloomFilter := mkMultiBitSel {
  mbs_filter : Vector Z;
  mbs_filter_size : Z;
  mbs_num_hashes : Z;
  mbs_filter_size_bits : Z;
  mbs_skip_bits : Z;
  mbs_par_filter_size : Z;
  mbs_par_filter_size_bits : Z;
  mbs_isParallel : bool;
}.
Definition mbs_with (f : MultiBitSelBloomFilter) (v : Vector Z) : MultiBitSelBloomFilter :=
  mkMultiBitSel v (mbs_filter_size f) (mbs_num_hashes f) (mbs_filter_size_bits f) (mbs_skip_bits f)
    (mbs_par_filter_size f) (mbs_par_filter_size_bits f) (mbs_isParallel f).
Definition mbs_clear (f : MultiBitSelBloomFilter) : outcome MultiBitSelBloomFilter :=
  v ← vec_clear (mbs_filter f) (mbs_filter_size f); mret (mbs_with f v).
(** ["Regular"] or ["Parallel"]; integer division by zero has no meaning. *)
Definition parallel_of (tail : string) : outcome bool :=
  if bool_decide (tail = "Regular"%string) then Ok false
  else if bool_decide (tail = "Parallel"%string) then Ok true else Err AssertFailed.
Definition int_div (x y : Z) : outcome Z := if y =? 0 then Err Undefined else Ok (Z.quot x y).
Definition mbs_new (str : string) : outcome MultiBitSelBloomFilter :=
  let '(head, tail) := string_split str "_" in
  size ← atoi head;
  let '(head, tail) := string_split tail "_" in
  hashes ← atoi head;
  let '(head, tail) := string_split tail "_" in
  skip ← atoi head;
  par ← parallel_of tail;
  bits ← log_int size;
  par_size ← int_div size hashes;
  par_bits ← log_int par_size;
  v ← setSize Vector_default size;
  mbs_clear (mkMultiBitSel v size hashes bits skip par_size par_bits par).
Definition hash_bitsel (value index jump maxBits numBits : Z) : outcome Z :=
  for_range 0 numBits (fun i result =>
    let bit := Z.rem (s32 (index + jump * i)) maxBits in
    m ← shl64 1 bit;
    if negb (Z.land value m =? 0) then
      m' ← shl64 1 i; mret (s32 (u64 (result + m')))
    else mret result) 0.
Definition mbs_get_index (cfg : RubyConfig) (f : MultiBitSelBloomFilter) (addr i : Z) : outcome Z :=
  l ← getLineAddress cfg addr;
  x ← shr64 l (mbs_skip_bits f);
  y ← hash_bitsel x i (mbs_num_hashes f) 30 (mbs_filter_size_bits f);
  mret (spread (mbs_isParallel f) (mbs_par_filter_size f) (mbs_filter_size f) y i).
Definition mbs_set (cfg : RubyConfig) (f : MultiBitSelBloomFilter) (addr : Z) : outcome MultiBitSelBloomFilter :=
  v ← set_hashes (mbs_filter f) (mbs_num_hashes f) (mbs_get_index cfg f addr); mret (mbs_with f v).
Definition mbs_isSet (cfg : RubyConfig) (f : MultiBitSelBloomFilter) (addr : Z) :
    outcome (bool * MultiBitSelBloomFilter) :=
  r ← test_hashes (mbs_filter f) (mbs_num_hashes f) (mbs_get_index cfg f addr); mret (r, f).
Definition mbs_merge (f other : MultiBitSelBloomFilter) : outcome MultiBitSelBloomFilter :=
  v ← vec_merge (mbs_filter f) (mbs_filter other) (mbs_filter_size f); mret (mbs_with f v).

#[export] Instance MultiBitSel_filter : AbstractBloomFilter MultiBitSelBloomFilter := {|
  bf_clear := mbs_clear;
  bf_increment _ f _ := Ok f;
  bf_decrement _ f _ := Ok f;
  bf_merge := mbs_merge;
  bf_set := mbs_set;
  bf_unset _ _ _ := Err AssertFailed;
  bf_isSet := mbs_isSet;
  bf_getCount cfg f addr := '(b, f') ← mbs_isSet cfg f addr; mret (Z.b2z b, f');
  bf_getTotalCount f := n ← vec_total (mbs_filter f) (mbs_filter_size f); mret (n, f);
  bf_getIndex _ _ _ := Ok 0;
  bf_readBit _ _ := Ok 0;
  bf_writeBit f _ _ := Ok f;
|}.

(** * H3 *)

Record H3BloomFilter := mkH3 {
  h3_filter : Vector Z;
  h3_filter_size : Z;
  h3_num_hashes : Z;
  h3_filter_size_bits : Z;
  h3_par_filter_size : Z;
  h3_par_filter_size_bits : Z;
  h3_isParallel : bool;
}.
Definition h3_with (f : H3BloomFilter) (v : Vector Z) : H3BloomFilter :=
  mkH3 v (h3_filter_size f) (h3_num_hashes f) (h3_filter_size_bits f)
    (h3_par_filter_size f) (h3_par_filter_size_bits f) (h3_isParallel f).
Definition h3_clear (f : H3BloomFilter) : outcome H3BloomFilter :=
  v ← vec_clear (h3_filter f) (h3_filter_size f); mret (h3_with f v).
Definition h3_new (str : string) : outcome H3BloomFilter :=
  let '(head, tail) := string_split str "_" in
  size ← atoi head;
  let '(head, tail) := string_split tail "_" in
  hashes ← atoi head;
  par ← parallel_of tail;
  bits ← log_int size;
  par_size ← int_div size hashes;
  par_bits ← log_int par_size;
  v ← setSize Vector_default size;
  h3_clear (mkH3 v size hashes bits par_size par_bits par).
(** One round of the hash: bit 0 of the rest of the value chooses the entry. *)
Definition H3_round (index i : Z) (st : Z * Z) : outcome (Z * Z) :=
  let '(val, result) := st in
  result' ← (if negb (Z.land val 1 =? 0) then
               row ← aread H3 i; x ← aread row index; mret (Z.lxor result x)
             else mret result);
  mret (Z.shiftr val 1, result').
Definition hash_H3 (value index : Z) : outcome Z :=
  r ← for_range 0 64 (H3_round index) (value, 0); mret (snd r).
Definition h3_get_index (cfg : RubyConfig) (f : H3BloomFilter) (addr i : Z) : outcome Z :=
  x ← getLineAddress cfg addr;
  y ← hash_H3 x i;
  mret (spread (h3_isParallel f) (h3_par_filter_size f) (h3_filter_size f) y i).
Definition h3_set (cfg : RubyConfig) (f : H3BloomFilter) (addr : Z) : outcome H3BloomFilter :=
  v ← set_hashes (h3_filter f) (h3_num_hashes f) (h3_get_index cfg f addr); mret (h3_with f v).
Definition h3_isSet (cfg : RubyConfig) (f : H3BloomFilter) (addr : Z) : outcome (bool * H3BloomFilter) :=
  r ← test_hashes (h3_filter f) (h3_num_hashes f) (h3_get_index cfg f addr); mret (r, f).
Definition h3_merge (f other : H3BloomFilter) : outcome H3BloomFilter :=
  v ← vec_merge (h3_filter f) (h3_filter other) (h3_filter_size f); mret (h3_with f v).

#[export] Instance H3_filter : AbstractBloomFilter H3BloomFilter := {|
  bf_clear := h3_clear;
  bf_increment _ f _ := Ok f;
  bf_decrement _ f _ := Ok f;
  bf_merge := h3_merge;
  bf_set := h3_set;
  bf_unset _ _ _ := Err AssertFailed;
  bf_isSet := h3_isSet;
  bf_getCount cfg f addr := '(b, f') ← h3_isSet cfg f addr; mret (Z.b2z b, f');
  bf_getTotalCount f := n ← vec_total (h3_filter f) (h3_filter_size f); mret (n, f);
  bf_getIndex _ _ _ := Ok 0;
  bf_readBit _ _ := Ok 0;
  bf_writeBit f _ _ := Ok f;
|}.

(** * GenericBloomFilter *)

Inductive GenericBloomFilter :=
  | LSB_Counting (f : LSB_CountingBloomFilter)
  | NonCounting (f : NonCountingBloomFilter)
  | Bulk (f : BulkBloomFilter)
  | Block (f : BlockBloomFilter)
  | Multigrain (f : MultiGrainBloomFilter)
  | MultiBitSel (f : MultiBitSelBloomFilter)
  | H3Hash (f : H3BloomFilter).

Definition GenericBloomFilter_new (config : string) : outcome GenericBloomFilter :=
  let '(head, tail) := string_split config "_" in
  if bool_decide (head = "LSB_Counting"%string) then f ← lsb_new tail; mret (LSB_Counting f)
  else if bool_decide (head = "NonCounting"%string) then f ← nc_new tail; mret (NonCounting f)
  else if bool_decide (head = "Bulk"%string) then f ← bulk_new tail; mret (Bulk f)
  else if bool_decide (head = "Block"%string) then f ← blk_new tail; mret (Block f)
  else if bool_decide (head = "Multigrain"%string) then f ← mg_new tail; mret (Multigrain f)
  else if bool_decide (head = "MultiBitSel"%string) then f ← mbs_new tail; mret (MultiBitSel f)
  else if bool_decide (head = "H3"%string) then f ← h3_new tail; mret (H3Hash f)
  else Err AssertFailed.

(** A virtual call: an operation of the interface on the filter pointed to. *)
Definition update_any (op : forall F, AbstractBloomFilter F → F → outcome F) (g : GenericBloomFilter) :
    outcome GenericBloomFilter :=
  match g with
  | LSB_Counting f => f' ← op _ _ f; mret (LSB_Counting f')
  | NonCounting f => f' ← op _ _ f; mret (NonCounting f')
  | Bulk f => f' ← op _ _ f; mret (Bulk f')
  | Block f => f' ← op _ _ f; mret (Block f')
  | Multigrain f => f' ← op _ _ f; mret (Multigrain f')
  | MultiBitSel f => f' ← op _ _ f; mret (MultiBitSel f')
  | H3Hash f => f' ← op _ _ f; mret (H3Hash f')
  end.
Definition query_any {A} (op : forall F, AbstractBloomFilter F → F → outcome (A * F)) (g : GenericBloomFilter) :
    outcome (A * GenericBloomFilter) :=
  match g with
  | LSB_Counting f => '(a, f') ← op _ _ f; mret (a, LSB_Counting f')
  | NonCounting f => '(a, f') ← op _ _ f; mret (a, NonCounting f')
  | Bulk f => '(a, f') ← op _ _ f; mret (a, Bulk f')
  | Block f => '(a, f') ← op _ _ f; mret (a, Block f')
  | Multigrain f => '(a, f') ← op _ _ f; mret (a, Multigrain f')
  | MultiBitSel f => '(a, f') ← op _ _ f; mret (a, MultiBitSel f')
  | H3Hash f => '(a, f') ← op _ _ f; mret (a, H3Hash f')
  end.

(** [merge] casts the other filter to its own kind: kinds that read it have no
    meaning with another kind. *)
Definition merge_any (g other : GenericBloomFilter) : outcome GenericBloomFilter :=
  match g, other with
  | NonCounting f, NonCounting o => f' ← bf_merge f o; mret (NonCounting f')
  | MultiBitSel f, MultiBitSel o => f' ← bf_merge f o; mret (MultiBitSel f')
  | H3Hash f, H3Hash o => f' ← bf_merge f o; mret (H3Hash f')
  | (NonCounting _ | MultiBitSel _ | H3Hash _), _ => Err Undefined
  | _, _ => Ok g
  end.
Definition read_any {A} (op : forall F, AbstractBloomFilter F → F → outcome A) (g : GenericBloomFilter) :
    outcome A :=
  match g with
  | LSB_Counting f => op _ _ f
  | NonCounting f => op _ _ f
  | Bulk f => op _ _ f
  | Block f => op _ _ f
  | Multigrain f => op _ _ f
  | MultiBitSel f => op _ _ f
  | H3Hash f => op _ _ f
  end.

#[export] Instance Generic_filter : AbstractBloomFilter GenericBloomFilter := {|
  bf_clear := update_any (fun _ _ f => bf_clear f);
  bf_increment cfg g addr := update_any (fun _ _ f => bf_increment cfg f addr) g;
  bf_decrement cfg g addr := update_any (fun _ _ f => bf_decrement cfg f addr) g;
  bf_merge := merge_any;
  bf_set cfg g addr := update_any (fun _ _ f => bf_set cfg f addr) g;
  bf_unset cfg g addr := update_any (fun _ _ f => bf_unset cfg f addr) g;
  bf_isSet cfg g addr := query_any (fun _ _ f => bf_isSet cfg f addr) g;
  bf_getCount cfg g addr := query_any (fun _ _ f => bf_getCount cfg f addr) g;
  bf_getTotalCount := query_any (fun _ _ f => bf_getTotalCount f);
  bf_getIndex cfg g addr := read_any (fun _ _ f => bf_getIndex cfg f addr) g;
  bf_readBit g i := read_any (fun _ _ f => bf_readBit f i) g;
  bf_writeBit g i x := update_any (fun _ _ f => bf_writeBit f i x) g;
|}.

(** * Filters as sets of positions *)

(** What a client relies on: a filter is a set of positions, [set] adds the
    positions of an address, [isSet] tests them all. *)
Class BloomLaws (F : Type) `{!AbstractBloomFilter F} := {
  bl_wf : RubyConfig → F → Prop;
  bl_bit : F → Z → bool;
  bl_indices : RubyConfig → F → Z → list Z;
  bl_clear cfg f : bl_wf cfg f ->
    exists f', bf_clear f = Ok f' /\ bl_wf cfg f' /\
      (forall a, bl_indices cfg f' a = bl_indices cfg f a) /\ (forall i, bl_bit f' i = false);
  bl_set cfg f a : bl_wf cfg f -> is_address a ->
    exists f', bf_set cfg f a = Ok f' /\ bl_wf cfg f' /\
      (forall b, bl_indices cfg f' b = bl_indices cfg f b) /\
      (forall i, bl_bit f' i = bl_bit f i || bool_decide (i ∈ bl_indices cfg f a));
  bl_isSet cfg f a : bl_wf cfg f -> is_address a ->
    exists f', bf_isSet cfg f a = Ok (forallb (bl_bit f) (bl_indices cfg f a), f') /\ bl_wf cfg f' /\
      (forall b, bl_indices cfg f' b = bl_indices cfg f b) /\ (forall i, bl_bit f' i = bl_bit f i);
}.

(** ** Vectors of bits *)

Definition vbit (v : Vector Z) (i : Z) : bool :=
  match zread (contents v) i with Some x => negb (x =? 0) | None => false end.
Definition vec_of (v : Vector Z) (n : Z) : Prop := wf v /\ m_size v = n.

Lemma vec_write_spec v n i x :
  vec_of v n -> 0 <= i < n ->
  exists v', ref_assign v i x = Ok v' /\ vec_of v' n /\
    (forall j, zread (contents v') j = if i =? j then Some x else zread (contents v) j) /\
    (forall j, vbit v' j = if i =? j then negb (x =? 0) else vbit v j).
Proof.
  intros [Hv Hs] Hi. destruct (ref_assign_contents v i x Hv ltac:(lia)) as (v' & -> & Hv' & Hs' & Hc).
  assert (Hr : forall j, zread (contents v') j = if i =? j then Some x else zread (contents v) j)
    by (intros j; rewrite Hc, zread_zwrite by (rewrite zlen_contents by done; lia); done).
  exists v'. split_and!; [done|split; [done|lia]|done|].
  intros j. unfold vbit. rewrite Hr. by destruct (i =? j).
Qed.

Lemma vec_read_spec v n i :
  vec_of v n -> 0 <= i < n -> exists x, ref v i = Ok x /\ vbit v i = negb (x =? 0) /\ zread (contents v) i = Some x.
Proof.
  intros [Hv Hs] Hi. destruct (ref_in v i Hv ltac:(lia)) as (x & Hx & Er). exists x.
  apply ref_contents in Er as Hc; [|done]. unfold vbit. by rewrite Hc.
Qed.

(** Marking one more position. *)
Lemma vec_mark_spec v n i :
  vec_of v n -> 0 <= i < n ->
  exists v', ref_assign v i 1 = Ok v' /\ vec_of v' n /\ (forall j, vbit v' j = vbit v j || bool_decide (j = i)).
Proof.
  intros Hv Hi. destruct (vec_write_spec v n i 1 Hv Hi) as (v' & -> & Hv' & _ & Hb). exists v'.
  split_and!; [done..|]. intros j. rewrite Hb. destruct (Z.eqb_spec i j) as [->|Hne].
  - by rewrite bool_decide_eq_true_2, orb_true_r.
  - by rewrite bool_decide_eq_false_2, orb_false_r by congruence.
Qed.

Lemma vec_clear_spec v n :
  vec_of v n -> exists v', vec_clear v n = Ok v' /\ vec_of v' n /\ Forall (eq 0) (contents v').
Proof.
  intros [Hv Hs]. unfold vec_clear.
  destruct (for_range_inv (fun k v' => vec_of v' n /\ forall i, 0 <= i < k -> zread (contents v') i = Some 0)
    0 n (fun i v => ref_assign v i 0) v) as (v' & -> & Hv' & Hz).
  - pose proof (wf_size _ Hv). lia.
  - split; [done|lia].
  - intros i v1 Hi [H1 Hz]. destruct (vec_write_spec v1 n i 0 H1 Hi) as (v2 & -> & H2 & Hr & _).
    exists v2. split_and!; [done..|]. intros j Hj. rewrite Hr. destruct (Z.eqb_spec i j); [done|]. apply Hz. lia.
  - exists v'. split_and!; [done..|]. apply Forall_forall. intros x Hx. apply elem_of_zread in Hx as (i & Hi & Hx).
    destruct Hv' as [Hw Hn]. rewrite zlen_contents in Hi by done. rewrite Hz in Hx by lia. congruence.
Qed.

Lemma vbit_zero v i : Forall (eq 0) (contents v) -> vbit v i = false.
Proof.
  intros Hz. unfold vbit. destruct (zread (contents v) i) eqn:E; [|done].
  rewrite Forall_forall in Hz. by rewrite <- (Hz _ (zread_elem_of _ _ _ E)).
Qed.

(** ** Several hash functions *)

Definition positions (n : Z) (get_index : Z → outcome Z) : list Z :=
  (fun i => from_ok (get_index i)) <$> seqZ 0 n.

(** Every hash function gives a position of the filter. *)
Definition hashes_in (n size : Z) (get_index : Z → outcome Z) : Prop :=
  forall i, 0 <= i < n -> exists p, get_index i = Ok p /\ 0 <= p < size.

Lemma positions_snoc k g : 0 <= k -> positions (k + 1) g = positions k g ++ [from_ok (g k)].
Proof.
  intros Hk. unfold positions. rewrite seqZ_app by lia. by rewrite fmap_app, Z.add_0_l.
Qed.

Lemma set_hashes_spec v size n g :
  vec_of v size -> 0 <= n -> hashes_in n size g ->
  exists v', set_hashes v n g = Ok v' /\ vec_of v' size /\
    forall j, vbit v' j = vbit v j || bool_decide (j ∈ positions n g).
Proof.
  intros Hv Hn Hg. unfold set_hashes.
  destruct (for_range_inv (fun k v' => vec_of v' size /\
      forall j, vbit v' j = vbit v j || bool_decide (j ∈ positions k g))
    0 n (fun i v => idx ← g i; ref_assign v idx 1) v) as (v' & -> & Hv' & Hb); [done| | |by exists v'].
  - split; [done|]. intros j. rewrite bool_decide_eq_false_2, orb_false_r; [done|]. apply not_elem_of_nil.
  - intros i v1 Hi [H1 Hb]. destruct (Hg i Hi) as (p & Ep & Hp). rewrite Ep, bind_of_ok.
    destruct (vec_mark_spec v1 size p H1 Hp) as (v2 & -> & H2 & Hb2). exists v2. split_and!; [done..|].
    intros j. rewrite Hb2, Hb, <- orb_assoc, positions_snoc by lia. f_equal.
    rewrite Ep. cbn [from_ok]. rewrite (bool_decide_ext (j ∈ positions i g ++ [p]) (j ∈ positions i g \/ j = p)) by (by rewrite elem_of_app, list_elem_of_singleton).
    by rewrite bool_decide_or.
Qed.

Lemma test_hashes_spec v size n g :
  vec_of v size -> 0 <= n -> hashes_in n size g ->
  test_hashes v n g = Ok (forallb (vbit v) (positions n g)).
Proof.
  intros Hv Hn Hg. unfold test_hashes.
  destruct (for_range_inv (fun k res => res = forallb (vbit v) (positions k g))
    0 n (fun i res => idx ← g i; if (res : bool) then x ← ref v idx; mret (negb (x =? 0)) else mret false) true)
    as (r & -> & ->); [done|done| |done].
  intros i res Hi ->. destruct (Hg i Hi) as (p & Ep & Hp). rewrite Ep, bind_of_ok, positions_snoc, forallb_app by lia.
  rewrite Ep. cbn [from_ok forallb]. rewrite andb_true_r.
  destruct (forallb (vbit v) (positions i g)); [|by eexists].
  destruct (vec_read_spec v size p Hv Hp) as (x & -> & -> & _). by eexists.
Qed.

(** A hash value below the size of the filter, or reduced to it. *)
Lemma spread_range par hashes size y i :
  0 < hashes -> 0 < Z.quot size hashes -> 0 < size -> 0 <= y -> 0 <= i < hashes ->
  0 <= spread par (Z.quot size hashes) size y i < size.
Proof.
  intros Hh Hq Hs Hy Hi. unfold spread. destruct par.
  - pose proof (Z.rem_bound_pos y (Z.quot size hashes) Hy Hq).
    pose proof (Z.mul_quot_le size hashes ltac:(lia) ltac:(lia)). nia.
  - by apply Z.rem_bound_pos.
Qed.

(** ** One kind at a time *)

Lemma int_field_val addr lo n :
  is_address addr -> 0 <= lo -> 0 < n < 32 -> lo + n <= 63 ->
  int_field addr lo (lo + n - 1) = Ok ((addr / 2 ^ lo) mod 2 ^ n) /\ 0 <= (addr / 2 ^ lo) mod 2 ^ n < 2 ^ n.
Proof.
  intros Ha Hlo Hn Hb. split; [apply bits_field; (done || lia)|].
  apply Z.mod_pos_bound, Z.pow_pos_nonneg; lia.
Qed.

Lemma lxor_range n x y : 0 <= n -> 0 <= x < 2 ^ n -> 0 <= y < 2 ^ n -> 0 <= Z.lxor x y < 2 ^ n.
Proof.
  intros Hn Hx Hy. assert (Z.lxor x y = Z.lxor x y mod 2 ^ n) as ->; [|apply Z.mod_pos_bound; lia].
  apply Z.bits_inj'. intros i Hi. rewrite <- Z.land_ones, Z.land_spec, Z.lxor_spec by lia.
  destruct (Z.lt_ge_cases i n).
  - by rewrite Z.ones_spec_low, andb_true_r by lia.
  - by rewrite Z.ones_spec_high, (testbit_above x n i), (testbit_above y n i) by lia.
Qed.

(** A size and the number of bits that index it. *)
Definition sized (size bits : Z) : Prop := bits = Z.log2 size /\ 2 <= size < 2 ^ 31.
Lemma sized_bits size bits : sized size bits -> 0 < bits < 31 /\ 2 ^ bits <= size.
Proof.
  intros [-> Hs]. split; [|apply Z.log2_spec; lia]. split.
  - apply Z.lt_le_trans with (Z.log2 2); [done|]. apply Z.log2_le_mono. lia.
  - apply Z.log2_lt_pow2; lia.
Qed.

Record nc_wf (cfg : RubyConfig) (f : NonCountingBloomFilter) : Prop := {
  nw_vec : vec_of (nc_filter f) (nc_filter_size f);
  nw_size : sized (nc_filter_size f) (nc_filter_size_bits f);
  nw_low : 0 <= dataBlockBits cfg + nc_offset f;
  nw_fits : dataBlockBits cfg + nc_offset f + nc_filter_size_bits f <= 63;
}.

Lemma nc_index cfg f a :
  nc_wf cfg f -> is_address a -> exists i, nc_get_index cfg f a = Ok i /\ 0 <= i < nc_filter_size f.
Proof.
  intros [Hv Hs Hl Hf] Ha. destruct (sized_bits _ _ Hs) as [Hb Hle].
  destruct (int_field_val a (dataBlockBits cfg + nc_offset f) (nc_filter_size_bits f)) as [E Hr]; [done|lia|lia|lia|].
  eexists. split; [exact E|]. lia.
Qed.

#[export] Instance NonCounting_laws : BloomLaws NonCountingBloomFilter.
Proof.
  refine {| bl_wf := nc_wf; bl_bit f := vbit (nc_filter f);
            bl_indices cfg f a := [from_ok (nc_get_index cfg f a)] |}.
  - intros cfg f [Hv Hs Hl Hf]. cbn [bf_clear NonCounting_filter]. unfold nc_clear.
    destruct (vec_clear_spec _ _ Hv) as (v & -> & Hv' & Hz). rewrite bind_of_ok.
    exists (nc_with f v). split; [done|]. split; [by split|]. split; [done|]. intros i. by apply vbit_zero.
  - intros cfg f a Hf Ha. destruct (nc_index cfg f a Hf Ha) as (i & Ei & Hi).
    cbn [bf_set NonCounting_filter]. unfold nc_write. rewrite Ei, bind_of_ok.
    destruct (vec_mark_spec _ _ i (nw_vec _ _ Hf) Hi) as (v & -> & Hv & Hb). rewrite bind_of_ok.
    exists (nc_with f v). split; [done|]. split; [destruct Hf; by split|]. split; [done|].
    intros j. cbn [nc_with nc_filter from_ok]. rewrite Hb. f_equal. apply bool_decide_ext.
    by rewrite list_elem_of_singleton.
  - intros cfg f a Hf Ha. destruct (nc_index cfg f a Hf Ha) as (i & Ei & Hi).
    cbn [bf_isSet NonCounting_filter]. unfold nc_isSet. rewrite Ei, bind_of_ok.
    destruct (vec_read_spec _ _ i (nw_vec _ _ Hf) Hi) as (x & -> & Hb & _). rewrite bind_of_ok.
    exists f. cbn [from_ok forallb]. rewrite Hb, andb_true_r. done.
Defined.

Record blk_wf (cfg : RubyConfig) (f : BlockBloomFilter) : Prop := {
  kw_vec : vec_of (blk_filter f) (blk_filter_size f);
  kw_size : sized (blk_filter_size f) (blk_filter_size_bits f);
  kw_block : 0 < dataBlockBits cfg <= blk_filter_size_bits f;
  kw_fits : 2 * dataBlockBits cfg + 5 + blk_filter_size_bits f <= 63;
}.

Lemma blk_index cfg f a :
  blk_wf cfg f -> is_address a -> exists i, blk_get_index cfg f a = Ok i /\ 0 <= i < blk_filter_size f.
Proof.
  intros [Hv Hs Hk Hf] Ha. destruct (sized_bits _ _ Hs) as [Hb Hle]. unfold blk_get_index.
  rewrite (bitSelect_val a (dataBlockBits cfg)), bind_of_ok by (done || lia).
  rewrite bitSelect_val, bind_of_ok by (done || lia).
  replace (2 * dataBlockBits cfg - 1 - dataBlockBits cfg + 1) with (dataBlockBits cfg) by lia.
  match goal with |- context [(a / _) mod 2 ^ (?e - ?l + 1)] =>
    replace (e - l + 1) with (blk_filter_size_bits f) by lia end.
  set (x := (a / 2 ^ dataBlockBits cfg) mod 2 ^ dataBlockBits cfg). set (y := (a / _) mod 2 ^ blk_filter_size_bits f).
  assert (0 <= x < 2 ^ dataBlockBits cfg) by (apply Z.mod_pos_bound, Z.pow_pos_nonneg; lia).
  assert (0 <= y < 2 ^ blk_filter_size_bits f) by (apply Z.mod_pos_bound, Z.pow_pos_nonneg; lia).
  assert (2 ^ dataBlockBits cfg <= 2 ^ blk_filter_size_bits f) by (apply Z.pow_le_mono_r; lia).
  pose proof (lxor_range (blk_filter_size_bits f) x y ltac:(lia) ltac:(lia) ltac:(lia)) as Hx.
  destruct Hs as [_ Hs]. rewrite swrap_small by lia.
  rewrite cassert_true, bind_of_ok by (apply Z.ltb_lt; lia). eexists. split; [done|]. lia.
Qed.

#[export] Instance Block_laws : BloomLaws BlockBloomFilter.
Proof.
  refine {| bl_wf := blk_wf; bl_bit f := vbit (blk_filter f);
            bl_indices cfg f a := [from_ok (blk_get_index cfg f a)] |}.
  - intros cfg f [Hv Hs Hl Hf]. cbn [bf_clear Block_filter]. unfold blk_clear.
    destruct (vec_clear_spec _ _ Hv) as (v & -> & Hv' & Hz). rewrite bind_of_ok.
    exists (blk_with f v). split; [done|]. split; [by split|]. split; [done|]. intros i. by apply vbit_zero.
  - intros cfg f a Hf Ha. destruct (blk_index cfg f a Hf Ha) as (i & Ei & Hi).
    cbn [bf_set Block_filter]. unfold blk_write. rewrite Ei, bind_of_ok.
    destruct (vec_mark_spec _ _ i (kw_vec _ _ Hf) Hi) as (v & -> & Hv & Hb). rewrite bind_of_ok.
    exists (blk_with f v). split; [done|]. split; [destruct Hf; by split|]. split; [done|].
    intros j. cbn [blk_with blk_filter from_ok]. rewrite Hb. f_equal. apply bool_decide_ext.
    by rewrite list_elem_of_singleton.
  - intros cfg f a Hf Ha. destruct (blk_index cfg f a Hf Ha) as (i & Ei & Hi).
    cbn [bf_isSet Block_filter]. unfold blk_isSet. rewrite Ei, bind_of_ok.
    destruct (vec_read_spec _ _ i (kw_vec _ _ Hf) Hi) as (x & -> & Hb & _). rewrite bind_of_ok.
    exists f. cbn [from_ok forallb]. rewrite Hb, andb_true_r. done.
Defined.

(** *** Multigrain: the page filter must have the positions of the block filter *)

Record mg_wf (cfg : RubyConfig) (f : MultiGrainBloomFilter) : Prop := {
  gw_vec : vec_of (mg_filter f) (mg_filter_size f);
  gw_page : vec_of (mg_page_filter f) (mg_page_filter_size f);
  gw_size : sized (mg_filter_size f) (mg_filter_size_bits f);
  gw_page_size : sized (mg_page_filter_size f) (mg_page_filter_size_bits f);
  gw_room : mg_filter_size f <= mg_page_filter_size f;
  gw_block : 0 <= dataBlockBits cfg;
  gw_fits : dataBlockBits cfg + mg_filter_size_bits f + mg_page_filter_size_bits f <= 63;
}.

Lemma mg_indices_ok cfg f a :
  mg_wf cfg f -> is_address a ->
  exists i j, get_block_index cfg f a = Ok i /\ get_page_index cfg f a = Ok j /\
    0 <= i < mg_filter_size f /\ 0 <= j < mg_page_filter_size f.
Proof.
  intros [Hv Hp Hs Hps Hr Hk Hf] Ha. destruct (sized_bits _ _ Hs) as [Hb Hle].
  destruct (sized_bits _ _ Hps) as [Hpb Hple].
  destruct (int_field_val a (dataBlockBits cfg) (mg_filter_size_bits f)) as [E1 H1]; [done|lia..|].
  destruct (int_field_val a (dataBlockBits cfg + mg_filter_size_bits f - 1) (mg_page_filter_size_bits f))
    as [E2 H2]; [done|lia..|].
  eexists _, _. split; [exact E1|]. split; [exact E2|]. lia.
Qed.

(** The positions of the page filter follow those of the block filter. *)
Definition mg_bit (f : MultiGrainBloomFilter) (k : Z) : bool :=
  if k <? mg_filter_size f then vbit (mg_filter f) k else vbit (mg_page_filter f) (k - mg_filter_size f).

#[export] Instance MultiGrain_laws : BloomLaws MultiGrainBloomFilter.
Proof.
  refine {| bl_wf := mg_wf; bl_bit := mg_bit;
            bl_indices cfg f a := let i := from_ok (get_block_index cfg f a) in [i; mg_filter_size f + i] |}.
  - intros cfg f Hf. cbn [bf_clear MultiGrain_filter]. unfold mg_clear.
    destruct (vec_clear_spec _ _ (gw_vec _ _ Hf)) as (v & -> & Hv' & Hz). rewrite bind_of_ok.
    destruct (vec_clear_spec _ _ (gw_page _ _ Hf)) as (p & -> & Hp' & Hzp). rewrite bind_of_ok.
    exists (mg_with f v p). split; [done|]. split; [destruct Hf; by split|]. split; [done|]. intros i.
    unfold mg_bit. cbn [mg_with mg_filter mg_page_filter mg_filter_size].
    destruct (i <? mg_filter_size f); by apply vbit_zero.
  - intros cfg f a Hf Ha. destruct (mg_indices_ok cfg f a Hf Ha) as (i & j & Ei & Ej & Hi & Hj).
    cbn [bf_set MultiGrain_filter]. unfold mg_set. pose proof (gw_room _ _ Hf) as Hroom.
    rewrite Ei, bind_of_ok, Ej, bind_of_ok, !cassert_true, !bind_of_ok by (apply Z.ltb_lt; lia).
    destruct (vec_mark_spec _ _ i (gw_vec _ _ Hf) Hi) as (v & -> & Hv & Hb). rewrite bind_of_ok.
    destruct (vec_mark_spec _ _ i (gw_page _ _ Hf) ltac:(lia)) as (p & -> & Hp & Hbp). rewrite bind_of_ok.
    exists (mg_with f v p). split; [done|]. split; [destruct Hf; by split|]. split; [done|].
    intros k. unfold mg_bit. cbn [mg_with mg_filter mg_page_filter mg_filter_size from_ok].
    rewrite Hb, Hbp. destruct (Z.ltb_spec k (mg_filter_size f)); f_equal; apply bool_decide_ext;
      rewrite list_elem_of_In; cbn [In]; lia.
  - intros cfg f a Hf Ha. destruct (mg_indices_ok cfg f a Hf Ha) as (i & j & Ei & Ej & Hi & Hj).
    cbn [bf_isSet MultiGrain_filter]. unfold mg_isSet. pose proof (gw_room _ _ Hf) as Hroom.
    rewrite Ei, bind_of_ok, Ej, bind_of_ok, !cassert_true, !bind_of_ok by (apply Z.ltb_lt; lia).
    destruct (vec_read_spec _ _ i (gw_vec _ _ Hf) Hi) as (x & -> & Hb & _). rewrite bind_of_ok.
    destruct (vec_read_spec _ _ i (gw_page _ _ Hf) ltac:(lia)) as (y & -> & Hbp & _).
    exists f. split; [|done]. cbn [from_ok forallb]. unfold mg_bit.
    rewrite (proj2 (Z.ltb_lt i _)), (proj2 (Z.ltb_ge (mg_filter_size f + i) _)) by lia.
    replace (mg_filter_size f + i - mg_filter_size f) with i by lia. rewrite Hb, Hbp, andb_true_r.
    by destruct (negb (x =? 0)).
Defined.

(** *** Bulk: the scratch filter is zero between calls *)

Record bulk_wf (cfg : RubyConfig) (f : BulkBloomFilter) : Prop := {
  uw_vec : vec_of (bulk_filter f) (bulk_filter_size f);
  uw_temp : vec_of (bulk_temp_filter f) (bulk_filter_size f);
  uw_zero : Forall (eq 0) (contents (bulk_temp_filter f));
  uw_size : sized (bulk_filter_size f) (bulk_filter_size_bits f);
  uw_sector : bulk_sector_bits f = bulk_filter_size_bits f - 1 /\ 0 < bulk_sector_bits f;
  uw_block : 0 <= dataBlockBits cfg;
  uw_fits : dataBlockBits cfg + 2 * bulk_sector_bits f <= 63;
}.

Lemma bulk_indices_ok cfg f a :
  bulk_wf cfg f -> is_address a ->
  exists c0 c1, bulk_c0 cfg f a = Ok c0 /\ bulk_c1 cfg f a = Ok c1 /\
    0 <= c0 < Z.quot (bulk_filter_size f) 2 /\ 0 <= c1 < Z.quot (bulk_filter_size f) 2 /\
    2 * Z.quot (bulk_filter_size f) 2 <= bulk_filter_size f.
Proof.
  intros [_ _ _ Hs [Hsec Hpos] Hk Hf] Ha. destruct (sized_bits _ _ Hs) as [Hb Hle].
  destruct (int_field_val a (dataBlockBits cfg) (bulk_sector_bits f)) as [E1 H1]; [done|lia..|].
  destruct (int_field_val a (dataBlockBits cfg + bulk_sector_bits f) (bulk_sector_bits f)) as [E2 H2]; [done|lia..|].
  assert (Hp : 2 ^ bulk_filter_size_bits f = 2 * 2 ^ bulk_sector_bits f)
    by (rewrite <- Z.pow_succ_r by lia; f_equal; lia).
  destruct Hs as [_ Hs].
  assert (2 ^ bulk_sector_bits f <= Z.quot (bulk_filter_size f) 2)
    by (rewrite Z.quot_div_nonneg by lia; apply Z.div_le_lower_bound; lia).
  pose proof (Z.mul_quot_le (bulk_filter_size f) 2 ltac:(lia) ltac:(lia)).
  eexists _, _. split; [exact E1|]. split.
  - unfold bulk_c1. rewrite <- E2. f_equal. lia.
  - lia.
Qed.

(** Intersecting a scratch filter that has at most the position [p] of [lo, hi)
    marked: the answer is the bit of the filter at [p]. *)
Lemma intersect_spec filter temp size lo hi p :
  vec_of filter size -> vec_of temp size -> 0 <= lo -> hi <= size -> lo <= p < hi ->
  (forall i, lo <= i < hi -> vbit temp i = bool_decide (i = p)) ->
  exists temp', intersect filter lo hi temp = Ok (temp', vbit filter p) /\ vec_of temp' size /\
    (forall i, zread (contents temp') i =
       if (lo <=? i) && (i <? hi) then Some (Z.b2z (bool_decide (i = p) && vbit filter p))
       else zread (contents temp) i).
Proof.
  intros Hf Ht Hlo Hhi Hp Hone. unfold intersect.
  match goal with |- exists _, for_range lo hi ?body _ = _ /\ _ =>
    destruct (for_range_inv (fun k st => vec_of (fst st) size /\
      snd st = bool_decide (p < k) && vbit filter p /\
      forall i, zread (contents (fst st)) i =
        if (lo <=? i) && (i <? k) then Some (Z.b2z (bool_decide (i = p) && vbit filter p))
        else zread (contents temp) i) lo hi body (temp, false))
    as ([temp' any] & -> & Ht' & Hany & Hr) end.
  - lia.
  - cbn [fst snd]. split_and!; [done|by rewrite bool_decide_eq_false_2 by lia|].
    intros i. destruct (Z.leb_spec lo i), (Z.ltb_spec i lo); (done || lia).
  - intros k [t any] Hk (H1 & Hany & Hr). cbn [fst snd] in *.
    destruct (vec_read_spec t size k H1 ltac:(lia)) as (x & -> & _ & Hx). rewrite bind_of_ok.
    specialize (Hone k Hk). unfold vbit in Hone. rewrite Hr in Hx.
    rewrite (proj2 (Z.ltb_ge k k)), andb_false_r in Hx by lia. rewrite Hx in Hone. rewrite Hone.
    assert ((if bool_decide (k = p) then ref filter k else mret 0) =
      Ok (if bool_decide (k = p) then from_ok (ref filter k) else 0) /\
      negb ((if bool_decide (k = p) then from_ok (ref filter k) else 0) =? 0) =
        bool_decide (k = p) && vbit filter p) as [-> Hb].
    { clear Hone. destruct (bool_decide_reflect (k = p)) as [Hkp|Hkp]; [|split; reflexivity]. subst k.
      destruct (vec_read_spec filter size p Hf ltac:(lia)) as (y & -> & -> & _). done. }
    rewrite bind_of_ok. cbv zeta. rewrite Hb.
    destruct (vec_write_spec t size k (Z.b2z (bool_decide (k = p) && vbit filter p)) H1 ltac:(lia))
      as (t' & -> & H1' & Hr' & _). rewrite bind_of_ok. eexists. split; [done|]. cbn [fst snd].
    split_and!; [done| |].
    + rewrite Hany. destruct (vbit filter p); rewrite ?andb_false_r, ?andb_true_r; [|done].
      repeat case_bool_decide; simpl; (done || lia).
    + intros i. rewrite Hr'. destruct (Z.eqb_spec k i) as [<-|Hne].
      * by rewrite (proj2 (Z.leb_le lo k)), (proj2 (Z.ltb_lt k _)) by lia.
      * rewrite Hr. destruct (Z.leb_spec lo i), (Z.ltb_spec i k), (Z.ltb_spec i (k + 1)); (done || lia).
  - cbn [fst snd] in *. exists temp'. rewrite Hany, bool_decide_eq_true_2 by lia. split; [done|].
    split; [done|]. intros i. apply Hr.
Qed.

Lemma all_zero v : (forall i x, zread (contents v) i = Some x -> x = 0) -> Forall (eq 0) (contents v).
Proof.
  intros H. apply Forall_forall. intros x Hx. apply elem_of_zread in Hx as (i & _ & Hx). symmetry. eauto.
Qed.

(** [isSet] leaves its scratch filter zero on each of its three ways out. *)
Lemma bulk_isSet_spec cfg f a :
  bulk_wf cfg f -> is_address a ->
  exists t, bulk_isSet cfg f a =
      Ok (vbit (bulk_filter f) (from_ok (bulk_c1 cfg f a)) &&
          vbit (bulk_filter f) (from_ok (bulk_c0 cfg f a) + Z.quot (bulk_filter_size f) 2),
          bulk_with f (bulk_filter f) t) /\
    bulk_wf cfg (bulk_with f (bulk_filter f) t).
Proof.
  intros Hf Ha. destruct (bulk_indices_ok cfg f a Hf Ha) as (c0 & c1 & E0 & E1 & H0 & H1 & Hh).
  unfold bulk_isSet. rewrite E0, bind_of_ok, E1, bind_of_ok. cbn [from_ok].
  set (half := Z.quot (bulk_filter_size f) 2) in *. pose proof (uw_vec _ _ Hf) as Hv.
  destruct (vec_mark_spec _ _ (c0 + half) (uw_temp _ _ Hf) ltac:(lia)) as (t0 & Et0 & Ht0 & Hb0).
  destruct (vec_mark_spec _ _ c1 Ht0 ltac:(lia)) as (t1 & Et1 & Ht1 & Hb1). cbv zeta.
  rewrite Et0, bind_of_ok, Et1, bind_of_ok.
  assert (Hbits : forall i, vbit t1 i = bool_decide (i = c0 + half) || bool_decide (i = c1))
    by (intros i; rewrite Hb1, Hb0, vbit_zero by apply Hf; done).
  (* writing zero at both positions finishes with a zero scratch filter *)
  assert (Hfinish : forall t r, vec_of t (bulk_filter_size f) ->
    (forall i x, zread (contents t) i = Some x -> i <> c0 + half -> i <> c1 -> x = 0) ->
    exists t', (x ← ref_assign t (c0 + half) 0; t' ← ref_assign x c1 0;
        mret ((r : bool), bulk_with f (bulk_filter f) t')) = Ok (r, bulk_with f (bulk_filter f) t') /\
      bulk_wf cfg (bulk_with f (bulk_filter f) t')).
  { intros t r Ht Hz. destruct (vec_write_spec t _ (c0 + half) 0 Ht ltac:(lia)) as (t2 & -> & Ht2 & Hr2 & _).
    rewrite bind_of_ok. destruct (vec_write_spec t2 _ c1 0 Ht2 ltac:(lia)) as (t3 & -> & Ht3 & Hr3 & _).
    rewrite bind_of_ok. exists t3. split; [done|]. destruct Hf. split; cbn [bulk_with bulk_filter bulk_temp_filter
      bulk_filter_size bulk_filter_size_bits bulk_sector_bits]; try done.
    apply all_zero. intros i x. rewrite Hr3, Hr2. destruct (Z.eqb_spec c1 i); [by intros [= <-]|].
    destruct (Z.eqb_spec (c0 + half) i); [by intros [= <-]|]. intros Hx. by apply (Hz i x Hx). }
  assert (Hrest : forall i x, zread (contents t1) i = Some x -> i <> c0 + half -> i <> c1 -> x = 0).
  { intros i x Hx Hn0 Hn1. specialize (Hbits i). unfold vbit in Hbits.
    rewrite Hx, !bool_decide_eq_false_2 in Hbits by done. destruct (Z.eqb_spec x 0); done. }
  destruct (intersect_spec (bulk_filter f) t1 _ 0 half c1 Hv Ht1) as (t2 & Ei & Ht2 & Hr2); [lia|lia|lia| |].
  { intros i Hi. rewrite Hbits, (bool_decide_eq_false_2 (i = c0 + half)) by lia. done. }
  rewrite Ei, bind_of_ok.
  assert (Hz2 : forall i x, zread (contents t2) i = Some x -> i <> c0 + half -> i <> c1 -> x = 0).
  { intros i x Hx Hn0 Hn1. rewrite Hr2 in Hx. destruct ((0 <=? i) && (i <? half)); [|by apply (Hrest i)].
    rewrite bool_decide_eq_false_2 in Hx by done. by injection Hx. }
  destruct (vbit (bulk_filter f) c1) eqn:Hc1; cbn [negb andb]; [|by apply Hfinish].
  destruct (intersect_spec (bulk_filter f) t2 _ half (bulk_filter_size f) (c0 + half) Hv Ht2)
    as (t3 & Ej & Ht3 & Hr3); [lia|lia|lia| |].
  { intros i Hi. specialize (Hbits i). unfold vbit in *. rewrite Hr2, (proj2 (Z.ltb_ge i half)), andb_false_r by lia.
    rewrite Hbits, (bool_decide_eq_false_2 (i = c1)), orb_false_r by lia. done. }
  rewrite Ej, bind_of_ok.
  assert (Hz3 : forall i x, zread (contents t3) i = Some x -> i <> c0 + half -> i <> c1 -> x = 0).
  { intros i x Hx Hn0 Hn1. rewrite Hr3 in Hx. destruct ((half <=? i) && (i <? bulk_filter_size f)); [|by apply (Hz2 i)].
    rewrite bool_decide_eq_false_2 in Hx by done. by injection Hx. }
  destruct (vbit (bulk_filter f) (c0 + half)); cbn [negb]; by apply Hfinish.
Qed.

#[export] Instance Bulk_laws : BloomLaws BulkBloomFilter.
Proof.
  refine {| bl_wf := bulk_wf; bl_bit f := vbit (bulk_filter f);
            bl_indices cfg f a := [from_ok (bulk_c1 cfg f a);
              from_ok (bulk_c0 cfg f a) + Z.quot (bulk_filter_size f) 2] |}.
  - intros cfg f Hf. cbn [bf_clear Bulk_filter]. unfold bulk_clear.
    destruct (vec_clear_spec _ _ (uw_vec _ _ Hf)) as (v & -> & Hv' & Hz). rewrite bind_of_ok.
    eexists. split; [done|]. split; [destruct Hf; by split|]. split; [done|]. intros i. by apply vbit_zero.
  - intros cfg f a Hf Ha. destruct (bulk_indices_ok cfg f a Hf Ha) as (c0 & c1 & E0 & E1 & H0 & H1 & Hh).
    cbn [bf_set Bulk_filter]. unfold bulk_set. rewrite E0, bind_of_ok, E1, bind_of_ok.
    destruct (vec_mark_spec _ _ (c0 + Z.quot (bulk_filter_size f) 2) (uw_vec _ _ Hf) ltac:(lia)) as (v & -> & Hv & Hb).
    rewrite bind_of_ok. destruct (vec_mark_spec _ _ c1 Hv ltac:(lia)) as (v' & -> & Hv' & Hb'). rewrite bind_of_ok.
    eexists. split; [done|]. split; [destruct Hf; by split|]. split; [done|].
    intros j. cbn [bulk_with bulk_filter from_ok]. rewrite Hb', Hb, <- orb_assoc. f_equal.
    rewrite <- bool_decide_or. apply bool_decide_ext. rewrite list_elem_of_In. cbn [In]. lia.
  - intros cfg f a Hf Ha. cbn [bf_isSet Bulk_filter].
    destruct (bulk_isSet_spec cfg f a Hf Ha) as (t & -> & Hw). eexists. split; [|done].
    cbn [forallb]. by rewrite andb_true_r.
Defined.

(** *** Bit selection *)

Lemma shl64_one n : 0 <= n < 64 -> shl64 1 n = Ok (2 ^ n).
Proof.
  intros Hn. unfold shl64. rewrite (proj2 (Z.leb_le 0 n)), (proj2 (Z.ltb_lt n 64)) by lia. cbn [andb].
  rewrite Z.shiftl_mul_pow2, Z.mul_1_l by lia. f_equal. apply uwrap_small.
  split; [apply Z.pow_nonneg; lia|apply Z.pow_lt_mono_r; lia].
Qed.

Lemma hash_bitsel_spec value index jump bits :
  0 <= bits < 31 -> 0 <= index < jump -> jump < 2 ^ 25 ->
  exists y, hash_bitsel value index jump 30 bits = Ok y /\ 0 <= y < 2 ^ bits.
Proof.
  intros Hb Hi Hj. unfold hash_bitsel.
  match goal with |- exists _, for_range 0 bits ?body 0 = _ /\ _ =>
    destruct (for_range_inv (fun k r => 0 <= r < 2 ^ k) 0 bits body 0) as (y & -> & Hy) end; [lia..| |by exists y].
  intros k r Hk Hr.
  assert (0 <= Z.rem (s32 (index + jump * k)) 30 < 30) as Hbit
    by (rewrite swrap_small by nia; apply Z.rem_bound_pos; nia).
  rewrite (shl64_one (Z.rem _ _)), bind_of_ok by lia.
  assert (2 ^ (k + 1) = 2 * 2 ^ k) as Hp by (rewrite <- Z.pow_succ_r by lia; done).
  match goal with |- context [if negb ?b then _ else _] => destruct (negb b) end;
    [|eexists; split; [done|lia]].
  rewrite shl64_one, bind_of_ok by lia.
  assert (2 ^ k <= 2 ^ 30) by (apply Z.pow_le_mono_r; lia).
  rewrite uwrap_small, swrap_small by lia. eexists. split; [done|]. lia.
Qed.

Lemma line_number cfg a :
  configured cfg -> is_address a -> exists l, getLineAddress cfg a = Ok l.
Proof.
  intros Hc Ha. destruct (cf_block _ Hc) as [_ Hb]. unfold getLineAddress, dataBlockBits, ADDRESS_WIDTH.
  eexists. apply bitSelect_val; (done || lia).
Qed.

Record mbs_wf (cfg : RubyConfig) (f : MultiBitSelBloomFilter) : Prop := {
  sw_vec : vec_of (mbs_filter f) (mbs_filter_size f);
  sw_size : sized (mbs_filter_size f) (mbs_filter_size_bits f);
  sw_hashes : 0 < mbs_num_hashes f < 2 ^ 25;
  sw_par : mbs_par_filter_size f = Z.quot (mbs_filter_size f) (mbs_num_hashes f) /\ 0 < mbs_par_filter_size f;
  sw_skip : 0 <= mbs_skip_bits f < 64;
  sw_cfg : configured cfg;
}.

Lemma mbs_hashes cfg f a :
  mbs_wf cfg f -> is_address a -> hashes_in (mbs_num_hashes f) (mbs_filter_size f) (mbs_get_index cfg f a).
Proof.
  intros [_ Hs Hh [Ep Hp] Hk Hc] Ha i Hi. destruct (sized_bits _ _ Hs) as [Hb _]. destruct Hs as [_ Hs].
  unfold mbs_get_index. destruct (line_number cfg a Hc Ha) as [l ->]. rewrite bind_of_ok, shr64_val, bind_of_ok by lia.
  destruct (hash_bitsel_spec (l / 2 ^ mbs_skip_bits f) i (mbs_num_hashes f) (mbs_filter_size_bits f))
    as (y & -> & Hy); [lia..|]. rewrite bind_of_ok. eexists. split; [done|].
  rewrite Ep in *. apply spread_range; lia.
Qed.

#[export] Instance MultiBitSel_laws : BloomLaws MultiBitSelBloomFilter.
Proof.
  refine {| bl_wf := mbs_wf; bl_bit f := vbit (mbs_filter f);
            bl_indices cfg f a := positions (mbs_num_hashes f) (mbs_get_index cfg f a) |}.
  - intros cfg f Hf. cbn [bf_clear MultiBitSel_filter]. unfold mbs_clear.
    destruct (vec_clear_spec _ _ (sw_vec _ _ Hf)) as (v & -> & Hv' & Hz). rewrite bind_of_ok.
    eexists. split; [done|]. split; [destruct Hf; by split|]. split; [done|]. intros i. by apply vbit_zero.
  - intros cfg f a Hf Ha. cbn [bf_set MultiBitSel_filter]. unfold mbs_set.
    destruct (set_hashes_spec _ _ (mbs_num_hashes f) (mbs_get_index cfg f a) (sw_vec _ _ Hf)) as (v & -> & Hv & Hb);
      [pose proof (sw_hashes _ _ Hf); lia|by apply mbs_hashes|].
    rewrite bind_of_ok. eexists. split; [done|]. split; [destruct Hf; by split|]. split; [done|]. exact Hb.
  - intros cfg f a Hf Ha. cbn [bf_isSet MultiBitSel_filter]. unfold mbs_isSet.
    rewrite (test_hashes_spec _ _ (mbs_num_hashes f) (mbs_get_index cfg f a) (sw_vec _ _ Hf));
      [|pose proof (sw_hashes _ _ Hf); lia|by apply mbs_hashes].
    rewrite bind_of_ok. by exists f.
Defined.

(** *** H3 *)

Lemma H3_entry i j :
  0 <= i < 64 -> 0 <= j < 16 ->
  exists row x, aread H3 i = Ok row /\ aread row j = Ok x /\ 0 <= x < 2 ^ 30.
Proof.
  intros Hi Hj. destruct H3_shape as [Hs Hlen].
  destruct (aread_in H3 i) as (row & Hr & Er); [unfold zlen; rewrite Hlen; lia|].
  rewrite forallb_forall in Hs. specialize (Hs row (proj1 (list_elem_of_In _ _) (zread_elem_of _ _ _ Hr))).
  apply andb_true_iff in Hs as [Hl Hx]. apply Nat.eqb_eq in Hl.
  destruct (aread_in row j) as (x & Hxr & Ex); [unfold zlen; rewrite Hl; lia|].
  exists row, x. split; [done|]. split; [done|]. rewrite forallb_forall in Hx.
  specialize (Hx x (proj1 (list_elem_of_In _ _) (zread_elem_of _ _ _ Hxr))). to_prop. lia.
Qed.

Lemma land_1_bit x : negb (Z.land x 1 =? 0) = Z.testbit x 0.
Proof.
  change 1 with (Z.ones 1) at 1. rewrite Z.land_ones, Z.bit0_odd, Zmod_odd by lia.
  by destruct (Z.odd x).
Qed.

Lemma H3_round_spec index i :
  0 <= index < 16 -> 0 <= i < 64 ->
  exists x, 0 <= x < 2 ^ 30 /\
    forall val result, H3_round index i (val, result) =
      Ok (Z.shiftr val 1, if Z.testbit val 0 then Z.lxor result x else result).
Proof.
  intros Hj Hi. destruct (H3_entry i index Hi Hj) as (row & x & Er & Ex & Hx). exists x. split; [done|].
  intros v r. unfold H3_round. rewrite land_1_bit. destruct (Z.testbit v 0); [|done].
  by rewrite Er, bind_of_ok, Ex.
Qed.

Lemma hash_H3_spec value index :
  0 <= index < 16 -> exists y, hash_H3 value index = Ok y /\ 0 <= y < 2 ^ 30.
Proof.
  intros Hj. unfold hash_H3.
  destruct (for_range_inv (fun _ st => 0 <= snd st < 2 ^ 30) 0 64 (H3_round index) (value, 0))
    as (st & E & Hy); [done|simpl; lia| |].
  - intros i [v r] Hi Hr. cbn [snd] in Hr. destruct (H3_round_spec index i Hj Hi) as (x & Hx & ->).
    eexists. split; [done|]. cbn [snd]. destruct (Z.testbit v 0); [by apply lxor_range|done].
  - rewrite E, bind_of_ok. by exists (snd st).
Qed.

(** The rounds on two values and on their exclusive or run in step. *)
Lemma H3_rounds_linear index n i x y rx ry :
  0 <= index < 16 -> 0 <= i -> i + Z.of_nat n <= 64 ->
  exists x' y' hx hy, for_up n i (H3_round index) (x, rx) = Ok (x', hx) /\
    for_up n i (H3_round index) (y, ry) = Ok (y', hy) /\
    for_up n i (H3_round index) (Z.lxor x y, Z.lxor rx ry) = Ok (Z.lxor x' y', Z.lxor hx hy).
Proof.
  intros Hj. revert i x y rx ry. induction n as [|n IH]; intros i x y rx ry Hi Hn.
  - by exists x, y, rx, ry.
  - destruct (H3_round_spec index i Hj ltac:(lia)) as (e & _ & He). cbn [for_up].
    rewrite !He, !bind_of_ok, Z.lxor_spec, Z.shiftr_lxor.
    replace (if xorb _ _ then _ else _) with
      (Z.lxor (if Z.testbit x 0 then Z.lxor rx e else rx) (if Z.testbit y 0 then Z.lxor ry e else ry)).
    + apply IH; lia.
    + apply Z.bits_inj'. intros k Hk. destruct (Z.testbit x 0), (Z.testbit y 0); cbn [xorb];
        rewrite ?Z.lxor_spec; destruct (Z.testbit rx k), (Z.testbit ry k), (Z.testbit e k); done.
Qed.

(** Each of the sixteen hash functions of the H3 filter is linear over exclusive or: the
    hash of the exclusive or of two line numbers is the exclusive or of their hashes. *)
Theorem H3_hash_is_linear x y index :
  0 <= index < 16 ->
  exists hx hy, hash_H3 x index = Ok hx /\ hash_H3 y index = Ok hy /\
    hash_H3 (Z.lxor x y) index = Ok (Z.lxor hx hy).
Proof.
  intros Hj. destruct (H3_rounds_linear index 64 0 x y 0 0 Hj) as (x' & y' & hx & hy & Ex & Ey & Exy); [lia..|].
  exists hx, hy. unfold hash_H3, for_range. rewrite Z.lxor_0_r in Exy.
  change (Z.to_nat (64 - 0)) with 64%nat. rewrite Ex, Ey, Exy. done.
Qed.

Lemma H3_hash_is_linear_witness :
  exists hx hy, hash_H3 5 3 = Ok hx /\ hash_H3 12 3 = Ok hy /\ hash_H3 (Z.lxor 5 12) 3 = Ok (Z.lxor hx hy).
Proof. apply (H3_hash_is_linear 5 12 3). split; [discriminate|reflexivity]. Defined.

Record h3_wf (cfg : RubyConfig) (f : H3BloomFilter) : Prop := {
  hw_vec : vec_of (h3_filter f) (h3_filter_size f);
  hw_size : sized (h3_filter_size f) (h3_filter_size_bits f);
  hw_hashes : 0 < h3_num_hashes f <= 16;
  hw_par : h3_par_filter_size f = Z.quot (h3_filter_size f) (h3_num_hashes f) /\ 0 < h3_par_filter_size f;
  hw_cfg : configured cfg;
}.

Lemma h3_hashes cfg f a :
  h3_wf cfg f -> is_address a -> hashes_in (h3_num_hashes f) (h3_filter_size f) (h3_get_index cfg f a).
Proof.
  intros [_ [_ Hs] Hh [Ep Hp] Hc] Ha i Hi. unfold h3_get_index.
  destruct (line_number cfg a Hc Ha) as [l ->]. rewrite bind_of_ok.
  destruct (hash_H3_spec l i) as (y & -> & Hy); [lia|]. rewrite bind_of_ok. eexists. split; [done|].
  rewrite Ep in *. apply spread_range; lia.
Qed.

#[export] Instance H3_laws : BloomLaws H3BloomFilter.
Proof.
  refine {| bl_wf := h3_wf; bl_bit f := vbit (h3_filter f);
            bl_indices cfg f a := positions (h3_num_hashes f) (h3_get_index cfg f a) |}.
  - intros cfg f Hf. cbn [bf_clear H3_filter]. unfold h3_clear.
    destruct (vec_clear_spec _ _ (hw_vec _ _ Hf)) as (v & -> & Hv' & Hz). rewrite bind_of_ok.
    eexists. split; [done|]. split; [destruct Hf; by split|]. split; [done|]. intros i. by apply vbit_zero.
  - intros cfg f a Hf Ha. cbn [bf_set H3_filter]. unfold h3_set.
    destruct (set_hashes_spec _ _ (h3_num_hashes f) (h3_get_index cfg f a) (hw_vec _ _ Hf)) as (v & -> & Hv & Hb);
      [pose proof (hw_hashes _ _ Hf); lia|by apply h3_hashes|].
    rewrite bind_of_ok. eexists. split; [done|]. split; [destruct Hf; by split|]. split; [done|]. exact Hb.
  - intros cfg f a Hf Ha. cbn [bf_isSet H3_filter]. unfold h3_isSet.
    rewrite (test_hashes_spec _ _ (h3_num_hashes f) (h3_get_index cfg f a) (hw_vec _ _ Hf));
      [|pose proof (hw_hashes _ _ Hf); lia|by apply h3_hashes].
    rewrite bind_of_ok. by exists f.
Defined.

(** *** Whatever filter was configured *)

#[export] Instance Generic_laws : BloomLaws GenericBloomFilter.
Proof.
  refine {|
    bl_wf cfg g := match g with
      | LSB_Counting _ => False
      | NonCounting f => bl_wf cfg f | Bulk f => bl_wf cfg f | Block f => bl_wf cfg f
      | Multigrain f => bl_wf cfg f | MultiBitSel f => bl_wf cfg f | H3Hash f => bl_wf cfg f
      end;
    bl_bit g i := match g with
      | LSB_Counting _ => false
      | NonCounting f => bl_bit f i | Bulk f => bl_bit f i | Block f => bl_bit f i
      | Multigrain f => bl_bit f i | MultiBitSel f => bl_bit f i | H3Hash f => bl_bit f i
      end;
    bl_indices cfg g a := match g with
      | LSB_Counting _ => []
      | NonCounting f => bl_indices cfg f a | Bulk f => bl_indices cfg f a | Block f => bl_indices cfg f a
      | Multigrain f => bl_indices cfg f a | MultiBitSel f => bl_indices cfg f a
      | H3Hash f => bl_indices cfg f a
      end |}.
  - intros cfg [f|f|f|f|f|f|f] Hf; [done|..]; cbn [bf_clear Generic_filter update_any];
      destruct (bl_clear cfg f Hf) as (f' & -> & Hw & Hi & Hb); rewrite bind_of_ok;
      eexists; (split; [reflexivity|]); (split; [exact Hw|]); (split; [exact Hi|exact Hb]).
  - intros cfg [f|f|f|f|f|f|f] a Hf Ha; [done|..]; cbn [bf_set Generic_filter update_any];
      destruct (bl_set cfg f a Hf Ha) as (f' & -> & Hw & Hi & Hb); rewrite bind_of_ok;
      eexists; (split; [reflexivity|]); (split; [exact Hw|]); (split; [exact Hi|exact Hb]).
  - intros cfg [f|f|f|f|f|f|f] a Hf Ha; [done|..]; cbn [bf_isSet Generic_filter query_any];
      destruct (bl_isSet cfg f a Hf Ha) as (f' & -> & Hw & Hi & Hb); rewrite bind_of_ok;
      eexists; (split; [reflexivity|]); (split; [exact Hw|]); (split; [exact Hi|exact Hb]).
Defined.

(** * The contract of a signature *)

Section contract.
  Context {F : Type} `{!AbstractBloomFilter F} `{!BloomLaws F} (cfg : RubyConfig).
  Implicit Types (f : F) (l : list Z).

Fixpoint set_all f l : outcome F :=
  match l with
  | [] => Ok f
  | a :: l' => f' ← bf_set cfg f a; set_all f' l'
  end.

Lemma set_all_spec l f :
  bl_wf cfg f -> Forall is_address l ->
  exists f', set_all f l = Ok f' /\ bl_wf cfg f' /\ (forall b, bl_indices cfg f' b = bl_indices cfg f b) /\
    forall i, bl_bit f' i = true <-> bl_bit f i = true \/ exists a, a ∈ l /\ i ∈ bl_indices cfg f a.
Proof.
  revert f. induction l as [|a l IH]; intros f Hf Hl; cbn [set_all].
  - exists f. split_and!; [done..|]. intros i. split; [by left|]. intros [?|(a & Ha & _)]; [done|].
    by apply not_elem_of_nil in Ha.
  - inversion Hl as [|? ? Ha Hl']; subst. destruct (bl_set cfg f a Hf Ha) as (f1 & -> & H1 & Hi1 & Hb1).
    rewrite bind_of_ok. destruct (IH f1 H1 Hl') as (f2 & -> & H2 & Hi2 & Hb2). exists f2. split_and!; [done..| |].
    + intros b. by rewrite Hi2.
    + intros i. rewrite Hb2, Hb1, orb_true_iff, bool_decide_eq_true. setoid_rewrite elem_of_cons.
      setoid_rewrite Hi1. naive_solver.
Qed.

(** What the laws give for a filter that was cleared and then given addresses. *)
Lemma filter_contract f l a :
  bl_wf cfg f -> Forall is_address l -> is_address a ->
  exists f0 f1 f2 r, bf_clear f = Ok f0 /\ set_all f0 l = Ok f1 /\ bf_isSet cfg f1 a = Ok (r, f2) /\
    (a ∈ l -> r = true) /\
    (r = true <-> forall i, i ∈ bl_indices cfg f a -> exists b, b ∈ l /\ i ∈ bl_indices cfg f b) /\
    exists f3, bf_isSet cfg f2 a = Ok (r, f3).
Proof.
  intros Hf Hl Ha. destruct (bl_clear cfg f Hf) as (f0 & E0 & H0 & Hi0 & Hb0).
  destruct (set_all_spec l f0 H0 Hl) as (f1 & E1 & H1 & Hi1 & Hb1).
  destruct (bl_isSet cfg f1 a H1 Ha) as (f2 & E2 & H2 & Hi2 & Hb2).
  exists f0, f1, f2, (forallb (bl_bit f1) (bl_indices cfg f1 a)).
  assert (Hr : forallb (bl_bit f1) (bl_indices cfg f1 a) = true <->
    forall i, i ∈ bl_indices cfg f a -> exists b, b ∈ l /\ i ∈ bl_indices cfg f b).
  { rewrite forallb_forall, Hi1, Hi0. setoid_rewrite <- list_elem_of_In. split; intros H i Hi; specialize (H i Hi).
    - apply Hb1 in H as [H|(b & Hb & Hib)]; [by rewrite Hb0 in H|]. exists b. by rewrite <- Hi0.
    - apply Hb1. right. destruct H as (b & Hb & Hib). exists b. by rewrite Hi0. }
  split_and!; [done..| |done|].
  - intros Hin. apply Hr. eauto.
  - destruct (bl_isSet cfg f2 a H2 Ha) as (f3 & E3 & _). exists f3. rewrite E3, Hi2. do 2 f_equal.
    clear -Hb2. induction (bl_indices cfg f1 a) as [|i ks IH]; [done|]. cbn [forallb]. rewrite Hb2. by f_equal.
Qed.

End contract.

(** * Constructors *)

Lemma new_vec size (v : Vector Z) : 0 < size -> setSize Vector_default size = Ok v -> vec_of v size.
Proof. intros Hs E. destruct (setSize_default (A:=Z) size Hs) as (w & Ew & Hw & Hn & _).
  assert (v = w) as -> by congruence. by split. Qed.
Lemma cleared_vec v n v' : vec_of v n -> vec_clear v n = Ok v' -> vec_of v' n /\ Forall (eq 0) (contents v').
Proof. intros Hv E. destruct (vec_clear_spec v n Hv) as (w & Ew & Hw).
  by assert (v' = w) as -> by congruence. Qed.

Lemma atoi_range s n : atoi s = Ok n -> - 2 ^ 31 <= n < 2 ^ 31.
Proof. unfold atoi. intros H. case_match eqn:E; [|done]. injection H as <-. to_prop. lia. Qed.

(** A size read from a configuration string and its logarithm. *)
Lemma sized_of_config s n bits : atoi s = Ok n -> log_int n = Ok bits -> 2 <= n -> sized n bits.
Proof.
  intros Ha Hl Hn. apply atoi_range in Ha. apply log_int_ok in Hl as [_ ->]; [split; [done|lia]|lia].
Qed.

(** The numbers of a configuration that the address and the hash functions fit. *)
Definition geometry_fits (cfg : RubyConfig) (g : GenericBloomFilter) : Prop :=
  match g with
  | LSB_Counting _ => False
  | NonCounting f => 2 <= nc_filter_size f /\ 0 <= nc_offset f /\
      dataBlockBits cfg + nc_offset f + nc_filter_size_bits f <= 63
  | Bulk f => 4 <= bulk_filter_size f /\ dataBlockBits cfg + 2 * bulk_sector_bits f <= 63
  | Block f => 2 <= blk_filter_size f /\ 0 < dataBlockBits cfg <= blk_filter_size_bits f /\
      2 * dataBlockBits cfg + 5 + blk_filter_size_bits f <= 63
  | Multigrain f => 2 <= mg_filter_size f <= mg_page_filter_size f /\
      dataBlockBits cfg + mg_filter_size_bits f + mg_page_filter_size_bits f <= 63
  | MultiBitSel f => 2 <= mbs_filter_size f /\ 0 < mbs_num_hashes f < 2 ^ 25 /\ 0 <= mbs_skip_bits f < 64
  | H3Hash f => 2 <= h3_filter_size f /\ 0 < h3_num_hashes f <= 16
  end.

Lemma int_div_ok x y z : int_div x y = Ok z -> z = Z.quot x y.
Proof. unfold int_div. case_match; [done|]. by intros [= <-]. Qed.

Lemma log_int_pos n b : n < 2 ^ 63 -> log_int n = Ok b -> 0 < n.
Proof. intros Hn E. by apply log_int_ok in E as [? _]. Qed.

Lemma log_of_atoi s n b : atoi s = Ok n -> log_int n = Ok b -> 0 < n.
Proof. intros Hn%atoi_range E. apply (log_int_pos n b); [lia|done]. Qed.

(** Open a constructor: the sizes it read and the vectors it made and cleared. *)
Ltac open_constructor :=
  repeat match goal with |- context [string_split ?s ?c] => destruct (string_split s c) end;
  intros; ok_inv; simplify_eq;
  repeat match goal with
  | Ha : atoi _ = Ok ?n, Hl : log_int ?n = Ok _ |- _ =>
      lazymatch goal with Hp : 0 < n |- _ => fail | _ => pose proof (log_of_atoi _ _ _ Ha Hl) end
  | H : setSize Vector_default ?n = Ok ?v, Hp : 0 < ?n |- _ => apply (new_vec n v Hp) in H
  | Hv : vec_of ?v ?n, H : vec_clear ?v ?n = Ok _ |- _ => apply (cleared_vec _ _ _ Hv) in H as [? ?]
  end.

(** Close the fields of a filter's invariant from what its constructor read. *)
Ltac close_wf :=
  split; cbn; unfold dataBlockBits in *; try done; try lia;
  try (eapply sized_of_config; [eassumption|eassumption|lia]).

Lemma nc_new_wf cfg str f :
  configured cfg -> nc_new str = Ok f -> geometry_fits cfg (NonCounting f) -> nc_wf cfg f.
Proof.
  intros Hc. destruct (cf_block _ Hc) as [_ Hb]. unfold nc_new, nc_clear. cbn [geometry_fits nc_filter nc_filter_size].
  open_constructor. cbn [nc_with nc_filter_size nc_offset nc_filter_size_bits] in *. close_wf.
Qed.

Lemma blk_new_wf cfg str f :
  configured cfg -> blk_new str = Ok f -> geometry_fits cfg (Block f) -> blk_wf cfg f.
Proof.
  intros Hc. unfold blk_new, blk_clear. cbn [geometry_fits blk_filter blk_filter_size].
  open_constructor. cbn [blk_with blk_filter_size blk_filter_size_bits] in *. close_wf.
Qed.

Lemma bulk_new_wf cfg str f :
  configured cfg -> bulk_new str = Ok f -> geometry_fits cfg (Bulk f) -> bulk_wf cfg f.
Proof.
  intros Hc. destruct (cf_block _ Hc) as [_ Hb]. unfold bulk_new, bulk_clear.
  cbn [geometry_fits bulk_filter bulk_filter_size bulk_temp_filter bulk_with].
  open_constructor. cbn [bulk_with bulk_filter bulk_temp_filter bulk_filter_size bulk_filter_size_bits bulk_sector_bits] in *.
  open_constructor. assert (Hs : 4 <= x) by lia.
  assert (x0 = Z.log2 x /\ Z.log2 4 <= Z.log2 x) as [-> Hlog].
  { split; [|by apply Z.log2_le_mono]. eapply log_int_ok; [|done]. apply Z.lt_trans with (2 ^ 31); [|done].
    by eapply atoi_range. }
  change (Z.log2 4) with 2 in Hlog. close_wf.
Qed.

Lemma mg_new_wf cfg str f :
  configured cfg -> mg_new str = Ok f -> geometry_fits cfg (Multigrain f) -> mg_wf cfg f.
Proof.
  intros Hc. destruct (cf_block _ Hc) as [_ Hb]. unfold mg_new, mg_clear.
  cbn [geometry_fits mg_filter mg_filter_size mg_page_filter mg_page_filter_size].
  open_constructor.
  cbn [mg_with mg_filter_size mg_filter_size_bits mg_page_filter_size mg_page_filter_size_bits] in *. close_wf.
Qed.

(** The size of a part of the filter, from the constructors with several hashes. *)
Lemma part_pos size hashes par b s :
  atoi s = Ok size -> 0 < hashes -> 0 < size -> int_div size hashes = Ok par -> log_int par = Ok b ->
  par = Z.quot size hashes /\ 0 < par.
Proof.
  intros Hs Hh Hp Hd Hl. apply int_div_ok in Hd as ->. split; [done|]. apply (log_int_pos _ b); [|done].
  apply atoi_range in Hs. pose proof (Z.mul_quot_le size hashes ltac:(lia) ltac:(lia)). nia.
Qed.

Lemma mbs_new_wf cfg str f :
  configured cfg -> mbs_new str = Ok f -> geometry_fits cfg (MultiBitSel f) -> mbs_wf cfg f.
Proof.
  intros Hc. unfold mbs_new, mbs_clear. cbn [geometry_fits mbs_filter mbs_filter_size].
  open_constructor. cbn [mbs_with mbs_filter_size mbs_filter_size_bits mbs_num_hashes mbs_skip_bits] in *.
  close_wf. eapply part_pos; [eassumption|lia|lia|eassumption|eassumption].
Qed.

Lemma h3_new_wf cfg str f :
  configured cfg -> h3_new str = Ok f -> geometry_fits cfg (H3Hash f) -> h3_wf cfg f.
Proof.
  intros Hc. unfold h3_new, h3_clear. cbn [geometry_fits h3_filter h3_filter_size].
  open_constructor. cbn [h3_with h3_filter_size h3_filter_size_bits h3_num_hashes] in *.
  close_wf. eapply part_pos; [eassumption|lia|lia|eassumption|eassumption].
Qed.

Lemma string_split_head s c : forall h t, string_split s c = (h, t) ->
  forall i, String.get i h <> Some c.
Proof.
  induction s as [|x s IH]; intros h t; cbn [string_split].
  - intros [= <- <-] [|i]; done.
  - case_bool_decide as Hx; [intros [= <- <-] [|i]; done|].
    destruct (string_split s c) as [h' t'] eqn:E. intros [= <- <-] [|i]; cbn [String.get]; [congruence|].
    by apply (IH h' t').
Qed.

(** The head of a configuration has no underscore, so it never names the kind
    ["LSB_Counting"]: that filter cannot be configured. *)
Theorem LSB_Counting_unreachable config f : GenericBloomFilter_new config <> Ok (LSB_Counting f).
Proof.
  unfold GenericBloomFilter_new. destruct (string_split config "_") as [head tail] eqn:E.
  rewrite bool_decide_eq_false_2.
  - intros H. repeat case_match; ok_inv; discriminate.
  - intros ->. by apply (string_split_head _ _ _ _ E 3).
Qed.

Lemma GenericBloomFilter_new_wf cfg config g :
  configured cfg -> GenericBloomFilter_new config = Ok g -> geometry_fits cfg g -> bl_wf cfg g.
Proof.
  intros Hc E Hfit. unfold GenericBloomFilter_new in E. destruct (string_split config "_") as [head tail].
  repeat match type of E with context [bool_decide ?P] => destruct (bool_decide P) end; ok_inv; subst g; [done|..].
  - by eapply nc_new_wf.
  - by eapply bulk_new_wf.
  - by eapply blk_new_wf.
  - by eapply mg_new_wf.
  - by eapply mbs_new_wf.
  - by eapply h3_new_wf.
Qed.

(** * Every configured signature *)

(** The positions the hash functions of a filter give an address; those of the page
    filter of a Multigrain filter follow those of its block filter. *)
Definition filter_positions (cfg : RubyConfig) (g : GenericBloomFilter) (a : Z) : list Z :=
  match g with
  | LSB_Counting f => [from_ok (lsb_get_index cfg f a)]
  | NonCounting f => [from_ok (nc_get_index cfg f a)]
  | Bulk f => [from_ok (bulk_c1 cfg f a); from_ok (bulk_c0 cfg f a) + Z.quot (bulk_filter_size f) 2]
  | Block f => [from_ok (blk_get_index cfg f a)]
  | Multigrain f => let i := from_ok (get_block_index cfg f a) in [i; mg_filter_size f + i]
  | MultiBitSel f => positions (mbs_num_hashes f) (mbs_get_index cfg f a)
  | H3Hash f => positions (h3_num_hashes f) (h3_get_index cfg f a)
  end.

Lemma filter_positions_indices cfg g a : bl_wf cfg g -> filter_positions cfg g a = bl_indices cfg g a.
Proof. by destruct g. Qed.

(** C38: A signature made from a configuration string (NonCounting, Bulk, Block,
    Multigrain, MultiBitSel or H3; LSB_Counting cannot be configured) whose sizes fit
    the address and the hash functions (geometry_fits; for Multigrain the page filter is
    at least as large as the block filter, a smaller one being accepted and overrun),
    cleared and then given a list of addresses, answers isSet for an address exactly
    when every position the address hashes to is a position of some address of the list;
    so an address that was set is never denied, and asking does not change the answer. *)
Theorem bloom_filter_exact cfg config g l a :
  configured cfg -> GenericBloomFilter_new config = Ok g -> geometry_fits cfg g ->
  Forall is_address l -> is_address a ->
  exists f0 f1 f2 r, bf_clear g = Ok f0 /\ set_all cfg f0 l = Ok f1 /\ bf_isSet cfg f1 a = Ok (r, f2) /\
    (a ∈ l -> r = true) /\
    (r = true <-> forall i, i ∈ filter_positions cfg g a -> exists b, b ∈ l /\ i ∈ filter_positions cfg g b) /\
    exists f3, bf_isSet cfg f2 a = Ok (r, f3).
Proof.
  intros Hc Hg Hfit Hl Ha. pose proof (GenericBloomFilter_new_wf cfg config g Hc Hg Hfit) as Hf.
  setoid_rewrite filter_positions_indices; [|done..]. by apply filter_contract.
Qed.

(** * The loose ends of the filters *)

(** Counting the entries of a Multigrain filter clears its page filter, and with
    it every address. *)
Theorem multigrain_count_forgets cfg f a :
  mg_wf cfg f -> is_address a ->
  exists n f', bf_getTotalCount f = Ok (n, f') /\ exists f'', bf_isSet cfg f' a = Ok (false, f'').
Proof.
  intros Hf Ha. cbn [bf_getTotalCount MultiGrain_filter]. unfold mg_getTotalCount, vec_total.
  destruct (for_range_inv (fun _ _ => True) 0 (mg_filter_size f)
    (fun i count => x ← ref (mg_filter f) i; mret (s32 (count + x))) 0) as (n & -> & _).
  - destruct (gw_size _ _ Hf) as [_ Hs]. lia.
  - done.
  - intros i s Hi _. destruct (vec_read_spec _ _ i (gw_vec _ _ Hf) Hi) as (x & -> & _). by eexists.
  - rewrite bind_of_ok. destruct (vec_clear_spec _ _ (gw_page _ _ Hf)) as (p & -> & Hp & Hz). rewrite bind_of_ok.
    eexists _, _. split; [done|].
    assert (Hw : mg_wf cfg (mg_with f (mg_filter f) p)) by (destruct Hf; by split).
    assert (Hb : bl_wf cfg (mg_with f (mg_filter f) p)) by exact Hw.
    destruct (bl_isSet cfg _ a Hb Ha) as (f'' & -> & _). exists f''. do 2 f_equal.
    destruct (mg_indices_ok cfg _ a Hw Ha) as (i & j & Ei & _ & Hi & _).
    cbn [bl_indices bl_bit MultiGrain_laws forallb]. rewrite Ei. cbn [from_ok mg_with mg_filter_size].
    unfold mg_bit at 2. cbn [mg_with mg_filter_size mg_filter mg_page_filter] in *.
    rewrite (proj2 (Z.ltb_ge _ _)), vbit_zero by (done || lia). by rewrite andb_false_r.
Qed.

(** [increment] passes the limit [m_count] the filter was configured with. *)
Theorem lsb_increment_ignores_limit :
  exists f f1 f2, lsb_new "16:1" = Ok f /\ lsb_count f = 1 /\
    bf_increment demo_configured f 0 = Ok f1 /\ bf_increment demo_configured f1 0 = Ok f2 /\
    exists f3, bf_getCount demo_configured f2 0 = Ok (2, f3).
Proof.
  eexists _, _, _. split; [vm_compute; reflexivity|]. split; [reflexivity|].
  split; [vm_compute; reflexivity|]. split; [vm_compute; reflexivity|].
  eexists. vm_compute. reflexivity.
Qed.

(** The page filter is indexed by the block: one smaller than the block filter is
    accepted and then overrun. *)
Theorem multigrain_small_page_filter_aborts :
  exists f, mg_new "16_4" = Ok f /\ bf_set demo_configured f (5 * 64) = Err AssertFailed.
Proof. eexists. split; [vm_compute; reflexivity|]. vm_compute. reflexivity. Qed.

Definition demo_filter : GenericBloomFilter :=
  Eval vm_compute in match GenericBloomFilter_new "H3_64_4_Regular" with
                     | Ok g => g
                     | Err _ => Block (mkBlock Vector_default 0 0)
                     end.

Lemma bloom_filter_exact_witness :
  exists f0 f1 f2, GenericBloomFilter_new "H3_64_4_Regular" = Ok demo_filter /\
    bf_clear demo_filter = Ok f0 /\ set_all demo_configured f0 [64; 4096] = Ok f1 /\
    bf_isSet demo_configured f1 4096 = Ok (true, f2).
Proof.
  destruct (bloom_filter_exact demo_configured "H3_64_4_Regular" demo_filter [64; 4096] 4096)
    as (f0 & f1 & f2 & r & E0 & E1 & E2 & Hr & _).
  - exact demo_configured_ok.
  - vm_compute. reflexivity.
  - cbv [geometry_fits demo_filter h3_filter_size h3_num_hashes]. lia.
  - repeat (apply List.Forall_cons; [split; lia|]). apply List.Forall_nil.
  - split; lia.
  - exists f0, f1, f2. rewrite Hr in E2 by (right; left). split; [vm_compute; reflexivity|].
    split; [exact E0|]. split; [exact E1|exact E2].
Defined.
