(* ===== verification/RefCnt.v ===== *)
(** [common/RefCnt.h] and [common/RefCountable.h]: the shared pointers that
    messages travel by.

    The store has the live objects, each with its count, and the live [RefCnt]
    handles, each with its pointer.  A constructor runs at an address where no
    handle lives and the other operations where one does: the language sees to
    that.  Using an object that was destroyed is a bad access. *)

From S2P Require Import Prelude.

Section refcnt.
  Context {D : Type}.

Record RefCountable := mkObject { m_refcnt : Z; payload : D }.

Record store := mkStore {
  objects : gmap Z RefCountable;
  handles : gmap Z (option Z);
  next_object : Z;
}.
Implicit Types (st : store) (h g o : Z).

Definition with_objects st (os : gmap Z RefCountable) : store := mkStore os (handles st) (next_object st).
Definition with_handle st h (p : option Z) : store :=
  mkStore (objects st) (<[h := p]> (handles st)) (next_object st).

Definition object st o : outcome RefCountable :=
  match objects st !! o with Some x => Ok x | None => Err BadAccess end.
(** [m_data_ptr] of a live handle. *)
Definition pointer st h : outcome (option Z) :=
  match handles st !! h with Some p => Ok p | None => Err BadAccess end.

Definition setRefCnt st o (cnt : Z) : outcome store :=
  x ← object st o; mret (with_objects st (<[o := mkObject cnt (payload x)]> (objects st))).
(** [m_refcnt] is an [int]. *)
Definition incRefCnt st o : outcome store :=
  x ← object st o; if m_refcnt x + 1 <? 2 ^ 31 then setRefCnt st o (m_refcnt x + 1) else Err Undefined.
Definition decRefCnt st o : outcome store := x ← object st o; setRefCnt st o (m_refcnt x - 1).
Definition getRefCnt st o : outcome Z := x ← object st o; mret (m_refcnt x).
Definition destroy st o : outcome store :=
  object st o;; mret (with_objects st (delete o (objects st))).

Definition RefCnt_null st h : outcome store := mret (with_handle st h None).
Definition RefCnt_of st h (data : D) : outcome store :=
  let o := next_object st in
  let cloned := mkStore (<[o := mkObject 0 data]> (objects st)) (handles st) (o + 1) in
  setRefCnt (with_handle cloned h (Some o)) o 1.

Definition freeRef st h : outcome store :=
  p ← pointer st h;
  match p with
  | Some o =>
      st1 ← decRefCnt st o;
      c ← getRefCnt st1 o;
      st2 ← (if c =? 0 then destroy st1 o else mret st1);
      mret (with_handle st2 h None)
  | None => mret st
  end.

(** [m_data_ptr = obj.m_data_ptr; if (m_data_ptr != NULL) m_data_ptr->incRefCnt()] *)
Definition share st h g : outcome store :=
  p ← pointer st g;
  let st1 := with_handle st h p in
  match p with Some o => incRefCnt st1 o | None => mret st1 end.
Definition RefCnt_copy st h g : outcome store := share st h g.
Definition RefCnt_assign st h g : outcome store :=
  if h =? g then mret st else st1 ← freeRef st h; share st1 h g.
Definition RefCnt_destruct st h : outcome store :=
  st1 ← freeRef st h; mret (mkStore (objects st1) (delete h (handles st1)) (next_object st1)).
(** [ref()], and the object it leads to. *)
Definition deref st h : outcome D :=
  p ← pointer st h; match p with Some o => x ← object st o; mret (payload x) | None => Err BadAccess end.

(** * Programs that use handles *)

Inductive rop := Null (h : Z) | Make (h : Z) (data : D) | Copy (h g : Z) | Assign (h g : Z) | Free (h : Z) | Drop (h : Z).

Definition exec (op : rop) st : outcome store :=
  match op with
  | Null h => RefCnt_null st h
  | Make h data => RefCnt_of st h data
  | Copy h g => RefCnt_copy st h g
  | Assign h g => RefCnt_assign st h g
  | Free h => freeRef st h
  | Drop h => RefCnt_destruct st h
  end.

(** Handles are constructed where none is, and used where one is. *)
Definition well_scoped (op : rop) st : Prop :=
  match op with
  | Null h | Make h _ => handles st !! h = None
  | Copy h g => handles st !! h = None /\ is_Some (handles st !! g)
  | Assign h g => is_Some (handles st !! h) /\ is_Some (handles st !! g)
  | Free h | Drop h => is_Some (handles st !! h)
  end.

Definition empty_store : store := mkStore ∅ ∅ 0.

Inductive reachable : store → Prop :=
  | reach_empty : reachable empty_store
  | reach_step st op st' :
      reachable st -> well_scoped op st -> Z.of_nat (size (handles st)) < 2 ^ 31 - 1 ->
      exec op st = Ok st' -> reachable st'.

(** * Counting handles *)

Definition pointing o (H : gmap Z (option Z)) : gmap Z (option Z) := filter (fun kp => snd kp = Some o) H.
Definition refs o (H : gmap Z (option Z)) : Z := Z.of_nat (size (pointing o H)).

Lemma refs_nonneg o H : 0 <= refs o H.
Proof. unfold refs. lia. Qed.

Lemma refs_bound o H : refs o H <= Z.of_nat (size H).
Proof. unfold refs, pointing. apply inj_le, map_subseteq_size, map_filter_subseteq. Qed.

Lemma refs_new o H h p :
  H !! h = None -> refs o (<[h := p]> H) = refs o H + (if bool_decide (p = Some o) then 1 else 0).
Proof.
  intros Hh. unfold refs, pointing. assert (pointing o H !! h = None) as Hn
    by (apply map_lookup_filter_None; by left).
  rewrite map_filter_insert. unfold pointing in Hn. case_bool_decide as Hp; case_decide; try done.
  - rewrite map_size_insert_None by done. lia.
  - rewrite delete_id by done. lia.
Qed.

Lemma refs_delete o H h p :
  H !! h = Some p -> refs o (delete h H) = refs o H - (if bool_decide (p = Some o) then 1 else 0).
Proof.
  intros Hh. rewrite <- (insert_delete_id H h p Hh) at 2. rewrite refs_new by apply lookup_delete_eq. lia.
Qed.

Lemma refs_insert o H h p p' :
  H !! h = Some p ->
  refs o (<[h := p']> H) = refs o H - (if bool_decide (p = Some o) then 1 else 0)
                           + (if bool_decide (p' = Some o) then 1 else 0).
Proof.
  intros Hh. rewrite <- insert_delete_eq, refs_new by apply lookup_delete_eq. by rewrite (refs_delete o H h p).
Qed.

Lemma refs_pos o H h : H !! h = Some (Some o) -> 1 <= refs o H.
Proof.
  intros Hh. pose proof (refs_delete o H h _ Hh) as E. rewrite bool_decide_eq_true_2 in E by done.
  pose proof (refs_nonneg o (delete h H)). lia.
Qed.

Lemma refs_none o H : refs o H = 0 -> forall h, H !! h <> Some (Some o).
Proof. intros E h Hh. pose proof (refs_pos o H h Hh). lia. Qed.

(** Every live object is counted right, and every pointer leads to a live one. *)
Record counted st : Prop := {
  ct_count o x : objects st !! o = Some x -> m_refcnt x = refs o (handles st);
  ct_live o : is_Some (objects st !! o) <-> 1 <= refs o (handles st);
  ct_next o : is_Some (objects st !! o) -> o < next_object st;
}.

Lemma counted_object st h o :
  counted st -> handles st !! h = Some (Some o) -> exists x, objects st !! o = Some x /\ m_refcnt x = refs o (handles st).
Proof.
  intros Hc Hh. destruct (proj2 (ct_live _ Hc o)) as [x Hx]; [by eapply refs_pos|].
  exists x. split; [done|]. by apply ct_count.
Qed.

(** Objects change only in their counts. *)
Definition same_payload st st' : Prop :=
  forall o x x', objects st !! o = Some x -> objects st' !! o = Some x' -> payload x' = payload x.

Lemma freeRef_spec st h p :
  counted st -> handles st !! h = Some p ->
  exists st', freeRef st h = Ok st' /\ counted st' /\ handles st' = <[h := None]> (handles st) /\ same_payload st st'.
Proof.
  intros Hc Hh. unfold freeRef, pointer. rewrite Hh, bind_of_ok. destruct p as [o|].
  2: { exists st. split_and!; [done|done|by rewrite insert_id|]. intros o x x' E E'. congruence. }
  destruct (counted_object st h o Hc Hh) as (x & Hx & Ex).
  unfold decRefCnt, setRefCnt, getRefCnt, destroy, object. rewrite Hx, !bind_of_ok. cbn [with_objects objects].
  rewrite lookup_insert_eq, !bind_of_ok. cbn [m_refcnt].
  assert (Hrefs : forall o', refs o' (<[h := None]> (handles st)) =
    refs o' (handles st) - (if bool_decide (o = o') then 1 else 0)).
  { intros o'. rewrite (refs_insert o' _ h (Some o) None Hh), (bool_decide_eq_false_2 (None = Some o')) by done.
    rewrite (bool_decide_ext (Some o = Some o') (o = o')) by naive_solver. lia. }
  assert (Hold : forall o', o' <> o -> refs o' (<[h := None]> (handles st)) = refs o' (handles st))
    by (intros o' Hne; rewrite Hrefs, bool_decide_eq_false_2 by congruence; lia).
  assert (Hnew : refs o (<[h := None]> (handles st)) = m_refcnt x - 1)
    by (rewrite Hrefs, bool_decide_eq_true_2 by done; lia).
  destruct (Z.eqb_spec (m_refcnt x - 1) 0) as [H0|H0]; rewrite ?lookup_insert_eq, ?bind_of_ok; eexists; (split; [done|]).
  - split_and!; [|done|].
    + split; cbn [with_handle with_objects objects handles next_object]; intros o'; rewrite delete_insert_eq.
      * intros y Hy. apply lookup_delete_Some in Hy as [Hne Hy]. rewrite Hold by done. by apply ct_count.
      * destruct (Z.eq_dec o' o) as [->|Hne].
        -- rewrite lookup_delete_eq, Hnew. split; [by intros []|lia].
        -- rewrite lookup_delete_ne, Hold by done. apply Hc.
      * intros [y Hy]. apply lookup_delete_Some in Hy as [_ Hy]. apply (ct_next _ Hc). by eexists.
    + intros o' y y' Hy. cbn [with_handle with_objects objects]. rewrite delete_insert_eq.
      intros Hy'%lookup_delete_Some. naive_solver.
  - split_and!; [|done|].
    + split; cbn [with_handle with_objects objects handles next_object]; intros o'.
      * intros y [[<- <-]|[Hne Hy]]%lookup_insert_Some; [done|]. rewrite Hold by done. by apply ct_count.
      * destruct (Z.eq_dec o' o) as [->|Hne].
        -- rewrite lookup_insert_eq, Hnew. pose proof (refs_pos _ _ _ Hh). split; [lia|by eexists].
        -- rewrite lookup_insert_ne, Hold by done. apply Hc.
      * intros [y [[<- _]|[_ Hy]]%lookup_insert_Some]; apply (ct_next _ Hc); by eexists.
    + intros o' y y' Hy. cbn [with_handle with_objects objects].
      intros [[<- <-]|[_ Hy']]%lookup_insert_Some; cbn [payload]; congruence.
Qed.

Lemma share_spec st h g p :
  counted st -> handles st !! g = Some p -> handles st !! h = None \/ handles st !! h = Some None ->
  Z.of_nat (size (handles st)) < 2 ^ 31 - 1 ->
  exists st', share st h g = Ok st' /\ counted st' /\ handles st' = <[h := p]> (handles st) /\ same_payload st st'.
Proof.
  intros Hc Hg Hh Hsize. unfold share, pointer. rewrite Hg, bind_of_ok. cbv zeta.
  assert (Hrefs : forall o, refs o (<[h := p]> (handles st)) =
    refs o (handles st) + (if bool_decide (p = Some o) then 1 else 0)).
  { intros o. destruct Hh as [Hh|Hh]; [by apply refs_new|]. rewrite (refs_insert o _ h None p Hh).
    rewrite (bool_decide_eq_false_2 (None = Some o)) by done. lia. }
  destruct p as [o|].
  - destruct (counted_object st g o Hc Hg) as (x & Hx & Ex).
    unfold incRefCnt, setRefCnt, object. cbn [with_handle objects]. rewrite Hx, bind_of_ok.
    pose proof (refs_bound o (handles st)). rewrite (proj2 (Z.ltb_lt (m_refcnt x + 1) _)) by lia.
    rewrite bind_of_ok. eexists. split; [done|]. split_and!; [|done|].
    + split; cbn [with_handle with_objects objects handles next_object]; intros o'; rewrite ?Hrefs.
      * intros y [[<- <-]|[Hne Hy]]%lookup_insert_Some; cbn [m_refcnt].
        -- rewrite bool_decide_eq_true_2 by done. lia.
        -- rewrite bool_decide_eq_false_2, Z.add_0_r by congruence. by apply ct_count.
      * destruct (Z.eq_dec o' o) as [->|Hne].
        -- rewrite lookup_insert_eq, bool_decide_eq_true_2 by done. pose proof (refs_nonneg o (handles st)).
           split; [lia|by eexists].
        -- rewrite lookup_insert_ne, bool_decide_eq_false_2, Z.add_0_r by congruence. apply Hc.
      * intros [y [[<- _]|[_ Hy]]%lookup_insert_Some]; apply (ct_next _ Hc); by eexists.
    + intros o' y y' Hy. cbn [with_handle with_objects objects].
      intros [[<- <-]|[_ Hy']]%lookup_insert_Some; cbn [payload]; congruence.
  - eexists. split; [done|]. split_and!; [|done|intros o x x' E E'; cbn in E'; congruence].
    destruct Hc. split; cbn [with_handle objects handles next_object]; intros o; rewrite ?Hrefs, ?Z.add_0_r; auto.
Qed.

Lemma make_spec st h data :
  counted st -> handles st !! h = None ->
  exists st', RefCnt_of st h data = Ok st' /\ counted st'.
Proof.
  intros Hc Hh. assert (Hfresh : objects st !! next_object st = None).
  { destruct (objects st !! next_object st) eqn:E; [|done]. pose proof (ct_next _ Hc (next_object st)) as Hn.
    rewrite E in Hn. specialize (Hn ltac:(by eexists)). lia. }
  assert (Hz : refs (next_object st) (handles st) = 0).
  { pose proof (refs_nonneg (next_object st) (handles st)).
    destruct (Z.le_gt_cases 1 (refs (next_object st) (handles st))) as [H1|]; [|lia].
    apply (ct_live _ Hc) in H1 as [x Hx]. congruence. }
  unfold RefCnt_of, setRefCnt, object. cbn [with_handle objects]. rewrite lookup_insert_eq, bind_of_ok.
  eexists. split; [done|]. split; cbn [with_handle with_objects objects handles next_object payload];
    rewrite insert_insert_eq; intros o; rewrite ?(refs_new _ _ h _ Hh).
  - intros x [[<- <-]|[Hne Hx]]%lookup_insert_Some; cbn [m_refcnt].
    + rewrite bool_decide_eq_true_2 by done. lia.
    + rewrite bool_decide_eq_false_2, Z.add_0_r by congruence. by apply ct_count.
  - destruct (Z.eq_dec o (next_object st)) as [->|Hne].
    + rewrite lookup_insert_eq, bool_decide_eq_true_2, Hz by done. split; [lia|by eexists].
    + rewrite lookup_insert_ne, bool_decide_eq_false_2, Z.add_0_r by congruence. apply Hc.
  - intros [x [[<- _]|[_ Hx]]%lookup_insert_Some]; [lia|].
    pose proof (ct_next _ Hc o ltac:(by eexists)). lia.
Qed.

Lemma exec_counted op st :
  counted st -> well_scoped op st -> Z.of_nat (size (handles st)) < 2 ^ 31 - 1 ->
  exists st', exec op st = Ok st' /\ counted st'.
Proof.
  intros Hc. destruct op as [h|h data|h g|h g|h|h]; cbn [well_scoped exec].
  - intros Hh Hs. eexists. split; [done|]. destruct Hc.
    split; cbn [with_handle objects handles next_object]; intros o; rewrite ?(refs_new _ _ h _ Hh);
      rewrite ?(bool_decide_eq_false_2 (None = Some o)), ?Z.add_0_r by done; auto.
  - intros Hh Hs. by apply make_spec.
  - intros [Hh [p Hg]] Hs. destruct (share_spec st h g p Hc Hg (or_introl Hh) Hs) as (st' & E & Hc' & _). by exists st'.
  - intros [[p Hh] [r Hg]] Hs. unfold RefCnt_assign. destruct (Z.eqb_spec h g) as [|Hne]; [by exists st|].
    destruct (freeRef_spec st h p Hc Hh) as (st1 & -> & Hc1 & Hh1 & _). rewrite bind_of_ok.
    destruct (share_spec st1 h g r Hc1) as (st' & E & Hc' & _).
    + by rewrite Hh1, lookup_insert_ne.
    + right. by rewrite Hh1, lookup_insert_eq.
    + rewrite Hh1, map_size_insert_Some by (by eexists). done.
    + by exists st'.
  - intros [p Hh] Hs. destruct (freeRef_spec st h p Hc Hh) as (st' & E & Hc' & _). by exists st'.
  - intros [p Hh] Hs. destruct (freeRef_spec st h p Hc Hh) as (st1 & E & Hc1 & Hh1 & _).
    unfold RefCnt_destruct. rewrite E, bind_of_ok. eexists. split; [done|].
    assert (Hr : forall o, refs o (delete h (handles st1)) = refs o (handles st1)).
    { intros o. rewrite (refs_delete o _ h None) by (by rewrite Hh1, lookup_insert_eq).
      rewrite bool_decide_eq_false_2 by done. lia. }
    destruct Hc1. split; cbn [objects handles next_object]; intros o; rewrite ?Hr; auto.
Qed.

Lemma counted_empty : counted empty_store.
Proof.
  split; cbn [empty_store objects handles next_object]; intros o.
  - intros x Hx. by rewrite lookup_empty in Hx.
  - rewrite lookup_empty. unfold refs, pointing. rewrite map_filter_empty, map_size_empty. split; [by intros []|lia].
  - intros [x Hx]. by rewrite lookup_empty in Hx.
Qed.

Lemma reachable_counted st : reachable st -> counted st.
Proof.
  induction 1 as [|st op st' _ IH Hw Hs E]; [apply counted_empty|].
  destruct (exec_counted op st IH Hw Hs) as (st1 & E1 & H1). congruence.
Qed.

(** C40: In every state that constructing, copying, assigning, freeing and destroying
    handles can reach, the next such operation succeeds, an object is alive exactly
    while some handle points to it, and every pointer of a handle can be followed. *)
Theorem refcnt_never_dangles st op :
  reachable st -> well_scoped op st -> Z.of_nat (size (handles st)) < 2 ^ 31 - 1 ->
  exists st', exec op st = Ok st' /\
    (forall o, is_Some (objects st' !! o) <-> exists h, handles st' !! h = Some (Some o)) /\
    (forall h o, handles st' !! h = Some (Some o) -> exists d, deref st' h = Ok d).
Proof.
  intros Hr Hw Hs. apply reachable_counted in Hr. destruct (exec_counted op st Hr Hw Hs) as (st' & E & Hc).
  exists st'. split; [done|].
  assert (Hlive : forall o, 1 <= refs o (handles st') <-> exists h, handles st' !! h = Some (Some o)).
  { intros o. split; [|intros [h Hh]; by eapply refs_pos]. intros H1. unfold refs in H1.
    destruct (map_choose (pointing o (handles st'))) as (h & p & Hh).
    - intros E0. rewrite E0, map_size_empty in H1. lia.
    - apply map_lookup_filter_Some in Hh as [Hh Hp]. cbn in Hp. subst p. by exists h. }
  split.
  - intros o. rewrite <- Hlive. apply Hc.
  - intros h o Hh. destruct (counted_object st' h o Hc Hh) as (x & Hx & _). exists (payload x).
    unfold deref, pointer, object. by rewrite Hh, bind_of_ok, Hx.
Qed.

(** A copy of a handle reads the same object, and still does after the original is gone. *)
Theorem refcnt_copy_shares st h g d :
  reachable st -> Z.of_nat (size (handles st)) < 2 ^ 31 - 1 -> handles st !! h = None -> deref st g = Ok d ->
  exists st1 st2, RefCnt_copy st h g = Ok st1 /\ deref st1 h = Ok d /\
    RefCnt_destruct st1 g = Ok st2 /\ deref st2 h = Ok d.
Proof.
  intros Hr Hs Hh Hd. apply reachable_counted in Hr. unfold deref, pointer in Hd.
  destruct (handles st !! g) as [[o|]|] eqn:Hg; [|done|done].
  destruct (counted_object st g o Hr Hg) as (x & Hx & _). unfold object in Hd.
  rewrite bind_of_ok, Hx, bind_of_ok in Hd. injection Hd as <-.
  assert (Hne : h <> g) by congruence.
  destruct (share_spec st h g (Some o) Hr Hg (or_introl Hh) Hs) as (st1 & E1 & Hc1 & Hh1 & Hp1).
  assert (Hh' : handles st1 !! h = Some (Some o)) by (by rewrite Hh1, lookup_insert_eq).
  destruct (counted_object st1 h o Hc1 Hh') as (x1 & Hx1 & _).
  assert (Hg1 : handles st1 !! g = Some (Some o)) by (by rewrite Hh1, lookup_insert_ne).
  destruct (freeRef_spec st1 g (Some o) Hc1 Hg1) as (st2 & E2 & Hc2 & Hh2 & Hp2).
  assert (Hh2' : handles st2 !! h = Some (Some o)) by (by rewrite Hh2, lookup_insert_ne).
  destruct (counted_object st2 h o Hc2 Hh2') as (x2 & Hx2 & _).
  exists st1, (mkStore (objects st2) (delete g (handles st2)) (next_object st2)).
  unfold RefCnt_copy, RefCnt_destruct, deref, pointer, object. rewrite E1, E2, !bind_of_ok, Hh'.
  cbn [objects handles]. rewrite lookup_delete_ne, Hh2', !bind_of_ok, Hx1, Hx2 by done.
  cbn. rewrite (Hp2 o x1 x2 Hx1 Hx2), (Hp1 o x x1 Hx Hx1). done.
Qed.

End refcnt.
Arguments RefCountable : clear implicits.
Arguments store : clear implicits.
Arguments rop : clear implicits.

Definition demo_store : store Z := Eval vm_compute in
  match exec (Make 1 42) empty_store with Ok st => st | Err _ => empty_store end.
Lemma demo_store_reachable : reachable demo_store.
Proof.
  apply (reach_step empty_store (Make 1 42)); [apply reach_empty|apply lookup_empty|reflexivity|].
  vm_compute. reflexivity.
Qed.

Lemma refcnt_never_dangles_witness :
  exists st, exec (Copy 2 1) demo_store = Ok st /\ is_Some (objects st !! 0).
Proof.
  destruct (refcnt_never_dangles demo_store (Copy 2 1) demo_store_reachable) as (st & E & Hl & _).
  - split; [reflexivity|eexists; reflexivity].
  - reflexivity.
  - exists st. split; [exact E|]. apply Hl. exists 2. vm_compute in E. injection E as <-. reflexivity.
Defined.

Lemma refcnt_copy_shares_witness :
  exists st1 st2, RefCnt_copy demo_store 2 1 = Ok st1 /\ RefCnt_destruct st1 1 = Ok st2 /\ deref st2 2 = Ok 42.
Proof.
  destruct (refcnt_copy_shares demo_store 2 1 42 demo_store_reachable) as (st1 & st2 & E1 & _ & E2 & E3);
    [reflexivity..|]. exists st1, st2. split; [exact E1|]. split; [exact E2|exact E3].
Defined.
