(* ===== verification/DelayQueue.v ===== *)
(** [gpgpu-sim/delayqueue.h]: the delay lines between the stages of the GPU's
    memory partitions.

    A [fifo_pipeline] is a linked list of slots, here the list from [m_head] to
    [m_tail]; an empty slot ([m_data == NULL]) is a bubble that takes one [pop] to
    pass.  The counters are [unsigned int]s. *)

From S2P Require Import Prelude.

Section pipeline.
  Context {A : Type}.

Record fifo_pipeline := mkFifo {
  m_min_len : Z;
  m_max_len : Z;
  m_length : Z;
  m_n_element : Z;
  slots : list (option A);
}.
Implicit Types (q : fifo_pipeline) (data : option A).

Definition with_slots q (length n_element : Z) (s : list (option A)) : fifo_pipeline :=
  mkFifo (m_min_len q) (m_max_len q) length n_element s.
Definition with_n_element q (n : Z) : fifo_pipeline :=
  mkFifo (m_min_len q) (m_max_len q) (m_length q) n (slots q).

(** A new slot at the tail, or the empty slot at the tail filled. *)
Definition push q data : outcome fifo_pipeline :=
  cassert (m_length q <? m_max_len q);;
  match last (slots q) with
  | Some tail =>
      if bool_decide (tail <> None) || (m_length q <? m_min_len q) then
        mret (with_slots q (u32 (m_length q + 1)) (u32 (m_n_element q + 1)) (slots q ++ [data]))
      else
        mret (with_slots q (m_length q) (m_n_element q)
                (take (length (slots q) - 1) (slots q) ++ [data]))
  | None => mret (with_slots q (u32 (m_length q + 1)) (u32 (m_n_element q + 1)) [data])
  end.

(** [push(NULL); m_n_element--] *)
Definition push_bubble q : outcome fifo_pipeline :=
  q' ← push q None; mret (with_n_element q' (u32 (m_n_element q' - 1))).

Definition pop q : outcome (option A * fifo_pipeline) :=
  match slots q with
  | data :: next =>
      let q1 := with_slots q (u32 (m_length q - 1)) (m_n_element q) next in
      cassert (if m_length q1 =? 0 then bool_decide (next = []) else true);;
      let q2 := with_n_element q1 (u32 (m_n_element q1 - 1)) in
      if negb (m_min_len q2 =? 0) && (m_length q2 <? m_min_len q2) then
        q3 ← push_bubble q2; mret (data, q3)
      else mret (data, q2)
  | [] => mret (None, q)
  end.

Definition top q : option A := match slots q with data :: _ => data | [] => None end.
Definition full q : bool := negb (m_max_len q =? 0) && (m_max_len q <=? m_length q).
Definition empty q : bool := bool_decide (slots q = []).
Definition get_n_element q : Z := m_n_element q.
Definition get_length q : Z := m_length q.
Definition get_max_len q : Z := m_max_len q.

Definition fifo_new (minlen maxlen : Z) : outcome fifo_pipeline :=
  cassert (negb (maxlen =? 0));;
  for_range 0 minlen (fun _ q => push q None) (mkFifo minlen maxlen 0 0 []).

(** [while (m_length < m_min_len)]: one bubble a round. *)
Fixpoint pad (fuel : nat) q : outcome fifo_pipeline :=
  match fuel with
  | O => Err OutOfFuel
  | S fuel' => if m_length q <? m_min_len q then q' ← push_bubble q; pad fuel' q' else Ok q
  end.

(** [m_tail->m_data == 0] *)
Definition tail_empty q : bool := match last (slots q) with Some None => true | _ => false end.

(** [while (m_length > m_min_len && m_tail->m_data == 0)]: one slot a round. *)
Fixpoint trim (fuel : nat) q : outcome fifo_pipeline :=
  match fuel with
  | O => Err OutOfFuel
  | S fuel' =>
      if (m_min_len q <? m_length q) && tail_empty q then
        if (length (slots q) =? 1)%nat then '(_, q') ← pop q; trim fuel' q'
        else trim fuel' (with_slots q (u32 (m_length q - 1)) (m_n_element q)
                           (take (length (slots q) - 1) (slots q)))
      else Ok q
  end.

Definition set_min_length (fuel : nat) q (new_min_len : Z) : outcome fifo_pipeline :=
  if new_min_len =? m_min_len q then mret q
  else
    let q1 := mkFifo new_min_len (m_max_len q) (m_length q) (m_n_element q) (slots q) in
    if m_min_len q <? new_min_len then pad fuel q1
    else cassert (negb (empty q));; trim fuel q1.

(** * Correctness *)

Record fifo_wf q : Prop := {
  fw_length : m_length q = zlen (slots q);
  fw_min : 0 <= m_min_len q <= m_length q;
  fw_max : m_length q <= m_max_len q < 2 ^ 32;
}.

(** The items on the way, oldest first. *)
Definition items q : list A := omap id (slots q).

Lemma last_split (l : list (option A)) x : last l = Some x -> l = take (length l - 1) l ++ [x].
Proof.
  intros H. apply last_Some in H as [l' ->]. rewrite length_app, Nat.add_sub, take_app_length. done.
Qed.

Lemma omap_snoc (l : list (option A)) x :
  omap id (l ++ [x]) = omap id l ++ match x with Some a => [a] | None => [] end.
Proof. rewrite omap_app. by destruct x. Qed.

(** [push] on a pipeline with room: the tail is a bubble that is filled, or a
    slot is added. *)
Lemma push_spec q data :
  m_length q = zlen (slots q) -> m_length q < m_max_len q < 2 ^ 32 ->
  exists q', push q data = Ok q' /\ m_min_len q' = m_min_len q /\ m_max_len q' = m_max_len q /\
    m_length q' = zlen (slots q') /\
    ((slots q' = slots q ++ [data] /\ m_length q' = m_length q + 1) \/
     (exists s, slots q = s ++ [None] /\ slots q' = s ++ [data] /\ m_length q' = m_length q /\
        m_min_len q <= m_length q)).
Proof.
  intros Hl Hm. unfold push. rewrite cassert_true, bind_of_ok by (apply Z.ltb_lt; lia).
  pose proof (zlen_nonneg (slots q)) as Hnn.
  destruct (last (slots q)) as [tail|] eqn:Ht.
  - apply last_split in Ht as Es. set (s := take (length (slots q) - 1) (slots q)) in *.
    destruct (bool_decide (tail <> None) || (m_length q <? m_min_len q)) eqn:Eb.
    + eexists. split; [done|]. cbn. rewrite uwrap_small by lia. rewrite zlen_app. change (zlen [data]) with 1.
      split_and!; [done|done|lia|]. by left.
    + apply orb_false_iff in Eb as [Eb1 Eb2]. apply bool_decide_eq_false in Eb1. apply Z.ltb_ge in Eb2.
      assert (tail = None) as -> by (destruct tail; [by destruct Eb1|done]).
      eexists. split; [done|]. cbn. assert (Hz : zlen (slots q) = zlen s + 1)
        by (rewrite Es at 1; by rewrite zlen_app).
      rewrite zlen_app. change (zlen [data]) with 1. split_and!; [done|done|lia|]. right. by exists s.
  - apply last_None in Ht. assert (m_length q = 0) as H0 by (by rewrite Hl, Ht). rewrite H0, Ht in *.
    eexists. split; [done|]. cbn. rewrite uwrap_small by lia. change (zlen [data]) with 1.
    split_and!; [done|done|lia|]. left. split; [done|lia].
Qed.

Lemma push_wf q data :
  fifo_wf q -> m_length q < m_max_len q ->
  exists q', push q data = Ok q' /\ fifo_wf q' /\
    items q' = items q ++ (match data with Some a => [a] | None => [] end) /\
    (forall i a, slots q !! i = Some (Some a) -> slots q' !! i = Some (Some a)) /\
    slots q' !! Nat.pred (length (slots q')) = Some data.
Proof.
  intros [Hl Hmin Hmax] Hroom. destruct (push_spec q data Hl ltac:(lia)) as (q' & -> & Emin & Emax & Hl' & Hcase).
  exists q'. split; [done|]. unfold items. split_and!.
  - assert (m_length q <= m_length q' <= m_length q + 1) by (destruct Hcase as [[_ ->]|(s & _ & _ & -> & _)]; lia).
    split; [done|lia|lia].
  - destruct Hcase as [[-> _]|(s & -> & -> & _)]; rewrite !omap_snoc; [done|]. by rewrite app_nil_r.
  - intros i a Hi. destruct Hcase as [[-> _]|(s & Es & -> & _)].
    + by apply lookup_app_l_Some.
    + rewrite Es in Hi. apply lookup_app_Some in Hi as [Hi|[Hge Hi]]; [by apply lookup_app_l_Some|].
      apply list_lookup_singleton_Some in Hi as [_ Hi]. done.
  - destruct Hcase as [[-> _]|(s & _ & -> & _)]; rewrite length_app, Nat.add_1_r; cbn [Nat.pred];
      by rewrite lookup_app_r, Nat.sub_diag by lia.
Qed.

Lemma pop_wf q :
  fifo_wf q -> exists q', pop q = Ok (top q, q') /\ fifo_wf q' /\
    items q = (match top q with Some a => [a] | None => [] end) ++ items q' /\
    (forall i a, slots q !! S i = Some (Some a) -> slots q' !! i = Some (Some a)).
Proof.
  intros [Hl Hmin Hmax]. unfold pop, top, items. destruct (slots q) as [|d next] eqn:Es.
  { exists q. split; [done|]. split; [split; rewrite ?Es; lia|]. rewrite Es. done. }
  assert (Hlen : m_length q = zlen next + 1) by (rewrite Hl; unfold zlen; simpl; lia).
  pose proof (zlen_nonneg next) as Hnn. cbv zeta. cbn [with_slots with_n_element m_length m_n_element m_min_len].
  rewrite uwrap_small by lia. rewrite cassert_true, bind_of_ok.
  2: { destruct (Z.eqb_spec (m_length q - 1) 0); [|done]. apply bool_decide_eq_true.
       apply nil_length_inv. unfold zlen in *. lia. }
  assert (Hitems : forall l : list (option A), omap id (d :: l) = match d with Some a => [a] | None => [] end ++ omap id l)
    by (intros l; by destruct d).
  match goal with |- context [push_bubble ?x] => set (q2 := x) end.
  destruct (negb (m_min_len q =? 0) && (m_length q - 1 <? m_min_len q)) eqn:Eb.
  - to_prop. unfold push_bubble.
    destruct (push_spec q2 None) as (q3 & -> & Emin & Emax & Hl3 & Hcase); [cbn; lia|cbn; lia|]. rewrite bind_of_ok.
    cbn in Emin, Emax, Hcase. destruct Hcase as [[Hs3 Hn3]|(s & _ & _ & _ & Hbad)]; [|lia].
    eexists. split; [done|]. cbn [with_n_element slots]. rewrite Hs3. split_and!.
    + split; cbn; lia.
    + rewrite Hitems, omap_snoc, app_nil_r. done.
    + intros i a Hi. by apply lookup_app_l_Some.
  - eexists. split; [done|]. split_and!; [|apply Hitems|done].
    assert (m_min_len q <= m_length q - 1)
      by (destruct (Z.eqb_spec (m_min_len q) 0), (Z.ltb_spec (m_length q - 1) (m_min_len q)); try done; lia).
    split; cbn; lia.
Qed.

(** The bounds stay. *)
Lemma push_max q d q' : push q d = Ok q' -> m_max_len q' = m_max_len q /\ m_min_len q' = m_min_len q.
Proof. intros E. unfold push in E. ok_inv. repeat case_match; ok_inv; subst; done. Qed.
Lemma pop_max q d q' : pop q = Ok (d, q') -> m_max_len q' = m_max_len q /\ m_min_len q' = m_min_len q.
Proof.
  intros E. unfold pop, push_bubble in E. destruct (slots q); ok_inv; [simplify_eq; done|].
  case_match; ok_inv; simplify_eq; [|done]. cbn.
  match goal with E : push _ None = Ok _ |- _ => by destruct (push_max _ _ _ E) as [-> ->] end.
Qed.

Lemma fifo_new_wf minlen maxlen :
  0 <= minlen <= maxlen -> 0 < maxlen < 2 ^ 32 ->
  exists q, fifo_new minlen maxlen = Ok q /\ fifo_wf q /\ items q = [] /\
    m_min_len q = minlen /\ m_max_len q = maxlen.
Proof.
  intros Hmin Hmax. unfold fifo_new. rewrite cassert_true, bind_of_ok
    by (by rewrite (proj2 (Z.eqb_neq maxlen 0)) by lia).
  destruct (for_range_inv (fun k q => m_length q = k /\ m_length q = zlen (slots q) /\ items q = [] /\
      m_min_len q = minlen /\ m_max_len q = maxlen) 0 minlen (fun _ q => push q None)
      (mkFifo minlen maxlen 0 0 [])) as (q & -> & Hk & Hl & Hi & Emin & Emax); [lia|done| |].
  - intros k q Hk (Hl & Hz & Hi & Emin & Emax).
    destruct (push_spec q None Hz ltac:(lia)) as (q' & -> & Emin' & Emax' & Hz' & [[Hs Hn]|(s & _ & _ & _ & Hbad)]); [|lia].
    exists q'. split; [done|]. unfold items in *. rewrite Hs, omap_snoc, Hi, <- Hs. split_and!; (done || lia).
  - exists q. split_and!; try done. split; lia.
Qed.

Lemma pad_spec fuel q :
  m_length q = zlen (slots q) -> 0 <= m_min_len q <= m_max_len q -> m_length q <= m_max_len q < 2 ^ 32 ->
  Z.max 0 (m_min_len q - m_length q) < Z.of_nat fuel -> exists q', pad fuel q = Ok q' /\ fifo_wf q' /\ items q' = items q /\
    m_min_len q' = m_min_len q /\ m_max_len q' = m_max_len q /\ m_length q' <= Z.max (m_length q) (m_min_len q).
Proof.
  revert q. induction fuel as [|fuel IH]; intros q Hl Hmin Hmax Hf; cbn [pad].
  - lia.
  - destruct (Z.ltb_spec (m_length q) (m_min_len q)); [|exists q; split_and!; try done; [split; lia|lia]].
    unfold push_bubble.
    destruct (push_spec q None Hl ltac:(lia)) as (q1 & -> & Emin & Emax & Hl1 & [[Hs Hn]|(s & _ & _ & _ & Hbad)]); [|lia].
    rewrite !bind_of_ok. destruct (IH (with_n_element q1 (u32 (m_n_element q1 - 1)))) as (q2 & -> & Hw & Hi & E1 & E2 & E3);
      [cbn; lia..|]. exists q2. cbn [with_n_element m_min_len m_max_len m_length] in *. split_and!; [done|done| |lia|lia|lia].
    rewrite Hi. unfold items. cbn [with_n_element slots]. by rewrite Hs, omap_snoc, app_nil_r.
Qed.

Lemma trim_spec fuel q :
  fifo_wf q -> m_length q < Z.of_nat fuel ->
  exists q', trim fuel q = Ok q' /\ fifo_wf q' /\ items q' = items q /\
    m_min_len q' = m_min_len q /\ m_max_len q' = m_max_len q /\ m_length q' <= m_length q.
Proof.
  revert q. induction fuel as [|fuel IH]; intros q Hq Hf; pose proof Hq as [Hl Hmin Hmax]; cbn [trim]; [lia|].
  destruct ((m_min_len q <? m_length q) && tail_empty q) eqn:Eb; [|by exists q].
  apply andb_true_iff in Eb as [Hlt Ht]. apply Z.ltb_lt in Hlt. unfold tail_empty in Ht.
  destruct (last (slots q)) as [[|]|] eqn:El; try done. apply last_split in El.
  set (s := take (length (slots q) - 1) (slots q)) in *.
  assert (Hz : zlen (slots q) = zlen s + 1) by (rewrite El at 1; by rewrite zlen_app).
  assert (Hit : items q = omap id s) by (unfold items; rewrite El, omap_snoc, app_nil_r; done).
  destruct (Nat.eqb_spec (length (slots q)) 1) as [H1|H1].
  - assert (Hs : slots q = [None]).
    { rewrite El. destruct s; [done|]. exfalso. rewrite El in H1. simpl in H1. rewrite length_app in H1. simpl in H1. lia. }
    assert (m_length q = 1) by (rewrite Hl; unfold zlen; lia).
    unfold pop. rewrite Hs. cbv zeta. cbn [with_slots with_n_element m_length m_min_len m_n_element].
    assert (m_min_len q = 0) as E0 by lia. rewrite E0. cbn [Z.eqb negb andb].
    rewrite uwrap_small by lia. rewrite cassert_true, !bind_of_ok by (by case_match).
    match goal with |- context [trim fuel ?x] => destruct (IH x) as (q' & -> & Hw & Hi & E1 & E2 & E3) end.
    + split; cbn; rewrite ?H; try done; lia.
    + cbn. lia.
    + exists q'. cbn in E3. split_and!; [done|done| |by rewrite E1|by rewrite E2|lia]. rewrite Hi. unfold items. cbn. by rewrite Hs.
  - rewrite uwrap_small by (pose proof (zlen_nonneg s); lia).
    destruct (IH (with_slots q (m_length q - 1) (m_n_element q) s)) as (q' & -> & Hw & Hi & E1 & E2 & E3).
    + split; cbn; lia.
    + cbn. lia.
    + exists q'. cbn in E3. split_and!; [done|done| |done|done|lia]. rewrite Hi, Hit. done.
Qed.

(** Changing the minimum length keeps every item, in order. *)
Theorem set_min_length_keeps_items fuel q n :
  fifo_wf q -> 0 <= n <= m_max_len q -> m_max_len q < Z.of_nat fuel ->
  exists q', set_min_length fuel q n = Ok q' /\ fifo_wf q' /\ items q' = items q /\ m_min_len q' = n /\
    m_max_len q' = m_max_len q /\ m_length q' <= Z.max (m_length q) n.
Proof.
  intros [Hl Hmin Hmax] Hn Hf. unfold set_min_length. destruct (Z.eqb_spec n (m_min_len q)) as [->|Hne].
  { exists q. split_and!; try done; first [lia|split; lia]. }
  cbv zeta. destruct (Z.ltb_spec (m_min_len q) n).
  - destruct (pad_spec fuel (mkFifo n (m_max_len q) (m_length q) (m_n_element q) (slots q)))
      as (q' & -> & Hw & Hi & E & E'); [cbn; pose proof (zlen_nonneg (slots q)); lia..|]. exists q'. cbn in E'. destruct E' as [E' E'']. split_and!; try done.
  - rewrite cassert_true, bind_of_ok.
    2: { unfold empty. rewrite bool_decide_eq_false_2; [done|]. intros E. rewrite E in Hl.
         unfold zlen in Hl. simpl in Hl. lia. }
    destruct (trim_spec fuel (mkFifo n (m_max_len q) (m_length q) (m_n_element q) (slots q)))
      as (q' & -> & Hw & Hi & E & E'); [split; cbn; lia|cbn; lia|]. exists q'. cbn in E'. destruct E' as [E' E'']. split_and!; try done. lia.
Qed.

(** ** Queues without a minimum length

    They have no bubbles. *)
Definition solid q : Prop := m_min_len q = 0 /\ Forall is_Some (slots q).

Lemma solid_new q n : fifo_new 0 n = Ok q -> solid q.
Proof. unfold fifo_new. intros H. ok_inv. injection H0 as <-. by split. Qed.

Lemma solid_push q a q' : solid q -> push q (Some a) = Ok q' -> solid q'.
Proof.
  intros [H0 Hs] E. destruct (push_max _ _ _ E) as [_ Em]. split; [congruence|].
  unfold push in E. ok_inv. repeat case_match; ok_inv; simplify_eq/=.
  - apply Forall_app. split; [done|by repeat constructor].
  - apply Forall_app. split; [by apply Forall_take|by repeat constructor].
  - by repeat constructor.
Qed.

Lemma solid_pop q d q' : solid q -> pop q = Ok (d, q') -> solid q' /\ (empty q = false -> is_Some d).
Proof.
  intros [H0 Hs] E. destruct (pop_max _ _ _ E) as [_ Em]. unfold pop, empty in *.
  destruct (slots q) as [|x next] eqn:Es.
  - injection E as <- <-. split; [|by rewrite bool_decide_eq_true_2]. split; [done|]. by rewrite Es.
  - apply Forall_cons in Hs as [Hx Hn]. cbn in E. rewrite H0 in E. cbn in E. ok_inv. simplify_eq. split; [|done]. by split.
Qed.

Lemma solid_empty q : solid q -> empty q = bool_decide (items q = []).
Proof.
  intros [_ Hs]. unfold empty, items. apply bool_decide_ext. split; [by intros ->|].
  destruct (slots q) as [|[a|] l]; [done|done|]. apply Forall_cons in Hs as [[? ?] _]. done.
Qed.

Lemma solid_top q : solid q -> top q = head (items q).
Proof.
  intros [_ Hs]. unfold top, items. destruct (slots q) as [|[a|] l]; [done|done|].
  apply Forall_cons in Hs as [[? ?] _]. done.
Qed.

(** ** What a client sees *)

(** A client offers items, which are refused while the pipeline is full, and
    pops. *)
Inductive fop := Offer (a : A) | Pop.

Fixpoint run (ops : list fop) q : outcome (list A * list (option A) * fifo_pipeline) :=
  match ops with
  | [] => mret ([], [], q)
  | Offer a :: ops' =>
      if full q then run ops' q
      else q' ← push q (Some a); '(acc, outs, q'') ← run ops' q'; mret (a :: acc, outs, q'')
  | Pop :: ops' =>
      '(d, q') ← pop q; '(acc, outs, q'') ← run ops' q'; mret (acc, d :: outs, q'')
  end.

Lemma full_room q : fifo_wf q -> 0 < m_max_len q -> full q = false -> m_length q < m_max_len q.
Proof.
  intros _ Hm. unfold full. rewrite (proj2 (Z.eqb_neq _ 0)) by lia. cbn [negb andb]. intros H%Z.leb_gt. lia.
Qed.

Lemma run_spec ops q :
  fifo_wf q -> 0 < m_max_len q ->
  exists acc outs q', run ops q = Ok (acc, outs, q') /\ fifo_wf q' /\
    items q ++ acc = omap id outs ++ items q' /\
    forall i a, slots q !! i = Some (Some a) -> (i < length outs)%nat -> outs !! i = Some (Some a).
Proof.
  revert q. induction ops as [|[a|] ops IH]; intros q Hq Hm; cbn [run].
  - exists [], [], q. rewrite app_nil_r. split_and!; [done|done|done|]. cbn. lia.
  - destruct (full q) eqn:Hf; [by apply IH|].
    destruct (push_wf q (Some a) Hq (full_room q Hq Hm Hf)) as (q1 & E1 & H1 & Hi1 & Hk1 & _).
    rewrite E1, bind_of_ok. destruct (IH q1 H1) as (acc & outs & q' & -> & Hq' & Hi & Hk);
      [by destruct (push_max _ _ _ E1) as [-> _]|]. rewrite bind_of_ok. eexists _, _, _. split; [done|].
    split; [done|]. split; [|eauto]. rewrite <- Hi, Hi1, <- app_assoc. done.
  - destruct (pop_wf q Hq) as (q1 & E1 & H1 & Hi1 & Hk1). rewrite E1, bind_of_ok.
    destruct (IH q1 H1) as (acc & outs & q' & -> & Hq' & Hi & Hk); [by destruct (pop_max _ _ _ E1) as [-> _]|].
    rewrite bind_of_ok. eexists _, _, _. split; [done|]. split; [done|]. split.
    + rewrite Hi1, <- app_assoc, Hi, app_assoc. f_equal. cbn. by destruct (top q).
    + intros [|i] a Hs Hlt; cbn in *; [|apply Hk; [by apply Hk1|lia]].
      unfold top. destruct (slots q); [done|]. by injection Hs as ->.
Qed.

(** A client that offers items while the pipeline is not full and pops at will never
    meets a failed assertion, and the items come out in the order in which they were
    accepted, with none lost or doubled. *)
Theorem pipeline_in_order ops q :
  fifo_wf q -> 0 < m_max_len q ->
  exists acc outs q', run ops q = Ok (acc, outs, q') /\ fifo_wf q' /\
    items q ++ acc = omap id outs ++ items q'.
Proof.
  intros Hq Hm. destruct (run_spec ops q Hq Hm) as (acc & outs & q' & E & Hq' & Hi & _). by exists acc, outs, q'.
Qed.

(** An item pushed into a pipeline comes out at the pop whose number is the length of
    the pipeline at the push, never before the minimum length, whatever is pushed and
    popped in between. *)
Theorem pipeline_delays q a ops :
  fifo_wf q -> 0 < m_max_len q -> full q = false ->
  exists q1 n acc outs q2, push q (Some a) = Ok q1 /\ m_min_len q <= Z.of_nat (S n) /\
    Z.of_nat (S n) = get_length q1 /\ run ops q1 = Ok (acc, outs, q2) /\
    ((n < length outs)%nat -> outs !! n = Some (Some a)).
Proof.
  intros Hq Hm Hf. pose proof (full_room q Hq Hm Hf) as Hroom.
  destruct (push_wf q (Some a) Hq Hroom) as (q1 & E & Hw & _ & _ & Hlast).
  destruct (push_spec q (Some a) (fw_length _ Hq)) as (q1' & E' & Emin & Emax & _);
    [pose proof (fw_max _ Hq); lia|]. rewrite E in E'. injection E' as <-.
  destruct (run_spec ops q1 Hw) as (acc & outs & q2 & Er & _ & _ & Hout); [lia|].
  exists q1, (Nat.pred (length (slots q1))), acc, outs, q2.
  assert (length (slots q1) <> 0)%nat by (intros H0; apply nil_length_inv in H0; rewrite H0 in Hlast; done).
  pose proof (fw_length _ Hw) as Hl. pose proof (fw_min _ Hw) as Hmin. unfold zlen in Hl. unfold get_length.
  split_and!; [done|lia|lia|done|]. intros Hn. by apply Hout.
Qed.

End pipeline.
Arguments fifo_pipeline : clear implicits.

Arguments fop : clear implicits.

(** [get_n_element] counts bubbles out that were never counted in: two pops of an
    idle pipeline of length one and it wraps around. *)
Theorem n_element_wraps :
  exists q0 q1 q2 : fifo_pipeline unit, fifo_new 1 2 = Ok q0 /\ pop q0 = Ok (None, q1) /\
    pop q1 = Ok (None, q2) /\ items q2 = [] /\ get_n_element q2 = 2 ^ 32 - 1.
Proof.
  eexists _, _, _. split; [vm_compute; reflexivity|]. split; [vm_compute; reflexivity|].
  split; [vm_compute; reflexivity|]. split; vm_compute; reflexivity.
Qed.

Definition demo_fifo : fifo_pipeline Z := Eval vm_compute in
  match fifo_new 2 4 with Ok q => q | Err _ => mkFifo 0 0 0 0 [] end.

Lemma demo_fifo_wf : fifo_wf demo_fifo.
Proof. split; vm_compute; [reflexivity|split; discriminate|split; [discriminate|reflexivity]]. Qed.

Lemma set_min_length_keeps_items_witness :
  exists q, set_min_length 8 demo_fifo 1 = Ok q /\ items q = [].
Proof.
  destruct (set_min_length_keeps_items 8 demo_fifo 1 demo_fifo_wf) as (q & E & _ & Hi & _);
    [vm_compute; split; discriminate|reflexivity|]. exists q. split; [exact E|rewrite Hi; reflexivity].
Defined.

Lemma pipeline_in_order_witness :
  exists acc outs q, run [Offer 7; Pop; Offer 8; Pop; Pop] demo_fifo = Ok (acc, outs, q) /\
    acc = omap id outs ++ items q.
Proof.
  destruct (pipeline_in_order [Offer 7; Pop; Offer 8; Pop; Pop] demo_fifo demo_fifo_wf)
    as (acc & outs & q & E & _ & Hi); [reflexivity|]. exists acc, outs, q. split; [exact E|exact Hi].
Defined.

Lemma pipeline_delays_witness :
  exists q1 n acc outs q2, push demo_fifo (Some 7) = Ok q1 /\ 2 <= Z.of_nat (S n) /\
    run [Pop; Pop; Pop; Pop; Pop] q1 = Ok (acc, outs, q2) /\ ((n < length outs)%nat -> outs !! n = Some (Some 7)).
Proof.
  destruct (pipeline_delays demo_fifo 7 [Pop; Pop; Pop; Pop; Pop] demo_fifo_wf)
    as (q1 & n & acc & outs & q2 & E & Hn & _ & Er & Ho); [reflexivity|reflexivity|].
  exists q1, n, acc, outs, q2. split; [exact E|]. split; [exact Hn|]. split; [exact Er|exact Ho].
Defined.
