(* ===== verification/Bitset.v ===== *)
(** * Bit sets

    [std::bitset<n>], the type of warp masks ([active_mask_t], [simt_mask_t]), of
    byte masks ([mem_access_byte_mask_t]) and of chunk masks in the GPU model.  A
    bit set is the number its bits spell; [test], [set] and [reset] check their
    position against the width and throw [std::out_of_range] outside it. *)

From S2P Require Import Prelude.

Definition btest (width m i : Z) : outcome bool :=
  if (0 <=? i) && (i <? width) then Ok (Z.testbit m i) else Err Thrown.
Definition bset (width m i : Z) : outcome Z :=
  if (0 <=? i) && (i <? width) then Ok (Z.setbit m i) else Err Thrown.
Definition breset (width m i : Z) : outcome Z :=
  if (0 <=? i) && (i <? width) then Ok (Z.clearbit m i) else Err Thrown.
(** [any()] and [count()]. *)
Definition any (m : Z) : bool := negb (m =? 0).
Definition lanes (width m : Z) : list Z := filter (fun i => Z.testbit m i) (seqZ 0 width).
Definition bcount (width m : Z) : Z := zlen (lanes width m).

(** [within w m]: no bit from [w] on is set. *)
Definition within (w m : Z) : Prop := forall i, Z.testbit m i = true -> 0 <= i < w.

Lemma btest_in width m i : 0 <= i < width -> btest width m i = Ok (Z.testbit m i).
Proof. intros Hi. unfold btest. by rewrite (proj2 (Z.leb_le 0 i)), (proj2 (Z.ltb_lt i _)) by lia. Qed.
Lemma bset_in width m i : 0 <= i < width -> bset width m i = Ok (Z.setbit m i).
Proof. intros Hi. unfold bset. by rewrite (proj2 (Z.leb_le 0 i)), (proj2 (Z.ltb_lt i _)) by lia. Qed.
Lemma breset_in width m i : 0 <= i < width -> breset width m i = Ok (Z.clearbit m i).
Proof. intros Hi. unfold breset. by rewrite (proj2 (Z.leb_le 0 i)), (proj2 (Z.ltb_lt i _)) by lia. Qed.

Lemma testbit_setbit m i j : 0 <= i -> Z.testbit (Z.setbit m i) j = (i =? j) || Z.testbit m j.
Proof. intros. by apply Z.setbit_eqb. Qed.
Lemma testbit_clearbit m i j : Z.testbit (Z.clearbit m i) j = Z.testbit m j && negb (i =? j).
Proof. apply Z.clearbit_eqb. Qed.

Lemma mask_false m i : Z.testbit m i = false <-> Z.testbit m i <> true.
Proof. destruct (Z.testbit m i); naive_solver. Qed.

Lemma any_false m : any m = false <-> forall i, Z.testbit m i = false.
Proof.
  unfold any. rewrite negb_false_iff, Z.eqb_eq. split.
  - intros -> i. apply Z.bits_0.
  - apply Z.bits_inj_0.
Qed.

Lemma any_intro m i : Z.testbit m i = true -> any m = true.
Proof.
  intros H. destruct (any m) eqn:E; [done|]. rewrite any_false in E. by rewrite E in H.
Qed.

Lemma within_0 w : within w 0.
Proof. intros i. by rewrite Z.bits_0. Qed.

Lemma within_sub w m m' :
  within w m -> (forall i, Z.testbit m' i = true -> Z.testbit m i = true) -> within w m'.
Proof. unfold within. naive_solver. Qed.

Lemma any_elem w m : within w m -> any m = true -> exists i, 0 <= i < w /\ Z.testbit m i = true.
Proof.
  intros Hw Ha. destruct (search 0 w (fun i => Z.testbit m i)) as [i|] eqn:E.
  - apply search_some in E. exists i. split; [lia|apply E].
  - rewrite search_none in E. assert (any m = false) as E'; [|congruence].
    apply any_false. intros i. destruct (Z.testbit m i) eqn:Hi; [|done].
    rewrite E in Hi by (by apply Hw). done.
Qed.

Lemma elem_of_lanes width m i : i ∈ lanes width m <-> 0 <= i < width /\ Z.testbit m i = true.
Proof.
  unfold lanes. rewrite list_elem_of_filter, elem_of_seqZ. rewrite Is_true_true. intuition lia.
Qed.

Lemma bcount_range width m : 0 <= width -> 0 <= bcount width m <= width.
Proof.
  intros Hw. split; [apply zlen_nonneg|]. unfold bcount, zlen, lanes.
  pose proof (length_filter (fun i => Z.testbit m i) (seqZ 0 width)) as H.
  rewrite length_seqZ in H. lia.
Qed.

Lemma bcount_zero width m : within width m -> bcount width m = 0 <-> any m = false.
Proof.
  intros Hw. unfold bcount, zlen. rewrite any_false. split.
  - intros H i. destruct (Z.testbit m i) eqn:Hi; [|done].
    assert (i ∈ lanes width m) as Hin by (apply elem_of_lanes; split; [by apply Hw|done]).
    destruct (lanes width m); [by apply elem_of_nil in Hin|simpl in H; lia].
  - intros H. destruct (lanes width m) as [|i l] eqn:E; [done|].
    assert (i ∈ lanes width m) as [_ Hi]%elem_of_lanes by (rewrite E; left). by rewrite H in Hi.
Qed.
