(* ===== verification/SimtStack.v ===== *)
(** * SIMT reconvergence stack

    [simt_stack] of [abstract_hardware_model.{h,cc}]: the stack by which a warp of
    threads that share one program counter executes divergent branches.  [update]
    is called after each instruction with the next program counter of each lane,
    the set of lanes that have exited and the reconvergence point of the
    instruction; it groups the lanes of the top entry by their next counter and
    pushes one entry for each group above an entry that waits at the
    reconvergence point.

    The program counter of a lane is that of the topmost entry whose mask holds it
    ([thread_pc]).  The theorems say that [update] moves each lane of the top entry
    to its own next counter and no other lane anywhere, as long as reconvergence
    points are post-dominators in the sense of [pdom_ok]; over a whole run the
    stack executes every live lane at its own counter. *)

From S2P Require Import Prelude Bitset.

(** The operations the timing model can see. *)
Inductive uarch_op_t :=
  | NO_OP | ALU_OP | SFU_OP | ALU_SFU_OP | LOAD_OP | STORE_OP | BRANCH_OP
  | BARRIER_OP | MEMORY_BARRIER_OP | CALL_OPS | RET_OPS.
#[export] Instance uarch_op_eq_dec : EqDecision uarch_op_t.
Proof. solve_decision. Defined.

Inductive stack_entry_type := STACK_ENTRY_TYPE_NORMAL | STACK_ENTRY_TYPE_CALL.
#[export] Instance stack_entry_type_eq_dec : EqDecision stack_entry_type.
Proof. solve_decision. Defined.

Definition MAX_WARP_SIZE : Z := 32.

Record simt_stack_entry := mkStackEntry {
  m_pc : Z;
  m_calldepth : Z;
  m_active_mask : Z;
  m_recvg_pc : Z;
  m_branch_div_cycle : Z;
  m_type : stack_entry_type;
}.

(** [(address_type)-1] *)
Definition null_pc : Z := 2 ^ 32 - 1.

Definition simt_stack_entry_new : simt_stack_entry :=
  mkStackEntry null_pc 0 0 null_pc 0 STACK_ENTRY_TYPE_NORMAL.

(** The deque [m_stack] with its back first. *)
Record simt_stack := mkSimtStack {
  m_warp_id : Z;
  m_warp_size : Z;
  m_stack : list simt_stack_entry;
}.

Definition reset (s : simt_stack) : simt_stack := mkSimtStack (m_warp_id s) (m_warp_size s) [].
Definition simt_stack_new (wid warpSize : Z) : simt_stack := reset (mkSimtStack wid warpSize []).

Definition launch (s : simt_stack) (start_pc active_mask : Z) : simt_stack :=
  mkSimtStack (m_warp_id s) (m_warp_size s)
    [mkStackEntry start_pc 1 active_mask null_pc 0 STACK_ENTRY_TYPE_NORMAL].

Definition back (l : list simt_stack_entry) : outcome simt_stack_entry :=
  match l with e :: _ => Ok e | [] => Err AssertFailed end.
Definition get_active_mask (s : simt_stack) : outcome Z :=
  e ← back (m_stack s); mret (m_active_mask e).
Definition get_pdom_stack_top_info (s : simt_stack) : outcome (Z * Z) :=
  e ← back (m_stack s); mret (m_pc e, m_recvg_pc e).
Definition get_rp (s : simt_stack) : outcome Z :=
  e ← back (m_stack s); mret (m_recvg_pc e).

Section update.
Context (warp_size thread_done : Z) (next_pc : list Z) (recvg_pc : Z) (next_inst_op : uarch_op_t).
(** [gpu_sim_cycle + gpu_tot_sim_cycle] *)
Context (cycle : Z).

Abbreviation mask_test := (btest MAX_WARP_SIZE).
Abbreviation mask_set := (bset MAX_WARP_SIZE).
Abbreviation mask_reset := (breset MAX_WARP_SIZE).

(** The inner loop: one round for lane [i] on [tmp_next_pc], [tmp_active_mask] and
    [top_active_mask]. *)
Definition group_lane (i : Z) (st : Z * Z * Z) : outcome (Z * Z * Z) :=
  let '(pc, group, top) := st in
  active ← mask_test top i;
  if active : bool then
    don ← mask_test thread_done i;
    if don : bool then top' ← mask_reset top i; mret (pc, group, top')
    else if pc =? null_pc then
      n ← aread next_pc i;
      group' ← mask_set group i;
      top' ← mask_reset top i;
      mret (n, group', top')
    else
      n ← aread next_pc i;
      if pc =? n then
        group' ← mask_set group i;
        top' ← mask_reset top i;
        mret (pc, group', top')
      else mret (pc, group, top)
  else mret (pc, group, top).

Definition extract_group (top : Z) : outcome (Z * Z * Z) :=
  for_range_down (warp_size - 1) 0 group_lane (null_pc, 0, top).

(** The variables of the [while] loop. *)
Record loop_state := mkLoop {
  l_stack : list simt_stack_entry;
  top_active_mask : Z;
  warp_diverged : bool;
  new_recvg_pc : Z;
}.

Inductive round_result :=
  | Continue (l : loop_state)
  | Return (st : list simt_stack_entry).

Definition with_pc (e : simt_stack_entry) (pc : Z) : simt_stack_entry :=
  mkStackEntry pc (m_calldepth e) (m_active_mask e) (m_recvg_pc e) (m_branch_div_cycle e) (m_type e).

(** [top_recvg_pc], [top_type] belong to the entry that was on top on entry. *)
Definition update_round (top_recvg_pc : Z) (top_type : stack_entry_type) (l : loop_state) :
    outcome round_result :=
  '(tmp_next_pc, tmp_active_mask, top) ← extract_group (top_active_mask l);
  let l := mkLoop (l_stack l) top (warp_diverged l) (new_recvg_pc l) in
  if tmp_next_pc =? null_pc then
    cassert (negb (any top));; mret (Continue l)
  else if bool_decide (next_inst_op = CALL_OPS) then
    cassert (negb (any top));;
    mret (Return (mkStackEntry tmp_next_pc 0 tmp_active_mask null_pc cycle STACK_ENTRY_TYPE_CALL
                  :: l_stack l))
  else if bool_decide (next_inst_op = RET_OPS) && bool_decide (top_type = STACK_ENTRY_TYPE_CALL) then
    cassert (negb (any top));;
    match l_stack l with
    | _ :: e :: rest =>
        if (tmp_next_pc =? m_recvg_pc e) && negb (bool_decide (m_type e = STACK_ENTRY_TYPE_CALL)) then
          cassert (bool_decide (m_type e = STACK_ENTRY_TYPE_NORMAL));; mret (Return rest)
        else mret (Return (with_pc e tmp_next_pc :: rest))
    | _ => Err AssertFailed
    end
  else if (tmp_next_pc =? top_recvg_pc) && negb (bool_decide (top_type = STACK_ENTRY_TYPE_CALL)) then
    mret (Continue l)
  else
    b ← back (l_stack l);
    let below := tail (l_stack l) in
    let diverges := any top && negb (warp_diverged l) in
    let diverged := diverges || warp_diverged l in
    let new_recvg := if diverges then recvg_pc else new_recvg_pc l in
    let stack :=
      if diverges && negb (recvg_pc =? top_recvg_pc) then
        simt_stack_entry_new ::
        mkStackEntry recvg_pc (m_calldepth b) (m_active_mask b) (m_recvg_pc b) cycle (m_type b) :: below
      else l_stack l in
    if diverged && (tmp_next_pc =? new_recvg) then mret (Continue (mkLoop stack top diverged new_recvg))
    else
      b ← back stack;
      let e := mkStackEntry tmp_next_pc (if diverged then 0 else m_calldepth b) tmp_active_mask
                 (if diverged then new_recvg else top_recvg_pc) (m_branch_div_cycle b) (m_type b) in
      mret (Continue (mkLoop (simt_stack_entry_new :: e :: tail stack) top diverged new_recvg)).

Fixpoint update_loop (fuel : nat) (top_recvg_pc : Z) (top_type : stack_entry_type) (l : loop_state) :
    outcome (list simt_stack_entry) :=
  if any (top_active_mask l) then
    match fuel with
    | O => Err OutOfFuel
    | S fuel' =>
        r ← update_round top_recvg_pc top_type l;
        match r with
        | Return st => mret st
        | Continue l' => update_loop fuel' top_recvg_pc top_type l'
        end
    end
  else
    match l_stack l with _ :: st => mret st | [] => Err AssertFailed end.

End update.

(** Each round takes a lane out of [top_active_mask]. *)
Definition update (s : simt_stack) (thread_done : Z) (next_pc : list Z) (recvg_pc : Z)
    (next_inst_op : uarch_op_t) (cycle : Z) : outcome simt_stack :=
  top ← back (m_stack s);
  cassert (zlen next_pc =? m_warp_size s);;
  cassert (any (m_active_mask top));;
  st ← update_loop (m_warp_size s) thread_done next_pc recvg_pc next_inst_op cycle
         (Z.to_nat (m_warp_size s)) (m_recvg_pc top) (m_type top)
         (mkLoop (m_stack s) (m_active_mask top) false null_pc);
  mret (mkSimtStack (m_warp_id s) (m_warp_size s) st).

(** * Lanes and their counters *)

(** The counter lane [i] resumes at: that of the topmost entry that holds it. *)
Fixpoint thread_pc (st : list simt_stack_entry) (i : Z) : option Z :=
  match st with
  | [] => None
  | e :: st' => if Z.testbit (m_active_mask e) i then Some (m_pc e) else thread_pc st' i
  end.

Section invariant.
Context (ws : Z) (done : Z).
Implicit Types (e : simt_stack_entry) (st rest : list simt_stack_entry) (i j : Z).

Definition live i : Prop := Z.testbit done i = false.
Definition holds e i : Prop := Z.testbit (m_active_mask e) i = true.
#[export] Instance live_dec i : Decision (live i) := decide (_ = _).
#[export] Instance holds_dec e i : Decision (holds e i) := decide (_ = _).

(** An entry above [rest]: its live lanes wait below at its reconvergence point; a
    call entry lies on its caller, with the same live lanes. *)
Definition entry_ok e rest : Prop :=
  within ws (m_active_mask e) /\
  match m_type e with
  | STACK_ENTRY_TYPE_NORMAL =>
      m_recvg_pc e = null_pc \/ forall i, live i -> holds e i -> thread_pc rest i = Some (m_recvg_pc e)
  | STACK_ENTRY_TYPE_CALL =>
      m_recvg_pc e = null_pc /\
      exists e2 r, rest = e2 :: r /\ forall i, live i -> holds e i <-> holds e2 i
  end.

(** No entry is empty. *)
Definition filled st : Prop := Forall (fun e => any (m_active_mask e) = true) st.

Fixpoint simt_inv st : Prop :=
  match st with [] => True | e :: rest => entry_ok e rest /\ simt_inv rest end.

Lemma thread_pc_top e rest i : holds e i -> thread_pc (e :: rest) i = Some (m_pc e).
Proof. unfold holds. simpl. by intros ->. Qed.
Lemma thread_pc_below e rest i : ~ holds e i -> thread_pc (e :: rest) i = thread_pc rest i.
Proof. unfold holds. simpl. by intros ->%not_true_is_false. Qed.

Lemma entry_ok_pc e rest pc d c : entry_ok e rest ->
  entry_ok (mkStackEntry pc d (m_active_mask e) (m_recvg_pc e) c (m_type e)) rest.
Proof. done. Qed.
End invariant.

Lemma entry_ok_done ws d d' e rest :
  (forall i, Z.testbit d i = true -> Z.testbit d' i = true) -> entry_ok ws d e rest -> entry_ok ws d' e rest.
Proof.
  intros Hd [Hw H]. assert (Hl : forall i, live d' i -> live d i).
  { unfold live. intros i Hi. destruct (Z.testbit d i) eqn:E; [|done]. by rewrite Hd in Hi. }
  split; [done|]. destruct (m_type e); naive_solver.
Qed.

(** The invariant survives the exit of lanes. *)
Lemma simt_inv_done ws d d' st :
  (forall i, Z.testbit d i = true -> Z.testbit d' i = true) -> simt_inv ws d st -> simt_inv ws d' st.
Proof.
  intros Hd. induction st as [|e st IH]; [done|]. simpl. intros [He Hs].
  split; [by eapply entry_ok_done|auto].
Qed.

(** * Grouping lanes *)

Section groups.
Context (ws done : Z) (next_pc : list Z) (recvg_pc : Z) (op : uarch_op_t) (cycle : Z).
Context (Hws : 0 <= ws <= MAX_WARP_SIZE) (Hlen : zlen next_pc = ws).

Definition next i : Z := default null_pc (zread next_pc i).

Lemma next_read i : 0 <= i < ws -> aread next_pc i = Ok (next i).
Proof.
  intros Hi. destruct (aread_in next_pc i) as (x & Hx & Ex); [lia|]. unfold next. by rewrite Hx.
Qed.

(** After the lanes above [i]: [pc] is the counter of the first live one. *)
Definition grouped (top i pc group top' : Z) : Prop :=
  (forall j, Z.testbit group j = Z.testbit top j &&
     ((i <? j) && negb (Z.testbit done j) && negb (pc =? null_pc) && (next j =? pc))) /\
  (forall j, Z.testbit top' j = Z.testbit top j &&
     ((j <=? i) || (negb (Z.testbit done j) && negb (pc =? null_pc) && negb (next j =? pc)))) /\
  (pc = null_pc -> forall j, i < j -> Z.testbit top j = true -> Z.testbit done j = true) /\
  (pc <> null_pc -> exists h, i < h /\ Z.testbit top h = true /\ live done h /\ next h = pc /\
     forall j, h < j -> Z.testbit top j = true -> Z.testbit done j = true).

(** One bit of an updated mask, by cases on all the tests involved. *)
Ltac bit_cases :=
  repeat match goal with
  | |- context [?a =? ?b] => destruct (Z.eqb_spec a b); subst
  | |- context [?a <? ?b] => destruct (Z.ltb_spec a b)
  | |- context [?a <=? ?b] => destruct (Z.leb_spec a b)
  end; simpl; rewrite ?andb_true_r, ?andb_false_r, ?orb_true_r; try done; try lia.

Lemma group_lane_spec top i pc group top' :
  within ws top -> (forall j, live done j -> Z.testbit top j = true -> next j <> null_pc) ->
  0 <= i < ws -> grouped top i pc group top' ->
  exists pc' group' top'', group_lane done next_pc i (pc, group, top') = Ok (pc', group', top'') /\
    grouped top (i - 1) pc' group' top''.
Proof.
  intros Hw Hn Hi (Hg & Ht & Hnull & Hfirst). unfold MAX_WARP_SIZE in Hws. unfold group_lane.
  rewrite (btest_in _ top'), bind_of_ok by (unfold MAX_WARP_SIZE; lia).
  assert (Hti : Z.testbit top' i = Z.testbit top i).
  { rewrite Ht, (proj2 (Z.leb_le i i)) by lia. by rewrite andb_true_r. }
  rewrite Hti. destruct (Z.testbit top i) eqn:Hact.
  2:{ exists pc, group, top'. split; [done|]. split_and!.
      - intros j. rewrite Hg. destruct (Z.eq_dec j i) as [->|]; [by rewrite Hact|]. by bit_cases.
      - intros j. rewrite Ht. destruct (Z.eq_dec j i) as [->|]; [by rewrite Hact|]. by bit_cases.
      - intros Hp j Hj Hj'. destruct (Z.eq_dec j i) as [->|]; [congruence|]. apply Hnull; [done|lia|done].
      - intros Hp. destruct (Hfirst Hp) as (h & Hh & ?). exists h. split; [lia|done]. }
  rewrite btest_in, bind_of_ok by (unfold MAX_WARP_SIZE; lia). destruct (Z.testbit done i) eqn:Hd.
  { rewrite breset_in, bind_of_ok by (unfold MAX_WARP_SIZE; lia).
    exists pc, group, (Z.clearbit top' i). split; [done|]. split_and!.
    - intros j. rewrite Hg. destruct (Z.eq_dec j i) as [->|]; [rewrite Hd|]; by bit_cases.
    - intros j. rewrite testbit_clearbit, Ht. destruct (Z.eq_dec j i) as [->|]; [rewrite Hd|]; by bit_cases.
    - intros Hp j Hj Hj'. destruct (Z.eq_dec j i) as [->|]; [done|]. apply Hnull; [done|lia|done].
    - intros Hp. destruct (Hfirst Hp) as (h & Hh & ?). exists h. split; [lia|done]. }
  rewrite next_read, !bset_in, !breset_in, !bind_of_ok by (unfold MAX_WARP_SIZE; lia).
  specialize (Hn i Hd Hact). destruct (Z.eqb_spec pc null_pc) as [->|Hpc].
  - exists (next i), (Z.setbit group i), (Z.clearbit top' i). split; [done|]. split_and!.
    + intros j. rewrite testbit_setbit, Hg by lia. destruct (Z.eq_dec j i) as [->|Hji].
      * rewrite Hact, Hd. by bit_cases.
      * rewrite (proj2 (Z.eqb_neq i j)) by lia. simpl.
        rewrite !andb_false_r. destruct (Z.testbit top j) eqn:Hj; [|done]. simpl.
        destruct (Z.ltb_spec (i - 1) j); [|done]. by rewrite (Hnull eq_refl j) by (done || lia).
    + intros j. rewrite testbit_clearbit, Ht. destruct (Z.eq_dec j i) as [->|Hji].
      * rewrite Hact, Hd. by bit_cases.
      * rewrite (proj2 (Z.eqb_neq i j)) by lia. simpl.
        rewrite !andb_false_r, !orb_false_r, !andb_true_r.
        destruct (Z.testbit top j) eqn:Hj; [|done]. simpl.
        destruct (Z.leb_spec j (i - 1)), (Z.leb_spec j i); try lia.
        by rewrite (Hnull eq_refl j) by (done || lia).
    + done.
    + intros _. exists i. split_and!; [lia|done|done|done|]. intros j Hj Hj'. apply (Hnull eq_refl); done.
  - destruct (Hfirst Hpc) as (h & Hh & Htop & Hl & Hnx & Hab).
    destruct (Z.eqb_spec pc (next i)) as [->|Hne]; eexists _, _, _; (split; [reflexivity|]); split_and!; try done.
    + intros j. rewrite testbit_setbit, Hg by lia. destruct (Z.eq_dec j i) as [->|]; [rewrite Hact, Hd|]; by bit_cases.
    + intros j. rewrite testbit_clearbit, Ht. destruct (Z.eq_dec j i) as [->|]; [rewrite Hact, Hd|]; by bit_cases.
    + intros _. exists h. split_and!; [lia|done..].
    + intros j. rewrite Hg. destruct (Z.eq_dec j i) as [->|]; [rewrite Hact, Hd|]; by bit_cases.
    + intros j. rewrite Ht. destruct (Z.eq_dec j i) as [->|]; [rewrite Hact, Hd|]; by bit_cases.
    + intros _. exists h. split_and!; [lia|done..].
Qed.

Lemma extract_group_spec top :
  within ws top -> (forall j, live done j -> Z.testbit top j = true -> next j <> null_pc) ->
  exists pc group top', extract_group ws done next_pc top = Ok (pc, group, top') /\
    (forall j, Z.testbit group j = true <-> Z.testbit top j = true /\ live done j /\ pc <> null_pc /\ next j = pc) /\
    (forall j, Z.testbit top' j = true <-> Z.testbit top j = true /\ live done j /\ pc <> null_pc /\ next j <> pc) /\
    (pc = null_pc -> forall j, live done j -> Z.testbit top j = false) /\
    (pc <> null_pc -> any group = true) /\
    (forall k, within (k + 1) top -> within k top').
Proof.
  intros Hw Hn.
  destruct (for_range_down_inv (fun i '(pc, group, top') => grouped top i pc group top')
    (ws - 1) 0 (group_lane done next_pc) (null_pc, 0, top)) as ([[pc group] top'] & E & Hg & Ht & Hnull & Hfirst).
  - lia.
  - split_and!; try done.
    + intros j. rewrite Z.bits_0, Z.eqb_refl. simpl. by rewrite !andb_false_r.
    + intros j. destruct (Z.testbit top j) eqn:Hj; [|done]. apply Hw in Hj.
      by rewrite (proj2 (Z.leb_le j (ws - 1))) by lia.
    + intros _ j Hj Hj'. apply Hw in Hj'. lia.
  - intros i [[pc group] top'] Hi HP. destruct (group_lane_spec top i pc group top') as (? & ? & ? & E & ?); try done; [lia|].
    by eexists.
  - simpl in *. exists pc, group, top'. split; [done|].
    assert (Hgroup : forall j, Z.testbit group j = true <->
      Z.testbit top j = true /\ live done j /\ pc <> null_pc /\ next j = pc).
    { intros j. rewrite Hg, !andb_true_iff, !negb_true_iff, Z.eqb_eq, Z.eqb_neq, Z.ltb_lt. unfold live.
      split; [tauto|]. intros (Hj & ? & ? & ?). apply Hw in Hj as ?. split_and!; try done; lia. }
    assert (Htop : forall j, Z.testbit top' j = true <->
      Z.testbit top j = true /\ live done j /\ pc <> null_pc /\ next j <> pc).
    { intros j. rewrite Ht, !andb_true_iff, orb_true_iff, !andb_true_iff, !negb_true_iff, !Z.eqb_neq, Z.leb_le.
      unfold live. split; [|tauto]. intros [Hj [?|?]]; [apply Hw in Hj; lia|tauto]. }
    split_and!; [done|done| | |].
    + intros Hp j Hj. destruct (Z.testbit top j) eqn:E'; [|done]. apply Hw in E' as ?.
      unfold live in Hj. rewrite (Hnull Hp j) in Hj by (done || lia). done.
    + intros Hp. destruct (Hfirst Hp) as (h & _ & Hh & Hl & Hnh & _).
      by apply (any_intro _ h), Hgroup.
    + intros k Hk j Hj. rewrite Htop in Hj. destruct Hj as (Hj & Hl & Hp & Hne).
      destruct (Hfirst Hp) as (h & _ & Hh & _ & Hnh & Hab). apply Hk in Hj as ?. apply Hk in Hh as ?.
      destruct (Z.lt_ge_cases h j); [|destruct (Z.eq_dec h j); [congruence|lia]].
      unfold live in Hl. rewrite Hab in Hl by done. done.
Qed.

(** * One update *)

Section one_update.
Context (e0 : simt_stack_entry) (rest : list simt_stack_entry).
Context (Hinv : simt_inv ws done (e0 :: rest)) (Hfill : filled (e0 :: rest)).
Context (Hnext : forall j, live done j -> holds e0 j -> next j <> null_pc).

(** The lanes of the top entry go to several places. *)
Definition divergent : Prop :=
  exists i j, live done i /\ live done j /\ holds e0 i /\ holds e0 j /\ next i <> next j.

(** What [update] needs of the reconvergence point: when lanes diverge and one of
    them has arrived at the reconvergence point of the entry, that is where all
    reconverge; a call entry needs some point. *)
Definition pdom_ok : Prop :=
  divergent ->
  match m_type e0 with
  | STACK_ENTRY_TYPE_NORMAL =>
      forall i, live done i -> holds e0 i -> next i = m_recvg_pc e0 -> recvg_pc = m_recvg_pc e0
  | STACK_ENTRY_TYPE_CALL => recvg_pc <> null_pc
  end.

(** Where the loop is, with [s] the entry under construction on [B]. *)
Record progress (l : loop_state) s B : Prop := {
  pr_stack : l_stack l = s :: B;
  pr_inv : simt_inv ws done B;
  pr_filled : filled B;
  pr_sub : forall i, Z.testbit (top_active_mask l) i = true -> holds e0 i;
  pr_other : forall i, ~ holds e0 i -> thread_pc B i = thread_pc rest i;
  pr_gone : forall i, live done i -> holds e0 i -> Z.testbit (top_active_mask l) i = false ->
    thread_pc B i = Some (next i);
  pr_phase :
    if warp_diverged l then
      new_recvg_pc l = recvg_pc /\ m_type s = STACK_ENTRY_TYPE_NORMAL /\ divergent /\
      (recvg_pc = null_pc \/
       forall i, live done i -> Z.testbit (top_active_mask l) i = true -> thread_pc B i = Some recvg_pc)
    else
      any (top_active_mask l) = false \/
      s = e0 /\ B = rest /\
      (forall i, live done i -> holds e0 i -> Z.testbit (top_active_mask l) i = false ->
         m_type e0 = STACK_ENTRY_TYPE_NORMAL /\ next i = m_recvg_pc e0);
}.

Section plain.
Context (Hpdom : pdom_ok).
Hypothesis Hop : ~ (op = CALL_OPS).
Hypothesis Hret : ~ (op = RET_OPS /\ m_type e0 = STACK_ENTRY_TYPE_CALL).

(** The entry for a group of lanes that go to [pc] and reconverge at [r]. *)
Lemma push_group s B pc d c group r :
  simt_inv ws done B -> m_type s = STACK_ENTRY_TYPE_NORMAL ->
  (forall i, Z.testbit group i = true -> holds e0 i) ->
  (r = null_pc \/ forall i, live done i -> Z.testbit group i = true -> thread_pc B i = Some r) ->
  simt_inv ws done (mkStackEntry pc d group r c (m_type s) :: B).
Proof.
  intros HB -> Hg Hr. split; [|done]. split; [|done]. simpl.
  eapply within_sub; [apply Hinv|exact Hg].
Qed.

(** All lanes go one way: the top entry itself moves. *)
Lemma move_top pc group d c :
  (forall i, Z.testbit group i = true -> holds e0 i) ->
  (m_type e0 = STACK_ENTRY_TYPE_CALL -> forall i, live done i -> holds e0 i -> Z.testbit group i = true) ->
  simt_inv ws done (mkStackEntry pc d group (m_recvg_pc e0) c (m_type e0) :: rest).
Proof.
  intros Hg Hcall. destruct Hinv as [[Hw He] Hrest]. split; [|done]. split; simpl.
  - by eapply within_sub.
  - destruct (m_type e0); [naive_solver|]. destruct He as (Hr & e2 & r & -> & Hsame).
    split; [done|]. exists e2, r. split; [done|]. intros i Hi. rewrite <- Hsame by done.
    unfold holds at 1; simpl. split; [apply Hg|by apply Hcall].
Qed.

(** The first divergence turns the top entry into one that waits at the
    reconvergence point, unless the lanes wait there already. *)
Lemma split_top :
  let e1 := mkStackEntry recvg_pc (m_calldepth e0) (m_active_mask e0) (m_recvg_pc e0) cycle (m_type e0) in
  divergent ->
  exists s B,
    (if negb (recvg_pc =? m_recvg_pc e0) then simt_stack_entry_new :: e1 :: rest else e0 :: rest) = s :: B /\
    simt_inv ws done B /\ filled B /\ m_type s = STACK_ENTRY_TYPE_NORMAL /\
    (forall i, ~ holds e0 i -> thread_pc B i = thread_pc rest i) /\
    (recvg_pc = null_pc \/ forall i, live done i -> holds e0 i -> thread_pc B i = Some recvg_pc).
Proof.
  intros e1 Hdiv. specialize (Hpdom Hdiv). destruct Hinv as [[Hw He] Hrest].
  pose proof (Forall_inv Hfill) as Hf0. pose proof (Forall_inv_tail Hfill) as Hfr.
  destruct (Z.eqb_spec recvg_pc (m_recvg_pc e0)) as [Heq|Hne]; simpl.
  - exists e0, rest. destruct (m_type e0) eqn:Ht; [|destruct He; congruence].
    split_and!; try done. destruct He as [He|He]; [left; congruence|right]. rewrite Heq. done.
  - exists simt_stack_entry_new, (e1 :: rest). split_and!; try done.
    + by constructor.
    + by apply (thread_pc_below e1).
    + right. intros i _ Hi. by apply (thread_pc_top e1).
Qed.

(** What a round takes out of [top] to form a group. *)
Definition splits (top pc group top' : Z) : Prop :=
  pc <> null_pc /\ any group = true /\
  (forall j, Z.testbit group j = true <-> Z.testbit top j = true /\ live done j /\ next j = pc) /\
  (forall j, Z.testbit top' j = true <-> Z.testbit top j = true /\ live done j /\ next j <> pc).

Lemma splits_gone top pc group top' i :
  splits top pc group top' -> live done i -> Z.testbit top' i = false ->
  Z.testbit top i = false \/ Z.testbit group i = true /\ next i = pc.
Proof.
  intros (_ & _ & Hg & Ht) Hl Hi. destruct (Z.testbit top i) eqn:E; [right|by left].
  rewrite mask_false, Ht in Hi. rewrite Hg. destruct (Z.eq_dec (next i) pc); tauto.
Qed.

(** The state after such a round. *)
Definition after_group s B pc group top' : loop_state :=
  if pc =? recvg_pc then mkLoop (s :: B) top' true recvg_pc
  else mkLoop (simt_stack_entry_new ::
                 mkStackEntry pc 0 group recvg_pc (m_branch_div_cycle s) (m_type s) :: B) top' true recvg_pc.

(** A round once the warp has diverged: the group joins those waiting at the
    reconvergence point or becomes an entry. *)
Lemma diverged_round top pc group top' s B :
  splits top pc group top' -> simt_inv ws done B -> filled B ->
  m_type s = STACK_ENTRY_TYPE_NORMAL -> divergent ->
  (forall i, Z.testbit top i = true -> holds e0 i) ->
  (forall i, ~ holds e0 i -> thread_pc B i = thread_pc rest i) ->
  (forall i, live done i -> holds e0 i -> Z.testbit top i = false -> thread_pc B i = Some (next i)) ->
  (recvg_pc = null_pc \/
   forall i, live done i -> Z.testbit top i = true -> thread_pc B i = Some recvg_pc) ->
  exists s' B', progress (after_group s B pc group top') s' B' /\
    top_active_mask (after_group s B pc group top') = top'.
Proof.
  intros Hsp HB HF Hs Hdiv Hsub Hoth Hgone Hw. pose proof Hsp as (Hpc & Hag & Hg & Ht).
  assert (Hgw : pc = recvg_pc \/ recvg_pc <> null_pc ->
    forall i, live done i -> Z.testbit group i = true -> thread_pc B i = Some recvg_pc).
  { intros Hc i Hl Hi%Hg. destruct Hw as [Hw|Hw]; [destruct Hc; congruence|apply Hw; tauto]. }
  unfold after_group. destruct (Z.eqb_spec pc recvg_pc) as [->|Hne].
  - exists s, B. split; [|done]. split; simpl; try done.
    + intros i Hi%Ht. apply Hsub. tauto.
    + intros i Hl Hi Hti. destruct (splits_gone _ _ _ _ i Hsp Hl Hti) as [?|[? Hn]]; [auto|].
      rewrite Hn. apply Hgw; auto.
    + split_and!; try done. destruct Hw as [?|Hw]; [by left|right]. intros i Hl Hi%Ht. apply Hw; tauto.
  - set (e := mkStackEntry pc 0 group recvg_pc (m_branch_div_cycle s) (m_type s)).
    exists simt_stack_entry_new, (e :: B).
    assert (Hge : forall i, Z.testbit group i = true -> holds e0 i) by (intros i Hi%Hg; apply Hsub; tauto).
    split; [|done]. split; try done.
    + apply push_group; try done. destruct Hw as [?|Hw]; [by left|right]. intros i Hl Hi%Hg. apply Hw; tauto.
    + by constructor.
    + intros i Hi%Ht. apply Hsub. tauto.
    + intros i Hi. rewrite thread_pc_below; [auto|]. intros H. by apply Hi, Hge.
    + intros i Hl Hi Hti. destruct (decide (holds e i)) as [He|He].
      * rewrite thread_pc_top by done. apply Hg in He. simpl. f_equal. naive_solver.
      * rewrite thread_pc_below by done.
        destruct (splits_gone _ _ _ _ i Hsp Hl Hti) as [?|[? _]]; [auto|done].
    + simpl. split_and!; try done. destruct Hw as [?|Hw]; [by left|right]. intros i Hl Hi.
      change (thread_pc (e :: B) i = Some recvg_pc).
      assert (~ holds e i) by (intros H%Hg; apply Ht in Hi; tauto).
      rewrite thread_pc_below by done. apply Ht in Hi. apply Hw; tauto.
Qed.

(** A round that finds no reason to diverge: one group of lanes is left. *)
Lemma converged_round top pc group top' d c r :
  splits top pc group top' -> any top' = false ->
  (forall i, Z.testbit top i = true -> holds e0 i) ->
  (forall i, live done i -> holds e0 i -> Z.testbit top i = false ->
     m_type e0 = STACK_ENTRY_TYPE_NORMAL /\ next i = m_recvg_pc e0) ->
  progress (mkLoop (simt_stack_entry_new :: mkStackEntry pc d group (m_recvg_pc e0) c (m_type e0) :: rest)
              top' false r) simt_stack_entry_new
    (mkStackEntry pc d group (m_recvg_pc e0) c (m_type e0) :: rest).
Proof.
  intros Hsp Hat Hsub Hgone. pose proof Hsp as (Hpc & Hag & Hg & Ht).
  set (e := mkStackEntry pc d group (m_recvg_pc e0) c (m_type e0)).
  assert (Hall : forall i, Z.testbit top' i = false) by (by apply any_false).
  assert (Hge : forall i, Z.testbit group i = true -> holds e0 i) by (intros i Hi%Hg; apply Hsub; tauto).
  split; simpl top_active_mask; try done.
  - apply move_top; [done|]. intros Hc i Hl Hi.
    destruct (splits_gone _ _ _ _ i Hsp Hl (Hall i)) as [H|[? _]]; [|done].
    destruct (Hgone i Hl Hi H). congruence.
  - constructor; [done|]. by apply (Forall_inv_tail Hfill).
  - intros i Hi. by rewrite Hall in Hi.
  - intros i Hi. rewrite thread_pc_below; [done|]. intros H. by apply Hi, Hge.
  - intros i Hl Hi _. destruct (splits_gone _ _ _ _ i Hsp Hl (Hall i)) as [H|[H Hn]].
    + assert (~ holds e i) by (intros H'%Hg; destruct H'; congruence).
      rewrite thread_pc_below by done. destruct (Hgone i Hl Hi H) as [Ht0 Hn]. rewrite Hn.
      destruct Hinv as [[_ He] _]. rewrite Ht0 in He. destruct He as [He|He]; [|auto].
      destruct (Hnext i Hl Hi). congruence.
    + rewrite thread_pc_top by done. simpl. congruence.
  - by left.
Qed.

Lemma splits_divergent top pc group top' :
  splits top pc group top' -> (forall i, Z.testbit top i = true -> holds e0 i) -> any top' = true ->
  divergent.
Proof.
  intros (Hpc & Hag & Hg & Ht) Hsub Hat. pose proof (proj1 (proj1 Hinv)) as Hw.
  destruct (any_elem ws group) as (i & _ & (Hi & ? & ?)%Hg); [|done|].
  { eapply within_sub; [exact Hw|]. intros i Hi%Hg. apply Hsub. tauto. }
  destruct (any_elem ws top') as (j & _ & (Hj & ? & ?)%Ht); [|done|].
  { eapply within_sub; [exact Hw|]. intros j Hj%Ht. apply Hsub. tauto. }
  exists i, j. split_and!; auto. congruence.
Qed.

(** A round whose group arrives at the reconvergence point of the top entry. *)
Lemma arrived_round l s B group top' :
  progress l s B -> any (top_active_mask l) = true ->
  splits (top_active_mask l) (m_recvg_pc e0) group top' -> m_type e0 = STACK_ENTRY_TYPE_NORMAL ->
  progress (mkLoop (l_stack l) top' (warp_diverged l) (new_recvg_pc l)) s B.
Proof.
  intros [Hst HB HF Hsub Hoth Hgone Hph] Ha Hsp Hty. pose proof Hsp as (Hpc & Hag & Hg & Ht).
  destruct (any_elem ws group) as (h & _ & (Hh & Hhl & Hhn)%Hg); [|done|].
  { eapply within_sub; [apply Hinv|]. intros i Hi%Hg. apply Hsub. tauto. }
  assert (Hback : forall i, live done i -> Z.testbit group i = true -> thread_pc B i = Some (m_recvg_pc e0)).
  { intros i Hl Hi%Hg. destruct (warp_diverged l).
    - destruct Hph as (_ & _ & Hdiv & Hw). specialize (Hpdom Hdiv). rewrite Hty in Hpdom.
      rewrite <- (Hpdom h) by auto. destruct Hw as [Hw|Hw]; [|apply Hw; tauto].
      rewrite (Hpdom h) in Hw by auto. done.
    - destruct Hph as [?|(_ & -> & _)]; [congruence|]. destruct Hinv as [[_ He] _]. rewrite Hty in He.
      destruct He as [?|He]; [done|]. apply He; [done|]. apply Hsub. tauto. }
  split; simpl; try done.
  - intros i Hi%Ht. apply Hsub. tauto.
  - intros i Hl Hi Hti. destruct (splits_gone _ _ _ _ i Hsp Hl Hti) as [?|[? Hn]]; [auto|].
    rewrite Hn. by apply Hback.
  - destruct (warp_diverged l).
    + destruct Hph as (? & ? & ? & Hw). split_and!; try done. destruct Hw as [?|Hw]; [by left|right].
      intros i Hl Hi%Ht. apply Hw; tauto.
    + destruct Hph as [?|(-> & -> & Hnr)]; [congruence|]. right. split_and!; try done.
      intros i Hl Hi Hti. destruct (splits_gone _ _ _ _ i Hsp Hl Hti) as [?|[? Hn]]; auto.
Qed.

Lemma round_spec l s B k :
  progress l s B -> any (top_active_mask l) = true -> within (k + 1) (top_active_mask l) ->
  exists l' s' B',
    update_round ws done next_pc recvg_pc op cycle (m_recvg_pc e0) (m_type e0) l = Ok (Continue l') /\
    progress l' s' B' /\ within k (top_active_mask l').
Proof.
  intros Hp Ha Hk. pose proof Hp as [Hst HB HF Hsub Hoth Hgone Hph].
  destruct (extract_group_spec (top_active_mask l)) as (pc & group & top' & E & Hg & Ht & Hnull & Hng & Hdec).
  { eapply within_sub; [apply Hinv|exact Hsub]. }
  { intros j Hl Hj. apply Hnext; auto. }
  specialize (Hdec k Hk). unfold update_round. rewrite E, bind_of_ok.
  cbn [l_stack top_active_mask warp_diverged new_recvg_pc].
  destruct (Z.eqb_spec pc null_pc) as [Hpc|Hpc].
  { assert (Htop : any top' = false).
    { apply any_false. intros j. apply mask_false. intros (_ & _ & H & _)%Ht. done. }
    rewrite Htop. simpl. eexists _, s, B. split; [reflexivity|]. split; [|done].
    split; simpl; try done.
    - intros i Hi%Ht. tauto.
    - intros i Hl Hi _. apply Hgone; auto.
    - destruct (warp_diverged l); [|by left]. destruct Hph as (? & ? & ? & Hw). split_and!; try done.
      right. intros i _ Hi. pose proof (proj1 (any_false _) Htop i). congruence. }
  assert (Hsp : splits (top_active_mask l) pc group top').
  { split_and!; auto; intros j; rewrite ?Hg, ?Ht; tauto. }
  rewrite bool_decide_eq_false_2 by done.
  rewrite (proj2 (andb_false_iff (bool_decide (op = RET_OPS)) _)).
  2:{ destruct (decide (op = RET_OPS)); [right|left]; apply bool_decide_eq_false_2; tauto. }
  destruct ((pc =? m_recvg_pc e0) && _) eqn:Harr.
  { apply andb_true_iff in Harr as [->%Z.eqb_eq Hty%negb_true_iff%bool_decide_eq_false].
    eexists _, s, B. split; [reflexivity|]. split; [|done]. eapply arrived_round; try done.
    by destruct (m_type e0). }
  rewrite Hst. cbn [back tail]. rewrite bind_of_ok. destruct (warp_diverged l) eqn:Hd.
  - destruct Hph as (-> & Hs & Hdiv & Hw). rewrite andb_false_r. simpl orb. cbn [andb].
    destruct (diverged_round (top_active_mask l) pc group top' s B)
      as (s' & B' & Hpr & Et); try done. exists (after_group s B pc group top'), s', B'. rewrite Et.
    split; [|done]. unfold after_group. by destruct (pc =? recvg_pc).
  - destruct Hph as [?|(-> & -> & Hnr)]; [congruence|]. rewrite andb_true_r, orb_false_r.
    destruct (any top') eqn:Hat.
    + assert (Hdiv : divergent) by (eapply splits_divergent; done).
      destruct (split_top Hdiv) as (s & B & Es & HB' & HF' & Hs & Hoth' & Hw). cbn [andb]. rewrite Es.
      cbn [back tail]. destruct (diverged_round (top_active_mask l) pc group top' s B)
        as (s' & B' & Hpr & Et); try done.
      * intros i Hl Hi Hti. destruct (Hnr i Hl Hi Hti) as [Hty Hn]. specialize (Hpdom Hdiv).
        rewrite Hty in Hpdom. rewrite Hn, <- (Hpdom i) by done. destruct Hw as [Hw|Hw]; [|auto].
        destruct (Hnext i Hl Hi). rewrite Hn, <- (Hpdom i) by done. done.
      * destruct Hw as [?|Hw]; [by left|right]. auto.
      * exists (after_group s B pc group top'), s', B'. rewrite Et. split; [|done].
        unfold after_group. by destruct (pc =? recvg_pc).
    + eexists _, _, _. split; [reflexivity|]. split; [|done]. by eapply converged_round.
Qed.

Lemma loop_spec fuel l s B :
  progress l s B -> within (Z.of_nat fuel) (top_active_mask l) ->
  exists B', update_loop ws done next_pc recvg_pc op cycle fuel (m_recvg_pc e0) (m_type e0) l = Ok B' /\
    simt_inv ws done B' /\ filled B' /\
    (forall i, ~ holds e0 i -> thread_pc B' i = thread_pc rest i) /\
    (forall i, live done i -> holds e0 i -> thread_pc B' i = Some (next i)).
Proof.
  revert l s B. induction fuel as [|fuel IH]; intros l s B Hp Hw; simpl;
    (destruct (any (top_active_mask l)) eqn:Ha;
     [|rewrite (pr_stack _ _ _ Hp); exists B; split_and!; [done|apply Hp|apply Hp|apply Hp|];
       intros i Hl Hi; apply Hp; [done..|by apply any_false]]).
  - destruct (any_elem _ _ Hw Ha). lia.
  - destruct (round_spec l s B (Z.of_nat fuel)) as (l' & s' & B' & E & Hp' & Hw'); [done..| |].
    { by replace (Z.of_nat fuel + 1) with (Z.of_nat (S fuel)) by lia. }
    rewrite E, bind_of_ok. by eapply IH.
Qed.
End plain.

(** What an update of the stack to [st] has to achieve. *)
Definition moved st : Prop :=
  simt_inv ws done st /\ filled st /\
  (forall i, live done i -> ~ holds e0 i -> thread_pc st i = thread_pc rest i) /\
  (forall i, live done i -> holds e0 i -> thread_pc st i = Some (next i)).

(** A call pushes the callee on its caller. *)
Lemma call_spec target group c : any group = true ->
  (forall j, Z.testbit group j = true <-> holds e0 j /\ live done j) ->
  (forall j, live done j -> holds e0 j -> next j = target) ->
  moved (mkStackEntry target 0 group null_pc c STACK_ENTRY_TYPE_CALL :: e0 :: rest).
Proof.
  intros Hag Hg Ht. set (e := mkStackEntry _ _ _ _ _ _).
  assert (Hhe : forall i, live done i -> holds e i <-> holds e0 i).
  { intros i Hl. unfold holds at 1. simpl. rewrite Hg. tauto. }
  split_and!.
  - split; [|exact Hinv]. split; simpl.
    + eapply within_sub; [apply Hinv|]. intros i Hi%Hg. apply Hi.
    + split; [done|]. by exists e0, rest.
  - by constructor.
  - intros i Hl Hi. rewrite !thread_pc_below; [done|done|by rewrite Hhe].
  - intros i Hl Hi. rewrite thread_pc_top by (by apply Hhe). by rewrite Ht.
Qed.

(** A return takes the callee off and moves its caller. *)
Lemma ret_spec target e2 r :
  m_type e0 = STACK_ENTRY_TYPE_CALL -> rest = e2 :: r -> target <> null_pc ->
  (forall j, live done j -> holds e0 j -> next j = target) ->
  moved (if (target =? m_recvg_pc e2) && negb (bool_decide (m_type e2 = STACK_ENTRY_TYPE_CALL))
         then r else with_pc e2 target :: r).
Proof.
  intros Hty Hr Hnt Ht. unfold moved. destruct Hinv as [[_ He0] Hrest]. rewrite Hty in He0.
  destruct He0 as (_ & e2' & r' & Hr' & Hsame). rewrite Hr in Hr', Hrest |- *. injection Hr' as <- <-.
  rewrite Hr in Hfill. pose proof (Forall_inv_tail Hfill) as Hf2.
  pose proof (Forall_inv Hf2) as Hf2h. pose proof (Forall_inv_tail Hf2) as Hf2t.
  assert (Hpc : forall i, holds (with_pc e2 target) i <-> holds e2 i) by done.
  destruct Hrest as [[Hw2 He2] Hinvr]. destruct ((target =? _) && _) eqn:Hc.
  - apply andb_true_iff in Hc as [->%Z.eqb_eq Hc%negb_true_iff%bool_decide_eq_false].
    destruct (m_type e2); [|done]. destruct He2 as [?|He2]; [done|].
    split_and!; [done|done|..]; intros i Hl Hi.
    + rewrite thread_pc_below; [done|]. by rewrite <- Hsame.
    + rewrite Ht by done. apply He2; [done|]. by apply Hsame.
  - split_and!; [done|by constructor|..]; intros i Hl Hi.
    + rewrite !thread_pc_below; [done|by rewrite <- Hsame|by rewrite Hpc, <- Hsame].
    + rewrite Ht, thread_pc_top by (try done; by apply Hpc, Hsame). done.
Qed.

(** The first round on the top entry itself. *)
Lemma first_group :
  exists pc group top', extract_group ws done next_pc (m_active_mask e0) = Ok (pc, group, top') /\
    (pc = null_pc -> any top' = false /\ forall j, live done j -> ~ holds e0 j) /\
    (pc <> null_pc -> ~ divergent -> any top' = false /\ any group = true /\
       (forall j, Z.testbit group j = true <-> holds e0 j /\ live done j) /\
       (forall j, live done j -> holds e0 j -> next j = pc)).
Proof.
  destruct (extract_group_spec (m_active_mask e0)) as (pc & group & top' & E & Hg & Ht & Hnull & Hng & _).
  { apply Hinv. } { exact Hnext. }
  exists pc, group, top'. split; [done|]. split.
  - intros Hp. split.
    + apply any_false. intros j. apply mask_false. intros (_ & _ & H & _)%Ht. done.
    + intros j Hl Hj. unfold holds in Hj. by rewrite (Hnull Hp j Hl) in Hj.
  - intros Hp Hnd. specialize (Hng Hp). destruct (any_elem ws group) as (h & _ & (Hh & Hhl & _ & Hhn)%Hg); [|done|].
    { eapply within_sub; [apply Hinv|]. intros i Hi%Hg. apply Hi. }
    assert (Hall : forall j, live done j -> holds e0 j -> next j = pc).
    { intros j Hl Hj. destruct (Z.eq_dec (next j) pc); [done|]. exfalso. apply Hnd.
      exists j, h. split_and!; try done. congruence. }
    split_and!; [|done| |done].
    + apply any_false. intros j. apply mask_false. intros (Hj & Hl & _ & Hne)%Ht. apply Hne. by apply Hall.
    + intros j. rewrite Hg. unfold holds. split; [tauto|]. intros [Hj Hl]. split_and!; try done. by apply Hall.
Qed.

Lemma special_spec fuel l :
  l_stack l = e0 :: rest -> top_active_mask l = m_active_mask e0 -> any (m_active_mask e0) = true ->
  op = CALL_OPS \/ op = RET_OPS /\ m_type e0 = STACK_ENTRY_TYPE_CALL -> ~ divergent ->
  exists st, update_loop ws done next_pc recvg_pc op cycle (S fuel) (m_recvg_pc e0) (m_type e0) l = Ok st /\
    moved st.
Proof.
  intros Hst Htop Ha Hop Hnd. simpl. rewrite Htop, Ha. unfold update_round. rewrite Htop.
  destruct first_group as (pc & group & top' & E & Hnull & Hsome). rewrite E, bind_of_ok.
  cbn [l_stack top_active_mask warp_diverged new_recvg_pc]. rewrite Hst.
  destruct (Z.eqb_spec pc null_pc) as [Hp|Hp].
  { destruct (Hnull Hp) as [Ht Hl]. rewrite Ht. simpl.
    exists rest. split; [destruct fuel; simpl; by rewrite Ht|]. split_and!; [apply Hinv|by apply (Forall_inv_tail Hfill)|done|].
    intros i Hli Hi. by apply Hl in Hi. }
  destruct (Hsome Hp Hnd) as (Ht & Hag & Hg & Hn). rewrite Ht. cbn [negb].
  destruct (decide (op = CALL_OPS)) as [Hcall|Hcall].
  { rewrite bool_decide_eq_true_2 by done. eexists. split; [reflexivity|]. by apply call_spec. }
  destruct Hop as [?|[-> Hty]]; [done|]. rewrite Hty. rewrite bool_decide_eq_false_2 by done. simpl andb. cbv iota.
  destruct Hinv as [[_ He0] _]. rewrite Hty in He0. destruct He0 as (_ & e2 & r & Hr & _).
  pose proof (ret_spec pc e2 r Hty Hr Hp Hn) as Hm. rewrite Hr. rewrite (cassert_true true) by done.
  destruct ((pc =? m_recvg_pc e2) && _) eqn:Hc; [|by eexists].
  apply andb_true_iff in Hc as [_ Hc%negb_true_iff%bool_decide_eq_false].
  rewrite bool_decide_eq_true_2 by (by destruct (m_type e2)). by eexists.
Qed.
(** When the lanes of a call or of a return disagree, the assertion of that branch fails. *)
Lemma special_fails fuel l :
  l_stack l = e0 :: rest -> top_active_mask l = m_active_mask e0 -> any (m_active_mask e0) = true ->
  op = CALL_OPS \/ op = RET_OPS /\ m_type e0 = STACK_ENTRY_TYPE_CALL -> divergent ->
  update_loop ws done next_pc recvg_pc op cycle (S fuel) (m_recvg_pc e0) (m_type e0) l = Err AssertFailed.
Proof.
  intros Hst Htop Ha Hop (i & j & Hli & Hlj & Hi & Hj & Hne). simpl. rewrite Htop, Ha. unfold update_round. rewrite Htop.
  destruct (extract_group_spec (m_active_mask e0)) as (pc & group & top' & -> & Hg & Ht & Hnull & _).
  { apply Hinv. } { exact Hnext. }
  rewrite bind_of_ok. destruct (Z.eqb_spec pc null_pc) as [Hp|Hp].
  { exfalso. unfold holds in Hi. by rewrite (Hnull Hp i Hli) in Hi. }
  assert (any top' = true) as ->.
  { apply not_false_iff_true. intros Hf. rewrite any_false in Hf.
    assert (forall k, live done k -> holds e0 k -> next k = pc) as Hk.
    { intros k Hlk Hk. destruct (Z.eq_dec (next k) pc) as [|Hn]; [done|].
      enough (Z.testbit top' k = true) as E by (by rewrite Hf in E). apply Ht. done. }
    apply Hne. by rewrite !Hk. }
  destruct (decide (op = CALL_OPS)) as [Hcall|Hcall]; [by rewrite bool_decide_eq_true_2|].
  destruct Hop as [?|[Hr Hty]]; [done|]. by rewrite Hr, Hty.
Qed.
End one_update.
End groups.

(** The conditions under which an update is called. *)
Record update_ok ws done next_pc recvg_pc op e0 : Prop := {
  uo_warp : 0 <= ws <= MAX_WARP_SIZE;
  uo_len : zlen next_pc = ws;
  uo_next : forall j, live done j -> holds e0 j -> next next_pc j <> null_pc;
  uo_pdom : pdom_ok done next_pc recvg_pc e0;
  uo_uniform : op = CALL_OPS \/ op = RET_OPS /\ m_type e0 = STACK_ENTRY_TYPE_CALL ->
    ~ divergent done next_pc e0;
}.

Lemma update_spec s e0 rest done next_pc recvg_pc op cycle :
  m_stack s = e0 :: rest -> update_ok (m_warp_size s) done next_pc recvg_pc op e0 ->
  simt_inv (m_warp_size s) done (e0 :: rest) -> filled (e0 :: rest) ->
  exists st, update s done next_pc recvg_pc op cycle = Ok (mkSimtStack (m_warp_id s) (m_warp_size s) st) /\
    moved (m_warp_size s) done next_pc e0 rest st.
Proof.
  intros Hst [Hws Hlen Hn Hpd Hu] Hinv Hfill. pose proof (Forall_inv Hfill) as Ha. unfold update. rewrite Hst. cbn [back]. rewrite bind_of_ok.
  rewrite (proj2 (Z.eqb_eq _ _) Hlen), Ha, !(cassert_true true), !bind_of_ok by done.
  destruct (decide (op = CALL_OPS \/ op = RET_OPS /\ m_type e0 = STACK_ENTRY_TYPE_CALL)) as [Hop|Hop].
  - destruct (any_elem _ _ (proj1 (proj1 Hinv)) Ha) as (i & Hi & _).
    replace (Z.to_nat (m_warp_size s)) with (S (Z.to_nat (m_warp_size s - 1))) by lia.
    edestruct special_spec as (st & -> & Hm); [exact Hws|exact Hlen|exact Hinv|exact Hfill|exact Hn|..]; try done; [tauto|].
    rewrite bind_of_ok. by eexists.
  - edestruct (loop_spec (m_warp_size s) done next_pc recvg_pc op cycle) as (st & -> & Hi & Hf & Ho & Hl);
      [exact Hws|exact Hlen|exact Hinv|exact Hfill|exact Hn|exact Hpd|tauto|tauto| | |].
    + split; simpl; try done; [apply Hinv|by apply (Forall_inv_tail Hfill)|..].
      * intros i Hl Hi Hf. unfold holds in Hi. congruence.
      * right. split_and!; try done. intros i Hl Hi Hf. unfold holds in Hi. congruence.
    + simpl. rewrite Z2Nat.id by lia. apply Hinv.
    + rewrite bind_of_ok. eexists. split; [done|]. split_and!; auto.
Qed.

Lemma update_fails s e0 rest done next_pc recvg_pc op cycle :
  m_stack s = e0 :: rest -> 0 <= m_warp_size s <= MAX_WARP_SIZE -> zlen next_pc = m_warp_size s ->
  (forall j, live done j -> holds e0 j -> next next_pc j <> null_pc) ->
  simt_inv (m_warp_size s) done (e0 :: rest) -> filled (e0 :: rest) ->
  op = CALL_OPS \/ op = RET_OPS /\ m_type e0 = STACK_ENTRY_TYPE_CALL -> divergent done next_pc e0 ->
  update s done next_pc recvg_pc op cycle = Err AssertFailed.
Proof.
  intros Hst Hws Hlen Hn Hinv Hfill Hop Hd. pose proof (Forall_inv Hfill) as Ha. unfold update. rewrite Hst.
  cbn [back]. rewrite bind_of_ok. rewrite (proj2 (Z.eqb_eq _ _) Hlen), Ha, !(cassert_true true), !bind_of_ok by done.
  destruct (any_elem _ _ (proj1 (proj1 Hinv)) Ha) as (i & Hi & _).
  replace (Z.to_nat (m_warp_size s)) with (S (Z.to_nat (m_warp_size s - 1))) by lia.
  by erewrite special_fails by eauto.
Qed.

(** * A warp *)

(** [core_t]: a hardware thread, when there is one. *)
Record thread := mkThread { t_is_done : bool; t_get_pc : Z; t_return_pc : Z }.

Definition RECONVERGE_RETURN_PC : Z := 2 ^ 32 - 2.

Definition ptx_thread_done (m_thread : list (option thread)) (hw_thread_id : Z) : outcome bool :=
  t ← aread m_thread hw_thread_id;
  mret (match t with None => true | Some t => t_is_done t end).

(** [thread_done], [next_pc] and [inst->reconvergence_pc] after lane [i]. *)
Definition collect_lane (m_thread : list (option thread)) (wtid i : Z) (st : Z * list Z * Z) :
    outcome (Z * list Z * Z) :=
  let '(thread_done, next_pc, reconvergence_pc) := st in
  d ← ptx_thread_done m_thread (wtid + i);
  if d : bool then
    thread_done' ← bset MAX_WARP_SIZE thread_done i;
    mret (thread_done', next_pc ++ [null_pc], reconvergence_pc)
  else
    t ← aread m_thread (wtid + i);
    match t with
    | None => Err BadAccess
    | Some t =>
        mret (thread_done, next_pc ++ [t_get_pc t],
              if reconvergence_pc =? RECONVERGE_RETURN_PC then t_return_pc t else reconvergence_pc)
    end.

Definition updateSIMTStack (m_simt_stack : list simt_stack) (m_thread : list (option thread))
    (warpId warpSize reconvergence_pc : Z) (op : uarch_op_t) (cycle : Z) :
    outcome (list simt_stack * Z) :=
  '(thread_done, next_pc, rpc) ←
    for_range 0 warpSize (collect_lane m_thread (warpId * warpSize)) (0, [], reconvergence_pc);
  s ← aread m_simt_stack warpId;
  s' ← update s thread_done next_pc rpc op cycle;
  l ← awrite m_simt_stack warpId s';
  mret (l, rpc).

(** The lanes [updateSIMTStack] sees as done and the counters of the others. *)
Lemma collect_spec m_thread wtid ws rpc :
  0 <= wtid -> 0 <= ws <= MAX_WARP_SIZE -> wtid + ws <= zlen m_thread ->
  exists thread_done next_pc rpc',
    for_range 0 ws (collect_lane m_thread wtid) (0, [], rpc) = Ok (thread_done, next_pc, rpc') /\
    zlen next_pc = ws /\ within ws thread_done /\
    forall i t, 0 <= i < ws -> zread m_thread (wtid + i) = Some t ->
      Z.testbit thread_done i = match t with None => true | Some t => t_is_done t end /\
      forall t', t = Some t' -> t_is_done t' = false -> next next_pc i = t_get_pc t'.
Proof.
  intros Hw0 Hws Hlen. destruct (for_range_inv (fun k '(d, n, _) => 0 <= k /\ zlen n = k /\ within k d /\
    forall i t, 0 <= i < k -> zread m_thread (wtid + i) = Some t ->
      Z.testbit d i = match t with None => true | Some t => t_is_done t end /\
      forall t', t = Some t' -> t_is_done t' = false -> next n i = t_get_pc t')
    0 ws (collect_lane m_thread wtid) (0, [], rpc)) as ([[d n] r] & E & _ & Hn & Hd & H);
    [lia|split_and!; [done|done|apply within_0|lia]| |by exists d, n, r].
  intros k [[d n] r] Hk (_ & Hn & Hd & H). unfold collect_lane, ptx_thread_done.
  destruct (aread_in m_thread (wtid + k)) as (t & Ht & ->); [lia|]. rewrite !bind_of_ok.
  assert (Hnew : forall x i, 0 <= i < k -> next (n ++ [x]) i = next n i).
  { intros x i Hi. unfold next. by rewrite zread_app_l by lia. }
  assert (Hlast : forall x, next (n ++ [x]) k = x).
  { intros x. unfold next. rewrite zread_app, (proj2 (Z.ltb_ge _ _)) by lia.
    by replace (k - zlen n) with 0 by lia. }
  destruct (match t with Some t0 => t_is_done t0 | None => true end) eqn:Hdone.
  - rewrite bset_in, bind_of_ok by lia. eexists. split; [reflexivity|]. split_and!; [lia| | |].
    + rewrite zlen_app. unfold zlen at 2. simpl. lia.
    + intros j. rewrite testbit_setbit by lia. intros [->%Z.eqb_eq|Hj%Hd]%orb_true_iff; lia.
    + intros i t' Hi Ht'. rewrite testbit_setbit by lia. destruct (Z.eqb_spec k i) as [<-|].
      * rewrite Ht in Ht'. injection Ht' as <-. split; [done|]. intros ? -> ?. congruence.
      * rewrite Hnew by lia. apply H; [lia|done].
  - destruct t as [t|]; [|done]. eexists. split; [reflexivity|]. split_and!; [lia| | |].
    + rewrite zlen_app. unfold zlen at 2. simpl. lia.
    + intros j Hj%Hd. lia.
    + intros i t' Hi Ht'. destruct (Z.eq_dec i k) as [->|].
      * rewrite Ht in Ht'. injection Ht' as <-. rewrite Hlast. split; [|by intros ? [= <-]].
        rewrite Hdone. apply mask_false. intros Hc%Hd. lia.
      * rewrite Hnew by lia. apply H; [lia|done].
Qed.

(** * Running a warp

    A warp that was launched executes instructions; each moves the counters of the
    lanes of the top entry, and lanes may exit. *)

Record warp := mkWarp { w_simt : simt_stack; w_done : Z; w_pcs : list Z }.

Inductive warp_step : warp → warp → Prop :=
  | exec s done pcs e0 rest done' pcs' recvg_pc op cycle s' :
      m_stack s = e0 :: rest ->
      (forall i, Z.testbit done i = true -> Z.testbit done' i = true) ->
      (forall i, live done' i -> ~ holds e0 i -> next pcs' i = next pcs i) ->
      update_ok (m_warp_size s) done' pcs' recvg_pc op e0 ->
      update s done' pcs' recvg_pc op cycle = Ok s' ->
      warp_step (mkWarp s done pcs) (mkWarp s' done' pcs').

Definition launched (wid ws start_pc mask : Z) : warp :=
  mkWarp (launch (simt_stack_new wid ws) start_pc mask) 0 (replicate (Z.to_nat ws) start_pc).

Record warp_inv ws mask (w : warp) : Prop := {
  wi_size : m_warp_size (w_simt w) = ws;
  wi_inv : simt_inv ws (w_done w) (m_stack (w_simt w));
  wi_filled : filled (m_stack (w_simt w));
  wi_pcs : forall i, Z.testbit mask i = true -> live (w_done w) i ->
    thread_pc (m_stack (w_simt w)) i = Some (next (w_pcs w) i);
  wi_lanes : forall i, Z.testbit mask i = false -> live (w_done w) i ->
    thread_pc (m_stack (w_simt w)) i = None;
}.

Lemma launched_inv wid ws start_pc mask :
  within ws mask -> any mask = true -> warp_inv ws mask (launched wid ws start_pc mask).
Proof.
  intros Hw Ha. split; simpl; try done.
  - split; [|done]. split; [done|]. by left.
  - by constructor.
  - intros i Hi _. rewrite Hi. apply Hw in Hi. unfold next.
    rewrite zread_replicate, (proj2 (Z.leb_le 0 i)), (proj2 (Z.ltb_lt i ws)) by lia. done.
  - by intros i ->.
Qed.

Lemma warp_step_inv ws mask w w' : warp_inv ws mask w -> warp_step w w' -> warp_inv ws mask w'.
Proof.
  intros Hw Hstep. destruct Hstep as [s done pcs e0 rest done' pcs' recvg_pc op cycle s' Hst Hd Hkeep Hok E].
  destruct Hw as [Hsz Hinv Hfill Hpcs Hlanes]. simpl in *. rewrite Hst in *.
  assert (Hlive : forall i, live done' i -> live done i).
  { intros i Hi. apply mask_false. intros H%Hd. unfold live in Hi. congruence. }
  destruct (update_spec s e0 rest done' pcs' recvg_pc op cycle) as (st & E' & Hi & Hf & Ho & Hl); try done.
  { apply (simt_inv_done _ done); [done|]. by rewrite Hsz. }
  rewrite E in E'. injection E' as ->. split; simpl; try done; [by rewrite <- Hsz|..].
  - intros i Hm Hli. destruct (decide (holds e0 i)) as [Hh|Hh]; [by apply Hl|].
    rewrite Ho, Hkeep by done. rewrite <- Hpcs by auto. symmetry. by apply thread_pc_below.
  - intros i Hm Hli. specialize (Hlanes i Hm (Hlive i Hli)).
    destruct (decide (holds e0 i)) as [Hh|Hh]; [by rewrite thread_pc_top in Hlanes|].
    rewrite thread_pc_below in Hlanes by done. by rewrite Ho.
Qed.

Lemma warp_reachable_inv wid ws start_pc mask w :
  within ws mask -> any mask = true -> rtc warp_step (launched wid ws start_pc mask) w ->
  warp_inv ws mask w.
Proof.
  intros Hw Ha H. remember (launched wid ws start_pc mask) as w0 eqn:E0.
  assert (warp_inv ws mask w0) as H0 by (subst; by apply launched_inv). clear E0.
  induction H as [|x y z Hs _ IH]; [done|]. by eapply IH, warp_step_inv.
Qed.

(** C1: Whatever a warp has executed since its launch, every live lane has its place on
    the SIMT stack with its own program counter, and all live lanes of the active mask
    are at the counter the warp executes next. The steps of a warp are the updates that
    satisfy update_ok: one next counter for each of at most 32 lanes, none of a live
    active lane being the null counter; a call, and the return from one, does not
    diverge (the code asserts it); and the reconvergence point fits: when the lanes
    diverge and one of them has arrived at the reconvergence point of the top entry, the
    new point is that one, as it is for immediate post-dominators (lemma meets_at_next),
    and a call entry that diverges has a point. Without this last condition lanes are
    moved to the wrong place (example stray_reconvergence_point). *)
Theorem simt_lockstep wid ws start_pc mask w :
  within ws mask -> any mask = true -> rtc warp_step (launched wid ws start_pc mask) w ->
  (forall i, Z.testbit mask i = true -> live (w_done w) i ->
     thread_pc (m_stack (w_simt w)) i = Some (next (w_pcs w) i)) /\
  (forall active pc rpc, get_active_mask (w_simt w) = Ok active ->
     get_pdom_stack_top_info (w_simt w) = Ok (pc, rpc) ->
     forall i, Z.testbit active i = true -> live (w_done w) i ->
       Z.testbit mask i = true /\ next (w_pcs w) i = pc).
Proof.
  intros Hw Ha [Hsz Hinv Hfill Hpcs Hlanes]%warp_reachable_inv; [|done..]. split; [done|].
  intros active pc rpc. unfold get_active_mask, get_pdom_stack_top_info.
  destruct (m_stack (w_simt w)) as [|e rest]; [done|]. intros [= <-] [= <- <-] i Hi Hl.
  destruct (Z.testbit mask i) eqn:Hm.
  - split; [done|]. specialize (Hpcs i Hm Hl). rewrite thread_pc_top in Hpcs by done. congruence.
  - specialize (Hlanes i Hm Hl). by rewrite thread_pc_top in Hlanes.
Qed.

(** C2: In every state a warp reaches by updates that satisfy update_ok, while a live
    lane is left the warp has an entry to execute. An update that satisfies update_ok
    again (at most 32 lanes and one next counter for each, no null counter for a live
    active lane, no divergence at a call or at the return from one, and a reconvergence
    point that is the one of the top entry when lanes diverge and one has arrived there)
    succeeds: no assertion of the stack fails, its loop ends within as many rounds as
    the warp has lanes, each live lane of the active mask moves to its own next counter
    and the other lanes keep theirs. Conversely, a call or the return from one whose
    live lanes diverge fails the assertion of the code. *)
Theorem simt_update_succeeds wid ws start_pc mask w done' pcs' recvg_pc op cycle i :
  within ws mask -> any mask = true -> rtc warp_step (launched wid ws start_pc mask) w ->
  Z.testbit mask i = true -> live (w_done w) i ->
  (forall j, Z.testbit (w_done w) j = true -> Z.testbit done' j = true) ->
  exists e0 rest, m_stack (w_simt w) = e0 :: rest /\
    (update_ok ws done' pcs' recvg_pc op e0 ->
     exists s', update (w_simt w) done' pcs' recvg_pc op cycle = Ok s' /\
       (forall j, live done' j -> holds e0 j -> thread_pc (m_stack s') j = Some (next pcs' j)) /\
       (forall j, live done' j -> ~ holds e0 j ->
          thread_pc (m_stack s') j = thread_pc (m_stack (w_simt w)) j)) /\
    (0 <= ws <= MAX_WARP_SIZE -> zlen pcs' = ws ->
     (forall j, live done' j -> holds e0 j -> next pcs' j <> null_pc) ->
     op = CALL_OPS \/ op = RET_OPS /\ m_type e0 = STACK_ENTRY_TYPE_CALL -> divergent done' pcs' e0 ->
     update (w_simt w) done' pcs' recvg_pc op cycle = Err AssertFailed).
Proof.
  intros Hw Ha [Hsz Hinv Hfill Hpcs _]%warp_reachable_inv Hi Hl Hd; [|done..].
  specialize (Hpcs i Hi Hl). destruct (m_stack (w_simt w)) as [|e0 rest] eqn:Hst; [done|].
  apply (simt_inv_done _ (w_done w) done') in Hinv; [|done]. rewrite <- Hsz in *.
  exists e0, rest. split_and!; [done|intros Hok|by intros; eapply update_fails].
  destruct (update_spec (w_simt w) e0 rest done' pcs' recvg_pc op cycle) as (st & E & Hi' & _ & Ho & Hl'); try done.
  eexists. split; [done|]. split; [done|]. intros j Hj Hnh. simpl. rewrite Ho by done.
  symmetry. by apply thread_pc_below.
Qed.

(** * A branch taken by half a warp *)

Lemma within_ones n : 0 <= n -> within n (Z.ones n).
Proof.
  intros Hn i Hi. destruct (Z.lt_ge_cases i 0) as [H0|H0]; [by rewrite Z.testbit_neg_r in Hi|].
  destruct (Z.lt_ge_cases i n); [done|]. by rewrite Z.ones_spec_high in Hi by lia.
Qed.

#[export] Instance simt_stack_inhabited : Inhabited simt_stack := populate (simt_stack_new 0 0).

Definition demo_warp : warp := launched 0 4 0 15.
Definition demo_pcs : list Z := [8; 8; 16; 16].
Definition demo_branched : simt_stack :=
  Eval vm_compute in from_ok (update (w_simt demo_warp) 0 demo_pcs 24 BRANCH_OP 7).

(** The top entry holds the lanes 0 and 1, the one below the lanes 2 and 3. *)
Example demo_branched_stack :
  map (fun e => (m_pc e, m_active_mask e, m_recvg_pc e)) (m_stack demo_branched) =
    [(8, 3, 24); (16, 12, 24); (24, 15, null_pc)].
Proof. reflexivity. Qed.

Definition demo_top : simt_stack_entry := mkStackEntry 0 1 15 null_pc 0 STACK_ENTRY_TYPE_NORMAL.

Lemma demo_update_ok : update_ok 4 0 demo_pcs 24 BRANCH_OP demo_top.
Proof.
  assert (Hn : forall j, holds demo_top j -> next demo_pcs j = 8 \/ next demo_pcs j = 16).
  { intros j Hj%(within_ones 4 ltac:(lia)).
    destruct (Z.eq_dec j 0), (Z.eq_dec j 1), (Z.eq_dec j 2), (Z.eq_dec j 3);
      subst; try lia; vm_compute; auto. }
  split; try done; unfold null_pc.
  - intros j _ Hj. destruct (Hn j Hj) as [-> | ->]; done.
  - intros _ i _ Hi Hr. destruct (Hn i Hi) as [H|H]; rewrite H in Hr; discriminate Hr.
  - by intros [?|[? _]].
Qed.

Lemma demo_step : warp_step demo_warp (mkWarp demo_branched 0 demo_pcs).
Proof.
  eapply (exec _ _ _ demo_top [] 0 demo_pcs 24 BRANCH_OP 7); [reflexivity|done| |apply demo_update_ok|reflexivity].
  intros i _ Hi. unfold next. destruct (decide (0 <= i < 4)) as [Hr|Hr].
  - exfalso. apply Hi. unfold holds. change (Z.testbit (Z.ones 4) i = true). apply Z.ones_spec_low. lia.
  - by rewrite !zread_none.
Qed.

Lemma simt_lockstep_witness :
  thread_pc (m_stack demo_branched) 1 = Some 8 /\ thread_pc (m_stack demo_branched) 3 = Some 16.
Proof.
  pose proof (simt_lockstep 0 4 0 15 (mkWarp demo_branched 0 demo_pcs) (within_ones 4 ltac:(lia))
    eq_refl (rtc_once _ _ demo_step)) as [H _].
  split; [apply (H 1)|apply (H 3)]; reflexivity.
Defined.

(** The lanes 0 and 1 arrive at the reconvergence point; a call with a target for each would stop. *)
Definition demo_joined : list Z := [24; 24; 16; 16].
Definition demo_half : simt_stack_entry := mkStackEntry 8 0 3 24 0 STACK_ENTRY_TYPE_NORMAL.

Lemma demo_half_lanes j : holds demo_half j -> j = 0 \/ j = 1.
Proof.
  intros Hj. pose proof (within_ones 2 ltac:(lia) j Hj). lia.
Qed.

Lemma demo_half_ok : update_ok 4 0 demo_joined null_pc ALU_OP demo_half.
Proof.
  split; [done|done| | |].
  - intros j _ [-> | ->]%demo_half_lanes; done.
  - intros (i & j & _ & _ & [-> | ->]%demo_half_lanes & [-> | ->]%demo_half_lanes & Hne); by destruct Hne.
  - by intros [?|[? _]].
Qed.

Lemma simt_update_succeeds_witness :
  (exists s', update demo_branched 0 demo_joined null_pc ALU_OP 9 = Ok s' /\
     thread_pc (m_stack s') 0 = Some 24 /\ thread_pc (m_stack s') 2 = Some 16) /\
  update demo_branched 0 [32; 40; 16; 16] null_pc CALL_OPS 9 = Err AssertFailed.
Proof.
  split.
  - destruct (simt_update_succeeds 0 4 0 15 (mkWarp demo_branched 0 demo_pcs) 0 demo_joined null_pc ALU_OP 9 1
      (within_ones 4 ltac:(lia)) eq_refl (rtc_once _ _ demo_step) eq_refl eq_refl ltac:(done))
      as (e0 & rest & E & H & _).
    injection E as <- _. destruct (H demo_half_ok) as (s' & Hs & Hm & Hk). exists s'.
    split; [exact Hs|]. split; [apply (Hm 0); reflexivity|]. rewrite (Hk 2); [reflexivity..|].
    intros [?|?]%demo_half_lanes; lia.
  - destruct (simt_update_succeeds 0 4 0 15 (mkWarp demo_branched 0 demo_pcs) 0 [32; 40; 16; 16] null_pc CALL_OPS 9 1
      (within_ones 4 ltac:(lia)) eq_refl (rtc_once _ _ demo_step) eq_refl eq_refl ltac:(done))
      as (e0 & rest & E & _ & H).
    injection E as <- _. apply H; [done|done| |by left|].
    + intros j _ [-> | ->]%demo_half_lanes; done.
    + by exists 0, 1.
Defined.

(** A point that is not where the lanes meet: lane 0 has arrived at the reconvergence
    point 40 of the top entry and is made to wait at 60. *)
Example stray_reconvergence_point :
  let branch := mkStackEntry 8 0 3 40 0 STACK_ENTRY_TYPE_NORMAL in
  let below := mkStackEntry 40 0 3 null_pc 0 STACK_ENTRY_TYPE_NORMAL in
  (s ← update (mkSimtStack 0 2 [branch; below]) 0 [40; 50] 60 BRANCH_OP 7;
   mret (thread_pc (m_stack s) 0, thread_pc (m_stack s) 1)) = Ok (Some 60, Some 50).
Proof. vm_compute. reflexivity. Qed.

(** A callee whose lanes return one after the other leaves its call entry on the stack: the
    entry moves to the return address and, being a call entry, runs past the
    reconvergence point of its caller. *)
Example divergent_return_keeps_call_entry :
  let caller := mkStackEntry 0 0 3 40 0 STACK_ENTRY_TYPE_NORMAL in
  let run := s ← update (mkSimtStack 0 2 [caller]) 0 [100; 100] null_pc CALL_OPS 0;
             s ← update s 0 [108; 116] 4 BRANCH_OP 0;
             s ← update s 0 [4; 116] null_pc RET_OPS 0;
             s ← update s 0 [4; 4] null_pc RET_OPS 0;
             update s 0 [40; 40] null_pc ALU_OP 0 in
  m_stack <$> (match run with Ok s => Some s | Err _ => None end) =
    Some [mkStackEntry 40 0 3 null_pc 0 STACK_ENTRY_TYPE_CALL; caller].
Proof. vm_compute. reflexivity. Qed.
