(* ===== verification/OrdMap.v ===== *)
(** * Ordered maps

    [std::map] with integer keys, as the list of its pairs in the order its
    iterators visit them: keys increase strictly.  [upsert] is
    [m[k]] on the left of an assignment or of a call that changes the entry. *)

From S2P Require Import Prelude.

Section ordered_map.
Context {V : Type}.
Implicit Types (m : list (Z * V)) (k : Z) (v : V).

Fixpoint ofind m k : option V :=
  match m with
  | [] => None
  | (k', v) :: m' => if k =? k' then Some v else ofind m' k
  end.

(** [f (m[k])] with [d] as the entry [operator[]] creates. *)
Fixpoint upsert m k (d : V) (f : V → V) : list (Z * V) :=
  match m with
  | [] => [(k, f d)]
  | (k', v) :: m' =>
      if k <? k' then (k, f d) :: m
      else if k =? k' then (k', f v) :: m'
      else (k', v) :: upsert m' k d f
  end.

Definition ordered m : Prop := StronglySorted (fun a b => a.1 < b.1) m.

Lemma ordered_nil : ordered [].
Proof. constructor. Qed.

Lemma ofind_below m k k' v : ordered ((k', v) :: m) -> k < k' -> ofind m k = None.
Proof.
  intros [_ H]%StronglySorted_inv Hk. induction m as [|[a w] m IH]; [done|]. simpl.
  apply Forall_cons in H as [H0 H]. simpl in H0. destruct (Z.eqb_spec k a); [lia|auto].
Qed.

Lemma ofind_upsert m k j d f : ordered m ->
  ofind (upsert m k d f) j = if j =? k then Some (f (default d (ofind m k))) else ofind m j.
Proof.
  intros Hm. induction m as [|[k' v] m IH]; simpl; [by destruct (j =? k)|].
  pose proof (proj1 (StronglySorted_inv Hm)) as Hm'.
  destruct (Z.ltb_spec k k').
  - simpl. destruct (Z.eqb_spec k k'); [lia|]. rewrite (ofind_below m k k' v) by done.
    by destruct (j =? k).
  - destruct (Z.eqb_spec k k') as [->|]; simpl.
    + by destruct (j =? k').
    + destruct (Z.eqb_spec j k') as [->|]; [by rewrite (proj2 (Z.eqb_neq k' k)) by lia|].
      by apply IH.
Qed.

Lemma elem_of_upsert m k d f a w :
  (a, w) ∈ upsert m k d f -> a = k \/ (a, w) ∈ m.
Proof.
  induction m as [|[k' v] m IH]; simpl.
  - intros [[= -> _]|[]%not_elem_of_nil]%elem_of_cons. by left.
  - destruct (Z.ltb_spec k k'); [|destruct (Z.eqb_spec k k') as [->|]].
    + intros [[= -> _]|?]%elem_of_cons; auto.
    + intros [[= -> _]|?]%elem_of_cons; [auto|]. right. by right.
    + intros [[= -> ->]|?%IH]%elem_of_cons; [right; by left|]. destruct H0; [auto|]. right. by right.
Qed.

Lemma ordered_upsert m k d f : ordered m -> ordered (upsert m k d f).
Proof.
  intros Hm. induction m as [|[k' v] m IH]; simpl; [by repeat constructor|].
  pose proof Hm as [Hm' H]%StronglySorted_inv.
  destruct (Z.ltb_spec k k'); [|destruct (Z.eqb_spec k k') as [->|]].
  - constructor; [done|]. constructor; [simpl; lia|]. eapply Forall_impl; [exact H|]. simpl. lia.
  - by constructor.
  - constructor; [by apply IH|]. apply Forall_forall. intros [a w] [->|Ha]%elem_of_upsert; [simpl; lia|].
    rewrite Forall_forall in H. by apply H in Ha.
Qed.

Lemma ofind_elem m k v : ordered m -> ofind m k = Some v <-> (k, v) ∈ m.
Proof.
  intros Hm. induction m as [|[k' w] m IH]; simpl.
  - split; [done|]. by intros ?%not_elem_of_nil.
  - pose proof Hm as [Hm' H]%StronglySorted_inv. rewrite elem_of_cons.
    destruct (Z.eqb_spec k k') as [->|].
    + split; [by intros [= ->]; left|]. intros [[= ->]|Hin]; [done|].
      rewrite Forall_forall in H. apply H in Hin. simpl in Hin. lia.
    + rewrite IH by done. split; [auto|]. intros [[= -> _]|?]; done.
Qed.

(** [m.erase(i)] with [i] at the entry of [k]. *)
Definition oerase m k : list (Z * V) := filter (fun p => p.1 <> k) m.

Lemma elem_of_oerase m k a v : (a, v) ∈ oerase m k <-> a <> k /\ (a, v) ∈ m.
Proof. unfold oerase. by rewrite list_elem_of_filter. Qed.

Lemma ordered_oerase m k : ordered m -> ordered (oerase m k).
Proof.
  induction m as [|[k' v] m IH]; intros Hm; [done|]. apply StronglySorted_inv in Hm as [Hm H].
  unfold oerase. rewrite filter_cons. case_decide; [|by apply IH]. constructor; [by apply IH|].
  apply Forall_forall. intros [a w] [_ Ha]%elem_of_oerase. rewrite Forall_forall in H. by apply H in Ha.
Qed.

Lemma ofind_oerase m k j : ordered m -> ofind (oerase m k) j = if j =? k then None else ofind m j.
Proof.
  intros Hm. apply option_eq. intros v. rewrite ofind_elem by (by apply ordered_oerase).
  rewrite elem_of_oerase. destruct (Z.eqb_spec j k) as [->|]; [naive_solver|].
  rewrite ofind_elem by done. naive_solver.
Qed.

Lemma ordered_keys m : ordered m -> NoDup m.*1.
Proof.
  intros Hm. induction m as [|[k v] m IH]; [constructor|].
  apply StronglySorted_inv in Hm as [Hm H]. simpl. apply NoDup_cons. split; [|by apply IH].
  intros ([k' v'] & E & Hin)%list_elem_of_fmap. simpl in E. subst k'.
  rewrite Forall_forall in H. apply H in Hin. simpl in Hin. lia.
Qed.

(** Keys from an interval: no more of them than it has numbers. *)
Lemma ordered_size m n : ordered m -> 0 <= n -> (forall k v, (k, v) ∈ m -> 0 <= k < n) -> zlen m <= n.
Proof.
  intros Hm Hn Hk. assert (m.*1 ⊆+ seqZ 0 n) as Hs.
  { apply NoDup_submseteq; [by apply ordered_keys|]. intros k ([k' v] & -> & Hin)%list_elem_of_fmap.
    apply elem_of_seqZ. simpl. apply Hk in Hin. lia. }
  apply submseteq_length in Hs. rewrite length_fmap, length_seqZ in Hs. unfold zlen. lia.
Qed.
End ordered_map.

#[export] Hint Resolve ordered_nil ordered_upsert ordered_oerase : ruby.
