(* ===== verification/PtxMemory.v ===== *)
(** * Memory of the functional simulator

    [memory_space_impl<BSIZE>] ([cuda-sim/memory.{h,cc}]): a 32-bit address space
    kept as a hash map of blocks of [BSIZE] bytes, read and written in runs of
    bytes that may cross blocks; and the operations of [gpgpu_t]
    ([cuda-sim/cuda-sim.cc]) on the global memory of the device.

    The memory refines a function from addresses to bytes ([byte_at]).  In the
    last block the product [(index+1)*BSIZE] is zero: writes there take the slow
    route and succeed, reads throw. *)

From S2P Require Import Prelude OrdMap.

Section memory_space_impl.
Context (BSIZE : Z).

(** [mem_storage<BSIZE>]: the bytes of a block. *)
Definition mem_storage_new : list Z := replicate (Z.to_nat BSIZE) 0.

Definition storage_write (m_data : list Z) (offset : Z) (data : list Z) : outcome (list Z) :=
  cassert (offset + zlen data <=? BSIZE);;
  mret (take (Z.to_nat offset) m_data ++ data ++ drop (Z.to_nat (offset + zlen data)) m_data).

Definition storage_read (m_data : list Z) (offset length : Z) : outcome (list Z) :=
  cassert (offset + length <=? BSIZE);;
  mret (take (Z.to_nat length) (drop (Z.to_nat offset) m_data)).

Record memory_space := mkMemory {
  m_log2_block_size : Z;
  m_data : gmap Z (list Z);
  m_watchpoints : list (Z * Z);  (** watchpoint number and address, in order *)
}.

(** The loop of the constructor over the bits of [BSIZE]. *)
Definition log2_bit (n log2 : Z) : outcome Z :=
  if Z.testbit BSIZE n then cassert (log2 =? 2 ^ 32 - 1);; mret n else mret log2.
Definition memory_space_new : outcome memory_space :=
  log2 ← for_range 0 32 log2_bit (2 ^ 32 - 1);
  cassert (negb (log2 =? 2 ^ 32 - 1));;
  mret (mkMemory log2 ∅ []).

Definition set_watch (m : memory_space) (addr watchpoint : Z) : memory_space :=
  mkMemory (m_log2_block_size m) (m_data m) (upsert (m_watchpoints m) watchpoint addr (fun _ => addr)).

Definition block (m : memory_space) (page : Z) : list Z := default mem_storage_new (m_data m !! page).

(** [m_data[page].write(offset, length, data)] *)
Definition block_write (m : memory_space) (page offset : Z) (data : list Z) : outcome memory_space :=
  b ← storage_write (block m page) offset data;
  mret (mkMemory (m_log2_block_size m) (<[page := b]> (m_data m)) (m_watchpoints m)).

Definition offset_of (addr : Z) : Z := Z.land addr (BSIZE - 1).

(** The bytes of one round of the slow routes: up to the end of the block. *)
Definition tx_size (offset nbytes_remain : Z) : Z :=
  let access_limit := u32 (offset + nbytes_remain) in
  (if BSIZE <? access_limit then BSIZE else access_limit) - offset.

Fixpoint write_loop (fuel : nat) (m : memory_space) (data : list Z) (current_addr nbytes_remain src_offset : Z) :
    outcome memory_space :=
  if 0 <? nbytes_remain then
    match fuel with
    | O => Err OutOfFuel
    | S fuel' =>
        let offset := offset_of current_addr in
        let page := Z.shiftr current_addr (m_log2_block_size m) in
        let tx_bytes := tx_size offset nbytes_remain in
        m' ← block_write m page offset (take (Z.to_nat tx_bytes) (drop (Z.to_nat src_offset) data));
        write_loop fuel' m' data (u32 (current_addr + tx_bytes)) (u32 (nbytes_remain - tx_bytes))
          (u32 (src_offset + tx_bytes))
    end
  else cassert (nbytes_remain =? 0);; mret m.

(** The watchpoints a write of [length] bytes at [addr] hits. *)
Definition watch_hits (m : memory_space) (addr length : Z) : list Z :=
  map fst (filter (fun p : Z * Z => let wa := p.2 in
    ((addr <=? wa) && (wa <? addr + length)) || ((wa <? addr) && (addr <? u32 (wa + 4))))
    (m_watchpoints m)).

(** [write]: the memory and the calls of [hit_watchpoint]. *)
Definition write (m : memory_space) (addr : Z) (data : list Z) : outcome (memory_space * list Z) :=
  let length := zlen data in
  let index := Z.shiftr addr (m_log2_block_size m) in
  m' ← (if addr + length <=? u32 ((index + 1) * BSIZE)
        then block_write m index (offset_of addr) data
        else write_loop (Z.to_nat length) m data addr (u32 length) 0);
  mret (m', watch_hits m addr length).

Definition read_single_block (m : memory_space) (blk_idx addr length : Z) : outcome (list Z) :=
  if u32 ((blk_idx + 1) * BSIZE) <? addr + length then Err Thrown
  else
    match m_data m !! blk_idx with
    | None => mret (replicate (Z.to_nat length) 0)
    | Some b => storage_read b (offset_of addr) length
    end.

(** The bytes read so far, [dst_offset] of them, are [acc]. *)
Fixpoint read_loop (fuel : nat) (m : memory_space) (current_addr nbytes_remain : Z) (acc : list Z) :
    outcome (list Z) :=
  if 0 <? nbytes_remain then
    match fuel with
    | O => Err OutOfFuel
    | S fuel' =>
        let offset := offset_of current_addr in
        let page := Z.shiftr current_addr (m_log2_block_size m) in
        let tx_bytes := tx_size offset nbytes_remain in
        d ← read_single_block m page current_addr tx_bytes;
        read_loop fuel' m (u32 (current_addr + tx_bytes)) (u32 (nbytes_remain - tx_bytes)) (acc ++ d)
    end
  else cassert (nbytes_remain =? 0);; mret acc.

Definition read (m : memory_space) (addr length : Z) : outcome (list Z) :=
  let index := Z.shiftr addr (m_log2_block_size m) in
  if addr + length <=? u32 ((index + 1) * BSIZE)
  then read_single_block m index addr length
  else read_loop (Z.to_nat length) m addr (u32 length) [].

(** * The memory as a function *)

Definition byte_at (m : memory_space) (a : Z) : Z := default 0 (zread (block m (a / BSIZE)) (a mod BSIZE)).

Record mem_wf (m : memory_space) : Prop := {
  mw_size : BSIZE = 2 ^ m_log2_block_size m;
  mw_log : 0 <= m_log2_block_size m < 32;
  mw_blocks : forall p b, m_data m !! p = Some b -> zlen b = BSIZE;
}.

Lemma block_size m p : mem_wf m -> zlen (block m p) = BSIZE.
Proof.
  intros Hm. unfold block. destruct (m_data m !! p) eqn:E; simpl; [by eapply mw_blocks|].
  apply zlen_replicate. pose proof (mw_size _ Hm). pose proof (mw_log _ Hm).
  assert (0 < 2 ^ m_log2_block_size m) by (apply Z.pow_pos_nonneg; lia). lia.
Qed.

Lemma bsize_range m : mem_wf m -> 0 < BSIZE <= 2 ^ 31.
Proof.
  intros [-> Hl _]. split; [apply Z.pow_pos_nonneg; lia|]. apply Z.pow_le_mono_r; lia.
Qed.

Lemma offset_val m a : mem_wf m -> offset_of a = a mod BSIZE.
Proof.
  intros [Hs Hl _]. unfold offset_of. rewrite Hs, Z.sub_1_r, <- Z.ones_equiv. apply Z.land_ones. lia.
Qed.

Lemma page_val m a : mem_wf m -> Z.shiftr a (m_log2_block_size m) = a / BSIZE.
Proof. intros [Hs Hl _]. rewrite Hs. apply Z.shiftr_div_pow2. lia. Qed.

(** An address of the block at [addr] is in a run of [n] bytes there. *)
Lemma in_block a addr n :
  0 < BSIZE -> 0 <= n -> addr mod BSIZE + n <= BSIZE ->
  addr <= a < addr + n <-> a / BSIZE = addr / BSIZE /\ addr mod BSIZE <= a mod BSIZE < addr mod BSIZE + n.
Proof.
  intros HB Hn Hf. pose proof (Z.div_mod addr BSIZE ltac:(lia)) as Ea. pose proof (Z.div_mod a BSIZE ltac:(lia)) as Eb.
  pose proof (Z.mod_pos_bound addr BSIZE HB). pose proof (Z.mod_pos_bound a BSIZE HB). split.
  - intros Ha. assert (a / BSIZE = addr / BSIZE) as E; [|split; [done|rewrite E in Eb; lia]].
    symmetry. apply Z.div_unique with (a - BSIZE * (addr / BSIZE)); lia.
  - intros [E Hr]. rewrite E in Eb. lia.
Qed.

(** [m'] is [m] with [data] at [addr], and nothing else. *)
Definition updated (m m' : memory_space) (addr : Z) (data : list Z) : Prop :=
  m_log2_block_size m' = m_log2_block_size m /\ m_watchpoints m' = m_watchpoints m /\
  forall a, byte_at m' a =
    if (addr <=? a) && (a <? addr + zlen data) then default 0 (zread data (a - addr)) else byte_at m a.

Lemma storage_write_spec b off data :
  zlen b = BSIZE -> 0 <= off -> off + zlen data <= BSIZE ->
  exists b', storage_write b off data = Ok b' /\ zlen b' = BSIZE /\
    forall i, 0 <= i < BSIZE ->
      zread b' i = if (off <=? i) && (i <? off + zlen data) then zread data (i - off) else zread b i.
Proof.
  intros Hb Ho Hf. unfold storage_write. rewrite cassert_true, bind_of_ok by (by apply Z.leb_le).
  eexists. split; [reflexivity|]. pose proof (zlen_nonneg data).
  split; [rewrite !zlen_app, zlen_take, zlen_drop by lia; lia|]. intros i Hi.
  rewrite zread_app, zlen_take by lia. destruct (Z.ltb_spec i off).
  - rewrite zread_take by lia. by rewrite (proj2 (Z.leb_gt off i)) by lia.
  - rewrite (proj2 (Z.leb_le off i)) by lia. simpl. rewrite zread_app.
    destruct (Z.ltb_spec (i - off) (zlen data)), (Z.ltb_spec i (off + zlen data)); try lia; [done|].
    rewrite zread_drop by lia. f_equal. lia.
Qed.

Lemma block_write_spec m addr data :
  mem_wf m -> addr mod BSIZE + zlen data <= BSIZE ->
  exists m', block_write m (addr / BSIZE) (addr mod BSIZE) data = Ok m' /\ mem_wf m' /\ updated m m' addr data.
Proof.
  intros Hm Hf. pose proof (bsize_range m Hm) as HB. pose proof (Z.mod_pos_bound addr BSIZE ltac:(lia)).
  destruct (storage_write_spec (block m (addr / BSIZE)) (addr mod BSIZE) data) as (b & Eb & Hb & Hr);
    [by apply block_size|lia|done|].
  unfold block_write. rewrite Eb, bind_of_ok. eexists. split; [reflexivity|]. split.
  - destruct Hm as [Hs Hl Hbl]. split; simpl; [done|done|]. intros p b'.
    rewrite lookup_insert_Some. intros [[_ <-]|[_ ?]]; [done|]. by eapply Hbl.
  - split_and!; [done|done|]. intros a. pose proof (in_block a addr (zlen data)) as Hin.
    specialize (Hin ltac:(lia) (zlen_nonneg data) Hf). pose proof (Z.mod_pos_bound a BSIZE ltac:(lia)).
    unfold byte_at, block. simpl. destruct (Z.eq_dec (a / BSIZE) (addr / BSIZE)) as [E|E].
    + rewrite E, lookup_insert_eq. simpl. rewrite Hr by lia.
      pose proof (Z.div_mod addr BSIZE ltac:(lia)). pose proof (Z.div_mod a BSIZE ltac:(lia)) as Ha.
      rewrite E in Ha. replace (a - addr) with (a mod BSIZE - addr mod BSIZE) by lia.
      destruct (Z.leb_spec addr a), (Z.ltb_spec a (addr + zlen data)),
        (Z.leb_spec (addr mod BSIZE) (a mod BSIZE)), (Z.ltb_spec (a mod BSIZE) (addr mod BSIZE + zlen data));
        simpl; try done; lia.
    + rewrite lookup_insert_ne by done.
      destruct (Z.leb_spec addr a), (Z.ltb_spec a (addr + zlen data)); simpl; try done.
      destruct Hin as [Hin _]. destruct Hin; [lia|done].
Qed.
Lemma tx_size_val off rem :
  0 < BSIZE -> 0 <= off < BSIZE -> 0 <= rem -> rem + BSIZE <= 2 ^ 32 ->
  tx_size off rem = Z.min (BSIZE - off) rem.
Proof.
  intros HB Ho Hr Hw. unfold tx_size. rewrite uwrap_small by lia.
  destruct (Z.ltb_spec BSIZE (off + rem)); lia.
Qed.

Lemma updated_app m m1 m2 addr d1 d2 :
  updated m m1 addr d1 -> updated m1 m2 (addr + zlen d1) d2 -> updated m m2 addr (d1 ++ d2).
Proof.
  intros (L1 & W1 & H1) (L2 & W2 & H2). split_and!; [congruence|congruence|]. intros a.
  rewrite H2, H1, zlen_app, zread_app. pose proof (zlen_nonneg d1). pose proof (zlen_nonneg d2).
  replace (a - addr - zlen d1) with (a - (addr + zlen d1)) by lia.
  destruct (Z.leb_spec (addr + zlen d1) a), (Z.ltb_spec a (addr + zlen d1 + zlen d2)), (Z.leb_spec addr a),
    (Z.ltb_spec a (addr + zlen d1)), (Z.ltb_spec a (addr + (zlen d1 + zlen d2))), (Z.ltb_spec (a - addr) (zlen d1));
    simpl; try done; lia.
Qed.

Lemma write_loop_spec fuel m data addr src :
  mem_wf m -> 0 <= addr -> 0 <= src <= zlen data -> addr + zlen data <= 2 ^ 32 ->
  zlen data + BSIZE <= 2 ^ 32 -> zlen data - src <= Z.of_nat fuel ->
  exists m', write_loop fuel m data (u32 (addr + src)) (zlen data - src) src = Ok m' /\ mem_wf m' /\
    updated m m' (addr + src) (drop (Z.to_nat src) data).
Proof.
  revert m src. induction fuel as [|fuel IH]; intros m src Hm Ha Hs Hw HB Hf; simpl;
    (destruct (Z.ltb_spec 0 (zlen data - src));
     [|rewrite cassert_true, bind_of_ok by (apply Z.eqb_eq; lia); exists m; split_and!; try done;
       split_and!; try done; intros a; rewrite zlen_drop by lia;
       destruct (Z.leb_spec (addr + src) a), (Z.ltb_spec a (addr + src + (zlen data - src))); simpl; done || lia]);
    [lia|].
  pose proof (bsize_range m Hm). rewrite (uwrap_small 32 (addr + src)) by lia.
  rewrite (offset_val m), (page_val m) by done. set (cur := addr + src).
  pose proof (Z.mod_pos_bound cur BSIZE ltac:(lia)). rewrite tx_size_val by lia.
  set (tx := Z.min (BSIZE - cur mod BSIZE) (zlen data - src)).
  assert (Hd : zlen (take (Z.to_nat tx) (drop (Z.to_nat src) data)) = tx)
    by (apply zlen_take; rewrite zlen_drop by lia; lia).
  destruct (block_write_spec m cur (take (Z.to_nat tx) (drop (Z.to_nat src) data))) as (m1 & -> & Hm1 & Hu);
    [done|rewrite Hd; lia|]. rewrite bind_of_ok.
  rewrite (uwrap_small 32 (zlen data - src - tx)), (uwrap_small 32 (src + tx)) by lia.
  replace (cur + tx) with (addr + (src + tx)) by lia. replace (zlen data - src - tx) with (zlen data - (src + tx)) by lia.
  destruct (IH m1 (src + tx)) as (m2 & E & Hm2 & Hu2); [done|lia..|].
  exists m2. split_and!; [done|done|]. rewrite <- (take_drop (Z.to_nat tx) (drop (Z.to_nat src) data)).
  eapply updated_app; [exact Hu|]. rewrite Hd, drop_drop.
  replace (Z.to_nat src + Z.to_nat tx)%nat with (Z.to_nat (src + tx)) by lia.
  by replace (cur + tx) with (addr + (src + tx)) by lia.
Qed.

(** A write below the end of the address space. *)
Lemma write_spec m addr data :
  mem_wf m -> 0 <= addr < 2 ^ 32 -> addr + zlen data <= 2 ^ 32 -> zlen data + BSIZE <= 2 ^ 32 ->
  exists m', write m addr data = Ok (m', watch_hits m addr (zlen data)) /\ mem_wf m' /\ updated m m' addr data.
Proof.
  intros Hm Ha Hw HB. pose proof (bsize_range m Hm). pose proof (zlen_nonneg data). unfold write.
  rewrite (offset_val m), (page_val m) by done.
  destruct (Z.leb_spec (addr + zlen data) (u32 ((addr / BSIZE + 1) * BSIZE))) as [Hfast|Hslow].
  - destruct (block_write_spec m addr data) as (m' & -> & ? & ?); [done| |by exists m'].
    pose proof (Z.div_mod addr BSIZE ltac:(lia)). pose proof (Z.div_pos addr BSIZE ltac:(lia) ltac:(lia)).
    assert (u32 ((addr / BSIZE + 1) * BSIZE) <= (addr / BSIZE + 1) * BSIZE) by (apply Z.mod_le; nia). lia.
  - destruct (write_loop_spec (Z.to_nat (zlen data)) m data addr 0) as (m' & E & Hm' & Hu); [done|lia..|].
    rewrite Z.add_0_r, Z.sub_0_r, (uwrap_small 32 addr) in E by lia.
    rewrite (uwrap_small 32 (zlen data)), E by lia. rewrite Z.add_0_r in Hu. by exists m'.
Qed.
(** * Reads *)

Definition bytes_at (m : memory_space) (addr n : Z) : list Z :=
  map (fun i => byte_at m (addr + i)) (seqZ 0 n).

Lemma zlen_bytes_at m addr n : 0 <= n -> zlen (bytes_at m addr n) = n.
Proof. intros. unfold zlen, bytes_at. rewrite length_map, length_seqZ. lia. Qed.

Lemma zread_bytes_at m addr n i : 0 <= i < n -> zread (bytes_at m addr n) i = Some (byte_at m (addr + i)).
Proof.
  intros Hi. rewrite zread_lookup by lia. unfold bytes_at. rewrite list_lookup_fmap.
  rewrite lookup_seqZ_lt by lia. simpl. do 2 f_equal. lia.
Qed.

Lemma bytes_at_is m addr n l :
  0 <= n -> zlen l = n -> (forall i, 0 <= i < n -> zread l i = Some (byte_at m (addr + i))) -> l = bytes_at m addr n.
Proof.
  intros Hn Hl H. apply zread_ext; [by rewrite zlen_bytes_at|]. intros i Hi.
  rewrite zread_bytes_at by lia. apply H. lia.
Qed.

Lemma bytes_at_app m addr j k : 0 <= j -> 0 <= k ->
  bytes_at m addr (j + k) = bytes_at m addr j ++ bytes_at m (addr + j) k.
Proof.
  intros. symmetry. apply bytes_at_is; [lia|by rewrite zlen_app, !zlen_bytes_at|].
  intros i Hi. rewrite zread_app, zlen_bytes_at by lia. destruct (Z.ltb_spec i j).
  - by rewrite zread_bytes_at by lia.
  - rewrite zread_bytes_at by lia. do 2 f_equal. lia.
Qed.

(** The blocks of the address space: [(index+1)*BSIZE] wraps around for the last. *)
Lemma block_end m a : mem_wf m -> 0 <= a < 2 ^ 32 ->
  u32 ((a / BSIZE + 1) * BSIZE) = if a <? 2 ^ 32 - BSIZE then (a / BSIZE + 1) * BSIZE else 0.
Proof.
  intros Hm Ha. pose proof (bsize_range m Hm). destruct Hm as [Hs Hl _].
  assert (Hd : 2 ^ 32 = BSIZE * 2 ^ (32 - m_log2_block_size m)).
  { rewrite Hs, <- Z.pow_add_r by lia. f_equal. lia. }
  set (N := 2 ^ (32 - m_log2_block_size m)) in *.
  pose proof (Z.div_mod a BSIZE ltac:(lia)) as Ea. pose proof (Z.mod_pos_bound a BSIZE ltac:(lia)).
  pose proof (Z.div_pos a BSIZE ltac:(lia) ltac:(lia)).
  destruct (Z.ltb_spec a (2 ^ 32 - BSIZE)).
  - apply uwrap_small. rewrite Hd in *. split; [nia|]. assert (a / BSIZE < N - 1) by nia. nia.
  - assert (a / BSIZE = N - 1) as -> by nia. unfold uwrap. rewrite Hd.
    replace ((N - 1 + 1) * BSIZE) with (BSIZE * N) by lia. apply Z.mod_same. lia.
Qed.

Lemma block_before m a : mem_wf m -> 0 <= a < 2 ^ 32 - BSIZE -> (a / BSIZE + 1) * BSIZE <= 2 ^ 32 - BSIZE.
Proof.
  intros Hm Ha. pose proof (bsize_range m Hm). destruct Hm as [Hs Hl _].
  assert (Hd : 2 ^ 32 = BSIZE * 2 ^ (32 - m_log2_block_size m)).
  { rewrite Hs, <- Z.pow_add_r by lia. f_equal. lia. }
  set (N := 2 ^ (32 - m_log2_block_size m)) in *. rewrite Hd in *.
  assert (a / BSIZE < N - 1) by (apply Z.div_lt_upper_bound; lia). nia.
Qed.

Lemma read_single_block_spec m addr n :
  mem_wf m -> 0 <= addr < 2 ^ 32 -> 0 < n -> addr mod BSIZE + n <= BSIZE ->
  read_single_block m (addr / BSIZE) addr n =
    if addr <? 2 ^ 32 - BSIZE then Ok (bytes_at m addr n) else Err Thrown.
Proof.
  intros Hm Ha Hn Hf. pose proof (bsize_range m Hm). unfold read_single_block. rewrite (block_end m) by done.
  pose proof (Z.div_mod addr BSIZE ltac:(lia)). pose proof (Z.mod_pos_bound addr BSIZE ltac:(lia)).
  destruct (Z.ltb_spec addr (2 ^ 32 - BSIZE)); [|by rewrite (proj2 (Z.ltb_lt 0 _)) by lia].
  rewrite (proj2 (Z.ltb_ge _ _)) by lia.
  assert (Hbyte : forall i, 0 <= i < n ->
    byte_at m (addr + i) = default 0 (zread (block m (addr / BSIZE)) (addr mod BSIZE + i))).
  { intros i Hi. destruct (proj1 (in_block (addr + i) addr n ltac:(lia) ltac:(lia) Hf)) as [E1 E2]; [lia|].
    unfold byte_at. rewrite E1. do 2 f_equal. pose proof (Z.div_mod (addr + i) BSIZE ltac:(lia)) as E.
    rewrite E1 in E. lia. }
  destruct (m_data m !! (addr / BSIZE)) as [b|] eqn:Eb.
  - unfold storage_read. rewrite (offset_val m), cassert_true, bind_of_ok by (done || by apply Z.leb_le).
    unfold mret, outcome_ret. f_equal. pose proof (mw_blocks _ Hm _ _ Eb) as Hb.
    apply bytes_at_is; [lia|rewrite zlen_take; rewrite ?zlen_drop by lia; lia|].
    intros i Hi. rewrite zread_take, zread_drop, Hbyte by lia. unfold block. rewrite Eb. simpl.
    destruct (zread_is_some b (addr mod BSIZE + i)) as [x Hx]; [lia|]. rewrite Hx. simpl. rewrite <- Hx. f_equal. lia.
  - unfold mret, outcome_ret. f_equal. apply bytes_at_is; [lia|by rewrite zlen_replicate by lia|].
    intros i Hi. rewrite zread_replicate, Hbyte by lia. unfold block. rewrite Eb. simpl.
    unfold mem_storage_new. rewrite zread_replicate.
    rewrite (proj2 (Z.leb_le 0 i)), (proj2 (Z.ltb_lt i n)), (proj2 (Z.leb_le 0 _)), (proj2 (Z.ltb_lt _ BSIZE)) by lia.
    done.
Qed.

Lemma read_loop_spec fuel m addr len acc :
  mem_wf m -> 0 <= addr -> 0 <= len -> addr + len <= 2 ^ 32 -> len + BSIZE <= 2 ^ 32 -> len <= Z.of_nat fuel ->
  read_loop fuel m (u32 addr) len acc =
    if (addr + len <=? 2 ^ 32 - BSIZE) || (len =? 0) then Ok (acc ++ bytes_at m addr len) else Err Thrown.
Proof.
  revert addr len acc. induction fuel as [|fuel IH]; intros addr len acc Hm Ha Hl Hw HB Hf; simpl;
    (destruct (Z.ltb_spec 0 len);
     [|replace len with 0 by lia; simpl; rewrite orb_true_r; by rewrite app_nil_r]); [lia|].
  pose proof (bsize_range m Hm). rewrite (uwrap_small 32 addr) by lia.
  rewrite (offset_val m), (page_val m) by done.
  pose proof (Z.mod_pos_bound addr BSIZE ltac:(lia)). rewrite tx_size_val by lia.
  set (tx := Z.min (BSIZE - addr mod BSIZE) len). rewrite read_single_block_spec by (done || lia).
  rewrite (proj2 (Z.eqb_neq len 0)), orb_false_r by lia.
  destruct (Z.ltb_spec addr (2 ^ 32 - BSIZE)).
  - rewrite bind_of_ok, (uwrap_small 32 (len - tx)) by lia. rewrite IH by (done || lia).
    replace (addr + tx + (len - tx)) with (addr + len) by lia. destruct (Z.eqb_spec (len - tx) 0) as [E|E].
    + rewrite orb_true_r, E, app_nil_r. replace tx with len by lia.
      rewrite (proj2 (Z.leb_le _ _)); [done|].
      pose proof (block_before m addr Hm ltac:(lia)). pose proof (Z.div_mod addr BSIZE ltac:(lia)). lia.
    + rewrite orb_false_r. destruct (_ <=? _); [|done]. f_equal. rewrite <- app_assoc. f_equal.
      rewrite <- bytes_at_app by lia. f_equal. lia.
  - rewrite (proj2 (Z.leb_gt _ _)) by lia. done.
Qed.

Lemma read_spec m addr len :
  mem_wf m -> 0 <= addr < 2 ^ 32 -> 0 < len -> addr + len <= 2 ^ 32 -> len + BSIZE <= 2 ^ 32 ->
  read m addr len = if addr + len <=? 2 ^ 32 - BSIZE then Ok (bytes_at m addr len) else Err Thrown.
Proof.
  intros Hm Ha Hl Hw HB. pose proof (bsize_range m Hm). unfold read. rewrite (page_val m), (block_end m) by done.
  pose proof (Z.div_mod addr BSIZE ltac:(lia)). pose proof (Z.mod_pos_bound addr BSIZE ltac:(lia)).
  destruct (Z.leb_spec (addr + len) (if addr <? 2 ^ 32 - BSIZE then (addr / BSIZE + 1) * BSIZE else 0)) as [Hb|Hb].
  - destruct (Z.ltb_spec addr (2 ^ 32 - BSIZE)); [|lia]. pose proof (block_before m addr Hm ltac:(lia)).
    rewrite read_single_block_spec by (done || lia).
    by rewrite (proj2 (Z.ltb_lt addr _)), (proj2 (Z.leb_le (addr + len) _)) by lia.
  - rewrite (uwrap_small 32 len) by lia. rewrite <- (uwrap_small 32 addr) at 1 by lia.
    rewrite read_loop_spec by (done || lia). by rewrite (proj2 (Z.eqb_neq len 0)), orb_false_r by lia.
Qed.

Lemma bytes_at_updated m m' addr data : updated m m' addr data -> bytes_at m' addr (zlen data) = data.
Proof.
  intros (_ & _ & H). symmetry. pose proof (zlen_nonneg data). apply bytes_at_is; [done|done|].
  intros i Hi. rewrite H. rewrite (proj2 (Z.leb_le _ _)), (proj2 (Z.ltb_lt _ _)) by lia. simpl.
  replace (addr + i - addr) with i by lia. by destruct (zread_is_some data i Hi) as [x ->].
Qed.

(** The memory of a new space is zero everywhere. *)
Lemma memory_space_new_spec k : BSIZE = 2 ^ k -> 0 <= k < 32 ->
  exists m, memory_space_new = Ok m /\ mem_wf m /\ forall a, byte_at m a = 0.
Proof.
  intros Hk Hr. unfold memory_space_new.
  destruct (for_range_inv (fun n log2 => log2 = if n <=? k then 2 ^ 32 - 1 else k) 0 32 log2_bit (2 ^ 32 - 1))
    as (l & -> & Hl); [lia|by rewrite (proj2 (Z.leb_le 0 k)) by lia| |].
  - intros n l Hn ->. unfold log2_bit. rewrite Hk, Z.pow2_bits_eqb by lia.
    destruct (Z.eqb_spec k n) as [->|].
    + rewrite Z.leb_refl. eexists. split; [reflexivity|]. by rewrite (proj2 (Z.leb_gt _ _)) by lia.
    + eexists. split; [reflexivity|]. destruct (Z.leb_spec n k), (Z.leb_spec (n + 1) k); done || lia.
  - rewrite (proj2 (Z.leb_gt _ _)) in Hl by lia. subst l. rewrite bind_of_ok, cassert_true, bind_of_ok
      by (apply negb_true_iff, Z.eqb_neq; lia). eexists. split; [reflexivity|]. split; [by split|].
    intros a. unfold byte_at, block. simpl. rewrite lookup_empty. simpl. unfold mem_storage_new. rewrite zread_replicate.
    by destruct (_ && _).
Qed.

(** C32: A write of any bytes below the last block of the address space succeeds, within
    one block or across many: a read of the addresses written gives the bytes back, and
    a read elsewhere gives what was there before. *)
Theorem memory_write_then_read m addr data :
  mem_wf m -> 0 <= addr < 2 ^ 32 -> addr + zlen data <= 2 ^ 32 - BSIZE -> 0 < zlen data ->
  exists m', write m addr data = Ok (m', watch_hits m addr (zlen data)) /\ mem_wf m' /\
    read m' addr (zlen data) = Ok data /\
    forall a n, 0 <= a < 2 ^ 32 -> 0 < n -> a + n <= 2 ^ 32 - BSIZE ->
      a + n <= addr \/ addr + zlen data <= a -> read m' a n = read m a n.
Proof.
  intros Hm Ha Hw Hd. pose proof (bsize_range m Hm).
  destruct (write_spec m addr data) as (m' & E & Hm' & Hu); [done|lia..|]. exists m'. split_and!; [done|done|..].
  - rewrite read_spec by (done || lia). rewrite (proj2 (Z.leb_le _ _)) by lia. f_equal. by eapply bytes_at_updated.
  - intros a n Ha' Hn Hw' Hdis. rewrite !read_spec by (done || lia).
    rewrite (proj2 (Z.leb_le (a + n) _)) by lia. f_equal. apply bytes_at_is; [lia|by rewrite zlen_bytes_at by lia|].
    intros i Hi. rewrite zread_bytes_at by lia. f_equal. destruct Hu as (_ & _ & ->).
    destruct (Z.leb_spec addr (a + i)), (Z.ltb_spec (a + i) (addr + zlen data)); done || lia.
Qed.

(** Exactly the reads that touch the last block of the address space throw, although
    writes there succeed; every other read returns as many bytes as were asked for. *)
Theorem memory_read_errors m addr len :
  mem_wf m -> 0 <= addr < 2 ^ 32 -> 0 < len -> addr + len <= 2 ^ 32 -> len + BSIZE <= 2 ^ 32 ->
  (read m addr len = Err Thrown <-> 2 ^ 32 - BSIZE < addr + len) /\
  (addr + len <= 2 ^ 32 - BSIZE -> exists d, read m addr len = Ok d /\ zlen d = len) /\
  forall data, zlen data = len -> is_ok (write m addr data).
Proof.
  intros Hm Ha Hl Hw HB. rewrite read_spec by done. split_and!.
  - destruct (Z.leb_spec (addr + len) (2 ^ 32 - BSIZE)); split; done || lia.
  - intros H. rewrite (proj2 (Z.leb_le _ _)) by lia. eexists. split; [done|]. apply zlen_bytes_at. lia.
  - intros data <-. destruct (write_spec m addr data) as (m' & -> & _); [done|lia..|]. by eexists.
Qed.
End memory_space_impl.

(** * Device memory *)

Definition GLOBAL_BSIZE : Z := 8192.
Definition GLOBAL_HEAP_START : Z := 2147483648.

Record gpgpu_t := mkGpgpu { m_global_mem : memory_space; m_dev_malloc : Z }.

Definition gpgpu_new : outcome gpgpu_t :=
  m ← memory_space_new GLOBAL_BSIZE; mret (mkGpgpu m GLOBAL_HEAP_START).

(** [gpu_malloc], and [gpu_mallocarray], which has the same body. *)
Definition gpu_malloc (g : gpgpu_t) (size : Z) : Z * gpgpu_t :=
  let next := u64 (m_dev_malloc g + size) in
  let next := if negb (size mod 256 =? 0) then u64 (next + (256 - size mod 256)) else next in
  (m_dev_malloc g, mkGpgpu (m_global_mem g) next).
Definition gpu_mallocarray (g : gpgpu_t) (size : Z) : Z * gpgpu_t := gpu_malloc g size.

(** One byte of a copy: the address is cut to [mem_addr_t]. *)
Definition poke (g : gpgpu_t) (addr byte : Z) : outcome gpgpu_t :=
  r ← write GLOBAL_BSIZE (m_global_mem g) (u32 addr) [byte];
  mret (mkGpgpu (fst r) (m_dev_malloc g)).
Definition peek (g : gpgpu_t) (addr : Z) : outcome Z :=
  d ← read GLOBAL_BSIZE (m_global_mem g) (u32 addr) 1; aread d 0.

Definition memcpy_to_gpu (g : gpgpu_t) (dst_start_addr : Z) (src : list Z) : outcome gpgpu_t :=
  for_range 0 (zlen src) (fun n g => b ← aread src n; poke g (dst_start_addr + n) b) g.
Definition memcpy_from_gpu (g : gpgpu_t) (src_start_addr count : Z) : outcome (list Z) :=
  for_range 0 count (fun n dst => b ← peek g (src_start_addr + n); mret (dst ++ [b])) [].
Definition memcpy_gpu_to_gpu (g : gpgpu_t) (dst src count : Z) : outcome gpgpu_t :=
  for_range 0 count (fun n g => b ← peek g (src + n); poke g (dst + n) b) g.
Definition gpu_memset (g : gpgpu_t) (dst_start_addr c count : Z) : outcome gpgpu_t :=
  for_range 0 count (fun n g => poke g (dst_start_addr + n) (uwrap 8 c)) g.

Section device.
(** The bytes below the last block, which cannot be read. *)
Definition in_device (a n : Z) : Prop := 0 <= a /\ 0 <= n /\ a + n <= 2 ^ 32 - GLOBAL_BSIZE.
Definition device_wf (g : gpgpu_t) : Prop := mem_wf GLOBAL_BSIZE (m_global_mem g).
Definition dbyte (g : gpgpu_t) (a : Z) : Z := byte_at GLOBAL_BSIZE (m_global_mem g) a.

Lemma poke_spec g a b : device_wf g -> in_device a 1 ->
  exists g', poke g a b = Ok g' /\ device_wf g' /\ m_dev_malloc g' = m_dev_malloc g /\
    forall x, dbyte g' x = if x =? a then b else dbyte g x.
Proof.
  intros Hg [H0 [_ Ha]]. unfold GLOBAL_BSIZE in Ha. unfold poke. rewrite uwrap_small by lia.
  destruct (write_spec GLOBAL_BSIZE (m_global_mem g) a [b]) as (m & -> & Hm & Hu);
    [done|unfold GLOBAL_BSIZE, zlen; simpl; lia..|].
  rewrite bind_of_ok. eexists. split; [reflexivity|]. split_and!; [done|done|]. intros x.
  unfold dbyte. simpl. destruct Hu as (_ & _ & ->). change (zlen [b]) with 1.
  destruct (Z.eqb_spec x a) as [->|].
  - rewrite Z.leb_refl, (proj2 (Z.ltb_lt _ _)), Z.sub_diag by lia. done.
  - destruct (Z.leb_spec a x), (Z.ltb_spec x (a + 1)); done || lia.
Qed.

Lemma peek_spec g a : device_wf g -> in_device a 1 -> peek g a = Ok (dbyte g a).
Proof.
  intros Hg [H0 [_ Ha]]. unfold GLOBAL_BSIZE in Ha. unfold peek. rewrite uwrap_small by lia.
  rewrite read_spec by (done || unfold GLOBAL_BSIZE; lia).
  rewrite (proj2 (Z.leb_le _ _)), bind_of_ok by (unfold GLOBAL_BSIZE; lia).
  rewrite aread_ok, zread_bytes_at by lia. unfold dbyte. by rewrite Z.add_0_r.
Qed.

(** A copy or fill: byte [n] of the run at [dst] becomes [f n], as long as the loop
    body finds it. *)
Lemma fill_spec g dst count (f : Z → Z) (body : Z → gpgpu_t → outcome gpgpu_t) :
  device_wf g -> in_device dst count ->
  (forall n g', 0 <= n < count -> device_wf g' ->
     (forall x, ~ (dst <= x < dst + n) -> dbyte g' x = dbyte g x) ->
     body n g' = poke g' (dst + n) (f n)) ->
  exists g', for_range 0 count body g = Ok g' /\ device_wf g' /\ m_dev_malloc g' = m_dev_malloc g /\
    forall x, dbyte g' x = if (dst <=? x) && (x <? dst + count) then f (x - dst) else dbyte g x.
Proof.
  intros Hg (Hd & Hc & Hw) Hbody.
  destruct (for_range_inv (fun n g' => device_wf g' /\ m_dev_malloc g' = m_dev_malloc g /\
    forall x, dbyte g' x = if (dst <=? x) && (x <? dst + n) then f (x - dst) else dbyte g x) 0 count body g)
    as (g' & E & ? & ? & H); [done| | |by exists g'].
  - split_and!; try done. intros x. destruct (Z.leb_spec dst x), (Z.ltb_spec x (dst + 0)); done || lia.
  - intros n g1 Hn (H1 & Hm1 & H). rewrite Hbody; [|done|done|].
    + destruct (poke_spec g1 (dst + n) (f n)) as (g2 & -> & H2 & Hm2 & Hx); [done|split; lia|].
      exists g2. split_and!; [done|done|congruence|]. intros x. rewrite Hx, H.
      destruct (Z.eqb_spec x (dst + n)) as [->|].
      * rewrite (proj2 (Z.leb_le _ _)), (proj2 (Z.ltb_lt _ _)) by lia. simpl. f_equal. lia.
      * destruct (Z.leb_spec dst x), (Z.ltb_spec x (dst + n)), (Z.ltb_spec x (dst + (n + 1))); done || lia.
    + intros x Hx. rewrite H. destruct (Z.leb_spec dst x), (Z.ltb_spec x (dst + n)); done || lia.
Qed.

Lemma memcpy_to_gpu_spec g dst src : device_wf g -> in_device dst (zlen src) ->
  exists g', memcpy_to_gpu g dst src = Ok g' /\ device_wf g' /\ m_dev_malloc g' = m_dev_malloc g /\
    forall x, dbyte g' x =
      if (dst <=? x) && (x <? dst + zlen src) then default 0 (zread src (x - dst)) else dbyte g x.
Proof.
  intros Hg Hd. apply (fill_spec g dst (zlen src) (fun n => default 0 (zread src n))); [done|done|].
  intros n g' Hn _ _. destruct (aread_in src n Hn) as (b & Hb & ->). by rewrite bind_of_ok, Hb.
Qed.

Lemma memcpy_from_gpu_spec g src count : device_wf g -> in_device src count ->
  memcpy_from_gpu g src count = Ok (bytes_at GLOBAL_BSIZE (m_global_mem g) src count).
Proof.
  intros Hg (Hs & Hc & Hw). unfold memcpy_from_gpu.
  destruct (for_range_inv (fun n dst => 0 <= n /\ dst = bytes_at GLOBAL_BSIZE (m_global_mem g) src n)
    0 count (fun n dst => b ← peek g (src + n); mret (dst ++ [b])) []) as (d & -> & _ & ->); [done|done| |done].
  intros n d Hn [_ ->]. rewrite peek_spec, bind_of_ok by (done || split; lia).
  eexists. split; [reflexivity|]. split; [lia|]. rewrite bytes_at_app by lia. f_equal.
  unfold bytes_at, dbyte. simpl. by rewrite Z.add_0_r.
Qed.

(** What the host copies to the device it reads back, and copies to other places do not
    disturb it: two buffers from gpu_malloc start at multiples of 256, do not overlap,
    and after both have been filled each holds what was copied there. *)
Theorem device_buffers_roundtrip g p1 p2 g1 g2 d1 d2 :
  device_wf g -> 0 <= m_dev_malloc g -> m_dev_malloc g mod 256 = 0 ->
  gpu_malloc g (zlen d1) = (p1, g1) -> gpu_malloc g1 (zlen d2) = (p2, g2) ->
  m_dev_malloc g2 <= 2 ^ 32 - GLOBAL_BSIZE -> zlen d1 < 2 ^ 32 -> zlen d2 < 2 ^ 32 -> m_dev_malloc g < 2 ^ 32 ->
  p1 mod 256 = 0 /\ p2 mod 256 = 0 /\ p1 + zlen d1 <= p2 /\
  exists g3 g4, memcpy_to_gpu g2 p1 d1 = Ok g3 /\ memcpy_to_gpu g3 p2 d2 = Ok g4 /\
    memcpy_from_gpu g4 p1 (zlen d1) = Ok d1 /\ memcpy_from_gpu g4 p2 (zlen d2) = Ok d2.
Proof.
  intros Hg Hm0 Ha. pose proof (zlen_nonneg d1). pose proof (zlen_nonneg d2). unfold gpu_malloc, GLOBAL_BSIZE.
  intros [= <- <-] [= <- <-]. simpl. intros Hlim H1 H2 H3.
  rewrite (uwrap_small 64 (m_dev_malloc g + zlen d1)) in * by lia.
  rewrite (uwrap_small 64 (m_dev_malloc g + zlen d1 + _)) in * by lia.
  set (p1 := m_dev_malloc g) in *.
  set (p2 := if negb (zlen d1 mod 256 =? 0) then _ else _) in *.
  assert (Hp2 : p2 mod 256 = 0 /\ p1 + zlen d1 <= p2 < 2 ^ 34).
  { unfold p2. destruct (Z.eqb_spec (zlen d1 mod 256) 0); simpl; lia. }
  rewrite (uwrap_small 64 (p2 + zlen d2)) in * by lia. rewrite (uwrap_small 64 (p2 + zlen d2 + _)) in * by lia.
  assert (Hend : p2 + zlen d2 <= 2 ^ 32 - 8192).
  { destruct (negb (zlen d2 mod 256 =? 0)); lia. }
  split_and!; [done|lia|lia|]. clearbody p2.
  set (g2 := mkGpgpu (m_global_mem g) _). assert (Hg2 : device_wf g2) by done.
  destruct (memcpy_to_gpu_spec g2 p1 d1) as (g3 & E3 & H3' & _ & Hx3); [done|split; unfold GLOBAL_BSIZE; lia|].
  destruct (memcpy_to_gpu_spec g3 p2 d2) as (g4 & E4 & H4 & _ & Hx4); [done|split; unfold GLOBAL_BSIZE; lia|].
  exists g3, g4. split_and!; [done|done|..]; rewrite memcpy_from_gpu_spec by (done || split; unfold GLOBAL_BSIZE; lia);
    f_equal; symmetry; (apply bytes_at_is; [lia|done|]); intros i Hi; change (byte_at ?b (m_global_mem g4) ?a) with (dbyte g4 a).
  - rewrite Hx4, (proj2 (Z.leb_gt p2 _)) by lia. simpl.
    rewrite Hx3, (proj2 (Z.leb_le p1 _)), (proj2 (Z.ltb_lt (p1 + i) _)) by lia.
    simpl. replace (p1 + i - p1) with i by lia. by destruct (zread_is_some d1 i Hi) as [x ->].
  - rewrite Hx4. rewrite (proj2 (Z.leb_le p2 _)), (proj2 (Z.ltb_lt (p2 + i) _)) by lia.
    simpl. replace (p2 + i - p2) with i by lia. by destruct (zread_is_some d2 i Hi) as [x ->].
Qed.

(** A device copy to lower addresses, or to a place apart, moves the bytes; a fill sets them. *)
Lemma memcpy_gpu_to_gpu_spec g dst src count :
  device_wf g -> in_device dst count -> in_device src count -> dst <= src \/ src + count <= dst ->
  exists g', memcpy_gpu_to_gpu g dst src count = Ok g' /\ device_wf g' /\
    forall x, dbyte g' x = if (dst <=? x) && (x <? dst + count) then dbyte g (src + (x - dst)) else dbyte g x.
Proof.
  intros Hg Hd (Hs & Hc & Hw) Hov.
  destruct (fill_spec g dst count (fun n => dbyte g (src + n))
    (fun n g => b ← peek g (src + n); poke g (dst + n) b)) as (g' & ? & ? & _ & ?); [done|done| |by exists g'].
  intros n g' Hn Hg' Hsame. rewrite peek_spec, bind_of_ok by (done || split; lia).
  rewrite Hsame by lia. done.
Qed.
End device.

(** * Small runs *)

Definition demo_mem : memory_space := mkMemory 5 ∅ [].
Example demo_mem_is_new : memory_space_new 32 = Ok demo_mem.
Proof. reflexivity. Qed.
Lemma demo_mem_wf : mem_wf 32 demo_mem.
Proof. split; [reflexivity|vm_compute; split; congruence|]. intros p b. simpl. by rewrite lookup_empty. Qed.

(** A write across three blocks of 32 bytes. *)
Definition demo_bytes : list Z := seqZ 1 70.
Lemma memory_write_then_read_witness :
  exists m', write 32 demo_mem 30 demo_bytes = Ok (m', watch_hits demo_mem 30 (zlen demo_bytes)) /\
    read 32 m' 30 (zlen demo_bytes) = Ok demo_bytes.
Proof.
  destruct (memory_write_then_read 32 demo_mem 30 demo_bytes demo_mem_wf) as (m' & E & _ & R & _);
    [lia|vm_compute; discriminate|reflexivity|]. exists m'. exact (conj E R).
Defined.

Lemma memory_read_errors_witness :
  read 32 demo_mem (2 ^ 32 - 4) 4 = Err Thrown /\ is_ok (write 32 demo_mem (2 ^ 32 - 4) [1; 2; 3; 4]).
Proof.
  destruct (memory_read_errors 32 demo_mem (2 ^ 32 - 4) 4 demo_mem_wf) as (H1 & _ & H3); [lia..|].
  split; [apply H1; lia|]. apply H3. reflexivity.
Defined.

Definition demo_gpu : gpgpu_t := mkGpgpu (mkMemory 13 ∅ []) GLOBAL_HEAP_START.
Lemma device_buffers_roundtrip_witness :
  exists g3 g4,
    memcpy_to_gpu (snd (gpu_malloc (snd (gpu_malloc demo_gpu 3)) 2)) GLOBAL_HEAP_START [7; 8; 9] = Ok g3 /\
    memcpy_to_gpu g3 (GLOBAL_HEAP_START + 256) [1; 2] = Ok g4 /\
    memcpy_from_gpu g4 GLOBAL_HEAP_START 3 = Ok [7; 8; 9] /\
    memcpy_from_gpu g4 (GLOBAL_HEAP_START + 256) 2 = Ok [1; 2].
Proof.
  refine (proj2 (proj2 (proj2 (device_buffers_roundtrip demo_gpu _ _ _ _ [7; 8; 9] [1; 2] _ _ _ eq_refl eq_refl _ _ _ _))));
    try (vm_compute; done).
Defined.
