(* ===== verification/Kernel.v ===== *)
(** * Kernels and the table of running kernels

    The launch state of a kernel ([kernel_info_t], [abstract_hardware_model.h] and
    [.cc]): the order in which the blocks of the grid and the threads of a block
    are handed out ([increment_x_then_y_then_z] of [gpgpu-sim/gpu-sim.cc]; the loops
    that use it are in [FunctionalSim]); the table of running kernels of [gpgpu_sim]; and the
    number of blocks a core can hold ([shader_core_config::max_cta],
    [gpgpu-sim/shader.cc]).  Kernels are objects the table points to, so the model
    keeps a store of them. *)

From S2P Require Import Prelude PtxMemory.

(** * Three-dimensional indices *)

Record dim3 := Dim3 { d_x : Z; d_y : Z; d_z : Z }.

#[export] Instance dim3_eq_dec : EqDecision dim3.
Proof. solve_decision. Defined.

Definition increment_x_then_y_then_z (i bound : dim3) : dim3 :=
  let x := u32 (d_x i + 1) in
  if d_x bound <=? x then
    let y := u32 (d_y i + 1) in
    if d_y bound <=? y then
      Dim3 0 0 (if d_z i <? d_z bound then u32 (d_z i + 1) else d_z i)
    else Dim3 0 y (d_z i)
  else Dim3 x (d_y i) (d_z i).

(** The product the code computes: every multiplication is of [unsigned]s. *)
Definition dim3_count (d : dim3) : Z := u32 (u32 (d_x d * d_y d) * d_z d).

(** * A kernel *)

(** [gpgpu_ptx_sim_kernel_info]: what a kernel needs of a core. *)
Record gpgpu_ptx_sim_kernel_info := mkResources {
  lmem : Z; smem : Z; cmem : Z; kregs : Z; ptx_version : Z; sm_target : Z }.

Record kernel_info_t := mkKernel {
  m_kernel_entry : gpgpu_ptx_sim_kernel_info;
  m_uid : Z;
  m_grid_dim : dim3;
  m_block_dim : dim3;
  m_next_cta : dim3;
  m_next_tid : dim3;
  m_num_cores_running : Z;
  m_active_threads : list Z;
  m_param_mem : memory_space }.

(** The constructor takes the class counter [m_next_uid] and leaves it one up. *)
Definition kernel_info_new (m_next_uid : Z) (gridDim blockDim : dim3) (entry : gpgpu_ptx_sim_kernel_info)
    : outcome (kernel_info_t * Z) :=
  mem ← memory_space_new 8192;
  mret (mkKernel entry m_next_uid gridDim blockDim (Dim3 0 0 0) (Dim3 0 0 0) 0 [] mem,
        u32 (m_next_uid + 1)).
Definition kernel_info_delete (k : kernel_info_t) : outcome unit :=
  cassert (match m_active_threads k with [] => true | _ => false end).

Definition with_position (k : kernel_info_t) (cta tid : dim3) : kernel_info_t :=
  mkKernel (m_kernel_entry k) (m_uid k) (m_grid_dim k) (m_block_dim k) cta tid
    (m_num_cores_running k) (m_active_threads k) (m_param_mem k).
Definition with_running (k : kernel_info_t) (n : Z) : kernel_info_t :=
  mkKernel (m_kernel_entry k) (m_uid k) (m_grid_dim k) (m_block_dim k) (m_next_cta k) (m_next_tid k)
    n (m_active_threads k) (m_param_mem k).

Definition inc_running (k : kernel_info_t) : kernel_info_t :=
  with_running k (u32 (m_num_cores_running k + 1)).
Definition dec_running (k : kernel_info_t) : outcome kernel_info_t :=
  cassert (0 <? m_num_cores_running k);; mret (with_running k (m_num_cores_running k - 1)).
Definition running (k : kernel_info_t) : bool := 0 <? m_num_cores_running k.

Definition num_blocks (k : kernel_info_t) : Z := dim3_count (m_grid_dim k).
Definition threads_per_cta (k : kernel_info_t) : Z := dim3_count (m_block_dim k).

Definition increment_cta_id (k : kernel_info_t) : kernel_info_t :=
  with_position k (increment_x_then_y_then_z (m_next_cta k) (m_grid_dim k)) (Dim3 0 0 0).
Definition no_more_ctas_to_run (k : kernel_info_t) : bool :=
  (d_x (m_grid_dim k) <=? d_x (m_next_cta k)) || (d_y (m_grid_dim k) <=? d_y (m_next_cta k))
  || (d_z (m_grid_dim k) <=? d_z (m_next_cta k)).
Definition kernel_done (k : kernel_info_t) : bool := no_more_ctas_to_run k && negb (running k).

Definition increment_thread_id (k : kernel_info_t) : kernel_info_t :=
  with_position k (m_next_cta k) (increment_x_then_y_then_z (m_next_tid k) (m_block_dim k)).
Definition get_next_thread_id (k : kernel_info_t) : Z :=
  let t := m_next_tid k in
  let b := m_block_dim k in
  u32 (u32 (d_x t + u32 (d_x b * d_y t)) + u32 (u32 (d_x b * d_y b) * d_z t)).
Definition more_threads_in_cta (k : kernel_info_t) : bool :=
  (d_z (m_next_tid k) <? d_z (m_block_dim k)) && (d_y (m_next_tid k) <? d_y (m_block_dim k))
  && (d_x (m_next_tid k) <? d_x (m_block_dim k)).

(** * The table of running kernels *)

Record gpgpu_sim := mkGpu {
  max_concurrent_kernel : Z;
  gpu_max_cta_opt : Z;
  n_thread_per_shader : Z;
  kernels : gmap Z kernel_info_t;              (* the objects [kernel_info_t*] points to *)
  m_running_kernels : list (option Z);
  m_last_issued_kernel : Z;
  m_total_cta_launched : Z;
  m_finished_kernel : list Z }.

Definition with_table (g : gpgpu_sim) (t : list (option Z)) (last : Z) (fin : list Z) : gpgpu_sim :=
  mkGpu (max_concurrent_kernel g) (gpu_max_cta_opt g) (n_thread_per_shader g) (kernels g)
    t last (m_total_cta_launched g) fin.

Definition kernel_at (g : gpgpu_sim) (p : Z) : outcome kernel_info_t :=
  match kernels g !! p with Some k => Ok k | None => Err BadAccess end.

(** [(NULL==m_running_kernels[n]) || m_running_kernels[n]->done()] *)
Definition slot_free (g : gpgpu_sim) (slot : option Z) : outcome bool :=
  match slot with None => Ok true | Some p => k ← kernel_at g p; mret (kernel_done k) end.
(** [m_running_kernels[n] && !m_running_kernels[n]->no_more_ctas_to_run()] *)
Definition slot_ready (g : gpgpu_sim) (slot : option Z) : outcome bool :=
  match slot with None => Ok false | Some p => k ← kernel_at g p; mret (negb (no_more_ctas_to_run k)) end.

(** A search through slots [n], [n+1], ... of the table that stops at the first hit. *)
Fixpoint find_slot (test : option Z → outcome bool) (slots : list (option Z)) (n : Z) : outcome (option Z) :=
  match slots with
  | [] => mret None
  | o :: rest => hit ← test o; if (hit : bool) then mret (Some n) else find_slot test rest (n + 1)
  end.

Definition launch (g : gpgpu_sim) (kinfo : Z) : outcome gpgpu_sim :=
  k ← kernel_at g kinfo;
  if n_thread_per_shader g <? threads_per_cta k then Err ErrorMsg
  else
    found ← find_slot (slot_free g) (m_running_kernels g) 0;
    match found with
    | Some n => mret (with_table g (zwrite (m_running_kernels g) n (Some kinfo))
                        (m_last_issued_kernel g) (m_finished_kernel g))
    | None => Err AssertFailed
    end.

Definition can_start_kernel (g : gpgpu_sim) : outcome bool :=
  found ← find_slot (slot_free g) (m_running_kernels g) 0;
  mret (match found with Some _ => true | None => false end).

Definition get_more_cta_left (g : gpgpu_sim) : outcome bool :=
  if negb (gpu_max_cta_opt g =? 0) && (gpu_max_cta_opt g <=? m_total_cta_launched g) then mret false
  else
    found ← find_slot (slot_ready g) (m_running_kernels g) 0;
    mret (match found with Some _ => true | None => false end).

(** The loop of [select_kernel]: [left] iterations remain, [n] is the next. *)
Fixpoint select_from (g : gpgpu_sim) (left : nat) (n : Z) : outcome (option Z * gpgpu_sim) :=
  match left with
  | O => mret (None, g)
  | S left' =>
      if max_concurrent_kernel g =? 0 then Err Undefined
      else
        let idx := u32 (n + m_last_issued_kernel g + 1) mod max_concurrent_kernel g in
        slot ← aread (m_running_kernels g) idx;
        ready ← slot_ready g slot;
        if (ready : bool) then mret (slot, with_table g (m_running_kernels g) idx (m_finished_kernel g))
        else select_from g left' (n + 1)
  end.
Definition select_kernel (g : gpgpu_sim) : outcome (option Z * gpgpu_sim) :=
  select_from g (length (m_running_kernels g)) 0.

Definition finished_kernel (g : gpgpu_sim) : Z * gpgpu_sim :=
  match m_finished_kernel g with
  | [] => (0, g)
  | result :: rest => (result, with_table g (m_running_kernels g) (m_last_issued_kernel g) rest)
  end.

Definition set_kernel_done (g : gpgpu_sim) (kernel : Z) : outcome gpgpu_sim :=
  k ← kernel_at g kernel;
  let fin := m_finished_kernel g ++ [m_uid k] in
  found ← find_slot (fun o => Ok (bool_decide (o = Some kernel))) (m_running_kernels g) 0;
  match found with
  | Some n => mret (with_table g (zwrite (m_running_kernels g) n None) (m_last_issued_kernel g) fin)
  | None => Err AssertFailed
  end.

(** * Blocks per core *)

Definition MAX_CTA_PER_SHADER : Z := 32.

Record shader_core_config := mkShader {
  shader_n_thread : Z; warp_size : Z; gpgpu_shmem_size : Z; gpgpu_shader_registers : Z;
  max_cta_per_core : Z; n_simt_clusters : Z; n_simt_cores_per_cluster : Z }.

Definition num_shader (c : shader_core_config) : Z := u32 (n_simt_clusters c * n_simt_cores_per_cluster c).

(** A division of [unsigned]s: by zero it has no meaning. *)
Definition udiv (a b : Z) : outcome Z := if b =? 0 then Err Undefined else mret (a / b).

Definition padded_size (threads warp : Z) : outcome Z :=
  if warp =? 0 then Err Undefined
  else mret (if negb (threads mod warp =? 0) then u32 (u32 (threads / warp + 1) * warp) else threads).

Definition max_cta (c : shader_core_config) (k : kernel_info_t) : outcome Z :=
  let info := m_kernel_entry k in
  padded_cta_size ← padded_size (threads_per_cta k) (warp_size c);
  result_thread ← udiv (shader_n_thread c) padded_cta_size;
  result_shmem ← (if 0 <? smem info then udiv (gpgpu_shmem_size c) (smem info) else mret (2 ^ 32 - 1));
  result_regs ← (if 0 <? kregs info
                 then udiv (gpgpu_shader_registers c)
                        (u32 (padded_cta_size * Z.land (s32 (kregs info + 3)) (Z.lnot 3)))
                 else mret (2 ^ 32 - 1));
  let result := Z.min (Z.min (Z.min result_thread result_shmem) result_regs) (max_cta_per_core c) in
  result ← (if num_blocks k <? u32 (result * num_shader c)
            then q ← udiv (num_blocks k) (num_shader c);
                 mret (if negb (num_blocks k mod num_shader c =? 0) then u32 (q + 1) else q)
            else mret result);
  cassert (result <=? MAX_CTA_PER_SHADER);;
  if result <? 1 then Err ErrorMsg else mret result.

(** * Enumeration *)

Definition dim3_ok (b : dim3) : Prop :=
  0 <= d_x b < 2 ^ 32 /\ 0 <= d_y b < 2 ^ 32 /\ 0 <= d_z b < 2 ^ 32 /\ d_x b * d_y b * d_z b < 2 ^ 32.
Definition volume (b : dim3) : Z := d_x b * d_y b * d_z b.
(** [i] is an index of the box [b]. *)
Definition in_box (b i : dim3) : Prop :=
  0 <= d_x i < d_x b /\ 0 <= d_y i < d_y b /\ 0 <= d_z i < d_z b.
(** The place of an index in the order that runs through [x] first and [z] last,
    and the index at a place. *)
Definition place (b i : dim3) : Z := d_x i + d_x b * (d_y i + d_y b * d_z i).
Definition point (b : dim3) (p : Z) : dim3 :=
  Dim3 (p mod d_x b) (p / d_x b mod d_y b) (p / d_x b / d_y b).

Lemma place_point b p : 0 < d_x b -> 0 < d_y b -> place b (point b p) = p.
Proof.
  intros Hx Hy. unfold place, point. simpl.
  pose proof (Z.div_mod p (d_x b) ltac:(lia)). pose proof (Z.div_mod (p / d_x b) (d_y b) ltac:(lia)). lia.
Qed.

Lemma point_place b i : 0 <= d_x i < d_x b -> 0 <= d_y i < d_y b -> point b (place b i) = i.
Proof.
  intros Hx Hy. unfold point, place.
  assert ((d_x i + d_x b * (d_y i + d_y b * d_z i)) / d_x b = d_y i + d_y b * d_z i) as E.
  { rewrite Z.mul_comm, Z.div_add, Z.div_small by lia. lia. }
  rewrite E. replace ((d_y i + d_y b * d_z i) / d_y b) with (d_z i)
    by (rewrite Z.mul_comm, Z.div_add, Z.div_small by lia; lia).
  rewrite (Z.mul_comm (d_x b)), Z.mod_add, Z.mod_small, (Z.mul_comm (d_y b)), Z.mod_add, Z.mod_small by lia.
  by destruct i.
Qed.

Lemma point_in_box b p : dim3_ok b -> 0 <= p < volume b -> in_box b (point b p).
Proof.
  intros Hb Hp. unfold dim3_ok, volume, in_box, point in *. simpl.
  assert (0 < d_x b /\ 0 < d_y b /\ 0 < d_z b) as (Hx & Hy & Hz) by (split_and!; nia).
  split_and!; try apply Z.mod_pos_bound; try lia.
  - apply Z.div_pos; [apply Z.div_pos|]; lia.
  - apply Z.div_lt_upper_bound; [lia|]. apply Z.div_lt_upper_bound; [lia|]. lia.
Qed.

Lemma place_range b i : in_box b i -> 0 <= place b i < volume b.
Proof.
  unfold in_box, place, volume. intros (Hx & Hy & Hz).
  assert (d_y i + d_y b * d_z i <= d_y b * d_z b - 1) by nia.
  assert (0 <= d_y i + d_y b * d_z i) by nia. nia.
Qed.

(** The counters walk through the box in order, and leave it after its last index. *)
Lemma increment_point b p : dim3_ok b -> 0 <= p < volume b ->
  increment_x_then_y_then_z (point b p) b = point b (p + 1).
Proof.
  intros Hb Hp. pose proof (point_in_box b p Hb Hp) as Hin. unfold in_box in Hin.
  assert (p + 1 = place b (point b p) + 1) as -> by (rewrite place_point by lia; done).
  set (i := point b p) in *. clearbody i. clear p Hp. unfold dim3_ok in Hb.
  unfold increment_x_then_y_then_z. rewrite (uwrap_small 32 (d_x i + 1)) by lia.
  destruct (Z.leb_spec (d_x b) (d_x i + 1)).
  - rewrite (uwrap_small 32 (d_y i + 1)) by lia. destruct (Z.leb_spec (d_y b) (d_y i + 1)).
    + rewrite (proj2 (Z.ltb_lt _ _)) by lia. rewrite uwrap_small by lia.
      rewrite <- (point_place b (Dim3 0 0 _)) by (simpl; lia). f_equal. unfold place. simpl. nia.
    + rewrite <- (point_place b (Dim3 0 _ _)) by (simpl; lia). f_equal. unfold place. simpl. nia.
  - rewrite <- (point_place b (Dim3 _ _ _)) by (simpl; lia). f_equal. unfold place. simpl. lia.
Qed.

(** The test both loops make: [p] is a place of the box, or its end. *)
Lemma point_inside b p : dim3_ok b -> 0 <= p <= volume b ->
  (d_x (point b p) <? d_x b) && (d_y (point b p) <? d_y b) && (d_z (point b p) <? d_z b) = (p <? volume b).
Proof.
  intros Hb Hp. destruct (Z.ltb_spec p (volume b)) as [Hlt|Hge].
  - destruct (point_in_box b p Hb) as (Hx & Hy & Hz); [lia|].
    by rewrite !(proj2 (Z.ltb_lt _ _)) by lia.
  - assert (p = volume b) as -> by lia. unfold dim3_ok, volume in *.
    destruct (Z.ltb_spec (d_x (point b (d_x b * d_y b * d_z b))) (d_x b)) as [Hx|]; [|done].
    destruct (Z.ltb_spec (d_y (point b (d_x b * d_y b * d_z b))) (d_y b)) as [Hy|]; [|done].
    apply Z.ltb_ge. unfold point in *. simpl in *.
    assert (0 < d_x b) by (destruct (Z.eq_dec (d_x b) 0) as [E|]; [rewrite E in Hx; simpl in Hx; lia|lia]).
    assert (0 < d_y b).
    { destruct (Z.eq_dec (d_y b) 0) as [E|]; [|lia]. rewrite E, Z.mul_0_r, Z.div_0_l in Hy by lia.
      simpl in Hy. lia. }
    rewrite Z.div_div by lia. replace (d_x b * d_y b * d_z b) with (d_z b * (d_x b * d_y b)) by lia.
    rewrite Z.div_mul by lia. lia.
Qed.

Lemma dim3_count_ok b : dim3_ok b -> dim3_count b = volume b.
Proof.
  intros Hb. unfold dim3_count, volume, dim3_ok in *.
  destruct (Z.eq_dec (d_z b) 0) as [->|]; [by rewrite !Z.mul_0_r|].
  rewrite (uwrap_small 32 (d_x b * d_y b)) by nia. rewrite uwrap_small by nia. done.
Qed.

Definition at_thread (k : kernel_info_t) (p : Z) : kernel_info_t :=
  with_position k (m_next_cta k) (point (m_block_dim k) p).
Definition at_block (k : kernel_info_t) (p : Z) : kernel_info_t :=
  with_position k (point (m_grid_dim k) p) (Dim3 0 0 0).

Lemma thread_number k p : dim3_ok (m_block_dim k) -> 0 <= p < volume (m_block_dim k) ->
  get_next_thread_id (at_thread k p) = p.
Proof.
  intros Hb Hp. unfold get_next_thread_id, at_thread. cbn [m_next_tid m_block_dim with_position].
  pose proof (point_in_box _ p Hb Hp) as Hin. set (b := m_block_dim k) in *.
  rewrite <- (place_point b p) at 4 by (unfold in_box in Hin; lia).
  pose proof (place_range _ _ Hin) as Hr. unfold in_box, place, dim3_ok, volume in *.
  set (i := point b p) in *. clearbody i b.
  assert (0 <= d_x b * d_y i) by nia. assert (0 <= d_x b * d_y b * d_z i) by nia.
  rewrite (uwrap_small 32 (d_x b * d_y i)), (uwrap_small 32 (d_x b * d_y b)) by nia.
  rewrite (uwrap_small 32 (d_x i + _)), (uwrap_small 32 (d_x b * d_y b * d_z i)) by nia.
  rewrite uwrap_small by lia. lia.
Qed.

Lemma point_0 b : point b 0 = Dim3 0 0 0.
Proof. unfold point. by rewrite !Zdiv_0_l, !Zmod_0_l. Qed.

Lemma volume_nonneg b : dim3_ok b -> 0 <= volume b < 2 ^ 32.
Proof. unfold volume, dim3_ok. nia. Qed.

(** The tests and the steps of the loops over the threads and over the blocks. *)
Lemma more_threads_at k p : dim3_ok (m_block_dim k) -> 0 <= p <= volume (m_block_dim k) ->
  more_threads_in_cta (at_thread k p) = (p <? volume (m_block_dim k)).
Proof.
  intros Hb Hp. rewrite <- point_inside by done. unfold more_threads_in_cta, at_thread. simpl.
  by destruct (_ mod _ <? _), (_ mod _ <? _), (_ <? _).
Qed.
Lemma increment_thread_at k p : dim3_ok (m_block_dim k) -> 0 <= p < volume (m_block_dim k) ->
  increment_thread_id (at_thread k p) = at_thread k (p + 1).
Proof. intros Hb Hp. unfold increment_thread_id, at_thread. cbn. by rewrite increment_point. Qed.
Lemma no_more_ctas_at k p : dim3_ok (m_grid_dim k) -> 0 <= p <= volume (m_grid_dim k) ->
  no_more_ctas_to_run (at_block k p) = negb (p <? volume (m_grid_dim k)).
Proof.
  intros Hg Hp. rewrite <- point_inside by done. unfold no_more_ctas_to_run, at_block. simpl.
  by rewrite !Z.leb_antisym, !negb_andb.
Qed.
Lemma increment_cta_at k p t : dim3_ok (m_grid_dim k) -> 0 <= p < volume (m_grid_dim k) ->
  increment_cta_id (at_thread (at_block k p) t) = at_block k (p + 1).
Proof. intros Hg Hp. unfold increment_cta_id, at_block, at_thread. cbn. by rewrite increment_point. Qed.

(** Every index of a box is the point at exactly one place. *)
Lemma points_once b : dim3_ok b ->
  NoDup (map (point b) (seqZ 0 (volume b))) /\
  forall i, i ∈ map (point b) (seqZ 0 (volume b)) <-> in_box b i.
Proof.
  intros Hb. split.
  - apply NoDup_fmap_2_strong; [|apply NoDup_seqZ]. intros p q Hp%elem_of_seqZ Hq%elem_of_seqZ E.
    destruct (point_in_box b p Hb) as (Hx & Hy & _); [lia|].
    rewrite <- (place_point b p), E, place_point by lia. done.
  - intros i. rewrite list_elem_of_fmap. split.
    + intros (p & -> & Hp%elem_of_seqZ). apply point_in_box; [done|lia].
    + intros Hi. exists (place b i). rewrite elem_of_seqZ. pose proof (place_range b i Hi).
      split; [|lia]. symmetry. apply point_place; apply Hi.
Qed.

(** * Selection *)

(** The table has its configured size, and points to kernels that exist. *)
Record table_wf (g : gpgpu_sim) : Prop := {
  tw_size : zlen (m_running_kernels g) = max_concurrent_kernel g;
  tw_max : 0 < max_concurrent_kernel g < 2 ^ 31;
  tw_last : 0 <= m_last_issued_kernel g < max_concurrent_kernel g;
  tw_live : forall p, Some p ∈ m_running_kernels g -> is_Some (kernels g !! p) }.

(** Slot [j] holds a kernel with blocks left. *)
Definition ready_slot (g : gpgpu_sim) (j : Z) : bool :=
  match zread (m_running_kernels g) j with
  | Some (Some p) =>
      match kernels g !! p with Some k => negb (no_more_ctas_to_run k) | None => false end
  | _ => false
  end.

(** The slot the loop looks at in round [n]. *)
Definition slot_at (g : gpgpu_sim) (n : Z) : Z :=
  (n + m_last_issued_kernel g + 1) mod max_concurrent_kernel g.

Lemma slot_at_range g n : table_wf g -> 0 <= slot_at g n < max_concurrent_kernel g.
Proof. intros Hw. apply Z.mod_pos_bound. apply Hw. Qed.

Lemma slot_ready_spec g j : table_wf g -> 0 <= j < max_concurrent_kernel g ->
  exists slot, aread (m_running_kernels g) j = Ok slot /\
    zread (m_running_kernels g) j = Some slot /\
    slot_ready g slot = Ok (ready_slot g j).
Proof.
  intros Hw Hj. destruct (zread_is_some (m_running_kernels g) j) as [slot Es]; [by rewrite tw_size|].
  exists slot. unfold aread. rewrite Es. split_and!; [done..|].
  unfold ready_slot. rewrite Es. destruct slot as [p|]; simpl; [|done].
  destruct (tw_live g Hw p) as [k Ek]; [by apply zread_elem_of in Es|].
  unfold kernel_at. by rewrite Ek.
Qed.

(** The search finds the first ready slot after the last one used, if there is one. *)
Lemma select_from_spec g left n : table_wf g -> 0 <= n -> n + Z.of_nat left = max_concurrent_kernel g ->
  (forall i, n <= i < max_concurrent_kernel g -> ready_slot g (slot_at g i) = false) /\
    select_from g left n = Ok (None, g) \/
  exists i slot, n <= i < max_concurrent_kernel g /\ ready_slot g (slot_at g i) = true /\
    (forall i', n <= i' < i -> ready_slot g (slot_at g i') = false) /\
    zread (m_running_kernels g) (slot_at g i) = Some slot /\
    select_from g left n =
      Ok (slot, with_table g (m_running_kernels g) (slot_at g i) (m_finished_kernel g)).
Proof.
  intros Hw. pose proof (tw_max g Hw). pose proof (tw_last g Hw).
  revert n. induction left as [|left IH]; intros n Hn Hl; simpl.
  { left. split; [intros i Hi; lia|done]. }
  rewrite (proj2 (Z.eqb_neq _ _)) by lia.
  rewrite uwrap_small by lia. fold (slot_at g n).
  destruct (slot_ready_spec g (slot_at g n) Hw (slot_at_range g n Hw)) as (slot & Ea & Ez & Er).
  rewrite Ea. simpl. rewrite Er. simpl. destruct (ready_slot g (slot_at g n)) eqn:Hr.
  - right. exists n, slot. split_and!; [lia|lia|done|intros; lia|done|done].
  - destruct (IH (n + 1)) as [[Hno E]|(i & s & Hi & Hri & Hmin & Es & E)]; [lia|lia| |].
    + left. split; [|done]. intros i Hi. destruct (Z.eq_dec i n) as [->|]; [done|apply Hno; lia].
    + right. exists i, s. split_and!; [lia|lia|done| |done|done].
      intros i' Hi'. destruct (Z.eq_dec i' n) as [->|]; [done|apply Hmin; lia].
Qed.

(** How many rounds slot [j] is away. *)
Definition distance (g : gpgpu_sim) (j : Z) : Z :=
  (j - m_last_issued_kernel g - 1) mod max_concurrent_kernel g.

Lemma slot_at_distance g j : 0 <= j < max_concurrent_kernel g -> slot_at g (distance g j) = j.
Proof.
  intros Hj. unfold slot_at, distance.
  rewrite <- Z.add_assoc, Zplus_mod_idemp_l.
  replace (j - m_last_issued_kernel g - 1 + (m_last_issued_kernel g + 1)) with j by lia.
  by apply Z.mod_small.
Qed.

(** With slot [j] ready the selection picks a slot, either [j] or one that brings
    [j] nearer. *)
Lemma select_kernel_nearer g j : table_wf g -> ready_slot g j = true ->
  exists slot i, select_kernel g =
      Ok (slot, with_table g (m_running_kernels g) i (m_finished_kernel g)) /\
    0 <= i < max_concurrent_kernel g /\ ready_slot g i = true /\ zread (m_running_kernels g) i = Some slot /\
    (i = j \/
     distance (with_table g (m_running_kernels g) i (m_finished_kernel g)) j < distance g j).
Proof.
  intros Hw Hr. pose proof (tw_max g Hw) as Hm. pose proof (tw_size g Hw) as Hs.
  assert (0 <= j < max_concurrent_kernel g) as Hj.
  { unfold ready_slot in Hr. destruct (zread (m_running_kernels g) j) eqn:E; [|done].
    apply zread_range in E. lia. }
  assert (0 <= distance g j < max_concurrent_kernel g) as Hd by (apply Z.mod_pos_bound; lia).
  destruct (select_from_spec g (length (m_running_kernels g)) 0 Hw)
    as [[Hno _]|(n & slot & Hn & Hrn & Hmin & Es & E)]; [lia|unfold zlen in Hs; lia| |].
  { by rewrite <- (slot_at_distance g j), Hno in Hr. }
  exists slot, (slot_at g n). split_and!; [done|apply slot_at_range..|done|done|]; try done.
  destruct (Z.eq_dec n (distance g j)) as [->|Hne]; [left; by apply slot_at_distance|right].
  assert (n < distance g j).
  { destruct (Z.lt_total n (distance g j)) as [|[|Hgt]]; [done|done|].
    by rewrite <- (slot_at_distance g j), Hmin in Hr by lia. }
  unfold distance at 1. simpl. unfold slot_at.
  assert ((j - (n + m_last_issued_kernel g + 1) mod max_concurrent_kernel g - 1)
            mod max_concurrent_kernel g = distance g j - n - 1) as ->; [|lia].
  rewrite <- Z.sub_add_distr, <- Zminus_mod_idemp_r, Zplus_mod_idemp_l, Zminus_mod_idemp_r.
  replace (j - (n + m_last_issued_kernel g + 1 + 1)) with ((j - m_last_issued_kernel g - 1) - (n + 1)) by lia.
  rewrite <- Zminus_mod_idemp_l. fold (distance g j). rewrite Z.mod_small by lia. lia.
Qed.

(** Runs of selections while slot [j] stays ready.  Between two selections the rest
    of the simulator may do anything to the kernels and to the other slots. *)
Inductive selections (j : Z) : gpgpu_sim → list Z → Prop :=
  | sel_none g : selections j g []
  | sel_next g slot g1 g2 l :
      table_wf g -> ready_slot g j = true -> select_kernel g = Ok (slot, g1) ->
      m_last_issued_kernel g2 = m_last_issued_kernel g1 ->
      max_concurrent_kernel g2 = max_concurrent_kernel g1 ->
      selections j g2 l -> selections j g (m_last_issued_kernel g1 :: l).

Lemma selections_reach j g l :
  selections j g l -> 0 < max_concurrent_kernel g -> distance g j < zlen l -> j ∈ l.
Proof.
  induction 1 as [g|g slot g1 g2 l Hw Hr E El Em Hs IH]; intros Hm Hd.
  { pose proof (Z.mod_pos_bound (j - m_last_issued_kernel g - 1) (max_concurrent_kernel g) Hm) as Hp.
    unfold distance, zlen in Hd. simpl in Hd. lia. }
  destruct (select_kernel_nearer g j Hw Hr) as (slot' & i & E' & Hi & Hri & Es & Hcase).
  rewrite E in E'. injection E' as -> ->. simpl in *.
  destruct Hcase as [->|Hlt]; [left|right]. apply IH; [lia|].
  unfold distance in *. simpl in *. rewrite El, Em. unfold zlen in *. simpl in Hd. lia.
Qed.

(** C36: Kernels share the cores in turn: while the table has a kernel with blocks left,
    select_kernel picks such a kernel, and however the other kernels come and go in
    between, a kernel whose slot stays ready is picked at least once in every
    max_concurrent_kernel selections. *)
Theorem kernel_selection_is_fair g j :
  table_wf g -> ready_slot g j = true ->
  (exists p g1, select_kernel g = Ok (Some p, g1) /\ ready_slot g (m_last_issued_kernel g1) = true /\
     zread (m_running_kernels g) (m_last_issued_kernel g1) = Some (Some p)) /\
  (forall l, selections j g l -> max_concurrent_kernel g <= zlen l -> j ∈ l).
Proof.
  intros Hw Hr. pose proof (tw_max g Hw). split.
  - destruct (select_kernel_nearer g j Hw Hr) as (slot & i & E & Hi & Hri & Es & _).
    pose proof Hri as Hp. unfold ready_slot in Hp. rewrite Es in Hp. destruct slot as [p|]; [|done].
    eauto.
  - intros l Hs Hl. apply (selections_reach j g l Hs); [lia|].
    pose proof (Z.mod_pos_bound (j - m_last_issued_kernel g - 1) (max_concurrent_kernel g) ltac:(lia)).
    unfold distance. lia.
Qed.

(** * The life of the table *)

Lemma find_slot_spec test slots n (P : option Z → bool) :
  (forall o, o ∈ slots -> test o = Ok (P o)) ->
  (find_slot test slots n = Ok None /\ forall o, o ∈ slots -> P o = false) \/
  exists i o, find_slot test slots n = Ok (Some (n + i)) /\ zread slots i = Some o /\ P o = true.
Proof.
  revert n. induction slots as [|o slots IH]; intros n Ht; simpl.
  { left. split; [done|]. intros o Ho. by apply elem_of_nil in Ho. }
  rewrite (Ht o) by left. simpl. destruct (P o) eqn:Ep.
  - right. exists 0, o. by rewrite Z.add_0_r.
  - destruct (IH (n + 1)) as [[E Hno]|(i & o' & E & Hi & Hp)]; [intros; apply Ht; by right| |].
    + left. split; [done|]. intros o' [->|Ho]%elem_of_cons; [done|by apply Hno].
    + right. exists (i + 1), o'. rewrite E. split_and!; [do 2 f_equal; lia| |done].
      pose proof (zread_range _ _ _ Hi). rewrite zread_lookup in Hi |- * by lia.
      by replace (Z.to_nat (i + 1)) with (S (Z.to_nat i)) by lia.
Qed.

Definition free_slot (g : gpgpu_sim) (o : option Z) : bool :=
  match o with
  | None => true
  | Some p => match kernels g !! p with Some k => kernel_done k | None => false end
  end.
Definition busy_slot (g : gpgpu_sim) (o : option Z) : bool :=
  match o with
  | None => false
  | Some p => match kernels g !! p with Some k => negb (no_more_ctas_to_run k) | None => false end
  end.

Lemma slot_free_live g o : table_wf g -> o ∈ m_running_kernels g -> slot_free g o = Ok (free_slot g o).
Proof.
  intros Hw Ho. destruct o as [p|]; [|done]. destruct (tw_live g Hw p Ho) as [k Ek].
  unfold slot_free, free_slot, kernel_at. by rewrite Ek.
Qed.
Lemma slot_ready_live g o : table_wf g -> o ∈ m_running_kernels g -> slot_ready g o = Ok (busy_slot g o).
Proof.
  intros Hw Ho. destruct o as [p|]; [|done]. destruct (tw_live g Hw p Ho) as [k Ek].
  unfold slot_ready, busy_slot, kernel_at. by rewrite Ek.
Qed.

(** The table [gpgpu_sim::gpgpu_sim] makes. *)
Definition table_new (max_kernels max_cta threads : Z) : gpgpu_sim :=
  mkGpu max_kernels max_cta threads ∅ (replicate (Z.to_nat max_kernels) None) 0 0 [].

Definition with_kernel (g : gpgpu_sim) (p : Z) (k : kernel_info_t) : gpgpu_sim :=
  mkGpu (max_concurrent_kernel g) (gpu_max_cta_opt g) (n_thread_per_shader g) (<[p := k]> (kernels g))
    (m_running_kernels g) (m_last_issued_kernel g) (m_total_cta_launched g) (m_finished_kernel g).

(** What happens to the table: a kernel that is not in it is launched, a kernel of it
    is reported done, a kernel is selected, a finished kernel is collected, and the
    kernels themselves are made and make progress. *)
Inductive table_step : gpgpu_sim → gpgpu_sim → Prop :=
  | step_kernel g p k : table_step g (with_kernel g p k)
  | step_launch g p g' : Some p ∉ m_running_kernels g -> launch g p = Ok g' -> table_step g g'
  | step_select g o g' : select_kernel g = Ok (o, g') -> table_step g g'
  | step_done g p g' : set_kernel_done g p = Ok g' -> table_step g g'
  | step_collect g : table_step g (finished_kernel g).2.

(** No kernel is in the table twice. *)
Definition slots_distinct (g : gpgpu_sim) : Prop :=
  forall i j p, zread (m_running_kernels g) i = Some (Some p) ->
    zread (m_running_kernels g) j = Some (Some p) -> i = j.

Definition table_inv (g : gpgpu_sim) : Prop := table_wf g /\ slots_distinct g.

Lemma with_table_wf g t last fin : table_wf g -> zlen t = zlen (m_running_kernels g) ->
  0 <= last < max_concurrent_kernel g -> (forall p, Some p ∈ t -> is_Some (kernels g !! p)) ->
  table_wf (with_table g t last fin).
Proof. intros [Hs Hm Hl Hp] Ht Hla Hlive. split; simpl; [congruence|done..]. Qed.

(** Writing a slot: a kernel that is in no slot yet, or no kernel. *)
Lemma table_inv_zwrite g n o fin : table_inv g ->
  (forall p, o = Some p -> is_Some (kernels g !! p) /\ Some p ∉ m_running_kernels g) ->
  table_inv (with_table g (zwrite (m_running_kernels g) n o) (m_last_issued_kernel g) fin).
Proof.
  intros [Hw Hd] Ho. split.
  - apply with_table_wf; [done|by rewrite zlen_zwrite|apply Hw|].
    intros p [<-|Hp]%elem_of_zwrite; [by apply Ho|by apply (tw_live g)].
  - intros i j p. simpl.
    assert (forall a, zread (zwrite (m_running_kernels g) n o) a = Some (Some p) ->
      (a = n /\ o = Some p) \/ zread (m_running_kernels g) a = Some (Some p)) as Hcase.
    { intros a Ea. destruct (Z.eq_dec n a) as [->|]; [|rewrite zread_zwrite_ne in Ea; tauto].
      pose proof (zread_range _ _ _ Ea) as Hr. rewrite zlen_zwrite in Hr.
      rewrite zread_zwrite_eq in Ea by done. left. naive_solver. }
    intros Hi%Hcase Hj%Hcase.
    destruct Hi as [[-> ->]|Hi], Hj as [[-> Eo]|Hj]; try done.
    + destruct (Ho p eq_refl) as [_ []]. by apply zread_elem_of in Hj.
    + destruct (Ho p Eo) as [_ []]. by apply zread_elem_of in Hi.
    + by apply (Hd i j p).
Qed.

Lemma launch_inv g p g' : table_inv g -> Some p ∉ m_running_kernels g -> launch g p = Ok g' -> table_inv g'.
Proof.
  intros Hi Hp E. unfold launch in E. ok_inv. destruct (_ <? _); [done|]. ok_inv.
  destruct x0 as [n|]; [|done]. ok_inv. subst g'. apply table_inv_zwrite; [done|].
  intros q [= <-]. split; [|done]. unfold kernel_at in *. by destruct (kernels g !! p).
Qed.

Lemma set_kernel_done_inv g p g' : table_inv g -> set_kernel_done g p = Ok g' -> table_inv g'.
Proof.
  intros Hi E. unfold set_kernel_done in E. ok_inv. destruct x0 as [n|]; [|done]. ok_inv. subst g'.
  by apply table_inv_zwrite.
Qed.

Lemma select_kernel_inv g o g' : table_inv g -> select_kernel g = Ok (o, g') -> table_inv g'.
Proof.
  intros [Hw Hd] E. unfold select_kernel in E. pose proof (tw_size g Hw) as Hs. unfold zlen in Hs.
  destruct (select_from_spec g (length (m_running_kernels g)) 0 Hw)
    as [[_ E']|(i & slot & Hi & _ & _ & _ & E')]; [lia|lia|..]; rewrite E in E'.
  - by injection E' as -> ->.
  - injection E' as -> ->. split; [|done].
    apply with_table_wf; [done|done|by apply slot_at_range|apply Hw].
Qed.

Lemma table_step_inv g g' : table_step g g' -> table_inv g -> table_inv g'.
Proof.
  intros Hs Hi. destruct Hs as [g p k|g p g' Hp E|g o g' E|g p g' E|g].
  - destruct Hi as [Hw Hd]. split; [|done]. split; simpl; [apply Hw..|].
    intros q Hq. rewrite lookup_insert. case_decide; [by eexists|by apply (tw_live g Hw)].
  - by apply (launch_inv g p).
  - by apply (select_kernel_inv g o).
  - by apply (set_kernel_done_inv g p).
  - destruct Hi as [Hw Hd]. unfold finished_kernel. destruct (m_finished_kernel g); [done|].
    split; [|done]. by apply with_table_wf; try apply Hw.
Qed.

Definition table_reachable (mk mc nt : Z) : gpgpu_sim → Prop := rtc table_step (table_new mk mc nt).

Lemma table_reachable_inv mk mc nt g : 0 < mk < 2 ^ 31 -> table_reachable mk mc nt g -> table_inv g.
Proof.
  intros Hm. apply rtc_ind_r.
  - split; [split; simpl|].
    + unfold zlen. rewrite length_replicate. lia.
    + lia.
    + lia.
    + intros p [E _]%elem_of_replicate. done.
    + intros i j p E. apply zread_elem_of in E. by apply elem_of_replicate in E as [? _].
  - intros g1 g2 _ Hs Hi. by apply (table_step_inv g1).
Qed.

Lemma can_start_kernel_spec g : table_wf g ->
  can_start_kernel g = Ok (existsb (free_slot g) (m_running_kernels g)).
Proof.
  intros Hw. unfold can_start_kernel.
  destruct (find_slot_spec (slot_free g) (m_running_kernels g) 0 (free_slot g))
    as [[-> Hno]|(i & o & -> & Hi & Ho)]; [intros; by apply slot_free_live|..]; simpl; f_equal; symmetry.
  - apply not_true_iff_false. rewrite existsb_exists. intros (o & Ho & E).
    apply list_elem_of_In in Ho. by rewrite Hno in E.
  - rewrite existsb_exists. exists o. split; [|done]. apply list_elem_of_In. by apply zread_elem_of in Hi.
Qed.

Lemma launch_spec g p k : table_wf g -> kernels g !! p = Some k ->
  (n_thread_per_shader g < threads_per_cta k /\ launch g p = Err ErrorMsg) \/
  (threads_per_cta k <= n_thread_per_shader g /\ can_start_kernel g = Ok false /\ launch g p = Err AssertFailed) \/
  (threads_per_cta k <= n_thread_per_shader g /\ can_start_kernel g = Ok true /\
   exists g', launch g p = Ok g' /\ Some p ∈ m_running_kernels g').
Proof.
  intros Hw Ek. unfold launch, kernel_at. rewrite Ek. simpl.
  destruct (Z.ltb_spec (n_thread_per_shader g) (threads_per_cta k)); [by left|right].
  unfold can_start_kernel.
  destruct (find_slot_spec (slot_free g) (m_running_kernels g) 0 (free_slot g))
    as [[-> Hno]|(i & o & -> & Hi & Ho)]; [intros; by apply slot_free_live|by left|right].
  simpl. split_and!; [done..|]. eexists. split; [done|]. simpl.
  apply (zread_elem_of _ i), zread_zwrite_eq. by apply zread_range in Hi.
Qed.

Lemma set_kernel_done_spec g p k : table_inv g -> kernels g !! p = Some k -> Some p ∈ m_running_kernels g ->
  exists g', set_kernel_done g p = Ok g' /\ (Some p ∉ m_running_kernels g') /\
    m_finished_kernel g' = (m_finished_kernel g ++ [m_uid k]).
Proof.
  intros [Hw Hd] Ek Hp. unfold set_kernel_done, kernel_at. rewrite Ek. simpl.
  destruct (find_slot_spec (fun o => Ok (bool_decide (o = Some p))) (m_running_kernels g) 0
              (fun o => bool_decide (o = Some p)))
    as [[E Hno]|(n & o & -> & Hn & Ho)]; [done|specialize (Hno _ Hp); by rewrite bool_decide_eq_true_2 in Hno|].
  apply bool_decide_eq_true in Ho as ->. simpl. eexists. split; [done|]. simpl. split; [|done].
  intros (j & Hj & E)%elem_of_zread. rewrite zlen_zwrite in Hj. destruct (Z.eq_dec n j) as [->|].
  - by rewrite zread_zwrite_eq in E.
  - rewrite zread_zwrite_ne in E by done. by apply (Hd n j p) in E.
Qed.

Lemma select_kernel_some g : table_wf g -> gpu_max_cta_opt g = 0 ->
  exists o g', select_kernel g = Ok (o, g') /\ get_more_cta_left g = Ok (bool_decide (is_Some o)).
Proof.
  intros Hw Hc. unfold get_more_cta_left, select_kernel. rewrite Hc. simpl.
  pose proof (tw_size g Hw) as Hs. unfold zlen in Hs. pose proof (tw_max g Hw) as Hm.
  destruct (find_slot_spec (slot_ready g) (m_running_kernels g) 0 (busy_slot g))
    as [[-> Hno]|(i & o & -> & Hi & Ho)]; [intros; by apply slot_ready_live|..]; simpl;
  (destruct (select_from_spec g (length (m_running_kernels g)) 0 Hw)
    as [[Hnone ->]|(n & slot & Hn & Hr & _ & Es & ->)]; [lia|lia|..]); eexists _, _; (split; [done|]).
  - done.
  - unfold ready_slot in Hr. rewrite Es in Hr. apply zread_elem_of, Hno in Es.
    unfold busy_slot in Es. destruct slot; [by rewrite Es in Hr|done].
  - exfalso. pose proof (zread_range _ _ _ Hi) as Hri. unfold zlen in Hri.
    specialize (Hnone (distance g i)). rewrite slot_at_distance in Hnone by lia.
    unfold ready_slot in Hnone. rewrite Hi in Hnone. unfold busy_slot in Ho. destruct o; [|done].
    rewrite Ho in Hnone. discriminate Hnone. apply Z.mod_pos_bound. lia.
  - unfold ready_slot in Hr. rewrite Es in Hr. by destruct slot.
Qed.

(** In every state of the table that launches, selections, completions and the progress
    of the kernels lead to: launching a kernel not in the table stops the simulator
    exactly when its blocks have more threads than a core or when can_start_kernel is
    false, and puts it in the table otherwise; a kernel of the table that is reported
    done leaves the table and is queued for collection; select_kernel succeeds, and
    finds a kernel exactly when get_more_cta_left says so. *)
Theorem kernel_table_lifecycle mk nt g :
  0 < mk < 2 ^ 31 -> table_reachable mk 0 nt g -> gpu_max_cta_opt g = 0 ->
  (forall p k, kernels g !! p = Some k -> Some p ∉ m_running_kernels g ->
     (n_thread_per_shader g < threads_per_cta k /\ launch g p = Err ErrorMsg) \/
     (threads_per_cta k <= n_thread_per_shader g /\ can_start_kernel g = Ok false /\ launch g p = Err AssertFailed) \/
     (threads_per_cta k <= n_thread_per_shader g /\ can_start_kernel g = Ok true /\
      exists g', launch g p = Ok g' /\ Some p ∈ m_running_kernels g')) /\
  (forall p k, kernels g !! p = Some k -> Some p ∈ m_running_kernels g ->
     exists g', set_kernel_done g p = Ok g' /\ (Some p ∉ m_running_kernels g') /\
       m_finished_kernel g' = (m_finished_kernel g ++ [m_uid k])) /\
  (exists o g', select_kernel g = Ok (o, g') /\ get_more_cta_left g = Ok (bool_decide (is_Some o))).
Proof.
  intros Hm Hg Hc. destruct (table_reachable_inv mk 0 nt g Hm Hg) as [Hw Hd].
  split_and!; intros; [by apply launch_spec|by apply set_kernel_done_spec|by apply select_kernel_some].
Qed.

(** * Bounds of [max_cta] *)

Definition round4 (n : Z) : Z := (n + 3) / 4 * 4.
(** The threads of a block, rounded up to whole warps. *)
Definition padded (threads warp : Z) : Z := (threads + warp - 1) / warp * warp.

Lemma padded_size_spec threads warp : 0 < warp -> 0 <= threads -> threads + warp <= 2 ^ 32 ->
  padded_size threads warp = Ok (padded threads warp).
Proof.
  intros Hw Ht Hb. unfold padded_size, padded. rewrite (proj2 (Z.eqb_neq _ _)) by lia. simpl. f_equal.
  pose proof (Z.div_mod threads warp ltac:(lia)) as Hdm.
  pose proof (Z.mod_pos_bound threads warp Hw) as Hr.
  destruct (Z.eqb_spec (threads mod warp) 0) as [E|E]; simpl.
  - replace (threads + warp - 1) with (warp - 1 + threads / warp * warp) by lia.
    rewrite Z.div_add, Z.div_small by lia. lia.
  - replace (threads + warp - 1) with (threads mod warp - 1 + (threads / warp + 1) * warp) by lia.
    rewrite Z.div_add, (Z.div_small (threads mod warp - 1)) by lia.
    assert (0 <= threads / warp) by (apply Z.div_pos; lia).
    rewrite (uwrap_small 32 (threads / warp + 1)) by nia. rewrite uwrap_small by nia. lia.
Qed.

Lemma padded_pos threads warp : 0 < warp -> 0 < threads -> 0 < padded threads warp.
Proof.
  intros Hw Ht. unfold padded. apply Z.mul_pos_pos; [|done]. apply Z.div_str_pos. lia.
Qed.

Lemma round4_spec n : 0 <= n < 2 ^ 31 - 3 -> Z.land (s32 (n + 3)) (Z.lnot 3) = round4 n.
Proof.
  intros Hn. rewrite swrap_small by lia. rewrite <- Z.ldiff_land. change 3 with (Z.ones 2) at 2.
  rewrite Z.ldiff_ones_r by lia. rewrite Z.shiftl_mul_pow2, Z.shiftr_div_pow2 by lia. done.
Qed.

(** [n] blocks of the kernel fit a core. *)
Definition fits (c : shader_core_config) (k : kernel_info_t) (n : Z) : Prop :=
  let info := m_kernel_entry k in
  let pad := padded (threads_per_cta k) (warp_size c) in
  n * pad <= shader_n_thread c /\
  (0 < smem info -> n * smem info <= gpgpu_shmem_size c) /\
  (0 < kregs info -> n * (pad * round4 (kregs info)) <= gpgpu_shader_registers c) /\
  n <= max_cta_per_core c.

Record core_ok (c : shader_core_config) (k : kernel_info_t) : Prop := {
  co_block : dim3_ok (m_block_dim k) /\ 0 < volume (m_block_dim k);
  co_grid : dim3_ok (m_grid_dim k);
  co_warp : 0 < warp_size c /\ threads_per_cta k + warp_size c <= 2 ^ 32;
  co_limits : 0 <= shader_n_thread c < 2 ^ 32 /\ 0 <= gpgpu_shmem_size c < 2 ^ 32 /\
    0 <= gpgpu_shader_registers c < 2 ^ 32 /\ 0 <= max_cta_per_core c < 2 ^ 32 - 1;
  co_regs : kregs (m_kernel_entry k) < 2 ^ 31 - 3 /\
    padded (threads_per_cta k) (warp_size c) * round4 (kregs (m_kernel_entry k)) < 2 ^ 32;
  co_shaders : 0 < n_simt_clusters c * n_simt_cores_per_cluster c < 2 ^ 32 /\
    max_cta_per_core c * (n_simt_clusters c * n_simt_cores_per_cluster c) < 2 ^ 32 }.

Lemma le_div n a b : 0 < b -> n <= a / b <-> n * b <= a.
Proof.
  intros Hb. split; intros H.
  - pose proof (Z.mul_div_le a b Hb). nia.
  - apply Z.div_le_lower_bound; lia.
Qed.

(** What the limits the code takes the least of come to: the most blocks that fit. *)
Definition most_blocks (c : shader_core_config) (k : kernel_info_t) (m : Z) : Prop :=
  0 <= m <= max_cta_per_core c /\ forall n, n < 2 ^ 32 -> fits c k n <-> n <= m.

Lemma udiv_ok a b : b <> 0 -> udiv a b = Ok (a / b).
Proof. intros Hb. unfold udiv. by rewrite (proj2 (Z.eqb_neq b 0)). Qed.

(** A limit that applies only when the kernel uses the resource. *)
Definition limit (used avail per : Z) : Z := if 0 <? used then avail / per else 2 ^ 32 - 1.

Lemma limit_le used avail per n : 0 < per \/ used <= 0 -> n < 2 ^ 32 ->
  n <= limit used avail per <-> (0 < used -> n * per <= avail).
Proof.
  intros Hp Hn. unfold limit. destruct (Z.ltb_spec 0 used).
  - rewrite le_div by lia. tauto.
  - split; lia.
Qed.

Lemma limit_nonneg used avail per : 0 <= avail -> 0 < per \/ used <= 0 -> 0 <= limit used avail per.
Proof.
  intros Ha Hp. unfold limit. destruct (Z.ltb_spec 0 used); [apply Z.div_pos; lia|lia].
Qed.

Definition least_limit (c : shader_core_config) (k : kernel_info_t) : Z :=
  let info := m_kernel_entry k in
  let pad := padded (threads_per_cta k) (warp_size c) in
  Z.min (Z.min (Z.min (shader_n_thread c / pad) (limit (smem info) (gpgpu_shmem_size c) (smem info)))
    (limit (kregs info) (gpgpu_shader_registers c) (pad * round4 (kregs info)))) (max_cta_per_core c).

Lemma core_ok_padded c k : core_ok c k -> 0 < padded (threads_per_cta k) (warp_size c).
Proof.
  intros [[Hb Hv] _ [Hw _] _ _ _]. apply padded_pos; [done|].
  unfold threads_per_cta. by rewrite dim3_count_ok.
Qed.

Lemma regs_per_block c k : core_ok c k -> 0 < kregs (m_kernel_entry k) ->
  0 < padded (threads_per_cta k) (warp_size c) * round4 (kregs (m_kernel_entry k)).
Proof.
  intros Hc Hr. pose proof (core_ok_padded c k Hc). apply Z.mul_pos_pos; [done|]. unfold round4. lia.
Qed.

Lemma least_limit_most c k : core_ok c k ->
  0 <= least_limit c k <= max_cta_per_core c /\ forall n, n < 2 ^ 32 -> fits c k n <-> n <= least_limit c k.
Proof.
  intros Hc. pose proof (core_ok_padded c k Hc) as Hp. pose proof (regs_per_block c k Hc) as Hr.
  destruct Hc as [_ _ _ (Hl1 & Hl2 & Hl3 & Hl4) _ _]. unfold fits, least_limit.
  set (pad := padded _ _) in *. set (info := m_kernel_entry k) in *. split.
  - pose proof (limit_nonneg (smem info) (gpgpu_shmem_size c) (smem info)).
    pose proof (limit_nonneg (kregs info) (gpgpu_shader_registers c) (pad * round4 (kregs info))).
    pose proof (Z.div_pos (shader_n_thread c) pad). lia.
  - intros n Hn. rewrite !Z.min_glb_iff, le_div, !limit_le by lia. tauto.
Qed.

Lemma ceil_div a b : 0 < b -> 0 <= a < 2 ^ 32 ->
  (if negb (a mod b =? 0) then u32 (a / b + 1) else a / b) = (a + b - 1) / b.
Proof.
  intros Hb Ha. pose proof (Z.div_mod a b ltac:(lia)) as E. pose proof (Z.mod_pos_bound a b Hb).
  assert (0 <= a / b <= a) by (split; [apply Z.div_pos; lia|apply Z.div_le_upper_bound; [lia|nia]]).
  destruct (Z.eqb_spec (a mod b) 0); simpl.
  - replace (a + b - 1) with (b - 1 + a / b * b) by lia. rewrite Z.div_add, (Z.div_small (b - 1)) by lia. done.
  - replace (a + b - 1) with (a mod b - 1 + (a / b + 1) * b) by lia.
    rewrite Z.div_add, (Z.div_small (a mod b - 1)) by lia.
    destruct (Z.eq_dec b 1) as [->|]; [lia|].
    rewrite uwrap_small; [lia|]. assert (a / b < a) by (apply Z.div_lt; lia). lia.
Qed.

Lemma max_cta_limit c k : core_ok c k ->
  max_cta c k =
    (let r := if num_blocks k <? least_limit c k * num_shader c
              then (num_blocks k + num_shader c - 1) / num_shader c else least_limit c k in
     cassert (r <=? MAX_CTA_PER_SHADER);; if r <? 1 then Err ErrorMsg else Ok r).
Proof.
  intros Hc. pose proof (core_ok_padded c k Hc) as Hp. pose proof (regs_per_block c k Hc) as Hr.
  destruct (least_limit_most c k Hc) as [Hm _].
  destruct Hc as [[Hb Hvb] Hg [Hw Htw] _ [Hr1 Hr2] [Hs1 Hs2]].
  assert (0 < threads_per_cta k) as Ht by (unfold threads_per_cta; by rewrite dim3_count_ok).
  unfold max_cta. rewrite padded_size_spec by lia. rewrite bind_of_ok.
  rewrite (udiv_ok (shader_n_thread c)), bind_of_ok by lia.
  set (pad := padded _ _) in *. set (info := m_kernel_entry k) in *.
  replace (if 0 <? smem info then udiv (gpgpu_shmem_size c) (smem info) else mret (2 ^ 32 - 1))
    with (Ok (limit (smem info) (gpgpu_shmem_size c) (smem info)))
    by (unfold limit; destruct (Z.ltb_spec 0 (smem info)); [by rewrite udiv_ok by lia|done]).
  rewrite bind_of_ok.
  match goal with |- (?m ≫= _) = _ =>
    replace m with (Ok (limit (kregs info) (gpgpu_shader_registers c) (pad * round4 (kregs info)))) end.
  2:{ unfold limit. destruct (Z.ltb_spec 0 (kregs info)); [|done].
      rewrite round4_spec, uwrap_small, udiv_ok by lia. done. }
  rewrite bind_of_ok. cbv zeta.
  match goal with |- context [Z.min (Z.min (Z.min ?a ?b) ?d) ?e] =>
    change (Z.min (Z.min (Z.min a b) d) e) with (least_limit c k) end.
  assert (num_shader c = n_simt_clusters c * n_simt_cores_per_cluster c) as En by (apply uwrap_small; lia).
  assert (0 <= num_blocks k < 2 ^ 32) as Hn by (apply uwrap_range; lia).
  rewrite (uwrap_small 32 (least_limit c k * num_shader c)) by (rewrite En; nia).
  destruct (_ <? _); [|done].
  rewrite (udiv_ok (num_blocks k)), bind_of_ok, ceil_div by lia. done.
Qed.

(** C37: max_cta gives a number of blocks between 1 and MAX_CTA_PER_SHADER whose threads
    in whole warps, shared memory and registers fit a core, and it is the greatest such
    number unless fewer already spread the whole grid over the cores; it stops with the
    error message only when not even one block fits or the grid is empty, and on its
    assertion only when more than MAX_CTA_PER_SHADER blocks fit. *)
Theorem max_cta_within_resources c k : core_ok c k ->
  match max_cta c k with
  | Ok r => 1 <= r <= MAX_CTA_PER_SHADER /\ fits c k r /\
      (~ fits c k (r + 1) \/ num_blocks k <= r * num_shader c < num_blocks k + num_shader c)
  | Err ErrorMsg => ~ fits c k 1 \/ num_blocks k = 0
  | Err AssertFailed => fits c k (MAX_CTA_PER_SHADER + 1)
  | Err _ => False
  end.
Proof.
  intros Hc. rewrite (max_cta_limit c k Hc). destruct (least_limit_most c k Hc) as [Hm Hfit].
  destruct Hc as [_ _ _ (_ & _ & _ & Hl4) _ [Hs1 Hs2]].
  assert (num_shader c = n_simt_clusters c * n_simt_cores_per_cluster c) as En by (apply uwrap_small; lia).
  assert (0 <= num_blocks k < 2 ^ 32) as Hn by (apply uwrap_range; lia).
  set (m := least_limit c k) in *. set (ns := num_shader c) in *. set (nb := num_blocks k) in *.
  unfold MAX_CTA_PER_SHADER.
  assert (forall r, r <= m -> (1 <= r -> ~ fits c k (r + 1) \/ nb <= r * ns < nb + ns) -> (r < 1 -> m < 1 \/ nb = 0) ->
    match (cassert (r <=? 32);; (if r <? 1 then Err ErrorMsg else Ok r)) with
    | Ok r => 1 <= r <= 32 /\ fits c k r /\ (~ fits c k (r + 1) \/ nb <= r * ns < nb + ns)
    | Err ErrorMsg => ~ fits c k 1 \/ nb = 0
    | Err AssertFailed => fits c k (32 + 1)
    | Err _ => False
    end) as Hr.
  { intros r Hrm Htop Hlow. destruct (Z.leb_spec r 32); simpl; [|apply Hfit; lia].
    destruct (Z.ltb_spec r 1) as [Hlt|]; [destruct (Hlow Hlt); [left; rewrite Hfit; lia|by right]|].
    split_and!; [lia|lia|apply Hfit; lia|apply Htop; lia]. }
  apply Hr; destruct (Z.ltb_spec nb (m * ns)) as [Hlt|Hge]; try lia.
  - assert ((nb + ns - 1) / ns < m + 1); [|lia]. apply Z.div_lt_upper_bound; lia.
  - intros _. left. rewrite Hfit; lia.
Qed.

(** * Small runs *)

Definition demo_resources : gpgpu_ptx_sim_kernel_info := mkResources 0 1024 0 10 14 13.
Definition demo_kernel (uid : Z) (grid block : dim3) : kernel_info_t :=
  mkKernel demo_resources uid grid block (Dim3 0 0 0) (Dim3 0 0 0) 0 [] (mkMemory 13 ∅ []).
Definition demo_k : kernel_info_t := demo_kernel 1 (Dim3 3 2 1) (Dim3 2 2 2).

Example demo_k_is_new :
  kernel_info_new 1 (Dim3 3 2 1) (Dim3 2 2 2) demo_resources = Ok (demo_k, 2).
Proof. vm_compute. reflexivity. Qed.

(** Two kernels share a table of two slots. *)
Definition demo_table : gpgpu_sim :=
  with_table (with_kernel (with_kernel (table_new 2 0 1024) 10 demo_k)
                20 (demo_kernel 2 (Dim3 4 1 1) (Dim3 8 1 1))) [Some 10; Some 20] 0 [].

Lemma demo_table_reachable : table_reachable 2 0 1024 demo_table.
Proof.
  eapply rtc_l; [apply (step_kernel _ 10 demo_k)|].
  eapply rtc_l; [apply (step_kernel _ 20 (demo_kernel 2 (Dim3 4 1 1) (Dim3 8 1 1)))|].
  eapply rtc_l; [apply (step_launch _ 10); [vm_compute; set_solver|vm_compute; reflexivity]|].
  eapply rtc_l; [apply (step_launch _ 20); [vm_compute; set_solver|vm_compute; reflexivity]|].
  apply rtc_refl.
Qed.

Lemma kernel_selection_is_fair_witness :
  (exists p g1, select_kernel demo_table = Ok (Some p, g1)) /\
  forall l, selections 0 demo_table l -> 2 <= zlen l -> 0 ∈ l.
Proof.
  destruct (kernel_selection_is_fair demo_table 0) as [(p & g1 & E & _) Hf].
  - apply (table_reachable_inv 2 0 1024); [lia|apply demo_table_reachable].
  - vm_compute. reflexivity.
  - split; [exists p, g1; exact E|]. intros l Hs Hl. apply (Hf l Hs). exact Hl.
Defined.

Lemma kernel_table_lifecycle_witness :
  (exists g', set_kernel_done demo_table 10 = Ok g' /\ m_finished_kernel g' = [1]) /\
  get_more_cta_left demo_table = Ok true.
Proof.
  destruct (kernel_table_lifecycle 2 1024 demo_table) as (_ & Hd & Hs).
  - lia.
  - apply demo_table_reachable.
  - vm_compute. reflexivity.
  - split.
    + destruct (Hd 10 demo_k) as (g' & E & _ & Ef).
      * vm_compute. reflexivity.
      * vm_compute. left.
      * exists g'. split; [exact E|]. exact Ef.
    + vm_compute. reflexivity.
Defined.

Definition demo_core : shader_core_config := mkShader 1024 32 16384 16384 8 10 3.

Example demo_max_cta : max_cta demo_core (demo_kernel 1 (Dim3 64 64 1) (Dim3 16 16 1)) = Ok 4.
Proof. vm_compute. reflexivity. Qed.

Lemma max_cta_within_resources_witness :
  fits demo_core (demo_kernel 1 (Dim3 64 64 1) (Dim3 16 16 1)) 4.
Proof.
  pose proof (max_cta_within_resources demo_core (demo_kernel 1 (Dim3 64 64 1) (Dim3 16 16 1))) as H.
  rewrite demo_max_cta in H. apply H. split; vm_compute; intuition congruence.
Defined.
