(* ===== verification/Barriers.v ===== *)
(** * Barriers

    [barrier_set_t] ([gpgpu-sim/shader.h] and [shader.cc]): which warps of the blocks
    on a core have reached the barrier.  A warp set is a [std::bitset] of
    [WARP_PER_CTA_MAX] bits; the blocks are a [std::map] from their number on the
    core to their warps. *)

From S2P Require Import Prelude Bitset OrdMap.

Definition WARP_PER_CTA_MAX : Z := 48.

Record barrier_set_t := mkBarriers {
  m_max_cta_per_core : Z;
  m_max_warps_per_core : Z;
  m_cta_to_warps : list (Z * Z);
  m_warp_active : Z;
  m_warp_at_barrier : Z }.

Definition barrier_set_new (max_warps_per_core max_cta_per_core : Z) : outcome barrier_set_t :=
  if WARP_PER_CTA_MAX <? max_warps_per_core then Err ErrorMsg
  else mret (mkBarriers max_cta_per_core max_warps_per_core [] 0 0).

Definition with_warps (b : barrier_set_t) (m : list (Z * Z)) (active at_barrier : Z) : barrier_set_t :=
  mkBarriers (m_max_cta_per_core b) (m_max_warps_per_core b) m active at_barrier.

Definition allocate_barrier (b : barrier_set_t) (cta_id warps : Z) : outcome barrier_set_t :=
  cassert (cta_id <? m_max_cta_per_core b);;
  cassert (match ofind (m_cta_to_warps b) cta_id with None => true | Some _ => false end);;
  let m := upsert (m_cta_to_warps b) cta_id 0 (fun _ => warps) in
  cassert (zlen m <=? m_max_cta_per_core b);;
  mret (with_warps b m (Z.lor (m_warp_active b) warps) (Z.ldiff (m_warp_at_barrier b) warps)).

Definition deallocate_barrier (b : barrier_set_t) (cta_id : Z) : outcome barrier_set_t :=
  match ofind (m_cta_to_warps b) cta_id with
  | None => mret b
  | Some warps =>
      cassert (negb (any (Z.land warps (m_warp_at_barrier b))));;
      cassert (negb (any (Z.land warps (m_warp_active b))));;
      mret (with_warps b (oerase (m_cta_to_warps b) cta_id)
              (Z.ldiff (m_warp_active b) warps) (Z.ldiff (m_warp_at_barrier b) warps))
  end.

(** The release test at the end of [warp_reaches_barrier] and of [warp_exit]. *)
Definition release (b : barrier_set_t) (warps_in_cta : Z) : barrier_set_t :=
  let at_barrier := Z.land warps_in_cta (m_warp_at_barrier b) in
  let active := Z.land warps_in_cta (m_warp_active b) in
  if at_barrier =? active
  then with_warps b (m_cta_to_warps b) (m_warp_active b) (Z.ldiff (m_warp_at_barrier b) at_barrier)
  else b.

Definition warp_reaches_barrier (b : barrier_set_t) (cta_id warp_id : Z) : outcome barrier_set_t :=
  match ofind (m_cta_to_warps b) cta_id with
  | None => Err ErrorMsg
  | Some warps =>
      inside ← btest WARP_PER_CTA_MAX warps warp_id;
      cassert inside;;
      at_barrier ← bset WARP_PER_CTA_MAX (m_warp_at_barrier b) warp_id;
      mret (release (with_warps b (m_cta_to_warps b) (m_warp_active b) at_barrier) warps)
  end.

Definition available_for_fetch (b : barrier_set_t) (warp_id : Z) : outcome bool :=
  active ← btest WARP_PER_CTA_MAX (m_warp_active b) warp_id;
  if (active : bool) then btest WARP_PER_CTA_MAX (m_warp_at_barrier b) warp_id else mret false.

(** The search of [warp_exit]: the first block that has the warp. *)
Fixpoint block_of (m : list (Z * Z)) (warp_id : Z) : outcome Z :=
  match m with
  | [] => Err BadAccess
  | (_, warps) :: rest =>
      inside ← btest WARP_PER_CTA_MAX warps warp_id;
      if (inside : bool) then mret warps else block_of rest warp_id
  end.

Definition warp_exit (b : barrier_set_t) (warp_id : Z) : outcome barrier_set_t :=
  active ← breset WARP_PER_CTA_MAX (m_warp_active b) warp_id;
  warps ← block_of (m_cta_to_warps b) warp_id;
  mret (release (with_warps b (m_cta_to_warps b) active (m_warp_at_barrier b)) warps).

Definition warp_waiting_at_barrier (b : barrier_set_t) (warp_id : Z) : outcome bool :=
  btest WARP_PER_CTA_MAX (m_warp_at_barrier b) warp_id.

(** * The invariant *)

Section views.
Context (b : barrier_set_t).
Definition block (c ws : Z) : Prop := ofind (m_cta_to_warps b) c = Some ws.
Definition active (i : Z) : bool := Z.testbit (m_warp_active b) i.
Definition waiting (i : Z) : bool := Z.testbit (m_warp_at_barrier b) i.
(** A running warp of the set has not arrived. *)
Definition awaited (ws : Z) : Prop :=
  exists j, Z.testbit ws j = true /\ active j = true /\ waiting j = false.
(** Nobody waits at a barrier that every running warp of the block has reached. *)
Definition settled (c : Z) : Prop :=
  forall ws i, block c ws -> Z.testbit ws i = true -> waiting i = true -> awaited ws.
End views.

Record barriers_core (b : barrier_set_t) : Prop := {
  bc_ordered : ordered (m_cta_to_warps b);
  bc_blocks : forall c ws, block b c ws -> 0 <= c < m_max_cta_per_core b /\ within WARP_PER_CTA_MAX ws;
  bc_disjoint : forall c c' ws ws' i, block b c ws -> block b c' ws' ->
    Z.testbit ws i = true -> Z.testbit ws' i = true -> c = c';
  bc_waiting : forall i, waiting b i = true -> active b i = true;
  bc_active : forall i, active b i = true -> exists c ws, block b c ws /\ Z.testbit ws i = true }.

Definition barriers_ok (b : barrier_set_t) : Prop := barriers_core b /\ forall c, settled b c.

(** What the release test does: it frees the warps of the block when all its running
    warps wait, and nothing otherwise. *)
Lemma release_spec b ws : within WARP_PER_CTA_MAX ws -> (forall i, waiting b i = true -> active b i = true) ->
  (awaited b ws /\ release b ws = b) \/
  ((forall j, Z.testbit ws j = true -> active b j = true -> waiting b j = true) /\
   exists at', release b ws = with_warps b (m_cta_to_warps b) (m_warp_active b) at' /\
     forall j, Z.testbit at' j = waiting b j && negb (Z.testbit ws j)).
Proof.
  intros Hws Hwa. unfold release. set (a := Z.land ws (m_warp_at_barrier b)).
  destruct (Z.eqb_spec a (Z.land ws (m_warp_active b))) as [E|E].
  - right. assert (forall j, Z.testbit a j = Z.testbit ws j && active b j) as Ha
      by (intros j; rewrite E; apply Z.land_spec).
    split.
    + intros j Hj Hact. specialize (Ha j). unfold a in Ha. rewrite Z.land_spec, Hj, Hact in Ha. exact Ha.
    + eexists. split; [done|]. intros j. rewrite Z.ldiff_spec. unfold a. rewrite Z.land_spec.
      unfold waiting. by destruct (Z.testbit ws j), (Z.testbit (m_warp_at_barrier b) j).
  - left. split; [|done]. set (m := Z.ldiff (Z.land ws (m_warp_active b)) (m_warp_at_barrier b)).
    assert (forall j, Z.testbit m j = Z.testbit ws j && active b j && negb (waiting b j)) as Hm
      by (intros j; unfold m; by rewrite Z.ldiff_spec, Z.land_spec).
    destruct (any m) eqn:Ea.
    + destruct (any_elem WARP_PER_CTA_MAX m) as (j & _ & Hj); [|done|].
      { apply (within_sub _ ws); [done|]. intros j. rewrite Hm, !andb_true_iff. tauto. }
      rewrite Hm, !andb_true_iff, negb_true_iff in Hj. exists j. tauto.
    + exfalso. rewrite any_false in Ea. apply E, Z.bits_inj. intros j. unfold a. rewrite !Z.land_spec.
      specialize (Ea j). rewrite Hm in Ea. specialize (Hwa j). unfold waiting, active in *.
      destruct (Z.testbit ws j), (Z.testbit (m_warp_active b) j), (Z.testbit (m_warp_at_barrier b) j); naive_solver.
Qed.

Lemma release_core b ws : barriers_core b -> within WARP_PER_CTA_MAX ws -> barriers_core (release b ws).
Proof.
  intros Hc Hws. destruct (release_spec b ws Hws (bc_waiting b Hc)) as [[_ ->]|(_ & at' & -> & Hat)]; [done|].
  destruct Hc as [H1 H2 H3 H4 H5]. split; try done.
  intros i Hi. apply H4. unfold waiting in *. simpl in Hi. rewrite Hat in Hi.
  apply andb_true_iff in Hi. apply Hi.
Qed.

Lemma release_settles b c ws : barriers_core b -> block b c ws ->
  (forall c', c' <> c -> settled b c') -> barriers_ok (release b ws).
Proof.
  intros Hc Hb Ho. destruct (bc_blocks b Hc c ws Hb) as [_ Hws]. split; [by apply release_core|].
  intros c' ws' i Hb' Hi Hw.
  destruct (release_spec b ws Hws (bc_waiting b Hc)) as [[Haw E]|(_ & at' & E & Hat)]; rewrite E in *.
  - destruct (Z.eq_dec c' c) as [->|]; [|by apply (Ho c' n ws' i)].
    unfold block in *. congruence.
  - unfold waiting in Hw. simpl in Hw. rewrite Hat in Hw. apply andb_true_iff in Hw as [Hw Hn].
    apply negb_true_iff in Hn. unfold block in Hb'. simpl in Hb'.
    destruct (Z.eq_dec c' c) as [->|Hne]; [unfold block in Hb; congruence|].
    destruct (Ho c' Hne ws' i Hb' Hi Hw) as (j & Hj & Ha & Hnw). exists j.
    split_and!; [done|done|]. unfold waiting. simpl. by rewrite Hat, Hnw.
Qed.

(** One warp's bits change: the other blocks do not notice. *)
Lemma settled_frame b b' c ws w c' : barriers_core b -> block b c ws -> Z.testbit ws w = true ->
  m_cta_to_warps b' = m_cta_to_warps b ->
  (forall j, j <> w -> active b' j = active b j /\ waiting b' j = waiting b j) ->
  c' <> c -> settled b c' -> settled b' c'.
Proof.
  intros Hc Hb Hw Em Hsame Hne Hs ws' i Hb' Hi Hwi. unfold block in Hb'. rewrite Em in Hb'.
  assert (forall j, Z.testbit ws' j = true -> j <> w) as Hnw.
  { intros j Hj ->. by apply Hne, (bc_disjoint b Hc c' c ws' ws w). }
  destruct (Hsame i (Hnw i Hi)) as [_ Ewi]. rewrite Ewi in Hwi.
  destruct (Hs ws' i Hb' Hi Hwi) as (j & Hj & Ha & Hn). exists j.
  destruct (Hsame j (Hnw j Hj)) as [Ea En]. by rewrite Ea, En.
Qed.

(** The state the release test of [warp_reaches_barrier] sees, and that of [warp_exit]. *)
Definition arrived (b : barrier_set_t) (w : Z) : barrier_set_t :=
  with_warps b (m_cta_to_warps b) (m_warp_active b) (Z.setbit (m_warp_at_barrier b) w).
Definition departed (b : barrier_set_t) (w : Z) : barrier_set_t :=
  with_warps b (m_cta_to_warps b) (Z.clearbit (m_warp_active b) w) (m_warp_at_barrier b).

Lemma arrived_waiting b w j : 0 <= w -> waiting (arrived b w) j = (w =? j) || waiting b j.
Proof. intros. unfold waiting, arrived. simpl. by apply testbit_setbit. Qed.
Lemma departed_active b w j : active (departed b w) j = active b j && negb (w =? j).
Proof. unfold active, departed. simpl. apply testbit_clearbit. Qed.

Lemma arrived_core b w : barriers_core b -> 0 <= w -> active b w = true -> barriers_core (arrived b w).
Proof.
  intros [H1 H2 H3 H4 H5] Hw Ha. split; try done. intros i. rewrite arrived_waiting by done.
  destruct (Z.eqb_spec w i) as [->|]; [by intros _|]. apply H4.
Qed.

Lemma departed_core b w : barriers_core b -> waiting b w = false -> barriers_core (departed b w).
Proof.
  intros [H1 H2 H3 H4 H5] Hw. split; try done.
  - intros i Hi. rewrite departed_active. change (waiting b i = true) in Hi. rewrite (H4 i Hi). simpl.
    destruct (Z.eqb_spec w i) as [->|]; [congruence|done].
  - intros i. rewrite departed_active, andb_true_iff. intros [Hi _]. by apply H5.
Qed.

Lemma warp_in_range b c ws w : barriers_core b -> block b c ws -> Z.testbit ws w = true ->
  0 <= w < WARP_PER_CTA_MAX.
Proof. intros Hc Hb Hw. destruct (bc_blocks b Hc c ws Hb) as [_ Hin]. by apply Hin. Qed.

Lemma warp_reaches_barrier_ok b c ws w : barriers_ok b -> block b c ws -> Z.testbit ws w = true ->
  active b w = true ->
  warp_reaches_barrier b c w = Ok (release (arrived b w) ws) /\ barriers_ok (release (arrived b w) ws).
Proof.
  intros [Hc Hs] Hb Hw Ha. pose proof (warp_in_range b c ws w Hc Hb Hw) as Hr. split.
  - unfold warp_reaches_barrier. rewrite Hb, btest_in by done. simpl. rewrite Hw. simpl.
    by rewrite bset_in by done.
  - apply (release_settles _ c); [by apply arrived_core; [|lia|]|done|]. intros c' Hne.
    apply (settled_frame b _ c ws w); try done.
    intros j Hj. rewrite arrived_waiting by lia. by rewrite (proj2 (Z.eqb_neq w j)) by done.
Qed.

Lemma block_of_spec m c ws w : (c, ws) ∈ m -> Z.testbit ws w = true -> 0 <= w < WARP_PER_CTA_MAX ->
  (forall c' ws', (c', ws') ∈ m -> Z.testbit ws' w = true -> ws' = ws) -> block_of m w = Ok ws.
Proof.
  intros Hin Hw Hr Hu. induction m as [|[c' ws'] m IH]; [by apply not_elem_of_nil in Hin|]. simpl.
  rewrite btest_in by done. simpl. destruct (Z.testbit ws' w) eqn:E.
  - by rewrite (Hu c' ws') by (done || left).
  - apply IH; [|intros; eapply Hu; [by right|done]].
    apply elem_of_cons in Hin as [[= -> ->]|]; [congruence|done].
Qed.

Lemma warp_exit_ok b c ws w : barriers_ok b -> block b c ws -> Z.testbit ws w = true ->
  waiting b w = false ->
  warp_exit b w = Ok (release (departed b w) ws) /\ barriers_ok (release (departed b w) ws).
Proof.
  intros [Hc Hs] Hb Hw Hn. pose proof (warp_in_range b c ws w Hc Hb Hw) as Hr.
  pose proof (bc_ordered b Hc) as Hord. split.
  - unfold warp_exit. rewrite breset_in by done. simpl.
    rewrite (block_of_spec _ c ws); [done|by apply ofind_elem|done|done|].
    intros c' ws' Hin%ofind_elem Hw'; [|done].
    assert (c' = c) as -> by (by apply (bc_disjoint b Hc c' c ws' ws w)). unfold block in Hb. congruence.
  - apply (release_settles _ c); [by apply departed_core|done|]. intros c' Hne.
    apply (settled_frame b _ c ws w); try done.
    intros j Hj. rewrite departed_active. by rewrite (proj2 (Z.eqb_neq w j)), andb_true_r by done.
Qed.

Lemma allocate_barrier_ok b c ws : barriers_ok b -> 0 <= c < m_max_cta_per_core b ->
  ofind (m_cta_to_warps b) c = None -> within WARP_PER_CTA_MAX ws ->
  (forall c' ws' i, block b c' ws' -> Z.testbit ws i = true -> Z.testbit ws' i = false) ->
  exists b', allocate_barrier b c ws = Ok b' /\ barriers_ok b' /\ block b' c ws /\
    (forall i, active b' i = active b i || Z.testbit ws i) /\ (forall i, waiting b' i = waiting b i).
Proof.
  intros [Hc Hs] Hr Hnone Hws Hdis. pose proof (bc_ordered b Hc) as Hord.
  unfold allocate_barrier. rewrite (cassert_true (c <? _)) by (apply Z.ltb_lt; lia). simpl. rewrite Hnone. simpl.
  set (m := upsert _ _ _ _).
  assert (ordered m) as Hm by (by apply ordered_upsert).
  assert (forall a w, (a, w) ∈ m -> 0 <= a < m_max_cta_per_core b) as Hkeys.
  { intros a w [->|Hin]%elem_of_upsert; [done|]. apply ofind_elem in Hin; [|done].
    by apply (bc_blocks b Hc a w). }
  rewrite cassert_true by (apply Z.leb_le, ordered_size; [done|lia|done]). simpl.
  assert (forall a w, ofind m a = Some w <-> (a = c /\ w = ws) \/ (a <> c /\ block b a w)) as Hfind.
  { intros a w. unfold m, block. rewrite ofind_upsert by done. destruct (Z.eqb_spec a c); naive_solver. }
  assert (forall i, waiting b i = true -> Z.testbit ws i = false) as Hfree.
  { intros i Hi. apply not_true_iff_false. intros Hwi.
    destruct (bc_active b Hc i (bc_waiting b Hc i Hi)) as (c' & ws' & Hb & Hi').
    by rewrite (Hdis c' ws' i Hb Hwi) in Hi'. }
  set (b' := with_warps _ _ _ _).
  assert (forall i, active b' i = active b i || Z.testbit ws i) as Ha by (intros; apply Z.lor_spec).
  assert (forall i, waiting b' i = waiting b i) as Hw.
  { intros i. unfold waiting, b'. simpl. rewrite Z.ldiff_spec. fold (waiting b i).
    destruct (waiting b i) eqn:E; [by rewrite Hfree|done]. }
  exists b'. split; [done|]. split; [|split_and!; [apply Hfind; by left|done|done]].
  split; [split|]; unfold block; simpl.
  - done.
  - intros a w [[-> ->]|[_ Hb]]%Hfind; [done|by apply (bc_blocks b Hc)].
  - intros a a' w w' i [[-> ->]|[_ Hb]]%Hfind [[-> ->]|[_ Hb']]%Hfind Hi Hi'; try done.
    + by rewrite (Hdis a' w' i) in Hi'.
    + by rewrite (Hdis a w i) in Hi.
    + by apply (bc_disjoint b Hc a a' w w' i).
  - intros i. rewrite Hw, Ha. intros Hi. by rewrite (bc_waiting b Hc i Hi).
  - intros i. rewrite Ha. intros [Hi|Hi]%orb_true_iff.
    + destruct (bc_active b Hc i Hi) as (c' & w & Hb & Hin). exists c', w. split; [|done]. apply Hfind.
      right. split; [|done]. intros ->. unfold block in Hb. congruence.
    + exists c, ws. split; [|done]. apply Hfind. by left.
  - intros a w i Hb Hi Hwi. unfold block in Hb. simpl in Hb. rewrite Hw in Hwi.
    apply Hfind in Hb as [[-> ->]|[_ Hb]]; [by rewrite Hfree in Hi|].
    destruct (Hs a w i Hb Hi Hwi) as (j & Hj & Haj & Hnj). exists j. by rewrite Hw, Ha, Haj.
Qed.

Lemma deallocate_barrier_ok b c b' : barriers_ok b -> deallocate_barrier b c = Ok b' ->
  barriers_ok b' /\ ofind (m_cta_to_warps b') c = None /\
  (forall i, active b' i = active b i) /\ (forall i, waiting b' i = waiting b i).
Proof.
  intros [Hc Hs] E. pose proof (bc_ordered b Hc) as Hord. unfold deallocate_barrier in E.
  destruct (ofind (m_cta_to_warps b) c) as [ws|] eqn:Ef.
  2:{ ok_inv. subst b'. by split. }
  ok_inv. subst b'. rewrite negb_true_iff, any_false in *. set (b' := with_warps _ _ _ _).
  assert (forall i, active b' i = active b i) as Ha.
  { intros i. unfold active, b'. simpl. rewrite Z.ldiff_spec. specialize (H0 i). rewrite Z.land_spec in H0.
    by destruct (Z.testbit ws i), (Z.testbit (m_warp_active b) i). }
  assert (forall i, waiting b' i = waiting b i) as Hw.
  { intros i. unfold waiting, b'. simpl. rewrite Z.ldiff_spec. specialize (H i). rewrite Z.land_spec in H.
    by destruct (Z.testbit ws i), (Z.testbit (m_warp_at_barrier b) i). }
  assert (forall a w, block b' a w <-> a <> c /\ block b a w) as Hfind.
  { intros a w. unfold block, b'. simpl. rewrite ofind_oerase by done. destruct (Z.eqb_spec a c); naive_solver. }
  split_and!; [|unfold b'; simpl; rewrite ofind_oerase by done; by rewrite Z.eqb_refl|done|done].
  split; [split|].
  - by apply ordered_oerase.
  - intros a w [_ Hb]%Hfind. by apply (bc_blocks b Hc).
  - intros a a' w w' i [_ Hb]%Hfind [_ Hb']%Hfind. by apply (bc_disjoint b Hc).
  - intros i. rewrite Hw, Ha. apply Hc.
  - intros i. rewrite Ha. intros Hi. destruct (bc_active b Hc i Hi) as (a & w & Hb & Hin).
    exists a, w. split; [|done]. apply Hfind. split; [|done]. intros ->.
    assert (w = ws) as -> by (unfold block in Hb; congruence).
    specialize (H0 i). rewrite Z.land_spec, Hin in H0. unfold active in Hi. by rewrite Hi in H0.
  - intros a w i [_ Hb]%Hfind Hi. rewrite Hw. intros Hwi.
    destruct (Hs a w i Hb Hi Hwi) as (j & Hj & Haj & Hnj). exists j. by rewrite Hw, Ha.
Qed.

(** What happens to the barriers of a core: a block with warps of its own arrives, a
    running warp reaches the barrier or exits, a block leaves. *)
Inductive barrier_step : barrier_set_t → barrier_set_t → Prop :=
  | bar_allocate b c ws b' :
      0 <= c < m_max_cta_per_core b -> ofind (m_cta_to_warps b) c = None -> within WARP_PER_CTA_MAX ws ->
      (forall c' ws' i, block b c' ws' -> Z.testbit ws i = true -> Z.testbit ws' i = false) ->
      allocate_barrier b c ws = Ok b' -> barrier_step b b'
  | bar_reach b c ws w b' : block b c ws -> Z.testbit ws w = true -> active b w = true ->
      warp_reaches_barrier b c w = Ok b' -> barrier_step b b'
  | bar_exit b c ws w b' : block b c ws -> Z.testbit ws w = true -> waiting b w = false ->
      warp_exit b w = Ok b' -> barrier_step b b'
  | bar_deallocate b c b' : deallocate_barrier b c = Ok b' -> barrier_step b b'.

Lemma barrier_step_ok b b' : barrier_step b b' -> barriers_ok b -> barriers_ok b'.
Proof.
  destruct 1 as [b c ws b' Hr Hn Hws Hd E|b c ws w b' Hb Hw Ha E|b c ws w b' Hb Hw Hn E|b c b' E]; intros Hok.
  - destruct (allocate_barrier_ok b c ws) as (b1 & E1 & Hb1 & _); try done. congruence.
  - destruct (warp_reaches_barrier_ok b c ws w) as [E1 Hb1]; try done. congruence.
  - destruct (warp_exit_ok b c ws w) as [E1 Hb1]; try done. congruence.
  - by apply (deallocate_barrier_ok b c).
Qed.

Definition barriers_reachable (max_warps max_cta : Z) (b : barrier_set_t) : Prop :=
  exists b0, barrier_set_new max_warps max_cta = Ok b0 /\ rtc barrier_step b0 b.

Lemma barriers_reachable_ok mw mc b : barriers_reachable mw mc b -> barriers_ok b.
Proof.
  intros (b0 & E & H). revert b H. apply rtc_ind_r.
  - unfold barrier_set_new in E. destruct (_ <? _); [done|]. injection E as <-.
    split; [split; unfold block, waiting, active; simpl|].
    + constructor.
    + done.
    + done.
    + intros i. by rewrite Z.bits_0.
    + intros i. by rewrite Z.bits_0.
    + intros c ws i. done.
  - intros b1 b2 _ Hs Hok. by apply (barrier_step_ok b1).
Qed.

(** After a release test the block's warps either all go on or all stay. *)
Lemma release_effect b1 ws :
  within WARP_PER_CTA_MAX ws -> (forall i, waiting b1 i = true -> active b1 i = true) ->
  m_warp_active (release b1 ws) = m_warp_active b1 /\
  m_cta_to_warps (release b1 ws) = m_cta_to_warps b1 /\
  ((forall j, Z.testbit ws j = true -> active b1 j = true -> waiting b1 j = true) ->
     forall j, waiting (release b1 ws) j = waiting b1 j && negb (Z.testbit ws j)) /\
  (awaited b1 ws -> release b1 ws = b1).
Proof.
  intros Hws Hwa. destruct (release_spec b1 ws Hws Hwa) as [[(j & Hj & Ha & Hn) E]|(Hall & at' & E & Hat)]; rewrite E.
  - split_and!; try done. intros Hall. specialize (Hall j Hj Ha). congruence.
  - split_and!; try done. intros (j & Hj & Ha & Hn). specialize (Hall j Hj Ha). congruence.
Qed.

(** C17: In every state of the barriers of a core: no warp waits at a barrier that every
    running warp of its block has reached; a running warp that reaches the barrier
    waits, with the others, while a running warp of the block is missing, and when it is
    the last one all warps of the block go on together; when a warp exits and all other
    running warps of the block wait, they go on, and otherwise nothing changes for them;
    the warps of other blocks are never touched. *)
Theorem barrier_releases_together mw mc b :
  barriers_reachable mw mc b ->
  (forall c ws i, block b c ws -> Z.testbit ws i = true -> waiting b i = true -> awaited b ws) /\
  (forall c ws w, block b c ws -> Z.testbit ws w = true -> active b w = true -> waiting b w = false ->
     exists b', warp_reaches_barrier b c w = Ok b' /\ m_warp_active b' = m_warp_active b /\
       ((exists j, Z.testbit ws j = true /\ active b j = true /\ j <> w /\ waiting b j = false) ->
          forall j, waiting b' j = (w =? j) || waiting b j) /\
       ((forall j, Z.testbit ws j = true -> active b j = true -> j = w \/ waiting b j = true) ->
          forall j, waiting b' j = waiting b j && negb (Z.testbit ws j))) /\
  (forall c ws w, block b c ws -> Z.testbit ws w = true -> active b w = true -> waiting b w = false ->
     exists b', warp_exit b w = Ok b' /\ (forall j, active b' j = active b j && negb (w =? j)) /\
       ((exists j, Z.testbit ws j = true /\ active b j = true /\ j <> w /\ waiting b j = false) ->
          forall j, waiting b' j = waiting b j) /\
       ((forall j, Z.testbit ws j = true -> active b j = true -> j = w \/ waiting b j = true) ->
          forall j, waiting b' j = waiting b j && negb (Z.testbit ws j))).
Proof.
  intros Hok%barriers_reachable_ok. pose proof Hok as [Hc Hs].
  split; [intros c ws i; apply Hs|]. split; intros c ws w Hb Hw Ha Hn;
    pose proof (warp_in_range b c ws w Hc Hb Hw) as Hr; destruct (bc_blocks b Hc c ws Hb) as [_ Hws].
  - destruct (warp_reaches_barrier_ok b c ws w Hok Hb Hw Ha) as [E _].
    destruct (release_effect (arrived b w) ws Hws) as (Ea & _ & Hall & Hsome).
    { apply bc_waiting, arrived_core; [done|lia|done]. }
    eexists. split; [exact E|]. split; [exact Ea|]. split.
    + intros (j & Hj & Haj & Hne & Hnj) i. rewrite Hsome; [apply arrived_waiting; lia|].
      exists j. rewrite arrived_waiting by lia. by rewrite (proj2 (Z.eqb_neq w j)) by lia.
    + intros Hj i. rewrite Hall.
      * rewrite arrived_waiting by lia. destruct (Z.eqb_spec w i) as [->|]; [by rewrite Hw, !andb_false_r|done].
      * intros j Hjw Hja. rewrite arrived_waiting by lia. destruct (Hj j Hjw Hja) as [->| ->]; [by rewrite Z.eqb_refl|].
        by rewrite orb_true_r.
  - destruct (warp_exit_ok b c ws w Hok Hb Hw Hn) as [E _].
    destruct (release_effect (departed b w) ws Hws) as (Ea & _ & Hall & Hsome).
    { by apply bc_waiting, departed_core. }
    eexists. split; [exact E|]. split; [|split].
    + intros j. unfold active at 1. rewrite Ea. apply departed_active.
    + intros (j & Hj & Haj & Hne & Hnj) i. rewrite Hsome; [done|]. exists j.
      rewrite departed_active. by rewrite (proj2 (Z.eqb_neq w j)), andb_true_r by lia.
    + intros Hj i. rewrite Hall; [done|]. intros j Hjw. rewrite departed_active, andb_true_iff, negb_true_iff.
      intros [Hja Hne%Z.eqb_neq]. by destruct (Hj j Hjw Hja).
Qed.

(** A block of warps 0, 1 and 2: two arrive, the third exits, and the two go on. *)
Definition demo_barriers : barrier_set_t := mkBarriers 8 32 [(0, 7)] 7 3.

Lemma demo_barriers_reachable : barriers_reachable 32 8 demo_barriers.
Proof.
  exists (mkBarriers 8 32 [] 0 0). split; [reflexivity|].
  eapply rtc_l.
  { apply (bar_allocate _ 0 7); [simpl; lia|reflexivity| |done|reflexivity].
    intros i Hi. destruct (Z.ltb_spec i 0); [by rewrite Z.testbit_neg_r in Hi|].
    destruct (Z.ltb_spec i 3); [unfold WARP_PER_CTA_MAX; lia|].
    by rewrite (testbit_above 7 3) in Hi by lia. }
  eapply rtc_l; [by apply (bar_reach _ 0 7 0)|].
  eapply rtc_l; [by apply (bar_reach _ 0 7 1)|].
  apply rtc_refl.
Qed.

Lemma barrier_releases_together_witness :
  exists b', warp_exit demo_barriers 2 = Ok b' /\ waiting b' 0 = false /\ waiting b' 1 = false.
Proof.
  destruct (barrier_releases_together 32 8 demo_barriers demo_barriers_reachable) as (_ & _ & Hx).
  destruct (Hx 0 7 2) as (b' & E & _ & _ & Hall); [reflexivity|reflexivity|reflexivity|reflexivity|].
  exists b'. split; [exact E|].
  assert (forall j, Z.testbit 7 j = true -> active demo_barriers j = true -> j = 2 \/ waiting demo_barriers j = true) as H.
  { intros j Hj _. destruct (Z.ltb_spec j 0); [by rewrite Z.testbit_neg_r in Hj|].
    destruct (Z.ltb_spec j 3); [|by rewrite (testbit_above 7 3) in Hj by lia].
    assert (j = 0 \/ j = 1 \/ j = 2) as [->|[->| ->]] by lia; [right|right|left]; reflexivity. }
  rewrite !(Hall H). split; reflexivity.
Defined.

(** [available_for_fetch] tells of a running warp that it waits. *)
Example available_while_waiting :
  available_for_fetch demo_barriers 0 = Ok true /\ available_for_fetch demo_barriers 2 = Ok false.
Proof. split; reflexivity. Qed.

(** A warp that is in no block cannot exit: the search runs off the end. *)
Example exit_outside_every_block : warp_exit (mkBarriers 8 32 [] 0 0) 2 = Err BadAccess.
Proof. reflexivity. Qed.
