(* ===== verification/Coalesce.v ===== *)
(** * Memory accesses of a warp

    [warp_inst_t] of [abstract_hardware_model.{h,cc}]: how one memory instruction of
    a warp becomes accesses to memory.  Shared memory costs one cycle for each
    round of bank conflicts; constant and texture accesses are one per cache line;
    global and local accesses are coalesced into segments by the rules of compute
    capability 1.3 ([memory_coalescing_arch_13], for atomics with one transaction
    for each round of overlapping bytes), and each transaction is cut down to the
    32 or 64 bytes that are used. *)

From S2P Require Import Prelude Bitset OrdMap SimtStack.

Inductive memory_space_kind :=
  | undefined_space | reg_space | local_space | shared_space | param_space_unclassified
  | param_space_kernel | param_space_local | const_space | tex_space | surf_space
  | global_space | generic_space | instruction_space.
#[export] Instance memory_space_kind_eq_dec : EqDecision memory_space_kind.
Proof. solve_decision. Defined.

Inductive mem_access_type :=
  | GLOBAL_ACC_R | LOCAL_ACC_R | CONST_ACC_R | TEXTURE_ACC_R | GLOBAL_ACC_W | LOCAL_ACC_W
  | L1_WRBK_ACC | L2_WRBK_ACC | INST_ACC_R | L2_WR_ALLOC_R | MEM_FENCE | RUBY_DRAM_R | RUBY_DRAM_W
  | NUM_MEM_ACCESS_TYPE.
#[export] Instance mem_access_type_eq_dec : EqDecision mem_access_type.
Proof. solve_decision. Defined.

Inductive memory_op_t := no_memory_op | memory_load | memory_store.
#[export] Instance memory_op_eq_dec : EqDecision memory_op_t.
Proof. solve_decision. Defined.

Definition MAX_MEMORY_ACCESS_SIZE : Z := 128.
Definition MAX_ACCESSES_PER_INSN_PER_THREAD : Z := 8.

(** [mem_access_t] without its serial number. *)
Record mem_access_t := mkAccess {
  a_type : mem_access_type;
  a_addr : Z;
  a_req_size : Z;
  a_write : bool;
  a_warp_mask : Z;
  a_byte_mask : Z;
}.
(** The constructor takes the address as an [address_type]. *)
Definition mem_access_new (type : mem_access_type) (address size : Z) (wr : bool)
    (active_mask byte_mask : Z) : mem_access_t :=
  mkAccess type (u32 address) size wr active_mask byte_mask.

Record core_config := mkCoreConfig {
  warp_size : Z;
  gpgpu_coalesce_arch : Z;
  shmem_limited_broadcast : bool;
  num_shmem_bank : Z;
  mem_warp_parts : Z;
  gpgpu_cache_texl1_linesize : Z;
  gpgpu_cache_constl1_linesize : Z;
}.
Definition WORD_SIZE : Z := 4.
Definition shmem_bank_func (c : core_config) (addr : Z) : Z := (u32 addr / WORD_SIZE) mod num_shmem_bank c.

Record warp_inst_t := mkWarpInst {
  op : uarch_op_t;
  memory_op : memory_op_t;
  space : memory_space_kind;
  data_size : Z;
  m_empty : bool;
  m_isatomic : bool;
  m_warp_active_mask : Z;
  m_per_scalar_thread_valid : bool;
  m_per_scalar_thread : list (list Z);  (** [memreqaddr] of each lane *)
  m_mem_accesses_created : bool;
  m_accessq : list mem_access_t;
  cycles : Z;
}.

Definition is_load (i : warp_inst_t) : bool :=
  bool_decide (op i = LOAD_OP) || bool_decide (memory_op i = memory_load).
Definition is_store (i : warp_inst_t) : bool :=
  bool_decide (op i = STORE_OP) || bool_decide (memory_op i = memory_store).
Definition active (i : warp_inst_t) (lane : Z) : outcome bool :=
  btest MAX_WARP_SIZE (m_warp_active_mask i) lane.
Definition memreqaddr (i : warp_inst_t) (lane access : Z) : outcome Z :=
  l ← aread (m_per_scalar_thread i) lane; aread l access.

(** [clear_active], [set_not_active] and [dispatch_delay]. *)
Definition with_mask (i : warp_inst_t) (m : Z) : warp_inst_t :=
  mkWarpInst (op i) (memory_op i) (space i) (data_size i) (m_empty i) (m_isatomic i) m
    (m_per_scalar_thread_valid i) (m_per_scalar_thread i) (m_mem_accesses_created i) (m_accessq i) (cycles i).
Definition with_cycles (i : warp_inst_t) (n : Z) : warp_inst_t :=
  mkWarpInst (op i) (memory_op i) (space i) (data_size i) (m_empty i) (m_isatomic i) (m_warp_active_mask i)
    (m_per_scalar_thread_valid i) (m_per_scalar_thread i) (m_mem_accesses_created i) (m_accessq i) n.
Definition with_accessq (i : warp_inst_t) (q : list mem_access_t) : warp_inst_t :=
  mkWarpInst (op i) (memory_op i) (space i) (data_size i) (m_empty i) (m_isatomic i) (m_warp_active_mask i)
    (m_per_scalar_thread_valid i) (m_per_scalar_thread i) (m_mem_accesses_created i) q (cycles i).
Definition with_created (i : warp_inst_t) : warp_inst_t :=
  mkWarpInst (op i) (memory_op i) (space i) (data_size i) (m_empty i) (m_isatomic i) (m_warp_active_mask i)
    (m_per_scalar_thread_valid i) (m_per_scalar_thread i) true (m_accessq i) (cycles i).

Definition clear_active (i : warp_inst_t) (inactive : Z) : outcome warp_inst_t :=
  cassert (Z.land (m_warp_active_mask i) inactive =? inactive);;
  mret (with_mask i (Z.ldiff (m_warp_active_mask i) inactive)).
Definition set_not_active (i : warp_inst_t) (lane_id : Z) : outcome warp_inst_t :=
  m ← breset MAX_WARP_SIZE (m_warp_active_mask i) lane_id; mret (with_mask i m).
Definition dispatch_delay (i : warp_inst_t) : bool * warp_inst_t :=
  let n := if 0 <? cycles i then cycles i - 1 else cycles i in (0 <? n, with_cycles i n).

Definition line_size_based_tag_func (address line_size : Z) : Z :=
  u32 (Z.land address (u64 (Z.lnot (line_size - 1)))).

Record transaction_info := mkTransaction { chunks : Z; bytes : Z; t_active : Z }.
Definition transaction_new : transaction_info := mkTransaction 0 0 0.

(** [for (i=start_bit; i<=end_bit; i++) if (bytes.test(i)) return true] *)
Fixpoint test_bytes_from (n : nat) (b i : Z) : outcome bool :=
  match n with
  | O => mret false
  | S n' => x ← btest MAX_MEMORY_ACCESS_SIZE b i; if x : bool then mret true else test_bytes_from n' b (i + 1)
  end.
Definition test_bytes (t : transaction_info) (start_bit end_bit : Z) : outcome bool :=
  test_bytes_from (Z.to_nat (end_bit - start_bit + 1)) (bytes t) start_bit.

Definition segment_size (data_size : Z) : Z :=
  if data_size =? 1 then 32 else if data_size =? 2 then 64
  else if (data_size =? 4) || (data_size =? 8) || (data_size =? 16) then 128 else 0.

(** [memory_coalescing_arch_13_reduce_and_send]: the part of the segment at [addr]
    that the chunks [q] need. *)
Definition reduce (q addr segment_size : Z) : outcome (Z * Z) :=
  cassert (Z.land addr (u32 (segment_size - 1)) =? 0);;
  cassert (any q);;
  let t i := Z.testbit q i in
  '(addr, size, h0, h1) ←
    (if segment_size =? 128 then
       let lower := t 0 || t 1 in
       let upper := t 2 || t 3 in
       if lower && negb upper then mret (addr, 64, t 0, t 1)
       else if negb lower && upper then mret (addr + 64, 64, t 2, t 3)
       else cassert (lower && upper);; mret (addr, segment_size, false, false)
     else if segment_size =? 64 then
       if addr mod 128 =? 0 then mret (addr, segment_size, t 0, t 1)
       else cassert (addr mod 128 =? 64);; mret (addr, segment_size, t 2, t 3)
     else mret (addr, segment_size, false, false));
  if size =? 64 then
    if h0 && negb h1 then mret (addr, 32)
    else if negb h0 && h1 then mret (addr + 32, 32)
    else cassert (h0 && h1);; mret (addr, size)
  else mret (addr, size).

Definition reduce_and_send (is_write : bool) (type : mem_access_type) (info : transaction_info)
    (addr segment_size : Z) (q : list mem_access_t) : outcome (list mem_access_t) :=
  '(a, size) ← reduce (chunks info) addr segment_size;
  mret (q ++ [mem_access_new type a size is_write (t_active info) (bytes info)]).

Section coalescing.
Context (c : core_config) (i : warp_inst_t) (is_write : bool) (type : mem_access_type).

(** The bytes of one access of one lane go into a transaction. *)
Definition set_bytes (idx n b : Z) : outcome Z :=
  for_range 0 n (fun k b => bset MAX_MEMORY_ACCESS_SIZE b (idx + k)) b.
Definition record_access (info : transaction_info) (thread addr size : Z) : outcome transaction_info :=
  ch ← bset 4 (chunks info) (Z.land addr 127 / 32);
  act ← bset MAX_WARP_SIZE (t_active info) thread;
  b ← set_bytes (Z.land addr 127) size (bytes info);
  mret (mkTransaction ch b act).

(** The same for an atomic: each byte has to be free. *)
Definition set_free_bytes (idx n b : Z) : outcome Z :=
  for_range 0 n (fun k b => x ← btest MAX_MEMORY_ACCESS_SIZE b (idx + k);
                            cassert (negb x);; bset MAX_MEMORY_ACCESS_SIZE b (idx + k)) b.
Definition record_atomic (info : transaction_info) (thread addr size : Z) : outcome transaction_info :=
  ch ← bset 4 (chunks info) (Z.land addr 127 / 32);
  act ← bset MAX_WARP_SIZE (t_active info) thread;
  b ← set_free_bytes (Z.land addr 127) size (bytes info);
  mret (mkTransaction ch b act).

Definition is_local_space : bool :=
  bool_decide (space i = local_space) || bool_decide (space i = param_space_local).
(** [data_size_coales] and [num_accesses] *)
Definition access_size : Z := if is_local_space && (4 <=? data_size i) then 4 else data_size i.
Definition num_accesses : Z := if is_local_space && (4 <=? data_size i) then data_size i / 4 else 1.

(** Access number [access] of lane [thread]. *)
Definition arch_13_access (seg thread access : Z) (m : list (Z * transaction_info)) :
    outcome (list (Z * transaction_info)) :=
  addr ← memreqaddr i thread access;
  let block := line_size_based_tag_func addr seg in
  cassert (block =? line_size_based_tag_func (addr + access_size - 1) seg);;
  info ← record_access (default transaction_new (ofind m block)) thread addr access_size;
  mret (upsert m block transaction_new (fun _ => info)).

Definition arch_13_thread (seg thread : Z) (m : list (Z * transaction_info)) :
    outcome (list (Z * transaction_info)) :=
  act ← active i thread;
  if act : bool then
    cassert (num_accesses <=? MAX_ACCESSES_PER_INSN_PER_THREAD);;
    for_range 0 num_accesses (arch_13_access seg thread) m
  else mret m.

(** Step 2: each transaction in the order of its address. *)
Fixpoint send_all (seg : Z) (m : list (Z * transaction_info)) (q : list mem_access_t) :
    outcome (list mem_access_t) :=
  match m with
  | [] => mret q
  | (addr, info) :: m' => q' ← reduce_and_send is_write type info addr seg q; send_all seg m' q'
  end.

Definition arch_13_subwarp (seg subwarp_size subwarp : Z) (q : list mem_access_t) :
    outcome (list mem_access_t) :=
  m ← for_range (subwarp * subwarp_size) (subwarp_size * (subwarp + 1)) (arch_13_thread seg) [];
  send_all seg m q.

Definition memory_coalescing_arch_13 : outcome (list mem_access_t) :=
  let subwarp_size := warp_size c / mem_warp_parts c in
  for_range 0 (mem_warp_parts c) (arch_13_subwarp (segment_size (data_size i)) subwarp_size) (m_accessq i).

(** Atomics: the first transaction of the block whose bytes are free takes the lane. *)
Fixpoint place_atomic (l : list transaction_info) (thread addr : Z) : outcome (list transaction_info) :=
  match l with
  | [] => t ← record_atomic transaction_new thread addr (data_size i); mret [t]
  | t :: l' =>
      let idx := Z.land addr 127 in
      busy ← test_bytes t idx (idx + data_size i - 1);
      if negb busy then t' ← record_atomic t thread addr (data_size i); mret (t' :: l')
      else r ← place_atomic l' thread addr; mret (t :: r)
  end.

Definition atomic_thread (seg thread : Z) (m : list (Z * list transaction_info)) :
    outcome (list (Z * list transaction_info)) :=
  act ← active i thread;
  if act : bool then
    addr ← memreqaddr i thread 0;
    let block := line_size_based_tag_func addr seg in
    cassert (block =? line_size_based_tag_func (addr + data_size i - 1) seg);;
    l ← place_atomic (default [] (ofind m block)) thread addr;
    mret (upsert m block [] (fun _ => l))
  else mret m.

Definition send_lists (seg : Z) (m : list (Z * list transaction_info)) (q : list mem_access_t) :
    outcome (list mem_access_t) :=
  send_all seg (flat_map (fun p : Z * list transaction_info => map (pair p.1) p.2) m) q.

Definition atomic_subwarp (seg subwarp_size subwarp : Z) (q : list mem_access_t) :
    outcome (list mem_access_t) :=
  m ← for_range (subwarp * subwarp_size) (subwarp_size * (subwarp + 1)) (atomic_thread seg) [];
  send_lists seg m q.

Definition memory_coalescing_arch_13_atomic : outcome (list mem_access_t) :=
  cassert (bool_decide (space i = global_space));;
  let subwarp_size := warp_size c / 2 in
  for_range 0 2 (atomic_subwarp (segment_size (data_size i)) subwarp_size) (m_accessq i).

End coalescing.

(** * Shared memory *)

Section shared.
Context (c : core_config) (i : warp_inst_t).

(** bank -> word address -> access count *)
Abbreviation bank_map := (list (Z * list (Z * Z))).

Definition bank_thread (thread : Z) (m : bank_map) : outcome bank_map :=
  act ← active i thread;
  if act : bool then
    addr ← memreqaddr i thread 0;
    let bank := shmem_bank_func c addr in
    let word := line_size_based_tag_func addr WORD_SIZE in
    mret (upsert m bank [] (fun words => upsert words word 0 (fun n => n + 1)))
  else mret m.

(** The first word that several lanes access, with its bank. *)
Definition broadcast (m : bank_map) : option (Z * Z) :=
  head (flat_map (fun b : Z * list (Z * Z) =>
                    map (fun w : Z * Z => (b.1, w.1)) (filter (fun w : Z * Z => 1 < w.2) b.2)) m).

Definition sum_counts (words : list (Z * Z)) : Z := foldr (fun w n => w.2 + n) 0 words.

(** The accesses of a bank when one broadcast counts once. *)
Definition bank_accesses (bc : option (Z * Z)) (b : Z * list (Z * Z)) : outcome Z :=
  let total := sum_counts b.2 in
  match bc with
  | Some (bank, word) =>
      if bank =? b.1 then
        match ofind b.2 word with
        | Some n => cassert (1 <? n);; cassert (n - 1 <=? total);; mret (total - (n - 1))
        | None => mret total
        end
      else mret total
  | None => mret total
  end.

Fixpoint max_accesses (f : Z * list (Z * Z) → outcome Z) (m : bank_map) (best : Z) : outcome Z :=
  match m with
  | [] => mret best
  | b :: m' => n ← f b; max_accesses f m' (if best <? n then n else best)
  end.

Definition subwarp_conflicts (m : bank_map) : outcome Z :=
  if shmem_limited_broadcast c then max_accesses (bank_accesses (broadcast m)) m 0
  else max_accesses (fun b => mret (zlen b.2)) m 0.

Definition shared_subwarp (subwarp_size subwarp total : Z) : outcome Z :=
  m ← for_range (subwarp * subwarp_size) ((subwarp + 1) * subwarp_size) bank_thread [];
  n ← subwarp_conflicts m;
  mret (total + n).

Definition shared_cycles : outcome Z :=
  let subwarp_size := warp_size c / mem_warp_parts c in
  total ← for_range 0 (mem_warp_parts c) (shared_subwarp subwarp_size) 0;
  cassert ((0 <? total) && (total <=? warp_size c));;
  mret total.

(** * One access for each line: constants and textures *)

Definition line_thread (cache_block_size thread : Z) (st : list (Z * Z) * Z) : outcome (list (Z * Z) * Z) :=
  let '(m, byte_mask) := st in
  act ← active i thread;
  if act : bool then
    addr ← memreqaddr i thread 0;
    let block_address := line_size_based_tag_func addr cache_block_size in
    mask ← bset MAX_WARP_SIZE (default 0 (ofind m block_address)) thread;
    b ← set_bytes (u32 (addr - block_address)) (data_size i) byte_mask;
    mret (upsert m block_address 0 (fun _ => mask), b)
  else mret st.

Definition line_accesses (is_write : bool) (type : mem_access_type) (cache_block_size : Z) :
    outcome (list mem_access_t) :=
  if cache_block_size =? 0 then mret (m_accessq i) else
  cassert (bool_decide (m_accessq i = []));;
  '(m, byte_mask) ← for_range 0 (warp_size c) (line_thread cache_block_size) ([], 0);
  mret (map (fun p : Z * Z => mem_access_new type p.1 cache_block_size is_write p.2 byte_mask) m).

(** * The whole instruction *)

Definition access_type_of (is_write : bool) : outcome mem_access_type :=
  match space i with
  | const_space | param_space_kernel => Ok CONST_ACC_R
  | tex_space => Ok TEXTURE_ACC_R
  | global_space => Ok (if is_write then GLOBAL_ACC_W else GLOBAL_ACC_R)
  | local_space | param_space_local => Ok (if is_write then LOCAL_ACC_W else LOCAL_ACC_R)
  | shared_space => Ok GLOBAL_ACC_R  (** left unset, and not used *)
  | _ => Err AssertFailed
  end.

Definition generate_mem_accesses : outcome warp_inst_t :=
  if m_empty i || bool_decide (op i = MEMORY_BARRIER_OP) || m_mem_accesses_created i then mret i
  else if negb (bool_decide (op i = LOAD_OP) || bool_decide (op i = STORE_OP)) then mret i
  else if bcount MAX_WARP_SIZE (m_warp_active_mask i) =? 0 then mret i
  else
    cassert (is_load i || is_store i);;
    cassert (m_per_scalar_thread_valid i);;
    let is_write := is_store i in
    access_type ← access_type_of is_write;
    i' ← match space i with
         | shared_space => n ← shared_cycles; mret (with_cycles i n)
         | tex_space =>
             q ← line_accesses is_write access_type (gpgpu_cache_texl1_linesize c); mret (with_accessq i q)
         | const_space | param_space_kernel =>
             q ← line_accesses is_write access_type (gpgpu_cache_constl1_linesize c); mret (with_accessq i q)
         | global_space | local_space | param_space_local =>
             if gpgpu_coalesce_arch c =? 13 then
               q ← (if m_isatomic i then memory_coalescing_arch_13_atomic c i is_write access_type
                    else memory_coalescing_arch_13 c i is_write access_type);
               mret (with_accessq i q)
             else Err ErrorMsg
         | _ => Err ErrorMsg
         end;
    mret (with_created i').
End shared.

(** * Segments *)

Definition is_segment (seg : Z) : Prop := seg = 32 \/ seg = 64 \/ seg = 128.

Lemma segment_pow seg : is_segment seg -> exists k, seg = 2 ^ k /\ 5 <= k <= 7.
Proof. intros [->|[->| ->]]; [exists 5|exists 6|exists 7]; lia. Qed.

Lemma tag_pow a k : 0 <= a < 2 ^ 32 -> 0 <= k < 64 -> line_size_based_tag_func a (2 ^ k) = a - a mod 2 ^ k.
Proof.
  intros Ha Hk. unfold line_size_based_tag_func.
  assert (E : Z.land a (u64 (Z.lnot (2 ^ k - 1))) = a - a mod 2 ^ k).
  { transitivity (Z.ldiff a (Z.ones k)).
    - apply Z.bits_inj'. intros n Hn. rewrite Z.land_spec, Z.ldiff_spec, uwrap_testbit by lia.
      rewrite Z.sub_1_r, <- Z.ones_equiv, Z.lnot_spec by lia. case_bool_decide; [done|].
      rewrite (testbit_above a 32 n) by lia. done.
    - rewrite Z.ldiff_ones_r, Z.shiftl_mul_pow2, Z.shiftr_div_pow2 by lia.
      pose proof (Z.div_mod a (2 ^ k)). lia. }
  rewrite E. apply uwrap_small. assert (0 < 2 ^ k) by lia.
  pose proof (Z.mod_pos_bound a (2 ^ k)). pose proof (Z.mod_le a (2 ^ k)). lia.
Qed.

Lemma tag_val a seg : 0 <= a < 2 ^ 32 -> is_segment seg -> line_size_based_tag_func a seg = a - a mod seg.
Proof. intros Ha (k & -> & Hk)%segment_pow. apply tag_pow; lia. Qed.

(** The part of a segment that a set of chunks needs: aligned, inside the segment,
    around every chunk, with both halves in use unless it is the smallest. *)
Definition fits (q addr seg a size : Z) : Prop :=
  is_segment size /\ a mod size = 0 /\ addr <= a /\ a + size <= addr + seg /\
  let base := addr - addr mod 128 in
  (forall k, Z.testbit q k = true -> a <= base + 32 * k /\ base + 32 * k + 32 <= a + size) /\
  (32 < size -> exists k k', Z.testbit q k = true /\ Z.testbit q k' = true /\
     base + 32 * k + 32 <= a + size / 2 <= base + 32 * k').

Lemma reduce_spec q addr seg :
  is_segment seg -> 0 <= addr -> addr mod seg = 0 -> within 4 q -> any q = true ->
  (forall k, Z.testbit q k = true -> addr mod 128 <= 32 * k < addr mod 128 + seg) ->
  exists a size, reduce q addr seg = Ok (a, size) /\ fits q addr seg a size.
Proof.
  intros Hseg Ha Hm Hw Hany Hin.
  assert (Hk : forall k, Z.testbit q k = true -> k = 0 \/ k = 1 \/ k = 2 \/ k = 3) by (intros k Hk%Hw; lia).
  assert (Hone : Z.testbit q 0 || Z.testbit q 1 || Z.testbit q 2 || Z.testbit q 3 = true).
  { destruct (any_elem 4 q Hw Hany) as (k & _ & Hq). destruct (Hk k Hq) as [->|[->|[->| ->]]]; rewrite Hq;
      by rewrite ?orb_true_r. }
  assert (Eand : (Z.land addr (u32 (seg - 1)) =? 0) = true).
  { apply Z.eqb_eq. destruct Hseg as [->|[->| ->]];
      [change (u32 (32 - 1)) with (Z.ones 5)|change (u32 (64 - 1)) with (Z.ones 6)|
       change (u32 (128 - 1)) with (Z.ones 7)]; rewrite Z.land_ones by lia; done. }
  unfold reduce. rewrite Eand, Hany, !(cassert_true true), !bind_of_ok by done.
  assert (H0 : Z.testbit q 0 = true -> addr mod 128 <= 32 * 0 < addr mod 128 + seg) by apply Hin.
  assert (H1 : Z.testbit q 1 = true -> addr mod 128 <= 32 * 1 < addr mod 128 + seg) by apply Hin.
  assert (H2 : Z.testbit q 2 = true -> addr mod 128 <= 32 * 2 < addr mod 128 + seg) by apply Hin.
  assert (H3 : Z.testbit q 3 = true -> addr mod 128 <= 32 * 3 < addr mod 128 + seg) by apply Hin.
  assert (Hpick : forall a size, is_segment size -> a mod size = 0 -> addr <= a -> a + size <= addr + seg ->
    (forall k, k = 0 \/ k = 1 \/ k = 2 \/ k = 3 -> Z.testbit q k = true ->
       a <= addr - addr mod 128 + 32 * k /\ addr - addr mod 128 + 32 * k + 32 <= a + size) ->
    (32 < size -> exists k k', Z.testbit q k = true /\ Z.testbit q k' = true /\
       addr - addr mod 128 + 32 * k + 32 <= a + size / 2 <= addr - addr mod 128 + 32 * k') ->
    exists a' size', Ok (a, size) = Ok (a', size') /\ fits q addr seg a' size').
  { intros a size ? ? ? ? ? ?. exists a, size. split; [done|]. split_and!; try done. auto. }
  unfold is_segment in Hpick.
  cbv zeta beta. destruct Hseg as [->|[->| ->]];
    destruct (Z.testbit q 0) eqn:T0, (Z.testbit q 1) eqn:T1, (Z.testbit q 2) eqn:T2, (Z.testbit q 3) eqn:T3;
    try discriminate Hone; simpl.
  all: repeat match goal with H : true = true -> _ |- _ => specialize (H eq_refl) | H : false = true -> _ |- _ => clear H end.
  all: try (destruct (Z.eqb_spec (addr mod 128) 0); simpl; [|destruct (Z.eqb_spec (addr mod 128) 64); simpl]).
  all: try lia.
  all: apply Hpick; [tauto|lia|lia|lia|intros k [->|[->|[->| ->]]] ?; congruence || lia|intros ?].
  all: try lia.
  all: first [solve [exists 0, 1; split_and!; done || lia]|solve [exists 2, 3; split_and!; done || lia]
    |solve [exists 0, 2; split_and!; done || lia]|solve [exists 0, 3; split_and!; done || lia]
    |solve [exists 1, 2; split_and!; done || lia]|solve [exists 1, 3; split_and!; done || lia]].
Qed.

(** * Transactions *)

Lemma set_bytes_spec idx n b : 0 <= idx -> 0 <= n -> idx + n <= MAX_MEMORY_ACCESS_SIZE ->
  exists b', set_bytes idx n b = Ok b' /\
    forall j, Z.testbit b' j = ((idx <=? j) && (j <? idx + n)) || Z.testbit b j.
Proof.
  intros Hi Hn Hw. apply (for_range_inv (fun k b' =>
    forall j, Z.testbit b' j = ((idx <=? j) && (j <? idx + k)) || Z.testbit b j)); [lia| |].
  - intros j. destruct (Z.leb_spec idx j), (Z.ltb_spec j (idx + 0)); done || lia.
  - intros k b' Hk Hb. rewrite bset_in by lia. eexists. split; [reflexivity|]. intros j.
    rewrite testbit_setbit, Hb by lia.
    destruct (Z.eqb_spec (idx + k) j), (Z.leb_spec idx j), (Z.ltb_spec j (idx + k)), (Z.ltb_spec j (idx + (k + 1)));
      simpl; done || lia.
Qed.

(** The bytes of an access lie in one chunk. *)
Definition in_chunk (a size : Z) : Prop := 0 <= a /\ 0 < size /\ a mod 32 + size <= 32.

Lemma land_127 a : Z.land a 127 = a mod 128.
Proof. change 127 with (Z.ones 7). apply Z.land_ones. lia. Qed.

Definition touches (a size j : Z) : bool := (a mod 128 <=? j) && (j <? a mod 128 + size).

Lemma record_access_spec info t a size :
  0 <= t < MAX_WARP_SIZE -> in_chunk a size ->
  exists info', record_access info t a size = Ok info' /\
    (forall k, Z.testbit (chunks info') k = (a mod 128 / 32 =? k) || Z.testbit (chunks info) k) /\
    (forall j, Z.testbit (t_active info') j = (t =? j) || Z.testbit (t_active info) j) /\
    (forall j, Z.testbit (bytes info') j = touches a size j || Z.testbit (bytes info) j).
Proof.
  intros Ht (Ha & Hs & Hc). unfold record_access. rewrite land_127.
  rewrite !bset_in, !bind_of_ok by lia.
  destruct (set_bytes_spec (a mod 128) size (bytes info)) as (b & -> & Hb);
    [lia|lia|unfold MAX_MEMORY_ACCESS_SIZE; lia|].
  rewrite bind_of_ok. eexists. split; [reflexivity|]. simpl.
  split_and!; [intros; apply testbit_setbit; lia..|done].
Qed.

(** * Coalescing *)

Section covering.
Context (seg size : Z) (Hseg : is_segment seg) (Hsize : 0 < size).

(** [D t a]: lane [t] has accessed [a]; every access lies in a chunk and its segment. *)
Implicit Types (D : Z → Z → Prop) (m : list (Z * transaction_info)).
Definition tag a : Z := a - a mod seg.

Record covers D m : Prop := {
  cv_ordered : ordered m;
  cv_base : forall blk info, ofind m blk = Some info -> 0 <= blk /\ blk mod seg = 0;
  cv_chunks : forall blk info k, ofind m blk = Some info ->
    Z.testbit (chunks info) k = true <-> exists t a, D t a /\ tag a = blk /\ a mod 128 / 32 = k;
  cv_active : forall blk info t, ofind m blk = Some info ->
    Z.testbit (t_active info) t = true <-> exists a, D t a /\ tag a = blk;
  cv_bytes : forall blk info j, ofind m blk = Some info ->
    Z.testbit (bytes info) j = true <-> exists t a, D t a /\ tag a = blk /\ touches a size j = true;
  cv_some : forall blk, is_Some (ofind m blk) <-> exists t a, D t a /\ tag a = blk;
}.

Lemma covers_nil : covers (fun _ _ => False) [].
Proof. split; try done; [constructor|]. intros blk. split; [by intros [? ?]|]. by intros (? & ? & ? & _). Qed.

Lemma covers_ext D D' m : (forall t a, D t a <-> D' t a) -> covers D m -> covers D' m.
Proof.
  intros E [H1 H2 H3 H4 H5 H6]. split; [done|done|..].
  - intros blk info k Hi. rewrite (H3 _ _ _ Hi). setoid_rewrite E. done.
  - intros blk info t Hi. rewrite (H4 _ _ _ Hi). setoid_rewrite E. done.
  - intros blk info j Hi. rewrite (H5 _ _ _ Hi). setoid_rewrite E. done.
  - intros blk. rewrite H6. setoid_rewrite E. done.
Qed.

Lemma covers_add D m t a info :
  covers D m -> 0 <= t < MAX_WARP_SIZE -> 0 <= a ->
  (forall k, Z.testbit (chunks info) k =
     (a mod 128 / 32 =? k) || Z.testbit (chunks (default transaction_new (ofind m (tag a)))) k) ->
  (forall j, Z.testbit (t_active info) j =
     (t =? j) || Z.testbit (t_active (default transaction_new (ofind m (tag a)))) j) ->
  (forall j, Z.testbit (bytes info) j =
     touches a size j || Z.testbit (bytes (default transaction_new (ofind m (tag a)))) j) ->
  covers (fun t' a' => D t' a' \/ t' = t /\ a' = a) (upsert m (tag a) transaction_new (fun _ => info)).
Proof.
  intros Hm Ht Ha Hch Hac Hby. destruct Hm as [Ho Hb Hck Hak Hbk Hs].
  assert (Hf : forall blk, ofind (upsert m (tag a) transaction_new (fun _ => info)) blk =
    if blk =? tag a then Some info else ofind m blk) by (intros; by apply ofind_upsert).
  assert (Hseg0 : 0 < seg) by (destruct Hseg as [->|[->| ->]]; lia).
  assert (Hnone : ofind m (tag a) = None -> forall t' a', D t' a' -> tag a' <> tag a).
  { intros H t' a' Hd E. destruct (proj2 (Hs (tag a))) as [? ?]; [by exists t', a'|congruence]. }
  split.
  - by apply ordered_upsert.
  - intros blk i. rewrite Hf. destruct (Z.eqb_spec blk (tag a)) as [->|]; [intros _|apply Hb].
    unfold tag. pose proof (Z.mod_le a seg Ha Hseg0). split; [lia|].
    rewrite Zminus_mod_idemp_r, Z.sub_diag. done.
  - intros blk i k. rewrite Hf. destruct (Z.eqb_spec blk (tag a)) as [->|Hne]; [intros [= <-]|intros Hi].
    + rewrite Hch, orb_true_iff, Z.eqb_eq. destruct (ofind m (tag a)) as [i0|] eqn:E; simpl.
      * rewrite (Hck _ _ _ E). naive_solver.
      * rewrite Z.bits_0. specialize (Hnone eq_refl). naive_solver.
    + rewrite (Hck _ _ _ Hi). naive_solver.
  - intros blk i k. rewrite Hf. destruct (Z.eqb_spec blk (tag a)) as [->|Hne]; [intros [= <-]|intros Hi].
    + rewrite Hac, orb_true_iff, Z.eqb_eq. destruct (ofind m (tag a)) as [i0|] eqn:E; simpl.
      * rewrite (Hak _ _ _ E). naive_solver.
      * rewrite Z.bits_0. specialize (Hnone eq_refl). naive_solver.
    + rewrite (Hak _ _ _ Hi). naive_solver.
  - intros blk i k. rewrite Hf. destruct (Z.eqb_spec blk (tag a)) as [->|Hne]; [intros [= <-]|intros Hi].
    + rewrite Hby, orb_true_iff. destruct (ofind m (tag a)) as [i0|] eqn:E; simpl.
      * rewrite (Hbk _ _ _ E). naive_solver.
      * rewrite Z.bits_0. specialize (Hnone eq_refl). naive_solver.
    + rewrite (Hbk _ _ _ Hi). naive_solver.
  - intros blk. rewrite Hf. destruct (Z.eqb_spec blk (tag a)) as [->|Hne].
    + split; [|by eauto]. intros _. exists t, a. auto.
    + rewrite Hs. naive_solver.
Qed.
End covering.

(** A transaction that [reduce_and_send] accepts. *)
Definition sendable (seg : Z) (p : Z * transaction_info) : Prop :=
  0 <= p.1 /\ p.1 mod seg = 0 /\ p.1 + seg <= 2 ^ 32 /\ within 4 (chunks p.2) /\ any (chunks p.2) = true /\
  forall k, Z.testbit (chunks p.2) k = true -> p.1 mod 128 <= 32 * k < p.1 mod 128 + seg.

(** The access it becomes. *)
Definition sent (wr : bool) (type : mem_access_type) (seg : Z) (p : Z * transaction_info) (acc : mem_access_t) : Prop :=
  a_type acc = type /\ a_write acc = wr /\ a_warp_mask acc = t_active p.2 /\ a_byte_mask acc = bytes p.2 /\
  fits (chunks p.2) p.1 seg (a_addr acc) (a_req_size acc).

Lemma send_all_spec wr type seg m q :
  is_segment seg -> Forall (sendable seg) m ->
  exists new, send_all wr type seg m q = Ok (q ++ new) /\ Forall2 (sent wr type seg) m new.
Proof.
  intros Hseg Hm. revert q. induction Hm as [|[blk info] m (H0 & Hb & Hlim & Hw & Ha & Hk) _ IH]; intros q; simpl.
  - exists []. by rewrite app_nil_r.
  - unfold reduce_and_send. simpl in *. destruct (reduce_spec (chunks info) blk seg) as (a & sz & -> & Hf); try done.
    rewrite !bind_of_ok. destruct (IH (q ++ [mem_access_new type a sz wr (t_active info) (bytes info)])) as (new & E & Hn).
    exists (mem_access_new type a sz wr (t_active info) (bytes info) :: new). rewrite E, <- app_assoc. split; [done|].
    constructor; [|done]. split_and!; try done. simpl. rewrite uwrap_small; [done|].
    destruct Hf as (Hs & _ & H1 & H2 & _). destruct Hs as [->|[->| ->]]; lia.
Qed.

Section arch_13.
Context (c : core_config) (i : warp_inst_t) (is_write : bool) (type : mem_access_type).
Abbreviation seg := (segment_size (data_size i)).
Abbreviation size := (access_size i).

(** Lane [t] accesses [a]. *)
Definition request (t a : Z) : Prop :=
  0 <= t < warp_size c /\ Z.testbit (m_warp_active_mask i) t = true /\
  exists k, 0 <= k < num_accesses i /\ memreqaddr i t k = Ok a.

(** What PTX guarantees of an access: naturally aligned, in 32-bit memory. *)
Record coalescable : Prop := {
  co_size : data_size i = 1 \/ data_size i = 2 \/ data_size i = 4 \/ data_size i = 8 \/ data_size i = 16;
  co_warp : 0 <= warp_size c <= MAX_WARP_SIZE;
  co_parts : 0 < mem_warp_parts c /\ (mem_warp_parts c | warp_size c);
  co_addr : forall t k, 0 <= t < warp_size c -> Z.testbit (m_warp_active_mask i) t = true ->
    0 <= k < num_accesses i -> exists a, memreqaddr i t k = Ok a /\ 0 <= a < 2 ^ 32 /\ a mod size = 0;
}.
Context (Hco : coalescable).

Lemma seg_ok : is_segment seg.
Proof.
  unfold is_segment, segment_size. destruct (co_size Hco) as [->|[->|[->|[->| ->]]]]; simpl; auto.
Qed.

Lemma size_cases : size = 1 \/ size = 2 \/ size = 4 \/ size = 8 \/ size = 16.
Proof. unfold access_size. destruct (_ && _); [tauto|apply (co_size Hco)]. Qed.

Lemma size_in_seg : size <= seg.
Proof.
  unfold access_size, segment_size. destruct (co_size Hco) as [->|[->|[->|[->| ->]]]]; simpl;
    destruct (is_local_space i); simpl; lia.
Qed.

Lemma num_ok : 0 < num_accesses i <= MAX_ACCESSES_PER_INSN_PER_THREAD.
Proof.
  unfold num_accesses, MAX_ACCESSES_PER_INSN_PER_THREAD.
  destruct (co_size Hco) as [->|[->|[->|[->| ->]]]]; destruct (is_local_space i); simpl; lia.
Qed.

(** A request lies in one chunk of one segment. *)
Lemma request_place t a : request t a ->
  in_chunk a size /\ 0 <= a < 2 ^ 32 /\ a mod seg + size <= seg.
Proof.
  intros (Ht & Hm & k & Hk & E). destruct (co_addr Hco t k Ht Hm Hk) as (a' & E' & Ha & Hal).
  rewrite E in E'. injection E' as <-. pose proof size_in_seg as Hle. unfold in_chunk.
  destruct size_cases as [Hs|[Hs|[Hs|[Hs|Hs]]]]; rewrite Hs in *;
    (destruct seg_ok as [Hg|[Hg|Hg]]; rewrite Hg in *; lia).
Qed.

Lemma tag_request t a : request t a ->
  line_size_based_tag_func a seg = tag seg a /\ line_size_based_tag_func (a + size - 1) seg = tag seg a.
Proof.
  intros (_ & Ha & Hs)%request_place. pose proof seg_ok as Hg. pose proof size_cases as Hsz.
  assert (a + size - 1 < 2 ^ 32) by (destruct Hg as [Hg|[Hg|Hg]]; rewrite Hg in *; lia).
  rewrite !tag_val by (done || lia). unfold tag. split; [done|].
  destruct Hg as [Hg|[Hg|Hg]]; rewrite Hg in *; lia.
Qed.

Abbreviation cov D := (covers seg size D).

Lemma access_step D m t k a :
  cov D m -> request t a -> memreqaddr i t k = Ok a -> 0 <= t < MAX_WARP_SIZE ->
  exists m', arch_13_access i seg t k m = Ok m' /\ cov (fun t' a' => D t' a' \/ t' = t /\ a' = a) m'.
Proof.
  intros Hm Hr E Ht. unfold arch_13_access. rewrite E, bind_of_ok.
  destruct (tag_request t a Hr) as [-> ->]. rewrite Z.eqb_refl, (cassert_true true), bind_of_ok by done.
  destruct (request_place t a Hr) as (Hc & Ha & _).
  destruct (record_access_spec (default transaction_new (ofind m (tag seg a))) t a size) as (info & -> & H1 & H2 & H3);
    [done|done|]. rewrite bind_of_ok. eexists. split; [reflexivity|].
  apply covers_add; try done; [apply seg_ok|apply Ha].
Qed.

Lemma thread_step D m t :
  cov D m -> 0 <= t < warp_size c ->
  exists m', arch_13_thread i seg t m = Ok m' /\ cov (fun t' a' => D t' a' \/ t' = t /\ request t' a') m'.
Proof.
  intros Hm Ht. pose proof (co_warp Hco). unfold arch_13_thread, active. rewrite btest_in, bind_of_ok by lia.
  destruct (Z.testbit (m_warp_active_mask i) t) eqn:Hact.
  2:{ exists m. split; [done|]. eapply covers_ext; [|exact Hm]. intros t' a'. simpl. split; [auto|].
      intros [?|[-> (_ & H' & _)]]; [done|congruence]. }
  pose proof num_ok as Hn. rewrite cassert_true, bind_of_ok by (apply Z.leb_le; lia).
  destruct (for_range_inv (fun k m' => cov (fun t' a' => D t' a' \/ t' = t /\
    exists k', 0 <= k' < k /\ memreqaddr i t k' = Ok a') m') 0 (num_accesses i) (arch_13_access i seg t) m)
    as (m' & E & Hm'); [lia| | |].
  - eapply covers_ext; [|exact Hm]. intros t' a'. simpl. split; [auto|]. intros [?|[_ (k & ? & _)]]; [done|lia].
  - intros k m1 Hk H1. destruct (co_addr Hco t k Ht Hact Hk) as (a & Ea & _).
    destruct (access_step _ m1 t k a H1) as (m2 & E2 & H2); [|done|lia|].
    { split_and!; [lia|lia|done|]. by exists k. }
    exists m2. split; [done|]. eapply covers_ext; [|exact H2]. intros t' a'. simpl. split.
    + intros [[?|[-> (k' & ? & ?)]]|[-> ->]]; [by left|right..]; (split; [done|]); [exists k'|exists k]; split; done || lia.
    + intros [?|[-> (k' & Hk' & E')]]; [auto|]. destruct (Z.eq_dec k' k) as [->|].
      * right. split; congruence.
      * left. right. split; [done|]. exists k'. split; [lia|done].
  - exists m'. split; [done|]. eapply covers_ext; [|exact Hm']. intros t' a'. simpl.
    unfold request. naive_solver.
Qed.

Lemma subwarp_step lo hi :
  0 <= lo <= hi -> hi <= warp_size c ->
  exists m, for_range lo hi (arch_13_thread i seg) [] = Ok m /\ cov (fun t a => lo <= t < hi /\ request t a) m.
Proof.
  intros Hl Hh. apply (for_range_inv (fun n m => cov (fun t a => lo <= t < n /\ request t a) m)); [lia| |].
  - eapply covers_ext; [|apply covers_nil]. simpl. intros. split; [done|]. lia.
  - intros t m Ht Hm. destruct (thread_step _ m t Hm) as (m' & E & Hm'); [lia|]. exists m'. split; [done|].
    eapply covers_ext; [|exact Hm']. intros t' a'. simpl. split.
    + intros [[? ?]|[-> ?]]; (split; [lia|done]).
    + intros [H' ?]. destruct (Z.eq_dec t' t); [by right|left]. split; [lia|done].
Qed.

Lemma covers_sendable D m :
  (forall t a, D t a -> request t a) -> cov D m -> Forall (sendable seg) m.
Proof.
  intros Hsub [Ho Hb Hck Hak Hbk Hs]. apply Forall_forall. intros [blk info] Hin.
  apply ofind_elem in Hin; [|done]. destruct (Hb _ _ Hin) as [H0 Hmod]. simpl.
  destruct (proj1 (Hs blk)) as (t & a & Hd & Htag); [by eexists|].
  destruct (request_place t a (Hsub _ _ Hd)) as (_ & Ha & Hfit). unfold tag in Htag.
  assert (Hchunk : forall k, Z.testbit (chunks info) k = true -> 0 <= k < 4 /\
    blk mod 128 <= 32 * k < blk mod 128 + seg).
  { intros k (t' & a' & Hd' & Ht' & Hk)%(Hck _ _ _ Hin). unfold tag in Ht'.
    destruct (request_place t' a' (Hsub _ _ Hd')) as (_ & Ha' & _).
    destruct seg_ok as [Hg|[Hg|Hg]]; rewrite Hg in *; lia. }
  split_and!; simpl; [done|done|..].
  - destruct seg_ok as [Hg|[Hg|Hg]]; rewrite Hg in *; lia.
  - intros k Hk. by apply Hchunk.
  - apply any_intro with (a mod 128 / 32). apply (Hck _ _ _ Hin). by exists t, a.
  - intros k Hk. by apply Hchunk.
Qed.

(** Access [acc] moves all bytes of lane [t]'s access to [a]. *)
Definition serves (acc : mem_access_t) (t a : Z) : Prop :=
  Z.testbit (a_warp_mask acc) t = true /\ a_addr acc <= a /\ a + size <= a_addr acc + a_req_size acc /\
  forall j, touches a size j = true -> Z.testbit (a_byte_mask acc) j = true.

Lemma sent_serves D m blk info acc t a :
  (forall t a, D t a -> request t a) -> cov D m -> ofind m blk = Some info ->
  sent is_write type seg (blk, info) acc -> D t a -> tag seg a = blk -> serves acc t a.
Proof.
  intros Hsub [Ho Hb Hck Hak Hbk Hs] Hi (_ & _ & Em & Ey & Hf) Hd Ht. simpl in *.
  destruct Hf as (Hs' & _ & H1 & H2 & H3 & _). destruct (H3 (a mod 128 / 32)) as [G1 G2].
  { apply (Hck _ _ _ Hi). by exists t, a. }
  destruct (request_place t a (Hsub _ _ Hd)) as ((_ & _ & Hc) & Ha & Hfit). unfold tag in Ht.
  split_and!.
  - rewrite Em. apply (Hak _ _ _ Hi). by exists a.
  - destruct seg_ok as [Hg|[Hg|Hg]]; rewrite Hg in *; lia.
  - destruct seg_ok as [Hg|[Hg|Hg]]; rewrite Hg in *; lia.
  - intros j Hj. rewrite Ey. apply (Hbk _ _ _ Hi). by exists t, a.
Qed.

Abbreviation sub := (warp_size c / mem_warp_parts c).

(** An access of the right size and place, all of whose lanes need it. *)
Definition proper (acc : mem_access_t) : Prop :=
  a_type acc = type /\ a_write acc = is_write /\ is_segment (a_req_size acc) /\
  a_addr acc mod a_req_size acc = 0 /\ any (a_warp_mask acc) = true /\
  forall t, Z.testbit (a_warp_mask acc) t = true -> exists a, request t a /\ serves acc t a.

(** One access serves all lanes of subwarp [s] that access the segment [blk]. *)
Definition merged (new : list mem_access_t) (s blk : Z) : Prop :=
  (exists t a, request t a /\ t / sub = s /\ tag seg a = blk) ->
  exists acc, acc ∈ new /\ forall t a, request t a -> t / sub = s -> tag seg a = blk -> serves acc t a.

Lemma merged_app new new' s blk : merged new s blk \/ merged new' s blk -> merged (new ++ new') s blk.
Proof.
  intros [H|H] Hex; destruct (H Hex) as (acc & Hin & Hall); exists acc; rewrite elem_of_app; auto.
Qed.

Lemma sub_spec : 0 <= sub /\ mem_warp_parts c * sub = warp_size c.
Proof.
  destruct (co_parts Hco) as [Hp [k Hk]]. pose proof (co_warp Hco). rewrite Hk, Z.div_mul by lia. nia.
Qed.

Lemma in_subwarp t s : 0 < sub -> t / sub = s <-> s * sub <= t < sub * (s + 1).
Proof.
  intros Hs. split.
  - intros <-. pose proof (Z.div_mod t sub). pose proof (Z.mod_pos_bound t sub Hs). lia.
  - intros Ht. symmetry. apply Z.div_unique with (t - sub * s); lia.
Qed.

Lemma subwarp_spec s q :
  0 <= s < mem_warp_parts c ->
  exists new, arch_13_subwarp i is_write type seg sub s q = Ok (q ++ new) /\
    Forall proper new /\ forall blk, merged new s blk.
Proof.
  intros Hs. destruct sub_spec as [Hsub0 Hsub]. unfold arch_13_subwarp.
  destruct (subwarp_step (s * sub) (sub * (s + 1))) as (m & -> & Hm); [nia|nia|]. rewrite bind_of_ok.
  set (D := fun t a => s * sub <= t < sub * (s + 1) /\ request t a) in *.
  assert (HD : forall t a, D t a -> request t a) by (intros t a [_ ?]; done).
  destruct (send_all_spec is_write type seg m q seg_ok (covers_sendable D m HD Hm)) as (new & -> & Hn).
  exists new. split; [done|]. split.
  - apply Forall_forall. intros acc Hacc. apply list_elem_of_lookup in Hacc as [n Hacc].
    destruct (Forall2_lookup_r _ _ _ _ _ Hn Hacc) as ([blk info] & Hi & Hsent).
    assert (Hf : ofind m blk = Some info)
      by (apply ofind_elem; [apply (cv_ordered _ _ _ _ Hm)|eapply list_elem_of_lookup_2; done]).
    pose proof Hsent as (Ht & Hw & Em & _ & Hs' & Hmod & _).
    assert (Hlanes : forall t, Z.testbit (a_warp_mask acc) t = true -> exists a, D t a /\ serves acc t a).
    { intros t. rewrite Em. intros (a & Hd & Htag)%(cv_active _ _ _ _ Hm _ _ _ Hf).
      exists a. split; [done|]. by eapply (sent_serves D). }
    split_and!; try done.
    + destruct (proj1 (cv_some _ _ _ _ Hm blk)) as (t & a & Hd & Htag); [by eexists|].
      apply any_intro with t. rewrite Em. apply (cv_active _ _ _ _ Hm _ _ _ Hf). by exists a.
    + intros t Ht'. destruct (Hlanes t Ht') as (a & Hd & ?). exists a. auto.
  - intros blk (t & a & Hr & Hts & Htag). assert (Hpos : 0 < sub) by (destruct Hr; nia).
    assert (Hd : D t a) by (split; [by apply in_subwarp|done]).
    destruct (proj2 (cv_some _ _ _ _ Hm blk)) as [info Hf]; [by exists t, a|].
    pose proof Hf as Hin. apply ofind_elem, list_elem_of_lookup in Hin as [n Hin]; [|apply (cv_ordered _ _ _ _ Hm)].
    destruct (Forall2_lookup_l _ _ _ _ _ Hn Hin) as (acc & Hacc & Hsent).
    exists acc. split; [by eapply list_elem_of_lookup_2|]. intros t' a' Hr' Hts' Htag'.
    eapply (sent_serves D); try done. split; [by apply in_subwarp|done].
Qed.

(** C18: For a lane's data of 1, 2, 4, 8 or 16 bytes at addresses that are multiples of
    that size and below 4 GB, and a warp of at most 32 lanes that the parts divide: the
    accesses generated for a load or store of global or local memory have 32, 64 or 128
    bytes, are aligned to their size, and each lane they name needs them; for each part
    of the warp and each segment there is one access that moves all bytes of all the
    lanes of that part that touch the segment. Without natural alignment, or above 4 GB,
    bytes are lost: examples unaligned_access_loses_bytes and
    address_above_4GB_truncated. *)
Theorem coalescing_serves_every_lane :
  exists new, memory_coalescing_arch_13 c i is_write type = Ok (m_accessq i ++ new) /\
    Forall proper new /\ forall s blk, merged new s blk.
Proof.
  destruct sub_spec as [Hsub0 Hsub]. pose proof (proj1 (co_parts Hco)).
  destruct (for_range_inv (fun n q => exists new, q = m_accessq i ++ new /\ Forall proper new /\
      forall s blk, 0 <= s < n -> merged new s blk) 0 (mem_warp_parts c)
    (arch_13_subwarp i is_write type seg sub) (m_accessq i)) as (q & E & new & -> & Hp & Hm); [lia| | |].
  - exists []. rewrite app_nil_r. split_and!; [done|done|]. lia.
  - intros s q Hs (new & -> & Hp & Hm). destruct (subwarp_spec s (m_accessq i ++ new) Hs) as (new' & E & Hp' & Hm').
    eexists. split; [exact E|]. exists (new ++ new'). rewrite app_assoc. split_and!; [done|by apply Forall_app|].
    intros s' blk Hs'. apply merged_app. destruct (Z.eq_dec s' s) as [->|]; [by right|left]. apply Hm. lia.
  - exists new. split_and!; [done|done|]. intros s blk Hex. apply (Hm s blk); [|done].
    destruct Hex as (t & a & (Ht & _) & <- & _). assert (0 < sub) by nia.
    split; [apply Z.div_pos; lia|]. apply Z.div_lt_upper_bound; lia.
Qed.
End arch_13.

(** * The whole instruction *)

(** [generate_mem_accesses] does its work once: on an instruction it has processed, or
    has nothing to do for, it changes nothing. *)
Theorem generate_mem_accesses_once c i i' :
  generate_mem_accesses c i = Ok i' -> generate_mem_accesses c i' = Ok i'.
Proof.
  intros H. unfold generate_mem_accesses in H at 1.
  destruct (m_empty i || _ || _) eqn:E1; [injection H as <-; unfold generate_mem_accesses; by rewrite E1|].
  destruct (negb (_ || _)) eqn:E2; [injection H as <-; unfold generate_mem_accesses; by rewrite E1, E2|].
  destruct (bcount _ _ =? 0) eqn:E3; [injection H as <-; unfold generate_mem_accesses; by rewrite E1, E2, E3|].
  ok_inv. subst i'. unfold generate_mem_accesses. simpl. by rewrite orb_true_r.
Qed.

(** * Small warps *)

Definition demo_core : core_config := mkCoreConfig 4 13 false 16 2 64 64.
Definition demo_load (addrs : list Z) (atomic : bool) : warp_inst_t :=
  mkWarpInst LOAD_OP no_memory_op global_space 4 false atomic 15 true (map (fun a => [a]) addrs) false [] 0.

(** Two half warps, the second with its lanes in different segments. *)
Definition demo_inst : warp_inst_t := demo_load [1024; 1028; 2048; 4096] false.

Example demo_accesses :
  map (fun a => (a_addr a, a_req_size a, a_warp_mask a)) <$>
    (match generate_mem_accesses demo_core demo_inst with Ok i => Some (m_accessq i) | Err _ => None end) =
  Some [(1024, 32, 3); (2048, 32, 4); (4096, 32, 8)].
Proof. vm_compute. reflexivity. Qed.

Lemma demo_coalescable atomic addrs :
  length addrs = 4%nat -> Forall (fun a => 0 <= a < 2 ^ 32 /\ a mod 4 = 0) addrs ->
  coalescable demo_core (demo_load addrs atomic).
Proof.
  intros Hl Ha. split; simpl.
  - tauto.
  - unfold MAX_WARP_SIZE. lia.
  - split; [lia|]. by exists 2.
  - intros t k Ht _ Hk. assert (num_accesses (demo_load addrs atomic) = 1) as E by reflexivity. rewrite E in Hk.
    replace k with 0 by lia. unfold memreqaddr. simpl.
    destruct (zread_is_some addrs t) as [a Hat]; [unfold zlen; lia|].
    assert (aread (map (fun a => [a]) addrs) t = Ok [a]) as ->.
    { apply aread_ok. rewrite zread_lookup in Hat by lia. rewrite zread_lookup by lia. by rewrite list_lookup_fmap, Hat. }
    exists a. split; [done|]. rewrite Forall_forall in Ha. apply (Ha a), (zread_elem_of addrs t), Hat.
Qed.

Lemma coalescing_serves_every_lane_witness :
  exists new, memory_coalescing_arch_13 demo_core demo_inst false GLOBAL_ACC_R = Ok ([] ++ new) /\
    Forall (proper demo_core demo_inst false GLOBAL_ACC_R) new /\
    forall s blk, merged demo_core demo_inst new s blk.
Proof.
  apply (coalescing_serves_every_lane demo_core demo_inst false GLOBAL_ACC_R).
  apply demo_coalescable; [reflexivity|]. repeat constructor; vm_compute; congruence.
Defined.

Definition demo_generated : warp_inst_t := Eval vm_compute in
  match generate_mem_accesses demo_core demo_inst with Ok i => i | Err _ => demo_inst end.
Lemma generate_mem_accesses_once_witness : generate_mem_accesses demo_core demo_generated = Ok demo_generated.
Proof. apply (generate_mem_accesses_once demo_core demo_inst). vm_compute. reflexivity. Defined.

(** An access that is not aligned to its size may cross a chunk inside its segment; only the
    chunk of its first byte is marked, and the access that is sent misses the rest. *)
Example unaligned_access_loses_bytes :
  map (fun a => (a_addr a, a_req_size a)) <$>
    (match generate_mem_accesses demo_core (with_mask (demo_load [30; 0; 0; 0] false) 1) with
     | Ok i => Some (m_accessq i) | Err _ => None end) = Some [(0, 32)].
Proof. vm_compute. reflexivity. Qed.

(** Block addresses are kept in [unsigned]: an access above 4 GB is sent elsewhere. *)
Example address_above_4GB_truncated :
  map (fun a => (a_addr a, a_req_size a)) <$>
    (match generate_mem_accesses demo_core (with_mask (demo_load [2 ^ 32 + 256; 0; 0; 0] false) 1) with
     | Ok i => Some (m_accessq i) | Err _ => None end) = Some [(256, 32)].
Proof. vm_compute. reflexivity. Qed.
