(* ===== verification/CoalesceAtomic.v ===== *)
(** * Coalescing of atomics

    [memory_coalescing_arch_13_atomic] ([Coalesce]) opens a new transaction for a
    lane whose bytes are already taken by the transactions of its segment: the
    lanes of one access touch different bytes, so the operations it carries do not
    interfere. *)

From S2P Require Import Prelude Bitset OrdMap SimtStack Coalesce.

(** * Atomics *)

Lemma test_bytes_from_spec n b k :
  0 <= k -> k + Z.of_nat n <= MAX_MEMORY_ACCESS_SIZE ->
  exists r, test_bytes_from n b k = Ok r /\
    (r = true <-> exists j, k <= j < k + Z.of_nat n /\ Z.testbit b j = true).
Proof.
  revert k. induction n as [|n IH]; intros k Hk Hw; simpl.
  - exists false. split; [done|]. split; [done|]. intros (j & ? & _). lia.
  - rewrite btest_in, bind_of_ok by lia. destruct (Z.testbit b k) eqn:E.
    + exists true. split; [done|]. split; [|done]. intros _. exists k. split; [lia|done].
    + destruct (IH (k + 1)) as (r & -> & Hr); [lia|lia|]. exists r. split; [done|]. rewrite Hr.
      split; intros (j & Hj & Hb); exists j; (split; [|done]); [lia|].
      destruct (Z.eq_dec j k) as [->|]; [congruence|lia].
Qed.

Lemma set_free_bytes_spec idx n b :
  0 <= idx -> 0 <= n -> idx + n <= MAX_MEMORY_ACCESS_SIZE ->
  (forall j, idx <= j < idx + n -> Z.testbit b j = false) ->
  exists b', set_free_bytes idx n b = Ok b' /\
    forall j, Z.testbit b' j = ((idx <=? j) && (j <? idx + n)) || Z.testbit b j.
Proof.
  intros Hi Hn Hw Hfree. apply (for_range_inv (fun k b' =>
    forall j, Z.testbit b' j = ((idx <=? j) && (j <? idx + k)) || Z.testbit b j)); [lia| |].
  - intros j. destruct (Z.leb_spec idx j), (Z.ltb_spec j (idx + 0)); done || lia.
  - intros k b' Hk Hb. rewrite btest_in, bind_of_ok by lia.
    rewrite Hb, Hfree, (proj2 (Z.ltb_ge _ _)), andb_false_r by lia. simpl.
    rewrite bset_in by lia. eexists. split; [reflexivity|]. intros j. rewrite testbit_setbit, Hb by lia.
    destruct (Z.eqb_spec (idx + k) j), (Z.leb_spec idx j), (Z.ltb_spec j (idx + k)), (Z.ltb_spec j (idx + (k + 1)));
      simpl; done || lia.
Qed.

Section atomics.
Context (c : core_config) (i : warp_inst_t) (is_write : bool) (type : mem_access_type).
Context (Hco : coalescable c i) (Hspace : space i = global_space) (Heven : (2 | warp_size c)).
Abbreviation seg := (segment_size (data_size i)).
Abbreviation size := (data_size i).

Lemma global_size : access_size i = size /\ num_accesses i = 1.
Proof. unfold access_size, num_accesses, is_local_space. by rewrite Hspace. Qed.

Implicit Types (D : Z → Z → Prop) (info : transaction_info) (l : list transaction_info).

Definition disjoint (a a' : Z) : Prop := forall j, touches a size j = true -> touches a' size j = true -> False.

(** A transaction of block [blk]: its lanes are among [D], its masks are theirs, and
    no two of them share a byte. *)
Record atom_ok D blk info : Prop := {
  ao_lane : forall t, Z.testbit (t_active info) t = true -> exists a, D t a /\ tag seg a = blk;
  ao_chunks : forall k, Z.testbit (chunks info) k = true <->
    exists t a, Z.testbit (t_active info) t = true /\ D t a /\ a mod 128 / 32 = k;
  ao_bytes : forall j, Z.testbit (bytes info) j = true <->
    exists t a, Z.testbit (t_active info) t = true /\ D t a /\ touches a size j = true;
  ao_disjoint : forall t t' a a', Z.testbit (t_active info) t = true -> Z.testbit (t_active info) t' = true ->
    D t a -> D t' a' -> t <> t' -> disjoint a a';
  ao_some : any (t_active info) = true;
}.

(** [D] relates a lane to one address at most. *)
Definition functional D : Prop := forall t a a', D t a -> D t a' -> a = a'.
Definition extend D (t a : Z) : Z → Z → Prop := fun t' a' => D t' a' \/ t' = t /\ a' = a.

Lemma atom_ok_extend D blk info t a :
  functional D -> ~ (exists a', D t a') -> atom_ok D blk info -> atom_ok (extend D t a) blk info.
Proof.
  intros Hf Hnew [H1 H2 H3 H4 H5].
  assert (Hlane : forall t' a', Z.testbit (t_active info) t' = true -> extend D t a t' a' <-> D t' a').
  { intros t' a' Ht. unfold extend. destruct (H1 t' Ht) as (x & Hx & _). split; [|auto].
    intros [?|[-> ->]]; [done|]. destruct Hnew. by exists x. }
  split; try done.
  - intros t' Ht. destruct (H1 t' Ht) as (x & Hx & ?). exists x. split; [by left|done].
  - intros k. rewrite H2. split; intros (t' & a' & Ht & Hd & E); exists t', a'; (split_and!; [done|by apply Hlane|done]).
  - intros k. rewrite H3. split; intros (t' & a' & Ht & Hd & E); exists t', a'; (split_and!; [done|by apply Hlane|done]).
  - intros t1 t2 a1 a2 Ht1 Ht2 Hd1 Hd2. rewrite Hlane in Hd1, Hd2 by done. eauto.
Qed.

(** The lane joins a transaction whose bytes are free. *)
Lemma record_atomic_spec D blk info t a :
  functional D -> ~ (exists a', D t a') -> 0 <= t < MAX_WARP_SIZE -> in_chunk a size -> tag seg a = blk ->
  atom_ok D blk info \/ info = transaction_new ->
  (forall j, touches a size j = true -> Z.testbit (bytes info) j = false) ->
  exists info', record_atomic info t a size = Ok info' /\ atom_ok (extend D t a) blk info' /\
    forall j, Z.testbit (t_active info') j = (t =? j) || Z.testbit (t_active info) j.
Proof.
  intros Hf Hnew Ht (Ha & Hs & Hc) Htag Hinfo Hfree. unfold record_atomic. rewrite land_127, !bset_in, !bind_of_ok by lia.
  destruct (set_free_bytes_spec (a mod 128) size (bytes info)) as (b & -> & Hb);
    [lia|lia|unfold MAX_MEMORY_ACCESS_SIZE; lia| |].
  { intros j Hj. apply Hfree. unfold touches.
    by rewrite (proj2 (Z.leb_le _ _)), (proj2 (Z.ltb_lt _ _)) by lia. }
  rewrite bind_of_ok. eexists. split; [reflexivity|].
  assert (Hact : forall j, Z.testbit (Z.setbit (t_active info) t) j = (t =? j) || Z.testbit (t_active info) j)
    by (intros; apply testbit_setbit; lia).
  split; [|exact Hact]. simpl in *.
  assert (Hbyte : forall j, Z.testbit b j = touches a size j || Z.testbit (bytes info) j) by exact Hb.
  (* the lanes of the transaction before *)
  assert (Hold : forall t', Z.testbit (t_active info) t' = true -> t' <> t /\ exists a', D t' a' /\ tag seg a' = blk).
  { intros t' Ht'. destruct Hinfo as [Hi| ->]; [|by rewrite Z.bits_0 in Ht'].
    destruct (ao_lane _ _ _ Hi t' Ht') as (a' & Hd & ?). split; [|by exists a'].
    intros ->. apply Hnew. by exists a'. }
  assert (Hch : forall k, Z.testbit (chunks info) k = true <->
    exists t' a', Z.testbit (t_active info) t' = true /\ D t' a' /\ a' mod 128 / 32 = k).
  { intros k. destruct Hinfo as [Hi| ->]; [apply Hi|]. simpl. setoid_rewrite Z.bits_0. naive_solver. }
  assert (Hby : forall j, Z.testbit (bytes info) j = true <->
    exists t' a', Z.testbit (t_active info) t' = true /\ D t' a' /\ touches a' size j = true).
  { intros k. destruct Hinfo as [Hi| ->]; [apply Hi|]. simpl. setoid_rewrite Z.bits_0. naive_solver. }
  assert (Hext : forall t' a', (t =? t') || Z.testbit (t_active info) t' = true /\ extend D t a t' a' <->
    t' = t /\ a' = a \/ Z.testbit (t_active info) t' = true /\ D t' a').
  { intros t' a'. rewrite orb_true_iff, Z.eqb_eq. unfold extend. split.
    - intros [[<-|Ht'] [Hd|[E ->]]]; auto. destruct Hnew. by exists a'.
    - intros [[-> ->]|[? ?]]; auto. }
  split; simpl.
  - intros t'. rewrite Hact, orb_true_iff, Z.eqb_eq. intros [<-|H]; [exists a; split; [by right|done]|].
    destruct (Hold t' H) as (_ & a' & ? & ?). exists a'. split; [by left|done].
  - intros k. rewrite testbit_setbit, orb_true_iff, Z.eqb_eq, Hch by lia. split.
    + intros [<-|(t' & a' & H1 & H2 & H3)].
      * exists t, a. rewrite Hact, Z.eqb_refl. split_and!; [done|by right|done].
      * exists t', a'. rewrite Hact, H1, orb_true_r. split_and!; [done|by left|done].
    + intros (t' & a' & H1 & H2 & H3). rewrite Hact in H1.
      destruct (proj1 (Hext t' a') (conj H1 H2)) as [[-> ->]|[? ?]]; [by left|right]. by exists t', a'.
  - intros j. rewrite Hbyte, orb_true_iff, Hby. split.
    + intros [H|(t' & a' & H1 & H2 & H3)].
      * exists t, a. rewrite Hact, Z.eqb_refl. split_and!; [done|by right|done].
      * exists t', a'. rewrite Hact, H1, orb_true_r. split_and!; [done|by left|done].
    + intros (t' & a' & H1 & H2 & H3). rewrite Hact in H1.
      destruct (proj1 (Hext t' a') (conj H1 H2)) as [[-> ->]|[? ?]]; [by left|right]. by exists t', a'.
  - assert (Hnew' : forall t' a' j, Z.testbit (t_active info) t' = true -> D t' a' ->
      touches a size j = true -> touches a' size j = true -> False).
    { intros t' a' j H1 H2 H3 H4. specialize (Hfree j H3). apply mask_false in Hfree. apply Hfree.
      apply Hby. by exists t', a'. }
    intros t1 t2 a1 a2. rewrite !Hact. intros H1 H2 G1 G2 Hne.
    destruct (proj1 (Hext t1 a1) (conj H1 G1)) as [[-> ->]|[K1 L1]],
      (proj1 (Hext t2 a2) (conj H2 G2)) as [[-> ->]|[K2 L2]]; try done.
    + intros j ? ?. eauto.
    + intros j ? ?. eauto.
    + destruct Hinfo as [Hi| ->]; [|by rewrite Z.bits_0 in K1]. by eapply (ao_disjoint _ _ _ Hi t1 t2).
  - apply any_intro with t. rewrite Hact. by rewrite Z.eqb_refl.
Qed.

(** Some transaction of the list carries lane [t]. *)
Definition carried l t : Prop := exists info, info ∈ l /\ Z.testbit (t_active info) t = true.

Lemma carried_cons info l t :
  carried (info :: l) t <-> Z.testbit (t_active info) t = true \/ carried l t.
Proof. unfold carried. setoid_rewrite elem_of_cons. naive_solver. Qed.

Lemma place_atomic_spec D blk l t a :
  functional D -> ~ (exists a', D t a') -> 0 <= t < MAX_WARP_SIZE -> in_chunk a size -> tag seg a = blk ->
  Forall (atom_ok D blk) l ->
  exists l', place_atomic i l t a = Ok l' /\ Forall (atom_ok (extend D t a) blk) l' /\
    forall t', carried l' t' <-> t' = t \/ carried l t'.
Proof.
  intros Hf Hnew Ht Hc Htag Hl. induction Hl as [|info l Hi Hl IH]; simpl.
  - destruct (record_atomic_spec D blk transaction_new t a) as (info & -> & Hi & Hact); try done; [by right| |].
    { intros j _. apply Z.bits_0. }
    rewrite bind_of_ok. eexists. split; [reflexivity|]. split; [by constructor|]. intros t'.
    rewrite carried_cons, Hact, Z.bits_0, orb_false_r, Z.eqb_eq. naive_solver.
  - rewrite land_127. unfold test_bytes. destruct Hc as (Ha & Hs & Hc).
    destruct (test_bytes_from_spec (Z.to_nat (a mod 128 + size - 1 - a mod 128 + 1)) (bytes info) (a mod 128))
      as (busy & -> & Hbusy); [lia|unfold MAX_MEMORY_ACCESS_SIZE; lia|].
    rewrite Z2Nat.id in Hbusy by lia. rewrite bind_of_ok. destruct busy; simpl.
    + destruct IH as (l' & -> & Hl' & Hcar). rewrite bind_of_ok. eexists. split; [reflexivity|]. split.
      * constructor; [by apply atom_ok_extend|done].
      * intros t'. rewrite !carried_cons, Hcar. tauto.
    + destruct (record_atomic_spec D blk info t a) as (info' & -> & Hi' & Hact); try done; [by left| |].
      { intros j Hj. apply mask_false. intros Hb. unfold touches in Hj.
        apply andb_true_iff in Hj as [?%Z.leb_le ?%Z.ltb_lt].
        assert (false = true); [|done]. apply Hbusy. exists j. split; [lia|done]. }
      rewrite bind_of_ok. eexists. split; [reflexivity|]. split.
      * constructor; [done|]. eapply Forall_impl; [exact Hl|]. intros x. by apply atom_ok_extend.
      * intros t'. rewrite !carried_cons, Hact, orb_true_iff, Z.eqb_eq. naive_solver.
Qed.

(** The transactions of a subwarp after the lanes of [D]. *)
Record acovers D (m : list (Z * list transaction_info)) : Prop := {
  ac_ordered : ordered m;
  ac_ok : forall blk l, ofind m blk = Some l -> Forall (atom_ok D blk) l;
  ac_all : forall t a, D t a -> exists l, ofind m (tag seg a) = Some l /\ carried l t;
}.

Lemma acovers_add D m t a :
  functional D -> ~ (exists a', D t a') -> 0 <= t < MAX_WARP_SIZE -> in_chunk a size -> acovers D m ->
  exists l, place_atomic i (default [] (ofind m (tag seg a))) t a = Ok l /\
    acovers (extend D t a) (upsert m (tag seg a) [] (fun _ => l)).
Proof.
  intros Hf Hnew Ht Hc [Ho Hok Hall].
  destruct (place_atomic_spec D (tag seg a) (default [] (ofind m (tag seg a))) t a) as (l & E & Hl & Hcar); try done.
  { destruct (ofind m (tag seg a)) eqn:Em; [by apply Hok|constructor]. }
  exists l. split; [done|].
  assert (Hfi : forall blk, ofind (upsert m (tag seg a) [] (fun _ => l)) blk =
    if blk =? tag seg a then Some l else ofind m blk) by (intros; by apply ofind_upsert).
  split.
  - by apply ordered_upsert.
  - intros blk l'. rewrite Hfi. destruct (Z.eqb_spec blk (tag seg a)) as [->|]; [by intros [= <-]|].
    intros Hl'%Hok. eapply Forall_impl; [exact Hl'|]. intros x. by apply atom_ok_extend.
  - intros t' a' [Hd|[-> ->]]; rewrite Hfi.
    + destruct (Hall t' a' Hd) as (l' & El & Hc'). destruct (Z.eqb_spec (tag seg a') (tag seg a)) as [Et|].
      * exists l. split; [done|]. apply Hcar. right. rewrite <- Et, El. done.
      * by exists l'.
    + rewrite Z.eqb_refl. exists l. split; [done|]. apply Hcar. by left.
Qed.

Lemma acovers_ext D D' m : (forall t a, D t a <-> D' t a) -> acovers D m -> acovers D' m.
Proof.
  intros E [H1 H2 H3]. split; [done| |].
  - intros blk l Hl. eapply Forall_impl; [by apply H2|]. intros info [A1 A2 A3 A4 A5]. split; try done.
    + intros t Ht. setoid_rewrite <- E. by apply A1.
    + intros k. rewrite A2. setoid_rewrite E. done.
    + intros j. rewrite A3. setoid_rewrite E. done.
    + intros t t' a a' ? ? Hd Hd'. apply E in Hd, Hd'. by eapply A4.
  - intros t a Hd. apply E in Hd. by apply H3.
Qed.

Abbreviation req := (request c i).

Lemma req_functional : functional req.
Proof.
  intros t a a' (_ & _ & k & Hk & E) (_ & _ & k' & Hk' & E'). rewrite (proj2 global_size) in Hk, Hk'.
  replace k' with k in E' by lia. congruence.
Qed.

Lemma atomic_threads lo hi :
  0 <= lo <= hi -> hi <= warp_size c ->
  exists m, for_range lo hi (atomic_thread i seg) [] = Ok m /\ acovers (fun t a => lo <= t < hi /\ req t a) m.
Proof.
  intros Hl Hh. pose proof (co_warp _ _ Hco). destruct global_size as [Esz Enum].
  apply (for_range_inv (fun n m => acovers (fun t a => lo <= t < n /\ req t a) m)); [lia| |].
  - split; [constructor|done|]. intros t a [? _]. lia.
  - intros t m Ht Hm. unfold atomic_thread, active. rewrite btest_in, bind_of_ok by lia.
    destruct (Z.testbit (m_warp_active_mask i) t) eqn:Hact.
    + destruct (co_addr _ _ Hco t 0) as (a & Ea & _); [lia|done|lia|].
      assert (Hr : req t a) by (split_and!; [lia|lia|done|]; exists 0; split; [lia|done]).
      rewrite Ea, bind_of_ok. destruct (tag_request c i Hco t a Hr) as [-> E2].
      rewrite Esz in E2. rewrite E2, Z.eqb_refl, (cassert_true true), bind_of_ok by done.
      destruct (request_place c i Hco t a Hr) as (Hc & _). rewrite Esz in Hc.
      destruct (acovers_add (fun t' a' => lo <= t' < t /\ req t' a') m t a) as (l & -> & Hm'); try done.
      { intros t' a1 a2 [_ H1] [_ H2]. by eapply req_functional. }
      { intros (a' & ? & _). lia. }
      { lia. }
      rewrite bind_of_ok. eexists. split; [reflexivity|]. eapply acovers_ext; [|exact Hm'].
      intros t' a'. unfold extend. split.
      * intros [[? ?]|[-> ->]]; (split; [lia|done]).
      * intros [? Hr']. destruct (Z.eq_dec t' t) as [->|]; [right|left; split; [lia|done]].
        split; [done|]. by eapply req_functional.
    + eexists. split; [reflexivity|]. eapply acovers_ext; [|exact Hm]. intros t' a'. split.
      * intros [? ?]. split; [lia|done].
      * intros [? Hr']. split; [|done]. destruct (Z.eq_dec t' t) as [->|]; [|lia].
        destruct Hr' as (_ & ? & _). congruence.
Qed.

Lemma elem_flat (m : list (Z * list transaction_info)) blk info :
  (blk, info) ∈ flat_map (fun p : Z * list transaction_info => map (pair p.1) p.2) m <->
  exists l, (blk, l) ∈ m /\ info ∈ l.
Proof.
  rewrite list_elem_of_In, in_flat_map. split.
  - intros ([b l] & Hin & H). apply list_elem_of_In in Hin. apply list_elem_of_In, list_elem_of_fmap in H.
    destruct H as (x & [= -> ->] & Hx). by exists l.
  - intros (l & Hin & Hx). exists (blk, l). rewrite <- list_elem_of_In. split; [done|].
    apply list_elem_of_In, list_elem_of_fmap. by exists info.
Qed.

Lemma atom_sendable D blk info :
  (forall t a, D t a -> req t a) -> atom_ok D blk info -> sendable seg (blk, info).
Proof.
  intros HD [H1 H2 H3 H4 H5]. destruct global_size as [Esz _]. pose proof (seg_ok c i Hco) as Hseg.
  assert (Hlane : forall t, Z.testbit (t_active info) t = true -> exists a, D t a /\ tag seg a = blk /\
    0 <= a < 2 ^ 32 /\ a mod seg + size <= seg /\ 0 < size).
  { intros t Ht. destruct (H1 t Ht) as (a & Hd & Htag).
    destruct (request_place c i Hco t a (HD _ _ Hd)) as ((_ & ? & _) & Ha & Hf). rewrite Esz in *. by exists a. }
  assert (Hch : forall k, Z.testbit (chunks info) k = true ->
    0 <= k < 4 /\ blk mod 128 <= 32 * k < blk mod 128 + seg).
  { intros k (t & a & Ht & Hd & Hk)%H2. destruct (H1 t Ht) as (a' & Hd' & Htag). unfold tag in Htag.
    assert (a' = a) as -> by (eapply req_functional; by apply HD).
    destruct (request_place c i Hco t a (HD _ _ Hd)) as (_ & Ha & _).
    destruct Hseg as [Hg|[Hg|Hg]]; rewrite Hg in *; lia. }
  destruct (any_elem MAX_WARP_SIZE (t_active info)) as (t & _ & Ht); [|done|].
  { intros t Ht. destruct (H1 t Ht) as (a & (Hr & _)%HD & _). pose proof (co_warp _ _ Hco). lia. }
  destruct (Hlane t Ht) as (a & Hd & Htag & Ha & Hf & Hs0). unfold tag in Htag.
  split_and!; simpl.
  - destruct Hseg as [Hg|[Hg|Hg]]; rewrite Hg in *; lia.
  - destruct Hseg as [Hg|[Hg|Hg]]; rewrite Hg in *; lia.
  - destruct Hseg as [Hg|[Hg|Hg]]; rewrite Hg in *; lia.
  - intros k Hk. by apply Hch.
  - apply any_intro with (a mod 128 / 32). apply H2. by exists t, a.
  - intros k Hk. by apply Hch.
Qed.

(** An access that carries [info] serves its lanes, and they do not overlap. *)
Definition exclusive (acc : mem_access_t) : Prop :=
  forall t t' a a', Z.testbit (a_warp_mask acc) t = true -> Z.testbit (a_warp_mask acc) t' = true ->
    req t a -> req t' a' -> t <> t' -> disjoint a a'.

Lemma atom_serves D blk info acc t a :
  (forall t a, D t a -> req t a) -> atom_ok D blk info -> sent is_write type seg (blk, info) acc ->
  Z.testbit (t_active info) t = true -> D t a -> serves i acc t a.
Proof.
  intros HD [H1 H2 H3 H4 H5] (_ & _ & Em & Ey & Hf) Ht Hd. simpl in *. destruct global_size as [Esz _].
  destruct (H1 t Ht) as (a' & Hd' & Htag). assert (a' = a) as -> by (eapply req_functional; by apply HD).
  destruct Hf as (Hs' & _ & G1 & G2 & G3 & _). destruct (G3 (a mod 128 / 32)) as [K1 K2].
  { apply H2. by exists t, a. }
  destruct (request_place c i Hco t a (HD _ _ Hd)) as ((_ & _ & Hc) & Ha & Hfit). unfold tag in Htag.
  unfold serves. rewrite Esz in *. split_and!.
  - by rewrite Em.
  - destruct (seg_ok c i Hco) as [Hg|[Hg|Hg]]; rewrite Hg in *; lia.
  - destruct (seg_ok c i Hco) as [Hg|[Hg|Hg]]; rewrite Hg in *; lia.
  - intros j Hj. rewrite Ey. apply H3. by exists t, a.
Qed.

Lemma atomic_subwarp_spec s q :
  0 <= s < 2 ->
  exists new, atomic_subwarp i is_write type seg (warp_size c / 2) s q = Ok (q ++ new) /\
    Forall (fun acc => proper c i is_write type acc /\ exclusive acc) new /\
    forall t a, req t a -> s * (warp_size c / 2) <= t < warp_size c / 2 * (s + 1) ->
      exists acc, acc ∈ new /\ serves i acc t a.
Proof.
  intros Hs. pose proof (co_warp _ _ Hco). destruct Heven as [h Hh].
  assert (Eh : warp_size c / 2 = h) by (rewrite Hh; apply Z.div_mul; lia). rewrite Eh in *.
  unfold atomic_subwarp, send_lists. destruct (atomic_threads (s * h) (h * (s + 1))) as (m & -> & Hm); [nia|nia|].
  rewrite bind_of_ok. set (D := fun t a => s * h <= t < h * (s + 1) /\ req t a) in *.
  assert (HD : forall t a, D t a -> req t a) by (intros t a [_ ?]; done). destruct Hm as [Ho Hok Hall].
  set (flat := flat_map _ m). assert (Hflat : forall blk info, (blk, info) ∈ flat -> atom_ok D blk info).
  { intros blk info (l & Hin & Hi)%elem_flat. apply ofind_elem, Hok in Hin; [|done].
    rewrite Forall_forall in Hin. auto. }
  destruct (send_all_spec is_write type seg flat q (seg_ok c i Hco)) as (new & -> & Hn).
  { apply Forall_forall. intros [blk info] Hin. by eapply atom_sendable, Hflat. }
  exists new. split; [done|]. split.
  - apply Forall_forall. intros acc Hacc. apply list_elem_of_lookup in Hacc as [n Hacc].
    destruct (Forall2_lookup_r _ _ _ _ _ Hn Hacc) as ([blk info] & Hi & Hsent).
    assert (Hat : atom_ok D blk info) by (eapply Hflat, list_elem_of_lookup_2, Hi).
    pose proof Hsent as (Hty & Hwr & Em & _ & Hs' & Hmod & _). split.
    + split_and!; try done; [rewrite Em; apply Hat|]. intros t Ht. simpl in Em. rewrite Em in Ht.
      destruct (ao_lane _ _ _ Hat t Ht) as (a & Hd & _). exists a. split; [auto|]. by eapply atom_serves.
    + intros t t' a a' Ht Ht' Hr Hr' Hne. simpl in Em. rewrite Em in Ht, Ht'.
      destruct (ao_lane _ _ _ Hat t Ht) as (x & Hx & _), (ao_lane _ _ _ Hat t' Ht') as (y & Hy & _).
      rewrite (req_functional t a x Hr (HD _ _ Hx)), (req_functional t' a' y Hr' (HD _ _ Hy)).
      by eapply (ao_disjoint _ _ _ Hat t t').
  - intros t a Hr Ht. destruct (Hall t a) as (l & El & info & Hin & Hc); [by split|].
    assert (Hf : (tag seg a, info) ∈ flat) by (apply elem_flat; exists l; split; [by apply ofind_elem|done]).
    pose proof (Hflat _ _ Hf) as Hat. apply list_elem_of_lookup in Hf as [n Hn'].
    destruct (Forall2_lookup_l _ _ _ _ _ Hn Hn') as (acc & Hacc & Hsent).
    exists acc. split; [by eapply list_elem_of_lookup_2|]. by eapply (atom_serves D); [..|split].
Qed.

(** C35: Atomics, for a lane's data of 1, 2, 4, 8 or 16 bytes at addresses that are
    multiples of that size and below 4 GB, and a warp of at most 32 lanes that the parts
    divide: every lane is served by an access, and the lanes that share an access touch
    pairwise different bytes, however many lanes address the same word. Unaligned
    accesses and addresses above 4 GB are not served, as for loads. *)
Theorem atomics_do_not_overlap :
  exists new, memory_coalescing_arch_13_atomic c i is_write type = Ok (m_accessq i ++ new) /\
    Forall (fun acc => proper c i is_write type acc /\ exclusive acc) new /\
    forall t a, req t a -> exists acc, acc ∈ new /\ serves i acc t a.
Proof.
  unfold memory_coalescing_arch_13_atomic. rewrite bool_decide_eq_true_2, (cassert_true true), bind_of_ok by done.
  destruct (for_range_inv (fun n q => exists new, q = m_accessq i ++ new /\
      Forall (fun acc => proper c i is_write type acc /\ exclusive acc) new /\
      forall t a, req t a -> 0 <= t < warp_size c / 2 * n -> exists acc, acc ∈ new /\ serves i acc t a) 0 2
    (atomic_subwarp i is_write type seg (warp_size c / 2)) (m_accessq i)) as (q & -> & new & -> & Hp & Hall); [lia| | |].
  - exists []. rewrite app_nil_r. split_and!; [done|done|]. lia.
  - intros s q Hs (new & -> & Hp & Hall).
    destruct (atomic_subwarp_spec s (m_accessq i ++ new) Hs) as (new' & E & Hp' & Hall').
    eexists. split; [exact E|]. exists (new ++ new'). rewrite app_assoc. split_and!; [done|by apply Forall_app|].
    intros t a Hr Ht. destruct (Z.lt_ge_cases t (warp_size c / 2 * s)).
    + destruct (Hall t a Hr) as (acc & Hin & ?); [lia|]. exists acc. rewrite elem_of_app. auto.
    + destruct (Hall' t a Hr) as (acc & Hin & ?); [lia|]. exists acc. rewrite elem_of_app. auto.
  - exists new. split_and!; [done|done|]. intros t a Hr. apply Hall; [done|]. destruct Hr as (Ht & _).
    destruct Heven as [h Hh]. rewrite Hh, Z.div_mul in * by lia. lia.
Qed.
End atomics.

(** Three lanes add to one word: three accesses in their two half warps. *)
Definition demo_atomic : warp_inst_t := demo_load [1024; 1024; 1024; 1028] true.
Example demo_atomic_accesses :
  map (fun a => (a_addr a, a_req_size a, a_warp_mask a)) <$>
    (match generate_mem_accesses demo_core demo_atomic with Ok i => Some (m_accessq i) | Err _ => None end) =
  Some [(1024, 32, 1); (1024, 32, 2); (1024, 32, 12)].
Proof. vm_compute. reflexivity. Qed.

Lemma atomics_do_not_overlap_witness :
  exists new, memory_coalescing_arch_13_atomic demo_core demo_atomic false GLOBAL_ACC_R = Ok ([] ++ new) /\
    Forall (fun acc => proper demo_core demo_atomic false GLOBAL_ACC_R acc /\
                       exclusive demo_core demo_atomic acc) new /\
    forall t a, request demo_core demo_atomic t a -> exists acc, acc ∈ new /\ serves demo_atomic acc t a.
Proof.
  apply (atomics_do_not_overlap demo_core demo_atomic false GLOBAL_ACC_R).
  - apply demo_coalescable; [reflexivity|]. repeat constructor; vm_compute; congruence.
  - reflexivity.
  - by exists 2.
Defined.
