(* ===== verification/SharedBanks.v ===== *)
(** * Bank conflicts in shared memory

    [shared_cycles] ([Coalesce]) is the number of rounds a warp's access to shared
    memory takes: the sum over the parts of the warp of the worst bank.  Without
    limited broadcast the worst bank is the one with most different words; with it,
    one word that several lanes of a bank read counts once.  The theorems say that
    the count is what the reference definition [conflicts] gives and that the
    assertion on its range cannot fail. *)

From S2P Require Import Prelude Bitset OrdMap SimtStack Coalesce.

Abbreviation bank_map := (list (Z * list (Z * Z))).

(** All accesses counted in a bank map. *)
Definition grand (m : bank_map) : Z := foldr (fun b n => sum_counts b.2 + n) 0 m.

Definition positive (ws : list (Z * Z)) : Prop := ws <> [] /\ Forall (fun w => 1 <= w.2) ws.

Lemma sum_counts_upsert ws w : sum_counts (upsert ws w 0 (fun n => n + 1)) = sum_counts ws + 1.
Proof.
  induction ws as [|[k n] ws IH]; [done|]. simpl. destruct (w <? k); [simpl; lia|].
  destruct (w =? k); simpl; [lia|]. rewrite IH. lia.
Qed.

Lemma positive_upsert ws w : Forall (fun x => 1 <= x.2) ws -> positive (upsert ws w 0 (fun n => n + 1)).
Proof.
  intros H. split.
  - destruct ws as [|[k n] ws]; [done|]. simpl. by destruct (w <? k), (w =? k).
  - induction H as [|[k n] ws Hn H IH]; simpl in *; [by repeat constructor|].
    destruct (w <? k); [constructor; [simpl; lia|by constructor]|].
    destruct (w =? k); constructor; simpl; try done; lia.
Qed.

Lemma sum_counts_bound ws : Forall (fun x => 1 <= x.2) ws -> zlen ws <= sum_counts ws.
Proof. induction 1 as [|[k n] ws Hn H IH]; [done|]. unfold zlen in *. simpl in *. lia. Qed.

Lemma sum_counts_elem ws k n :
  Forall (fun x => 1 <= x.2) ws -> ofind ws k = Some n -> 1 <= n <= sum_counts ws.
Proof.
  induction 1 as [|[k' n'] ws Hn H IH]; [done|]. simpl in *. pose proof (sum_counts_bound ws H).
  pose proof (zlen_nonneg ws). destruct (k =? k'); [intros [= <-]; lia|]. intros Hf. specialize (IH Hf). lia.
Qed.

Lemma grand_upsert m b w :
  grand (upsert m b [] (fun ws => upsert ws w 0 (fun n => n + 1))) = grand m + 1.
Proof.
  induction m as [|[k ws] m IH]; [done|]. simpl. destruct (b <? k); [simpl; lia|].
  destruct (b =? k); simpl; [rewrite sum_counts_upsert; lia|]. rewrite IH. lia.
Qed.

Section conflicts.
Context (c : core_config) (i : warp_inst_t).

(** The lanes of [lo, hi) that access memory, their banks and words. *)
Definition addr_of (t : Z) : Z := match memreqaddr i t 0 with Ok a => a | Err _ => 0 end.
Definition bank_of (t : Z) : Z := shmem_bank_func c (addr_of t).
Definition word_of (t : Z) : Z := line_size_based_tag_func (addr_of t) WORD_SIZE.
Definition active_lanes (lo hi : Z) : list Z :=
  filter (fun t => Z.testbit (m_warp_active_mask i) t = true) (seqZ lo (hi - lo)).

(** The reference: for each lane the number of different words its bank has to
    deliver; the worst of them is the number of rounds. *)
Definition words_of_bank (l : list Z) (b : Z) : gset Z :=
  list_to_set (word_of <$> filter (fun t => bank_of t = b) l).
Definition conflicts (l : list Z) : Z :=
  foldr (fun t n => Z.max (Z.of_nat (size (words_of_bank l (bank_of t)))) n) 0 l.

(** The map built for the lanes [l]. *)
Record banked (l : list Z) (m : bank_map) : Prop := {
  bk_ordered : ordered m;
  bk_words : forall b ws, ofind m b = Some ws -> ordered ws /\ positive ws;
  bk_keys : forall b ws w, ofind m b = Some ws -> is_Some (ofind ws w) <-> w ∈ words_of_bank l b;
  bk_banks : forall b, is_Some (ofind m b) <-> exists t, t ∈ l /\ bank_of t = b;
  bk_grand : grand m = zlen l;
}.

Lemma banked_nil : banked [] [].
Proof. split; try done; [constructor|]. intros b. split; [by intros [? ?]|]. by intros (? & ?%not_elem_of_nil & _). Qed.

Lemma words_snoc l t b :
  words_of_bank (l ++ [t]) b = if decide (bank_of t = b) then words_of_bank l b ∪ {[word_of t]} else words_of_bank l b.
Proof.
  unfold words_of_bank. rewrite filter_app, fmap_app, list_to_set_app_L. simpl.
  destruct (decide (bank_of t = b)) as [E|E].
  - rewrite filter_cons_True by done. simpl. set_solver.
  - rewrite filter_cons_False by done. simpl. set_solver.
Qed.

Lemma banked_snoc l m t :
  banked l m ->
  banked (l ++ [t]) (upsert m (bank_of t) [] (fun ws => upsert ws (word_of t) 0 (fun n => n + 1))).
Proof.
  intros [Ho Hw Hk Hb Hg]. set (f := fun ws => upsert ws (word_of t) 0 (fun n => n + 1)).
  assert (Hf : forall b, ofind (upsert m (bank_of t) [] f) b =
    if b =? bank_of t then Some (f (default [] (ofind m (bank_of t)))) else ofind m b)
    by (intros; by apply ofind_upsert).
  assert (Hold : ordered (default [] (ofind m (bank_of t))) /\ Forall (fun x => 1 <= x.2) (default [] (ofind m (bank_of t)))).
  { destruct (ofind m (bank_of t)) as [ws|] eqn:E; [|by split; [constructor|]]. destruct (Hw _ _ E) as [? [_ ?]]. done. }
  destruct Hold as [Ho' Hp']. split.
  - by apply ordered_upsert.
  - intros b ws. rewrite Hf. destruct (Z.eqb_spec b (bank_of t)) as [->|]; [|apply Hw].
    intros [= <-]. split; [by apply ordered_upsert|by apply positive_upsert].
  - intros b ws w. rewrite Hf, words_snoc. destruct (Z.eqb_spec b (bank_of t)) as [->|Hne].
    + intros [= <-]. rewrite decide_True by done. unfold f. rewrite ofind_upsert by done.
      rewrite elem_of_union, elem_of_singleton. destruct (Z.eqb_spec w (word_of t)) as [->|].
      * split; [auto|]. by eexists.
      * destruct (ofind m (bank_of t)) as [ws|] eqn:E; simpl.
        -- rewrite (Hk _ _ _ E). naive_solver.
        -- split; [by intros [? ?]|]. intros [Hin|?]; [|done]. exfalso.
           unfold words_of_bank in Hin. rewrite elem_of_list_to_set, list_elem_of_fmap in Hin.
           destruct Hin as (t' & _ & [Hbt Ht]%list_elem_of_filter).
           destruct (proj2 (Hb (bank_of t))) as [? ?]; [by exists t'|congruence].
    + intros Hws. rewrite decide_False by done. by apply Hk.
  - intros b. rewrite Hf. setoid_rewrite elem_of_app. setoid_rewrite list_elem_of_singleton.
    destruct (Z.eqb_spec b (bank_of t)) as [->|Hne].
    + split; [|by eauto]. intros _. exists t. auto.
    + rewrite Hb. naive_solver.
  - unfold f. rewrite grand_upsert, Hg, zlen_app. done.
Qed.

Lemma bank_threads lo hi :
  0 <= lo <= hi -> hi <= MAX_WARP_SIZE ->
  (forall t, lo <= t < hi -> Z.testbit (m_warp_active_mask i) t = true -> is_ok (memreqaddr i t 0)) ->
  exists m, for_range lo hi (bank_thread c i) [] = Ok m /\ banked (active_lanes lo hi) m.
Proof.
  intros Hl Hh Haddr. destruct (for_range_inv (fun n m => lo <= n /\ banked (active_lanes lo n) m) lo hi (bank_thread c i) [])
    as (m & E & _ & Hm); [lia| | |by exists m].
  - split; [lia|]. unfold active_lanes. rewrite Z.sub_diag. apply banked_nil.
  - intros t m Ht [_ Hm]. unfold bank_thread, active. rewrite btest_in, bind_of_ok by lia.
    assert (Es : active_lanes lo (t + 1) = active_lanes lo t ++
      (if Z.testbit (m_warp_active_mask i) t then [t] else [])).
    { unfold active_lanes. replace (t + 1 - lo) with (t - lo + 1) by lia. rewrite seqZ_app by lia.
      rewrite filter_app. f_equal. replace (lo + (t - lo)) with t by lia.
      assert (seqZ t 1 = [t]) as -> by (unfold seqZ; simpl; by rewrite Z.add_0_l).
      destruct (Z.testbit (m_warp_active_mask i) t) eqn:E.
      - by rewrite filter_cons_True.
      - rewrite filter_cons_False; [done|]. by rewrite E. }
    destruct (Z.testbit (m_warp_active_mask i) t) eqn:Hact.
    + destruct (Haddr t Ht Hact) as [a Ea]. rewrite Ea, bind_of_ok. eexists. split; [reflexivity|].
      split; [lia|]. rewrite Es. assert (addr_of t = a) as <- by (unfold addr_of; by rewrite Ea).
      by apply banked_snoc.
    + eexists. split; [reflexivity|]. split; [lia|]. rewrite Es, app_nil_r. done.
Qed.

(** The worst bank. *)
Lemma max_accesses_spec f m best :
  0 <= best -> (forall b, b ∈ m -> exists n, f b = Ok n) ->
  exists r, max_accesses f m best = Ok r /\ best <= r /\
    (forall b n, b ∈ m -> f b = Ok n -> n <= r) /\ (r = best \/ exists b, b ∈ m /\ f b = Ok r).
Proof.
  revert best. induction m as [|b m IH]; intros best Hb Hf; simpl.
  - exists best. split_and!; try done; [|by left]. by intros b n ?%not_elem_of_nil.
  - destruct (Hf b) as [n En]; [by left|]. rewrite En, bind_of_ok.
    destruct (IH (if best <? n then n else best)) as (r & E & Hr & Hall & Hex).
    { destruct (Z.ltb_spec best n); lia. } { intros b' Hb'. apply Hf. by right. }
    exists r. split_and!; [done| | |].
    + destruct (Z.ltb_spec best n); lia.
    + intros b' n' [->|Hin]%elem_of_cons E'; [|by eapply Hall]. rewrite En in E'. injection E' as ->.
      destruct (Z.ltb_spec best n'); lia.
    + destruct Hex as [->|(b' & ? & ?)]; [|right; exists b'; split; [by right|done]].
      destruct (Z.ltb_spec best n); [right; exists b; split; [by left|done]|by left].
Qed.

Lemma grand_elem m b ws :
  (forall b ws, (b, ws) ∈ m -> positive ws) -> (b, ws) ∈ m -> sum_counts ws <= grand m.
Proof.
  intros Hp Hin. induction m as [|[k w] m IH]; [by apply not_elem_of_nil in Hin|]. simpl.
  assert (Hpos : forall ws', positive ws' -> 0 <= sum_counts ws').
  { intros ws' [_ H]. pose proof (sum_counts_bound ws' H). pose proof (zlen_nonneg ws'). lia. }
  assert (Hg : 0 <= grand m).
  { clear IH Hin. induction m as [|[k' w'] m IH]; [done|]. simpl.
    pose proof (Hpos w' (Hp k' w' ltac:(right; left))). assert (0 <= grand m); [|lia].
    apply IH. intros b' ws' Hin. apply (Hp b'). apply elem_of_cons in Hin as [[= -> ->]|?]; [left|by do 2 right]. }
  apply elem_of_cons in Hin as [[= -> ->]|Hin]; [lia|].
  specialize (IH (fun b' ws' H => Hp b' ws' ltac:(by right)) Hin).
  pose proof (Hpos w (Hp k w ltac:(left))). lia.
Qed.

(** The words of a bank, counted. *)
Lemma banked_size l m b ws :
  banked l m -> ofind m b = Some ws -> zlen ws = Z.of_nat (size (words_of_bank l b)).
Proof.
  intros [Ho Hw Hk Hb Hg] Hf. destruct (Hw b ws Hf) as [Hows _]. unfold zlen. f_equal.
  rewrite <- (length_map fst ws). rewrite <- (size_list_to_set (C:=gset Z) (map fst ws)).
  - f_equal. apply set_eq. intros w. rewrite elem_of_list_to_set, <- (Hk b ws w Hf), list_elem_of_fmap. split.
    + intros ([w' n] & -> & Hin). exists n. by apply ofind_elem.
    + intros [n Hn]. exists (w, n). split; [done|]. by apply ofind_elem.
  - clear -Hows. induction ws as [|[k n] ws IH]; [constructor|]. apply StronglySorted_inv in Hows as [Hs Hall].
    simpl. constructor; [|by apply IH]. rewrite list_elem_of_fmap. intros ([k' n'] & -> & Hin).
    rewrite Forall_forall in Hall. apply Hall in Hin. simpl in Hin. lia.
Qed.

Lemma conflicts_max l t : t ∈ l -> Z.of_nat (size (words_of_bank l (bank_of t))) <= conflicts l.
Proof.
  unfold conflicts. generalize (words_of_bank l). intros W. induction l as [|x l IH]; [by intros ?%not_elem_of_nil|].
  intros [->|Hin%IH]%elem_of_cons; simpl; lia.
Qed.

Lemma conflicts_attained l : conflicts l = 0 \/ exists t, t ∈ l /\ conflicts l = Z.of_nat (size (words_of_bank l (bank_of t))).
Proof.
  unfold conflicts. generalize (words_of_bank l). intros W. induction l as [|x l IH]; [by left|]. simpl.
  destruct (Z.max_spec (Z.of_nat (size (W (bank_of x)))) (foldr (fun t n => Z.max (Z.of_nat (size (W (bank_of t)))) n) 0 l))
    as [[_ E]|[_ E]]; rewrite E.
  - destruct IH as [?|(t & ? & ?)]; [by left|right]. exists t. split; [by right|done].
  - right. exists x. split; [left|done].
Qed.

(** The broadcast word is accessed more than once. *)
Lemma broadcast_elem (m : bank_map) bank word :
  broadcast m = Some (bank, word) -> exists ws n, (bank, ws) ∈ m /\ (word, n) ∈ ws /\ 1 < n.
Proof.
  unfold broadcast. intros H. apply head_Some_elem_of in H. rewrite list_elem_of_In, in_flat_map in H.
  destruct H as ([b ws] & Hin & H). apply list_elem_of_In in Hin. apply list_elem_of_In, list_elem_of_fmap in H.
  destruct H as ([w n] & [= -> ->] & [Hn Hw]%list_elem_of_filter). by exists ws, n.
Qed.

(** The rounds of one part of the warp. *)
Lemma subwarp_conflicts_spec l m :
  banked l m ->
  exists r, subwarp_conflicts c m = Ok r /\ 0 <= r <= zlen l /\ (l <> [] -> 1 <= r) /\
    (shmem_limited_broadcast c = false -> r = conflicts l).
Proof.
  intros Hm. pose proof Hm as [Ho Hw Hk Hb Hg].
  assert (Hpos : forall b ws, (b, ws) ∈ m -> positive ws) by (intros b ws Hin%ofind_elem; [by apply (Hw b)|done]).
  assert (Hsum : forall b ws, (b, ws) ∈ m -> 1 <= zlen ws <= sum_counts ws /\ sum_counts ws <= zlen l).
  { intros b ws Hin. destruct (Hpos b ws Hin) as [Hne Hall]. pose proof (sum_counts_bound ws Hall).
    pose proof (grand_elem m b ws Hpos Hin). rewrite Hg in *. destruct ws; [done|]. unfold zlen in *. simpl in *. lia. }
  assert (Hmem : l <> [] -> exists b ws, (b, ws) ∈ m).
  { intros Hne. destruct l as [|t l']; [done|]. destruct (proj2 (Hb (bank_of t))) as [ws Hws]; [exists t; split; [left|done]|].
    exists (bank_of t), ws. by apply ofind_elem. }
  assert (Hgen : forall f, (forall b ws, (b, ws) ∈ m -> exists n, f (b, ws) = Ok n /\ 1 <= n <= zlen l) ->
    exists r, max_accesses f m 0 = Ok r /\ 0 <= r <= zlen l /\ (l <> [] -> 1 <= r) /\
      (forall b n, b ∈ m -> f b = Ok n -> n <= r) /\ (r = 0 \/ exists b, b ∈ m /\ f b = Ok r)).
  { intros f Hf. destruct (max_accesses_spec f m 0) as (r & E & Hr & Hall & Hex); [done| |].
    { intros [b ws] Hin. destruct (Hf b ws Hin) as (n & ? & _). by exists n. }
    exists r. split_and!; try done.
    - destruct Hex as [->|([b ws] & Hin & Ef)]; [apply zlen_nonneg|].
      destruct (Hf b ws Hin) as (n & En & ?). rewrite Ef in En. injection En as ->. lia.
    - intros Hne. destruct (Hmem Hne) as (b & ws & Hin). destruct (Hf b ws Hin) as (n & En & ?).
      specialize (Hall _ _ Hin En). lia. }
  unfold subwarp_conflicts. destruct (shmem_limited_broadcast c).
  - destruct (Hgen (bank_accesses (broadcast m))) as (r & E & ? & ? & _); [|by exists r].
    intros b ws Hin. pose proof (Hsum b ws Hin) as [Hz Hs]. unfold bank_accesses. simpl.
    destruct (broadcast m) as [[bank word]|] eqn:Ebc; [|exists (sum_counts ws); split; [done|lia]].
    destruct (Z.eqb_spec bank b) as [->|]; [|exists (sum_counts ws); split; [done|lia]].
    destruct (ofind ws word) as [n|] eqn:En; [|exists (sum_counts ws); split; [done|lia]].
    destruct (sum_counts_elem ws word n (proj2 (Hpos b ws Hin)) En) as [Hn1 Hn2].
    assert (1 < n) as Hn.
    { destruct (broadcast_elem m b word Ebc) as (ws' & n' & Hin' & Hn' & Hlt).
      apply ofind_elem in Hin, Hin'; [|done..]. rewrite Hin in Hin'. injection Hin' as <-.
      apply ofind_elem in Hn'; [congruence|by apply (Hw b)]. }
    rewrite (proj2 (Z.ltb_lt 1 n) Hn), (proj2 (Z.leb_le (n - 1) _)) by lia. simpl.
    eexists. split; [reflexivity|]. lia.
  - destruct (Hgen (fun b => mret (zlen b.2))) as (r & E & ? & ? & Hall & Hex).
    { intros b ws Hin. pose proof (Hsum b ws Hin). exists (zlen ws). split; [done|lia]. }
    exists r. split_and!; try done; try lia. intros _.
    assert (Hlane : forall t, t ∈ l -> exists ws, (bank_of t, ws) ∈ m /\
      zlen ws = Z.of_nat (size (words_of_bank l (bank_of t)))).
    { intros t Ht. destruct (proj2 (Hb (bank_of t))) as [ws Hws]; [by exists t|]. exists ws.
      split; [by apply ofind_elem|by eapply banked_size]. }
    apply Z.le_antisymm.
    + destruct Hex as [->|([b ws] & Hin & [= <-])].
      * destruct (conflicts_attained l) as [->|(t & _ & ->)]; lia.
      * apply ofind_elem in Hin; [|done]. destruct (proj1 (Hb b)) as (t & Ht & <-); [by eexists|].
        simpl. rewrite (banked_size l m (bank_of t) ws) by done. by apply conflicts_max.
    + destruct (conflicts_attained l) as [->|(t & Ht & ->)]; [lia|].
      destruct (Hlane t Ht) as (ws & Hin & <-). by eapply Hall.
Qed.

Lemma foldr_add x l : foldr Z.add x l = foldr Z.add 0 l + x.
Proof. induction l as [|y l IH]; simpl; lia. Qed.

(** What the instruction has to provide: an address for each active lane, and lanes
    only in whole parts of the warp. *)
Record shared_ok : Prop := {
  so_warp : 0 < warp_size c <= MAX_WARP_SIZE;
  so_parts : 0 < mem_warp_parts c /\ (mem_warp_parts c | warp_size c);
  so_mask : within (warp_size c) (m_warp_active_mask i) /\ any (m_warp_active_mask i) = true;
  so_addr : forall t, 0 <= t < warp_size c -> Z.testbit (m_warp_active_mask i) t = true -> is_ok (memreqaddr i t 0);
}.

Definition part_lanes (s : Z) : list Z :=
  let sub := warp_size c / mem_warp_parts c in active_lanes (s * sub) ((s + 1) * sub).

(** The bank conflicts of an access to shared memory: the count is between one and the
    warp size, so its assertion cannot fail, and without limited broadcast it is the sum
    over the parts of the warp of the largest number of different words that one bank
    has to deliver. *)
Theorem shared_memory_rounds :
  shared_ok ->
  exists n, shared_cycles c i = Ok n /\ 1 <= n <= warp_size c /\
    (shmem_limited_broadcast c = false ->
     n = foldr Z.add 0 (map (fun s => conflicts (part_lanes s)) (seqZ 0 (mem_warp_parts c)))).
Proof.
  intros [Hws [Hp [sub Hsub]] [Hmw Hma] Haddr]. unfold shared_cycles.
  assert (Esub : warp_size c / mem_warp_parts c = sub) by (rewrite Hsub; apply Z.div_mul; lia).
  unfold part_lanes. rewrite Esub. assert (Hs0 : 0 < sub) by nia.
  assert (Hlen : forall s, zlen (active_lanes (s * sub) ((s + 1) * sub)) <= sub).
  { intros s. unfold active_lanes, zlen.
    pose proof (length_filter (fun t => Z.testbit (m_warp_active_mask i) t = true) (seqZ (s * sub) ((s + 1) * sub - s * sub))) as H.
    rewrite length_seqZ in H. lia. }
  destruct (for_range_inv (fun s n => 0 <= s /\ 0 <= n <= s * sub /\
      ((exists t, 0 <= t < s * sub /\ Z.testbit (m_warp_active_mask i) t = true) -> 1 <= n) /\
      (shmem_limited_broadcast c = false ->
       n = foldr Z.add 0 (map (fun s => conflicts (active_lanes (s * sub) ((s + 1) * sub))) (seqZ 0 s))))
    0 (mem_warp_parts c) (shared_subwarp c i sub) 0) as (n & -> & _ & Hn & Hone & Hsum); [lia| | |].
  - split_and!; try lia; [intros (t & ? & _); lia|done].
  - intros s n Hs (_ & Hn & Hone & Hsum). unfold shared_subwarp.
    destruct (bank_threads (s * sub) ((s + 1) * sub)) as (m & -> & Hm); [nia|nia|intros; apply Haddr; [nia|done]|].
    rewrite bind_of_ok. destruct (subwarp_conflicts_spec _ m Hm) as (r & -> & Hr & Hr1 & Href).
    rewrite bind_of_ok. eexists. split; [reflexivity|]. specialize (Hlen s). split_and!; [lia|lia|lia|..].
    + intros (t & Ht & Hb). destruct (Z.lt_ge_cases t (s * sub)); [specialize (Hone (ex_intro _ t (conj (conj (proj1 Ht) H) Hb))); lia|].
      assert (active_lanes (s * sub) ((s + 1) * sub) <> []) as Hne; [|specialize (Hr1 Hne); lia].
      intros E. apply (not_elem_of_nil t). rewrite <- E. unfold active_lanes.
      rewrite list_elem_of_filter, elem_of_seqZ. split; [done|lia].
    + intros Hlb. rewrite (Hsum Hlb), (Href Hlb). rewrite seqZ_app by lia.
      assert (seqZ (0 + s) 1 = [s]) as -> by (unfold seqZ; simpl; by rewrite !Z.add_0_l).
      rewrite map_app, foldr_app. simpl. rewrite Z.add_0_r. symmetry. apply foldr_add.
  - destruct (any_elem _ _ Hmw Hma) as (t & Ht & Hb).
    assert (1 <= n) as H1 by (apply Hone; exists t; split; [nia|done]).
    rewrite bind_of_ok, (proj2 (Z.ltb_lt 0 n)), (proj2 (Z.leb_le n _)) by nia. simpl. exists n. split_and!; [done|lia|nia|].
    intros Hlb. by rewrite (Hsum Hlb).
Qed.
End conflicts.

(** Two lanes of the first half warp meet in bank 0 with different words. *)
Definition demo_shared : warp_inst_t :=
  mkWarpInst LOAD_OP no_memory_op shared_space 4 false false 15 true [[0]; [64]; [0]; [0]] false [] 0.

Lemma shared_memory_rounds_witness :
  exists n, shared_cycles demo_core demo_shared = Ok n /\ 1 <= n <= 4 /\
    (false = false -> n = foldr Z.add 0 (map (fun s => conflicts demo_core demo_shared (part_lanes demo_core demo_shared s)) (seqZ 0 2))).
Proof.
  apply (shared_memory_rounds demo_core demo_shared). split; simpl.
  - unfold MAX_WARP_SIZE. lia.
  - split; [lia|]. by exists 2.
  - split; [apply (within_ones 4); lia|reflexivity].
  - intros t Ht _. destruct (Z.eq_dec t 0), (Z.eq_dec t 1), (Z.eq_dec t 2), (Z.eq_dec t 3);
      subst; try lia; vm_compute; by eexists.
Defined.
Example demo_shared_rounds : shared_cycles demo_core demo_shared = Ok 3.
Proof. reflexivity. Qed.
