(* ===== verification/Scoreboard.v ===== *)
(** * Scoreboard

    [Scoreboard] of [gpgpu-sim/scoreboard.{h,cc}]: for each warp the registers that
    instructions in flight have still to write.  An instruction issues when none of
    its registers is reserved ([checkCollision]); issuing reserves its outputs,
    completing or writing back releases them.

    The theorems run the scoreboard with a set of instructions in flight: the
    reserved registers are exactly those still to be written, so the check stalls
    exactly the instructions with a true or output dependence. *)

From S2P Require Import Prelude SimtStack Coalesce.

(** The registers of an instruction; 0 and negative numbers stand for none. *)
Record inst_t := mkInst {
  out : list Z;  (** [out[4]] *)
  in_ : list Z;  (** [in[4]] *)
  pred : Z;
  ar1 : Z;
  ar2 : Z;
  i_is_load : bool;
  i_space : memory_space_kind;
}.

Record Scoreboard := mkScoreboard {
  reg_table : list (gset Z);
  longopregs : list (gset Z);
}.

Definition Scoreboard_new (n_warps : Z) : Scoreboard :=
  mkScoreboard (replicate (Z.to_nat n_warps) ∅) (replicate (Z.to_nat n_warps) ∅).

Definition reserveRegister (s : Scoreboard) (wid regnum : Z) : outcome Scoreboard :=
  r ← aread (reg_table s) wid;
  if bool_decide (regnum ∈ r) then Err ErrorMsg
  else t ← awrite (reg_table s) wid ({[regnum]} ∪ r); mret (mkScoreboard t (longopregs s)).

Definition releaseRegister (s : Scoreboard) (wid regnum : Z) : outcome Scoreboard :=
  r ← aread (reg_table s) wid;
  if bool_decide (regnum ∉ r) then mret s
  else t ← awrite (reg_table s) wid (r ∖ {[regnum]}); mret (mkScoreboard t (longopregs s)).

Definition islongop (s : Scoreboard) (warp_id regnum : Z) : outcome bool :=
  r ← aread (longopregs s) warp_id; mret (bool_decide (regnum ∈ r)).

(** The registers of a list that stand for one. *)
Definition regs (l : list Z) : list Z := filter (fun r => 0 < r) l.

Fixpoint fold_outcome {S : Type} (f : S → Z → outcome S) (s : S) (l : list Z) : outcome S :=
  match l with [] => mret s | r :: l' => s' ← f s r; fold_outcome f s' l' end.

(** The loop over [r] inserts the index, not the register. *)
Definition is_long_space (k : memory_space_kind) : bool :=
  bool_decide (k = global_space) || bool_decide (k = local_space) || bool_decide (k = tex_space).
Definition long_indices (i : inst_t) : gset Z :=
  list_to_set (filter (fun r => 0 < default 0 (zread (out i) r)) (seqZ 0 4)).

Definition reserveRegisters (s : Scoreboard) (warp_id : Z) (i : inst_t) : outcome Scoreboard :=
  s ← fold_outcome (fun s r => reserveRegister s warp_id r) s (regs (out i));
  if i_is_load i && is_long_space (i_space i) then
    l ← aread (longopregs s) warp_id;
    l' ← awrite (longopregs s) warp_id (long_indices i ∪ l);
    mret (mkScoreboard (reg_table s) l')
  else mret s.

Definition releaseRegisters (s : Scoreboard) (warp_id : Z) (i : inst_t) : outcome Scoreboard :=
  s ← fold_outcome (fun s r => releaseRegister s warp_id r) s (regs (out i));
  l ← awrite (longopregs s) warp_id ∅;
  mret (mkScoreboard (reg_table s) l).

Definition inst_regs (i : inst_t) : gset Z :=
  list_to_set (regs (out i) ++ regs (in_ i) ++ regs [pred i; ar1 i; ar2 i]).

Definition checkCollision (s : Scoreboard) (wid : Z) (i : inst_t) : outcome bool :=
  r ← aread (reg_table s) wid;
  mret (bool_decide (inst_regs i ∩ r <> ∅)).

Definition pendingWrites (s : Scoreboard) (wid : Z) : outcome bool :=
  r ← aread (reg_table s) wid; mret (bool_decide (r <> ∅)).

(** * Instructions in flight *)

(** A warp and the registers one of its instructions has still to write. *)
Record flight := mkFlight { f_warp : Z; f_regs : gset Z }.

Definition out_set (i : inst_t) : gset Z := list_to_set (regs (out i)).

Inductive board_step (n_warps : Z) : Scoreboard * list flight → Scoreboard * list flight → Prop :=
  | issue s fl w i s' :
      0 <= w < n_warps ->
      checkCollision s w i = Ok false -> reserveRegisters s w i = Ok s' ->
      board_step n_warps (s, fl) (s', mkFlight w (out_set i) :: fl)
  | complete s fl1 fl2 w i s' :
      releaseRegisters s w i = Ok s' ->
      board_step n_warps (s, fl1 ++ mkFlight w (out_set i) :: fl2) (s', fl1 ++ fl2)
  | writeback s fl1 fl2 w X r s' :
      r ∈ X -> releaseRegister s w r = Ok s' ->
      board_step n_warps (s, fl1 ++ mkFlight w X :: fl2) (s', fl1 ++ mkFlight w (X ∖ {[r]}) :: fl2).

(** All registers of warp [w] in flight. *)
Definition in_flight (fl : list flight) (w : Z) : gset Z :=
  ⋃ (map f_regs (filter (fun f => f_warp f = w) fl)).

Lemma in_flight_cons f fl w :
  in_flight (f :: fl) w = (if decide (f_warp f = w) then f_regs f else ∅) ∪ in_flight fl w.
Proof.
  unfold in_flight. destruct (decide (f_warp f = w)).
  - by rewrite filter_cons_True.
  - rewrite filter_cons_False by done. by rewrite (left_id_L ∅ (∪)).
Qed.

Lemma in_flight_app fl1 fl2 w : in_flight (fl1 ++ fl2) w = in_flight fl1 w ∪ in_flight fl2 w.
Proof.
  induction fl1 as [|f fl1 IH]; simpl.
  - change (in_flight [] w) with (∅ : gset Z). by rewrite (left_id_L ∅ (∪)).
  - by rewrite !in_flight_cons, IH, (assoc_L (∪)).
Qed.

(** No two instructions of a warp have to write the same register. *)
Fixpoint apart (fl : list flight) : Prop :=
  match fl with [] => True | f :: fl' => f_regs f ## in_flight fl' (f_warp f) /\ apart fl' end.

Lemma apart_middle fl1 f fl2 :
  apart (fl1 ++ f :: fl2) <-> apart (fl1 ++ fl2) /\ f_regs f ## in_flight (fl1 ++ fl2) (f_warp f).
Proof.
  induction fl1 as [|g fl1 IH]; simpl; [tauto|]. rewrite IH, !in_flight_app, !in_flight_cons.
  destruct (decide (f_warp f = f_warp g)) as [E|E], (decide (f_warp g = f_warp f)) as [E'|E']; try congruence.
  - rewrite E, !disjoint_union_r, !in_flight_app. rewrite !disjoint_union_r. pose proof (symmetry_iff (##) (f_regs f) (f_regs g)). tauto.
  - rewrite !in_flight_app, !disjoint_union_r. pose proof (disjoint_empty_r (f_regs f)). pose proof (disjoint_empty_r (f_regs g)). tauto.
Qed.

Lemma in_flight_middle fl1 f fl2 w :
  in_flight (fl1 ++ f :: fl2) w = (if decide (f_warp f = w) then f_regs f else ∅) ∪ in_flight (fl1 ++ fl2) w.
Proof. rewrite !in_flight_app, in_flight_cons. rewrite !(assoc_L (∪)). f_equal. apply (comm_L (∪)). Qed.

(** The table holds the registers in flight. *)
Record board_inv (n_warps : Z) (st : Scoreboard * list flight) : Prop := {
  bi_size : zlen (reg_table (fst st)) = n_warps /\ zlen (longopregs (fst st)) = n_warps;
  bi_table : forall w r, zread (reg_table (fst st)) w = Some r -> r = in_flight (snd st) w;
  bi_apart : apart (snd st);
  bi_warps : Forall (fun f => 0 <= f_warp f < n_warps) (snd st);
}.

Section run.
Context (n_warps : Z).

Lemma table_read s w : zlen (reg_table s) = n_warps -> 0 <= w < n_warps ->
  exists r, zread (reg_table s) w = Some r /\ aread (reg_table s) w = Ok r.
Proof. intros Hl Hw. apply aread_in. lia. Qed.

Lemma reserve_all s w l r0 :
  zlen (reg_table s) = n_warps -> 0 <= w < n_warps -> zread (reg_table s) w = Some r0 ->
  NoDup l -> (forall x, x ∈ l -> x ∉ r0) ->
  exists s', fold_outcome (fun s r => reserveRegister s w r) s l = Ok s' /\
    longopregs s' = longopregs s /\ zlen (reg_table s') = n_warps /\
    forall w', zread (reg_table s') w' = if w =? w' then Some (list_to_set l ∪ r0) else zread (reg_table s) w'.
Proof.
  intros Hl Hw. revert s r0 Hl. induction l as [|x l IH]; intros s r0 Hl Hr Hnd Hfree; simpl.
  - exists s. split_and!; try done. intros w'. destruct (Z.eqb_spec w w') as [<-|]; [|done].
    rewrite Hr. f_equal. set_solver.
  - apply NoDup_cons in Hnd as [Hx Hnd]. unfold reserveRegister at 2. rewrite (proj2 (aread_ok _ _ _) Hr), bind_of_ok.
    rewrite bool_decide_eq_false_2 by (apply Hfree; left). rewrite awrite_in, !bind_of_ok by lia.
    destruct (IH (mkScoreboard (zwrite (reg_table s) w ({[x]} ∪ r0)) (longopregs s)) ({[x]} ∪ r0))
      as (s' & -> & Hlo & Hsz & Hz); simpl.
    + by rewrite zlen_zwrite.
    + apply zread_zwrite_eq. lia.
    + done.
    + intros y Hy. specialize (Hfree y ltac:(by right)). set_solver.
    + exists s'. split_and!; try done. intros w'. rewrite Hz. destruct (Z.eqb_spec w w') as [<-|].
      * f_equal. set_solver.
      * simpl. by rewrite zread_zwrite_ne.
Qed.

(** Reserving a register twice aborts. *)
Lemma reserve_taken s w l r0 :
  zlen (reg_table s) = n_warps -> 0 <= w < n_warps -> zread (reg_table s) w = Some r0 ->
  ¬ (NoDup l /\ forall x, x ∈ l -> x ∉ r0) ->
  fold_outcome (fun s r => reserveRegister s w r) s l = Err ErrorMsg.
Proof.
  intros Hl Hw. revert s r0 Hl. induction l as [|x l IH]; intros s r0 Hl Hr Hbad; simpl.
  - destruct Hbad. split; [constructor|]. by intros x Hx%elem_of_nil.
  - unfold reserveRegister at 2. rewrite (proj2 (aread_ok _ _ _) Hr), bind_of_ok.
    case_bool_decide as Hx; [done|]. rewrite awrite_in, !bind_of_ok by lia.
    apply (IH _ ({[x]} ∪ r0)); simpl; [by rewrite zlen_zwrite|apply zread_zwrite_eq; lia|].
    intros [Hnd Hfree]. apply Hbad. split.
    + constructor; [|done]. intros Hin. apply Hfree in Hin. set_solver.
    + intros y [->|Hy]%elem_of_cons; [done|]. apply Hfree in Hy. set_solver.
Qed.

Lemma board_release_spec s w x r0 :
  zlen (reg_table s) = n_warps -> 0 <= w < n_warps -> zread (reg_table s) w = Some r0 ->
  exists s', releaseRegister s w x = Ok s' /\ longopregs s' = longopregs s /\ zlen (reg_table s') = n_warps /\
    forall w', zread (reg_table s') w' = if w =? w' then Some (r0 ∖ {[x]}) else zread (reg_table s) w'.
Proof.
  intros Hl Hw Hr. unfold releaseRegister. rewrite (proj2 (aread_ok _ _ _) Hr), bind_of_ok.
  case_bool_decide as Hx.
  - exists s. split_and!; try done. intros w'. destruct (Z.eqb_spec w w') as [<-|]; [|done].
    rewrite Hr. f_equal. set_solver.
  - rewrite awrite_in, bind_of_ok by lia. eexists. split; [reflexivity|]. simpl. rewrite zlen_zwrite.
    split_and!; try done. intros w'. rewrite zread_zwrite by lia. done.
Qed.

Lemma release_all s w l r0 :
  zlen (reg_table s) = n_warps -> 0 <= w < n_warps -> zread (reg_table s) w = Some r0 ->
  exists s', fold_outcome (fun s r => releaseRegister s w r) s l = Ok s' /\
    longopregs s' = longopregs s /\ zlen (reg_table s') = n_warps /\
    forall w', zread (reg_table s') w' = if w =? w' then Some (r0 ∖ list_to_set l) else zread (reg_table s) w'.
Proof.
  intros Hl Hw. revert s r0 Hl. induction l as [|x l IH]; intros s r0 Hl Hr; simpl.
  - exists s. split_and!; try done. intros w'. destruct (Z.eqb_spec w w') as [<-|]; [|done].
    rewrite Hr. f_equal. set_solver.
  - destruct (board_release_spec s w x r0 Hl Hw Hr) as (s1 & -> & Hlo1 & Hsz1 & Hz1). rewrite bind_of_ok.
    destruct (IH s1 (r0 ∖ {[x]})) as (s' & -> & Hlo & Hsz & Hz); [done|by rewrite Hz1, Z.eqb_refl|].
    exists s'. split_and!; try done; [congruence|]. intros w'. rewrite Hz, Hz1.
    destruct (Z.eqb_spec w w') as [<-|]; [|done]. f_equal. set_solver.
Qed.

Lemma board_table s fl w : board_inv n_warps (s, fl) -> 0 <= w < n_warps ->
  zread (reg_table s) w = Some (in_flight fl w).
Proof.
  intros [[Hl _] Ht _ _] Hw. destruct (table_read s w Hl Hw) as (r & Hr & _).
  rewrite Hr. f_equal. by apply Ht.
Qed.

(** The check sees exactly the dependences. *)
Lemma check_spec s fl w i : board_inv n_warps (s, fl) -> 0 <= w < n_warps ->
  checkCollision s w i = Ok (bool_decide (inst_regs i ∩ in_flight fl w <> ∅)).
Proof.
  intros Hi Hw. unfold checkCollision.
  by rewrite (proj2 (aread_ok _ _ _) (board_table s fl w Hi Hw)), bind_of_ok.
Qed.

Lemma reserve_spec s fl w i :
  board_inv n_warps (s, fl) -> 0 <= w < n_warps -> NoDup (regs (out i)) ->
  checkCollision s w i = Ok false ->
  exists s', reserveRegisters s w i = Ok s' /\ board_inv n_warps (s', mkFlight w (out_set i) :: fl).
Proof.
  intros Hi Hw Hnd Hc. rewrite (check_spec s fl) in Hc by done. injection Hc as Hc%bool_decide_eq_false.
  assert (Hdis : out_set i ## in_flight fl w).
  { unfold inst_regs in Hc. unfold out_set. rewrite list_to_set_app_L in Hc. set_solver. }
  pose proof (board_table s fl w Hi Hw) as Hr. destruct Hi as [[Hl Hl2] Ht Ha Hf]. simpl in *.
  destruct (reserve_all s w (regs (out i)) (in_flight fl w)) as (s' & E & Hlo & Hsz & Hz); try done.
  { intros x Hx. unfold out_set in Hdis. set_solver. }
  assert (Hinv : forall l', zlen l' = n_warps ->
    board_inv n_warps (mkScoreboard (reg_table s') l', mkFlight w (out_set i) :: fl)).
  { intros l' Hl'. split; simpl; [done| | |].
    - intros w' r. rewrite Hz, in_flight_cons. simpl. destruct (Z.eqb_spec w w') as [<-|].
      + rewrite decide_True by done. by intros [= <-].
      + rewrite decide_False by done. intros ->%Ht. set_solver.
    - split; done.
    - by constructor. }
  unfold reserveRegisters. rewrite E, bind_of_ok. destruct (i_is_load i && _).
  - destruct (aread_in (longopregs s') w) as (l & _ & ->); [rewrite Hlo; lia|].
    rewrite bind_of_ok, awrite_in, bind_of_ok by (rewrite Hlo; lia). eexists. split; [reflexivity|].
    apply Hinv. by rewrite zlen_zwrite, Hlo.
  - exists s'. split; [done|]. destruct s' as [t l']. apply Hinv. simpl in *. by rewrite Hlo.
Qed.

Lemma reserve_twice s fl w i :
  board_inv n_warps (s, fl) -> 0 <= w < n_warps -> ¬ NoDup (regs (out i)) ->
  reserveRegisters s w i = Err ErrorMsg.
Proof.
  intros Hi Hw Hnd. pose proof (board_table s fl w Hi Hw) as Hr. destruct Hi as [[Hl _] _ _ _].
  unfold reserveRegisters. by rewrite (reserve_taken s w _ _ Hl Hw Hr) by tauto.
Qed.

Lemma board_step_inv st st' : board_inv n_warps st -> board_step n_warps st st' -> board_inv n_warps st'.
Proof.
  intros Hi Hs. destruct Hs as [s fl w i s' Hw Hc E|s fl1 fl2 w i s' E|s fl1 fl2 w X r s' Hr E].
  - destruct (decide (NoDup (regs (out i)))) as [Hnd|Hnd]; [|by rewrite (reserve_twice s fl) in E].
    destruct (reserve_spec s fl w i Hi Hw Hnd Hc) as (s2 & E2 & ?). congruence.
  - pose proof (bi_warps _ _ Hi) as Hf. simpl in Hf. apply Forall_app in Hf as [Hf1 Hf2].
    apply Forall_cons in Hf2 as [Hw Hf2]. simpl in Hw.
    pose proof (board_table _ _ w Hi Hw) as Hr. destruct Hi as [[Hl Hl2] Ht Ha Hf]. simpl in *.
    apply apart_middle in Ha as [Ha Hd]. simpl in Hd.
    unfold releaseRegisters in E. destruct (release_all s w (regs (out i)) _ Hl Hw Hr) as (s1 & E1 & Hlo & Hsz & Hz).
    rewrite E1, bind_of_ok, awrite_in, bind_of_ok in E by (rewrite Hlo; lia). injection E as <-.
    split; simpl; [rewrite zlen_zwrite, Hlo; done| |done|by apply Forall_app].
    intros w' r. rewrite Hz, in_flight_middle. simpl. destruct (Z.eqb_spec w w') as [<-|].
    + rewrite decide_True by done. intros [= <-]. unfold out_set in *. set_solver.
    + intros ->%Ht. rewrite in_flight_middle. simpl. rewrite decide_False by done. set_solver.
  - pose proof (bi_warps _ _ Hi) as Hf. simpl in Hf. apply Forall_app in Hf as [Hf1 Hf2].
    apply Forall_cons in Hf2 as [Hw Hf2]. simpl in Hw.
    pose proof (board_table _ _ w Hi Hw) as Hrd. destruct Hi as [[Hl Hl2] Ht Ha Hf]. simpl in *.
    apply apart_middle in Ha as [Ha Hd]. simpl in Hd.
    destruct (board_release_spec s w r _ Hl Hw Hrd) as (s1 & E1 & Hlo & Hsz & Hz). rewrite E in E1. injection E1 as <-.
    split; simpl; [by rewrite Hlo| | |].
    + intros w' x. rewrite Hz, !in_flight_middle. simpl. destruct (Z.eqb_spec w w') as [<-|].
      * rewrite !decide_True by done. intros [= <-]. set_solver.
      * intros ->%Ht. rewrite in_flight_middle. simpl. by rewrite !decide_False by done.
    + apply apart_middle. simpl. split; [done|set_solver].
    + apply Forall_app. split; [done|]. by constructor.
Qed.

Lemma board_new_inv : 0 <= n_warps -> board_inv n_warps (Scoreboard_new n_warps, []).
Proof.
  intros Hn. split; simpl; try done.
  - by rewrite !zlen_replicate.
  - intros w r. rewrite zread_replicate. destruct (_ && _); [by intros [= <-]|done].
Qed.

Lemma board_reachable st : 0 <= n_warps -> rtc (board_step n_warps) (Scoreboard_new n_warps, []) st -> board_inv n_warps st.
Proof.
  intros Hn H. remember (Scoreboard_new n_warps, []) as s0 eqn:E. assert (board_inv n_warps s0) as H0.
  { subst. by apply board_new_inv. } clear E.
  induction H as [|x y z Hs _ IH]; [done|]. by eapply IH, board_step_inv.
Qed.
End run.

(** Register [r] is an operand of the instruction. *)
Definition uses (i : inst_t) (r : Z) : Prop :=
  0 < r /\ (r ∈ out i \/ r ∈ in_ i \/ r = pred i \/ r = ar1 i \/ r = ar2 i).

Lemma elem_of_inst_regs i r : r ∈ inst_regs i <-> uses i r.
Proof.
  unfold inst_regs, uses, regs. rewrite elem_of_list_to_set, !elem_of_app, !list_elem_of_filter, !elem_of_cons, elem_of_nil.
  tauto.
Qed.

(** C25: Whatever has been issued, written back and completed: an instruction is held
    back exactly when one of its registers has still to be written by an instruction of
    its warp in flight; an instruction that is let through and whose output registers
    are distinct reserves them without the scoreboard's abort, and one that names an
    output register twice aborts; no two instructions in flight write the same register;
    and a warp has pending writes exactly when some are left. *)
Theorem scoreboard_tracks_dependences n_warps s fl w i :
  0 <= n_warps -> rtc (board_step n_warps) (Scoreboard_new n_warps, []) (s, fl) -> 0 <= w < n_warps ->
  apart fl /\
  (exists held, checkCollision s w i = Ok held /\
     (held = true <-> exists r, uses i r /\ r ∈ in_flight fl w)) /\
  (checkCollision s w i = Ok false -> NoDup (regs (out i)) -> is_ok (reserveRegisters s w i)) /\
  (¬ NoDup (regs (out i)) -> reserveRegisters s w i = Err ErrorMsg) /\
  pendingWrites s w = Ok (bool_decide (in_flight fl w <> ∅)).
Proof.
  intros Hn Hr Hw. apply board_reachable in Hr; [|done]. split_and!.
  - apply (bi_apart _ _ Hr).
  - exists (bool_decide (inst_regs i ∩ in_flight fl w <> ∅)). split; [by apply check_spec with n_warps|].
    rewrite bool_decide_eq_true. split.
    + intros [r Hr']%set_choose_L. exists r. rewrite <- elem_of_inst_regs. set_solver.
    + intros (r & Hu%elem_of_inst_regs & Hf). set_solver.
  - intros Hc Hnd. destruct (reserve_spec n_warps s fl w i Hr Hw Hnd Hc) as (s' & -> & _). by eexists.
  - by apply reserve_twice with n_warps fl.
  - unfold pendingWrites. by rewrite (proj2 (aread_ok _ _ _) (board_table n_warps s fl w Hr Hw)), bind_of_ok.
Qed.

(** * A short run *)

Definition demo_inst_t : inst_t := mkInst [5; 0; 0; 0] [3; 4; 0; 0] 0 0 0 true global_space.
Definition demo_dep : inst_t := mkInst [6; 0; 0; 0] [5; 0; 0; 0] 0 0 0 false undefined_space.

Lemma demo_issued : exists s, rtc (board_step 2) (Scoreboard_new 2, []) (s, [mkFlight 1 (out_set demo_inst_t)]) /\
  reserveRegisters (Scoreboard_new 2) 1 demo_inst_t = Ok s.
Proof.
  destruct (reserve_spec 2 (Scoreboard_new 2) [] 1 demo_inst_t) as (s & E & _);
    [by apply board_new_inv|lia|by vm_compute; repeat constructor; set_solver|by vm_compute|].
  exists s. split; [|done]. apply rtc_once. apply issue; [lia|by vm_compute|done].
Qed.

Lemma scoreboard_tracks_dependences_witness :
  exists s, reserveRegisters (Scoreboard_new 2) 1 demo_inst_t = Ok s /\ checkCollision s 1 demo_dep = Ok true /\
    checkCollision s 0 demo_dep = Ok false.
Proof.
  destruct demo_issued as (s & Hr & E). exists s. split; [exact E|].
  destruct (scoreboard_tracks_dependences 2 s _ 1 demo_dep ltac:(lia) Hr ltac:(lia)) as (_ & (h1 & E1 & H1) & _).
  destruct (scoreboard_tracks_dependences 2 s _ 0 demo_dep ltac:(lia) Hr ltac:(lia)) as (_ & (h0 & E0 & H0) & _).
  rewrite E1, E0. split; f_equal.
  - apply H1. exists 5. split; [split; [lia|right; left; left]|]. by apply (bool_decide_unpack _); vm_compute.
  - apply not_true_iff_false. rewrite H0. intros (r & _ & Hf).
    assert (in_flight [mkFlight 1 (out_set demo_inst_t)] 0 = ∅) as E2 by (vm_compute; reflexivity).
    rewrite E2 in Hf. by apply elem_of_empty in Hf.
Defined.

(** A load is meant to mark its destination as waiting for memory; what is marked is the index
    of the operand. *)
Example long_operations_mark_operand_index :
  (s ← reserveRegisters (Scoreboard_new 1) 0 demo_inst_t; islongop s 0 5) = Ok false /\
  (s ← reserveRegisters (Scoreboard_new 1) 0 demo_inst_t; islongop s 0 0) = Ok true.
Proof. split; vm_compute; reflexivity. Qed.

(** A vector destination that names a register twice passes the check, and issuing the
    instruction then aborts. *)
Definition demo_twice : inst_t := mkInst [5; 5; 0; 0] [3; 0; 0; 0] 0 0 0 false undefined_space.

Example register_named_twice_aborts :
  checkCollision (Scoreboard_new 1) 0 demo_twice = Ok false /\
  reserveRegisters (Scoreboard_new 1) 0 demo_twice = Err ErrorMsg.
Proof. split; vm_compute; reflexivity. Qed.
