(* ===== verification/GpuMisc.v ===== *)
(** * Logarithms and histograms of the GPU model

    [gpgpu-sim/gpu-misc.cc] ([LOGB2]), the copy of it and [powli] in
    [gpgpu-sim/addrdec.cc], and the histograms of [gpgpu-sim/histogram.{h,cc}],
    which sort samples into bins by their number of bits or by a fixed stride.
    The bit tricks are shown equal to the logarithm they stand for. *)

From S2P Require Import Prelude.

Definition flag (b : bool) : Z := Z.b2z b.

(** One line of [LOGB2]: the value left and the bits of the result so far. *)
Definition log_line (mask k : Z) (s : Z * Z) : Z * Z :=
  let shift := Z.shiftl (flag (negb (Z.land s.1 mask =? 0))) k in
  (Z.shiftr s.1 shift, Z.lor s.2 shift).

Definition LOGB2 (v : Z) : Z :=
  let s := (v, 0) in
  let s := log_line 0xFFFF0000 4 s in
  let s := log_line 0xFF00 3 s in
  let s := log_line 0xF0 2 s in
  let s := log_line 0xC 1 s in
  let s := log_line 0x2 0 s in
  s.2.

(** The copy in [addrdec.cc]. *)
Definition LOGB2_32 (v : Z) : Z :=
  let s := (v, 0) in
  let s := log_line 0xFFFF0000 4 s in
  let s := log_line 0xFF00 3 s in
  let s := log_line 0xF0 2 s in
  let s := log_line 0xC 1 s in
  let s := log_line 0x2 0 s in
  s.2.

(** [long int]: a product outside 64 bits is undefined, here wrapped. *)
Fixpoint powli_loop (n : nat) (x r : Z) : Z :=
  match n with O => r | S n' => powli_loop n' x (s64 (r * x)) end.
Definition powli (x y : Z) : Z := powli_loop (Z.to_nat y) x 1.

(** * Histograms *)

Record binned_histogram := mkBins {
  m_nbins : Z;
  m_bin_cnts : list Z;
  m_maximum : Z;
  m_sum : Z;
}.
Definition binned_histogram_new (nbins : Z) : binned_histogram :=
  mkBins nbins (replicate (Z.to_nat nbins) 0) 0 0.
Definition reset_bins (h : binned_histogram) : binned_histogram :=
  mkBins (m_nbins h) (replicate (Z.to_nat (m_nbins h)) 0) (m_maximum h) (m_sum h).
(** The copy constructor keeps the counters and drops maximum and sum. *)
Definition binned_histogram_copy (other : binned_histogram) : binned_histogram :=
  mkBins (m_nbins other) (m_bin_cnts other) 0 0.

Definition count_sample (h : binned_histogram) (bin sample : Z) : outcome binned_histogram :=
  n ← aread (m_bin_cnts h) bin;
  cnts ← awrite (m_bin_cnts h) bin (s32 (n + 1));
  mret (mkBins (m_nbins h) cnts (if m_maximum h <? sample then sample else m_maximum h) (s64 (m_sum h + sample))).

(** One line of the binning: [shift = (v > bound) << k; v >>= shift; bin |= shift]. *)
Definition bin_line (bound k : Z) (s : Z * Z) : Z * Z :=
  let shift := Z.shiftl (flag (bound <? s.1)) k in (Z.shiftr s.1 shift, Z.lor s.2 shift).
Definition pow2_bin (sample : Z) : Z :=
  let s := (sample, 0) in
  let s := bin_line 0xFFFF 4 s in
  let s := bin_line 0xFF 3 s in
  let s := bin_line 0xF 2 s in
  let s := bin_line 0x3 1 s in
  Z.lor s.2 (Z.shiftr s.1 1) + (if 0 <? sample then 1 else 0).

(** [pow2_histogram::add2bin] and [linear_histogram::add2bin]. *)
Definition pow2_add2bin (h : binned_histogram) (sample : Z) : outcome binned_histogram :=
  cassert (0 <=? sample);; count_sample h (pow2_bin sample) sample.
Definition linear_add2bin (m_stride : Z) (h : binned_histogram) (sample : Z) : outcome binned_histogram :=
  cassert (0 <=? sample);;
  let bin := Z.quot sample m_stride in
  count_sample h (if m_nbins h <=? bin then m_nbins h - 1 else bin) sample.

(** * The logarithm *)

Lemma land_high_zero v n m : 0 <= n -> 0 <= m -> 0 <= v < 2 ^ (n + m) ->
  Z.land v (Z.shiftl (Z.ones m) n) = 0 <-> v < 2 ^ n.
Proof.
  intros Hn Hm Hv. split.
  - intros E. apply Z.nle_gt. intros Hge. assert (0 < v) by (pose proof (Z.pow_pos_nonneg 2 n); lia).
    pose proof (proj1 (Z.log2_le_pow2 v n ltac:(lia)) Hge) as Hl.
    pose proof (proj1 (Z.log2_lt_pow2 v (n + m) ltac:(lia)) (proj2 Hv)) as Hl'.
    assert (Z.testbit (Z.land v (Z.shiftl (Z.ones m) n)) (Z.log2 v) = true) as H1; [|by rewrite E, Z.bits_0 in H1].
    rewrite Z.land_spec, Z.bit_log2, Z.shiftl_spec, Z.ones_spec_low by lia. done.
  - intros Hlt. apply Z.bits_inj'. intros i Hi. rewrite Z.land_spec, Z.bits_0, Z.shiftl_spec by lia.
    destruct (Z.lt_ge_cases i n); [by rewrite (Z.testbit_neg_r _ (i - n)), andb_false_r by lia|].
    by rewrite (testbit_above v n i) by lia.
Qed.

(** Shifting out [d] low bits of a number with more than [d] bits. *)
Lemma log2_shift v d : 0 <= d -> 2 ^ d <= v ->
  0 < Z.shiftr v d /\ Z.log2 v = Z.log2 (Z.shiftr v d) + d.
Proof.
  intros Hd Hv. pose proof (Z.pow_pos_nonneg 2 d ltac:(lia) Hd).
  pose proof (proj1 (Z.log2_le_pow2 v d ltac:(lia)) Hv) as Hl.
  rewrite Z.log2_shiftr by lia. rewrite Z.shiftr_div_pow2 by lia. split; [|lia].
  apply Z.div_str_pos. lia.
Qed.

(** What one line does to a value of at most [2 d] bits, [d = 2 ^ k]. *)
Record halved (d : Z) (big : bool) (s s' : Z * Z) : Prop := {
  hv_rest : 0 <= s'.1 < 2 ^ d;
  hv_log : Z.log2 s.1 = Z.log2 s'.1 + (if big then d else 0);
  hv_acc : s'.2 = Z.lor s.2 (if big then d else 0);
  hv_sign : 0 < s.1 -> 0 < s'.1;
}.

Lemma halve_shift d k big s : d = 2 ^ k -> 0 <= k -> 0 <= s.1 < 2 ^ (2 * d) -> (big = true <-> 2 ^ d <= s.1) ->
  halved d big s (Z.shiftr s.1 (Z.shiftl (flag big) k), Z.lor s.2 (Z.shiftl (flag big) k)).
Proof.
  intros Hd Hk Hv Hb. assert (0 < d) by (subst; apply Z.pow_pos_nonneg; lia). destruct big.
  - assert (Z.shiftl (flag true) k = d) as -> by (unfold flag; rewrite Z.shiftl_1_l; lia).
    destruct (log2_shift s.1 d) as [? E]; [lia|tauto|]. split; simpl; try done.
    split; [lia|]. rewrite Z.shiftr_div_pow2 by lia. apply Z.div_lt_upper_bound; [lia|].
    rewrite <- Z.pow_add_r by lia. replace (d + d) with (2 * d) by lia. lia.
  - assert (Z.shiftl (flag false) k = 0) as -> by apply Z.shiftl_0_l.
    rewrite Z.shiftr_0_r. assert (~ 2 ^ d <= s.1) by (rewrite <- Hb; done). split; simpl; lia.
Qed.

Lemma log_line_spec k s : 0 <= k -> 0 <= s.1 < 2 ^ (2 * 2 ^ k) ->
  exists big, halved (2 ^ k) big s (log_line (Z.shiftl (Z.ones (2 ^ k)) (2 ^ k)) k s).
Proof.
  intros Hk Hv. assert (0 < 2 ^ k) by (apply Z.pow_pos_nonneg; lia). unfold log_line. eexists. apply halve_shift; [done..|].
  pose proof (land_high_zero s.1 (2 ^ k) (2 ^ k)) as H0. replace (2 ^ k + 2 ^ k) with (2 * 2 ^ k) in H0 by lia.
  specialize (H0 ltac:(lia) ltac:(lia) Hv). destruct (Z.eqb_spec (Z.land s.1 (Z.shiftl (Z.ones (2 ^ k)) (2 ^ k))) 0); naive_solver lia.
Qed.

Lemma bin_line_spec k s : 0 <= k -> 0 <= s.1 < 2 ^ (2 * 2 ^ k) ->
  exists big, halved (2 ^ k) big s (bin_line (2 ^ 2 ^ k - 1) k s).
Proof.
  intros Hk Hv. unfold bin_line. eexists. apply halve_shift; [done..|]. rewrite Z.ltb_lt. lia.
Qed.

(** Five halvings leave the logarithm. *)
Lemma five_halvings v s1 s2 s3 s4 s5 b1 b2 b3 b4 b5 :
  halved 16 b1 (v, 0) s1 -> halved 8 b2 s1 s2 -> halved 4 b3 s2 s3 -> halved 2 b4 s3 s4 -> halved 1 b5 s4 s5 ->
  s5.2 = Z.log2 v.
Proof.
  intros [? L1 A1 _] [? L2 A2 _] [? L3 A3 _] [? L4 A4 _] [R5 L5 A5 _].
  assert (Z.log2 s5.1 = 0) as E by (apply Z.log2_null; lia).
  rewrite A5, A4, A3, A2, A1. simpl in L1. rewrite L1, L2, L3, L4, L5, E. by destruct b1, b2, b3, b4, b5.
Qed.

Lemma LOGB2_spec v : 0 <= v < 2 ^ 32 -> LOGB2 v = Z.log2 v.
Proof.
  intros Hv. unfold LOGB2.
  destruct (log_line_spec 4 (v, 0)) as [b1 H1]; [lia|simpl; lia|].
  destruct (log_line_spec 3 _ ltac:(lia) (hv_rest _ _ _ _ H1)) as [b2 H2].
  destruct (log_line_spec 2 _ ltac:(lia) (hv_rest _ _ _ _ H2)) as [b3 H3].
  destruct (log_line_spec 1 _ ltac:(lia) (hv_rest _ _ _ _ H3)) as [b4 H4].
  destruct (log_line_spec 0 _ ltac:(lia) (hv_rest _ _ _ _ H4)) as [b5 H5].
  exact (five_halvings _ _ _ _ _ _ _ _ _ _ _ H1 H2 H3 H4 H5).
Qed.

Lemma LOGB2_32_spec v : 0 <= v < 2 ^ 32 -> LOGB2_32 v = Z.log2 v.
Proof. apply LOGB2_spec. Qed.

Lemma powli_2 y : 0 <= y < 63 -> powli 2 y = 2 ^ y.
Proof.
  intros Hy. unfold powli. assert (forall n r, 0 < r -> r * 2 ^ Z.of_nat n < 2 ^ 63 -> powli_loop n 2 r = r * 2 ^ Z.of_nat n) as H.
  { induction n as [|n IH]; intros r Hr Hb; simpl powli_loop; [lia|].
    rewrite Nat2Z.inj_succ, Z.pow_succ_r in * by lia.
    assert (0 < 2 ^ Z.of_nat n) by (apply Z.pow_pos_nonneg; lia).
    rewrite swrap_small by (simpl; nia). rewrite IH; nia. }
  rewrite H; rewrite ?Z2Nat.id by lia; [lia|lia|].
  pose proof (Z.pow_lt_mono_r 2 y 63). lia.
Qed.

Lemma last_bin_line s : 0 <= s.1 < 2 ^ 2 ^ 1 -> Z.lor s.2 (Z.shiftr s.1 1) = (bin_line (2 ^ 2 ^ 0 - 1) 0 s).2.
Proof.
  destruct s as [v r]. simpl. intros Hv. f_equal. change (2 ^ 2 ^ 0 - 1) with 1.
  assert (v = 0 \/ v = 1 \/ v = 2 \/ v = 3) as [->|[->|[->| ->]]] by lia; done.
Qed.

(** The bin of a sample is its number of bits. *)
Lemma pow2_bin_spec sample : 0 <= sample < 2 ^ 31 ->
  pow2_bin sample = (if 0 <? sample then Z.log2 sample + 1 else 0) /\ 0 <= pow2_bin sample < 32.
Proof.
  intros Hs.
  assert (pow2_bin sample = Z.log2 sample + (if 0 <? sample then 1 else 0)) as E.
  { unfold pow2_bin. f_equal.
    destruct (bin_line_spec 4 (sample, 0)) as [b1 H1]; [lia|simpl; lia|].
    destruct (bin_line_spec 3 _ ltac:(lia) (hv_rest _ _ _ _ H1)) as [b2 H2].
    destruct (bin_line_spec 2 _ ltac:(lia) (hv_rest _ _ _ _ H2)) as [b3 H3].
    destruct (bin_line_spec 1 _ ltac:(lia) (hv_rest _ _ _ _ H3)) as [b4 H4].
    destruct (bin_line_spec 0 _ ltac:(lia) (hv_rest _ _ _ _ H4)) as [b5 H5].
    etransitivity; [|exact (five_halvings _ _ _ _ _ _ _ _ _ _ _ H1 H2 H3 H4 H5)].
    exact (last_bin_line _ (hv_rest _ _ _ _ H4)). }
  destruct (Z.ltb_spec 0 sample).
  - pose proof (proj1 (Z.log2_lt_pow2 sample 31 ltac:(lia)) ltac:(lia)). pose proof (Z.log2_nonneg sample). lia.
  - assert (sample = 0) as -> by lia. by vm_compute.
Qed.

(** A histogram with the 32 bins of the default constructor takes every sample. *)
Definition has_bins (h : binned_histogram) : Prop := zlen (m_bin_cnts h) = 32.

Lemma has_bins_new : has_bins (binned_histogram_new 32).
Proof. by apply zlen_replicate. Qed.

Lemma pow2_add2bin_ok h sample : has_bins h -> 0 <= sample < 2 ^ 31 ->
  exists h', pow2_add2bin h sample = Ok h' /\ has_bins h'.
Proof.
  intros Hh Hs. unfold pow2_add2bin, count_sample. rewrite (proj2 (Z.leb_le 0 sample)) by lia. simpl.
  destruct (pow2_bin_spec sample Hs) as [_ Hb]. unfold has_bins in *.
  destruct (aread_in (m_bin_cnts h) (pow2_bin sample)) as (x & _ & ->); [lia|]. rewrite bind_of_ok.
  rewrite awrite_in by lia. rewrite bind_of_ok. eexists. split; [reflexivity|]. simpl. by rewrite zlen_zwrite.
Qed.
