(* ===== verification/AddrDec.v ===== *)
(** * Address decoding for the memory partitions

    [linear_to_raw_address_translation] of [gpgpu-sim/addrdec.{h,cc}]: a linear
    address is split into memory partition ([chip]), bank, row, column and burst.
    With a power-of-two number of partitions every field is a set of address bits
    given by a mask; otherwise partition and rest are a remainder and a quotient.

    The theorems show that both paths compute the same reference decoding, that
    it is one to one on the addresses the masks cover, and that the program's own
    sweep test therefore passes for each built-in mapping. *)

From Stdlib Require Import Ascii String.
From S2P Require Import Prelude Bitset GpuMisc.

(** One entry for each of CHIP, BK, ROW, COL and BURST: [addrdec_t] and the three
    arrays of the translator. *)
Record addrdec_t := mkAddr { chip : Z; bk : Z; row : Z; col : Z; burst : Z }.
#[export] Instance addrdec_eq_dec : EqDecision addrdec_t.
Proof. solve_decision. Defined.

Record translation := mkTranslation {
  addrdec_option : option (list ascii);
  gpgpu_mem_address_mask : Z;
  run_test : bool;
  ADDR_CHIP_S : Z;
  addrdec_mklow : addrdec_t;
  addrdec_mkhigh : addrdec_t;
  addrdec_mask : addrdec_t;
  gap : Z;
  Nchips : Z;
}.

(** The constructor, with the options that were parsed. *)
Definition translation_new (opt : option (list ascii)) (mode : Z) (test : bool) : translation :=
  mkTranslation opt mode test 10 (mkAddr 0 0 0 0 0) (mkAddr 64 64 64 64 64)
    (mkAddr 0x1C00 0x300 0xFFF0000 0xE0FF 0xF) 0 0.

Definition pack_bit (mask val i : Z) (s : Z * Z) : Z * Z :=
  if Z.land mask (Z.shiftl 1 i) =? 0 then s
  else (Z.lor s.1 (Z.shiftl (Z.shiftr (Z.land val (Z.shiftl 1 i)) i) s.2), s.2 + 1).
Definition addrdec_packbits (mask val high low : Z) : Z :=
  (fold_left (fun s i => pack_bit mask val i s) (seqZ low (high - low)) (0, 0)).1.

(** The state is [high], [low] and [low_found]. *)
Definition limit_bit (mask i : Z) (s : Z * Z * bool) : Z * Z * bool :=
  if Z.land mask (Z.shiftl 1 i) =? 0 then s
  else (i + 1, (if s.2 then s.1.2 else i), true).
Definition addrdec_getmasklimit (mask : Z) : Z * Z :=
  (fold_left (fun s i => limit_bit mask i s) (seqZ 0 64) (64, 0, false)).1.

(** [(1 << ADDR_CHIP_S) - 1] on an [int] and on an [unsigned long long]. *)
Definition int_mask (s : Z) : outcome Z :=
  if (0 <=? s) && (s <? 31) then Ok (Z.shiftl 1 s - 1) else Err Undefined.
Definition ull_bit (s : Z) : outcome Z :=
  if (0 <=? s) && (s <? 64) then Ok (Z.shiftl 1 s) else Err Undefined.

(** The address with the partition taken out, when their number is no power of two. *)
Definition rest_of_addr (t : translation) (addr : Z) : outcome Z :=
  m ← int_mask (ADDR_CHIP_S t);
  mret (Z.lor (u64 (Z.shiftl (Z.shiftr addr (ADDR_CHIP_S t) / Nchips t) (ADDR_CHIP_S t))) (Z.land addr m)).

Definition partition_address (t : translation) (addr : Z) : outcome Z :=
  if gap t =? 0 then mret (addrdec_packbits (u64 (Z.lnot (chip (addrdec_mask t)))) addr 64 0)
  else rest_of_addr t addr.

(** The fields of [addrdec_t] are [unsigned]. *)
Definition pack_field (t : translation) (f : addrdec_t → Z) (addr : Z) : Z :=
  u32 (addrdec_packbits (f (addrdec_mask t)) addr (f (addrdec_mkhigh t)) (f (addrdec_mklow t))).

Definition addrdec_tlx (t : translation) (addr : Z) : outcome addrdec_t :=
  if gap t =? 0 then
    mret (mkAddr (pack_field t chip addr) (pack_field t bk addr) (pack_field t row addr)
                 (pack_field t col addr) (pack_field t burst addr))
  else
    rest ← rest_of_addr t addr;
    mret (mkAddr (u32 (Z.shiftr addr (ADDR_CHIP_S t) mod Nchips t)) (pack_field t bk rest) (pack_field t row rest)
                 (pack_field t col rest) (pack_field t burst rest)).

(** * The option string *)

Definition digit (c : ascii) : option Z :=
  let n := Z.of_nat (nat_of_ascii c) in if (48 <=? n) && (n <=? 57) then Some (n - 48) else None.
Definition is_blank (c : ascii) : bool :=
  let n := Z.of_nat (nat_of_ascii c) in ((9 <=? n) && (n <=? 13)) || (n =? 32).
Fixpoint skip_blank (s : list ascii) : list ascii :=
  match s with [] => [] | c :: s' => if is_blank c then skip_blank s' else s end.
Fixpoint read_digits (s : list ascii) (acc : option Z) : option Z :=
  match s with
  | [] => acc
  | c :: s' => match digit c with Some d => read_digits s' (Some (default 0 acc * 10 + d)) | None => acc end
  end.
(** [%d] of [sscanf]: blanks, a sign, digits; the value saturates at a [long]. *)
Definition scan_int (s : list ascii) : option Z :=
  let clamp v := Z.max (- 2 ^ 63) (Z.min (2 ^ 63 - 1) v) in
  match skip_blank s with
  | "-"%char :: s' => (fun v => clamp (- v)) <$> read_digits s' None
  | "+"%char :: s' => clamp <$> read_digits s' None
  | s' => clamp <$> read_digits s' None
  end.
Fixpoint strip_prefix (p s : list ascii) : option (list ascii) :=
  match p, s with
  | [], _ => Some s
  | a :: p', b :: s' => if decide (a = b) then strip_prefix p' s' else None
  | _, [] => None
  end.
Definition scan_dramid (opt : list ascii) : option Z :=
  match strip_prefix (list_ascii_of_string "dramid@") opt with Some s => scan_int s | None => None end.
(** [strchr]: the string from the first [c] on. *)
Fixpoint strchr (s : list ascii) (c : ascii) : option (list ascii) :=
  match s with [] => None | a :: s' => if decide (a = c) then Some s else strchr s' c end.

(** The fields a letter of the map gives its bit to; [None] for a letter that
    takes no bit. *)
Definition letter_bit (c : ascii) (b : Z) : option addrdec_t :=
  match c with
  | "D"%char | "d"%char => Some (mkAddr b 0 0 0 0)
  | "B"%char | "b"%char => Some (mkAddr 0 b 0 0 0)
  | "R"%char | "r"%char => Some (mkAddr 0 0 b 0 0)
  | "C"%char | "c"%char => Some (mkAddr 0 0 0 b 0)
  | "S"%char | "s"%char => Some (mkAddr 0 0 0 b b)
  | "0"%char => Some (mkAddr 0 0 0 0 0)
  | _ => None
  end.
Definition is_dram_letter (c : ascii) : bool := bool_decide (c = "D"%char) || bool_decide (c = "d"%char).
Definition takes_bit (c : ascii) : bool :=
  match letter_bit c 0 with Some _ => true | None => false end.
Definition or_masks (x y : addrdec_t) : addrdec_t :=
  mkAddr (Z.lor (chip x) (chip y)) (Z.lor (bk x) (bk y)) (Z.lor (row x) (row y))
         (Z.lor (col x) (col y)) (Z.lor (burst x) (burst y)).

(** The [while] over the characters of the map; a character that means nothing
    is reported and skipped. *)
Fixpoint parse_map (s : list ascii) (dramid_parsed : bool) (ofs : Z) (m : addrdec_t) : outcome (Z * addrdec_t) :=
  match s with
  | [] => mret (ofs, m)
  | c :: s' =>
      if takes_bit c then
        cassert (negb (is_dram_letter c && dramid_parsed));;
        b ← (if bool_decide (c = "0"%char) then Ok 0 else ull_bit ofs);
        parse_map s' dramid_parsed (ofs - 1) (or_masks m (default (mkAddr 0 0 0 0 0) (letter_bit c b)))
      else parse_map s' dramid_parsed ofs m
  end.

Definition addrdec_parseoption (t : translation) (opt : list ascii) : outcome translation :=
  let dramid := scan_dramid opt in
  let s := match dramid with Some d => s32 (u32 d) | None => -1 end in
  let cmapping := match strchr opt ";"%char with None => opt | Some r => drop 1 r end in
  '(ofs, m) ← parse_map cmapping (bool_decide (is_Some dramid)) 63 (mkAddr 0 0 0 0 0);
  cassert (ofs =? -1);;
  mret (mkTranslation (addrdec_option t) (gpgpu_mem_address_mask t) (run_test t) s
          (addrdec_mklow t) (addrdec_mkhigh t) m (gap t) (Nchips t)).

(** * Initialisation *)

(** The [switch] over the built-in mappings: where the partition bits go and the
    masks of bank, row and column. *)
Definition builtin_mapping (mode : Z) : option (Z * Z * Z * Z) :=
  let usual s := Some (s, 0x1800, 0x7FFE000, 0x7FF) in
  if mode =? 0 then Some (10, 0x300, 0x7FFE000, 0x1CFF)
  else if mode =? 1 then usual 13
  else if mode =? 2 then usual 11
  else if mode =? 3 then Some (11, 0x1800, 0xFFFE000, 0x7FF)
  else if mode =? 14 then usual 14
  else if mode =? 15 then usual 15
  else if mode =? 16 then usual 16
  else if mode =? 6 then usual 6
  else if mode =? 5 then usual 5
  else if mode =? 100 then Some (1, 0x3, 0x7FFE000, 0x1FFC)
  else if mode =? 103 then Some (3, 0x3, 0x7FFE000, 0x1FFC)
  else if mode =? 106 then usual 6
  else if mode =? 160 then Some (6, 0x300, 0x7FFE000, 0x1CFF)
  else None.

(** [((m & ~mask) << nchipbits) | (m & mask)] *)
Definition open_gap (mask nchipbits m : Z) : Z :=
  Z.lor (u64 (Z.shiftl (Z.land m (u64 (Z.lnot mask))) nchipbits)) (Z.land m mask).

Definition map_masks (g : Z → Z) (x : addrdec_t) : addrdec_t :=
  mkAddr (g (chip x)) (g (bk x)) (g (row x)) (g (col x)) (g (burst x)).

(** [sweep_test]: the decoded addresses met so far, and whether the partition
    address of this one may equal it. *)
Definition sweep_step (t : translation) (raw_addr : Z) (history : list (addrdec_t * Z)) :
    outcome (list (addrdec_t * Z)) :=
  tlx ← addrdec_tlx t raw_addr;
  if bool_decide (tlx ∈ history.*1) then Err ErrorMsg else
  cassert (s32 (chip tlx) <? Nchips t);;
  lo ← ull_bit (if ADDR_CHIP_S t =? -1 then chip (addrdec_mklow t) else ADDR_CHIP_S t);
  (if lo <=? raw_addr then p ← partition_address t raw_addr; cassert (negb (raw_addr =? p)) else mret tt);;
  mret ((tlx, raw_addr) :: history).
Fixpoint sweep_from (n : nat) (t : translation) (raw_addr : Z) (history : list (addrdec_t * Z)) :
    outcome (list (addrdec_t * Z)) :=
  match n with
  | O => mret history
  | S n' => h ← sweep_step t raw_addr history; sweep_from n' t (raw_addr + 4) h
  end.
Definition sweep_range : Z := 16 * 1024 * 1024.
Definition sweep_test (t : translation) : outcome (list (addrdec_t * Z)) :=
  sweep_from (Z.to_nat (sweep_range / 4 - 1)) t 4 [].

(** [init] up to the test. *)
Definition set_masks (t : translation) (nchips : Z) : outcome translation :=
  let nchipbits := LOGB2_32 nchips in
  let gap := u32 (nchips - powli 2 nchipbits) in
  let nchipbits := if gap =? 0 then nchipbits else nchipbits + 1 in
  let t := match builtin_mapping (gpgpu_mem_address_mask t) with
    | Some (s, b, r, c) =>
        mkTranslation (addrdec_option t) (gpgpu_mem_address_mask t) (run_test t) s (addrdec_mklow t)
          (addrdec_mkhigh t) (mkAddr 0 b r c (burst (addrdec_mask t))) gap (s32 nchips)
    | None =>
        mkTranslation (addrdec_option t) (gpgpu_mem_address_mask t) (run_test t) (ADDR_CHIP_S t)
          (addrdec_mklow t) (addrdec_mkhigh t) (addrdec_mask t) gap (s32 nchips)
    end in
  t ← match addrdec_option t with Some o => addrdec_parseoption t o | None => mret t end;
  let m := addrdec_mask t in
  masks ←
    (if ADDR_CHIP_S t =? -1 then cassert (Z.land nchips (u32 (nchips - 1)) =? 0);; mret m
     else if gap =? 0 then
       b ← ull_bit (ADDR_CHIP_S t);
       let open := open_gap (b - 1) nchipbits in
       c ← for_range (ADDR_CHIP_S t) (ADDR_CHIP_S t + nchipbits)
             (fun i c => x ← ull_bit i; mret (Z.lor c x)) (chip m);
       mret (mkAddr c (open (bk m)) (open (row m)) (open (col m)) (burst m))
     else mret m);
  mret (mkTranslation (addrdec_option t) (gpgpu_mem_address_mask t) (run_test t) (ADDR_CHIP_S t)
     (map_masks (fun m => (addrdec_getmasklimit m).2) masks)
     (map_masks (fun m => (addrdec_getmasklimit m).1) masks) masks gap (Nchips t)).
Definition init (t : translation) (nchips : Z) : outcome translation :=
  t ← set_masks t nchips;
  (if run_test t then _ ← sweep_test t; mret tt else mret tt);;
  mret t.

(** * Packing bits *)

Lemma bit_clear m i : 0 <= i -> (Z.land m (Z.shiftl 1 i) =? 0) = negb (Z.testbit m i).
Proof.
  intros Hi. rewrite Z.shiftl_1_l. destruct (Z.testbit m i) eqn:E; simpl.
  - apply Z.eqb_neq. intros H0. assert (Z.testbit (Z.land m (2 ^ i)) i = true) as H1; [|by rewrite H0, Z.bits_0 in H1].
    by rewrite Z.land_spec, E, Z.pow2_bits_true.
  - apply Z.eqb_eq, Z.bits_inj'. intros j Hj. rewrite Z.land_spec, Z.bits_0, Z.pow2_bits_eqb by lia.
    destruct (Z.eqb_spec i j) as [<-|]; [by rewrite E|by rewrite andb_false_r].
Qed.

Lemma bit_of v i : 0 <= i -> Z.shiftr (Z.land v (Z.shiftl 1 i)) i = Z.b2z (Z.testbit v i).
Proof.
  intros Hi. rewrite Z.shiftl_1_l. apply Z.bits_inj'. intros j Hj. rewrite Z.shiftr_spec, Z.land_spec by done.
  destruct (Z.eq_dec j 0) as [->|].
  - rewrite Z.add_0_l, Z.pow2_bits_true, andb_true_r by done. by destruct (Z.testbit v i).
  - rewrite Z.pow2_bits_false, andb_false_r by lia. destruct (Z.testbit v i); simpl Z.b2z.
    + symmetry. apply (testbit_above 1 1); lia.
    + by rewrite Z.bits_0.
Qed.

(** The positions of a mask between two bounds, lowest first. *)
Definition positions (m low n : Z) : list Z := filter (fun i => Z.testbit m i) (seqZ low n).

(** The number whose bits are the bits of [v] at the positions [l]. *)
Definition picks (v : Z) (l : list Z) (r : Z) : Prop :=
  0 <= r /\ forall k, 0 <= k -> Z.testbit r k = match zread l k with Some p => Z.testbit v p | None => false end.

Lemma picks_unique v l r r' : picks v l r -> picks v l r' -> r = r'.
Proof. intros [_ H] [_ H']. apply Z.bits_inj'. intros k Hk. by rewrite H, H'. Qed.

Lemma picks_bound v l r : picks v l r -> r < 2 ^ zlen l.
Proof.
  intros [H0 H]. apply Z.nle_gt. intros Hle. pose proof (zlen_nonneg l). assert (0 < 2 ^ zlen l) by (apply Z.pow_pos_nonneg; lia).
  pose proof (proj1 (Z.log2_le_pow2 r (zlen l) ltac:(lia)) Hle) as Hl.
  pose proof (Z.bit_log2 r ltac:(lia)) as Hb. rewrite H, zread_none in Hb; [done|lia|lia].
Qed.

Lemma picks_snoc v l r p : picks v l r -> picks v (l ++ [p]) (Z.lor r (Z.shiftl (Z.b2z (Z.testbit v p)) (zlen l))).
Proof.
  intros Hp. pose proof (picks_bound v l r Hp) as Hb. destruct Hp as [H0 H]. pose proof (zlen_nonneg l). split.
  - apply Z.lor_nonneg. split; [done|]. apply Z.shiftl_nonneg. destruct (Z.testbit v p); simpl; lia.
  - intros k Hk. rewrite Z.lor_spec, H, Z.shiftl_spec, zread_app by done.
    destruct (Z.ltb_spec k (zlen l)).
    + rewrite (Z.testbit_neg_r _ (k - zlen l)) by lia. apply orb_false_r.
    + rewrite (zread_none l k), orb_false_l by lia. rewrite zread_cons. destruct (Z.eqb_spec (k - zlen l) 0) as [->|].
      * by destruct (Z.testbit v p).
      * simpl. rewrite (testbit_above _ 1) by (destruct (Z.testbit v p); simpl; lia).
        by rewrite zread_none by (unfold zlen; simpl; lia).
Qed.

Lemma pack_fold m v low n : 0 <= low -> exists r,
  fold_left (fun s i => pack_bit m v i s) (seqZ low n) (0, 0) = (r, zlen (positions m low n)) /\
  picks v (positions m low n) r.
Proof.
  intros Hl. unfold positions. assert (Forall (fun i => 0 <= i) (seqZ low n)) as Hpos.
  { apply Forall_forall. intros i Hi%elem_of_seqZ. lia. }
  induction (seqZ low n) as [|i l IH] using rev_ind.
  { exists 0. split; [done|]. split; [done|]. intros k _. rewrite Z.bits_0. unfold zread. by destruct (0 <=? k). }
  apply Forall_app in Hpos as [Hpos Hi]. rewrite Forall_singleton in Hi.
  destruct (IH Hpos) as (r & E & Hr). rewrite fold_left_app, E. simpl. unfold pack_bit.
  rewrite bit_clear, filter_app by done. destruct (Z.testbit m i) eqn:Hm; simpl negb; cbv iota.
  - rewrite filter_cons_True, filter_nil, bit_of by (rewrite ?Hm; done). simpl.
    eexists. split; [|apply picks_snoc; exact Hr]. f_equal. by rewrite zlen_app.
  - rewrite filter_cons_False, filter_nil by (rewrite Hm; by intros ?). rewrite app_nil_r. by exists r.
Qed.

Lemma packbits_picks m v high low : 0 <= low ->
  picks v (positions m low (high - low)) (addrdec_packbits m v high low).
Proof.
  intros Hl. destruct (pack_fold m v low (high - low) Hl) as (r & E & H).
  unfold addrdec_packbits. by rewrite E.
Qed.

Lemma positions_split m low a b : 0 <= a -> 0 <= b ->
  positions m low (a + b) = positions m low a ++ positions m (low + a) b.
Proof. intros Ha Hb. unfold positions. by rewrite seqZ_app, filter_app by lia. Qed.

Lemma positions_none m low n : (forall i, low <= i < low + n -> Z.testbit m i = false) -> positions m low n = [].
Proof.
  intros H. unfold positions. destruct (filter _ _) as [|i l] eqn:E; [done|].
  assert (i ∈ filter (fun i => Z.testbit m i) (seqZ low n)) as Hi by (rewrite E; left).
  rewrite list_elem_of_filter, elem_of_seqZ in Hi. destruct Hi as [Hi ?]. by rewrite H in Hi by lia.
Qed.

Lemma elem_of_positions m low n i : i ∈ positions m low n <-> low <= i < low + n /\ Z.testbit m i = true.
Proof. unfold positions. rewrite list_elem_of_filter, elem_of_seqZ, Is_true_true. tauto. Qed.

Lemma positions_shift m m' low n d : 0 <= n -> (forall i, low <= i < low + n -> Z.testbit m' (i + d) = Z.testbit m i) ->
  positions m' (low + d) n = map (fun i => i + d) (positions m low n).
Proof.
  intros Hn. revert low. pattern n. apply natlike_ind; [|clear n Hn; intros n Hn IH|done]; intros low H; [done|].
  unfold positions in *. rewrite !(seqZ_cons _ (Z.succ n)) by lia. rewrite !Z.pred_succ. rewrite !filter_cons, H by lia.
  specialize (IH (Z.succ low)). replace (Z.succ low + d) with (Z.succ (low + d)) in IH by lia.
  rewrite IH by (intros; apply H; lia). by destruct (decide _).
Qed.

Lemma limit_spec m :
  let '(high, low) := addrdec_getmasklimit m in
  0 <= low <= high /\ high <= 64 /\ forall i, 0 <= i < 64 -> Z.testbit m i = true -> low <= i < high.
Proof.
  assert (forall n, 0 <= n -> exists h l f, fold_left (fun s i => limit_bit m i s) (seqZ 0 n) (64, 0, false) = (h, l, f) /\
    (if f : bool then 0 <= l < h /\ h <= n else h = 64 /\ l = 0) /\
    forall i, 0 <= i < n -> Z.testbit m i = true -> f = true /\ l <= i < h) as H.
  { intros n Hn. pattern n. apply natlike_ind; [|clear n Hn; intros n Hn (h & l & f & E & Hf & Hb)|done].
    - exists 64, 0, false. split; [done|]. split; [done|lia].
    - rewrite <- Z.add_1_r, seqZ_app, fold_left_app, E by lia. rewrite seqZ_cons by lia. simpl.
      unfold limit_bit. rewrite bit_clear by lia. rewrite Z.add_0_l. destruct (Z.testbit m n) eqn:Hm; simpl.
      + exists (n + 1), (if f then l else n), true. split; [done|]. destruct f; simpl.
        * split; [lia|]. intros i Hi Hi'. split; [done|]. destruct (Z.eq_dec i n); [lia|]. specialize (Hb i ltac:(lia) Hi'). lia.
        * split; [lia|]. intros i Hi Hi'. split; [done|]. destruct (Z.eq_dec i n); [lia|]. by destruct (Hb i ltac:(lia) Hi').
      + exists h, l, f. split; [done|]. split; [destruct f; lia|]. intros i Hi Hi'.
        destruct (Z.eq_dec i n); [congruence|]. apply Hb; [lia|done]. }
  destruct (H 64 ltac:(lia)) as (h & l & f & E & Hf & Hb). unfold addrdec_getmasklimit. rewrite E. simpl.
  split_and!; [destruct f; lia|destruct f; lia|destruct f; lia|]. intros i Hi Hi'. by apply Hb.
Qed.

(** Looking only between the limits of the mask misses nothing. *)
Lemma pack_limits m v high low :
  addrdec_getmasklimit m = (high, low) -> addrdec_packbits m v high low = addrdec_packbits m v 64 0.
Proof.
  intros E. pose proof (limit_spec m) as H. rewrite E in H. destruct H as (Hl & Hh & Hb).
  apply (picks_unique v (positions m low (high - low))); [apply packbits_picks; lia|].
  assert (positions m 0 (64 - 0) = positions m low (high - low)) as <-; [|apply packbits_picks; lia].
  replace (64 - 0) with (low + ((high - low) + (64 - high))) by lia. rewrite !positions_split by lia.
  rewrite (positions_none m 0 low), (positions_none m (0 + low + (high - low))).
  - by rewrite app_nil_r.
  - intros i Hi. destruct (Z.testbit m i) eqn:Hm; [|done]. apply Hb in Hm; lia.
  - intros i Hi. destruct (Z.testbit m i) eqn:Hm; [|done]. apply Hb in Hm; lia.
Qed.

(** Packed values are equal exactly when the masked bits are. *)
Lemma pack_eq m a b : addrdec_packbits m a 64 0 = addrdec_packbits m b 64 0 <->
  forall i, 0 <= i < 64 -> Z.testbit m i = true -> Z.testbit a i = Z.testbit b i.
Proof.
  destruct (packbits_picks m a 64 0) as [_ Ha]; [lia|]. destruct (packbits_picks m b 64 0) as [_ Hb]; [lia|].
  change (64 - 0) with 64 in *. split.
  - intros E i Hi Hm. assert (i ∈ positions m 0 64) as (k & Hk & Hr)%elem_of_zread.
    { apply elem_of_positions. split; [lia|done]. }
    specialize (Ha k ltac:(lia)). specialize (Hb k ltac:(lia)). rewrite E in Ha. rewrite Hr in *. congruence.
  - intros H. apply Z.bits_inj'. intros k Hk. rewrite Ha, Hb by done. destruct (zread _ k) as [p|] eqn:E; [|done].
    apply zread_elem_of, elem_of_positions in E as [Hp Hm]. apply H; [lia|done].
Qed.

(** * The reference decoding

    Partition and remaining address as remainder and quotient of the part from
    bit [s] on; [s] is where the partition bits go. *)

Definition chip_of (s n a : Z) : Z := (a / 2 ^ s) mod n.
Definition stitch (s n a : Z) : Z := a / 2 ^ s / n * 2 ^ s + a mod 2 ^ s.

Lemma stitch_nonneg s n a : 0 <= s -> 0 < n -> 0 <= a -> 0 <= stitch s n a.
Proof.
  intros Hs Hn Ha. unfold stitch. assert (0 < 2 ^ s) by (apply Z.pow_pos_nonneg; lia).
  pose proof (Z.mod_pos_bound a (2 ^ s) ltac:(lia)).
  assert (0 <= a / 2 ^ s / n) by (apply Z.div_pos; [apply Z.div_pos|]; lia). nia.
Qed.

Section decoding.
Context (s nb : Z) (Hs : 0 <= s) (Hnb : 0 <= nb) (Hsn : s + nb <= 64).

Definition skip (k : Z) : Z := if k <? s then k else k + nb.

Lemma stitch_bits a k : 0 <= k -> Z.testbit (stitch s (2 ^ nb) a) k = Z.testbit a (skip k).
Proof.
  intros Hk. unfold stitch, skip. rewrite <- lor_disjoint by (try apply Z.mod_pos_bound; lia).
  rewrite Z.lor_spec, <- Z.shiftl_mul_pow2, Z.shiftl_spec by done.
  rewrite Z.div_div, <- Z.pow_add_r, <- Z.shiftr_div_pow2 by lia. destruct (Z.ltb_spec k s).
  - by rewrite Z.testbit_neg_r, Z.mod_pow2_bits_low by lia.
  - rewrite Z.mod_pow2_bits_high, orb_false_r, Z.shiftr_spec by lia. f_equal. lia.
Qed.

Lemma chip_bits a k : 0 <= k -> Z.testbit (chip_of s (2 ^ nb) a) k = (k <? nb) && Z.testbit a (s + k).
Proof.
  intros Hk. unfold chip_of. rewrite <- Z.shiftr_div_pow2 by done. destruct (Z.ltb_spec k nb).
  - rewrite Z.mod_pow2_bits_low, Z.shiftr_spec by lia. simpl. f_equal. lia.
  - by rewrite Z.mod_pow2_bits_high by lia.
Qed.

Lemma open_gap_bits m i : 0 <= m < 2 ^ (64 - nb) -> 0 <= i < 64 ->
  Z.testbit (open_gap (Z.shiftl 1 s - 1) nb m) i =
    (if i <? s then Z.testbit m i else if i <? s + nb then false else Z.testbit m (i - nb)).
Proof.
  intros Hm Hi. unfold open_gap. rewrite Z.shiftl_1_l, Z.sub_1_r, <- Z.ones_equiv.
  rewrite Z.lor_spec, uwrap_testbit, bool_decide_eq_true_2, andb_true_l by lia.
  rewrite Z.shiftl_spec by lia.
  rewrite !Z.land_spec, (ones_bits s i) by lia.
  assert (forall j, Z.testbit (u64 (Z.lnot (Z.ones s))) j = (s <=? j) && (j <? 64)) as ->.
  { intros j. destruct (Z.lt_ge_cases j 0).
    - by rewrite Z.testbit_neg_r, (proj2 (Z.leb_gt s j)) by lia.
    - rewrite uwrap_testbit, Z.lnot_spec, ones_bits by lia. rewrite andb_comm, Z.leb_antisym. f_equal.
      apply eq_true_iff_eq. rewrite bool_decide_eq_true, Z.ltb_lt. done. }
  destruct (Z.ltb_spec i s), (Z.ltb_spec i (s + nb)), (Z.leb_spec s (i - nb)), (Z.ltb_spec (i - nb) 64); try lia;
    by rewrite ?andb_true_r, ?andb_false_r, ?orb_false_r, ?orb_false_l.
Qed.

(** The mask of the partition bits. *)
Definition chip_mask : Z := Z.shiftl (Z.ones nb) s.

Lemma chip_mask_bits i : 0 <= i -> Z.testbit chip_mask i = (s <=? i) && (i <? s + nb).
Proof.
  intros Hi. unfold chip_mask. rewrite Z.shiftl_spec by done. destruct (Z.leb_spec s i); simpl.
  - rewrite ones_bits by lia. apply eq_true_iff_eq. rewrite !Z.ltb_lt. lia.
  - apply Z.testbit_neg_r; lia.
Qed.

Lemma positions_all m low n : 0 <= low -> (forall i, low <= i < low + n -> Z.testbit m i = true) ->
  positions m low n = seqZ low n.
Proof.
  intros Hl H. unfold positions.
  assert (Forall (fun i => Is_true (Z.testbit m i)) (seqZ low n)) as HF.
  { apply Forall_forall. intros i Hi%elem_of_seqZ. rewrite H by lia. done. }
  induction HF as [|i l Hi _ IH]; [done|]. rewrite filter_cons_True by done. by f_equal.
Qed.

Lemma zread_seqZ a n k : zread (seqZ a n) k = if (0 <=? k) && (k <? n) then Some (a + k) else None.
Proof.
  destruct (Z.leb_spec 0 k); simpl; [|by rewrite zread_none by lia].
  rewrite zread_lookup by lia. destruct (Z.ltb_spec k n).
  - rewrite lookup_seqZ_lt by lia. f_equal. lia.
  - apply lookup_seqZ_ge. lia.
Qed.

Lemma pack_chip a : addrdec_packbits chip_mask a 64 0 = chip_of s (2 ^ nb) a.
Proof.
  assert (0 < 2 ^ nb) by (apply Z.pow_pos_nonneg; lia).
  apply (picks_unique a (positions chip_mask 0 (64 - 0))); [apply packbits_picks; lia|].
  replace (64 - 0) with (s + (nb + (64 - s - nb))) by lia. rewrite !positions_split by lia.
  rewrite (positions_none chip_mask 0 s), (positions_none chip_mask (0 + s + nb)), (positions_all _ (0 + s)).
  - rewrite app_nil_r. split; [apply Z.mod_pos_bound; lia|]. intros k Hk. simpl. rewrite chip_bits, zread_seqZ by done.
    rewrite (proj2 (Z.leb_le 0 k)) by lia. simpl. by destruct (k <? nb).
  - lia.
  - intros i Hi. rewrite chip_mask_bits by lia. rewrite (proj2 (Z.leb_le s i)), (proj2 (Z.ltb_lt i _)) by lia. done.
  - intros i Hi. rewrite chip_mask_bits by lia. rewrite (proj2 (Z.ltb_ge i (s + nb))) by lia. apply andb_false_r.
  - intros i Hi. rewrite chip_mask_bits by lia. rewrite (proj2 (Z.leb_gt s i)) by lia. done.
Qed.

Lemma pack_rest a : 0 <= a < 2 ^ 64 -> addrdec_packbits (u64 (Z.lnot chip_mask)) a 64 0 = stitch s (2 ^ nb) a.
Proof.
  intros Ha. assert (0 < 2 ^ nb) by (apply Z.pow_pos_nonneg; lia). set (m := u64 (Z.lnot chip_mask)).
  assert (forall i, 0 <= i < 64 -> Z.testbit m i = negb ((s <=? i) && (i <? s + nb))) as Hm.
  { intros i Hi. unfold m. rewrite uwrap_testbit, bool_decide_eq_true_2, Z.lnot_spec, chip_mask_bits by lia. done. }
  apply (picks_unique a (positions m 0 (64 - 0))); [apply packbits_picks; lia|].
  replace (64 - 0) with (s + (nb + (64 - s - nb))) by lia. rewrite !positions_split by lia.
  rewrite (positions_none m (0 + s) nb), (positions_all m 0 s), (positions_all m (0 + s + nb)).
  - simpl. split; [apply stitch_nonneg; lia|]. intros k Hk. rewrite stitch_bits by done. unfold skip.
    rewrite zread_app, !zread_seqZ. unfold zlen. rewrite length_seqZ, Z2Nat.id by lia.
    destruct (Z.ltb_spec k s).
    + rewrite (proj2 (Z.leb_le 0 k)) by lia. done.
    + rewrite (proj2 (Z.leb_le 0 (k - s))) by lia. simpl. destruct (Z.ltb_spec (k - s) (64 - s - nb)).
      * f_equal. lia.
      * apply testbit_above with 64; lia.
  - lia.
  - intros i Hi. rewrite Hm by lia. rewrite (proj2 (Z.ltb_ge i (s + nb))) by lia. by rewrite andb_false_r.
  - lia.
  - intros i Hi. rewrite Hm by lia. rewrite (proj2 (Z.leb_gt s i)) by lia. done.
  - intros i Hi. rewrite Hm by lia. rewrite (proj2 (Z.leb_le s i)), (proj2 (Z.ltb_lt i _)) by lia. done.
Qed.

(** Moving the mask up past the partition bits reads the stitched address. *)
Lemma pack_open m a : 0 <= m < 2 ^ (64 - nb) ->
  addrdec_packbits (open_gap (Z.shiftl 1 s - 1) nb m) a 64 0 = addrdec_packbits m (stitch s (2 ^ nb) a) 64 0.
Proof.
  intros Hm. set (m' := open_gap _ _ _).
  assert (forall i, 0 <= i < 64 -> Z.testbit m' i = (if i <? s then Z.testbit m i else if i <? s + nb then false else Z.testbit m (i - nb))) as Hb
    by (intros; by apply open_gap_bits).
  assert (positions m' 0 (64 - 0) = map skip (positions m 0 (64 - 0))) as E.
  { replace (64 - 0) with (s + (nb + (64 - s - nb))) at 1 by lia. replace (64 - 0) with (s + ((64 - s - nb) + nb)) by lia.
    rewrite !positions_split, !map_app by lia.
    rewrite (positions_none m' (0 + s) nb), (positions_none m (0 + s + (64 - s - nb)) nb).
    2: { intros i Hi. apply testbit_above with (64 - nb); lia. }
    2: { intros i Hi. rewrite Hb by lia. rewrite (proj2 (Z.ltb_ge i s)), (proj2 (Z.ltb_lt i _)) by lia. done. }
    rewrite app_nil_r, app_nil_l. f_equal.
    - change (positions m' 0 s) with (positions m' (0 + 0) s). rewrite (positions_shift m m' 0 s 0); [|lia|].
      + apply map_ext_in. intros i Hi%list_elem_of_In%elem_of_positions. unfold skip. by rewrite (proj2 (Z.ltb_lt i s)), Z.add_0_r by lia.
      + intros i Hi. rewrite Z.add_0_r, Hb, (proj2 (Z.ltb_lt i s)) by lia. done.
    - rewrite (positions_shift m m' (0 + s) (64 - s - nb) nb); [|lia|].
      + apply map_ext_in. intros i Hi%list_elem_of_In%elem_of_positions. unfold skip. by rewrite (proj2 (Z.ltb_ge i s)) by lia.
      + intros i Hi. rewrite Hb, (proj2 (Z.ltb_ge _ s)), (proj2 (Z.ltb_ge _ (s + nb))) by lia. f_equal. lia. }
  destruct (packbits_picks m (stitch s (2 ^ nb) a) 64 0) as [H0 Hp]; [lia|].
  apply (picks_unique a (positions m' 0 (64 - 0))); [apply packbits_picks; lia|]. rewrite E. split; [done|].
  intros k Hk. rewrite Hp, zread_fmap by done. destruct (zread (positions m 0 (64 - 0)) k) as [p|] eqn:Er; [|done]. simpl.
  apply stitch_bits. apply zread_elem_of, elem_of_positions in Er. lia.
Qed.
End decoding.

(** * Initialisation *)

Abbreviation pack m v := (addrdec_packbits m v 64 0).

(** A translator that decodes like the reference, with the masks of bank, row and
    column on the stitched address. *)
Record decodes (t : translation) (s n b r c : Z) : Prop := {
  dc_shift : ADDR_CHIP_S t = s;
  dc_chips : Nchips t = n;
  dc_rest : forall a, 0 <= a < 2 ^ 64 -> partition_address t a = Ok (stitch s n a);
  dc_tlx : forall a, 0 <= a < 2 ^ 64 -> exists bu, addrdec_tlx t a =
    Ok (mkAddr (chip_of s n a) (pack b (stitch s n a)) (pack r (stitch s n a)) (pack c (stitch s n a)) bu);
}.

(** What the masks of a mapping satisfy. *)
Record mapping_ok (s b r c : Z) : Prop := {
  mo_shift : 0 <= s <= 16;
  mo_masks : Forall (fun m => 0 <= m < 2 ^ 32) [b; r; c];
}.

Lemma positions_32 m : 0 <= m < 2 ^ 32 -> zlen (positions m 0 64) <= 32.
Proof.
  intros Hm. change 64 with (32 + 32). rewrite positions_split, (positions_none m (0 + 32)), app_nil_r by
    (first [lia | intros i Hi; apply testbit_above with 32; lia]).
  pose proof (length_filter (fun i => Z.testbit m i) (seqZ 0 32)) as H. rewrite length_seqZ in H.
  unfold zlen, positions. lia.
Qed.

Lemma pack_32 m v : zlen (positions m 0 64) <= 32 -> u32 (pack m v) = pack m v.
Proof.
  intros Hm. pose proof (packbits_picks m v 64 0 ltac:(lia)) as H. pose proof (picks_bound _ _ _ H) as Hb.
  change (64 - 0) with 64 in Hb. pose proof (Z.pow_le_mono_r 2 _ 32 ltac:(lia) Hm).
  apply uwrap_small. destruct H. lia.
Qed.

(** A field of a translator with the limits of its masks. *)
Lemma pack_field_spec t f a :
  (f (addrdec_mkhigh t), f (addrdec_mklow t)) = addrdec_getmasklimit (f (addrdec_mask t)) ->
  pack_field t f a = u32 (pack (f (addrdec_mask t)) a).
Proof. intros E. unfold pack_field. by rewrite (pack_limits _ _ _ _ (eq_sym E)). Qed.

Lemma stitch_le s n a : 0 <= s -> 0 < n -> 0 <= a -> stitch s n a <= a.
Proof.
  intros Hs Hn Ha. unfold stitch. assert (0 < 2 ^ s) by (apply Z.pow_pos_nonneg; lia).
  pose proof (Z.div_mod a (2 ^ s) ltac:(lia)).
  assert (0 <= a / 2 ^ s) by (apply Z.div_pos; lia).
  assert (a / 2 ^ s / n <= a / 2 ^ s) by (apply Z.div_le_upper_bound; nia). nia.
Qed.

Lemma stitch_lt s n a : 0 <= s -> 1 < n -> 2 ^ s <= a -> stitch s n a < a.
Proof.
  intros Hs Hn Ha. unfold stitch. assert (0 < 2 ^ s) by (apply Z.pow_pos_nonneg; lia).
  pose proof (Z.div_mod a (2 ^ s) ltac:(lia)).
  assert (0 < a / 2 ^ s) by (apply Z.div_str_pos; lia).
  assert (a / 2 ^ s / n < a / 2 ^ s) by (apply Z.div_lt; lia). nia.
Qed.

Lemma rest_of_addr_spec t a : 0 <= ADDR_CHIP_S t < 31 -> 0 < Nchips t -> 0 <= a < 2 ^ 64 ->
  rest_of_addr t a = Ok (stitch (ADDR_CHIP_S t) (Nchips t) a).
Proof.
  intros Hs Hn Ha. unfold rest_of_addr, int_mask.
  rewrite (proj2 (Z.leb_le 0 _)), (proj2 (Z.ltb_lt _ 31)) by lia. simpl. f_equal.
  pose proof (stitch_le (ADDR_CHIP_S t) (Nchips t) a ltac:(lia) Hn ltac:(lia)) as Hle.
  unfold stitch in *. assert (0 < 2 ^ ADDR_CHIP_S t) by (apply Z.pow_pos_nonneg; lia).
  pose proof (Z.mod_pos_bound a (2 ^ ADDR_CHIP_S t) ltac:(lia)).
  assert (0 <= a / 2 ^ ADDR_CHIP_S t / Nchips t) by (apply Z.div_pos; [apply Z.div_pos|]; lia).
  rewrite Z.shiftl_1_l, Z.sub_1_r, <- Z.ones_equiv, Z.land_ones, Z.shiftl_mul_pow2, Z.shiftr_div_pow2 by lia.
  rewrite uwrap_small by nia. by apply lor_disjoint; lia.
Qed.

Lemma ull_bit_ok s : 0 <= s < 64 -> ull_bit s = Ok (Z.shiftl 1 s).
Proof. intros Hs. unfold ull_bit. by rewrite (proj2 (Z.leb_le 0 s)), (proj2 (Z.ltb_lt s 64)) by lia. Qed.

Lemma chip_loop s nb : 0 <= s -> 0 <= nb -> s + nb <= 64 ->
  for_range s (s + nb) (fun i c => x ← ull_bit i; mret (Z.lor c x)) 0 = Ok (chip_mask s nb).
Proof.
  intros Hs Hn Hsn.
  destruct (for_range_inv (fun i c => c = chip_mask s (i - s)) s (s + nb) (fun i c => x ← ull_bit i; mret (Z.lor c x)) 0)
    as (c & -> & ->); [lia|unfold chip_mask; rewrite Z.sub_diag; symmetry; apply Z.shiftl_0_l| |by replace (s + nb - s) with nb by lia].
  intros i c Hi ->. rewrite ull_bit_ok by lia. simpl. eexists. split; [reflexivity|]. apply Z.bits_inj'. intros j Hj.
  rewrite Z.lor_spec, !chip_mask_bits, Z.shiftl_1_l, Z.pow2_bits_eqb by lia.
  destruct (Z.leb_spec s j), (Z.ltb_spec j (s + (i - s))), (Z.ltb_spec j (s + (i + 1 - s))), (Z.eqb_spec i j); simpl; lia || done.
Qed.

Lemma chip_32 s n a : 0 < n < 2 ^ 31 -> u32 (chip_of s n a) = chip_of s n a.
Proof. intros Hn. apply uwrap_small. pose proof (Z.mod_pos_bound (a / 2 ^ s) n). unfold chip_of. lia. Qed.

Lemma set_masks_spec mode test nchips s b r c :
  builtin_mapping mode = Some (s, b, r, c) -> mapping_ok s b r c -> 1 <= nchips < 2 ^ 31 ->
  exists t, set_masks (translation_new None mode test) nchips = Ok t /\ run_test t = test /\ decodes t s nchips b r c.
Proof.
  intros Hm [Hs Hmasks] Hn. rewrite !Forall_cons in Hmasks. destruct Hmasks as (Hb & Hr & Hc & _).
  set (nb := Z.log2 nchips).
  assert (0 <= nb < 31) as Hnb by (split; [apply Z.log2_nonneg|apply Z.log2_lt_pow2; lia]).
  assert (2 ^ nb <= nchips < 2 * 2 ^ nb) as Hlog
    by (rewrite <- Z.pow_succ_r by lia; apply Z.log2_spec; lia).
  assert (2 ^ nb < 2 ^ 31) by (apply Z.pow_lt_mono_r; lia).
  unfold set_masks. rewrite LOGB2_32_spec by lia. fold nb. rewrite powli_2 by lia. rewrite uwrap_small by lia.
  simpl gpgpu_mem_address_mask. rewrite Hm. cbn -[Z.eqb Z.leb Z.ltb Z.land Z.pow for_range open_gap ull_bit swrap Z.add Z.sub].
  rewrite (proj2 (Z.eqb_neq s (-1))), (swrap_small 32 nchips) by (simpl; lia).
  destruct (Z.eqb_spec (nchips - 2 ^ nb) 0) as [E0|E0].
  - assert (nchips = 2 ^ nb) as En by lia.
    rewrite (ull_bit_ok s) by lia.
    cbn -[Z.eqb Z.pow for_range open_gap ull_bit Z.add Z.sub]. rewrite chip_loop by lia.
    cbn -[Z.eqb Z.pow open_gap Z.sub addrdec_getmasklimit]. eexists. split; [reflexivity|]. split; [done|].
    assert (forall m, 0 <= m < 2 ^ 32 -> 0 <= m < 2 ^ (64 - nb)) as Hw.
    { intros m Hw. pose proof (Z.pow_le_mono_r 2 32 (64 - nb)). lia. }
    split; cbn -[Z.pow open_gap Z.sub addrdec_getmasklimit addrdec_packbits pack_field]; [done..| |].
    + intros a Ha. unfold partition_address. simpl. rewrite E0. simpl. f_equal. rewrite En. apply pack_rest; lia.
    + intros a Ha. unfold addrdec_tlx. simpl gap. rewrite E0. cbv iota beta. eexists.
      unfold mret, outcome_ret. do 2 f_equal; rewrite pack_field_spec by (symmetry; apply surjective_pairing); cbn -[Z.pow open_gap Z.sub u32].
      * rewrite pack_chip, En by lia. apply chip_32; lia.
      * rewrite pack_open, En by auto with lia. by apply pack_32, positions_32.
      * rewrite pack_open, En by auto with lia. by apply pack_32, positions_32.
      * rewrite pack_open, En by auto with lia. by apply pack_32, positions_32.
  - eexists. split; [reflexivity|]. split; [done|].
    split; cbn -[Z.pow Z.sub addrdec_getmasklimit addrdec_packbits pack_field]; [done..| |].
    + intros a Ha. unfold partition_address. simpl gap. rewrite (proj2 (Z.eqb_neq _ 0)) by done.
      apply rest_of_addr_spec; simpl; lia.
    + intros a Ha. unfold addrdec_tlx. simpl gap. rewrite (proj2 (Z.eqb_neq _ 0)) by done.
      rewrite rest_of_addr_spec by (simpl; lia). eexists.
      unfold mbind, outcome_bind, mret, outcome_ret. do 2 f_equal; [|rewrite pack_field_spec by (symmetry; apply surjective_pairing)..].
      * simpl. rewrite Z.shiftr_div_pow2 by lia. apply chip_32; lia.
      * by apply pack_32, positions_32.
      * by apply pack_32, positions_32.
      * by apply pack_32, positions_32.
Qed.

(** * One to one *)

(** The same partition, bank, row and column. *)
Definition same_place (d d' : addrdec_t) : Prop := chip d = chip d' /\ bk d = bk d' /\ row d = row d' /\ col d = col d'.

(** Bank, row and column together read the low [w] bits. *)
Definition covers (w b r c : Z) : Prop := Z.land (Z.lor b (Z.lor r c)) (Z.ones w) = Z.ones w.

Lemma builtin_ok mode s b r c :
  builtin_mapping mode = Some (s, b, r, c) -> mapping_ok s b r c /\ covers 27 b r c.
Proof.
  unfold builtin_mapping. intros H. repeat case_match; simplify_eq;
    (split; [split; [lia|by repeat constructor]|by vm_compute]).
Qed.

Lemma stitch_inj s n a a' : 0 <= s -> 0 < n -> chip_of s n a = chip_of s n a' -> stitch s n a = stitch s n a' -> a = a'.
Proof.
  unfold chip_of, stitch. intros Hs Hn Hc Hq. assert (0 < 2 ^ s) by (apply Z.pow_pos_nonneg; lia).
  pose proof (Z.mod_pos_bound a (2 ^ s)). pose proof (Z.mod_pos_bound a' (2 ^ s)).
  destruct (Z.div_mod_unique (2 ^ s) (a / 2 ^ s / n) (a' / 2 ^ s / n) (a mod 2 ^ s) (a' mod 2 ^ s)) as [Eq Em]; [lia..|].
  rewrite (Z.div_mod a (2 ^ s)), (Z.div_mod a' (2 ^ s)), Em by lia. f_equal. f_equal.
  rewrite (Z.div_mod (a / 2 ^ s) n), (Z.div_mod (a' / 2 ^ s) n), Eq, Hc by lia. done.
Qed.

Lemma stitch_bound s n w a : 0 <= s <= w -> 0 < n -> 0 <= a < n * 2 ^ w -> stitch s n a < 2 ^ w.
Proof.
  intros Hs Hn Ha. unfold stitch. assert (0 < 2 ^ s) by (apply Z.pow_pos_nonneg; lia).
  assert (2 ^ w = 2 ^ (w - s) * 2 ^ s) as E by (rewrite <- Z.pow_add_r by lia; f_equal; lia).
  assert (a / 2 ^ s / n < 2 ^ (w - s)).
  { apply Z.div_lt_upper_bound; [lia|]. apply Z.div_lt_upper_bound; [lia|]. nia. }
  pose proof (Z.mod_pos_bound a (2 ^ s)). nia.
Qed.

Lemma pack_covers w b r c x y : 0 <= w <= 64 -> covers w b r c -> 0 <= x < 2 ^ w -> 0 <= y < 2 ^ w ->
  pack b x = pack b y -> pack r x = pack r y -> pack c x = pack c y -> x = y.
Proof.
  rewrite !pack_eq. intros Hw Hc Hx Hy Hb Hr Hcol. apply Z.bits_inj'. intros i Hi.
  destruct (Z.lt_ge_cases i w); [|by rewrite !(testbit_above _ w)].
  assert (Z.testbit (Z.land (Z.lor b (Z.lor r c)) (Z.ones w)) i = true) as H1
    by (rewrite Hc, Z.ones_spec_low; [done|lia]).
  rewrite Z.land_spec, !Z.lor_spec, !andb_true_iff, !orb_true_iff in H1.
  destruct H1 as [[?|[?|?]] _]; [apply Hb|apply Hr|apply Hcol]; done || lia.
Qed.

Lemma decodes_inj t s n b r c w a a' :
  decodes t s n b r c -> 0 <= s <= w -> w + 31 <= 64 -> 0 < n < 2 ^ 31 -> covers w b r c ->
  0 <= a < n * 2 ^ w -> 0 <= a' < n * 2 ^ w ->
  forall d d', addrdec_tlx t a = Ok d -> addrdec_tlx t a' = Ok d' -> same_place d d' -> a = a'.
Proof.
  intros [_ _ _ Ht] Hs Hw Hn Hc Ha Ha' d d' Ed Ed' (Ec & Eb & Er & Ecol). assert (n * 2 ^ w < 2 ^ 64) as Hlim.
  { apply Z.lt_le_trans with (2 ^ 31 * 2 ^ w); [assert (0 < 2 ^ w) by (apply Z.pow_pos_nonneg; lia); nia|].
    rewrite <- Z.pow_add_r by lia. apply Z.pow_le_mono_r; lia. }
  destruct (Ht a ltac:(lia)) as [? E1], (Ht a' ltac:(lia)) as [? E2]. rewrite E1 in Ed. rewrite E2 in Ed'. injection Ed as <-. injection Ed' as <-.
  apply (stitch_inj s n); [lia|lia|exact Ec|].
  apply (pack_covers w b r c); [lia|exact Hc| | |exact Eb|exact Er|exact Ecol];
    (split; [apply stitch_nonneg|apply stitch_bound]; lia).
Qed.

(** * The sweep *)

(** The addresses met so far, each with what it decodes to. *)
Definition history_ok (t : translation) (a : Z) (h : list (addrdec_t * Z)) : Prop :=
  Forall (fun x => 0 <= x.2 < a /\ addrdec_tlx t x.2 = Ok x.1) h.

Lemma sweep_step_ok t s n b r c a h :
  decodes t s n b r c -> 0 <= s <= 16 -> 2 <= n < 2 ^ 31 -> covers 27 b r c -> 0 <= a < sweep_range ->
  history_ok t a h -> exists h', sweep_step t a h = Ok h' /\ history_ok t (a + 4) h'.
Proof.
  intros Hd Hs Hn Hc Ha Hh. unfold sweep_range in Ha. pose proof Hd as [Es En Hrest Htlx].
  destruct (Htlx a ltac:(lia)) as [bu E]. unfold sweep_step. rewrite E, bind_of_ok.
  rewrite bool_decide_eq_false_2.
  2: { intros ((x & a') & Ex & Hin)%list_elem_of_fmap. unfold history_ok in Hh. rewrite Forall_forall in Hh.
       destruct (Hh _ Hin) as [Hlt Ht]. simpl in *. subst x.
       assert (a = a'); [|lia]. by eapply (decodes_inj t s n b r c 27); [done|lia|lia|lia|done|lia|lia|exact E|exact Ht|]. }
  assert (0 <= chip_of s n a < n) by (apply Z.mod_pos_bound; lia).
  cbn [chip]. rewrite swrap_small, En, (proj2 (Z.ltb_lt _ n)) by (simpl; lia). simpl cassert. rewrite bind_of_ok.
  rewrite Es, (proj2 (Z.eqb_neq s (-1))), ull_bit_ok, bind_of_ok by lia. rewrite Z.shiftl_1_l.
  rewrite Hrest, bind_of_ok by lia.
  assert ((if 2 ^ s <=? a then cassert (negb (a =? stitch s n a)) else mret tt) = Ok tt) as ->.
  { destruct (Z.leb_spec (2 ^ s) a); [|done]. pose proof (stitch_lt s n a ltac:(lia) ltac:(lia) ltac:(done)).
    by rewrite (proj2 (Z.eqb_neq a _)) by lia. }
  rewrite bind_of_ok. eexists. split; [reflexivity|]. constructor; [simpl; split; [lia|done]|].
  eapply Forall_impl; [exact Hh|]. simpl. intros ? [? ?]. split; [lia|done].
Qed.

Lemma sweep_ok t s n b r c :
  decodes t s n b r c -> 0 <= s <= 16 -> 2 <= n < 2 ^ 31 -> covers 27 b r c -> is_ok (sweep_test t).
Proof.
  intros Hd Hs Hn Hc. unfold sweep_test.
  assert (forall k a h, 0 <= a -> a + 4 * Z.of_nat k <= sweep_range -> history_ok t a h -> is_ok (sweep_from k t a h)) as H.
  { induction k as [|k IH]; intros a h Ha Hk Hh; [by eexists|]. simpl.
    destruct (sweep_step_ok t s n b r c a h) as (h' & -> & Hh'); try done; [lia|].
    rewrite bind_of_ok. apply IH; [lia|lia|done]. }
  apply H; [lia| |constructor]. unfold sweep_range. lia.
Qed.

(** C26: Whatever the built-in mapping and the number of memory partitions, power of two
    or not, with the sweep test off or at least two partitions: the translator is set up
    without a fault, the partition of an address is the remainder and its address in the
    partition the stitched quotient of the part above the mapping's first partition bit,
    and no two addresses of the memory (128 MB for each partition) decode to the same
    partition, bank, row and column. With one partition the sweep test stops the
    simulator (example sweep_test_stops_with_one_partition). *)
Theorem address_decoding_one_to_one mode nchips test s b r c :
  builtin_mapping mode = Some (s, b, r, c) -> 1 <= nchips < 2 ^ 31 -> (test = true -> 2 <= nchips) ->
  exists t, init (translation_new None mode test) nchips = Ok t /\
    (forall a, 0 <= a < 2 ^ 64 ->
      partition_address t a = Ok (stitch s nchips a) /\
      exists d, addrdec_tlx t a = Ok d /\ chip d = chip_of s nchips a) /\
    (forall a a' d d', 0 <= a < nchips * 2 ^ 27 -> 0 <= a' < nchips * 2 ^ 27 ->
      addrdec_tlx t a = Ok d -> addrdec_tlx t a' = Ok d' -> same_place d d' -> a = a').
Proof.
  intros Hm Hn Htest. destruct (builtin_ok _ _ _ _ _ Hm) as [Hok Hc].
  destruct (set_masks_spec mode test nchips s b r c Hm Hok Hn) as (t & E & Et & Hd). pose proof (mo_shift _ _ _ _ Hok).
  exists t. unfold init. rewrite E, bind_of_ok, Et. split; [|split].
  - destruct test; [|done]. by destruct (sweep_ok t s nchips b r c Hd) as [h ->]; [lia|specialize (Htest eq_refl); lia|done|].
  - intros a Ha. split; [by apply (dc_rest _ _ _ _ _ _ Hd)|].
    destruct (dc_tlx _ _ _ _ _ _ Hd a Ha) as [bu Hb]. eexists. by split.
  - intros a a' d d' Ha Ha'. apply (decodes_inj t s nchips b r c 27); [done|lia|lia|lia|done|lia|lia].
Qed.

Lemma address_decoding_one_to_one_witness : exists t d d',
  init (translation_new None 1 true) 6 = Ok t /\ partition_address t 0x10000 = Ok 0x2000 /\
  addrdec_tlx t 0x10000 = Ok d /\ addrdec_tlx t 0x2000 = Ok d' /\ ~ same_place d d'.
Proof.
  assert (0 <= 0x10000 < 2 ^ 64 /\ 0 <= 0x2000 < 2 ^ 64) as [B B'] by lia.
  assert (0 <= 0x10000 < 6 * 2 ^ 27 /\ 0 <= 0x2000 < 6 * 2 ^ 27) as [C C'] by lia.
  destruct (address_decoding_one_to_one 1 6 true 13 0x1800 0x7FFE000 0x7FF eq_refl ltac:(lia) ltac:(lia)) as (t & E & Hp & Hi).
  pose proof (Hp 0x10000 B) as (P & d & D & _). pose proof (Hp 0x2000 B') as (_ & d' & D' & _).
  exists t, d, d'. split; [exact E|]. split; [exact P|]. split; [exact D|]. split; [exact D'|].
  intros Heq. pose proof (Hi 0x10000 0x2000 d d' C C' D D' Heq) as X. discriminate X.
Defined.

(** With a single partition no bit is taken out of the address, and the test stops at the
    first address above the partition bits. *)
Example sweep_test_stops_with_one_partition : init (translation_new None 0 true) 1 = Err AssertFailed.
Proof. vm_compute. reflexivity. Qed.

(** * The option string *)

Definition no_fields : addrdec_t := mkAddr 0 0 0 0 0.
(** The letters of a map that take a bit, highest bit first. *)
Definition bit_letters (s : list ascii) : list ascii := filter (fun c => takes_bit c) s.
(** Where the map of an option starts. *)
Definition map_part (opt : list ascii) : list ascii :=
  match strchr opt ";"%char with None => opt | Some r => drop 1 r end.
(** Letter [c] gives its bit to field [f]. *)
Definition gives (f : addrdec_t → Z) (c : ascii) : bool :=
  bool_decide (f (default no_fields (letter_bit c 1)) <> 0).
Definition all_fields : list (addrdec_t → Z) := [chip; bk; row; col; burst].

Lemma or_masks_field f x y : f ∈ all_fields -> f (or_masks x y) = Z.lor (f x) (f y).
Proof. unfold all_fields. rewrite !elem_of_cons, elem_of_nil. by intros [->|[->|[->|[->|[->|[]]]]]]. Qed.

Lemma letter_field f c b : f ∈ all_fields -> f (default no_fields (letter_bit c b)) = if gives f c then b else 0.
Proof.
  unfold all_fields. rewrite !elem_of_cons, elem_of_nil. intros Hf. unfold gives.
  destruct c as [[] [] [] [] [] [] [] []]; destruct Hf as [->|[->|[->|[->|[->|[]]]]]]; reflexivity.
Qed.

(** The masks hold the bit of each letter: letter [k] of the map has bit [ofs - k]. *)
Definition spells (letters : list ascii) (ofs : Z) (m m' : addrdec_t) : Prop :=
  forall f i, f ∈ all_fields -> 0 <= i ->
    Z.testbit (f m') i = Z.testbit (f m) i || match zread letters (ofs - i) with Some c => gives f c | None => false end.

Definition dram_clash (letters : list ascii) (d : bool) : bool := d && existsb is_dram_letter letters.

Lemma parse_map_spec s d ofs m : -1 <= ofs < 64 -> zlen (bit_letters s) <= ofs + 1 ->
  if dram_clash (bit_letters s) d then parse_map s d ofs m = Err AssertFailed
  else exists m', parse_map s d ofs m = Ok (ofs - zlen (bit_letters s), m') /\ spells (bit_letters s) ofs m m'.
Proof.
  revert ofs m. induction s as [|c s IH]; intros ofs m Ho Hlen; simpl.
  { unfold dram_clash. rewrite andb_false_r. exists m. split; [unfold zlen; simpl; do 2 f_equal; lia|].
    intros f i _ _. unfold zread. simpl. by destruct (0 <=? ofs - i); rewrite orb_false_r. }
  unfold bit_letters in *. rewrite filter_cons in *. destruct (takes_bit c) eqn:Hc; simpl in *; [|by apply IH].
  replace (zlen (c :: filter (λ c : ascii, takes_bit c) s)) with (1 + zlen (filter (λ c : ascii, takes_bit c) s)) in * by
    (unfold zlen; simpl; lia).
  pose proof (zlen_nonneg (filter (λ c : ascii, takes_bit c) s)). unfold dram_clash in *. simpl.
  destruct (is_dram_letter c && d) eqn:Hd; simpl.
  { apply andb_true_iff in Hd as [-> ->]. done. }
  assert (exists b, (if bool_decide (c = "0"%char) then Ok 0 else ull_bit ofs) = Ok b /\
    forall f, f ∈ all_fields -> f (default no_fields (letter_bit c b)) = if gives f c then 2 ^ ofs else 0) as (b & -> & Hb).
  { case_bool_decide as E0.
    - subst c. exists 0. split; [done|]. intros f Hf. rewrite letter_field by done.
      unfold all_fields in Hf. rewrite !elem_of_cons, elem_of_nil in Hf. by destruct Hf as [->|[->|[->|[->|[->|[]]]]]].
    - exists (2 ^ ofs). rewrite ull_bit_ok, Z.shiftl_1_l by lia. split; [done|]. intros f Hf. by apply letter_field. }
  rewrite bind_of_ok. fold no_fields. specialize (IH (ofs - 1) (or_masks m (default no_fields (letter_bit c b))) ltac:(lia) ltac:(lia)).
  replace (d && (is_dram_letter c || existsb is_dram_letter (filter (λ c : ascii, takes_bit c) s)))
    with (d && existsb is_dram_letter (filter (λ c : ascii, takes_bit c) s)) by (destruct d, (is_dram_letter c); done).
  destruct (d && _); [done|]. destruct IH as (m' & -> & Hm'). exists m'. split; [do 2 f_equal; lia|].
  intros f i Hf Hi. rewrite Hm', or_masks_field, Z.lor_spec, Hb, zread_cons by done.
  destruct (Z.eqb_spec (ofs - i) 0).
  - assert (i = ofs) as -> by lia. rewrite (zread_none _ (ofs - 1 - ofs)), orb_false_r by lia.
    destruct (gives f c); [by rewrite Z.pow2_bits_true by lia|by rewrite Z.bits_0].
  - replace (ofs - 1 - i) with (ofs - i - 1) by lia.
    assert (Z.testbit (if gives f c then 2 ^ ofs else 0) i = false) as ->; [|by rewrite orb_false_r].
    destruct (gives f c); [apply Z.pow2_bits_false; lia|apply Z.bits_0].
Qed.

(** The letters of a map that take a bit, and those that give it to each field. *)
Definition map_letters : list ascii := list_ascii_of_string "DdBbRrCcSs0".
Definition field_letters : list ((addrdec_t → Z) * list ascii) :=
  [(chip, ["D"; "d"]); (bk, ["B"; "b"]); (row, ["R"; "r"]); (col, ["C"; "c"; "S"; "s"]); (burst, ["S"; "s"])]%char.

Lemma takes_bit_letters c : takes_bit c = bool_decide (c ∈ map_letters).
Proof. by destruct c as [[] [] [] [] [] [] [] []]. Qed.

Lemma gives_letters f ls c : (f, ls) ∈ field_letters -> f ∈ all_fields /\ gives f c = bool_decide (c ∈ ls).
Proof.
  unfold field_letters, all_fields. rewrite !elem_of_cons, elem_of_nil.
  intros [[= -> ->]|[[= -> ->]|[[= -> ->]|[[= -> ->]|[[= -> ->]|[]]]]]];
    (split; [tauto|]); by destruct c as [[] [] [] [] [] [] [] []].
Qed.

(** C31: An option string that describes a mapping is accepted when its map has exactly
    64 letters that take a bit and does not name partition bits beside dramid@; letter k
    then gives bit 63 - k of the address to its field and nothing else; a shorter map,
    or one that names partition bits twice, stops the simulator. *)
Theorem option_string_masks t opt :
  let letters := filter (fun c => c ∈ map_letters) (map_part opt) in
  zlen letters <= 64 ->
  if (zlen letters =? 64) && negb (dram_clash letters (bool_decide (is_Some (scan_dramid opt))))
  then exists t', addrdec_parseoption t opt = Ok t' /\
         ADDR_CHIP_S t' = match scan_dramid opt with Some d => s32 (u32 d) | None => -1 end /\
         forall f ls k, (f, ls) ∈ field_letters -> 0 <= k < 64 ->
           Z.testbit (f (addrdec_mask t')) (63 - k) =
             match zread letters k with Some c => bool_decide (c ∈ ls) | None => false end
  else addrdec_parseoption t opt = Err AssertFailed.
Proof.
  cbv zeta. replace (filter (fun c => c ∈ map_letters) (map_part opt)) with (bit_letters (map_part opt)).
  2:{ apply list_filter_iff. intros c. rewrite takes_bit_letters. apply bool_decide_spec. }
  intros Hlen. pose proof (parse_map_spec (map_part opt) (bool_decide (is_Some (scan_dramid opt))) 63 no_fields
    ltac:(lia) ltac:(lia)) as H. unfold addrdec_parseoption. fold (map_part opt) no_fields.
  destruct (dram_clash _ _).
  - rewrite andb_false_r, H. done.
  - destruct H as (m' & -> & Hm). rewrite andb_true_r, bind_of_ok. destruct (Z.eqb_spec (zlen (bit_letters (map_part opt))) 64) as [E|E].
    + rewrite E. eexists. split; [reflexivity|]. split; [done|]. intros f ls k Hf Hk. cbn [addrdec_mask].
      destruct (gives_letters f ls "0"%char Hf) as [Hall _].
      rewrite Hm by (done || lia). replace (63 - (63 - k)) with k by lia.
      assert (Z.testbit (f no_fields) (63 - k) = false) as ->.
      { unfold all_fields in Hall. rewrite !elem_of_cons, elem_of_nil in Hall.
        by destruct Hall as [->|[->|[->|[->|[->|[]]]]]]; rewrite Z.bits_0. }
      destruct (zread _ k) as [c|]; [|done]. simpl. by apply gives_letters.
    + by rewrite (proj2 (Z.eqb_neq _ (-1))) by lia.
Qed.

Definition demo_option : list ascii := list_ascii_of_string
  "dramid@8;00000000.00000000.00000000.00000000.0000RRRR.RRRRRRRR.BBBCCCCB.CCSSSSSS".

Lemma option_string_masks_witness : exists t',
  addrdec_parseoption (translation_new (Some demo_option) 0 false) demo_option = Ok t' /\ ADDR_CHIP_S t' = 8 /\
  Z.testbit (bk (addrdec_mask t')) 8 = true.
Proof.
  pose proof (option_string_masks (translation_new (Some demo_option) 0 false) demo_option) as H.
  specialize (H ltac:(by vm_compute)). destruct H as (t' & E & Hs & Hb). exists t'. split; [exact E|].
  split; [exact Hs|]. exact (Hb bk ["B"; "b"]%char 55 ltac:(right; left) ltac:(lia)).
Defined.

(** Moving the masks up past the partition bits leaves the mask of the burst behind: a
    burst letter above the partition bits then names another bit than its column. *)
Example burst_mask_is_not_moved :
  (t ← set_masks (translation_new (Some (list_ascii_of_string
     "dramid@8;00000000.00000000.00000000.00000000.0000RRRR.RRRRRRRR.BBBCCCCS.CCCCCCCC")) 0 false) 4;
   mret (Z.testbit (burst (addrdec_mask t)) 8, Z.testbit (col (addrdec_mask t)) 8)) = Ok (true, false).
Proof. vm_compute. reflexivity. Qed.
