(* ===== verification/TagArray.v ===== *)
(** * Tags of the GPU caches

    [cache_config] of [gpgpu-sim/gpu-config.h] and [cache_block_t] and [tag_array]
    of [gpgpu-sim/gpu-cache.{h,cc}]: a set-associative array of lines, with LRU or
    FIFO replacement among the valid lines of a set and lines that are reserved
    between a miss and its fill. *)

From Stdlib Require Import Ascii String.
From S2P Require Import Prelude GpuMisc AddrDec.

Inductive replacement_policy_t := LRU | FIFO.
Inductive write_policy_t := READ_ONLY | WRITE_BACK | WRITE_THROUGH | WRITE_EVICT | LOCAL_WB_GLOBAL_WT.
Inductive allocation_policy_t := ON_MISS | ON_FILL.
Inductive write_allocate_policy_t := NO_WRITE_ALLOCATE | WRITE_ALLOCATE.
Inductive mshr_config_t := TEX_FIFO | ASSOC.
Inductive cache_block_state := INVALID | RESERVED | VALID | MODIFIED.
Inductive cache_request_status := HIT | HIT_RESERVED | MISS | RESERVATION_FAIL.
#[export] Instance replacement_eq_dec : EqDecision replacement_policy_t.
Proof. solve_decision. Defined.
#[export] Instance write_policy_eq_dec : EqDecision write_policy_t.
Proof. solve_decision. Defined.
#[export] Instance allocation_eq_dec : EqDecision allocation_policy_t.
Proof. solve_decision. Defined.
#[export] Instance mshr_config_eq_dec : EqDecision mshr_config_t.
Proof. solve_decision. Defined.
#[export] Instance block_state_eq_dec : EqDecision cache_block_state.
Proof. solve_decision. Defined.
#[export] Instance request_status_eq_dec : EqDecision cache_request_status.
Proof. solve_decision. Defined.

(** The three unions of the class are [m_mshr_entries] with
    [m_fragment_fifo_entries], [m_mshr_max_merge] with [m_request_fifo_entries] and
    [m_miss_queue_size] with [m_rob_entries]. *)
Record cache_config := mkConfig {
  m_valid : bool;
  m_disabled : bool;
  m_line_sz : Z;
  m_line_sz_log2 : Z;
  m_nset : Z;
  m_nset_log2 : Z;
  m_assoc : Z;
  m_replacement_policy : replacement_policy_t;
  m_write_policy : write_policy_t;
  m_alloc_policy : allocation_policy_t;
  m_mshr_type : mshr_config_t;
  m_write_alloc_policy : write_allocate_policy_t;
  m_mshr_entries : Z;
  m_mshr_max_merge : Z;
  m_miss_queue_size : Z;
  m_result_fifo_entries : Z;
}.

(** ** The configuration string *)

(** The items of a [sscanf] format: [%u], [%c] and a character to match. *)
Inductive fmt := FU | FC | FL (c : ascii).
Inductive scanned := SU (n : Z) | SC (c : ascii).

Fixpoint drop_digits (s : list ascii) : list ascii :=
  match s with [] => [] | c :: s' => match digit c with Some _ => drop_digits s' | None => s end end.
Definition unsign (s : list ascii) : list ascii :=
  match s with "-"%char :: s' | "+"%char :: s' => s' | _ => s end.

(** The conversions that succeed before the first that does not. *)
Fixpoint sscanf (f : list fmt) (s : list ascii) : list scanned :=
  match f with
  | [] => []
  | FL c :: f' => match s with a :: s' => if decide (a = c) then sscanf f' s' else [] | [] => [] end
  | FC :: f' => match s with a :: s' => SC a :: sscanf f' s' | [] => [] end
  | FU :: f' =>
      match scan_int s with
      | Some n => SU (u32 n) :: sscanf f' (drop_digits (unsign (skip_blank s)))
      | None => []
      end
  end.
Definition cache_format : list fmt :=
  [FU; FL ":"; FU; FL ":"; FU; FL ","; FC; FL ":"; FC; FL ":"; FC; FL ":"; FC; FL ",";
   FC; FL ":"; FU; FL ":"; FU; FL ","; FU; FL ":"; FU]%char.

Definition parse_replacement (c : ascii) : outcome replacement_policy_t :=
  match c with "L"%char => Ok LRU | "F"%char => Ok FIFO | _ => Err ErrorMsg end.
Definition parse_write (c : ascii) : outcome write_policy_t :=
  match c with
  | "R"%char => Ok READ_ONLY | "B"%char => Ok WRITE_BACK | "T"%char => Ok WRITE_THROUGH
  | "E"%char => Ok WRITE_EVICT | "L"%char => Ok LOCAL_WB_GLOBAL_WT | _ => Err ErrorMsg
  end.
Definition parse_alloc (c : ascii) : outcome allocation_policy_t :=
  match c with "m"%char => Ok ON_MISS | "f"%char => Ok ON_FILL | _ => Err ErrorMsg end.
Definition parse_mshr (c : ascii) (ntok : Z) : outcome mshr_config_t :=
  match c with
  | "F"%char => cassert (ntok =? 12);; mret TEX_FIFO
  | "A"%char => mret ASSOC
  | _ => Err ErrorMsg
  end.
Definition parse_write_alloc (c : ascii) : outcome write_allocate_policy_t :=
  match c with "W"%char => Ok WRITE_ALLOCATE | "N"%char => Ok NO_WRITE_ALLOCATE | _ => Err ErrorMsg end.

(** The number a conversion left, or what the member held before. *)
Definition scanned_or (x : option scanned) (old : Z) : Z :=
  match x with Some (SU n) => n | _ => old end.

(** [init]; [c] is the object before the call, whose members a conversion that did
    not happen leaves as they are. *)
Definition cache_config_init (c : cache_config) (config_string : list ascii) : outcome cache_config :=
  let toks := sscanf cache_format config_string in
  let ntok := zlen toks in
  match toks with
  | SU nset :: SU line_sz :: SU assoc :: SC rp :: SC wp :: SC ap :: SC wap :: SC mshr_type :: SU entries :: SU merge :: rest =>
      rp ← parse_replacement rp;
      wp ← parse_write wp;
      ap ← parse_alloc ap;
      mt ← parse_mshr mshr_type ntok;
      wap ← parse_write_alloc wap;
      mret (mkConfig true (m_disabled c) line_sz (LOGB2 line_sz) nset (LOGB2 nset) assoc rp wp ap mt wap entries merge
              (scanned_or (rest !! 0%nat) (m_miss_queue_size c)) (scanned_or (rest !! 1%nat) (m_result_fifo_entries c)))
  | _ =>
      if bool_decide (config_string = list_ascii_of_string "none") then
        mret (mkConfig (m_valid c) true (m_line_sz c) (m_line_sz_log2 c) (m_nset c) (m_nset_log2 c) (m_assoc c)
                (m_replacement_policy c) (m_write_policy c) (m_alloc_policy c) (m_mshr_type c) (m_write_alloc_policy c)
                (m_mshr_entries c) (m_mshr_max_merge c) (m_miss_queue_size c) (m_result_fifo_entries c))
      else Err ErrorMsg
  end.

Section config.
Context (c : cache_config).

Definition get_line_sz : outcome Z := cassert (m_valid c);; mret (m_line_sz c).
Definition get_num_lines : outcome Z := cassert (m_valid c);; mret (u32 (m_nset c * m_assoc c)).
Definition set_index (addr : Z) : Z := u32 (Z.land (Z.shiftr addr (m_line_sz_log2 c)) (u32 (m_nset c - 1))).
Definition tag (addr : Z) : Z := Z.shiftr addr (m_line_sz_log2 c + m_nset_log2 c).
(** [~(m_line_sz-1)] is an [unsigned int]. *)
Definition block_addr (addr : Z) : Z := Z.land addr (u32 (Z.lnot (m_line_sz c - 1))).
End config.

(** ** Lines *)

Record cache_block_t := mkBlock {
  m_tag : Z;
  m_block_addr : Z;
  m_alloc_time : Z;
  m_last_access_time : Z;
  m_fill_time : Z;
  m_status : cache_block_state;
}.
Definition cache_block_new : cache_block_t := mkBlock 0 0 0 0 0 INVALID.
Definition allocate (tag block_addr time : Z) : cache_block_t := mkBlock tag block_addr time time 0 RESERVED.
Definition block_fill (b : cache_block_t) (time : Z) : outcome cache_block_t :=
  cassert (bool_decide (m_status b = RESERVED));;
  mret (mkBlock (m_tag b) (m_block_addr b) (m_alloc_time b) (m_last_access_time b) time VALID).
Definition with_status (b : cache_block_t) (s : cache_block_state) : cache_block_t :=
  mkBlock (m_tag b) (m_block_addr b) (m_alloc_time b) (m_last_access_time b) (m_fill_time b) s.
Definition touch (b : cache_block_t) (time : Z) : cache_block_t :=
  mkBlock (m_tag b) (m_block_addr b) (m_alloc_time b) time (m_fill_time b) (m_status b).

(** The two histograms are the array's own and the one it shares with the caches of
    its kind. *)
Record tag_array := mkTags {
  m_lines : list cache_block_t;
  m_access : Z;
  m_miss : Z;
  m_pending_hit : Z;
  m_cacheblock_lifetimes : binned_histogram;
  m_cacheblock_lifetimes_aggr : binned_histogram;
  m_prev_snapshot : Z * Z * Z;  (** accesses, misses and pending hits *)
}.
Definition with_lines (t : tag_array) (l : list cache_block_t) : tag_array :=
  mkTags l (m_access t) (m_miss t) (m_pending_hit t) (m_cacheblock_lifetimes t) (m_cacheblock_lifetimes_aggr t)
    (m_prev_snapshot t).
Definition count_access (t : tag_array) : tag_array :=
  mkTags (m_lines t) (u32 (m_access t + 1)) (m_miss t) (m_pending_hit t) (m_cacheblock_lifetimes t)
    (m_cacheblock_lifetimes_aggr t) (m_prev_snapshot t).
Definition count_miss (t : tag_array) : tag_array :=
  mkTags (m_lines t) (m_access t) (u32 (m_miss t + 1)) (m_pending_hit t) (m_cacheblock_lifetimes t)
    (m_cacheblock_lifetimes_aggr t) (m_prev_snapshot t).
Definition count_pending (t : tag_array) : tag_array :=
  mkTags (m_lines t) (m_access t) (m_miss t) (u32 (m_pending_hit t + 1)) (m_cacheblock_lifetimes t)
    (m_cacheblock_lifetimes_aggr t) (m_prev_snapshot t).

Definition tag_array_new (c : cache_config) (aggr : binned_histogram) : outcome tag_array :=
  n ← get_num_lines c;
  mret (mkTags (replicate (Z.to_nat n) cache_block_new) 0 0 0 (binned_histogram_new 32) aggr (0, 0, 0)).

(** [state_add_cacheblock_lifetime]; the sample is converted to [int]. *)
Definition add_lifetime (t : tag_array) (lifetime : Z) : outcome tag_array :=
  h ← pow2_add2bin (m_cacheblock_lifetimes t) (s32 lifetime);
  a ← pow2_add2bin (m_cacheblock_lifetimes_aggr t) (s32 lifetime);
  mret (mkTags (m_lines t) (m_access t) (m_miss t) (m_pending_hit t) h a (m_prev_snapshot t)).

Definition no_line : Z := 2 ^ 32 - 1.

(** What the loop over the ways has found. *)
Record candidates := mkCand {
  invalid_line : Z;
  valid_line : Z;
  valid_timestamp : Z;
  all_reserved : bool;
}.

Section tags.
Context (c : cache_config).

Definition age (line : cache_block_t) : Z :=
  match m_replacement_policy c with LRU => m_last_access_time line | FIFO => m_alloc_time line end.

Definition consider (index : Z) (line : cache_block_t) (k : candidates) : candidates :=
  match m_status line with
  | RESERVED => k
  | INVALID => mkCand index (valid_line k) (valid_timestamp k) false
  | _ => if age line <? valid_timestamp k then mkCand (invalid_line k) index (age line) false
         else mkCand (invalid_line k) (valid_line k) (valid_timestamp k) false
  end.

(** The loop: a hit returns at once. *)
Fixpoint probe_ways (n : nat) (lines : list cache_block_t) (tg index : Z) (k : candidates) :
    outcome ((cache_request_status * Z) + candidates) :=
  match n with
  | O => mret (inr k)
  | S n' =>
      line ← aread lines (u32 index);
      if (m_tag line =? tg) && negb (bool_decide (m_status line = INVALID)) then
        mret (inl (if bool_decide (m_status line = RESERVED) then HIT_RESERVED else HIT, u32 index))
      else probe_ways n' lines tg (index + 1) (consider (u32 index) line k)
  end.

(** [probe]; [idx] is the reference argument. *)
Definition probe (t : tag_array) (addr idx : Z) : outcome (cache_request_status * Z) :=
  r ← probe_ways (Z.to_nat (m_assoc c)) (m_lines t) (tag c addr) (set_index c addr * m_assoc c)
        (mkCand no_line no_line no_line true);
  match r with
  | inl hit => mret hit
  | inr k =>
      if all_reserved k then cassert (bool_decide (m_alloc_policy c = ON_MISS));; mret (RESERVATION_FAIL, idx)
      else if negb (invalid_line k =? no_line) then mret (MISS, invalid_line k)
      else if negb (valid_line k =? no_line) then mret (MISS, valid_line k)
      else Err ErrorMsg
  end.

(** [access] with the evicted line, if it has to be written back. *)
Definition access (t : tag_array) (addr time idx : Z) :
    outcome (cache_request_status * Z * option cache_block_t * tag_array) :=
  let t := count_access t in
  '(status, idx) ← probe t addr idx;
  match status with
  | HIT | HIT_RESERVED =>
      let t := if bool_decide (status = HIT_RESERVED) then count_pending t else t in
      line ← aread (m_lines t) idx;
      l ← awrite (m_lines t) idx (touch line time);
      mret (status, idx, None, with_lines t l)
  | MISS =>
      let t := count_miss t in
      if bool_decide (m_alloc_policy c = ON_MISS) then
        line ← aread (m_lines t) idx;
        let dirty := bool_decide (m_status line = MODIFIED) in
        t ← (if dirty then add_lifetime t (u32 (time - m_alloc_time line)) else mret t);
        l ← awrite (m_lines t) idx (allocate (tag c addr) (block_addr c addr) time);
        mret (status, idx, if dirty then Some line else None, with_lines t l)
      else mret (status, idx, None, t)
  | RESERVATION_FAIL => mret (status, idx, None, count_miss t)
  end.
(** [access] for callers that do not write back. *)
Definition access_clean (t : tag_array) (addr time idx : Z) : outcome (cache_request_status * Z * tag_array) :=
  '(status, idx, evicted, t) ← access t addr time idx;
  cassert (bool_decide (evicted = None));;
  mret (status, idx, t).

(** [fill] by address, for caches that allocate on the fill, and by index. *)
Definition fill_addr (t : tag_array) (addr time : Z) : outcome tag_array :=
  cassert (bool_decide (m_alloc_policy c = ON_FILL));;
  '(status, idx) ← probe t addr no_line;
  cassert (bool_decide (status = MISS));;
  old ← aread (m_lines t) idx;
  t ← add_lifetime t (u32 (time - m_alloc_time old));
  line ← block_fill (allocate (tag c addr) (block_addr c addr) time) time;
  l ← awrite (m_lines t) idx line;
  mret (with_lines t l).
Definition fill_index (t : tag_array) (index time : Z) : outcome tag_array :=
  cassert (bool_decide (m_alloc_policy c = ON_MISS));;
  line ← aread (m_lines t) index;
  line ← block_fill line time;
  l ← awrite (m_lines t) index line;
  mret (with_lines t l).

(** [m_lines[index].m_status = s] through [get_block]. *)
Definition set_status (t : tag_array) (index : Z) (s : cache_block_state) : outcome tag_array :=
  line ← aread (m_lines t) index;
  l ← awrite (m_lines t) index (with_status line s);
  mret (with_lines t l).

Definition flush_line (time i : Z) (t : tag_array) : outcome tag_array :=
  line ← aread (m_lines t) i;
  t ← (if bool_decide (m_status line = INVALID) then mret t else add_lifetime t (u64 (time - m_alloc_time line)));
  set_status t i INVALID.
Definition flush (t : tag_array) (time : Z) : outcome tag_array :=
  n ← get_num_lines c; for_range 0 n (flush_line time) t.

Definition new_window (t : tag_array) : tag_array :=
  mkTags (m_lines t) (m_access t) (m_miss t) (m_pending_hit t) (m_cacheblock_lifetimes t)
    (m_cacheblock_lifetimes_aggr t) (m_access t, m_miss t, m_pending_hit t).
(** [windowed_miss_rate] as a fraction: misses over accesses of the window, 0 over 1 when
    there was no access. *)
Definition windowed_miss_rate (t : tag_array) : Z * Z :=
  let n_access := u32 (m_access t - (m_prev_snapshot t).1.1) in
  let n_miss := u32 (m_miss t - (m_prev_snapshot t).1.2) in
  if n_access =? 0 then (0, 1) else (n_miss, n_access).
End tags.

(** * Geometry *)

Record geometry (c : cache_config) : Prop := {
  ge_valid : m_valid c = true;
  ge_line : m_line_sz c = 2 ^ m_line_sz_log2 c /\ 0 <= m_line_sz_log2 c < 32;
  ge_sets : m_nset c = 2 ^ m_nset_log2 c /\ 0 <= m_nset_log2 c < 32;
  ge_assoc : 1 <= m_assoc c;
  ge_size : m_nset c * m_assoc c < 2 ^ 32 - 1;
}.

(** A configuration string with powers of two is a geometry. *)
Lemma config_geometry c s c' a b :
  cache_config_init c s = Ok c' -> m_disabled c = false -> m_disabled c' = false ->
  m_line_sz c' = 2 ^ a -> m_nset c' = 2 ^ b -> 0 <= a < 32 -> 0 <= b < 32 ->
  1 <= m_assoc c' -> m_nset c' * m_assoc c' < 2 ^ 32 - 1 -> geometry c'.
Proof.
  intros E Hd Hd' Ha Hb Hra Hrb Has Hsz. unfold cache_config_init in E. repeat case_match; ok_inv; subst; simpl in *; try done.
  assert (2 ^ a < 2 ^ 32 /\ 2 ^ b < 2 ^ 32) as [? ?] by (split; apply Z.pow_lt_mono_r; lia).
  assert (0 < 2 ^ a /\ 0 < 2 ^ b) as [? ?] by (split; apply Z.pow_pos_nonneg; lia).
  split; simpl; try done; rewrite LOGB2_spec by lia; subst; rewrite Z.log2_pow2 by lia; lia.
Qed.

(** An aligned 32-bit address. *)
Definition is_block (c : cache_config) (b : Z) : Prop := 0 <= b < 2 ^ 32 /\ b mod m_line_sz c = 0.

Section geometry_facts.
Context (c : cache_config) (Hg : geometry c).

Lemma line_pos : 0 < m_line_sz c.
Proof. destruct (ge_line _ Hg) as [-> ?]. apply Z.pow_pos_nonneg; lia. Qed.
Lemma nset_pos : 0 < m_nset c.
Proof. destruct (ge_sets _ Hg) as [-> ?]. apply Z.pow_pos_nonneg; lia. Qed.

Lemma nset_small : m_nset c < 2 ^ 32.
Proof. destruct (ge_sets _ Hg) as [-> ?]. apply Z.pow_lt_mono_r; lia. Qed.

Lemma set_index_val a : 0 <= a -> set_index c a = (a / m_line_sz c) mod m_nset c.
Proof.
  intros Ha. unfold set_index. pose proof nset_pos. pose proof nset_small.
  rewrite (uwrap_small 32 (m_nset c - 1)) by lia. destruct (ge_sets _ Hg) as [E ?]. rewrite E at 1.
  rewrite Z.sub_1_r, <- Z.ones_equiv, Z.land_ones, <- E, Z.shiftr_div_pow2 by (destruct (ge_line _ Hg); lia).
  destruct (ge_line _ Hg) as [<- _]. apply uwrap_small. pose proof (Z.mod_pos_bound (a / m_line_sz c) (m_nset c)). lia.
Qed.

Lemma set_index_range a : 0 <= a -> 0 <= set_index c a < m_nset c.
Proof. intros Ha. rewrite set_index_val by done. apply Z.mod_pos_bound, nset_pos. Qed.

Lemma block_tag_val a : tag c a = a / m_line_sz c / m_nset c.
Proof.
  unfold tag. destruct (ge_line _ Hg) as [El ?], (ge_sets _ Hg) as [En ?].
  pose proof line_pos. pose proof nset_pos.
  rewrite Z.shiftr_div_pow2, Z.pow_add_r, <- El, <- En, Z.div_div by lia. done.
Qed.

(** Set and tag name the block. *)
Lemma block_of_set_tag a b : is_block c a -> is_block c b ->
  set_index c a = set_index c b -> tag c a = tag c b -> a = b.
Proof.
  intros [Ha Ea] [Hb Eb]. rewrite !set_index_val, !block_tag_val by lia. intros Es Et.
  pose proof line_pos. pose proof nset_pos.
  assert (a / m_line_sz c = b / m_line_sz c) as E.
  { rewrite (Z.div_mod (a / m_line_sz c) (m_nset c)), (Z.div_mod (b / m_line_sz c) (m_nset c)) by lia. congruence. }
  rewrite (Z.div_mod a (m_line_sz c)), (Z.div_mod b (m_line_sz c)) by lia. congruence.
Qed.

Lemma block_addr_val a : 0 <= a -> block_addr c a = u32 a - u32 a mod m_line_sz c.
Proof.
  intros Ha. unfold block_addr. destruct (ge_line _ Hg) as [El Hl]. pose proof line_pos.
  assert (u32 a - u32 a mod m_line_sz c = u32 a / m_line_sz c * 2 ^ m_line_sz_log2 c) as ->
    by (rewrite <- El; pose proof (Z.div_mod (u32 a) (m_line_sz c)); lia).
  rewrite <- Z.shiftl_mul_pow2, El, <- Z.shiftr_div_pow2 by lia. apply Z.bits_inj'. intros i Hi.
  rewrite Z.land_spec, Z.shiftl_spec, !uwrap_testbit by lia.
  rewrite Z.sub_1_r, <- Z.ones_equiv, Z.lnot_spec, ones_bits by lia.
  destruct (Z.ltb_spec i (m_line_sz_log2 c)).
  - by rewrite (Z.testbit_neg_r _ (i - _)), !andb_false_r by lia.
  - rewrite Z.shiftr_spec, uwrap_testbit by lia. replace (i - m_line_sz_log2 c + m_line_sz_log2 c) with i by lia.
    by rewrite andb_true_r, andb_comm.
Qed.

Lemma block_addr_is_block a : 0 <= a -> is_block c (block_addr c a).
Proof.
  intros Ha. rewrite block_addr_val by done. pose proof line_pos. pose proof (uwrap_range 32 a ltac:(lia)).
  pose proof (Z.mod_pos_bound (u32 a) (m_line_sz c)). pose proof (Z.mod_le (u32 a) (m_line_sz c)). split; [lia|].
  rewrite Zminus_mod_idemp_r, Z.sub_diag. apply Z.mod_0_l. lia.
Qed.

Lemma block_addr_id b : is_block c b -> block_addr c b = b.
Proof. intros [Hb E]. rewrite block_addr_val, uwrap_small, E by lia. lia. Qed.
End geometry_facts.

(** * The invariant of the tags *)

(** Block [b] has the line [i], valid, modified or reserved. *)
Definition resident (t : tag_array) (b i : Z) (line : cache_block_t) : Prop :=
  zread (m_lines t) i = Some line /\ m_status line <> INVALID /\ m_block_addr line = b.
Definition absent (t : tag_array) (b : Z) : Prop := forall i line, ~ resident t b i line.

(** [now] bounds the times in the array. *)
Record tags_ok (c : cache_config) (t : tag_array) (now : Z) : Prop := {
  to_size : zlen (m_lines t) = m_nset c * m_assoc c;
  to_home : forall b i line, resident t b i line ->
    is_block c b /\ set_index c b = i / m_assoc c /\ m_tag line = tag c b;
  to_unique : forall b i j li lj, resident t b i li -> resident t b j lj -> i = j;
  to_times : forall i line, zread (m_lines t) i = Some line ->
    0 <= m_alloc_time line <= now /\ 0 <= m_last_access_time line <= now;
  to_fill : m_alloc_policy c = ON_FILL -> forall i line, zread (m_lines t) i = Some line -> m_status line <> RESERVED;
  to_bins : has_bins (m_cacheblock_lifetimes t) /\ has_bins (m_cacheblock_lifetimes_aggr t);
}.

(** The times the counters of the simulator may reach. *)
Definition time_ok (now : Z) : Prop := 0 <= now < 2 ^ 31.

(** What [probe] answers for block [b], which of the lines it names and why. *)
Inductive probed (c : cache_config) (t : tag_array) (b idx : Z) : cache_request_status → Z → Prop :=
  | probed_hit i line : resident t b i line -> m_status line <> RESERVED -> probed c t b idx HIT i
  | probed_reserved i line : resident t b i line -> m_status line = RESERVED -> probed c t b idx HIT_RESERVED i
  | probed_miss i line :
      absent t b -> zread (m_lines t) i = Some line -> i / m_assoc c = set_index c b ->
      m_status line <> RESERVED ->
      (m_status line <> INVALID -> forall j lj, zread (m_lines t) j = Some lj -> j / m_assoc c = set_index c b ->
         m_status lj = RESERVED \/ m_status lj <> INVALID /\ age c line <= age c lj) ->
      probed c t b idx MISS i
  | probed_fail :
      absent t b -> m_alloc_policy c = ON_MISS ->
      (forall j lj, zread (m_lines t) j = Some lj -> j / m_assoc c = set_index c b -> m_status lj = RESERVED) ->
      probed c t b idx RESERVATION_FAIL idx.

Section probing.
Context (c : cache_config) (Hg : geometry c).

(** The candidates after the ways from [lo] up to [hi]. *)
Record cand_ok (lines : list cache_block_t) (lo hi : Z) (k : candidates) : Prop := {
  co_reserved : all_reserved k = true -> forall j l, lo <= j < hi -> zread lines j = Some l -> m_status l = RESERVED;
  co_some : all_reserved k = false -> exists j l, lo <= j < hi /\ zread lines j = Some l /\ m_status l <> RESERVED;
  co_invalid : (invalid_line k = no_line /\ forall j l, lo <= j < hi -> zread lines j = Some l -> m_status l <> INVALID) \/
    (lo <= invalid_line k < hi /\ exists l, zread lines (invalid_line k) = Some l /\ m_status l = INVALID);
  co_valid : (valid_line k = no_line /\ valid_timestamp k = no_line /\
      forall j l, lo <= j < hi -> zread lines j = Some l -> m_status l = RESERVED \/ m_status l = INVALID) \/
    (lo <= valid_line k < hi /\ (exists l, zread lines (valid_line k) = Some l /\
        m_status l <> RESERVED /\ m_status l <> INVALID /\ valid_timestamp k = age c l) /\
      forall j l, lo <= j < hi -> zread lines j = Some l ->
        m_status l = RESERVED \/ m_status l = INVALID \/ valid_timestamp k <= age c l);
}.

Lemma cand_start lines lo : cand_ok lines lo lo (mkCand no_line no_line no_line true).
Proof. split; simpl; [lia|done|left; split; [done|lia]|left; split_and!; [done|done|lia]]. Qed.

(** A property of the ways up to [hi] and of [hi]. *)
Lemma ways_snoc lines lo hi line (P : Z → cache_block_t → Prop) :
  zread lines hi = Some line -> (forall j l, lo <= j < hi -> zread lines j = Some l -> P j l) -> P hi line ->
  forall j l, lo <= j < hi + 1 -> zread lines j = Some l -> P j l.
Proof.
  intros Hl H1 H2 j l Hj Hj'. destruct (Z.eq_dec j hi) as [->|]; [congruence|]. apply H1; [lia|done].
Qed.

Section cand_step.
Context (lines : list cache_block_t) (lo hi : Z) (k : candidates) (line : cache_block_t).
Context (Hle : lo <= hi) (Hk : cand_ok lines lo hi k) (Hl : zread lines hi = Some line) (Ha : age c line < no_line).

Lemma invalid_next : m_status line <> INVALID ->
  (invalid_line k = no_line /\ forall j l, lo <= j < hi + 1 -> zread lines j = Some l -> m_status l <> INVALID) \/
  (lo <= invalid_line k < hi + 1 /\ exists l, zread lines (invalid_line k) = Some l /\ m_status l = INVALID).
Proof.
  intros Hst. destruct (co_invalid _ _ _ _ Hk) as [[? Hi]|[? Hi]]; [left; split; [done|]|right; split; [lia|done]].
  by apply ways_snoc with line.
Qed.

Lemma cand_newer : m_status line = VALID \/ m_status line = MODIFIED -> age c line < valid_timestamp k ->
  cand_ok lines lo (hi + 1) (mkCand (invalid_line k) hi (age c line) false).
Proof.
  intros Hst Hlt. assert (m_status line <> INVALID /\ m_status line <> RESERVED) as [? ?] by (destruct Hst; split; congruence).
  split; simpl; [done|intros _; exists hi, line; split_and!; lia || done|by apply invalid_next|].
  right. split; [lia|]. split; [by exists line|]. apply ways_snoc with line; [done| |right; right; lia].
  destruct (co_valid _ _ _ _ Hk) as [(? & ? & Hv)|(? & Hv & Hv')]; intros j l Hj Hj'.
  - destruct (Hv j l Hj Hj'); auto.
  - destruct (Hv' j l Hj Hj') as [?|[?|?]]; auto. right. right. lia.
Qed.

Lemma cand_older : m_status line = VALID \/ m_status line = MODIFIED -> valid_timestamp k <= age c line ->
  cand_ok lines lo (hi + 1) (mkCand (invalid_line k) (valid_line k) (valid_timestamp k) false).
Proof.
  intros Hst Hlt. assert (m_status line <> INVALID /\ m_status line <> RESERVED) as [? ?] by (destruct Hst; split; congruence).
  split; simpl; [done|intros _; exists hi, line; split_and!; lia || done|by apply invalid_next|].
  destruct (co_valid _ _ _ _ Hk) as [(? & ? & Hv)|(? & Hv & Hv')]; [lia|]. right. split; [lia|]. split; [done|].
  apply ways_snoc with line; [done|done|]. auto.
Qed.

Lemma cand_next : cand_ok lines lo (hi + 1) (consider c hi line k).
Proof.
  pose proof Hk as [Hr Hs Hi Hv].
  assert (forall (P : Z → cache_block_t → Prop), (forall j l, lo <= j < hi -> zread lines j = Some l -> P j l) -> P hi line ->
    forall j l, lo <= j < hi + 1 -> zread lines j = Some l -> P j l) as Hext by (intros P; by apply ways_snoc).
  unfold consider. destruct (m_status line) eqn:Hst; [| |destruct (Z.ltb_spec (age c line) (valid_timestamp k))..].
  - split; simpl; [done|intros _; exists hi, line; rewrite Hst; naive_solver lia| |].
    + right. split; [lia|]. exists line. done.
    + destruct Hv as [(? & ? & Hv)|(? & Hv & Hv')]; [left; split_and!; [done..|]|right; split_and!; [lia|lia|done|]].
      * by apply Hext; [|right].
      * apply Hext; [done|]. rewrite Hst. naive_solver.
  - split.
    + intros E. apply Hext; [by apply Hr|done].
    + intros E. destruct (Hs E) as (j & l & ? & ?). exists j, l. split; [lia|done].
    + apply invalid_next. by rewrite Hst.
    + destruct Hv as [(? & ? & Hv)|(? & Hv & Hv')]; [left; split_and!; [done..|]|right; split_and!; [lia|lia|done|]];
        (apply Hext; [done|by left]).
  - apply cand_newer; auto.
  - apply cand_older; auto.
  - apply cand_newer; auto.
  - apply cand_older; auto.
Qed.
End cand_step.

(** A way that holds tag [tg]. *)
Definition matches (tg : Z) (line : cache_block_t) : Prop := m_tag line = tg /\ m_status line <> INVALID.

Lemma probe_ways_spec lines tg lo n hi k :
  lo <= hi -> 0 <= hi -> hi + Z.of_nat n <= zlen lines -> zlen lines < no_line ->
  (forall i l, zread lines i = Some l -> age c l < no_line) -> cand_ok lines lo hi k ->
  (exists i line, hi <= i < hi + Z.of_nat n /\ zread lines i = Some line /\ matches tg line /\
     probe_ways c n lines tg hi k = Ok (inl (if bool_decide (m_status line = RESERVED) then HIT_RESERVED else HIT, i))) \/
  (exists k', probe_ways c n lines tg hi k = Ok (inr k') /\ cand_ok lines lo (hi + Z.of_nat n) k' /\
     forall i line, hi <= i < hi + Z.of_nat n -> zread lines i = Some line -> ~ matches tg line).
Proof.
  intros Hlo Hhi Hlen Hsz Hages. revert hi k Hlo Hhi Hlen. induction n as [|n IH]; intros hi k Hlo Hhi Hlen Hk.
  { right. exists k. replace (hi + Z.of_nat 0) with hi by lia. split_and!; [done|done|lia]. }
  destruct (aread_in lines hi) as (line & Hr & Hread); [lia|]. simpl probe_ways.
  rewrite (uwrap_small 32 hi) by (unfold no_line in Hsz; lia). rewrite Hread, bind_of_ok.
  destruct (Z.eqb_spec (m_tag line) tg) as [Ht|Ht]; [case_bool_decide as Hst|]; simpl.
  2: { left. exists hi, line. split; [lia|]. split; [done|]. split; [done|]. case_bool_decide; done. }
  all: destruct (IH (hi + 1) (consider c hi line k)) as [(i & l & Hi & Hx)|(k' & E & Hk' & Hno)]; try lia;
    [by apply cand_next; eauto|left; exists i, l; split; [lia|done]|].
  all: right; exists k'; replace (hi + Z.of_nat (S n)) with (hi + 1 + Z.of_nat n) by lia; split_and!; [done|done|].
  all: intros i l Hi Hl; destruct (Z.eq_dec i hi) as [->|]; [|apply (Hno i); [lia|done]].
  all: rewrite Hr in Hl; injection Hl as <-; unfold matches; naive_solver.
Qed.

Lemma in_set i b : 0 <= b -> i / m_assoc c = set_index c b <->
  set_index c b * m_assoc c <= i < set_index c b * m_assoc c + m_assoc c.
Proof. intros Hb. pose proof (ge_assoc _ Hg). split; intros Hx; [|symmetry; apply Z.div_unique with (i - set_index c b * m_assoc c)]; nia. Qed.

Lemma set_fits t now b : tags_ok c t now -> 0 <= b ->
  0 <= set_index c b * m_assoc c /\ set_index c b * m_assoc c + m_assoc c <= zlen (m_lines t).
Proof.
  intros Ht Hb. rewrite (to_size _ _ _ Ht). pose proof (set_index_range c Hg b Hb). pose proof (ge_assoc _ Hg). nia.
Qed.

Lemma resident_matches t now b i line : tags_ok c t now -> is_block c b ->
  resident t b i line <-> zread (m_lines t) i = Some line /\ i / m_assoc c = set_index c b /\ matches (tag c b) line.
Proof.
  intros Ht Hb. split.
  - intros Hr. destruct (to_home _ _ _ Ht b i line Hr) as (_ & ? & ?). destruct Hr as (? & ? & _). done.
  - intros (Hz & Hs & Hm & Hst). destruct (to_home _ _ _ Ht (m_block_addr line) i line) as (Hb' & Hs' & Htg); [done|].
    split_and!; [done|done|]. apply (block_of_set_tag c Hg); [done|done|congruence|congruence].
Qed.

Lemma ages_ok t now : tags_ok c t now -> time_ok now ->
  forall i l, zread (m_lines t) i = Some l -> age c l < no_line.
Proof.
  intros Ht Hn i l Hl. destruct (to_times _ _ _ Ht i l Hl). unfold age, no_line, time_ok in *.
  destruct (m_replacement_policy c); lia.
Qed.

Lemma probe_spec t now b idx : tags_ok c t now -> time_ok now -> is_block c b ->
  exists status i, probe c t b idx = Ok (status, i) /\ probed c t b idx status i.
Proof.
  intros Ht Hn Hb. pose proof (proj1 Hb) as Hb0. destruct (set_fits t now b Ht ltac:(lia)) as [Hf1 Hf2].
  pose proof (ge_assoc _ Hg). pose proof (ge_size _ Hg).
  set (lo := set_index c b * m_assoc c) in *.
  assert (forall i, lo <= i < lo + m_assoc c <-> i / m_assoc c = set_index c b) as Hset by (intros; by rewrite in_set by lia).
  destruct (probe_ways_spec (m_lines t) (tag c b) lo (Z.to_nat (m_assoc c)) lo (mkCand no_line no_line no_line true))
    as [(i & line & Hi & Hz & Hm & E)|(k & E & Hk & Hno)]; try lia.
  - unfold no_line. rewrite (to_size _ _ _ Ht). lia.
  - by eapply ages_ok.
  - apply cand_start.
  - exists (if bool_decide (m_status line = RESERVED) then HIT_RESERVED else HIT), i.
    unfold probe. fold lo. rewrite E, bind_of_ok. split; [done|].
    assert (resident t b i line) by (apply (resident_matches t now); [done|done|]; split_and!; [done|apply Hset; lia|apply Hm..]).
    case_bool_decide; [by eapply probed_reserved|by eapply probed_hit].
  - rewrite Z2Nat.id in * by lia.
    assert (absent t b) as Hab.
    { intros i line (Hz & Hs & Hm)%(resident_matches t now); [|done|done]. apply Hset in Hs. by apply (Hno i line). }
    unfold probe. fold lo. rewrite E, bind_of_ok. destruct Hk as [Hr Hs Hi Hv].
    destruct (all_reserved k) eqn:Ear.
    { destruct (m_alloc_policy c) eqn:Eap.
      - exists RESERVATION_FAIL, idx. split; [done|]. apply probed_fail; [done|done|].
        intros j lj Hj Hj'. apply (Hr eq_refl j); [by apply Hset|done].
      - destruct (aread_in (m_lines t) lo) as (l & Hl & _); [lia|].
        exfalso. apply (to_fill _ _ _ Ht Eap lo l Hl). apply (Hr eq_refl lo); [lia|done]. }
    destruct Hi as [[-> Hi]|[Hi (l & Hl & Hst)]].
    2: { rewrite (proj2 (Z.eqb_neq _ no_line)) by (unfold no_line; rewrite (to_size _ _ _ Ht) in Hf2; lia).
         eexists _, _. split; [reflexivity|]. apply probed_miss with l; [done|done|by apply Hset|by rewrite Hst|done]. }
    rewrite Z.eqb_refl. simpl. destruct Hv as [(-> & _ & Hv)|(Hv & (l & Hl & Hst & Hst' & Hag) & Hv')].
    + destruct (Hs eq_refl) as (j & l & Hj & Hl & Hst). destruct (Hv j l Hj Hl); [done|]. by destruct (Hi j l).
    + rewrite (proj2 (Z.eqb_neq _ no_line)) by (unfold no_line; rewrite (to_size _ _ _ Ht) in Hf2; lia).
      eexists _, _. split; [reflexivity|]. apply probed_miss with l; [done|done|by apply Hset|done|].
      intros _ j lj Hj Hj'%Hset. destruct (Hv' j lj Hj' Hj) as [?|[?|?]]; [by left|by destruct (Hi j lj)|].
      right. split; [by apply (Hi j)|]. by rewrite <- Hag.
Qed.
End probing.

(** * The operations *)

(** Line [i] holds block [b] in state [s]. *)
Definition holds (t : tag_array) (i b : Z) (s : cache_block_state) : Prop :=
  exists line, zread (m_lines t) i = Some line /\ m_block_addr line = b /\ m_status line = s /\ s <> INVALID.

(** [t'] is [t] with block and state of line [i] replaced. *)
Definition replaced (t t' : tag_array) (i b : Z) (s : cache_block_state) : Prop :=
  forall j b' s', holds t' j b' s' <-> if j =? i then b' = b /\ s' = s /\ s <> INVALID else holds t j b' s'.
Definition unchanged (t t' : tag_array) : Prop := forall j b s, holds t' j b s <-> holds t j b s.

Lemma holds_resident t i b line : resident t b i line <-> zread (m_lines t) i = Some line /\ holds t i b (m_status line).
Proof.
  split.
  - intros (Hz & Hs & Hb). split; [done|]. by exists line.
  - intros (Hz & line' & Hz' & Hb & Hs & Hn). rewrite Hz in Hz'. injection Hz' as <-. by split_and!.
Qed.

Lemma absent_holds t b : absent t b <-> forall i s, ~ holds t i b s.
Proof.
  split; intros H.
  - intros i s (line & Hz & Hb & Hs & Hn). apply (H i line). by split_and!; [|rewrite Hs|].
  - intros i line [_ Hh]%holds_resident. by apply (H i (m_status line)).
Qed.

Lemma replaced_write t t' i new : 0 <= i < zlen (m_lines t) -> m_lines t' = zwrite (m_lines t) i new ->
  replaced t t' i (m_block_addr new) (m_status new).
Proof.
  intros Hi E j b s. unfold holds. rewrite E. destruct (Z.eqb_spec j i) as [->|].
  - rewrite zread_zwrite_eq by done. split.
    + intros (line & [= <-] & <- & <- & ?). done.
    + intros (-> & -> & ?). exists new. done.
  - by rewrite zread_zwrite_ne by done.
Qed.

Lemma replaced_same t t' i b s : replaced t t' i b s -> holds t i b s -> (forall b' s', holds t i b' s' -> b' = b /\ s' = s) ->
  unchanged t t'.
Proof.
  intros Hr Hh Hu j b' s'. rewrite (Hr j b' s'). destruct (Z.eqb_spec j i) as [->|]; [|done]. split.
  - by intros (-> & -> & _).
  - intros [-> ->]%Hu. destruct Hh as (? & _ & _ & _ & ?). done.
Qed.

Lemma holds_fun t i b s b' s' : holds t i b s -> holds t i b' s' -> b' = b /\ s' = s.
Proof. intros (l & Hl & ? & ? & _) (l' & Hl' & ? & ? & _). rewrite Hl in Hl'. injection Hl' as <-. split; congruence. Qed.

Section operations.
Context (c : cache_config) (Hg : geometry c).

(** Writing one line keeps the invariant. *)
Lemma tags_ok_write t t' now now' i new :
  tags_ok c t now -> now <= now' -> 0 <= i < zlen (m_lines t) -> m_lines t' = zwrite (m_lines t) i new ->
  0 <= m_alloc_time new <= now' /\ 0 <= m_last_access_time new <= now' ->
  (m_status new <> INVALID -> is_block c (m_block_addr new) /\ set_index c (m_block_addr new) = i / m_assoc c /\
     m_tag new = tag c (m_block_addr new) /\ forall j s, holds t j (m_block_addr new) s -> j = i) ->
  (m_alloc_policy c = ON_FILL -> m_status new <> RESERVED) ->
  has_bins (m_cacheblock_lifetimes t') /\ has_bins (m_cacheblock_lifetimes_aggr t') ->
  tags_ok c t' now'.
Proof.
  intros Ht Hnow Hi E Htime Hnew Hfill Hbins. pose proof Ht as [Hsz Hhome Huniq Htimes Hf _].
  pose proof (replaced_write t t' i new Hi E) as Hr.
  assert (forall j line, zread (m_lines t') j = Some line -> line = new /\ j = i \/ j <> i /\ zread (m_lines t) j = Some line) as Hread.
  { intros j line. rewrite E, zread_zwrite by done. destruct (Z.eqb_spec i j) as [->|]; [intros [= <-]; auto|]. auto. }
  split; try done.
  - by rewrite E, zlen_zwrite.
  - intros b j line Hres. pose proof Hres as (Hz & Hs & <-). destruct (Hread j line Hz) as [[-> ->]|[? Hz']].
    + destruct (Hnew Hs) as (? & ? & ? & _). done.
    + apply Hhome. by split_and!.
  - intros b j1 j2 l1 l2 [_ H1]%holds_resident [_ H2]%holds_resident. apply Hr in H1, H2.
    destruct (Z.eqb_spec j1 i) as [->|], (Z.eqb_spec j2 i) as [->|]; [done|..].
    + destruct H1 as (-> & _ & Hs). symmetry. by eapply (Hnew Hs).
    + destruct H2 as (-> & _ & Hs). by eapply (Hnew Hs).
    + destruct H1 as (k1 & ? & ? & ? & ?), H2 as (k2 & ? & ? & ? & ?).
      apply (Huniq b j1 j2 k1 k2); split_and!; congruence.
  - intros j line Hz. destruct (Hread j line Hz) as [[-> ->]|[? Hz']]; [done|]. specialize (Htimes j line Hz'). lia.
  - intros Ho j line Hz. destruct (Hread j line Hz) as [[-> ->]|[? Hz']]; [by apply Hfill|by apply (Hf Ho j)].
Qed.

Lemma tags_ok_later t t' now now' : tags_ok c t now -> now <= now' -> m_lines t' = m_lines t ->
  has_bins (m_cacheblock_lifetimes t') /\ has_bins (m_cacheblock_lifetimes_aggr t') -> tags_ok c t' now'.
Proof.
  intros [Hsz Hhome Huniq Htimes Hf _] Hnow E Hb. unfold resident in *. split; unfold resident; rewrite ?E; try done.
  intros i line Hz. specialize (Htimes i line Hz). lia.
Qed.

Lemma tags_ok_new aggr : has_bins aggr -> exists t, tag_array_new c aggr = Ok t /\ tags_ok c t 0 /\ forall i b s, ~ holds t i b s.
Proof.
  intros Ha. unfold tag_array_new, get_num_lines. rewrite (ge_valid _ Hg). simpl. eexists. split; [reflexivity|].
  pose proof (ge_assoc _ Hg). pose proof (ge_size _ Hg). pose proof (nset_pos c Hg).
  assert (forall i line, zread (replicate (Z.to_nat (u32 (m_nset c * m_assoc c))) cache_block_new) i = Some line -> line = cache_block_new) as Hr.
  { intros i line. rewrite zread_replicate. destruct (_ && _); [by intros [= <-]|done]. }
  split.
  - split; unfold resident; simpl.
    + rewrite uwrap_small by nia. apply zlen_replicate. nia.
    + intros b i line (->%Hr & Hs & _). done.
    + intros b i j li lj (->%Hr & Hs & _). done.
    + intros i line ->%Hr. simpl. lia.
    + intros _ i line ->%Hr. done.
    + split; [apply has_bins_new|done].
  - intros i b s (line & ->%Hr & _ & <- & Hn). by apply Hn.
Qed.

Lemma add_lifetime_ok t lifetime : has_bins (m_cacheblock_lifetimes t) /\ has_bins (m_cacheblock_lifetimes_aggr t) ->
  0 <= lifetime < 2 ^ 31 ->
  exists t', add_lifetime t lifetime = Ok t' /\ m_lines t' = m_lines t /\
    has_bins (m_cacheblock_lifetimes t') /\ has_bins (m_cacheblock_lifetimes_aggr t').
Proof.
  intros [H1 H2] Hl. unfold add_lifetime. rewrite swrap_small by (simpl; lia).
  destruct (pow2_add2bin_ok _ _ H1 Hl) as (h1 & -> & ?). rewrite bind_of_ok.
  destruct (pow2_add2bin_ok _ _ H2 Hl) as (h2 & -> & ?). rewrite bind_of_ok. by eexists.
Qed.

(** What an access of block [b] does to the lines, and what it evicts. *)
Definition accessed (t t' : tag_array) (b i : Z) (status : cache_request_status) (ev : option cache_block_t) : Prop :=
  match status with
  | MISS =>
      if bool_decide (m_alloc_policy c = ON_MISS) then
        replaced t t' i b RESERVED /\
        forall old, zread (m_lines t) i = Some old -> ev = if bool_decide (m_status old = MODIFIED) then Some old else None
      else ev = None /\ unchanged t t'
  | _ => ev = None /\ unchanged t t'
  end.

Lemma unchanged_lines t t' : m_lines t' = m_lines t -> unchanged t t'.
Proof. intros E j b s. unfold holds. by rewrite E. Qed.

Lemma touch_spec t t' now time i line : tags_ok c t now -> now <= time -> 0 <= time ->
  zread (m_lines t) i = Some line -> m_status line <> INVALID ->
  m_lines t' = zwrite (m_lines t) i (touch line time) ->
  has_bins (m_cacheblock_lifetimes t') /\ has_bins (m_cacheblock_lifetimes_aggr t') ->
  tags_ok c t' time /\ unchanged t t'.
Proof.
  intros Ht Hn Ht0 Hz Hs E Hb. pose proof (zread_range _ _ _ Hz) as Hi.
  assert (resident t (m_block_addr line) i line) as Hres by done. split.
  - apply (tags_ok_write t t' now time i (touch line time)); try done; simpl.
    + destruct (to_times _ _ _ Ht i line Hz). lia.
    + intros _. destruct (to_home _ _ _ Ht _ _ _ Hres) as (? & ? & ?). split_and!; try done.
      intros j s (l & Hl & Hbl & <- & ?). by apply (to_unique _ _ _ Ht (m_block_addr line) j i l line).
    + intros Ho. by apply (to_fill _ _ _ Ht Ho i).
  - pose proof (replaced_write t t' i _ Hi E) as Hr. apply holds_resident in Hres as [_ Hres].
    eapply replaced_same; [exact Hr|exact Hres|]. intros b' s' Hh. exact (holds_fun _ _ _ _ _ _ Hres Hh).
Qed.

Lemma time_diff now time x : 0 <= x <= now -> now <= time -> time_ok time -> u32 (time - x) = time - x /\ 0 <= time - x < 2 ^ 31.
Proof. unfold time_ok. intros. rewrite uwrap_small by lia. lia. Qed.

(** A line of its set that holds nothing else can take block [b]. *)
Lemma tag_allocate_spec t t' now time b i new :
  tags_ok c t now -> now <= time -> 0 <= time -> is_block c b -> absent t b -> 0 <= i < zlen (m_lines t) ->
  i / m_assoc c = set_index c b -> m_lines t' = zwrite (m_lines t) i new ->
  m_tag new = tag c b -> m_block_addr new = b -> m_alloc_time new = time -> m_last_access_time new = time ->
  (m_alloc_policy c = ON_FILL -> m_status new <> RESERVED) ->
  has_bins (m_cacheblock_lifetimes t') /\ has_bins (m_cacheblock_lifetimes_aggr t') ->
  tags_ok c t' time /\ replaced t t' i b (m_status new).
Proof.
  intros Ht Hn Ht0 Hb Hab Hi Hset E Etag Eb Ea El Hfill Hbins. split.
  - apply (tags_ok_write t t' now time i new); try done; [lia|]. intros _. rewrite Eb. split_and!; try done.
    intros j s Hh. exfalso. rewrite absent_holds in Hab. by apply (Hab j s).
  - rewrite <- Eb. by apply replaced_write.
Qed.

Lemma tags_ok_nonneg t now : tags_ok c t now -> 0 <= now.
Proof.
  intros Ht. pose proof (ge_assoc _ Hg). pose proof (nset_pos c Hg).
  destruct (zread_is_some (m_lines t) 0) as [l Hl]; [rewrite (to_size _ _ _ Ht); nia|].
  destruct (to_times _ _ _ Ht 0 l Hl). lia.
Qed.

(** The branch for a hit, on the array [t0] with its counters advanced. *)
Lemma hit_branch t t0 now b time i line (status : cache_request_status) : tags_ok c t now -> now <= time -> resident t b i line ->
  m_lines t0 = m_lines t -> has_bins (m_cacheblock_lifetimes t0) /\ has_bins (m_cacheblock_lifetimes_aggr t0) ->
  exists t', (line ← aread (m_lines t0) i; l ← awrite (m_lines t0) i (touch line time);
              mret (status, i, None, with_lines t0 l)) = Ok (status, i, @None cache_block_t, t') /\
    tags_ok c t' time /\ unchanged t t'.
Proof.
  intros Ht Hn (Hz & Hs & _) E Hb. pose proof (zread_range _ _ _ Hz). pose proof (tags_ok_nonneg t now Ht).
  rewrite E, (proj2 (aread_ok _ _ _) Hz), bind_of_ok, awrite_in, bind_of_ok by done.
  eexists. split; [reflexivity|]. apply (touch_spec t _ now time i line); try done; lia.
Qed.

(** The branch for a miss that reserves line [i]. *)
Lemma miss_branch t t0 now b time i line : tags_ok c t now -> now <= time -> time_ok time -> is_block c b ->
  m_alloc_policy c = ON_MISS -> absent t b -> zread (m_lines t) i = Some line -> i / m_assoc c = set_index c b ->
  m_lines t0 = m_lines t -> has_bins (m_cacheblock_lifetimes t0) /\ has_bins (m_cacheblock_lifetimes_aggr t0) ->
  let ev := if bool_decide (m_status line = MODIFIED) then Some line else None in
  exists t', (line ← aread (m_lines t0) i;
              let dirty := bool_decide (m_status line = MODIFIED) in
              t ← (if dirty then add_lifetime t0 (u32 (time - m_alloc_time line)) else mret t0);
              l ← awrite (m_lines t) i (allocate (tag c b) (block_addr c b) time);
              mret (MISS, i, if dirty then Some line else None, with_lines t l)) = Ok (MISS, i, ev, t') /\
    tags_ok c t' time /\ replaced t t' i b RESERVED.
Proof.
  intros Ht Hn Htime Hb Hal Hab Hz Hset E Hbins ev. pose proof (zread_range _ _ _ Hz).
  rewrite E, (proj2 (aread_ok _ _ _) Hz), bind_of_ok. cbv zeta.
  destruct (to_times _ _ _ Ht i line Hz) as [Ha _]. destruct (time_diff now time (m_alloc_time line) Ha Hn Htime) as [-> Hd].
  assert (exists t1, (if bool_decide (m_status line = MODIFIED) then add_lifetime t0 (time - m_alloc_time line) else mret t0) = Ok t1 /\
    m_lines t1 = m_lines t /\ has_bins (m_cacheblock_lifetimes t1) /\ has_bins (m_cacheblock_lifetimes_aggr t1)) as (t1 & -> & El & Hb1).
  { case_bool_decide; [|by exists t0]. destruct (add_lifetime_ok t0 _ Hbins Hd) as (t1 & -> & El & ?). exists t1. by rewrite El. }
  rewrite bind_of_ok, El, awrite_in, bind_of_ok by done. eexists. split; [reflexivity|]. unfold time_ok in Htime.
  rewrite (block_addr_id c Hg b Hb).
  apply (tag_allocate_spec t _ now time b i (allocate (tag c b) b time)); try done; try lia. by rewrite Hal.
Qed.

Lemma access_spec t now b time idx : tags_ok c t now -> now <= time -> time_ok time -> is_block c b ->
  exists status i ev t', access c t b time idx = Ok (status, i, ev, t') /\
    probed c t b idx status i /\ tags_ok c t' time /\ accessed t t' b i status ev.
Proof.
  intros Ht Hn Htime Hb. pose proof (to_bins _ _ _ Ht) as Hbins. pose proof (tags_ok_nonneg t now Ht) as H0.
  destruct (probe_spec c Hg (count_access t) now b idx) as (status & i & E & Hp);
    [by eapply tags_ok_later|unfold time_ok in *; lia|done|].
  exists status, i. unfold access. rewrite E, bind_of_ok.
  assert (probed c t b idx status i) as Hp' by (destruct Hp; by econstructor). clear Hp E.
  pose proof Hp' as Hp. destruct Hp as [i line Hres Hst|i line Hres Hst|i line Hab Hz Hset Hst Hv|Hab Hal Hall].
  - destruct (hit_branch t (count_access t) now b time i line HIT) as (t' & E & ? & ?); try done. by exists None, t'.
  - destruct (hit_branch t (count_pending (count_access t)) now b time i line HIT_RESERVED) as (t' & E & ? & ?); try done.
    by exists None, t'.
  - unfold accessed. case_bool_decide as Hal.
    + destruct (miss_branch t (count_miss (count_access t)) now b time i line) as (t' & E & ? & ?); try done.
      eexists _, t'. split; [exact E|]. split_and!; try done. intros old Hold. rewrite Hz in Hold. by injection Hold as <-.
    + exists None. eexists. split; [reflexivity|]. split; [done|]. split; [by eapply tags_ok_later|]. by split.
  - exists None. eexists. split; [reflexivity|]. split; [by apply probed_fail|]. split; [by eapply tags_ok_later|]. by split.
Qed.

(** Changing the state of a line that holds block [b]. *)
Lemma restate_spec t t' now time i line new : tags_ok c t now -> now <= time -> zread (m_lines t) i = Some line ->
  m_status line <> INVALID -> m_lines t' = zwrite (m_lines t) i new ->
  m_tag new = m_tag line -> m_block_addr new = m_block_addr line -> m_alloc_time new = m_alloc_time line ->
  m_last_access_time new = m_last_access_time line -> m_status new <> RESERVED ->
  m_cacheblock_lifetimes t' = m_cacheblock_lifetimes t -> m_cacheblock_lifetimes_aggr t' = m_cacheblock_lifetimes_aggr t ->
  tags_ok c t' time /\ replaced t t' i (m_block_addr line) (m_status new).
Proof.
  intros Ht Hn Hz Hs E Etag Eb Ea El Hst E1 E2. pose proof (zread_range _ _ _ Hz) as Hi.
  assert (resident t (m_block_addr line) i line) as Hres by done. split.
  - apply (tags_ok_write t t' now time i new); try done.
    + destruct (to_times _ _ _ Ht i line Hz). lia.
    + intros _. rewrite Eb, Etag. destruct (to_home _ _ _ Ht _ _ _ Hres) as (? & ? & ?). split_and!; try done.
      intros j s (l & Hl & Hbl & <- & ?). by apply (to_unique _ _ _ Ht (m_block_addr line) j i l line).
    + rewrite E1, E2. apply (to_bins _ _ _ Ht).
  - rewrite <- Eb. by apply replaced_write.
Qed.

Lemma fill_index_spec t now time i b : tags_ok c t now -> now <= time -> m_alloc_policy c = ON_MISS -> holds t i b RESERVED ->
  exists t', fill_index c t i time = Ok t' /\ tags_ok c t' time /\ replaced t t' i b VALID.
Proof.
  intros Ht Hn Hal (line & Hz & <- & Hs & _). pose proof (zread_range _ _ _ Hz). unfold fill_index.
  rewrite bool_decide_eq_true_2, (proj2 (aread_ok _ _ _) Hz) by done. simpl. unfold block_fill.
  rewrite Hs. simpl. rewrite awrite_in by done. simpl. eexists. split; [reflexivity|].
  apply (restate_spec t _ now time i line (mkBlock (m_tag line) (m_block_addr line) (m_alloc_time line) (m_last_access_time line) time VALID)); try done.
  by rewrite Hs.
Qed.

Lemma set_status_spec t now i b s s' : tags_ok c t now -> holds t i b s -> s' <> RESERVED ->
  exists t', set_status t i s' = Ok t' /\ tags_ok c t' now /\ replaced t t' i b s'.
Proof.
  intros Ht (line & Hz & <- & Hs & Hn) Hs'. pose proof (zread_range _ _ _ Hz). unfold set_status.
  rewrite (proj2 (aread_ok _ _ _) Hz), bind_of_ok, awrite_in, bind_of_ok by done. eexists. split; [reflexivity|].
  apply (restate_spec t _ now now i line (with_status line s')); try done. by rewrite Hs.
Qed.

Lemma fill_addr_spec t now time b : tags_ok c t now -> now <= time -> time_ok time -> is_block c b ->
  m_alloc_policy c = ON_FILL -> absent t b ->
  exists t' i, fill_addr c t b time = Ok t' /\ tags_ok c t' time /\ replaced t t' i b VALID.
Proof.
  intros Ht Hn Htime Hb Hal Hab. pose proof (tags_ok_nonneg t now Ht). unfold fill_addr.
  rewrite bool_decide_eq_true_2 by done. simpl cassert. rewrite bind_of_ok. unfold time_ok in *.
  destruct (probe_spec c Hg t now b no_line) as (status & i & -> & Hp); [done|unfold time_ok; lia|done|]. rewrite bind_of_ok.
  destruct Hp as [i line Hres Hst|i line Hres Hst|i line _ Hz Hset Hst Hv|_ Hal' _];
    [by destruct (Hab i line)|by destruct (Hab i line)| |congruence].
  simpl cassert. rewrite bind_of_ok, (proj2 (aread_ok _ _ _) Hz), bind_of_ok. pose proof (zread_range _ _ _ Hz).
  destruct (to_times _ _ _ Ht i line Hz) as [Ha _]. destruct (time_diff now time (m_alloc_time line) Ha Hn Htime) as [-> Hd].
  destruct (add_lifetime_ok t _ (to_bins _ _ _ Ht) Hd) as (t1 & -> & El & Hb1). rewrite bind_of_ok. simpl.
  rewrite El, awrite_in by done. simpl. eexists _, i. split; [reflexivity|]. rewrite (block_addr_id c Hg b Hb).
  apply (tag_allocate_spec t _ now time b i (mkBlock (tag c b) b time time time VALID)); try done; lia.
Qed.

Lemma flush_line_spec t time k : tags_ok c t time -> time_ok time -> 0 <= k < zlen (m_lines t) ->
  exists t', flush_line time k t = Ok t' /\ tags_ok c t' time /\
    forall i b s, holds t' i b s -> i <> k /\ holds t i b s.
Proof.
  intros Ht Htime Hk. unfold flush_line. destruct (aread_in (m_lines t) k) as (line & Hz & ->); [lia|].
  rewrite bind_of_ok. case_bool_decide as Hs.
  - unfold set_status. simpl. rewrite (proj2 (aread_ok _ _ _) Hz), bind_of_ok, awrite_in, bind_of_ok by lia.
    assert (with_lines t (zwrite (m_lines t) k (with_status line INVALID)) = t) as ->.
    { destruct t as [l a m p h g w]. unfold with_lines. simpl in *. f_equal. apply zread_ext; [by rewrite zlen_zwrite|].
      intros j Hj. rewrite zread_zwrite by lia. destruct (Z.eqb_spec k j) as [->|]; [|done]. rewrite Hz. f_equal.
      destruct line. simpl in *. by subst. }
    exists t. split; [done|]. split; [done|]. intros i b s Hh. split; [|done]. intros ->.
    destruct Hh as (l & Hl & _ & <- & Hx). rewrite Hz in Hl. by injection Hl as <-.
  - destruct (to_times _ _ _ Ht k line Hz) as [Ha _]. unfold time_ok in Htime. rewrite uwrap_small by lia.
    destruct (add_lifetime_ok t (time - m_alloc_time line) (to_bins _ _ _ Ht)) as (t2 & -> & El & Hb2); [lia|].
    rewrite bind_of_ok. assert (tags_ok c t2 time) as Ht2 by (eapply tags_ok_later; [exact Ht|lia|done|done]).
    destruct (set_status_spec t2 time k (m_block_addr line) (m_status line) INVALID Ht2) as (t3 & -> & Ht3 & Hr);
      [exists line; by rewrite El|done|].
    eexists. split; [reflexivity|]. split; [done|]. intros i b s Hh%Hr.
    destruct (Z.eqb_spec i k) as [->|]; [by destruct Hh as (_ & _ & ?)|]. split; [done|].
    destruct Hh as (l & Hl & ? & ? & ?). rewrite El in Hl. by exists l.
Qed.

(** [flush] leaves no line. *)
Lemma flush_spec t now time : tags_ok c t now -> now <= time -> time_ok time ->
  exists t', flush c t time = Ok t' /\ tags_ok c t' time /\ forall i b s, ~ holds t' i b s.
Proof.
  intros Ht Hn Htime. unfold flush, get_num_lines. rewrite (ge_valid _ Hg). simpl. pose proof (ge_size _ Hg).
  pose proof (ge_assoc _ Hg). pose proof (nset_pos c Hg). rewrite uwrap_small by nia.
  destruct (for_range_inv (fun k t1 => tags_ok c t1 time /\ forall i b s, holds t1 i b s -> k <= i)
    0 (m_nset c * m_assoc c) (flush_line time) t) as (t' & -> & Ht' & Hno).
  - nia.
  - split; [eapply tags_ok_later; [exact Ht|lia|done|apply (to_bins _ _ _ Ht)]|].
    intros i b s (l & Hl & _). apply zread_range in Hl. lia.
  - intros k t1 Hk [Ht1 Hno]. destruct (flush_line_spec t1 time k Ht1 Htime) as (t2 & -> & Ht2 & H2); [by rewrite (to_size _ _ _ Ht1)|].
    exists t2. split; [done|]. split; [done|]. intros i b s [? Hh%Hno]%H2. lia.
  - exists t'. split; [done|]. split; [done|]. intros i b s Hh. pose proof (Hno i b s Hh). destruct Hh as (l & Hl & _).
    apply zread_range in Hl. rewrite (to_size _ _ _ Ht') in Hl. lia.
Qed.
End operations.

(** C33: An access of the tags in every state the caches reach: the answer is a hit
    exactly when the block has a valid or modified line and a pending hit when its line
    is reserved; on a miss an invalid line of its set is taken, or else the valid one
    with the oldest use (oldest allocation under FIFO), never a reserved one; the
    request fails when the whole set is reserved. A miss that allocates reserves that
    line for the block and hands back the old line when it was modified; nothing else
    changes, and no block ever has two lines. *)
Theorem tag_array_access c t now b time idx :
  geometry c -> tags_ok c t now -> now <= time -> time_ok time -> is_block c b ->
  exists status i ev t', access c t b time idx = Ok (status, i, ev, t') /\
    probed c t b idx status i /\ tags_ok c t' time /\ accessed c t t' b i status ev.
Proof. intros Hg. by apply access_spec. Qed.

Definition demo_cache_config : cache_config :=
  mkConfig false false 0 0 0 0 0 LRU READ_ONLY ON_MISS ASSOC NO_WRITE_ALLOCATE 0 0 0 0.
(** 4 sets of 2 lines of 128 bytes, LRU, write back, allocate on miss. *)
Definition demo_cache : cache_config :=
  mkConfig true false 128 7 4 2 2 LRU WRITE_BACK ON_MISS ASSOC WRITE_ALLOCATE 4 2 8 0.

Example demo_cache_parsed :
  cache_config_init demo_cache_config (list_ascii_of_string "4:128:2,L:B:m:W,A:4:2,8") = Ok demo_cache.
Proof. vm_compute. reflexivity. Qed.

Lemma demo_geometry : geometry demo_cache.
Proof. split; simpl; lia || done. Qed.

Lemma tag_array_access_witness : exists t status i ev t',
  tag_array_new demo_cache (binned_histogram_new 32) = Ok t /\ access demo_cache t 512 7 no_line = Ok (status, i, ev, t') /\
  probed demo_cache t 512 no_line status i.
Proof.
  destruct (tags_ok_new demo_cache demo_geometry (binned_histogram_new 32) has_bins_new) as (t & E & Ht & _).
  destruct (tag_array_access demo_cache t 0 512 7 no_line demo_geometry Ht) as (status & i & ev & t' & Ea & Hp & _);
    [lia|unfold time_ok; lia|unfold is_block; simpl; lia|].
  exists t, status, i, ev, t'. split; [exact E|]. split; [exact Ea|exact Hp].
Defined.

(** The third block of a set of two lines replaces the one used longest ago. *)
Example least_recently_used_is_replaced :
  (t ← tag_array_new demo_cache (binned_histogram_new 32);
   '(_, i, _, t) ← access demo_cache t 512 1 no_line; t ← fill_index demo_cache t i 2;
   '(_, j, _, t) ← access demo_cache t 1024 3 no_line; t ← fill_index demo_cache t j 4;
   '(_, _, _, t) ← access demo_cache t 512 5 no_line;
   '(status, k, _, _) ← access demo_cache t 1536 6 no_line;
   mret (status, k =? i, k =? j)) = Ok (MISS, false, true).
Proof. vm_compute. reflexivity. Qed.

(** The mask of a block is 32 bits wide: addresses 4 GB apart have one block. *)
Example blocks_above_4GB_alias : block_addr demo_cache (2 ^ 32 + 512) = block_addr demo_cache 512.
Proof. vm_compute. reflexivity. Qed.
