(* ===== verification/Mshr.v ===== *)
(** * Miss status holding registers

    [mshr_table] of [gpgpu-sim/gpu-cache.{h,cc}]: the requests that wait for a block,
    merged by block, and the blocks that have come back and whose requests are handed
    out one for each call of [next_access].  A request is the address of its
    [mem_fetch]. *)

From S2P Require Import Prelude.

Record mshr_entry := mkEntry { m_list : list Z; m_has_atomic : bool }.
#[export] Instance mshr_entry_inhabited : Inhabited mshr_entry := populate (mkEntry [] false).

Record mshr_table := mkMshr {
  m_num_entries : Z;
  m_max_merged : Z;
  m_data : gmap Z mshr_entry;
  m_current_response : list Z;
}.
Definition mshr_new (num_entries max_merged : Z) : mshr_table := mkMshr num_entries max_merged ∅ [].

Definition m_size (m : mshr_table) : Z := Z.of_nat (size (m_data m)).
Definition with_data (m : mshr_table) (d : gmap Z mshr_entry) (r : list Z) : mshr_table :=
  mkMshr (m_num_entries m) (m_max_merged m) d r.

Definition mshr_probe (m : mshr_table) (block_addr : Z) : bool := bool_decide (is_Some (m_data m !! block_addr)).
Definition mshr_full (m : mshr_table) (block_addr : Z) : bool :=
  match m_data m !! block_addr with
  | Some e => m_max_merged m <=? zlen (m_list e)
  | None => m_num_entries m <=? m_size m
  end.

Definition mshr_add (m : mshr_table) (block_addr mf : Z) (isatomic : bool) : outcome mshr_table :=
  let e := default (mkEntry [] false) (m_data m !! block_addr) in
  let d := <[block_addr := mkEntry (m_list e ++ [mf]) (m_has_atomic e)]> (m_data m) in
  cassert (Z.of_nat (size d) <=? m_num_entries m);;
  cassert (zlen (m_list e ++ [mf]) <=? m_max_merged m);;
  mret (with_data m
    (if isatomic then <[block_addr := mkEntry (m_list e ++ [mf]) true]> d else d) (m_current_response m)).

(** The result is [has_atomic]. *)
Definition mark_ready (m : mshr_table) (block_addr : Z) : outcome (bool * mshr_table) :=
  match m_data m !! block_addr with
  | None => Err AssertFailed
  | Some e =>
      let r := m_current_response m ++ [block_addr] in
      cassert (zlen r <=? m_size m);;
      mret (m_has_atomic e, with_data m (m_data m) r)
  end.

Definition mshr_access_ready (m : mshr_table) : bool := negb (bool_decide (m_current_response m = [])).

Definition mshr_next_access (m : mshr_table) : outcome (Z * mshr_table) :=
  match m_current_response m with
  | [] => Err AssertFailed
  | b :: rest =>
      match m_list (default (mkEntry [] false) (m_data m !! b)) with
      | [] => Err AssertFailed
      | result :: l =>
          let e := default (mkEntry [] false) (m_data m !! b) in
          mret (result,
            match l with
            | [] => with_data m (delete b (m_data m)) rest
            | _ => with_data m (<[b := mkEntry l (m_has_atomic e)]> (m_data m)) (m_current_response m)
            end)
      end
  end.

(** * The invariant *)

Record mshr_ok (m : mshr_table) : Prop := {
  mo_entries : forall b e, m_data m !! b = Some e -> m_list e <> [] /\ zlen (m_list e) <= m_max_merged m;
  mo_size : m_size m <= m_num_entries m;
  mo_ready : NoDup (m_current_response m) /\ forall b, b ∈ m_current_response m -> is_Some (m_data m !! b);
}.

(** The requests that wait for [b], oldest first, and all of them. *)
Definition waiting_for (m : mshr_table) (b : Z) : list Z :=
  m_list (default (mkEntry [] false) (m_data m !! b)).
Definition waiting (m : mshr_table) : list Z := map_to_list (m_data m) ≫= (fun p => m_list p.2).

Lemma mshr_new_ok n k : 0 <= n -> mshr_ok (mshr_new n k).
Proof.
  intros Hn. split; simpl.
  - intros b e. by rewrite lookup_empty.
  - unfold m_size. simpl. rewrite map_size_empty. lia.
  - split; [constructor|]. by intros b ?%elem_of_nil.
Qed.

Lemma size_insert_Z {A} (d : gmap Z A) b x :
  Z.of_nat (size (<[b:=x]> d)) = Z.of_nat (size d) + (if decide (is_Some (d !! b)) then 0 else 1).
Proof.
  case_decide as H.
  - rewrite map_size_insert_Some by done. lia.
  - rewrite map_size_insert_None by (by apply eq_None_not_Some). lia.
Qed.

(** With room the request is added, and only the entry of its block changes. *)
Lemma mshr_add_spec m b mf at_ : mshr_ok m -> 1 <= m_max_merged m -> mshr_full m b = false ->
  exists m', mshr_add m b mf at_ = Ok m' /\ mshr_ok m' /\
    m_num_entries m' = m_num_entries m /\ m_max_merged m' = m_max_merged m /\
    m_current_response m' = m_current_response m /\
    m_data m' = <[b := mkEntry (waiting_for m b ++ [mf])
                       (at_ || m_has_atomic (default (mkEntry [] false) (m_data m !! b)))]> (m_data m).
Proof.
  intros [He Hs [Hn Hr]] Hmax Hf. unfold mshr_add, mshr_full, waiting_for in *. set (e := default _ (m_data m !! b)).
  assert (Z.of_nat (size (<[b:=mkEntry (m_list e ++ [mf]) (m_has_atomic e)]> (m_data m))) <= m_num_entries m) as Hsz.
  { rewrite size_insert_Z. unfold m_size in *. case_decide as Hd; [lia|]. apply eq_None_not_Some in Hd.
    rewrite Hd in Hf. apply Z.leb_gt in Hf. lia. }
  assert (zlen (m_list e ++ [mf]) <= m_max_merged m) as Hlen.
  { rewrite zlen_app. unfold e. destruct (m_data m !! b) as [x|]; simpl in *; [apply Z.leb_gt in Hf|]; unfold zlen in *; simpl; lia. }
  rewrite (proj2 (Z.leb_le _ _) Hsz), (proj2 (Z.leb_le _ _) Hlen). simpl. eexists. split; [reflexivity|].
  assert ((if at_ then <[b:=mkEntry (m_list e ++ [mf]) true]> (<[b:=mkEntry (m_list e ++ [mf]) (m_has_atomic e)]> (m_data m))
     else <[b:=mkEntry (m_list e ++ [mf]) (m_has_atomic e)]> (m_data m)) =
    <[b:=mkEntry (m_list e ++ [mf]) (at_ || m_has_atomic e)]> (m_data m)) as ->
    by (destruct at_; [by rewrite insert_insert_eq|done]).
  split; [|done]. split; simpl.
  - intros b' e'. rewrite lookup_insert. case_decide; [|by apply He]. intros [= <-]. simpl. split; [|done]. by destruct (m_list e).
  - unfold m_size. simpl. rewrite size_insert_Z in Hsz |- *. done.
  - split; [done|]. intros b' Hb'. rewrite lookup_insert. case_decide; [by eexists|by apply Hr].
Qed.

Lemma waiting_insert m b x : waiting (with_data m (<[b := x]> (m_data m)) (m_current_response m)) ++ waiting_for m b ≡ₚ
  waiting m ++ m_list x.
Proof.
  unfold waiting, waiting_for. simpl. destruct (m_data m !! b) as [e|] eqn:E; simpl.
  - rewrite <- (insert_delete_id (m_data m) b e E) at 2. rewrite <- insert_delete_eq.
    rewrite !map_to_list_insert by apply lookup_delete_eq. rewrite !bind_cons. simpl. solve_Permutation.
  - rewrite map_to_list_insert by done. rewrite bind_cons, app_nil_r. simpl. solve_Permutation.
Qed.

(** Adding a request adds it to those that wait. *)
Lemma waiting_add m b mf at_ m' : mshr_ok m -> 1 <= m_max_merged m -> mshr_full m b = false ->
  mshr_add m b mf at_ = Ok m' -> waiting m' ≡ₚ mf :: waiting m.
Proof.
  intros Hok Hmax Hf E. destruct (mshr_add_spec m b mf at_ Hok Hmax Hf) as (m2 & E2 & _ & _ & _ & Hr & Hd).
  rewrite E in E2. injection E2 as <-. pose proof (waiting_insert m b (mkEntry (waiting_for m b ++ [mf])
    (at_ || m_has_atomic (default (mkEntry [] false) (m_data m !! b))))) as H.
  assert (waiting m' = waiting (with_data m (m_data m') (m_current_response m))) as -> by done. rewrite Hd.
  simpl in H. apply (Permutation_app_inv_r (waiting_for m b)). rewrite H. solve_Permutation.
Qed.

(** A block with requests that is not ready yet becomes ready, last in the queue. *)
Lemma mark_ready_spec m b e : mshr_ok m -> m_data m !! b = Some e -> b ∉ m_current_response m ->
  mark_ready m b = Ok (m_has_atomic e, with_data m (m_data m) (m_current_response m ++ [b])) /\
  mshr_ok (with_data m (m_data m) (m_current_response m ++ [b])).
Proof.
  intros [He Hs [Hn Hr]] Hb Hnew. unfold mark_ready. rewrite Hb.
  assert (NoDup (m_current_response m ++ [b])) as Hn'.
  { apply NoDup_app. split; [done|]. split; [|apply NoDup_singleton]. by intros x Hx ->%list_elem_of_singleton. }
  assert (forall x, x ∈ m_current_response m ++ [b] -> is_Some (m_data m !! x)) as Hr'.
  { intros x [Hx| ->%list_elem_of_singleton]%elem_of_app; [by apply Hr|by rewrite Hb]. }
  assert (zlen (m_current_response m ++ [b]) <= m_size m) as Hle.
  { unfold m_size, zlen. rewrite <- size_dom, <- (size_list_to_set (C := gset Z)) by done. apply inj_le, subseteq_size.
    intros x Hx%elem_of_list_to_set. by apply elem_of_dom, Hr'. }
  rewrite (proj2 (Z.leb_le _ _) Hle). simpl. split; [done|]. by split.
Qed.

(** [next_access] hands out the oldest request of the first ready block. *)
Lemma next_access_spec m b rest : mshr_ok m -> m_current_response m = b :: rest ->
  exists mf l m', waiting_for m b = mf :: l /\ mshr_next_access m = Ok (mf, m') /\ mshr_ok m' /\
    m_num_entries m' = m_num_entries m /\ m_max_merged m' = m_max_merged m /\
    m_current_response m' = (if bool_decide (l = []) then rest else b :: rest) /\
    (forall b', b' <> b -> m_data m' !! b' = m_data m !! b') /\
    m_data m' !! b = (if bool_decide (l = []) then None
      else Some (mkEntry l (m_has_atomic (default (mkEntry [] false) (m_data m !! b))))) /\
    waiting m ≡ₚ mf :: waiting m'.
Proof.
  intros [He Hs [Hn Hr]] E. rewrite E in Hn, Hr. destruct (Hr b) as [e Hb]; [by left|]. unfold mshr_next_access, waiting_for. rewrite E, Hb. simpl.
  destruct (He b e Hb) as [Hne Hlen]. destruct e as [[|mf l] ha]; [done|]. simpl in *. exists mf, l.
  apply NoDup_cons in Hn as [Hb' Hn].
  destruct l as [|mf2 l]; simpl; eexists; (split; [done|]); (split; [reflexivity|]).
  - split_and!; try done; simpl.
    + split; simpl.
      * intros b2 e2 [? Hl]%lookup_delete_Some. by apply (He b2 e2).
      * unfold m_size in *. simpl. rewrite map_size_delete_Some by (exact (mk_is_Some _ _ Hb)). lia.
      * split; [done|]. intros x Hx. rewrite lookup_delete_ne by (intros ->; done). apply Hr. by right.
    + intros b2 Hb2. by rewrite lookup_delete_ne.
    + apply lookup_delete_eq.
    + unfold waiting. simpl. rewrite <- (insert_delete_id (m_data m) b _ Hb) at 1.
      rewrite map_to_list_insert by apply lookup_delete_eq. done.
  - split_and!; try done; simpl.
    + split; simpl.
      * intros b2 e2. rewrite lookup_insert. case_decide; [|by apply He]. intros [= <-]. simpl. split; [done|].
        unfold zlen in *. simpl in *. lia.
      * unfold m_size in *. simpl. rewrite map_size_insert_Some by (exact (mk_is_Some _ _ Hb)). done.
      * split; [by constructor|]. intros x Hx. rewrite lookup_insert. case_decide; [by eexists|]. by apply Hr.
    + intros b2 Hb2. by rewrite lookup_insert_ne.
    + by rewrite lookup_insert_eq.
    + pose proof (waiting_insert m b (mkEntry (mf2 :: l) ha)) as H. unfold waiting_for in H. rewrite Hb in H. simpl in H.
      unfold waiting in *. simpl in *. apply (Permutation_app_inv_r (mf2 :: l)). rewrite <- H. solve_Permutation.
Qed.

(** * Draining *)

Fixpoint drain (n : nat) (m : mshr_table) : outcome (list Z * mshr_table) :=
  match n with
  | O => mret ([], m)
  | S n' => '(mf, m) ← mshr_next_access m; '(l, m) ← drain n' m; mret (mf :: l, m)
  end.

(** The requests of the ready blocks, in the order they are handed out. *)
Definition answers (m : mshr_table) : list Z := m_current_response m ≫= waiting_for m.

Lemma answers_next m mf m' : mshr_ok m -> mshr_next_access m = Ok (mf, m') -> answers m = mf :: answers m'.
Proof.
  intros Hok E. destruct (m_current_response m) as [|b rest] eqn:Er; [unfold mshr_next_access in E; by rewrite Er in E|].
  destruct (next_access_spec m b rest Hok Er) as (mf2 & l & m2 & Hw & E2 & _ & _ & _ & Hr & Hd & Hb & _).
  rewrite E in E2. injection E2 as <- <-. unfold answers. rewrite Er, Hr. destruct (mo_ready _ Hok) as [Hn _].
  rewrite Er in Hn. apply NoDup_cons in Hn as [Hnb _].
  assert (rest ≫= waiting_for m = rest ≫= waiting_for m') as Hrest.
  { clear -Hd Hnb. induction rest as [|x rest IH]; [done|]. rewrite !bind_cons, IH.
    - f_equal. unfold waiting_for. rewrite Hd; [done|]. intros ->. apply Hnb. left.
    - intros ?. apply Hnb. by right. }
  case_bool_decide as El.
  - subst l. by rewrite bind_cons, Hw, Hrest.
  - rewrite !bind_cons, Hw, Hrest. unfold waiting_for at 2. by rewrite Hb.
Qed.

Lemma mshr_drain_spec m : mshr_ok m ->
  exists m', drain (length (answers m)) m = Ok (answers m, m') /\ mshr_ok m' /\ mshr_access_ready m' = false /\
    (forall b, m_data m' !! b = if bool_decide (b ∈ m_current_response m) then None else m_data m !! b) /\
    waiting m ≡ₚ answers m ++ waiting m'.
Proof.
  remember (length (answers m)) as n eqn:En. revert m En. induction n as [|n IH]; intros m En Hok.
  - exists m. assert (answers m = []) as Ha by (by destruct (answers m)).
    assert (m_current_response m = []) as Hr.
    { destruct (m_current_response m) as [|b rest] eqn:Er; [done|].
      destruct (next_access_spec m b rest Hok Er) as (mf & l & m2 & Hw & _). unfold answers in Ha.
      rewrite Er, bind_cons, Hw in Ha. done. }
    rewrite Ha. split_and!; [done|done| |intros b|done].
    + unfold mshr_access_ready. by rewrite Hr.
    + rewrite Hr. by rewrite bool_decide_eq_false_2 by apply not_elem_of_nil.
  - destruct (m_current_response m) as [|b rest] eqn:Er; [unfold answers in En; by rewrite Er in En|].
    destruct (next_access_spec m b rest Hok Er) as (mf & l & m2 & Hw & E & Hok2 & _ & _ & Hr2 & Hd2 & Hb2 & Hp).
    pose proof (answers_next m mf m2 Hok E) as Ha. rewrite Ha in En. destruct (IH m2 ltac:(by injection En) Hok2) as (m' & E' & ? & ? & Hd' & Hp').
    exists m'. simpl. rewrite E, bind_of_ok, E', bind_of_ok, Ha. split_and!; try done.
    + intros b'. rewrite Hd', Hr2. destruct (mo_ready _ Hok) as [Hn _]. rewrite Er in Hn. apply NoDup_cons in Hn as [Hnb _].
      destruct (decide (b' = b)) as [->|Hne].
      * rewrite (bool_decide_eq_true_2 (b ∈ b :: rest)) by left. destruct (bool_decide (l = [])); [by rewrite bool_decide_eq_false_2|].
        by rewrite bool_decide_eq_true_2 by left.
      * rewrite Hd2 by done. destruct (bool_decide (l = [])); [|done].
        by rewrite (bool_decide_ext (b' ∈ rest) (b' ∈ b :: rest)) by (rewrite elem_of_cons; naive_solver).
    + rewrite Hp, Hp'. done.
Qed.

(** Nothing waits when no block is left. *)
Lemma waiting_nil m : (forall b, m_data m !! b = None) -> waiting m = [].
Proof.
  intros H. unfold waiting. assert (m_data m = ∅) as -> by (apply map_eq; intros b; by rewrite H, lookup_empty).
  by rewrite map_to_list_empty.
Qed.

(** When blocks have come back, as many calls of next_access as there are requests
    waiting for them succeed and hand out exactly those requests, block by block in the
    order the blocks came back and each block's requests in the order they arrived; no
    ready block is left then, and the entries of the other blocks are untouched. *)
Theorem mshr_drains m : mshr_ok m ->
  exists m', drain (length (answers m)) m = Ok (answers m, m') /\ mshr_ok m' /\ mshr_access_ready m' = false /\
    (forall b, m_data m' !! b = if bool_decide (b ∈ m_current_response m) then None else m_data m !! b) /\
    waiting m ≡ₚ answers m ++ waiting m'.
Proof. apply mshr_drain_spec. Qed.

(** Three requests for two blocks, the second of which comes back first. *)
Definition demo_mshr : outcome mshr_table :=
  m ← mshr_add (mshr_new 4 2) 128 1 false; m ← mshr_add m 256 2 true; m ← mshr_add m 128 3 false;
  '(_, m) ← mark_ready m 256; '(_, m) ← mark_ready m 128; mret m.

Lemma demo_mshr_ok : exists m, demo_mshr = Ok m /\ mshr_ok m.
Proof.
  eexists. split; [vm_compute; reflexivity|]. split.
  - apply (bool_decide_unpack (map_Forall (fun _ e => m_list e <> [] /\ zlen (m_list e) <= 2) _)). by vm_compute.
  - by vm_compute.
  - split; [apply (bool_decide_unpack (NoDup _)); by vm_compute|].
    intros b Hb. assert (b = 256 \/ b = 128) as [-> | ->]; [|by eexists..].
    simpl in Hb. rewrite !elem_of_cons, elem_of_nil in Hb. tauto.
Qed.

Lemma mshr_drains_witness : exists m m', demo_mshr = Ok m /\ drain 3 m = Ok ([2; 1; 3], m').
Proof.
  destruct demo_mshr_ok as (m & E & Hok). destruct (mshr_drains m Hok) as (m' & Hd & _). exists m, m'. split; [exact E|].
  unfold demo_mshr in E. vm_compute in E. injection E as <-. exact Hd.
Defined.
