(* ===== verification/MemFetch.v ===== *)
(** * Memory requests

    [mem_fetch] of [gpgpu-sim/mem_fetch.{h,cc}], the request that travels from a core
    through caches, interconnect and memory partitions and back, and the allocators
    that make requests on behalf of a cache.  The heap is the map from the addresses
    of live requests to their contents: caches keep pointers and change the request
    in place. *)

From S2P Require Import Prelude Coalesce AddrDec.

Inductive mf_type := READ_REQUEST | WRITE_REQUEST | READ_REPLY | WRITE_ACK.
#[export] Instance mf_type_eq_dec : EqDecision mf_type.
Proof. solve_decision. Defined.

Inductive mem_fetch_status :=
  | MEM_FETCH_INITIALIZED | IN_L1I_MISS_QUEUE | IN_L1D_MISS_QUEUE | IN_L1T_MISS_QUEUE | IN_L1C_MISS_QUEUE
  | IN_TLB_MISS_QUEUE | IN_VM_MANAGER_QUEUE | IN_ICNT_TO_MEM | IN_PARTITION_ROP_DELAY
  | IN_PARTITION_ICNT_TO_L2_QUEUE | IN_PARTITION_L2_TO_DRAM_QUEUE | IN_PARTITION_DRAM_LATENCY_QUEUE
  | IN_PARTITION_L2_MISS_QUEUE | IN_PARTITION_MC_INTERFACE_QUEUE | IN_PARTITION_MC_INPUT_QUEUE
  | IN_PARTITION_MC_BANK_ARB_QUEUE | IN_PARTITION_DRAM | IN_PARTITION_MC_RETURNQ
  | IN_PARTITION_DRAM_TO_L2_QUEUE | IN_PARTITION_L2_FILL_QUEUE | IN_PARTITION_L2_TO_ICNT_QUEUE
  | IN_ICNT_TO_SHADER | IN_CLUSTER_TO_SHADER_QUEUE | IN_SHADER_LDST_RESPONSE_FIFO | IN_SHADER_FETCHED
  | IN_SHADER_L1T_ROB | MEM_FETCH_DELETED | NUM_MEM_REQ_STAT.

(** A request without its serial number and time stamps; [m_inst] is the instruction
    it was made for, if any. *)
Record mem_fetch := mkFetch {
  m_sid : Z;
  m_tpc : Z;
  m_wid : Z;
  mf_status : mem_fetch_status;
  m_status_change : Z;
  mf_access : mem_access_t;
  m_data_size : Z;
  m_ctrl_size : Z;
  m_partition_addr : Z;
  m_raw_addr : addrdec_t;
  m_type : mf_type;
  m_inst : option warp_inst_t;
}.

(** The constructor; the instruction comes with its warp and [now] is the cycle. *)
Definition mem_fetch_new (tr : translation) (now : Z) (access : mem_access_t) (inst : option (warp_inst_t * Z))
    (ctrl_size wid sid tpc : Z) : outcome mem_fetch :=
  (match inst with Some (_, w) => cassert (wid =? w) | None => mret tt end);;
  raw ← addrdec_tlx tr (a_addr access);
  part ← partition_address tr (a_addr access);
  mret (mkFetch sid tpc wid MEM_FETCH_INITIALIZED now access (a_req_size access) ctrl_size part raw
          (if a_write access then WRITE_REQUEST else READ_REQUEST) (fst <$> inst)).

Section accessors.
Context (mf : mem_fetch).

Definition set_data_size (size : Z) : mem_fetch :=
  mkFetch (m_sid mf) (m_tpc mf) (m_wid mf) (mf_status mf) (m_status_change mf) (mf_access mf) size (m_ctrl_size mf)
    (m_partition_addr mf) (m_raw_addr mf) (m_type mf) (m_inst mf).
Definition set_mf_status (status : mem_fetch_status) (cycle : Z) : mem_fetch :=
  mkFetch (m_sid mf) (m_tpc mf) (m_wid mf) status cycle (mf_access mf) (m_data_size mf) (m_ctrl_size mf)
    (m_partition_addr mf) (m_raw_addr mf) (m_type mf) (m_inst mf).
Definition set_type (t : mf_type) : mem_fetch :=
  mkFetch (m_sid mf) (m_tpc mf) (m_wid mf) (mf_status mf) (m_status_change mf) (mf_access mf) (m_data_size mf)
    (m_ctrl_size mf) (m_partition_addr mf) (m_raw_addr mf) t (m_inst mf).

Definition get_addr : Z := a_addr (mf_access mf).
Definition get_is_write : bool := a_write (mf_access mf).
Definition get_access_type : mem_access_type := a_type (mf_access mf).
Definition mf_size : Z := u32 (m_data_size mf + m_ctrl_size mf).

Definition of_inst (p : warp_inst_t → bool) : bool :=
  match m_inst mf with Some i => if m_empty i then false else p i | None => false end.
Definition isatomic : bool := of_inst m_isatomic.
Definition istexture : bool := of_inst (fun i => bool_decide (space i = tex_space)).
Definition isconst : bool :=
  of_inst (fun i => bool_decide (space i = const_space) || bool_decide (space i = param_space_kernel)).

(** [set_reply]: a request turns into its answer; write-backs have none. *)
Definition set_reply : outcome mem_fetch :=
  cassert (negb (bool_decide (get_access_type = L1_WRBK_ACC)) && negb (bool_decide (get_access_type = L2_WRBK_ACC)));;
  match m_type mf with
  | READ_REQUEST => cassert (negb get_is_write);; mret (set_type READ_REPLY)
  | WRITE_REQUEST => cassert get_is_write;; mret (set_type WRITE_ACK)
  | _ => mret mf
  end.
End accessors.

Definition READ_PACKET_SIZE : Z := 8.
Definition WRITE_PACKET_SIZE : Z := 8.

(** [shader_core_mem_fetch_allocator::alloc]; the allocator of a memory partition is
    the one for core and cluster -1. *)
Definition alloc (tr : translation) (now core_id cluster_id addr : Z) (type : mem_access_type) (size : Z) (wr : bool) :
    outcome mem_fetch :=
  mem_fetch_new tr now (mem_access_new type addr size wr 0 0) None
    (if wr then WRITE_PACKET_SIZE else READ_PACKET_SIZE) (u32 (-1)) core_id cluster_id.

(** * The heap *)

Record heap := mkHeap { objects : gmap Z mem_fetch; next_object : Z }.

Definition deref (h : heap) (p : Z) : outcome mem_fetch :=
  match objects h !! p with Some mf => Ok mf | None => Err BadAccess end.
Definition update (h : heap) (p : Z) (f : mem_fetch → mem_fetch) : outcome heap :=
  mf ← deref h p; mret (mkHeap (<[p := f mf]> (objects h)) (next_object h)).
(** [new mem_fetch(...)]: the object gets an address that no live one has. *)
Definition new_object (h : heap) (mf : mem_fetch) : Z * heap :=
  (next_object h, mkHeap (<[next_object h := mf]> (objects h)) (next_object h + 1)).

Definition heap_ok (h : heap) : Prop := forall p mf, objects h !! p = Some mf -> p < next_object h.
Definition live (h : heap) (p : Z) : Prop := is_Some (objects h !! p).

Lemma heap_ok_new h mf : heap_ok h -> heap_ok (new_object h mf).2 /\ live (new_object h mf).2 (new_object h mf).1 /\
  ~ live h (new_object h mf).1.
Proof.
  intros Hh. unfold heap_ok, live, new_object. simpl. split_and!.
  - intros p m. rewrite lookup_insert. case_decide; [intros; lia|]. intros ?%Hh. lia.
  - rewrite lookup_insert_eq. by eexists.
  - intros [m ?%Hh]. lia.
Qed.

Lemma live_new h mf p : live h p -> live (new_object h mf).2 p.
Proof. unfold live, new_object. simpl. rewrite lookup_insert. case_decide; [by eexists|done]. Qed.

Lemma fetch_update_spec h p f : heap_ok h -> live h p ->
  exists h', update h p f = Ok h' /\ heap_ok h' /\ next_object h' = next_object h /\
    (forall q, live h' q <-> live h q).
Proof.
  intros Hh [mf Hp]. unfold update, deref. rewrite Hp. simpl. eexists. split; [reflexivity|].
  unfold heap_ok, live. simpl. split_and!; [|done|].
  - intros q m. rewrite lookup_insert. case_decide as E; [|apply Hh]. intros _. subst. by apply (Hh q mf).
  - intros q. rewrite lookup_insert. case_decide as E; [|done]. subst. rewrite Hp. split; by eexists.
Qed.

Lemma deref_live h p : live h p -> exists mf, deref h p = Ok mf /\ objects h !! p = Some mf.
Proof. intros [mf Hp]. exists mf. unfold deref. by rewrite Hp. Qed.
