(* ===== verification/GpuCache.v ===== *)
(** * The read-only and data caches of the GPU

    [baseline_cache], [read_only_cache], [data_cache], [l1_cache] and [l2_cache] of
    [gpgpu-sim/gpu-cache.{h,cc}]: tags, miss status holding registers and a queue of
    requests to the next level of memory.  The write-hit and write-miss functions the
    constructor chooses by the configured policies are a [match] on the policy. *)

From S2P Require Import Prelude Coalesce GpuMisc AddrDec TagArray Mshr MemFetch.

Inductive cache_event := WRITE_BACK_REQUEST_SENT | READ_REQUEST_SENT | WRITE_REQUEST_SENT.
#[export] Instance cache_event_eq_dec : EqDecision cache_event.
Proof. solve_decision. Defined.

Definition was_write_sent (events : list cache_event) : bool := bool_decide (WRITE_REQUEST_SENT ∈ events).
Definition was_read_sent (events : list cache_event) : bool := bool_decide (READ_REQUEST_SENT ∈ events).

Record extra_mf_fields := mkExtra {
  ex_valid : bool;
  ex_block_addr : Z;
  ex_cache_index : Z;
  ex_data_size : Z;
}.

(** The heap of requests is shared with the rest of the simulator; [memport] is what
    was pushed to the next level. *)
Record cache := mkCache {
  c_heap : heap;
  c_tags : tag_array;
  c_mshrs : mshr_table;
  m_miss_queue : list Z;
  m_extra_mf_fields : gmap Z extra_mf_fields;
  memport : list Z;
}.
Definition with_heap (s : cache) (h : heap) : cache :=
  mkCache h (c_tags s) (c_mshrs s) (m_miss_queue s) (m_extra_mf_fields s) (memport s).
Definition with_tags (s : cache) (t : tag_array) : cache :=
  mkCache (c_heap s) t (c_mshrs s) (m_miss_queue s) (m_extra_mf_fields s) (memport s).
Definition with_mshrs (s : cache) (m : mshr_table) : cache :=
  mkCache (c_heap s) (c_tags s) m (m_miss_queue s) (m_extra_mf_fields s) (memport s).
Definition with_queue (s : cache) (q : list Z) : cache :=
  mkCache (c_heap s) (c_tags s) (c_mshrs s) q (m_extra_mf_fields s) (memport s).
Definition with_extra (s : cache) (e : gmap Z extra_mf_fields) : cache :=
  mkCache (c_heap s) (c_tags s) (c_mshrs s) (m_miss_queue s) e (memport s).

(** What the constructors are given: the configuration, the status requests get in the
    miss queue, the address mapping and the core and cluster of the allocator. *)
Record cache_params := mkParams {
  p_config : cache_config;
  p_status : mem_fetch_status;
  p_map : translation;
  p_core : Z;
  p_cluster : Z;
}.

Section cache.
Context (p : cache_params).
Let c : cache_config := p_config p.

(** [read_only_cache] and [data_cache] constructors; the policies a data cache cannot
    have stop the simulator. *)
Definition baseline_new (h : heap) (aggr : binned_histogram) : outcome cache :=
  t ← tag_array_new c aggr;
  cassert (bool_decide (m_mshr_type c = ASSOC));;
  mret (mkCache h t (mshr_new (m_mshr_entries c) (m_mshr_max_merge c)) [] ∅ []).
Definition data_cache_new (h : heap) (aggr : binned_histogram) : outcome cache :=
  s ← baseline_new h aggr;
  cassert (negb (bool_decide (m_write_policy c = READ_ONLY)));;
  mret s.

Definition miss_queue_full (s : cache) (num_miss : Z) : bool :=
  m_miss_queue_size c <=? zlen (m_miss_queue s) + num_miss.

(** [cycle]; [port_full size write] is the answer of the next level. *)
Definition cache_cycle (port_full : Z → bool → bool) (s : cache) : outcome cache :=
  match m_miss_queue s with
  | [] => mret s
  | mf :: q =>
      r ← deref (c_heap s) mf;
      if port_full (m_data_size r) (get_is_write r) then mret s
      else mret (mkCache (c_heap s) (c_tags s) (c_mshrs s) q (m_extra_mf_fields s) (memport s ++ [mf]))
  end.

Definition cache_fill (s : cache) (mf time : Z) : outcome cache :=
  match m_extra_mf_fields s !! mf with
  | None => Err AssertFailed
  | Some e =>
      cassert (ex_valid e);;
      h ← update (c_heap s) mf (fun r => set_data_size r (ex_data_size e));
      t ← match m_alloc_policy c with
          | ON_MISS => fill_index c (c_tags s) (ex_cache_index e) time
          | ON_FILL => fill_addr c (c_tags s) (ex_block_addr e) time
          end;
      '(has_atomic, m) ← mark_ready (c_mshrs s) (ex_block_addr e);
      t ← (if has_atomic : bool then
             cassert (bool_decide (m_alloc_policy c = ON_MISS));; set_status t (ex_cache_index e) MODIFIED
           else mret t);
      mret (mkCache h t m (m_miss_queue s) (delete mf (m_extra_mf_fields s)) (memport s))
  end.

Definition waiting_for_fill (s : cache) (mf : Z) : bool := bool_decide (is_Some (m_extra_mf_fields s !! mf)).
Definition cache_next_access (s : cache) : outcome (Z * cache) :=
  '(mf, m) ← mshr_next_access (c_mshrs s); mret (mf, with_mshrs s m).
Definition cache_flush (s : cache) (time : Z) : outcome cache :=
  t ← flush c (c_tags s) time; mret (with_tags s t).

(** The access of the tags in [send_read_request]: read-only callers take no evicted line. *)
Definition tags_access (s : cache) (block_addr time idx : Z) (read_only : bool) :
    outcome (Z * option cache_block_t * cache) :=
  if read_only then '(_, idx, t) ← access_clean c (c_tags s) block_addr time idx; mret (idx, None, with_tags s t)
  else '(_, idx, ev, t) ← access c (c_tags s) block_addr time idx; mret (idx, ev, with_tags s t).

(** [send_read_request]: [do_miss], the evicted line to write back, the events. *)
Definition send_read_request (s : cache) (block_addr cache_index mf time : Z) (events : list cache_event)
    (read_only wa : bool) : outcome (bool * option cache_block_t * list cache_event * cache) :=
  let mshr_hit := mshr_probe (c_mshrs s) block_addr in
  let mshr_avail := negb (mshr_full (c_mshrs s) block_addr) in
  if mshr_hit && mshr_avail then
    '(_, ev, s) ← tags_access s block_addr time cache_index read_only;
    r ← deref (c_heap s) mf;
    m ← mshr_add (c_mshrs s) block_addr mf (isatomic r);
    mret (true, ev, events, with_mshrs s m)
  else if negb mshr_hit && mshr_avail && (zlen (m_miss_queue s) <? m_miss_queue_size c) then
    '(idx, ev, s) ← tags_access s block_addr time cache_index read_only;
    r ← deref (c_heap s) mf;
    m ← mshr_add (c_mshrs s) block_addr mf (isatomic r);
    let extra := <[mf := mkExtra true block_addr idx (m_data_size r)]> (m_extra_mf_fields s) in
    sz ← get_line_sz c;
    h ← update (c_heap s) mf (fun r => set_mf_status (set_data_size r sz) (p_status p) time);
    mret (true, ev, if wa then events else events ++ [READ_REQUEST_SENT],
          mkCache h (c_tags s) m (m_miss_queue s ++ [mf]) extra (memport s))
  else mret (false, None, events, s).

(** [m_miss_queue.push_back(mf); mf->set_status(...)] *)
Definition enqueue (s : cache) (mf time : Z) : outcome cache :=
  h ← update (c_heap s) mf (fun r => set_mf_status r (p_status p) time);
  mret (mkCache h (c_tags s) (c_mshrs s) (m_miss_queue s ++ [mf]) (m_extra_mf_fields s) (memport s)).
Definition send_write_request (s : cache) (mf : Z) (request : cache_event) (time : Z) (events : list cache_event) :
    outcome (list cache_event * cache) :=
  s ← enqueue s mf time; mret (events ++ [request], s).

Abbreviation answer := (cache_request_status * list cache_event * cache)%type.

(** ** Write hits *)

Definition wr_hit_wb (s : cache) (addr cache_index time : Z) (events : list cache_event) : outcome answer :=
  '(_, idx, t) ← access_clean c (c_tags s) (block_addr c addr) time cache_index;
  t ← set_status t idx MODIFIED;
  mret (HIT, events, with_tags s t).
Definition wr_hit_wt (s : cache) (addr cache_index mf time : Z) (events : list cache_event) : outcome answer :=
  if miss_queue_full s 0 then mret (RESERVATION_FAIL, events, s) else
  '(_, idx, t) ← access_clean c (c_tags s) (block_addr c addr) time cache_index;
  t ← set_status t idx MODIFIED;
  '(events, s) ← send_write_request (with_tags s t) mf WRITE_REQUEST_SENT time events;
  mret (HIT, events, s).
Definition wr_hit_we (s : cache) (addr cache_index mf time : Z) (events : list cache_event) : outcome answer :=
  if miss_queue_full s 0 then mret (RESERVATION_FAIL, events, s) else
  '(events, s) ← send_write_request s mf WRITE_REQUEST_SENT time events;
  line ← aread (m_lines (c_tags s)) cache_index;
  t ← set_status (c_tags s) cache_index INVALID;
  t ← add_lifetime t (u32 (time - m_alloc_time line));
  mret (HIT, events, with_tags s t).
Definition wr_hit_global_we_local_wb (s : cache) (addr cache_index mf time : Z) (events : list cache_event) : outcome answer :=
  r ← deref (c_heap s) mf;
  if bool_decide (get_access_type r = GLOBAL_ACC_W) then wr_hit_we s addr cache_index mf time events
  else wr_hit_wb s addr cache_index time events.

(** ** Misses and read hits *)

(** A write-back of an evicted line, unless the lower level has its data already. *)
Definition write_back (s : cache) (ev : option cache_block_t) (type : mem_access_type) (time : Z) : outcome (option Z * cache) :=
  match ev with
  | Some line =>
      if bool_decide (m_write_policy c = WRITE_THROUGH) then mret (None, s) else
      sz ← get_line_sz c;
      r ← alloc (p_map p) time (p_core p) (p_cluster p) (m_block_addr line) type sz true;
      let '(q, h) := new_object (c_heap s) r in
      s ← enqueue (with_heap s h) q time;
      mret (Some q, s)
  | None => mret (None, s)
  end.

Definition wr_miss_wa (s : cache) (addr cache_index mf time : Z) (events : list cache_event) : outcome answer :=
  let b := block_addr c addr in
  let mshr_hit := mshr_probe (c_mshrs s) b in
  let mshr_avail := negb (mshr_full (c_mshrs s) b) in
  if miss_queue_full s 2 ||
     (negb (mshr_hit && mshr_avail) &&
      negb (negb mshr_hit && mshr_avail && (zlen (m_miss_queue s) <? m_miss_queue_size c)))
  then mret (RESERVATION_FAIL, events, s) else
  '(events, s) ← send_write_request s mf WRITE_REQUEST_SENT time events;
  r ← deref (c_heap s) mf;
  let ma := mem_access_new L2_WR_ALLOC_R (get_addr r) (m_data_size r) false
              (a_warp_mask (mf_access r)) (a_byte_mask (mf_access r)) in
  n ← mem_fetch_new (p_map p) time ma None (m_ctrl_size r) (m_wid r) (m_sid r) (m_tpc r);
  let '(n_mf, h) := new_object (c_heap s) n in
  '(do_miss, ev, events, s) ← send_read_request (with_heap s h) b cache_index n_mf time events false true;
  '(_, s) ← write_back s ev L2_WRBK_ACC time;
  mret (if do_miss : bool then MISS else RESERVATION_FAIL, events, s).
Definition wr_miss_no_wa (s : cache) (mf time : Z) (events : list cache_event) : outcome answer :=
  if miss_queue_full s 0 then mret (RESERVATION_FAIL, events, s) else
  '(events, s) ← send_write_request s mf WRITE_REQUEST_SENT time events;
  mret (MISS, events, s).

Definition rd_hit_base (s : cache) (addr cache_index mf time : Z) (events : list cache_event) : outcome answer :=
  '(_, idx, t) ← access_clean c (c_tags s) (block_addr c addr) time cache_index;
  r ← deref (c_heap s) mf;
  t ← (if isatomic r then
         cassert (bool_decide (get_access_type r = GLOBAL_ACC_R));; set_status t idx MODIFIED
       else mret t);
  mret (HIT, events, with_tags s t).
Definition rd_miss_base (s : cache) (addr cache_index mf time : Z) (events : list cache_event) : outcome answer :=
  if miss_queue_full s 1 then mret (RESERVATION_FAIL, events, s) else
  '(do_miss, ev, events, s) ← send_read_request s (block_addr c addr) cache_index mf time events false false;
  '(wb, s) ← write_back s ev L1_WRBK_ACC time;
  let events := match wb with Some _ => events ++ [WRITE_BACK_REQUEST_SENT] | None => events end in
  mret (if do_miss : bool then MISS else RESERVATION_FAIL, events, s).

(** ** Accesses *)

Definition wr_hit (s : cache) (addr cache_index mf time : Z) (events : list cache_event) : outcome answer :=
  match m_write_policy c with
  | READ_ONLY => Err AssertFailed
  | WRITE_BACK => wr_hit_wb s addr cache_index time events
  | WRITE_THROUGH => wr_hit_wt s addr cache_index mf time events
  | WRITE_EVICT => wr_hit_we s addr cache_index mf time events
  | LOCAL_WB_GLOBAL_WT => wr_hit_global_we_local_wb s addr cache_index mf time events
  end.
Definition wr_miss (s : cache) (addr cache_index mf time : Z) (events : list cache_event) : outcome answer :=
  match m_write_alloc_policy c with
  | WRITE_ALLOCATE => wr_miss_wa s addr cache_index mf time events
  | NO_WRITE_ALLOCATE => wr_miss_no_wa s mf time events
  end.

Definition read_only_access (s : cache) (addr mf time : Z) (events : list cache_event) : outcome answer :=
  r ← deref (c_heap s) mf;
  sz ← get_line_sz c;
  cassert (m_data_size r <=? sz);;
  cassert (bool_decide (m_write_policy c = READ_ONLY));;
  cassert (negb (get_is_write r));;
  let b := block_addr c addr in
  '(status, idx) ← probe c (c_tags s) b no_line;
  match status with
  | HIT => '(_, _, t) ← access_clean c (c_tags s) b time idx; mret (HIT, events, with_tags s t)
  | RESERVATION_FAIL => mret (RESERVATION_FAIL, events, s)
  | _ =>
      if miss_queue_full s 0 then mret (RESERVATION_FAIL, events, s) else
      '(do_miss, _, events, s) ← send_read_request s b idx mf time events true false;
      mret (if do_miss : bool then MISS else RESERVATION_FAIL, events, s)
  end.

(** [l1_cache::access] and [l2_cache::access], which are the same. *)
Definition data_access (s : cache) (addr mf time : Z) (events : list cache_event) : outcome answer :=
  r ← deref (c_heap s) mf;
  sz ← get_line_sz c;
  cassert (m_data_size r <=? sz);;
  '(status, idx) ← probe c (c_tags s) (block_addr c addr) no_line;
  if get_is_write r then
    match status with
    | HIT => wr_hit s addr idx mf time events
    | RESERVATION_FAIL => mret (RESERVATION_FAIL, events, s)
    | _ => wr_miss s addr idx mf time events
    end
  else
    match status with
    | HIT => rd_hit_base s addr idx mf time events
    | RESERVATION_FAIL => mret (RESERVATION_FAIL, events, s)
    | _ => rd_miss_base s addr idx mf time events
    end.
End cache.
