(* ===== verification/GpuCacheInv.v ===== *)
(** * The invariant of the GPU caches

    What ties tags, miss status holding registers and outstanding requests together,
    and that every operation of [GpuCache] succeeds and keeps it. *)

From S2P Require Import Prelude Coalesce GpuMisc AddrDec TagArray Mshr MemFetch GpuCache.

(** What the caches need of their parameters; the address mapping decodes every
    address a request can have. *)
Record params_ok (p : cache_params) : Prop := {
  po_geometry : geometry (p_config p);
  po_type : m_mshr_type (p_config p) = ASSOC;
  po_entries : 0 <= m_mshr_entries (p_config p);
  po_merge : 1 <= m_mshr_max_merge (p_config p);
  po_queue : 0 <= m_miss_queue_size (p_config p);
  po_map : forall a, 0 <= a < 2 ^ 32 -> is_ok (addrdec_tlx (p_map p) a) /\ is_ok (partition_address (p_map p) a);
}.

(** Tags, registers and outstanding requests: each outstanding request has the only
    entry for its block, which is not ready, and its line is reserved (or, when lines
    are allocated on the fill, the block has none); each entry is ready or waits for an
    outstanding request. *)
Record linked (c : cache_config) (t : tag_array) (m : mshr_table) (x : gmap Z extra_mf_fields) : Prop := {
  li_valid : forall q e, x !! q = Some e -> ex_valid e = true /\ is_block c (ex_block_addr e);
  li_entry : forall q e, x !! q = Some e ->
    is_Some (m_data m !! ex_block_addr e) /\ ex_block_addr e ∉ m_current_response m;
  li_line : forall q e, x !! q = Some e ->
    match m_alloc_policy c with
    | ON_MISS => holds t (ex_cache_index e) (ex_block_addr e) RESERVED
    | ON_FILL => forall i s, ~ holds t i (ex_block_addr e) s
    end;
  li_unique : forall q1 e1 q2 e2, x !! q1 = Some e1 -> x !! q2 = Some e2 -> ex_block_addr e1 = ex_block_addr e2 -> q1 = q2;
  li_pending : forall b, is_Some (m_data m !! b) -> b ∈ m_current_response m \/ exists q e, x !! q = Some e /\ ex_block_addr e = b;
  li_atomic : m_alloc_policy c = ON_FILL \/ m_write_policy c = READ_ONLY ->
    forall b e, m_data m !! b = Some e -> m_has_atomic e = false;
  li_clean : m_write_policy c = READ_ONLY -> forall i b, ~ holds t i b MODIFIED;
}.

Record cache_ok (p : cache_params) (s : cache) (now : Z) : Prop := {
  ok_heap : heap_ok (c_heap s);
  ok_tags : tags_ok (p_config p) (c_tags s) now;
  ok_mshrs : mshr_ok (c_mshrs s) /\ m_num_entries (c_mshrs s) = m_mshr_entries (p_config p) /\
    m_max_merged (c_mshrs s) = m_mshr_max_merge (p_config p);
  ok_queue : zlen (m_miss_queue s) <= m_miss_queue_size (p_config p) /\ Forall (live (c_heap s)) (m_miss_queue s);
  ok_extra : forall q, is_Some (m_extra_mf_fields s !! q) -> live (c_heap s) q;
  ok_linked : linked (p_config p) (c_tags s) (c_mshrs s) (m_extra_mf_fields s);
}.

(** A request that may be given to a cache: it is not already outstanding and fits the
    line; atomics only go to caches that can hold modified lines. *)
Record request_ok (p : cache_params) (s : cache) (mf : Z) (r : mem_fetch) : Prop := {
  rq_live : objects (c_heap s) !! mf = Some r;
  rq_fresh : m_extra_mf_fields s !! mf = None;
  rq_size : m_data_size r <= m_line_sz (p_config p);
  rq_atomic : isatomic r = true -> m_alloc_policy (p_config p) = ON_MISS /\ m_write_policy (p_config p) <> READ_ONLY /\
    get_access_type r = GLOBAL_ACC_R;
}.

Section linked_facts.
Context (c : cache_config).
Implicit Types (t : tag_array) (m : mshr_table) (x : gmap Z extra_mf_fields).

(** Tags may change as long as reserved lines stay, lines that are not reserved for
    an outstanding block appear and nothing gets dirty in a read-only cache. *)
Lemma linked_tags t t' m x : linked c t m x ->
  (forall i b, holds t i b RESERVED -> (exists q e, x !! q = Some e /\ ex_block_addr e = b) -> holds t' i b RESERVED) ->
  (m_alloc_policy c = ON_FILL -> forall i b s, holds t' i b s -> (exists j s', holds t j b s') \/ forall q e, x !! q = Some e -> ex_block_addr e <> b) ->
  (m_write_policy c = READ_ONLY -> forall i b, holds t' i b MODIFIED -> holds t i b MODIFIED) ->
  linked c t' m x.
Proof.
  intros [Hv He Hl Hu Hp Ha Hc] Hr Hn Hm. split; try done.
  - intros q e Hq. specialize (Hl q e Hq). destruct (m_alloc_policy c).
    + apply Hr; [done|]. by exists q, e.
    + intros i s Hh. destruct (Hn eq_refl i _ s Hh) as [(j & s' & Hj)|Hne]; [by apply (Hl j s')|by apply (Hne q e)].
  - intros Hro i b Hh. apply (Hc Hro i b). by apply Hm.
Qed.

Lemma linked_unchanged t t' m x : linked c t m x -> unchanged t t' -> linked c t' m x.
Proof.
  intros Hl Hu. apply (linked_tags t); [done|..].
  - intros i b Hh _. by apply Hu.
  - intros _ i b s Hh. left. exists i, s. by apply Hu.
  - intros _ i b Hh. by apply Hu.
Qed.

(** A line that is not reserved may change its block or state. *)
Lemma linked_replaced t t' m x i b s : linked c t m x -> replaced t t' i b s ->
  (forall b', ~ holds t i b' RESERVED) ->
  (m_alloc_policy c = ON_FILL -> forall q e, x !! q = Some e -> ex_block_addr e <> b) ->
  (m_write_policy c = READ_ONLY -> s <> MODIFIED) -> linked c t' m x.
Proof.
  intros Hl Hr Hi Hf Hm. apply (linked_tags t); [done|..].
  - intros j b' Hh _. apply Hr. destruct (Z.eqb_spec j i) as [->|]; [by destruct (Hi b')|done].
  - intros Ho j b' s' Hh%Hr. destruct (Z.eqb_spec j i) as [->|]; [|left; by exists j, s'].
    destruct Hh as (-> & _ & _). right. by apply Hf.
  - intros Hro j b' Hh%Hr. destruct (Z.eqb_spec j i) as [->|]; [|done]. destruct Hh as (_ & E & _). by destruct (Hm Hro).
Qed.

(** A new entry or a merged request. *)
Lemma linked_add t m m' x b l at_ : linked c t m x ->
  m_current_response m' = m_current_response m -> m_data m' = <[b := mkEntry l at_]> (m_data m) ->
  (is_Some (m_data m !! b)) -> (m_alloc_policy c = ON_FILL \/ m_write_policy c = READ_ONLY -> at_ = false) -> linked c t m' x.
Proof.
  intros [Hv He Hl Hu Hp Ha Hc] Er Ed Hb Hat. split; try done.
  - intros q e Hq. rewrite Er, Ed. destruct (He q e Hq). split; [|done]. rewrite lookup_insert. case_decide; [by eexists|done].
  - intros b'. rewrite Er, Ed, lookup_insert. case_decide; [subst; intros _; by apply Hp|by apply Hp].
  - intros Hx b' e. rewrite Ed, lookup_insert. case_decide; [intros [= <-]; by apply Hat|by apply Ha].
Qed.

Lemma linked_request t m m' x b l at_ mf e : linked c t m x -> mshr_ok m ->
  m_current_response m' = m_current_response m -> m_data m' = <[b := mkEntry l at_]> (m_data m) ->
  m_data m !! b = None -> (m_alloc_policy c = ON_FILL \/ m_write_policy c = READ_ONLY -> at_ = false) ->
  x !! mf = None -> ex_valid e = true -> ex_block_addr e = b -> is_block c b ->
  match m_alloc_policy c with ON_MISS => holds t (ex_cache_index e) b RESERVED | ON_FILL => forall i s, ~ holds t i b s end ->
  linked c t m' (<[mf := e]> x).
Proof.
  intros [Hv He Hl Hu Hp Ha Hc] Hm Er Ed Hb Hat Hmf Hev Heb Hbl Hline.
  assert (forall q e', x !! q = Some e' -> ex_block_addr e' <> b) as Hne.
  { intros q e' Hq Heq. destruct (He q e' Hq) as [[? Hs] _]. rewrite Heq in Hs. congruence. }
  split; try done.
  - intros q e'. rewrite lookup_insert. case_decide; [intros [= <-]; by rewrite Heb|apply Hv].
  - intros q e'. rewrite lookup_insert, Er, Ed. case_decide.
    + intros [= <-]. rewrite Heb, lookup_insert_eq. split; [by eexists|]. intros Hin.
      destruct (proj2 (mo_ready _ Hm) b Hin). congruence.
    + intros Hq. rewrite lookup_insert_ne by (symmetry; by apply (Hne q)). by apply (He q).
  - intros q e'. rewrite lookup_insert. case_decide; [intros [= <-]; by rewrite Heb|apply Hl].
  - intros q1 e1 q2 e2. rewrite !lookup_insert. repeat case_decide; subst; try done.
    + intros [= <-] Hq Heq. by destruct (Hne q2 e2 Hq).
    + intros Hq [= <-] Heq. by destruct (Hne q1 e1 Hq).
    + apply Hu.
  - intros b'. rewrite Er, Ed, lookup_insert. case_decide.
    + intros _. right. exists mf, e. subst. by rewrite lookup_insert_eq.
    + intros [?|(q & e' & Hq & Heq)]%Hp; [by left|]. right. exists q, e'. split; [|done].
      rewrite lookup_insert_ne; [done|]. intros ->. congruence.
  - intros Hx b' e'. rewrite Ed, lookup_insert. case_decide; [intros [= <-]; by apply Hat|by apply Ha].
Qed.
End linked_facts.

(** * Requests to the next level *)

(** The answer of [probe] is the only one possible. *)
Lemma probed_status c t now b i1 s1 k1 i2 s2 k2 : tags_ok c t now ->
  probed c t b i1 s1 k1 -> probed c t b i2 s2 k2 -> s1 = s2.
Proof.
  intros Ht H1 H2.
  assert (forall i li j lj, resident t b i li -> resident t b j lj -> li = lj) as Hu.
  { intros i li j lj Hi Hj. pose proof (to_unique _ _ _ Ht b i j li lj Hi Hj) as <-.
    destruct Hi as [Hi _], Hj as [Hj _]. congruence. }
  destruct H1 as [i l Hr Hs|i l Hr Hs|i l Ha Hz Hset Hs _|Ha _ Hall],
    H2 as [j l' Hr' Hs'|j l' Hr' Hs'|j l' Ha' Hz' Hset' Hs' _|Ha' _ Hall']; try done;
    try (by destruct (Ha j l')); try (by destruct (Ha' i l)).
  - by rewrite (Hu _ _ _ _ Hr Hr') in Hs.
  - by rewrite (Hu _ _ _ _ Hr Hr') in Hs.
  - by destruct (Hs (Hall' i l Hz Hset)).
  - by destruct (Hs' (Hall j l' Hz' Hset')).
Qed.

Section operations.
Context (p : cache_params) (Hp : params_ok p).
Abbreviation c := (p_config p).
Let Hg : geometry c := po_geometry p Hp.

(** The state of the cache after its tags were accessed for block [b], which is not
    there or has a reserved line. *)
Record missed (s : cache) (b time : Z) (idx : Z) (ev : option cache_block_t) (t' : tag_array) : Prop := {
  ms_tags : tags_ok c t' time;
  ms_linked : linked c t' (c_mshrs s) (m_extra_mf_fields s);
  ms_line : match m_alloc_policy c with ON_MISS => holds t' idx b RESERVED | ON_FILL => forall i st, ~ holds t' i b st end;
  ms_dirty : forall b', (exists i, holds (c_tags s) i b' MODIFIED) ->
    (exists i, holds t' i b' MODIFIED) \/ exists line, ev = Some line /\ m_block_addr line = b';
  ms_evicted : forall line, ev = Some line -> exists i, holds (c_tags s) i (m_block_addr line) MODIFIED;
}.

Lemma tags_access_spec s now b time k status idx ro : cache_ok p s now -> now <= time -> time_ok time -> is_block c b ->
  probed c (c_tags s) b k status idx -> status = MISS \/ status = HIT_RESERVED ->
  (ro = true -> m_write_policy c = READ_ONLY) ->
  exists idx' ev t', tags_access p s b time idx ro = Ok (idx', ev, with_tags s t') /\ missed s b time idx' ev t'.
Proof.
  intros Hs Hn Htime Hb Hprobe Hst Hro. pose proof (ok_tags _ _ _ Hs) as Ht. pose proof (ok_linked _ _ _ Hs) as Hl.
  destruct (access_spec c Hg (c_tags s) now b time idx Ht Hn Htime Hb) as (st & i & ev & t' & E & Hpr & Ht' & Hacc).
  pose proof (probed_status c _ now b _ _ _ _ _ _ Ht Hprobe Hpr) as <-.
  assert (missed s b time i ev t') as Hm.
  { destruct Hpr as [i line Hres Hs'|i line Hres Hs'|i line Hab Hz Hset Hs' _|_ _ _]; try (by destruct Hst).
    - destruct Hacc as [-> Hu]. split; try done.
      + by apply (linked_unchanged c (c_tags s)).
      + apply holds_resident in Hres as [Hz Hh]. rewrite Hs' in Hh. destruct (m_alloc_policy c) eqn:Eal; [by apply Hu|].
        by destruct (to_fill _ _ _ Ht Eal i line Hz).
      + intros b' (j & Hj). left. exists j. by apply Hu.
    - rewrite absent_holds in Hab. unfold accessed in Hacc. destruct (m_alloc_policy c) eqn:Eal; simpl in Hacc.
      + destruct Hacc as [Hr Hev]. specialize (Hev line Hz). split; try done.
        * apply (linked_replaced c (c_tags s) t' _ _ i b RESERVED); try done; [|congruence].
          intros b' (l & Hl' & _ & ? & _). congruence.
        * rewrite Eal. apply Hr. by rewrite Z.eqb_refl.
        * intros b' (j & Hj). destruct (Z.eq_dec j i) as [->|].
          -- right. destruct Hj as (l & Hl' & <- & Hmod & _). exists line. assert (l = line) as -> by congruence.
             by rewrite Hev, bool_decide_eq_true_2.
          -- left. exists j. apply Hr. by rewrite (proj2 (Z.eqb_neq j i)).
        * intros l. rewrite Hev. case_bool_decide as Hmod; [|done]. intros [= <-]. exists i, line. done.
      + destruct Hacc as [-> Hu]. split; try done.
        * by apply (linked_unchanged c (c_tags s)).
        * rewrite Eal. intros j st Hh%Hu. by apply (Hab j st).
        * intros b' (j & Hj). left. exists j. by apply Hu. }
  unfold tags_access. destruct ro.
  - unfold access_clean. rewrite E, bind_of_ok. assert (ev = None) as ->.
    { destruct ev as [line|]; [|done]. destruct (ms_evicted _ _ _ _ _ _ Hm line eq_refl) as [j Hj].
      by destruct (li_clean _ _ _ _ Hl (Hro eq_refl) j (m_block_addr line)). }
    by exists i, None, t'.
  - rewrite E, bind_of_ok. by exists i, ev, t'.
Qed.

Lemma get_line_sz_ok : get_line_sz c = Ok (m_line_sz c).
Proof. unfold get_line_sz. by rewrite (ge_valid _ Hg). Qed.

(** The conditions under which [send_read_request] sends or merges. *)
Definition can_send (s : cache) (b : Z) : bool :=
  negb (mshr_full (c_mshrs s) b) && (mshr_probe (c_mshrs s) b || (zlen (m_miss_queue s) <? m_miss_queue_size c)).

(** What an accepted read leaves: [mf] waits for its block, and is queued when it is the
    first to do so. *)
Record sent (s s' : cache) (b mf : Z) (ev : option cache_block_t) : Prop := {
  se_waiting : waiting (c_mshrs s') ≡ₚ mf :: waiting (c_mshrs s);
  se_queue : m_miss_queue s' = m_miss_queue s ++ (if mshr_probe (c_mshrs s) b then [] else [mf]);
  se_next : next_object (c_heap s') = next_object (c_heap s);
  se_port : memport s' = memport s;
  se_old : forall q, q <> mf -> objects (c_heap s') !! q = objects (c_heap s) !! q;
  se_dirty : forall b', (exists i, holds (c_tags s) i b' MODIFIED) ->
    (exists i, holds (c_tags s') i b' MODIFIED) \/ exists line, ev = Some line /\ m_block_addr line = b';
  se_evicted : forall line, ev = Some line -> exists i, holds (c_tags s) i (m_block_addr line) MODIFIED;
}.

Lemma send_read_request_spec s now b time k status idx mf r events ro wa :
  cache_ok p s now -> now <= time -> time_ok time -> is_block c b ->
  probed c (c_tags s) b k status idx -> status = MISS \/ status = HIT_RESERVED ->
  (ro = true -> m_write_policy c = READ_ONLY) -> request_ok p s mf r ->
  if can_send s b then
    exists ev events' s', send_read_request p s b idx mf time events ro wa = Ok (true, ev, events', s') /\
      cache_ok p s' time /\ sent s s' b mf ev
  else send_read_request p s b idx mf time events ro wa = Ok (false, None, events, s).
Proof.
  intros Hs Hn Htime Hb Hprobe Hst Hro Hr. pose proof Hs as [Hh Ht (Hm & Hme & Hmm) (Hq & Hql) Hx Hl].
  unfold can_send, send_read_request. set (hit := mshr_probe (c_mshrs s) b). set (full := mshr_full (c_mshrs s) b).
  destruct full eqn:Efull; simpl; [by rewrite !andb_false_r|]. rewrite !andb_true_r.
  destruct (hit || _) eqn:Esend.
  2: { apply orb_false_iff in Esend as [-> ->]. done. }
  destruct (tags_access_spec s now b time k status idx ro) as (idx' & ev & t' & E & [Hmt Hml Hmline Hmd Hme2]); try done.
  destruct (mshr_add_spec (c_mshrs s) b mf (isatomic r) Hm) as (m' & Ea & Hm' & Em1 & Em2 & Er & Ed); [rewrite Hmm; apply (po_merge p Hp)|done|].
  pose proof (waiting_add (c_mshrs s) b mf (isatomic r) m' Hm ltac:(rewrite Hmm; apply (po_merge p Hp)) Efull Ea) as Hw.
  pose proof (rq_live _ _ _ _ Hr) as Hmf.
  assert (m_alloc_policy c = ON_FILL \/ m_write_policy c = READ_ONLY ->
    isatomic r || m_has_atomic (default (mkEntry [] false) (m_data (c_mshrs s) !! b)) = false) as Hat.
  { intros Hx'. apply orb_false_iff. split.
    - destruct (isatomic r) eqn:Eat; [|done]. destruct (rq_atomic _ _ _ _ Hr Eat) as (? & ? & _). destruct Hx'; congruence.
    - destruct (m_data (c_mshrs s) !! b) as [e|] eqn:Ee; [|done]. by apply (li_atomic _ _ _ _ Hl Hx' b). }
  destruct hit eqn:Ehit; simpl.
  - rewrite E. simpl. unfold deref. rewrite Hmf. simpl. rewrite Ea. simpl. eexists ev, events, _. split; [reflexivity|]. split.
    + split; simpl; try done; [by rewrite Em1, Em2|].
      eapply linked_add; [exact Hml|done|exact Ed| |exact Hat]. by apply (bool_decide_eq_true_1 _ Ehit).
    + split; simpl; try done. unfold hit in Ehit. by rewrite Ehit, app_nil_r.
  - simpl in Esend. rewrite Esend, E. simpl. unfold deref. rewrite Hmf. simpl. rewrite Ea. simpl. rewrite get_line_sz_ok. simpl.
    destruct (fetch_update_spec (c_heap s) mf (fun r => set_mf_status (set_data_size r (m_line_sz c)) (p_status p) time) Hh)
      as (h' & Eh & Hh' & Hnext & Hlive); [by eexists|].
    assert (forall q, q <> mf -> objects h' !! q = objects (c_heap s) !! q) as Hold.
    { intros q Hne. unfold update, deref in Eh. rewrite Hmf in Eh. injection Eh as <-. simpl. by rewrite lookup_insert_ne. }
    rewrite Eh. simpl. eexists ev, _, _. split; [reflexivity|]. apply Z.ltb_lt in Esend. split.
    + split; simpl; try done.
      * by rewrite Em1, Em2.
      * rewrite zlen_app. unfold zlen at 2. simpl. split; [lia|]. apply Forall_app. split.
        -- eapply Forall_impl; [exact Hql|]. intros q. apply Hlive.
        -- apply Forall_singleton, Hlive. by eexists.
      * intros q Hq'. apply Hlive. rewrite lookup_insert in Hq'. case_decide; [subst; by eexists|by apply Hx].
      * eapply linked_request; [exact Hml|done|done|exact Ed| |exact Hat|apply (rq_fresh _ _ _ _ Hr)|done|done|done|done].
        apply eq_None_not_Some. by apply (bool_decide_eq_false_1 _ Ehit).
    + split; simpl; try done. unfold hit in Ehit. by rewrite Ehit.
Qed.

(** * Writes *)

Lemma cache_ok_later s now now' : cache_ok p s now -> now <= now' -> cache_ok p s now'.
Proof.
  intros [Hh Ht Hm Hq Hx Hl] Hle. split; try done. eapply tags_ok_later; [exact Ht|done|done|apply (to_bins _ _ _ Ht)].
Qed.

(** Only the miss queue and the request itself change. *)
Record queued (s s' : cache) (mf : Z) : Prop := {
  qu_queue : m_miss_queue s' = m_miss_queue s ++ [mf];
  qu_tags : c_tags s' = c_tags s;
  qu_mshrs : c_mshrs s' = c_mshrs s;
  qu_extra : m_extra_mf_fields s' = m_extra_mf_fields s;
  qu_port : memport s' = memport s;
  qu_next : next_object (c_heap s') = next_object (c_heap s);
  qu_old : forall q, q <> mf -> objects (c_heap s') !! q = objects (c_heap s) !! q;
  qu_self : forall r, objects (c_heap s) !! mf = Some r -> exists st cy, objects (c_heap s') !! mf = Some (set_mf_status r st cy);
}.

Lemma miss_enqueue_spec s now mf time : cache_ok p s now -> live (c_heap s) mf -> zlen (m_miss_queue s) < m_miss_queue_size c ->
  exists s', enqueue p s mf time = Ok s' /\ cache_ok p s' now /\ queued s s' mf.
Proof.
  intros [Hh Ht Hm (Hq & Hql) Hx Hl] Hmf Hlen.
  destruct (fetch_update_spec (c_heap s) mf (fun r => set_mf_status r (p_status p) time) Hh Hmf) as (h' & Eh & Hh' & Hnext & Hlive).
  unfold enqueue. rewrite Eh. simpl. eexists. split; [reflexivity|].
  destruct Hmf as [r Hmf]. unfold update, deref in Eh. rewrite Hmf in Eh. injection Eh as <-. split; [split|split]; simpl in *; try done.
  - rewrite zlen_app. unfold zlen at 2. simpl. split; [lia|]. apply Forall_app. split.
    + eapply Forall_impl; [exact Hql|]. intros q. apply Hlive.
    + apply Forall_singleton, Hlive. by eexists.
  - intros q Hq'. by apply Hlive, Hx.
  - intros q Hne. by rewrite lookup_insert_ne.
  - intros r' Hr'. rewrite lookup_insert_eq. assert (r' = r) as -> by congruence. by eexists _, _.
Qed.

Lemma mem_fetch_new_ok now ma ctrl wid sid tpc : 0 <= a_addr ma < 2 ^ 32 ->
  exists r, mem_fetch_new (p_map p) now ma None ctrl wid sid tpc = Ok r /\ mf_access r = ma /\ m_inst r = None /\
    m_data_size r = a_req_size ma.
Proof.
  intros Ha. destruct (po_map p Hp (a_addr ma) Ha) as [[d Hd] [q Hq]]. unfold mem_fetch_new. simpl.
  rewrite Hd. simpl. rewrite Hq. simpl. by eexists.
Qed.

(** A write-back of block [b] is on its way to the next level. *)
Definition written_back (s : cache) (b : Z) : Prop :=
  exists q r, q ∈ m_miss_queue s /\ objects (c_heap s) !! q = Some r /\ get_addr r = b /\ get_is_write r = true /\
    m_data_size r = m_line_sz c /\ (get_access_type r = L1_WRBK_ACC \/ get_access_type r = L2_WRBK_ACC).

Lemma write_back_spec s now ev type time : cache_ok p s now -> zlen (m_miss_queue s) < m_miss_queue_size c ->
  (forall line, ev = Some line -> is_block c (m_block_addr line)) -> type = L1_WRBK_ACC \/ type = L2_WRBK_ACC ->
  exists wb s', write_back p s ev type time = Ok (wb, s') /\ cache_ok p s' now /\
    c_tags s' = c_tags s /\ c_mshrs s' = c_mshrs s /\
    (m_write_policy c <> WRITE_THROUGH -> forall line, ev = Some line -> written_back s' (m_block_addr line)).
Proof.
  intros Hs Hlen Hev Hty. unfold write_back. destruct ev as [line|].
  2: { exists None, s. by split_and!. }
  case_bool_decide as Hwt; [by exists None, s; split_and!|]. rewrite get_line_sz_ok. simpl.
  destruct (Hev line eq_refl) as [Hb _]. unfold alloc.
  destruct (mem_fetch_new_ok time (mem_access_new type (m_block_addr line) (m_line_sz c) true 0 0) WRITE_PACKET_SIZE (u32 (-1)) (p_core p) (p_cluster p))
    as (r & -> & Ea & _ & Esz); [simpl; rewrite uwrap_small; lia|]. simpl.
  pose proof Hs as [Hh Ht Hm (Hq & Hql) Hx Hl]. destruct (heap_ok_new (c_heap s) r Hh) as (Hh' & Hlv & Hnl).
  edestruct (miss_enqueue_spec (with_heap s (new_object (c_heap s) r).2) now (next_object (c_heap s)) time) as (s' & E & Hs' & Hqd).
  - split; simpl; try done.
    + split; [done|]. eapply Forall_impl; [exact Hql|]. intros q. apply live_new.
    + intros q Hq'. by apply live_new, Hx.
  - done.
  - done.
  - unfold new_object in E. simpl in E. rewrite E. simpl. eexists _, s'. split; [reflexivity|].
    split_and!; try done; [apply (qu_tags _ _ _ Hqd)|apply (qu_mshrs _ _ _ Hqd)|]. intros _ line' [= <-].
    destruct (qu_self _ _ _ Hqd r) as (st & cy & Ho); [simpl; apply lookup_insert_eq|].
    exists (next_object (c_heap s)), (set_mf_status r st cy). rewrite (qu_queue _ _ _ Hqd). simpl.
    split; [apply elem_of_app; right; apply list_elem_of_singleton; done|]. split; [done|].
    unfold get_addr, get_is_write, get_access_type. simpl. rewrite Ea, Esz. simpl. rewrite uwrap_small by lia. by split_and!.
Qed.

Definition dirty (s : cache) (b : Z) : Prop := exists i, holds (c_tags s) i b MODIFIED.

(** The requests a call with answer [status] adds to those that wait. *)
Definition accepted (s : cache) (mf : Z) (r : mem_fetch) (status : cache_request_status) : list Z :=
  if bool_decide (status = MISS) then
    if get_is_write r then
      match m_write_alloc_policy c with WRITE_ALLOCATE => [next_object (c_heap s)] | NO_WRITE_ALLOCATE => [] end
    else [mf]
  else [].

(** What every access leaves behind. *)
Record accessed_ok (s s' : cache) (time mf : Z) (r : mem_fetch) (status : cache_request_status) : Prop := {
  ac_ok : cache_ok p s' time;
  ac_waiting : waiting (c_mshrs s') ≡ₚ accepted s mf r status ++ waiting (c_mshrs s);
  ac_dirty : m_write_policy c = WRITE_BACK -> forall b, dirty s b -> dirty s' b \/ written_back s' b;
}.

Lemma accessed_fail s now time mf r : cache_ok p s now -> now <= time -> accessed_ok s s time mf r RESERVATION_FAIL.
Proof. intros Hs Hn. split; [by eapply cache_ok_later|done|]. intros _ b ?. by left. Qed.

(** The access of the tags on a hit. *)
Lemma hit_access_spec s now b time k idx : cache_ok p s now -> now <= time -> time_ok time -> is_block c b ->
  probed c (c_tags s) b k HIT idx ->
  exists i t' st, access_clean c (c_tags s) b time idx = Ok (HIT, i, t') /\ tags_ok c t' time /\ unchanged (c_tags s) t' /\
    holds (c_tags s) i b st /\ st <> RESERVED.
Proof.
  intros Hs Hn Htime Hb Hprobe. pose proof (ok_tags _ _ _ Hs) as Ht.
  destruct (access_spec c Hg (c_tags s) now b time idx Ht Hn Htime Hb) as (st & i & ev & t' & E & Hpr & Ht' & Hacc).
  pose proof (probed_status c _ now b _ _ _ _ _ _ Ht Hprobe Hpr) as <-. destruct Hacc as [-> Hu].
  inversion Hpr as [i' line Hres Hst| | |]; subst. exists i, t', (m_status line). unfold access_clean. rewrite E. simpl.
  split; [done|]. split; [done|]. split; [done|]. by apply holds_resident in Hres as [_ Hh].
Qed.

(** After it a line of the block may be marked modified. *)
Lemma mark_modified_spec s now b time i t' st : cache_ok p s now -> now <= time -> tags_ok c t' time ->
  unchanged (c_tags s) t' -> holds (c_tags s) i b st -> st <> RESERVED -> m_write_policy c <> READ_ONLY ->
  exists t2, set_status t' i MODIFIED = Ok t2 /\ cache_ok p (with_tags s t2) time /\
    forall b', dirty s b' -> dirty (with_tags s t2) b'.
Proof.
  intros Hs Hn Ht' Hu Hh Hst Hro. assert (holds t' i b st) as Hh' by (by apply Hu).
  destruct (set_status_spec c t' time i b st MODIFIED Ht' Hh') as (t2 & E & Ht2 & Hr); [done|].
  exists t2. split; [done|]. pose proof Hs as [Hhp Ht Hm Hq Hx Hl]. split.
  - split; simpl; try done. eapply linked_replaced; [eapply linked_unchanged; [exact Hl|exact Hu]|exact Hr| | |done].
    + intros b' Hres. destruct (holds_fun _ _ _ _ _ _ Hh' Hres) as [_ E2]. by subst.
    + intros Hf q e Hq' <-. pose proof (li_line _ _ _ _ Hl q e Hq') as Hno. rewrite Hf in Hno. by apply (Hno i st).
  - intros b' (j & Hj). exists j. simpl. apply Hr. destruct (Z.eqb_spec j i) as [->|]; [|by apply Hu].
    by destruct (holds_fun _ _ _ _ _ _ Hh Hj) as [-> _].
Qed.

(** * Each kind of access *)

(** A queued write leaves tags and registers alone. *)
Lemma queued_done s s1 s' time mf r status q : queued s1 s' q -> cache_ok p s' time ->
  accepted s mf r status = [] -> c_mshrs s1 = c_mshrs s -> (forall b, dirty s b -> dirty s1 b) ->
  accessed_ok s s' time mf r status.
Proof.
  intros Hq Hs' Ha Em Hd. split; [done| |].
  - by rewrite Ha, (qu_mshrs _ _ _ Hq), Em.
  - intros _ b Hb. left. unfold dirty. rewrite (qu_tags _ _ _ Hq). by apply Hd.
Qed.

Lemma not_full s n : miss_queue_full p s n = false -> zlen (m_miss_queue s) + n < m_miss_queue_size c.
Proof. unfold miss_queue_full. intros H%Z.leb_gt. done. Qed.

Section one_access.
Context (s : cache) (now time addr mf : Z) (r : mem_fetch) (events : list cache_event).
Context (Hs : cache_ok p s now) (Hn : now <= time) (Htime : time_ok time) (Haddr : 0 <= addr < 2 ^ 64).
Context (Hr : request_ok p s mf r).
Abbreviation b := (block_addr c addr).

Let Hb : is_block c b.
Proof. apply block_addr_is_block; [exact Hg|lia]. Qed.
Let Hmf : deref (c_heap s) mf = Ok r.
Proof. unfold deref. by rewrite (rq_live _ _ _ _ Hr). Qed.
Let Hlive : live (c_heap s) mf.
Proof. exists r. apply (rq_live _ _ _ _ Hr). Qed.

(** The outcome of a call: it returns, and leaves the cache in order. *)
Definition served (call : outcome (cache_request_status * list cache_event * cache)) : Prop :=
  exists status events' s', call = Ok (status, events', s') /\ accessed_ok s s' time mf r status.

Lemma hit_done t' : tags_ok c t' time -> linked c t' (c_mshrs s) (m_extra_mf_fields s) ->
  (m_write_policy c = WRITE_BACK -> forall x, dirty s x -> dirty (with_tags s t') x) ->
  accessed_ok s (with_tags s t') time mf r HIT.
Proof.
  intros Ht Hl Hd. pose proof Hs as [Hh _ Hm Hq Hx _]. split; [by split|done|]. intros Hwb x Hx'. left. by apply Hd.
Qed.

Lemma wr_hit_wb_spec k idx : probed c (c_tags s) b k HIT idx -> m_write_policy c <> READ_ONLY ->
  served (wr_hit_wb p s addr idx time events).
Proof.
  intros Hpr Hro. unfold wr_hit_wb, served.
  destruct (hit_access_spec s now b time k idx Hs Hn Htime Hb Hpr) as (i & t' & st & -> & Ht' & Hu & Hh & Hst). simpl.
  destruct (mark_modified_spec s now b time i t' st Hs Hn Ht' Hu Hh Hst Hro) as (t2 & -> & Hok & Hd). simpl.
  eexists _, _, _. split; [reflexivity|]. split; [done|done|]. intros _ x Hx. left. by apply Hd.
Qed.

Lemma wr_hit_wt_spec k idx : probed c (c_tags s) b k HIT idx -> m_write_policy c = WRITE_THROUGH ->
  served (wr_hit_wt p s addr idx mf time events).
Proof.
  intros Hpr Hwt. unfold wr_hit_wt, served. destruct (miss_queue_full p s 0) eqn:Ef.
  { eexists _, _, _. split; [reflexivity|]. by eapply accessed_fail. }
  apply not_full in Ef.
  destruct (hit_access_spec s now b time k idx Hs Hn Htime Hb Hpr) as (i & t' & st & -> & Ht' & Hu & Hh & Hst). simpl.
  destruct (mark_modified_spec s now b time i t' st Hs Hn Ht' Hu Hh Hst) as (t2 & -> & Hok & Hd); [congruence|]. simpl.
  unfold send_write_request. destruct (miss_enqueue_spec _ _ mf time Hok) as (s' & -> & Hok' & Hq); [done|simpl; lia|]. simpl.
  eexists _, _, _. split; [reflexivity|]. eapply queued_done; [exact Hq|done|done|done|done].
Qed.

Lemma wr_hit_we_spec k idx : probed c (c_tags s) b k HIT idx -> m_write_policy c <> WRITE_BACK ->
  served (wr_hit_we p s addr idx mf time events).
Proof.
  intros Hpr Hwb. unfold wr_hit_we, served. destruct (miss_queue_full p s 0) eqn:Ef.
  { eexists _, _, _. split; [reflexivity|]. by eapply accessed_fail. }
  apply not_full in Ef. unfold send_write_request.
  destruct (miss_enqueue_spec s time mf time) as (s1 & -> & Hok1 & Hq); [by eapply cache_ok_later|done|lia|]. simpl.
  inversion Hpr as [i line Hres Hst| | |]; subst i. rewrite (qu_tags _ _ _ Hq).
  pose proof Hres as [Hz Hh]%holds_resident. pose proof (ok_tags _ _ _ Hok1) as Ht1. rewrite (qu_tags _ _ _ Hq) in Ht1.
  rewrite (proj2 (aread_ok _ _ _) Hz). simpl.
  destruct (set_status_spec c (c_tags s) time idx b (m_status line) INVALID Ht1 Hh) as (t2 & -> & Ht2 & Hrep); [done|]. simpl.
  destruct (to_times _ _ _ (ok_tags _ _ _ Hs) idx line Hz) as [Ha _]. destruct (time_diff now time (m_alloc_time line) Ha Hn Htime) as [-> Hd].
  destruct (add_lifetime_ok t2 _ (to_bins _ _ _ Ht2) Hd) as (t3 & -> & El & Hb3). simpl.
  eexists _, _, _. split; [reflexivity|]. pose proof Hok1 as [Hh1 _ Hm1 Hq1 Hx1 Hl1]. rewrite (qu_tags _ _ _ Hq) in Hl1. split.
  - split; simpl; try done; [by eapply tags_ok_later|].
    apply (linked_unchanged c t2); [|by apply unchanged_lines].
    eapply linked_replaced; [exact Hl1|exact Hrep| | |done].
    + intros b' Hx'. destruct (holds_fun _ _ _ _ _ _ Hh Hx'). congruence.
    + intros Hf q e Hq' Heq. pose proof (li_line _ _ _ _ Hl1 q e Hq') as Hno. rewrite Hf in Hno. apply (Hno idx (m_status line)). by rewrite Heq.
  - simpl. by rewrite (qu_mshrs _ _ _ Hq).
  - done.
Qed.

Lemma wr_hit_spec k idx : probed c (c_tags s) b k HIT idx -> m_write_policy c <> READ_ONLY ->
  served (wr_hit p s addr idx mf time events).
Proof.
  intros Hpr Hro. unfold wr_hit. destruct (m_write_policy c) eqn:Ew; [done|..].
  - by apply (wr_hit_wb_spec k); [|rewrite Ew].
  - by apply (wr_hit_wt_spec k).
  - by apply (wr_hit_we_spec k); [|rewrite Ew].
  - unfold wr_hit_global_we_local_wb. rewrite Hmf. simpl. case_bool_decide.
    + by apply (wr_hit_we_spec k); [|rewrite Ew].
    + by apply (wr_hit_wb_spec k); [|rewrite Ew].
Qed.

Lemma rd_hit_spec k idx : probed c (c_tags s) b k HIT idx -> served (rd_hit_base p s addr idx mf time events).
Proof.
  intros Hpr. unfold rd_hit_base, served.
  destruct (hit_access_spec s now b time k idx Hs Hn Htime Hb Hpr) as (i & t' & st & -> & Ht' & Hu & Hh & Hst). simpl.
  rewrite Hmf. simpl. destruct (isatomic r) eqn:Eat.
  - destruct (rq_atomic _ _ _ _ Hr Eat) as (_ & Hro & Hty). rewrite bool_decide_eq_true_2 by done. simpl.
    destruct (mark_modified_spec s now b time i t' st Hs Hn Ht' Hu Hh Hst Hro) as (t2 & -> & Hok & Hd). simpl.
    eexists _, _, _. split; [reflexivity|]. split; [done|done|]. intros _ x Hx. left. by apply Hd.
  - simpl. eexists _, _, _. split; [reflexivity|]. apply hit_done; [done|by eapply linked_unchanged, Hu; apply Hs|].
    intros _ x (j & Hj). exists j. by apply Hu.
Qed.

(** After an accepted read the evicted line is written back. *)
Lemma sent_written_back s1 s2 q ev type : cache_ok p s2 time -> sent s1 s2 b q ev -> c_tags s1 = c_tags s ->
  zlen (m_miss_queue s2) < m_miss_queue_size c -> type = L1_WRBK_ACC \/ type = L2_WRBK_ACC ->
  exists wb s', write_back p s2 ev type time = Ok (wb, s') /\ cache_ok p s' time /\ c_mshrs s' = c_mshrs s2 /\
    (m_write_policy c = WRITE_BACK -> forall x, dirty s x -> dirty s' x \/ written_back s' x).
Proof.
  intros Hok2 Hsent Et Hq Hty.
  destruct (write_back_spec s2 time ev type time Hok2 Hq) as (wb & s' & E & Hok' & Et' & Em' & Hwb); [|done|].
  { intros line Hev. destruct (se_evicted _ _ _ _ _ Hsent line Hev) as (i & l & Hz & Hl & Hst & Hni). rewrite Et in Hz.
    apply (to_home _ _ _ (ok_tags _ _ _ Hs) (m_block_addr line) i l). split_and!; [done|by rewrite Hst|done]. }
  exists wb, s'. split_and!; try done. intros Hpol x Hx. destruct (se_dirty _ _ _ _ _ Hsent x) as [Hd|(line & Hev & <-)].
  - rewrite Et. exact Hx.
  - left. unfold dirty. by rewrite Et'.
  - right. apply Hwb; [by rewrite Hpol|done].
Qed.

Lemma rd_miss_spec k idx status : probed c (c_tags s) b k status idx -> status = MISS \/ status = HIT_RESERVED ->
  get_is_write r = false -> served (rd_miss_base p s addr idx mf time events).
Proof.
  intros Hpr Hst Hrd. unfold rd_miss_base, served. destruct (miss_queue_full p s 1) eqn:Ef.
  { eexists _, _, _. split; [reflexivity|]. by eapply accessed_fail. }
  apply not_full in Ef.
  pose proof (send_read_request_spec s now b time k status idx mf r events false false Hs Hn Htime Hb Hpr Hst ltac:(done) Hr) as Hsend.
  destruct (can_send s b).
  - destruct Hsend as (ev & events' & s2 & -> & Hok2 & Hsent). simpl.
    destruct (sent_written_back s s2 mf ev L1_WRBK_ACC Hok2 Hsent) as (wb & s' & -> & Hok' & Em & Hd); [done| |by left|].
    { rewrite (se_queue _ _ _ _ _ Hsent), zlen_app. destruct (mshr_probe _ _); unfold zlen in *; simpl; lia. }
    simpl. eexists _, _, s'. split; [reflexivity|]. split; [done| |done].
    unfold accepted. rewrite Hrd. simpl. rewrite Em. apply (se_waiting _ _ _ _ _ Hsent).
  - rewrite Hsend. simpl. eexists _, _, _. split; [reflexivity|]. by eapply accessed_fail.
Qed.

Lemma wr_miss_no_wa_spec : get_is_write r = true -> m_write_alloc_policy c = NO_WRITE_ALLOCATE ->
  served (wr_miss_no_wa p s mf time events).
Proof.
  intros Hwr Hna. unfold wr_miss_no_wa, served. destruct (miss_queue_full p s 0) eqn:Ef.
  { eexists _, _, _. split; [reflexivity|]. by eapply accessed_fail. }
  apply not_full in Ef. unfold send_write_request.
  destruct (miss_enqueue_spec s time mf time) as (s1 & -> & Hok1 & Hq); [by eapply cache_ok_later|done|lia|]. simpl.
  eexists _, _, _. split; [reflexivity|]. eapply queued_done; [exact Hq|done| |done|done].
  unfold accepted. by rewrite Hwr, Hna.
Qed.

Lemma can_send_test hit avail room :
  negb (hit && avail) && negb (negb hit && avail && room) = negb (avail && (hit || room)).
Proof. by destruct hit, avail, room. Qed.

(** The request that fetches the block for a write. *)
Lemma wr_alloc_request s1 n : cache_ok p s1 time -> m_inst n = None -> m_data_size n <= m_line_sz c ->
  cache_ok p (with_heap s1 (new_object (c_heap s1) n).2) time /\
  request_ok p (with_heap s1 (new_object (c_heap s1) n).2) (next_object (c_heap s1)) n.
Proof.
  intros [Hh Ht Hm (Hq & Hql) Hx Hl] Hi Hsz. destruct (heap_ok_new (c_heap s1) n Hh) as (Hh' & Hlv & Hnl). split.
  - split; simpl; try done.
    + split; [done|]. eapply Forall_impl; [exact Hql|]. intros q. apply live_new.
    + intros q Hq'. by apply live_new, Hx.
  - split; simpl; [apply lookup_insert_eq| |done|unfold isatomic, of_inst; by rewrite Hi].
    apply eq_None_not_Some. intros Hq'. apply Hnl. by apply Hx.
Qed.

Lemma wr_miss_wa_spec k idx status : probed c (c_tags s) b k status idx -> status = MISS \/ status = HIT_RESERVED ->
  get_is_write r = true -> m_write_alloc_policy c = WRITE_ALLOCATE -> served (wr_miss_wa p s addr idx mf time events).
Proof.
  intros Hpr Hst Hwr Hwa. unfold wr_miss_wa, served. rewrite can_send_test. fold (can_send s b).
  destruct (miss_queue_full p s 2) eqn:Ef; [|destruct (can_send s b) eqn:Ecs].
  1, 3: eexists _, _, _; split; [reflexivity|by eapply accessed_fail].
  apply not_full in Ef. unfold send_write_request. simpl orb. cbv iota.
  destruct (miss_enqueue_spec s time mf time) as (s1 & -> & Hok1 & Hq); [by eapply cache_ok_later|done|lia|]. simpl.
  destruct (qu_self _ _ _ Hq r (rq_live _ _ _ _ Hr)) as (st & cy & Ho). unfold deref. rewrite Ho. simpl.
  set (ma := mem_access_new _ _ _ _ _ _).
  destruct (mem_fetch_new_ok time ma (m_ctrl_size r) (m_wid r) (m_sid r) (m_tpc r)) as (n & -> & Ea & Ei & Esz);
    [apply (uwrap_range 32); lia|]. simpl.
  destruct (wr_alloc_request s1 n Hok1 Ei) as [Hok2 Hr2]; [rewrite Esz; apply (rq_size _ _ _ _ Hr)|].
  set (s2 := with_heap s1 _) in *.
  pose proof (send_read_request_spec s2 time b time k status idx (next_object (c_heap s1)) n (events ++ [WRITE_REQUEST_SENT]) false true Hok2
    ltac:(lia) Htime Hb ltac:(simpl; by rewrite (qu_tags _ _ _ Hq)) Hst ltac:(done) Hr2) as Hsend.
  assert (can_send s2 b = true) as Ecs2.
  { unfold can_send in Ecs |- *. simpl. rewrite (qu_mshrs _ _ _ Hq), (qu_queue _ _ _ Hq), zlen_app.
    apply andb_true_iff in Ecs as [-> _]. simpl. rewrite (proj2 (Z.ltb_lt _ (m_miss_queue_size c))) by (unfold zlen at 2; simpl; lia).
    apply orb_true_r. }
  rewrite Ecs2 in Hsend. destruct Hsend as (ev & events' & s3 & E3 & Hok3 & Hsent).
  rewrite E3. simpl.
  destruct (sent_written_back s2 s3 (next_object (c_heap s1)) ev L2_WRBK_ACC Hok3 Hsent) as (wb & s' & -> & Hok' & Em & Hd);
    [apply (qu_tags _ _ _ Hq)| |by right|].
  { rewrite (se_queue _ _ _ _ _ Hsent). simpl. rewrite (qu_queue _ _ _ Hq), !zlen_app.
    destruct (mshr_probe _ _); unfold zlen in *; simpl; lia. }
  simpl. eexists _, _, s'. split; [reflexivity|]. split; [done| |done].
  unfold accepted. rewrite Hwr, Hwa. simpl. rewrite Em, <- (qu_next _ _ _ Hq), <- (qu_mshrs _ _ _ Hq).
  apply (se_waiting _ _ _ _ _ Hsent).
Qed.

Lemma data_access_spec : m_write_policy c <> READ_ONLY -> served (data_access p s addr mf time events).
Proof.
  intros Hro. unfold data_access. rewrite Hmf. simpl. rewrite get_line_sz_ok. simpl.
  rewrite (proj2 (Z.leb_le _ _) (rq_size _ _ _ _ Hr)). simpl.
  destruct (probe_spec c Hg (c_tags s) now b no_line) as (status & idx & -> & Hpr); [apply Hs| |apply Hb|].
  { pose proof (tags_ok_nonneg c Hg _ _ (ok_tags _ _ _ Hs)). unfold time_ok in *. lia. }
  simpl. destruct (get_is_write r) eqn:Ew.
  - unfold wr_miss. destruct (m_write_alloc_policy c) eqn:Ewa, status;
      first [by apply (wr_hit_spec no_line)|by apply wr_miss_no_wa_spec|by eapply wr_miss_wa_spec; eauto|
             eexists _, _, _; split; [reflexivity|by eapply accessed_fail]].
  - destruct status; first [by apply (rd_hit_spec no_line)|by eapply rd_miss_spec; eauto|
      eexists _, _, _; split; [reflexivity|by eapply accessed_fail]].
Qed.

Lemma read_only_access_spec : m_write_policy c = READ_ONLY -> get_is_write r = false ->
  served (read_only_access p s addr mf time events).
Proof.
  intros Hro Hrd. unfold read_only_access, served. rewrite Hmf. simpl. rewrite get_line_sz_ok. simpl.
  rewrite (proj2 (Z.leb_le _ _) (rq_size _ _ _ _ Hr)), Hro, Hrd. simpl.
  destruct (probe_spec c Hg (c_tags s) now b no_line) as (status & idx & -> & Hpr); [apply Hs| |apply Hb|].
  { pose proof (tags_ok_nonneg c Hg _ _ (ok_tags _ _ _ Hs)). unfold time_ok in *. lia. }
  simpl. assert (status = HIT \/ status = RESERVATION_FAIL \/ (status = MISS \/ status = HIT_RESERVED)) as [->|[->|Hst]]
    by (destruct status; auto).
  - destruct (hit_access_spec s now b time no_line idx Hs Hn Htime Hb Hpr) as (i & t' & st & -> & Ht' & Hu & _). simpl.
    eexists _, _, _. split; [reflexivity|]. apply hit_done; [done|by eapply linked_unchanged, Hu; apply Hs|]. congruence.
  - eexists _, _, _. split; [reflexivity|]. by eapply accessed_fail.
  - assert ((match status with HIT | RESERVATION_FAIL => False | _ => True end)) as Hc by (by destruct Hst; subst).
    destruct (miss_queue_full p s 0) eqn:Ef.
    { eexists RESERVATION_FAIL, events, s. split; [by destruct status|]. by eapply accessed_fail. }
    pose proof (send_read_request_spec s now b time no_line status idx mf r events true false Hs Hn Htime Hb Hpr Hst ltac:(done) Hr) as Hsend.
    destruct (can_send s b).
    + destruct Hsend as (ev & events' & s2 & E & Hok2 & Hsent). exists MISS, events', s2.
      split; [destruct status; try done; rewrite E; done|]. split; [done| |congruence].
      unfold accepted. rewrite Hrd. apply (se_waiting _ _ _ _ _ Hsent).
    + exists RESERVATION_FAIL, events, s. split; [destruct status; try done; rewrite Hsend; done|]. by eapply accessed_fail.
Qed.
End one_access.

(** * Fills, answers and cycles *)

Lemma linked_filled t m x q e s : linked c t m x -> x !! q = Some e -> mshr_ok m ->
  (forall t', replaced t t' (ex_cache_index e) (ex_block_addr e) s -> m_alloc_policy c = ON_MISS ->
    (s = MODIFIED -> m_write_policy c <> READ_ONLY) -> s <> RESERVED ->
    linked c t' (with_data m (m_data m) (m_current_response m ++ [ex_block_addr e])) (delete q x)) /\
  (forall t' i, replaced t t' i (ex_block_addr e) s -> m_alloc_policy c = ON_FILL -> s = VALID ->
    linked c t' (with_data m (m_data m) (m_current_response m ++ [ex_block_addr e])) (delete q x)).
Proof.
  intros [Hv He Hl Hu Hpd Ha Hc] Hq Hm.
  assert (forall q' e', delete q x !! q' = Some e' -> x !! q' = Some e' /\ ex_block_addr e' <> ex_block_addr e) as Hdel.
  { intros q' e' [Hne Hq']%lookup_delete_Some. split; [done|]. intros Heq. apply Hne. by eapply Hu. }
  assert (forall t', (forall q' e', delete q x !! q' = Some e' -> match m_alloc_policy c with
      | ON_MISS => holds t' (ex_cache_index e') (ex_block_addr e') RESERVED
      | ON_FILL => forall i s, ~ holds t' i (ex_block_addr e') s end) ->
    (m_write_policy c = READ_ONLY -> forall i b, ~ holds t' i b MODIFIED) ->
    linked c t' (with_data m (m_data m) (m_current_response m ++ [ex_block_addr e])) (delete q x)) as Hmk.
  { intros t' H1 H2. split; simpl; try done.
    - intros q' e' [Hq' _]%Hdel. by apply (Hv q').
    - intros q' e' [Hq' Hne]%Hdel. destruct (He q' e' Hq') as [? Hnr]. split; [done|].
      rewrite elem_of_app, list_elem_of_singleton. by intros [?|?].
    - intros q1 e1 q2 e2 [H3 _]%Hdel [H4 _]%Hdel. by eapply Hu.
    - intros b Hb. rewrite elem_of_app, list_elem_of_singleton. destruct (Hpd b Hb) as [?|(q' & e' & Hq' & Heq)]; [by left; left|].
      destruct (decide (q' = q)) as [->|]; [left; right; congruence|]. right. exists q', e'. by rewrite lookup_delete_ne. }
  split.
  - intros t' Hr Hal Hro Hs. apply Hmk.
    + intros q' e' [Hq' Hne]%Hdel. specialize (Hl q' e' Hq') as Hl'. rewrite Hal in *. apply Hr.
      destruct (Z.eqb_spec (ex_cache_index e') (ex_cache_index e)) as [E|]; [|done]. rewrite E in Hl'. specialize (Hl q e Hq).
      by destruct (holds_fun _ _ _ _ _ _ Hl Hl').
    + intros Hro' i b Hh%Hr. destruct (i =? _); [|by apply (Hc Hro' i b)]. destruct Hh as (_ & <- & _). by apply Hro.
  - intros t' i Hr Hal ->. apply Hmk.
    + intros q' e' [Hq' Hne]%Hdel. specialize (Hl q' e' Hq') as Hl'. rewrite Hal in *. intros j s Hh%Hr.
      destruct (Z.eqb_spec j i); [by destruct Hh|by apply (Hl' j s)].
    + intros Hro' j b Hh%Hr. destruct (j =? i); [by destruct Hh as (_ & ? & _)|by apply (Hc Hro' j b)].
Qed.

(** What a fill leaves: the request is no longer outstanding and its block is ready. *)
Record filled (s s' : cache) (mf b : Z) : Prop := {
  fi_waiting : waiting (c_mshrs s') = waiting (c_mshrs s);
  fi_extra : m_extra_mf_fields s' = delete mf (m_extra_mf_fields s);
  fi_ready : m_current_response (c_mshrs s') = m_current_response (c_mshrs s) ++ [b];
  fi_line : exists i st, holds (c_tags s') i b st /\ st <> RESERVED;
  fi_queue : m_miss_queue s' = m_miss_queue s;
  fi_modified : m_alloc_policy c = ON_MISS -> forall j b', holds (c_tags s) j b' MODIFIED -> holds (c_tags s') j b' MODIFIED;
}.

Lemma fill_tags s now time e mf : cache_ok p s now -> now <= time -> time_ok time -> m_extra_mf_fields s !! mf = Some e ->
  exists t' i, match m_alloc_policy c with
    | ON_MISS => fill_index c (c_tags s) (ex_cache_index e) time
    | ON_FILL => fill_addr c (c_tags s) (ex_block_addr e) time end = Ok t' /\ tags_ok c t' time /\
    replaced (c_tags s) t' i (ex_block_addr e) VALID /\ (m_alloc_policy c = ON_MISS -> i = ex_cache_index e).
Proof.
  intros Hs Hn Htime He. pose proof (ok_tags _ _ _ Hs) as Ht. pose proof (ok_linked _ _ _ Hs) as Hl.
  pose proof (li_line _ _ _ _ Hl mf e He) as Hline. destruct (m_alloc_policy c) eqn:Eal.
  - destruct (fill_index_spec c (c_tags s) now time (ex_cache_index e) (ex_block_addr e) Ht Hn Eal Hline) as (t' & ? & ? & ?).
    by exists t', (ex_cache_index e).
  - destruct (fill_addr_spec c Hg (c_tags s) now time (ex_block_addr e) Ht Hn Htime) as (t' & i & ? & ? & ?); try done.
    + apply (li_valid _ _ _ _ Hl mf e He).
    + by apply absent_holds.
    + by exists t', i.
Qed.

Lemma cache_fill_spec s now time mf : cache_ok p s now -> now <= time -> time_ok time -> is_Some (m_extra_mf_fields s !! mf) ->
  exists s' b, cache_fill p s mf time = Ok s' /\ cache_ok p s' time /\ filled s s' mf b.
Proof.
  intros Hs Hn Htime [e He]. pose proof Hs as [Hh Ht (Hm & Hm1 & Hm2) (Hq & Hql) Hx Hl].
  destruct (li_valid _ _ _ _ Hl mf e He) as [Hv Hbl]. destruct (li_entry _ _ _ _ Hl mf e He) as [[en Hen] Hnr].
  unfold cache_fill. rewrite He, Hv. simpl.
  destruct (fetch_update_spec (c_heap s) mf (fun r => set_data_size r (ex_data_size e)) Hh) as (h' & -> & Hh' & _ & Hlive); [by apply Hx; rewrite He|]. simpl.
  destruct (fill_tags s now time e mf Hs Hn Htime He) as (t1 & i & E1 & Ht1 & Hr1 & Hi). rewrite E1. simpl.
  destruct (mark_ready_spec (c_mshrs s) (ex_block_addr e) en Hm Hen Hnr) as [-> Hm']. simpl.
  assert (exists t2 st, (if m_has_atomic en then cassert (bool_decide (m_alloc_policy c = ON_MISS));; set_status t1 (ex_cache_index e) MODIFIED
      else mret t1) = Ok t2 /\ tags_ok c t2 time /\ replaced (c_tags s) t2 i (ex_block_addr e) st /\ st <> RESERVED /\ st <> INVALID /\
      (st = MODIFIED -> m_write_policy c <> READ_ONLY) /\ (m_alloc_policy c = ON_FILL -> st = VALID)) as (t2 & st & -> & Ht2 & Hr2 & Hst & Hsi & Hmod & Hval).
  { destruct (m_has_atomic en) eqn:Eat; [|by exists t1, VALID].
    assert (m_alloc_policy c = ON_MISS /\ m_write_policy c <> READ_ONLY) as [Hal Hro].
    { split; [destruct (m_alloc_policy c) eqn:Eal; [done|]|intros Hro];
        (rewrite (li_atomic _ _ _ _ Hl) with (b := ex_block_addr e) in Eat; [done|by auto|done]). }
    rewrite bool_decide_eq_true_2 by done. simpl. rewrite <- (Hi Hal).
    destruct (set_status_spec c t1 time i (ex_block_addr e) VALID MODIFIED Ht1) as (t2 & -> & Ht2 & Hr2); [|done|].
    - apply Hr1. by rewrite Z.eqb_refl.
    - exists t2, MODIFIED. split_and!; try done; [|congruence]. intros j b' s'. rewrite (Hr2 j b' s').
      destruct (Z.eqb_spec j i) as [->|Hne]; [done|]. rewrite (Hr1 j b' s'). by rewrite (proj2 (Z.eqb_neq j i)). }
  simpl. eexists _, (ex_block_addr e). split; [reflexivity|].
  destruct (linked_filled (c_tags s) (c_mshrs s) _ mf e st Hl He Hm) as [Hmiss Hfill]. split; [split|split]; simpl; try done.
  - split; [done|]. eapply Forall_impl; [exact Hql|]. intros q. apply Hlive.
  - intros q Hq'. apply Hlive, Hx. rewrite lookup_delete_is_Some in Hq'. by destruct Hq'.
  - destruct (m_alloc_policy c) eqn:Eal; [|by eapply Hfill; eauto]. apply Hmiss; try done. by rewrite <- Hi.
  - exists i, st. split; [|done]. apply Hr2. by rewrite Z.eqb_refl.
  - intros Hal j b' Hj. apply Hr2. destruct (Z.eqb_spec j i) as [->|]; [|done]. rewrite (Hi Hal) in Hj.
    pose proof (li_line _ _ _ _ Hl mf e He) as Hline. rewrite Hal in Hline. by destruct (holds_fun _ _ _ _ _ _ Hline Hj).
Qed.

Lemma linked_next t m m' x b rest : linked c t m x -> mshr_ok m -> m_current_response m = b :: rest ->
  (forall b', b' <> b -> m_data m' !! b' = m_data m !! b') ->
  (m_current_response m' = rest /\ m_data m' !! b = None \/
   m_current_response m' = b :: rest /\ exists l, m_data m' !! b = Some (mkEntry l (m_has_atomic (default (mkEntry [] false) (m_data m !! b))))) ->
  linked c t m' x.
Proof.
  intros [Hv He Hl Hu Hpd Ha Hc] Hm Er Hd Hb. destruct (mo_ready _ Hm) as [Hnd Hin]. rewrite Er in Hnd, Hin.
  apply NoDup_cons in Hnd as [Hnb _].
  assert (forall q e, x !! q = Some e -> ex_block_addr e <> b) as Hne.
  { intros q e Hq Heq. destruct (He q e Hq) as [_ Hnr]. rewrite Er, Heq in Hnr. by apply Hnr; left. }
  split; try done.
  - intros q e Hq. rewrite Hd by (by apply (Hne q)). destruct (He q e Hq) as [? Hnr]. split; [done|].
    rewrite Er in Hnr. destruct Hb as [[-> _]|[-> _]]; [|done]. intros ?. apply Hnr. by right.
  - intros b' Hs. destruct (decide (b' = b)) as [->|Hne'].
    + destruct Hb as [[_ E]|[-> _]]; [rewrite E in Hs; by destruct Hs|]. left. left.
    + rewrite Hd in Hs by done. destruct (Hpd b' Hs) as [Hr|?]; [|by right]. left. rewrite Er in Hr.
      apply elem_of_cons in Hr as [?|?]; [done|]. destruct Hb as [[-> _]|[-> _]]; [done|by right].
  - intros Hx b' e Hs. destruct (decide (b' = b)) as [->|Hne'].
    + destruct Hb as [[_ E]|[_ (l & E)]]; [congruence|]. rewrite E in Hs. injection Hs as <-. simpl.
      destruct (Hin b) as [e' He']; [by left|]. rewrite He'. by apply (Ha Hx b).
    + rewrite Hd in Hs by done. by apply (Ha Hx b').
Qed.

Lemma cache_next_access_spec s now : cache_ok p s now -> mshr_access_ready (c_mshrs s) = true ->
  exists mf s', cache_next_access s = Ok (mf, s') /\ cache_ok p s' now /\
    waiting (c_mshrs s) ≡ₚ mf :: waiting (c_mshrs s') /\ c_tags s' = c_tags s /\
    m_extra_mf_fields s' = m_extra_mf_fields s.
Proof.
  intros [Hh Ht (Hm & Hm1 & Hm2) Hq Hx Hl] Hr. unfold mshr_access_ready in Hr.
  destruct (m_current_response (c_mshrs s)) as [|b rest] eqn:Er; [done|].
  destruct (next_access_spec (c_mshrs s) b rest Hm Er) as (mf & l & m' & Hw & E & Hm' & En & Ex & Er' & Hd & Hb & Hwait).
  unfold cache_next_access. rewrite E. simpl. eexists mf, _. split; [reflexivity|]. split_and!; try done.
  split; simpl; try done; [by rewrite En, Ex|]. eapply linked_next; [exact Hl|done|exact Er|done|].
  rewrite Er', Hb. case_bool_decide; [by left|]. right. split; [done|]. by eexists.
Qed.

Lemma cache_cycle_spec s now full : cache_ok p s now ->
  exists s', cache_cycle full s = Ok s' /\ cache_ok p s' now /\ c_mshrs s' = c_mshrs s /\ c_tags s' = c_tags s /\
    m_extra_mf_fields s' = m_extra_mf_fields s /\
    (s' = s \/ exists mf, m_miss_queue s = mf :: m_miss_queue s' /\ memport s' = memport s ++ [mf]).
Proof.
  intros Hs. pose proof Hs as [Hh Ht Hm (Hq & Hql) Hx Hl]. unfold cache_cycle. destruct (m_miss_queue s) as [|mf q] eqn:Eq.
  { exists s. split_and!; try done. by left. }
  apply Forall_cons in Hql as [Hmf Hql]. destruct (deref_live _ _ Hmf) as (r & -> & _). simpl. destruct (full _ _).
  - exists s. split_and!; try done. by left.
  - eexists. split; [reflexivity|]. split_and!; try done; [|right; by exists mf].
    split; simpl; try done. split; [|done]. unfold zlen in *. simpl in Hq. lia.
Qed.

Lemma cache_flush_spec s now time : cache_ok p s now -> now <= time -> time_ok time -> m_extra_mf_fields s = ∅ ->
  exists s', cache_flush p s time = Ok s' /\ cache_ok p s' time /\ c_mshrs s' = c_mshrs s /\
    m_extra_mf_fields s' = ∅ /\ forall i b st, ~ holds (c_tags s') i b st.
Proof.
  intros [Hh Ht Hm Hq Hx Hl] Hn Htime E. unfold cache_flush.
  destruct (flush_spec c Hg (c_tags s) now time Ht Hn Htime) as (t' & -> & Ht' & Hno). simpl.
  eexists. split; [reflexivity|]. split_and!; try done. split; simpl; try done.
  destruct Hl as [Hv He Hll Hu Hpd Ha Hc]. split; try done.
  intros q e Hq'. by rewrite E, lookup_empty in Hq'.
Qed.

Lemma baseline_new_spec h aggr : heap_ok h -> has_bins aggr -> exists s, baseline_new p h aggr = Ok s /\ cache_ok p s 0 /\
  waiting (c_mshrs s) = [] /\ m_extra_mf_fields s = ∅.
Proof.
  intros Hh Ha. unfold baseline_new. destruct (tags_ok_new c Hg aggr Ha) as (t & -> & Ht & Hno). simpl.
  rewrite (po_type p Hp). simpl. eexists. split; [reflexivity|]. split; [|done]. pose proof (po_queue p Hp). split; simpl; try done.
  - split; [apply mshr_new_ok, (po_entries p Hp)|done].
  - intros q [? Hq]. by rewrite lookup_empty in Hq.
  - split; simpl; try (intros q e Hq; by rewrite lookup_empty in Hq).
    + intros q1 e1 q2 e2 Hq. by rewrite lookup_empty in Hq.
    + intros b [? Hb]. by rewrite lookup_empty in Hb.
    + intros _ b e Hb. by rewrite lookup_empty in Hb.
    + intros _ i b Hh'. by apply (Hno i b MODIFIED).
Qed.
End operations.
