(* ===== verification/GpuCacheRun.v ===== *)
(** * Runs of a GPU cache

    A read-only or data cache together with the simulator around it: requests are
    made, given to the cache, sent to the next level, filled in any order and handed
    back.  The theorems hold in every state such a run reaches. *)

From S2P Require Import Prelude Coalesce GpuMisc AddrDec TagArray Mshr MemFetch GpuCache GpuCacheInv.

(** [cache_t::access] of the class the write policy asks for. *)
Definition cache_access (p : cache_params) : cache → Z → Z → Z → list cache_event →
    outcome (cache_request_status * list cache_event * cache) :=
  if bool_decide (m_write_policy (p_config p) = READ_ONLY) then read_only_access p else data_access p.

(** A run: the cache, the time, the requests that were taken to wait for memory and
    those that were handed back. *)
Record run := mkRun { r_cache : cache; r_now : Z; r_accepted : list Z; r_returned : list Z }.

(** What a caller of [access] sees to. *)
Record call_ok (p : cache_params) (st : run) (addr mf : Z) (r : mem_fetch) (time : Z) : Prop := {
  cl_time : r_now st <= time /\ time_ok time;
  cl_addr : 0 <= addr < 2 ^ 64;
  cl_request : request_ok p (r_cache st) mf r;
  cl_read : m_write_policy (p_config p) = READ_ONLY -> get_is_write r = false;
}.

Inductive cache_step (p : cache_params) (st : run) : run → Prop :=
  | step_access addr mf r time events status events' s' :
      call_ok p st addr mf r time ->
      cache_access p (r_cache st) addr mf time events = Ok (status, events', s') ->
      cache_step p st (mkRun s' time (accepted p (r_cache st) mf r status ++ r_accepted st) (r_returned st))
  | step_fill mf time s' :
      r_now st <= time -> time_ok time -> is_Some (m_extra_mf_fields (r_cache st) !! mf) ->
      cache_fill p (r_cache st) mf time = Ok s' ->
      cache_step p st (mkRun s' time (r_accepted st) (r_returned st))
  | step_next mf s' :
      mshr_access_ready (c_mshrs (r_cache st)) = true -> cache_next_access (r_cache st) = Ok (mf, s') ->
      cache_step p st (mkRun s' (r_now st) (r_accepted st) (mf :: r_returned st))
  | step_cycle full s' :
      cache_cycle full (r_cache st) = Ok s' ->
      cache_step p st (mkRun s' (r_now st) (r_accepted st) (r_returned st))
  | step_flush time s' :
      r_now st <= time -> time_ok time -> m_extra_mf_fields (r_cache st) = ∅ ->
      cache_flush p (r_cache st) time = Ok s' ->
      cache_step p st (mkRun s' time (r_accepted st) (r_returned st))
  (** The rest of the simulator makes, changes and deletes requests. *)
  | step_other h :
      heap_ok h ->
      (forall q, q ∈ m_miss_queue (r_cache st) \/ is_Some (m_extra_mf_fields (r_cache st) !! q) -> live h q) ->
      cache_step p st (mkRun (with_heap (r_cache st) h) (r_now st) (r_accepted st) (r_returned st)).

Inductive reachable (p : cache_params) : run → Prop :=
  | reach_new h aggr s : heap_ok h -> has_bins aggr -> baseline_new p h aggr = Ok s -> reachable p (mkRun s 0 [] [])
  | reach_step st st' : reachable p st -> cache_step p st st' -> reachable p st'.

Section runs.
Context (p : cache_params) (Hp : params_ok p).
Abbreviation c := (p_config p).

Record run_ok (st : run) : Prop := {
  ru_cache : cache_ok p (r_cache st) (r_now st);
  ru_account : r_accepted st ≡ₚ r_returned st ++ waiting (c_mshrs (r_cache st));
}.

Lemma cache_access_spec st addr mf r time events : run_ok st -> call_ok p st addr mf r time ->
  served p (r_cache st) time mf r (cache_access p (r_cache st) addr mf time events).
Proof.
  intros [Hc _] [[Hn Ht] Ha Hr Hro]. unfold cache_access. case_bool_decide as Hw.
  - eapply read_only_access_spec; eauto.
  - eapply data_access_spec; eauto.
Qed.

Lemma step_ok st st' : run_ok st -> cache_step p st st' -> run_ok st'.
Proof.
  intros Hst Hs. pose proof Hst as [Hc Ha]. destruct Hs as [addr mf r time events status events' s' Hcall E|mf time s' Hn Ht Hx E|mf s' Hr E|
    full s' E|time s' Hn Ht Hx E|h Hh Hl]; simpl.
  - destruct (cache_access_spec st addr mf r time events Hst Hcall) as (status2 & ev2 & s2 & E2 & [Hok Hw _]).
    rewrite E in E2. injection E2 as <- <- <-. split; simpl; [done|]. rewrite Hw, Ha. solve_Permutation.
  - destruct (cache_fill_spec p Hp _ _ time mf Hc Hn Ht Hx) as (s2 & b & E2 & Hok & Hf). rewrite E in E2. injection E2 as <-.
    split; simpl; [done|]. by rewrite (fi_waiting _ _ _ _ _ Hf).
  - destruct (cache_next_access_spec p _ _ Hc Hr) as (mf2 & s2 & E2 & Hok & Hw & _). rewrite E in E2. injection E2 as <- <-.
    split; simpl; [done|]. rewrite Ha, Hw. solve_Permutation.
  - destruct (cache_cycle_spec p _ _ full Hc) as (s2 & E2 & Hok & Em & _). rewrite E in E2. injection E2 as <-.
    split; simpl; [done|]. by rewrite Em.
  - destruct (cache_flush_spec p Hp _ _ time Hc Hn Ht Hx) as (s2 & E2 & Hok & Em & _). rewrite E in E2. injection E2 as <-.
    split; simpl; [done|]. by rewrite Em.
  - split; simpl; [|done]. destruct Hc as [_ Ht Hm (Hq & _) Hx Hlk]. split; simpl; try done.
    + split; [done|]. apply Forall_forall. intros q Hq'. apply Hl. by left.
    + intros q Hq'. apply Hl. by right.
Qed.

Lemma reachable_ok st : reachable p st -> run_ok st.
Proof.
  induction 1 as [h aggr s Hh Ha E|st st' _ IH Hs]; [|by eapply step_ok].
  destruct (baseline_new_spec p Hp h aggr Hh Ha) as (s2 & E2 & Hok & Hw & _). rewrite E in E2. injection E2 as <-.
  split; simpl; [done|]. by rewrite Hw.
Qed.
End runs.

(** The assertions at the head of [access]. *)
Lemma cache_access_refuses p s addr mf r time events : params_ok p -> objects (c_heap s) !! mf = Some r ->
  m_line_sz (p_config p) < m_data_size r \/ m_write_policy (p_config p) = READ_ONLY /\ get_is_write r = true ->
  cache_access p s addr mf time events = Err AssertFailed.
Proof.
  intros Hp Hm Hbad. assert (deref (c_heap s) mf = Ok r) as E by (unfold deref; by rewrite Hm).
  pose proof (get_line_sz_ok p Hp) as El. unfold cache_access.
  destruct Hbad as [Hsz%Z.leb_gt|[-> Hw]].
  - by case_bool_decide; unfold read_only_access, data_access; rewrite E; simpl; rewrite El; simpl; rewrite Hsz.
  - rewrite bool_decide_eq_true_2 by done. unfold read_only_access. rewrite E. simpl. rewrite El. simpl.
    rewrite Hw. by destruct (_ <=? _), (bool_decide _).
Qed.

(** C3: Under every write, allocation and replacement policy, with a valid geometry,
    associative MSHRs that can merge, and an address map that decodes 32-bit addresses,
    the operations of a GPU cache meet no failed assertion in any state a run reaches:
    an access at a time that is not before the last and below 2^31 by a live request
    that is not already outstanding, is not larger than a line, does not write to a
    read-only cache, and if atomic is a global read under allocation on a miss; a fill
    of an outstanding request; the next answer when one is ready; a cycle; a flush with
    nothing outstanding. The queue to the next level stays within its configured size.
    Conversely, an access larger than a line, or a write to a read-only cache, stops
    with a failed assertion in every such state; an atomic read under allocation on a
    fill stops too, when its fill arrives, as an example shows. *)
Theorem gpu_cache_never_faults p st :
  params_ok p -> reachable p st ->
  (forall addr mf r time events, call_ok p st addr mf r time -> is_ok (cache_access p (r_cache st) addr mf time events)) /\
  (forall mf time, r_now st <= time -> time_ok time -> is_Some (m_extra_mf_fields (r_cache st) !! mf) ->
     is_ok (cache_fill p (r_cache st) mf time)) /\
  (mshr_access_ready (c_mshrs (r_cache st)) = true -> is_ok (cache_next_access (r_cache st))) /\
  (forall full, is_ok (cache_cycle full (r_cache st))) /\
  (forall time, r_now st <= time -> time_ok time -> m_extra_mf_fields (r_cache st) = ∅ -> is_ok (cache_flush p (r_cache st) time)) /\
  (forall addr mf r time events, objects (c_heap (r_cache st)) !! mf = Some r ->
     m_line_sz (p_config p) < m_data_size r \/ m_write_policy (p_config p) = READ_ONLY /\ get_is_write r = true ->
     cache_access p (r_cache st) addr mf time events = Err AssertFailed) /\
  zlen (m_miss_queue (r_cache st)) <= m_miss_queue_size (p_config p).
Proof.
  intros Hp Hr. pose proof (reachable_ok p Hp st Hr) as Hst. pose proof (ru_cache _ _ Hst) as Hc. split_and!.
  - intros addr mf r time events Hcall.
    destruct (cache_access_spec p Hp st addr mf r time events Hst Hcall) as (? & ? & ? & -> & _). by eexists.
  - intros mf time Hn Ht Hx. destruct (cache_fill_spec p Hp _ _ time mf Hc Hn Ht Hx) as (? & ? & -> & _). by eexists.
  - intros Hrd. destruct (cache_next_access_spec p _ _ Hc Hrd) as (? & ? & -> & _). by eexists.
  - intros full. destruct (cache_cycle_spec p _ _ full Hc) as (? & -> & _). by eexists.
  - intros time Hn Ht Hx. destruct (cache_flush_spec p Hp _ _ time Hc Hn Ht Hx) as (? & -> & _). by eexists.
  - intros addr mf r time events Hm Hbad. by eapply cache_access_refuses.
  - apply (ok_queue _ _ _ Hc).
Qed.

(** [n] calls of [next_access]. *)
Fixpoint cache_drain (n : nat) (s : cache) : outcome (list Z * cache) :=
  match n with
  | O => mret ([], s)
  | S n' => '(mf, s) ← cache_next_access s; '(l, s) ← cache_drain n' s; mret (mf :: l, s)
  end.

Lemma cache_drain_spec n s l m : drain n (c_mshrs s) = Ok (l, m) -> cache_drain n s = Ok (l, with_mshrs s m).
Proof.
  revert s l m. induction n as [|n IH]; intros s l m E; simpl in *.
  { injection E as <- <-. by destruct s. }
  unfold cache_next_access. destruct (mshr_next_access (c_mshrs s)) as [[mf m1]|]; simpl in *; [|done].
  destruct (drain n m1) as [[l1 m2]|] eqn:Ed; simpl in *; [|done]. injection E as <- <-.
  rewrite (IH (with_mshrs s m1) l1 m2) by done. done.
Qed.

(** C4: No request of a GPU cache is lost and none is answered twice: at any time the
    reads that were accepted, and the reads that write misses allocate with, are those
    handed back and those still waiting; and once nothing is outstanding, as many calls
    of next_access as there are requests waiting succeed and hand back exactly those. *)
Theorem every_miss_answered_once p st :
  params_ok p -> reachable p st ->
  r_accepted st ≡ₚ r_returned st ++ waiting (c_mshrs (r_cache st)) /\
  (m_extra_mf_fields (r_cache st) = ∅ ->
   exists l s', cache_drain (length (waiting (c_mshrs (r_cache st)))) (r_cache st) = Ok (l, s') /\
     r_accepted st ≡ₚ r_returned st ++ l /\ waiting (c_mshrs s') = []).
Proof.
  intros Hp Hr. pose proof (reachable_ok p Hp st Hr) as [Hc Ha]. split; [done|]. intros Hx.
  destruct (ok_mshrs _ _ _ Hc) as (Hm & _). destruct (mshr_drain_spec _ Hm) as (m' & Ed & _ & _ & Hd & Hw).
  assert (waiting m' = []) as Hnil.
  { apply waiting_nil. intros b. rewrite Hd. case_bool_decide as Hb; [done|]. apply eq_None_not_Some. intros Hs.
    destruct (li_pending _ _ _ _ (ok_linked _ _ _ Hc) b Hs) as [?|(q & e & Hq & _)]; [done|]. by rewrite Hx, lookup_empty in Hq. }
  rewrite Hnil, app_nil_r in Hw. exists (answers (c_mshrs (r_cache st))), (with_mshrs (r_cache st) m').
  rewrite (Permutation_length Hw). split; [by apply cache_drain_spec|]. split; [by rewrite <- Hw|done].
Qed.

(** C5: A write-back cache that allocates on a miss never drops a modified block:
    whatever the access and whatever it evicts, and whenever a fill arrives, a block
    that was modified before still has a modified line, or a write-back of its whole
    line is in the queue to the next level. *)
Theorem modified_blocks_written_back p st addr mf r time events status events' s' b :
  params_ok p -> m_write_policy (p_config p) = WRITE_BACK -> reachable p st ->
  dirty (r_cache st) b ->
  (call_ok p st addr mf r time -> cache_access p (r_cache st) addr mf time events = Ok (status, events', s') ->
   dirty s' b \/ written_back p s' b) /\
  (m_alloc_policy (p_config p) = ON_MISS -> r_now st <= time -> time_ok time -> is_Some (m_extra_mf_fields (r_cache st) !! mf) ->
   exists s2, cache_fill p (r_cache st) mf time = Ok s2 /\ dirty s2 b).
Proof.
  intros Hp Hw Hr Hd. pose proof (reachable_ok p Hp st Hr) as Hst. split.
  - intros Hcall E. destruct (cache_access_spec p Hp st addr mf r time events Hst Hcall) as (? & ? & ? & E2 & [_ _ Hdirty]).
    rewrite E in E2. injection E2 as <- <- <-. by apply Hdirty.
  - intros Hal Hn Ht Hx. destruct Hx as [e He]. pose proof (ru_cache _ _ Hst) as Hc.
    destruct (cache_fill_spec p Hp _ _ time mf Hc Hn Ht) as (s2 & b' & E & Hok & Hf); [by rewrite He|]. exists s2. split; [done|].
    destruct Hd as [i Hi]. exists i. by apply (fi_modified _ _ _ _ _ Hf).
Qed.

(** * A short run *)

Definition demo_map : translation :=
  match set_masks (translation_new None 0 false) 4 with Ok t => t | Err _ => translation_new None 0 false end.
Definition demo_params (cfg : cache_config) : cache_params := mkParams cfg IN_L1D_MISS_QUEUE demo_map 0 0.

Lemma demo_params_ok cfg : geometry cfg -> m_mshr_type cfg = ASSOC -> 0 <= m_mshr_entries cfg -> 1 <= m_mshr_max_merge cfg ->
  0 <= m_miss_queue_size cfg -> params_ok (demo_params cfg).
Proof.
  intros. split; try done. simpl. intros a Ha. destruct (builtin_ok 0 10 0x300 0x7FFE000 0x1CFF eq_refl) as [Hok _].
  destruct (set_masks_spec 0 false 4 10 0x300 0x7FFE000 0x1CFF eq_refl Hok ltac:(lia)) as (t & E & _ & Hd).
  unfold demo_map. rewrite E. split.
  - destruct (dc_tlx _ _ _ _ _ _ Hd a ltac:(lia)) as [? ->]. by eexists.
  - rewrite (dc_rest _ _ _ _ _ _ Hd a ltac:(lia)). by eexists.
Qed.

Definition demo_request (addr : Z) (wr : bool) : mem_fetch :=
  mkFetch 0 0 0 MEM_FETCH_INITIALIZED 0 (mkAccess (if wr then GLOBAL_ACC_W else GLOBAL_ACC_R) addr 32 wr 1 (Z.ones 32)) 32 8 0
    (mkAddr 0 0 0 0 0) (if wr then WRITE_REQUEST else READ_REQUEST) None.
(** Requests 1 and 2 read block 512, 3 and 4 read two more blocks of its set, 5 writes it. *)
Definition demo_heap : heap :=
  mkHeap (<[1 := demo_request 512 false]> (<[2 := demo_request 544 false]> (<[3 := demo_request 1024 false]>
    (<[4 := demo_request 1536 false]> (<[5 := demo_request 512 true]> (<[6 := demo_request 512 false]> ∅)))))) 10.

Lemma demo_heap_ok : heap_ok demo_heap.
Proof.
  intros q m Hq. simpl in *. repeat (rewrite lookup_insert in Hq; case_decide; [lia|]). by rewrite lookup_empty in Hq.
Qed.

Definition demo_start (p : cache_params) : outcome cache := baseline_new p demo_heap (binned_histogram_new 32).

(** Two reads of one block, then its fill. *)
Definition demo_run (p : cache_params) : outcome run :=
  s0 ← demo_start p;
  '(a1, _, s1) ← cache_access p s0 512 1 5 [];
  '(a2, _, s2) ← cache_access p s1 544 2 6 [];
  s3 ← cache_fill p s2 1 9;
  mret (mkRun s3 9 (accepted p s1 2 (demo_request 544 false) a2 ++ accepted p s0 1 (demo_request 512 false) a1) []).

Abbreviation demo_p := (demo_params demo_cache).

Lemma demo_p_ok : params_ok demo_p.
Proof. by apply demo_params_ok; [apply demo_geometry|..]. Qed.

Lemma demo_call now mf r time addr s acc ret :
  now <= time -> time_ok time -> 0 <= addr < 2 ^ 64 -> objects (c_heap s) !! mf = Some r -> m_extra_mf_fields s !! mf = None ->
  m_data_size r = 32 -> isatomic r = false -> call_ok demo_p (mkRun s now acc ret) addr mf r time.
Proof. intros. split; try done. split; simpl; [done|done|lia|congruence]. Qed.

Lemma demo_run_reachable : exists st, demo_run demo_p = Ok st /\ reachable demo_p st.
Proof.
  unfold demo_run. destruct (demo_start demo_p) as [s0|] eqn:E0; [|by vm_compute in E0]. rewrite bind_of_ok.
  assert (reachable demo_p (mkRun s0 0 [] [])) as R0 by (eapply reach_new; [apply demo_heap_ok|apply has_bins_new|exact E0]).
  vm_compute in E0. injection E0 as E0.
  destruct (cache_access demo_p s0 512 1 5 []) as [[[a1 e1] s1]|] eqn:E1; [|subst s0; by vm_compute in E1]. rewrite bind_of_ok.
  eapply reach_step in R0; [|eapply (step_access demo_p _ 512 1 (demo_request 512 false) 5); [|exact E1]].
  2: { apply demo_call; [lia|unfold time_ok; lia|lia|by subst s0|by subst s0|done|done]. }
  simpl r_cache in R0. rewrite <- E0 in E1. vm_compute in E1. injection E1 as Ea1 Ee1 Es1.
  destruct (cache_access demo_p s1 544 2 6 []) as [[[a2 e2] s2]|] eqn:E2; [|subst s1; by vm_compute in E2]. rewrite bind_of_ok.
  eapply reach_step in R0; [|eapply (step_access demo_p _ 544 2 (demo_request 544 false) 6); [|exact E2]].
  2: { apply demo_call; [lia|unfold time_ok; lia|lia|by subst s1|by subst s1|done|done]. }
  simpl in R0. rewrite <- Es1 in E2. vm_compute in E2. injection E2 as Ea2 Ee2 Es2.
  destruct (cache_fill demo_p s2 1 9) as [s3|] eqn:E3; [|subst s2; by vm_compute in E3]. rewrite bind_of_ok.
  eapply reach_step in R0; [|eapply (step_fill demo_p _ 1 9); [simpl; lia|unfold time_ok; lia|simpl; subst s2; by eexists|exact E3]].
  simpl in R0. rewrite app_nil_r in R0. eexists. split; [reflexivity|exact R0].
Qed.

Definition demo_state : run := Eval vm_compute in
  match demo_run demo_p with
  | Ok st => st
  | Err _ => mkRun (mkCache demo_heap (mkTags [] 0 0 0 (binned_histogram_new 32) (binned_histogram_new 32) (0, 0, 0))
               (mshr_new 0 0) [] ∅ []) 0 [] []
  end.
Lemma demo_state_reachable : demo_run demo_p = Ok demo_state /\ reachable demo_p demo_state.
Proof.
  assert (demo_run demo_p = Ok demo_state) as E by (vm_compute; reflexivity). split; [exact E|].
  destruct demo_run_reachable as (st & E2 & Hr). rewrite E in E2. assert (st = demo_state) as <- by congruence. exact Hr.
Qed.

Lemma gpu_cache_never_faults_witness :
  is_ok (cache_access demo_p (r_cache demo_state) 1024 3 10 []) /\ is_ok (cache_next_access (r_cache demo_state)).
Proof.
  destruct (gpu_cache_never_faults demo_p demo_state demo_p_ok (proj2 demo_state_reachable)) as (Ha & _ & Hn & _). split.
  - apply (Ha 1024 3 (demo_request 1024 false) 10). apply demo_call; [lia|unfold time_ok; lia|lia|by vm_compute..].
  - apply Hn. by vm_compute.
Defined.

Lemma every_miss_answered_once_witness : exists l s', cache_drain 2 (r_cache demo_state) = Ok (l, s') /\ l ≡ₚ [2; 1].
Proof.
  destruct (every_miss_answered_once demo_p demo_state demo_p_ok (proj2 demo_state_reachable)) as [_ Hd].
  destruct Hd as (l & s' & Hdr & Hperm & _); [by vm_compute|].
  exists l, s'. split; [exact Hdr|]. symmetry. exact Hperm.
Defined.

(** A write that hits makes the block modified; a read of another block of the set leaves it so. *)
Definition demo_dirty : cache_request_status * list cache_event * cache := Eval vm_compute in
  match cache_access demo_p (r_cache demo_state) 512 5 10 [] with Ok x => x | Err _ => (MISS, [], r_cache demo_state) end.
Definition demo_dirty_state : run := mkRun demo_dirty.2 10 (r_accepted demo_state) [].

Lemma demo_dirty_reachable : reachable demo_p demo_dirty_state /\ dirty (r_cache demo_dirty_state) 512 /\
  call_ok demo_p demo_dirty_state 1024 3 (demo_request 1024 false) 11.
Proof.
  split_and!.
  - eapply reach_step; [apply demo_state_reachable|].
    apply (step_access demo_p demo_state 512 5 (demo_request 512 true) 10 [] HIT demo_dirty.1.2 demo_dirty.2); [|by vm_compute].
    apply demo_call; [lia|unfold time_ok; lia|lia|by vm_compute..].
  - exists 1. eexists. split; [vm_compute; reflexivity|]. done.
  - apply demo_call; [lia|unfold time_ok; lia|lia|by vm_compute..].
Qed.

Definition demo_after : cache_request_status * list cache_event * cache := Eval vm_compute in
  match cache_access demo_p (r_cache demo_dirty_state) 1024 3 11 [] with Ok x => x | Err _ => (MISS, [], r_cache demo_state) end.

Lemma modified_blocks_written_back_witness : dirty demo_after.2 512 \/ written_back demo_p demo_after.2 512.
Proof.
  destruct demo_dirty_reachable as (Hr & Hd & Hcall).
  destruct (modified_blocks_written_back demo_p demo_dirty_state 1024 3 (demo_request 1024 false) 11 [] demo_after.1.1 demo_after.1.2
    demo_after.2 512 demo_p_ok eq_refl Hr Hd) as [Ha _].
  apply Ha; [exact Hcall|by vm_compute].
Defined.

(** * What the code does not do *)

(** A cache that allocates on the fill drops a modified line without writing it back. *)
Definition fill_cache : cache_config :=
  mkConfig true false 128 7 4 2 1 LRU WRITE_BACK ON_FILL ASSOC WRITE_ALLOCATE 4 2 8 0.
Example fill_drops_modified_line :
  (let p := demo_params fill_cache in
   s ← demo_start p;
   '(_, _, s) ← cache_access p s 512 1 1 []; s ← cache_fill p s 1 2;
   '(_, _, s) ← cache_access p s 512 5 3 [];
   before ← probe fill_cache (c_tags s) 512 no_line;
   '(_, _, s) ← cache_access p s 1024 3 4 []; s ← cache_fill p s 3 5;
   after ← probe fill_cache (c_tags s) 512 no_line;
   mret (before.1, after.1, m_miss_queue s)) = Ok (HIT, MISS, [1; 3]).
Proof. vm_compute. reflexivity. Qed.

(** A block that comes back, is evicted and is read again before its waiting request was
    handed out: the read joins the old entry, so its line stays reserved with nothing
    outstanding that would fill it. *)
Definition one_way : cache_config :=
  mkConfig true false 128 7 4 2 1 LRU WRITE_BACK ON_MISS ASSOC WRITE_ALLOCATE 4 2 8 0.
Example reserved_line_without_request :
  (let p := demo_params one_way in
   s ← demo_start p;
   '(_, _, s) ← cache_access p s 512 1 1 []; s ← cache_fill p s 1 2;
   '(_, _, s) ← cache_access p s 1024 3 3 []; s ← cache_fill p s 3 4;
   '(a, _, s) ← cache_access p s 512 6 5 [];
   '(l, s) ← cache_drain 3 s;
   r ← probe one_way (c_tags s) 512 no_line;
   mret (a, r.1, l, bool_decide (m_extra_mf_fields s = ∅))) = Ok (MISS, HIT_RESERVED, [1; 6; 3], true).
Proof. vm_compute. reflexivity. Qed.

(** The answer to an atomic of a cache that allocates on the fill fails an assertion. *)
Definition demo_atomic : mem_fetch :=
  mkFetch 0 0 0 MEM_FETCH_INITIALIZED 0 (mkAccess GLOBAL_ACC_R 512 32 false 1 (Z.ones 32)) 32 8 0 (mkAddr 0 0 0 0 0) READ_REQUEST
    (Some (mkWarpInst SimtStack.LOAD_OP memory_load global_space 4 false true 1 true [] true [] 0)).
Example atomic_with_fill_allocation_stops :
  (let p := demo_params fill_cache in
   s ← baseline_new p (mkHeap {[1 := demo_atomic]} 10) (binned_histogram_new 32);
   '(_, _, s) ← cache_access p s 512 1 1 []; cache_fill p s 1 2) = Err AssertFailed.
Proof. vm_compute. reflexivity. Qed.
