(* ===== verification/TexFifo.v ===== *)
(** * The ring buffer of the texture cache

    [tex_cache::fifo] of [gpgpu-sim/gpu-cache.h]: a bounded queue in an array with a
    head where entries go in, a tail where they leave and a count.  [fifo_rep] says
    which list of entries a buffer stands for; every operation is the list
    operation, and an entry keeps its index for as long as it is queued. *)

From S2P Require Import Prelude.

Section fifo.
Context {T : Type}.

Record fifo := mkFifo {
  m_head : Z;
  m_tail : Z;
  m_num : Z;
  m_size : Z;
  m_data : list T;
}.
Implicit Types (f : fifo) (e : T).

(** [d] is what the default constructor of an entry makes. *)
Definition fifo_new (d : T) (size : Z) : fifo := mkFifo 0 0 0 size (replicate (Z.to_nat size) d).
Definition fifo_full f : bool := m_num f =? m_size f.
Definition fifo_empty f : bool := m_num f =? 0.
Definition inc_head f : fifo := mkFifo ((m_head f + 1) mod m_size f) (m_tail f) (m_num f + 1) (m_size f) (m_data f).
Definition inc_tail f : outcome fifo :=
  cassert (0 <? m_num f);;
  mret (mkFifo (m_head f) ((m_tail f + 1) mod m_size f) (m_num f - 1) (m_size f) (m_data f)).
(** The result of [push] is the index of the entry. *)
Definition fifo_push f e : outcome (Z * fifo) :=
  cassert (negb (fifo_full f));;
  d ← awrite (m_data f) (m_head f) e;
  mret (m_head f, inc_head (mkFifo (m_head f) (m_tail f) (m_num f) (m_size f) d)).
Definition fifo_pop f : outcome (T * fifo) :=
  cassert (negb (fifo_empty f));;
  e ← aread (m_data f) (m_tail f);
  f ← inc_tail f;
  mret (e, f).
Definition fifo_peek f : outcome T := aread (m_data f) (m_tail f).
Definition fifo_peek_at f (index : Z) : outcome T := cassert (index <? m_size f);; aread (m_data f) index.
(** A change of the entry [peek(index)] refers to. *)
Definition fifo_set_at f (index : Z) e : outcome fifo :=
  cassert (index <? m_size f);;
  d ← awrite (m_data f) index e;
  mret (mkFifo (m_head f) (m_tail f) (m_num f) (m_size f) d).
Definition next_pop_index f : Z := m_tail f.

(** The index of entry [k], counted from the oldest. *)
Definition slot f (k : Z) : Z := (m_tail f + k) mod m_size f.

(** Buffer [f] holds the entries [l], oldest first. *)
Record fifo_rep f (l : list T) : Prop := {
  fr_size : 0 < m_size f;
  fr_data : zlen (m_data f) = m_size f;
  fr_num : m_num f = zlen l /\ zlen l <= m_size f;
  fr_tail : 0 <= m_tail f < m_size f;
  fr_head : m_head f = slot f (zlen l);
  fr_entries : forall k e, zread l k = Some e -> zread (m_data f) (slot f k) = Some e;
}.

Lemma fifo_rep_new d size : 0 < size -> fifo_rep (fifo_new d size) [].
Proof.
  intros Hs. split; simpl; [lia|apply zlen_replicate; lia|unfold zlen; simpl; lia|lia|unfold slot; simpl; by rewrite Z.mod_0_l by lia|].
  intros k e Hk%zread_range. unfold zlen in Hk. simpl in Hk. lia.
Qed.

Lemma slot_range f l k : fifo_rep f l -> 0 <= slot f k < m_size f.
Proof. intros [Hs _ _ _ _ _]. apply Z.mod_pos_bound. done. Qed.

Lemma slot_inj f l j k : fifo_rep f l -> 0 <= j < m_size f -> 0 <= k < m_size f -> slot f j = slot f k -> j = k.
Proof.
  intros [Hs _ _ Ht _ _] Hj Hk E. unfold slot in E.
  rewrite (Z.mod_eq (m_tail f + j)), (Z.mod_eq (m_tail f + k)) in E by lia.
  assert (m_size f * ((m_tail f + j) / m_size f - (m_tail f + k) / m_size f) = j - k) by lia.
  assert ((m_tail f + j) / m_size f - (m_tail f + k) / m_size f = 0) by nia. nia.
Qed.

Lemma slot_succ f k : 0 < m_size f -> (slot f k + 1) mod m_size f = slot f (k + 1).
Proof. intros Hs. unfold slot. rewrite Zplus_mod_idemp_l. f_equal. lia. Qed.

Lemma fifo_full_spec f l : fifo_rep f l -> fifo_full f = (zlen l =? m_size f).
Proof. intros [_ _ [E _] _ _ _]. unfold fifo_full. by rewrite E. Qed.
Lemma fifo_empty_spec f l : fifo_rep f l -> fifo_empty f = (zlen l =? 0).
Proof. intros [_ _ [E _] _ _ _]. unfold fifo_empty. by rewrite E. Qed.

Lemma fifo_push_spec f l e : fifo_rep f l -> fifo_full f = false ->
  exists f', fifo_push f e = Ok (slot f (zlen l), f') /\ fifo_rep f' (l ++ [e]) /\ m_size f' = m_size f /\ m_tail f' = m_tail f.
Proof.
  intros Hf Hfull. pose proof Hf as [Hs Hd [Hn Hle] Ht Hh He]. unfold fifo_push. rewrite Hfull. simpl.
  rewrite (fifo_full_spec f l Hf) in Hfull. apply Z.eqb_neq in Hfull. pose proof (slot_range f l (zlen l) Hf). pose proof (zlen_nonneg l).
  rewrite awrite_in by (rewrite Hd, Hh; lia). simpl. rewrite <- Hh. eexists. split; [reflexivity|]. split; [|done].
  assert (zlen (l ++ [e]) = zlen l + 1) as El by (by rewrite zlen_app).
  split; simpl; try done.
  - by rewrite zlen_zwrite.
  - rewrite El. lia.
  - rewrite El, Hh. exact (slot_succ f (zlen l) Hs).
  - intros k x Hx. pose proof (zread_range _ _ _ Hx) as Hk. rewrite El in Hk. change (slot _ k) with (slot f k).
    rewrite zread_app in Hx. rewrite zread_zwrite by (rewrite Hd, Hh; lia). destruct (Z.ltb_spec k (zlen l)).
    + destruct (Z.eqb_spec (m_head f) (slot f k)) as [E|]; [|by apply He]. rewrite Hh in E.
      apply (slot_inj f l) in E; [lia|done|lia|lia].
    + assert (k = zlen l) as -> by lia. rewrite Hh, Z.eqb_refl, Z.sub_diag in *. exact Hx.
Qed.

Lemma fifo_pop_spec f e l : fifo_rep f (e :: l) ->
  exists f', fifo_pop f = Ok (e, f') /\ fifo_rep f' l /\ m_size f' = m_size f /\ (forall k, slot f' k = slot f (k + 1)).
Proof.
  intros Hf. pose proof Hf as [Hs Hd [Hn Hle] Ht Hh He]. unfold fifo_pop. rewrite (fifo_empty_spec f _ Hf).
  assert (zlen (e :: l) = zlen l + 1) as El by (unfold zlen; simpl; lia). pose proof (zlen_nonneg l).
  rewrite El, (proj2 (Z.eqb_neq (zlen l + 1) 0)) by lia. simpl.
  assert (slot f 0 = m_tail f) as E0 by (unfold slot; rewrite Z.add_0_r; by apply Z.mod_small).
  rewrite (proj2 (aread_ok _ _ _) (eq_trans (f_equal _ (eq_sym E0)) (He 0 e eq_refl))). simpl.
  unfold inc_tail. rewrite (proj2 (Z.ltb_lt 0 (m_num f))) by lia. simpl. eexists. split; [reflexivity|].
  assert (forall k, ((m_tail f + 1) mod m_size f + k) mod m_size f = slot f (k + 1)) as Hk.
  { intros k. unfold slot. rewrite Zplus_mod_idemp_l. f_equal. lia. }
  split; [|split; [done|exact Hk]]. split; simpl; try done.
  - lia.
  - apply Z.mod_pos_bound. lia.
  - unfold slot. simpl. by rewrite Hk, Hh, El.
  - intros k x Hx. unfold slot. simpl. rewrite Hk. apply He. rewrite zread_cons. pose proof (zread_range _ _ _ Hx).
    rewrite (proj2 (Z.eqb_neq (k + 1) 0)) by lia. by replace (k + 1 - 1) with k by lia.
Qed.

Lemma fifo_peek_spec f e l : fifo_rep f (e :: l) -> fifo_peek f = Ok e.
Proof.
  intros [Hs Hd _ Ht _ He]. unfold fifo_peek. apply aread_ok. rewrite <- (He 0 e eq_refl). f_equal.
  unfold slot. rewrite Z.add_0_r. symmetry. by apply Z.mod_small.
Qed.

Lemma fifo_peek_at_spec f l k e : fifo_rep f l -> zread l k = Some e -> fifo_peek_at f (slot f k) = Ok e.
Proof.
  intros Hf Hk. unfold fifo_peek_at. pose proof (slot_range f l k Hf). rewrite (proj2 (Z.ltb_lt _ _)) by lia. simpl.
  apply aread_ok. by apply (fr_entries _ _ Hf).
Qed.

Lemma fifo_set_at_spec f l k e : fifo_rep f l -> 0 <= k < zlen l ->
  exists f', fifo_set_at f (slot f k) e = Ok f' /\ fifo_rep f' (zwrite l k e) /\ m_size f' = m_size f /\ m_tail f' = m_tail f.
Proof.
  intros Hf Hk. pose proof Hf as [Hs Hd [Hn Hle] Ht Hh He]. pose proof (slot_range f l k Hf). unfold fifo_set_at.
  rewrite (proj2 (Z.ltb_lt _ _)) by lia. simpl. rewrite awrite_in by lia. simpl. eexists. split; [reflexivity|]. split; [|done].
  split; simpl; rewrite ?zlen_zwrite; try done.
  intros j x Hx. change (slot _ j) with (slot f j). pose proof (zread_range _ _ _ Hx) as Hj. rewrite zlen_zwrite in Hj.
  rewrite zread_zwrite in Hx by done. rewrite zread_zwrite by lia. destruct (Z.eqb_spec k j) as [->|].
  - by rewrite Z.eqb_refl.
  - rewrite (proj2 (Z.eqb_neq _ _)); [by apply He|]. intros E. apply (slot_inj f l) in E; [done|done|lia|lia].
Qed.

(** The list a buffer stands for. *)
Definition fifo_list f : list T := omap (fun k => zread (m_data f) (slot f k)) (seqZ 0 (m_num f)).

Lemma omap_all {A B} (h : A → option B) l k : Forall2 (fun a b => h a = Some b) l k -> omap h l = k.
Proof. induction 1 as [|a b l k E _ IH]; [done|]. simpl. rewrite E. f_equal. exact IH. Qed.

Lemma fifo_list_spec f l : fifo_rep f l -> fifo_list f = l.
Proof.
  intros [_ _ [Hn _] _ _ He]. unfold fifo_list. apply omap_all, Forall2_same_length_lookup_2.
  - rewrite length_seqZ, Hn. unfold zlen. lia.
  - intros i k e Hk Hi. apply lookup_seqZ in Hk as [-> Hlt]. apply He. rewrite Z.add_0_l, zread_of_nat. done.
Qed.
End fifo.
Arguments fifo : clear implicits.
