(* ===== verification/TexCache.v ===== *)
(** * The texture cache

    [tex_cache] of [gpgpu-sim/gpu-cache.{h,cc}], after Igehy et al.: an access updates
    the tags at once and enters the fragment FIFO; a miss also takes an entry of the
    reorder buffer and sends a request.  [cycle] takes fragments out in order: a miss
    waits at the head until its block is back and then installs it, a hit finds its
    block installed by an older miss.

    The theorems show that the assertions of [cycle] and [fill] hold, and that
    textures come back in the order in which they were asked for. *)

From S2P Require Import Prelude Coalesce GpuMisc AddrDec TagArray MemFetch TexFifo.

Record fragment_entry := mkFragment {
  fe_request : Z;
  fe_cache_index : Z;
  fe_miss : bool;
  fe_data_size : Z;
}.
Record rob_entry := mkRob {
  rb_ready : bool;
  rb_time : Z;
  rb_index : Z;
  rb_request : Z;
  rb_block_addr : Z;
}.
Record data_block := mkData { db_valid : bool; db_block_addr : Z }.

Record tex_cache := mkTex {
  x_heap : heap;
  x_tags : tag_array;
  m_fragment_fifo : fifo fragment_entry;
  m_request_fifo : fifo Z;
  m_rob : fifo rob_entry;
  m_cache : list data_block;
  m_result_fifo : fifo Z;
  m_rob_index : gmap Z Z;  (** [m_extra_mf_fields] *)
  x_port : list Z;         (** what was pushed to the next level *)
}.

Record tex_params := mkTexParams {
  tp_config : cache_config;
  m_request_queue_status : mem_fetch_status;
  m_rob_status : mem_fetch_status;
}.

Section texture.
Context (p : tex_params).
Let c : cache_config := tp_config p.

(** A new entry holds a null request. *)
Definition tex_cache_new (h : heap) (aggr : binned_histogram) : outcome tex_cache :=
  t ← tag_array_new c aggr;
  cassert (bool_decide (m_mshr_type c = TEX_FIFO));;
  cassert (bool_decide (m_write_policy c = READ_ONLY));;
  cassert (bool_decide (m_alloc_policy c = ON_MISS));;
  n ← get_num_lines c;
  mret (mkTex h t (fifo_new (mkFragment 0 0 false 0) (m_mshr_entries c)) (fifo_new 0 (m_mshr_max_merge c))
          (fifo_new (mkRob false 0 0 0 0) (m_miss_queue_size c)) (replicate (Z.to_nat n) (mkData false 0))
          (fifo_new 0 (m_result_fifo_entries c)) ∅ []).

Definition tex_access (s : tex_cache) (addr mf time : Z) : outcome (cache_request_status * tex_cache) :=
  if fifo_full (m_fragment_fifo s) || fifo_full (m_request_fifo s) || fifo_full (m_rob s)
  then mret (RESERVATION_FAIL, s) else
  r ← deref (x_heap s) mf;
  sz ← get_line_sz c;
  cassert (m_data_size r <=? sz);;
  let b := block_addr c addr in
  '(status, idx, t) ← access_clean c (x_tags s) b time no_line;
  cassert (negb (bool_decide (status = RESERVATION_FAIL)));;
  cassert (negb (bool_decide (status = HIT_RESERVED)));;
  let miss := bool_decide (status = MISS) in
  '(_, frag) ← fifo_push (m_fragment_fifo s) (mkFragment mf idx miss (m_data_size r));
  if miss then
    '(i, rob) ← fifo_push (m_rob s) (mkRob false 0 idx mf b);
    h ← update (x_heap s) mf (fun r => set_mf_status (set_data_size r sz) (m_request_queue_status p) time);
    t ← fill_index c t idx time;
    '(_, req) ← fifo_push (m_request_fifo s) mf;
    mret (MISS, mkTex h t frag req rob (m_cache s) (m_result_fifo s) (<[mf := i]> (m_rob_index s)) (x_port s))
  else mret (HIT_RESERVED, mkTex (x_heap s) t frag (m_request_fifo s) (m_rob s) (m_cache s) (m_result_fifo s) (m_rob_index s) (x_port s)).

(** The first part of [cycle]: the oldest request goes to the next level. *)
Definition send_request (port_full : Z → bool → bool) (s : tex_cache) : outcome tex_cache :=
  if fifo_empty (m_request_fifo s) then mret s else
  mf ← fifo_peek (m_request_fifo s);
  r ← deref (x_heap s) mf;
  if port_full (m_ctrl_size r) false then mret s else
  '(_, req) ← fifo_pop (m_request_fifo s);
  mret (mkTex (x_heap s) (x_tags s) (m_fragment_fifo s) req (m_rob s) (m_cache s) (m_result_fifo s) (m_rob_index s) (x_port s ++ [mf])).

(** The head of the fragment FIFO leaves, with its request as a result. *)
Definition retire (s : tex_cache) (rob : fifo rob_entry) (cache : list data_block) (mf : Z) : outcome tex_cache :=
  '(_, res) ← fifo_push (m_result_fifo s) mf;
  '(_, frag) ← fifo_pop (m_fragment_fifo s);
  mret (mkTex (x_heap s) (x_tags s) frag (m_request_fifo s) rob cache res (m_rob_index s) (x_port s)).

Definition read_line (s : tex_cache) : outcome tex_cache :=
  if fifo_empty (m_fragment_fifo s) || fifo_full (m_result_fifo s) then mret s else
  e ← fifo_peek (m_fragment_fifo s);
  q ← deref (x_heap s) (fe_request e);
  if fe_miss e then
    r ← fifo_peek_at (m_rob s) (next_pop_index (m_rob s));
    cassert (rb_request r =? fe_request e);;
    cassert (rb_block_addr r =? block_addr c (get_addr q));;
    if rb_ready r then
      cassert (rb_index r =? fe_cache_index e);;
      cache ← awrite (m_cache s) (rb_index r) (mkData true (rb_block_addr r));
      '(_, rob) ← fifo_pop (m_rob s);
      retire s rob cache (fe_request e)
    else mret s
  else
    d ← aread (m_cache s) (fe_cache_index e);
    cassert (db_valid d);;
    (** [assert( m_cache[..].m_block_addr = ... )]: an assignment, true when not 0. *)
    cache ← awrite (m_cache s) (fe_cache_index e) (mkData (db_valid d) (block_addr c (get_addr q)));
    cassert (negb (block_addr c (get_addr q) =? 0));;
    retire s (m_rob s) cache (fe_request e).

Definition tex_cycle (port_full : Z → bool → bool) (s : tex_cache) : outcome tex_cache :=
  s ← send_request port_full s; read_line s.

Definition tex_fill (s : tex_cache) (mf time : Z) : outcome tex_cache :=
  match m_rob_index s !! mf with
  | None => Err AssertFailed
  | Some i =>
      cassert (negb (fifo_empty (m_rob s)));;
      h ← update (x_heap s) mf (fun r => set_mf_status r (m_rob_status p) time);
      r ← fifo_peek_at (m_rob s) i;
      cassert (negb (rb_ready r));;
      rob ← fifo_set_at (m_rob s) i (mkRob true time (rb_index r) (rb_request r) (rb_block_addr r));
      q ← deref h mf;
      cassert (rb_block_addr r =? block_addr c (get_addr q));;
      mret (mkTex h (x_tags s) (m_fragment_fifo s) (m_request_fifo s) rob (m_cache s) (m_result_fifo s) (m_rob_index s) (x_port s))
  end.

Definition tex_access_ready (s : tex_cache) : bool := negb (fifo_empty (m_result_fifo s)).
Definition tex_next_access (s : tex_cache) : outcome (Z * tex_cache) :=
  '(mf, res) ← fifo_pop (m_result_fifo s);
  mret (mf, mkTex (x_heap s) (x_tags s) (m_fragment_fifo s) (m_request_fifo s) (m_rob s) (m_cache s) res (m_rob_index s) (x_port s)).
End texture.

(** * The invariant *)

(** The queues as lists: fragments, requests, reorder buffer and results. *)
Record tex_lists := mkLists {
  l_frags : list fragment_entry;
  l_requests : list Z;
  l_rob : list rob_entry;
  l_results : list Z;
}.

(** The block of a line as it will be once the fragments [fs] have left: [m] is what
    the data array holds now; [block_of] gives the block of a request. *)
Fixpoint content (block_of : Z → Z) (m : list data_block) (fs : list fragment_entry) (i : Z) : option Z :=
  match fs with
  | [] => match zread m i with Some d => if db_valid d then Some (db_block_addr d) else None | None => None end
  | f :: fs' =>
      if fe_miss f then content block_of (zwrite m (fe_cache_index f) (mkData true (block_of (fe_request f)))) fs' i
      else content block_of m fs' i
  end.

(** Every hit finds its block when its turn comes. *)
Fixpoint hits_ok (block_of : Z → Z) (m : list data_block) (fs : list fragment_entry) : Prop :=
  match fs with
  | [] => True
  | f :: fs' =>
      if fe_miss f then hits_ok block_of (zwrite m (fe_cache_index f) (mkData true (block_of (fe_request f)))) fs'
      else content block_of m [] (fe_cache_index f) = Some (block_of (fe_request f)) /\
           block_of (fe_request f) <> 0 /\ hits_ok block_of m fs'
  end.

(** The entries of the reorder buffer are the misses among the fragments, in order. *)
Definition same_misses (block_of : Z → Z) (fs : list fragment_entry) (rob : list rob_entry) : Prop :=
  Forall2 (fun f r => rb_request r = fe_request f /\ rb_index r = fe_cache_index f /\ rb_block_addr r = block_of (fe_request f))
    (filter (fun f => fe_miss f) fs) rob.

Record tex_params_ok (p : tex_params) : Prop := {
  tpo_geometry : geometry (tp_config p);
  tpo_type : m_mshr_type (tp_config p) = TEX_FIFO;
  tpo_write : m_write_policy (tp_config p) = READ_ONLY;
  tpo_alloc : m_alloc_policy (tp_config p) = ON_MISS;
  tpo_sizes : 0 < m_mshr_entries (tp_config p) /\ 0 < m_mshr_max_merge (tp_config p) /\
    0 < m_miss_queue_size (tp_config p) /\ 0 < m_result_fifo_entries (tp_config p);
}.

(** [block_of] is the block of the address of each request in flight. *)
Record tex_ok (p : tex_params) (block_of : Z → Z) (s : tex_cache) (l : tex_lists) (now : Z) : Prop := {
  tx_heap : heap_ok (x_heap s);
  tx_tags : tags_ok (tp_config p) (x_tags s) now;
  tx_valid : forall i b st, holds (x_tags s) i b st -> st = VALID;
  tx_frags : fifo_rep (m_fragment_fifo s) (l_frags l);
  tx_requests : fifo_rep (m_request_fifo s) (l_requests l);
  tx_rob : fifo_rep (m_rob s) (l_rob l);
  tx_results : fifo_rep (m_result_fifo s) (l_results l);
  tx_cache : zlen (m_cache s) = m_nset (tp_config p) * m_assoc (tp_config p);
  tx_live : forall f, f ∈ l_frags l -> exists r, objects (x_heap s) !! fe_request f = Some r /\
    block_addr (tp_config p) (get_addr r) = block_of (fe_request f) /\ 0 <= fe_cache_index f < zlen (m_cache s);
  tx_sent : forall q, q ∈ l_requests l -> live (x_heap s) q;
  tx_misses : same_misses block_of (l_frags l) (l_rob l);
  tx_index : forall k r, zread (l_rob l) k = Some r -> m_rob_index s !! rb_request r = Some (slot (m_rob s) k);
  tx_distinct : NoDup (map fe_request (l_frags l));
  tx_hits : hits_ok block_of (m_cache s) (l_frags l);
  tx_content : forall i b st, holds (x_tags s) i b st -> content block_of (m_cache s) (l_frags l) i = Some b;
}.

(** * Fragments and contents *)

Section contents.
Implicit Types (m : list data_block) (fs : list fragment_entry) (f : fragment_entry).

Lemma content_ext g h m fs i : (forall f, f ∈ fs -> g (fe_request f) = h (fe_request f)) -> content g m fs i = content h m fs i.
Proof.
  revert m. induction fs as [|f fs IH]; intros m H; simpl; [done|].
  rewrite (H f) by left. rewrite !IH by (intros; apply H; by right). done.
Qed.

Lemma hits_ext g h m fs : (forall f, f ∈ fs -> g (fe_request f) = h (fe_request f)) -> hits_ok g m fs -> hits_ok h m fs.
Proof.
  revert m. induction fs as [|f fs IH]; intros m H; simpl; [done|].
  rewrite (H f) by left. assert (forall f', f' ∈ fs -> g (fe_request f') = h (fe_request f')) as H' by (intros; apply H; by right).
  destruct (fe_miss f); [by apply IH|]. intros (? & ? & ?). split_and!; [done|done|by apply IH].
Qed.

Lemma content_snoc g m fs f i : 0 <= fe_cache_index f < zlen m ->
  content g m (fs ++ [f]) i =
    if fe_miss f && (fe_cache_index f =? i) then Some (g (fe_request f)) else content g m fs i.
Proof.
  revert m. induction fs as [|f' fs IH]; intros m Hf; simpl.
  - destruct (fe_miss f); simpl; [|done]. rewrite zread_zwrite by done. by destruct (_ =? i).
  - destruct (fe_miss f'); apply IH; by rewrite ?zlen_zwrite.
Qed.

Lemma hits_snoc g m fs f : 0 <= fe_cache_index f < zlen m -> hits_ok g m fs ->
  (fe_miss f = false -> content g m fs (fe_cache_index f) = Some (g (fe_request f)) /\ g (fe_request f) <> 0) ->
  hits_ok g m (fs ++ [f]).
Proof.
  revert m. induction fs as [|f' fs IH]; intros m Hf Hh Hc; simpl in *.
  - destruct (fe_miss f); [done|]. by destruct (Hc eq_refl).
  - destruct (fe_miss f'); [apply IH; by rewrite ?zlen_zwrite|]. destruct Hh as (? & ? & ?). split_and!; [done|done|by apply IH].
Qed.

Lemma misses_ext g h fs rob : (forall f, f ∈ fs -> g (fe_request f) = h (fe_request f)) -> same_misses g fs rob -> same_misses h fs rob.
Proof.
  intros H Hs. unfold same_misses in *. assert (Forall (fun f => g (fe_request f) = h (fe_request f)) (filter (fun f => fe_miss f) fs)) as Hf.
  { apply Forall_forall. intros f [_ Hf]%list_elem_of_filter. by apply H. }
  revert Hf. induction Hs as [|f r fs' rob' (? & ? & ?) _ IH]; intros Hf; [constructor|]. apply Forall_cons in Hf as [E Hf].
  constructor; [split_and!; congruence|by apply IH].
Qed.

Lemma misses_snoc g fs rob f r : same_misses g fs rob -> fe_miss f = true ->
  rb_request r = fe_request f -> rb_index r = fe_cache_index f -> rb_block_addr r = g (fe_request f) ->
  same_misses g (fs ++ [f]) (rob ++ [r]).
Proof.
  intros Hs Hm E1 E2 E3. unfold same_misses. rewrite filter_app, filter_cons_True, filter_nil by (by rewrite Hm).
  apply Forall2_app; [done|]. by constructor; [|constructor].
Qed.

Lemma misses_snoc_hit g fs rob f : same_misses g fs rob -> fe_miss f = false -> same_misses g (fs ++ [f]) rob.
Proof.
  intros Hs Hm. unfold same_misses. rewrite filter_app, filter_cons_False, filter_nil, app_nil_r; [done|]. rewrite Hm. by intros ?.
Qed.

(** Each entry of the reorder buffer belongs to a fragment. *)
Lemma misses_request g fs rob k r : same_misses g fs rob -> zread rob k = Some r ->
  exists f, f ∈ fs /\ fe_miss f = true /\ rb_request r = fe_request f /\ rb_index r = fe_cache_index f /\ rb_block_addr r = g (fe_request f).
Proof.
  intros Hs Hk. pose proof (zread_range _ _ _ Hk). rewrite zread_lookup in Hk by lia.
  destruct (Forall2_lookup_r _ _ _ _ _ Hs Hk) as (f & Hf & ? & ? & ?).
  apply list_elem_of_lookup_2, list_elem_of_filter in Hf as [Hm Hf]. exists f. split_and!; try done. by apply Is_true_true.
Qed.

(** Marking an entry ready changes none of this. *)
Lemma misses_ready g fs rob k r r' : same_misses g fs rob -> zread rob k = Some r ->
  rb_request r' = rb_request r -> rb_index r' = rb_index r -> rb_block_addr r' = rb_block_addr r ->
  same_misses g fs (zwrite rob k r').
Proof.
  intros Hs Hk E1 E2 E3. pose proof (zread_range _ _ _ Hk). unfold zwrite. rewrite (proj2 (Z.leb_le 0 k)) by lia.
  rewrite zread_lookup in Hk by lia. unfold same_misses in *.
  destruct (Forall2_lookup_r _ _ _ _ _ Hs Hk) as (f & Hf & H1 & H2 & H3).
  rewrite <- (list_insert_id (filter (fun f => fe_miss f) fs) (Z.to_nat k) f Hf).
  apply Forall2_insert; [done|]. split_and!; congruence.
Qed.
End contents.

(** * The operations keep the invariant *)

Section operations.
Context (p : tex_params) (Hp : tex_params_ok p).
Abbreviation c := (tp_config p).
Let Hg : geometry c := tpo_geometry p Hp.

(** The tags of a texture cache always answer hit or miss. *)
Lemma tex_tags_access t now b time : tags_ok c t now -> now <= time -> time_ok time -> is_block c b ->
  (forall i b st, holds t i b st -> st = VALID) ->
  exists status i t1, access_clean c t b time no_line = Ok (status, i, t1) /\
    0 <= i < m_nset c * m_assoc c /\
    (status = HIT /\ tags_ok c t1 time /\ unchanged t t1 /\ holds t i b VALID \/
     status = MISS /\ exists t2, fill_index c t1 i time = Ok t2 /\ tags_ok c t2 time /\ replaced t t2 i b VALID).
Proof.
  intros Ht Hn Htime Hb Hv. destruct (access_spec c Hg t now b time no_line Ht Hn Htime Hb) as (status & i & ev & t1 & E & Hpr & Ht1 & Hacc).
  rewrite <- (to_size _ _ _ Ht). exists status, i, t1. unfold access_clean. rewrite E. simpl.
  destruct Hpr as [i line Hres Hst|i line Hres Hst|i line Hab Hz Hset Hst _|Hab _ Hall].
  - destruct Hacc as [-> Hu]. pose proof Hres as [Hz Hh]%holds_resident. pose proof (zread_range _ _ _ Hz).
    rewrite (Hv _ _ _ Hh) in Hh. split; [done|]. split; [done|]. by left.
  - apply holds_resident in Hres as [_ Hh]. apply Hv in Hh. congruence.
  - unfold accessed in Hacc. rewrite (tpo_alloc p Hp) in Hacc. simpl in Hacc. destruct Hacc as [Hr Hev].
    rewrite (Hev line Hz). rewrite (bool_decide_eq_false_2 (m_status line = MODIFIED)).
    2: { intros Hmod. assert (holds t i (m_block_addr line) (m_status line)) as Hh by (exists line; by rewrite Hmod). apply Hv in Hh. congruence. }
    simpl. pose proof (zread_range _ _ _ Hz). split; [done|]. split; [done|]. right. split; [done|].
    destruct (fill_index_spec c t1 time time i b Ht1 ltac:(lia) (tpo_alloc p Hp)) as (t2 & -> & Ht2 & Hr2).
    { apply Hr. by rewrite Z.eqb_refl. }
    exists t2. split_and!; try done. intros j b' s'. rewrite (Hr2 j b' s'). destruct (Z.eqb_spec j i) as [->|Hne]; [done|].
    rewrite (Hr j b' s'). by rewrite (proj2 (Z.eqb_neq j i)).
  - exfalso. destruct Hb as [Hb _]. destruct (set_fits c Hg t now b Ht ltac:(lia)) as [Hf1 Hf2]. pose proof (ge_assoc _ Hg).
    destruct (zread_is_some (m_lines t) (set_index c b * m_assoc c)) as [l Hl]; [lia|].
    assert (m_status l = RESERVED) as Hst by (apply (Hall _ l Hl); by rewrite Z.div_mul by lia).
    assert (holds t (set_index c b * m_assoc c) (m_block_addr l) (m_status l)) as Hh by (exists l; by rewrite Hst). apply Hv in Hh. congruence.
Qed.

(** What the caller of [access] sees to: the request is not in flight, carries the address
    that is accessed, and that is not in the block at address 0. *)
Record tex_call_ok (s : tex_cache) (l : tex_lists) (now addr mf time : Z) (r : mem_fetch) : Prop := {
  tc_time : now <= time /\ time_ok time;
  tc_addr : 0 <= addr < 2 ^ 64 /\ block_addr c addr <> 0;
  tc_request : objects (x_heap s) !! mf = Some r;
  tc_block : block_addr c (get_addr r) = block_addr c addr;
  tc_size : m_data_size r <= m_line_sz c;
  tc_fresh : mf ∉ map fe_request (l_frags l);
}.

Definition new_block (g : Z → Z) (mf b : Z) : Z → Z := fun q => if q =? mf then b else g q.

Lemma new_block_frags g mf b fs : mf ∉ map fe_request fs ->
  forall f, f ∈ fs -> g (fe_request f) = new_block g mf b (fe_request f).
Proof.
  intros Hn f Hf. unfold new_block. rewrite (proj2 (Z.eqb_neq _ mf)); [done|]. intros E. apply Hn.
  rewrite <- E. apply list_elem_of_fmap. by exists f.
Qed.

Section access.
Context (g : Z → Z) (s : tex_cache) (l : tex_lists) (now addr mf time : Z) (r : mem_fetch).
Context (Hs : tex_ok p g s l now) (Hcall : tex_call_ok s l now addr mf time r).
Abbreviation b := (block_addr c addr).

(** The fragment of a hit joins the queue. *)
Lemma tex_hit_ok i t1 frag d : tags_ok c t1 time -> unchanged (x_tags s) t1 -> holds (x_tags s) i b VALID -> 0 <= i < zlen (m_cache s) ->
  fifo_rep frag (l_frags l ++ [mkFragment mf i false d]) ->
  tex_ok p (new_block g mf b)
    (mkTex (x_heap s) t1 frag (m_request_fifo s) (m_rob s) (m_cache s) (m_result_fifo s) (m_rob_index s) (x_port s))
    (mkLists (l_frags l ++ [mkFragment mf i false d]) (l_requests l) (l_rob l) (l_results l)) time.
Proof.
  intros Ht1 Hu Hh Hi Hfr. destruct Hs as [Hhp Ht Hv Hf Hq Hr Hres Hc Hl Hsn Hm Hx Hd Hhit Hcon].
  pose proof (new_block_frags g mf b _ (tc_fresh _ _ _ _ _ _ _ Hcall)) as Hext.
  assert (new_block g mf b mf = b) as Hnb by (unfold new_block; by rewrite Z.eqb_refl).
  split; simpl; try done.
  - intros j b' st Hj. apply Hu in Hj. by eapply Hv.
  - intros f [Hf'| ->%list_elem_of_singleton]%elem_of_app.
    + destruct (Hl f Hf') as (r' & ? & ? & ?). exists r'. by rewrite <- (Hext f Hf').
    + exists r. simpl. rewrite Hnb. split_and!; try lia; [apply Hcall|apply Hcall].
  - apply misses_snoc_hit; [|done]. by eapply misses_ext.
  - rewrite map_app. simpl. apply NoDup_app. split; [done|]. split; [|apply NoDup_singleton].
    intros x Hx' ->%list_elem_of_singleton. by apply (tc_fresh _ _ _ _ _ _ _ Hcall).
  - apply hits_snoc; [done|by eapply hits_ext|]. intros _. simpl. rewrite Hnb. split; [|apply Hcall].
    rewrite <- (content_ext g) by done. by apply (Hcon i b VALID).
  - intros j b' st Hj. rewrite content_snoc by done. simpl. rewrite <- (content_ext g) by done. apply (Hcon j b' st). by apply Hu.
Qed.

(** A miss joins both queues, and its line is valid from now on. *)
Lemma tex_miss_ok i t2 frag req rob h d :
  tags_ok c t2 time -> replaced (x_tags s) t2 i b VALID -> 0 <= i < zlen (m_cache s) ->
  fifo_rep frag (l_frags l ++ [mkFragment mf i true d]) -> fifo_rep req (l_requests l ++ [mf]) ->
  fifo_rep rob (l_rob l ++ [mkRob false 0 i mf b]) -> m_tail rob = m_tail (m_rob s) -> m_size rob = m_size (m_rob s) ->
  heap_ok h -> (forall q, live h q <-> live (x_heap s) q) ->
  (forall q r, objects (x_heap s) !! q = Some r -> exists r', objects h !! q = Some r' /\ get_addr r' = get_addr r) ->
  tex_ok p (new_block g mf b)
    (mkTex h t2 frag req rob (m_cache s) (m_result_fifo s) (<[mf := slot (m_rob s) (zlen (l_rob l))]> (m_rob_index s)) (x_port s))
    (mkLists (l_frags l ++ [mkFragment mf i true d]) (l_requests l ++ [mf]) (l_rob l ++ [mkRob false 0 i mf b]) (l_results l)) time.
Proof.
  intros Ht2 Hrep Hi Hfr Hrq Hrb Etail Esize Hh Hlv Hsame. destruct Hs as [Hhp Ht Hv Hf Hq Hr Hres Hc Hl Hsn Hm Hx Hd Hhit Hcon].
  pose proof (new_block_frags g mf b _ (tc_fresh _ _ _ _ _ _ _ Hcall)) as Hext.
  assert (new_block g mf b mf = b) as Hnb by (unfold new_block; by rewrite Z.eqb_refl).
  assert (forall k, slot rob k = slot (m_rob s) k) as Hslot by (intros; unfold slot; by rewrite Etail, Esize).
  split; simpl; try done.
  - intros j b' st Hj%Hrep. destruct (Z.eqb_spec j i); [by destruct Hj as (_ & -> & _)|by eapply Hv].
  - intros f [Hf'| ->%list_elem_of_singleton]%elem_of_app.
    + destruct (Hl f Hf') as (r0 & Ho & Hb' & ?). destruct (Hsame _ _ Ho) as (r' & ? & Ea). exists r'. rewrite <- (Hext f Hf'), Ea. done.
    + destruct (Hsame mf r (tc_request _ _ _ _ _ _ _ Hcall)) as (r' & ? & Ea). exists r'. simpl. rewrite Hnb, Ea. split_and!; try lia; [done|apply Hcall].
  - intros q [Hq'| ->%list_elem_of_singleton]%elem_of_app; apply Hlv; [by apply Hsn|]. exists r. apply Hcall.
  - apply misses_snoc; simpl; try done. by eapply misses_ext.
  - intros k x Hk. rewrite Hslot. rewrite zread_app in Hk. destruct (Z.ltb_spec k (zlen (l_rob l))).
    + rewrite lookup_insert_ne; [by apply Hx|]. intros Emf. destruct (misses_request _ _ _ _ _ Hm Hk) as (f & Hf' & _ & Ef & _).
      apply (tc_fresh _ _ _ _ _ _ _ Hcall). rewrite Emf, Ef. apply list_elem_of_fmap. by exists f.
    + pose proof (zread_range _ _ _ Hk) as Hk'. change (zlen [mkRob false 0 i mf b]) with 1 in Hk'. assert (k = zlen (l_rob l)) as -> by lia.
      rewrite Z.sub_diag in Hk. injection Hk as <-. simpl. apply lookup_insert_eq.
  - rewrite map_app. simpl. apply NoDup_app. split; [done|]. split; [|apply NoDup_singleton].
    intros x Hx' ->%list_elem_of_singleton. by apply (tc_fresh _ _ _ _ _ _ _ Hcall).
  - apply hits_snoc; [done|by eapply hits_ext|done].
  - intros j b' st Hj%Hrep. rewrite content_snoc by done. simpl. rewrite <- (content_ext g) by done. rewrite Hnb.
    destruct (Z.eqb_spec j i) as [->|Hne].
    + rewrite Z.eqb_refl. by destruct Hj as (-> & _ & _).
    + rewrite (proj2 (Z.eqb_neq i j)) by done. by apply (Hcon j b' st).
Qed.

(** An access either finds a queue full or takes the request, as the last fragment. *)
Lemma tex_access_spec :
  exists status s' l' g', tex_access p s addr mf time = Ok (status, s') /\ tex_ok p g' s' l' time /\
    l_results l' = l_results l /\
    (status = RESERVATION_FAIL /\ s' = s /\ l' = l \/
     (status = HIT_RESERVED \/ status = MISS) /\ map fe_request (l_frags l') = map fe_request (l_frags l) ++ [mf]).
Proof.
  pose proof Hcall as [[Hn Htime] [Ha Hb0] Hmf Hbl Hsz Hfresh]. unfold tex_access.
  destruct (_ || _ || _) eqn:Efull.
  { exists RESERVATION_FAIL, s, l, g. split; [done|]. split; [|by auto]. destruct Hs. split; try done. eapply tags_ok_later; [eassumption|done|done|by eapply to_bins]. }
  apply orb_false_iff in Efull as [Efull Er]. apply orb_false_iff in Efull as [Ef Eq].
  unfold deref. rewrite Hmf. simpl. unfold get_line_sz. rewrite (ge_valid _ Hg). simpl. rewrite (proj2 (Z.leb_le _ _) Hsz). simpl.
  destruct (tex_tags_access (x_tags s) now b time) as (status & i & t1 & E & Hi & Hcase);
    [apply Hs|done|done|apply block_addr_is_block; [exact Hg|lia]|apply Hs|].
  rewrite E. simpl. rewrite <- (tx_cache _ _ _ _ _ Hs) in Hi.
  destruct Hcase as [(-> & Ht1 & Hu & Hh)|(-> & t2 & Ef2 & Ht2 & Hr2)]; simpl.
  - destruct (fifo_push_spec _ _ (mkFragment mf i false (m_data_size r)) (tx_frags _ _ _ _ _ Hs) Ef) as (frag & -> & Hfr & _). simpl.
    eexists _, _, (mkLists (l_frags l ++ [mkFragment mf i false (m_data_size r)]) (l_requests l) (l_rob l) (l_results l)), _. split; [reflexivity|].
    split; [by apply tex_hit_ok|]. split; [done|]. right. split; [by left|]. simpl. by rewrite map_app.
  - destruct (fifo_push_spec _ _ (mkFragment mf i true (m_data_size r)) (tx_frags _ _ _ _ _ Hs) Ef) as (frag & -> & Hfr & _). simpl.
    destruct (fifo_push_spec _ _ (mkRob false 0 i mf b) (tx_rob _ _ _ _ _ Hs) Er) as (rob & -> & Hrob & ? & ?). simpl.
    destruct (fetch_update_spec (x_heap s) mf (fun r => set_mf_status (set_data_size r (m_line_sz c)) (m_request_queue_status p) time) (tx_heap _ _ _ _ _ Hs))
      as (h & Eh & Hh & _ & Hlive); [by eexists|]. rewrite Eh. simpl. rewrite Ef2. simpl.
    destruct (fifo_push_spec _ _ mf (tx_requests _ _ _ _ _ Hs) Eq) as (req & -> & Hreq & _). simpl.
    eexists _, _, (mkLists (l_frags l ++ [mkFragment mf i true (m_data_size r)]) (l_requests l ++ [mf])
      (l_rob l ++ [mkRob false 0 i mf b]) (l_results l)), _. split; [reflexivity|].
    split; [|split; [done|]; right; split; [by right|]; simpl; by rewrite map_app].
    eapply tex_miss_ok; try done. intros q r0 Hq. unfold update, deref in Eh. rewrite Hmf in Eh. injection Eh as <-. simpl.
    rewrite lookup_insert. case_decide as Eqm; [|by exists r0]. subst q. rewrite Hmf in Hq. injection Hq as <-. by eexists.
Qed.
End access.

Lemma list_nil_zlen {A} (l : list A) : zlen l = 0 -> l = [].
Proof. destruct l; [done|]. unfold zlen. simpl. lia. Qed.

Lemma send_request_spec g s l now full : tex_ok p g s l now ->
  exists s' q, send_request full s = Ok s' /\ tex_ok p g s' (mkLists (l_frags l) q (l_rob l) (l_results l)) now /\
    m_rob s' = m_rob s /\ m_fragment_fifo s' = m_fragment_fifo s /\ m_result_fifo s' = m_result_fifo s.
Proof.
  intros Hs. pose proof (tx_requests _ _ _ _ _ Hs) as Hq. unfold send_request. rewrite (fifo_empty_spec _ _ Hq).
  destruct (l_requests l) as [|mf q] eqn:El; simpl.
  { exists s, []. split; [done|]. split; [|done]. rewrite <- El. by destruct l. }
  rewrite (fifo_peek_spec _ _ _ Hq). simpl.
  destruct (deref_live (x_heap s) mf) as (r & -> & _); [apply (tx_sent _ _ _ _ _ Hs); rewrite El; left|]. simpl.
  destruct (full _ _).
  { exists s, (mf :: q). split; [done|]. split; [|done]. rewrite <- El. by destruct l. }
  destruct (fifo_pop_spec _ _ _ Hq) as (req & -> & Hreq & _). simpl. eexists _, q. split; [reflexivity|]. split; [|done].
  destruct Hs. split; simpl; try done. intros x Hx. apply tx_sent0. rewrite El. by right.
Qed.

Lemma retire_spec s frags res rob cache f fs : fifo_rep (m_fragment_fifo s) frags -> frags = f :: fs ->
  fifo_rep (m_result_fifo s) res -> fifo_full (m_result_fifo s) = false ->
  exists frag' res', retire s rob cache (fe_request f) =
      Ok (mkTex (x_heap s) (x_tags s) frag' (m_request_fifo s) rob cache res' (m_rob_index s) (x_port s)) /\
    fifo_rep frag' fs /\ fifo_rep res' (res ++ [fe_request f]).
Proof.
  intros Hf -> Hres Hfull. unfold retire.
  destruct (fifo_push_spec _ _ (fe_request f) Hres Hfull) as (res' & -> & Hres' & _). simpl.
  destruct (fifo_pop_spec _ _ _ Hf) as (frag' & -> & Hf' & _). simpl. by exists frag', res'.
Qed.

(** The oldest miss has the oldest entry of the reorder buffer. *)
Lemma first_miss g f fs rob : same_misses g (f :: fs) rob -> fe_miss f = true ->
  exists r rs, rob = r :: rs /\ rb_request r = fe_request f /\ rb_index r = fe_cache_index f /\
    rb_block_addr r = g (fe_request f) /\ same_misses g fs rs.
Proof.
  unfold same_misses. intros H Hm. rewrite filter_cons_True in H by (by rewrite Hm).
  apply Forall2_cons_inv_l in H as (r & rs & (? & ? & ?) & ? & ->). by exists r, rs.
Qed.

Lemma cache_id (m : list data_block) i d : zread m i = Some d -> zwrite m i d = m.
Proof.
  intros Hz. apply zread_ext; [apply zlen_zwrite|]. intros j Hj. rewrite zread_zwrite by (by apply zread_range in Hz).
  by destruct (Z.eqb_spec i j) as [<-|].
Qed.

(** The second part of [cycle]: a fragment leaves when it is a hit or its miss is back. *)
Lemma read_line_spec g s l now : tex_ok p g s l now ->
  exists s' l', read_line p s = Ok s' /\ tex_ok p g s' l' now /\
    l_results l' ++ map fe_request (l_frags l') = l_results l ++ map fe_request (l_frags l) /\
    match l_frags l, l_rob l with
    | f :: fs, rob =>
        fifo_full (m_result_fifo s) = false ->
        (fe_miss f = false \/ exists r rs, rob = r :: rs /\ rb_ready r = true) -> l_frags l' = fs
    | [], _ => True
    end.
Proof.
  intros Hs. pose proof Hs as [Hhp Ht Hv Hf Hq Hr Hres Hc Hl Hsn Hm Hx Hd Hhit Hcon]. unfold read_line.
  rewrite (fifo_empty_spec _ _ Hf). destruct (l_frags l) as [|f fs] eqn:El; simpl.
  { exists s, l. by rewrite El. }
  destruct (fifo_full (m_result_fifo s)) eqn:Ef; [exists s, l; by rewrite El|].
  replace (zlen (f :: fs) =? 0) with false by (symmetry; apply Z.eqb_neq; unfold zlen; simpl; lia). simpl.
  rewrite (fifo_peek_spec _ _ _ Hf). simpl. destruct (Hl f ltac:(left)) as (q & Hq' & Hbq & Hidx). unfold deref at 1. rewrite Hq'. simpl.
  apply NoDup_cons in Hd as [_ Hd]. simpl in Hhit, Hcon.
  assert (forall f', f' ∈ fs -> f' ∈ f :: fs) as Hin by (intros; by right).
  destruct (fe_miss f) eqn:Emiss.
  - destruct (first_miss g f fs (l_rob l) Hm Emiss) as (r & rs & Erob & E1 & E2 & E3 & Hms). rewrite Erob in Hr, Hx.
    assert (slot (m_rob s) 0 = m_tail (m_rob s)) as E0 by (unfold slot; rewrite Z.add_0_r; apply Z.mod_small, (fr_tail _ _ Hr)).
    unfold next_pop_index. rewrite <- E0, (fifo_peek_at_spec _ _ 0 r Hr eq_refl). simpl.
    rewrite E1, Z.eqb_refl, E3, Hbq, Z.eqb_refl. simpl. destruct (rb_ready r) eqn:Erdy.
    2: { exists s, l. rewrite El, Erob. split_and!; try done. intros _ [?|(? & ? & [= <- <-] & ?)]; congruence. }
    rewrite E2, Z.eqb_refl. simpl. rewrite awrite_in by done. simpl.
    destruct (fifo_pop_spec _ _ _ Hr) as (rob' & -> & Hrob' & _ & Hslot). simpl.
    destruct (retire_spec s _ _ rob' (zwrite (m_cache s) (fe_cache_index f) (mkData true (g (fe_request f)))) f fs Hf eq_refl Hres Ef) as (frag' & res' & -> & Hf' & Hres').
    eexists _, (mkLists fs (l_requests l) rs (l_results l ++ [fe_request f])). split; [reflexivity|]. split; [|split; [simpl; by rewrite <- app_assoc|done]].
    split; simpl; rewrite ?zlen_zwrite; try done.
    + intros f' Hf''. by apply Hl, Hin.
    + intros k x Hk. rewrite Hslot. apply Hx. rewrite zread_cons. pose proof (zread_range _ _ _ Hk).
      rewrite (proj2 (Z.eqb_neq (k + 1) 0)) by lia. by replace (k + 1 - 1) with k by lia.
  - destruct Hhit as (Hco & Hnz & Hhit). simpl in Hco. destruct (zread (m_cache s) (fe_cache_index f)) as [d|] eqn:Ez; [|done].
    destruct d as [[] blk]; [|done]. simpl in Hco. injection Hco as ->. rewrite (proj2 (aread_ok _ _ _) Ez). simpl.
    rewrite awrite_in by done. simpl. rewrite Hbq, (proj2 (Z.eqb_neq _ 0)) by done. simpl.
    destruct (retire_spec s _ _ (m_rob s) (zwrite (m_cache s) (fe_cache_index f) (mkData true (g (fe_request f)))) f fs Hf eq_refl Hres Ef) as (frag' & res' & -> & Hf' & Hres').
    rewrite (cache_id _ _ _ Ez).
    eexists _, (mkLists fs (l_requests l) (l_rob l) (l_results l ++ [fe_request f])). split; [reflexivity|]. split; [|split; [simpl; by rewrite <- app_assoc|done]].
    split; simpl; try done.
    + intros f' Hf''. by apply Hl, Hin.
    + unfold same_misses in Hm |- *. rewrite filter_cons_False in Hm; [done|]. rewrite Emiss. by intros ?.
Qed.

(** A request that waits for its block may be filled. *)
Definition pending (s : tex_cache) (l : tex_lists) (mf : Z) : Prop :=
  exists k r, zread (l_rob l) k = Some r /\ rb_request r = mf /\ rb_ready r = false.

Lemma tex_fill_spec g s l now mf time : tex_ok p g s l now -> pending s l mf ->
  exists s' rob, tex_fill p s mf time = Ok s' /\ tex_ok p g s' (mkLists (l_frags l) (l_requests l) rob (l_results l)) now.
Proof.
  intros Hs (k & r & Hk & <- & Hnr). pose proof Hs as [Hhp Ht Hv Hf Hq Hr Hres Hc Hl Hsn Hm Hx Hd Hhit Hcon]. unfold tex_fill.
  rewrite (Hx k r Hk). pose proof (zread_range _ _ _ Hk). rewrite (fifo_empty_spec _ _ Hr), (proj2 (Z.eqb_neq _ 0)) by lia. simpl.
  destruct (misses_request _ _ _ _ _ Hm Hk) as (f & Hf' & Emiss & E1 & E2 & E3). destruct (Hl f Hf') as (q & Ho & Hb & Hi).
  destruct (fetch_update_spec (x_heap s) (rb_request r) (fun r => set_mf_status r (m_rob_status p) time) Hhp) as (h & Eh & Hh & _ & Hlive);
    [rewrite E1; by eexists|].
  rewrite Eh. simpl. rewrite (fifo_peek_at_spec _ _ k r Hr Hk). simpl. rewrite Hnr. simpl.
  destruct (fifo_set_at_spec _ _ k (mkRob true time (rb_index r) (rb_request r) (rb_block_addr r)) Hr ltac:(lia)) as (rob & -> & Hrob & Esz & Etl). simpl.
  unfold update, deref in Eh. rewrite E1, Ho in Eh. injection Eh as <-. unfold deref. simpl. rewrite E1, lookup_insert_eq. simpl.
  rewrite E3, <- Hb. unfold get_addr at 2. simpl. rewrite Z.eqb_refl. simpl. eexists _, _. split; [reflexivity|].
  split; simpl; try done.
  - intros f0 Hf0. destruct (Hl f0 Hf0) as (q0 & Ho0 & Hb0 & Hi0). rewrite lookup_insert. case_decide as Eq0; [|by exists q0].
    eexists. split; [reflexivity|]. split; [|done]. rewrite <- Hb0. rewrite <- Eq0, Ho in Ho0. by injection Ho0 as <-.
  - intros x Hx'. apply Hlive. by apply Hsn.
  - by eapply misses_ready.
  - intros j x Hj. assert (slot rob j = slot (m_rob s) j) as -> by (unfold slot; by rewrite Esz, Etl).
    rewrite zread_zwrite in Hj by done. destruct (Z.eqb_spec k j) as [<-|]; [|by apply Hx]. injection Hj as <-. simpl. by apply Hx.
Qed.

Lemma tex_next_spec g s l now mf rest : tex_ok p g s l now -> l_results l = mf :: rest ->
  exists s', tex_next_access s = Ok (mf, s') /\ tex_ok p g s' (mkLists (l_frags l) (l_requests l) (l_rob l) rest) now.
Proof.
  intros Hs E. unfold tex_next_access. pose proof (tx_results _ _ _ _ _ Hs) as Hr. rewrite E in Hr.
  destruct (fifo_pop_spec _ _ _ Hr) as (res & -> & Hres & _). simpl. eexists. split; [reflexivity|]. by destruct Hs; split.
Qed.
End operations.

(** * Runs *)

Definition lists_of (s : tex_cache) : tex_lists :=
  mkLists (fifo_list (m_fragment_fifo s)) (fifo_list (m_request_fifo s)) (fifo_list (m_rob s)) (fifo_list (m_result_fifo s)).

Lemma tex_ok_lists p g s l now : tex_ok p g s l now -> l = lists_of s.
Proof.
  intros [_ _ _ H1 H2 H3 H4 _ _ _ _ _ _ _ _]. unfold lists_of.
  rewrite (fifo_list_spec _ _ H1), (fifo_list_spec _ _ H2), (fifo_list_spec _ _ H3), (fifo_list_spec _ _ H4). by destruct l.
Qed.

(** The cache, the time, the requests that were taken and those handed back, in order. *)
Record tex_run := mkTexRun { t_cache : tex_cache; t_now : Z; t_accepted : list Z; t_returned : list Z }.

Inductive tex_step (p : tex_params) (st : tex_run) : tex_run → Prop :=
  | tstep_access addr mf r time status s' :
      tex_call_ok p (t_cache st) (lists_of (t_cache st)) (t_now st) addr mf time r ->
      tex_access p (t_cache st) addr mf time = Ok (status, s') ->
      tex_step p st (mkTexRun s' time
        (t_accepted st ++ (if bool_decide (status = RESERVATION_FAIL) then [] else [mf])) (t_returned st))
  | tstep_fill mf time s' :
      pending (t_cache st) (lists_of (t_cache st)) mf -> tex_fill p (t_cache st) mf time = Ok s' ->
      tex_step p st (mkTexRun s' (t_now st) (t_accepted st) (t_returned st))
  | tstep_cycle full s' :
      tex_cycle p full (t_cache st) = Ok s' -> tex_step p st (mkTexRun s' (t_now st) (t_accepted st) (t_returned st))
  | tstep_next mf s' :
      tex_access_ready (t_cache st) = true -> tex_next_access (t_cache st) = Ok (mf, s') ->
      tex_step p st (mkTexRun s' (t_now st) (t_accepted st) (t_returned st ++ [mf]))
  (** The rest of the simulator makes, changes and deletes requests, but keeps those in
      flight and their addresses. *)
  | tstep_other h :
      heap_ok h ->
      (forall f r, f ∈ fifo_list (m_fragment_fifo (t_cache st)) -> objects (x_heap (t_cache st)) !! fe_request f = Some r ->
         exists r', objects h !! fe_request f = Some r' /\ get_addr r' = get_addr r) ->
      (forall q, q ∈ fifo_list (m_request_fifo (t_cache st)) -> live h q) ->
      tex_step p st (mkTexRun
        (mkTex h (x_tags (t_cache st)) (m_fragment_fifo (t_cache st)) (m_request_fifo (t_cache st)) (m_rob (t_cache st))
           (m_cache (t_cache st)) (m_result_fifo (t_cache st)) (m_rob_index (t_cache st)) (x_port (t_cache st)))
        (t_now st) (t_accepted st) (t_returned st)).

Inductive tex_reachable (p : tex_params) : tex_run → Prop :=
  | tex_start h aggr s : heap_ok h -> has_bins aggr -> tex_cache_new p h aggr = Ok s -> tex_reachable p (mkTexRun s 0 [] [])
  | tex_more st st' : tex_reachable p st -> tex_step p st st' -> tex_reachable p st'.

Section runs.
Context (p : tex_params) (Hp : tex_params_ok p).

(** The order of the queues is the order of the accesses. *)
Record tex_run_ok (st : tex_run) : Prop := {
  tr_ok : exists g, tex_ok p g (t_cache st) (lists_of (t_cache st)) (t_now st);
  tr_order : t_accepted st = t_returned st ++ fifo_list (m_result_fifo (t_cache st)) ++ map fe_request (fifo_list (m_fragment_fifo (t_cache st)));
}.

Lemma tex_run_ok_intro s now acc ret g l : tex_ok p g s l now -> acc = ret ++ l_results l ++ map fe_request (l_frags l) ->
  tex_run_ok (mkTexRun s now acc ret).
Proof. intros Hs E. pose proof (tex_ok_lists _ _ _ _ _ Hs) as ->. split; [by exists g|done]. Qed.

Lemma tex_cycle_spec g s l now full : tex_ok p g s l now ->
  exists s' l', tex_cycle p full s = Ok s' /\ tex_ok p g s' l' now /\
    l_results l' ++ map fe_request (l_frags l') = l_results l ++ map fe_request (l_frags l) /\
    match l_frags l with
    | f :: fs => fifo_full (m_result_fifo s) = false ->
        (fe_miss f = false \/ exists r rs, l_rob l = r :: rs /\ rb_ready r = true) -> l_frags l' = fs
    | [] => True
    end.
Proof.
  intros Hs. unfold tex_cycle. destruct (send_request_spec p g s l now full Hs) as (s1 & q & -> & Hs1 & E1 & E2 & E3). simpl.
  destruct (read_line_spec p g s1 _ now Hs1) as (s' & l' & -> & Hs' & Ho & Hm). simpl in Ho, Hm. rewrite E3 in Hm.
  exists s', l'. by split_and!.
Qed.

Lemma tex_new_ok h aggr : heap_ok h -> has_bins aggr ->
  exists s, tex_cache_new p h aggr = Ok s /\ tex_run_ok (mkTexRun s 0 [] []).
Proof.
  intros Hh Ha. unfold tex_cache_new. destruct (tags_ok_new _ (tpo_geometry p Hp) aggr Ha) as (t & -> & Ht & Hno). simpl.
  rewrite (tpo_type p Hp), (tpo_write p Hp), (tpo_alloc p Hp). simpl. unfold get_num_lines.
  pose proof (tpo_geometry p Hp) as Hg. rewrite (ge_valid _ Hg). simpl. eexists. split; [reflexivity|].
  destruct (tpo_sizes p Hp) as (? & ? & ? & ?). pose proof (ge_size _ Hg). pose proof (ge_assoc _ Hg). pose proof (nset_pos _ Hg).
  apply (tex_run_ok_intro _ _ _ _ (fun _ => 0) (mkLists [] [] [] [])); [|done]. split; simpl; try done; try (by apply fifo_rep_new).
  - intros i b st Hx. by destruct (Hno i b st).
  - rewrite uwrap_small by nia. apply zlen_replicate. nia.
  - by intros f ?%elem_of_nil.
  - by intros q ?%elem_of_nil.
  - constructor.
  - intros k r Hk%zread_range. unfold zlen in Hk. simpl in Hk. lia.
  - constructor.
  - intros i b st Hx. by destruct (Hno i b st).
Qed.

Lemma tex_step_ok st st' : tex_run_ok st -> tex_step p st st' -> tex_run_ok st'.
Proof.
  intros [[g Hs] Ho] Hstep. destruct Hstep as [addr mf r time status s' Hcall E|mf time s' Hpd E|full s' E|mf s' Hrd E|h Hh Hsame Hlive].
  - destruct (tex_access_spec p Hp g _ _ _ addr mf time r Hs Hcall) as (st2 & s2 & l2 & g2 & E2 & Hs2 & Hres & Hcase).
    rewrite E in E2. injection E2 as <- <-. eapply tex_run_ok_intro; [exact Hs2|]. rewrite Hres, Ho.
    destruct Hcase as [(-> & -> & ->)|(Hst & ->)]; [by rewrite app_nil_r|].
    rewrite bool_decide_eq_false_2 by (by destruct Hst as [-> | ->]). by rewrite <- !app_assoc.
  - destruct (tex_fill_spec p g _ _ _ mf time Hs Hpd) as (s2 & rob & E2 & Hs2). rewrite E in E2. injection E2 as <-.
    by eapply tex_run_ok_intro; [exact Hs2|].
  - destruct (tex_cycle_spec g _ _ _ full Hs) as (s2 & l2 & E2 & Hs2 & Hord & _). rewrite E in E2. injection E2 as <-.
    eapply tex_run_ok_intro; [exact Hs2|]. rewrite Hord. done.
  - unfold tex_access_ready in Hrd. rewrite (fifo_empty_spec _ _ (tx_results _ _ _ _ _ Hs)) in Hrd. simpl in Hrd.
    destruct (fifo_list (m_result_fifo (t_cache st))) as [|mf' rest] eqn:El; [done|].
    destruct (tex_next_spec p g _ _ _ mf' rest Hs El) as (s2 & E2 & Hs2). rewrite E in E2. injection E2 as <- <-.
    eapply tex_run_ok_intro; [exact Hs2|]. simpl. rewrite Ho. by rewrite <- app_assoc.
  - eapply (tex_run_ok_intro _ _ _ _ g (lists_of (t_cache st))); [|done]. destruct Hs. split; simpl; try done.
    intros f Hf. destruct (tx_live0 f Hf) as (r & Hr & Hb & Hi). destruct (Hsame f r Hf Hr) as (r' & Hr' & Ea). exists r'. by rewrite Ea.
Qed.

Lemma tex_reachable_ok st : tex_reachable p st -> tex_run_ok st.
Proof.
  induction 1 as [h aggr s Hh Ha E|st st' _ IH Hs]; [|by eapply tex_step_ok].
  destruct (tex_new_ok h aggr Hh Ha) as (s2 & E2 & Hok). rewrite E in E2. by injection E2 as <-.
Qed.
End runs.

(** C34: The texture cache is a queue: at any time the requests it took are, in the
    order in which it took them, those handed back, those in the result FIFO and those
    still in the fragment FIFO; hits never overtake misses. *)
Theorem texture_requests_in_order p st : tex_params_ok p -> tex_reachable p st ->
  t_accepted st = t_returned st ++ fifo_list (m_result_fifo (t_cache st)) ++ map fe_request (fifo_list (m_fragment_fifo (t_cache st))).
Proof. intros Hp Hr. apply (tr_order p st), (tex_reachable_ok p Hp st Hr). Qed.

(** The texture cache never stops the simulator, and makes progress: whatever was
    accessed, filled and cycled so far, an access with a request not in flight, the fill
    of a pending request, a cycle and taking a ready result all go through; and when the
    oldest fragment is a hit, or its block is back, and the result FIFO has room, the
    cycle moves it there. *)
Theorem texture_cache_never_faults p st : tex_params_ok p -> tex_reachable p st ->
  (forall addr mf r time, tex_call_ok p (t_cache st) (lists_of (t_cache st)) (t_now st) addr mf time r ->
     is_ok (tex_access p (t_cache st) addr mf time)) /\
  (forall mf time, pending (t_cache st) (lists_of (t_cache st)) mf -> is_ok (tex_fill p (t_cache st) mf time)) /\
  (tex_access_ready (t_cache st) = true -> is_ok (tex_next_access (t_cache st))) /\
  (forall full, exists s', tex_cycle p full (t_cache st) = Ok s' /\
     match fifo_list (m_fragment_fifo (t_cache st)) with
     | f :: fs => fifo_full (m_result_fifo (t_cache st)) = false ->
         (fe_miss f = false \/ exists r rs, fifo_list (m_rob (t_cache st)) = r :: rs /\ rb_ready r = true) ->
         fifo_list (m_fragment_fifo s') = fs
     | [] => True
     end).
Proof.
  intros Hp Hr. destruct (tex_reachable_ok p Hp st Hr) as [[g Hs] _]. split_and!.
  - intros addr mf r time Hcall. destruct (tex_access_spec p Hp g _ _ _ addr mf time r Hs Hcall) as (? & ? & ? & ? & -> & _). by eexists.
  - intros mf time Hpd. destruct (tex_fill_spec p g _ _ _ mf time Hs Hpd) as (? & ? & -> & _). by eexists.
  - unfold tex_access_ready. rewrite (fifo_empty_spec _ _ (tx_results _ _ _ _ _ Hs)). simpl. intros Hne.
    destruct (fifo_list (m_result_fifo (t_cache st))) as [|mf rest] eqn:El; [done|].
    destruct (tex_next_spec p g _ _ _ mf rest Hs El) as (s2 & -> & _). by eexists.
  - intros full. destruct (tex_cycle_spec p g _ _ _ full Hs) as (s' & l' & E & Hs' & _ & Hm). exists s'. split; [done|].
    pose proof (tex_ok_lists _ _ _ _ _ Hs') as ->. exact Hm.
Qed.

(** * A short run *)

Definition tex_config : cache_config :=
  mkConfig true false 128 7 4 2 2 LRU READ_ONLY ON_MISS TEX_FIFO NO_WRITE_ALLOCATE 4 2 4 4.
Definition demo_tex : tex_params := mkTexParams tex_config IN_L1T_MISS_QUEUE IN_SHADER_L1T_ROB.
Definition tex_request (addr : Z) : mem_fetch :=
  mkFetch 0 0 0 MEM_FETCH_INITIALIZED 0 (mkAccess TEXTURE_ACC_R addr 32 false 1 (Z.ones 32)) 32 8 0 (mkAddr 0 0 0 0 0) READ_REQUEST None.
(** Requests 1 and 2 read block 512, 3 and 4 block 0. *)
Definition tex_heap : heap :=
  mkHeap (<[1 := tex_request 512]> (<[2 := tex_request 544]> (<[3 := tex_request 64]> (<[4 := tex_request 96]> ∅)))) 10.

Lemma demo_tex_ok : tex_params_ok demo_tex.
Proof. split; simpl; [split; simpl; lia || done|done|done|done|lia]. Qed.

Lemma tex_heap_ok : heap_ok tex_heap.
Proof.
  intros q m Hq. simpl in *. repeat (rewrite lookup_insert in Hq; case_decide; [lia|]). by rewrite lookup_empty in Hq.
Qed.

(** A miss and a hit on the same block. *)
Definition tex_trace : outcome (tex_cache * tex_cache * tex_cache) :=
  s0 ← tex_cache_new demo_tex tex_heap (binned_histogram_new 32);
  '(_, s1) ← tex_access demo_tex s0 512 1 5;
  '(_, s2) ← tex_access demo_tex s1 544 2 6;
  mret (s0, s1, s2).
Definition tex_states : tex_cache * tex_cache * tex_cache := Eval vm_compute in
  match tex_trace with
  | Ok x => x
  | Err _ => let s := mkTex tex_heap (mkTags [] 0 0 0 (binned_histogram_new 32) (binned_histogram_new 32) (0, 0, 0))
               (fifo_new (mkFragment 0 0 false 0) 0) (fifo_new 0 0) (fifo_new (mkRob false 0 0 0 0) 0) [] (fifo_new 0 0) ∅ [] in (s, s, s)
  end.
Definition demo_tex_run : tex_run := mkTexRun tex_states.2 6 [1; 2] [].

Lemma demo_tex_call s now addr mf time r : now <= time -> time_ok time -> 0 <= addr < 2 ^ 64 -> block_addr tex_config addr <> 0 ->
  objects (x_heap s) !! mf = Some r -> block_addr tex_config (get_addr r) = block_addr tex_config addr -> m_data_size r <= 128 ->
  mf ∉ map fe_request (fifo_list (m_fragment_fifo s)) -> tex_call_ok demo_tex s (lists_of s) now addr mf time r.
Proof. intros. by split. Qed.

Lemma demo_tex_reachable : tex_reachable demo_tex demo_tex_run.
Proof.
  change demo_tex_run with (mkTexRun tex_states.2 6 ([1] ++ [2]) []).
  apply tex_more with (mkTexRun tex_states.1.2 5 ([] ++ [1]) []).
  - apply tex_more with (mkTexRun tex_states.1.1 0 [] []).
    + apply tex_start with tex_heap (binned_histogram_new 32); [apply tex_heap_ok|apply has_bins_new|by vm_compute].
    + apply (tstep_access demo_tex (mkTexRun tex_states.1.1 0 [] []) 512 1 (tex_request 512) 5 MISS); [|by vm_compute].
      apply demo_tex_call; [done|by split|lia|by vm_compute|done|done|done|by apply not_elem_of_nil].
  - apply (tstep_access demo_tex (mkTexRun tex_states.1.2 5 [1] []) 544 2 (tex_request 544) 6 HIT_RESERVED); [|by vm_compute].
    apply demo_tex_call; [done|by split|lia|by vm_compute|done|done|done|].
    intros H. vm_compute in H. apply elem_of_cons in H as [?|?%elem_of_nil]; done.
Qed.

Lemma texture_requests_in_order_witness :
  [1; 2] = [] ++ fifo_list (m_result_fifo (t_cache demo_tex_run)) ++ map fe_request (fifo_list (m_fragment_fifo (t_cache demo_tex_run))).
Proof. exact (texture_requests_in_order demo_tex demo_tex_run demo_tex_ok demo_tex_reachable). Defined.

Lemma texture_cache_never_faults_witness : is_ok (tex_fill demo_tex (t_cache demo_tex_run) 1 9).
Proof.
  destruct (texture_cache_never_faults demo_tex demo_tex_run demo_tex_ok demo_tex_reachable) as (_ & Hf & _).
  apply Hf. exists 0. eexists. split; [vm_compute; reflexivity|]. done.
Defined.

(** A hit in the block at address 0: the assertion is an assignment, whose value is 0. *)
Example texture_hit_at_block_0_stops :
  (s ← tex_cache_new demo_tex tex_heap (binned_histogram_new 32);
   '(_, s) ← tex_access demo_tex s 64 3 5; '(_, s) ← tex_access demo_tex s 96 4 6;
   s ← tex_fill demo_tex s 3 7; s ← tex_cycle demo_tex (fun _ _ => false) s; tex_cycle demo_tex (fun _ _ => false) s) = Err AssertFailed.
Proof. vm_compute. reflexivity. Qed.
