(* ===== verification/MemStats.v ===== *)
(** * Statistics of the memory partitions

    The part of [memory_stats_t] ([gpgpu-sim/mem_latency_stat.{h,cc}]) that the DRAM
    channels write: counters for each channel and bank, allocated once and indexed by
    what the requests carry.  The counters are [unsigned int]s; logging for the
    visualizer and for source lines is left out. *)

From S2P Require Import Prelude Coalesce AddrDec MemFetch GpuMisc.

(** The simulator's clock: cycles of this kernel and of those before it. *)
Record gpu_clock := mkClock { gpu_sim_cycle : Z; gpu_tot_sim_cycle : Z }.
Definition now (c : gpu_clock) : Z := u64 (gpu_sim_cycle c + gpu_tot_sim_cycle c).

(** * Tables of counters *)

Definition table := list (list Z).
Definition tread (a : table) (i j : Z) : outcome Z := r ← aread a i; aread r j.
Definition tupdate (a : table) (i j : Z) (f : Z → Z) : outcome table :=
  r ← aread a i; x ← aread r j; r' ← awrite r j (f x); awrite a i r'.
(** [a[i][j]++] and [a[k][i][j]++] *)
Definition tcount (a : table) (i j : Z) : outcome table := tupdate a i j (fun n => u32 (n + 1)).
Definition tcount3 (a : list table) (k i j : Z) : outcome (list table) :=
  t ← aread a k; t' ← tcount t i j; awrite a k t'.

Definition sized (n m : Z) (a : table) : Prop := zlen a = n /\ forall r, r ∈ a -> zlen r = m.
Definition sized3 (k n m : Z) (a : list table) : Prop := zlen a = k /\ forall t, t ∈ a -> sized n m t.
Definition zeros (n m : Z) : table := replicate (Z.to_nat n) (replicate (Z.to_nat m) 0).

Lemma sized_zeros n m : 0 <= n -> 0 <= m -> sized n m (zeros n m).
Proof.
  intros. split; [by apply zlen_replicate|]. intros r [-> _]%elem_of_replicate. by apply zlen_replicate.
Qed.

Lemma tread_ok n m a i j : sized n m a -> 0 <= i < n -> 0 <= j < m -> exists x, tread a i j = Ok x.
Proof.
  intros [Hn Hm] Hi Hj. unfold tread. destruct (aread_in a i ltac:(lia)) as (r & Hr & ->). simpl.
  apply zread_elem_of in Hr. destruct (aread_in r j) as (x & _ & ->); [rewrite Hm by done; lia|]. by exists x.
Qed.

Lemma tupdate_ok n m a i j f : sized n m a -> 0 <= i < n -> 0 <= j < m ->
  exists a', tupdate a i j f = Ok a' /\ sized n m a'.
Proof.
  intros [Hn Hm] Hi Hj. unfold tupdate. destruct (aread_in a i ltac:(lia)) as (r & Hr & ->). simpl.
  apply zread_elem_of in Hr. specialize (Hm r Hr) as Hrm.
  destruct (aread_in r j) as (x & _ & ->); [lia|]. simpl. rewrite !awrite_in by lia. simpl.
  rewrite awrite_in by lia. eexists. split; [done|]. split; [by rewrite zlen_zwrite|].
  intros r' [->|Hr']%elem_of_zwrite; [by rewrite zlen_zwrite|by apply Hm].
Qed.

Lemma tcount3_ok k n m a l i j : sized3 k n m a -> 0 <= l < k -> 0 <= i < n -> 0 <= j < m ->
  exists a', tcount3 a l i j = Ok a' /\ sized3 k n m a'.
Proof.
  intros [Hk Ha] Hl Hi Hj. unfold tcount3. destruct (aread_in a l ltac:(lia)) as (t & Ht & ->). simpl.
  apply zread_elem_of in Ht. destruct (tupdate_ok n m t i j (fun x => u32 (x + 1))) as (t' & E & Ht'); [by apply Ha|lia|lia|].
  unfold tcount. rewrite E. simpl. rewrite awrite_in by lia. eexists. split; [done|].
  split; [by rewrite zlen_zwrite|]. intros u [->|Hu]%elem_of_zwrite; [done|by apply Ha].
Qed.

(** * The statistics *)

Record memory_stats_t := mkStats {
  gpgpu_memlatency_stat : bool;
  m_n_shader : Z;
  max_mrq_latency : Z;
  mrq_lat_table : list Z;
  concurrent_row_access : table;
  num_activates : table;
  row_access : table;
  max_conc_access2samerow : table;
  max_servicetime2samerow : table;
  bankwrites : list table;
  bankreads : list table;
  totalbankwrites : table;
  totalbankreads : table;
  mem_access_type_stats : list table }.

(** The value of an enumerator of [mem_access_type]. *)
Definition access_type_index (t : mem_access_type) : Z :=
  match t with
  | GLOBAL_ACC_R => 0 | LOCAL_ACC_R => 1 | CONST_ACC_R => 2 | TEXTURE_ACC_R => 3 | GLOBAL_ACC_W => 4
  | LOCAL_ACC_W => 5 | L1_WRBK_ACC => 6 | L2_WRBK_ACC => 7 | INST_ACC_R => 8 | L2_WR_ALLOC_R => 9
  | MEM_FENCE => 10 | RUBY_DRAM_R => 11 | RUBY_DRAM_W => 12 | NUM_MEM_ACCESS_TYPE => 13
  end.

(** The constructor, for [n_mem] channels of [nbk] banks. *)
Definition memory_stats_new (latency_stat : bool) (n_shader n_mem nbk : Z) : memory_stats_t :=
  let t := zeros n_mem nbk in
  mkStats latency_stat n_shader 0 (replicate 32 0) t t t t t
    (replicate (Z.to_nat n_shader) t) (replicate (Z.to_nat n_shader) t) t t
    (replicate (Z.to_nat (access_type_index NUM_MEM_ACCESS_TYPE)) (zeros n_mem (nbk + 1))).

Section fields.
Context (s : memory_stats_t).
Definition with_latency (max : Z) (lat : list Z) : memory_stats_t :=
  mkStats (gpgpu_memlatency_stat s) (m_n_shader s) max lat (concurrent_row_access s) (num_activates s) (row_access s)
    (max_conc_access2samerow s) (max_servicetime2samerow s) (bankwrites s) (bankreads s) (totalbankwrites s)
    (totalbankreads s) (mem_access_type_stats s).
Definition with_rows (conc act acc maxc maxt : table) : memory_stats_t :=
  mkStats (gpgpu_memlatency_stat s) (m_n_shader s) (max_mrq_latency s) (mrq_lat_table s) conc act acc maxc maxt
    (bankwrites s) (bankreads s) (totalbankwrites s) (totalbankreads s) (mem_access_type_stats s).
Definition with_accesses (bw br : list table) (tw tr : table) (ty : list table) : memory_stats_t :=
  mkStats (gpgpu_memlatency_stat s) (m_n_shader s) (max_mrq_latency s) (mrq_lat_table s) (concurrent_row_access s)
    (num_activates s) (row_access s) (max_conc_access2samerow s) (max_servicetime2samerow s) bw br tw tr ty.

(** [memlatstat_dram_access] *)
Definition memlatstat_dram_access (mf : mem_fetch) : outcome memory_stats_t :=
  let dram_id := chip (m_raw_addr mf) in
  let bank := bk (m_raw_addr mf) in
  if gpgpu_memlatency_stat s then
    '(bw, br, tw, tr) ←
      (if m_sid mf =? u32 (-1) then mret (bankwrites s, bankreads s, totalbankwrites s, totalbankreads s)
       else if get_is_write mf then
         bw ← (if m_sid mf <? m_n_shader s then tcount3 (bankwrites s) (m_sid mf) dram_id bank
               else mret (bankwrites s));
         tw ← tcount (totalbankwrites s) dram_id bank;
         mret (bw, bankreads s, tw, totalbankreads s)
       else
         br ← tcount3 (bankreads s) (m_sid mf) dram_id bank;
         tr ← tcount (totalbankreads s) dram_id bank;
         mret (bankwrites s, br, totalbankwrites s, tr));
    ty ← tcount3 (mem_access_type_stats s) (access_type_index (get_access_type mf)) dram_id bank;
    mret (with_accesses bw br tw tr ty)
  else mret s.

(** The latency statistics of [dram_t::scheduler_frfcfs] for a request that waited
    [mrq_latency] cycles. *)
Definition count_mrq_latency (mrq_latency : Z) : outcome memory_stats_t :=
  n ← aread (mrq_lat_table s) (LOGB2 mrq_latency);
  lat ← awrite (mrq_lat_table s) (LOGB2 mrq_latency) (u32 (n + 1));
  mret (with_latency (if max_mrq_latency s <? mrq_latency then mrq_latency else max_mrq_latency s) lat).

(** [concurrent_row_access[id][bank]++; row_access[id][bank]++] of [schedule]. *)
Definition count_row_access (id bank : Z) : outcome memory_stats_t :=
  conc ← tcount (concurrent_row_access s) id bank;
  acc ← tcount (row_access s) id bank;
  mret (with_rows conc (num_activates s) acc (max_conc_access2samerow s) (max_servicetime2samerow s)).
End fields.

(** The tables have the dimensions of the constructor. *)
Record stats_ok (n_mem nbk : Z) (s : memory_stats_t) : Prop := {
  so_lat : zlen (mrq_lat_table s) = 32;
  so_conc : sized n_mem nbk (concurrent_row_access s);
  so_act : sized n_mem nbk (num_activates s);
  so_acc : sized n_mem nbk (row_access s);
  so_maxc : sized n_mem nbk (max_conc_access2samerow s);
  so_maxt : sized n_mem nbk (max_servicetime2samerow s);
  so_bw : sized3 (m_n_shader s) n_mem nbk (bankwrites s);
  so_br : sized3 (m_n_shader s) n_mem nbk (bankreads s);
  so_tw : sized n_mem nbk (totalbankwrites s);
  so_tr : sized n_mem nbk (totalbankreads s);
  so_ty : sized3 13 n_mem (nbk + 1) (mem_access_type_stats s) }.

Lemma sized3_replicate k n m : 0 <= k -> 0 <= n -> 0 <= m -> sized3 k n m (replicate (Z.to_nat k) (zeros n m)).
Proof.
  intros. split; [by apply zlen_replicate|]. intros t [-> _]%elem_of_replicate. by apply sized_zeros.
Qed.

Lemma memory_stats_new_ok b n_shader n_mem nbk : 0 <= n_shader -> 0 <= n_mem -> 0 <= nbk ->
  stats_ok n_mem nbk (memory_stats_new b n_shader n_mem nbk).
Proof.
  intros. split; simpl; try (by apply sized_zeros); try (by apply sized3_replicate); [done|].
  apply (sized3_replicate 13); lia.
Qed.

Section steps.
Context (n_mem nbk : Z) (s : memory_stats_t) (Hs : stats_ok n_mem nbk s).

Lemma count_row_access_ok id bank : 0 <= id < n_mem -> 0 <= bank < nbk ->
  exists s', count_row_access s id bank = Ok s' /\ stats_ok n_mem nbk s' /\ m_n_shader s' = m_n_shader s /\
    gpgpu_memlatency_stat s' = gpgpu_memlatency_stat s.
Proof using Hs.
  intros Hi Hb. destruct Hs. unfold count_row_access.
  destruct (tupdate_ok n_mem nbk (concurrent_row_access s) id bank (fun n => u32 (n + 1))) as (c & Ec & Hc); [done..|].
  destruct (tupdate_ok n_mem nbk (row_access s) id bank (fun n => u32 (n + 1))) as (a & Ea & Ha); [done..|].
  unfold tcount. rewrite Ec. simpl. rewrite Ea. simpl. eexists. split; [done|]. by split.
Qed.

Lemma count_mrq_latency_ok lat : 0 <= lat < 2 ^ 32 ->
  exists s', count_mrq_latency s lat = Ok s' /\ stats_ok n_mem nbk s' /\ m_n_shader s' = m_n_shader s /\
    gpgpu_memlatency_stat s' = gpgpu_memlatency_stat s.
Proof using Hs.
  intros Hl. destruct Hs. unfold count_mrq_latency.
  assert (0 <= LOGB2 lat < 32) as Hi.
  { rewrite LOGB2_spec by done. split; [apply Z.log2_nonneg|].
    destruct (Z.eq_dec lat 0) as [->|]; [done|]. apply Z.log2_lt_pow2; lia. }
  destruct (aread_in (mrq_lat_table s) (LOGB2 lat) ltac:(lia)) as (x & _ & ->). simpl.
  rewrite awrite_in by lia. simpl. eexists. split; [done|]. split; [|done]. split; simpl; try done.
  by rewrite zlen_zwrite.
Qed.

(** A request names a core whose reads are counted, or none. *)
Lemma memlatstat_dram_access_ok mf : 0 <= chip (m_raw_addr mf) < n_mem -> 0 <= bk (m_raw_addr mf) < nbk ->
  get_access_type mf <> NUM_MEM_ACCESS_TYPE -> m_sid mf = u32 (-1) \/ 0 <= m_sid mf < m_n_shader s ->
  exists s', memlatstat_dram_access s mf = Ok s' /\ stats_ok n_mem nbk s' /\ m_n_shader s' = m_n_shader s /\
    gpgpu_memlatency_stat s' = gpgpu_memlatency_stat s.
Proof using Hs.
  intros Hc Hb Ht Hsid. destruct Hs. unfold memlatstat_dram_access. case_match; [|by exists s].
  destruct (tcount3_ok 13 n_mem (nbk + 1) (mem_access_type_stats s) (access_type_index (get_access_type mf))
    (chip (m_raw_addr mf)) (bk (m_raw_addr mf))) as (ty & Ety & Hty); [done| |lia|lia|].
  { destruct (get_access_type mf); simpl; done || lia. }
  destruct (Z.eqb_spec (m_sid mf) (u32 (-1))).
  { simpl. rewrite Ety. simpl. eexists. split; [done|]. by split. }
  destruct Hsid as [|Hsid]; [done|]. destruct (get_is_write mf).
  - rewrite (proj2 (Z.ltb_lt _ _)) by lia.
    destruct (tcount3_ok (m_n_shader s) n_mem nbk (bankwrites s) (m_sid mf) (chip (m_raw_addr mf)) (bk (m_raw_addr mf)))
      as (bw & -> & Hbw); [done..|]. simpl.
    destruct (tupdate_ok n_mem nbk (totalbankwrites s) (chip (m_raw_addr mf)) (bk (m_raw_addr mf)) (fun n => u32 (n + 1)))
      as (tw & Etw & Htw); [done..|]. unfold tcount at 1. rewrite Etw. simpl. rewrite Ety. simpl.
    eexists. split; [done|]. by split.
  - destruct (tcount3_ok (m_n_shader s) n_mem nbk (bankreads s) (m_sid mf) (chip (m_raw_addr mf)) (bk (m_raw_addr mf)))
      as (br & -> & Hbr); [done..|]. simpl.
    destruct (tupdate_ok n_mem nbk (totalbankreads s) (chip (m_raw_addr mf)) (bk (m_raw_addr mf)) (fun n => u32 (n + 1)))
      as (tr & Etr & Htr); [done..|]. unfold tcount at 1. rewrite Etr. simpl. rewrite Ety. simpl.
    eexists. split; [done|]. by split.
Qed.
End steps.
