(* ===== verification/FrFcfs.v ===== *)
(** * The first-ready, first-come first-served scheduler

    [frfcfs_scheduler] ([gpgpu-sim/dram_sched.{h,cc}]) and the requests it orders,
    [dram_req_t] ([gpgpu-sim/dram.{h,cc}]).  Each bank has the list of its requests,
    newest first, and a map from rows to lists of iterators into that list; a bank
    that has begun to serve a row keeps a pointer to the row's list.  An iterator is
    the number of a list node and the pointer to a map value is the row it is under. *)

From S2P Require Import Prelude OrdMap Coalesce AddrDec MemFetch MemStats.

(** * Requests *)

Inductive rw_t := READ | WRITE.
#[export] Instance rw_eq_dec : EqDecision rw_t.
Proof. solve_decision. Defined.

(** [age] is never written or read. *)
Record dram_req_t := mkReq {
  r_row : Z;
  r_col : Z;
  r_bk : Z;
  nbytes : Z;
  txbytes : Z;
  dqbytes : Z;
  timestamp : Z;
  r_rw : rw_t;
  r_addr : Z;
  insertion_time : Z;
  r_data : Z }.

(** The constructor, for the request [mf] that lives at [p]. *)
Definition dram_req_new (clk : gpu_clock) (p : Z) (mf : mem_fetch) : dram_req_t :=
  let tlx := m_raw_addr mf in
  mkReq (row tlx) (col tlx) (bk tlx) (m_data_size mf) 0 0
    (u32 (gpu_tot_sim_cycle clk + gpu_sim_cycle clk)) (if get_is_write mf then WRITE else READ) (get_addr mf)
    (u32 (gpu_sim_cycle clk)) p.

Section update.
Context (r : dram_req_t).
Definition set_txbytes (n : Z) : dram_req_t :=
  mkReq (r_row r) (r_col r) (r_bk r) (nbytes r) n (dqbytes r) (timestamp r) (r_rw r) (r_addr r) (insertion_time r) (r_data r).
Definition set_dqbytes (n : Z) : dram_req_t :=
  mkReq (r_row r) (r_col r) (r_bk r) (nbytes r) (txbytes r) n (timestamp r) (r_rw r) (r_addr r) (insertion_time r) (r_data r).
Definition set_timestamp (n : Z) : dram_req_t :=
  mkReq (r_row r) (r_col r) (r_bk r) (nbytes r) (txbytes r) (dqbytes r) n (r_rw r) (r_addr r) (insertion_time r) (r_data r).
End update.

(** The live requests by address. *)
Abbreviation reqs := (gmap Z dram_req_t).
Definition req (h : reqs) (p : Z) : outcome dram_req_t :=
  match h !! p with Some r => Ok r | None => Err BadAccess end.

(** * The scheduler *)

Record frfcfs_scheduler := mkSched {
  m_num_pending : Z;
  m_queue : list (list (Z * Z));
  m_bins : list (list (Z * list Z));
  m_last_row : list (option Z);
  curr_row_service_time : list Z;
  row_service_timestamp : list Z;
  next_node : Z }.

Definition frfcfs_new (nbk : Z) : frfcfs_scheduler :=
  let n := Z.to_nat nbk in
  mkSched 0 (replicate n []) (replicate n []) (replicate n None) (replicate n 0) (replicate n 0) 0.

Section fields.
Context (s : frfcfs_scheduler).
Definition with_queues (n : Z) (q : list (list (Z * Z))) (b : list (list (Z * list Z))) (last : list (option Z)) (nn : Z) :=
  mkSched n q b last (curr_row_service_time s) (row_service_timestamp s) nn.
Definition with_last_row (last : list (option Z)) :=
  mkSched (m_num_pending s) (m_queue s) (m_bins s) last (curr_row_service_time s) (row_service_timestamp s) (next_node s).
Definition with_service (time stamp : list Z) :=
  mkSched (m_num_pending s) (m_queue s) (m_bins s) (m_last_row s) time stamp (next_node s).
End fields.

Definition add_req (h : reqs) (s : frfcfs_scheduler) (p : Z) : outcome frfcfs_scheduler :=
  r ← req h p;
  q ← aread (m_queue s) (r_bk r);
  queue ← awrite (m_queue s) (r_bk r) ((next_node s, p) :: q);
  m ← aread (m_bins s) (r_bk r);
  bins ← awrite (m_bins s) (r_bk r) (upsert m (r_row r) [] (cons (next_node s)));
  mret (with_queues s (u32 (m_num_pending s + 1)) queue bins (m_last_row s) (next_node s + 1)).

(** Statistics when a bank turns to another row; [id] is the channel. *)
Definition data_collection (clk : gpu_clock) (id bank : Z) (s : frfcfs_scheduler) (st : memory_stats_t) :
    outcome (frfcfs_scheduler * memory_stats_t) :=
  stamp ← aread (row_service_timestamp s) bank;
  maxt ← (if stamp <? gpu_sim_cycle clk then
            let t := u32 (gpu_sim_cycle clk - stamp) in
            m ← tread (max_servicetime2samerow st) id bank;
            if m <? t then tupdate (max_servicetime2samerow st) id bank (fun _ => t) else mret (max_servicetime2samerow st)
          else mret (max_servicetime2samerow st));
  time ← awrite (curr_row_service_time s) bank 0;
  stamps ← awrite (row_service_timestamp s) bank (u32 (gpu_sim_cycle clk));
  conc ← tread (concurrent_row_access st) id bank;
  m ← tread (max_conc_access2samerow st) id bank;
  maxc ← (if m <? conc then tupdate (max_conc_access2samerow st) id bank (fun _ => conc) else mret (max_conc_access2samerow st));
  conc' ← tupdate (concurrent_row_access st) id bank (fun _ => 0);
  act ← tcount (num_activates st) id bank;
  mret (with_service s time stamps, with_rows st conc' act (row_access st) maxc maxt).

(** The row the bank serves next: the row being served, else the open row if a
    request wants it, else the row of the oldest request; [None] when no request waits. *)
Definition choose_row (h : reqs) (clk : gpu_clock) (id bank curr_row : Z) (s : frfcfs_scheduler) (st : memory_stats_t) :
    outcome (option Z * frfcfs_scheduler * memory_stats_t) :=
  last_row ← aread (m_last_row s) bank;
  match last_row with
  | Some r => mret (Some r, s, st)
  | None =>
      q ← aread (m_queue s) bank;
      match last q with
      | None => mret (None, s, st)
      | Some (_, oldest) =>
          m ← aread (m_bins s) bank;
          match ofind m curr_row with
          | Some _ =>
              l ← awrite (m_last_row s) bank (Some curr_row);
              mret (Some curr_row, with_last_row s l, st)
          | None =>
              r ← req h oldest;
              cassert (match ofind m (r_row r) with Some _ => true | None => false end);;
              l ← awrite (m_last_row s) bank (Some (r_row r));
              '(s', st') ← data_collection clk id bank (with_last_row s l) st;
              mret (Some (r_row r), s', st')
          end
      end
  end.

(** The rest of [schedule]: the oldest request of the row leaves. *)
Definition take_oldest (h : reqs) (id bank r : Z) (s : frfcfs_scheduler) (st : memory_stats_t) :
    outcome (Z * frfcfs_scheduler * memory_stats_t) :=
  q ← aread (m_queue s) bank;
  m ← aread (m_bins s) bank;
  bin ← (match ofind m r with Some b => Ok b | None => Err BadAccess end);
  next ← (match last bin with Some n => Ok n | None => Err BadAccess end);
  p ← (match list_find (fun e => e.1 = next) q with Some (_, e) => Ok e.2 | None => Err BadAccess end);
  st' ← count_row_access st id bank;
  let bin' := take (length bin - 1) bin in
  queue ← awrite (m_queue s) bank (filter (fun e => e.1 <> next) q);
  '(m', last_row) ←
    (match bin' with
     | [] => rq ← req h p; l ← awrite (m_last_row s) bank None; mret (oerase m (r_row rq), l)
     | _ => mret (upsert m r [] (fun _ => bin'), m_last_row s)
     end);
  bins ← awrite (m_bins s) bank m';
  cassert (negb (m_num_pending s =? 0));;
  mret (p, with_queues s (u32 (m_num_pending s - 1)) queue bins last_row (next_node s), st').

Definition schedule (h : reqs) (clk : gpu_clock) (id bank curr_row : Z) (s : frfcfs_scheduler) (st : memory_stats_t) :
    outcome (option Z * frfcfs_scheduler * memory_stats_t) :=
  '(r, s1, st1) ← choose_row h clk id bank curr_row s st;
  match r with
  | None => mret (None, s1, st1)
  | Some r => '(p, s2, st2) ← take_oldest h id bank r s1 st1; mret (Some p, s2, st2)
  end.

Definition num_pending (s : frfcfs_scheduler) : Z := m_num_pending s.

(** * What the scheduler promises *)

Definition row_of (h : reqs) (p : Z) : option Z := r_row <$> h !! p.
(** A request of the list wants the row. *)
Definition wanted (h : reqs) (ro : Z) (l : list Z) : Prop := Exists (fun p => row_of h p = Some ro) l.
#[export] Instance wanted_dec h ro l : Decision (wanted h ro l).
Proof. apply Exists_dec. intros. apply _. Defined.

(** The requests of a bank, oldest first, and the row it serves. *)
Record bank_view := View { pending : list Z; serving : option Z }.

(** First ready, first come: go on with the row being served; else take the open row
    if a request wants it; else the row of the oldest request.  Of the row chosen the
    oldest request leaves; the row stays chosen while requests for it are left. *)
Definition ready_row (h : reqs) (curr_row : Z) (v : bank_view) : option Z :=
  match serving v with
  | Some ro => Some ro
  | None => match pending v with
            | [] => None
            | oldest :: _ => if decide (wanted h curr_row (pending v)) then Some curr_row else row_of h oldest
            end
  end.
Definition pick (h : reqs) (curr_row : Z) (v : bank_view) : option (Z * bank_view) :=
  ro ← ready_row h curr_row v;
  '(i, p) ← list_find (fun p => row_of h p = Some ro) (pending v);
  let rest := delete i (pending v) in
  Some (p, View rest (if decide (wanted h ro rest) then Some ro else None)).

(** The view of a bank of the scheduler. *)
Definition view (s : frfcfs_scheduler) (b : Z) : bank_view :=
  View (match zread (m_queue s) b with Some q => reverse q.*2 | None => [] end)
    (match zread (m_last_row s) b with Some l => l | None => None end).

(** * The invariant *)

(** The iterators to the requests for a row, newest first. *)
Definition nodes_of (h : reqs) (ro : Z) (q : list (Z * Z)) : list Z :=
  (filter (fun e => row_of h e.2 = Some ro) q).*1.
Definition bin_of (h : reqs) (ro : Z) (q : list (Z * Z)) : option (list Z) :=
  match nodes_of h ro q with [] => None | l => Some l end.

Record bank_ok (h : reqs) (b : Z) (q : list (Z * Z)) (m : list (Z * list Z)) (l : option Z) : Prop := {
  bo_nodes : NoDup q.*1;
  bo_live : forall n p, (n, p) ∈ q -> exists r, h !! p = Some r /\ r_bk r = b;
  bo_ordered : ordered m;
  bo_bins : forall ro, ofind m ro = bin_of h ro q;
  bo_serving : forall ro, l = Some ro -> bin_of h ro q <> None }.

Record sched_ok (h : reqs) (nbk : Z) (s : frfcfs_scheduler) : Prop := {
  sk_queue : zlen (m_queue s) = nbk;
  sk_bins : zlen (m_bins s) = nbk;
  sk_last : zlen (m_last_row s) = nbk;
  sk_time : zlen (curr_row_service_time s) = nbk;
  sk_stamp : zlen (row_service_timestamp s) = nbk;
  sk_bank : forall b q m l, zread (m_queue s) b = Some q -> zread (m_bins s) b = Some m ->
    zread (m_last_row s) b = Some l -> bank_ok h b q m l;
  sk_fresh : forall q n p, q ∈ m_queue s -> (n, p) ∈ q -> n < next_node s;
  sk_count : m_num_pending s = zlen (concat (m_queue s)) }.

Lemma sched_ok_new h nbk : 0 <= nbk -> sched_ok h nbk (frfcfs_new nbk).
Proof.
  intros Hn. split; simpl; try (by apply zlen_replicate).
  - intros b q m l. rewrite !zread_replicate. case_match; [|done]. intros [= <-] [= <-] [= <-].
    split; simpl; try done; [constructor|by intros n p ?%not_elem_of_nil|apply ordered_nil].
  - intros q n p [-> _]%elem_of_replicate ?%not_elem_of_nil. done.
  - by induction (Z.to_nat nbk).
Qed.

(** ** Lists *)

(** Replacing one of several lists. *)
Lemma concat_zwrite {A} (L : list (list A)) b q : zread L b = Some q ->
  exists rest, concat L ≡ₚ q ++ rest /\ forall q', concat (zwrite L b q') ≡ₚ q' ++ rest.
Proof.
  intros Hq. pose proof (zread_range _ _ _ Hq) as Hr. rewrite zread_lookup in Hq by lia.
  unfold zwrite. rewrite (proj2 (Z.leb_le 0 b)) by lia.
  apply list_elem_of_split_length in Hq as (l1 & l2 & -> & Hl). exists (concat l1 ++ concat l2). split.
  - rewrite concat_app. simpl. by rewrite !(Permutation_app_comm (concat l1)), <- app_assoc, (Permutation_app_comm (concat l2)).
  - intros q'. rewrite Hl, insert_app_r_alt, Nat.sub_diag, concat_app by done. simpl.
    by rewrite !(Permutation_app_comm (concat l1)), <- app_assoc, (Permutation_app_comm (concat l2)).
Qed.

(** The last element that passes a test. *)
Lemma last_filter {A} (P : A → Prop) `{!∀ x, Decision (P x)} l e : last (filter P l) = Some e ->
  exists l1 l2, l = l1 ++ e :: l2 /\ P e /\ (forall x, x ∈ l2 -> ~ P x) /\ filter P l = filter P l1 ++ [e].
Proof.
  induction l as [|x l IH] using rev_ind; [done|]. rewrite filter_app, filter_cons, filter_nil.
  destruct (decide (P x)) as [Hx|Hx].
  - rewrite last_snoc. intros [= ->]. exists l, []. split_and!; [done|done|by intros ? ?%not_elem_of_nil|done].
  - rewrite app_nil_r. intros (l1 & l2 & -> & He & Hn & Hf)%IH. exists l1, (l2 ++ [x]).
    rewrite <- app_assoc. split_and!; [done|done| |done].
    intros y [Hy|Hy%list_elem_of_singleton]%elem_of_app; [by apply Hn|by subst].
Qed.

Lemma list_find_split {A} (P : A → Prop) `{!∀ x, Decision (P x)} l1 x l2 : P x -> (forall y, y ∈ l1 -> ~ P y) ->
  list_find P (l1 ++ x :: l2) = Some (length l1, x) /\ delete (length l1) (l1 ++ x :: l2) = l1 ++ l2.
Proof.
  intros Hx Hn. split; [|by rewrite delete_middle].
  apply list_find_Some. split_and!; [by apply list_lookup_middle|done|].
  intros j y Hj Hlt. rewrite lookup_app_l in Hj by done. apply Hn. by apply list_elem_of_lookup_2 in Hj.
Qed.

Lemma zwrite_same {A} (l : list A) b x : zread l b = Some x -> zwrite l b x = l.
Proof.
  intros Hx. pose proof (zread_range _ _ _ Hx). rewrite zread_lookup in Hx by lia.
  unfold zwrite. rewrite (proj2 (Z.leb_le 0 b)) by lia. by apply list_insert_id.
Qed.

(** ** One bank changes *)

(** All requests the scheduler holds. *)
Definition queued (s : frfcfs_scheduler) : list Z := (concat (m_queue s)).*2.

Section one_bank.
Context (h : reqs) (nbk : Z) (s : frfcfs_scheduler) (Hs : sched_ok h nbk s).
Context (b : Z) (Hb : 0 <= b < nbk).

(** The state of the bank. *)
Lemma bank_state : exists q m l, zread (m_queue s) b = Some q /\ zread (m_bins s) b = Some m /\
  zread (m_last_row s) b = Some l /\ bank_ok h b q m l.
Proof using Hs Hb.
  destruct Hs. destruct (zread_is_some (m_queue s) b ltac:(lia)) as [q Hq].
  destruct (zread_is_some (m_bins s) b ltac:(lia)) as [m Hm].
  destruct (zread_is_some (m_last_row s) b ltac:(lia)) as [l Hl]. exists q, m, l. split_and!; try done. by apply sk_bank0.
Qed.

Context (q0 : list (Z * Z)) (Hq0 : zread (m_queue s) b = Some q0).

Lemma sched_ok_write s' q m l : m_queue s' = zwrite (m_queue s) b q -> m_bins s' = zwrite (m_bins s) b m ->
  m_last_row s' = zwrite (m_last_row s) b l -> zlen (curr_row_service_time s') = nbk ->
  zlen (row_service_timestamp s') = nbk -> bank_ok h b q m l -> next_node s <= next_node s' ->
  (forall n p, (n, p) ∈ q -> n < next_node s') -> m_num_pending s' = m_num_pending s + (zlen q - zlen q0) ->
  sched_ok h nbk s'.
Proof using Hs Hb Hq0.
  intros Eq Em El Ht Hst Hok Hn Hfr Hc. pose proof Hs as [H1 H2 H3 H4 H5 Hbk Hf Hcnt].
  split; rewrite ?Eq, ?Em, ?El, ?zlen_zwrite; try done.
  - intros b' q' m' l'. rewrite !zread_zwrite by lia. destruct (Z.eqb_spec b b') as [<-|].
    + intros [= <-] [= <-] [= <-]. done.
    + by apply Hbk.
  - intros q' n p [->|Hq']%elem_of_zwrite Hin; [by eapply Hfr|]. specialize (Hf q' n p Hq' Hin). lia.
  - destruct (concat_zwrite (m_queue s) b q0 Hq0) as (rest & HP & HP').
    specialize (HP' q). apply Permutation_length in HP, HP'. rewrite length_app in HP, HP'.
    unfold zlen in *. lia.
Qed.

Lemma view_write s' q l : m_queue s' = zwrite (m_queue s) b q -> m_last_row s' = zwrite (m_last_row s) b l ->
  view s' b = View (reverse q.*2) l /\ forall b', b' <> b -> view s' b' = view s b'.
Proof using Hs Hb.
  intros Eq El. pose proof Hs as [H1 H2 H3 _ _ _ _ _]. unfold view. rewrite Eq, El. split.
  - by rewrite !zread_zwrite_eq by lia.
  - intros b' Hne. by rewrite !zread_zwrite_ne by done.
Qed.

Lemma queued_write s' q : m_queue s' = zwrite (m_queue s) b q ->
  exists rest, queued s ≡ₚ q0.*2 ++ rest /\ queued s' ≡ₚ q.*2 ++ rest.
Proof using Hq0.
  intros Eq. destruct (concat_zwrite (m_queue s) b q0 Hq0) as (rest & HP & HP'). exists (rest.*2).
  unfold queued. by rewrite Eq, HP, HP', !fmap_app.
Qed.
End one_bank.

Lemma nodes_of_cons h ro e q : nodes_of h ro (e :: q) =
  if decide (row_of h e.2 = Some ro) then e.1 :: nodes_of h ro q else nodes_of h ro q.
Proof. unfold nodes_of. rewrite filter_cons. by case_decide. Qed.

(** [add_req] puts the request behind those that wait at its bank. *)
Lemma add_req_spec h nbk s p r : sched_ok h nbk s -> h !! p = Some r -> 0 <= r_bk r < nbk ->
  m_num_pending s + 1 < 2 ^ 32 ->
  exists s', add_req h s p = Ok s' /\ sched_ok h nbk s' /\ m_num_pending s' = m_num_pending s + 1 /\
    queued s' ≡ₚ p :: queued s /\
    view s' (r_bk r) = View (pending (view s (r_bk r)) ++ [p]) (serving (view s (r_bk r))) /\
    forall b, b <> r_bk r -> view s' b = view s b.
Proof.
  intros Hs Hp Hb Hc. destruct (bank_state h nbk s Hs (r_bk r) Hb) as (q & m & l & Hq & Hm & Hl & Hok).
  pose proof Hs as [H1 H2 H3 H4 H5 Hbk Hf Hcnt].
  unfold add_req, req. rewrite Hp. simpl. rewrite (proj2 (aread_ok _ _ _) Hq). simpl.
  rewrite awrite_in by lia. simpl. rewrite (proj2 (aread_ok _ _ _) Hm). simpl. rewrite awrite_in by lia. simpl.
  eexists. split; [done|]. set (s' := with_queues _ _ _ _ _ _).
  assert (m_last_row s' = zwrite (m_last_row s) (r_bk r) l) as El by (by rewrite zwrite_same).
  assert (0 <= m_num_pending s) as Hc0 by (rewrite Hcnt; apply zlen_nonneg).
  destruct (view_write h nbk s Hs (r_bk r) Hb s' ((next_node s, p) :: q) l eq_refl El) as [Hv Hvo].
  split; [eapply (sched_ok_write h nbk s Hs (r_bk r) Hb q Hq s' ((next_node s, p) :: q)); simpl; try done|split_and!].
  - destruct Hok as [N1 N2 N3 N4 N5]. split.
    + simpl. constructor; [|done]. intros ([n p'] & E & He)%list_elem_of_fmap. simpl in E.
      apply zread_elem_of in Hq. specialize (Hf q n p' Hq He). simpl in *. lia.
    + intros n p' [[= -> ->]|Hin]%elem_of_cons; [by exists r|by eapply N2].
    + by apply ordered_upsert.
    + intros ro. rewrite ofind_upsert by done. unfold bin_of. rewrite nodes_of_cons. simpl.
      assert (row_of h p = Some (r_row r)) as Er by (unfold row_of; by rewrite Hp).
      rewrite (N4 ro). unfold bin_of.
      destruct (Z.eqb_spec ro (r_row r)) as [->|Hne].
      * rewrite decide_True by done. rewrite (N4 (r_row r)). unfold bin_of. by destruct (nodes_of _ _ _).
      * by rewrite decide_False by congruence.
    + intros ro Hro. unfold bin_of. rewrite nodes_of_cons. case_decide; [done|]. by apply N5.
  - lia.
  - intros n p' [[= -> ->]|Hin]%elem_of_cons; [lia|]. apply zread_elem_of in Hq. specialize (Hf q n p' Hq Hin). lia.
  - rewrite uwrap_small by lia. unfold zlen. simpl. lia.
  - simpl. rewrite uwrap_small; lia.
  - destruct (queued_write s (r_bk r) q Hq s' ((next_node s, p) :: q) eq_refl) as (rest & -> & ->). done.
  - rewrite Hv. unfold view. rewrite Hq, Hl. simpl. by rewrite reverse_cons.
  - done.
Qed.

Lemma wanted_bin h ro q : wanted h ro (reverse q.*2) <-> bin_of h ro q <> None.
Proof.
  unfold wanted, bin_of, nodes_of. rewrite Exists_exists. split.
  - intros (p & ([n p'] & -> & Hin)%elem_of_reverse%list_elem_of_fmap & Hp) E. simpl in Hp.
    assert ((n, p') ∈ filter (fun e => row_of h e.2 = Some ro) q) as Hf by (by apply list_elem_of_filter).
    by destruct (filter _ q); [apply not_elem_of_nil in Hf|].
  - intros E. destruct (filter (fun e => row_of h e.2 = Some ro) q) as [|e l] eqn:Ef; [done|].
    assert (e ∈ filter (fun e => row_of h e.2 = Some ro) q) as [He Hin]%list_elem_of_filter by (rewrite Ef; left).
    exists e.2. split; [|done]. apply elem_of_reverse, list_elem_of_fmap. by exists e.
Qed.

(** Taking the request [(n, p)] out of the queue of a bank. *)
Lemma bank_ok_take h b q m ro l1 n p l2 : bank_ok h b q m (Some ro) -> q = l1 ++ (n, p) :: l2 ->
  row_of h p = Some ro -> nodes_of h ro q = nodes_of h ro l1 ++ [n] ->
  let q' := l1 ++ l2 in
  let bin' := nodes_of h ro l1 in
  bank_ok h b q' (match bin' with [] => oerase m ro | _ => upsert m ro [] (fun _ => bin') end)
    (match bin' with [] => None | _ => Some ro end) /\
  (wanted h ro (reverse q'.*2) <-> bin' <> []).
Proof.
  intros [N1 N2 N3 N4 N5] -> Hp Hbin q' bin'.
  assert (nodes_of h ro q' = bin') as Eb.
  { unfold q', bin'. unfold nodes_of in *. rewrite filter_app, filter_cons, decide_True, !fmap_app, fmap_cons in Hbin by done.
    apply app_inv_head in Hbin. injection Hbin as Hbin. by rewrite filter_app, fmap_app, Hbin, app_nil_r. }
  assert (forall ro', ro' <> ro -> bin_of h ro' q' = bin_of h ro' (l1 ++ (n, p) :: l2)) as Eo.
  { intros ro' Hne. unfold bin_of, nodes_of, q'. by rewrite !filter_app, filter_cons, decide_False by (simpl; congruence). }
  split.
  - split.
    + unfold q'. rewrite fmap_app in N1 |- *. simpl in N1. rewrite <- Permutation_middle in N1. by inversion N1.
    + intros n' p' Hin. apply (N2 n' p'). unfold q' in Hin. rewrite elem_of_app in *. rewrite elem_of_cons. tauto.
    + destruct bin'; [by apply ordered_oerase|by apply ordered_upsert].
    + intros ro'. destruct (Z.eq_dec ro' ro) as [->|Hne].
      * unfold bin_of. rewrite Eb. destruct bin'; rewrite ?ofind_oerase, ?ofind_upsert, Z.eqb_refl by done; done.
      * rewrite Eo by done. rewrite <- N4.
        destruct bin'; rewrite ?ofind_oerase, ?ofind_upsert, (proj2 (Z.eqb_neq _ _)) by done; done.
    + intros ro'. unfold bin_of. destruct bin' eqn:E; [done|]. intros [= <-]. by rewrite Eb.
  - rewrite wanted_bin. unfold bin_of. rewrite Eb. by destruct bin'.
Qed.

(** ** The two halves of [schedule] *)

Section schedule.
Context (h : reqs) (nbk n_mem id : Z) (clk : gpu_clock).
Context (Hid : 0 <= id < n_mem).
Implicit Types (s : frfcfs_scheduler) (st : memory_stats_t).

(** What the steps keep of the statistics. *)
Definition stats_kept st st' : Prop := stats_ok n_mem nbk st' /\ m_n_shader st' = m_n_shader st /\
  gpgpu_memlatency_stat st' = gpgpu_memlatency_stat st.

Lemma stats_kept_trans st st1 st2 : stats_kept st st1 -> stats_kept st1 st2 -> stats_kept st st2.
Proof using. intros (_ & K1 & K2) (K3 & K4 & K5). split; [done|]. by rewrite K4, K5. Qed.

Lemma data_collection_ok s st b : sched_ok h nbk s -> stats_ok n_mem nbk st -> 0 <= b < nbk ->
  exists time stamps st', data_collection clk id b s st = Ok (with_service s time stamps, st') /\
    zlen time = nbk /\ zlen stamps = nbk /\ stats_kept st st'.
Proof using Hid.
  intros Hs Hst Hb. pose proof Hs as [_ _ _ H4 H5 _ _ _]. destruct Hst. unfold data_collection.
  destruct (aread_in (row_service_timestamp s) b ltac:(lia)) as (stamp & _ & ->). simpl.
  assert (exists maxt, (if stamp <? gpu_sim_cycle clk
      then m ← tread (max_servicetime2samerow st) id b;
           (if m <? u32 (gpu_sim_cycle clk - stamp)
            then tupdate (max_servicetime2samerow st) id b (fun _ => u32 (gpu_sim_cycle clk - stamp))
            else mret (max_servicetime2samerow st))
      else mret (max_servicetime2samerow st)) = Ok maxt /\ sized n_mem nbk maxt) as (maxt & -> & Hmaxt).
  { case_match; [|by eexists]. destruct (tread_ok n_mem nbk (max_servicetime2samerow st) id b) as (x & ->); [done..|].
    simpl. case_match; [by apply tupdate_ok|by eexists]. }
  simpl. rewrite !awrite_in by lia. simpl.
  destruct (tread_ok n_mem nbk (concurrent_row_access st) id b) as (c & ->); [done..|]. simpl.
  destruct (tread_ok n_mem nbk (max_conc_access2samerow st) id b) as (mc & ->); [done..|]. simpl.
  assert (exists maxc, (if mc <? c then tupdate (max_conc_access2samerow st) id b (fun _ => c)
      else mret (max_conc_access2samerow st)) = Ok maxc /\ sized n_mem nbk maxc) as (maxc & -> & Hmaxc).
  { case_match; [by apply tupdate_ok|by eexists]. }
  simpl. destruct (tupdate_ok n_mem nbk (concurrent_row_access st) id b (fun _ => 0)) as (c' & -> & Hc'); [done..|]. simpl.
  destruct (tupdate_ok n_mem nbk (num_activates st) id b (fun n => u32 (n + 1))) as (a' & Ea & Ha'); [done..|].
  unfold tcount. rewrite Ea. simpl. eexists _, _, _. split; [done|]. rewrite !zlen_zwrite. by split_and!.
Qed.

Lemma last_pending (q : list (Z * Z)) n p : last q = Some (n, p) -> exists l, reverse q.*2 = p :: l.
Proof. intros [l ->]%last_Some. rewrite fmap_app, reverse_app. by eexists. Qed.

Lemma choose_row_spec s st b curr : sched_ok h nbk s -> stats_ok n_mem nbk st -> 0 <= b < nbk ->
  exists s1 st1, choose_row h clk id b curr s st = Ok (ready_row h curr (view s b), s1, st1) /\
    sched_ok h nbk s1 /\ stats_kept st st1 /\ queued s1 = queued s /\ m_num_pending s1 = m_num_pending s /\
    view s1 b = View (pending (view s b)) (ready_row h curr (view s b)) /\
    forall b', b' <> b -> view s1 b' = view s b'.
Proof using Hid.
  intros Hs Hst Hb. destruct (bank_state h nbk s Hs b Hb) as (q & m & l & Hq & Hm & Hl & Hok).
  pose proof Hs as [H1 H2 H3 H4 H5 Hbk Hf Hcnt].
  assert (Hw : forall ro time stamps, zlen time = nbk -> zlen stamps = nbk -> bin_of h ro q <> None ->
    let s1 := with_service (with_last_row s (zwrite (m_last_row s) b (Some ro))) time stamps in
    sched_ok h nbk s1 /\ view s1 b = View (reverse q.*2) (Some ro) /\ forall b', b' <> b -> view s1 b' = view s b').
  { intros ro time stamps Ht Hsp Hro s1.
    assert (m_queue s1 = zwrite (m_queue s) b q) as Eq by (by rewrite zwrite_same).
    split; [|by apply (view_write h nbk s Hs b Hb s1 q (Some ro))].
    apply (sched_ok_write h nbk s Hs b Hb q Hq s1 q m (Some ro)); simpl; try done.
    - by rewrite zwrite_same.
    - destruct Hok as [N1 N2 N3 N4 N5]. split; try done. intros ro' [= <-]. done.
    - intros n p Hin. apply zread_elem_of in Hq. by apply (Hf q n p).
    - lia. }
  assert (view s b = View (reverse q.*2) l) as Ev by (unfold view; by rewrite Hq, Hl).
  unfold choose_row. rewrite (proj2 (aread_ok _ _ _) Hl), Ev. simpl. unfold ready_row. simpl.
  assert (stats_kept st st) as Hkeep by done.
  destruct l as [ro|]. { exists s, st. by split_and!. }
  rewrite (proj2 (aread_ok _ _ _) Hq). simpl. destruct (last q) as [[n p]|] eqn:Elast.
  2: { apply last_None in Elast as ->. exists s, st. by split_and!. }
  destruct (last_pending q n p Elast) as [rest Erest]. rewrite Erest. rewrite <- Erest.
  rewrite (proj2 (aread_ok _ _ _) Hm). simpl. rewrite (bo_bins _ _ _ _ _ Hok curr).
  destruct (bin_of h curr q) as [bin|] eqn:Ebin.
  - rewrite decide_True by (apply wanted_bin; by rewrite Ebin). rewrite awrite_in by lia. simpl.
    destruct (Hw curr (curr_row_service_time s) (row_service_timestamp s)) as (W1 & W2 & W3); [done|done|by rewrite Ebin|].
    eexists _, st. split; [done|]. by split_and!.
  - rewrite decide_False by (rewrite wanted_bin, Ebin; tauto).
    assert ((n, p) ∈ q) as Hin by (by apply last_Some_elem_of).
    destruct (bo_live _ _ _ _ _ Hok n p Hin) as (r & Hp & Hbp). unfold req, row_of. rewrite Hp. simpl.
    assert (bin_of h (r_row r) q <> None) as Hbin.
    { apply wanted_bin. unfold wanted. rewrite Exists_exists. exists p.
      split; [apply elem_of_reverse, list_elem_of_fmap; by exists (n, p)|]. unfold row_of. by rewrite Hp. }
    rewrite (bo_bins _ _ _ _ _ Hok (r_row r)). rewrite cassert_true by (by destruct (bin_of h (r_row r) q)). simpl.
    rewrite awrite_in by lia. simpl.
    destruct (Hw (r_row r) (curr_row_service_time s) (row_service_timestamp s)) as (W1 & _); [done..|].
    destruct (data_collection_ok _ st b W1 Hst Hb) as (time & stamps & st1 & E & Ht & Hsp & Hk).
    match type of E with data_collection _ _ _ ?x _ = _ => change x with (with_last_row s (zwrite (m_last_row s) b (Some (r_row r)))) in E end.
    rewrite E. simpl. destruct (Hw (r_row r) time stamps Ht Hsp Hbin) as (W1' & W2' & W3').
    eexists _, st1. split; [done|]. by split_and!.
Qed.

Lemma take_oldest_spec s st b ro : sched_ok h nbk s -> stats_ok n_mem nbk st -> 0 <= b < nbk ->
  m_num_pending s < 2 ^ 32 -> serving (view s b) = Some ro ->
  exists p s' st' l1 l2, take_oldest h id b ro s st = Ok (p, s', st') /\ sched_ok h nbk s' /\ stats_kept st st' /\
    queued s ≡ₚ p :: queued s' /\ m_num_pending s' = m_num_pending s - 1 /\
    pending (view s b) = l1 ++ p :: l2 /\ row_of h p = Some ro /\ (forall x, x ∈ l1 -> row_of h x <> Some ro) /\
    view s' b = View (l1 ++ l2) (if decide (wanted h ro (l1 ++ l2)) then Some ro else None) /\
    forall b', b' <> b -> view s' b' = view s b'.
Proof using Hid.
  intros Hs Hst Hb Hc Hsv. destruct (bank_state h nbk s Hs b Hb) as (q & m & l & Hq & Hm & Hl & Hok).
  pose proof Hs as [H1 H2 H3 H4 H5 Hbk Hf Hcnt].
  assert (l = Some ro) as -> by (unfold view in Hsv; by rewrite Hl in Hsv).
  assert (view s b = View (reverse q.*2) (Some ro)) as Ev by (unfold view; by rewrite Hq, Hl).
  pose proof (bo_serving _ _ _ _ _ Hok ro eq_refl) as Hbin.
  destruct (last (filter (fun e => row_of h e.2 = Some ro) q)) as [[n p]|] eqn:El.
  2: { exfalso. apply last_None in El. apply Hbin. unfold bin_of, nodes_of. by rewrite El. }
  destruct (last_filter _ _ _ El) as (l1 & l2 & Eq & Hp & Hn & Hfil). simpl in Hp.
  assert (nodes_of h ro q = nodes_of h ro l1 ++ [n]) as Ebin by (unfold nodes_of; by rewrite Hfil, fmap_app).
  destruct (bank_ok_take h b q m ro l1 n p l2 Hok Eq Hp Ebin) as [Hok' Hw]. set (bin' := nodes_of h ro l1) in *.
  unfold take_oldest. rewrite (proj2 (aread_ok _ _ _) Hq), (proj2 (aread_ok _ _ _) Hm). simpl.
  rewrite (bo_bins _ _ _ _ _ Hok ro). unfold bin_of. rewrite Ebin. destruct (bin' ++ [n]) eqn:Es; [by destruct bin'|].
  rewrite <- Es. simpl. rewrite last_snoc. simpl. pose proof (bo_nodes _ _ _ _ _ Hok) as Hnd.
  rewrite Eq, fmap_app in Hnd. simpl in Hnd. apply NoDup_app in Hnd as (Hd1 & Hd2 & Hd3).
  assert (forall e, e ∈ l1 -> e.1 <> n) as Hn1.
  { intros e He E. apply (Hd2 n); [apply list_elem_of_fmap; by exists e|left]. }
  assert (forall e, e ∈ l2 -> e.1 <> n) as Hn2.
  { intros e He E. apply NoDup_cons in Hd3 as [Hd3 _]. apply Hd3, list_elem_of_fmap. by exists e. }
  assert (list_find (fun e : Z * Z => e.1 = n) q = Some (length l1, (n, p))) as Efind.
  { rewrite Eq. by apply (list_find_split (fun e : Z * Z => e.1 = n) l1 (n, p) l2). }
  rewrite Efind. simpl. destruct (count_row_access_ok n_mem nbk st Hst id b Hid Hb) as (st' & -> & Hst').
  simpl. rewrite awrite_in by lia. simpl. rewrite length_app, Nat.add_sub, take_app_length.
  assert (filter (fun e : Z * Z => e.1 <> n) q = l1 ++ l2) as Eq'.
  { rewrite Eq, filter_app, filter_cons, decide_False by (simpl; tauto).
    by rewrite !filter_every. }
  rewrite Eq'. destruct (bo_live _ _ _ _ _ Hok n p) as (r & Hr & _); [rewrite Eq; apply elem_of_app; right; left|].
  assert (r_row r = ro) as Erow by (unfold row_of in Hp; rewrite Hr in Hp; by injection Hp).
  assert (0 < m_num_pending s) as Hpos.
  { rewrite Hcnt. destruct (concat_zwrite (m_queue s) b q Hq) as (rest & HP & _). apply Permutation_length in HP.
    unfold zlen. rewrite HP, length_app, Eq, length_app. simpl. lia. }
  match goal with |- context [x ← ?e; _] => replace e with (Ok (match bin' with [] => oerase m ro | _ => upsert m ro [] (fun _ => bin') end,
     zwrite (m_last_row s) b (match bin' with [] => None | _ => Some ro end))) end.
  2: { destruct bin'; [|by rewrite zwrite_same]. unfold req. rewrite Hr. simpl. by rewrite Erow. }
  simpl. rewrite awrite_in by lia. simpl. rewrite cassert_true by (apply negb_true_iff, Z.eqb_neq; lia). simpl.
  rewrite awrite_in by lia. simpl. eexists p, _, st', (reverse l2.*2), (reverse l1.*2). split; [done|]. set (s' := with_queues _ _ _ _ _ _).
  destruct (view_write h nbk s Hs b Hb s' (l1 ++ l2) (match bin' with [] => None | _ => Some ro end) eq_refl eq_refl) as [Hv Hvo].
  split_and!; try done.
  - eapply (sched_ok_write h nbk s Hs b Hb q Hq s' (l1 ++ l2)); simpl; try done.
    + intros n' p' Hin. apply (Hf q n' p'); [by apply zread_elem_of in Hq|]. rewrite Eq, elem_of_app, elem_of_cons.
      apply elem_of_app in Hin. tauto.
    + rewrite uwrap_small by lia. rewrite Eq, !zlen_app. unfold zlen. simpl. lia.
  - destruct (queued_write s b q Hq s' (l1 ++ l2) eq_refl) as (rest & -> & ->). rewrite Eq, !fmap_app. simpl.
    by rewrite <- Permutation_middle.
  - simpl. rewrite uwrap_small; lia.
  - rewrite Hq, Eq. by rewrite fmap_app, fmap_cons, reverse_app, reverse_cons, <- app_assoc.
  - intros x (e & -> & He)%elem_of_reverse%list_elem_of_fmap. by apply Hn.
  - rewrite Hv, <- !reverse_app, <- fmap_app. f_equal. destruct (decide _) as [Hd|Hd].
    + apply Hw in Hd. by destruct bin'.
    + destruct bin'; [done|]. exfalso. by apply Hd, Hw.
Qed.

Lemma frfcfs_schedule_spec s st b curr : sched_ok h nbk s -> stats_ok n_mem nbk st -> 0 <= b < nbk ->
  m_num_pending s < 2 ^ 32 ->
  exists s' st', schedule h clk id b curr s st = Ok (fst <$> pick h curr (view s b), s', st') /\
    sched_ok h nbk s' /\ stats_kept st st' /\ queued s ≡ₚ option_list (fst <$> pick h curr (view s b)) ++ queued s' /\
    m_num_pending s' <= m_num_pending s /\
    view s' b = match pick h curr (view s b) with Some (_, v) => v | None => view s b end /\
    forall b', b' <> b -> view s' b' = view s b'.
Proof using Hid.
  intros Hs Hst Hb Hc. unfold schedule, pick.
  destruct (choose_row_spec s st b curr Hs Hst Hb) as (s1 & st1 & -> & Hs1 & Hk1 & Eq1 & Ec1 & Hv1 & Ho1).
  simpl. destruct (ready_row h curr (view s b)) as [ro|] eqn:Er; simpl.
  - destruct (take_oldest_spec s1 st1 b ro Hs1 (proj1 Hk1) Hb) as
      (p & s2 & st2 & l1 & l2 & -> & Hs2 & Hk2 & Eq2 & Ec2 & Hpe & Hrow & Hl1 & Hv2 & Ho2); [lia|by rewrite Hv1|].
    rewrite Hv1 in Hpe. simpl in Hpe. rewrite Hpe. simpl.
    destruct (list_find_split (fun p => row_of h p = Some ro) l1 p l2 Hrow Hl1) as [-> Ed]. simpl. rewrite Ed.
    exists s2, st2. split; [done|]. split; [done|]. split; [by apply (stats_kept_trans st st1)|].
    split_and!; [by rewrite <- Eq1|lia|done|]. intros b' Hne. by rewrite Ho2, Ho1.
  - exists s1, st1. split_and!; try done; [by rewrite Eq1|lia|]. rewrite Hv1. unfold ready_row in Er.
    by destruct (view s b) as [pe [ro|]].
Qed.

(** C27: The DRAM scheduler implements first-ready, first-come first-served: the request
    that schedule returns for a bank, and what is left waiting there, are those of the
    policy on the list of the bank's requests; the other banks are untouched and no
    request is lost or doubled. *)
Theorem frfcfs_refines s st b curr : sched_ok h nbk s -> stats_ok n_mem nbk st -> 0 <= b < nbk ->
  m_num_pending s < 2 ^ 32 ->
  exists s' st', schedule h clk id b curr s st = Ok (fst <$> pick h curr (view s b), s', st') /\
    sched_ok h nbk s' /\ stats_ok n_mem nbk st' /\
    view s' b = match pick h curr (view s b) with Some (_, v) => v | None => view s b end /\
    (forall b', b' <> b -> view s' b' = view s b') /\
    queued s ≡ₚ option_list (fst <$> pick h curr (view s b)) ++ queued s'.
Proof using Hid.
  intros Hs Hst Hb Hc. destruct (frfcfs_schedule_spec s st b curr Hs Hst Hb Hc) as (s' & st' & E & H1 & [H2 _] & H3 & _ & H4 & H5).
  by exists s', st'.
Qed.
End schedule.

(** The invariant looks only at the bank and the row of the requests that wait. *)
Lemma sched_ok_frame h h' nbk s : sched_ok h nbk s ->
  (forall p r, p ∈ queued s -> h !! p = Some r -> exists r', h' !! p = Some r' /\ r_row r' = r_row r /\ r_bk r' = r_bk r) ->
  sched_ok h' nbk s /\ forall p, p ∈ queued s -> row_of h' p = row_of h p.
Proof.
  intros [H1 H2 H3 H4 H5 Hbk Hf Hcnt] Hsame.
  assert (forall b q, zread (m_queue s) b = Some q -> forall n p, (n, p) ∈ q -> p ∈ queued s) as Hin.
  { intros b q Hq n p He. unfold queued. apply list_elem_of_fmap. exists (n, p). split; [done|].
    apply list_elem_of_In, in_concat. exists q. rewrite <- !list_elem_of_In. by apply zread_elem_of in Hq. }
  assert (forall p, p ∈ queued s -> exists r, h !! p = Some r) as Hlive.
  { intros p ([n p'] & -> & He)%list_elem_of_fmap. apply list_elem_of_In, in_concat in He as (q & Hq & He).
    rewrite <- list_elem_of_In in Hq. rewrite <- list_elem_of_In in He. apply elem_of_zread in Hq as (b & Hb & Hq).
    destruct (zread_is_some (m_bins s) b ltac:(lia)) as [m Hm].
    destruct (zread_is_some (m_last_row s) b ltac:(lia)) as [l Hl].
    destruct (bo_live _ _ _ _ _ (Hbk b q m l Hq Hm Hl) n p' He) as (r & Hr & _). by exists r. }
  assert (forall p, p ∈ queued s -> row_of h' p = row_of h p) as Hrow.
  { intros p Hp. destruct (Hlive p Hp) as [r Hr]. destruct (Hsame p r Hp Hr) as (r' & Hr' & E & _).
    unfold row_of. rewrite Hr, Hr'. simpl. by rewrite E. }
  split; [|done]. split; try done. intros b q m l Hq Hm Hl. destruct (Hbk b q m l Hq Hm Hl) as [N1 N2 N3 N4 N5].
  assert (forall ro, bin_of h' ro q = bin_of h ro q) as Eb.
  { intros ro. unfold bin_of, nodes_of. f_equal. pose proof (Hin b q Hq) as Hq'. clear -Hq' Hrow.
    assert (filter (fun e => row_of h' e.2 = Some ro) q = filter (fun e => row_of h e.2 = Some ro) q) as ->; [|done].
    induction q as [|[n p] q IH]; [done|]. rewrite !filter_cons, IH by (intros n' p' ?; apply (Hq' n'); by right).
    specialize (Hrow p (Hq' n p ltac:(left))). simpl. destruct (decide (row_of h' p = _)), (decide (row_of h p = _)); congruence. }
  split; try done.
  - intros n p He. destruct (N2 n p He) as (r & Hr & Eb'). destruct (Hsame p r (Hin b q Hq n p He) Hr) as (r' & Hr' & _ & E).
    exists r'. by rewrite E.
  - intros ro. by rewrite Eb.
  - intros ro. rewrite Eb. apply N5.
Qed.

Lemma sched_ok_live h nbk s p : sched_ok h nbk s -> p ∈ queued s -> exists r, h !! p = Some r /\ 0 <= r_bk r < nbk.
Proof.
  intros [H1 H2 H3 _ _ Hbk _ _] ([n p'] & -> & He)%list_elem_of_fmap.
  apply list_elem_of_In, in_concat in He as (q & Hq & He). rewrite <- list_elem_of_In in Hq. rewrite <- list_elem_of_In in He.
  apply elem_of_zread in Hq as (b & Hb & Hq). destruct (zread_is_some (m_bins s) b ltac:(lia)) as [m Hm].
  destruct (zread_is_some (m_last_row s) b ltac:(lia)) as [l Hl].
  destruct (bo_live _ _ _ _ _ (Hbk b q m l Hq Hm Hl) n p' He) as (r & Hr & E). exists r. split; [done|]. simpl in *. lia.
Qed.

(** * A bank with three requests *)

Definition demo_req (b ro p : Z) : dram_req_t := mkReq ro 0 b 32 0 0 0 READ 0 0 p.
Definition demo_reqs : reqs := {[ 1 := demo_req 0 5 101; 2 := demo_req 0 7 102; 3 := demo_req 0 5 103 ]}.
Definition demo_adds : outcome frfcfs_scheduler :=
  s ← add_req demo_reqs (frfcfs_new 2) 1; s ← add_req demo_reqs s 2; add_req demo_reqs s 3.
Definition demo_sched : frfcfs_scheduler := match demo_adds with Ok s => s | Err _ => frfcfs_new 2 end.

Lemma demo_sched_ok : sched_ok demo_reqs 2 demo_sched.
Proof.
  unfold demo_sched, demo_adds.
  destruct (add_req_spec demo_reqs 2 (frfcfs_new 2) 1 (demo_req 0 5 101)) as (s1 & -> & H1 & C1 & _);
    [by apply sched_ok_new|done|done|done|]. simpl.
  destruct (add_req_spec demo_reqs 2 s1 2 (demo_req 0 7 102)) as (s2 & -> & H2 & C2 & _); [done|done|done|by rewrite C1|]. simpl.
  destruct (add_req_spec demo_reqs 2 s2 3 (demo_req 0 5 103)) as (s3 & -> & H3 & _); [done|done|done|by rewrite C2, C1|]. done.
Qed.

(** With row 7 open its request goes first, then the oldest, which wants row 5; row 5
    is then served to its end although row 7 is the open one. *)
Lemma frfcfs_refines_witness : exists s' st',
  schedule demo_reqs (mkClock 9 0) 0 0 7 demo_sched (memory_stats_new true 1 1 2) = Ok (Some 2, s', st') /\
  view s' 0 = View [1; 3] None /\ pick demo_reqs 7 (view s' 0) = Some (1, View [3] (Some 5)).
Proof.
  destruct (frfcfs_refines demo_reqs 2 1 0 (mkClock 9 0) ltac:(done) demo_sched (memory_stats_new true 1 1 2) 0 7)
    as (s' & st' & E & _ & _ & Hv & _).
  - apply demo_sched_ok.
  - by apply memory_stats_new_ok.
  - done.
  - by vm_compute.
  - exists s', st'. split; [exact E|]. rewrite Hv. split; by vm_compute.
Defined.
