(* ===== verification/Dram.v ===== *)
(** * A DRAM channel

    [dram_t] of [gpgpu-sim/dram.{h,cc}] with the [frfcfs] part of
    [gpgpu-sim/dram_sched.cc], and the derived timing of [memory_config::init]
    ([gpgpu-sim/gpu-config.h]).  A request waits in [mrqq], then in the scheduler, then
    at its bank, which sends one atom of it a command; the atoms travel through [rwq],
    which holds the request once for each atom on the way, and the last one frees the
    request and returns its [mem_fetch].  The commands a cycle issues are those that the
    code prints under [DRAM_VERIFY]. *)

From S2P Require Import Prelude OrdMap Coalesce AddrDec MemFetch MemStats FrFcfs DelayQueue.

(** * Configuration *)

Inductive dram_ctrl_t := DRAM_FIFO | DRAM_FRFCFS.
#[export] Instance dram_ctrl_eq_dec : EqDecision dram_ctrl_t.
Proof. solve_decision. Defined.

(** The fields of [memory_config] a channel reads. *)
Record dram_config := mkDramConfig {
  gpgpu_dram_sched_queue_size : Z;
  scheduler_type : dram_ctrl_t;
  m_n_mem : Z;
  nbk : Z;
  nbkgrp : Z;
  bk_tag_length : Z;
  tCCD : Z;
  tCCDL : Z;
  tRTPL : Z;
  tRRD : Z;
  tRCD : Z;
  tRCDWR : Z;
  tRAS : Z;
  tRP : Z;
  tRC : Z;
  CL : Z;
  WL : Z;
  BL : Z;
  data_command_freq_ratio : Z;
  tRTW : Z;
  tWTR : Z;
  tWTP : Z;
  dram_atom_size : Z }.

(** [for (i = 0; nbkt > 0; i++) nbkt = nbkt >> 1] *)
Fixpoint tag_bits (fuel : nat) (i nbkt : Z) : outcome Z :=
  match fuel with
  | O => Err OutOfFuel
  | S fuel' => if 0 <? nbkt then tag_bits fuel' (i + 1) (Z.shiftr nbkt 1) else Ok i
  end.

(** [memory_config::init] after the timing options are read. *)
Definition memory_config_init (queue_size : Z) (type : dram_ctrl_t) (n_mem n_per_ctrlr busW : Z)
    (nbk tCCD tRRD tRCD tRAS tRP tRC CL WL tCDLR tWR nbkgrp tCCDL tRTPL BL ratio : Z) : outcome dram_config :=
  nbkt ← (if nbkgrp =? 0 then Err Undefined else Ok (s32 (nbk `div` nbkgrp)));
  tag ← tag_bits 33 0 nbkt;
  cassert (0 <? nbkgrp);;
  burst ← (if ratio =? 0 then Err Undefined else Ok (BL `div` ratio));
  mret (mkDramConfig queue_size type n_mem nbk nbkgrp tag tCCD tCCDL tRTPL tRRD tRCD (u32 (tRCD - (WL + 1))) tRAS tRP tRC
          CL WL BL ratio (u32 (CL + burst + 2 - WL)) (u32 (WL + burst + tCDLR)) (u32 (WL + burst + tWR))
          (u32 (BL * busW * n_per_ctrlr))).

Definition burst_cycles (c : dram_config) : Z := BL c `div` data_command_freq_ratio c.

(** * State *)

Inductive bank_state := BANK_IDLE | BANK_ACTIVE.
#[export] Instance bank_state_eq_dec : EqDecision bank_state.
Proof. solve_decision. Defined.

(** [rw] and [n_writes] of the banks are never used. *)
Record bank_t := mkBank {
  RCDc : Z;
  RCDWRc : Z;
  RASc : Z;
  RPc : Z;
  RCc : Z;
  WTPc : Z;
  RTPc : Z;
  b_state : bank_state;
  curr_row : Z;
  mrq : option Z;
  n_access : Z;
  n_idle : Z;
  bkgrpindex : Z }.
Record bankgrp_t := mkGroup { CCDLc : Z; RTPLc : Z }.

(** The timers that all banks share. *)
Record timers := mkTimers { RRDc : Z; CCDc : Z; RTWc : Z; WTRc : Z }.

(** The counters of the channel. *)
Record dram_stats := mkCounts {
  n_cmd : Z; n_activity : Z; n_nop : Z; n_act : Z; n_pre : Z; n_rd : Z; n_wr : Z; n_req : Z;
  max_mrqs_temp : Z; bwutil : Z; max_mrqs : Z; ave_mrqs : Z;
  n_cmd_partial : Z; n_activity_partial : Z; n_nop_partial : Z; n_act_partial : Z; n_pre_partial : Z;
  n_req_partial : Z; ave_mrqs_partial : Z; bwutil_partial : Z }.

Record dram_t := mkDram {
  d_id : Z;
  d_timers : timers;
  d_rw : rw_t;
  bkgrp : list bankgrp_t;
  banks : list bank_t;
  prio : Z;
  rwq : fifo_pipeline Z;
  mrqq : fifo_pipeline Z;
  returnq : fifo_pipeline Z;
  m_frfcfs_scheduler : option frfcfs_scheduler;
  counts : dram_stats }.

(** A channel with what it shares: its requests, the [mem_fetch] objects, the request
    tracker of its memory partition, and the statistics. *)
Record channel := mkChannel {
  dram : dram_t;
  ch_reqs : reqs;
  next_req : Z;
  fetches : heap;
  m_request_tracker : gset Z;
  m_stats : memory_stats_t }.

(** ** Field updates *)

Section dram_fields.
Context (d : dram_t).
Definition with_timers (t : timers) := mkDram (d_id d) t (d_rw d) (bkgrp d) (banks d) (prio d) (rwq d) (mrqq d) (returnq d) (m_frfcfs_scheduler d) (counts d).
Definition with_bus (rw : rw_t) (q : fifo_pipeline Z) := mkDram (d_id d) (d_timers d) rw (bkgrp d) (banks d) (prio d) q (mrqq d) (returnq d) (m_frfcfs_scheduler d) (counts d).
Definition with_bkgrp (g : list bankgrp_t) := mkDram (d_id d) (d_timers d) (d_rw d) g (banks d) (prio d) (rwq d) (mrqq d) (returnq d) (m_frfcfs_scheduler d) (counts d).
Definition with_banks (b : list bank_t) := mkDram (d_id d) (d_timers d) (d_rw d) (bkgrp d) b (prio d) (rwq d) (mrqq d) (returnq d) (m_frfcfs_scheduler d) (counts d).
Definition with_prio (p : Z) := mkDram (d_id d) (d_timers d) (d_rw d) (bkgrp d) (banks d) p (rwq d) (mrqq d) (returnq d) (m_frfcfs_scheduler d) (counts d).
Definition with_mrqq (q : fifo_pipeline Z) := mkDram (d_id d) (d_timers d) (d_rw d) (bkgrp d) (banks d) (prio d) (rwq d) q (returnq d) (m_frfcfs_scheduler d) (counts d).
Definition with_returnq (q : fifo_pipeline Z) := mkDram (d_id d) (d_timers d) (d_rw d) (bkgrp d) (banks d) (prio d) (rwq d) (mrqq d) q (m_frfcfs_scheduler d) (counts d).
Definition with_sched (s : option frfcfs_scheduler) := mkDram (d_id d) (d_timers d) (d_rw d) (bkgrp d) (banks d) (prio d) (rwq d) (mrqq d) (returnq d) s (counts d).
Definition with_counts (c : dram_stats) := mkDram (d_id d) (d_timers d) (d_rw d) (bkgrp d) (banks d) (prio d) (rwq d) (mrqq d) (returnq d) (m_frfcfs_scheduler d) c.
End dram_fields.

Section channel_fields.
Context (w : channel).
Definition with_dram (d : dram_t) := mkChannel d (ch_reqs w) (next_req w) (fetches w) (m_request_tracker w) (m_stats w).
Definition with_reqs (h : reqs) (n : Z) := mkChannel (dram w) h n (fetches w) (m_request_tracker w) (m_stats w).
Definition with_fetches (h : heap) := mkChannel (dram w) (ch_reqs w) (next_req w) h (m_request_tracker w) (m_stats w).
Definition with_tracker (t : gset Z) := mkChannel (dram w) (ch_reqs w) (next_req w) (fetches w) t (m_stats w).
Definition with_stats (s : memory_stats_t) := mkChannel (dram w) (ch_reqs w) (next_req w) (fetches w) (m_request_tracker w) s.
End channel_fields.

Definition set_mrq (b : bank_t) (m : option Z) : bank_t :=
  mkBank (RCDc b) (RCDWRc b) (RASc b) (RPc b) (RCc b) (WTPc b) (RTPc b) (b_state b) (curr_row b) m (n_access b) (n_idle b) (bkgrpindex b).
Definition count_idle (b : bank_t) : bank_t :=
  mkBank (RCDc b) (RCDWRc b) (RASc b) (RPc b) (RCc b) (WTPc b) (RTPc b) (b_state b) (curr_row b) (mrq b) (n_access b) (u32 (n_idle b + 1)) (bkgrpindex b).

(** [data->set_status(status, cycle)] for the [mem_fetch] of a request. *)
Definition touch_fetch (clk : gpu_clock) (status : mem_fetch_status) (w : channel) (data : Z) : outcome channel :=
  h ← update (fetches w) data (fun mf => set_mf_status mf status (now clk));
  mret (with_fetches w h).
Definition store_req (w : channel) (p : Z) (r : dram_req_t) : channel :=
  with_reqs w (<[p := r]> (ch_reqs w)) (next_req w).

(** * The constructor *)

Definition no_counts : dram_stats := mkCounts 0 0 0 0 0 0 0 0 0 0 0 0 0 0 0 0 0 0 0 0.
Definition new_bank (c : dram_config) (i : Z) : bank_t :=
  mkBank 0 0 0 0 0 0 0 BANK_IDLE 0 None 0 0 (i `div` (nbk c `div` nbkgrp c)).

Definition dram_new (c : dram_config) (id : Z) : outcome dram_t :=
  rwq ← fifo_new (CL c) (u32 (CL c + 1));
  mrqq ← fifo_new 0 2;
  returnq ← fifo_new 0 (gpgpu_dram_sched_queue_size c);
  mret (mkDram id (mkTimers 0 0 0 0) READ (replicate (Z.to_nat (nbkgrp c)) (mkGroup 0 0))
          (new_bank c <$> seqZ 0 (nbk c)) 0 rwq mrqq returnq
          (match scheduler_type c with DRAM_FRFCFS => Some (frfcfs_new (nbk c)) | DRAM_FIFO => None end) no_counts).

(** * Requests in and out *)

Definition sched_pending (d : dram_t) : outcome Z :=
  match m_frfcfs_scheduler d with Some s => Ok (num_pending s) | None => Err BadAccess end.

Definition dram_full (c : dram_config) (d : dram_t) : outcome bool :=
  if gpgpu_dram_sched_queue_size c =? 0 then mret false
  else match scheduler_type c with
       | DRAM_FRFCFS => n ← sched_pending d; mret ((gpgpu_dram_sched_queue_size c <=? n) || full (mrqq d))
       | DRAM_FIFO => mret (full (mrqq d))
       end.

Definition que_length (c : dram_config) (d : dram_t) : outcome Z :=
  match scheduler_type c with DRAM_FRFCFS => sched_pending d | DRAM_FIFO => mret (get_length (mrqq d)) end.

Definition returnq_full (d : dram_t) : bool := full (returnq d).
Definition queue_limit (c : dram_config) : Z := gpgpu_dram_sched_queue_size c.

Definition count_push (nreqs : Z) (k : dram_stats) : dram_stats :=
  mkCounts (n_cmd k) (n_activity k) (n_nop k) (n_act k) (n_pre k) (n_rd k) (n_wr k) (u32 (n_req k + 1))
    (if max_mrqs_temp k <? nreqs then nreqs else max_mrqs_temp k) (bwutil k) (max_mrqs k) (ave_mrqs k) (n_cmd_partial k)
    (n_activity_partial k) (n_nop_partial k) (n_act_partial k) (n_pre_partial k) (u32 (n_req_partial k + 1))
    (ave_mrqs_partial k) (bwutil_partial k).

Definition dram_push (c : dram_config) (clk : gpu_clock) (w : channel) (data : Z) : outcome channel :=
  mf ← deref (fetches w) data;
  let p := next_req w in
  let w := with_reqs w (<[p := dram_req_new clk data mf]> (ch_reqs w)) (next_req w + 1) in
  w ← touch_fetch clk IN_PARTITION_MC_INTERFACE_QUEUE w data;
  q ← push (mrqq (dram w)) (Some p);
  let d := with_mrqq (dram w) q in
  nreqs ← que_length c d;
  st ← memlatstat_dram_access (m_stats w) mf;
  mret (with_stats (with_dram w (with_counts d (count_push nreqs (counts d)))) st).

Definition dram_pop (w : channel) : outcome (option Z * channel) :=
  '(data, q) ← pop (returnq (dram w));
  mret (data, with_dram w (with_returnq (dram w) q)).

(** * A cycle *)

(** An atom leaves [rwq]; the last one of a request ends it.  Also returns the
    [mem_fetch] of a write-back, which gets no reply. *)
Definition return_data (c : dram_config) (clk : gpu_clock) (w : channel) : outcome (channel * option Z) :=
  if full (returnq (dram w)) then mret (w, None)
  else
    '(cmd, q) ← pop (rwq (dram w));
    let w := with_dram w (with_bus (dram w) (d_rw (dram w)) q) in
    match cmd with
    | None => mret (w, None)
    | Some p =>
        r ← req (ch_reqs w) p;
        let r := set_dqbytes r (u32 (dqbytes r + dram_atom_size c)) in
        let w := store_req w p r in
        if nbytes r <=? dqbytes r then
          let data := r_data r in
          w ← touch_fetch clk IN_PARTITION_MC_RETURNQ w data;
          mf ← deref (fetches w) data;
          '(w, done) ←
            (if negb (bool_decide (get_access_type mf = L1_WRBK_ACC)) && negb (bool_decide (get_access_type mf = L2_WRBK_ACC))
             then
               mf' ← set_reply mf;
               h ← update (fetches w) data (fun _ => mf');
               q' ← push (returnq (dram w)) (Some data);
               mret (with_dram (with_fetches w h) (with_returnq (dram w) q'), None)
             else
               mret (with_tracker (with_fetches w (mkHeap (delete data (objects (fetches w))) (next_object (fetches w))))
                       (m_request_tracker w ∖ {[data]}), Some data));
          mret (with_reqs w (delete p (ch_reqs w)) (next_req w), done)
        else mret (w, None)
    end.

(** [scheduler_fifo] *)
Definition scheduler_fifo (clk : gpu_clock) (w : channel) : outcome channel :=
  if empty (mrqq (dram w)) then mret w
  else
    p ← (match top (mrqq (dram w)) with Some p => Ok p | None => Err BadAccess end);
    r ← req (ch_reqs w) p;
    w ← touch_fetch clk IN_PARTITION_MC_BANK_ARB_QUEUE w (r_data r);
    b ← aread (banks (dram w)) (r_bk r);
    match mrq b with
    | Some _ => mret w
    | None =>
        '(p', q) ← pop (mrqq (dram w));
        bs ← awrite (banks (dram w)) (r_bk r) (set_mrq b p');
        mret (with_dram w (with_banks (with_mrqq (dram w) q) bs))
    end.

(** The [while] of [scheduler_frfcfs]: requests move into the scheduler. *)
Fixpoint fill_scheduler (fuel : nat) (c : dram_config) (clk : gpu_clock) (w : channel) (s : frfcfs_scheduler) :
    outcome (channel * frfcfs_scheduler) :=
  match fuel with
  | O => Err OutOfFuel
  | S fuel' =>
      if negb (empty (mrqq (dram w))) &&
         ((gpgpu_dram_sched_queue_size c =? 0) || (num_pending s <? gpgpu_dram_sched_queue_size c)) then
        '(p, q) ← pop (mrqq (dram w));
        p ← (match p with Some p => Ok p | None => Err BadAccess end);
        r ← req (ch_reqs w) p;
        w ← touch_fetch clk IN_PARTITION_MC_INPUT_QUEUE (with_dram w (with_mrqq (dram w) q)) (r_data r);
        s ← add_req (ch_reqs w) s p;
        fill_scheduler fuel' c clk w s
      else mret (w, s)
  end.

(** The request [p] goes to bank [b]. *)
Definition assign_bank (c : dram_config) (clk : gpu_clock) (w : channel) (b p : Z) : outcome channel :=
  r ← req (ch_reqs w) p;
  w ← touch_fetch clk IN_PARTITION_MC_BANK_ARB_QUEUE w (r_data r);
  bj ← aread (banks (dram w)) b;
  bs ← awrite (banks (dram w)) b (set_mrq bj (Some p));
  let w := with_dram w (with_banks (with_prio (dram w) (u32 (prio (dram w) + 1) `mod` nbk c)) bs) in
  if gpgpu_memlatency_stat (m_stats w) then
    st ← count_mrq_latency (m_stats w) (u32 (now clk - timestamp r));
    mret (with_stats (store_req w p (set_timestamp r (u32 (now clk)))) st)
  else mret w.

(** The [for] of [scheduler_frfcfs], [n] banks left, from [i] on. *)
Fixpoint try_banks (n : nat) (c : dram_config) (clk : gpu_clock) (w : channel) (s : frfcfs_scheduler) (i : Z) :
    outcome (channel * frfcfs_scheduler) :=
  match n with
  | O => mret (w, s)
  | S n' =>
      let b := u32 (i + prio (dram w)) `mod` nbk c in
      bj ← aread (banks (dram w)) b;
      match mrq bj with
      | Some _ => try_banks n' c clk w s (i + 1)
      | None =>
          '(p, s, st) ← schedule (ch_reqs w) clk (d_id (dram w)) b (curr_row bj) s (m_stats w);
          let w := with_stats w st in
          match p with
          | None => try_banks n' c clk w s (i + 1)
          | Some p => w ← assign_bank c clk w b p; mret (w, s)
          end
      end
  end.

Definition scheduler_frfcfs (c : dram_config) (clk : gpu_clock) (w : channel) : outcome channel :=
  s ← (match m_frfcfs_scheduler (dram w) with Some s => Ok s | None => Err BadAccess end);
  '(w, s) ← fill_scheduler (S (length (slots (mrqq (dram w))))) c clk w s;
  '(w, s) ← try_banks (Z.to_nat (nbk c)) c clk w s 0;
  mret (with_dram w (with_sched (dram w) (Some s))).

Definition count_mrqs (nreqs : Z) (k : dram_stats) : dram_stats :=
  mkCounts (n_cmd k) (n_activity k) (n_nop k) (n_act k) (n_pre k) (n_rd k) (n_wr k) (n_req k) (max_mrqs_temp k) (bwutil k)
    (if max_mrqs k <? nreqs then nreqs else max_mrqs k) (u32 (ave_mrqs k + nreqs)) (n_cmd_partial k)
    (n_activity_partial k) (n_nop_partial k) (n_act_partial k) (n_pre_partial k) (n_req_partial k)
    (u32 (ave_mrqs_partial k + nreqs)) (bwutil_partial k).

(** ** Commands *)

(** What [DRAM_VERIFY] prints: reads and writes with bank, row and column, activations
    with the new row and the one before, precharges with the row they close. *)
Inductive command :=
  | RD (b r col : Z)
  | WR (b r col : Z)
  | ACT (b r from : Z)
  | PRE (b r : Z).

Section guards.
Context (d : dram_t) (bj : bank_t) (g : bankgrp_t) (r : dram_req_t) (issued : bool).

(** The conditions of the four branches. *)
Definition can_read : bool :=
  negb issued && (CCDc (d_timers d) =? 0) && (RCDc bj =? 0) && (CCDLc g =? 0) && (curr_row bj =? r_row r) &&
  bool_decide (r_rw r = READ) && (WTRc (d_timers d) =? 0) && bool_decide (b_state bj = BANK_ACTIVE) && negb (full (rwq d)).
Definition can_write : bool :=
  negb issued && (CCDc (d_timers d) =? 0) && (RCDWRc bj =? 0) && (CCDLc g =? 0) && (curr_row bj =? r_row r) &&
  bool_decide (r_rw r = WRITE) && (RTWc (d_timers d) =? 0) && bool_decide (b_state bj = BANK_ACTIVE) && negb (full (rwq d)).
Definition can_activate : bool :=
  negb issued && (RRDc (d_timers d) =? 0) && bool_decide (b_state bj = BANK_IDLE) && (RPc bj =? 0) && (RCc bj =? 0).
Definition can_precharge : bool :=
  negb issued && negb (curr_row bj =? r_row r) && bool_decide (b_state bj = BANK_ACTIVE) &&
  ((RASc bj =? 0) && (WTPc bj =? 0) && (RTPc bj =? 0) && (RTPLc g =? 0)).
End guards.

Definition count_column (c : dram_config) (rw : rw_t) (k : dram_stats) : dram_stats :=
  mkCounts (n_cmd k) (n_activity k) (n_nop k) (n_act k) (n_pre k)
    (if decide (rw = READ) then u32 (n_rd k + 1) else n_rd k) (if decide (rw = WRITE) then u32 (n_wr k + 1) else n_wr k)
    (n_req k) (max_mrqs_temp k) (u32 (bwutil k + burst_cycles c)) (max_mrqs k) (ave_mrqs k) (n_cmd_partial k)
    (n_activity_partial k) (n_nop_partial k) (n_act_partial k) (n_pre_partial k) (n_req_partial k) (ave_mrqs_partial k)
    (u32 (bwutil_partial k + burst_cycles c)).
Definition count_act (k : dram_stats) : dram_stats :=
  mkCounts (n_cmd k) (n_activity k) (n_nop k) (u32 (n_act k + 1)) (n_pre k) (n_rd k) (n_wr k) (n_req k) (max_mrqs_temp k)
    (bwutil k) (max_mrqs k) (ave_mrqs k) (n_cmd_partial k) (n_activity_partial k) (n_nop_partial k)
    (u32 (n_act_partial k + 1)) (n_pre_partial k) (n_req_partial k) (ave_mrqs_partial k) (bwutil_partial k).
Definition count_pre (k : dram_stats) : dram_stats :=
  mkCounts (n_cmd k) (n_activity k) (n_nop k) (n_act k) (u32 (n_pre k + 1)) (n_rd k) (n_wr k) (n_req k) (max_mrqs_temp k)
    (bwutil k) (max_mrqs k) (ave_mrqs k) (n_cmd_partial k) (n_activity_partial k) (n_nop_partial k)
    (n_act_partial k) (u32 (n_pre_partial k + 1)) (n_req_partial k) (ave_mrqs_partial k) (bwutil_partial k).

(** Enough for [set_min_length]: [rwq] has at most [CL + 1] slots. *)
Definition rwq_fuel (c : dram_config) : nat := Z.to_nat (CL c + 3).

(** The branch of a read: the request goes into [rwq] once more. *)
Definition issue_read (c : dram_config) (w : channel) (j grp : Z) (bj : bank_t) (g : bankgrp_t) (p : Z) (r : dram_req_t) :
    outcome (channel * command) :=
  let d := dram w in
  q ← (if decide (d_rw d = WRITE) then set_min_length (rwq_fuel c) (rwq d) (CL c) else mret (rwq d));
  q ← push q (Some p);
  let r' := set_txbytes r (u32 (txbytes r + dram_atom_size c)) in
  let t := d_timers d in
  gs ← awrite (bkgrp d) grp (mkGroup (tCCDL c) (tRTPL c));
  bs ← awrite (banks d) j
    (mkBank (RCDc bj) (RCDWRc bj) (RASc bj) (RPc bj) (RCc bj) (WTPc bj) (burst_cycles c) (b_state bj) (curr_row bj)
       (if txbytes r' <? nbytes r' then mrq bj else None) (u32 (n_access bj + 1)) (n_idle bj) (bkgrpindex bj));
  let d' := mkDram (d_id d) (mkTimers (RRDc t) (tCCD c) (tRTW c) (WTRc t)) READ gs bs (prio d) q (mrqq d) (returnq d)
              (m_frfcfs_scheduler d) (count_column c READ (counts d)) in
  mret (store_req (with_dram w d') p r', RD j (curr_row bj) (u32 (r_col r' + txbytes r' - dram_atom_size c))).

Definition issue_write (c : dram_config) (w : channel) (j grp : Z) (bj : bank_t) (g : bankgrp_t) (p : Z) (r : dram_req_t) :
    outcome (channel * command) :=
  let d := dram w in
  q ← (if decide (d_rw d = READ) then set_min_length (rwq_fuel c) (rwq d) (WL c) else mret (rwq d));
  q ← push q (Some p);
  let r' := set_txbytes r (u32 (txbytes r + dram_atom_size c)) in
  let t := d_timers d in
  gs ← awrite (bkgrp d) grp (mkGroup (tCCDL c) (RTPLc g));
  bs ← awrite (banks d) j
    (mkBank (RCDc bj) (RCDWRc bj) (RASc bj) (RPc bj) (RCc bj) (tWTP c) (RTPc bj) (b_state bj) (curr_row bj)
       (if txbytes r' <? nbytes r' then mrq bj else None) (n_access bj) (n_idle bj) (bkgrpindex bj));
  let d' := mkDram (d_id d) (mkTimers (RRDc t) (tCCD c) (RTWc t) (tWTR c)) WRITE gs bs (prio d) q (mrqq d) (returnq d)
              (m_frfcfs_scheduler d) (count_column c WRITE (counts d)) in
  mret (store_req (with_dram w d') p r', WR j (curr_row bj) (u32 (r_col r' + txbytes r' - dram_atom_size c))).

Definition issue_activate (c : dram_config) (w : channel) (j : Z) (bj : bank_t) (r : dram_req_t) : outcome (channel * command) :=
  let d := dram w in
  let t := d_timers d in
  bs ← awrite (banks d) j
    (mkBank (tRCD c) (tRCDWR c) (tRAS c) (RPc bj) (tRC c) (WTPc bj) (RTPc bj) BANK_ACTIVE (r_row r) (mrq bj)
       (n_access bj) (n_idle bj) (bkgrpindex bj));
  mret (with_dram w (mkDram (d_id d) (mkTimers (tRRD c) (CCDc t) (RTWc t) (WTRc t)) (d_rw d) (bkgrp d) bs
          (u32 (j + 1) `mod` nbk c) (rwq d) (mrqq d) (returnq d) (m_frfcfs_scheduler d) (count_act (counts d))),
        ACT j (r_row r) (curr_row bj)).

Definition issue_precharge (c : dram_config) (w : channel) (j : Z) (bj : bank_t) : outcome (channel * command) :=
  let d := dram w in
  bs ← awrite (banks d) j
    (mkBank (RCDc bj) (RCDWRc bj) (RASc bj) (tRP c) (RCc bj) (WTPc bj) (RTPc bj) BANK_IDLE (curr_row bj) (mrq bj)
       (n_access bj) (n_idle bj) (bkgrpindex bj));
  mret (with_dram w (mkDram (d_id d) (d_timers d) (d_rw d) (bkgrp d) bs (u32 (j + 1) `mod` nbk c) (rwq d) (mrqq d)
          (returnq d) (m_frfcfs_scheduler d) (count_pre (counts d))),
        PRE j (curr_row bj)).

(** The loop's own state: the command issued so far and the banks not idle. *)
Record turn := mkTurn { t_channel : channel; t_issued : option command; t_busy : Z }.

Definition all_quiet (t : timers) (b : bank_t) : bool :=
  (CCDc t =? 0) && (RRDc t =? 0) && (RTWc t =? 0) && (WTRc t =? 0) && (RCDc b =? 0) && (RASc b =? 0) && (RCc b =? 0) &&
  (RPc b =? 0) && (RCDWRc b =? 0).

(** One round of the loop over the banks.  The idle count goes to bank [i]. *)
Definition bank_turn (c : dram_config) (clk : gpu_clock) (i : Z) (s : turn) : outcome turn :=
  let w := t_channel s in
  let j := u32 (i + prio (dram w)) `mod` nbk c in
  let grp := Z.shiftr j (bk_tag_length c) in
  bj ← aread (banks (dram w)) j;
  match mrq bj with
  | Some p =>
      r ← req (ch_reqs w) p;
      w ← touch_fetch clk IN_PARTITION_DRAM w (r_data r);
      g ← aread (bkgrp (dram w)) grp;
      let issued := bool_decide (is_Some (t_issued s)) in
      res ← (if can_read (dram w) bj g r issued then '(w, cmd) ← issue_read c w j grp bj g p r; mret (w, Some cmd)
             else if can_write (dram w) bj g r issued then '(w, cmd) ← issue_write c w j grp bj g p r; mret (w, Some cmd)
             else if can_activate (dram w) bj issued then '(w, cmd) ← issue_activate c w j bj r; mret (w, Some cmd)
             else if can_precharge bj g r issued then '(w, cmd) ← issue_precharge c w j bj; mret (w, Some cmd)
             else mret (w, t_issued s));
      mret (mkTurn res.1 res.2 (t_busy s))
  | None =>
      let busy := if all_quiet (d_timers (dram w)) bj then u32 (t_busy s - 1) else t_busy s in
      bi ← aread (banks (dram w)) i;
      bs ← awrite (banks (dram w)) i (count_idle bi);
      mret (mkTurn (with_dram w (with_banks (dram w) bs)) (t_issued s) busy)
  end.

Definition count_cycle (issued busy : bool) (k : dram_stats) : dram_stats :=
  let add (b : bool) n := if b then u32 (n + 1) else n in
  mkCounts (u32 (n_cmd k + 1)) (add busy (n_activity k)) (add (negb issued) (n_nop k)) (n_act k) (n_pre k) (n_rd k) (n_wr k)
    (n_req k) (max_mrqs_temp k) (bwutil k) (max_mrqs k) (ave_mrqs k) (u32 (n_cmd_partial k + 1))
    (add busy (n_activity_partial k)) (add (negb issued) (n_nop_partial k)) (n_act_partial k) (n_pre_partial k)
    (n_req_partial k) (ave_mrqs_partial k) (bwutil_partial k).

(** [DEC2ZERO] *)
(** [print_stat] and [visualizer_print] start new intervals of the counters they print. *)
Definition print_stat_counts (k : dram_stats) : dram_stats :=
  mkCounts (n_cmd k) (n_activity k) (n_nop k) (n_act k) (n_pre k) (n_rd k) (n_wr k) (n_req k) 0 (bwutil k) (max_mrqs k)
    (ave_mrqs k) (n_cmd_partial k) (n_activity_partial k) (n_nop_partial k) (n_act_partial k) (n_pre_partial k)
    (n_req_partial k) (ave_mrqs_partial k) (bwutil_partial k).
Definition visualizer_counts (k : dram_stats) : dram_stats :=
  mkCounts (n_cmd k) (n_activity k) (n_nop k) (n_act k) (n_pre k) (n_rd k) (n_wr k) (n_req k) (max_mrqs_temp k) (bwutil k)
    (max_mrqs k) (ave_mrqs k) 0 0 0 0 0 0 0 0.

Definition dec2zero (x : Z) : Z := if x =? 0 then 0 else x - 1.
Definition tick_bank (b : bank_t) : bank_t :=
  mkBank (dec2zero (RCDc b)) (dec2zero (RCDWRc b)) (dec2zero (RASc b)) (dec2zero (RPc b)) (dec2zero (RCc b))
    (dec2zero (WTPc b)) (dec2zero (RTPc b)) (b_state b) (curr_row b) (mrq b) (n_access b) (n_idle b) (bkgrpindex b).
Definition tick (d : dram_t) : dram_t :=
  let t := d_timers d in
  mkDram (d_id d) (mkTimers (dec2zero (RRDc t)) (dec2zero (CCDc t)) (dec2zero (RTWc t)) (dec2zero (WTRc t))) (d_rw d)
    ((fun g => mkGroup (dec2zero (CCDLc g)) (dec2zero (RTPLc g))) <$> bkgrp d) (tick_bank <$> banks d) (prio d) (rwq d)
    (mrqq d) (returnq d) (m_frfcfs_scheduler d) (counts d).

(** What a cycle reports: the command, and the write-back that is done. *)
Record report := mkReport { cmd_issued : option command; wb_done : option Z }.

Definition dram_cycle (c : dram_config) (clk : gpu_clock) (w : channel) : outcome (channel * report) :=
  '(w, done) ← return_data c clk w;
  w ← (match scheduler_type c with DRAM_FIFO => scheduler_fifo clk w | DRAM_FRFCFS => scheduler_frfcfs c clk w end);
  nreqs ← que_length c (dram w);
  let w := with_dram w (with_counts (dram w) (count_mrqs nreqs (counts (dram w)))) in
  t ← for_range 0 (nbk c) (bank_turn c clk) (mkTurn w None (nbk c));
  let w := t_channel t in
  let k := count_cycle (bool_decide (is_Some (t_issued t))) (negb (t_busy t =? 0)) (counts (dram w)) in
  mret (with_dram w (tick (with_counts (dram w) k)), mkReport (t_issued t) done).

(** * The command protocol

    What a DRAM device demands of its controller: minimum delays between commands and
    the row that has to be open. *)

(** The delays, for the channel, a bank or a group of banks. *)
Inductive timer :=
  | T_CCD | T_RRD | T_RTW | T_WTR
  | T_RCD (b : Z) | T_RCDWR (b : Z) | T_RAS (b : Z) | T_RP (b : Z) | T_RC (b : Z) | T_WTP (b : Z) | T_RTP (b : Z)
  | T_CCDL (g : Z) | T_RTPL (g : Z).

Section protocol.
Context (c : dram_config).

Definition bank_of (cmd : command) : Z := match cmd with RD b _ _ | WR b _ _ | ACT b _ _ | PRE b _ => b end.
Definition group_of (cmd : command) : Z := Z.shiftr (bank_of cmd) (bk_tag_length c).
Definition is_RD (cmd : command) : bool := match cmd with RD _ _ _ => true | _ => false end.
Definition is_WR (cmd : command) : bool := match cmd with WR _ _ _ => true | _ => false end.
Definition is_ACT (cmd : command) : bool := match cmd with ACT _ _ _ => true | _ => false end.
Definition is_PRE (cmd : command) : bool := match cmd with PRE _ _ => true | _ => false end.
Definition is_column (cmd : command) : bool := is_RD cmd || is_WR cmd.

(** The commands that start a delay and those that have to wait for its end. *)
Definition starts (t : timer) (cmd : command) : bool :=
  match t with
  | T_CCD => is_column cmd
  | T_RRD => is_ACT cmd
  | T_RTW => is_RD cmd
  | T_WTR => is_WR cmd
  | T_RCD b | T_RCDWR b | T_RAS b | T_RC b => is_ACT cmd && (bank_of cmd =? b)
  | T_RP b => is_PRE cmd && (bank_of cmd =? b)
  | T_WTP b => is_WR cmd && (bank_of cmd =? b)
  | T_RTP b => is_RD cmd && (bank_of cmd =? b)
  | T_CCDL g => is_column cmd && (group_of cmd =? g)
  | T_RTPL g => is_RD cmd && (group_of cmd =? g)
  end.
Definition waits (t : timer) (cmd : command) : bool :=
  match t with
  | T_CCD => is_column cmd
  | T_RRD => is_ACT cmd
  | T_RTW => is_WR cmd
  | T_WTR => is_RD cmd
  | T_RCD b => is_RD cmd && (bank_of cmd =? b)
  | T_RCDWR b => is_WR cmd && (bank_of cmd =? b)
  | T_RAS b | T_WTP b | T_RTP b => is_PRE cmd && (bank_of cmd =? b)
  | T_RP b | T_RC b => is_ACT cmd && (bank_of cmd =? b)
  | T_CCDL g => is_column cmd && (group_of cmd =? g)
  | T_RTPL g => is_PRE cmd && (group_of cmd =? g)
  end.
Definition delay (t : timer) : Z :=
  match t with
  | T_CCD => tCCD c | T_RRD => tRRD c | T_RTW => tRTW c | T_WTR => tWTR c
  | T_RCD _ => tRCD c | T_RCDWR _ => tRCDWR c | T_RAS _ => tRAS c | T_RP _ => tRP c | T_RC _ => tRC c
  | T_WTP _ => tWTP c | T_RTP _ => burst_cycles c | T_CCDL _ => tCCDL c | T_RTPL _ => tRTPL c
  end.

(** Commands with the cycle they were issued in, newest first. *)
Definition trace := list (Z * command).

(** The row of a bank that the last activation opened and no precharge has closed. *)
Fixpoint open_row (tr : trace) (b : Z) : option Z :=
  match tr with
  | [] => None
  | (_, ACT b' r _) :: tr' => if b' =? b then Some r else open_row tr' b
  | (_, PRE b' _) :: tr' => if b' =? b then None else open_row tr' b
  | _ :: tr' => open_row tr' b
  end.

(** Columns are read and written in the open row, rows opened at a closed bank. *)
Definition row_allows (tr : trace) (cmd : command) : Prop :=
  match cmd with
  | RD b r _ | WR b r _ | PRE b r => open_row tr b = Some r
  | ACT b _ _ => open_row tr b = None
  end.

(** A command sequence that the device accepts. *)
Inductive legal : trace → Prop :=
  | legal_nil : legal []
  | legal_cons t cmd tr : legal tr ->
      (forall t' cmd', (t', cmd') ∈ tr ->
         t' < t /\ forall tm, starts tm cmd' = true -> waits tm cmd = true -> t' + delay tm <= t) ->
      row_allows tr cmd -> legal ((t, cmd) :: tr).
End protocol.

(** * The timers keep the protocol *)

Section timing.
Context (c : dram_config).

(** The value of the counter that stands for a delay. *)
Definition value (d : dram_t) (t : timer) : Z :=
  let of_bank b f := match zread (banks d) b with Some x => f x | None => 0 end in
  let of_group g f := match zread (bkgrp d) g with Some x => f x | None => 0 end in
  match t with
  | T_CCD => CCDc (d_timers d) | T_RRD => RRDc (d_timers d) | T_RTW => RTWc (d_timers d) | T_WTR => WTRc (d_timers d)
  | T_RCD b => of_bank b RCDc | T_RCDWR b => of_bank b RCDWRc | T_RAS b => of_bank b RASc | T_RP b => of_bank b RPc
  | T_RC b => of_bank b RCc | T_WTP b => of_bank b WTPc | T_RTP b => of_bank b RTPc
  | T_CCDL g => of_group g CCDLc | T_RTPL g => of_group g RTPLc
  end.
(** The row a bank has open. *)
Definition opened (d : dram_t) (b : Z) : option Z :=
  match zread (banks d) b with
  | Some x => match b_state x with BANK_ACTIVE => Some (curr_row x) | BANK_IDLE => None end
  | None => None
  end.

(** The channel in cycle [n], before its commands, after the commands [tr]. *)
Record timed (n : Z) (tr : trace) (d : dram_t) : Prop := {
  td_values : forall t, 0 <= value d t;
  td_past : forall t cmd, (t, cmd) ∈ tr -> t < n /\ forall tm, starts c tm cmd = true -> t + delay c tm <= n + value d tm;
  td_rows : forall b, open_row tr b = opened d b;
  td_legal : legal c tr }.

(** A command that the counters allow. *)
Record issues (d : dram_t) (cmd : command) (d' : dram_t) : Prop := {
  is_ready : forall tm, waits c tm cmd = true -> value d tm = 0;
  is_started : forall tm, value d' tm = if starts c tm cmd then delay c tm else value d tm;
  is_open : match cmd with RD b r _ | WR b r _ | PRE b r => opened d b = Some r | ACT b _ _ => opened d b = None end;
  is_opened : forall b, opened d' b = match cmd with
    | ACT b' r _ => if b' =? b then Some r else opened d b
    | PRE b' _ => if b' =? b then None else opened d b
    | _ => opened d b
    end }.
(** A change that leaves the counters alone. *)
Definition same_timing (d d' : dram_t) : Prop :=
  (forall t, value d' t = value d t) /\ forall b, opened d' b = opened d b.

Lemma timed_same n tr d d' : timed n tr d -> same_timing d d' -> timed n tr d'.
Proof using.
  intros [H1 H2 H3 H4] [Hv Ho]. split; [| | |done].
  - intros t. by rewrite Hv.
  - intros t cmd Hin. destruct (H2 t cmd Hin) as [Ht Hd]. split; [done|]. intros tm Hs. rewrite Hv. by apply Hd.
  - intros b. by rewrite Ho.
Qed.

(** Within the cycle the command is appended; it is older than the next cycle only. *)
Record timed_after (n : Z) (tr : trace) (d : dram_t) : Prop := {
  ta_values : forall t, 0 <= value d t;
  ta_past : forall t cmd, (t, cmd) ∈ tr -> t <= n /\ forall tm, starts c tm cmd = true -> t + delay c tm <= n + value d tm;
  ta_rows : forall b, open_row tr b = opened d b;
  ta_legal : legal c tr }.

Lemma timed_issue n tr d cmd d' : (forall tm, 0 <= delay c tm) -> timed n tr d -> issues d cmd d' -> timed_after n ((n, cmd) :: tr) d'.
Proof using.
  intros Hdel [H1 H2 H3 H4] [I1 I2 I3 I4]. split.
  - intros t. rewrite I2. destruct (starts c t cmd); [apply Hdel|apply H1].
  - intros t cmd' [[= -> ->]|Hin]%elem_of_cons.
    + split; [lia|]. intros tm Hs. rewrite I2, Hs. lia.
    + destruct (H2 t cmd' Hin) as [Ht Hd]. split; [lia|]. intros tm Hs. specialize (Hd tm Hs). rewrite I2.
      destruct (starts c tm cmd); lia.
  - intros b. rewrite I4. destruct cmd; simpl; rewrite ?H3; done.
  - constructor; [done| |].
    + intros t' cmd' Hin. destruct (H2 t' cmd' Hin) as [Ht Hd]. split; [done|]. intros tm Hs Hw.
      specialize (Hd tm Hs). rewrite (I1 tm Hw) in Hd. lia.
    + destruct cmd; simpl; by rewrite H3.
Qed.

Lemma timed_idle n tr d : timed n tr d -> timed_after n tr d.
Proof using.
  intros [H1 H2 H3 H4]. split; try done. intros t cmd Hin. destruct (H2 t cmd Hin) as [Ht Hd]. split; [lia|done].
Qed.

Lemma timed_after_same n tr d d' : timed_after n tr d -> same_timing d d' -> timed_after n tr d'.
Proof using.
  intros [H1 H2 H3 H4] [Hv Ho]. split; [| | |done].
  - intros t. by rewrite Hv.
  - intros t cmd Hin. destruct (H2 t cmd Hin) as [Ht Hd]. split; [done|]. intros tm Hs. rewrite Hv. by apply Hd.
  - intros b. by rewrite Ho.
Qed.

Lemma value_tick d t : value (tick d) t = dec2zero (value d t).
Proof using.
  unfold value, tick. destruct t; simpl; rewrite ?zread_fmap; try done.
  all: by destruct (zread _ _).
Qed.
Lemma opened_tick d b : opened (tick d) b = opened d b.
Proof using. unfold opened, tick. simpl. rewrite zread_fmap. by destruct (zread _ _). Qed.

Lemma timed_tick n tr d : timed_after n tr d -> timed (n + 1) tr (tick d).
Proof using.
  intros [H1 H2 H3 H4]. assert (forall x, 0 <= x -> 0 <= dec2zero x /\ x <= dec2zero x + 1) as Hdec.
  { intros x Hx. unfold dec2zero. destruct (Z.eqb_spec x 0); lia. }
  split; [| | |done].
  - intros t. rewrite value_tick. by apply Hdec, H1.
  - intros t cmd Hin. destruct (H2 t cmd Hin) as [Ht Hd]. split; [lia|]. intros tm Hs. rewrite value_tick.
    specialize (Hd tm Hs). destruct (Hdec (value d tm) (H1 tm)). lia.
  - intros b. rewrite opened_tick. apply H3.
Qed.

(** ** The steps of a cycle *)

(** Banks with the same timers and row. *)
Definition bank_like (x y : bank_t) : Prop :=
  RCDc y = RCDc x /\ RCDWRc y = RCDWRc x /\ RASc y = RASc x /\ RPc y = RPc x /\ RCc y = RCc x /\ WTPc y = WTPc x /\
  RTPc y = RTPc x /\ b_state y = b_state x /\ curr_row y = curr_row x.

Lemma same_timing_refl d : same_timing d d.
Proof using. by split. Qed.
Lemma same_timing_trans d1 d2 d3 : same_timing d1 d2 -> same_timing d2 d3 -> same_timing d1 d3.
Proof using. intros [H1 H2] [H3 H4]. split; intros; by rewrite ?H3, ?H4. Qed.

Lemma same_timing_eq d d' : d_timers d' = d_timers d -> bkgrp d' = bkgrp d -> banks d' = banks d -> same_timing d d'.
Proof using. intros E1 E2 E3. split; [intros t|intros b]; unfold value, opened; by rewrite ?E1, ?E2, ?E3. Qed.

Lemma same_timing_bank d d' j x y : d_timers d' = d_timers d -> bkgrp d' = bkgrp d -> zread (banks d) j = Some x ->
  banks d' = zwrite (banks d) j y -> bank_like x y -> same_timing d d'.
Proof using.
  intros E1 E2 Hj E3 (B1 & B2 & B3 & B4 & B5 & B6 & B7 & B8 & B9). pose proof (zread_range _ _ _ Hj).
  split; [intros t; destruct t|intros b]; unfold value, opened; rewrite ?E1, ?E2, ?E3, ?zread_zwrite by lia; try done;
    destruct (Z.eqb_spec j b) as [<-|]; rewrite ?Hj, ?B8, ?B9; done.
Qed.

Lemma touch_fetch_same clk st w data w' : touch_fetch clk st w data = Ok w' -> dram w' = dram w.
Proof using. unfold touch_fetch. intros H. ok_inv. by subst w'. Qed.

Lemma return_data_timing clk w w' o : return_data c clk w = Ok (w', o) -> same_timing (dram w) (dram w').
Proof using.
  unfold return_data. intros H. case_match; ok_inv; simplify_eq; [apply same_timing_refl|].
  destruct x as [cmd q]. destruct cmd as [p|]; ok_inv; simplify_eq; [|by apply same_timing_eq].
  case_match; ok_inv; simplify_eq; [|by apply same_timing_eq].
  match goal with E : touch_fetch _ _ _ _ = Ok _ |- _ => apply touch_fetch_same in E; simpl in E end.
  repeat case_match; ok_inv; simplify_eq/=; apply same_timing_eq; simpl;
    match goal with E : dram _ = _ |- _ => by rewrite E end.
Qed.

Lemma bank_like_mrq x m : bank_like x (set_mrq x m).
Proof using. done. Qed.
Lemma bank_like_idle x : bank_like x (count_idle x).
Proof using. done. Qed.

Lemma scheduler_fifo_timing clk w w' : scheduler_fifo clk w = Ok w' -> same_timing (dram w) (dram w').
Proof using.
  unfold scheduler_fifo. intros H. case_match; ok_inv; simplify_eq; [apply same_timing_refl|].
  repeat case_match; ok_inv; simplify_eq/=;
    match goal with E : touch_fetch _ _ _ _ = Ok _ |- _ => apply touch_fetch_same in E; rewrite E in * end;
    [apply same_timing_refl|].
  repeat case_match; ok_inv; simplify_eq/=.
  match goal with E : aread _ _ = Ok ?b, E' : awrite _ _ _ = Ok _ |- _ => apply aread_ok in E; apply awrite_ok in E' as [_ ->];
    by eapply (same_timing_bank _ _ _ b) end.
Qed.

Lemma fill_scheduler_same fuel clk w s w' s' : fill_scheduler fuel c clk w s = Ok (w', s') ->
  d_timers (dram w') = d_timers (dram w) /\ bkgrp (dram w') = bkgrp (dram w) /\ banks (dram w') = banks (dram w).
Proof using.
  revert w s. induction fuel as [|fuel IH]; intros w s H; cbn [fill_scheduler] in H; [done|].
  case_match; ok_inv; simplify_eq; [|done]. repeat case_match; ok_inv; simplify_eq/=.
  match goal with E : touch_fetch _ _ _ _ = Ok _ |- _ => apply touch_fetch_same in E end.
  match goal with E : fill_scheduler _ _ _ _ _ = Ok _, E' : dram _ = _ |- _ => apply IH in E; by rewrite E' in E end.
Qed.

Lemma assign_bank_timing clk w b p w' : assign_bank c clk w b p = Ok w' -> same_timing (dram w) (dram w').
Proof using.
  unfold assign_bank. intros H. ok_inv.
  match goal with E : touch_fetch _ _ _ _ = Ok _ |- _ => apply touch_fetch_same in E; rewrite E in * end.
  match goal with E : aread _ _ = Ok ?b, E' : awrite _ _ _ = Ok _ |- _ => apply aread_ok in E; apply awrite_ok in E' as [_ ->];
    eapply (same_timing_bank _ _ _ b); [| |exact E| |apply bank_like_mrq] end; case_match; ok_inv; subst w'; done.
Qed.

Lemma try_banks_timing n clk w s i w' s' : try_banks n c clk w s i = Ok (w', s') -> same_timing (dram w) (dram w').
Proof using.
  revert w s i. induction n as [|n IH]; intros w s i H; cbn [try_banks] in H.
  { ok_inv. simplify_eq. apply same_timing_refl. }
  ok_inv. repeat case_match; ok_inv; repeat case_match; ok_inv; simplify_eq/=;
    match goal with
    | E : assign_bank _ _ _ _ _ = Ok _ |- _ => by apply assign_bank_timing in E
    | E : try_banks _ _ _ _ _ _ = Ok _ |- _ => by apply IH in E
    end.
Qed.

Lemma scheduler_frfcfs_timing clk w w' : scheduler_frfcfs c clk w = Ok w' -> same_timing (dram w) (dram w').
Proof using.
  unfold scheduler_frfcfs. intros H. ok_inv. repeat case_match; ok_inv; repeat case_match; ok_inv; simplify_eq.
  match goal with E : fill_scheduler _ _ _ _ _ = Ok _ |- _ => apply fill_scheduler_same in E as (E1 & E2 & E3) end.
  match goal with E : try_banks _ _ _ _ _ _ = Ok _ |- _ => apply try_banks_timing in E as Et end.
  eapply same_timing_trans; [by apply same_timing_eq|]. eapply same_timing_trans; [exact Et|]. by apply same_timing_eq.
Qed.

(** ** The four commands *)

Section command.
Context (w : channel) (j grp : Z) (bj : bank_t) (g : bankgrp_t) (p : Z) (r : dram_req_t) (issued : bool).
Context (Hj : zread (banks (dram w)) j = Some bj) (Hg : zread (bkgrp (dram w)) grp = Some g).
Context (Hgrp : grp = Z.shiftr j (bk_tag_length c)).

(** Compares the counters after a command with those before. *)
Ltac counters :=
  let tm := fresh "tm" in intros tm; destruct tm;
    unfold value, opened, waits, starts, group_of; simpl;
    rewrite ?zread_zwrite by (eapply zread_range; eassumption);
    repeat match goal with |- context [?a =? ?b] => destruct (Z.eqb_spec a b) as [<-|] end;
    rewrite ?Hj, ?Hg; simpl; try done.

(** Opens a command that was issued. *)
Ltac issued_ok := to_prop; ok_inv; simplify_eq/=;
  repeat match goal with E : awrite _ _ _ = Ok _ |- _ => apply awrite_ok in E as [? ->] end; split.
(** The row that a bank has open after a command. *)
Ltac row_after := let b := fresh "b" in intros b; unfold opened; simpl; rewrite zread_zwrite by done;
  destruct (Z.eqb_spec j b) as [<-|]; rewrite ?Hj; done.

Lemma issue_read_issues w' cmd : can_read (dram w) bj g r issued = true ->
  issue_read c w j grp bj g p r = Ok (w', cmd) -> issues (dram w) cmd (dram w').
Proof using Hj Hg Hgrp.
  unfold can_read, issue_read. intros Hc H. issued_ok; [counters|counters| |row_after].
  unfold opened. rewrite Hj. by match goal with E : b_state bj = _ |- _ => rewrite E end.
Qed.

Lemma issue_write_issues w' cmd : can_write (dram w) bj g r issued = true ->
  issue_write c w j grp bj g p r = Ok (w', cmd) -> issues (dram w) cmd (dram w').
Proof using Hj Hg Hgrp.
  unfold can_write, issue_write. intros Hc H. issued_ok; [counters|counters| |row_after].
  unfold opened. rewrite Hj. by match goal with E : b_state bj = _ |- _ => rewrite E end.
Qed.

Lemma issue_activate_issues w' cmd : can_activate (dram w) bj issued = true ->
  issue_activate c w j bj r = Ok (w', cmd) -> issues (dram w) cmd (dram w').
Proof using Hj Hg Hgrp.
  unfold can_activate, issue_activate. intros Hc H. issued_ok; [counters|counters| |row_after].
  unfold opened. rewrite Hj. by match goal with E : b_state bj = _ |- _ => rewrite E end.
Qed.

Lemma issue_precharge_issues w' cmd : can_precharge bj g r issued = true ->
  issue_precharge c w j bj = Ok (w', cmd) -> issues (dram w) cmd (dram w').
Proof using Hj Hg Hgrp.
  unfold can_precharge, issue_precharge. intros Hc H. issued_ok; [counters|counters| |row_after].
  unfold opened. rewrite Hj. by match goal with E : b_state bj = _ |- _ => rewrite E end.
Qed.
End command.

(** ** A whole cycle *)

Definition log (n : Z) (cmd : option command) (tr : trace) : trace :=
  match cmd with Some cmd => (n, cmd) :: tr | None => tr end.

(** In the middle of the loop over the banks. *)
Definition turn_timed (n : Z) (tr : trace) (s : turn) : Prop :=
  match t_issued s with
  | None => timed n tr (dram (t_channel s))
  | Some cmd => timed_after n ((n, cmd) :: tr) (dram (t_channel s))
  end.

Lemma turn_timed_same n tr s w : turn_timed n tr s -> forall busy, same_timing (dram (t_channel s)) (dram w) ->
  turn_timed n tr (mkTurn w (t_issued s) busy).
Proof using.
  unfold turn_timed. simpl. intros H busy Hs. destruct (t_issued s).
  - by eapply timed_after_same.
  - by eapply timed_same.
Qed.

Context (Hdel : forall tm, 0 <= delay c tm).

Lemma bank_turn_timed n tr clk i s s' : turn_timed n tr s -> bank_turn c clk i s = Ok s' -> turn_timed n tr s'.
Proof using Hdel.
  unfold bank_turn. intros Hs H. ok_inv. set (j := u32 _ `mod` _) in *.
  match goal with E : aread _ _ = Ok _ |- _ => apply aread_ok in E as Hj end.
  destruct (mrq x) as [p|] eqn:Em; ok_inv; subst s'.
  - match goal with E : touch_fetch _ _ _ _ = Ok ?w |- _ => apply touch_fetch_same in E; rename w into w1; rename E into Ew end.
    match goal with E : aread (bkgrp _) _ = Ok _ |- _ => apply aread_ok in E as Hg end.
    rewrite <- Ew in Hj.
    assert (Hiss : forall w' cmd, bool_decide (is_Some (t_issued s)) = false -> issues (dram w1) cmd (dram w') ->
      turn_timed n tr (mkTurn w' (Some cmd) (t_busy s))).
    { intros w' cmd Hno Hi. apply bool_decide_eq_false in Hno. unfold turn_timed in *. simpl.
      destruct (t_issued s); [by destruct Hno; eexists|]. rewrite <- Ew in Hs. by eapply timed_issue. }
    match goal with E : (if can_read ?d ?b ?g ?r ?i then _ else _) = Ok _ |- _ =>
      destruct (can_read d b g r i) eqn:C1; [|destruct (can_write d b g r i) eqn:C2;
        [|destruct (can_activate d b i) eqn:C3; [|destruct (can_precharge b g r i) eqn:C4]]] end;
      ok_inv; simplify_eq; [repeat case_match; ok_inv; simplify_eq; simpl; eapply Hiss..|];
      try (match goal with C : _ = true |- bool_decide _ = false => by destruct (bool_decide _) end).
    + by eapply issue_read_issues.
    + by eapply issue_write_issues.
    + by eapply issue_activate_issues.
    + by eapply issue_precharge_issues.
    + simpl. apply turn_timed_same; [done|]. rewrite Ew. apply same_timing_refl.
  - match goal with E : aread _ i = Ok ?b, E' : awrite _ _ _ = Ok _ |- _ => apply aread_ok in E; apply awrite_ok in E' as [_ ->];
      apply turn_timed_same; [done|]; by eapply (same_timing_bank _ _ _ b) end.
Qed.

Lemma for_up_ok {S} (P : S → Prop) (body : Z → S → outcome S) n i s s' :
  (forall i s s', P s -> body i s = Ok s' -> P s') -> P s -> for_up n i body s = Ok s' -> P s'.
Proof using.
  intros Hb. revert i s. induction n as [|n IH]; intros i s Hs H; simpl in H; ok_inv; [by subst|].
  by eapply IH; [eapply Hb|].
Qed.

Lemma dram_cycle_timed n tr clk w w' rep : timed n tr (dram w) -> dram_cycle c clk w = Ok (w', rep) ->
  timed (n + 1) (log n (cmd_issued rep) tr) (dram w').
Proof using Hdel.
  unfold dram_cycle. intros Ht H. ok_inv. destruct x as [w1 done1]. ok_inv.
  match goal with E : return_data _ _ _ = Ok _ |- _ => apply return_data_timing in E as E1 end.
  match goal with E : match scheduler_type c with _ => _ end = Ok ?w |- _ => rename w into w2; assert (same_timing (dram w1) (dram w2)) as E2
    by (destruct (scheduler_type c); [by apply scheduler_fifo_timing in E|by apply scheduler_frfcfs_timing in E]) end.
  simplify_eq. set (w3 := with_dram w2 _) in *.
  assert (timed n tr (dram w3)) as Ht3.
  { eapply timed_same; [exact Ht|]. eapply same_timing_trans; [exact E1|]. eapply same_timing_trans; [exact E2|].
    by apply same_timing_eq. }
  match goal with E : for_range _ _ _ _ = Ok ?t |- _ => unfold for_range in E;
    apply (for_up_ok (turn_timed n tr)) in E as Hloop; [|intros; by eapply bank_turn_timed|exact Ht3]; rename t into s end.
  simpl. apply timed_tick. unfold turn_timed in Hloop. destruct (t_issued s); simpl.
  - eapply timed_after_same; [exact Hloop|]. by apply same_timing_eq.
  - apply timed_idle. eapply timed_same; [exact Hloop|]. by apply same_timing_eq.
Qed.

(** ** Runs

    A client pushes requests and pops replies, between cycles; others may change the
    objects that the channel shares, and printing the counters, but nothing else of the
    channel. *)
Inductive runs (w0 : channel) : Z → trace → channel → Prop :=
  | runs_start : runs w0 0 [] w0
  | runs_push n tr w clk data w' : runs w0 n tr w -> dram_push c clk w data = Ok w' -> runs w0 n tr w'
  | runs_pop n tr w data w' : runs w0 n tr w -> dram_pop w = Ok (data, w') -> runs w0 n tr w'
  | runs_others n tr w w' k : runs w0 n tr w -> dram w' = with_counts (dram w) k -> ch_reqs w' = ch_reqs w -> runs w0 n tr w'
  | runs_cycle n tr w clk w' rep : runs w0 n tr w -> dram_cycle c clk w = Ok (w', rep) ->
      runs w0 (n + 1) (log n (cmd_issued rep) tr) w'.

Lemma value_new id d t : dram_new c id = Ok d -> value d t = 0.
Proof using.
  unfold dram_new. intros H. ok_inv. subst d. unfold value.
  destruct t; simpl; try done; rewrite ?zread_fmap, ?zread_replicate.
  all: try (by destruct (zread (seqZ _ _) _)). all: by destruct (_ && _).
Qed.
Lemma opened_new id d b : dram_new c id = Ok d -> opened d b = None.
Proof using.
  unfold dram_new. intros H. ok_inv. subst d. unfold opened. simpl. rewrite zread_fmap. by destruct (zread (seqZ _ _) _).
Qed.

Lemma runs_timed id w0 n tr w : dram_new c id = Ok (dram w0) -> runs w0 n tr w -> timed n tr (dram w).
Proof using Hdel.
  intros Hnew Hrun. induction Hrun as [|n tr w clk data w' _ IH H|n tr w data w' _ IH H|n tr w w' k _ IH H _|n tr w clk w' rep _ IH H].
  - split.
    + intros t. by rewrite (value_new _ _ _ Hnew).
    + intros t cmd ?%not_elem_of_nil. done.
    + intros b. by rewrite (opened_new _ _ _ Hnew).
    + constructor.
  - eapply timed_same; [exact IH|]. unfold dram_push in H. ok_inv. subst w'.
    match goal with E : touch_fetch _ _ _ _ = Ok _ |- _ => apply touch_fetch_same in E; simpl in E end.
    apply same_timing_eq; simpl; match goal with E : dram _ = _ |- _ => by rewrite E end.
  - eapply timed_same; [exact IH|]. unfold dram_pop in H. ok_inv. destruct x. ok_inv. simplify_eq. by apply same_timing_eq.
  - rewrite H. eapply timed_same; [exact IH|]. by apply same_timing_eq.
  - by eapply dram_cycle_timed.
Qed.

(** C15: The commands a DRAM channel issues form a sequence that the memory device
    accepts, whatever requests come and whenever replies are taken: at most one command
    a cycle, every pair of commands as far apart as the configured delays demand,
    columns read and written only in the row that is open, rows opened only at closed
    banks. *)
Theorem dram_commands_legal id w0 n tr w :
  dram_new c id = Ok (dram w0) -> runs w0 n tr w -> legal c tr.
Proof using Hdel. intros Hnew Hrun. exact (td_legal _ _ _ (runs_timed id w0 n tr w Hnew Hrun)). Qed.
End timing.

(** * Concrete channels *)

(** GDDR-like timing, 4 banks, first-ready scheduling, 16 requests. *)
Definition demo_config (type : dram_ctrl_t) (queue_size : Z) : outcome dram_config :=
  memory_config_init queue_size type 1 1 4 4 2 4 6 12 6 18 5 3 4 6 1 0 0 4 2.
Definition demo_dram_config : dram_config :=
  match demo_config DRAM_FRFCFS 16 with Ok c => c | Err _ => mkDramConfig 0 DRAM_FIFO 0 0 0 0 0 0 0 0 0 0 0 0 0 0 0 0 0 0 0 0 0 end.

Definition demo_fetch (addr : Z) (a : addrdec_t) (size : Z) (wr : bool) : mem_fetch :=
  mkFetch 0 0 0 MEM_FETCH_INITIALIZED 0 (mem_access_new (if wr then GLOBAL_ACC_W else GLOBAL_ACC_R) addr size wr 0 0) size 8 addr a
    (if wr then WRITE_REQUEST else READ_REQUEST) None.
Definition demo_fetches : heap :=
  mkHeap {[ 1 := demo_fetch 0 (mkAddr 0 0 5 0 0) 32 false; 2 := demo_fetch 64 (mkAddr 0 1 7 0 0) 32 true;
            3 := demo_fetch 128 (mkAddr 0 0 9 0 0) 32 false ]} 4.
(** Cycles [n] to [n + k - 1], with the commands they issue. *)
Fixpoint dram_cycles (k : nat) (c : dram_config) (n : Z) (tr : trace) (w : channel) : outcome (trace * channel) :=
  match k with
  | O => mret (tr, w)
  | S k' => '(w, rep) ← dram_cycle c (mkClock n 0) w; dram_cycles k' c (n + 1) (log n (cmd_issued rep) tr) w
  end.

Lemma dram_cycles_runs c k w0 n tr w tr' w' : runs c w0 n tr w -> dram_cycles k c n tr w = Ok (tr', w') ->
  runs c w0 (n + Z.of_nat k) tr' w'.
Proof.
  revert n tr w. induction k as [|k IH]; intros n tr w Hr H; cbn [dram_cycles] in H.
  { ok_inv. simplify_eq. by rewrite Z.add_0_r. }
  ok_inv. destruct x as [w1 rep]. apply IH in H0; [|by eapply runs_cycle].
  by replace (n + Z.of_nat (S k)) with (n + 1 + Z.of_nat k) by lia.
Qed.

(** Two requests to a new channel, then [k] cycles. *)
Definition two_requests (c : dram_config) (fs : heap) (st : memory_stats_t) (a b : Z) (k : nat) : outcome (trace * channel) :=
  d ← dram_new c 0;
  w ← dram_push c (mkClock 0 0) (mkChannel d ∅ 1 fs {[a; b]} st) a;
  w ← dram_push c (mkClock 0 0) w b;
  dram_cycles k c 0 [] w.

Lemma two_requests_runs c fs st a b k tr w : two_requests c fs st a b k = Ok (tr, w) ->
  exists w0 n, dram_new c 0 = Ok (dram w0) /\ runs c w0 n tr w.
Proof.
  unfold two_requests. intros H. ok_inv. eexists _, _. split; [|eapply dram_cycles_runs; [|eassumption]].
  2: { eapply runs_push; [|eassumption]. eapply runs_push; [|eassumption]. constructor. }
  done.
Qed.

Definition demo_run : outcome (trace * channel) :=
  two_requests demo_dram_config demo_fetches (memory_stats_new true 1 1 4) 1 2 40.

Lemma dram_commands_legal_witness : exists tr w, demo_run = Ok (tr, w) /\ legal demo_dram_config tr /\
  tr = [(16, WR 1 7 16); (14, WR 1 7 0); (8, RD 0 5 16); (6, RD 0 5 0); (4, ACT 1 7 0); (0, ACT 0 5 0)].
Proof.
  assert ((match demo_run with Ok (tr, _) => tr | Err _ => [] end) = [(16, WR 1 7 16); (14, WR 1 7 0); (8, RD 0 5 16); (6, RD 0 5 0); (4, ACT 1 7 0); (0, ACT 0 5 0)]) as Hv by (vm_compute; reflexivity).
  destruct demo_run as [[tr w]|] eqn:E; [|done].
  exists tr, w. split; [done|]. split; [|done].
  destruct (two_requests_runs _ _ _ _ _ _ _ _ E) as (w0 & n & Hnew & Hrun).
  apply (dram_commands_legal demo_dram_config ltac:(by intros []) 0 w0 n tr w Hnew Hrun).
Defined.

(** A queue of size 0 is meant to be unlimited, and stops the constructor. *)
Example unlimited_queue_stops :
  (c ← demo_config DRAM_FRFCFS 0; dram_new c 0) = Err AssertFailed.
Proof. vm_compute. reflexivity. Qed.

(** The shift that should take a bank to its group is one too far: of 4 groups of 4
    banks, bank 4 is put with bank 0, although it was created in group 1. *)
Example bank_groups_are_merged :
  (c ← memory_config_init 16 DRAM_FRFCFS 1 1 4 16 2 4 6 12 6 18 5 3 4 6 4 3 2 4 2;
   mret (bk_tag_length c, Z.shiftr 4 (bk_tag_length c), bkgrpindex (new_bank c 4))) = Ok (3, 0, 1).
Proof. vm_compute. reflexivity. Qed.

(** A write latency not below the row-to-column delay wraps the delay before writes. *)
Example write_delay_wraps :
  (c ← memory_config_init 16 DRAM_FRFCFS 1 1 4 4 2 4 6 12 6 18 9 8 4 6 1 0 0 4 2; mret (tRCDWR c)) = Ok (2 ^ 32 - 3).
Proof. vm_compute. reflexivity. Qed.
