(* ===== verification/DramServe.v ===== *)
(** * A DRAM channel serves every request

    The invariant of a channel between the calls of its client, kept by every
    operation of [Dram]: no pointer dangles, no assertion fails, and the requests that
    came in are those on the way, those returned and the write-backs that are done. *)

From S2P Require Import Prelude OrdMap Coalesce AddrDec MemFetch MemStats FrFcfs DelayQueue Dram.

(** * Counting *)

Definition cnt (p : Z) (l : list Z) : Z := zlen (filter (fun x => x = p) l).

Lemma cnt_cons p x l : cnt p (x :: l) = (if x =? p then 1 else 0) + cnt p l.
Proof.
  unfold cnt. rewrite filter_cons. destruct (Z.eqb_spec x p) as [->|].
  - rewrite decide_True by done. unfold zlen. simpl. lia.
  - rewrite decide_False by done. lia.
Qed.
Lemma cnt_perm p l l' : l ≡ₚ l' -> cnt p l = cnt p l'.
Proof. intros H. unfold cnt, zlen. by rewrite H. Qed.
Lemma cnt_nonneg p l : 0 <= cnt p l.
Proof. apply zlen_nonneg. Qed.
Lemma cnt_elem p l : 0 < cnt p l <-> p ∈ l.
Proof.
  induction l as [|x l IH]; [split; [done|by intros ?%not_elem_of_nil]|].
  rewrite cnt_cons, elem_of_cons. pose proof (cnt_nonneg p l). destruct (Z.eqb_spec x p); [split; [by left|lia]|].
  rewrite Z.add_0_l, IH. naive_solver.
Qed.

(** * The requests of a channel *)

Section requests.
Context (a nbk : Z) (Ha : 0 < a).

(** How far a request is: [k] of its atoms were sent and [d] have come back. *)
Record progress (waiting at_bank : bool) (on_bus : Z) (r : dram_req_t) (k d : Z) : Prop := {
  pg_sent : txbytes r = a * k;
  pg_back : dqbytes r = a * d;
  pg_order : 0 <= d <= k;
  pg_bus : on_bus = k - d;
  pg_last : k <= 1 \/ a * (k - 1) < nbytes r;
  pg_open : d = 0 \/ a * d < nbytes r;
  pg_waiting : waiting = true -> k = 0;
  pg_bank : at_bank = true -> k = 0 \/ a * k < nbytes r;
  pg_away : waiting = false -> at_bank = false -> 1 <= k /\ nbytes r <= a * k }.

(** [wait] are the requests before the banks, [bank] those at a bank and [bus] the
    atoms on the way. *)
Record reqs_ok (wait bank bus : list Z) (h : reqs) (next : Z) : Prop := {
  ro_once : NoDup (wait ++ bank);
  ro_live : forall p, p ∈ wait ++ bank ++ bus -> is_Some (h !! p);
  ro_reqs : forall p r, h !! p = Some r -> 0 <= r_bk r < nbk /\ 0 <= nbytes r /\ nbytes r + a < 2 ^ 32 /\
    exists k d, progress (bool_decide (p ∈ wait)) (bool_decide (p ∈ bank)) (cnt p bus) r k d;
  ro_next : forall p r, h !! p = Some r -> p < next }.

Lemma reqs_ok_perm wait wait' bank bank' bus bus' h next : reqs_ok wait bank bus h next ->
  wait ≡ₚ wait' -> bank ≡ₚ bank' -> bus ≡ₚ bus' -> reqs_ok wait' bank' bus' h next.
Proof using Ha.
  intros [H1 H2 H3 H4] P1 P2 P3. split; [by rewrite <- P1, <- P2| | |done].
  - intros p. rewrite <- P1, <- P2, <- P3. apply H2.
  - intros p r Hp. destruct (H3 p r Hp) as (R1 & R2 & R3 & k & d & R4). do 3 (split; [done|]). exists k, d.
    rewrite <- (cnt_perm p bus bus') by done.
    rewrite <- (bool_decide_ext (p ∈ wait) (p ∈ wait')) by (by rewrite P1).
    by rewrite <- (bool_decide_ext (p ∈ bank) (p ∈ bank')) by (by rewrite P2).
Qed.

(** A request that differs in what the invariant does not look at. *)
Lemma reqs_ok_store wait bank bus h next p r r' : reqs_ok wait bank bus h next -> h !! p = Some r ->
  r_bk r' = r_bk r -> nbytes r' = nbytes r -> txbytes r' = txbytes r -> dqbytes r' = dqbytes r ->
  reqs_ok wait bank bus (<[p := r']> h) next.
Proof using Ha.
  intros [H1 H2 H3 H4] Hp E1 E2 E3 E4. split; [done| | |].
  - intros q Hq. rewrite lookup_insert. case_decide; [done|]. by apply H2.
  - intros q s. rewrite lookup_insert. case_decide as E; [|apply H3]. intros [= <-]. subst q.
    destruct (H3 p r Hp) as (R1 & R2 & R3 & k & d & [P1 P2 P3 P4 P5 P6 P7 P8 P9]). rewrite E1, E2. split_and!; try lia.
    exists k, d. split; rewrite ?E2, ?E3, ?E4; done.
  - intros q s. rewrite lookup_insert. case_decide as E; [|apply H4]. intros _. subst q. by apply (H4 p r).
Qed.

(** [new dram_req_t] and [mrqq->push]. *)
Lemma reqs_ok_push wait bank bus h next r : reqs_ok wait bank bus h next -> txbytes r = 0 -> dqbytes r = 0 ->
  0 <= r_bk r < nbk -> 0 <= nbytes r -> nbytes r + a < 2 ^ 32 ->
  reqs_ok (wait ++ [next]) bank bus (<[next := r]> h) (next + 1) /\ h !! next = None.
Proof using Ha.
  intros [H1 H2 H3 H4] Et Ed Hb Hn Hn'.
  assert (h !! next = None) as Hnew.
  { destruct (h !! next) as [s|] eqn:E; [|done]. specialize (H4 next s E). lia. }
  assert (forall p, p ∈ wait ++ bank ++ bus -> p <> next) as Hne.
  { intros p Hp ->. destruct (H2 next Hp). congruence. }
  split; [|done]. split.
  - rewrite <- app_assoc. simpl. rewrite <- Permutation_middle. constructor; [|done].
    intros Hin. apply (Hne next); [|done]. rewrite app_assoc. apply elem_of_app. by left.
  - intros p Hp. rewrite lookup_insert. case_decide; [done|]. apply H2. set_solver.
  - intros p s. rewrite lookup_insert. case_decide as E.
    + intros [= <-]. subst p. split_and!; try lia. exists 0, 0.
      assert (cnt next bus = 0) as Ec.
      { pose proof (cnt_nonneg next bus). destruct (Z.eq_dec (cnt next bus) 0); [done|].
        assert (next ∈ bus) by (apply cnt_elem; lia). destruct (Hne next); [set_solver|done]. }
      split; rewrite ?Et, ?Ed, ?Ec; try lia. rewrite bool_decide_eq_true_2 by set_solver. done.
    + intros Hp. destruct (H3 p s Hp) as (R1 & R2 & R3 & k & d & R4). do 3 (split; [done|]). exists k, d.
      by rewrite (bool_decide_ext (p ∈ wait ++ [next]) (p ∈ wait)) by set_solver.
  - intros p s. rewrite lookup_insert. case_decide as E; [intros _; lia|]. intros Hp%H4. lia.
Qed.

(** A request goes from the scheduler to its bank. *)
Lemma reqs_ok_assign wait bank bus h next p : reqs_ok (p :: wait) bank bus h next -> reqs_ok wait (p :: bank) bus h next.
Proof using Ha.
  intros [H1 H2 H3 H4]. simpl in H1. split.
  - by rewrite <- Permutation_middle.
  - intros q Hq. apply H2. set_solver.
  - intros q r Hq. destruct (H3 q r Hq) as (R1 & R2 & R3 & k & d & [P1 P2 P3 P4 P5 P6 P7 P8 P9]). do 3 (split; [done|]).
    exists k, d. apply NoDup_cons in H1 as [Hn _].
    destruct (decide (q = p)) as [->|Hne].
    + rewrite bool_decide_eq_true_2 in P7 by left. specialize (P7 eq_refl).
      rewrite (bool_decide_eq_false_2 (p ∈ wait)) by set_solver. rewrite bool_decide_eq_true_2 by left. split; try done. by left.
    + rewrite (bool_decide_ext (q ∈ wait) (q ∈ p :: wait)) by set_solver.
      rewrite (bool_decide_ext (q ∈ p :: bank) (q ∈ bank)) by set_solver. by split.
  - done.
Qed.

(** An atom is sent. *)
Lemma reqs_ok_send wait bank bus h next p r : reqs_ok wait (p :: bank) bus h next -> h !! p = Some r ->
  let r' := set_txbytes r (u32 (txbytes r + a)) in
  reqs_ok wait (if txbytes r' <? nbytes r' then p :: bank else bank) (p :: bus) (<[p := r']> h) next.
Proof using Ha.
  intros [H1 H2 H3 H4] Hp r'. destruct (H3 p r Hp) as (R1 & R2 & R3 & k & d & [P1 P2 P3 P4 P5 P6 P7 P8 P9]).
  rewrite bool_decide_eq_true_2 in P8 by left. specialize (P8 eq_refl).
  assert (u32 (txbytes r + a) = a * (k + 1)) as Etx by (rewrite uwrap_small; nia).
  assert ((p ∉ wait) /\ (p ∉ bank)) as [Hw Hb].
  { rewrite <- Permutation_middle in H1. apply NoDup_cons in H1 as [H1 _]. set_solver. }
  set (bank' := if txbytes r' <? nbytes r' then p :: bank else bank).
  assert (forall q : Z, q <> p -> (q ∈ bank') <-> (q ∈ (p :: bank))) as Hother by (unfold bank'; intros; case_match; set_solver).
  assert ((p ∈ bank') <-> (a * (k + 1) < nbytes r)) as Hself.
  { unfold bank'. simpl. rewrite Etx. destruct (Z.ltb_spec (a * (k + 1)) (nbytes r)); [split; [done|left]|split; [done|lia]]. }
  split.
  - unfold bank'. case_match; [done|]. rewrite <- Permutation_middle in H1. by apply NoDup_cons in H1 as [_ H1].
  - intros q Hq. rewrite lookup_insert. destruct (decide (p = q)); [done|]. apply H2. rewrite !elem_of_app, elem_of_cons in Hq.
    destruct Hq as [Hq|[Hq|[->|Hq]]]; [set_solver| |done|set_solver]. apply Hother in Hq; [set_solver|done].
  - intros q s. rewrite lookup_insert. destruct (decide (p = q)) as [E|E].
    + intros [= <-]. subst q. simpl. split_and!; try lia. exists (k + 1), d. split; simpl; try done; try lia.
      * rewrite cnt_cons, Z.eqb_refl. lia.
      * rewrite bool_decide_eq_false_2 by done. done.
      * intros Hin%bool_decide_eq_true. right. by apply Hself.
      * intros _ Hn%bool_decide_eq_false. rewrite Hself in Hn. lia.
    + intros Hq. destruct (H3 q s Hq) as (S1 & S2 & S3 & k' & d' & S4). do 3 (split; [done|]). exists k', d'.
      rewrite cnt_cons, (proj2 (Z.eqb_neq p q)), Z.add_0_l by done.
      by rewrite (bool_decide_ext (q ∈ bank') (q ∈ p :: bank)) by (by apply Hother).
  - intros q s. rewrite lookup_insert. destruct (decide (p = q)) as [E|E]; [|apply H4]. intros _. subst q. by apply (H4 p r).
Qed.

(** An atom comes back: the last one of a request, which is then nowhere else, or not. *)
Lemma reqs_ok_return wait bank bus h next p r : reqs_ok wait bank (p :: bus) h next -> h !! p = Some r ->
  let r' := set_dqbytes r (u32 (dqbytes r + a)) in
  if nbytes r' <=? dqbytes r' then reqs_ok wait bank bus (delete p h) next
  else reqs_ok wait bank bus (<[p := r']> h) next.
Proof using Ha.
  intros [H1 H2 H3 H4] Hp r'. destruct (H3 p r Hp) as (R1 & R2 & R3 & k & d & [P1 P2 P3 P4 P5 P6 P7 P8 P9]).
  rewrite cnt_cons, Z.eqb_refl in P4. pose proof (cnt_nonneg p bus) as Hc.
  assert (u32 (dqbytes r + a) = a * (d + 1)) as Edq by (rewrite uwrap_small; nia).
  assert (forall q s, q <> p -> h !! q = Some s -> 0 <= r_bk s < nbk /\ 0 <= nbytes s /\ nbytes s + a < 2 ^ 32 /\
    exists k d, progress (bool_decide (q ∈ wait)) (bool_decide (q ∈ bank)) (cnt q bus) s k d) as Hother.
  { intros q s Hne Hq. destruct (H3 q s Hq) as (S1 & S2 & S3 & k' & d' & S4). do 3 (split; [done|]). exists k', d'.
    by rewrite cnt_cons, (proj2 (Z.eqb_neq p q)), Z.add_0_l in S4 by done. }
  simpl. rewrite Edq. destruct (Z.leb_spec (nbytes r) (a * (d + 1))) as [Hdone|Hmore].
  - assert (k = d + 1) as -> by nia.
    assert (p ∉ wait) as Hw by (intros Hin; rewrite bool_decide_eq_true_2 in P7 by done; specialize (P7 eq_refl); lia).
    assert (p ∉ bank) as Hb by (intros Hin; rewrite bool_decide_eq_true_2 in P8 by done; specialize (P8 eq_refl); nia).
    assert (p ∉ bus) as Hbus by (rewrite <- cnt_elem; lia).
    split; [done| | |].
    + intros q Hq. rewrite lookup_delete_ne by set_solver. apply H2. set_solver.
    + intros q s. rewrite lookup_delete_Some. intros [Hne Hq]. by apply Hother.
    + intros q s. rewrite lookup_delete_Some. intros [_ Hq]. by apply (H4 q s).
  - split; [done| | |].
    + intros q Hq. rewrite lookup_insert. destruct (decide (p = q)); [done|]. apply H2. set_solver.
    + intros q s. rewrite lookup_insert. destruct (decide (p = q)) as [E|E]; [|apply Hother; congruence]. intros [= <-]. subst q.
      do 3 (split; [done|]). exists k, (d + 1). split; simpl; try done; try lia.
    + intros q s. rewrite lookup_insert. destruct (decide (p = q)) as [E|E]; [|apply H4]. intros _. subst q. by apply (H4 p r).
Qed.
End requests.

(** * The memory requests behind them *)

(** The request has not been answered, and its kind is that of its access. *)
Definition waits_reply (mf : mem_fetch) : Prop :=
  match m_type mf with
  | READ_REQUEST => get_is_write mf = false
  | WRITE_REQUEST => get_is_write mf = true
  | READ_REPLY | WRITE_ACK => False
  end.
Definition is_reply (mf : mem_fetch) : Prop := m_type mf = READ_REPLY \/ m_type mf = WRITE_ACK.

Record fetch_ok (owned ret : list Z) (h : heap) : Prop := {
  fo_heap : heap_ok h;
  fo_once : NoDup (owned ++ ret);
  fo_pending : forall data, data ∈ owned -> exists mf, objects h !! data = Some mf /\ waits_reply mf;
  fo_replied : forall data, data ∈ ret -> exists mf, objects h !! data = Some mf /\ is_reply mf }.

Lemma fetch_ok_perm owned owned' ret ret' h : fetch_ok owned ret h -> owned ≡ₚ owned' -> ret ≡ₚ ret' -> fetch_ok owned' ret' h.
Proof.
  intros [H1 H2 H3 H4] P1 P2. split; [done|by rewrite <- P1, <- P2| |].
  - intros data. rewrite <- P1. apply H3.
  - intros data. rewrite <- P2. apply H4.
Qed.

(** A change of a request that keeps its kind. *)
Lemma fetch_ok_update owned ret h data f : fetch_ok owned ret h -> data ∈ owned ++ ret ->
  (forall mf, m_type (f mf) = m_type mf /\ get_is_write (f mf) = get_is_write mf) ->
  exists h', update h data f = Ok h' /\ fetch_ok owned ret h' /\
    forall q, objects h' !! q = if decide (q = data) then f <$> objects h !! q else objects h !! q.
Proof.
  intros [H1 H2 H3 H4] Hin Hf.
  assert (exists mf, objects h !! data = Some mf) as [mf Hmf].
  { apply elem_of_app in Hin as [Hin|Hin]; [destruct (H3 data Hin) as (mf & ? & _)|destruct (H4 data Hin) as (mf & ? & _)]; by exists mf. }
  unfold update, deref. rewrite Hmf. simpl. eexists. split; [done|].
  assert (forall q, (<[data := f mf]> (objects h)) !! q = if decide (q = data) then f <$> objects h !! q else objects h !! q) as Hq.
  { intros q. rewrite lookup_insert. destruct (decide (data = q)), (decide (q = data)); subst; try done. by rewrite Hmf. }
  split; [|exact Hq]. split; simpl; [|done| |].
  - intros q m. simpl. rewrite Hq. case_decide; [|apply H1]. subst. rewrite Hmf. intros _. by apply (H1 data mf).
  - intros q Hq'. destruct (H3 q Hq') as (m & Hm & Hw). rewrite Hq, Hm. case_decide; [|by exists m].
    exists (f m). split; [done|]. unfold waits_reply in *. destruct (Hf m) as [-> ->]. done.
  - intros q Hq'. destruct (H4 q Hq') as (m & Hm & Hw). rewrite Hq, Hm. case_decide; [|by exists m].
    exists (f m). split; [done|]. unfold is_reply in *. destruct (Hf m) as [-> _]. done.
Qed.

Definition write_back (mf : mem_fetch) : bool :=
  bool_decide (get_access_type mf = L1_WRBK_ACC) || bool_decide (get_access_type mf = L2_WRBK_ACC).

(** The request is answered. *)
Lemma fetch_ok_reply owned ret h data mf : fetch_ok (data :: owned) ret h -> objects h !! data = Some mf ->
  write_back mf = false ->
  exists mf' h', set_reply mf = Ok mf' /\ update h data (fun _ => mf') = Ok h' /\ fetch_ok owned (ret ++ [data]) h'.
Proof.
  intros [H1 H2 H3 H4] Hmf Hwb. apply orb_false_iff in Hwb as [Hw1 Hw2].
  destruct (H3 data ltac:(left)) as (m & Hm & Hk). assert (m = mf) as -> by congruence. unfold waits_reply in Hk.
  assert (exists mf', set_reply mf = Ok mf' /\ is_reply mf') as (mf' & E & Hr).
  { unfold set_reply. rewrite Hw1, Hw2. simpl. destruct (m_type mf); try done; rewrite Hk; simpl;
      eexists; (split; [done|]); [by left|by right]. }
  exists mf'. unfold update, deref. rewrite Hmf. simpl. eexists. split; [done|]. split; [done|].
  simpl in H2. apply NoDup_cons in H2 as [Hn H2]. split; simpl.
  - intros q x. simpl. rewrite lookup_insert. destruct (decide (data = q)) as [<-|]; [intros _; by apply (H1 data mf)|by intros ?%H1].
  - rewrite app_assoc. apply NoDup_app. split; [done|]. split; [|apply NoDup_singleton].
    intros x Hx Hd%list_elem_of_singleton. by subst.
  - intros q Hq. assert (q <> data) by (intros ->; set_solver). rewrite lookup_insert_ne by done. apply H3. by right.
  - intros q [Hq|Hq%list_elem_of_singleton]%elem_of_app.
    + assert (q <> data) by (intros ->; set_solver). rewrite lookup_insert_ne by done. by apply H4.
    + subst q. rewrite lookup_insert_eq. by exists mf'.
Qed.

(** The request of a write-back is deleted. *)
Lemma fetch_ok_done owned ret h data : fetch_ok (data :: owned) ret h ->
  fetch_ok owned ret (mkHeap (delete data (objects h)) (next_object h)).
Proof.
  intros [H1 H2 H3 H4]. simpl in H2. apply NoDup_cons in H2 as [Hn H2]. split; simpl; [|done| |].
  - intros q x. simpl. rewrite lookup_delete_Some. intros [_ Hq]. by apply (H1 q x).
  - intros q Hq. rewrite lookup_delete_ne by set_solver. apply H3. by right.
  - intros q Hq. rewrite lookup_delete_ne by set_solver. by apply H4.
Qed.

(** ** Which requests a channel owns *)

Definition owners (h : reqs) : list Z := (map_to_list (r_data <$> h)).*2.

Lemma owners_store h p r r' : h !! p = Some r -> r_data r' = r_data r -> owners (<[p := r']> h) = owners h.
Proof.
  intros Hp E. unfold owners. rewrite fmap_insert, insert_id; [done|]. by rewrite lookup_fmap, Hp, E.
Qed.
Lemma owners_insert h p r : h !! p = None -> owners (<[p := r]> h) ≡ₚ r_data r :: owners h.
Proof.
  intros Hp. unfold owners. rewrite fmap_insert, map_to_list_insert; [done|]. by rewrite lookup_fmap, Hp.
Qed.
Lemma owners_delete h p r : h !! p = Some r -> owners h ≡ₚ r_data r :: owners (delete p h).
Proof.
  intros Hp. unfold owners. rewrite fmap_delete.
  by rewrite <- (map_to_list_delete (r_data <$> h) p (r_data r)) by (by rewrite lookup_fmap, Hp).
Qed.
Lemma owners_elem h p r : h !! p = Some r -> r_data r ∈ owners h.
Proof. intros Hp. rewrite (owners_delete h p r Hp). left. Qed.

(** * The invariant of a channel *)

Record config_ok (c : dram_config) : Prop := {
  cf_banks : 0 < nbk c < 2 ^ 31;
  cf_groups : forall j, 0 <= j < nbk c -> 0 <= Z.shiftr j (bk_tag_length c) < nbkgrp c;
  cf_atom : 0 < dram_atom_size c;
  cf_latency : 0 <= CL c /\ CL c + 1 < 2 ^ 32;
  cf_write : 0 <= WL c <= CL c;
  cf_queue : 0 < gpgpu_dram_sched_queue_size c < 2 ^ 32 }.

(** The requests inside the scheduler. *)
Definition in_scheduler (so : option frfcfs_scheduler) : list Z := match so with Some s => queued s | None => [] end.
Definition sched_part (c : dram_config) (so : option frfcfs_scheduler) (h : reqs) : Prop :=
  match so with
  | Some s => scheduler_type c = DRAM_FRFCFS /\ sched_ok h (nbk c) s /\ m_num_pending s <= gpgpu_dram_sched_queue_size c
  | None => scheduler_type c = DRAM_FIFO
  end.

Definition at_banks (d : dram_t) : list Z := omap mrq (banks d).
Definition waiting (so : option frfcfs_scheduler) (d : dram_t) : list Z := items (mrqq d) ++ in_scheduler so.

(** [so] is the scheduler, which the code keeps in a local variable for a while. *)
Record channel_ok (c : dram_config) (so : option frfcfs_scheduler) (w : channel) : Prop := {
  co_id : 0 <= d_id (dram w) < m_n_mem c;
  co_banks : zlen (banks (dram w)) = nbk c;
  co_groups : zlen (bkgrp (dram w)) = nbkgrp c;
  co_prio : 0 <= prio (dram w) < nbk c;
  co_rwq : fifo_wf (rwq (dram w)) /\ m_max_len (rwq (dram w)) = CL c + 1;
  co_mrqq : fifo_wf (mrqq (dram w)) /\ m_max_len (mrqq (dram w)) = 2 /\ solid (mrqq (dram w));
  co_returnq : fifo_wf (returnq (dram w)) /\ m_max_len (returnq (dram w)) = gpgpu_dram_sched_queue_size c;
  co_sched : sched_part c so (ch_reqs w);
  co_reqs : reqs_ok (dram_atom_size c) (nbk c) (waiting so (dram w)) (at_banks (dram w)) (items (rwq (dram w)))
              (ch_reqs w) (next_req w);
  co_fetches : fetch_ok (owners (ch_reqs w)) (items (returnq (dram w))) (fetches w);
  co_stats : stats_ok (m_n_mem c) (nbk c) (m_stats w) }.

(** The memory requests that are on their way through the channel. *)
Definition in_flight (w : channel) : list Z := owners (ch_reqs w) ++ items (returnq (dram w)).

Lemma sched_part_frame c so h h' : sched_part c so h ->
  (forall p r, p ∈ in_scheduler so -> h !! p = Some r -> exists r', h' !! p = Some r' /\ r_row r' = r_row r /\ r_bk r' = r_bk r) ->
  sched_part c so h'.
Proof.
  destruct so as [s|]; [|done]. intros (Ht & Hs & Hn) Hf. split; [done|]. split; [|done].
  by apply (sched_ok_frame h h' (nbk c) s Hs).
Qed.

(** One bank changes. *)
Lemma at_banks_write bs j bj : zread bs j = Some bj ->
  exists rest, omap mrq bs ≡ₚ option_list (mrq bj) ++ rest /\
    forall x, omap mrq (zwrite bs j x) ≡ₚ option_list (mrq x) ++ rest.
Proof.
  intros Hj. pose proof (zread_range _ _ _ Hj) as Hr. rewrite zread_lookup in Hj by lia.
  unfold zwrite. rewrite (proj2 (Z.leb_le 0 j)) by lia.
  apply list_elem_of_split_length in Hj as (l1 & l2 & -> & Hl). exists (omap mrq l1 ++ omap mrq l2).
  assert (forall x, omap mrq (l1 ++ x :: l2) ≡ₚ option_list (mrq x) ++ omap mrq l1 ++ omap mrq l2) as H.
  { intros x. rewrite omap_app. cbn. destruct (mrq x); simpl; [symmetry; apply Permutation_middle|done]. }
  split; [apply H|]. intros x. rewrite Hl, insert_app_r_alt, Nat.sub_diag by done. apply H.
Qed.

(** The requests change, in what the scheduler does not look at. *)
Lemma sched_part_update c so h h' : sched_part c so h -> (forall p, p ∈ in_scheduler so -> is_Some (h' !! p)) ->
  (forall p r r', h !! p = Some r -> h' !! p = Some r' -> r_row r' = r_row r /\ r_bk r' = r_bk r) -> sched_part c so h'.
Proof.
  intros Hs Hl Hsame. apply (sched_part_frame c so h); [done|]. intros p r Hp Hr.
  destruct (Hl p Hp) as [r' Hr']. exists r'. split; [done|]. by apply (Hsame p).
Qed.

Section serve.
Context (c : dram_config) (Hc : config_ok c).
Implicit Types (so : option frfcfs_scheduler) (w : channel).

Lemma touch_ok so w clk st data : channel_ok c so w -> data ∈ in_flight w ->
  exists h, touch_fetch clk st w data = Ok (with_fetches w h) /\ channel_ok c so (with_fetches w h).
Proof using.
  intros [H1 H2 H3 H4 H5 H6 H7 H8 H9 H10 H11] Hin. unfold touch_fetch.
  destruct (fetch_ok_update _ _ _ data (fun mf => set_mf_status mf st (now clk)) H10 Hin ltac:(done)) as (h & -> & Hh & _).
  simpl. exists h. split; [done|]. by split.
Qed.

Lemma in_flight_req w p r : ch_reqs w !! p = Some r -> r_data r ∈ in_flight w.
Proof using. intros Hp. apply elem_of_app. left. by eapply owners_elem. Qed.

Lemma return_data_ok so clk w : channel_ok c so w ->
  exists w' o, return_data c clk w = Ok (w', o) /\ channel_ok c so w' /\ in_flight w ≡ₚ option_list o ++ in_flight w' /\
    m_frfcfs_scheduler (dram w') = m_frfcfs_scheduler (dram w) /\
    gpgpu_memlatency_stat (m_stats w') = gpgpu_memlatency_stat (m_stats w) /\ m_n_shader (m_stats w') = m_n_shader (m_stats w).
Proof using Hc.
  intros Hw. pose proof Hw as [H1 H2 H3 H4 [H5 H5'] H6 [H7 H7'] H8 H9 H10 H11]. unfold return_data.
  destruct (full (returnq (dram w))) eqn:Efull. { exists w, None. by split_and!. }
  assert (m_length (returnq (dram w)) < m_max_len (returnq (dram w))) as Hroom
    by (apply full_room; [done|rewrite H7'; apply Hc|done]).
  destruct (pop_wf (rwq (dram w)) H5) as (q & Epop & Hq & Hitems & _). destruct (pop_max _ _ _ Epop) as [Emax _].
  rewrite Epop. simpl. destruct (top (rwq (dram w))) as [p|]; simpl in Hitems.
  2: { eexists _, None. split; [done|]. split; [|done]. split; simpl; try done; [by rewrite Emax|by rewrite <- Hitems]. }
  rewrite Hitems in H9. destruct (ro_live _ _ _ _ _ _ _ H9 p ltac:(set_solver)) as [r Hr].
  unfold req. rewrite Hr. simpl. pose proof (reqs_ok_return _ _ (cf_atom c Hc) _ _ _ _ _ _ _ H9 Hr) as Hret.
  set (r' := set_dqbytes r (u32 (dqbytes r + dram_atom_size c))) in *. cbv zeta in Hret.
  change (dqbytes r') with (u32 (dqbytes r + dram_atom_size c)) in *. change (nbytes r') with (nbytes r) in *.
  assert (owners (<[p := r']> (ch_reqs w)) = owners (ch_reqs w)) as Eown by (by apply (owners_store _ _ r)).
  destruct (nbytes r <=? u32 (dqbytes r + dram_atom_size c)) eqn:Edone.
  2: { eexists _, None. split; [done|]. unfold in_flight. simpl. rewrite Eown. split; [|done].
       split; simpl; rewrite ?Eown, ?Emax; try done. apply (sched_part_update c so (ch_reqs w)); [done| |].
       - intros s Hs. apply (ro_live _ _ _ _ _ _ _ Hret). unfold waiting. set_solver.
       - intros s x x' Hx. rewrite lookup_insert. destruct (decide (p = s)) as [<-|]; intros Hx'.
         + assert (x = r) as -> by congruence. injection Hx' as <-. done.
         + assert (x = x') as -> by congruence. done. }
  set (w1 := store_req _ p r').
  assert (r_data r ∈ owners (ch_reqs w) ++ items (returnq (dram w))) as Hdata by (apply elem_of_app; left; by eapply owners_elem).
  unfold touch_fetch. change (fetches w1) with (fetches w). change (r_data r') with (r_data r).
  destruct (fetch_ok_update _ _ _ (r_data r) (fun mf => set_mf_status mf IN_PARTITION_MC_RETURNQ (now clk)) H10 Hdata ltac:(done))
    as (h & -> & Hh & _). simpl.
  pose proof (owners_delete (ch_reqs w) p r Hr) as Hperm.
  assert (fetch_ok (r_data r :: owners (delete p (ch_reqs w))) (items (returnq (dram w))) h) as Hh'
    by (by apply (fetch_ok_perm _ _ _ _ _ Hh)).
  destruct (fo_pending _ _ _ Hh' (r_data r) ltac:(left)) as (mf & Hmf & Hwait).
  assert (sched_part c so (delete p (ch_reqs w))) as Hsp.
  { apply (sched_part_update c so (ch_reqs w)); [done| |].
    - intros s Hs. apply (ro_live _ _ _ _ _ _ _ Hret). unfold waiting. set_solver.
    - intros s x x' Hx. rewrite lookup_delete_Some. intros [_ Hx']. assert (x = x') as -> by congruence. done. }
  unfold deref. rewrite Hmf. simpl. rewrite <- negb_orb. fold (write_back mf).
  destruct (write_back mf) eqn:Ewb; simpl.
  - eexists _, (Some (r_data r)). split; [done|].
    split; [|split; [unfold in_flight; simpl; by rewrite delete_insert_eq, Hperm|done]].
    split; simpl; rewrite ?Emax, ?delete_insert_eq; try done. by apply fetch_ok_done in Hh'.
  - destruct (fetch_ok_reply _ _ _ _ _ Hh' Hmf Ewb) as (mf' & h' & -> & E & Hh''). simpl. unfold update, deref in E |- *.
    rewrite Hmf in E |- *. simpl in E |- *. injection E as <-.
    destruct (push_wf (returnq (dram w)) (Some (r_data r)) H7 Hroom) as (q' & Epush & Hq' & Hi' & _).
    destruct (push_max _ _ _ Epush) as [Emax' _]. rewrite Epush. simpl.
    eexists _, None. split; [done|]. unfold in_flight. simpl. rewrite delete_insert_eq, Hi'. split.
    + split; simpl; rewrite ?Emax, ?Emax', ?delete_insert_eq, ?Hi'; try done.
    + split; [|done]. rewrite Hperm. simpl. rewrite app_assoc. by rewrite <- Permutation_cons_append.
Qed.

(** What the steps in the middle of a cycle keep. *)
Record kept (w w' : channel) : Prop := {
  kp_flight : in_flight w' ≡ₚ in_flight w;
  kp_sched : m_frfcfs_scheduler (dram w') = m_frfcfs_scheduler (dram w);
  kp_stat : gpgpu_memlatency_stat (m_stats w') = gpgpu_memlatency_stat (m_stats w);
  kp_shader : m_n_shader (m_stats w') = m_n_shader (m_stats w) }.

Lemma kept_refl w : kept w w.
Proof using. by split. Qed.
Lemma kept_trans w1 w2 w3 : kept w1 w2 -> kept w2 w3 -> kept w1 w3.
Proof using. intros [A1 A2 A3 A4] [B1 B2 B3 B4]. split; [by rewrite B1|congruence..]. Qed.

(** The request of a pointer that the channel holds. *)
Lemma held so w p : channel_ok c so w -> p ∈ waiting so (dram w) ++ at_banks (dram w) ++ items (rwq (dram w)) ->
  exists r, req (ch_reqs w) p = Ok r /\ ch_reqs w !! p = Some r /\ 0 <= r_bk r < nbk c /\ r_data r ∈ in_flight w.
Proof using.
  intros Hw Hp. destruct (ro_live _ _ _ _ _ _ _ (co_reqs _ _ _ Hw) p Hp) as [r Hr]. exists r. unfold req. rewrite Hr.
  destruct (ro_reqs _ _ _ _ _ _ _ (co_reqs _ _ _ Hw) p r Hr) as [Hb _]. do 3 (split; [done|]). by apply (in_flight_req w p r).
Qed.

(** A waiting request goes to an idle bank. *)
Lemma place_at_bank so so' w d' p b bj : channel_ok c so w -> waiting so (dram w) ≡ₚ p :: waiting so' d' ->
  sched_part c so' (ch_reqs w) -> zread (banks (dram w)) b = Some bj -> mrq bj = None ->
  banks d' = zwrite (banks (dram w)) b (set_mrq bj (Some p)) -> d_id d' = d_id (dram w) -> bkgrp d' = bkgrp (dram w) ->
  0 <= prio d' < nbk c -> rwq d' = rwq (dram w) -> returnq d' = returnq (dram w) ->
  fifo_wf (mrqq d') /\ m_max_len (mrqq d') = 2 /\ solid (mrqq d') -> channel_ok c so' (with_dram w d').
Proof using Hc.
  intros [H1 H2 H3 H4 H5 H6 H7 H8 H9 H10 H11] Hperm Hs Hb Em Eb Eid Eg Hp Erw Eret Hq.
  destruct (at_banks_write _ _ _ Hb) as (rest & P1 & P2). rewrite Em in P1. simpl in P1.
  split; simpl; rewrite ?Eb, ?Eid, ?Eg, ?Erw, ?Eret, ?zlen_zwrite; try done.
  eapply (reqs_ok_perm _ _ (cf_atom c Hc)); [apply (reqs_ok_assign _ _ (cf_atom c Hc))|reflexivity| |reflexivity].
  - eapply (reqs_ok_perm _ _ (cf_atom c Hc)); [exact H9|exact Hperm|reflexivity..].
  - unfold at_banks. rewrite Eb, P2. simpl. by rewrite P1.
Qed.

Lemma mrqq_head so w p rest : channel_ok c so w -> items (mrqq (dram w)) = p :: rest ->
  exists q, pop (mrqq (dram w)) = Ok (Some p, q) /\ items q = rest /\ fifo_wf q /\ m_max_len q = 2 /\ solid q.
Proof using.
  intros Hw Hi. destruct (co_mrqq _ _ _ Hw) as (Hwf & Hmax & Hsol).
  destruct (pop_wf _ Hwf) as (q & Epop & Hq & Hit & _). destruct (pop_max _ _ _ Epop) as [Emax _].
  destruct (solid_pop _ _ _ Hsol Epop) as [Hsq _]. rewrite (solid_top _ Hsol), Hi in *. simpl in *.
  exists q. injection Hit as ->. split_and!; try done. by rewrite Emax.
Qed.

Lemma scheduler_fifo_ok so clk w : channel_ok c so w -> exists w', scheduler_fifo clk w = Ok w' /\ channel_ok c so w' /\ kept w w'.
Proof using Hc.
  intros Hw. destruct (co_mrqq _ _ _ Hw) as (Hwf & Hmax & Hsol). unfold scheduler_fifo.
  rewrite (solid_empty _ Hsol), (solid_top _ Hsol). destruct (items (mrqq (dram w))) as [|p rest] eqn:Ei.
  { rewrite bool_decide_eq_true_2 by done. exists w. split_and!; try done; by apply kept_refl. }
  rewrite bool_decide_eq_false_2 by done. simpl.
  destruct (held so w p Hw) as (r & -> & Hr & Hb & Hd); [unfold waiting; rewrite Ei; set_solver|]. simpl.
  destruct (touch_ok so w clk IN_PARTITION_MC_BANK_ARB_QUEUE (r_data r) Hw Hd) as (h & -> & Hw1). simpl.
  destruct (aread_in (banks (dram w)) (r_bk r)) as (bj & Hbj & ->); [rewrite (co_banks _ _ _ Hw); lia|]. simpl.
  destruct (mrq bj) as [m|] eqn:Em. { eexists. split; [done|]. split; [done|]. by split. }
  destruct (mrqq_head so w p rest Hw Ei) as (q & -> & Hi & Hq). simpl.
  rewrite awrite_in by (rewrite (co_banks _ _ _ Hw); lia). simpl. eexists. split; [done|]. split; [|by split].
  apply (place_at_bank so so (with_fetches w h) _ p (r_bk r) bj); simpl; try done.
  - unfold waiting. simpl. by rewrite Ei, Hi.
  - apply Hw1.
  - apply (co_prio _ _ _ Hw).
Qed.

Lemma fill_scheduler_ok fuel clk w s : channel_ok c (Some s) w -> (length (items (mrqq (dram w))) < fuel)%nat ->
  exists w' s', fill_scheduler fuel c clk w s = Ok (w', s') /\ channel_ok c (Some s') w' /\ kept w w'.
Proof using Hc.
  revert w s. induction fuel as [|fuel IH]; intros w s Hw Hf; [lia|]. cbn [fill_scheduler].
  destruct (co_mrqq _ _ _ Hw) as (Hwf & Hmax & Hsol). rewrite (solid_empty _ Hsol).
  destruct (items (mrqq (dram w))) as [|p rest] eqn:Ei.
  { rewrite bool_decide_eq_true_2 by done. exists w, s. split; [done|]. split; [done|]. apply kept_refl. }
  rewrite bool_decide_eq_false_2 by done. simpl.
  destruct ((gpgpu_dram_sched_queue_size c =? 0) || (num_pending s <? gpgpu_dram_sched_queue_size c)) eqn:Eq.
  2: { exists w, s. split; [done|]. split; [done|]. apply kept_refl. }
  pose proof (cf_queue c Hc) as Hqs. rewrite (proj2 (Z.eqb_neq _ 0)) in Eq by lia. apply Z.ltb_lt in Eq. unfold num_pending in Eq.
  destruct (mrqq_head _ w p rest Hw Ei) as (q & -> & Hi & Hq1 & Hq2 & Hq3). simpl.
  destruct (held _ w p Hw) as (r & -> & Hr & Hb & Hd); [unfold waiting; rewrite Ei; set_solver|]. simpl.
  destruct (touch_ok _ w clk IN_PARTITION_MC_INPUT_QUEUE (r_data r) Hw Hd) as (h & Et & Hw1).
  assert (touch_fetch clk IN_PARTITION_MC_INPUT_QUEUE (with_dram w (with_mrqq (dram w) q)) (r_data r) =
    Ok (with_fetches (with_dram w (with_mrqq (dram w) q)) h)) as ->.
  { unfold touch_fetch in *. simpl. destruct (update (fetches w) _ _); [|done]. injection Et as <-. done. }
  simpl. destruct (co_sched _ _ _ Hw) as (Ht & Hs & Hn).
  destruct (add_req_spec _ _ s p r Hs Hr Hb) as (s' & -> & Hs' & En & Hperm & _); [lia|]. simpl.
  destruct Hw1 as [W1 W2 W3 W4 W5 W6 W7 W8 W9 W10 W11]. simpl in *.
  destruct (IH (with_fetches (with_dram w (with_mrqq (dram w) q)) h) s') as (w' & s'' & -> & Hw' & Hk).
  - split; simpl; try done.
    + split; [done|]. split; [done|]. lia.
    + eapply (reqs_ok_perm _ _ (cf_atom c Hc)); [exact W9| |reflexivity..]. unfold waiting. simpl. rewrite Ei, Hi, Hperm. simpl.
      by rewrite Permutation_middle.
  - simpl. rewrite Hi. simpl in Hf. lia.
  - exists w', s''. split; [done|]. split; [done|]. eapply kept_trans; [|exact Hk]. by split.
Qed.

Lemma assign_bank_ok clk w s s' b bj p : channel_ok c (Some s) w -> sched_part c (Some s') (ch_reqs w) ->
  queued s ≡ₚ p :: queued s' -> zread (banks (dram w)) b = Some bj -> mrq bj = None ->
  exists w', assign_bank c clk w b p = Ok w' /\ channel_ok c (Some s') w' /\ kept w w'.
Proof using Hc.
  intros Hw Hs Hperm Hb Em. unfold assign_bank.
  destruct (held _ w p Hw) as (r & -> & Hr & Hbk & Hd); [unfold waiting; simpl; rewrite Hperm; set_solver|]. simpl.
  destruct (touch_ok _ w clk IN_PARTITION_MC_BANK_ARB_QUEUE (r_data r) Hw Hd) as (h & -> & Hw1). simpl.
  rewrite (proj2 (aread_ok _ _ _) Hb). simpl. rewrite awrite_in by (eapply zread_range; exact Hb). simpl.
  set (d' := with_banks _ _).
  assert (channel_ok c (Some s') (with_dram (with_fetches w h) d')) as Hw2.
  { apply (place_at_bank (Some s) (Some s') (with_fetches w h) d' p b bj); try done.
    - unfold waiting. simpl. rewrite Hperm. by rewrite Permutation_middle.
    - simpl. apply Z.mod_pos_bound. apply Hc.
    - apply (co_mrqq _ _ _ Hw). }
  destruct (gpgpu_memlatency_stat (m_stats w)) eqn:Eg.
  2: { eexists. split; [done|]. split; [done|]. by split. }
  destruct (count_mrq_latency_ok _ _ _ (co_stats _ _ _ Hw) (u32 (now clk - timestamp r))) as (st & -> & Hst & E1 & E2);
    [by apply (uwrap_range 32)|]. simpl. eexists. split; [done|].
  assert (owners (<[p := set_timestamp r (u32 (now clk))]> (ch_reqs w)) = owners (ch_reqs w)) as Eo by (by apply (owners_store _ _ r)).
  destruct Hw2 as [W1 W2 W3 W4 W5 W6 W7 W8 W9 W10 W11]. simpl in *.
  pose proof (reqs_ok_store _ _ (cf_atom c Hc) _ _ _ _ _ p r (set_timestamp r (u32 (now clk))) W9 Hr eq_refl eq_refl eq_refl eq_refl) as W9'.
  split; [|split; unfold in_flight; simpl; by rewrite ?Eo].
  split; simpl; rewrite ?Eo; try done. apply (sched_part_update c (Some s') (ch_reqs w)); [done| |].
  - intros q Hq. apply (ro_live _ _ _ _ _ _ _ W9'). unfold waiting. set_solver.
  - intros q x x' Hx. rewrite lookup_insert. destruct (decide (p = q)) as [<-|]; intros Hx'.
    + assert (x = r) as -> by congruence. injection Hx' as <-. done.
    + assert (x = x') as -> by congruence. done.
Qed.

Lemma try_banks_ok n clk w s i : channel_ok c (Some s) w ->
  exists w' s', try_banks n c clk w s i = Ok (w', s') /\ channel_ok c (Some s') w' /\ kept w w'.
Proof using Hc.
  revert w s i. induction n as [|n IH]; intros w s i Hw; cbn [try_banks].
  { exists w, s. split; [done|]. split; [done|]. apply kept_refl. }
  set (b := _ `mod` _). assert (0 <= b < nbk c) as Hb by (apply Z.mod_pos_bound; apply Hc).
  destruct (aread_in (banks (dram w)) b) as (bj & Hbj & ->); [rewrite (co_banks _ _ _ Hw); lia|]. simpl.
  destruct (mrq bj) as [m|] eqn:Em; [by apply IH|].
  destruct (co_sched _ _ _ Hw) as (Ht & Hs & Hn). pose proof (cf_queue c Hc) as Hqs.
  destruct (frfcfs_schedule_spec _ (nbk c) (m_n_mem c) (d_id (dram w)) clk (co_id _ _ _ Hw) s (m_stats w) b (curr_row bj) Hs
    (co_stats _ _ _ Hw) Hb) as (s' & st & -> & Hs' & (K1 & K2 & K3) & Hperm & Hle & _); [lia|]. simpl.
  assert (sched_part c (Some s') (ch_reqs w)) as Hsp by (split; [done|]; split; [done|lia]).
  pose proof Hw as [W1 W2 W3 W4 W5 W6 W7 W8 W9 W10 W11].
  destruct (pick (ch_reqs w) (curr_row bj) (view s b)) as [[p v]|]; simpl in *.
  - destruct (assign_bank_ok clk (with_stats w st) s s' b bj p) as (w' & -> & Hw' & Hk); [by split|done..|]. simpl.
    exists w', s'. split; [done|]. split; [done|]. eapply kept_trans; [|exact Hk]. by split.
  - destruct (IH (with_stats w st) s' (i + 1)) as (w' & s'' & -> & Hw' & Hk).
    + split; simpl; try done. eapply (reqs_ok_perm _ _ (cf_atom c Hc)); [exact W9| |reflexivity..].
      unfold waiting. simpl. by rewrite Hperm.
    + exists w', s''. split; [done|]. split; [done|]. eapply kept_trans; [|exact Hk]. by split.
Qed.

Lemma solid_length (q : fifo_pipeline Z) : solid q -> length (items q) = length (slots q).
Proof using.
  intros [_ Hs]. unfold items. induction (slots q) as [|x l IH]; [done|].
  apply Forall_cons in Hs as [[y ->] Hs]. simpl. f_equal. by apply IH.
Qed.

Lemma scheduler_frfcfs_ok clk w s : channel_ok c (Some s) w -> m_frfcfs_scheduler (dram w) = Some s ->
  exists w' s', scheduler_frfcfs c clk w = Ok w' /\ channel_ok c (Some s') w' /\ m_frfcfs_scheduler (dram w') = Some s' /\
    in_flight w' ≡ₚ in_flight w /\ gpgpu_memlatency_stat (m_stats w') = gpgpu_memlatency_stat (m_stats w) /\
    m_n_shader (m_stats w') = m_n_shader (m_stats w).
Proof using Hc.
  intros Hw Hsch. unfold scheduler_frfcfs. rewrite Hsch. cbn [mbind outcome_bind].
  destruct (fill_scheduler_ok (S (length (slots (mrqq (dram w))))) clk w s Hw) as (w1 & s1 & -> & Hw1 & K1).
  { rewrite (solid_length _ (proj2 (proj2 (co_mrqq _ _ _ Hw)))). lia. }
  cbn [mbind outcome_bind]. destruct (try_banks_ok (Z.to_nat (nbk c)) clk w1 s1 0 Hw1) as (w2 & s2 & -> & Hw2 & K2).
  cbn [mbind outcome_bind]. pose proof (kept_trans _ _ _ K1 K2) as [A1 A2 A3 A4].
  eexists _, s2. split; [done|]. split; [|by split_and!]. destruct Hw2. by split.
Qed.

Lemma if_decide {A} P `{!Decision P} (x y : A) : (if decide P then x else y) = if bool_decide P then x else y.
Proof using. destruct (decide P); [by rewrite bool_decide_eq_true_2|by rewrite bool_decide_eq_false_2]. Qed.

(** Changing direction leaves room for a command. *)
Lemma turn_bus (b : bool) w so n : channel_ok c so w -> full (rwq (dram w)) = false -> 0 <= n <= CL c ->
  exists q, (if b then set_min_length (rwq_fuel c) (rwq (dram w)) n else mret (rwq (dram w))) = Ok q /\
    fifo_wf q /\ items q = items (rwq (dram w)) /\ m_max_len q = CL c + 1 /\ m_length q < m_max_len q.
Proof using Hc.
  intros Hw Hf Hn. destruct (co_rwq _ _ _ Hw) as [Hwf Hmax]. pose proof (cf_latency c Hc) as [Hl Hl'].
  assert (m_length (rwq (dram w)) < m_max_len (rwq (dram w))) as Hroom by (apply full_room; [done|lia|done]).
  destruct b; [|by exists (rwq (dram w))].
  destruct (set_min_length_keeps_items (rwq_fuel c) (rwq (dram w)) n Hwf) as (q & E & Hq & Hi & _ & Em & Hlen);
    [lia|unfold rwq_fuel; lia|]. exists q. split; [done|]. split; [done|]. split; [done|]. lia.
Qed.

(** A column command: the request of bank [j] goes onto the bus once more. *)
Lemma send_atom_ok so w j bj p r q q' d' : channel_ok c so w -> zread (banks (dram w)) j = Some bj -> mrq bj = Some p ->
  ch_reqs w !! p = Some r -> let r' := set_txbytes r (u32 (txbytes r + dram_atom_size c)) in
  fifo_wf q -> items q = items (rwq (dram w)) -> m_max_len q = CL c + 1 -> m_length q < m_max_len q ->
  push q (Some p) = Ok q' -> rwq d' = q' ->
  (exists x, banks d' = zwrite (banks (dram w)) j x /\ mrq x = if txbytes r' <? nbytes r' then mrq bj else None) ->
  zlen (bkgrp d') = nbkgrp c -> prio d' = prio (dram w) -> d_id d' = d_id (dram w) -> mrqq d' = mrqq (dram w) ->
  returnq d' = returnq (dram w) -> m_frfcfs_scheduler d' = m_frfcfs_scheduler (dram w) ->
  channel_ok c so (store_req (with_dram w d') p r') /\ kept w (store_req (with_dram w d') p r').
Proof using Hc.
  intros Hw Hj Em Hr r' Hq Hi Hmax Hroom Epush Erw (x & Ebs & Ex) Hg Ep Eid Emq Eret Esc.
  destruct (push_wf q (Some p) Hq Hroom) as (q1 & E1 & Hq1 & Hi1 & _). rewrite E1 in Epush. injection Epush as ->.
  destruct (push_max _ _ _ E1) as [Emax1 _]. destruct Hw as [W1 W2 W3 W4 W5 W6 W7 W8 W9 W10 W11].
  destruct (at_banks_write _ _ _ Hj) as (rest & P1 & P2). rewrite Em in P1. simpl in P1.
  assert (owners (<[p := r']> (ch_reqs w)) = owners (ch_reqs w)) as Eo by (by apply (owners_store _ _ r)).
  assert (reqs_ok (dram_atom_size c) (nbk c) (waiting so (dram w)) (p :: rest) (items (rwq (dram w))) (ch_reqs w) (next_req w)) as W9'
    by (eapply (reqs_ok_perm _ _ (cf_atom c Hc)); [exact W9|reflexivity|exact P1|reflexivity]).
  pose proof (reqs_ok_send _ _ (cf_atom c Hc) _ _ _ _ _ p r W9' Hr) as Hsend. cbv zeta in Hsend. fold r' in Hsend.
  assert (waiting so d' = waiting so (dram w)) as Ewait by (unfold waiting; by rewrite Emq).
  assert (reqs_ok (dram_atom_size c) (nbk c) (waiting so d') (at_banks d') (items (rwq d')) (<[p := r']> (ch_reqs w)) (next_req w)) as R.
  { rewrite Ewait. eapply (reqs_ok_perm _ _ (cf_atom c Hc)); [exact Hsend|reflexivity| |].
    - unfold at_banks. rewrite Ebs, P2, Ex, Em. by destruct (txbytes r' <? nbytes r').
    - rewrite Erw, Hi1, Hi. apply Permutation_cons_append. }
  split; [|split; unfold in_flight; simpl; by rewrite ?Eo, ?Eret].
  split; simpl; rewrite ?Ebs, ?zlen_zwrite, ?Ep, ?Eid, ?Emq, ?Eret, ?Eo; try done.
  - rewrite Erw, Emax1, Hmax. done.
  - apply (sched_part_update c so (ch_reqs w)); [done| |].
    + intros s Hs. apply (ro_live _ _ _ _ _ _ _ R). rewrite Ewait. unfold waiting. set_solver.
    + intros s y y' Hy. rewrite lookup_insert. destruct (decide (p = s)) as [<-|]; intros Hy'.
      * assert (y = r) as -> by congruence. injection Hy' as <-. done.
      * assert (y = y') as -> by congruence. done.
Qed.

(** A bank changes, not its request. *)
Lemma bank_changed so w d' j bj x : channel_ok c so w -> zread (banks (dram w)) j = Some bj -> mrq x = mrq bj ->
  banks d' = zwrite (banks (dram w)) j x -> bkgrp d' = bkgrp (dram w) -> 0 <= prio d' < nbk c -> d_id d' = d_id (dram w) ->
  rwq d' = rwq (dram w) -> mrqq d' = mrqq (dram w) -> returnq d' = returnq (dram w) ->
  m_frfcfs_scheduler d' = m_frfcfs_scheduler (dram w) -> channel_ok c so (with_dram w d') /\ kept w (with_dram w d').
Proof using Hc.
  intros [W1 W2 W3 W4 W5 W6 W7 W8 W9 W10 W11] Hj Em Ebs Eg Hp Eid Erw Emq Eret Esc.
  destruct (at_banks_write _ _ _ Hj) as (rest & P1 & P2).
  split; [|split; unfold in_flight; simpl; by rewrite ?Eret].
  split; simpl; rewrite ?Ebs, ?Eg, ?Eid, ?Erw, ?Emq, ?Eret, ?zlen_zwrite; try done.
  eapply (reqs_ok_perm _ _ (cf_atom c Hc)); [exact W9| | |reflexivity]; [unfold waiting; by rewrite Emq|].
  unfold at_banks. by rewrite Ebs, P2, Em, P1.
Qed.

Lemma bank_turn_ok so clk i s : channel_ok c so (t_channel s) -> 0 <= i < nbk c ->
  exists s', bank_turn c clk i s = Ok s' /\ channel_ok c so (t_channel s') /\ kept (t_channel s) (t_channel s').
Proof using Hc.
  intros Hw Hi. unfold bank_turn. set (w := t_channel s) in *. set (j := _ `mod` _).
  assert (0 <= j < nbk c) as Hj by (apply Z.mod_pos_bound; apply Hc). pose proof (co_banks _ _ _ Hw) as Hbs.
  destruct (aread_in (banks (dram w)) j ltac:(lia)) as (bj & Hbj & ->). simpl.
  destruct (mrq bj) as [p|] eqn:Em.
  2: { destruct (aread_in (banks (dram w)) i ltac:(lia)) as (bi & Hbi & ->). simpl. rewrite awrite_in by lia. simpl.
       eexists. split; [done|]. simpl. by apply (bank_changed so w _ i bi (count_idle bi) Hw); try apply (co_prio _ _ _ Hw). }
  assert (p ∈ at_banks (dram w)) as Hp.
  { unfold at_banks. destruct (at_banks_write _ _ _ Hbj) as (rest & -> & _). rewrite Em. left. }
  destruct (held so w p Hw) as (r & -> & Hr & Hb & Hd); [set_solver|]. simpl.
  destruct (touch_ok so w clk IN_PARTITION_DRAM (r_data r) Hw Hd) as (h & -> & Hw1). simpl.
  set (w1 := with_fetches w h) in *. assert (kept w w1) as K1 by (by split).
  assert (forall w', channel_ok c so w' /\ kept w1 w' -> channel_ok c so w' /\ kept w w') as Hdone.
  { intros w' [? K]. split; [done|]. by eapply kept_trans. }
  destruct (aread_in (bkgrp (dram w)) (Z.shiftr j (bk_tag_length c))) as (g & Hg & ->);
    [rewrite (co_groups _ _ _ Hw); by apply Hc|]. simpl.
  assert (0 <= Z.shiftr j (bk_tag_length c) < zlen (bkgrp (dram w))) as Hgr by (by eapply zread_range).
  set (issued := bool_decide _).
  destruct (can_read (dram w) bj g r issued) eqn:C1; [|destruct (can_write (dram w) bj g r issued) eqn:C2;
    [|destruct (can_activate (dram w) bj issued); [|destruct (can_precharge bj g r issued)]]].
  - unfold can_read in C1. to_prop. unfold issue_read. change (dram w1) with (dram w).
    destruct (turn_bus (bool_decide (d_rw (dram w) = WRITE)) w so (CL c) Hw) as (q & Eq & Hq & Hi' & Hmax & Hroom);
      [done|pose proof (cf_latency c Hc); lia|].
    assert ((if decide (d_rw (dram w) = WRITE) then set_min_length (rwq_fuel c) (rwq (dram w)) (CL c) else mret (rwq (dram w))) = Ok q) as ->
      by (by rewrite if_decide).
    simpl. destruct (push_wf q (Some p) Hq Hroom) as (q1 & E1 & _). rewrite E1. simpl.
    rewrite !awrite_in by (done || lia). simpl. rewrite ?awrite_in by (done || lia). simpl. eexists. split; [done|]. simpl. apply Hdone.
    apply (send_atom_ok so w1 j bj p r q q1); simpl; try done; [|by rewrite zlen_zwrite, (co_groups _ _ _ Hw)].
    eexists. split; [done|]. done.
  - unfold can_write in C2. to_prop. unfold issue_write. change (dram w1) with (dram w).
    destruct (turn_bus (bool_decide (d_rw (dram w) = READ)) w so (WL c) Hw) as (q & Eq & Hq & Hi' & Hmax & Hroom);
      [done|apply Hc|].
    assert ((if decide (d_rw (dram w) = READ) then set_min_length (rwq_fuel c) (rwq (dram w)) (WL c) else mret (rwq (dram w))) = Ok q) as ->
      by (by rewrite if_decide).
    simpl. destruct (push_wf q (Some p) Hq Hroom) as (q1 & E1 & _). rewrite E1. simpl.
    rewrite !awrite_in by (done || lia). simpl. rewrite ?awrite_in by (done || lia). simpl. eexists. split; [done|]. simpl. apply Hdone.
    apply (send_atom_ok so w1 j bj p r q q1); simpl; try done; [|by rewrite zlen_zwrite, (co_groups _ _ _ Hw)].
    eexists. split; [done|]. done.
  - unfold issue_activate. change (dram w1) with (dram w). rewrite awrite_in by lia. simpl. eexists. split; [done|]. simpl.
    apply Hdone. apply (bank_changed so w1 _ j bj (mkBank (tRCD c) (tRCDWR c) (tRAS c) (RPc bj) (tRC c) (WTPc bj) (RTPc bj)
      BANK_ACTIVE (r_row r) (mrq bj) (n_access bj) (n_idle bj) (bkgrpindex bj))); simpl; try done. apply Z.mod_pos_bound. apply Hc.
  - unfold issue_precharge. change (dram w1) with (dram w). rewrite awrite_in by lia. simpl. eexists. split; [done|]. simpl.
    apply Hdone. apply (bank_changed so w1 _ j bj (mkBank (RCDc bj) (RCDWRc bj) (RASc bj) (tRP c) (RCc bj) (WTPc bj) (RTPc bj)
      BANK_IDLE (curr_row bj) (mrq bj) (n_access bj) (n_idle bj) (bkgrpindex bj))); simpl; try done. apply Z.mod_pos_bound. apply Hc.
  - simpl. eexists. split; [done|]. simpl. done.
Qed.

(** ** The operations of a channel *)

Definition dram_ok w : Prop := channel_ok c (m_frfcfs_scheduler (dram w)) w.

Lemma que_length_ok w : dram_ok w -> exists n, que_length c (dram w) = Ok n.
Proof using.
  intros Hw. pose proof (co_sched _ _ _ Hw) as Hs. unfold que_length, sched_pending, sched_part in *.
  destruct (m_frfcfs_scheduler (dram w)) as [s|].
  - destruct Hs as (-> & _). by eexists.
  - rewrite Hs. by eexists.
Qed.

Lemma with_counts_ok so w k : channel_ok c so w -> channel_ok c so (with_dram w (with_counts (dram w) k)).
Proof using. intros []. by split. Qed.

Lemma tick_ok so w : channel_ok c so w -> channel_ok c so (with_dram w (tick (dram w))).
Proof using.
  intros [W1 W2 W3 W4 W5 W6 W7 W8 W9 W10 W11]. split; simpl; try done.
  - unfold zlen in *. by rewrite length_fmap.
  - unfold zlen in *. by rewrite length_fmap.
  - assert (at_banks (tick (dram w)) = at_banks (dram w)) as ->; [|done].
    unfold at_banks. simpl. clear. induction (banks (dram w)) as [|b l IH]; [done|]. cbn in *. by rewrite IH.
Qed.

Lemma for_up_turns so clk n i s : channel_ok c so (t_channel s) -> 0 <= i -> i + Z.of_nat n <= nbk c ->
  exists s', for_up n i (bank_turn c clk) s = Ok s' /\ channel_ok c so (t_channel s') /\ kept (t_channel s) (t_channel s').
Proof using Hc.
  revert i s. induction n as [|n IH]; intros i s Hs Hi Hn; simpl.
  { exists s. split; [done|]. split; [done|]. apply kept_refl. }
  destruct (bank_turn_ok so clk i s Hs ltac:(lia)) as (s1 & -> & H1 & K1). simpl.
  destruct (IH (i + 1) s1 H1) as (s2 & -> & H2 & K2); [lia|lia|]. exists s2. split; [done|]. split; [done|]. by eapply kept_trans.
Qed.

Lemma dram_cycle_ok clk w : dram_ok w -> exists w' rep, dram_cycle c clk w = Ok (w', rep) /\ dram_ok w' /\
  in_flight w ≡ₚ option_list (wb_done rep) ++ in_flight w' /\ m_n_shader (m_stats w') = m_n_shader (m_stats w).
Proof using Hc.
  intros Hw. unfold dram_cycle. unfold dram_ok in Hw.
  destruct (return_data_ok _ clk w Hw) as (w1 & o & -> & Hw1 & P1 & E1 & _ & N1). simpl.
  assert (exists w2, (match scheduler_type c with DRAM_FIFO => scheduler_fifo clk w1 | DRAM_FRFCFS => scheduler_frfcfs c clk w1 end) = Ok w2 /\
    dram_ok w2 /\ in_flight w2 ≡ₚ in_flight w1 /\ m_n_shader (m_stats w2) = m_n_shader (m_stats w1)) as (w2 & -> & Hw2 & P2 & N2).
  { rewrite <- E1 in Hw1. pose proof (co_sched _ _ _ Hw1) as Hs. unfold dram_ok.
    destruct (m_frfcfs_scheduler (dram w1)) as [s|] eqn:Es; simpl in Hs.
    - destruct Hs as (-> & _). destruct (scheduler_frfcfs_ok clk w1 s Hw1 Es) as (w2 & s2 & -> & H2 & Es2 & P & _ & N).
      exists w2. by rewrite Es2.
    - rewrite Hs. destruct (scheduler_fifo_ok None clk w1 Hw1) as (w2 & -> & H2 & [K1 K2 K3 K4]). exists w2. by rewrite K2, Es. }
  simpl. destruct (que_length_ok w2 Hw2) as [n ->]. simpl. set (w3 := with_dram w2 _).
  assert (dram_ok w3) as Hw3 by (by apply with_counts_ok).
  unfold for_range. rewrite Z.sub_0_r. destruct (for_up_turns _ clk (Z.to_nat (nbk c)) 0 (mkTurn w3 None (nbk c)) Hw3)
    as (s & -> & H4 & [K1 K2 K3 K4]); [lia|pose proof (cf_banks c Hc); lia|]. simpl.
  eexists _, _. split; [done|]. simpl in *. split_and!.
  - unfold dram_ok. simpl. rewrite K2. by apply (tick_ok _ (with_dram _ _)), with_counts_ok.
  - rewrite P1. f_equiv. unfold in_flight in *. simpl in *. by rewrite K1.
  - congruence.
Qed.

(** What a client may push. *)
Record request_ok w (data : Z) (mf : mem_fetch) : Prop := {
  rk_object : objects (fetches w) !! data = Some mf;
  rk_kind : waits_reply mf;
  rk_new : data ∉ in_flight w;
  rk_size : 0 <= m_data_size mf /\ m_data_size mf + dram_atom_size c < 2 ^ 32;
  rk_chip : 0 <= chip (m_raw_addr mf) < m_n_mem c;
  rk_bank : 0 <= bk (m_raw_addr mf) < nbk c;
  rk_type : get_access_type mf <> NUM_MEM_ACCESS_TYPE;
  rk_core : m_sid mf = u32 (-1) \/ 0 <= m_sid mf < m_n_shader (m_stats w) }.

Lemma dram_push_ok clk w data mf : dram_ok w -> dram_full c (dram w) = Ok false -> request_ok w data mf ->
  exists w', dram_push c clk w data = Ok w' /\ dram_ok w' /\ in_flight w' ≡ₚ data :: in_flight w /\
    m_n_shader (m_stats w') = m_n_shader (m_stats w).
Proof using Hc.
  intros Hw Hfull [R1 R2 R3 [R4 R4'] R5 R6 R7 R8]. pose proof Hw as [W1 W2 W3 W4 W5 (W6 & W6' & W6'') W7 W8 W9 W10 W11].
  assert (full (mrqq (dram w)) = false) as Hmf.
  { unfold dram_full in Hfull. rewrite (proj2 (Z.eqb_neq _ 0)) in Hfull by (pose proof (cf_queue c Hc); lia).
    destruct (scheduler_type c); ok_inv; [congruence|]. simplify_eq. by match goal with E : _ || _ = false |- _ => apply orb_false_iff in E as [_ ?] end. }
  unfold dram_push, deref. rewrite R1. simpl. set (r := dram_req_new clk data mf).
  destruct (reqs_ok_push _ _ (cf_atom c Hc) _ _ _ _ _ r W9) as [W9' Hnew]; [done|done|done|done|done|].
  pose proof (owners_insert (ch_reqs w) (next_req w) r Hnew) as Hown. change (r_data r) with data in Hown.
  assert (fetch_ok (data :: owners (ch_reqs w)) (items (returnq (dram w))) (fetches w)) as Hf1.
  { destruct W10 as [F1 F2 F3 F4]. split; [done| | |done].
    - simpl. constructor; done.
    - intros d [->|Hd]%elem_of_cons; [by exists mf|by apply F3]. }
  unfold touch_fetch. simpl. destruct (fetch_ok_update _ _ _ data (fun mf => set_mf_status mf IN_PARTITION_MC_INTERFACE_QUEUE (now clk)) Hf1)
    as (h & -> & Hh & _); [left|done|]. simpl.
  destruct (push_wf (mrqq (dram w)) (Some (next_req w)) W6) as (q & E & Hq & Hi & _); [apply full_room; [done|lia|done]|].
  destruct (push_max _ _ _ E) as [Emax _]. pose proof (solid_push _ _ _ W6'' E) as Hsol. rewrite E. simpl.
  destruct (que_length_ok w Hw) as [n En].
  assert (exists n, que_length c (with_mrqq (dram w) q) = Ok n) as [n' ->].
  { unfold que_length in *. destruct (scheduler_type c); [by eexists|]. by exists n. }
  simpl. destruct (memlatstat_dram_access_ok _ _ _ W11 mf R5 R6 R7 R8) as (st & -> & Hst & N1 & N2). simpl.
  eexists. split; [done|]. unfold dram_ok, in_flight. simpl. split; [|split; [by rewrite Hown|done]].
  split; simpl; try done.
  - split; [done|]. split; [congruence|done].
  - apply (sched_part_update c _ (ch_reqs w)); [done| |].
    + intros p Hp. rewrite lookup_insert. destruct (decide _); [done|]. apply (ro_live _ _ _ _ _ _ _ W9). unfold waiting. set_solver.
    + intros p x x' Hx. rewrite lookup_insert_ne by congruence. intros Hx'. assert (x = x') as -> by congruence. done.
  - eapply (reqs_ok_perm _ _ (cf_atom c Hc)); [exact W9'| |reflexivity..]. unfold waiting. simpl. rewrite Hi, <- !app_assoc.
    f_equiv. apply Permutation_app_comm.
  - eapply fetch_ok_perm; [exact Hh|by rewrite Hown|done].
Qed.

Lemma dram_pop_ok w : dram_ok w -> exists o w', dram_pop w = Ok (o, w') /\ dram_ok w' /\
  in_flight w ≡ₚ option_list o ++ in_flight w' /\ m_stats w' = m_stats w /\
  (forall data, o = Some data -> exists mf, objects (fetches w') !! data = Some mf /\ is_reply mf).
Proof using Hc.
  intros Hw. pose proof Hw as [W1 W2 W3 W4 W5 W6 [W7 W7'] W8 W9 W10 W11]. unfold dram_pop.
  destruct (pop_wf _ W7) as (q & E & Hq & Hi & _). destruct (pop_max _ _ _ E) as [Emax _]. rewrite E. simpl.
  assert (items (returnq (dram w)) = option_list (top (returnq (dram w))) ++ items q) as Hi' by (rewrite Hi; by destruct (top _)).
  clear Hi. eexists _, _. split; [done|]. unfold dram_ok, in_flight. simpl. rewrite Hi' in *. split_and!; [|  |done|].
  - split; simpl; try done; [by rewrite Emax|]. destruct W10 as [F1 F2 F3 F4]. split; [done| |done|].
    + rewrite (Permutation_app_comm (option_list _)), app_assoc in F2. by apply NoDup_app in F2 as [F2 _].
    + intros d Hd. apply F4. set_solver.
  - rewrite !app_assoc. f_equiv. apply Permutation_app_comm.
  - intros data Ed. apply (fo_replied _ _ _ W10). rewrite Ed. simpl. left.
Qed.

Lemma dram_new_ok id h st : 0 <= id < m_n_mem c -> heap_ok h -> stats_ok (m_n_mem c) (nbk c) st ->
  exists d, dram_new c id = Ok d /\ forall t, dram_ok (mkChannel d ∅ 0 h t st) /\ in_flight (mkChannel d ∅ 0 h t st) = [].
Proof using Hc.
  intros Hid Hh Hst. unfold dram_new. destruct Hc as [[C1 C1'] C2 C3 [C4 C4'] C5 [C6 C6']].
  rewrite uwrap_small by lia. destruct (fifo_new_wf (A := Z) (CL c) (CL c + 1)) as (q1 & -> & Q1 & Q1' & _ & M1); [lia|lia|]. rewrite bind_of_ok.
  destruct (fifo_new_wf (A := Z) 0 2) as (q2 & E2 & Q2 & Q2' & _ & M2); [lia|lia|]. rewrite E2, bind_of_ok.
  destruct (fifo_new_wf (A := Z) 0 (gpgpu_dram_sched_queue_size c)) as (q3 & -> & Q3 & Q3' & _ & M3); [lia|lia|]. rewrite bind_of_ok.
  eexists. split; [done|]. intros t. set (w := mkChannel _ _ _ _ _ _).
  assert (at_banks (dram w) = []) as Eb.
  { unfold at_banks. simpl. clear. induction (seqZ 0 (nbk c)) as [|x l IH]; [done|]. exact IH. }
  assert (in_scheduler (m_frfcfs_scheduler (dram w)) = []) as Es.
  { simpl. destruct (scheduler_type c); [done|]. simpl. unfold queued, frfcfs_new. simpl. clear. induction (Z.to_nat (nbk c)) as [|n IH]; [done|]. exact IH. }
  split; [|unfold in_flight; simpl; rewrite Q3'; done].
  split; simpl; try done.
  - unfold zlen. rewrite length_fmap, length_seqZ. lia.
  - assert (0 <= nbkgrp c) by (specialize (C2 0); lia). by apply zlen_replicate.
  - split; [done|]. split; [done|]. by apply (solid_new _ 2).
  - unfold sched_part. destruct (scheduler_type c) eqn:Et; [done|]. split; [done|]. split; [apply sched_ok_new; lia|]. simpl. lia.
  - split.
    + unfold waiting. simpl in *. rewrite Q2', Es, Eb. constructor.
    + unfold waiting. simpl in *. rewrite Q1', Q2', Es, Eb. intros p ?%not_elem_of_nil. done.
    + done.
    + done.
  - rewrite Q3'. split; [done|constructor|by intros d ?%not_elem_of_nil|by intros d ?%not_elem_of_nil].
Qed.

(** * Every run

    [ins] are the requests pushed, [outs] those popped and the write-backs that were
    reported done. *)
Inductive serves : list Z → list Z → channel → Prop :=
  | serves_start id w : dram_new c id = Ok (dram w) -> 0 <= id < m_n_mem c -> ch_reqs w = ∅ -> next_req w = 0 ->
      heap_ok (fetches w) -> stats_ok (m_n_mem c) (nbk c) (m_stats w) -> serves [] [] w
  | serves_push ins outs w clk data mf w' : serves ins outs w -> dram_full c (dram w) = Ok false -> request_ok w data mf ->
      dram_push c clk w data = Ok w' -> serves (data :: ins) outs w'
  | serves_pop ins outs w o w' : serves ins outs w -> dram_pop w = Ok (o, w') -> serves ins (option_list o ++ outs) w'
  | serves_cycle ins outs w clk w' rep : serves ins outs w -> dram_cycle c clk w = Ok (w', rep) ->
      serves ins (option_list (wb_done rep) ++ outs) w'
  | serves_others ins outs w w' k : serves ins outs w -> dram w' = with_counts (dram w) k -> ch_reqs w' = ch_reqs w -> next_req w' = next_req w ->
      fetch_ok (owners (ch_reqs w)) (items (returnq (dram w))) (fetches w') -> stats_ok (m_n_mem c) (nbk c) (m_stats w') ->
      serves ins outs w'.

Lemma serves_ok ins outs w : serves ins outs w -> dram_ok w /\ ins ≡ₚ outs ++ in_flight w.
Proof using Hc.
  induction 1 as [id w Hnew Hid Er En Hh Hst|ins outs w clk data mf w' _ [IH IHp] Hf Hr E|ins outs w o w' _ [IH IHp] E
    |ins outs w clk w' rep _ [IH IHp] E|ins outs w w' k _ [IH IHp] Ed Er En Hf Hst].
  - destruct (dram_new_ok id (fetches w) (m_stats w) Hid Hh Hst) as (d & E & Hd). assert (d = dram w) as -> by congruence.
    destruct w as [d h n f t st]. simpl in *. subst h n. destruct (Hd t) as [H1 H2]. split; [done|]. by rewrite H2.
  - destruct (dram_push_ok clk w data mf IH Hf Hr) as (w1 & E1 & H1 & P1 & _). assert (w1 = w') as -> by congruence.
    split; [done|]. rewrite P1, <- Permutation_middle. by constructor.
  - destruct (dram_pop_ok w IH) as (o1 & w1 & E1 & H1 & P1 & _). rewrite E in E1. injection E1 as <- <-.
    split; [done|]. rewrite IHp, P1. by rewrite !app_assoc, (Permutation_app_comm outs).
  - destruct (dram_cycle_ok clk w IH) as (w1 & r1 & E1 & H1 & P1 & _). rewrite E in E1. injection E1 as <- <-.
    split; [done|]. rewrite IHp, P1. by rewrite !app_assoc, (Permutation_app_comm outs).
  - unfold dram_ok, in_flight in *. rewrite Ed, Er in *. split; [|done]. destruct IH. split; rewrite ?Ed, ?Er, ?En; done.
Qed.

(** C14: A DRAM channel loses no request, answers none twice and never stops: whatever
    was pushed while the channel was not full is still inside, or was popped, or was a
    write-back reported done, each exactly once; a cycle, a pop and an allowed push meet
    no failed assertion and no dangling pointer; and what a pop returns carries the
    reply. *)
Theorem dram_serves_requests ins outs w : serves ins outs w ->
  ins ≡ₚ outs ++ in_flight w /\
  (forall clk, exists w' rep, dram_cycle c clk w = Ok (w', rep)) /\
  (exists o w', dram_pop w = Ok (o, w') /\
     forall data, o = Some data -> exists mf, objects (fetches w') !! data = Some mf /\ is_reply mf) /\
  (forall clk data mf, dram_full c (dram w) = Ok false -> request_ok w data mf -> exists w', dram_push c clk w data = Ok w').
Proof using Hc.
  intros [Hw Hp]%serves_ok. split_and!; [done| | |].
  - intros clk. destruct (dram_cycle_ok clk w Hw) as (w' & rep & E & _). by exists w', rep.
  - destruct (dram_pop_ok w Hw) as (o & w' & E & _ & _ & _ & Hr). by exists o, w'.
  - intros clk data mf Hf Hr. destruct (dram_push_ok clk w data mf Hw Hf Hr) as (w' & E & _). by exists w'.
Qed.
End serve.

(** * Configurations that are accepted *)

Lemma tag_bits_spec fuel i n t : tag_bits fuel i n = Ok t -> 0 <= n -> n < 2 ^ (t - i) /\ i <= t.
Proof.
  revert i n. induction fuel as [|fuel IH]; intros i n H Hn; simpl in H; [done|].
  destruct (Z.ltb_spec 0 n).
  - destruct (IH (i + 1) (Z.shiftr n 1) H) as [H1 H2]; [apply Z.shiftr_nonneg; lia|]. split; [|lia].
    rewrite Z.shiftr_div_pow2 in H1 by lia. replace (t - i) with (Z.succ (t - (i + 1))) by lia.
    rewrite Z.pow_succ_r by lia. change (2 ^ 1) with 2 in H1. pose proof (Z.div_mod n 2 ltac:(lia)).
    pose proof (Z.mod_pos_bound n 2 ltac:(lia)). lia.
  - injection H as <-. rewrite Z.sub_diag. simpl. lia.
Qed.

(** The shift takes every bank to a group that exists. *)
Lemma init_groups qs ty nm np bw k ccd rrd rcd ras rp rc cl wl cdlr wr g ccdl rtpl bl ra c :
  memory_config_init qs ty nm np bw k ccd rrd rcd ras rp rc cl wl cdlr wr g ccdl rtpl bl ra = Ok c ->
  0 < k < 2 ^ 31 -> 0 < g -> forall j, 0 <= j < nbk c -> 0 <= Z.shiftr j (bk_tag_length c) < nbkgrp c.
Proof.
  unfold memory_config_init. intros H Hk Hg j. ok_inv. rewrite (proj2 (Z.eqb_neq g 0)) in * by lia. ok_inv. subst. simpl.
  assert (0 <= k `div` g <= k) as Hdiv by (split; [apply Z.div_pos; lia|apply Z.div_le_upper_bound; nia]).
  match goal with E : tag_bits _ _ _ = Ok ?t |- _ => rewrite swrap_small in E by lia; apply tag_bits_spec in E as [Ht Ht'] end; [|lia].
  rewrite Z.sub_0_r in Ht. intros Hj. rewrite Z.shiftr_div_pow2 by lia. split; [apply Z.div_pos; lia|].
  apply Z.div_lt_upper_bound; [lia|]. pose proof (Z.mod_pos_bound k g Hg). pose proof (Z.div_mod k g ltac:(lia)). nia.
Qed.

Lemma demo_config_ok : config_ok demo_dram_config.
Proof.
  split; try done. apply (init_groups 16 DRAM_FRFCFS 1 1 4 4 2 4 6 12 6 18 5 3 4 6 1 0 0 4 2); [|done|done]. vm_compute. reflexivity.
Qed.

(** A fresh channel for the demonstration, then a request for bank 0 and 30 cycles. *)
Definition demo_served : outcome (list Z * channel) :=
  d ← dram_new demo_dram_config 0;
  w ← dram_push demo_dram_config (mkClock 0 0) (mkChannel d ∅ 0 demo_fetches ∅ (memory_stats_new true 1 1 4)) 1;
  '(_, w) ← dram_cycles 30 demo_dram_config 0 [] w;
  '(o, w) ← dram_pop w;
  mret (option_list o, w).

Lemma dram_cycles_serves c k n tr ins outs w tr' w' : serves c ins outs w -> dram_cycles k c n tr w = Ok (tr', w') ->
  exists outs', serves c ins outs' w'.
Proof.
  revert n tr outs w. induction k as [|k IH]; intros n tr outs w Hs H; cbn [dram_cycles] in H.
  - ok_inv. simplify_eq. by exists outs.
  - ok_inv. destruct x as [w1 rep]. eapply IH; [|eassumption]. by eapply serves_cycle.
Qed.

Lemma demo_request : request_ok demo_dram_config
  (mkChannel (match dram_new demo_dram_config 0 with Ok d => d | Err _ => mkDram 0 (mkTimers 0 0 0 0) READ [] [] 0
     (mkFifo 0 0 0 0 []) (mkFifo 0 0 0 0 []) (mkFifo 0 0 0 0 []) None no_counts end) ∅ 0 demo_fetches ∅ (memory_stats_new true 1 1 4))
  1 (demo_fetch 0 (mkAddr 0 0 5 0 0) 32 false).
Proof. split; try done; [|by right]. vm_compute. by intros ?%not_elem_of_nil. Qed.

Lemma demo_served_run outs w : demo_served = Ok (outs, w) -> exists outs', serves demo_dram_config [1] (outs ++ outs') w.
Proof.
  unfold demo_served. intros H. destruct (dram_new demo_dram_config 0) as [d|] eqn:En; [|done]. rewrite bind_of_ok in H.
  set (w0 := mkChannel d ∅ 0 demo_fetches ∅ (memory_stats_new true 1 1 4)) in H.
  assert (serves demo_dram_config [] [] w0) as H0.
  { apply (serves_start _ 0); try done.
    - intros p mf. unfold w0. simpl. rewrite !lookup_insert_Some, lookup_singleton_Some. intros Hp. intuition lia.
    - by apply memory_stats_new_ok. }
  pose proof demo_request as Hr. rewrite En in Hr. fold w0 in Hr.
  destruct (dram_push demo_dram_config (mkClock 0 0) w0 1) as [w1|] eqn:E1; [|done]. rewrite bind_of_ok in H.
  destruct (dram_cycles 30 demo_dram_config 0 [] w1) as [[tr w2]|] eqn:E2; [|done]. rewrite bind_of_ok in H.
  destruct (dram_pop w2) as [[o w3]|] eqn:E3; [|done]. rewrite bind_of_ok in H. injection H as <- <-.
  destruct (dram_cycles_serves demo_dram_config 30 0 [] [1] [] w1 tr w2) as [outs' H2].
  - eapply serves_push; [exact H0| |exact Hr|exact E1]. injection En as <-. vm_compute. reflexivity.
  - done.
  - exists outs'. by eapply serves_pop.
Qed.

Lemma dram_serves_requests_witness : exists w outs, demo_served = Ok ([1], w) /\ [1] ≡ₚ ([1] ++ outs) ++ in_flight w /\
  exists w' rep, dram_cycle demo_dram_config (mkClock 30 0) w = Ok (w', rep).
Proof.
  assert ((match demo_served with Ok (o, _) => o | Err _ => [] end) = [1]) as Hv by (vm_compute; reflexivity).
  destruct demo_served as [[outs w]|] eqn:E; [|done]. subst outs.
  destruct (demo_served_run [1] w E) as [outs' Hs].
  destruct (dram_serves_requests demo_dram_config demo_config_ok _ _ _ Hs) as (Hp & Hcyc & _).
  exists w, outs'. split; [done|]. split; [exact Hp|apply Hcyc].
Defined.
