(* ===== verification/Dominators.v ===== *)
(** * Dominators and reconvergence

    The flow analysis of [cuda-sim/ptx_ir.cc] on the basic blocks of a function:
    [find_dominators], [find_postdominators] and the immediate ones.  The immediate
    postdominator of a block that ends in a branch is where the threads of a warp that
    went different ways meet again.  A [std::set<int>] is the list of its elements in
    increasing order. *)

From S2P Require Import Prelude.

(** * Sets of block numbers *)

Abbreviation iset := (list Z).

Fixpoint sinsert (x : Z) (l : iset) : iset :=
  match l with
  | [] => [x]
  | y :: l' => if x <? y then x :: l else if x =? y then l else y :: sinsert x l'
  end.
Definition serase (x : Z) (l : iset) : iset := filter (fun y => y <> x) l.

(** [intersect] *)
Definition intersect (A B : iset) : iset := filter (fun a => a ∈ B) A.
(** [is_equal] *)
Definition is_equal (A B : iset) : bool :=
  (zlen A =? zlen B) && forallb (fun b => bool_decide (b ∈ A)) B.

(** [for (i = 0; i < n; i++) s.insert(i)] *)
Definition insert_all (n : Z) (s : iset) : iset := foldl (fun s i => sinsert i s) s (seqZ 0 n).

(** * Basic blocks *)

(** The instructions of a block are the numbers of its first and last. *)
Record basic_block_t := mkBlock {
  bb_id : Z;
  ptx_begin : option Z;
  ptx_end : option Z;
  is_entry : bool;
  is_exit : bool;
  predecessor_ids : iset;
  successor_ids : iset;
  postdominator_ids : iset;
  dominator_ids : iset;
  Tmp_ids : iset;
  immediatepostdominator_id : Z;
  immediatedominator_id : Z }.

Definition basic_block_new (id : Z) (begin_ end_ : option Z) (entry ex : bool) : basic_block_t :=
  mkBlock id begin_ end_ entry ex [] [] [] [] [] (-1) (-1).

Section fields.
Context (b : basic_block_t).
Definition set_links (preds succs : iset) : basic_block_t :=
  mkBlock (bb_id b) (ptx_begin b) (ptx_end b) (is_entry b) (is_exit b) preds succs (postdominator_ids b) (dominator_ids b)
    (Tmp_ids b) (immediatepostdominator_id b) (immediatedominator_id b).
Definition set_end (e : option Z) : basic_block_t :=
  mkBlock (bb_id b) (ptx_begin b) e (is_entry b) (is_exit b) (predecessor_ids b) (successor_ids b) (postdominator_ids b)
    (dominator_ids b) (Tmp_ids b) (immediatepostdominator_id b) (immediatedominator_id b).
Definition set_postdominators (s : iset) : basic_block_t :=
  mkBlock (bb_id b) (ptx_begin b) (ptx_end b) (is_entry b) (is_exit b) (predecessor_ids b) (successor_ids b) s (dominator_ids b)
    (Tmp_ids b) (immediatepostdominator_id b) (immediatedominator_id b).
Definition set_dominators (s : iset) : basic_block_t :=
  mkBlock (bb_id b) (ptx_begin b) (ptx_end b) (is_entry b) (is_exit b) (predecessor_ids b) (successor_ids b) (postdominator_ids b) s
    (Tmp_ids b) (immediatepostdominator_id b) (immediatedominator_id b).
Definition set_ipdom (tmp : iset) (i : Z) : basic_block_t :=
  mkBlock (bb_id b) (ptx_begin b) (ptx_end b) (is_entry b) (is_exit b) (predecessor_ids b) (successor_ids b) (postdominator_ids b)
    (dominator_ids b) tmp i (immediatedominator_id b).
Definition set_idom (tmp : iset) (i : Z) : basic_block_t :=
  mkBlock (bb_id b) (ptx_begin b) (ptx_end b) (is_entry b) (is_exit b) (predecessor_ids b) (successor_ids b) (postdominator_ids b)
    (dominator_ids b) tmp (immediatepostdominator_id b) i.
End fields.

(** [assert(m_basic_blocks[h]->bb_id == h)] for the blocks [hs]. *)
Definition numbered_at (bs : list basic_block_t) (hs : list Z) : bool :=
  forallb (fun h => match zread bs h with Some b => bb_id b =? h | None => false end) hs.
Definition numbered (bs : list basic_block_t) : bool := numbered_at bs (seqZ 0 (zlen bs)).

(** The sets before the first round: all blocks, but for the [root] only itself. *)
Definition start_sets (bs : list basic_block_t) (get : basic_block_t → iset) (root : Z) : list iset :=
  imap (fun i b => if Z.of_nat i =? root then sinsert (bb_id b) (get b) else insert_all (zlen bs) (get b)) bs.

(** * The iteration

    The code has it twice, over successors towards the exit and over predecessors
    towards the entry: [nbrs] are the neighbours of the blocks and [doms] the sets that
    shrink. *)

(** [for (s ...) intersect(T, m_basic_blocks[s]->dominators)] *)
Fixpoint meet_all (doms : list iset) (ns : iset) (T : iset) : outcome iset :=
  match ns with
  | [] => mret T
  | s :: ns' => d ← aread doms s; meet_all doms ns' (intersect T d)
  end.

(** The body of the loop, for block [h]; the first component is [change]. *)
Definition visit (nbrs : list iset) (h : Z) (st : bool * list iset) : outcome (bool * list iset) :=
  ns ← aread nbrs h;
  T ← meet_all st.2 ns (insert_all (zlen nbrs) []);
  let T := sinsert h T in
  old ← aread st.2 h;
  if is_equal T old then mret st else doms ← awrite st.2 h T; mret (true, doms).

(** One execution of the [for] over the blocks [order]. *)
Fixpoint sweep (nbrs : list iset) (order : list Z) (st : bool * list iset) : outcome (bool * list iset) :=
  match order with
  | [] => mret st
  | h :: order' => st ← visit nbrs h st; sweep nbrs order' st
  end.

(** [while (change)] *)
Fixpoint iterate (fuel : nat) (nbrs : list iset) (order : list Z) (doms : list iset) : outcome (list iset) :=
  match fuel with
  | O => Err OutOfFuel
  | S fuel' =>
      '(change, doms) ← sweep nbrs order (false, doms);
      if (change : bool) then iterate fuel' nbrs order doms else mret doms
  end.

(** Every round but the last takes an element from a set. *)
Definition rounds (n : Z) : nat := Z.to_nat (n * n + 1).

(** [find_postdominators]: from the block before the exit down. *)
Definition find_postdominators (bs : list basic_block_t) : outcome (list basic_block_t) :=
  let n := zlen bs in
  cassert (2 <=? n);;
  let order := reverse (seqZ 0 (n - 1)) in
  cassert (numbered_at bs order);;
  doms ← iterate (rounds n) (successor_ids <$> bs) order (start_sets bs postdominator_ids (n - 1));
  mret (zip_with set_postdominators bs doms).

(** [find_dominators]: from the block after the entry up; blocks without predecessors
    lose their sets at the end. *)
Definition find_dominators (bs : list basic_block_t) : outcome (list basic_block_t) :=
  let n := zlen bs in
  cassert (2 <=? n);;
  let order := seqZ 1 (n - 1) in
  cassert (numbered_at bs order);;
  doms ← iterate (rounds n) (predecessor_ids <$> bs) order (start_sets bs dominator_ids 0);
  mret (imap (fun i b => if negb (Z.of_nat i =? 0) && bool_decide (predecessor_ids b = []) then set_dominators b [] else b)
          (zip_with set_dominators bs doms)).

(** ** The immediate ones *)

(** The first element above [s]. *)
Definition above (s : Z) (l : iset) : option Z := head (filter (fun t => s < t) l).

(** The two inner loops: every element of [tmp], in turn, throws out the others that
    dominate it. *)
Fixpoint prune (fuel : nat) (doms : list iset) (cur : option Z) (tmp : iset) : outcome iset :=
  match cur with
  | None => mret tmp
  | Some s =>
      match fuel with
      | O => Err OutOfFuel
      | S fuel' =>
          d ← aread doms s;
          let tmp := filter (fun t => t = s \/ t ∉ d) tmp in
          prune fuel' doms (above s tmp) tmp
      end
  end.

(** [Tmp] of a block at the end. *)
Definition nearest (doms : list iset) (h : Z) (dom : iset) : outcome iset :=
  let tmp := serase h dom in
  prune (length tmp) doms (head tmp) tmp.

(** The body for every block of [bs], whose sets are [doms]. *)
Fixpoint nearest_all (doms : list iset) (bs : list basic_block_t) (mine : basic_block_t → iset) : outcome (list iset) :=
  match bs with
  | [] => mret []
  | b :: bs' => t ← nearest doms (bb_id b) (mine b); ts ← nearest_all doms bs' mine; mret (t :: ts)
  end.

(** [immediate = *Tmp.begin()] if there is one. *)
Definition first_or (tmp : iset) (old : Z) : Z := match tmp with [] => old | t :: _ => t end.
Definition non_empty (l : list iset) : Z := zlen (filter (fun t => t <> []) l).

(** The exit's own [Tmp] is not pruned. *)
Definition find_ipostdominators (bs : list basic_block_t) : outcome (list basic_block_t) :=
  let n := zlen bs in
  cassert (2 <=? n);;
  cassert (numbered bs);;
  let doms := postdominator_ids <$> bs in
  inner ← nearest_all doms (take (Z.to_nat (n - 1)) bs) postdominator_ids;
  let tmps := inner ++ ((fun b => serase (bb_id b) (postdominator_ids b)) <$> drop (Z.to_nat (n - 1)) bs) in
  cassert (forallb (fun t => zlen t <=? 1) tmps);;
  cassert (non_empty tmps =? n - 1);;
  mret (zip_with (fun b t => set_ipdom b t (first_or t (immediatepostdominator_id b))) bs tmps).

Definition find_idominators (bs : list basic_block_t) : outcome (list basic_block_t) :=
  let n := zlen bs in
  cassert (2 <=? n);;
  cassert (numbered bs);;
  tmps ← nearest_all (dominator_ids <$> bs) bs dominator_ids;
  let nopred := zlen (filter (fun p => p.2 = [] /\ predecessor_ids p.1 = []) (zip bs tmps)) in
  cassert (non_empty tmps =? n - nopred);;
  mret (zip_with (fun b t => set_idom b t (first_or t (immediatedominator_id b))) bs tmps).

(** * Sets *)

Definition sorted (l : iset) : Prop := StronglySorted Z.lt l.

Lemma elem_of_sinsert x y l : y ∈ sinsert x l <-> y = x \/ y ∈ l.
Proof.
  induction l as [|z l IH]; simpl; [set_solver|].
  destruct (Z.ltb_spec x z); [set_solver|]. destruct (Z.eqb_spec x z) as [->|]; set_solver.
Qed.
Lemma sorted_sinsert x l : sorted l -> sorted (sinsert x l).
Proof.
  induction 1 as [|z l Hl IH Hz]; simpl; [repeat constructor|].
  destruct (Z.ltb_spec x z).
  - constructor; [by constructor|]. constructor; [done|]. eapply Forall_impl; [exact Hz|]. simpl. lia.
  - destruct (Z.eqb_spec x z); [by constructor|]. constructor; [done|]. apply Forall_forall.
    intros y [->|Hy]%elem_of_sinsert; [lia|]. rewrite Forall_forall in Hz. by apply Hz.
Qed.
Lemma sorted_filter (P : Z → Prop) `{!∀ x, Decision (P x)} l : sorted l -> sorted (filter P l).
Proof.
  induction 1 as [|z l Hl IH Hz]; [constructor|]. rewrite filter_cons. case_decide; [|done]. constructor; [done|].
  apply Forall_forall. intros y [_ Hy]%list_elem_of_filter. rewrite Forall_forall in Hz. by apply Hz.
Qed.
Lemma sorted_NoDup l : sorted l -> NoDup l.
Proof.
  induction 1 as [|z l Hl IH Hz]; constructor; [|done]. intros Hin. rewrite Forall_forall in Hz. specialize (Hz z Hin). lia.
Qed.

Lemma elem_of_insert_all n s : sorted s -> sorted (insert_all n s) /\ forall x, x ∈ insert_all n s <-> 0 <= x < n \/ x ∈ s.
Proof.
  intros Hs. unfold insert_all. assert (forall l s, sorted s -> sorted (foldl (fun s i => sinsert i s) s l) /\
    forall x, x ∈ foldl (fun s i => sinsert i s) s l <-> x ∈ l \/ x ∈ s) as H.
  { clear. intros l. induction l as [|i l IH]; intros s Hs; simpl; [set_solver|].
    destruct (IH (sinsert i s)) as [H1 H2]; [by apply sorted_sinsert|]. split; [done|]. intros x.
    rewrite H2, elem_of_sinsert. set_solver. }
  destruct (H (seqZ 0 n) s Hs) as [H1 H2]. split; [done|]. intros x. rewrite H2, elem_of_seqZ. naive_solver lia.
Qed.

(** Sets with the same number of elements, one inside the other. *)
Lemma is_equal_spec A B : sorted A -> sorted B -> (forall x, x ∈ A -> x ∈ B) ->
  (is_equal A B = true <-> forall x, x ∈ B -> x ∈ A) /\ (is_equal A B = false -> zlen A < zlen B).
Proof.
  intros HA HB Hsub. unfold is_equal. pose proof (sorted_NoDup _ HA) as NA. pose proof (sorted_NoDup _ HB) as NB.
  assert (A ⊆+ B) as Hsm by (by apply NoDup_submseteq). apply submseteq_length in Hsm as Hl.
  assert ((forall x, x ∈ B -> x ∈ A) -> zlen A = zlen B) as Hlen.
  { intros H. assert (B ⊆+ A) as Hsm' by (by apply NoDup_submseteq). apply submseteq_length in Hsm'. unfold zlen. lia. }
  assert (forallb (fun b => bool_decide (b ∈ A)) B = true <-> forall x, x ∈ B -> x ∈ A) as Hall.
  { rewrite forallb_forall. setoid_rewrite <- list_elem_of_In. setoid_rewrite bool_decide_eq_true. done. }
  split.
  - rewrite andb_true_iff, Z.eqb_eq, Hall. naive_solver.
  - intros [Hn|Hn]%andb_false_iff; [apply Z.eqb_neq in Hn; unfold zlen in *; lia|].
    destruct (decide (length A = length B)) as [E|]; [|unfold zlen; lia].
    exfalso. rewrite (proj2 Hall) in Hn; [done|]. intros x.
    assert (A ≡ₚ B) as -> by (apply submseteq_length_Permutation; [done|lia]). done.
Qed.

(** * Dominance *)

Section flow.
Context (nbrs : list iset) (root : Z).
Implicit Types (doms : list iset) (h p : Z).
Abbreviation n := (zlen nbrs).

Definition edge h s : Prop := exists ns, zread nbrs h = Some ns /\ s ∈ ns.

(** The blocks of a way from a block to the root. *)
Inductive path : Z → list Z → Prop :=
  | path_root : path root [root]
  | path_step h s l : edge h s -> path s l -> path h (h :: l).

(** [p] is on every way from [h] to the root. *)
Definition dominates p h : Prop := forall l, path h l -> p ∈ l.

Lemma path_head h l : path h l -> exists l', l = h :: l'.
Proof. destruct 1; by eexists. Qed.

(** The rest of a way from a block on it. *)
Lemma path_suffix h l l1 x l2 : path h l -> l = l1 ++ x :: l2 -> path x (x :: l2).
Proof.
  intros H. revert l1. induction H as [|h s l He Hp IH]; intros l1 E.
  - destruct l1 as [|y [|]]; simplify_eq/=. constructor.
  - destruct l1 as [|y l1]; simplify_eq/=; [by econstructor|]. by eapply IH.
Qed.

(** A prefix followed by another way. *)
Lemma path_prefix h l l1 x l2 q : path h l -> l = l1 ++ x :: l2 -> path x q -> path h (l1 ++ q).
Proof.
  intros H. revert l1. induction H as [|h s l He Hp IH]; intros l1 E Hq.
  - destruct l1 as [|y [|]]; simplify_eq/=. done.
  - destruct l1 as [|y l1]; simplify_eq/=; [done|]. econstructor; [done|]. by apply IH.
Qed.

Lemma dominates_root p : dominates p root -> p = root.
Proof. intros H. specialize (H [root] path_root). set_solver. Qed.

Lemma dominates_step p h s : dominates p h -> edge h s -> p <> h -> dominates p s.
Proof.
  intros H He Hne l Hl. specialize (H (h :: l) ltac:(by econstructor)). set_solver.
Qed.

(** Two different blocks do not dominate each other, if one has a way to the root. *)
Lemma dominates_antisym p q l : path p l -> dominates q p -> dominates p q -> p = q.
Proof.
  intros Hl Hq Hp. destruct (Z.eq_dec p q) as [|Hne]; [done|]. exfalso.
  assert (forall k p q l, (length l <= k)%nat -> path p l -> dominates q p -> dominates p q -> p <> q -> False) as H.
  { clear. induction k as [|k IH]; intros p q l Hk Hl Hq Hp Hne.
    - destruct (path_head _ _ Hl) as [l' ->]. simpl in Hk. lia.
    - pose proof (Hq l Hl) as Hin. apply list_elem_of_split in Hin as (l1 & l2 & E).
      apply (IH q p (q :: l2)); [|by eapply path_suffix|done|done|done].
      destruct (path_head _ _ Hl) as [l' E']. destruct l1 as [|y l1]; simplify_eq/=. rewrite length_app in Hk. simpl in Hk. lia. }
  by eapply H.
Qed.

(** Among the blocks that dominate [h], other than [h], one is nearest. *)
Lemma nearest_exists h l (P : Z → Prop) `{!∀ x, Decision (P x)} : path h l ->
  (forall p, P p <-> dominates p h /\ p <> h) -> h <> root ->
  exists m, P m /\ forall p, P p -> dominates p m.
Proof.
  intros Hl HP Hr. assert (P root) as Hroot.
  { apply HP. split; [|done]. intros q Hq. clear -Hq. induction Hq; set_solver. }
  assert (exists l1 m l2, l = l1 ++ m :: l2 /\ P m /\ forall x, x ∈ l1 -> ~ P x) as (l1 & m & l2 & El & Hm & Hn).
  { assert (root ∈ l) as Hin by (apply HP in Hroot as [Hd _]; by apply Hd). clear -Hin Hroot H.
    induction l as [|x l IH]; [set_solver|]. destruct (decide (P x)) as [Hx|Hx].
    - exists [], x, l. set_solver.
    - destruct IH as (l1 & m & l2 & -> & Hm & Hn); [set_solver|]. exists (x :: l1), m, l2. set_solver. }
  exists m. split; [done|]. intros p Hp. apply HP in Hp as Hp'. destruct Hp' as [Hd Hne].
  intros q Hq. destruct (Z.eq_dec p m) as [->|Hpm].
  { destruct (path_head _ _ Hq) as [q' ->]. left. }
  specialize (Hd (l1 ++ q) ltac:(by eapply path_prefix)). apply elem_of_app in Hd as [Hd|Hd]; [|done]. by destruct (Hn p Hd).
Qed.

(** ** The iteration finds it *)

(** The blocks are numbered from 0; [order] are all but the root. *)
Record flow_ok (order : list Z) : Prop := {
  fl_root : 0 <= root < n;
  fl_edges : forall h s, edge h s -> 0 <= s < n;
  fl_order : forall h, h ∈ order <-> 0 <= h < n /\ h <> root }.

Definition dom_of doms h : iset := default [] (zread doms h).
(** What the loop body computes for [h]. *)
Definition refined doms h p : Prop := p = h \/ (0 <= p < n /\ forall s, edge h s -> p ∈ dom_of doms s).

Record sets_ok doms : Prop := {
  so_len : zlen doms = n;
  so_sorted : forall h, sorted (dom_of doms h);
  so_range : forall h p, p ∈ dom_of doms h -> 0 <= p < n;
  so_root : forall p, p ∈ dom_of doms root <-> p = root;
  so_sound : forall h p, 0 <= h < n -> 0 <= p < n -> dominates p h -> p ∈ dom_of doms h;
  so_shrink : forall h p, 0 <= h < n -> h <> root -> refined doms h p -> p ∈ dom_of doms h }.
Definition stable doms h : Prop := forall p, p ∈ dom_of doms h -> refined doms h p.

Definition weight doms : Z := foldr (fun s a => zlen s + a) 0 doms.

Lemma weight_write doms h old T : zread doms h = Some old -> weight (zwrite doms h T) = weight doms - zlen old + zlen T.
Proof.
  intros Hh. pose proof (zread_range _ _ _ Hh). rewrite zread_lookup in Hh by lia.
  unfold zwrite. rewrite (proj2 (Z.leb_le 0 h)) by lia. generalize (Z.to_nat h) Hh. clear.
  unfold weight. induction doms as [|d doms IH]; intros [|k] Hk; simplify_eq/=; [lia|]. rewrite (IH k Hk). lia.
Qed.

Lemma dom_of_in doms h : zlen doms = n -> 0 <= h < n -> zread doms h = Some (dom_of doms h).
Proof. intros Hl Hh. unfold dom_of. destruct (zread_is_some doms h ltac:(lia)) as [d ->]. done. Qed.

Lemma dom_of_write doms h T k : zlen doms = n -> 0 <= h < n -> dom_of (zwrite doms h T) k = if h =? k then T else dom_of doms k.
Proof. intros Hl Hh. unfold dom_of. rewrite zread_zwrite by lia. by case_match. Qed.

Lemma meet_all_spec doms ns T : (forall s, s ∈ ns -> 0 <= s < zlen doms) -> sorted T ->
  exists T', meet_all doms ns T = Ok T' /\ sorted T' /\ forall x, x ∈ T' <-> x ∈ T /\ forall s, s ∈ ns -> x ∈ dom_of doms s.
Proof.
  revert T. induction ns as [|s ns IH]; intros T Hns HT; simpl.
  { exists T. split_and!; [done|done|]. set_solver. }
  destruct (aread_in doms s) as (d & Hd & ->); [apply Hns; left|]. simpl.
  destruct (IH (intersect T d)) as (T' & -> & HT' & Hx); [intros; apply Hns; by right|by apply sorted_filter|].
  exists T'. split_and!; [done|done|]. intros x. rewrite Hx. unfold intersect. rewrite list_elem_of_filter.
  assert (dom_of doms s = d) as <- by (unfold dom_of; by rewrite Hd). set_solver.
Qed.

Context (order : list Z) (Hf : flow_ok order).

Lemma visit_spec h ch doms : sets_ok doms -> h ∈ order ->
  exists ch' doms', visit nbrs h (ch, doms) = Ok (ch', doms') /\ sets_ok doms' /\
    ((ch' = ch /\ doms' = doms /\ stable doms h) \/ (ch' = true /\ weight doms' < weight doms)).
Proof using Hf.
  intros Hd Ho. pose proof Hd as [D1 D2 D3 D4 D5 D6]. apply (fl_order _ Hf) in Ho as [Hh Hr].
  unfold visit. destruct (aread_in nbrs h ltac:(lia)) as (ns & Hns & ->). cbn [mbind outcome_bind snd].
  destruct (elem_of_insert_all n [] ltac:(constructor)) as [Hall Hin].
  destruct (meet_all_spec doms ns (insert_all n [])) as (T & -> & HT & HxT); [|done|].
  { intros s Hs. rewrite D1. apply (fl_edges _ Hf h). by exists ns. }
  cbn [mbind outcome_bind]. pose proof (dom_of_in doms h D1 Hh) as Hold. rewrite (proj2 (aread_ok _ _ _) Hold). cbn [mbind outcome_bind].
  assert (forall p, p ∈ sinsert h T <-> refined doms h p) as Hmem.
  { intros p. rewrite elem_of_sinsert, HxT, Hin. unfold refined. split.
    - intros [->|[[Hp|Hp] Hs]]; [by left| |set_solver]. right. split; [done|]. intros s (ns' & E & Hs'). apply Hs. congruence.
    - intros [->|[Hp Hs]]; [by left|]. right. split; [by left|]. intros s Hs'. apply Hs. by exists ns. }
  assert (sorted (sinsert h T)) as HsT by (by apply sorted_sinsert).
  destruct (is_equal_spec (sinsert h T) (dom_of doms h) HsT (D2 h)) as [Heq Hlt].
  { intros x Hx. apply D6; [done|done|]. by apply Hmem. }
  destruct (is_equal (sinsert h T) (dom_of doms h)) eqn:E.
  - exists ch, doms. split; [done|]. split; [done|]. left. split_and!; [done|done|]. intros p Hp. apply Hmem.
    by apply (proj1 Heq eq_refl).
  - rewrite awrite_in by lia. cbn [mbind outcome_bind]. eexists true, _. split; [done|].
    set (doms' := zwrite doms h _).
    assert (forall k, dom_of doms' k = if h =? k then sinsert h T else dom_of doms k) as Hk by (intros; by apply dom_of_write).
    assert (forall k p, p ∈ dom_of doms' k -> p ∈ dom_of doms k) as Hsub.
    { intros k p. rewrite Hk. destruct (Z.eqb_spec h k) as [<-|]; [|done]. intros Hp. apply D6; [done|done|]. by apply Hmem. }
    assert (forall k p, refined doms' k p -> refined doms k p) as Hmono.
    { intros k p [->|[Hp Hs]]; [by left|]. right. split; [done|]. intros s He. by apply Hsub, Hs. }
    split; [|right; split; [done|]; unfold doms'; rewrite (weight_write _ _ _ _ Hold); specialize (Hlt eq_refl); lia].
    split.
    + unfold doms'. by rewrite zlen_zwrite.
    + intros k. rewrite Hk. by destruct (h =? k).
    + intros k p Hp. by apply (D3 k), Hsub.
    + intros p. rewrite Hk, (proj2 (Z.eqb_neq h root)) by done. apply D4.
    + intros k p Hkr Hpr Hdom. rewrite Hk. destruct (Z.eqb_spec h k) as [<-|]; [|by apply D5].
      apply Hmem. destruct (Z.eq_dec p h) as [->|Hne]; [by left|]. right. split; [done|]. intros s He.
      apply D5; [by apply (fl_edges _ Hf h)|done|]. by eapply dominates_step.
    + intros k p Hkr Hkn Href. rewrite Hk. destruct (Z.eqb_spec h k) as [<-|]; [by apply Hmem, Hmono|]. apply D6; [done|done|by apply Hmono].
Qed.

Lemma sweep_spec l ch doms : sets_ok doms -> (forall h, h ∈ l -> h ∈ order) ->
  exists ch' doms', sweep nbrs l (ch, doms) = Ok (ch', doms') /\ sets_ok doms' /\
    ((ch' = ch /\ doms' = doms /\ forall h, h ∈ l -> stable doms h) \/ (ch' = true /\ weight doms' < weight doms)).
Proof using Hf.
  revert ch doms. induction l as [|h l IH]; intros ch doms Hd Hl; simpl.
  { exists ch, doms. split; [done|]. split; [done|]. left. set_solver. }
  destruct (visit_spec h ch doms Hd) as (ch1 & doms1 & -> & Hd1 & H1); [apply Hl; left|]. simpl.
  destruct (IH ch1 doms1 Hd1) as (ch2 & doms2 & -> & Hd2 & H2); [intros; apply Hl; by right|].
  exists ch2, doms2. split; [done|]. split; [done|].
  destruct H1 as [(-> & -> & S1)|(-> & W1)], H2 as [(-> & -> & S2)|(-> & W2)].
  - left. set_solver.
  - by right.
  - by right.
  - right. split; [done|lia].
Qed.

Lemma iterate_spec fuel doms : sets_ok doms -> weight doms < Z.of_nat fuel ->
  exists doms', iterate fuel nbrs order doms = Ok doms' /\ sets_ok doms' /\ forall h, h ∈ order -> stable doms' h.
Proof using Hf.
  revert doms. induction fuel as [|fuel IH]; intros doms Hd Hw; simpl.
  { assert (0 <= weight doms); [|lia]. clear. induction doms as [|d l IHl]; simpl; [lia|]. pose proof (zlen_nonneg d). lia. }
  destruct (sweep_spec order false doms Hd) as (ch & doms1 & -> & Hd1 & H1); [done|]. simpl.
  destruct H1 as [(-> & -> & S1)|(-> & W1)]; [by exists doms|]. apply IH; [done|lia].
Qed.

(** A set that no round changes any more is the set of the dominators. *)
Lemma stable_dominates doms h p : sets_ok doms -> (forall h, h ∈ order -> stable doms h) -> 0 <= h < n ->
  p ∈ dom_of doms h <-> 0 <= p < n /\ dominates p h.
Proof using Hf.
  intros [D1 D2 D3 D4 D5 D6] Hst Hh. split; [|intros [Hp Hd]; by apply D5].
  intros Hp. split; [by apply (D3 h)|]. intros l Hl. clear Hh. revert Hp. induction Hl as [|h s l He Hl IH]; intros Hp.
  - apply D4 in Hp as ->. left.
  - destruct (Z.eq_dec h root) as [->|Hr]; [apply D4 in Hp as ->; left|].
    assert (h ∈ order) as Ho.
    { apply (fl_order _ Hf). split; [|done]. destruct He as (ns & Hns & _). by apply zread_range in Hns. }
    destruct (Hst h Ho p Hp) as [->|[_ Hs]]; [left|]. right. apply IH, Hs. done.
Qed.

(** The sets the iteration starts from. *)
Lemma sets_ok_start doms : zlen doms = n -> (forall p, p ∈ dom_of doms root <-> p = root) -> (forall h, sorted (dom_of doms h)) ->
  (forall h p, 0 <= h < n -> h <> root -> p ∈ dom_of doms h <-> 0 <= p < n) -> sets_ok doms /\ weight doms <= n * n.
Proof using Hf.
  intros Hl Hroot Hsort Hfull. pose proof (fl_root _ Hf) as Hr.
  assert (forall h p, p ∈ dom_of doms h -> 0 <= p < n) as Hrange.
  { intros h p Hp. destruct (Z.eq_dec h root) as [->|Hne]; [apply Hroot in Hp as ->; lia|].
    destruct (decide (0 <= h < n)) as [Hh|Hh]; [by apply (Hfull h)|]. unfold dom_of in Hp. rewrite zread_none in Hp by lia. set_solver. }
  split; [split; try done|].
  - intros h p Hh Hp Hd. destruct (Z.eq_dec h root) as [->|Hne]; [|by apply Hfull]. by apply Hroot, dominates_root.
  - intros h p Hh Hne [->|[Hp _]]; by apply Hfull.
  - assert (forall d, d ∈ doms -> zlen d <= n) as Hsize.
    { intros d Hd. apply elem_of_zread in Hd as (h & Hh & Hd). assert (dom_of doms h = d) as <- by (unfold dom_of; by rewrite Hd).
      assert (dom_of doms h ⊆+ seqZ 0 n) as Hsm.
      { apply NoDup_submseteq; [by apply sorted_NoDup|]. intros p Hp. apply elem_of_seqZ. specialize (Hrange h p Hp). lia. }
      apply submseteq_length in Hsm. rewrite length_seqZ in Hsm. unfold zlen in *. lia. }
    rewrite <- Hl at 1. clear -Hsize. unfold weight. induction doms as [|d l IH]; [unfold zlen; simpl; lia|].
    specialize (IH ltac:(intros; apply Hsize; by right)). pose proof (Hsize d ltac:(left)). 
    replace (zlen (d :: l)) with (zlen l + 1) by (unfold zlen; simpl; lia). simpl. nia.
Qed.
End flow.

(** * The nearest dominator *)

Lemma sorted_app_lt l s r : sorted (l ++ s :: r) -> (forall x, x ∈ l -> x < s) /\ (forall x, x ∈ r -> s < x).
Proof.
  induction l as [|y l IH]; simpl.
  - inversion 1 as [|? ? ? Hr]. split; [set_solver|]. rewrite Forall_forall in Hr. exact Hr.
  - inversion 1 as [|? ? Hl Hy]; subst. destruct (IH Hl) as [H1 H2]. split; [|done].
    intros x [->|Hx]%elem_of_cons; [|by apply H1]. rewrite Forall_forall in Hy. apply Hy. set_solver.
Qed.

Lemma above_split l s r : sorted (l ++ s :: r) -> above s (l ++ s :: r) = head r.
Proof.
  intros [H1 H2]%sorted_app_lt. unfold above. rewrite filter_app, filter_cons, decide_False by lia.
  rewrite (filter_none _ l), (filter_every _ r); [done|done|]. intros x Hx. specialize (H1 x Hx). lia.
Qed.

(** When one element throws out all others and none throws it out, it is what is left. *)
Lemma prune_spec doms m fuel l r : sorted (l ++ r) -> (length r <= fuel)%nat ->
  (forall s, s ∈ l ++ r -> 0 <= s < zlen doms) ->
  (forall t, t ∈ l ++ r -> t <> m -> t ∈ dom_of doms m) -> (forall s, s ∈ l ++ r -> s <> m -> m ∉ dom_of doms s) ->
  m ∈ r \/ l ++ r = [m] -> prune fuel doms (head r) (l ++ r) = Ok [m].
Proof.
  revert l r. induction fuel as [|fuel IH]; intros l r Hs Hl Hr Hout Hin Hm.
  { destruct r; [|simpl in Hl; lia]. simpl. destruct Hm as [?%not_elem_of_nil| ->]; done. }
  destruct r as [|s r]; simpl.
  { destruct Hm as [?%not_elem_of_nil| ->]; done. }
  destruct (aread_in doms s) as (d & Hd & ->); [apply Hr; set_solver|]. simpl.
  assert (dom_of doms s = d) as Ed by (unfold dom_of; by rewrite Hd).
  set (P := fun t => t = s \/ t ∉ d).
  assert (filter P (l ++ s :: r) = filter P l ++ s :: filter P r) as Efil.
  { rewrite filter_app, filter_cons, decide_True by (by left). done. }
  rewrite Efil. pose proof (sorted_filter P _ Hs) as Hs'. rewrite Efil in Hs'.
  rewrite above_split by done.
  replace (filter P l ++ s :: filter P r) with ((filter P l ++ [s]) ++ filter P r) by (by rewrite <- app_assoc).
  assert (forall x, x ∈ (filter P l ++ [s]) ++ filter P r -> x ∈ l ++ s :: r) as Hsub.
  { intros x. rewrite <- app_assoc. simpl. rewrite <- Efil. intros [_ Hx]%list_elem_of_filter. done. }
  apply IH.
  - by rewrite <- app_assoc.
  - pose proof (length_filter P r). simpl in Hl. lia.
  - intros x Hx. by apply Hr, Hsub.
  - intros x Hx. by apply Hout, Hsub.
  - intros x Hx. by apply Hin, Hsub.
  - destruct (Z.eq_dec s m) as [->|Hne].
    + right. destruct (sorted_app_lt _ _ _ Hs) as [H1 H2].
      rewrite (filter_none P l), (filter_none P r); [done| |].
      * intros x Hx [->|Hx']; [specialize (H2 m Hx); lia|]. apply Hx'. rewrite <- Ed. specialize (H2 x Hx). apply Hout; [set_solver|lia].
      * intros x Hx [->|Hx']; [specialize (H1 m Hx); lia|]. apply Hx'. rewrite <- Ed. specialize (H1 x Hx). apply Hout; [set_solver|lia].
    + left. assert (m ∈ r) as Hmr.
      { destruct Hm as [[->|Hm]%elem_of_cons|E]; [done|done|]. destruct l as [|y [|]]; simplify_eq/=. }
      apply list_elem_of_filter. split; [|done]. right. rewrite <- Ed. apply Hin; [set_solver|done].
Qed.

(** In any case something is left. *)
Lemma prune_total doms fuel l r : sorted (l ++ r) -> (length r <= fuel)%nat -> (forall s, s ∈ l ++ r -> 0 <= s < zlen doms) ->
  exists t, prune fuel doms (head r) (l ++ r) = Ok t /\ (l ++ r <> [] -> t <> []).
Proof.
  revert l r. induction fuel as [|fuel IH]; intros l r Hs Hl Hr.
  { destruct r; [|simpl in Hl; lia]. simpl. by eexists. }
  destruct r as [|s r]; simpl; [by eexists|].
  destruct (aread_in doms s) as (d & _ & ->); [apply Hr; set_solver|]. simpl. set (P := fun t => t = s \/ t ∉ d).
  assert (filter P (l ++ s :: r) = filter P l ++ s :: filter P r) as Efil.
  { rewrite filter_app, filter_cons, decide_True by (by left). done. }
  rewrite Efil. pose proof (sorted_filter P _ Hs) as Hs'. rewrite Efil in Hs'. rewrite above_split by done.
  replace (filter P l ++ s :: filter P r) with ((filter P l ++ [s]) ++ filter P r) by (by rewrite <- app_assoc).
  destruct (IH (filter P l ++ [s]) (filter P r)) as (t & E & Ht).
  - by rewrite <- app_assoc.
  - pose proof (length_filter P r). simpl in Hl. lia.
  - intros x. rewrite <- app_assoc. simpl. rewrite <- Efil. intros [_ Hx]%list_elem_of_filter. by apply Hr.
  - exists t. split; [done|]. intros _. apply Ht. by destruct (filter P l).
Qed.

Section nearest.
Context (nbrs : list iset) (root : Z) (order : list Z) (Hf : flow_ok nbrs root order).
Context (doms : list iset) (Hlen : zlen doms = zlen nbrs) (Hsort : forall h, sorted (dom_of doms h)).
Abbreviation n := (zlen nbrs).
Context (Hdom : forall h l p, path nbrs root h l -> p ∈ dom_of doms h <-> 0 <= p < n /\ dominates nbrs root p h).

(** The immediate dominator: it dominates [h] and every other block that does
    dominates it. *)
Definition immediate (m h : Z) : Prop :=
  0 <= m < n /\ m <> h /\ dominates nbrs root m h /\
  forall p, 0 <= p < n -> p <> h -> dominates nbrs root p h -> dominates nbrs root p m.

Lemma path_range h l x : path nbrs root h l -> x ∈ l -> 0 <= x < n.
Proof using Hf.
  induction 1 as [|h s l (ns & Hns & _) Hl IH].
  - intros ->%list_elem_of_singleton. apply Hf.
  - intros [->|Hx]%elem_of_cons; [by apply zread_range in Hns|by apply IH].
Qed.

Lemma nearest_spec h l : path nbrs root h l -> h <> root ->
  exists m, nearest doms h (dom_of doms h) = Ok [m] /\ immediate m h.
Proof using Hdom Hlen Hsort Hf.
  intros Hl Hr. assert (forall s, dominates nbrs root s h -> exists q, path nbrs root s q) as Hon.
  { intros s Hs. pose proof (Hs l Hl) as Hin. apply list_elem_of_split in Hin as (l1 & l2 & E). exists (s :: l2). by eapply path_suffix. }
  destruct (nearest_exists nbrs root h l (fun p => p ∈ dom_of doms h /\ p <> h) Hl) as (m & [Hm Hmh] & Hmin); [|done|].
  { intros p. rewrite (Hdom h l p Hl). split; [tauto|]. intros [Hp Hne]. split; [|done]. split; [|done]. by apply (path_range h l), Hp. }
  exists m. rewrite (Hdom h l m Hl) in Hm. destruct Hm as [Hmn Hmd]. destruct (Hon m Hmd) as [lm Hlm]. split.
  - unfold nearest. set (tmp := serase h (dom_of doms h)).
    assert (forall p, p ∈ tmp <-> (0 <= p < n /\ dominates nbrs root p h) /\ p <> h) as Htmp.
    { intros p. unfold tmp, serase. rewrite list_elem_of_filter, (Hdom h l p Hl). tauto. }
    apply (prune_spec doms m (length tmp) [] tmp); simpl.
    + by apply sorted_filter.
    + done.
    + intros s [[Hs _] _]%Htmp. by rewrite Hlen.
    + intros t [[Ht Htd] Hth]%Htmp Hne. apply (Hdom m lm t Hlm). split; [done|]. apply Hmin. split; [by apply (Hdom h l)|done].
    + intros s [[Hsn Hsd] Hsh]%Htmp Hne Hbad. destruct (Hon s Hsd) as [q Hq]. apply (Hdom s q m Hq) in Hbad as [_ Hbad].
      apply Hne. apply (dominates_antisym nbrs root s m q Hq); [done|]. apply Hmin. split; [by apply (Hdom h l)|done].
    + left. by apply Htmp.
  - split; [done|]. split; [done|]. split; [done|]. intros p Hp Hne Hpd. apply Hmin. split; [by apply (Hdom h l)|done].
Qed.
End nearest.

(** * Arrays of blocks *)

Lemma numbered_at_spec bs hs : numbered_at bs hs = true <-> forall h, h ∈ hs -> exists b, zread bs h = Some b /\ bb_id b = h.
Proof.
  unfold numbered_at. rewrite forallb_forall. setoid_rewrite <- list_elem_of_In.
  split; intros H h Hh; specialize (H h Hh).
  - case_match; [|done]. eexists. split; [done|]. by apply Z.eqb_eq.
  - destruct H as (b & -> & <-). apply Z.eqb_refl.
Qed.
Lemma numbered_sub bs hs : numbered bs = true -> (forall h, h ∈ hs -> 0 <= h < zlen bs) -> numbered_at bs hs = true.
Proof. unfold numbered. rewrite !numbered_at_spec. intros H Hs h Hh. apply H, elem_of_seqZ. specialize (Hs h Hh). lia. Qed.
Lemma numbered_id bs h b : numbered bs = true -> zread bs h = Some b -> bb_id b = h.
Proof.
  unfold numbered. rewrite numbered_at_spec. intros E Hb. pose proof (zread_range _ _ _ Hb) as Hr.
  destruct (E h) as (b' & Hb' & Hid); [apply elem_of_seqZ; lia|]. by simplify_eq.
Qed.

(** The analysis of the blocks [bs] whose sets are the component [get]. *)
Section solve.
Context (bs : list basic_block_t) (nbr get : basic_block_t → iset) (root : Z) (order : list Z).
Context (Hnum : numbered bs = true) (Hf : flow_ok (nbr <$> bs) root order).
Context (Hfresh : forall b, b ∈ bs -> get b = []).
Abbreviation n := (zlen bs).
Abbreviation start := (start_sets bs get root).

Lemma solve_ok : exists doms, iterate (rounds n) (nbr <$> bs) order start = Ok doms /\
  sets_ok (nbr <$> bs) root doms /\
  forall h p, 0 <= h < n -> p ∈ dom_of doms h <-> 0 <= p < n /\ dominates (nbr <$> bs) root p h.
Proof using Hnum Hf Hfresh.
  pose proof (zlen_fmap nbr bs) as En.
  assert (forall h, 0 <= h < n -> dom_of start h = if h =? root then [root] else insert_all n []) as Hst.
  { intros h Hh. unfold dom_of, start_sets. rewrite zread_imap, Z2Nat.id by lia. destruct (zread_is_some bs h Hh) as [b Hb]. rewrite Hb. simpl.
    rewrite (numbered_id bs h b Hnum Hb), (Hfresh b) by (by eapply zread_elem_of). by destruct (Z.eqb_spec h root) as [->|]. }
  destruct (elem_of_insert_all n [] ltac:(constructor)) as [Hall Hin]. pose proof (fl_root _ _ _ Hf) as Hr. rewrite En in Hr.
  destruct (sets_ok_start (nbr <$> bs) root order Hf start) as [Hs Hw].
  - unfold start_sets. by rewrite zlen_imap, zlen_fmap.
  - intros p. rewrite Hst, Z.eqb_refl by done. set_solver.
  - intros h. destruct (decide (0 <= h < n)) as [Hh|Hh].
    + rewrite Hst by done. destruct (h =? root); [repeat constructor|done].
    + unfold dom_of, start_sets. rewrite zread_none by (by rewrite zlen_imap). constructor.
  - intros h p Hh Hne. rewrite En in *. rewrite Hst, (proj2 (Z.eqb_neq h root)) by done. rewrite Hin. set_solver.
  - rewrite En in Hw. destruct (iterate_spec (nbr <$> bs) root order Hf (rounds n) start Hs) as (doms & E & Hd & Hst');
      [unfold rounds; lia|]. exists doms. split; [done|]. split; [done|]. intros h p Hh.
    rewrite (stable_dominates (nbr <$> bs) root order Hf doms h p Hd Hst') by (by rewrite En). by rewrite En.
Qed.
End solve.

Lemma nearest_all_spec doms bs mine (Q : basic_block_t → iset → Prop) :
  (forall b, b ∈ bs -> exists t, nearest doms (bb_id b) (mine b) = Ok t /\ Q b t) ->
  exists ts, nearest_all doms bs mine = Ok ts /\ Forall2 Q bs ts.
Proof.
  induction bs as [|b bs IH]; intros H; simpl; [by exists []|].
  destruct (H b ltac:(left)) as (t & -> & Ht). simpl.
  destruct IH as (ts & -> & Hts); [intros; apply H; by right|]. simpl. exists (t :: ts). by split; [|constructor].
Qed.

(** * Postdominators and reconvergence *)

(** [m] is on every way from block [h] to the exit. *)
Definition postdominates (bs : list basic_block_t) (p h : Z) : Prop := dominates (successor_ids <$> bs) (zlen bs - 1) p h.
Definition reaches_exit (bs : list basic_block_t) (h : Z) : Prop := exists l, path (successor_ids <$> bs) (zlen bs - 1) h l.
Definition immediate_postdominator (bs : list basic_block_t) (m h : Z) : Prop :=
  immediate (successor_ids <$> bs) (zlen bs - 1) m h.

Record exit_graph (bs : list basic_block_t) : Prop := {
  eg_size : 2 <= zlen bs;
  eg_numbered : numbered bs = true;
  eg_succs : forall b s, b ∈ bs -> s ∈ successor_ids b -> 0 <= s < zlen bs;
  eg_fresh : forall b, b ∈ bs -> postdominator_ids b = [] }.

Lemma exit_flow bs : exit_graph bs -> flow_ok (successor_ids <$> bs) (zlen bs - 1) (reverse (seqZ 0 (zlen bs - 1))).
Proof.
  intros [G1 G2 G3 G4]. split; rewrite ?zlen_fmap.
  - lia.
  - intros h s (ns & Hns & Hs). rewrite zread_fmap in Hns. destruct (zread bs h) as [b|] eqn:Hb; simplify_eq/=.
    apply (G3 b); [by eapply zread_elem_of|done].
  - intros h. rewrite elem_of_reverse, elem_of_seqZ. lia.
Qed.

Lemma find_postdominators_spec bs : exit_graph bs ->
  exists doms, find_postdominators bs = Ok (zip_with set_postdominators bs doms) /\ sets_ok (successor_ids <$> bs) (zlen bs - 1) doms /\
    forall h p, 0 <= h < zlen bs -> p ∈ dom_of doms h <-> 0 <= p < zlen bs /\ postdominates bs p h.
Proof.
  intros HG. pose proof HG as [G1 G2 G3 G4].
  destruct (solve_ok bs successor_ids postdominator_ids (zlen bs - 1) _ G2 (exit_flow bs HG) G4) as (doms & E & Hd & Hdom).
  exists doms. split; [|done]. unfold find_postdominators. cbv zeta.
  rewrite (cassert_true (2 <=? _)) by (apply Z.leb_le; lia). rewrite (cassert_true (numbered_at _ _)), !bind_of_ok.
  - by rewrite E.
  - apply numbered_sub; [done|]. intros h. rewrite elem_of_reverse, elem_of_seqZ. lia.
Qed.

(** [find_postdominators] terminates and computes, for every block, exactly the blocks
    that lie on all ways from it to the exit of the function. *)
Theorem postdominators_correct bs : exit_graph bs ->
  exists bs', find_postdominators bs = Ok bs' /\ zlen bs' = zlen bs /\
    forall h b', zread bs' h = Some b' -> forall p, p ∈ postdominator_ids b' <-> 0 <= p < zlen bs /\ postdominates bs p h.
Proof.
  intros HG. destruct (find_postdominators_spec bs HG) as (doms & E & Hd & Hdom). eexists. split; [exact E|].
  pose proof (so_len _ _ _ Hd) as Hl. rewrite zlen_fmap in Hl. split; [by apply zlen_zip_with|].
  intros h b' Hb' p. pose proof (zread_range _ _ _ Hb') as Hr. rewrite zlen_zip_with in Hr by done.
  rewrite zread_zip_with in Hb'. destruct (zread bs h) as [b|] eqn:Hb; [|done]. destruct (zread doms h) as [d|] eqn:Ed; [|done].
  simplify_eq/=. rewrite <- Hdom by done. unfold dom_of. by rewrite Ed.
Qed.

(** ** The temporary sets *)

(** The blocks [bs1] hold the sets [doms] that an analysis found. *)
Section temporaries.
Context (nbrs : list iset) (root : Z) (order : list Z) (Hf : flow_ok nbrs root order).
Context (doms : list iset) (Hd : sets_ok nbrs root doms).
Context (Hdom : forall h p, 0 <= h < zlen nbrs -> p ∈ dom_of doms h <-> 0 <= p < zlen nbrs /\ dominates nbrs root p h).
Context (Hreach : forall h, 0 <= h < zlen nbrs -> exists l, path nbrs root h l).
Context (bs1 : list basic_block_t) (mine : basic_block_t → iset) (Hnum : numbered bs1 = true) (Hmine : mine <$> bs1 = doms).

(** The set of a block at the end: its immediate dominator. *)
Definition settled (b : basic_block_t) (t : iset) : Prop :=
  if bb_id b =? root then t = [] else exists m, t = [m] /\ immediate nbrs root m (bb_id b).

Lemma block_set h b : zread bs1 h = Some b -> bb_id b = h /\ mine b = dom_of doms h.
Proof using Hnum Hmine.
  intros Hb. split; [by apply (numbered_id bs1)|]. unfold dom_of. by rewrite <- Hmine, zread_fmap, Hb.
Qed.
Lemma blocks_length : zlen bs1 = zlen nbrs.
Proof using Hd Hmine. rewrite <- (so_len _ _ _ Hd), <- Hmine. symmetry. apply zlen_fmap. Qed.

Lemma root_erased : serase root (dom_of doms root) = [].
Proof using Hd. apply filter_none. intros x ->%(so_root _ _ _ Hd). by intros []. Qed.

Lemma nearest_settled b : b ∈ bs1 -> exists t, nearest doms (bb_id b) (mine b) = Ok t /\ settled b t.
Proof using All.
  intros (h & Hh & Hb)%elem_of_zread. unfold settled. destruct (block_set h b Hb) as [-> ->].
  destruct (Z.eqb_spec h root) as [->|Hne].
  - exists []. unfold nearest. cbv zeta. by rewrite root_erased.
  - rewrite blocks_length in Hh. destruct (Hreach h Hh) as [l Hl].
    destruct (nearest_spec nbrs root order Hf doms (so_len _ _ _ Hd) (so_sorted _ _ _ Hd)) with (h := h) (l := l) as (m & E & Hm); [|done|done|].
    { intros k q p Hq. apply Hdom. destruct (path_head _ _ _ _ Hq) as [q' Eq]. eapply (path_range _ _ _ Hf k q k Hq). rewrite Eq. left. }
    exists [m]. split; [done|]. by exists m.
Qed.
Lemma nearest_all_settled l : (forall b, b ∈ l -> b ∈ bs1) ->
  exists ts, nearest_all doms l mine = Ok ts /\ Forall2 settled l ts.
Proof using All. intros Hl. apply nearest_all_spec. intros b Hb. by apply nearest_settled, Hl. Qed.

Context (tmps : list iset) (Hs : Forall2 settled bs1 tmps).

Lemma settled_empty h t : zread tmps h = Some t -> t <> [] <-> h <> root.
Proof using Hs Hnum.
  intros Ht. destruct (zread_is_some bs1 h) as [b Hb];
    [rewrite (Forall2_zlen _ _ _ Hs); by eapply zread_range|].
  pose proof (Forall2_zread _ _ _ _ _ _ Hs Hb Ht) as H. unfold settled in H. rewrite (numbered_id bs1 h b Hnum Hb) in H.
  destruct (Z.eqb_spec h root); [by split|]. destruct H as (m & -> & _). by split.
Qed.
Lemma root_tmp : exists br, zread bs1 root = Some br /\ zread tmps root = Some [].
Proof using Hs Hnum Hf Hd Hmine.
  pose proof (fl_root _ _ _ Hf) as Hr. rewrite <- blocks_length in Hr. destruct (zread_is_some bs1 root Hr) as [b Hb].
  destruct (zread_is_some tmps root) as [t Ht]; [by rewrite <- (Forall2_zlen _ _ _ Hs)|].
  exists b. split; [done|]. pose proof (Forall2_zread _ _ _ _ _ _ Hs Hb Ht) as H. unfold settled in H.
  rewrite (numbered_id bs1 root b Hnum Hb), Z.eqb_refl in H. by rewrite <- H.
Qed.

Lemma settled_count : non_empty tmps = zlen nbrs - 1.
Proof using Hs Hnum Hf Hd Hmine.
  destruct root_tmp as (br & _ & Ht). rewrite <- blocks_length, (Forall2_zlen _ _ _ Hs).
  apply (filter_but_one _ _ root [] Ht). intros. by apply settled_empty.
Qed.
Lemma settled_short : forallb (fun t => zlen t <=? 1) tmps = true.
Proof using Hs.
  apply forallb_forall. intros t Ht%list_elem_of_In. apply elem_of_zread in Ht as (h & Hh & Ht).
  destruct (zread_is_some bs1 h) as [b Hb]; [by rewrite (Forall2_zlen _ _ _ Hs)|].
  pose proof (Forall2_zread _ _ _ _ _ _ Hs Hb Ht) as H. unfold settled in H.
  destruct (bb_id b =? root); [by rewrite H|]. by destruct H as (m & -> & _).
Qed.
Lemma settled_at h b t : zread bs1 h = Some b -> zread tmps h = Some t ->
  if h =? root then t = [] else exists m, t = [m] /\ immediate nbrs root m h.
Proof using Hs Hnum.
  intros Hb Ht. pose proof (Forall2_zread _ _ _ _ _ _ Hs Hb Ht) as H. unfold settled in H.
  by rewrite (numbered_id bs1 h b Hnum Hb) in H.
Qed.
End temporaries.

(** Storing a component of the blocks. *)
Section after_sets.
Context (bs : list basic_block_t) (doms : list iset) (Hl : zlen doms = zlen bs).
Lemma zread_after {B} (f : basic_block_t → iset → B) h b : zread bs h = Some b ->
  zread (zip_with f bs doms) h = Some (f b (dom_of doms h)).
Proof using Hl.
  intros Hb. pose proof (zread_range _ _ _ Hb). rewrite zread_zip_with, Hb. unfold dom_of.
  destruct (zread_is_some doms h) as [d ->]; [lia|]. done.
Qed.
Lemma fmap_after {B} (g : B → iset) (f : basic_block_t → iset → B) : (forall b d, g (f b d) = d) -> g <$> zip_with f bs doms = doms.
Proof using Hl.
  intros Hg. apply zread_ext; [rewrite zlen_fmap, zlen_zip_with; lia|]. intros h Hh. rewrite zlen_fmap, zlen_zip_with in Hh by lia.
  rewrite zread_fmap, zread_zip_with. destruct (zread_is_some bs h Hh) as [b ->]. destruct (zread_is_some doms h) as [d ->]; [lia|].
  simpl. by rewrite Hg.
Qed.
Lemma numbered_after (f : basic_block_t → iset → basic_block_t) : (forall b d, bb_id (f b d) = bb_id b) ->
  numbered bs = true -> numbered (zip_with f bs doms) = true.
Proof using Hl.
  intros Hid. unfold numbered. rewrite zlen_zip_with, !numbered_at_spec by done. intros H h Hh.
  destruct (H h Hh) as (b & Hb & Eb). exists (f b (dom_of doms h)). by rewrite (zread_after _ _ _ Hb), Hid.
Qed.
End after_sets.

(** The two searches run one after the other. *)
Lemma find_ipostdominators_spec bs doms : exit_graph bs -> (forall h, 0 <= h < zlen bs -> reaches_exit bs h) ->
  sets_ok (successor_ids <$> bs) (zlen bs - 1) doms ->
  (forall h p, 0 <= h < zlen bs -> p ∈ dom_of doms h <-> 0 <= p < zlen bs /\ postdominates bs p h) ->
  let bs1 := zip_with set_postdominators bs doms in
  exists tmps, find_ipostdominators bs1 = Ok (zip_with (fun b t => set_ipdom b t (first_or t (immediatepostdominator_id b))) bs1 tmps) /\
    Forall2 (settled (successor_ids <$> bs) (zlen bs - 1)) bs1 tmps /\ numbered bs1 = true.
Proof.
  intros HG Hreach Hd Hdom bs1. pose proof HG as [G1 G2 G3 G4]. pose proof (exit_flow bs HG) as Hf.
  pose proof (so_len _ _ _ Hd) as Hl. rewrite zlen_fmap in Hl. assert (zlen bs1 = zlen bs) as Hl1 by (by apply zlen_zip_with).
  assert (postdominator_ids <$> bs1 = doms) as Edoms by (by apply fmap_after).
  assert (numbered bs1 = true) as N1 by (by apply numbered_after).
  set (nbrs := successor_ids <$> bs) in *. assert (zlen nbrs = zlen bs) as Hn by apply zlen_fmap.
  assert (forall h p, 0 <= h < zlen nbrs -> p ∈ dom_of doms h <-> 0 <= p < zlen nbrs /\ dominates nbrs (zlen bs - 1) p h) as Hdom'
    by (by rewrite Hn).
  assert (forall h, 0 <= h < zlen nbrs -> exists l, path nbrs (zlen bs - 1) h l) as Hreach' by (by rewrite Hn).
  destruct (nearest_all_settled nbrs _ _ Hf doms Hd Hdom' Hreach' bs1 _ N1 Edoms (take (Z.to_nat (zlen bs - 1)) bs1))
    as (inner & Ein & Hin); [intros b (i & Hi & _)%elem_of_take; by eapply list_elem_of_lookup_2|].
  set (exit_tmps := (fun b => serase (bb_id b) (postdominator_ids b)) <$> drop (Z.to_nat (zlen bs - 1)) bs1).
  assert (Forall2 (settled nbrs (zlen bs - 1)) bs1 (inner ++ exit_tmps)) as Hs.
  { rewrite <- (take_drop (Z.to_nat (zlen bs - 1)) bs1) at 1. apply Forall2_app; [done|]. unfold exit_tmps.
    apply Forall2_fmap_r, Forall_Forall2_diag, Forall_forall. intros b (h & Hh & Hb)%elem_of_zread.
    rewrite zlen_drop in Hh by lia. rewrite zread_drop in Hb by lia. assert (h = 0) as -> by lia.
    destruct (block_set doms bs1 _ N1 Edoms _ _ Hb) as [E1 E2]. unfold compose, settled. rewrite Z.add_0_l in E1, E2. rewrite E1, E2, Z.eqb_refl.
    by eapply root_erased. }
  exists (inner ++ exit_tmps). split_and!; [|done|done]. unfold find_ipostdominators. cbv zeta. rewrite Hl1, Edoms, N1, Ein.
  rewrite (cassert_true (2 <=? _)) by (apply Z.leb_le; lia). rewrite (cassert_true true), !bind_of_ok by done.
  fold exit_tmps. rewrite (cassert_true (forallb _ _)), bind_of_ok by (by eapply settled_short).
  rewrite (cassert_true (_ =? _)), bind_of_ok; [done|]. apply Z.eqb_eq.
  rewrite (settled_count nbrs _ _ Hf doms Hd bs1 _ N1 Edoms _ Hs). lia.
Qed.

Lemma reconvergence_blocks bs : exit_graph bs -> (forall h, 0 <= h < zlen bs -> reaches_exit bs h) ->
  exists bs', (bs1 ← find_postdominators bs; find_ipostdominators bs1) = Ok bs' /\ zlen bs' = zlen bs /\
    forall h b, zread bs h = Some b -> exists d t m, zread bs' h = Some (set_ipdom (set_postdominators b d) t m) /\
      if h =? zlen bs - 1 then m = immediatepostdominator_id b else immediate_postdominator bs m h.
Proof.
  intros HG Hreach. destruct (find_postdominators_spec bs HG) as (doms & -> & Hd & Hdom). rewrite bind_of_ok.
  destruct (find_ipostdominators_spec bs doms HG Hreach Hd Hdom) as (tmps & -> & Hs & N1).
  pose proof (so_len _ _ _ Hd) as Hl. rewrite zlen_fmap in Hl. pose proof (Forall2_zlen _ _ _ Hs) as Ht. rewrite zlen_zip_with in Ht by done.
  eexists. split; [done|]. split; [rewrite !zlen_zip_with by (rewrite ?zlen_zip_with; lia); done|]. intros h b Hb.
  pose proof (zread_after bs doms Hl set_postdominators h b Hb) as Hb1.
  rewrite (zread_after _ tmps) with (2 := Hb1) by (rewrite zlen_zip_with by done; lia).
  pose proof (zread_range _ _ _ Hb) as Hr. destruct (zread_is_some tmps h) as [t Et]; [lia|].
  pose proof (settled_at _ _ _ N1 _ Hs h _ t Hb1 Et) as H.
  assert (dom_of tmps h = t) as -> by (unfold dom_of; by rewrite Et). simpl. eexists _, _, _. split; [done|].
  destruct (h =? _); [by rewrite H|]. destruct H as (m & -> & Hm). exact Hm.
Qed.

(** Where every block of a function reaches its exit, the flow analysis finds for every
    other block its immediate postdominator, the first block on which all ways from it
    to the exit meet again, and none of its assertions fails; the exit has none. *)
Theorem reconvergence_points bs : exit_graph bs -> (forall h, 0 <= h < zlen bs -> reaches_exit bs h) ->
  exists bs', (bs1 ← find_postdominators bs; find_ipostdominators bs1) = Ok bs' /\ zlen bs' = zlen bs /\
    forall h b b', zread bs h = Some b -> zread bs' h = Some b' ->
      if h =? zlen bs - 1 then immediatepostdominator_id b' = immediatepostdominator_id b
      else immediate_postdominator bs (immediatepostdominator_id b') h.
Proof.
  intros HG Hreach. destruct (reconvergence_blocks bs HG Hreach) as (bs' & E & Hl & H). exists bs'. split_and!; [done|done|].
  intros h b b' Hb Hb'. destruct (H h b Hb) as (d & t & m & E' & Hm). rewrite E' in Hb'. injection Hb' as <-. exact Hm.
Qed.

(** * Dominators *)

(** [p] is on every way from the entry to block [h]. *)
Definition block_dominates (bs : list basic_block_t) (p h : Z) : Prop := dominates (predecessor_ids <$> bs) 0 p h.
Definition entry_reaches (bs : list basic_block_t) (h : Z) : Prop := exists l, path (predecessor_ids <$> bs) 0 h l.
Definition immediate_dominator (bs : list basic_block_t) (m h : Z) : Prop := immediate (predecessor_ids <$> bs) 0 m h.

Record entry_graph (bs : list basic_block_t) : Prop := {
  ng_size : 2 <= zlen bs;
  ng_numbered : numbered bs = true;
  ng_preds : forall b s, b ∈ bs -> s ∈ predecessor_ids b -> 0 <= s < zlen bs;
  ng_fresh : forall b, b ∈ bs -> dominator_ids b = [] }.

Lemma entry_flow bs : entry_graph bs -> flow_ok (predecessor_ids <$> bs) 0 (seqZ 1 (zlen bs - 1)).
Proof.
  intros [G1 G2 G3 G4]. split; rewrite ?zlen_fmap.
  - lia.
  - intros h s (ns & Hns & Hs). rewrite zread_fmap in Hns. destruct (zread bs h) as [b|] eqn:Hb; simplify_eq/=.
    apply (G3 b); [by eapply zread_elem_of|done].
  - intros h. rewrite elem_of_seqZ. lia.
Qed.

(** The sets of the blocks at the end. *)
Definition final_set (b : basic_block_t) (h : Z) (d : iset) : iset :=
  if negb (h =? 0) && bool_decide (predecessor_ids b = []) then [] else d.

Lemma find_dominators_spec bs : entry_graph bs ->
  exists doms bs', find_dominators bs = Ok bs' /\ sets_ok (predecessor_ids <$> bs) 0 doms /\
    (forall h p, 0 <= h < zlen bs -> p ∈ dom_of doms h <-> 0 <= p < zlen bs /\ block_dominates bs p h) /\
    zlen bs' = zlen bs /\
    forall h b, zread bs h = Some b -> zread bs' h = Some (set_dominators b (final_set b h (dom_of doms h))).
Proof.
  intros HG. pose proof HG as [G1 G2 G3 G4].
  destruct (solve_ok bs predecessor_ids dominator_ids 0 _ G2 (entry_flow bs HG) G4) as (doms & E & Hd & Hdom).
  pose proof (so_len _ _ _ Hd) as Hl. rewrite zlen_fmap in Hl.
  exists doms. eexists. split_and!; [|done|done| |].
  - unfold find_dominators. cbv zeta.
    rewrite (cassert_true (2 <=? _)) by (apply Z.leb_le; lia). rewrite (cassert_true (numbered_at _ _)), !bind_of_ok.
    + by rewrite E.
    + apply numbered_sub; [done|]. intros h. rewrite elem_of_seqZ. lia.
  - rewrite zlen_imap. by apply zlen_zip_with.
  - intros h b Hb. pose proof (zread_range _ _ _ Hb). rewrite zread_imap, (zread_after bs doms Hl _ h b Hb), Z2Nat.id by lia.
    simpl. unfold final_set. by destruct (_ && _).
Qed.

(** find_dominators terminates and computes, for the entry and for every block that has
    predecessors, exactly the blocks on all ways to it from the entry; the set of any
    other block is empty. *)
Theorem dominators_correct bs : entry_graph bs ->
  exists bs', find_dominators bs = Ok bs' /\ zlen bs' = zlen bs /\
    forall h b b', zread bs h = Some b -> zread bs' h = Some b' ->
      if negb (h =? 0) && bool_decide (predecessor_ids b = []) then dominator_ids b' = []
      else forall p, p ∈ dominator_ids b' <-> 0 <= p < zlen bs /\ block_dominates bs p h.
Proof.
  intros HG. destruct (find_dominators_spec bs HG) as (doms & bs' & E & Hd & Hdom & Hl & Hat). exists bs'.
  split_and!; [done|done|]. intros h b b' Hb Hb'. rewrite (Hat h b Hb) in Hb'. injection Hb' as <-. simpl. unfold final_set.
  destruct (_ && _); [done|]. intros p. apply Hdom. by apply zread_range in Hb.
Qed.

Lemma reached_has_predecessor bs h b : entry_reaches bs h -> h <> 0 -> zread bs h = Some b -> predecessor_ids b <> [].
Proof.
  intros (l & Hl) Hne Hb E. destruct Hl as [|h s l (ns & Hns & Hs)]; [done|].
  rewrite zread_fmap, Hb in Hns. injection Hns as <-. rewrite E in Hs. by apply elem_of_nil in Hs.
Qed.

(** The temporary set of a block of the dominator search at the end. *)
Record idom_set (bs : list basic_block_t) (b1 : basic_block_t) (t : iset) : Prop := {
  is_empty : t = [] <-> bb_id b1 = 0 \/ predecessor_ids b1 = [];
  is_immediate : entry_reaches bs (bb_id b1) -> bb_id b1 <> 0 -> exists m, t = [m] /\ immediate_dominator bs m (bb_id b1) }.

Lemma count_idoms bs bs1 tmps be : numbered bs1 = true -> Forall2 (idom_set bs) bs1 tmps -> zread bs1 0 = Some be ->
  let nopred := zlen (filter (fun p => p.2 = [] /\ predecessor_ids p.1 = []) (zip bs1 tmps)) in
  (non_empty tmps =? zlen bs1 - nopred) = bool_decide (predecessor_ids be = []).
Proof.
  intros N1 Hs Hbe nopred. assert (forall p, p ∈ zip bs1 tmps -> idom_set bs p.1 p.2 /\ (bb_id p.1 = 0 -> p.1 = be)) as Hall.
  { intros p (i & _ & [H1 H2]%zread_zip)%elem_of_zread. split; [by eapply Forall2_zread|]. rewrite (numbered_id _ _ _ N1 H1). intros ->. by simplify_eq. }
  assert (exists t, (be, t) ∈ zip bs1 tmps) as (t0 & Ht0).
  { destruct (zread_is_some tmps 0) as [t Ht]; [rewrite <- (Forall2_zlen _ _ _ Hs); by eapply zread_range|].
    exists t. apply (zread_elem_of _ 0). by apply zread_zip. }
  assert (non_empty tmps + zlen (filter (fun p => p.2 = []) (zip bs1 tmps)) = zlen bs1) as Etot.
  { clear -Hs. unfold non_empty, zlen. induction Hs as [|b t l k _ _ IH]; [done|]. simpl zip. rewrite !filter_cons. simpl.
    repeat case_decide; simpl in *; try tauto; lia. }
  assert (nopred <= zlen (filter (fun p => p.2 = []) (zip bs1 tmps)) /\
    (nopred = zlen (filter (fun p => p.2 = []) (zip bs1 tmps)) <-> forall p, p ∈ zip bs1 tmps -> p.2 = [] -> predecessor_ids p.1 = [])) as [Hle Heq].
  { clear. unfold nopred, zlen. induction (zip bs1 tmps) as [|p l [IH1 IH2]]; [split; [done|set_solver]|]. rewrite !filter_cons.
    destruct (decide (p.2 = [])) as [E|E].
    - destruct (decide (predecessor_ids p.1 = [])) as [E1|E1].
      + rewrite (decide_True (P := _ /\ _)) by done. simpl. split; [lia|]. split.
        * intros Hn q [->|Hq]%elem_of_cons; [done|]. apply IH2; [lia|done].
        * intros H. apply proj2 in IH2. lapply IH2; [lia|]. intros q Hq. apply H. by right.
      + rewrite (decide_False (P := _ /\ _)) by tauto. simpl. split; [lia|]. split; [lia|]. intros H. destruct E1. apply H; [left|done].
    - rewrite (decide_False (P := _ /\ _)) by tauto. split; [done|]. rewrite IH2. set_solver. }
  case_bool_decide as Hp.
  - apply Z.eqb_eq. rewrite (proj2 Heq); [lia|]. intros p Hp1 Hp2. destruct (Hall p Hp1) as [[He _] Hbe']. apply He in Hp2 as [H0|]; [|done].
    by rewrite (Hbe' H0).
  - apply Z.eqb_neq. intros E. apply Hp. apply (proj1 Heq ltac:(lia) (be, t0) Ht0). apply (Hall _ Ht0). left. simpl. by apply (numbered_id bs1).
Qed.

Section entry.
Context (bs : list basic_block_t) (HG : entry_graph bs).
Context (doms : list iset) (bs1 : list basic_block_t) (Hd : sets_ok (predecessor_ids <$> bs) 0 doms).
Context (Hdom : forall h p, 0 <= h < zlen bs -> p ∈ dom_of doms h <-> 0 <= p < zlen bs /\ block_dominates bs p h).
Context (Hl : zlen bs1 = zlen bs).
Context (Hat : forall h b, zread bs h = Some b -> zread bs1 h = Some (set_dominators b (final_set b h (dom_of doms h)))).

Lemma entry_numbered : numbered bs1 = true.
Proof using HG Hl Hat.
  unfold numbered. rewrite Hl, numbered_at_spec. intros h Hh%elem_of_seqZ. destruct (zread_is_some bs h) as [b Hb]; [lia|].
  eexists. split; [by apply Hat|]. simpl. apply (numbered_id bs); [apply HG|done].
Qed.
Lemma entry_sets h b : zread bs h = Some b -> dom_of (dominator_ids <$> bs1) h = final_set b h (dom_of doms h).
Proof using Hat. intros Hb. unfold dom_of at 1. by rewrite zread_fmap, (Hat h b Hb). Qed.

Lemma root_in_every_set h : 0 <= h < zlen bs -> 0 ∈ dom_of doms h.
Proof using Hdom HG.
  intros Hh. apply Hdom; [done|]. split; [destruct HG; lia|]. intros l Hp. clear -Hp. induction Hp; set_solver.
Qed.

Lemma nearest_idom b1 : b1 ∈ bs1 ->
  exists t, nearest (dominator_ids <$> bs1) (bb_id b1) (dominator_ids b1) = Ok t /\ idom_set bs b1 t.
Proof using All.
  intros (h & Hh & Hb1)%elem_of_zread. rewrite Hl in Hh. destruct (zread_is_some bs h Hh) as [b Hb].
  pose proof (numbered_id bs1 h b1 entry_numbered Hb1) as Hid. rewrite (Hat h b Hb) in Hb1. injection Hb1 as <-.
  set (b1 := set_dominators _ _) in *. rewrite Hid. assert (predecessor_ids b1 = predecessor_ids b) as Epred by done.
  assert (dominator_ids b1 = dom_of (dominator_ids <$> bs1) h) as -> by (by rewrite (entry_sets h b Hb)).
  pose proof (entry_sets h b Hb) as Eset. pose proof (entry_flow bs HG) as Hf.
  assert (zlen (dominator_ids <$> bs1) = zlen (predecessor_ids <$> bs)) as Hlen by (rewrite !zlen_fmap; lia).
  assert (forall k, sorted (dom_of (dominator_ids <$> bs1) k) /\ forall p, p ∈ dom_of (dominator_ids <$> bs1) k -> 0 <= p < zlen bs) as Hall.
  { intros k. destruct (zread bs k) as [bk|] eqn:Hk.
    - rewrite (entry_sets k bk Hk). unfold final_set. case_match; [split; [constructor|set_solver]|]. split; [apply Hd|].
      intros p. rewrite <- (zlen_fmap predecessor_ids bs). apply Hd.
    - unfold dom_of. rewrite zread_fmap. assert (zread bs1 k = None) as ->; [|split; [constructor|set_solver]].
      apply zread_none. intros Hr. rewrite Hl in Hr. destruct (zread_is_some bs k Hr). congruence. }
  destruct (prune_total (dominator_ids <$> bs1) (length (serase h (dom_of (dominator_ids <$> bs1) h))) []
    (serase h (dom_of (dominator_ids <$> bs1) h))) as (t & E & Ht); cbn [app] in *.
  { apply sorted_filter, Hall. } { done. }
  { intros s [_ Hs]%list_elem_of_filter. rewrite Hlen, zlen_fmap. by apply (proj2 (Hall h)). }
  exists t. split; [done|]. split; rewrite Hid.
  - rewrite Epred. split.
    + intros ->. destruct (Z.eq_dec h 0) as [|Hne]; [by left|]. destruct (decide (predecessor_ids b = [])) as [|Hp]; [by right|].
      exfalso. apply Ht; [|done]. intros E0. assert (0 ∈ serase h (dom_of (dominator_ids <$> bs1) h)) as H0; [|rewrite E0 in H0; set_solver].
      unfold serase. apply list_elem_of_filter. split; [done|]. rewrite Eset. unfold final_set.
      rewrite (bool_decide_eq_false_2 _ Hp), andb_false_r. by apply root_in_every_set.
    + intros Hor. assert (serase h (dom_of (dominator_ids <$> bs1) h) = []) as E0; [|rewrite E0 in E; by injection E as <-].
      rewrite Eset. unfold final_set. destruct (Z.eqb_spec h 0) as [->|Hne]; simpl.
      * apply filter_none. intros x ->%(so_root _ _ _ Hd). by intros [].
      * rewrite bool_decide_eq_true_2; [done|]. tauto.
  - intros [l Hp] Hne. destruct (nearest_spec _ _ _ Hf (dominator_ids <$> bs1) Hlen (fun k => proj1 (Hall k))) with (h := h) (l := l) as (m & Em & Hm); [|done|done|].
    + intros k q p Hq. destruct (path_head _ _ _ _ Hq) as [q' Eq].
      assert (0 <= k < zlen bs) as Hk by (rewrite <- (zlen_fmap predecessor_ids bs); eapply (path_range _ _ _ Hf k q k Hq); rewrite Eq; left).
      destruct (zread_is_some bs k Hk) as [bk Hbk]. rewrite (entry_sets k bk Hbk), zlen_fmap. unfold final_set.
      destruct (Z.eqb_spec k 0) as [->|Hk0]; simpl; [by apply Hdom|]. rewrite bool_decide_eq_false_2; [by apply Hdom|].
      apply (reached_has_predecessor bs k); [by exists q|done|done].
    + exists m. split; [|done]. unfold nearest in Em. rewrite E in Em. by injection Em as ->.
Qed.
End entry.

Lemma idominators_spec bs be : entry_graph bs -> zread bs 0 = Some be ->
  exists bs1 tmps doms, find_dominators bs = Ok bs1 /\
    find_idominators bs1 = (if bool_decide (predecessor_ids be = [])
      then Ok (zip_with (fun b t => set_idom b t (first_or t (immediatedominator_id b))) bs1 tmps) else Err AssertFailed) /\
    zlen bs1 = zlen bs /\ zlen tmps = zlen bs /\
    (forall h b, zread bs h = Some b -> zread bs1 h = Some (set_dominators b (final_set b h (dom_of doms h)))) /\
    Forall2 (idom_set bs) bs1 tmps.
Proof.
  intros HG Hbe. pose proof HG as [G1 G2 G3 G4].
  destruct (find_dominators_spec bs HG) as (doms & bs1 & E & Hd & Hdom & Hl & Hat). exists bs1.
  pose proof (entry_numbered bs HG doms bs1 Hl Hat) as N1.
  destruct (nearest_all_spec (dominator_ids <$> bs1) bs1 dominator_ids (idom_set bs)) as (tmps & Et & Hs).
  { intros b Hb. by apply (nearest_idom bs HG doms bs1 Hd Hdom Hl Hat). }
  exists tmps, doms. pose proof (Forall2_zlen _ _ _ Hs) as Hlt. split_and!; [done| |done|lia|done|done].
  unfold find_idominators. cbv zeta. rewrite N1, Et. rewrite (cassert_true (2 <=? _)) by (apply Z.leb_le; lia).
  rewrite (cassert_true true), !bind_of_ok by done. rewrite (count_idoms bs bs1 tmps _ N1 Hs (Hat 0 be Hbe)). simpl.
  by destruct (bool_decide (predecessor_ids be = [])).
Qed.

(** C29: What the search for immediate dominators does depends on the entry of the
    function: if nothing branches back to it, the search succeeds and every block that
    the entry reaches gets its immediate dominator; otherwise the last assertion fails. *)
Theorem immediate_dominators bs be : entry_graph bs -> zread bs 0 = Some be ->
  let result := bs1 ← find_dominators bs; find_idominators bs1 in
  if bool_decide (predecessor_ids be = []) then
    exists bs', result = Ok bs' /\ zlen bs' = zlen bs /\
      forall h b b', zread bs h = Some b -> zread bs' h = Some b' -> entry_reaches bs h ->
        if h =? 0 then immediatedominator_id b' = immediatedominator_id b
        else immediate_dominator bs (immediatedominator_id b') h
  else result = Err AssertFailed.
Proof.
  intros HG Hbe result. unfold result.
  destruct (idominators_spec bs be HG Hbe) as (bs1 & tmps & doms & E1 & E2 & Hl & Ht & Hat & Hs).
  rewrite E1, bind_of_ok, E2. case_bool_decide; [|done]. eexists. split; [done|]. split; [rewrite zlen_zip_with; lia|].
  intros h b b' Hb Hb' Hr. rewrite (zread_after bs1 tmps ltac:(lia) _ h _ (Hat h b Hb)) in Hb'. injection Hb' as <-.
  pose proof (zread_range _ _ _ Hb) as Hh. destruct (zread_is_some tmps h) as [t Et]; [lia|].
  assert (dom_of tmps h = t) as -> by (unfold dom_of; by rewrite Et). simpl.
  destruct (Forall2_zread _ _ _ _ _ _ Hs (Hat h b Hb) Et) as [He Hi]. simpl in He, Hi.
  rewrite (numbered_id bs h b (ng_numbered _ HG) Hb) in *. destruct (Z.eqb_spec h 0) as [->|Hne].
  - by rewrite (proj2 He) by (by left).
  - destruct (Hi Hr Hne) as (m & -> & Hm). exact Hm.
Qed.

(** * A function with a loop and a branch

    Block 1 is the head of a loop with an [if] whose sides are 2 and 3; 5 is the exit. *)

Definition demo_block (id : Z) (preds succs : iset) : basic_block_t :=
  set_links (basic_block_new id None None (id =? 0) false) preds succs.
Definition demo_flow : list basic_block_t :=
  [demo_block 0 [] [1]; demo_block 1 [0; 4] [2; 3]; demo_block 2 [1] [4]; demo_block 3 [1] [4];
   demo_block 4 [2; 3] [1; 5]; demo_block 5 [4] []].

Lemma demo_exit_graph : exit_graph demo_flow.
Proof.
  split; [vm_compute; congruence|done| |].
  - intros b s Hb Hs. unfold demo_flow in Hb. set_unfold. unfold zlen. simpl.
    destruct_or! Hb; subst; simpl in Hs; set_unfold; lia.
  - intros b Hb. unfold demo_flow in Hb. set_unfold. destruct_or! Hb; by subst.
Qed.
Lemma demo_entry_graph : entry_graph demo_flow.
Proof.
  split; [vm_compute; congruence|done| |].
  - intros b s Hb Hs. unfold demo_flow in Hb. set_unfold. unfold zlen. simpl.
    destruct_or! Hb; subst; simpl in Hs; set_unfold; lia.
  - intros b Hb. unfold demo_flow in Hb. set_unfold. destruct_or! Hb; by subst.
Qed.

Lemma postdominators_correct_witness :
  exists bs', find_postdominators demo_flow = Ok bs' /\ zlen bs' = zlen demo_flow /\
    forall h b', zread bs' h = Some b' ->
      forall p, p ∈ postdominator_ids b' <-> 0 <= p < zlen demo_flow /\ postdominates demo_flow p h.
Proof. apply postdominators_correct, demo_exit_graph. Defined.

Lemma dominators_correct_witness :
  exists bs', find_dominators demo_flow = Ok bs' /\ zlen bs' = zlen demo_flow /\
    forall h b b', zread demo_flow h = Some b -> zread bs' h = Some b' ->
      if negb (h =? 0) && bool_decide (predecessor_ids b = []) then dominator_ids b' = []
      else forall p, p ∈ dominator_ids b' <-> 0 <= p < zlen demo_flow /\ block_dominates demo_flow p h.
Proof. apply dominators_correct, demo_entry_graph. Defined.

Lemma demo_path nbrs root h s ns l : zread nbrs h = Some ns -> bool_decide (s ∈ ns) = true -> path nbrs root s l -> path nbrs root h (h :: l).
Proof. intros Hns Hs%bool_decide_eq_true Hl. econstructor; [|done]. by exists ns. Qed.

Lemma demo_reaches h : 0 <= h < zlen demo_flow -> reaches_exit demo_flow h /\ entry_reaches demo_flow h.
Proof.
  intros Hh. change (zlen demo_flow) with 6 in Hh. unfold reaches_exit, entry_reaches. change (zlen demo_flow - 1) with 5.
  assert (path (successor_ids <$> demo_flow) 5 5 [5]) as P5 by constructor.
  pose proof (demo_path (successor_ids <$> demo_flow) 5 4 5 _ _ eq_refl eq_refl P5) as P4.
  pose proof (demo_path (successor_ids <$> demo_flow) 5 3 4 _ _ eq_refl eq_refl P4) as P3.
  pose proof (demo_path (successor_ids <$> demo_flow) 5 2 4 _ _ eq_refl eq_refl P4) as P2.
  pose proof (demo_path (successor_ids <$> demo_flow) 5 1 2 _ _ eq_refl eq_refl P2) as P1.
  pose proof (demo_path (successor_ids <$> demo_flow) 5 0 1 _ _ eq_refl eq_refl P1) as P0.
  assert (path (predecessor_ids <$> demo_flow) 0 0 [0]) as Q0 by constructor.
  pose proof (demo_path (predecessor_ids <$> demo_flow) 0 1 0 _ _ eq_refl eq_refl Q0) as Q1.
  pose proof (demo_path (predecessor_ids <$> demo_flow) 0 2 1 _ _ eq_refl eq_refl Q1) as Q2.
  pose proof (demo_path (predecessor_ids <$> demo_flow) 0 3 1 _ _ eq_refl eq_refl Q1) as Q3.
  pose proof (demo_path (predecessor_ids <$> demo_flow) 0 4 2 _ _ eq_refl eq_refl Q2) as Q4.
  pose proof (demo_path (predecessor_ids <$> demo_flow) 0 5 4 _ _ eq_refl eq_refl Q4) as Q5.
  assert (h = 0 \/ h = 1 \/ h = 2 \/ h = 3 \/ h = 4 \/ h = 5) as Hc by lia. destruct_or! Hc; subst; eauto.
Qed.

Lemma reconvergence_points_witness :
  exists bs', (bs1 ← find_postdominators demo_flow; find_ipostdominators bs1) = Ok bs' /\ zlen bs' = zlen demo_flow /\
    forall h b b', zread demo_flow h = Some b -> zread bs' h = Some b' ->
      if h =? zlen demo_flow - 1 then immediatepostdominator_id b' = immediatepostdominator_id b
      else immediate_postdominator demo_flow (immediatepostdominator_id b') h.
Proof. apply reconvergence_points; [apply demo_exit_graph|]. intros h Hh. by apply demo_reaches. Defined.

Lemma immediate_dominators_witness :
  exists bs', (bs1 ← find_dominators demo_flow; find_idominators bs1) = Ok bs' /\ zlen bs' = zlen demo_flow /\
    forall h b b', zread demo_flow h = Some b -> zread bs' h = Some b' ->
      entry_reaches demo_flow h ->
      if h =? 0 then immediatedominator_id b' = immediatedominator_id b
      else immediate_dominator demo_flow (immediatedominator_id b') h.
Proof. exact (immediate_dominators demo_flow (demo_block 0 [] [1]) demo_entry_graph eq_refl). Defined.

(** The reconvergence points: both sides of the [if] meet in block 4. *)
Definition demo_points : outcome (list Z) :=
  bs1 ← find_postdominators demo_flow; bs2 ← find_ipostdominators bs1; mret (map immediatepostdominator_id bs2).
Example demo_reconvergence : demo_points = Ok [1; 4; 4; 4; 5; -1].
Proof. vm_compute. reflexivity. Qed.

(** A function whose first block is a loop stops the simulator. *)
Example loop_at_entry_stops :
  (bs1 ← find_dominators [demo_block 0 [0] [0; 1]; demo_block 1 [0] []]; find_idominators bs1) = Err AssertFailed.
Proof. vm_compute. reflexivity. Qed.
