(* ===== verification/Assemble.v ===== *)
(** * Assembling PTX functions

    [cuda-sim/cuda-sim.cc]'s [ptx_assemble] up to the flow analysis: the instructions of a
    function get consecutive addresses, in the function's own instruction memory and in
    the table of all instructions, and the labels get the addresses they stand for.  An
    instruction is known by its position in [m_instructions], as the code knows it by its
    pointer. *)

From stdpp Require Import strings.
From S2P Require Import Prelude.
#[local] Open Scope Z_scope.

(** * Instructions *)

(** The opcodes the flow analysis asks for; [NO_OP] is the -1 of a label. *)
Inductive opcode :=
  | NO_OP | BRA_OP | RET_OP | EXIT_OP | RETP_OP | BREAK_OP | BREAKADDR_OP | CALL_OP | CALLP_OP | OTHER_OP (n : Z).
#[export] Instance opcode_eq_dec : EqDecision opcode.
Proof. solve_decision. Defined.

(** A label, or an instruction with its opcode, whether it has a predicate, the name of
    its destination operand and its size in bytes. *)
Inductive ptx_instruction :=
  | Label (name : string)
  | Insn (op : opcode) (pred : bool) (dst : string) (size : Z).

#[export] Instance ptx_instruction_eq_dec : EqDecision ptx_instruction.
Proof. solve_decision. Defined.

Definition is_label (x : ptx_instruction) : bool := match x with Label _ => true | Insn _ _ _ _ => false end.
Definition get_opcode (x : ptx_instruction) : opcode := match x with Label _ => NO_OP | Insn op _ _ _ => op end.
Definition has_pred (x : ptx_instruction) : bool := match x with Label _ => false | Insn _ p _ _ => p end.
Definition dst_name (x : ptx_instruction) : string := match x with Label _ => EmptyString | Insn _ _ d _ => d end.
Definition inst_size (x : ptx_instruction) : Z := match x with Label _ => 8 | Insn _ _ _ s => s end.

Definition MAX_INST_SIZE : Z := 8.

(** [find_next_real_instruction] *)
Fixpoint skip_labels (l : list ptx_instruction) (i : Z) : Z :=
  match l with
  | x :: l' => if is_label x then skip_labels l' (i + 1) else i
  | [] => i
  end.
Definition find_next_real_instruction (ins : list ptx_instruction) (i : Z) : Z := skip_labels (drop (Z.to_nat i) ins) i.

(** * The memories *)

(** A word of [m_instr_mem], which [new] leaves unset. *)
Inductive slot := Unset | Null | At (i : Z).
#[export] Instance slot_eq_dec : EqDecision slot.
Proof. solve_decision. Defined.

(** The part of [function_info] that holds code, with the members of its instructions
    that assembling sets. *)
Record code := mkCode {
  m_instructions : list ptx_instruction;
  m_start_PC : Z;
  m_instr_mem : list slot;
  labels : gmap string Z;
  m_instr_mem_index : gmap Z Z;
  m_PC : gmap Z Z;
  label_address : gmap string Z }.

(** What all functions share: the next free address, the instruction at every address and
    the function it belongs to. *)
Record loader := mkLoader {
  g_assemble_code_next_pc : Z;
  s_g_pc_to_insn : list (option (Z * Z));
  g_pc_to_finfo : gmap Z Z }.
Definition loader_new : loader := mkLoader 0 [] ∅.

Definition instr_mem_size (ins : list ptx_instruction) : Z := MAX_INST_SIZE * (zlen ins + 1).

(** [pI->get_m_instr_mem_index()], [pI->get_PC()] *)
Definition get_m_instr_mem_index (f : code) (i : Z) : outcome Z :=
  match m_instr_mem_index f !! i with Some n => mret n | None => Err BadAccess end.
Definition get_PC (f : code) (i : Z) : Z := default 0 (m_PC f !! i).

(** [m_instr_mem[n]], for a pointer that is then followed. *)
Definition instr_at (f : code) (n : Z) : outcome Z :=
  w ← aread (m_instr_mem f) n;
  match w with At i => mret i | Null | Unset => Err BadAccess end.
Definition instruction (f : code) (i : Z) : outcome ptx_instruction := aread (m_instructions f) i.

(** * Placing the instructions *)

(** The variables of the loop. *)
Record placing := mkPlacing { p_code : code; p_loader : loader; p_n : Z; p_PC : Z }.

(** [for (k = 1; k < inst_size(); k++) m_instr_mem[n+k] = NULL] *)
Fixpoint clear_slots (k : nat) (n : Z) (mem : list slot) : outcome (list slot) :=
  match k with
  | O => mret mem
  | S k' => mem ← awrite mem n Null; clear_slots k' (n + 1) mem
  end.

Definition place_instruction (fid i : Z) (x : ptx_instruction) (st : placing) : outcome placing :=
  let f := p_code st in
  let g := p_loader st in
  let n := p_n st in
  let PC := p_PC st in
  mem ← awrite (m_instr_mem f) n (At i);
  let table := s_g_pc_to_insn g ++ [Some (fid, i)] in
  here ← aread table PC;
  cassert (bool_decide (here = Some (fid, i)));;
  cassert (inst_size x <=? MAX_INST_SIZE);;
  mem ← clear_slots (Z.to_nat (inst_size x - 1)) (n + 1) mem;
  mret (mkPlacing
    (mkCode (m_instructions f) (m_start_PC f) mem (labels f) (<[i := n]> (m_instr_mem_index f)) (<[i := PC]> (m_PC f)) (label_address f))
    (mkLoader (g_assemble_code_next_pc g) (table ++ replicate (Z.to_nat (inst_size x - 1)) None) (<[PC := fid]> (g_pc_to_finfo g)))
    (u32 (n + inst_size x)) (u32 (PC + inst_size x))).

Definition place_label (name : string) (st : placing) : placing :=
  let f := p_code st in
  mkPlacing (mkCode (m_instructions f) (m_start_PC f) (m_instr_mem f) (<[name := p_n st]> (labels f)) (m_instr_mem_index f) (m_PC f)
    (label_address f)) (p_loader st) (p_n st) (p_PC st).

Fixpoint place_all (fid i : Z) (l : list ptx_instruction) (st : placing) : outcome placing :=
  match l with
  | [] => mret st
  | x :: l' =>
      st ← (match x with Label name => mret (place_label name st) | Insn _ _ _ _ => place_instruction fid i x st end);
      place_all fid (i + 1) l' st
  end.

(** [PC += PC % MAX_INST_SIZE] *)
Definition start_address (PC : Z) : Z := u32 (PC + PC mod MAX_INST_SIZE).

Definition place_function (fid : Z) (ins : list ptx_instruction) (g : loader) : outcome placing :=
  let PC := g_assemble_code_next_pc g in
  let table := s_g_pc_to_insn g ++ replicate (Z.to_nat (PC mod MAX_INST_SIZE)) None in
  let start := start_address PC in
  let f := mkCode ins start (replicate (Z.to_nat (instr_mem_size ins)) Unset) ∅ ∅ ∅ ∅ in
  st ← place_all fid 0 ins (mkPlacing f (mkLoader PC table (g_pc_to_finfo g)) 0 start);
  let g := p_loader st in
  mret (mkPlacing (p_code st) (mkLoader (p_PC st) (s_g_pc_to_insn g) (g_pc_to_finfo g)) (p_n st) (p_PC st)).

(** * Addresses of labels *)

Definition with_addresses (f : code) (a : gmap string Z) : code :=
  mkCode (m_instructions f) (m_start_PC f) (m_instr_mem f) (labels f) (m_instr_mem_index f) (m_PC f) a.

Definition takes_label (op : opcode) : bool := bool_decide (op = BRA_OP \/ op = BREAKADDR_OP \/ op = CALLP_OP).

Definition resolve (x : ptx_instruction) (f : code) : outcome code :=
  if takes_label (get_opcode x) then
    match labels f !! dst_name x with
    | None => Err ErrorMsg
    | Some index =>
        i ← instr_at f index;
        mret (with_addresses f (<[dst_name x := get_PC f i]> (label_address f)))
    end
  else mret f.

(** [for (ii = 0; ii < n; ii += m_instr_mem[ii]->inst_size())] *)
Fixpoint resolve_all (fuel : nat) (n ii : Z) (f : code) : outcome code :=
  if ii <? n then
    match fuel with
    | O => Err OutOfFuel
    | S fuel' =>
        i ← instr_at f ii;
        x ← instruction f i;
        f ← resolve x f;
        resolve_all fuel' n (u32 (ii + inst_size x)) f
    end
  else mret f.

Definition assemble (fid : Z) (ins : list ptx_instruction) (g : loader) : outcome (code * loader) :=
  st ← place_function fid ins g;
  f ← resolve_all (length ins) (p_n st) 0 (p_code st);
  mret (f, p_loader st).

(** [get_instruction], [pc_to_instruction] *)
Definition get_instruction (f : code) (PC : Z) : outcome slot :=
  let index := u32 (PC - m_start_PC f) in
  if index <? instr_mem_size (m_instructions f) then aread (m_instr_mem f) index else mret Null.
Definition pc_to_instruction (g : loader) (pc : Z) : option (Z * Z) := default None (zread (s_g_pc_to_insn g) pc).

(** * Addresses

    The bytes before instruction [i]; labels take no space. *)

Definition code_size (x : ptx_instruction) : Z := if is_label x then 0 else inst_size x.
Definition bytes (l : list ptx_instruction) : Z := foldr (fun x a => code_size x + a) 0 l.
Definition offset (ins : list ptx_instruction) (i : Z) : Z := bytes (take (Z.to_nat i) ins).

(** An instruction that is not a label. *)
Definition real_at (ins : list ptx_instruction) (i : Z) (x : ptx_instruction) : Prop := zread ins i = Some x /\ is_label x = false.

Record code_ok (ins : list ptx_instruction) (start : Z) : Prop := {
  ck_sizes : forall x, x ∈ ins -> is_label x = false -> 1 <= inst_size x <= MAX_INST_SIZE;
  ck_labels : forall p q name, zread ins p = Some (Label name) -> zread ins q = Some (Label name) -> p = q;
  ck_start : 0 <= start;
  ck_fits : start + bytes ins < 2 ^ 32 }.

Lemma bytes_app l k : bytes (l ++ k) = bytes l + bytes k.
Proof. unfold bytes. induction l as [|x l IH]; simpl; [lia|]. rewrite IH. lia. Qed.
Lemma bytes_nonneg l : (forall x, x ∈ l -> is_label x = false -> 1 <= inst_size x) -> 0 <= bytes l.
Proof.
  induction l as [|x l IH]; intros H; [done|]. change (bytes (x :: l)) with (code_size x + bytes l). assert (0 <= code_size x).
  { unfold code_size. destruct (is_label x) eqn:E; [lia|]. specialize (H x ltac:(left) E). lia. }
  assert (0 <= bytes l); [|lia]. apply IH. intros y Hy. apply H. by right.
Qed.

Section offsets.
Context (ins : list ptx_instruction) (start : Z) (Hc : code_ok ins start).

Lemma offset_0 : offset ins 0 = 0.
Proof. done. Qed.
Lemma offset_end : offset ins (zlen ins) = bytes ins.
Proof. unfold offset, zlen. by rewrite Nat2Z.id, firstn_all. Qed.
Lemma offset_succ i x : zread ins i = Some x -> offset ins (i + 1) = offset ins i + code_size x.
Proof.
  intros Hx. pose proof (zread_range _ _ _ Hx). rewrite zread_lookup in Hx by lia. unfold offset.
  replace (Z.to_nat (i + 1)) with (S (Z.to_nat i)) by lia. rewrite (take_S_r _ _ _ Hx), bytes_app. change (bytes [x]) with (code_size x + 0). lia.
Qed.
Lemma code_size_nonneg i x : zread ins i = Some x -> 0 <= code_size x <= MAX_INST_SIZE.
Proof using Hc.
  intros Hx. unfold code_size. destruct (is_label x) eqn:E; [unfold MAX_INST_SIZE; lia|].
  pose proof (ck_sizes _ _ Hc x ltac:(by eapply zread_elem_of) E). lia.
Qed.
Lemma offset_mono i j : 0 <= i <= j -> j <= zlen ins -> offset ins i <= offset ins j.
Proof using Hc.
  intros Hi Hj. replace j with (i + Z.of_nat (Z.to_nat (j - i))) by lia.
  assert (i + Z.of_nat (Z.to_nat (j - i)) <= zlen ins) as Hb by lia. revert Hb. generalize (Z.to_nat (j - i)). intros k.
  induction k as [|k IH]; intros Hb; [rewrite Z.add_0_r; lia|].
  destruct (zread_is_some ins (i + Z.of_nat k)) as [x Hx]; [lia|].
  replace (i + Z.of_nat (S k)) with (i + Z.of_nat k + 1) by lia. rewrite (offset_succ _ x Hx).
  pose proof (code_size_nonneg _ _ Hx). assert (offset ins i <= offset ins (i + Z.of_nat k)) by (apply IH; lia). lia.
Qed.
Lemma offset_range i : 0 <= i <= zlen ins -> 0 <= offset ins i <= bytes ins.
Proof using Hc.
  intros Hi. pose proof (offset_mono 0 i ltac:(lia) ltac:(lia)). pose proof (offset_mono i (zlen ins) ltac:(lia) ltac:(lia)).
  rewrite offset_0, offset_end in *. lia.
Qed.
(** Offsets of instructions are different. *)
Lemma offset_lt i j x : 0 <= i < j -> j <= zlen ins -> real_at ins i x -> offset ins i + inst_size x <= offset ins j.
Proof using Hc.
  intros Hi Hj [Hx Hr]. pose proof (offset_mono (i + 1) j ltac:(lia) ltac:(lia)) as H. rewrite (offset_succ i x Hx) in H.
  unfold code_size in H. rewrite Hr in H. lia.
Qed.
Lemma size_pos i x : real_at ins i x -> 1 <= inst_size x <= MAX_INST_SIZE.
Proof using Hc. intros [Hx Hr]. apply (ck_sizes _ _ Hc); [by eapply zread_elem_of|done]. Qed.
Lemma offset_inj i j x y : real_at ins i x -> real_at ins j y -> offset ins i = offset ins j -> i = j.
Proof using Hc.
  intros Hx Hy E. pose proof (zread_range _ _ _ (proj1 Hx)). pose proof (zread_range _ _ _ (proj1 Hy)).
  pose proof (size_pos _ _ Hx). pose proof (size_pos _ _ Hy).
  destruct (Z.lt_trichotomy i j) as [Hlt|[Heq|Hlt]]; [|done|].
  - pose proof (offset_lt i j x ltac:(lia) ltac:(lia) Hx). lia.
  - pose proof (offset_lt j i y ltac:(lia) ltac:(lia) Hy). lia.
Qed.
Lemma offset_memory i : 0 <= i <= zlen ins -> offset ins i <= MAX_INST_SIZE * i.
Proof using Hc.
  intros Hi. replace i with (Z.of_nat (Z.to_nat i)) in * by lia. revert Hi. generalize (Z.to_nat i). intros k.
  induction k as [|k IH]; intros Hi; [change (offset ins (Z.of_nat 0)) with 0; lia|].
  destruct (zread_is_some ins (Z.of_nat k)) as [x Hx]; [lia|].
  replace (Z.of_nat (S k)) with (Z.of_nat k + 1) by lia. rewrite (offset_succ _ x Hx).
  pose proof (code_size_nonneg _ _ Hx). unfold MAX_INST_SIZE in *. lia.
Qed.
End offsets.

(** * The function in memory *)

Lemma clear_slots_spec k n mem : 0 <= n -> n + Z.of_nat k <= zlen mem ->
  exists mem', clear_slots k n mem = Ok mem' /\ zlen mem' = zlen mem /\
    forall j, zread mem' j = if (n <=? j) && (j <? n + Z.of_nat k) then Some Null else zread mem j.
Proof.
  revert n mem. induction k as [|k IH]; intros n mem Hn Hk; simpl.
  - exists mem. split_and!; [done|done|]. intros j. change (Z.of_nat 0) with 0. rewrite Z.add_0_r. destruct (Z.leb_spec n j), (Z.ltb_spec j n); simpl; try done; lia.
  - rewrite awrite_in, bind_of_ok by lia. destruct (IH (n + 1) (zwrite mem n Null)) as (mem' & E & Hl & Hr); [lia|rewrite zlen_zwrite; lia|].
    exists mem'. rewrite zlen_zwrite in Hl. split_and!; [done|done|]. intros j. rewrite Hr, zread_zwrite by lia.
    destruct (Z.leb_spec (n + 1) j), (Z.ltb_spec j (n + 1 + Z.of_nat k)), (Z.leb_spec n j), (Z.ltb_spec j (n + Z.of_nat (S k))),
      (Z.eqb_spec n j); simpl; try done; lia.
Qed.

Section placement.
Context (fid : Z) (ins : list ptx_instruction) (start : Z) (Hc : code_ok ins start).
Context (table0 : list (option (Z * Z))) (finfo0 : gmap Z Z).

(** The state of the loop before instruction [i]. *)
Record placed (i : Z) (st : placing) : Prop := {
  pl_ins : m_instructions (p_code st) = ins;
  pl_start : m_start_PC (p_code st) = start;
  pl_n : p_n st = offset ins i;
  pl_PC : p_PC st = start + offset ins i;
  pl_len : zlen (m_instr_mem (p_code st)) = instr_mem_size ins;
  pl_mem : forall j x, j < i -> real_at ins j x -> zread (m_instr_mem (p_code st)) (offset ins j) = Some (At j);
  pl_null : forall j x k, j < i -> real_at ins j x -> offset ins j < k < offset ins j + inst_size x ->
    zread (m_instr_mem (p_code st)) k = Some Null;
  pl_unset : forall k, offset ins i <= k < instr_mem_size ins -> zread (m_instr_mem (p_code st)) k = Some Unset;
  pl_index : forall j x, j < i -> real_at ins j x -> m_instr_mem_index (p_code st) !! j = Some (offset ins j);
  pl_pcs : forall j x, j < i -> real_at ins j x -> m_PC (p_code st) !! j = Some (start + offset ins j);
  pl_labels : forall name n, labels (p_code st) !! name = Some n <->
    exists p, p < i /\ zread ins p = Some (Label name) /\ n = offset ins p;
  pl_table_len : zlen (s_g_pc_to_insn (p_loader st)) = start + offset ins i;
  pl_table : forall j x, j < i -> real_at ins j x -> zread (s_g_pc_to_insn (p_loader st)) (start + offset ins j) = Some (Some (fid, j));
  pl_table_old : forall pc, pc < start -> zread (s_g_pc_to_insn (p_loader st)) pc = zread table0 pc;
  pl_finfo : forall j x, j < i -> real_at ins j x -> g_pc_to_finfo (p_loader st) !! (start + offset ins j) = Some fid;
  pl_finfo_old : forall pc, pc < start -> g_pc_to_finfo (p_loader st) !! pc = finfo0 !! pc }.

Lemma place_label_ok i st name : placed i st -> zread ins i = Some (Label name) -> placed (i + 1) (place_label name st).
Proof using Hc.
  intros [] Hx. pose proof (zread_range _ _ _ Hx). pose proof (offset_succ ins i _ Hx) as Ho. unfold code_size in Ho. simpl in Ho.
  rewrite Z.add_0_r in Ho. assert (forall j x, j < i + 1 -> real_at ins j x -> j < i) as Hreal.
  { intros j x Hj [Hj1 Hj2]. destruct (Z.eq_dec j i) as [->|]; [|lia]. by simplify_eq. }
  split; simpl; rewrite ?Ho; eauto.
  intros name' n. destruct (decide (name = name')) as [<-|Hne].
  - rewrite lookup_insert_eq. split.
    + intros [= <-]. exists i. split_and!; [lia|done|done].
    + intros (p & _ & Hp & ->). by rewrite (ck_labels _ _ Hc p i name Hp Hx), pl_n0.
  - rewrite lookup_insert_ne by done. rewrite pl_labels0. split; intros (p & Hp & Hl & Hn); exists p; split_and!; try done; [lia|].
    destruct (Z.eq_dec p i) as [->|]; [|lia]. by simplify_eq.
Qed.

Lemma place_instruction_ok i st x : placed i st -> real_at ins i x ->
  exists st', place_instruction fid i x st = Ok st' /\ placed (i + 1) st'.
Proof using Hc.
  intros [] Hx. pose proof (zread_range _ _ _ (proj1 Hx)) as Hi. pose proof (offset_succ ins i _ (proj1 Hx)) as Ho.
  pose proof (size_pos ins start Hc i x Hx) as Hs. unfold code_size in Ho. rewrite (proj2 Hx) in Ho.
  pose proof (offset_range ins start Hc i ltac:(lia)) as Hr. pose proof (offset_range ins start Hc (i + 1) ltac:(lia)) as Hr1.
  pose proof (offset_memory ins start Hc i ltac:(lia)) as Hm. pose proof (ck_fits _ _ Hc). pose proof (ck_start _ _ Hc).
  unfold instr_mem_size, MAX_INST_SIZE in *. unfold place_instruction. rewrite pl_n0, pl_PC0.
  rewrite awrite_in, bind_of_ok by lia. set (mem1 := zwrite _ _ _).
  set (table := s_g_pc_to_insn (p_loader st) ++ [Some (fid, i)]).
  assert (zread table (start + offset ins i) = Some (Some (fid, i))) as Ht.
  { unfold table. rewrite zread_app, pl_table_len0, Z.ltb_irrefl, Z.sub_diag. done. }
  rewrite (proj2 (aread_ok _ _ _) Ht), bind_of_ok, bool_decide_eq_true_2, (cassert_true true), bind_of_ok by done.
  rewrite (cassert_true (_ <=? _)), bind_of_ok by (apply Z.leb_le; unfold MAX_INST_SIZE; lia).
  destruct (clear_slots_spec (Z.to_nat (inst_size x - 1)) (offset ins i + 1) mem1) as (mem2 & -> & Hl2 & Hr2);
    [lia|unfold mem1; rewrite zlen_zwrite; lia|]. rewrite bind_of_ok. unfold mem1 in *. rewrite zlen_zwrite in Hl2.
  assert (forall k, zread mem2 k = if k =? offset ins i then Some (At i) else
    if (offset ins i <? k) && (k <? offset ins i + inst_size x) then Some Null else zread (m_instr_mem (p_code st)) k) as Hm2.
  { intros k. rewrite Hr2, zread_zwrite by lia.
    destruct (Z.leb_spec (offset ins i + 1) k), (Z.ltb_spec k (offset ins i + 1 + Z.of_nat (Z.to_nat (inst_size x - 1)))),
      (Z.eqb_spec k (offset ins i)), (Z.ltb_spec (offset ins i) k), (Z.ltb_spec k (offset ins i + inst_size x)),
      (Z.eqb_spec (offset ins i) k); simpl; try done; lia. }
  clear Hr2. eexists. split; [done|].
  assert (forall j y, j < i + 1 -> real_at ins j y -> (j = i /\ y = x) \/ (j < i /\ offset ins j + inst_size y <= offset ins i)) as Hsplit.
  { intros j y Hj Hy. destruct (Z.eq_dec j i) as [->|]; [left; destruct Hx, Hy; split; congruence|right]. split; [lia|].
    pose proof (zread_range _ _ _ (proj1 Hy)). apply (offset_lt ins start Hc); [lia|lia|done]. }
  assert (forall j y, real_at ins j y -> 1 <= inst_size y) as Hpos by (intros j y Hy; by apply (size_pos ins start Hc j)).
  assert (zlen table = start + offset ins i + 1) as Hlt by (unfold table; rewrite zlen_app, pl_table_len0; done).
  assert (forall pc o, zread table pc = Some o -> zread (table ++ replicate (Z.to_nat (inst_size x - 1)) None) pc = Some o) as Hext.
  { intros pc o Ho'. rewrite zread_app_l; [done|]. apply zread_range in Ho'. lia. }
  assert (forall pc o, zread (s_g_pc_to_insn (p_loader st)) pc = Some o -> zread table pc = Some o) as Hext1.
  { intros pc o Ho'. unfold table. rewrite zread_app_l; [done|]. apply zread_range in Ho'. lia. }
  split; simpl; rewrite ?Ho; try done.
  - unfold u32, uwrap. rewrite Z.mod_small; lia.
  - unfold u32, uwrap. rewrite Z.mod_small; lia.
  - by rewrite Hl2.
  - intros j y Hj Hy. rewrite Hm2. destruct (Hsplit j y Hj Hy) as [[-> ->]|[Hlt' Hoff]]; [by rewrite Z.eqb_refl|].
    pose proof (Hpos j y Hy). rewrite (proj2 (Z.eqb_neq _ _)), (proj2 (Z.ltb_ge _ _)) by lia. by apply (pl_mem0 j y).
  - intros j y k Hj Hy Hk. rewrite Hm2. destruct (Hsplit j y Hj Hy) as [[-> ->]|[Hlt' Hoff]].
    + rewrite (proj2 (Z.eqb_neq _ _)), (proj2 (Z.ltb_lt _ _)), (proj2 (Z.ltb_lt _ _)) by lia. done.
    + rewrite (proj2 (Z.eqb_neq _ _)), (proj2 (Z.ltb_ge _ _)) by lia. by apply (pl_null0 j y).
  - intros k Hk. rewrite Hm2, (proj2 (Z.eqb_neq _ _)), (proj2 (Z.ltb_ge k _)), andb_false_r by lia. apply pl_unset0. unfold instr_mem_size, MAX_INST_SIZE in Hk. lia.
  - intros j y Hj Hy. destruct (Hsplit j y Hj Hy) as [[-> ->]|[Hlt' _]]; [by rewrite lookup_insert_eq|].
    rewrite lookup_insert_ne by lia. by apply (pl_index0 j y).
  - intros j y Hj Hy. destruct (Hsplit j y Hj Hy) as [[-> ->]|[Hlt' _]]; [by rewrite lookup_insert_eq|].
    rewrite lookup_insert_ne by lia. by apply (pl_pcs0 j y).
  - intros name n. rewrite pl_labels0. split; intros (p & Hp & Hl & Hn); exists p; split_and!; try done; [lia|].
    destruct (Z.eq_dec p i) as [->|]; [|lia]. destruct Hx as [Hx1 Hx2]. by simplify_eq.
  - rewrite zlen_app, zlen_replicate, Hlt by lia. lia.
  - intros j y Hj Hy. apply Hext. destruct (Hsplit j y Hj Hy) as [[-> ->]|[Hlt' _]]; [done|]. by apply Hext1, (pl_table0 j y).
  - intros pc Hpc. rewrite zread_app_l by lia. unfold table. rewrite zread_app_l by lia. by apply pl_table_old0.
  - intros j y Hj Hy. destruct (Hsplit j y Hj Hy) as [[-> ->]|[Hlt' Hoff]]; [by rewrite lookup_insert_eq|].
    pose proof (Hpos j y Hy). rewrite lookup_insert_ne by lia. by apply (pl_finfo0 j y).
  - intros pc Hpc. rewrite lookup_insert_ne by lia. by apply pl_finfo_old0.
Qed.

Lemma place_all_ok l i st : 0 <= i -> (forall k, 0 <= k -> zread l k = zread ins (i + k)) -> i + zlen l = zlen ins -> placed i st ->
  exists st', place_all fid i l st = Ok st' /\ placed (zlen ins) st'.
Proof using Hc.
  revert i st. induction l as [|x l IH]; intros i st Hi Hl Hn Hst.
  - exists st. split; [done|]. unfold zlen in Hn at 1. simpl in Hn. by rewrite Z.add_0_r in Hn; subst i.
  - assert (zread ins i = Some x) as Hx by (by rewrite <- (Z.add_0_r i), <- Hl by lia).
    assert (exists st1, (match x with Label name => mret (place_label name st) | Insn _ _ _ _ => place_instruction fid i x st end) = Ok st1 /\
      placed (i + 1) st1) as (st1 & E & H1).
    { destruct x as [name|]; [eexists; split; [done|by apply place_label_ok]|]. by apply place_instruction_ok. }
    simpl. rewrite E, bind_of_ok. apply IH; [lia| | |done].
    + intros k Hk. replace (i + 1 + k) with (i + (k + 1)) by lia. rewrite <- Hl by lia. rewrite zread_cons, (proj2 (Z.eqb_neq _ _)) by lia.
      f_equal. lia.
    + unfold zlen in *. simpl in Hn. lia.
Qed.
End placement.

(** Between functions: the table of instructions ends at the next free address. *)
Definition loader_ok (g : loader) : Prop := 0 <= g_assemble_code_next_pc g /\ zlen (s_g_pc_to_insn g) = g_assemble_code_next_pc g.

Lemma start_address_small PC ins : code_ok ins (PC + PC mod MAX_INST_SIZE) -> 0 <= PC -> start_address PC = PC + PC mod MAX_INST_SIZE.
Proof.
  intros Hc HP. unfold start_address, u32, uwrap. apply Z.mod_small. pose proof (ck_fits _ _ Hc).
  pose proof (bytes_nonneg ins (fun x Hx Hr => proj1 (ck_sizes _ _ Hc x Hx Hr))). unfold MAX_INST_SIZE in *. lia.
Qed.

Lemma place_function_ok fid ins g : loader_ok g -> let start := g_assemble_code_next_pc g + g_assemble_code_next_pc g mod MAX_INST_SIZE in
  code_ok ins start -> let table := s_g_pc_to_insn g ++ replicate (Z.to_nat (g_assemble_code_next_pc g mod MAX_INST_SIZE)) None in
  exists st, place_function fid ins g = Ok st /\ placed fid ins start table (g_pc_to_finfo g) (zlen ins) st /\
    g_assemble_code_next_pc (p_loader st) = p_PC st.
Proof.
  intros [Hg1 Hg2] start Hc table. unfold place_function. cbv zeta. rewrite (start_address_small _ ins Hc Hg1). fold start table.
  set (st0 := mkPlacing _ _ 0 start). assert (placed fid ins start table (g_pc_to_finfo g) 0 st0) as H0.
  { assert (forall j x, j < 0 -> ~ real_at ins j x) as Hno by (intros j x Hj [Hx _]; apply zread_range in Hx; lia).
    split; simpl; try done; try (intros; exfalso; by eapply Hno).
    - rewrite offset_0. lia.
    - rewrite zlen_replicate; [done|]. unfold instr_mem_size, MAX_INST_SIZE. pose proof (zlen_nonneg ins). lia.
    - intros k Hk. rewrite offset_0 in Hk. by rewrite zread_replicate, (proj2 (Z.leb_le 0 k)), (proj2 (Z.ltb_lt k _)) by lia.
    - intros name n. rewrite lookup_empty. split; [done|]. intros (p & Hp & Hl & _). apply zread_range in Hl. lia.
    - unfold table. rewrite offset_0, zlen_app, zlen_replicate by (unfold MAX_INST_SIZE; lia). lia. }
  destruct (place_all_ok fid ins start Hc table (g_pc_to_finfo g) ins 0 st0) as (st & -> & Hst); [lia|done|lia|done|].
  rewrite bind_of_ok. eexists. split; [done|]. split; [|done]. by destruct Hst; split.
Qed.

(** * Labels *)

Record next_real (ins : list ptx_instruction) (i j : Z) : Prop := {
  nr_range : i <= j <= zlen ins;
  nr_labels : forall k, i <= k < j -> exists name, zread ins k = Some (Label name);
  nr_real : j < zlen ins -> exists x, real_at ins j x }.

Lemma find_next_real_spec ins i : 0 <= i <= zlen ins -> next_real ins i (find_next_real_instruction ins i).
Proof.
  unfold find_next_real_instruction. remember (drop (Z.to_nat i) ins) as l eqn:El. revert i El.
  induction l as [|x l IH]; intros i El Hi; simpl.
  - assert (i = zlen ins) as ->; [|split; [lia|lia|lia]]. apply (f_equal length) in El. rewrite length_drop in El. unfold zlen in *. simpl in El. lia.
  - assert (zread ins i = Some x) as Hx.
    { rewrite zread_lookup by lia. rewrite <- (Nat.add_0_r (Z.to_nat i)), <- lookup_drop, <- El. done. }
    pose proof (zread_range _ _ _ Hx). destruct (is_label x) eqn:Er.
    + destruct (IH (i + 1)) as [H1 H2 H3].
      { replace (Z.to_nat (i + 1)) with (Z.to_nat i + 1)%nat by lia. by rewrite <- drop_drop, <- El. }
      { lia. }
      split; [lia| |done]. intros k Hk. destruct (Z.eq_dec k i) as [->|]; [|apply H2; lia].
      destruct x as [name|]; [by exists name|done].
    + split; [lia|lia|]. intros _. by exists x.
Qed.
Lemma find_next_real_self ins i x : real_at ins i x -> find_next_real_instruction ins i = i.
Proof.
  intros [Hx Hr]. pose proof (zread_range _ _ _ Hx). unfold find_next_real_instruction. rewrite zread_lookup in Hx by lia.
  by rewrite (drop_S _ _ _ Hx); simpl; rewrite Hr.
Qed.
Lemma next_real_unique ins i j k : 0 <= i -> next_real ins i j -> next_real ins i k -> j = k.
Proof.
  intros Hi [A1 A2 A3] [B1 B2 B3]. destruct (Z.lt_trichotomy j k) as [Hlt|[->|Hlt]]; [|done|]; exfalso.
  - destruct (B2 j) as [name Hn]; [lia|]. destruct A3 as (x & Hx & Hr); [lia|]. by simplify_eq.
  - destruct (A2 k) as [name Hn]; [lia|]. destruct B3 as (x & Hx & Hr); [lia|]. by simplify_eq.
Qed.
Lemma offset_next_real ins i j : 0 <= i -> next_real ins i j -> offset ins j = offset ins i.
Proof.
  intros Hi [H1 H2 _]. replace j with (i + Z.of_nat (Z.to_nat (j - i))) by lia.
  assert (i + Z.of_nat (Z.to_nat (j - i)) <= j) as Hb by lia. revert Hb. generalize (Z.to_nat (j - i)). intros k.
  induction k as [|k IH]; intros Hb; [by rewrite Z.add_0_r|].
  destruct (H2 (i + Z.of_nat k)) as [name Hn]; [lia|]. replace (i + Z.of_nat (S k)) with (i + Z.of_nat k + 1) by lia.
  rewrite (offset_succ ins _ _ Hn). unfold code_size. simpl. rewrite Z.add_0_r. apply IH. lia.
Qed.

(** Every label that an instruction takes is in the function, before an instruction. *)
Definition targets_ok (ins : list ptx_instruction) : Prop :=
  forall i x, real_at ins i x -> takes_label (get_opcode x) = true ->
    exists p, zread ins p = Some (Label (dst_name x)) /\ find_next_real_instruction ins p < zlen ins.

(** What assembling leaves behind. *)
Record assembled (fid : Z) (ins : list ptx_instruction) (f : code) (g g' : loader) : Prop := {
  as_ins : m_instructions f = ins;
  as_start : m_start_PC f = g_assemble_code_next_pc g + g_assemble_code_next_pc g mod MAX_INST_SIZE;
  as_len : zlen (m_instr_mem f) = instr_mem_size ins;
  as_mem : forall j x, real_at ins j x -> zread (m_instr_mem f) (offset ins j) = Some (At j);
  as_null : forall j x k, real_at ins j x -> offset ins j < k < offset ins j + inst_size x -> zread (m_instr_mem f) k = Some Null;
  as_unset : forall k, bytes ins <= k < instr_mem_size ins -> zread (m_instr_mem f) k = Some Unset;
  as_index : forall j x, real_at ins j x -> m_instr_mem_index f !! j = Some (offset ins j);
  as_pcs : forall j x, real_at ins j x -> get_PC f j = m_start_PC f + offset ins j;
  as_labels : forall name n, labels f !! name = Some n <-> exists p, zread ins p = Some (Label name) /\ n = offset ins p;
  as_addresses : forall j x p, real_at ins j x -> takes_label (get_opcode x) = true -> zread ins p = Some (Label (dst_name x)) ->
    label_address f !! dst_name x = Some (get_PC f (find_next_real_instruction ins p));
  as_next : g_assemble_code_next_pc g' = m_start_PC f + bytes ins;
  as_loader : loader_ok g';
  as_table : forall j x, real_at ins j x -> pc_to_instruction g' (m_start_PC f + offset ins j) = Some (fid, j);
  as_table_old : forall pc, pc < g_assemble_code_next_pc g -> pc_to_instruction g' pc = pc_to_instruction g pc;
  as_finfo : forall j x, real_at ins j x -> g_pc_to_finfo g' !! (m_start_PC f + offset ins j) = Some fid;
  as_finfo_old : forall pc, pc < m_start_PC f -> g_pc_to_finfo g' !! pc = g_pc_to_finfo g !! pc }.

Section resolving.
Context (ins : list ptx_instruction) (start : Z) (Hc : code_ok ins start) (Ht : targets_ok ins).

Context (f0 : code) (Hins : m_instructions f0 = ins).
Context (Hmem : forall j x, real_at ins j x -> zread (m_instr_mem f0) (offset ins j) = Some (At j)).
Context (Hlab : forall name n, labels f0 !! name = Some n <-> exists p, zread ins p = Some (Label name) /\ n = offset ins p).

(** The addresses entered before instruction [i]. *)
Definition entered (i : Z) (a : gmap string Z) : Prop := forall j x p, j < i -> real_at ins j x -> takes_label (get_opcode x) = true ->
  zread ins p = Some (Label (dst_name x)) -> a !! dst_name x = Some (get_PC f0 (find_next_real_instruction ins p)).

Lemma resolve_ok i x a : entered i a -> real_at ins i x ->
  exists a', resolve x (with_addresses f0 a) = Ok (with_addresses f0 a') /\ entered (i + 1) a'.
Proof using Hc Ht Hmem Hlab.
  intros Ha Hx. unfold resolve. destruct (takes_label (get_opcode x)) eqn:Et.
  - destruct (Ht i x Hx Et) as (p & Hp & Hlt). pose proof (zread_range _ _ _ Hp) as Hpr.
    pose proof (find_next_real_spec ins p ltac:(lia)) as Hn. simpl.
    rewrite (proj2 (Hlab (dst_name x) (offset ins p))) by (by exists p).
    destruct (nr_real _ _ _ Hn Hlt) as [y Hy]. rewrite <- (offset_next_real ins p _ ltac:(lia) Hn).
    unfold instr_at. simpl. rewrite (proj2 (aread_ok _ _ _) (Hmem _ _ Hy)), !bind_of_ok. eexists. split; [done|].
    intros j z q Hj Hz Hzt Hq. simpl. destruct (decide (dst_name x = dst_name z)) as [E|Hne].
    + rewrite E, lookup_insert_eq. rewrite <- E in Hq. by rewrite (ck_labels _ _ Hc p q _ Hp Hq).
    + rewrite lookup_insert_ne by done. apply (Ha j); try done. destruct (Z.eq_dec j i) as [->|]; [|lia].
      destruct Hx, Hz. congruence.
  - exists a. split; [done|]. intros j z q Hj Hz Hzt Hq. apply (Ha j); try done.
    destruct (Z.eq_dec j i) as [->|]; [|lia]. destruct Hx, Hz. congruence.
Qed.

Lemma resolve_all_ok fuel i a : next_real ins i i -> 0 <= i -> zlen ins - i <= Z.of_nat fuel -> entered i a ->
  exists a', resolve_all fuel (bytes ins) (offset ins i) (with_addresses f0 a) = Ok (with_addresses f0 a') /\ entered (zlen ins) a'.
Proof using All.
  revert i a. induction fuel as [|fuel IH]; intros i a Hn Hi Hf Hr; pose proof (nr_range _ _ _ Hn) as Hb.
  - assert (i = zlen ins) as -> by lia. exists a. split; [|done]. simpl. by rewrite offset_end, Z.ltb_irrefl.
  - destruct (Z.eq_dec i (zlen ins)) as [->|Hne].
    { exists a. split; [|done]. simpl. by rewrite offset_end, Z.ltb_irrefl. }
    destruct (nr_real _ _ _ Hn ltac:(lia)) as [x Hx]. pose proof (size_pos _ _ Hc i x Hx) as Hs.
    pose proof (offset_succ ins i x (proj1 Hx)) as Ho. unfold code_size in Ho. rewrite (proj2 Hx) in Ho.
    pose proof (offset_range ins start Hc (i + 1) ltac:(lia)) as Hor. pose proof (offset_range ins start Hc i ltac:(lia)) as Hor0.
    simpl. rewrite (proj2 (Z.ltb_lt _ _)) by lia.
    unfold instr_at at 1, instruction at 1. simpl. rewrite (proj2 (aread_ok _ _ _) (Hmem _ _ Hx)), !bind_of_ok.
    rewrite Hins, (proj2 (aread_ok _ _ _) (proj1 Hx)), bind_of_ok.
    destruct (resolve_ok i x a Hr Hx) as (a1 & -> & Hr1). rewrite bind_of_ok.
    pose proof (find_next_real_spec ins (i + 1) ltac:(lia)) as Hj. set (j := find_next_real_instruction ins (i + 1)) in *.
    pose proof (nr_range _ _ _ Hj) as Hjb. pose proof (ck_fits _ _ Hc). pose proof (ck_start _ _ Hc).
    assert (u32 (offset ins i + inst_size x) = offset ins j) as ->.
    { rewrite (offset_next_real ins (i + 1) j ltac:(lia) Hj), Ho. unfold u32, uwrap. apply Z.mod_small. lia. }
    apply IH; [|lia|lia|].
    + split; [lia|lia|]. apply Hj.
    + intros k y q Hk Hy. apply (Hr1 k); [|done]. destruct (decide (k < i + 1)) as [|Hge]; [done|].
      destruct (nr_labels _ _ _ Hj k) as [name Hname]; [lia|]. destruct Hy. by simplify_eq.
Qed.
End resolving.

(** The first instruction of the function is at offset 0, behind any labels. *)
Lemma resolve_first ins start f0 : code_ok ins start -> targets_ok ins -> m_instructions f0 = ins ->
  (forall j x, real_at ins j x -> zread (m_instr_mem f0) (offset ins j) = Some (At j)) ->
  (forall name n, labels f0 !! name = Some n <-> exists p, zread ins p = Some (Label name) /\ n = offset ins p) ->
  exists a, resolve_all (length ins) (bytes ins) 0 f0 = Ok (with_addresses f0 a) /\ entered ins f0 (zlen ins) a.
Proof.
  intros Hc Ht Hins Hmem Hlab. pose proof (find_next_real_spec ins 0) as Hn. pose proof (zlen_nonneg ins).
  specialize (Hn ltac:(lia)). set (j := find_next_real_instruction ins 0) in *. pose proof (nr_range _ _ _ Hn).
  assert (f0 = with_addresses f0 (label_address f0)) as E by (by destruct f0).
  assert (offset ins j = 0) as E0 by (by rewrite (offset_next_real ins 0 j ltac:(lia) Hn)).
  pose proof (resolve_all_ok ins start Hc Ht f0 Hins Hmem Hlab (length ins) j (label_address f0)) as H1. rewrite <- E, E0 in H1. apply H1.
  - split; [lia|lia|]. apply Hn.
  - lia.
  - unfold zlen in *. lia.
  - intros k x p Hk [Hx Hr]. pose proof (zread_range _ _ _ Hx). destruct (nr_labels _ _ _ Hn k) as [name Hname]; [lia|]. by simplify_eq.
Qed.

Lemma assemble_ok fid ins g : loader_ok g -> code_ok ins (g_assemble_code_next_pc g + g_assemble_code_next_pc g mod MAX_INST_SIZE) ->
  targets_ok ins -> exists f g', assemble fid ins g = Ok (f, g') /\ assembled fid ins f g g'.
Proof.
  intros Hg Hc Ht. destruct (place_function_ok fid ins g Hg Hc) as (st & E & Hst & Hnext). unfold assemble. rewrite E, bind_of_ok.
  assert (forall j x, real_at ins j x -> j < zlen ins) as Hlt by (intros j x [Hx _]; apply zread_range in Hx; lia).
  pose proof Hst as []. rewrite offset_end in *. rewrite pl_n0.
  destruct (resolve_first ins _ (p_code st) Hc Ht pl_ins0) as (a & -> & Ha).
  { intros j x Hx. by apply (pl_mem0 j x); [eapply Hlt|]. }
  { intros name n. rewrite pl_labels0. split; [naive_solver|]. intros (p & Hp & Hn). exists p. split_and!; [apply zread_range in Hp; lia|done|done]. }
  rewrite bind_of_ok. eexists _, _. split; [done|]. pose proof (ck_start _ _ Hc) as Hs0.
  split; simpl; rewrite ?pl_start0; try done.
  - intros j x Hx. by apply (pl_mem0 j x); [eapply Hlt|].
  - intros j x k Hx. by apply (pl_null0 j x); [eapply Hlt|].
  - intros j x Hx. by apply (pl_index0 j x); [eapply Hlt|].
  - intros j x Hx. unfold get_PC. simpl. by rewrite (pl_pcs0 j x (Hlt _ _ Hx) Hx).
  - intros name n. rewrite pl_labels0. split; [naive_solver|]. intros (p & Hp & Hn). exists p. split_and!; [apply zread_range in Hp; lia|done|done].
  - intros j x p Hx. by apply (Ha j x p); [eapply Hlt|].
  - by rewrite Hnext.
  - split; rewrite ?Hnext, ?pl_PC0, ?pl_table_len0; [|done].
    pose proof (offset_range ins _ Hc (zlen ins) ltac:(pose proof (zlen_nonneg ins); lia)) as Hr. rewrite offset_end in Hr. lia.
  - intros j x Hx. unfold pc_to_instruction. by rewrite (pl_table0 j x (Hlt _ _ Hx) Hx).
  - intros pc Hpc. unfold pc_to_instruction. destruct Hg as [Hg1 Hg2]. rewrite pl_table_old0 by (unfold MAX_INST_SIZE; lia). by rewrite zread_app_l by lia.
  - intros j x Hx. by apply (pl_finfo0 j x); [eapply Hlt|].
Qed.

(** C30: Assembling a function whose labels are unique and whose branches go to labels
    in front of instructions succeeds: the address an instruction gets leads back to it,
    in the memory of the function and in the table of all instructions; the instruction
    that follows has the next address; a branch label has the address of the instruction
    behind it; the addresses of functions assembled before lead where they did; and a
    function starts at a multiple of 8 when the one before ended at a multiple of 4. *)
Theorem assembly_roundtrip fid ins g : loader_ok g ->
  code_ok ins (g_assemble_code_next_pc g + g_assemble_code_next_pc g mod MAX_INST_SIZE) -> targets_ok ins ->
  exists f g', assemble fid ins g = Ok (f, g') /\ loader_ok g' /\
    (forall i x, real_at ins i x ->
       get_instruction f (get_PC f i) = Ok (At i) /\ pc_to_instruction g' (get_PC f i) = Some (fid, i) /\
       g_pc_to_finfo g' !! get_PC f i = Some fid /\ g_assemble_code_next_pc g <= get_PC f i < g_assemble_code_next_pc g' /\
       (forall j y, real_at ins j y -> next_real ins (i + 1) j -> get_PC f j = get_PC f i + inst_size x) /\
       (forall p, takes_label (get_opcode x) = true -> zread ins p = Some (Label (dst_name x)) ->
          label_address f !! dst_name x = Some (get_PC f (find_next_real_instruction ins p)))) /\
    (forall pc, pc < g_assemble_code_next_pc g ->
       pc_to_instruction g' pc = pc_to_instruction g pc /\ g_pc_to_finfo g' !! pc = g_pc_to_finfo g !! pc) /\
    (g_assemble_code_next_pc g mod 4 = 0 -> m_start_PC f mod MAX_INST_SIZE = 0).
Proof.
  intros Hg Hc Ht. destruct (assemble_ok fid ins g Hg Hc Ht) as (f & g' & E & []). exists f, g'.
  pose proof (ck_start _ _ Hc) as Hs0. pose proof (ck_fits _ _ Hc) as Hfit. rewrite as_start0 in *.
  assert (0 <= g_assemble_code_next_pc g mod MAX_INST_SIZE) as Hm by (unfold MAX_INST_SIZE; lia).
  split_and!; [done|done| | |].
  - intros i x Hx. pose proof (zread_range _ _ _ (proj1 Hx)) as Hi. pose proof (size_pos _ _ Hc i x Hx) as Hsz.
    pose proof (offset_range ins _ Hc i ltac:(lia)) as Ho. pose proof (offset_range ins _ Hc (i + 1) ltac:(lia)) as Ho1.
    pose proof (offset_memory ins _ Hc i ltac:(lia)) as Hmem. pose proof (offset_succ ins i x (proj1 Hx)) as Hsucc.
    unfold code_size in Hsucc. rewrite (proj2 Hx) in Hsucc. rewrite (as_pcs0 i x Hx).
    split_and!; [|by eapply as_table0|by eapply as_finfo0|destruct Hg; lia|rewrite as_next0; lia| |].
    + unfold get_instruction. rewrite as_start0, as_ins0. replace (_ + _ - _) with (offset ins i) by lia.
      unfold u32, uwrap. rewrite Z.mod_small by lia. rewrite (proj2 (Z.ltb_lt _ _)) by (unfold instr_mem_size, MAX_INST_SIZE in *; lia).
      apply aread_ok. by eapply as_mem0.
    + intros j y Hy Hn. rewrite (as_pcs0 j y Hy), (offset_next_real ins (i + 1) j ltac:(lia) Hn). lia.
    + intros p. by eapply as_addresses0.
  - intros pc Hpc. split; [by apply as_table_old0|]. apply as_finfo_old0. lia.
  - unfold MAX_INST_SIZE. intros H4. lia.
Qed.

(** * Deciding the conditions *)

Definition code_okb (ins : list ptx_instruction) (start : Z) : bool :=
  forallb (fun x => is_label x || ((1 <=? inst_size x) && (inst_size x <=? MAX_INST_SIZE))) ins &&
  forallb (fun p => forallb (fun q =>
    match zread ins p, zread ins q with
    | Some (Label a), Some (Label b) => (p =? q) || negb (bool_decide (a = b))
    | _, _ => true
    end) (seqZ 0 (zlen ins))) (seqZ 0 (zlen ins)) &&
  (0 <=? start) && (start + bytes ins <? 2 ^ 32).
Definition targets_okb (ins : list ptx_instruction) : bool :=
  forallb (fun x => is_label x || negb (takes_label (get_opcode x)) ||
    existsb (fun p => bool_decide (Label (dst_name x) ∈ option_list (zread ins p)) && (find_next_real_instruction ins p <? zlen ins))
      (seqZ 0 (zlen ins))) ins.

Lemma forallb_elem {A} (P : A → bool) l x : forallb P l = true -> x ∈ l -> P x = true.
Proof. rewrite forallb_forall. intros H Hx. by apply H, list_elem_of_In. Qed.

Lemma code_okb_true ins start : code_okb ins start = true -> code_ok ins start.
Proof.
  intros H. unfold code_okb in H. to_prop. split; [| |lia|lia].
  - intros x Hx Hr. pose proof (forallb_elem _ _ x ltac:(done) Hx) as Hs. simpl in Hs. rewrite Hr in Hs. to_prop. lia.
  - intros p q name Hp Hq. pose proof (zread_range _ _ _ Hp). pose proof (zread_range _ _ _ Hq).
    pose proof (forallb_elem _ _ p H2 ltac:(apply elem_of_seqZ; lia)) as Hs. simpl in Hs.
    pose proof (forallb_elem _ _ q Hs ltac:(apply elem_of_seqZ; lia)) as Hs'. simpl in Hs'. rewrite Hp, Hq in Hs'.
    rewrite bool_decide_eq_true_2 in Hs' by done. to_prop. destruct Hs'; [lia|done].
Qed.
Lemma targets_okb_true ins : targets_okb ins = true -> targets_ok ins.
Proof.
  intros H i x [Hx Hr] Ht. pose proof (forallb_elem _ _ x H ltac:(by eapply zread_elem_of)) as Hs. simpl in Hs.
  rewrite Hr, Ht in Hs. simpl in Hs. apply existsb_exists in Hs as (p & _ & Hp). to_prop. exists p. split; [|done].
  destruct (zread ins p); simpl in *; [|by apply elem_of_nil in H0]. apply list_elem_of_singleton in H0. by subst.
Qed.

(** * A small function

    A loop behind a test. *)

Definition demo_code : list ptx_instruction :=
  [Insn (OTHER_OP 1) false "r1" 8; Insn BRA_OP true "done" 8; Label "loop"; Insn (OTHER_OP 2) false "r2" 4;
   Insn BRA_OP true "loop" 4; Label "done"; Insn EXIT_OP false "" 8].

Lemma demo_code_ok : code_ok demo_code 0.
Proof. apply code_okb_true. vm_compute. reflexivity. Qed.
Lemma demo_targets_ok : targets_ok demo_code.
Proof. apply targets_okb_true. vm_compute. reflexivity. Qed.

Lemma assembly_roundtrip_witness :
  exists f g', assemble 1 demo_code loader_new = Ok (f, g') /\ loader_ok g' /\
    get_instruction f (get_PC f 4) = Ok (At 4) /\ pc_to_instruction g' (get_PC f 4) = Some (1, 4).
Proof.
  destruct (assembly_roundtrip 1 demo_code loader_new) as (f & g' & E & Hg & Hi & _ & _).
  - by split.
  - exact demo_code_ok.
  - exact demo_targets_ok.
  - exists f, g'. split; [exact E|]. split; [exact Hg|]. destruct (Hi 4 (Insn BRA_OP true "loop" 4)) as (H1 & H2 & _); [by split|].
    by split.
Defined.

(** A branch to a label that is not there stops the simulator. *)
Example missing_label_stops : assemble 1 [Insn BRA_OP false "nowhere" 8] loader_new = Err ErrorMsg.
Proof. vm_compute. reflexivity. Qed.

(** A branch to a label behind the last instruction reads memory nothing was stored in. *)
Example trailing_label_faults : assemble 1 [Insn BRA_OP false "end" 8; Label "end"] loader_new = Err BadAccess.
Proof. vm_compute. reflexivity. Qed.
