(* ===== verification/BasicBlocks.v ===== *)
(** * Basic blocks

    [cuda-sim/ptx_ir.cc]: a function is cut into basic blocks, the blocks are linked by
    what their last instructions do, and the breaks are linked to the targets that
    dominating instructions set.  [ptx_assemble] of [cuda-sim/cuda-sim.cc] puts these and
    the flow analysis together, and [get_converge_point] looks up where the threads that
    a branch divides meet again. *)

From stdpp Require Import strings.
From S2P Require Import Prelude Dominators Assemble.
#[local] Open Scope Z_scope.

(** * Cutting *)

(** The instructions after which a block ends. *)
Definition ends_block (x : ptx_instruction) : bool :=
  match get_opcode x with
  | BRA_OP | RET_OP | EXIT_OP | RETP_OP | BREAK_OP => true
  | CALL_OP | CALLP_OP => has_pred x
  | _ => false
  end.

Fixpoint find_leaders (fuel : nat) (ins : list ptx_instruction) (i : Z) (leaders : list Z) : outcome (list Z) :=
  match zread ins i with
  | None => mret leaders
  | Some pI =>
      match fuel with
      | O => Err OutOfFuel
      | S fuel' =>
          if is_label pI then find_leaders fuel' ins (find_next_real_instruction ins (i + 1)) (leaders ++ [i])
          else if ends_block pI then
            let i := i + 1 in
            find_leaders fuel' ins (find_next_real_instruction ins i) (if i <? zlen ins then leaders ++ [i] else leaders)
          else find_leaders fuel' ins (i + 1) leaders
      end
  end.

(** The variables of the second loop: the blocks, the block of every instruction, the
    leaders still to come and the last instruction. *)
Record building := mkBuilding {
  b_blocks : list basic_block_t;
  b_bb : gmap Z Z;
  b_leaders : list Z;
  b_last : Z }.

(** [m_basic_blocks.back()->ptx_end = last_real_inst] *)
Definition end_back (bs : list basic_block_t) (last : Z) : outcome (list basic_block_t) :=
  b ← aread bs (zlen bs - 1);
  awrite bs (zlen bs - 1) (set_end b (Some last)).

(** Where a leader is met. *)
Definition start_block (ins : list ptx_instruction) (i : Z) (st : building) : outcome building :=
  match b_leaders st with
  | l :: rest =>
      if i =? l then
        bs ← end_back (b_blocks st) (b_last st);
        let j := find_next_real_instruction ins i in
        if j <? zlen ins then mret (mkBuilding (bs ++ [basic_block_new (zlen bs) (Some j) None false false]) (b_bb st) rest j)
        else mret (mkBuilding bs (b_bb st) rest (b_last st))
      else mret st
  | [] => mret st
  end.

Fixpoint build_blocks (ins : list ptx_instruction) (i : Z) (l : list ptx_instruction) (st : building) : outcome building :=
  match l with
  | [] => mret st
  | pI :: l' =>
      st ← start_block ins i st;
      build_blocks ins (i + 1) l'
        (mkBuilding (b_blocks st) (<[i := zlen (b_blocks st) - 1]> (b_bb st)) (b_leaders st) (if is_label pI then b_last st else i))
  end.

Definition create_basic_blocks (ins : list ptx_instruction) : outcome (list basic_block_t * gmap Z Z) :=
  first ← aread ins 0;
  leaders ← find_leaders (length ins) ins 1 [0];
  let j := find_next_real_instruction ins 0 in
  begin_ ← aread ins j;
  st ← build_blocks ins 0 ins (mkBuilding [basic_block_new 0 (Some j) None true false] ∅ (tail leaders) 0);
  bs ← end_back (b_blocks st) (b_last st);
  mret (bs ++ [basic_block_new (zlen bs) None None false true], b_bb st).

(** * Linking *)

Record function_info := mkFunction {
  fi_code : code;
  m_basic_blocks : list basic_block_t;
  m_basic_block : gmap Z Z }.
Definition with_blocks (f : function_info) (bs : list basic_block_t) : function_info := mkFunction (fi_code f) bs (m_basic_block f).

(** The block of the instruction at [m_instr_mem[addr]]. *)
Definition get_bb (f : function_info) (i : Z) : outcome Z :=
  match m_basic_block f !! i with Some b => mret b | None => Err BadAccess end.
Definition block_at (f : function_info) (addr : Z) : outcome Z := i ← instr_at (fi_code f) addr; get_bb f i.

(** [t] becomes a successor of [h]. *)
Definition link (h t : Z) (f : function_info) : outcome function_info :=
  hb ← aread (m_basic_blocks f) h;
  tb ← aread (m_basic_blocks f) t;
  bs ← awrite (m_basic_blocks f) h (set_links hb (predecessor_ids hb) (sinsert (bb_id tb) (successor_ids hb)));
  tb ← aread bs t;
  bs ← awrite bs t (set_links tb (sinsert (bb_id hb) (predecessor_ids tb)) (successor_ids tb));
  mret (with_blocks f bs).

Definition is_return (op : opcode) : bool := bool_decide (op = RETP_OP \/ op = RET_OP \/ op = EXIT_OP).

(** The link of a predicated return to what follows it. *)
Definition link_after_return (h e : Z) (f : function_info) : outcome function_info :=
  n ← get_m_instr_mem_index (fi_code f) e;
  let next_addr := u32 (n + 1) in
  if next_addr <? instr_mem_size (m_instructions (fi_code f)) then
    w ← aread (m_instr_mem (fi_code f)) next_addr;
    match w with
    | At j => t ← get_bb f j; link h t f
    | Null => mret f
    | Unset => Err BadAccess
    end
  else mret f.

Definition link_next (h e : Z) (x : ptx_instruction) (f : function_info) : outcome function_info :=
  n ← get_m_instr_mem_index (fi_code f) e;
  t ← block_at f (u32 (n + inst_size x));
  link h t f.

Definition link_target (h : Z) (name : string) (f : function_info) : outcome function_info :=
  t ← block_at f (default 0 (labels (fi_code f) !! name));
  link h t f.

Definition connect_block (h : Z) (f : function_info) : outcome function_info :=
  b ← aread (m_basic_blocks f) h;
  if is_exit b then mret f
  else
    match ptx_end b with
    | None => Err BadAccess
    | Some e =>
        x ← instruction (fi_code f) e;
        if is_return (get_opcode x) then
          f ← link h (zlen (m_basic_blocks f) - 1) f;
          if has_pred x then link_after_return h e f else mret f
        else
          f ← (if bool_decide (get_opcode x = BRA_OP) then link_target h (dst_name x) f else mret f);
          if negb (bool_decide (get_opcode x = BRA_OP) && negb (has_pred x)) then link_next h e x f else mret f
    end.

Fixpoint for_blocks (hs : list Z) (body : Z → function_info → outcome function_info) (f : function_info) : outcome function_info :=
  match hs with
  | [] => mret f
  | h :: hs' => f ← body h f; for_blocks hs' body f
  end.
Definition connect_basic_blocks (f : function_info) : outcome function_info :=
  for_blocks (seqZ 0 (zlen (m_basic_blocks f))) connect_block f.

(** * Breaks *)

(** The instructions from [addr] down to [begin_], for one that sets a break target. *)
Fixpoint scan_back (fuel : nat) (c : code) (addr begin_ : Z) : outcome (option string) :=
  if begin_ <=? addr then
    match fuel with
    | O => Err OutOfFuel
    | S fuel' =>
        w ← aread (m_instr_mem c) addr;
        match w with
        | Unset => Err BadAccess
        | Null => scan_back fuel' c (u32 (addr - 1)) begin_
        | At i =>
            x ← instruction c i;
            if bool_decide (get_opcode x = BREAKADDR_OP) then mret (Some (dst_name x)) else scan_back fuel' c (u32 (addr - 1)) begin_
        end
    end
  else mret None.

(** Up the dominator tree from block [p]. *)
Fixpoint find_break_target (fuel : nat) (f : function_info) (p : Z) : outcome string :=
  b ← aread (m_basic_blocks f) p;
  if immediatedominator_id b =? -1 then Err AssertFailed
  else
    match fuel, ptx_end b, ptx_begin b with
    | O, _, _ => Err OutOfFuel
    | S fuel', Some e, Some s =>
        last ← get_m_instr_mem_index (fi_code f) e;
        first ← get_m_instr_mem_index (fi_code f) s;
        found ← scan_back (length (m_instr_mem (fi_code f))) (fi_code f) last first;
        match found with
        | Some name => mret name
        | None => find_break_target fuel' f (immediatedominator_id b)
        end
    | S _, _, _ => Err BadAccess
    end.

(** [successor_bb->predecessor_ids.erase(p_bb->bb_id)] for the successors [ss]. *)
Fixpoint unlink (id : Z) (ss : iset) (bs : list basic_block_t) : outcome (list basic_block_t) :=
  match ss with
  | [] => mret bs
  | s :: ss' =>
      b ← aread bs s;
      bs ← awrite bs s (set_links b (serase id (predecessor_ids b)) (successor_ids b));
      unlink id ss' bs
  end.

(** The second component is [modified]. *)
Definition connect_break (h : Z) (st : function_info * bool) : outcome (function_info * bool) :=
  let '(f, modified) := st in
  b ← aread (m_basic_blocks f) h;
  if is_exit b then mret st
  else
    match ptx_end b with
    | None => Err BadAccess
    | Some e =>
        x ← instruction (fi_code f) e;
        if bool_decide (get_opcode x = BREAK_OP) then
          let orig_successor_ids := successor_ids b in
          bs ← unlink (bb_id b) orig_successor_ids (m_basic_blocks f);
          b1 ← aread bs h;
          bs ← awrite bs h (set_links b1 (predecessor_ids b1) []);
          let f := with_blocks f bs in
          p ← get_bb f e;
          target ← find_break_target (length bs) f p;
          f ← link_target h target f;
          f ← (if has_pred x then link_next h e x f else mret f);
          b2 ← aread (m_basic_blocks f) h;
          mret (f, modified || negb (bool_decide (orig_successor_ids = successor_ids b2)))
        else mret st
    end.
Fixpoint break_blocks (hs : list Z) (st : function_info * bool) : outcome (function_info * bool) :=
  match hs with
  | [] => mret st
  | h :: hs' => st ← connect_break h st; break_blocks hs' st
  end.
Definition connect_break_targets (f : function_info) : outcome (function_info * bool) :=
  break_blocks (seqZ 0 (zlen (m_basic_blocks f))) (f, false).

(** * The whole assembly *)

(** [do { ... } while (modified)] *)
Fixpoint settle_breaks (fuel : nat) (f : function_info) : outcome function_info :=
  match fuel with
  | O => Err OutOfFuel
  | S fuel' =>
      bs ← find_dominators (m_basic_blocks f);
      bs ← find_idominators bs;
      '(f, modified) ← connect_break_targets (with_blocks f bs);
      if (modified : bool) then settle_breaks fuel' f else mret f
  end.

Definition ptx_assemble (fuel : nat) (fid : Z) (ins : list ptx_instruction) (g : loader) : outcome (function_info * loader) :=
  '(c, g) ← assemble fid ins g;
  '(bs, bb) ← create_basic_blocks ins;
  f ← connect_basic_blocks (mkFunction c bs bb);
  f ← settle_breaks fuel f;
  bs ← find_postdominators (m_basic_blocks f);
  bs ← find_ipostdominators bs;
  mret (with_blocks f bs, g).

(** * Reconvergence points *)

Record gpgpu_recon_t := mkRecon { source_pc : Z; target_pc : Z; source_inst : Z; target_inst : option Z }.

(** The value of the [-2] that stands for the return of the function. *)
Definition RETURN_POINT : Z := u32 (-2).
Definition NO_BRANCH_DIVERGENCE : Z := u32 (-1).

Fixpoint recon_pairs (f : function_info) (bs : list basic_block_t) : outcome (list gpgpu_recon_t) :=
  match bs with
  | [] => mret []
  | b :: bs' =>
      match ptx_end b with
      | None => Err BadAccess
      | Some e =>
          x ← instruction (fi_code f) e;
          if bool_decide (get_opcode x = BRA_OP) then
            d ← aread (m_basic_blocks f) (immediatepostdominator_id b);
            let pc := get_PC (fi_code f) e in
            rest ← recon_pairs f bs';
            mret (match ptx_begin d with
                  | Some j => mkRecon pc (get_PC (fi_code f) j) e (Some j)
                  | None => mkRecon pc RETURN_POINT e None
                  end :: rest)
          else recon_pairs f bs'
      end
  end.
Definition get_reconvergence_pairs (f : function_info) : outcome (list gpgpu_recon_t) :=
  match m_basic_blocks f with
  | [] => mret []
  | bs => recon_pairs f (take (length bs - 1) bs)
  end.

(** The search through the pairs of the function at [pc]. *)
Definition converge_in (rs : list gpgpu_recon_t) (pc : Z) : Z :=
  match find (fun r => source_pc r =? pc) rs with
  | Some r => target_pc r
  | None => NO_BRANCH_DIVERGENCE
  end.
Definition get_converge_point (fs : gmap Z function_info) (g : loader) (pc : Z) : outcome Z :=
  match g_pc_to_finfo g !! pc with
  | None => Err AssertFailed
  | Some fid =>
      match fs !! fid with
      | None => Err BadAccess
      | Some f => rs ← get_reconvergence_pairs f; mret (converge_in rs pc)
      end
  end.
