(* ===== verification/FlowGraph.v ===== *)
(** * The flow graph of a function

    What [create_basic_blocks] and [connect_basic_blocks] compute: the blocks are the runs
    of instructions without a label inside and without a transfer of control before the
    end, and their links are what the last instructions do. *)

From stdpp Require Import strings.
From S2P Require Import Prelude Dominators Assemble BasicBlocks.
#[local] Open Scope Z_scope.

(** * Leaders *)

(** A block starts behind an instruction that ends one and at the first of some labels. *)
Definition leads (ins : list ptx_instruction) (i : Z) : bool :=
  match zread ins (i - 1), zread ins i with
  | Some p, Some x => ends_block p || (is_label x && negb (is_label p))
  | _, _ => false
  end.

(** The first instruction is not looked at: it must not end a block, unless a label
    follows, and it must not be the first of two labels. *)
Definition first_ok (ins : list ptx_instruction) : Prop :=
  zlen ins > 0 /\ forall x y, zread ins 0 = Some x -> zread ins 1 = Some y ->
    (ends_block x = true -> is_label y = true) /\ (is_label y = true -> is_label x = false).

Lemma label_no_end x : is_label x = true -> ends_block x = false.
Proof. by destruct x. Qed.

Lemma leads_prev ins i : leads ins i = true -> exists x, real_at ins (i - 1) x.
Proof.
  unfold leads. destruct (zread ins (i - 1)) as [p|] eqn:Hp; [|done]. destruct (zread ins i) as [x|]; [|done].
  intros H. exists p. split; [done|]. destruct (is_label p) eqn:El; [|done].
  rewrite label_no_end in H by done. by rewrite andb_false_r in H.
Qed.
Lemma leads_after_label ins i name : zread ins (i - 1) = Some (Label name) -> leads ins i = false.
Proof. intros H. unfold leads. rewrite H. destruct (zread ins i); [|done]. simpl. apply andb_false_r. Qed.
Lemma leads_after_end ins i x y : zread ins i = Some x -> zread ins (i + 1) = Some y -> ends_block x = true -> leads ins (i + 1) = true.
Proof. intros Hx Hy He. unfold leads. replace (i + 1 - 1) with i by lia. by rewrite Hx, Hy, He. Qed.
Lemma leads_range ins i : leads ins i = true -> 0 < i < zlen ins.
Proof.
  unfold leads. destruct (zread ins (i - 1)) eqn:Hp; [|done]. destruct (zread ins i) eqn:Hx; [|done].
  apply zread_range in Hp, Hx. lia.
Qed.

(** The leaders before position [m]. *)
Definition leaders_to (ins : list ptx_instruction) (m : Z) : list Z := filter (fun k => leads ins k = true) (seqZ 1 (m - 1)).

Lemma seqZ_snoc a n : 0 <= n -> seqZ a (n + 1) = seqZ a n ++ [a + n].
Proof. intros Hn. rewrite seqZ_app by lia. done. Qed.
Lemma leaders_to_S ins m : 1 <= m -> leaders_to ins (m + 1) = leaders_to ins m ++ (if leads ins m then [m] else []).
Proof.
  intros Hm. unfold leaders_to. replace (m + 1 - 1) with (m - 1 + 1) by lia. rewrite seqZ_snoc, filter_app by lia. f_equal.
  replace (1 + (m - 1)) with m by lia. rewrite filter_cons. destruct (leads ins m); [by rewrite decide_True|by rewrite decide_False].
Qed.
Lemma leaders_to_gap ins m m' : 1 <= m <= m' -> (forall k, m <= k < m' -> leads ins k = false) -> leaders_to ins m' = leaders_to ins m.
Proof.
  intros Hm H. replace m' with (m + Z.of_nat (Z.to_nat (m' - m))) by lia.
  assert (m + Z.of_nat (Z.to_nat (m' - m)) <= m') as Hb by lia. revert Hb. generalize (Z.to_nat (m' - m)). intros k.
  induction k as [|k IH]; intros Hb; [by rewrite Z.add_0_r|].
  replace (m + Z.of_nat (S k)) with (m + Z.of_nat k + 1) by lia. rewrite leaders_to_S, H, app_nil_r by lia. apply IH. lia.
Qed.

(** Labels behind a label, and the instruction behind them, lead nothing. *)
Lemma no_leader_in_labels ins i j name : 0 <= i -> zread ins i = Some (Label name) -> next_real ins (i + 1) j ->
  forall k, i + 1 <= k < j + 1 -> leads ins k = false.
Proof.
  intros Hi Hx Hn k Hk. destruct (Z.eq_dec k (i + 1)) as [->|Hne].
  - eapply leads_after_label. by replace (i + 1 - 1) with i by lia.
  - destruct (nr_labels _ _ _ Hn (k - 1)) as [name' Hn']; [lia|]. by eapply leads_after_label.
Qed.

(** How far the list of leaders is complete when the loop stands at [i]. *)
Definition looked_at (ins : list ptx_instruction) (i : Z) : Z :=
  match zread ins i with Some x => if is_label x then i else i + 1 | None => i end.

Lemma looked_at_next ins i j : 0 <= i -> next_real ins i j -> looked_at ins j = if j <? zlen ins then j + 1 else j.
Proof.
  intros Hi Hn. unfold looked_at. destruct (Z.ltb_spec j (zlen ins)) as [Hlt|Hge].
  - destruct (nr_real _ _ _ Hn Hlt) as (x & -> & ->). done.
  - rewrite zread_none; [done|lia].
Qed.

Lemma find_leaders_ok fuel ins i : 1 <= i <= zlen ins -> zlen ins - i <= Z.of_nat fuel ->
  (forall name, zread ins i = Some (Label name) -> leads ins i = true) ->
  find_leaders fuel ins i (0 :: leaders_to ins (looked_at ins i)) = Ok (0 :: leaders_to ins (zlen ins)).
Proof.
  revert i. induction fuel as [|fuel IH]; intros i Hi Hf Hl.
  { assert (i = zlen ins) as -> by lia. simpl. unfold looked_at. by rewrite !zread_none by lia. }
  destruct (Z.eq_dec i (zlen ins)) as [->|Hne].
  { simpl. unfold looked_at. by rewrite !zread_none by lia. }
  destruct (zread_is_some ins i) as [x Hx]; [lia|]. cbn [find_leaders]. cbv zeta. rewrite Hx.
  assert (looked_at ins i = if is_label x then i else i + 1) as -> by (unfold looked_at; by rewrite Hx).
  pose proof (find_next_real_spec ins (i + 1) ltac:(lia)) as Hn. set (j := find_next_real_instruction ins (i + 1)) in *.
  pose proof (nr_range _ _ _ Hn) as Hj.
  assert (forall name, zread ins j <> Some (Label name)) as Hnl.
  { intros name E. pose proof (zread_range _ _ _ E). destruct (nr_real _ _ _ Hn ltac:(lia)) as (y & Hy & Hr). by simplify_eq. }
  assert (forall m, i + 1 <= m -> (forall k, m <= k < j + 1 -> leads ins k = false) -> m <= j + 1 ->
    leaders_to ins (looked_at ins j) = leaders_to ins m) as Hgap.
  { intros m Hm Hk Hmj. rewrite (looked_at_next ins (i + 1) j ltac:(lia) Hn). destruct (Z.ltb_spec j (zlen ins)).
    - apply leaders_to_gap; [lia|]. intros k Hk'. apply Hk. lia.
    - destruct (decide (m <= j)); [apply leaders_to_gap; [lia|]; intros k Hk'; apply Hk; lia|].
      assert (m = j + 1) as -> by lia. symmetry. apply leaders_to_gap; [lia|]. intros k Hk'. assert (k = j) as -> by lia.
      destruct (leads ins j) eqn:E; [|done]. apply leads_range in E. lia. }
  destruct (is_label x) eqn:El.
  - destruct x as [name|]; [|done].
    assert ((0 :: leaders_to ins i) ++ [i] = 0 :: leaders_to ins (looked_at ins j)) as ->.
    { simpl. f_equal. rewrite (Hgap (i + 1)); [|lia| |lia]; [by rewrite leaders_to_S, (Hl name Hx) by lia|].
      intros k Hk. eapply no_leader_in_labels; [|exact Hx|exact Hn|]; lia. }
    apply IH; [lia|lia|]. intros name' E. by apply Hnl in E.
  - destruct (ends_block x) eqn:Ee.
    + assert (0 :: leaders_to ins (looked_at ins j) =
        if i + 1 <? zlen ins then (0 :: leaders_to ins (i + 1)) ++ [i + 1] else 0 :: leaders_to ins (i + 1)) as <-.
      { destruct (Z.ltb_spec (i + 1) (zlen ins)).
        - simpl. f_equal. destruct (zread_is_some ins (i + 1)) as [y Hy]; [lia|].
          rewrite (Hgap (i + 1 + 1)); [|lia| |lia].
          + rewrite leaders_to_S by lia. by rewrite (leads_after_end ins i x y Hx Hy Ee).
          + intros k Hk. destruct (Z.eq_dec j (i + 1)); [lia|]. destruct (nr_labels _ _ _ Hn (i + 1)) as [name Hname]; [lia|].
            apply (no_leader_in_labels ins (i + 1) j name); [lia|done| |lia]. destruct Hn as [A1 A2 A3]. split; [lia| |done].
            intros k' Hk'. apply A2. lia.
        - f_equal. apply Hgap; [lia| |lia]. intros k Hk. destruct (leads ins k) eqn:E; [|done]. apply leads_range in E. lia. }
      apply IH; [lia|lia|]. intros name' E. by apply Hnl in E.
    + assert (leaders_to ins (looked_at ins (i + 1)) = leaders_to ins (i + 1)) as <-.
      { unfold looked_at. destruct (zread ins (i + 1)) as [y|] eqn:Hy; [|done]. destruct (is_label y) eqn:Ely; [done|].
        rewrite leaders_to_S by lia. unfold leads. replace (i + 1 - 1) with i by lia. rewrite Hx, Hy, Ee, Ely. simpl. apply app_nil_r. }
      apply IH; [lia|lia|]. intros name Hy. unfold leads. replace (i + 1 - 1) with i by lia. rewrite Hx, Hy, El. simpl. apply orb_true_r.
Qed.

Lemma find_leaders_all ins : first_ok ins -> find_leaders (length ins) ins 1 [0] = Ok (0 :: leaders_to ins (zlen ins)).
Proof.
  intros [Hne Hf]. destruct (zread_is_some ins 0) as [x Hx]; [lia|].
  assert (leaders_to ins (looked_at ins 1) = []) as E.
  { unfold looked_at. destruct (zread ins 1) as [y|] eqn:Hy; [|done]. destruct (is_label y) eqn:Ely; [done|].
    rewrite (leaders_to_S ins 1) by lia. unfold leads. change (1 - 1) with 0. rewrite Hx, Hy, Ely. simpl. destruct (ends_block x) eqn:Ee; [|done].
    destruct (Hf x y Hx eq_refl) as [H1 _]. rewrite H1 in Ely by done. done. }
  rewrite <- E. apply find_leaders_ok; [lia|unfold zlen; lia|]. intros name Hy. unfold leads. change (1 - 1) with 0. rewrite Hx, Hy. simpl.
  destruct (Hf x (Label name) Hx Hy) as [_ H2]. rewrite H2 by done. apply orb_true_r.
Qed.

(** * Blocks *)

(** A leader with an instruction behind it starts a block; [blk] counts them. *)
Definition cut (ins : list ptx_instruction) (k : Z) : bool := leads ins k && (find_next_real_instruction ins k <? zlen ins).
Definition blk (ins : list ptx_instruction) (i : Z) : Z := zlen (filter (fun k => cut ins k = true) (seqZ 1 i)).

Section blocks.
Context (ins : list ptx_instruction).

Lemma blk_0 i : i <= 0 -> blk ins i = 0.
Proof. intros Hi. unfold blk. by rewrite seqZ_nil by lia. Qed.
Lemma blk_S i : 0 <= i -> blk ins (i + 1) = blk ins i + (if cut ins (i + 1) then 1 else 0).
Proof.
  intros Hi. unfold blk. rewrite seqZ_snoc, filter_app, zlen_app by lia. f_equal. replace (1 + i) with (i + 1) by lia.
  rewrite filter_cons. destruct (cut ins (i + 1)); [by rewrite decide_True|by rewrite decide_False].
Qed.
Lemma blk_pred i : 0 < i -> blk ins i = blk ins (i - 1) + (if cut ins i then 1 else 0).
Proof. intros Hi. pose proof (blk_S (i - 1) ltac:(lia)) as H. replace (i - 1 + 1) with i in H by lia. done. Qed.
Lemma blk_mono i j : i <= j -> blk ins i <= blk ins j.
Proof.
  intros Hij. destruct (decide (j <= 0)); [rewrite !blk_0 by lia; lia|].
  assert (forall k a, 0 <= a -> blk ins a <= blk ins (a + Z.of_nat k)) as H.
  { intros k. induction k as [|k IH]; intros a Ha; [rewrite Z.add_0_r; lia|].
    replace (a + Z.of_nat (S k)) with (a + Z.of_nat k + 1) by lia. rewrite blk_S by lia. specialize (IH a Ha).
    destruct (cut ins _); lia. }
  destruct (decide (i <= 0)).
  - rewrite (blk_0 i) by lia. unfold blk. apply zlen_nonneg.
  - specialize (H (Z.to_nat (j - i)) i ltac:(lia)). by replace (i + Z.of_nat (Z.to_nat (j - i))) with j in H by lia.
Qed.
Lemma blk_gap i j : 0 <= i <= j -> (forall k, i < k <= j -> cut ins k = false) -> blk ins j = blk ins i.
Proof.
  intros Hij H. replace j with (i + Z.of_nat (Z.to_nat (j - i))) by lia.
  assert (i + Z.of_nat (Z.to_nat (j - i)) <= j) as Hb by lia. revert Hb. generalize (Z.to_nat (j - i)). intros k.
  induction k as [|k IH]; intros Hb; [by rewrite Z.add_0_r|].
  replace (i + Z.of_nat (S k)) with (i + Z.of_nat k + 1) by lia. rewrite blk_S, H by lia. rewrite Z.add_0_r. apply IH. lia.
Qed.
Lemma cut_leads k : leads ins k = false -> cut ins k = false.
Proof. intros H. unfold cut. by rewrite H. Qed.

Lemma next_real_labels i j name : 0 <= i -> zread ins i = Some (Label name) -> next_real ins i j -> next_real ins (i + 1) j.
Proof.
  intros Hi Hx [A1 A2 A3]. assert (j <> i).
  { intros ->. destruct A3 as (x & Hx' & Hr); [apply zread_range in Hx; lia|]. by simplify_eq. }
  split; [lia| |done]. intros k Hk. apply A2. lia.
Qed.
(** The labels in front of an instruction are in its block. *)
Lemma blk_next_real i j : 0 <= i -> next_real ins i j -> j < zlen ins -> blk ins j = blk ins i.
Proof.
  intros Hi Hn Hj. pose proof (nr_range _ _ _ Hn). apply blk_gap; [lia|]. intros k Hk. apply cut_leads.
  destruct (nr_labels _ _ _ Hn i) as [name Hx]; [lia|].
  apply (no_leader_in_labels ins i j name); [done|done| |lia]. by eapply next_real_labels.
Qed.

Record block_built (b : Z) (B : basic_block_t) (s : Z) : Prop := {
  bk_is : B = set_end (basic_block_new b (Some s) None (b =? 0) false) (ptx_end B);
  bk_real : exists x, real_at ins s x;
  bk_blk : blk ins s = b;
  bk_first : forall k x, real_at ins k x -> blk ins k = b -> s <= k }.
Record block_ended (b e : Z) : Prop := {
  be_real : exists x, real_at ins e x;
  be_blk : blk ins e = b;
  be_last : forall k x, real_at ins k x -> blk ins k = b -> k <= e }.

(** The leaders from position [i] on. *)
Definition leaders_from (i : Z) : list Z := filter (fun k => leads ins k = true) (seqZ i (zlen ins - i)).
Lemma leaders_from_S i : i < zlen ins -> leaders_from i = (if leads ins i then [i] else []) ++ leaders_from (i + 1).
Proof.
  intros Hi. unfold leaders_from. rewrite seqZ_cons by lia. rewrite filter_cons. replace (Z.succ i) with (i + 1) by lia.
  replace (Z.pred (zlen ins - i)) with (zlen ins - (i + 1)) by lia. destruct (leads ins i); [by rewrite decide_True|by rewrite decide_False].
Qed.
Lemma leaders_from_head i l r : leaders_from i = l :: r -> i <= l.
Proof.
  intros E. assert (l ∈ leaders_from i) as Hl by (rewrite E; left). apply list_elem_of_filter in Hl as [_ Hl].
  apply elem_of_seqZ in Hl. lia.
Qed.

(** The state of the second loop before instruction [i]. *)
Record built (i : Z) (st : building) : Prop := {
  bt_count : zlen (b_blocks st) = blk ins (i - 1) + 1;
  bt_bb : forall k, 0 <= k < i -> b_bb st !! k = Some (blk ins k);
  bt_leaders : b_leaders st = leaders_from i;
  bt_blocks : forall b B, zread (b_blocks st) b = Some B -> exists s, block_built b B s /\
    (b < zlen (b_blocks st) - 1 -> exists e, ptx_end B = Some e /\ block_ended b e);
  bt_last : (exists x, real_at ins (b_last st) x /\ b_last st < i /\
               forall k, b_last st < k < i -> cut ins k = false /\ exists name, zread ins k = Some (Label name)) \/
            (exists B s, zread (b_blocks st) (zlen (b_blocks st) - 1) = Some B /\ block_built (zlen (b_blocks st) - 1) B s /\ i <= s) }.

Lemma end_back_ok bs e : 0 < zlen bs -> exists B, zread bs (zlen bs - 1) = Some B /\
  end_back bs e = Ok (zwrite bs (zlen bs - 1) (set_end B (Some e))).
Proof.
  intros Hl. destruct (aread_in bs (zlen bs - 1)) as (B & HB & E); [lia|]. exists B. split; [done|].
  unfold end_back. by rewrite E, bind_of_ok, awrite_in by lia.
Qed.

(** At a leader the last instruction is the one before. *)
Lemma last_at_leader i st : built i st -> leads ins i = true -> b_last st = i - 1.
Proof.
  intros Hb Hl. destruct (leads_prev _ _ Hl) as [x Hx]. pose proof (leads_range _ _ Hl).
  destruct (bt_last _ _ Hb) as [(y & Hy & Hlt & Hk)|(B & s & HB & Hs & Hi)].
  - destruct (Z.eq_dec (b_last st) (i - 1)) as [|Hne]; [done|]. destruct (Hk (i - 1)) as [_ [name Hname]]; [lia|].
    destruct Hx. by simplify_eq.
  - pose proof (bk_first _ _ _ Hs (i - 1) x Hx) as H1. rewrite (bt_count _ _ Hb) in H1. lia.
Qed.
Lemma ended_at_leader i : leads ins i = true -> block_ended (blk ins (i - 1)) (i - 1).
Proof.
  intros Hl. pose proof (leads_range _ _ Hl) as Hi. split; [by apply leads_prev|done|]. intros k x Hk Eb.
  destruct (decide (k <= i - 1)); [done|]. exfalso. pose proof (zread_range _ _ _ (proj1 Hk)). pose proof (blk_mono i k ltac:(lia)) as Hm.
  rewrite (blk_pred i) in Hm by lia. unfold cut in Hm. rewrite Hl in Hm. simpl in Hm.
  destruct (Z.ltb_spec (find_next_real_instruction ins i) (zlen ins)); [lia|].
  pose proof (find_next_real_spec ins i ltac:(lia)) as Hn. destruct (nr_labels _ _ _ Hn k) as [name Hname]; [lia|].
  destruct Hk. by simplify_eq.
Qed.

Lemma block_built_end b B s e : block_built b B s -> block_built b (set_end B e) s.
Proof. intros [H1 H2 H3 H4]. split; [|done|done|done]. rewrite H1. done. Qed.

(** The blocks after [end_back]. *)
Lemma bt_ended i st e : built i st -> block_ended (zlen (b_blocks st) - 1) e ->
  exists bs, end_back (b_blocks st) e = Ok bs /\ zlen bs = zlen (b_blocks st) /\
    (forall b B, zread bs b = Some B -> exists s, block_built b B s /\ exists e', ptx_end B = Some e' /\ block_ended b e').
Proof.
  intros Hb He. pose proof (bt_count _ _ Hb) as Hc. assert (0 <= blk ins (i - 1)) by (unfold blk; apply zlen_nonneg).
  destruct (end_back_ok (b_blocks st) e) as (B & HB & E); [lia|]. eexists. split; [exact E|]. split; [apply zlen_zwrite|].
  intros b B' HB'. rewrite zread_zwrite in HB' by lia. destruct (Z.eqb_spec (zlen (b_blocks st) - 1) b) as [<-|Hne].
  - injection HB' as <-. destruct (bt_blocks _ _ Hb _ _ HB) as (s & Hs & _). exists s. split; [by apply block_built_end|].
    exists e. by split.
  - pose proof (zread_range _ _ _ HB'). destruct (bt_blocks _ _ Hb _ _ HB') as (s & Hs & He'). exists s. split; [done|]. apply He'. lia.
Qed.

Lemma new_block_built i : cut ins i = true -> let j := find_next_real_instruction ins i in
  block_built (blk ins i) (basic_block_new (blk ins i) (Some j) None false false) j.
Proof.
  intros Hc j. unfold cut in Hc. apply andb_true_iff in Hc as [Hl Hj]. apply Z.ltb_lt in Hj. fold j in Hj. pose proof (leads_range _ _ Hl) as Hi.
  pose proof (find_next_real_spec ins i ltac:(lia)) as Hn. fold j in Hn.
  assert (blk ins i = blk ins (i - 1) + 1) as Eb.
  { rewrite (blk_pred i) by lia. unfold cut. fold j. by rewrite Hl, (proj2 (Z.ltb_lt _ _) Hj). }
  assert (0 <= blk ins (i - 1)) by (unfold blk; apply zlen_nonneg).
  split.
  - rewrite (proj2 (Z.eqb_neq (blk ins i) 0)) by lia. done.
  - by apply (nr_real _ _ _ Hn).
  - by apply (blk_next_real i j ltac:(lia) Hn).
  - intros k x Hk Ek. destruct (decide (i <= k)) as [Hik|Hik].
    + destruct (decide (j <= k)); [done|]. destruct (nr_labels _ _ _ Hn k) as [name Hname]; [lia|]. destruct Hk. by simplify_eq.
    + pose proof (blk_mono k (i - 1) ltac:(lia)). lia.
Qed.

Lemma start_block_ok i st : 0 <= i < zlen ins -> built i st ->
  exists st', start_block ins i st = Ok st' /\ zlen (b_blocks st') = blk ins i + 1 /\ b_bb st' = b_bb st /\
    b_leaders st' = leaders_from (i + 1) /\
    (forall b B, zread (b_blocks st') b = Some B -> exists s, block_built b B s /\
      (b < zlen (b_blocks st') - 1 -> exists e, ptx_end B = Some e /\ block_ended b e)) /\
    ((exists x, real_at ins (b_last st') x /\ b_last st' < i /\
        forall k, b_last st' < k <= i -> cut ins k = false /\ exists name, zread ins k = Some (Label name)) \/
     (exists x, real_at ins i x) \/
     (exists B s, zread (b_blocks st') (zlen (b_blocks st') - 1) = Some B /\ block_built (zlen (b_blocks st') - 1) B s /\ i + 1 <= s)).
Proof.
  intros Hi Hb. pose proof (bt_count _ _ Hb) as Hc. unfold start_block. rewrite (bt_leaders _ _ Hb), leaders_from_S by lia.
  destruct (leads ins i) eqn:El; simpl.
  - pose proof (leads_range _ _ El) as Hr. rewrite Z.eqb_refl, (last_at_leader i st Hb El).
    destruct (bt_ended i st (i - 1) Hb) as (bs & -> & Hlen & Hbs); [rewrite Hc, Z.add_simpl_r; by apply ended_at_leader|].
    rewrite bind_of_ok. destruct (Z.ltb_spec (find_next_real_instruction ins i) (zlen ins)) as [Hj|Hj].
    + assert (cut ins i = true) as Ecut by (unfold cut; rewrite El; by apply Z.ltb_lt).
      assert (blk ins i = zlen bs) as Eb by (rewrite (blk_pred i), Ecut by lia; lia).
      pose proof (new_block_built i Ecut) as Hnew. simpl in Hnew. rewrite Eb in Hnew.
      set (j := find_next_real_instruction ins i) in *. eexists. split; [done|]. simpl.
      assert (zlen [basic_block_new (zlen bs) (Some j) None false false] = 1) as E1 by done.
      split_and!; [rewrite zlen_app; lia|done|done| |].
      * intros b B. rewrite zread_app, zlen_app, E1. destruct (Z.ltb_spec b (zlen bs)).
        -- intros HB. destruct (Hbs b B HB) as (s & Hs & e & He). exists s. split; [done|]. by exists e.
        -- intros HB. pose proof (zread_range _ _ _ HB). assert (b = zlen bs) as -> by lia. rewrite Z.sub_diag in HB. injection HB as <-.
           exists j. split; [done|lia].
      * right. pose proof (find_next_real_spec ins i ltac:(lia)) as Hn. fold j in Hn. pose proof (nr_range _ _ _ Hn).
        destruct (Z.eq_dec j i) as [Ej|Hne]; [left; rewrite <- Ej; by apply (nr_real _ _ _ Hn)|right].
        eexists _, j. rewrite zlen_app, E1, Z.add_simpl_r, zread_app, Z.ltb_irrefl, Z.sub_diag. split_and!; [done|done|lia].
    + assert (cut ins i = false) as Ecut by (unfold cut; rewrite El; by apply Z.ltb_ge).
      eexists. split; [done|]. simpl. rewrite (blk_pred i), Ecut by lia. split_and!; [lia|done|done| |].
      * intros b B HB. destruct (Hbs b B HB) as (s & Hs & e & He). exists s. split; [done|]. by exists e.
      * left. destruct (leads_prev _ _ El) as [x Hx]. exists x. split_and!; [done|lia|]. intros k Hk.
        assert (k = i) as -> by lia. split; [done|]. pose proof (find_next_real_spec ins i ltac:(lia)) as Hn. apply (nr_labels _ _ _ Hn). lia.
  - match goal with |- @ex _ (fun st' => ?M = Ok st' /\ _) => assert (M = Ok st) as E end.
    { destruct (leaders_from (i + 1)) as [|l r] eqn:E; [done|]. apply leaders_from_head in E. by rewrite (proj2 (Z.eqb_neq i l)) by lia. }
    exists st. rewrite E. assert (blk ins i = blk ins (i - 1)) as Eb.
    { destruct (Z.eq_dec i 0) as [->|]; [by rewrite !blk_0 by lia|]. rewrite (blk_pred i), cut_leads by (done || lia). lia. }
    split_and!; [done|lia|done| |by apply Hb|].
    + rewrite (bt_leaders _ _ Hb), leaders_from_S, El by lia. done.
    + destruct (zread_is_some ins i Hi) as [x Hx]. destruct (is_label x) eqn:Elx; [|right; left; by exists x].
      destruct x as [name|]; [|done]. destruct (bt_last _ _ Hb) as [(y & Hy & Hlt & Hk)|(B & s & HB & Hs & His)].
      * left. exists y. split_and!; [done|done|]. intros k Hk'. destruct (Z.eq_dec k i) as [->|]; [|apply Hk; lia].
        split; [by apply cut_leads|by exists name].
      * right. right. exists B, s. split_and!; [done|done|]. destruct (Z.eq_dec s i) as [->|]; [|lia].
        destruct (bk_real _ _ _ Hs) as (z & Hz & Hr). by simplify_eq.
Qed.

Lemma build_blocks_ok l i st : 0 <= i -> (forall k, 0 <= k -> zread l k = zread ins (i + k)) -> i + zlen l = zlen ins -> built i st ->
  exists st', build_blocks ins i l st = Ok st' /\ built (zlen ins) st'.
Proof.
  revert i st. induction l as [|x l IH]; intros i st Hi Hl Hn Hb.
  - exists st. split; [done|]. unfold zlen in Hn at 1. simpl in Hn. by rewrite Z.add_0_r in Hn; subst i.
  - assert (zread ins i = Some x) as Hx by (by rewrite <- (Z.add_0_r i), <- Hl by lia). pose proof (zread_range _ _ _ Hx) as Hr.
    destruct (start_block_ok i st Hr Hb) as (st1 & E & H1 & H2 & H3 & H4 & H5). simpl. rewrite E, bind_of_ok. apply IH; [lia| | |].
    + intros k Hk. replace (i + 1 + k) with (i + (k + 1)) by lia. rewrite <- Hl by lia. rewrite zread_cons, (proj2 (Z.eqb_neq _ _)) by lia.
      f_equal. lia.
    + unfold zlen in *. simpl in Hn. lia.
    + split; simpl; rewrite ?Z.add_simpl_r; try done.
      * intros k Hk. destruct (Z.eq_dec k i) as [->|Hne]; [rewrite lookup_insert_eq, H1; f_equal; lia|].
        rewrite lookup_insert_ne, H2 by lia. apply (bt_bb _ _ Hb). lia.
      * destruct (is_label x) eqn:El.
        -- destruct H5 as [(y & Hy & Hlt & Hk)|[(y & Hy)|(B & s & HB & Hs & His)]].
           ++ left. exists y. split_and!; [done|lia|]. intros k Hk'. apply Hk. lia.
           ++ destruct Hy. congruence.
           ++ right. by exists B, s.
        -- left. exists x. split_and!; [done|lia|]. lia.
Qed.

(** What cutting a function gives. *)
Record cut_into (bs : list basic_block_t) (bb : gmap Z Z) : Prop := {
  ci_count : zlen bs = blk ins (zlen ins - 1) + 2;
  ci_bb : forall k, 0 <= k < zlen ins -> bb !! k = Some (blk ins k);
  ci_block : forall b, 0 <= b < zlen bs - 1 -> exists s e, zread bs b = Some (basic_block_new b (Some s) (Some e) (b =? 0) false) /\
    (exists x, real_at ins s x) /\ (exists x, real_at ins e x) /\ blk ins s = b /\ blk ins e = b /\
    forall k x, real_at ins k x -> blk ins k = b -> s <= k <= e;
  ci_exit : zread bs (zlen bs - 1) = Some (basic_block_new (zlen bs - 1) None None false true) }.

Lemma built_start : first_ok ins -> (exists i x, real_at ins i x) ->
  let j := find_next_real_instruction ins 0 in
  j < zlen ins /\ built 0 (mkBuilding [basic_block_new 0 (Some j) None true false] ∅ (leaders_to ins (zlen ins)) 0).
Proof.
  intros [Hne Hf] (i & x & Hx) j. pose proof (find_next_real_spec ins 0 ltac:(lia)) as Hn. fold j in Hn. pose proof (nr_range _ _ _ Hn) as Hj.
  pose proof (zread_range _ _ _ (proj1 Hx)) as Hi.
  assert (j < zlen ins) as Hlt.
  { destruct (decide (j < zlen ins)); [done|]. destruct (nr_labels _ _ _ Hn i) as [name Hname]; [lia|]. destruct Hx. by simplify_eq. }
  assert (block_built 0 (basic_block_new 0 (Some j) None true false) j) as Hb.
  { split; [done|by apply (nr_real _ _ _ Hn)| |].
    - rewrite (blk_next_real 0 j ltac:(lia) Hn Hlt). by apply blk_0.
    - intros k y Hk _. pose proof (zread_range _ _ _ (proj1 Hk)). destruct (decide (j <= k)); [done|].
      destruct (nr_labels _ _ _ Hn k) as [name Hname]; [lia|]. destruct Hk. by simplify_eq. }
  split; [done|]. split; simpl.
  - rewrite blk_0 by lia. done.
  - lia.
  - rewrite leaders_from_S by lia. destruct (leads ins 0) eqn:E; [apply leads_range in E; lia|]. simpl.
    unfold leaders_to, leaders_from. do 2 f_equal; lia.
  - intros b B HB. pose proof (zread_range _ _ _ HB) as Hr. unfold zlen in Hr. simpl in Hr. assert (b = 0) as -> by lia. injection HB as <-.
    exists j. split; [done|]. unfold zlen. simpl. lia.
  - right. exists (basic_block_new 0 (Some j) None true false), j. split_and!; [done|done|lia].
Qed.

Lemma create_basic_blocks_ok : first_ok ins -> (exists i x, real_at ins i x) ->
  exists bs bb, create_basic_blocks ins = Ok (bs, bb) /\ cut_into bs bb.
Proof.
  intros Hf Hr. destruct (built_start Hf Hr) as [Hj Hb]. pose proof Hf as [Hne _]. set (j := find_next_real_instruction ins 0) in *.
  pose proof (nr_range _ _ _ (find_next_real_spec ins 0 ltac:(lia))) as Hj0. fold j in Hj0. unfold create_basic_blocks. cbv zeta.
  destruct (aread_in ins 0) as (x & Hx & ->); [lia|]. rewrite bind_of_ok, (find_leaders_all ins Hf), bind_of_ok. fold j.
  destruct (aread_in ins j) as (y & Hy & ->); [lia|]. rewrite bind_of_ok. simpl tail.
  destruct (build_blocks_ok ins 0 _ ltac:(lia) ltac:(done) ltac:(lia) Hb) as (st & -> & Hst). rewrite bind_of_ok.
  assert (0 <= blk ins (zlen ins - 1)) as Hnn by (unfold blk; apply zlen_nonneg). pose proof (bt_count _ _ Hst) as Hc.
  assert (block_ended (zlen (b_blocks st) - 1) (b_last st)) as He.
  { rewrite Hc, Z.add_simpl_r. destruct (bt_last _ _ Hst) as [(z & Hz & Hlt & Hk)|(B & s & _ & Hs & His)].
    - pose proof (zread_range _ _ _ (proj1 Hz)). split; [by exists z| |].
      + symmetry. apply blk_gap; [lia|]. intros k Hk'. apply Hk. lia.
      + intros k w Hw _. destruct (decide (k <= b_last st)); [done|]. pose proof (zread_range _ _ _ (proj1 Hw)).
        destruct (Hk k) as [_ [name Hname]]; [lia|]. destruct Hw. by simplify_eq.
    - destruct (bk_real _ _ _ Hs) as (z & Hz & _). apply zread_range in Hz. lia. }
  destruct (bt_ended _ st _ Hst He) as (bs & -> & Hlen & Hbs). rewrite bind_of_ok.
  eexists _, _. split; [done|]. assert (zlen [basic_block_new (zlen bs) None None false true] = 1) as E1 by done.
  split; rewrite ?zlen_app, ?E1, ?Z.add_simpl_r.
  - lia.
  - apply Hst.
  - intros b Hbr. destruct (zread_is_some bs b) as [B HB]; [lia|]. destruct (Hbs b B HB) as (s & [S1 S2 S3 S4] & e & Ee & [E2 E3 E4]).
    exists s, e. rewrite zread_app_l by lia. rewrite HB, S1, Ee. split_and!; try done. intros k z Hz Ek. split; [by eapply S4|by eapply E4].
  - by rewrite zread_app, Z.ltb_irrefl, Z.sub_diag.
Qed.
End blocks.

(** * The flow of control

    The instructions that may follow one: [zlen ins] stands for the return of the
    function. *)

Definition label_position (ins : list ptx_instruction) (name : string) : option Z :=
  find (fun p => bool_decide (zread ins p = Some (Label name))) (seqZ 0 (zlen ins)).
Definition is_branch (x : ptx_instruction) : bool := bool_decide (get_opcode x = BRA_OP).
(** May the next instruction follow? *)
Definition falls (x : ptx_instruction) : bool :=
  if is_return (get_opcode x) then has_pred x else negb (is_branch x && negb (has_pred x)).
Definition instr_succs (ins : list ptx_instruction) (i : Z) : iset :=
  match zread ins i with
  | Some (Insn _ _ _ _ as x) =>
      (if is_return (get_opcode x) then [zlen ins] else []) ++
      (if is_branch x then match label_position ins (dst_name x) with Some p => [find_next_real_instruction ins p] | None => [] end else []) ++
      (if falls x then [find_next_real_instruction ins (i + 1)] else [])
  | _ => []
  end.

(** The functions whose graph is right: control does not run off the end, returns have no
    predicate, there are no breaks, and nothing branches back to the first block. *)
Record function_ok (ins : list ptx_instruction) : Prop := {
  fo_first : first_ok ins;
  fo_real : exists i x, real_at ins i x;
  fo_targets : targets_ok ins;
  fo_unique : forall p q name, zread ins p = Some (Label name) -> zread ins q = Some (Label name) -> p = q;
  fo_falls : forall i x, real_at ins i x -> falls x = true -> find_next_real_instruction ins (i + 1) < zlen ins;
  fo_plain : forall i x, real_at ins i x -> get_opcode x <> BREAK_OP /\ (is_return (get_opcode x) = true -> has_pred x = false);
  fo_entry : forall i x p, real_at ins i x -> is_branch x = true -> zread ins p = Some (Label (dst_name x)) ->
    find_next_real_instruction ins p <> find_next_real_instruction ins 0 }.

Lemma label_position_ok ins p name : (forall p q name, zread ins p = Some (Label name) -> zread ins q = Some (Label name) -> p = q) ->
  zread ins p = Some (Label name) -> label_position ins name = Some p.
Proof.
  intros Hu Hp. unfold label_position. destruct (find _ _) as [q|] eqn:E.
  - apply find_some in E as [_ Hq]. apply bool_decide_eq_true in Hq. f_equal. by apply (Hu q p name).
  - assert (p ∈ seqZ 0 (zlen ins)) as Hin by (apply elem_of_seqZ; apply zread_range in Hp; lia).
    pose proof (find_none _ _ E p (proj1 (list_elem_of_In _ _) Hin)) as H. cbv beta in H. by rewrite bool_decide_eq_true_2 in H by done.
Qed.

(** The block an instruction is in; the return is in the exit. *)
Definition block_of (ins : list ptx_instruction) (j : Z) : Z := if j =? zlen ins then blk ins (zlen ins - 1) + 1 else blk ins j.

(** * Linking *)

(** The blocks [bs] are the blocks [bs0] with the links [R]. *)
Record linked_by (R : Z → Z → Prop) (bs0 bs : list basic_block_t) : Prop := {
  lb_len : zlen bs = zlen bs0;
  lb_blocks : forall k B0, zread bs0 k = Some B0 -> exists P S, zread bs k = Some (set_links B0 P S) /\
    (forall t, t ∈ S <-> R k t) /\ (forall h, h ∈ P <-> R h k) }.

Lemma linked_by_ext R R' bs0 bs : (forall a b, R a b <-> R' a b) -> linked_by R bs0 bs -> linked_by R' bs0 bs.
Proof. intros HR [H1 H2]. split; [done|]. intros k B0 HB. destruct (H2 k B0 HB) as (P & S & E & HS & HP). exists P, S. split_and!; [done| |]; intros; rewrite <- HR; auto. Qed.

Section linking.
Context (bs0 : list basic_block_t) (Hid : forall k B, zread bs0 k = Some B -> bb_id B = k).

Lemma link_ok R f h t : linked_by R bs0 (m_basic_blocks f) -> 0 <= h < zlen bs0 -> 0 <= t < zlen bs0 ->
  exists bs, link h t f = Ok (with_blocks f bs) /\ linked_by (fun a b => R a b \/ (a = h /\ b = t)) bs0 bs.
Proof using Hid.
  intros [Hl Hb] Hh Ht. destruct (zread_is_some bs0 h Hh) as [H0 Eh]. destruct (zread_is_some bs0 t Ht) as [T0 Et].
  destruct (Hb h H0 Eh) as (PH & SH & EH & HSH & HPH). destruct (Hb t T0 Et) as (PT & ST & ET & HST & HPT).
  pose proof (Hid h H0 Eh) as Ih. pose proof (Hid t T0 Et) as It.
  unfold link. rewrite (proj2 (aread_ok _ _ _) EH), bind_of_ok, (proj2 (aread_ok _ _ _) ET), bind_of_ok.
  change (bb_id (set_links T0 PT ST)) with (bb_id T0). change (bb_id (set_links H0 PH SH)) with (bb_id H0). rewrite It, Ih.
  rewrite awrite_in, bind_of_ok by lia. set (bs1 := zwrite _ _ _).
  assert (zread bs1 t = Some (set_links T0 PT (if h =? t then sinsert t SH else ST))) as E1.
  { unfold bs1. rewrite zread_zwrite by lia. destruct (Z.eqb_spec h t) as [->|]; [|done]. simplify_eq. done. }
  rewrite (proj2 (aread_ok _ _ _) E1), bind_of_ok. simpl. rewrite awrite_in, bind_of_ok by (unfold bs1; rewrite zlen_zwrite; lia).
  eexists. split; [done|]. split; [unfold bs1; by rewrite !zlen_zwrite|]. intros k B0 Hk.
  destruct (Hb k B0 Hk) as (P & S & E & HS & HP). rewrite zread_zwrite by (unfold bs1; rewrite zlen_zwrite; lia).
  destruct (Z.eqb_spec t k) as [<-|Hne].
  - rewrite Hk in Et. injection Et as ->. rewrite ET in E. injection E as <- <-. eexists _, _. split; [done|]. split.
    + intros x. destruct (Z.eqb_spec h t) as [->|Hne].
      * assert (H0 = T0) as -> by congruence. rewrite EH in ET. injection ET as <- <-. rewrite elem_of_sinsert, HSH. naive_solver.
      * rewrite HST. naive_solver.
    + intros x. rewrite elem_of_sinsert, HPT. naive_solver.
  - unfold bs1. rewrite zread_zwrite by lia. destruct (Z.eqb_spec h k) as [<-|Hne'].
    + rewrite Hk in Eh. injection Eh as ->. rewrite EH in E. injection E as <- <-. eexists _, _. split; [done|]. split.
      * intros x. rewrite elem_of_sinsert, HSH. naive_solver.
      * intros x. rewrite HPH. naive_solver.
    + exists P, S. split; [done|]. split; intros x; [rewrite HS|rewrite HP]; naive_solver.
Qed.
End linking.

Section connecting.
Context (fid : Z) (ins : list ptx_instruction) (start : Z) (c : code) (g g' : loader) (bs0 : list basic_block_t) (bb : gmap Z Z).
Context (Hk : code_ok ins start) (Hf : function_ok ins) (Ha : assembled fid ins c g g') (Hc : cut_into ins bs0 bb).

Lemma blk_nonneg i : 0 <= blk ins i.
Proof using. unfold blk. apply zlen_nonneg. Qed.
Lemma blk_range i : i < zlen ins -> 0 <= blk ins i < zlen bs0 - 1.
Proof using Hc. intros Hi. rewrite (ci_count _ _ _ Hc). pose proof (blk_nonneg i). pose proof (blk_mono ins i (zlen ins - 1) ltac:(lia)). lia. Qed.
Lemma cut_numbered k B : zread bs0 k = Some B -> bb_id B = k.
Proof using Hc.
  intros HB. pose proof (zread_range _ _ _ HB) as Hr. destruct (Z.eq_dec k (zlen bs0 - 1)) as [->|Hne].
  - rewrite (ci_exit _ _ _ Hc) in HB. by injection HB as <-.
  - destruct (ci_block _ _ _ Hc k ltac:(lia)) as (s & e & E & _). rewrite E in HB. by injection HB as <-.
Qed.

Definition block_end (h e : Z) : Prop := exists s, zread bs0 h = Some (basic_block_new h (Some s) (Some e) (h =? 0) false).
(** The links between the blocks: what the last instruction of a block may be followed by. *)
Definition block_edge (h t : Z) : Prop := exists e j, block_end h e /\ j ∈ instr_succs ins e /\ t = block_of ins j.

Lemma block_end_of h : 0 <= h < zlen bs0 - 1 -> exists e x, block_end h e /\ real_at ins e x /\ blk ins e = h.
Proof using Hc.
  intros Hh. destruct (ci_block _ _ _ Hc h Hh) as (s & e & E & _ & [x Hx] & _ & He & _). exists e, x. split_and!; [by exists s|done|done].
Qed.
Lemma block_end_fun h e e' : block_end h e -> block_end h e' -> e = e'.
Proof using. intros [s E] [s' E']. rewrite E in E'. by injection E'. Qed.
Lemma block_of_real j : j < zlen ins -> block_of ins j = blk ins j.
Proof using. intros Hj. unfold block_of. by rewrite (proj2 (Z.eqb_neq _ _)) by lia. Qed.
Lemma block_of_return : block_of ins (zlen ins) = zlen bs0 - 1.
Proof using Hc. unfold block_of. rewrite Z.eqb_refl, (ci_count _ _ _ Hc). lia. Qed.

Section one.
Context (f : function_info) (Hfc : fi_code f = c) (Hfb : m_basic_block f = bb).

Lemma block_at_real j x : real_at ins j x -> block_at f (offset ins j) = Ok (blk ins j).
Proof using Ha Hc Hfc Hfb.
  intros Hx. unfold block_at, instr_at. rewrite Hfc, (proj2 (aread_ok _ _ _) (as_mem _ _ _ _ _ Ha j x Hx)), !bind_of_ok.
  unfold get_bb. rewrite Hfb, (ci_bb _ _ _ Hc); [done|]. by eapply zread_range, Hx.
Qed.
(** The address behind an instruction, or a label, is that of the next instruction. *)
Lemma block_at_next i j : 0 <= i -> next_real ins i j -> j < zlen ins -> block_at f (offset ins i) = Ok (block_of ins j).
Proof using Ha Hc Hfc Hfb.
  intros Hi Hn Hj. destruct (nr_real _ _ _ Hn Hj) as [x Hx]. rewrite <- (offset_next_real ins i j Hi Hn), (block_at_real j x Hx).
  by rewrite block_of_real.
Qed.

Context (R : Z → Z → Prop) (HR : linked_by R bs0 (m_basic_blocks f)).

Lemma link_target_ok h i x p : 0 <= h < zlen bs0 -> real_at ins i x -> is_branch x = true -> zread ins p = Some (Label (dst_name x)) ->
  exists bs, link_target h (dst_name x) f = Ok (with_blocks f bs) /\
    linked_by (fun a b => R a b \/ (a = h /\ b = block_of ins (find_next_real_instruction ins p))) bs0 bs.
Proof using Hf Ha Hc Hfc Hfb HR.
  intros Hh Hx Hb Hp. pose proof (zread_range _ _ _ Hp) as Hr. pose proof (find_next_real_spec ins p ltac:(lia)) as Hn.
  assert (find_next_real_instruction ins p < zlen ins) as Hlt.
  { destruct (fo_targets _ Hf i x Hx) as (q & Hq & Hlt); [|by rewrite (fo_unique _ Hf p q _ Hp Hq)].
    unfold is_branch in Hb. apply bool_decide_eq_true in Hb. unfold takes_label. rewrite bool_decide_eq_true_2; [done|by left]. }
  unfold link_target. rewrite Hfc, (proj2 (as_labels _ _ _ _ _ Ha (dst_name x) (offset ins p))) by (by exists p). simpl.
  rewrite (block_at_next p _ ltac:(lia) Hn Hlt), bind_of_ok. apply link_ok; [apply cut_numbered|done|done|].
  rewrite block_of_real by done. pose proof (blk_range _ Hlt). lia.
Qed.

Lemma link_next_ok h e x : 0 <= h < zlen bs0 -> real_at ins e x -> falls x = true ->
  exists bs, link_next h e x f = Ok (with_blocks f bs) /\
    linked_by (fun a b => R a b \/ (a = h /\ b = block_of ins (find_next_real_instruction ins (e + 1)))) bs0 bs.
Proof using Hk Hf Ha Hc Hfc Hfb HR.
  intros Hh Hx Hfall. pose proof (zread_range _ _ _ (proj1 Hx)) as Hr. pose proof (find_next_real_spec ins (e + 1) ltac:(lia)) as Hn.
  pose proof (fo_falls _ Hf e x Hx Hfall) as Hlt. unfold link_next, get_m_instr_mem_index.
  rewrite Hfc, (as_index _ _ _ _ _ Ha e x Hx), bind_of_ok. pose proof (offset_succ ins e x (proj1 Hx)) as Ho. unfold code_size in Ho.
  rewrite (proj2 Hx) in Ho. pose proof (offset_range ins start Hk (e + 1) ltac:(lia)). pose proof (ck_fits _ _ Hk). pose proof (ck_start _ _ Hk).
  assert (u32 (offset ins e + inst_size x) = offset ins (e + 1)) as -> by (rewrite Ho; unfold u32, uwrap; apply Z.mod_small; lia).
  rewrite (block_at_next (e + 1) _ ltac:(lia) Hn Hlt), bind_of_ok. apply link_ok; [apply cut_numbered|done|done|].
  rewrite block_of_real by done. pose proof (blk_range _ Hlt). lia.
Qed.
End one.

Lemma instr_succs_real e x : real_at ins e x -> instr_succs ins e =
  (if is_return (get_opcode x) then [zlen ins] else []) ++
  (if is_branch x then match label_position ins (dst_name x) with Some p => [find_next_real_instruction ins p] | None => [] end else []) ++
  (if falls x then [find_next_real_instruction ins (e + 1)] else []).
Proof using. intros [Hx Hr]. unfold instr_succs. rewrite Hx. by destruct x. Qed.

Lemma connect_block_ok R f h : fi_code f = c -> m_basic_block f = bb -> linked_by R bs0 (m_basic_blocks f) -> 0 <= h < zlen bs0 ->
  exists bs, connect_block h f = Ok (with_blocks f bs) /\ linked_by (fun a b => R a b \/ (a = h /\ block_edge h b)) bs0 bs.
Proof using Hk Hf Ha Hc.
  intros Hfc Hfb HR Hh. unfold connect_block. destruct (Z.eq_dec h (zlen bs0 - 1)) as [->|Hne].
  - destruct (lb_blocks _ _ _ HR _ _ (ci_exit _ _ _ Hc)) as (P & S & E & _). rewrite (proj2 (aread_ok _ _ _) E), bind_of_ok. simpl.
    exists (m_basic_blocks f). split; [by destruct f|]. eapply linked_by_ext; [|exact HR]. intros a b. split; [tauto|].
    intros [?|(_ & e & j & [s Es] & _)]; [done|]. rewrite (ci_exit _ _ _ Hc) in Es. done.
  - destruct (block_end_of h ltac:(lia)) as (e & x & [s Es] & Hx & _). destruct (lb_blocks _ _ _ HR _ _ Es) as (P & S & E & _).
    assert (forall b, block_edge h b <-> exists j, j ∈ instr_succs ins e /\ b = block_of ins j) as Hedge.
    { intros b. split; [|intros (j & Hj & ->); exists e, j; split_and!; [by exists s|done|done]].
      intros (e' & j & He' & Hj & ->). rewrite (block_end_fun h e' e) in Hj by (done || by exists s). by exists j. }
    rewrite (proj2 (aread_ok _ _ _) E), bind_of_ok. simpl. unfold instruction. rewrite Hfc, (as_ins _ _ _ _ _ Ha).
    rewrite (proj2 (aread_ok _ _ _) (proj1 Hx)), bind_of_ok. pose proof (instr_succs_real e x Hx) as Hsucc.
    destruct (fo_plain _ Hf e x Hx) as [_ Hplain]. destruct (is_return (get_opcode x)) eqn:Er.
    + assert (is_branch x = false /\ falls x = false) as [Eb Ef].
      { unfold falls. rewrite Er, Hplain by done. split; [|done]. unfold is_branch, is_return in *. apply bool_decide_eq_true in Er.
        apply bool_decide_eq_false_2. intros E'. rewrite E' in Er. by destruct_or! Er. }
      rewrite Eb, Ef in Hsucc. simpl in Hsucc. rewrite (lb_len _ _ _ HR).
      destruct (link_ok bs0 cut_numbered R f h (zlen bs0 - 1) HR Hh ltac:(lia)) as (bs & -> & HL). rewrite bind_of_ok, Hplain by done.
      exists bs. split; [done|]. eapply linked_by_ext; [|exact HL]. intros a b. rewrite Hedge, Hsucc, <- block_of_return.
      setoid_rewrite list_elem_of_singleton. naive_solver.
    + fold (is_branch x). assert (falls x = negb (is_branch x && negb (has_pred x))) as Ef by (unfold falls; by rewrite Er). rewrite <- Ef.
      simpl in Hsucc.
      assert (exists bs, (if is_branch x then link_target h (dst_name x) f else mret f) = Ok (with_blocks f bs) /\
        linked_by (fun a b => R a b \/ (a = h /\ exists j, j ∈ (if is_branch x then match label_position ins (dst_name x) with
          Some p => [find_next_real_instruction ins p] | None => [] end else []) /\ b = block_of ins j)) bs0 bs) as (bs & -> & HL).
      { destruct (is_branch x) eqn:Eb.
        - destruct (fo_targets _ Hf e x Hx) as (p & Hp & _).
          { unfold is_branch in Eb. apply bool_decide_eq_true in Eb. unfold takes_label. rewrite bool_decide_eq_true_2; [done|by left]. }
          destruct (link_target_ok f Hfc Hfb R HR h e x p Hh Hx Eb Hp) as (bs & Eq & HL). exists bs. split; [done|].
          rewrite (label_position_ok ins p _ (fo_unique _ Hf) Hp). eapply linked_by_ext; [|exact HL]. intros a b.
          setoid_rewrite list_elem_of_singleton. naive_solver.
        - exists (m_basic_blocks f). split; [by destruct f|]. eapply linked_by_ext; [|exact HR]. intros a b. set_solver. }
      rewrite bind_of_ok. destruct (falls x) eqn:Efx.
      * destruct (link_next_ok (with_blocks f bs) Hfc Hfb _ HL h e x Hh Hx Efx) as (bs' & -> & HL'). exists bs'. split; [done|].
        eapply linked_by_ext; [|exact HL']. intros a b. rewrite Hedge, Hsucc. setoid_rewrite elem_of_app. setoid_rewrite list_elem_of_singleton.
        naive_solver.
      * exists bs. split; [done|]. eapply linked_by_ext; [|exact HL]. intros a b. rewrite Hedge, Hsucc, app_nil_r. done.
Qed.

Lemma for_blocks_ok hs R f : fi_code f = c -> m_basic_block f = bb -> linked_by R bs0 (m_basic_blocks f) ->
  (forall h, h ∈ hs -> 0 <= h < zlen bs0) ->
  exists bs, for_blocks hs connect_block f = Ok (with_blocks f bs) /\ linked_by (fun a b => R a b \/ (a ∈ hs /\ block_edge a b)) bs0 bs.
Proof using Hk Hf Ha Hc.
  revert R f. induction hs as [|h hs IH]; intros R f Hfc Hfb HR Hhs; simpl.
  - exists (m_basic_blocks f). split; [by destruct f|]. eapply linked_by_ext; [|exact HR]. set_solver.
  - destruct (connect_block_ok R f h Hfc Hfb HR (Hhs h ltac:(left))) as (bs & -> & HL). rewrite bind_of_ok.
    destruct (IH _ (with_blocks f bs) Hfc Hfb HL) as (bs' & -> & HL'); [intros; apply Hhs; by right|]. exists bs'. split; [done|].
    eapply linked_by_ext; [|exact HL']. intros a b. rewrite elem_of_cons. naive_solver.
Qed.

Lemma connect_basic_blocks_ok : exists bs, connect_basic_blocks (mkFunction c bs0 bb) = Ok (mkFunction c bs bb) /\ linked_by block_edge bs0 bs.
Proof using Hk Hf Ha Hc.
  assert (linked_by (fun _ _ => False) bs0 bs0) as H0.
  { split; [done|]. intros k B0 HB. pose proof (zread_range _ _ _ HB) as Hr. exists [], []. rewrite HB.
    assert (B0 = set_links B0 [] []) as <-; [|set_solver].
    destruct (Z.eq_dec k (zlen bs0 - 1)) as [->|Hne].
    - rewrite (ci_exit _ _ _ Hc) in HB. by injection HB as <-.
    - destruct (ci_block _ _ _ Hc k ltac:(lia)) as (s & e & E & _). rewrite E in HB. by injection HB as <-. }
  destruct (for_blocks_ok (seqZ 0 (zlen bs0)) _ (mkFunction c bs0 bb) eq_refl eq_refl H0) as (bs & E & HL).
  { intros h. rewrite elem_of_seqZ. lia. }
  exists bs. split; [exact E|]. eapply linked_by_ext; [|exact HL]. intros a b. split; [tauto|]. intros Hab. right. split; [|done].
  destruct Hab as (e & j & [s Es] & _). apply zread_range in Es. apply elem_of_seqZ. lia.
Qed.
End connecting.
