(* ===== verification/Reconvergence.v ===== *)
(** * Reconvergence points of branches

    The assembly of a function as a whole: the point that the simulator finds for a branch
    is the first instruction that all ways from the branch to a return have in common. *)

From stdpp Require Import strings.
From S2P Require Import Prelude Dominators Assemble BasicBlocks FlowGraph.
#[local] Open Scope Z_scope.

(** The graph of the instructions; the last node is the return. *)
Definition flow_succs (ins : list ptx_instruction) : list iset := (instr_succs ins <$> seqZ 0 (zlen ins)) ++ [[]].
Definition leads_to_return (ins : list ptx_instruction) (i : Z) : Prop := exists l, path (flow_succs ins) (zlen ins) i l.
(** The instruction, or the return, where all ways from [i] meet again. *)
Definition meets_at (ins : list ptx_instruction) (j i : Z) : Prop := immediate (flow_succs ins) (zlen ins) j i.

(** * Ways *)

Lemma path_root_in nbrs r h l : path nbrs r h l -> r ∈ l.
Proof. induction 1; set_solver. Qed.
(** A way that does not come back to its start. *)
Lemma path_once nbrs r h l : path nbrs r h l -> exists l', path nbrs r h (h :: l') /\ h ∉ l'.
Proof.
  remember (length l) as n eqn:En. revert l En. induction (lt_wf n) as [n _ IH]. intros l En Hp.
  destruct (path_head _ _ _ _ Hp) as [l' ->]. destruct (decide (h ∈ l')) as [Hin|]; [|by exists l'].
  apply list_elem_of_split in Hin as (l1 & l2 & E). apply (IH (length (h :: l2))) with (l := h :: l2); [|done|].
  - subst n l'. simpl. rewrite length_app. simpl. lia.
  - eapply (path_suffix nbrs r h (h :: l') (h :: l1) h l2 Hp). by rewrite E.
Qed.

(** What an update of the SIMT stack needs ([SimtStack.pdom_ok]): when a lane of a branch
    [i] arrives at once at a point [r] that all ways from [i] pass, the point where all
    ways meet is [r]. *)
Lemma meets_at_next ins i j r : meets_at ins j i -> leads_to_return ins i -> edge (flow_succs ins) i r -> 0 <= r <= zlen ins -> r <> i ->
  dominates (flow_succs ins) (zlen ins) r i -> j = r.
Proof.
  intros (_ & Hji & Hj & Hmin) [l Hl] He Hr Hne Hd. pose proof (Hd l Hl) as Hin. apply list_elem_of_split in Hin as (l1 & l2 & E).
  symmetry. eapply dominates_antisym; [exact (path_suffix _ _ _ _ _ _ _ Hl E)|by eapply dominates_step|].
  apply Hmin; [|done|done]. unfold flow_succs. rewrite zlen_app. unfold zlen in *. rewrite length_fmap, length_seqZ. simpl. lia.
Qed.

(** * Instructions and their blocks *)

Section graph.
Context (ins : list ptx_instruction) (Hf : function_ok ins) (bs0 : list basic_block_t) (bb : gmap Z Z) (Hc : cut_into ins bs0 bb).
Abbreviation N := (zlen ins).
Abbreviation X := (zlen bs0 - 1).
Abbreviation block_edge := (block_edge ins bs0).
Abbreviation block_end := (block_end bs0).

(** The first and the last instruction of a block. *)
Record bounds (b s e : Z) : Prop := {
  bd_begin : exists x, real_at ins s x;
  bd_end : exists x, real_at ins e x;
  bd_s : blk ins s = b;
  bd_e : blk ins e = b;
  bd_all : forall k x, real_at ins k x -> blk ins k = b -> s <= k <= e }.
Lemma block_bounds b : 0 <= b < X -> exists s e, zread bs0 b = Some (basic_block_new b (Some s) (Some e) (b =? 0) false) /\ bounds b s e.
Proof using Hc.
  intros Hb. destruct (ci_block _ _ _ Hc b Hb) as (s & e & E & H1 & H2 & H3 & H4 & H5). exists s, e. split; [done|]. by split.
Qed.

Lemma real_lt i x : real_at ins i x -> 0 <= i < N.
Proof using. intros [H _]. by eapply zread_range. Qed.

(** Behind an instruction that ends a block, and at a label, a new block begins. *)
Lemma cut_after i x : real_at ins i x -> find_next_real_instruction ins (i + 1) < N ->
  ends_block x = true \/ find_next_real_instruction ins (i + 1) <> i + 1 -> cut ins (i + 1) = true.
Proof using.
  intros Hx Hlt Hor. pose proof (real_lt i x Hx). unfold cut. rewrite (proj2 (Z.ltb_lt _ _) Hlt), andb_true_r.
  pose proof (find_next_real_spec ins (i + 1) ltac:(lia)) as Hn. pose proof (nr_range _ _ _ Hn).
  destruct (zread_is_some ins (i + 1)) as [y Hy]; [lia|]. unfold leads. rewrite Z.add_simpl_r, (proj1 Hx), Hy.
  destruct Hor as [->|Hne]; [done|]. destruct (is_label y) eqn:El.
  - rewrite (proj2 Hx). apply orb_true_r.
  - rewrite (find_next_real_self ins (i + 1) y) in Hne by done. done.
Qed.

Lemma last_real k x p : real_at ins k x -> k < p <= N ->
  exists k' y, k <= k' < p /\ real_at ins k' y /\ forall q, k' < q < p -> exists name, zread ins q = Some (Label name).
Proof using.
  intros Hx Hp. pose proof (real_lt k x Hx) as Hk. replace p with (k + 1 + Z.of_nat (Z.to_nat (p - k - 1))) in * by lia.
  revert Hp. generalize (Z.to_nat (p - k - 1)). intros n.
  assert (k + 1 + Z.of_nat n <= N -> exists k' y, k <= k' < k + 1 + Z.of_nat n /\ real_at ins k' y /\
    forall q, k' < q < k + 1 + Z.of_nat n -> exists name, zread ins q = Some (Label name)) as H; [|intros Hp; apply H; lia].
  induction n as [|n IH]; intros Hn; [exists k, x; split_and!; [lia|lia|done|lia]|].
  destruct IH as (k' & y & H1 & H2 & H3); [lia|]. destruct (zread_is_some ins (k + 1 + Z.of_nat n)) as [z Hz]; [lia|].
  destruct (is_label z) eqn:El.
  - exists k', y. split_and!; [lia|lia|done|]. intros q Hq. destruct (Z.eq_dec q (k + 1 + Z.of_nat n)) as [->|]; [|apply H3; lia].
    destruct z as [name|]; [by exists name|done].
  - exists (k + 1 + Z.of_nat n), z. split_and!; [lia|lia|done|lia].
Qed.
(** The instruction behind a label is the first of its block. *)
Lemma label_begins p name k x : zread ins p = Some (Label name) -> find_next_real_instruction ins p < N -> real_at ins k x -> k < p ->
  blk ins k <> blk ins (find_next_real_instruction ins p).
Proof using.
  intros Hp Hlt Hx Hkp. pose proof (zread_range _ _ _ Hp) as Hr. pose proof (real_lt k x Hx).
  destruct (last_real k x p Hx ltac:(lia)) as (k' & y & Hk' & Hy & Hlab).
  pose proof (find_next_real_spec ins p ltac:(lia)) as Hn. set (j := find_next_real_instruction ins p) in *. pose proof (nr_range _ _ _ Hn) as Hj.
  assert (next_real ins (k' + 1) j) as Hn'.
  { split; [lia| |apply Hn]. intros q Hq. destruct (decide (q < p)); [apply Hlab; lia|]. apply (nr_labels _ _ _ Hn). lia. }
  assert (find_next_real_instruction ins (k' + 1) = j) as Ej.
  { eapply next_real_unique; [|apply find_next_real_spec|exact Hn']; lia. }
  assert (j <> k' + 1).
  { intros Ejk. assert (p = k' + 1) as -> by lia. destruct (nr_real _ _ _ Hn ltac:(lia)) as (z & Hz & Hzr). rewrite Ejk in Hz. by simplify_eq. }
  pose proof (cut_after k' y Hy ltac:(lia) ltac:(right; lia)) as Ecut.
  pose proof (blk_pred ins (k' + 1) ltac:(lia)) as H1. rewrite Ecut, Z.add_simpl_r in H1.
  pose proof (blk_mono ins (k' + 1) j ltac:(lia)). pose proof (blk_mono ins k k' ltac:(lia)). lia.
Qed.

(** Inside a block control goes from an instruction to the next. *)
Lemma inside_block i x b s e : real_at ins i x -> bounds b s e -> blk ins i = b -> i <> e ->
  (exists y, real_at ins (i + 1) y) /\ blk ins (i + 1) = b /\ instr_succs ins i = [i + 1].
Proof using Hf.
  intros Hx Hb Hi Hne. pose proof (real_lt i x Hx) as Hr. pose proof (bd_all _ _ _ Hb i x Hx Hi) as Hie.
  destruct (bd_end _ _ _ Hb) as [z Hz]. pose proof (real_lt e z Hz) as Hre.
  pose proof (find_next_real_spec ins (i + 1) ltac:(lia)) as Hn. pose proof (nr_range _ _ _ Hn) as Hnr.
  assert (find_next_real_instruction ins (i + 1) <= e) as Hle.
  { destruct (decide (find_next_real_instruction ins (i + 1) <= e)); [done|]. destruct (nr_labels _ _ _ Hn e) as [name Hname]; [lia|].
    destruct Hz. by simplify_eq. }
  assert (cut ins (i + 1) = false) as Ecut.
  { destruct (cut ins (i + 1)) eqn:E; [|done]. pose proof (blk_pred ins (i + 1) ltac:(lia)) as H1. rewrite E, Z.add_simpl_r in H1.
    pose proof (blk_mono ins (i + 1) e ltac:(lia)) as H2. rewrite (bd_e _ _ _ Hb) in H2. lia. }
  assert (ends_block x = false /\ find_next_real_instruction ins (i + 1) = i + 1) as [He Hnext].
  { destruct (ends_block x) eqn:E; [rewrite (cut_after i x Hx) in Ecut by (lia || auto); done|]. split; [done|].
    destruct (Z.eq_dec (find_next_real_instruction ins (i + 1)) (i + 1)) as [|Hne']; [done|].
    rewrite (cut_after i x Hx) in Ecut by (lia || auto). done. }
  split_and!.
  - destruct (nr_real _ _ _ Hn ltac:(lia)) as [y Hy]. rewrite Hnext in Hy. by exists y.
  - rewrite (blk_pred ins (i + 1)), Ecut, Z.add_simpl_r by lia. lia.
  - rewrite (instr_succs_real ins i x Hx), Hnext. unfold ends_block in He. unfold falls, is_branch, is_return.
    destruct (get_opcode x) eqn:Eop; try done.
Qed.

(** What follows the last instruction of a block is the return or begins a block. *)
Lemma succ_begins h e j : block_end h e -> j ∈ instr_succs ins e -> j = N \/
  exists x, real_at ins j x /\ (forall k y, real_at ins k y -> blk ins k = blk ins j -> j <= k) /\
    (blk ins j = h + 1 \/ exists y p, real_at ins e y /\ is_branch y = true /\ zread ins p = Some (Label (dst_name y)) /\ j = find_next_real_instruction ins p).
Proof using Hf Hc.
  intros [s Es] Hj. pose proof (zread_range _ _ _ Es) as Hh. assert (0 <= h < X) as Hh'.
  { destruct (Z.eq_dec h X) as [->|]; [|lia]. rewrite (ci_exit _ _ _ Hc) in Es. done. }
  destruct (block_bounds h Hh') as (s' & e' & E' & Hb). rewrite E' in Es. injection Es as -> ->. destruct (bd_end _ _ _ Hb) as [x Hx].
  pose proof (real_lt e x Hx) as Hr. rewrite (instr_succs_real ins e x Hx) in Hj. rewrite !elem_of_app in Hj. destruct Hj as [Hj|[Hj|Hj]].
  - destruct (is_return _); [|by apply elem_of_nil in Hj]. left. by apply list_elem_of_singleton in Hj.
  - right. destruct (is_branch x) eqn:Eb; [|by apply elem_of_nil in Hj]. destruct (fo_targets _ Hf e x Hx) as (p & Hp & Hlt).
    { unfold is_branch in Eb. apply bool_decide_eq_true in Eb. unfold takes_label. rewrite bool_decide_eq_true_2; [done|by left]. }
    rewrite (label_position_ok ins p _ (fo_unique _ Hf) Hp) in Hj. apply list_elem_of_singleton in Hj as ->.
    pose proof (zread_range _ _ _ Hp) as Hpr. pose proof (find_next_real_spec ins p ltac:(lia)) as Hn.
    set (j := find_next_real_instruction ins p) in *. destruct (nr_real _ _ _ Hn Hlt) as [y Hy]. exists y. split_and!; [done| |].
    + intros k z Hz Ek. destruct (decide (j <= k)); [done|]. exfalso. apply (label_begins p (dst_name x) k z Hp Hlt Hz); [|done].
      destruct (decide (p <= k)); [|lia]. destruct (nr_labels _ _ _ Hn k) as [name Hname]; [lia|]. destruct Hz. by simplify_eq.
    + right. exists x, p. by split_and!.
  - right. destruct (falls x) eqn:Ef; [|by apply elem_of_nil in Hj]. apply list_elem_of_singleton in Hj as ->.
    pose proof (fo_falls _ Hf e x Hx Ef) as Hlt. pose proof (find_next_real_spec ins (e + 1) ltac:(lia)) as Hn.
    set (j := find_next_real_instruction ins (e + 1)) in *. destruct (nr_real _ _ _ Hn Hlt) as [y Hy]. pose proof (nr_range _ _ _ Hn).
    assert (blk ins j = h + 1) as Ej.
    { rewrite (blk_next_real ins (e + 1) j ltac:(lia) Hn Hlt), (blk_pred ins (e + 1)), Z.add_simpl_r, (bd_e _ _ _ Hb) by lia.
      destruct (cut ins (e + 1)) eqn:Ecut; [done|]. exfalso. pose proof (bd_all _ _ _ Hb j y Hy) as H1.
      rewrite (blk_next_real ins (e + 1) j ltac:(lia) Hn Hlt), (blk_pred ins (e + 1)), Z.add_simpl_r, (bd_e _ _ _ Hb), Ecut in H1 by lia. lia. }
    exists y. split_and!; [done| |by left]. intros k z Hz Ek. destruct (decide (j <= k)); [done|]. exfalso.
    destruct (decide (k <= e)) as [Hke|Hke].
    + pose proof (blk_mono ins k e Hke). rewrite (bd_e _ _ _ Hb) in *. lia.
    + destruct (nr_labels _ _ _ Hn k) as [name Hname]; [lia|]. destruct Hz. by simplify_eq.
Qed.

(** * Ways through instructions and ways through blocks *)

Lemma flow_edge i j : edge (flow_succs ins) i j <-> 0 <= i < N /\ j ∈ instr_succs ins i.
Proof using.
  assert (zlen (instr_succs ins <$> seqZ 0 N) = N) as El by (rewrite zlen_fmap; unfold zlen; rewrite length_seqZ; pose proof (zlen_nonneg ins); lia).
  unfold edge, flow_succs. rewrite zread_app, El. destruct (Z.ltb_spec i N) as [Hi|Hi].
  - rewrite zread_fmap. split.
    + intros (ns & Hns & Hj). destruct (zread (seqZ 0 N) i) as [k|] eqn:Hk; [|done]. injection Hns as <-.
      pose proof (zread_range _ _ _ Hk). rewrite zread_lookup in Hk by lia. apply lookup_seqZ in Hk as [-> _]. rewrite Z2Nat.id in Hj by lia.
      rewrite Z.add_0_l in Hj. split; [lia|done].
    + intros [Hr Hj]. exists (instr_succs ins i). split; [|done]. rewrite zread_lookup, lookup_seqZ_lt by lia. simpl. do 2 f_equal. lia.
  - split; [|lia]. intros (ns & Hns & Hj). pose proof (zread_range _ _ _ Hns) as Hr. change (zlen ([[]] : list iset)) with 1 in Hr.
    assert (i - N = 0) as E by lia. rewrite E in Hns. injection Hns as <-. by apply elem_of_nil in Hj.
Qed.

Context (bs : list basic_block_t) (HL : linked_by block_edge bs0 bs).
Abbreviation succs := (successor_ids <$> bs).

Lemma block_edge_iff h t : edge succs h t <-> block_edge h t.
Proof using HL.
  unfold edge. rewrite zread_fmap. split.
  - intros (ns & Hns & Ht). destruct (zread bs h) as [B|] eqn:HB; [|done]. injection Hns as <-.
    pose proof (zread_range _ _ _ HB) as Hr. rewrite (lb_len _ _ _ HL) in Hr. destruct (zread_is_some bs0 h Hr) as [B0 H0].
    destruct (lb_blocks _ _ _ HL h B0 H0) as (P & S & E & HS & _). rewrite E in HB. injection HB as <-. by apply HS.
  - intros He. pose proof He as (e & j & [s Es] & _). destruct (lb_blocks _ _ _ HL h _ Es) as (P & S & E & HS & _).
    rewrite E. exists S. split; [done|]. by apply HS.
Qed.

(** An instruction or the return. *)
Definition node (i : Z) : Prop := i = N \/ exists x, real_at ins i x.
Lemma node_range i : node i -> 0 <= i <= N.
Proof using. intros [->|[x Hx]]; [pose proof (zlen_nonneg ins); lia|]. pose proof (real_lt i x Hx). lia. Qed.
Lemma block_of_node i : node i -> block_of ins i = X <-> i = N.
Proof using Hc.
  intros [->|[x Hx]]; [rewrite (block_of_return ins bs0 bb Hc); done|]. pose proof (real_lt i x Hx). rewrite block_of_real by lia.
  pose proof (blk_range ins bs0 bb Hc i ltac:(lia)). lia.
Qed.

(** A step from an instruction stays in its block or follows a link. *)
Lemma step_cases i x j : real_at ins i x -> j ∈ instr_succs ins i -> node j /\
  ((j = i + 1 /\ block_of ins j = blk ins i) \/
   (block_end (blk ins i) i /\ block_edge (blk ins i) (block_of ins j) /\
    forall k y, real_at ins k y -> blk ins k = block_of ins j -> j <= k)).
Proof using Hf Hc.
  intros Hx Hj. pose proof (real_lt i x Hx) as Hr. pose proof (blk_range ins bs0 bb Hc i ltac:(lia)) as Hb.
  destruct (block_bounds (blk ins i) Hb) as (s & e & E & Hbd). destruct (Z.eq_dec i e) as [<-|Hne].
  - assert (block_end (blk ins i) i) as He by (by exists s). destruct (succ_begins _ _ j He Hj) as [->|(y & Hy & Hbeg & _)].
    + split; [by left|]. right. split_and!; [done|by exists i, N|]. intros k y Hk Ek. rewrite (block_of_return ins bs0 bb Hc) in Ek.
      pose proof (real_lt k y Hk). pose proof (blk_range ins bs0 bb Hc k ltac:(lia)). lia.
    + pose proof (real_lt j y Hy). split; [right; by exists y|]. right. split_and!; [done|by exists i, j|]. rewrite block_of_real by lia. done.
  - destruct (inside_block i x (blk ins i) s e Hx Hbd eq_refl Hne) as ([y Hy] & Eb & Es). rewrite Es in Hj.
    apply list_elem_of_singleton in Hj as ->. split; [right; by exists y|]. left. split; [done|]. pose proof (real_lt _ _ Hy). by rewrite block_of_real by lia.
Qed.

(** A way through instructions is a way through blocks: it has all of every later block,
    and of its first block all from its start on. *)
Lemma to_blocks i l : node i -> path (flow_succs ins) N i l ->
  exists lb, path succs X (block_of ins i) (block_of ins i :: lb) /\
    (forall k x, real_at ins k x -> blk ins k = block_of ins i -> i <= k -> k ∈ l) /\
    (forall k x, real_at ins k x -> blk ins k ∈ lb -> k ∈ l) /\ (forall k, k ∈ l -> node k).
Proof using Hf Hc HL.
  intros Hi Hp. induction Hp as [|i j l He Hp IH].
  - exists []. rewrite (block_of_return ins bs0 bb Hc). split_and!; [constructor| |set_solver|set_solver].
    intros k x Hk _ Hle. pose proof (real_lt k x Hk). lia.
  - apply flow_edge in He as [Hr Hj]. destruct Hi as [->|[x Hx]]; [lia|]. destruct (step_cases i x j Hx Hj) as [Hnj Hcase].
    destruct (IH Hnj) as (lb & H1 & H2 & H3 & H4). rewrite (block_of_real ins i) by lia. destruct Hcase as [[-> Eb]|(He & Hedge & Hbeg)].
    + rewrite Eb in *. exists lb. split_and!; [done| | |].
      * intros k y Hk Ek Hle. destruct (Z.eq_dec k i) as [->|]; [left|]. right. apply (H2 k y); [done|done|lia].
      * intros k y Hk Hin. right. by apply (H3 k y).
      * intros k [->|Hk]%elem_of_cons; [right; by exists x|by apply H4].
    + exists (block_of ins j :: lb). split_and!.
      * eapply path_step; [by apply block_edge_iff|done].
      * intros k y Hk Ek Hle. destruct He as [s Es]. destruct (block_bounds (blk ins i)) as (s' & e' & E' & Hbd).
        { apply (blk_range ins bs0 bb Hc). lia. }
        rewrite E' in Es. injection Es as _ ->. pose proof (bd_all _ _ _ Hbd k y Hk Ek). assert (k = i) as -> by lia. left.
      * intros k y Hk [Ek|Hin]%elem_of_cons; right; [|by apply (H3 k y)]. apply (H2 k y); [done|done|by eapply Hbeg].
      * intros k [->|Hk]%elem_of_cons; [right; by exists x|by apply H4].
Qed.

(** From an instruction of a block to its end. *)
Lemma block_suffix i x e l : real_at ins i x -> block_end (blk ins i) e -> path (flow_succs ins) N e (e :: l) ->
  exists l', path (flow_succs ins) N i (l' ++ e :: l) /\ forall k, k ∈ l' -> (exists y, real_at ins k y) /\ blk ins k = blk ins i /\ i <= k.
Proof using Hf Hc.
  intros Hx [s Es] Hp. destruct (block_bounds (blk ins i)) as (s' & e' & E' & Hbd).
  { apply (blk_range ins bs0 bb Hc). by eapply real_lt. }
  rewrite E' in Es. injection Es as -> ->. pose proof (bd_all _ _ _ Hbd i x Hx eq_refl) as Hie.
  remember (Z.to_nat (e - i)) as d eqn:Ed. remember (blk ins i) as b eqn:Eb. revert i x Hx Eb Hie Ed.
  induction d as [|d IH]; intros i x Hx Eb Hie Ed.
  - assert (i = e) as -> by lia. exists []. split; [done|]. by intros k ?%elem_of_nil.
  - destruct (inside_block i x b s e Hx Hbd (eq_sym Eb) ltac:(lia)) as ([y Hy] & Ey & Esucc).
    destruct (IH (i + 1) y Hy (eq_sym Ey) ltac:(lia) ltac:(lia)) as (l' & Hl' & Hin). exists (i :: l'). split.
    + simpl. econstructor; [|exact Hl']. apply flow_edge. split; [by eapply real_lt|]. rewrite Esucc. left.
    + intros k [->|Hk]%elem_of_cons; [split_and!; [by exists x|done|lia]|]. destruct (Hin k Hk) as (H1 & H2 & H3). split_and!; [done|done|lia].
Qed.

(** A way through blocks can be taken through their instructions. *)
Lemma to_instructions b lb i : path succs X b lb -> node i -> block_of ins i = b ->
  exists l, path (flow_succs ins) N i l /\ forall k x, k ∈ l -> real_at ins k x -> (blk ins k = b /\ i <= k) \/ blk ins k ∈ tail lb.
Proof using Hf Hc HL.
  intros Hp. revert i. induction Hp as [|b t lb He Hp IH]; intros i Hi Eb.
  - apply block_of_node in Eb as ->; [|done]. exists [N]. split; [constructor|]. intros k x ->%list_elem_of_singleton Hk. apply real_lt in Hk. lia.
  - apply block_edge_iff in He as (e & j & Hend & Hj & ->). pose proof Hend as [s Es]. pose proof (zread_range _ _ _ Es) as Hbr.
    assert (b <> X) as HbX by (intros ->; rewrite (ci_exit _ _ _ Hc) in Es; done).
    destruct (block_bounds b ltac:(lia)) as (s' & e' & E' & Hbd). rewrite E' in Es. injection Es as -> ->.
    destruct (bd_end _ _ _ Hbd) as [z Hz]. destruct (step_cases e z j Hz Hj) as [Hnj _].
    destruct (IH j Hnj eq_refl) as (l & Hl & Hin). destruct (path_head _ _ _ _ Hp) as [lb' ->].
    destruct Hi as [->|[x Hx]]; [rewrite (block_of_return ins bs0 bb Hc) in Eb; lia|]. pose proof (real_lt i x Hx) as Hir.
    rewrite block_of_real in Eb by lia.
    assert (path (flow_succs ins) N e (e :: l)) as Hpe by (econstructor; [apply flow_edge; split; [by eapply real_lt|done]|done]).
    destruct (block_suffix i x e l Hx) as (l' & Hl' & Hin'); [rewrite Eb; by exists s|done|]. exists (l' ++ e :: l). split; [done|].
    pose proof (bd_all _ _ _ Hbd i x Hx Eb) as Hie. intros k y. rewrite elem_of_app, elem_of_cons. intros [Hk|[->|Hk]] Hy.
    + left. destruct (Hin' k Hk) as (_ & H2 & H3). split; [congruence|done].
    + left. split; [apply (bd_e _ _ _ Hbd)|lia].
    + right. simpl. destruct (Hin k y Hk Hy) as [[H1 _]|H1]; [rewrite H1; left|]. simpl in H1. by right.
Qed.

Lemma flow_size : zlen (flow_succs ins) = N + 1.
Proof using. unfold flow_succs. rewrite zlen_app, zlen_fmap. unfold zlen at 1. rewrite length_seqZ. pose proof (zlen_nonneg ins). change (zlen ([[]] : list iset)) with 1. lia. Qed.
Lemma succs_size : zlen succs = zlen bs0.
Proof using HL. rewrite zlen_fmap. apply HL. Qed.

(** Where block [m] begins. *)
Definition begins (m j : Z) : Prop :=
  (m = X /\ j = N) \/ (m <> X /\ exists e, zread bs0 m = Some (basic_block_new m (Some j) (Some e) (m =? 0) false)).

Lemma begins_exists m : 0 <= m <= X -> exists j, begins m j.
Proof using Hc.
  intros Hm. destruct (Z.eq_dec m X) as [->|Hne]; [exists N; by left|]. destruct (block_bounds m ltac:(lia)) as (s & e & E & _).
  exists s. right. split; [done|]. by exists e.
Qed.
Lemma begins_first m j : begins m j -> node j /\ block_of ins j = m /\ forall k x, real_at ins k x -> blk ins k = m -> j <= k.
Proof using Hc.
  intros [[-> ->]|(Hne & e & E)].
  - split_and!; [by left|apply (block_of_return ins bs0 bb Hc)|]. intros k x Hk Ek. pose proof (real_lt k x Hk).
    pose proof (blk_range ins bs0 bb Hc k ltac:(lia)). lia.
  - pose proof (zread_range _ _ _ E). destruct (block_bounds m ltac:(lia)) as (s & e' & E' & Hbd). rewrite E' in E. injection E as -> ->.
    destruct (bd_begin _ _ _ Hbd) as [x Hx]. pose proof (real_lt j x Hx). rewrite block_of_real by lia.
    split_and!; [right; by exists x|apply Hbd|]. intros k y Hk Ek. by apply (bd_all _ _ _ Hbd k y).
Qed.

Lemma meets_at_postdominator i x m j : real_at ins i x -> block_end (blk ins i) i -> leads_to_return ins i ->
  immediate succs X m (blk ins i) -> begins m j -> meets_at ins j i.
Proof using Hf Hc HL.
  intros Hx Hend [l0 Hl0] (Hm & Hmb & Hpd & Hnear) Hbeg. rewrite succs_size in Hm. pose proof (real_lt i x Hx) as Hi.
  destruct (begins_first m j Hbeg) as (Hnj & Ej & Hfirst). pose proof (node_range j Hnj) as Hj.
  assert (node i) as Hni by (right; by exists x). assert (block_of ins i = blk ins i) as Ei by (apply block_of_real; lia).
  assert (forall k y, real_at ins k y -> blk ins k = blk ins i -> k <= i) as Hlast.
  { intros k y Hk Ek. destruct Hend as [s Es]. pose proof (zread_range _ _ _ Es). pose proof (blk_range ins bs0 bb Hc i ltac:(lia)).
    destruct (block_bounds (blk ins i) ltac:(lia)) as (s' & e' & E' & Hbd). rewrite E' in Es. injection Es as _ ->.
    by apply (bd_all _ _ _ Hbd k y). }
  unfold meets_at, immediate. rewrite flow_size. split_and!; [lia|lia| | |].
  - intros ->. apply Hmb. by rewrite <- Ej, Ei.
  - intros l Hl. destruct (to_blocks i l Hni Hl) as (lb & H1 & _ & H3 & _). rewrite Ei in H1. specialize (Hpd _ H1).
    apply elem_of_cons in Hpd as [|Hpd]; [done|]. destruct Hnj as [->|[y Hy]]; [by eapply path_root_in|].
    apply (H3 j y Hy). rewrite <- Ej, block_of_real in Hpd by (apply real_lt in Hy; lia). done.
  - intros k Hkr Hki Hdom p Hp. pose proof (to_blocks i l0 Hni Hl0) as (lb0 & Hlb0 & _ & _ & Hnodes).
    destruct (Hnodes k (Hdom l0 Hl0)) as [->|[y Hy]]; [by eapply path_root_in|].
    assert (forall lb, path succs X (blk ins i) lb -> blk ins k ∈ tail lb) as Hall.
    { intros lb Hlb. destruct (to_instructions _ lb i Hlb Hni Ei) as (l & Hl & Hin).
      destruct (Hin k y (Hdom l Hl) Hy) as [[H1 H2]|]; [|done]. specialize (Hlast k y Hy H1). lia. }
    rewrite Ei in Hlb0. destruct (path_once _ _ _ _ Hlb0) as (l1 & Hl1 & Hnot). pose proof (Hall _ Hl1) as Hin1. simpl in Hin1.
    assert (dominates succs X (blk ins k) m) as Hkm.
    { apply Hnear; [rewrite succs_size; pose proof (real_lt k y Hy); pose proof (blk_range ins bs0 bb Hc k ltac:(lia)); lia|congruence|].
      intros lb Hlb. specialize (Hall lb Hlb). destruct lb; [set_solver|]. by right. }
    destruct (to_blocks j p Hnj Hp) as (lb & H1 & H2 & H3 & _). rewrite Ej in H1, H2. specialize (Hkm _ H1).
    apply elem_of_cons in Hkm as [Ek|Hin]; [|by apply (H3 k y)]. apply (H2 k y); [done|done|by apply (Hfirst k y)].
Qed.

(** ** The conditions of the analysis *)

Lemma edge_range h t : block_edge h t -> 0 <= h < X /\ 0 < t <= X.
Proof using Hf Hc.
  intros (e & j & Hend & Hj & ->). pose proof Hend as [s Es]. pose proof (zread_range _ _ _ Es) as Hr.
  assert (h <> X) as HhX by (intros ->; rewrite (ci_exit _ _ _ Hc) in Es; done). split; [lia|].
  pose proof (blk_nonneg ins (N - 1)). pose proof (ci_count _ _ _ Hc).
  destruct (succ_begins h e j Hend Hj) as [->|(x & Hx & Hbeg & Hor)]; [rewrite (block_of_return ins bs0 bb Hc); lia|].
  pose proof (real_lt j x Hx). rewrite block_of_real by lia. pose proof (blk_range ins bs0 bb Hc j ltac:(lia)) as Hjr.
  split; [|lia]. destruct (Z.eq_dec (blk ins j) 0) as [E0|]; [|lia]. exfalso.
  destruct Hor as [|(y & p & Hy & Hb & Hp & ->)]; [lia|]. apply (fo_entry _ Hf e y p Hy Hb Hp).
  pose proof (fo_first _ Hf) as [Hpos _]. pose proof (find_next_real_spec ins 0 ltac:(lia)) as Hn0.
  pose proof (nr_range _ _ _ Hn0) as Hr0. set (j := find_next_real_instruction ins p) in *. set (j0 := find_next_real_instruction ins 0) in *.
  assert (j0 <= j) as Hle.
  { destruct (decide (j0 <= j)); [done|]. destruct (nr_labels _ _ _ Hn0 j) as [name Hname]; [lia|]. destruct Hx. by simplify_eq. }
  destruct (nr_real _ _ _ Hn0 ltac:(lia)) as [z Hz]. assert (blk ins j0 = 0) as Ej0.
  { rewrite (blk_next_real ins 0 j0 ltac:(lia) Hn0 ltac:(lia)). by apply blk_0. }
  specialize (Hbeg j0 z Hz ltac:(lia)). lia.
Qed.

Lemma linked_block k B : zread bs k = Some B -> exists B0 P S, zread bs0 k = Some B0 /\ B = set_links B0 P S /\
  (forall t, t ∈ S <-> block_edge k t) /\ (forall h, h ∈ P <-> block_edge h k).
Proof using HL.
  intros HB. pose proof (zread_range _ _ _ HB) as Hr. rewrite (lb_len _ _ _ HL) in Hr. destruct (zread_is_some bs0 k Hr) as [B0 H0].
  destruct (lb_blocks _ _ _ HL k B0 H0) as (P & S & E & HS & HP). rewrite E in HB. injection HB as <-. by exists B0, P, S.
Qed.
Lemma cut_fresh k B0 : zread bs0 k = Some B0 -> bb_id B0 = k /\ dominator_ids B0 = [] /\ postdominator_ids B0 = [].
Proof using Hc.
  intros HB. split; [by eapply (cut_numbered ins bs0 bb Hc)|]. pose proof (zread_range _ _ _ HB). destruct (Z.eq_dec k X) as [->|Hne].
  - rewrite (ci_exit _ _ _ Hc) in HB. by injection HB as <-.
  - destruct (block_bounds k ltac:(lia)) as (s & e & E & _). rewrite E in HB. by injection HB as <-.
Qed.
Lemma blocks_size : 2 <= zlen bs.
Proof using Hc HL. rewrite (lb_len _ _ _ HL), (ci_count _ _ _ Hc). pose proof (blk_nonneg ins (N - 1)). lia. Qed.
Lemma linked_numbered : numbered bs = true.
Proof using Hc HL.
  apply numbered_at_spec. intros k Hk%elem_of_seqZ. destruct (zread_is_some bs k) as [B HB]; [lia|]. exists B. split; [done|].
  destruct (linked_block k B HB) as (B0 & P & S & H0 & -> & _). simpl. by apply cut_fresh.
Qed.

Lemma linked_entry_graph : entry_graph bs.
Proof using Hf Hc HL.
  split; [apply blocks_size|apply linked_numbered| |].
  - intros B h (k & _ & HB)%elem_of_zread Hh. destruct (linked_block k B HB) as (B0 & P & S & H0 & -> & _ & HP). simpl in Hh.
    apply HP, edge_range in Hh as [Hh _]. rewrite (lb_len _ _ _ HL). lia.
  - intros B (k & _ & HB)%elem_of_zread. destruct (linked_block k B HB) as (B0 & P & S & H0 & -> & _). simpl. by apply (cut_fresh k).
Qed.
Lemma entry_has_no_predecessors : exists B, zread bs 0 = Some B /\ predecessor_ids B = [].
Proof using Hf Hc HL.
  destruct (zread_is_some bs 0) as [B HB]; [pose proof blocks_size; lia|]. exists B. split; [done|].
  destruct (linked_block 0 B HB) as (B0 & P & S & H0 & -> & _ & HP). simpl. destruct P as [|h P]; [done|].
  assert (block_edge h 0) as He by (apply HP; left). apply edge_range in He. lia.
Qed.
End graph.

(** * The pairs *)

Definition recon_of (f : function_info) (e : Z) (D : basic_block_t) : gpgpu_recon_t :=
  match ptx_begin D with
  | Some j => mkRecon (get_PC (fi_code f) e) (get_PC (fi_code f) j) e (Some j)
  | None => mkRecon (get_PC (fi_code f) e) RETURN_POINT e None
  end.

(** The pair of block [B], that ends in a branch. *)
Definition has_pair (f : function_info) (B : basic_block_t) (r : gpgpu_recon_t) : Prop :=
  exists e x D, ptx_end B = Some e /\ zread (m_instructions (fi_code f)) e = Some x /\ is_branch x = true /\
    zread (m_basic_blocks f) (immediatepostdominator_id B) = Some D /\ r = recon_of f e D.

Lemma recon_pairs_ok f l :
  (forall B, B ∈ l -> exists e x, ptx_end B = Some e /\ zread (m_instructions (fi_code f)) e = Some x /\
     (is_branch x = true -> exists D, zread (m_basic_blocks f) (immediatepostdominator_id B) = Some D)) ->
  exists rs, recon_pairs f l = Ok rs /\ forall r, r ∈ rs <-> exists B, B ∈ l /\ has_pair f B r.
Proof.
  induction l as [|B l IH]; intros H; simpl; [exists []; split; [done|]; set_solver|].
  destruct (H B ltac:(left)) as (e & x & He & Hx & HD). destruct IH as (rs & Ers & Hrs); [intros; apply H; by right|].
  rewrite He. unfold instruction. rewrite (proj2 (aread_ok _ _ _) Hx), bind_of_ok. fold (is_branch x). destruct (is_branch x) eqn:Eb.
  - destruct HD as [D HD]; [done|]. rewrite (proj2 (aread_ok _ _ _) HD), bind_of_ok, Ers, bind_of_ok. exists (recon_of f e D :: rs).
    split; [unfold recon_of; by destruct (ptx_begin D)|]. intros r. rewrite elem_of_cons, Hrs. split.
    + intros [->|(B' & HB' & Hp)]; [exists B; split; [left|]; by exists e, x, D|]. exists B'. split; [by right|done].
    + intros (B' & [->|HB']%elem_of_cons & Hp); [left|right; by exists B'].
      destruct Hp as (e' & x' & D' & E1 & E2 & _ & E4 & ->). by simplify_eq.
  - rewrite Ers. exists rs. split; [done|]. intros r. rewrite Hrs. split.
    + intros (B' & HB' & Hp). exists B'. split; [by right|done].
    + intros (B' & [->|HB']%elem_of_cons & Hp); [|by exists B']. destruct Hp as (e' & x' & D' & E1 & E2 & E3 & _). simplify_eq.
      congruence.
Qed.

Lemma converge_in_found rs pc r : r ∈ rs -> source_pc r = pc -> (forall r', r' ∈ rs -> source_pc r' = pc -> target_pc r' = target_pc r) ->
  converge_in rs pc = target_pc r.
Proof.
  intros Hr Hpc Hu. unfold converge_in. destruct (find _ rs) as [r'|] eqn:E.
  - apply find_some in E as [Hin Hs]. apply Hu; [by apply list_elem_of_In|by apply Z.eqb_eq].
  - apply list_elem_of_In in Hr. pose proof (find_none _ _ E r Hr) as H. cbv beta in H. rewrite (proj2 (Z.eqb_eq _ _) Hpc) in H. done.
Qed.
Lemma converge_in_none rs pc : (forall r, r ∈ rs -> source_pc r <> pc) -> converge_in rs pc = NO_BRANCH_DIVERGENCE.
Proof.
  intros H. unfold converge_in. destruct (find _ rs) as [r|] eqn:E; [|done]. apply find_some in E as [Hin Hs].
  apply Z.eqb_eq in Hs. exfalso. by apply (H r); [apply list_elem_of_In|].
Qed.

(** * Functions without breaks *)

Lemma no_breaks f hs : (forall h, h ∈ hs -> exists B, zread (m_basic_blocks f) h = Some B /\
    (is_exit B = true \/ exists e x, ptx_end B = Some e /\ zread (m_instructions (fi_code f)) e = Some x /\ get_opcode x <> BREAK_OP)) ->
  break_blocks hs (f, false) = Ok (f, false).
Proof.
  induction hs as [|h hs IH]; intros H; simpl; [done|]. destruct (H h ltac:(left)) as (B & HB & Hor).
  rewrite (proj2 (aread_ok _ _ _) HB), bind_of_ok. destruct Hor as [->|(e & x & He & Hx & Hop)].
  - rewrite bind_of_ok. apply IH. intros; apply H; by right.
  - destruct (is_exit B); [rewrite bind_of_ok; apply IH; intros; apply H; by right|].
    rewrite He. unfold instruction. rewrite (proj2 (aread_ok _ _ _) Hx), bind_of_ok, bool_decide_eq_false_2, bind_of_ok by done.
    apply IH. intros; apply H; by right.
Qed.

(** * The assembly *)

Section whole.
Context (fid : Z) (ins : list ptx_instruction) (c : code) (g g' : loader) (bs0 bs : list basic_block_t) (bb : gmap Z Z).
Context (Hf : function_ok ins) (Ha : assembled fid ins c g g') (Hc : cut_into ins bs0 bb) (HL : linked_by (block_edge ins bs0) bs0 bs).
Context (Hret : forall i x, real_at ins i x -> leads_to_return ins i).

Lemma settle_breaks_ok : exists bs2, settle_breaks 1 (mkFunction c bs bb) = Ok (mkFunction c bs2 bb) /\ zlen bs2 = zlen bs /\
  forall k B, zread bs k = Some B -> exists D T I, zread bs2 k = Some (set_idom (set_dominators B D) T I).
Proof using Hf Ha Hc HL.
  destruct (entry_has_no_predecessors ins Hf bs0 bb Hc bs HL) as (be & Hbe & Hp).
  destruct (idominators_spec bs be (linked_entry_graph ins Hf bs0 bb Hc bs HL) Hbe) as (bs1 & tmps & doms & E1 & E2 & Hl1 & Hlt & Hat & _).
  rewrite bool_decide_eq_true_2 in E2 by done. cbn [settle_breaks m_basic_blocks]. rewrite E1, bind_of_ok, E2, bind_of_ok.
  set (bs2 := zip_with _ _ _).
  assert (forall k B, zread bs k = Some B -> exists D T I, zread bs2 k = Some (set_idom (set_dominators B D) T I)) as H2.
  { intros k B HB. unfold bs2. rewrite (zread_after bs1 tmps ltac:(lia) _ k _ (Hat k B HB)). by eexists _, _, _. }
  assert (zlen bs2 = zlen bs) as Hl2 by (unfold bs2; rewrite zlen_zip_with; lia).
  exists bs2. split; [|done]. unfold connect_break_targets, with_blocks. cbn [m_basic_blocks fi_code m_basic_block].
  rewrite no_breaks, bind_of_ok; [done|]. cbn [m_basic_blocks fi_code]. intros h Hh%elem_of_seqZ. rewrite Hl2 in Hh.
  destruct (zread_is_some bs h) as [B HB]; [lia|]. destruct (H2 h B HB) as (D & T & I & E). eexists. split; [exact E|]. simpl.
  destruct (linked_block ins bs0 bs HL h B HB) as (B0 & P & S & H0 & -> & _). simpl. pose proof (zread_range _ _ _ H0) as Hr.
  destruct (Z.eq_dec h (zlen bs0 - 1)) as [->|Hne].
  - left. rewrite (ci_exit _ _ _ Hc) in H0. by injection H0 as <-.
  - right. destruct (block_bounds ins bs0 bb Hc h ltac:(lia)) as (s & e & E' & Hbd). rewrite E' in H0. injection H0 as <-.
    destruct (bd_end _ _ _ _ Hbd) as [x Hx]. exists e, x. rewrite (as_ins _ _ _ _ _ Ha). split_and!; [done|apply Hx|]. by apply (fo_plain _ Hf e).
Qed.

(** The blocks at the end: where they begin and end, and their immediate postdominators. *)
Record analysed (bs3 : list basic_block_t) : Prop := {
  an_len : zlen bs3 = zlen bs0;
  an_blocks : forall k B0, zread bs0 k = Some B0 -> exists B3, zread bs3 k = Some B3 /\ ptx_begin B3 = ptx_begin B0 /\ ptx_end B3 = ptx_end B0 /\
    (k <> zlen bs0 - 1 -> immediate (successor_ids <$> bs) (zlen bs0 - 1) (immediatepostdominator_id B3) k) }.

Lemma postdominators_ok bs2 : zlen bs2 = zlen bs ->
  (forall k B, zread bs k = Some B -> exists D T I, zread bs2 k = Some (set_idom (set_dominators B D) T I)) ->
  exists bs3, (bs' ← find_postdominators bs2; find_ipostdominators bs') = Ok bs3 /\ analysed bs3.
Proof using Hf Hc HL Hret.
  intros Hl2 H2. pose proof (lb_len _ _ _ HL) as Hl.
  assert (successor_ids <$> bs2 = successor_ids <$> bs) as Es.
  { apply zread_ext; [by rewrite !zlen_fmap|]. intros k Hk. rewrite zlen_fmap in Hk. rewrite !zread_fmap.
    destruct (zread_is_some bs k) as [B HB]; [lia|]. destruct (H2 k B HB) as (D & T & I & E). by rewrite E, HB. }
  assert (forall k B2, zread bs2 k = Some B2 -> exists B0 P S D T I, zread bs0 k = Some B0 /\
    B2 = set_idom (set_dominators (set_links B0 P S) D) T I /\ forall t, t ∈ S <-> block_edge ins bs0 k t) as Hb2.
  { intros k B2 HB2. pose proof (zread_range _ _ _ HB2). destruct (zread_is_some bs k) as [B HB]; [lia|]. destruct (H2 k B HB) as (D & T & I & E).
    rewrite E in HB2. injection HB2 as <-. destruct (linked_block ins bs0 bs HL k B HB) as (B0 & P & S & H0 & -> & HS & _).
    by exists B0, P, S, D, T, I. }
  assert (exit_graph bs2) as HG.
  { split.
    - rewrite Hl2. apply (blocks_size ins bs0 bb Hc bs HL).
    - apply numbered_at_spec. intros k Hk%elem_of_seqZ. destruct (zread_is_some bs2 k) as [B HB]; [lia|]. exists B. split; [done|].
      destruct (Hb2 k B HB) as (B0 & P & S & D & T & I & H0 & -> & _). simpl. by apply (cut_fresh ins bs0 bb Hc).
    - intros B t (k & _ & HB)%elem_of_zread Ht. destruct (Hb2 k B HB) as (B0 & P & S & D & T & I & H0 & -> & HS). simpl in Ht.
      apply HS, (edge_range ins Hf bs0 bb Hc) in Ht. lia.
    - intros B (k & _ & HB)%elem_of_zread. destruct (Hb2 k B HB) as (B0 & P & S & D & T & I & H0 & -> & _). simpl.
      by apply (cut_fresh ins bs0 bb Hc k). }
  destruct (reconvergence_blocks bs2 HG) as (bs3 & E & Hl3 & H3).
  { intros h Hh. unfold reaches_exit. rewrite Es, Hl2, Hl in *. destruct (Z.eq_dec h (zlen bs0 - 1)) as [->|Hne]; [eexists; constructor|].
    destruct (block_bounds ins bs0 bb Hc h ltac:(lia)) as (s & e & _ & Hbd). destruct (bd_end _ _ _ _ Hbd) as [x Hx].
    destruct (Hret e x Hx) as [l Hp]. destruct (to_blocks ins Hf bs0 bb Hc bs HL e l ltac:(right; by exists x) Hp) as (lb & Hlb & _).
    rewrite block_of_real, (bd_e _ _ _ _ Hbd) in Hlb by (by eapply real_lt). by eexists. }
  exists bs3. split; [done|]. split; [lia|]. intros k B0 H0. pose proof (zread_range _ _ _ H0). destruct (zread_is_some bs2 k) as [B2 HB2]; [lia|].
  destruct (H3 k B2 HB2) as (d & t & m & E3 & Hm). eexists. split; [exact E3|]. destruct (Hb2 k B2 HB2) as (B0' & P & S & D & T & I & H0' & -> & _).
  rewrite H0 in H0'. injection H0' as <-. simpl. split_and!; [done|done|]. intros Hne. rewrite Hl2, Hl in Hm.
  rewrite (proj2 (Z.eqb_neq _ _)) in Hm by done. unfold immediate_postdominator in Hm. by rewrite Es, Hl2, Hl in Hm.
Qed.

Context (start : Z) (Hk : code_ok ins start) (bs3 : list basic_block_t) (H3 : analysed bs3).
Let f := mkFunction c bs3 bb.

Lemma pc_injective i j x y : real_at ins i x -> real_at ins j y -> get_PC c i = get_PC c j -> i = j.
Proof using Ha Hk.
  intros Hx Hy. rewrite (as_pcs _ _ _ _ _ Ha i x Hx), (as_pcs _ _ _ _ _ Ha j y Hy). intros E.
  eapply (offset_inj ins start Hk i j x y Hx Hy). lia.
Qed.

(** A branch is the last instruction of its block. *)
Lemma branch_ends i x : real_at ins i x -> is_branch x = true -> block_end bs0 (blk ins i) i.
Proof using Hc.
  intros Hx Hb. pose proof (real_lt ins i x Hx). pose proof (blk_range ins bs0 bb Hc i ltac:(lia)) as Hr.
  destruct (block_bounds ins bs0 bb Hc (blk ins i) Hr) as (s & e & E & Hbd). destruct (Z.eq_dec i e) as [->|Hne]; [by exists s|]. exfalso.
  destruct (bd_end _ _ _ _ Hbd) as [z Hz]. pose proof (real_lt ins e z Hz). pose proof (bd_all _ _ _ _ Hbd i x Hx eq_refl).
  pose proof (find_next_real_spec ins (i + 1) ltac:(lia)) as Hn. pose proof (nr_range _ _ _ Hn).
  assert (find_next_real_instruction ins (i + 1) <= e) as Hle.
  { destruct (decide (find_next_real_instruction ins (i + 1) <= e)); [done|]. destruct (nr_labels _ _ _ Hn e) as [name Hname]; [lia|].
    destruct Hz. by simplify_eq. }
  assert (ends_block x = true) as Ee by (unfold is_branch in Hb; apply bool_decide_eq_true in Hb; unfold ends_block; by rewrite Hb).
  pose proof (cut_after ins i x Hx ltac:(lia) ltac:(by left)) as Ecut. pose proof (blk_pred ins (i + 1) ltac:(lia)) as Hpred.
  rewrite Ecut, Z.add_simpl_r in Hpred. pose proof (blk_mono ins (i + 1) e ltac:(lia)). rewrite (bd_e _ _ _ _ Hbd) in *. lia.
Qed.

(** The blocks that are searched, by their ends. *)
Lemma ending_block B3 : B3 ∈ take (length bs3 - 1) bs3 -> exists e x, real_at ins e x /\ ptx_end B3 = Some e /\ zread bs3 (blk ins e) = Some B3.
Proof using Hc H3.
  intros (k & Hk' & Hlt)%elem_of_take. pose proof (an_len _ H3) as Hl. assert (Z.of_nat k < zlen bs0 - 1) as Hlt' by (unfold zlen in *; lia).
  destruct (block_bounds ins bs0 bb Hc (Z.of_nat k) ltac:(lia)) as (s & e & E & Hbd). destruct (an_blocks _ H3 _ _ E) as (B3' & HB & _ & He & _).
  rewrite zread_of_nat, Hk' in HB. injection HB as <-. destruct (bd_end _ _ _ _ Hbd) as [x Hx]. exists e, x.
  rewrite (bd_e _ _ _ _ Hbd), zread_of_nat. by split_and!.
Qed.
Lemma block_searched i x B3 : real_at ins i x -> zread bs3 (blk ins i) = Some B3 -> B3 ∈ take (length bs3 - 1) bs3.
Proof using Hc H3.
  intros Hx HB. pose proof (real_lt ins i x Hx). pose proof (blk_range ins bs0 bb Hc i ltac:(lia)). pose proof (an_len _ H3).
  apply elem_of_take. exists (Z.to_nat (blk ins i)). rewrite zread_lookup in HB by lia. split; [done|]. unfold zlen in *. lia.
Qed.

Lemma postdominator_block k B3 : 0 <= k < zlen bs0 - 1 -> zread bs3 k = Some B3 -> exists D j, zread bs3 (immediatepostdominator_id B3) = Some D /\
  begins ins bs0 (immediatepostdominator_id B3) j /\ ptx_begin D = (if j =? zlen ins then None else Some j) /\
  immediate (successor_ids <$> bs) (zlen bs0 - 1) (immediatepostdominator_id B3) k.
Proof using Hc HL H3.
  intros Hkr HB. destruct (zread_is_some bs0 k) as [B0 H0]; [lia|]. destruct (an_blocks _ H3 k B0 H0) as (B3' & HB' & _ & _ & Him).
  rewrite HB in HB'. injection HB' as <-. specialize (Him ltac:(lia)). set (m := immediatepostdominator_id B3) in *.
  assert (0 <= m < zlen bs0) as Hm by (destruct Him as [Hm _]; by rewrite zlen_fmap, (lb_len _ _ _ HL) in Hm).
  destruct (zread_is_some bs0 m Hm) as [D0 HD0]. destruct (an_blocks _ H3 m D0 HD0) as (D & HD & Hbeg & _).
  destruct (begins_exists ins bs0 bb Hc m ltac:(lia)) as [j Hj]. exists D, j. split_and!; [done|done| |done].
  rewrite Hbeg. destruct Hj as [[Em ->]|(Hne & e & E)].
  - rewrite Em, (ci_exit _ _ _ Hc) in HD0. injection HD0 as <-. by rewrite Z.eqb_refl.
  - destruct (begins_first ins bs0 bb Hc m j ltac:(right; eauto)) as (Hn & Hb & _). rewrite E in HD0. injection HD0 as <-. simpl.
    destruct (Z.eqb_spec j (zlen ins)) as [->|]; [|done]. rewrite (block_of_return ins bs0 bb Hc) in Hb. lia.
Qed.

Lemma converge_points_ok i x : real_at ins i x -> exists rs, get_reconvergence_pairs f = Ok rs /\
  if is_branch x then exists j, meets_at ins j i /\ converge_in rs (get_PC c i) = (if j =? zlen ins then RETURN_POINT else get_PC c j)
  else converge_in rs (get_PC c i) = NO_BRANCH_DIVERGENCE.
Proof using All.
  intros Hx. assert (forall B, B ∈ take (length bs3 - 1) bs3 -> exists e y, real_at ins e y /\ ptx_end B = Some e /\
    zread bs3 (blk ins e) = Some B /\ exists D j, zread bs3 (immediatepostdominator_id B) = Some D /\
    begins ins bs0 (immediatepostdominator_id B) j /\ ptx_begin D = (if j =? zlen ins then None else Some j) /\
    immediate (successor_ids <$> bs) (zlen bs0 - 1) (immediatepostdominator_id B) (blk ins e)) as Hall.
  { intros B HB. destruct (ending_block B HB) as (e & y & Hy & He & Hz). exists e, y. split_and!; [done|done|done|].
    apply postdominator_block; [|done]. apply (blk_range ins bs0 bb Hc). by eapply real_lt. }
  destruct (recon_pairs_ok f (take (length bs3 - 1) bs3)) as (rs & Ers & Hrs).
  { intros B HB. destruct (Hall B HB) as (e & y & Hy & He & _ & D & j & HD & _). exists e, y. split_and!; [done| |by exists D].
    simpl. rewrite (as_ins _ _ _ _ _ Ha). apply Hy. }
  exists rs. split.
  { unfold get_reconvergence_pairs. simpl. destruct bs3 as [|B l] eqn:E; [|exact Ers].
    pose proof (an_len _ H3) as Hl. pose proof (blocks_size ins bs0 bb Hc bs HL) as H2. rewrite (lb_len _ _ _ HL), <- Hl in H2. unfold zlen in H2. simpl in H2. lia. }
  assert (forall r, r ∈ rs -> source_pc r = get_PC c i -> exists B D j, has_pair f B r /\ r = recon_of f i D /\ ptx_end B = Some i /\
    ptx_begin D = (if j =? zlen ins then None else Some j) /\ zread bs3 (blk ins i) = Some B /\ begins ins bs0 (immediatepostdominator_id B) j /\
    immediate (successor_ids <$> bs) (zlen bs0 - 1) (immediatepostdominator_id B) (blk ins i)) as Hpair.
  { intros r (B & HB & Hp)%Hrs Hs. destruct (Hall B HB) as (e & y & Hy & He & Hz & D & j & HD & Hj & Hbeg & Him).
    pose proof Hp as (e' & x' & D' & E1 & E2 & E3 & E4 & ->). simpl in E4. rewrite He in E1. injection E1 as <-. rewrite HD in E4. injection E4 as <-.
    assert (e = i) as ->; [|exists B, D, j; by split_and!]. eapply pc_injective; [done|done|]. rewrite <- Hs. unfold recon_of. by destruct (ptx_begin D). }
  destruct (is_branch x) eqn:Eb.
  - pose proof (real_lt ins i x Hx) as Hir. pose proof (blk_range ins bs0 bb Hc i ltac:(lia)) as Hbr.
    destruct (zread_is_some bs3 (blk ins i)) as [B HB]; [rewrite (an_len _ H3); lia|].
    pose proof (block_searched i x B Hx HB) as HBt. destruct (Hall B HBt) as (e & y & Hy & He & Hz & D & j & HD & Hj & Hbeg & Him).
    destruct (branch_ends i x Hx Eb) as [s Es]. destruct (an_blocks _ H3 _ _ Es) as (B' & HB' & _ & He' & _). rewrite HB in HB'.
    injection HB' as <-. rewrite He in He'. injection He' as ->. exists j. split.
    + eapply (meets_at_postdominator ins Hf bs0 bb Hc bs HL i x); [done|by exists s|by eapply Hret|exact Him|exact Hj].
    + assert (recon_of f i D ∈ rs) as Hin.
      { apply Hrs. exists B. split; [done|]. exists i, x, D. split_and!; try done. simpl. rewrite (as_ins _ _ _ _ _ Ha). apply Hx. }
      rewrite (converge_in_found rs _ (recon_of f i D) Hin).
      * unfold recon_of. rewrite Hbeg. by destruct (j =? zlen ins).
      * unfold recon_of. by destruct (ptx_begin D).
      * intros r' Hr' Hs'. destruct (Hpair r' Hr' Hs') as (B' & D' & j' & (e'' & x'' & D'' & E1 & E2 & E3 & E4 & E5) & -> & He'' & _ & HB' & _ & _).
        rewrite HB in HB'. injection HB' as <-. rewrite E5. rewrite He'' in E1. injection E1 as <-. simpl in E4. rewrite HD in E4. by injection E4 as <-.
  - apply converge_in_none. intros r Hr Hs. destruct (Hpair r Hr Hs) as (B & D & j & (e' & x' & D' & E1 & E2 & E3 & _) & _ & He & _).
    rewrite He in E1. injection E1 as <-. simpl in E2. rewrite (as_ins _ _ _ _ _ Ha), (proj1 Hx) in E2. injection E2 as <-. congruence.
Qed.
End whole.

(** C6: For a well-formed function (function_ok and code_ok: its first instruction is
    not the first of two labels and ends no block unless a label follows; labels are
    unique and the targets of branches exist; execution does not run off the end; there
    are no break instructions, no predicated returns and no branch back to the first
    instruction; instructions have 1 to 8 bytes and the code lies below 4 GB) whose
    instructions all lead to a return, assembly meets no fault, and the simulator then
    finds the right reconvergence points: for a branch, the address of the first
    instruction that all ways from the branch to a return have in common, or the mark of
    the return when there is none; for any other instruction, the mark of no divergence.
    Examples show what the code does with breaks, predicated returns and branches to the
    first instruction, which are excluded. *)
Theorem converge_points_correct fid ins g : loader_ok g ->
  code_ok ins (g_assemble_code_next_pc g + g_assemble_code_next_pc g mod MAX_INST_SIZE) -> function_ok ins ->
  (forall i x, real_at ins i x -> leads_to_return ins i) ->
  exists f g', ptx_assemble 1 fid ins g = Ok (f, g') /\ loader_ok g' /\
    forall fs i x, fs !! fid = Some f -> real_at ins i x ->
      let pc := get_PC (fi_code f) in
      if is_branch x then exists j, meets_at ins j i /\
        get_converge_point fs g' (pc i) = Ok (if j =? zlen ins then RETURN_POINT else pc j)
      else get_converge_point fs g' (pc i) = Ok NO_BRANCH_DIVERGENCE.
Proof.
  intros Hg Hk Hf Hret. destruct (assemble_ok fid ins g Hg Hk (fo_targets _ Hf)) as (c & g' & Ea & Ha).
  destruct (create_basic_blocks_ok ins (fo_first _ Hf) (fo_real _ Hf)) as (bs0 & bb & Eb & Hc).
  destruct (connect_basic_blocks_ok fid ins _ c g g' bs0 bb Hk Hf Ha Hc) as (bs & El & HL).
  destruct (settle_breaks_ok fid ins c g g' bs0 bs bb Hf Ha Hc HL) as (bs2 & E2 & Hl2 & H2).
  destruct (postdominators_ok ins bs0 bs bb Hf Hc HL Hret bs2 Hl2 H2) as (bs3 & E3 & H3).
  apply bind_ok in E3 as (bp & E3 & E4).
  exists (mkFunction c bs3 bb), g'. split.
  { unfold ptx_assemble. rewrite Ea, bind_of_ok, Eb, bind_of_ok, El, bind_of_ok, E2, bind_of_ok. cbn [m_basic_blocks]. by rewrite E3, bind_of_ok, E4. }
  split; [apply Ha|]. intros fs i x Hfs Hx pc. unfold pc. cbn [fi_code].
  destruct (converge_points_ok fid ins c g g' bs0 bs bb Hf Ha Hc HL Hret _ Hk bs3 H3 i x Hx) as (rs & Ers & Hrs).
  unfold get_converge_point. rewrite (as_pcs _ _ _ _ _ Ha i x Hx) in *. rewrite (as_finfo _ _ _ _ _ Ha i x Hx), Hfs, Ers, bind_of_ok.
  destruct (is_branch x); [|by rewrite Hrs]. destruct Hrs as (j & Hj & E). exists j. split; [done|]. by rewrite E.
Qed.

(** * Examples *)

(** Deciding the conditions on functions. *)
Definition function_okb (ins : list ptx_instruction) : bool :=
  match ins with
  | [] => false
  | [x] => true
  | x :: y :: _ => implb (ends_block x) (is_label y) && implb (is_label y) (negb (is_label x))
  end &&
  existsb (fun x => negb (is_label x)) ins && targets_okb ins &&
  forallb (fun i => match zread ins i with
    | Some x => is_label x ||
        (implb (falls x) (find_next_real_instruction ins (i + 1) <? zlen ins) &&
         negb (bool_decide (get_opcode x = BREAK_OP)) && implb (is_return (get_opcode x)) (negb (has_pred x)) &&
         implb (is_branch x) (forallb (fun p => negb (bool_decide (zread ins p = Some (Label (dst_name x)))) ||
           negb (find_next_real_instruction ins p =? find_next_real_instruction ins 0)) (seqZ 0 (zlen ins))))
    | None => true
    end) (seqZ 0 (zlen ins)).

Lemma implb_elim a b : implb a b = true -> a = true -> b = true.
Proof. by destruct a. Qed.

Lemma function_okb_true ins start : code_ok ins start -> function_okb ins = true -> function_ok ins.
Proof.
  intros Hc H. unfold function_okb in H. apply andb_true_iff in H as [H Hall]. apply andb_true_iff in H as [H Ht].
  apply andb_true_iff in H as [Hfirst Hreal].
  assert (forall i x, real_at ins i x -> implb (falls x) (find_next_real_instruction ins (i + 1) <? zlen ins) = true /\
    negb (bool_decide (get_opcode x = BREAK_OP)) = true /\ implb (is_return (get_opcode x)) (negb (has_pred x)) = true /\
    implb (is_branch x) (forallb (fun p => negb (bool_decide (zread ins p = Some (Label (dst_name x)))) ||
           negb (find_next_real_instruction ins p =? find_next_real_instruction ins 0)) (seqZ 0 (zlen ins))) = true) as Hi.
  { intros i x [Hx Hr]. pose proof (zread_range _ _ _ Hx). pose proof (forallb_elem _ _ i Hall ltac:(apply elem_of_seqZ; lia)) as Hs. cbv beta in Hs.
    rewrite Hx, Hr in Hs. simpl orb in Hs. rewrite !andb_true_iff in Hs. tauto. }
  split.
  - destruct ins as [|x [|y l]]; [done|split; [done|]|split; [unfold zlen; simpl; lia|]].
    + intros a b _ Hb. done.
    + intros a b [= <-] [= <-]. apply andb_true_iff in Hfirst as [H1 H2]. split; [intros Hx; by eapply implb_elim|].
      intros Hy. apply negb_true_iff. by eapply implb_elim.
  - apply existsb_exists in Hreal as (x & Hin & Hx). apply negb_true_iff in Hx. apply list_elem_of_In in Hin.
    apply elem_of_zread in Hin as (i & _ & Hi'). by exists i, x.
  - by apply targets_okb_true.
  - apply (ck_labels _ _ Hc).
  - intros i x Hx Hfall. destruct (Hi i x Hx) as (H1 & _). apply Z.ltb_lt. by eapply implb_elim.
  - intros i x Hx. destruct (Hi i x Hx) as (_ & H2 & H3 & _). split.
    + intros E. by rewrite bool_decide_eq_true_2 in H2.
    + intros E. apply negb_true_iff. by eapply implb_elim.
  - intros i x p Hx Hb Hp E. destruct (Hi i x Hx) as (_ & _ & _ & H4). pose proof (implb_elim _ _ H4 Hb) as H5.
    pose proof (forallb_elem _ _ p H5 ltac:(apply elem_of_seqZ; apply zread_range in Hp; lia)) as Hs. cbv beta in Hs.
    rewrite bool_decide_eq_true_2, E, Z.eqb_refl in Hs by done. done.
Qed.

(** A way of at most [fuel] steps to the return. *)
Fixpoint returnsb (fuel : nat) (ins : list ptx_instruction) (i : Z) : bool :=
  (i =? zlen ins) || match fuel with O => false | S fuel' => existsb (returnsb fuel' ins) (instr_succs ins i) end.
Lemma returnsb_true fuel ins i : returnsb fuel ins i = true -> leads_to_return ins i.
Proof.
  revert i. induction fuel as [|fuel IH]; intros i H; simpl in H; apply orb_true_iff in H as [H|H]; try done.
  - apply Z.eqb_eq in H as ->. eexists. constructor.
  - apply Z.eqb_eq in H as ->. eexists. constructor.
  - apply existsb_exists in H as (j & Hj & Hr). destruct (IH j Hr) as [l Hl]. exists (i :: l). econstructor; [|done].
    apply flow_edge. split; [|by apply list_elem_of_In]. unfold instr_succs in Hj. destruct (zread ins i) eqn:E; [by eapply zread_range|done].
Qed.
Lemma all_return ins : forallb (fun i => match zread ins i with Some x => is_label x || returnsb (length ins) ins i | None => true end)
    (seqZ 0 (zlen ins)) = true -> forall i x, real_at ins i x -> leads_to_return ins i.
Proof.
  intros H i x [Hx Hr]. pose proof (zread_range _ _ _ Hx). pose proof (forallb_elem _ _ i H ltac:(apply elem_of_seqZ; lia)) as Hs. cbv beta in Hs.
  rewrite Hx, Hr in Hs. by eapply returnsb_true.
Qed.

Lemma demo_function_ok : function_ok demo_code.
Proof. eapply function_okb_true; [exact demo_code_ok|]. vm_compute. reflexivity. Qed.
Lemma demo_returns i x : real_at demo_code i x -> leads_to_return demo_code i.
Proof. apply all_return. vm_compute. reflexivity. Qed.

Lemma converge_points_correct_witness :
  exists f g', ptx_assemble 1 1 demo_code loader_new = Ok (f, g') /\ loader_ok g' /\
    exists j, meets_at demo_code j 1 /\
      get_converge_point {[1 := f]} g' (get_PC (fi_code f) 1) = Ok (if j =? 7 then RETURN_POINT else get_PC (fi_code f) j).
Proof.
  destruct (converge_points_correct 1 demo_code loader_new) as (f & g' & E & Hg & H).
  - by split.
  - exact demo_code_ok.
  - exact demo_function_ok.
  - exact demo_returns.
  - exists f, g'. split; [exact E|]. split; [exact Hg|]. exact (H {[1 := f]} 1 (Insn BRA_OP true "done" 8) (lookup_singleton_eq 1 f) (conj eq_refl eq_refl)).
Defined.

(** Both branches of the example meet at the instruction behind [done]. *)
Definition demo_converge (i : Z) : outcome Z :=
  '(f, g) ← ptx_assemble 1 1 demo_code loader_new; get_converge_point {[1 := f]} g (get_PC (fi_code f) i).
Example demo_converge_points : demo_converge 1 = Ok 24 /\ demo_converge 4 = Ok 24 /\ demo_converge 0 = Ok NO_BRANCH_DIVERGENCE.
Proof. vm_compute. done. Qed.

(** ** What goes wrong elsewhere *)

(** Links of the blocks before the analysis. *)
Definition demo_links (ins : list ptx_instruction) : outcome (list (Z * iset)) :=
  '(c, g) ← assemble 1 ins loader_new;
  '(bs, bb) ← create_basic_blocks ins;
  f ← connect_basic_blocks (mkFunction c bs bb);
  mret (map (fun b => (bb_id b, successor_ids b)) (m_basic_blocks f)).
Definition plain : ptx_instruction := Insn (OTHER_OP 1) false "" 8.

(** Behind a return with a predicate the instruction that follows is looked for one byte
    further on, where there is none: its block, number 1, is not linked to. *)
Example predicated_return_is_not_linked :
  demo_links [plain; Insn RET_OP true "" 8; plain; Insn RET_OP false "" 8] = Ok [(0, [2]); (1, [2]); (2, [])] /\
  instr_succs [plain; Insn RET_OP true "" 8; plain; Insn RET_OP false "" 8] 1 = [4; 2].
Proof. vm_compute. done. Qed.

(** A function that begins with a branch: the branch does not end its block and is not
    linked to its target. *)
Example first_branch_is_not_linked :
  demo_links [Insn BRA_OP true "l" 8; plain; Insn RET_OP false "" 8; Label "l"; Insn RET_OP false "" 8] = Ok [(0, [2]); (1, [2]); (2, [])].
Proof. vm_compute. reflexivity. Qed.

(** A function that begins with two labels: the first block ends in a label. *)
Example two_labels_fault : demo_links [Label "a"; Label "b"; plain; Insn RET_OP false "" 8] = Err BadAccess.
Proof. vm_compute. reflexivity. Qed.

(** A function that does not end in a return or a branch: what follows it is read from
    memory nothing was stored in. *)
Example running_off_faults : demo_links [plain] = Err BadAccess.
Proof. vm_compute. reflexivity. Qed.

(** The block that a function begins with is not searched for the target of a break. *)
Example break_target_in_entry_stops :
  ptx_assemble 5 1 [Insn BREAKADDR_OP false "out" 8; Insn BRA_OP true "l" 8; plain; Label "l"; Insn BREAK_OP false "" 8; plain; Label "out";
    Insn RET_OP false "" 8] loader_new = Err AssertFailed.
Proof. vm_compute. reflexivity. Qed.
