(* ===== verification/Partition.v ===== *)
(** * Memory partitions

    [memory_partition_unit] of [gpgpu-sim/l2cache.{h,cc}]: the queues that join the
    interconnect, the L2 cache and a DRAM channel, with the way by which the directories
    of Ruby use the same channel ([gpgpu-sim/ruby_wrapper.cc] and
    [system/GpusimDramInterface.{h,C}]).

    The requests are on the heap of the channel; the cache is given that heap when one of
    its operations is called.  What the cache sends to the next level goes into the queue
    to the DRAM ([L2interface]). *)

From Stdlib Require Import Ascii String.
From stdpp Require Import strings.
From S2P Require Import Prelude Coalesce GpuMisc AddrDec TagArray Mshr MemFetch GpuCache DelayQueue MemStats FrFcfs Dram.

(** * The interface of Ruby's directories to the channel *)

(** A [MemoryMsg], as far as [ToGpusimDram_top] reads it. *)
Record memory_msg := mkMsg { msg_addr : Z; msg_read : bool }.

(** Messages are known by their [MsgPtr*]; [di_scheduled] counts the wakeups of the
    consumer that were scheduled. *)
Record GpusimDramInterface := mkInterface {
  m_input_queue : list Z;
  m_response_queue : list Z;
  messages : gmap Z memory_msg;
  next_message : Z;
  di_scheduled : Z }.

Definition interface_new : GpusimDramInterface := mkInterface [] [] ∅ 1 0.

Definition di_enqueue (d : GpusimDramInterface) (m : memory_msg) : GpusimDramInterface :=
  mkInterface (m_input_queue d ++ [next_message d]) (m_response_queue d) (<[next_message d := m]> (messages d))
    (next_message d + 1) (di_scheduled d).
Definition di_dequeue (d : GpusimDramInterface) : outcome GpusimDramInterface :=
  match m_response_queue d with
  | [] => Err BadAccess
  | p :: q => mret (mkInterface (m_input_queue d) q (delete p (messages d)) (next_message d)
                      (if bool_decide (q = []) then di_scheduled d else di_scheduled d + 1))
  end.
Definition di_peek (d : GpusimDramInterface) : outcome memory_msg :=
  match m_response_queue d with
  | [] => Err BadAccess
  | p :: _ => match messages d !! p with Some m => Ok m | None => Err BadAccess end
  end.
Definition di_isReady (d : GpusimDramInterface) : bool := negb (bool_decide (m_response_queue d = [])).

(** [wakeup]: the route that does not use the channel. *)
Definition di_wakeup (d : GpusimDramInterface) : GpusimDramInterface :=
  match m_input_queue d with
  | [] => d
  | p :: q => mkInterface q (m_response_queue d ++ [p]) (messages d) (next_message d) (di_scheduled d + 1)
  end.

Definition inputQueueEmpty (d : GpusimDramInterface) : bool := bool_decide (m_input_queue d = []).
Definition peekInputRequest (d : GpusimDramInterface) : outcome Z :=
  match m_input_queue d with p :: _ => Ok p | [] => Err BadAccess end.
Definition popInputRequest (d : GpusimDramInterface) : outcome GpusimDramInterface :=
  match m_input_queue d with
  | p :: q => Ok (mkInterface q (m_response_queue d) (messages d) (next_message d) (di_scheduled d))
  | [] => Err BadAccess
  end.
Definition pushResponseRequest (d : GpusimDramInterface) (p : Z) : GpusimDramInterface :=
  mkInterface (m_input_queue d) (m_response_queue d ++ [p]) (messages d) (next_message d) (di_scheduled d + 1).

(** * The unit *)

(** The members of [memory_config] that the unit reads, with the parameters of its L2
    cache; [usingGpusimDram] is that of the chip. *)
Record partition_config := mkPart {
  pc_dram : dram_config;
  pc_L2 : cache_params;
  m_L2_texure_only : bool;
  rop_latency : Z;
  dram_latency : Z;
  gpgpu_L2_queue_config : list ascii;
  usingGpusimDram : bool }.

Definition L2_disabled (c : partition_config) : bool := m_disabled (p_config (pc_L2 c)).

(** The latency statistics of [memory_stats_t] that the unit writes. *)
Record icnt_stats := mkIcnt { max_icnt2mem_latency : Z; icnt2mem_lat_table : list Z }.

(** [m_L2cache] is uninitialised when the cache is disabled; the pairs of the two delay
    queues are the ready cycle and the request; [ruby_msg] is the member [m_ruby_msg_ptr]
    of the requests, and [do_atomics] lists those whose [do_atomic] was called. *)
Record partition := mkPartition {
  m_L2cache : option cache;
  m_rop : list (Z * Z);
  m_dram_latency_queue : list (Z * Z);
  m_icnt_L2_queue : fifo_pipeline Z;
  m_L2_dram_queue : fifo_pipeline Z;
  m_dram_L2_queue : fifo_pipeline Z;
  m_L2_icnt_queue : fifo_pipeline Z;
  u_channel : channel;
  u_icnt : icnt_stats;
  u_ruby : GpusimDramInterface;
  ruby_msg : gmap Z Z;
  do_atomics : list Z }.

Section partition_fields.
Context (u : partition).
Definition with_L2 (s : option cache) := mkPartition s (m_rop u) (m_dram_latency_queue u) (m_icnt_L2_queue u) (m_L2_dram_queue u)
  (m_dram_L2_queue u) (m_L2_icnt_queue u) (u_channel u) (u_icnt u) (u_ruby u) (ruby_msg u) (do_atomics u).
Definition with_rop (q : list (Z * Z)) := mkPartition (m_L2cache u) q (m_dram_latency_queue u) (m_icnt_L2_queue u) (m_L2_dram_queue u)
  (m_dram_L2_queue u) (m_L2_icnt_queue u) (u_channel u) (u_icnt u) (u_ruby u) (ruby_msg u) (do_atomics u).
Definition with_delayed (q : list (Z * Z)) := mkPartition (m_L2cache u) (m_rop u) q (m_icnt_L2_queue u) (m_L2_dram_queue u)
  (m_dram_L2_queue u) (m_L2_icnt_queue u) (u_channel u) (u_icnt u) (u_ruby u) (ruby_msg u) (do_atomics u).
Definition with_icnt_L2 (q : fifo_pipeline Z) := mkPartition (m_L2cache u) (m_rop u) (m_dram_latency_queue u) q (m_L2_dram_queue u)
  (m_dram_L2_queue u) (m_L2_icnt_queue u) (u_channel u) (u_icnt u) (u_ruby u) (ruby_msg u) (do_atomics u).
Definition with_L2_dram (q : fifo_pipeline Z) := mkPartition (m_L2cache u) (m_rop u) (m_dram_latency_queue u) (m_icnt_L2_queue u) q
  (m_dram_L2_queue u) (m_L2_icnt_queue u) (u_channel u) (u_icnt u) (u_ruby u) (ruby_msg u) (do_atomics u).
Definition with_dram_L2 (q : fifo_pipeline Z) := mkPartition (m_L2cache u) (m_rop u) (m_dram_latency_queue u) (m_icnt_L2_queue u)
  (m_L2_dram_queue u) q (m_L2_icnt_queue u) (u_channel u) (u_icnt u) (u_ruby u) (ruby_msg u) (do_atomics u).
Definition with_L2_icnt (q : fifo_pipeline Z) := mkPartition (m_L2cache u) (m_rop u) (m_dram_latency_queue u) (m_icnt_L2_queue u)
  (m_L2_dram_queue u) (m_dram_L2_queue u) q (u_channel u) (u_icnt u) (u_ruby u) (ruby_msg u) (do_atomics u).
Definition with_channel (w : channel) := mkPartition (m_L2cache u) (m_rop u) (m_dram_latency_queue u) (m_icnt_L2_queue u)
  (m_L2_dram_queue u) (m_dram_L2_queue u) (m_L2_icnt_queue u) w (u_icnt u) (u_ruby u) (ruby_msg u) (do_atomics u).
Definition with_icnt (s : icnt_stats) := mkPartition (m_L2cache u) (m_rop u) (m_dram_latency_queue u) (m_icnt_L2_queue u)
  (m_L2_dram_queue u) (m_dram_L2_queue u) (m_L2_icnt_queue u) (u_channel u) s (u_ruby u) (ruby_msg u) (do_atomics u).
Definition with_ruby (d : GpusimDramInterface) (m : gmap Z Z) := mkPartition (m_L2cache u) (m_rop u) (m_dram_latency_queue u)
  (m_icnt_L2_queue u) (m_L2_dram_queue u) (m_dram_L2_queue u) (m_L2_icnt_queue u) (u_channel u) (u_icnt u) d m (do_atomics u).
Definition with_atomics (l : list Z) := mkPartition (m_L2cache u) (m_rop u) (m_dram_latency_queue u)
  (m_icnt_L2_queue u) (m_L2_dram_queue u) (m_dram_L2_queue u) (m_L2_icnt_queue u) (u_channel u) (u_icnt u) (u_ruby u) (ruby_msg u) l.

(** [mf->set_status(status, cycle)], [m_request_tracker.erase(mf)] and [delete mf]. *)
Definition touch (status : mem_fetch_status) (cycle mf : Z) : outcome partition :=
  h ← update (fetches (u_channel u)) mf (fun r => set_mf_status r status cycle);
  mret (with_channel (with_fetches (u_channel u) h)).
Definition untrack (mf : Z) : partition := with_channel (with_tracker (u_channel u) (m_request_tracker (u_channel u) ∖ {[mf]})).
Definition delete_fetch (mf : Z) : outcome partition :=
  _ ← deref (fetches (u_channel u)) mf;
  mret (with_channel (with_fetches (u_channel u) (mkHeap (delete mf (objects (fetches (u_channel u)))) (next_object (fetches (u_channel u)))))).
(** [mf->set_reply()] *)
Definition reply (mf : Z) : outcome partition :=
  r ← deref (fetches (u_channel u)) mf;
  r' ← set_reply r;
  h ← update (fetches (u_channel u)) mf (fun _ => r');
  mret (with_channel (with_fetches (u_channel u) h)).
End partition_fields.

(** The cache with the heap it shares, and the unit after one of its operations. *)
Definition L2 (u : partition) : outcome cache :=
  match m_L2cache u with Some s => Ok (with_heap s (fetches (u_channel u))) | None => Err BadAccess end.
Definition after_L2 (u : partition) (s : cache) : partition :=
  with_channel (with_L2 u (Some s)) (with_fetches (u_channel u) (c_heap s)).

Definition queue_format : list fmt := [FU; FL ":"; FU; FL ":"; FU; FL ":"; FU]%char.

(** The constructor; a length that [sscanf] does not set is not initialised. *)
Definition partition_new (c : partition_config) (id : Z) (h : heap) (aggr : binned_histogram) (st : memory_stats_t) (ic : icnt_stats)
    (ruby : GpusimDramInterface) : outcome partition :=
  d ← dram_new (pc_dram c) id;
  s ← (if L2_disabled c then mret None else s ← data_cache_new (pc_L2 c) h aggr; mret (Some s));
  match sscanf queue_format (gpgpu_L2_queue_config c) with
  | [SU icnt_L2; SU L2_dram; SU dram_L2; SU L2_icnt] =>
      q1 ← fifo_new 0 icnt_L2;
      q2 ← fifo_new 0 L2_dram;
      q3 ← fifo_new 0 dram_L2;
      q4 ← fifo_new 0 L2_icnt;
      mret (mkPartition s [] [] q1 q2 q3 q4 (mkChannel d ∅ 0 h ∅ st) ic ruby ∅ [])
  | _ => Err Undefined
  end.

(** [memlatstat_icnt2mem_pop] for a request made at [timestamp]. *)
Definition memlatstat_icnt2mem_pop (clk : gpu_clock) (timestamp : Z) (u : partition) : outcome partition :=
  if gpgpu_memlatency_stat (m_stats (u_channel u)) then
    let lat := u32 (now clk - timestamp) in
    n ← aread (icnt2mem_lat_table (u_icnt u)) (LOGB2 lat);
    t ← awrite (icnt2mem_lat_table (u_icnt u)) (LOGB2 lat) (u32 (n + 1));
    mret (with_icnt u (mkIcnt (if max_icnt2mem_latency (u_icnt u) <? lat then lat else max_icnt2mem_latency (u_icnt u)) t))
  else mret u.

Definition partition_full (u : partition) : bool := full (m_icnt_L2_queue u).
Definition busy (u : partition) : bool := negb (bool_decide (m_request_tracker (u_channel u) = ∅)).

(** [push(req, cycle)]; [timestamp] is when the request was made. *)
Definition partition_push (c : partition_config) (clk : gpu_clock) (u : partition) (req : option Z) (timestamp cycle : Z) : outcome partition :=
  match req with
  | None => mret u
  | Some mf =>
      let u := with_channel u (with_tracker (u_channel u) ({[mf]} ∪ m_request_tracker (u_channel u))) in
      u ← memlatstat_icnt2mem_pop clk timestamp u;
      r ← deref (fetches (u_channel u)) mf;
      if istexture r then
        q ← push (m_icnt_L2_queue u) (Some mf);
        touch (with_icnt_L2 u q) IN_PARTITION_ICNT_TO_L2_QUEUE (now clk) mf
      else
        touch (with_rop u (m_rop u ++ [(u64 (cycle + rop_latency c), mf)])) IN_PARTITION_ROP_DELAY (now clk) mf
  end.

(** The access types whose requests end in the unit. *)
Definition is_write_back (r : mem_fetch) : bool :=
  bool_decide (get_access_type r = L2_WRBK_ACC) || bool_decide (get_access_type r = L1_WRBK_ACC).

Definition partition_pop (u : partition) : outcome (option Z * partition) :=
  '(o, q) ← pop (m_L2_icnt_queue u);
  let u := with_L2_icnt u q in
  match o with
  | None => mret (None, u)
  | Some mf =>
      let u := untrack u mf in
      r ← deref (fetches (u_channel u)) mf;
      let u := if isatomic r then with_atomics u (do_atomics u ++ [mf]) else u in
      if is_write_back r then u ← delete_fetch u mf; mret (None, u) else mret (Some mf, u)
  end.

Definition partition_top (u : partition) : outcome (option Z * partition) :=
  match top (m_L2_icnt_queue u) with
  | None => mret (None, u)
  | Some mf =>
      r ← deref (fetches (u_channel u)) mf;
      if is_write_back r then
        '(_, q) ← pop (m_L2_icnt_queue u);
        u ← delete_fetch (untrack (with_L2_icnt u q) mf) mf;
        mret (None, u)
      else mret (Some mf, u)
  end.

Definition set_done (u : partition) (mf : Z) : partition := untrack u mf.

Definition flushL2 (c : partition_config) (clk : gpu_clock) (u : partition) : outcome partition :=
  s ← L2 u;
  s ← cache_flush (pc_L2 c) s (now clk);
  mret (after_L2 u s).

(** * A cycle of the L2 cache *)

(** A request goes to the interconnect. *)
Definition to_icnt (clk : gpu_clock) (u : partition) (mf : Z) : outcome partition :=
  u ← touch u IN_PARTITION_L2_TO_ICNT_QUEUE (now clk) mf;
  q ← push (m_L2_icnt_queue u) (Some mf);
  mret (with_L2_icnt u q).

(** L2 fill responses *)
Definition fill_responses (c : partition_config) (clk : gpu_clock) (u : partition) : outcome partition :=
  if L2_disabled c then mret u
  else
    s ← L2 u;
    if mshr_access_ready (c_mshrs s) && negb (full (m_L2_icnt_queue u)) then
      '(mf, s) ← cache_next_access s;
      let u := after_L2 u s in
      r ← deref (fetches (u_channel u)) mf;
      if negb (bool_decide (get_access_type r = L2_WR_ALLOC_R)) then u ← reply u mf; to_icnt clk u mf
      else delete_fetch (untrack u mf) mf
    else mret u.

(** [m_L2cache->waiting_for_fill(mf)], asked only of a cache that is enabled. *)
Definition fills_L2 (c : partition_config) (u : partition) (mf : Z) : outcome bool :=
  if L2_disabled c then mret false else s ← L2 u; mret (waiting_for_fill s mf).

(** DRAM to L2 and interconnect *)
Definition from_dram (c : partition_config) (clk : gpu_clock) (u : partition) : outcome partition :=
  if empty (m_dram_L2_queue u) then mret u
  else
    mf ← (match top (m_dram_L2_queue u) with Some mf => Ok mf | None => Err BadAccess end);
    fills ← fills_L2 c u mf;
    if fills : bool then
      u ← touch u IN_PARTITION_L2_FILL_QUEUE (now clk) mf;
      s ← L2 u;
      s ← cache_fill (pc_L2 c) s mf (now clk);
      '(_, q) ← pop (m_dram_L2_queue u);
      mret (with_dram_L2 (after_L2 u s) q)
    else if negb (full (m_L2_icnt_queue u)) then
      u ← to_icnt clk u mf;
      '(_, q) ← pop (m_dram_L2_queue u);
      mret (with_dram_L2 u q)
    else mret u.

(** [L2interface::push] *)
Definition L2interface_push (u : partition) (mf : Z) : outcome partition :=
  u ← touch u IN_PARTITION_L2_TO_DRAM_QUEUE 0 mf;
  q ← push (m_L2_dram_queue u) (Some mf);
  mret (with_L2_dram u q).
Fixpoint L2interface_pushes (u : partition) (l : list Z) : outcome partition :=
  match l with [] => mret u | mf :: l' => u ← L2interface_push u mf; L2interface_pushes u l' end.

(** [m_L2cache->cycle()], with what it pushes to its port. *)
Definition L2_cycle (c : partition_config) (u : partition) : outcome partition :=
  if L2_disabled c then mret u
  else
    s ← L2 u;
    s ← cache_cycle (fun _ _ => full (m_L2_dram_queue u)) s;
    L2interface_pushes (after_L2 u (mkCache (c_heap s) (c_tags s) (c_mshrs s) (m_miss_queue s) (m_extra_mf_fields s) [])) (memport s).

(** [m_icnt_L2_queue->pop()], the request being known. *)
Definition drop_icnt_L2 (u : partition) : outcome partition :=
  '(_, q) ← pop (m_icnt_L2_queue u); mret (with_icnt_L2 u q).

(** A request of the interconnect is given to the L2 cache. *)
Definition access_L2 (c : partition_config) (clk : gpu_clock) (u : partition) (mf : Z) (r : mem_fetch) : outcome partition :=
  s ← L2 u;
  '(status, events, s) ← data_access (pc_L2 c) s (m_partition_addr r) mf (now clk) [];
  let u := after_L2 u s in
  let write_sent := was_write_sent events in
  let read_sent := was_read_sent events in
  if bool_decide (status = HIT) then
    if negb write_sent then
      cassert (negb read_sent);;
      u ← (if bool_decide (get_access_type r = L1_WRBK_ACC) then delete_fetch (untrack u mf) mf
           else u ← reply u mf; to_icnt clk u mf);
      drop_icnt_L2 u
    else drop_icnt_L2 u
  else if negb (bool_decide (status = RESERVATION_FAIL)) then drop_icnt_L2 u
  else cassert (negb write_sent);; cassert (negb read_sent);; mret u.

(** New accesses *)
Definition from_icnt (c : partition_config) (clk : gpu_clock) (u : partition) : outcome partition :=
  if negb (full (m_L2_dram_queue u)) && negb (empty (m_icnt_L2_queue u)) then
    mf ← (match top (m_icnt_L2_queue u) with Some mf => Ok mf | None => Err BadAccess end);
    r ← deref (fetches (u_channel u)) mf;
    if negb (L2_disabled c) && ((m_L2_texure_only c && istexture r) || negb (m_L2_texure_only c)) then
      if negb (full (m_L2_icnt_queue u)) then access_L2 c clk u mf r else mret u
    else
      u ← touch u IN_PARTITION_L2_TO_DRAM_QUEUE (now clk) mf;
      q ← push (m_L2_dram_queue u) (Some mf);
      drop_icnt_L2 (with_L2_dram u q)
  else mret u.

(** ROP delay queue *)
Definition from_rop (clk : gpu_clock) (cycle : Z) (u : partition) : outcome partition :=
  match m_rop u with
  | (ready_cycle, mf) :: rest =>
      if (ready_cycle <=? cycle) && negb (full (m_icnt_L2_queue u)) then
        q ← push (m_icnt_L2_queue u) (Some mf);
        touch (with_icnt_L2 (with_rop u rest) q) IN_PARTITION_ICNT_TO_L2_QUEUE (now clk) mf
      else mret u
  | [] => mret u
  end.

(** [cache_cycle(cycle)]; the parameter is [unsigned]. *)
Definition partition_cache_cycle (c : partition_config) (clk : gpu_clock) (cycle : Z) (u : partition) : outcome partition :=
  u ← fill_responses c clk u;
  u ← from_dram c clk u;
  u ← L2_cycle c u;
  u ← from_icnt c clk u;
  from_rop clk (u32 cycle) u.

(** * A cycle of the DRAM *)

(** [ToGpusimDram_top] and [ToGpusimDram_pop]: a request for the message in front.  The
    request gets the size of a line, 128 bytes. *)
Definition ToGpusimDram_take (c : partition_config) (clk : gpu_clock) (u : partition) : outcome (Z * partition) :=
  p ← peekInputRequest (u_ruby u);
  m ← (match messages (u_ruby u) !! p with Some m => Ok m | None => Err BadAccess end);
  let write := negb (msg_read m) in
  r ← mem_fetch_new (p_map (pc_L2 c)) (now clk)
        (mem_access_new (if write then RUBY_DRAM_W else RUBY_DRAM_R) (msg_addr m) 128 write 0 0) None 8 (u32 (-1)) 0 (u32 (-1));
  let '(mf, h) := new_object (fetches (u_channel u)) r in
  d ← popInputRequest (u_ruby u);
  mret (mf, with_ruby (with_channel u (with_fetches (u_channel u) h)) d (<[mf := p]> (ruby_msg u))).

(** [ToGpusimDram_empty] *)
Definition ToGpusimDram_empty (c : partition_config) (u : partition) : bool :=
  if usingGpusimDram c then inputQueueEmpty (u_ruby u) else true.

(** [FromGpusimDram_push] *)
Definition FromGpusimDram_push (u : partition) (mf : Z) : outcome partition :=
  match ruby_msg u !! mf with
  | None => Err AssertFailed
  | Some p => delete_fetch (with_ruby u (pushResponseRequest (u_ruby u) p) (delete mf (ruby_msg u))) mf
  end.

(** A completed request leaves the channel. *)
Definition dram_to_L2 (clk : gpu_clock) (u : partition) : outcome partition :=
  if full (m_dram_L2_queue u) then mret u
  else
    '(o, w) ← dram_pop (u_channel u);
    let u := with_channel u w in
    match o with
    | None => mret u
    | Some mf =>
        r ← deref (fetches (u_channel u)) mf;
        if bool_decide (get_access_type r = L1_WRBK_ACC) then delete_fetch (untrack u mf) mf
        else if bool_decide (get_access_type r = RUBY_DRAM_R) || bool_decide (get_access_type r = RUBY_DRAM_W) then
          FromGpusimDram_push u mf
        else
          q ← push (m_dram_L2_queue u) (Some mf);
          touch (with_dram_L2 u q) IN_PARTITION_DRAM_TO_L2_QUEUE (now clk) mf
    end.

(** A request of Ruby enters the channel. *)
Definition ruby_to_dram (c : partition_config) (clk : gpu_clock) (u : partition) : outcome partition :=
  f ← dram_full (pc_dram c) (dram (u_channel u));
  if negb f && negb (ToGpusimDram_empty c u) then
    '(mf, u) ← ToGpusimDram_take c clk u;
    w ← dram_push (pc_dram c) clk (u_channel u) mf;
    mret (with_channel u w)
  else mret u.

(** The queue of the L2 to the DRAM latency queue. *)
Definition L2_to_latency (c : partition_config) (clk : gpu_clock) (u : partition) : outcome partition :=
  f ← dram_full (pc_dram c) (dram (u_channel u));
  if negb f && negb (empty (m_L2_dram_queue u)) then
    '(o, q) ← pop (m_L2_dram_queue u);
    mf ← (match o with Some mf => Ok mf | None => Err BadAccess end);
    touch (with_delayed (with_L2_dram u q) (m_dram_latency_queue u ++ [(u64 (now clk + dram_latency c), mf)]))
      IN_PARTITION_DRAM_LATENCY_QUEUE (now clk) mf
  else mret u.

(** The DRAM latency queue to the channel. *)
Definition latency_to_dram (c : partition_config) (clk : gpu_clock) (u : partition) : outcome partition :=
  match m_dram_latency_queue u with
  | (ready_cycle, mf) :: rest =>
      if ready_cycle <=? now clk then
        f ← dram_full (pc_dram c) (dram (u_channel u));
        if negb f then
          w ← dram_push (pc_dram c) clk (u_channel u) mf;
          mret (with_channel (with_delayed u rest) w)
        else mret u
      else mret u
  | [] => mret u
  end.

Definition partition_dram_cycle (c : partition_config) (clk : gpu_clock) (u : partition) : outcome partition :=
  u ← dram_to_L2 clk u;
  '(w, _) ← Dram.dram_cycle (pc_dram c) clk (u_channel u);
  let u := with_channel u w in
  u ← ruby_to_dram c clk u;
  u ← L2_to_latency c clk u;
  latency_to_dram c clk u.
