(* ===== verification/FetchFrames.v ===== *)
(** * What the DRAM channel does to the requests of others

    A channel changes the status of requests; it turns a request into its reply, or
    deletes it when it is a write-back, only for requests on their way through the
    channel.  The lemmas here say so for every operation of [Dram]. *)

From S2P Require Import Prelude Coalesce GpuMisc AddrDec MemFetch DelayQueue MemStats FrFcfs Dram DramServe.

(** ** Heaps that differ in the status of requests *)

Definition same_but_status (a b : mem_fetch) : Prop := exists st cy, b = set_mf_status a st cy.
(** The same, and a request that is no write-back may have become a reply. *)
Definition evolved (a b : mem_fetch) : Prop :=
  exists st cy t, b = set_type (set_mf_status a st cy) t /\ (t = m_type a \/ write_back a = false).

Definition touched (h h' : heap) : Prop :=
  next_object h' = next_object h /\ forall q, option_Forall2 same_but_status (objects h !! q) (objects h' !! q).

Lemma same_refl a : same_but_status a a.
Proof. exists (mf_status a), (m_status_change a). by destruct a. Qed.
Lemma same_trans a b c : same_but_status a b -> same_but_status b c -> same_but_status a c.
Proof. intros (s1 & c1 & ->) (s2 & c2 & ->). by exists s2, c2. Qed.
Lemma same_evolved a b : same_but_status a b -> evolved a b.
Proof. intros (s & c & ->). exists s, c, (m_type a). split; [by destruct a|by left]. Qed.
Lemma evolved_same a b c : evolved a b -> same_but_status b c -> evolved a c.
Proof. intros (s1 & c1 & t & -> & Ht) (s2 & c2 & ->). by exists s2, c2, t. Qed.

Lemma touched_refl h : touched h h.
Proof. split; [done|]. intros q. destruct (objects h !! q); constructor. apply same_refl. Qed.
Lemma touched_trans h1 h2 h3 : touched h1 h2 -> touched h2 h3 -> touched h1 h3.
Proof.
  intros [N1 T1] [N2 T2]. split; [congruence|]. intros q. specialize (T1 q). specialize (T2 q).
  destruct (objects h1 !! q), (objects h2 !! q), (objects h3 !! q); inversion T1; inversion T2; subst; constructor. by eapply same_trans.
Qed.
Lemma touched_update h p f h' : update h p f = Ok h' -> (forall r, same_but_status r (f r)) -> touched h h'.
Proof.
  unfold update, deref. intros H Hf. destruct (objects h !! p) as [r|] eqn:E; [|done]. injection H as <-. split; [done|].
  intros q. simpl. rewrite lookup_insert. destruct (decide (p = q)) as [<-|]; [rewrite E; constructor; apply Hf|].
  destruct (objects h !! q); constructor. apply same_refl.
Qed.
Lemma touched_lookup h h' q r : touched h h' -> objects h !! q = Some r -> exists r', objects h' !! q = Some r' /\ same_but_status r r'.
Proof. intros [_ T] E. specialize (T q). rewrite E in T. inversion T; subst. by eexists. Qed.
Lemma touched_none h h' q : touched h h' -> objects h !! q = None -> objects h' !! q = None.
Proof. intros [_ T] E. specialize (T q). rewrite E in T. by inversion T. Qed.

(** ** The operations of a channel *)

(** The step changes no request but its status, and drops none from the tracker. *)
Definition quiet (w w' : channel) : Prop :=
  touched (fetches w) (fetches w') /\ m_request_tracker w' = m_request_tracker w.

Lemma quiet_refl w : quiet w w.
Proof. split; [apply touched_refl|done]. Qed.
Lemma quiet_trans w1 w2 w3 : quiet w1 w2 -> quiet w2 w3 -> quiet w1 w3.
Proof. intros [T1 E1] [T2 E2]. split; [by eapply touched_trans|congruence]. Qed.
(** Steps that leave the requests alone. *)
Lemma quiet_same w w' : fetches w' = fetches w -> m_request_tracker w' = m_request_tracker w -> quiet w w'.
Proof. intros E1 E2. split; [rewrite E1; apply touched_refl|done]. Qed.

Lemma touch_fetch_quiet clk st w data w' : touch_fetch clk st w data = Ok w' -> quiet w w'.
Proof.
  unfold touch_fetch. intros H. ok_inv. subst w'. split; [|done]. eapply touched_update; [eassumption|]. intros r. by eexists _, _.
Qed.

Ltac quiet_steps :=
  repeat match goal with
  | H : touch_fetch _ _ _ _ = Ok _ |- _ => apply touch_fetch_quiet in H
  | H : Ok _ = Ok _ |- _ => injection H as H
  | H : (_, _) = (_, _) |- _ => injection H as ? ?
  end; subst; simpl in *.

Lemma scheduler_fifo_quiet clk w w' : scheduler_fifo clk w = Ok w' -> quiet w w'.
Proof.
  unfold scheduler_fifo. destruct (empty _); intros H; [ok_inv; subst; apply quiet_refl|]. ok_inv.
  destruct (mrq _); [ok_inv; quiet_steps; by subst|]. ok_inv. destruct x3 as [p' q]. ok_inv. quiet_steps.
  eapply quiet_trans; [eassumption|]. by apply quiet_same.
Qed.

Lemma fill_scheduler_quiet fuel c clk w s w' s' : fill_scheduler fuel c clk w s = Ok (w', s') -> quiet w w'.
Proof.
  revert w s. induction fuel as [|fuel IH]; intros w s H; [done|]. cbn [fill_scheduler] in H. case_match; [|ok_inv; simplify_eq; apply quiet_refl].
  ok_inv. destruct x as [p q]. ok_inv. quiet_steps. eapply quiet_trans; [|by eapply IH]. eapply quiet_trans; [|eassumption]. by apply quiet_same.
Qed.

Lemma assign_bank_quiet c clk w b p w' : assign_bank c clk w b p = Ok w' -> quiet w w'.
Proof.
  unfold assign_bank. intros H. ok_inv. quiet_steps. case_match; ok_inv; subst; (eapply quiet_trans; [eassumption|by apply quiet_same]).
Qed.

Lemma try_banks_quiet n c clk w s i w' s' : try_banks n c clk w s i = Ok (w', s') -> quiet w w'.
Proof.
  revert w s i. induction n as [|n IH]; intros w s i H; cbn [try_banks] in H; [ok_inv; simplify_eq; apply quiet_refl|]. ok_inv.
  destruct (mrq x); [by eapply IH|]. ok_inv. destruct x0 as [[p s1] st]. destruct p as [p|].
  - ok_inv. simplify_eq. eapply quiet_trans; [|by eapply assign_bank_quiet]. by apply quiet_same.
  - eapply quiet_trans; [|by eapply IH]. by apply quiet_same.
Qed.

Lemma scheduler_frfcfs_quiet c clk w w' : scheduler_frfcfs c clk w = Ok w' -> quiet w w'.
Proof.
  unfold scheduler_frfcfs. intros H. ok_inv. destruct x0 as [w1 s1]. ok_inv. destruct x0 as [w2 s2]. ok_inv. subst.
  eapply quiet_trans; [by eapply fill_scheduler_quiet|]. eapply quiet_trans; [by eapply try_banks_quiet|]. by apply quiet_same.
Qed.

Ltac issues F := unfold F; intros H; ok_inv; simplify_eq; by apply quiet_same.
Lemma issue_read_quiet c w j grp bj g p r w' cmd : issue_read c w j grp bj g p r = Ok (w', cmd) -> quiet w w'.
Proof. issues issue_read. Qed.
Lemma issue_write_quiet c w j grp bj g p r w' cmd : issue_write c w j grp bj g p r = Ok (w', cmd) -> quiet w w'.
Proof. issues issue_write. Qed.
Lemma issue_activate_quiet c w j bj r w' cmd : issue_activate c w j bj r = Ok (w', cmd) -> quiet w w'.
Proof. issues issue_activate. Qed.
Lemma issue_precharge_quiet c w j bj w' cmd : issue_precharge c w j bj = Ok (w', cmd) -> quiet w w'.
Proof. issues issue_precharge. Qed.

Lemma bank_turn_quiet c clk i s s' : bank_turn c clk i s = Ok s' -> quiet (t_channel s) (t_channel s').
Proof.
  unfold bank_turn. intros H. ok_inv. destruct (mrq _) as [p|]; ok_inv; [|subst; by apply quiet_same].
  quiet_steps. eapply quiet_trans; [eassumption|]. repeat case_match; ok_inv; simplify_eq; simpl; try apply quiet_refl;
    match goal with H : _ = Ok ?x |- _ => is_var x; destruct x as [w1 cmd] end;
    match goal with x : channel * command |- _ => destruct x as [w2 cmd2] end; ok_inv; simplify_eq; simpl;
    eauto using issue_read_quiet, issue_write_quiet, issue_activate_quiet, issue_precharge_quiet.
Qed.

Lemma turns_quiet c clk n i s s' : for_up n i (bank_turn c clk) s = Ok s' -> quiet (t_channel s) (t_channel s').
Proof.
  revert i s. induction n as [|n IH]; intros i s H; simpl in H; [ok_inv; subst; apply quiet_refl|]. ok_inv.
  eapply quiet_trans; [by eapply bank_turn_quiet|by eapply IH].
Qed.

(** What the end of a cycle's data transfer does: a request that is on its way through
    the channel gets its reply, or is a write-back and is deleted. *)
Record transferred (w w' : channel) (done : option Z) : Prop := {
  tf_next : next_object (fetches w') = next_object (fetches w);
  tf_others : forall q, q ∉ owners (ch_reqs w) -> option_Forall2 same_but_status (objects (fetches w) !! q) (objects (fetches w') !! q);
  tf_mine : forall q r, q ∈ owners (ch_reqs w) -> objects (fetches w) !! q = Some r -> done <> Some q ->
    exists r', objects (fetches w') !! q = Some r' /\ evolved r r';
  tf_done : forall q, done = Some q -> q ∈ owners (ch_reqs w) /\ objects (fetches w') !! q = None /\
    exists r, objects (fetches w) !! q = Some r /\ write_back r = true;
  tf_tracker : m_request_tracker w' = m_request_tracker w ∖ list_to_set (option_list done) }.

Lemma quiet_transferred w w' : quiet w w' -> transferred w w' None.
Proof.
  intros [[N T] E]. split; [done| | |done|].
  - intros q _. apply T.
  - intros q r _ Hr _. destruct (touched_lookup _ _ _ _ (conj N T) Hr) as (r' & ? & ?). exists r'. split; [done|by apply same_evolved].
  - rewrite E. set_solver.
Qed.
Lemma transferred_quiet w1 w2 w3 done : transferred w1 w2 done -> quiet w2 w3 -> transferred w1 w3 done.
Proof.
  intros [N O M D T] [[N2 T2] E2]. split; [congruence| | | |congruence].
  - intros q Hq. specialize (O q Hq). specialize (T2 q).
    destruct (objects (fetches w1) !! q), (objects (fetches w2) !! q), (objects (fetches w3) !! q); inversion O; inversion T2; subst; constructor.
    by eapply same_trans.
  - intros q r Hq Hr Hd. destruct (M q r Hq Hr Hd) as (r' & Hr' & He). destruct (touched_lookup _ _ q r' (conj N2 T2) Hr') as (r2 & H2 & Hs).
    exists r2. split; [done|by eapply evolved_same].
  - intros q Hq. destruct (D q Hq) as (H1 & H2 & H3). split; [done|]. split; [|done]. by apply (touched_none _ _ q (conj N2 T2)).
Qed.

Lemma set_reply_type r r' : set_reply r = Ok r' -> exists t, r' = set_type r t.
Proof.
  unfold set_reply. intros H. ok_inv. destruct (m_type r) eqn:E; ok_inv; subst; try (by eexists); exists (m_type r'); by destruct r'.
Qed.

Lemma req_ok h p r : req h p = Ok r -> h !! p = Some r.
Proof. unfold req. destruct (h !! p); [by intros [= <-]|done]. Qed.

Lemma return_data_transferred c clk w w' done : return_data c clk w = Ok (w', done) -> transferred w w' done.
Proof.
  unfold return_data. destruct (full _); intros H; [ok_inv; simplify_eq; apply quiet_transferred, quiet_refl|].
  ok_inv. destruct x as [[p|] q]; [|ok_inv; simplify_eq; by apply quiet_transferred, quiet_same].
  ok_inv. simpl in *. match goal with E : req _ _ = Ok _ |- _ => apply req_ok, owners_elem in E end.
  destruct (_ <=? _); [|ok_inv; simplify_eq; by apply quiet_transferred, quiet_same]. ok_inv.
  match goal with E : touch_fetch _ _ _ _ = Ok _ |- _ => apply touch_fetch_quiet in E as [[N T] Etr] end. simpl in *.
  rename x0 into w1, x into rq. unfold deref in *. destruct (objects (fetches w1) !! r_data rq) as [mf|] eqn:Emf; [|done]. ok_inv. subst x1.
  assert (exists r, objects (fetches w) !! r_data rq = Some r /\ same_but_status r mf) as (r & Hr & Hs).
  { specialize (T (r_data rq)). rewrite Emf in T. inversion T; subst. by eexists. }
  destruct x2 as [w2 d]. ok_inv. simplify_eq. destruct (negb _ && negb _) eqn:Ewb; ok_inv; simplify_eq.
  - match goal with E : set_reply _ = Ok _ |- _ => apply set_reply_type in E as [t ->] end.
    unfold update, deref in *. rewrite Emf in *. ok_inv. subst. split; simpl; [done| | |done|].
    + intros q' Hq'. rewrite lookup_insert_ne by (intros <-; done). apply T.
    + intros q' r' Hq' Hr' _. rewrite lookup_insert. destruct (decide (r_data rq = q')) as [<-|].
      * assert (r' = r) as -> by congruence. eexists. split; [done|]. destruct Hs as (st & cy & ->). exists st, cy, t. split; [done|right].
        unfold write_back. change (get_access_type (set_mf_status r st cy)) with (get_access_type r) in Ewb.
        apply andb_true_iff in Ewb as [E1%negb_true_iff E2%negb_true_iff]. by rewrite E1, E2.
      * destruct (touched_lookup _ _ q' r' (conj N T) Hr') as (r2 & ? & ?). exists r2. split; [done|by apply same_evolved].
    + set_solver.
  - split; simpl; [done| | | |].
    + intros q' Hq'. rewrite lookup_delete_ne by (intros <-; done). apply T.
    + intros q' r' Hq' Hr' Hne. rewrite lookup_delete_ne by congruence.
      destruct (touched_lookup _ _ q' r' (conj N T) Hr') as (r2 & ? & ?). exists r2. split; [done|by apply same_evolved].
    + intros q' [= <-]. split; [done|]. split; [by rewrite lookup_delete_eq|]. exists r. split; [done|].
      destruct Hs as (st & cy & ->). unfold write_back. apply andb_false_iff in Ewb.
      change (get_access_type (set_mf_status r st cy)) with (get_access_type r) in Ewb.
      by destruct Ewb as [Ewb|Ewb]; apply negb_false_iff in Ewb; rewrite Ewb; [|rewrite orb_true_r].
    + rewrite Etr. set_solver.
Qed.

Lemma dram_cycle_transferred c clk w w' rep : dram_cycle c clk w = Ok (w', rep) -> transferred w w' (wb_done rep).
Proof.
  unfold dram_cycle. intros H. ok_inv. destruct x as [w1 done]. ok_inv. simplify_eq. simpl.
  eapply transferred_quiet; [by eapply return_data_transferred|].
  match goal with E : for_range _ _ _ _ = Ok _ |- _ => unfold for_range in E; apply turns_quiet in E; rename E into Et end.
  assert (quiet w1 x) as Es by (destruct (scheduler_type c); eauto using scheduler_fifo_quiet, scheduler_frfcfs_quiet).
  eapply quiet_trans; [exact Es|]. eapply quiet_trans; [|eapply quiet_trans; [exact Et|by apply quiet_same]]. by apply quiet_same.
Qed.

Lemma dram_push_quiet c clk w data w' : dram_push c clk w data = Ok w' -> quiet w w'.
Proof.
  unfold dram_push. intros H. ok_inv. subst. match goal with E : touch_fetch _ _ _ _ = Ok _ |- _ => apply touch_fetch_quiet in E; rename E into Et end.
  eapply quiet_trans; [|eapply quiet_trans; [exact Et|by apply quiet_same]]. by apply quiet_same.
Qed.
Lemma dram_pop_fetches w o w' : dram_pop w = Ok (o, w') -> fetches w' = fetches w /\ m_request_tracker w' = m_request_tracker w.
Proof. unfold dram_pop. intros H. ok_inv. destruct x. ok_inv. by simplify_eq. Qed.
