(* ===== verification/CacheTraffic.v ===== *)
(** * What an access of a data cache does to requests

    The requests a data cache changes, makes and queues for the next level when it is
    accessed: of the requests that exist only the one it is given changes, in status and
    size; what it makes are write-backs and the reads with which it allocates lines. *)

From S2P Require Import Prelude Coalesce GpuMisc AddrDec TagArray Mshr MemFetch GpuCache GpuCacheInv DramServe FetchFrames.

Section traffic.
Context (p : cache_params).
Abbreviation c := (p_config p).
Implicit Types (s : cache) (r x : mem_fetch).

(** A request that was queued: its status changed, and its size may be that of a line. *)
Definition cached (a b : mem_fetch) : Prop :=
  exists st cy n, b = set_data_size (set_mf_status a st cy) n /\ (n = m_data_size a \/ n = m_line_sz c).

(** The requests a cache makes. *)
Definition placed x : Prop := 0 <= get_addr x < 2 ^ 32 /\ addrdec_tlx (p_map p) (get_addr x) = Ok (m_raw_addr x).
Definition made_write_back x : Prop :=
  placed x /\ write_back x = true /\ get_is_write x = true /\ m_type x = WRITE_REQUEST /\ m_sid x = p_core p /\ m_data_size x = m_line_sz c.
Definition made_alloc_read r x : Prop :=
  placed x /\ get_access_type x = L2_WR_ALLOC_R /\ get_is_write x = false /\ m_type x = READ_REQUEST /\ m_sid x = m_sid r /\
  (m_data_size x = m_data_size r \/ m_data_size x = m_line_sz c).
Definition made r x : Prop := made_write_back x \/ made_alloc_read r x.

Lemma cached_refl a : cached a a.
Proof. exists (mf_status a), (m_status_change a), (m_data_size a). split; [by destruct a|by left]. Qed.
Lemma cached_trans a b d : cached a b -> cached b d -> cached a d.
Proof.
  intros (s1 & c1 & n1 & -> & H1) (s2 & c2 & n2 & -> & H2). exists s2, c2, n2. split; [done|]. simpl in *. intuition congruence.
Qed.
Lemma cached_status a st cy : cached a (set_mf_status a st cy).
Proof. exists st, cy, (m_data_size a). split; [by destruct a|by left]. Qed.

Lemma made_wb_cached x y : made_write_back x -> cached x y -> made_write_back y.
Proof.
  intros (H1 & H2 & H3 & H4 & H5 & H6) (st & cy & n & -> & Hn). split_and!; try done. simpl. destruct Hn; congruence.
Qed.
Lemma made_ar_cached r x y : made_alloc_read r x -> cached x y -> made_alloc_read r y.
Proof.
  intros (H1 & H2 & H3 & H4 & H5 & H6) (st & cy & n & -> & Hn). split_and!; try done. simpl. destruct Hn; [|by right]. subst n. done.
Qed.
Lemma made_cached r x y : made r x -> cached x y -> made r y.
Proof. intros [H|H] Hc; [left; by eapply made_wb_cached|right; by eapply made_ar_cached]. Qed.

(** A request that fills a line is among those that wait for its block. *)
Definition filling s : Prop := forall q e, m_extra_mf_fields s !! q = Some e -> q ∈ waiting_for (c_mshrs s) (ex_block_addr e).
Lemma filling_same s s' : c_mshrs s' = c_mshrs s -> m_extra_mf_fields s' = m_extra_mf_fields s -> filling s -> filling s'.
Proof. unfold filling. by intros -> ->. Qed.

(** From [s] to [s'] the cache worked on the request [mf]: [sent] was queued, [ext] are
    the requests whose answers fill lines. *)
Record traffic r (mf : Z) s s' (sent ext : list Z) : Prop := {
  tr_next : next_object (c_heap s) <= next_object (c_heap s');
  tr_old : forall q, q <> mf -> q < next_object (c_heap s) -> objects (c_heap s') !! q = objects (c_heap s) !! q;
  tr_mf : option_Forall2 cached (objects (c_heap s) !! mf) (objects (c_heap s') !! mf);
  tr_new : forall q x, next_object (c_heap s) <= q -> objects (c_heap s') !! q = Some x -> q <> mf -> made r x;
  tr_heap : heap_ok (c_heap s) -> heap_ok (c_heap s');
  tr_queue : m_miss_queue s' = m_miss_queue s ++ sent;
  tr_extra : forall q, is_Some (m_extra_mf_fields s' !! q) <-> is_Some (m_extra_mf_fields s !! q) \/ q ∈ ext;
  tr_filling : filling s -> filling s';
  tr_port : memport s' = memport s }.

Lemma traffic_none r mf s s' : c_heap s' = c_heap s -> m_miss_queue s' = m_miss_queue s -> m_extra_mf_fields s' = m_extra_mf_fields s ->
  memport s' = memport s -> (filling s -> filling s') -> heap_ok (c_heap s) -> traffic r mf s s' [] [].
Proof.
  intros E1 E2 E3 E4 Hf Hh. split; rewrite ?E1, ?E2, ?E3, ?app_nil_r; try done.
  - destruct (objects _ !! mf); constructor. apply cached_refl.
  - intros q x Hq Hx. specialize (Hh q x Hx). lia.
  - set_solver.
Qed.

Lemma traffic_trans r mf n s1 s2 s3 sent1 sent2 ext1 ext2 : heap_ok (c_heap s1) -> traffic r mf s1 s2 sent1 ext1 -> traffic r n s2 s3 sent2 ext2 ->
  n = mf \/ next_object (c_heap s1) <= n < next_object (c_heap s2) -> mf < next_object (c_heap s1) ->
  traffic r mf s1 s3 (sent1 ++ sent2) (ext1 ++ ext2).
Proof.
  intros Hh [N1 O1 M1 W1 H1 Q1 E1 G1 P1] [N2 O2 M2 W2 H2 Q2 E2 G2 P2] Hn Hmf. split; [lia| | | | | | |auto|congruence].
  - intros q Hq Hlt. rewrite O2 by lia. by apply O1.
  - destruct Hn as [->|Hn]; [|by rewrite (O2 mf) by lia].
    destruct (objects (c_heap s1) !! mf), (objects (c_heap s2) !! mf), (objects (c_heap s3) !! mf); inversion M1; inversion M2; subst; constructor.
    by eapply cached_trans.
  - intros q x Hq Hx Hne. destruct (Z.lt_ge_cases q (next_object (c_heap s2))) as [Hlt|Hge]; [|apply (W2 q); [lia|done|lia]].
    destruct (Z.eq_dec q n) as [->|Hqn]; [|rewrite O2 in Hx by lia; by apply (W1 q)].
    rewrite Hx in M2. inversion M2 as [x1 x2 C2 E|]; subst. eapply made_cached; [|exact C2]. by apply (W1 n).
  - auto.
  - by rewrite Q2, Q1, app_assoc.
  - intros q. rewrite E2, E1. set_solver.
Qed.

(** ** The parts of an access *)

Lemma update_other h q f h' : update h q f = Ok h' -> next_object h' = next_object h /\ forall q', q' <> q -> objects h' !! q' = objects h !! q'.
Proof. unfold update. intros H. ok_inv. subst h'. split; [done|]. intros q' Hq. simpl. by rewrite lookup_insert_ne. Qed.
Lemma update_at h q f h' : update h q f = Ok h' -> exists a, objects h !! q = Some a /\ objects h' !! q = Some (f a).
Proof.
  unfold update, deref. intros H. destruct (objects h !! q) as [a|]; [|done]. injection H as <-. exists a. split; [done|].
  simpl. by rewrite lookup_insert_eq.
Qed.
Lemma update_heap_ok h q f h' : update h q f = Ok h' -> heap_ok h -> heap_ok h'.
Proof.
  unfold update, deref. intros H Hh. destruct (objects h !! q) as [a|] eqn:E; [|done]. injection H as <-. intros q' x. simpl.
  rewrite lookup_insert. destruct (decide (q = q')) as [<-|]; [intros _; by apply (Hh q a)|apply Hh].
Qed.

(** A step that changes the request [q] and queues it. *)
Lemma traffic_update r q f s s' ext : update (c_heap s) q f = Ok (c_heap s') -> (forall a, cached a (f a)) -> heap_ok (c_heap s) ->
  m_miss_queue s' = m_miss_queue s ++ [q] -> (forall k, is_Some (m_extra_mf_fields s' !! k) <-> is_Some (m_extra_mf_fields s !! k) \/ k ∈ ext) ->
  (filling s -> filling s') -> memport s' = memport s -> traffic r q s s' [q] ext.
Proof.
  intros E Hf Hh Hq Hx Hfl Hp. destruct (update_other _ _ _ _ E) as [N O]. destruct (update_at _ _ _ _ E) as (a & Ha & Ha').
  split; try done; [lia| | | |].
  - intros k Hk _. by apply O.
  - rewrite Ha, Ha'. constructor. apply Hf.
  - intros k x Hk Hx' Hne. rewrite O in Hx' by done. specialize (Hh k x Hx'). lia.
  - intros _. by eapply update_heap_ok.
Qed.

Lemma enqueue_traffic r s mf time s' : enqueue p s mf time = Ok s' -> heap_ok (c_heap s) ->
  traffic r mf s s' [mf] [] /\ c_mshrs s' = c_mshrs s /\ next_object (c_heap s') = next_object (c_heap s).
Proof.
  unfold enqueue. intros H Hh. ok_inv. subst s'. split_and!; [|done|by eapply update_other].
  eapply traffic_update; try done; [|set_solver]. intros a. apply cached_status.
Qed.

Lemma fetch_new_fields now a ctrl wid sid tpc n : mem_fetch_new (p_map p) now a None ctrl wid sid tpc = Ok n ->
  mf_access n = a /\ m_data_size n = a_req_size a /\ m_sid n = sid /\ m_type n = (if a_write a then WRITE_REQUEST else READ_REQUEST) /\
  m_inst n = None /\ addrdec_tlx (p_map p) (a_addr a) = Ok (m_raw_addr n).
Proof. unfold mem_fetch_new. intros H. simpl in H. ok_inv. subst n. done. Qed.

Lemma new_object_traffic r mf s n : heap_ok (c_heap s) -> made r n -> mf < next_object (c_heap s) ->
  traffic r mf s (with_heap s (new_object (c_heap s) n).2) [] [].
Proof.
  intros Hh Hn Hmf. split; simpl; try done; [lia| | | | | |].
  - intros q _ Hq. by rewrite lookup_insert_ne by lia.
  - rewrite lookup_insert_ne by lia. destruct (objects _ !! mf); constructor. apply cached_refl.
  - intros q x Hq. rewrite lookup_insert. case_decide; [by intros [= <-]|]. intros ?%Hh. lia.
  - intros _. by apply heap_ok_new.
  - by rewrite app_nil_r.
  - set_solver.
Qed.

(** The write-back of an evicted line. *)
Lemma write_back_traffic r mf s ev type time o s' : GpuCache.write_back p s ev type time = Ok (o, s') -> type = L1_WRBK_ACC \/ type = L2_WRBK_ACC ->
  heap_ok (c_heap s) -> mf < next_object (c_heap s) ->
  traffic r mf s s' (option_list o) [] /\ c_mshrs s' = c_mshrs s /\
  forall q, o = Some q -> q = next_object (c_heap s) /\ exists x, objects (c_heap s') !! q = Some x /\ made_write_back x.
Proof.
  unfold GpuCache.write_back. intros H Hty Hh Hmf. destruct ev as [line|]; [|ok_inv; simplify_eq; split; [by apply traffic_none|done]].
  case_bool_decide; [ok_inv; simplify_eq; split; [by apply traffic_none|done]|]. ok_inv. rename x into sz, x0 into n.
  assert (made_write_back n) as Hn.
  { unfold alloc in *. match goal with E : mem_fetch_new _ _ _ _ _ _ _ _ = Ok n |- _ => apply fetch_new_fields in E as (F1 & F2 & F3 & F4 & _ & F6) end.
    match goal with E : get_line_sz _ = Ok sz |- _ => unfold get_line_sz in E end. ok_inv.
    unfold made_write_back, placed, write_back, get_addr, get_access_type, get_is_write. rewrite F1 in *. simpl in *. split_and!; try done.
    - apply Z.mod_pos_bound. lia.
    - apply Z.mod_pos_bound. lia.
    - by destruct Hty as [-> | ->].
    - congruence. }
  destruct (new_object (c_heap s) n) as [q h] eqn:En. ok_inv. simplify_eq.
  pose proof (new_object_traffic r mf s n Hh (or_introl Hn) Hmf) as T1. unfold new_object in En. injection En as <- <-. simpl in T1.
  match goal with E : enqueue _ _ _ _ = Ok s' |- _ => apply (enqueue_traffic r) in E as (T2 & Em & _); [|by apply T1] end.
  split; [|split; [done|]].
  - apply (traffic_trans r mf _ _ _ _ _ _ _ _ Hh T1 T2); simpl; [right; lia|lia].
  - intros q [= <-]. split; [done|]. pose proof (tr_mf _ _ _ _ _ _ T2) as M. simpl in M. rewrite lookup_insert_eq in M. inversion M as [a b C E1 E2|]; subst.
    exists b. split; [done|]. by eapply made_wb_cached.
Qed.

(** A read that is merged with others or sent. *)
(** A request added to the registers is among those that wait for its block. *)
Lemma mshr_add_waiting m b mf at_ m' q k : mshr_add m b mf at_ = Ok m' -> q ∈ waiting_for m k \/ q = mf /\ k = b -> q ∈ waiting_for m' k.
Proof.
  unfold mshr_add, waiting_for. intros H Hq. ok_inv. subst m'. simpl. destruct at_; rewrite ?insert_insert_eq, lookup_insert;
    (destruct (decide (b = k)) as [<-|Hne]; [simpl; set_solver|destruct Hq as [?|[_ ?]]; [done|congruence]]).
Qed.

Lemma send_read_traffic r s b idx mf time events ro wa res : send_read_request p s b idx mf time events ro wa = Ok res -> heap_ok (c_heap s) ->
  match res with
  | (true, _, events', s') => exists first : bool, traffic r mf s s' (if first then [mf] else []) (if first then [mf] else []) /\
      events' = if wa then events else if first then events ++ [READ_REQUEST_SENT] else events
  | (false, ev, events', s') => s' = s /\ ev = None /\ events' = events /\ can_send p s b = false
  end.
Proof.
  unfold send_read_request. intros H Hh. case_match.
  - ok_inv. destruct x as [[i ev] s1]. ok_inv. subst res. exists false.
    assert (s1 = with_tags s (c_tags s1)) as E1.
    { match goal with E : tags_access _ _ _ _ _ _ = Ok _ |- _ => unfold tags_access in E; destruct ro; ok_inv; repeat (case_match; simplify_eq; ok_inv; simplify_eq); done end. }
    split; [|by destruct wa]. apply traffic_none; try done; try by rewrite E1.
    intros Hf q e Hq. simpl in *. rewrite E1 in *. simpl in *. eapply mshr_add_waiting; [eassumption|]. by left; apply Hf.
  - case_match; [|ok_inv; subst; split_and!; try done; unfold can_send;
      destruct (mshr_probe _ _), (mshr_full _ _), (_ <? _); simpl in *; congruence].
    ok_inv. destruct x as [[i ev] s1]. ok_inv. subst res. exists true. split; [|done].
    assert (s1 = with_tags s (c_tags s1)) as E1.
    { match goal with E : tags_access _ _ _ _ _ _ = Ok _ |- _ => unfold tags_access in E; destruct ro; ok_inv; repeat (case_match; simplify_eq; ok_inv; simplify_eq); done end. }
    assert (c_heap s1 = c_heap s) as Eh by (by rewrite E1).
    match goal with E : update _ _ _ = Ok _ |- _ => rewrite Eh in E; eapply traffic_update with (s' := mkCache _ _ _ _ _ _); simpl; [exact E|..] end; simpl; try done.
    + intros a. eexists _, _, _. split; [done|]. right. match goal with E : get_line_sz _ = Ok _ |- _ => unfold get_line_sz in E end. by ok_inv.
    + by rewrite E1.
    + intros k. rewrite lookup_insert. rewrite E1. simpl. destruct (decide (mf = k)) as [<-|]; [|set_solver]. set_solver.
    + intros Hf q e Hq. simpl in *. rewrite E1 in *. simpl in *. eapply mshr_add_waiting; [eassumption|].
      apply lookup_insert_Some in Hq as [[<- <-]|[_ Hq]]; [by right|left; by apply Hf].
    + by rewrite E1.
Qed.

(** ** Accesses *)

(** What an access leaves, by its answer. *)
Record answered r s s' (mf : Z) (status : cache_request_status) (events : list cache_event) (sent ext : list Z) : Prop := {
  an_traffic : traffic r mf s s' sent ext;
  an_once : NoDup sent;
  an_ext : forall q, q ∈ ext <-> q ∈ sent /\ q ∈ accepted p s mf r status;
  an_sent : forall q, q ∈ sent -> q <> mf -> next_object (c_heap s) <= q /\ exists x, objects (c_heap s') !! q = Some x /\
    (q ∈ accepted p s mf r status \/ made_write_back x);
  an_held : forall q, q ∈ accepted p s mf r status -> q <> mf ->
    next_object (c_heap s) <= q /\ exists x, objects (c_heap s') !! q = Some x /\ made_alloc_read r x;
  an_status : match status with
    | RESERVATION_FAIL => sent = [] /\ events = []
    | HIT => sent = [] /\ events = [] \/ sent = [mf] /\ was_write_sent events = true /\ get_is_write r = true
    | MISS => if get_is_write r then mf ∈ sent /\ mf ∉ accepted p s mf r status else mf ∈ accepted p s mf r status
    | HIT_RESERVED => False
    end }.

Ltac give3 := cbv beta iota zeta in *; ok_inv; repeat match goal with H : _ = ?v |- _ => is_var v; subst v end.

Section one_access.
Context (s : cache) (mf : Z) (r : mem_fetch) (Hh : heap_ok (c_heap s)) (Hmf : objects (c_heap s) !! mf = Some r)
  (Hlt : mf < next_object (c_heap s)).

(** Answers that leave the requests alone. *)
Lemma answered_quiet s' status : status = HIT \/ status = RESERVATION_FAIL -> c_heap s' = c_heap s -> m_miss_queue s' = m_miss_queue s ->
  m_extra_mf_fields s' = m_extra_mf_fields s -> memport s' = memport s -> c_mshrs s' = c_mshrs s -> answered r s s' mf status [] [] [].
Proof using Hh.
  clear Hmf Hlt. intros Hst E1 E2 E3 E4 E5. assert (accepted p s mf r status = []) as Ea by (by destruct Hst as [-> | ->]).
  split; rewrite ?Ea; [apply traffic_none; try done; by apply filling_same|constructor|set_solver..|]. destruct Hst as [-> | ->]; [by left|done].
Qed.

(** A write that is sent on. *)
Lemma answered_sent s1 s2 s' time status : enqueue p s1 mf time = Ok s2 -> status = HIT \/ status = MISS /\ m_write_alloc_policy c = NO_WRITE_ALLOCATE ->
  get_is_write r = true -> c_heap s1 = c_heap s -> m_miss_queue s1 = m_miss_queue s -> m_extra_mf_fields s1 = m_extra_mf_fields s -> memport s1 = memport s ->
  c_mshrs s1 = c_mshrs s -> c_mshrs s' = c_mshrs s2 ->
  c_heap s' = c_heap s2 -> m_miss_queue s' = m_miss_queue s2 -> m_extra_mf_fields s' = m_extra_mf_fields s2 -> memport s' = memport s2 ->
  answered r s s' mf status [WRITE_REQUEST_SENT] [mf] [].
Proof using Hh Hlt.
  clear Hmf. intros E Hst Hw E1 E2 E3 E4 E5 F5 F1 F2 F3 F4.
  assert (accepted p s mf r status = []) as Ea.
  { unfold accepted. destruct Hst as [->|[-> ->]]; [done|]. by rewrite Hw. }
  apply (enqueue_traffic r) in E as (T & _); [|by rewrite E1].
  assert (traffic r mf s s' ([] ++ [mf] ++ []) ([] ++ [] ++ [])) as T'.
  { eapply traffic_trans; [done| |eapply traffic_trans; [| exact T| |by left|]|by left|done].
    - apply traffic_none; try done. by apply filling_same.
    - by rewrite E1.
    - apply traffic_none; try done; [by apply filling_same|]. apply T. by rewrite E1.
    - by rewrite E1. }
  split; rewrite ?Ea; [exact T'|apply NoDup_singleton|set_solver..|]. destruct Hst as [->|[-> _]].
  - right. split; [done|]. split; [|done]. unfold was_write_sent. apply bool_decide_eq_true. left.
  - rewrite Hw. split; [left|]. apply not_elem_of_nil.
Qed.

Lemma rd_miss_traffic addr idx time status events s' : get_is_write r = false -> rd_miss_base p s addr idx mf time [] = Ok (status, events, s') ->
  exists sent ext, answered r s s' mf status events sent ext.
Proof.
  intros Hw H. unfold rd_miss_base in H. destruct (miss_queue_full p s 1); [give3; exists [], []; apply answered_quiet; auto|].
  ok_inv. destruct x as [[[do_miss ev] e1] s1]. ok_inv. destruct x as [wb s2]. give3.
  match goal with E : send_read_request _ _ _ _ _ _ _ _ _ = Ok _ |- _ => apply (send_read_traffic r) in E; [|done]; rename E into T end.
  match goal with E : GpuCache.write_back _ _ _ _ _ = Ok _ |- _ => rename E into W end.
  destruct do_miss.
  - destruct T as (first & T & ->).
    apply (write_back_traffic r mf) in W as (T2 & _ & Hwb); [|by left|by apply T|pose proof (tr_next _ _ _ _ _ _ T); lia].
    pose proof (traffic_trans r mf mf _ _ _ _ _ _ _ Hh T T2 (or_introl eq_refl) Hlt) as T3. rewrite app_nil_r in T3.
    assert (accepted p s mf r MISS = [mf]) as Ea by (unfold accepted; by rewrite Hw).
    pose proof (tr_next _ _ _ _ _ _ T) as Hn. eexists _, _. split; [exact T3| |..]; rewrite ?Ea.
    + apply NoDup_app. split; [destruct first; [apply NoDup_singleton|constructor]|]. split; [|destruct wb; [apply NoDup_singleton|constructor]].
      intros q Hq Hq2. destruct wb as [q'|]; [|set_solver]. destruct (Hwb q' eq_refl) as [-> _]. destruct first; set_solver by lia.
    + intros q. destruct wb as [q'|]; [destruct (Hwb q' eq_refl) as [-> _]|]; destruct first; set_solver by lia.
    + intros q [Hq|Hq]%elem_of_app Hne; [destruct first; set_solver|]. destruct wb as [q'|]; [|set_solver]. destruct (Hwb q' eq_refl) as (-> & x & Hx & Hx').
      apply list_elem_of_singleton in Hq as ->. split; [done|]. exists x. split; [done|by right].
    + intros q ->%list_elem_of_singleton. done.
    + rewrite Hw. left.
  - destruct T as (-> & -> & -> & _). simpl in W. ok_inv. give3. exists [], []. apply answered_quiet; auto.
Qed.

Lemma wr_miss_traffic addr idx time status events s' : get_is_write r = true -> wr_miss p s addr idx mf time [] = Ok (status, events, s') ->
  exists sent ext, answered r s s' mf status events sent ext.
Proof.
  intros Hw H. unfold wr_miss in H. destruct (m_write_alloc_policy c) eqn:Ewa.
  - unfold wr_miss_no_wa in H. destruct (miss_queue_full p s 0); [give3; exists [], []; apply answered_quiet; auto|].
    unfold send_write_request in H. ok_inv. destruct x as [e1 s1]. give3. ok_inv. simplify_eq. exists [mf], []. simpl.
    eapply answered_sent; eauto.
  - unfold wr_miss_wa in H. destruct (miss_queue_full p s 2 || _) eqn:Eg; [give3; exists [], []; apply answered_quiet; auto|].
    apply orb_false_iff in Eg as [Eq Eg]. unfold send_write_request in H. ok_inv. destruct x as [e1 s1]. give3.
    match goal with E : (_, _) = (e1, s1) |- _ => injection E as <- <- end. rename x0 into s1.
    match goal with E : enqueue _ _ _ _ = Ok _ |- _ => apply (enqueue_traffic r) in E as (T1 & Em & N1); [|done] end.
    match goal with E : deref (c_heap s1) mf = Ok ?x |- _ => rename x into r1, E into Er end.
    match goal with E : mem_fetch_new _ _ _ _ _ _ _ _ = Ok ?x |- _ => rename x into n, E into En end.
    assert (cached r r1) as Hc.
    { unfold deref in Er. pose proof (tr_mf _ _ _ _ _ _ T1) as M. rewrite Hmf in M. destruct (objects (c_heap s1) !! mf); [|done].
      inversion M; subst. by injection Er as <-. }
    assert (made_alloc_read r n) as Hn.
    { apply fetch_new_fields in En as (F1 & F2 & F3 & F4 & _ & F6). destruct Hc as (st & cy & k & -> & Hk).
      unfold made_alloc_read, placed, get_addr, get_access_type, get_is_write. rewrite F1. simpl in *.
      pose proof (uwrap_range 32 (a_addr (mf_access r)) ltac:(lia)). split_and!; try done; try apply H; by rewrite F2. }
    destruct (new_object (c_heap s1) n) as [q h] eqn:Eo.
    pose proof (new_object_traffic r mf s1 n (tr_heap _ _ _ _ _ _ T1 Hh) (or_intror Hn) ltac:(lia)) as T2. rewrite Eo in T2. simpl in T2.
    unfold new_object in Eo. injection Eo as <- <-. set (s2 := with_heap s1 _) in *.
    pose proof (traffic_trans r mf mf _ _ _ _ _ _ _ Hh T1 T2 (or_introl eq_refl) Hlt) as T12. rewrite !app_nil_r in T12.
    ok_inv. destruct x as [[[do_miss ev] e1] s3]. ok_inv. destruct x as [wb s4]. give3.
    match goal with E : send_read_request _ _ _ _ _ _ _ _ _ = Ok _ |- _ => apply (send_read_traffic r) in E; [|by apply T12]; rename E into T3 end.
    match goal with E : GpuCache.write_back _ _ _ _ _ = Ok _ |- _ => rename E into W end.
    destruct do_miss; [|exfalso].
    2: { destruct T3 as (_ & _ & _ & T3). apply not_full in Eq. rewrite can_send_test in Eg. apply negb_false_iff, andb_true_iff in Eg as [Eg _].
         unfold can_send in T3. simpl in T3. rewrite Em, Eg, (tr_queue _ _ _ _ _ _ T1), zlen_app in T3. simpl in T3.
         apply orb_false_iff in T3 as [_ T3]. apply Z.ltb_ge in T3. unfold zlen in *. simpl in *. lia. }
    destruct T3 as (first & T3 & ->).
    apply (write_back_traffic r mf) in W as (T4 & _ & Hwb); [|by right|by apply T3, T12|].
    2: { pose proof (tr_next _ _ _ _ _ _ T3). simpl in *. lia. }
    pose proof (traffic_trans r mf _ _ _ _ _ _ _ _ Hh T12 T3 ltac:(right; simpl; lia) Hlt) as T13.
    pose proof (traffic_trans r mf mf _ _ _ _ _ _ _ Hh T13 T4 (or_introl eq_refl) Hlt) as T14. rewrite app_nil_r in T14. simpl in T14.
    assert (accepted p s mf r MISS = [next_object (c_heap s)]) as Ea by (unfold accepted; by rewrite Hw, Ewa).
    pose proof (tr_next _ _ _ _ _ _ T3) as N3. simpl in N3.
    assert (exists x, objects (c_heap s4) !! next_object (c_heap s) = Some x /\ made_alloc_read r x) as (xn & Hxn & Hxn').
    { rewrite (tr_old _ _ _ _ _ _ T4) by lia. pose proof (tr_mf _ _ _ _ _ _ T3) as M. simpl in M. rewrite lookup_insert_eq, N1 in M.
      inversion M as [a b C E1 E2|]; subst. exists b. split; [done|by eapply made_ar_cached]. }
    eexists _, _. split; [exact T14| |..]; rewrite ?Ea.
    + constructor; [|apply NoDup_app; split; [destruct first; [apply NoDup_singleton|constructor]|]; split; [|destruct wb; [apply NoDup_singleton|constructor]]].
      * destruct wb as [q'|]; [destruct (Hwb q' eq_refl) as [-> _]|]; destruct first; set_solver by lia.
      * intros q Hq Hq2. destruct wb as [q'|]; [|set_solver]. destruct (Hwb q' eq_refl) as [-> _]. destruct first; set_solver by lia.
    + intros q. rewrite N1. destruct wb as [q'|]; [destruct (Hwb q' eq_refl) as [-> _]|]; destruct first; set_solver by lia.
    + intros q Hq Hne. apply elem_of_cons in Hq as [?|[Hq|Hq]%elem_of_app]; [done| |].
      * assert (q = next_object (c_heap s)) as -> by (destruct first; set_solver). split; [lia|]. exists xn. split; [done|left; left].
      * destruct wb as [q'|]; [|set_solver]. destruct (Hwb q' eq_refl) as (-> & x & Hx & Hx').
        apply list_elem_of_singleton in Hq as ->. split; [lia|]. exists x. split; [done|by right].
    + intros q ->%list_elem_of_singleton _. split; [lia|]. by exists xn.
    + rewrite Hw. set_solver by lia.
Qed.

Lemma data_access_traffic addr time status events s' : data_access p s addr mf time [] = Ok (status, events, s') ->
  exists sent ext, answered r s s' mf status events sent ext.
Proof.
  intros H. unfold data_access, deref in H. rewrite Hmf, bind_of_ok in H. ok_inv. destruct x1 as [st idx].
  match goal with E : _ = Ok (status, events, s') |- _ => rename E into Ha end. clear H H0 x x0. destruct (get_is_write r) eqn:Hw.
  - destruct st; [|by eapply wr_miss_traffic..|give3; exists [], []; apply answered_quiet; auto].
    assert (forall res, wr_hit_wb p s addr idx time [] = Ok res -> res = (status, events, s') -> exists sent ext, answered r s s' mf status events sent ext) as Hwb.
    { unfold wr_hit_wb. intros res E ->. ok_inv. destruct x as [[? ?] ?]. give3. exists [], []. by apply answered_quiet; auto. }
    assert (forall res, wr_hit_we p s addr idx mf time [] = Ok res -> res = (status, events, s') -> exists sent ext, answered r s s' mf status events sent ext) as Hwe.
    { unfold wr_hit_we, send_write_request. intros res E ->. destruct (miss_queue_full p s 0); [give3; exists [], []; apply answered_quiet; auto|].
      ok_inv. destruct x as [e1 s1]. give3. match goal with E : (_, _) = (e1, s1) |- _ => injection E as <- <- end. exists [mf], [].
      by eapply answered_sent; eauto. }
    unfold wr_hit in Ha. destruct (m_write_policy c); [done|by eapply Hwb| |by eapply Hwe|].
    + unfold wr_hit_wt, send_write_request in Ha. destruct (miss_queue_full p s 0); [give3; exists [], []; apply answered_quiet; auto|].
      ok_inv. destruct x as [[? ?] t]. ok_inv. destruct x0 as [e1 s1]. give3. match goal with E : (_, _) = (e1, s1) |- _ => injection E as <- <- end.
      exists [mf], []. by eapply answered_sent; eauto.
    + unfold wr_hit_global_we_local_wb in Ha. ok_inv. case_bool_decide; [by eapply Hwe|by eapply Hwb].
  - destruct st; [|by eapply rd_miss_traffic..|give3; exists [], []; apply answered_quiet; auto].
    unfold rd_hit_base in Ha. ok_inv. destruct x as [[? ?] ?]. give3. exists [], []. by apply answered_quiet; auto.
Qed.
End one_access.
End traffic.
