(* ===== verification/PartitionFlow.v ===== *)
(** * Where the requests of a memory partition are

    Every request inside a partition is in one place: on its way from the interconnect
    ([Up]), on its way to the DRAM ([Down]), in the DRAM channel ([Fly]), on its way back
    ([Back]) or on its way to the interconnect ([Out]); a read that misses in the L2 cache
    waits there too, and is on its way through the DRAM when it is the one that fills the
    line.  The lemmas say how the places of requests may change. *)

From S2P Require Import Prelude Coalesce GpuMisc AddrDec TagArray Mshr MemFetch GpuCache GpuCacheInv DelayQueue MemStats FrFcfs Dram DramServe.
From S2P Require Import FetchFrames CacheTraffic Partition.

Inductive place := Up | Down | Fly | Back | Out.
#[export] Instance place_eq_dec : EqDecision place.
Proof. solve_decision. Defined.

(** ** Kinds of requests *)

Definition of_ruby (r : mem_fetch) : Prop := get_access_type r = RUBY_DRAM_R \/ get_access_type r = RUBY_DRAM_W.
Definition is_alloc (r : mem_fetch) : Prop := get_access_type r = L2_WR_ALLOC_R.
(** What the cores send. *)
Definition of_core (r : mem_fetch) : Prop := get_access_type r <> L2_WRBK_ACC /\ ~ is_alloc r /\ ~ of_ruby r.

Section flow.
Context (c : partition_config) (n_shader : Z).
Abbreviation dc := (pc_dram c).

(** The channel can take the request. *)
Record routed (r : mem_fetch) : Prop := {
  rt_chip : 0 <= chip (m_raw_addr r) < m_n_mem dc;
  rt_bank : 0 <= bk (m_raw_addr r) < nbk dc;
  rt_type : get_access_type r <> NUM_MEM_ACCESS_TYPE;
  rt_core : m_sid r = u32 (-1) \/ 0 <= m_sid r < n_shader;
  rt_size : 0 <= m_data_size r /\ m_data_size r + dram_atom_size dc < 2 ^ 32 }.
(** The L2 cache can take it. *)
Record cacheable (r : mem_fetch) : Prop := {
  cb_size : m_data_size r <= m_line_sz (p_config (pc_L2 c));
  cb_addr : 0 <= m_partition_addr r < 2 ^ 64;
  cb_atomic : isatomic r = true -> m_alloc_policy (p_config (pc_L2 c)) = ON_MISS /\ get_access_type r = GLOBAL_ACC_R }.

Definition place_ok (pl : place) (r : mem_fetch) : Prop :=
  match pl with
  | Up => routed r /\ waits_reply r /\ of_core r /\ (write_back r = true -> get_is_write r = true) /\ (L2_disabled c = false -> cacheable r)
  | Down => routed r /\ waits_reply r
  | Fly => is_reply r -> write_back r = false
  | Back => is_reply r /\ write_back r = false
  | Out => is_reply r /\ write_back r = false /\ of_core r
  end.
Definition held_ok (r : mem_fetch) : Prop :=
  get_is_write r = false /\ write_back r = false /\ ~ of_ruby r /\ (waits_reply r \/ is_reply r).

Lemma place_ok_same pl a b : same_but_status a b -> place_ok pl a -> place_ok pl b.
Proof.
  intros (st & cy & ->) H. destruct pl; try done.
  - destruct H as ([] & H2 & H3 & H4 & H5). split_and!; [by split|done..|]. intros Hd. destruct (H5 Hd). by split.
  - destruct H as ([] & H2). split; [by split|done].
Qed.
Lemma held_ok_same a b : same_but_status a b -> held_ok a -> held_ok b.
Proof. by intros (st & cy & ->). Qed.
Lemma same_type a b : same_but_status a b -> get_access_type b = get_access_type a.
Proof. by intros (st & cy & ->). Qed.

(** ** The invariant

    [L] are the requests with their places, [H] those that wait in the cache, [X] those
    whose return fills a line, [T] the tracker, [M] the messages of Ruby's requests. *)
Record located (H : list Z) (T : gset Z) (M : gmap Z Z) (h : heap) (q : Z) (pl : place) : Prop := {
  lo_ok : exists r, objects h !! q = Some r /\ place_ok pl r /\ (is_alloc r -> q ∈ H) /\ (of_ruby r -> pl = Fly /\ is_Some (M !! q)) /\
    (q ∈ T \/ write_back r = true \/ is_alloc r \/ of_ruby r);
  lo_held : q ∈ H -> pl = Down \/ pl = Fly \/ pl = Back }.

Record flow (L : list (Z * place)) (H : list Z) (X : Z → Prop) (T : gset Z) (M : gmap Z Z) (h : heap) : Prop := {
  fl_heap : heap_ok h;
  fl_once : NoDup L.*1;
  fl_places : forall q pl, (q, pl) ∈ L -> located H T M h q pl;
  fl_held : NoDup H;
  fl_waits : forall q, q ∈ H -> exists r, objects h !! q = Some r /\ held_ok r /\ (is_alloc r \/ q ∈ T);
  fl_fills : forall q, X q <-> q ∈ H /\ q ∈ L.*1;
  fl_track : forall q, q ∈ T -> (q ∈ L.*1 \/ q ∈ H) /\ exists r, objects h !! q = Some r /\ of_core r;
  fl_msg : forall q, is_Some (M !! q) -> q ∈ L.*1 /\ exists r, objects h !! q = Some r /\ of_ruby r }.

Lemma elem_fst (L : list (Z * place)) q : q ∈ L.*1 <-> exists pl, (q, pl) ∈ L.
Proof. rewrite list_elem_of_fmap. split; [intros ([q' pl] & -> & H); by exists pl|intros [pl H]; by exists (q, pl)]. Qed.

Lemma flow_perm L L' H H' (X X' : Z → Prop) T M h : flow L H X T M h -> L ≡ₚ L' -> H ≡ₚ H' -> (forall q, X q <-> X' q) -> flow L' H' X' T M h.
Proof.
  intros [F1 F2 F3 F4 F5 F6 F7 F8] PL PH EX. split; [done|by rewrite <- PL| |by rewrite <- PH| | | |].
  - intros q pl Hq. rewrite <- PL in Hq. destruct (F3 q pl Hq) as [(r & A1 & A2 & A3 & A4 & A5) B]. split; setoid_rewrite <- PH; [by exists r|done].
  - intros q Hq. apply F5. by rewrite PH.
  - intros q. rewrite <- EX, <- PH, <- PL. apply F6.
  - intros q Hq. rewrite <- PH, <- PL. by apply F7.
  - intros q Hq. rewrite <- PL. by apply F8.
Qed.

(** The contents of requests may change as long as their places still suit them. *)
Definition suits (L : list (Z * place)) (H : list Z) (q : Z) (r r' : mem_fetch) : Prop :=
  get_access_type r' = get_access_type r /\ (forall pl, (q, pl) ∈ L -> place_ok pl r -> place_ok pl r') /\ (q ∈ H -> held_ok r -> held_ok r').

Lemma of_core_type a b : get_access_type b = get_access_type a -> of_core a -> of_core b.
Proof. unfold of_core, is_alloc, of_ruby. by intros ->. Qed.
Lemma wb_type a b : get_access_type b = get_access_type a -> write_back b = write_back a.
Proof. unfold write_back. by intros ->. Qed.

Lemma flow_objects L H X T M h h' : flow L H X T M h -> heap_ok h' ->
  (forall q r, q ∈ L.*1 \/ q ∈ H -> objects h !! q = Some r -> exists r', objects h' !! q = Some r' /\ suits L H q r r') ->
  flow L H X T M h'.
Proof.
  intros [F1 F2 F3 F4 F5 F6 F7 F8] Hh Ho. split; try done.
  - intros q pl Hq. destruct (F3 q pl Hq) as [(r & A1 & A2 & A3 & A4 & A5) B]. split; [|done].
    destruct (Ho q r) as (r' & E & Et & Hp & _); [left; rewrite elem_fst; by exists pl|done|]. exists r'.
    unfold is_alloc, of_ruby. rewrite (wb_type _ _ Et), Et. split_and!; auto.
  - intros q Hq. destruct (F5 q Hq) as (r & A1 & A2 & A3). destruct (Ho q r) as (r' & E & Et & _ & Hw); [by right|done|].
    exists r'. unfold is_alloc. rewrite Et. split_and!; auto.
  - intros q Hq. destruct (F7 q Hq) as (A & r & A1 & A2). split; [done|]. destruct (Ho q r) as (r' & E & Et & _); [done|done|].
    exists r'. split; [done|]. by eapply of_core_type.
  - intros q Hq. destruct (F8 q Hq) as (A & r & A1 & A2). split; [done|]. destruct (Ho q r) as (r' & E & Et & _); [by left|done|].
    exists r'. split; [done|]. unfold of_ruby. by rewrite Et.
Qed.

Lemma flow_touched L H X T M h h' : flow L H X T M h -> touched h h' -> heap_ok h' -> flow L H X T M h'.
Proof.
  intros F Ht Hh. eapply flow_objects; [exact F|done|]. intros q r _ Hr. destruct (touched_lookup _ _ _ _ Ht Hr) as (r' & E & Hs). exists r'.
  split; [done|]. split; [by apply same_type|]. split; [intros pl _; by apply place_ok_same|intros _; by apply held_ok_same].
Qed.

(** ** Changes of place *)

(** [q] goes to another place, and its contents may change. *)
Lemma flow_move L H X T M h h' q pl pl' r r' : flow ((q, pl) :: L) H X T M h -> heap_ok h' ->
  objects h !! q = Some r -> objects h' !! q = Some r' -> (forall k, k <> q -> objects h' !! k = objects h !! k) ->
  get_access_type r' = get_access_type r -> place_ok pl' r' -> (q ∈ H -> held_ok r' /\ (pl' = Down \/ pl' = Fly \/ pl' = Back)) ->
  (of_ruby r -> pl' = Fly) -> flow ((q, pl') :: L) H X T M h'.
Proof.
  intros [F1 F2 F3 F4 F5 F6 F7 F8] Hh Hr Hr' Ho Et Hp HH HR. split; try done.
  - intros k pl1 [[= -> ->]|Hk]%elem_of_cons.
    + destruct (F3 q pl ltac:(left)) as [(x & A1 & A2 & A3 & A4 & A5) B]. assert (x = r) as -> by congruence. split; [|intros Hq; by destruct (HH Hq)].
      exists r'. unfold is_alloc, of_ruby in *. rewrite (wb_type _ _ Et), Et. split_and!; try done. intros Hru. split; [auto|by destruct (A4 Hru)].
    + assert (k <> q) as Hne. { intros ->. apply NoDup_cons in F2 as [F2 _]. apply F2, elem_fst. by exists pl1. }
      destruct (F3 k pl1 ltac:(by right)) as [(x & A) B]. split; [|done]. exists x. by rewrite Ho.
  - intros k Hk. destruct (F5 k Hk) as (x & A1 & A2 & A3). destruct (Z.eq_dec k q) as [->|Hne]; [|exists x; by rewrite Ho].
    assert (x = r) as -> by congruence. exists r'. unfold is_alloc in *. rewrite Et. split; [done|]. split; [by apply HH|done].
  - intros k Hk. destruct (F7 k Hk) as (A & x & A1 & A2). split; [done|]. destruct (Z.eq_dec k q) as [->|Hne]; [|exists x; by rewrite Ho].
    assert (x = r) as -> by congruence. exists r'. split; [done|]. by eapply of_core_type.
  - intros k Hk. destruct (F8 k Hk) as (A & x & A1 & A2). split; [done|]. destruct (Z.eq_dec k q) as [->|Hne]; [|exists x; by rewrite Ho].
    assert (x = r) as -> by congruence. exists r'. split; [done|]. unfold of_ruby. by rewrite Et.
Qed.

(** A request that does not wait in the cache leaves. *)
Lemma flow_leave L H X T T' M M' h h' q pl : flow ((q, pl) :: L) H X T M h -> heap_ok h' -> q ∉ H ->
  (forall k, k <> q -> objects h' !! k = objects h !! k) -> (forall k, k ∈ T' <-> k ∈ T /\ k <> q) -> (forall k, M' !! k = if decide (k = q) then None else M !! k) ->
  flow L H X T' M' h'.
Proof.
  intros [F1 F2 F3 F4 F5 F6 F7 F8] Hh Hq Ho HT HM. simpl in F2. apply NoDup_cons in F2 as [F2 F2']. split; try done.
  - intros k pl1 Hk. assert (k <> q) as Hne by (intros ->; apply F2, elem_fst; by exists pl1).
    destruct (F3 k pl1 ltac:(by right)) as [(x & A1 & A2 & A3 & A4 & A5) B]. split; [|done]. exists x. rewrite Ho, HT, HM, decide_False by done. tauto.
  - intros k Hk. assert (k <> q) by (by intros ->). destruct (F5 k Hk) as (x & A1 & A2 & A3). exists x. rewrite Ho, HT by done. tauto.
  - intros k. rewrite F6. simpl. rewrite elem_of_cons. split; [|tauto]. intros [Hk [->|?]]; [done|tauto].
  - intros k [Hk Hne]%HT. destruct (F7 k Hk) as [A B]. rewrite Ho by done. split; [|done]. simpl in A. rewrite elem_of_cons in A. tauto.
  - intros k. rewrite HM. case_decide as Hk; [by intros [? ?]|]. intros Hs. destruct (F8 k Hs) as (A & B). rewrite Ho by done. split; [|done].
    simpl in A. apply elem_of_cons in A. tauto.
Qed.

(** The request fills a line: it goes on waiting in the cache only. *)
Lemma flow_fill L H X T M h h' q pl r r' : flow ((q, pl) :: L) H X T M h -> heap_ok h' -> q ∈ H ->
  objects h !! q = Some r -> objects h' !! q = Some r' -> (forall k, k <> q -> objects h' !! k = objects h !! k) ->
  get_access_type r' = get_access_type r -> (held_ok r -> held_ok r') -> flow L H (fun k => X k /\ k <> q) T M h'.
Proof.
  intros [F1 F2 F3 F4 F5 F6 F7 F8] Hh HH Hr Hr' Ho Et Hhd. simpl in F2. apply NoDup_cons in F2 as [F2 F2']. split; try done.
  - intros k pl1 Hk. assert (k <> q) as Hne by (intros ->; apply F2, elem_fst; by exists pl1).
    destruct (F3 k pl1 ltac:(by right)) as [(x & A) B]. split; [|done]. exists x. by rewrite Ho.
  - intros k Hk. destruct (F5 k Hk) as (x & A1 & A2 & A3). destruct (Z.eq_dec k q) as [->|Hne]; [|exists x; by rewrite Ho].
    assert (x = r) as -> by congruence. exists r'. unfold is_alloc in *. rewrite Et. auto.
  - intros k. rewrite F6. simpl. rewrite elem_of_cons. split; [tauto|]. intros [Hk Hin]. split; [tauto|]. by intros ->.
  - intros k Hk. destruct (F7 k Hk) as (A & x & A1 & A2). simpl in A. rewrite elem_of_cons in A.
    split; [destruct A as [[-> |?]|?]; tauto|]. destruct (Z.eq_dec k q) as [->|Hne]; [|exists x; by rewrite Ho].
    assert (x = r) as -> by congruence. exists r'. split; [done|]. by eapply of_core_type.
  - intros k Hk. destruct (F8 k Hk) as (A & x & A1 & A2). assert (k <> q) as Hne.
    { intros ->. destruct (F5 q HH) as (y & B1 & (_ & _ & B2 & _) & _). apply B2. by assert (y = x) as -> by congruence. }
    rewrite Ho by done. split; [|by exists x]. simpl in A. apply elem_of_cons in A. tauto.
Qed.

(** A request that waited in the cache is answered, and goes to the interconnect ... *)
Lemma flow_answer L H X T M h h' q r r' : flow L (q :: H) X T M h -> heap_ok h' -> ~ X q ->
  objects h !! q = Some r -> objects h' !! q = Some r' -> (forall k, k <> q -> objects h' !! k = objects h !! k) ->
  get_access_type r' = get_access_type r -> ~ is_alloc r -> is_reply r' -> flow ((q, Out) :: L) H X T M h'.
Proof.
  intros [F1 F2 F3 F4 F5 F6 F7 F8] Hh HX Hr Hr' Ho Et Hal Hrep. apply NoDup_cons in F4 as [F4 F4'].
  assert (q ∉ L.*1) as HL by (intros Hq; apply HX, F6; split; [left|done]).
  destruct (F5 q ltac:(left)) as (x & A1 & (A2 & A2' & A2'' & _) & A3). assert (x = r) as -> by congruence.
  assert (q ∈ T) as HT by tauto. split; try done.
  - constructor; done.
  - intros k pl1 [[= -> ->]|Hk]%elem_of_cons.
    + split; [|done]. exists r'. unfold is_alloc, of_ruby, place_ok in *. rewrite (wb_type _ _ Et), Et. split_and!; try done; [|tauto].
      destruct (F7 q HT) as (_ & x & Hx & Hc). assert (x = r) as -> by congruence. by eapply of_core_type.
    + assert (k <> q) as Hne by (intros ->; apply HL, elem_fst; by exists pl1).
      destruct (F3 k pl1 Hk) as [(x & B1 & B2 & B3 & B4 & B5) C]. split; [|intros ?; apply C; by right]. exists x. rewrite Ho by done.
      split_and!; try done. intros Ha. by apply B3 in Ha as [?|?]%elem_of_cons.
  - intros k Hk. assert (k <> q) by (by intros ->). rewrite Ho by done. apply F5. by right.
  - intros k. rewrite F6. simpl. rewrite !elem_of_cons. split; [|intros [? [->|?]]; [done|tauto]]. intros [[-> |?] ?]; [done|tauto].
  - intros k Hk. destruct (F7 k Hk) as (A & x & B1 & B2). simpl. rewrite !elem_of_cons in *. split; [tauto|].
    destruct (Z.eq_dec k q) as [->|Hne]; [|exists x; by rewrite Ho]. assert (x = r) as -> by congruence. exists r'. split; [done|]. by eapply of_core_type.
  - intros k Hk. destruct (F8 k Hk) as (A & x & B1 & B2). assert (k <> q) as Hne by (by intros ->). rewrite Ho by done.
    simpl. rewrite elem_of_cons. split; [tauto|by exists x].
Qed.

(** ... or, when it was made by the cache, ends there. *)
Lemma flow_end L H X T M h h' q r : flow L (q :: H) X T M h -> heap_ok h' -> ~ X q -> objects h !! q = Some r -> is_alloc r ->
  (forall k, k <> q -> objects h' !! k = objects h !! k) -> flow L H X T M h' /\ q ∉ T.
Proof.
  intros [F1 F2 F3 F4 F5 F6 F7 F8] Hh HX Hr Hal Ho. apply NoDup_cons in F4 as [F4 F4'].
  assert (q ∉ L.*1) as HL by (intros Hq; apply HX, F6; split; [left|done]).
  assert (q ∉ T) as HT. { intros Hq. destruct (F7 q Hq) as (_ & x & Hx & _ & Hn & _). apply Hn. by assert (x = r) as -> by congruence. }
  split; [|done]. split; try done.
  - intros k pl1 Hk. assert (k <> q) as Hne by (intros ->; apply HL, elem_fst; by exists pl1).
    destruct (F3 k pl1 Hk) as [(x & B1 & B2 & B3 & B4 & B5) C]. split; [|intros ?; apply C; by right]. exists x. rewrite Ho by done.
    split_and!; try done. intros Ha. by apply B3 in Ha as [?|?]%elem_of_cons.
  - intros k Hk. assert (k <> q) by (by intros ->). rewrite Ho by done. apply F5. by right.
  - intros k. rewrite F6, elem_of_cons. split; [|tauto]. intros [[-> |?] ?]; [done|tauto].
  - intros k Hk. assert (k <> q) by (by intros ->). destruct (F7 k Hk) as (A & B). rewrite Ho by done. rewrite elem_of_cons in A. tauto.
  - intros k Hk. destruct (F8 k Hk) as (A & B). assert (k <> q) by (by intros ->). by rewrite Ho by done.
Qed.

(** A new request: from a core, from Ruby, or a write-back of the cache. *)
Lemma flow_enter L H X T T' M M' h q pl r : flow L H X T M h -> q ∉ L.*1 -> q ∉ H -> objects h !! q = Some r -> place_ok pl r -> ~ is_alloc r ->
  (of_ruby r -> pl = Fly /\ is_Some (M' !! q)) -> (q ∈ T' \/ write_back r = true \/ of_ruby r) ->
  (forall k, k ∈ T' -> k ∈ T \/ k = q /\ of_core r) -> T ⊆ T' -> (forall k, k <> q -> M' !! k = M !! k) ->
  (is_Some (M' !! q) -> of_ruby r) -> flow ((q, pl) :: L) H X T' M' h.
Proof.
  intros [F1 F2 F3 F4 F5 F6 F7 F8] HL HH Hr Hp Hal HR HT HT' Hsub HM HM'. split; try done.
  - by constructor.
  - intros k pl1 [[= -> ->]|Hk]%elem_of_cons.
    + split; [|done]. exists r. split_and!; try done. tauto.
    + assert (k <> q) as Hne by (intros ->; apply HL, elem_fst; by exists pl1).
      destruct (F3 k pl1 Hk) as [(x & B1 & B2 & B3 & B4 & B5) C]. split; [|done]. exists x. rewrite HM by done. split_and!; try done. set_solver.
  - intros k Hk. destruct (F5 k Hk) as (x & A1 & A2 & A3). exists x. split_and!; try done. set_solver.
  - intros k. rewrite F6. simpl. rewrite elem_of_cons. split; [tauto|]. intros [? [->|?]]; tauto.
  - intros k Hk. simpl. rewrite elem_of_cons. destruct (HT' k Hk) as [Hk'|[-> Hc]]; [|split; [tauto|by exists r]].
    destruct (F7 k Hk') as [A B]. tauto.
  - intros k Hk. simpl. rewrite elem_of_cons. destruct (Z.eq_dec k q) as [->|Hne]; [split; [by left|]; exists r; auto|].
    rewrite HM in Hk by done. destruct (F8 k Hk). tauto.
Qed.

(** A read joins those that wait in the cache; a new one that allocates a line too. *)
Lemma flow_wait L H X T M h q r : flow L H X T M h -> q ∉ L.*1 -> q ∉ H -> objects h !! q = Some r -> held_ok r -> (is_alloc r \/ q ∈ T) ->
  flow L (q :: H) X T M h.
Proof.
  intros [F1 F2 F3 F4 F5 F6 F7 F8] HL HH Hr Hh Hk. split; try done.
  - intros k pl1 Hkk. assert (k <> q) as Hne by (intros ->; apply HL, elem_fst; by exists pl1).
    destruct (F3 k pl1 Hkk) as [(x & B1 & B2 & B3 & B4 & B5) C]. split; [|intros [?|?]%elem_of_cons; [done|auto]].
    exists x. split_and!; try done. intros ?. right. auto.
  - by constructor.
  - intros k [->|Hkk]%elem_of_cons; [by exists r|auto].
  - intros k. rewrite F6, elem_of_cons. split; [tauto|]. intros [[-> |?] ?]; [done|tauto].
  - intros k Hkk. destruct (F7 k Hkk) as [A B]. rewrite elem_of_cons. tauto.
Qed.

(** A waiting read is sent to the DRAM to fill its line. *)
Lemma flow_send L H X T M h q r : flow L H X T M h -> q ∉ L.*1 -> q ∈ H -> objects h !! q = Some r -> place_ok Down r ->
  flow ((q, Down) :: L) H (fun k => X k \/ k = q) T M h.
Proof.
  intros [F1 F2 F3 F4 F5 F6 F7 F8] HL HH Hr Hp. split; try done.
  - by constructor.
  - intros k pl1 [[= -> ->]|Hk]%elem_of_cons; [|by apply F3].
    split; [|auto]. exists r. destruct (F5 q HH) as (x & A1 & (_ & _ & A2 & _) & A3). assert (x = r) as -> by congruence.
    split_and!; try done. tauto.
  - intros k. rewrite F6. simpl. rewrite elem_of_cons. split; [|tauto]. intros [?| ->]; tauto.
  - intros k Hk. destruct (F7 k Hk) as [A B]. simpl. rewrite elem_of_cons. tauto.
  - intros k Hk. destruct (F8 k Hk) as [A B]. simpl. rewrite elem_of_cons. tauto.
Qed.

(** A read from the interconnect waits in the cache. *)
Lemma flow_hold L H X T M h q r : flow ((q, Up) :: L) H X T M h -> objects h !! q = Some r -> held_ok r -> q ∈ T -> flow L (q :: H) X T M h.
Proof.
  intros [F1 F2 F3 F4 F5 F6 F7 F8] Hr Hh HT. simpl in F2. apply NoDup_cons in F2 as [F2 F2'].
  assert (q ∉ H) as HH. { intros HH. destruct (F3 q Up ltac:(left)) as [_ B]. by destruct (B HH) as [|[|]]. }
  split; try done.
  - intros k pl1 Hkk. assert (k <> q) as Hne by (intros ->; apply F2, elem_fst; by exists pl1).
    destruct (F3 k pl1 ltac:(by right)) as [(x & B1 & B2 & B3 & B4 & B5) C]. split; [|intros [?|?]%elem_of_cons; [done|auto]].
    exists x. split_and!; try done. intros ?. right. auto.
  - by constructor.
  - intros k [->|Hkk]%elem_of_cons; [exists r; auto|auto].
  - intros k. rewrite F6. simpl. rewrite !elem_of_cons. split; [intros [? [->|?]]; [done|tauto]|]. intros [[-> |?] ?]; [done|tauto].
  - intros k Hkk. destruct (F7 k Hkk) as [A B]. simpl in A. rewrite elem_of_cons in *. tauto.
  - intros k Hkk. destruct (F8 k Hkk) as (A & x & B1 & B2). simpl in A. apply elem_of_cons in A as [->|A]; [|by eauto].
    assert (x = r) as -> by congruence. destruct Hh as (_ & _ & Hn & _). done.
Qed.

(** What the cache queues: waiting reads and its write-backs. *)
Lemma flow_sends L H X T M h sent : flow L H X T M h -> NoDup sent ->
  (forall q, q ∈ sent -> (q ∉ L.*1) /\ exists r, objects h !! q = Some r /\ place_ok Down r /\ (q ∈ H \/ (q ∉ H) /\ write_back r = true)) ->
  flow (((fun q => (q, Down)) <$> sent) ++ L) H (fun k => X k \/ k ∈ sent /\ k ∈ H) T M h.
Proof.
  intros F. induction sent as [|q sent IH]; intros Hn Hs.
  { eapply flow_perm; [exact F|done|done|]. intros k. set_solver. }
  apply NoDup_cons in Hn as [Hq Hn]. destruct (Hs q ltac:(left)) as (HL & r & Hr & Hp & Hk).
  specialize (IH Hn ltac:(intros k Hk'; apply Hs; by right)).
  assert (q ∉ (((fun q => (q, Down)) <$> sent) ++ L).*1) as HL'.
  { rewrite fmap_app, <- list_fmap_compose, elem_of_app. intros [Hin|Hin]; [|done]. apply list_elem_of_fmap in Hin as (k & -> & Hin). done. }
  destruct Hk as [HH|[HH Hwb]].
  - eapply flow_perm; [by eapply (flow_send _ _ _ _ _ _ q r IH)|done|done|]. intros k. rewrite elem_of_cons. split; [|tauto].
    intros [[?|[? ?]]| ->]; tauto.
  - eapply (flow_perm _ _ H H); [eapply (flow_enter _ _ _ T T M M h q Down r IH); try done|done|done|].
    + unfold is_alloc. intros E. unfold write_back in Hwb. by rewrite E in Hwb.
    + intros [E|E]; unfold write_back in Hwb; by rewrite E in Hwb.
    + auto.
    + auto.
    + intros Hm. by destruct (fl_msg _ _ _ _ _ _ IH q Hm).
    + intros k. rewrite elem_of_cons. split; [tauto|]. intros [?|[[->|?] ?]]; tauto.
Qed.
End flow.
