(* ===== verification/PartitionInv.v ===== *)
(** * The invariant of a memory partition

    The L2 cache, the queues and the DRAM channel of a partition, each in order, with
    every request in one place ([PartitionFlow]); every step of the two cycles of a
    partition succeeds and keeps it. *)

From S2P Require Import Prelude Coalesce GpuMisc AddrDec TagArray Mshr MemFetch GpuCache GpuCacheInv DelayQueue MemStats FrFcfs Dram DramServe.
From S2P Require Import FetchFrames CacheTraffic Partition PartitionFlow.

(** ** The queues *)

Definition queue_ok (q : fifo_pipeline Z) : Prop := fifo_wf q /\ solid q /\ 0 < m_max_len q.

Lemma queue_push q a : queue_ok q -> full q = false -> exists q', push q (Some a) = Ok q' /\ queue_ok q' /\ items q' = items q ++ [a].
Proof.
  intros (Hw & Hs & Hm) Hf. destruct (push_wf q (Some a) Hw) as (q' & E & Hw' & Hi & _); [by apply full_room|].
  exists q'. destruct (push_max _ _ _ E) as [Em _]. split; [done|]. split; [|done]. split; [done|]. split; [by eapply solid_push|lia].
Qed.
Lemma queue_pop q : queue_ok q -> exists q', pop q = Ok (head (items q), q') /\ queue_ok q' /\ items q = option_list (head (items q)) ++ items q'.
Proof.
  intros (Hw & Hs & Hm). destruct (pop_wf q Hw) as (q' & E & Hw' & Hi & _). destruct (pop_max _ _ _ E) as [Em _].
  rewrite (solid_top q Hs) in E, Hi. exists q'. split; [done|]. split; [|by destruct (head (items q))].
  split; [done|]. split; [by eapply solid_pop|lia].
Qed.
Lemma queue_top q : queue_ok q -> empty q = false -> exists a q', items q = a :: items q' /\ top q = Some a /\ pop q = Ok (Some a, q') /\ queue_ok q'.
Proof.
  intros Hq He. destruct (queue_pop q Hq) as (q' & E & Hq' & Hi). destruct Hq as (_ & Hs & _). rewrite solid_empty in He by done.
  apply bool_decide_eq_false in He. destruct (items q) as [|a l] eqn:El; [done|]. simpl in *. exists a, q'.
  rewrite (solid_top q Hs), El. by rewrite Hi.
Qed.
Lemma queue_new n q : 0 < n < 2 ^ 32 -> fifo_new 0 n = Ok q -> queue_ok q /\ items q = [].
Proof.
  intros Hn E. destruct (fifo_new_wf (A := Z) 0 n ltac:(lia) ltac:(lia)) as (q' & E' & Hw & Hi & _ & Hm). rewrite E in E'. injection E' as <-.
  split; [|done]. split; [done|]. split; [by eapply solid_new|lia].
Qed.

Lemma NoDup_fmap_fst (L : list (Z * place)) : NoDup L.*1 -> forall q p1 p2, (q, p1) ∈ L -> (q, p2) ∈ L -> p1 = p2.
Proof.
  induction L as [|[k pl] L IH]; intros Hn q p1 p2; [by intros ?%not_elem_of_nil|]. apply NoDup_cons in Hn as [Hk Hn].
  intros [[= -> ->]|H1]%elem_of_cons [[= ?]|H2]%elem_of_cons; subst; try done.
  - exfalso. apply Hk, elem_fst. by exists p2.
  - exfalso. apply Hk, elem_fst. by exists p1.
  - by eapply IH.
Qed.

(** ** The places of the requests *)

Definition at_place (pl : place) (l : list Z) : list (Z * place) := (fun q => (q, pl)) <$> l.
#[export] Instance at_place_perm pl : Proper ((≡ₚ) ==> (≡ₚ)) (at_place pl).
Proof. intros l l' H. unfold at_place. by rewrite H. Qed.
Definition miss_queue (u : partition) : list Z := match m_L2cache u with Some s => m_miss_queue s | None => [] end.
Definition held (u : partition) : list Z := match m_L2cache u with Some s => Mshr.waiting (c_mshrs s) | None => [] end.
Definition fills (u : partition) (q : Z) : Prop := match m_L2cache u with Some s => is_Some (m_extra_mf_fields s !! q) | None => False end.
Definition locs (u : partition) : list (Z * place) :=
  at_place Up ((m_rop u).*2 ++ items (m_icnt_L2_queue u)) ++
  at_place Down (miss_queue u ++ items (m_L2_dram_queue u) ++ (m_dram_latency_queue u).*2) ++
  at_place Fly (in_flight (u_channel u)) ++ at_place Back (items (m_dram_L2_queue u)) ++ at_place Out (items (m_L2_icnt_queue u)).
Abbreviation u_heap u := (fetches (u_channel u)).
Abbreviation tracker u := (m_request_tracker (u_channel u)).

(** What Ruby has sent and not taken back. *)
Definition ruby_inside (u : partition) : list Z :=
  m_input_queue (u_ruby u) ++ (map_to_list (ruby_msg u)).*2 ++ m_response_queue (u_ruby u).

(** What the steps inside a partition leave to those outside. *)
Record keeps (u u' : partition) : Prop := {
  ke_sub : tracker u' ⊆ tracker u;
  ke_track : forall q r, q ∈ tracker u -> objects (u_heap u) !! q = Some r ->
    (q ∈ tracker u' /\ exists r', objects (u_heap u') !! q = Some r' /\ get_access_type r' = get_access_type r) \/ write_back r = true /\ q ∉ tracker u';
  ke_ruby : ruby_inside u' ≡ₚ ruby_inside u;
  ke_msgs : messages (u_ruby u') = messages (u_ruby u) /\ next_message (u_ruby u') = next_message (u_ruby u) }.

Lemma keeps_refl u : keeps u u.
Proof. split; try done. intros q r Hq Hr. left. split; [done|]. by exists r. Qed.
Lemma keeps_trans u1 u2 u3 : keeps u1 u2 -> keeps u2 u3 -> keeps u1 u3.
Proof.
  intros [A1 A2 A3 [A4 A5]] [B1 B2 B3 [B4 B5]]. split; [set_solver| |by rewrite B3|split; congruence].
  intros q r Hq Hr. destruct (A2 q r Hq Hr) as [(Hq2 & r2 & Hr2 & E2)|[? ?]]; [|right; split; [done|set_solver]].
  destruct (B2 q r2 Hq2 Hr2) as [(Hq3 & r3 & Hr3 & E3)|[Hw ?]]; [|right; by rewrite <- (wb_type _ _ E2)].
  left. split; [done|]. exists r3. split; [done|congruence].
Qed.

Record config_fits (c : partition_config) (n_shader : Z) : Prop := {
  cg_dram : config_ok (pc_dram c);
  cg_L2 : L2_disabled c = false -> params_ok (pc_L2 c) /\ m_write_policy (p_config (pc_L2 c)) <> READ_ONLY /\ p_core (pc_L2 c) = u32 (-1) /\
    0 <= m_line_sz (p_config (pc_L2 c)) /\ m_line_sz (p_config (pc_L2 c)) + dram_atom_size (pc_dram c) < 2 ^ 32;
  cg_map : forall a, 0 <= a < 2 ^ 32 -> is_ok (partition_address (p_map (pc_L2 c)) a) /\ exists d, addrdec_tlx (p_map (pc_L2 c)) a = Ok d /\
    0 <= chip d < m_n_mem (pc_dram c) /\ 0 <= bk d < nbk (pc_dram c);
  cg_ruby : 128 + dram_atom_size (pc_dram c) < 2 ^ 32;
  cg_cores : 0 < n_shader < 2 ^ 32 - 1;
  cg_queues : exists n1 n2 n3 n4, sscanf queue_format (gpgpu_L2_queue_config c) = [SU n1; SU n2; SU n3; SU n4] /\
    0 < n1 < 2 ^ 32 /\ 0 < n2 < 2 ^ 32 /\ 0 < n3 < 2 ^ 32 /\ 0 < n4 < 2 ^ 32 }.

Section partition.
Context (c : partition_config) (n_shader : Z).
Abbreviation dc := (pc_dram c).
Abbreviation pl2 := (pc_L2 c).
Implicit Types (u : partition) (t : Z).

Definition L2_ok t u : Prop :=
  match m_L2cache u with
  | Some s => L2_disabled c = false /\ cache_ok pl2 (with_heap s (u_heap u)) t /\ memport s = [] /\ filling s
  | None => L2_disabled c = true
  end.
Definition queues_ok u : Prop :=
  queue_ok (m_icnt_L2_queue u) /\ queue_ok (m_L2_dram_queue u) /\ queue_ok (m_dram_L2_queue u) /\ queue_ok (m_L2_icnt_queue u).
Record ruby_ok u : Prop := {
  ry_once : NoDup (ruby_inside u);
  ry_live : forall p, p ∈ ruby_inside u -> is_Some (messages (u_ruby u) !! p);
  ry_next : forall p, p ∈ ruby_inside u -> p < next_message (u_ruby u) }.

Record partition_ok t u : Prop := {
  pa_dram : dram_ok dc (u_channel u);
  pa_L2 : L2_ok t u;
  pa_queues : queues_ok u;
  pa_flow : flow c n_shader (locs u) (held u) (fills u) (tracker u) (ruby_msg u) (u_heap u);
  pa_icnt : zlen (icnt2mem_lat_table (u_icnt u)) = 24;
  pa_ruby : ruby_ok u;
  pa_shader : m_n_shader (m_stats (u_channel u)) = n_shader }.

(** ** Changes of the heap *)

(** The channel does not mind changes of requests that keep their kind. *)
Lemma dram_ok_heap w h : dram_ok dc w -> heap_ok h ->
  (forall q r, q ∈ in_flight w -> objects (fetches w) !! q = Some r -> exists r', objects h !! q = Some r' /\ m_type r' = m_type r /\ get_is_write r' = get_is_write r) ->
  dram_ok dc (with_fetches w h).
Proof.
  intros [W1 W2 W3 W4 W5 W6 W7 W8 W9 [F1 F2 F3 F4] W11] Hh Ho. split; simpl; try done. split; [done|done| |].
  - intros q Hq. destruct (F3 q Hq) as (r & Hr & Hw). destruct (Ho q r) as (r' & Hr' & E1 & E2); [unfold in_flight; set_solver|done|].
    exists r'. split; [done|]. unfold waits_reply in *. by rewrite E1, E2.
  - intros q Hq. destruct (F4 q Hq) as (r & Hr & Hw). destruct (Ho q r) as (r' & Hr' & E1 & E2); [unfold in_flight; set_solver|done|].
    exists r'. split; [done|]. unfold is_reply in *. by rewrite E1.
Qed.
Lemma dram_ok_tracker w T : dram_ok dc w -> dram_ok dc (with_tracker w T).
Proof. intros []. by split. Qed.

Lemma flow_live L H X T M h q : flow c n_shader L H X T M h -> q ∈ L.*1 \/ q ∈ H -> live h q.
Proof.
  intros F [Hq|Hq].
  - apply elem_fst in Hq as [pl Hq]. destruct (fl_places _ _ _ _ _ _ _ _ F q pl Hq) as [(r & Hr & _) _]. by exists r.
  - destruct (fl_waits _ _ _ _ _ _ _ _ F q Hq) as (r & Hr & _). by exists r.
Qed.

(** The state of the cache stays in order when only the heap changes. *)
Lemma L2_ok_heap t u u' : L2_ok t u -> m_L2cache u' = m_L2cache u ->
  flow c n_shader (locs u') (held u') (fills u') (tracker u') (ruby_msg u') (u_heap u') -> L2_ok t u'.
Proof.
  unfold L2_ok. intros H E F. rewrite E. destruct (m_L2cache u) as [s|] eqn:Es; [|done]. destruct H as (Hd & [C1 C2 C3 [C4 C4'] C5 C6] & Hm).
  split; [done|]. split; [|done]. split; simpl in *; try done.
  - apply (fl_heap _ _ _ _ _ _ _ _ F).
  - split; [done|]. apply Forall_forall. intros q Hq. eapply flow_live; [exact F|]. left. apply elem_fst. exists Down.
    unfold locs, miss_queue. rewrite E. unfold at_place. rewrite !elem_of_app. right. left. apply list_elem_of_fmap. exists q. split; [done|]. set_solver.
  - intros q Hq. eapply flow_live; [exact F|]. right. assert (fills u' q) as Hf by (unfold fills; by rewrite E).
    by apply (fl_fills _ _ _ _ _ _ _ _ F) in Hf as [? _].
Qed.

Lemma L2_ok_later t t' u : L2_ok t u -> t <= t' -> L2_ok t' u.
Proof.
  unfold L2_ok. destruct (m_L2cache u); [|done]. intros (? & ? & ?) ?. split; [done|]. split; [|done]. by eapply cache_ok_later.
Qed.
Lemma partition_ok_later t t' u : partition_ok t u -> t <= t' -> partition_ok t' u.
Proof. intros [] ?. split; try done. by eapply L2_ok_later. Qed.

(** Reading a request that has a place. *)
Lemma placed_request t u q pl : partition_ok t u -> (q, pl) ∈ locs u ->
  exists r, deref (u_heap u) q = Ok r /\ objects (u_heap u) !! q = Some r /\ place_ok c n_shader pl r /\ (is_alloc r -> q ∈ held u) /\
    (of_ruby r -> pl = Fly /\ is_Some (ruby_msg u !! q)) /\ (q ∈ held u -> pl = Down \/ pl = Fly \/ pl = Back).
Proof.
  intros Hu Hq. destruct (fl_places _ _ _ _ _ _ _ _ (pa_flow _ _ Hu) q pl Hq) as [(r & A1 & A2 & A3 & A4 & _) B].
  exists r. unfold deref. rewrite A1. done.
Qed.

(** ** Steps that leave the cache alone *)

Lemma repack_ruby t u u' : partition_ok t u -> m_L2cache u' = m_L2cache u -> queues_ok u' -> dram_ok dc (u_channel u') ->
  m_n_shader (m_stats (u_channel u')) = m_n_shader (m_stats (u_channel u)) -> u_icnt u' = u_icnt u -> ruby_ok u' ->
  flow c n_shader (locs u') (held u) (fills u) (tracker u') (ruby_msg u') (u_heap u') -> partition_ok t u'.
Proof.
  intros [A1 A2 A3 A4 A5 A6 A7] E1 Hq Hd E2 E3 Hr F.
  assert (held u' = held u) as Eh by (unfold held; by rewrite E1).
  assert (fills u' = fills u) as Ef by (unfold fills; by rewrite E1).
  rewrite <- Eh, <- Ef in F. split; try done.
  - by eapply L2_ok_heap.
  - by rewrite E3.
  - congruence.
Qed.
Lemma ruby_ok_same u u' : ruby_ok u -> u_ruby u' = u_ruby u -> ruby_msg u' = ruby_msg u -> ruby_ok u'.
Proof.
  intros [] E4 E5. assert (ruby_inside u' = ruby_inside u) as Er by (unfold ruby_inside; by rewrite E4, E5). by split; rewrite Er, ?E4.
Qed.
Lemma repack t u u' : partition_ok t u -> m_L2cache u' = m_L2cache u -> queues_ok u' -> dram_ok dc (u_channel u') ->
  m_n_shader (m_stats (u_channel u')) = m_n_shader (m_stats (u_channel u)) -> u_icnt u' = u_icnt u -> u_ruby u' = u_ruby u -> ruby_msg u' = ruby_msg u ->
  flow c n_shader (locs u') (held u) (fills u) (tracker u') (ruby_msg u) (u_heap u') -> partition_ok t u'.
Proof.
  intros Hu E1 Hq Hd E2 E3 E4 E5 F. eapply repack_ruby; try done; [|by rewrite E5]. eapply ruby_ok_same; [apply Hu|done..].
Qed.

(** The places are the same, up to their order. *)
Lemma repack_perm t u u' : partition_ok t u -> m_L2cache u' = m_L2cache u -> queues_ok u' -> u_channel u' = u_channel u -> u_icnt u' = u_icnt u ->
  u_ruby u' = u_ruby u -> ruby_msg u' = ruby_msg u -> locs u ≡ₚ locs u' -> partition_ok t u' /\ keeps u u'.
Proof.
  intros Hu E1 Hq E2 E3 E4 E5 HL. split.
  - eapply repack; try done; rewrite ?E2; try done; [apply Hu|]. eapply flow_perm; [apply Hu|done..].
  - split; rewrite ?E2, ?E4; try done; [|by unfold ruby_inside; rewrite E4, E5]. intros q r Hr Ho. left. split; [done|]. by exists r.
Qed.

Lemma update_live h q f : live h q -> exists h', update h q f = Ok h'.
Proof. intros [r Hr]. unfold update, deref. rewrite Hr. by eexists. Qed.

Lemma keeps_touched u h : touched (u_heap u) h -> keeps u (with_channel u (with_fetches (u_channel u) h)).
Proof.
  intros Ht. split; try done. intros q r Hq Hr. left. split; [done|]. destruct (touched_lookup _ _ _ _ Ht Hr) as (r' & ? & Hs). exists r'.
  split; [done|by apply same_type].
Qed.

Lemma touched_dram_ok w h : dram_ok dc w -> touched (fetches w) h -> heap_ok h -> dram_ok dc (with_fetches w h).
Proof.
  intros Hw Ht Hh. apply dram_ok_heap; [done|done|]. intros q r _ Hr. destruct (touched_lookup _ _ _ _ Ht Hr) as (r' & ? & (st & cy & ->)).
  by eexists.
Qed.

(** [set_status] on a request inside. *)
Lemma partition_touch_ok t u st cy q : partition_ok t u -> q ∈ (locs u).*1 \/ q ∈ held u ->
  exists h, touch u st cy q = Ok (with_channel u (with_fetches (u_channel u) h)) /\ touched (u_heap u) h /\
    partition_ok t (with_channel u (with_fetches (u_channel u) h)) /\ keeps u (with_channel u (with_fetches (u_channel u) h)).
Proof.
  intros Hu Hq. pose proof (flow_live _ _ _ _ _ _ q (pa_flow _ _ Hu) Hq) as Hl. pose proof (fl_heap _ _ _ _ _ _ _ _ (pa_flow _ _ Hu)) as Hh.
  destruct (update_live (u_heap u) q (fun r => set_mf_status r st cy) Hl) as [h E].
  assert (touched (u_heap u) h) as Ht by (eapply touched_update; [exact E|]; intros x; by eexists _, _).
  assert (heap_ok h) as Hh' by (by eapply update_heap_ok).
  exists h. unfold touch. rewrite E. simpl. split; [done|]. split; [done|]. split; [|by apply keeps_touched].
  eapply repack; try done; simpl; [apply Hu|by apply touched_dram_ok; [apply Hu|..]|].
  eapply flow_touched; [|exact Ht|done]. apply Hu.
Qed.

(** What a step of a cycle has to do. *)
Definition step_ok t u (o : outcome partition) : Prop := exists u', o = Ok u' /\ partition_ok t u' /\ keeps u u'.

Lemma step_ok_done t u : partition_ok t u -> step_ok t u (mret u).
Proof. intros Hu. exists u. split; [done|]. split; [done|apply keeps_refl]. Qed.
Lemma step_ok_bind t u o f : step_ok t u o -> (forall u', partition_ok t u' -> step_ok t u' (f u')) -> step_ok t u (o ≫= f).
Proof.
  intros (u1 & -> & H1 & K1) Hf. destruct (Hf u1 H1) as (u2 & E & H2 & K2). exists u2. split; [done|]. split; [done|by eapply keeps_trans].
Qed.

Lemma in_locs (l1 l2 : list (Z * place)) q pl : (q, pl) ∈ l1 -> (q, pl) ∈ l1 ++ l2.
Proof. set_solver. Qed.
Lemma at_place_in q pl l : q ∈ l -> (q, pl) ∈ at_place pl l.
Proof. intros Hq. apply list_elem_of_fmap. by exists q. Qed.
Lemma locs_up u q : q ∈ (m_rop u).*2 ++ items (m_icnt_L2_queue u) -> (q, Up) ∈ locs u.
Proof. intros Hq. unfold locs. pose proof (at_place_in q Up _ Hq). set_solver. Qed.
Lemma locs_down u q : q ∈ miss_queue u ++ items (m_L2_dram_queue u) ++ (m_dram_latency_queue u).*2 -> (q, Down) ∈ locs u.
Proof. intros Hq. unfold locs. pose proof (at_place_in q Down _ Hq). set_solver. Qed.
Lemma locs_back u q : q ∈ items (m_dram_L2_queue u) -> (q, Back) ∈ locs u.
Proof. intros Hq. unfold locs. pose proof (at_place_in q Back _ Hq). set_solver. Qed.
Lemma locs_out u q : q ∈ items (m_L2_icnt_queue u) -> (q, Out) ∈ locs u.
Proof. intros Hq. unfold locs. pose proof (at_place_in q Out _ Hq). set_solver. Qed.
Lemma locs_fly u q : q ∈ in_flight (u_channel u) -> (q, Fly) ∈ locs u.
Proof. intros Hq. unfold locs. pose proof (at_place_in q Fly _ Hq). set_solver. Qed.
Lemma locs_fst u q pl : (q, pl) ∈ locs u -> q ∈ (locs u).*1.
Proof. intros Hq. apply elem_fst. by exists pl. Qed.

Ltac places := unfold locs, at_place, miss_queue; simpl; rewrite ?fmap_app; simpl; rewrite ?fmap_app; simpl; try solve_Permutation.

Lemma from_rop_ok t u clk cycle : partition_ok t u -> step_ok t u (from_rop clk cycle u).
Proof.
  intros Hu. unfold from_rop. destruct (m_rop u) as [|[ready mf] rest] eqn:Er; [by apply step_ok_done|].
  destruct (_ && _) eqn:Eg; [|by apply step_ok_done]. apply andb_true_iff in Eg as [_ Ef%negb_true_iff].
  destruct (pa_queues _ _ Hu) as (Q1 & Q2 & Q3 & Q4). destruct (queue_push _ mf Q1 Ef) as (q & -> & Hq & Ei). simpl.
  set (u1 := with_icnt_L2 _ q). destruct (repack_perm t u u1) as [H1 K1]; try done.
  - places. rewrite Er, Ei. places.
  - destruct (partition_touch_ok t u1 IN_PARTITION_ICNT_TO_L2_QUEUE (now clk) mf H1) as (h & -> & _ & H2 & K2).
    + left. apply (locs_fst _ _ Up), locs_up. simpl. rewrite Ei. set_solver.
    + eexists. split; [done|]. split; [done|by eapply keeps_trans].
Qed.

Lemma dram_full_ok t u : partition_ok t u -> exists f, dram_full dc (dram (u_channel u)) = Ok f.
Proof.
  intros Hu. pose proof (co_sched _ _ _ (pa_dram _ _ Hu)) as Hs. unfold dram_full, sched_pending, sched_part in *.
  destruct (_ =? _); [by eexists|]. destruct (m_frfcfs_scheduler _) as [s|]; [destruct Hs as (-> & _)|rewrite Hs]; by eexists.
Qed.

Lemma L2_to_latency_ok t u clk : partition_ok t u -> step_ok t u (L2_to_latency c clk u).
Proof.
  intros Hu. unfold L2_to_latency. destruct (dram_full_ok t u Hu) as [f ->]. simpl.
  destruct (negb f && _) eqn:Eg; [|by apply step_ok_done]. apply andb_true_iff in Eg as [_ Ee%negb_true_iff].
  destruct (pa_queues _ _ Hu) as (Q1 & Q2 & Q3 & Q4). destruct (queue_top _ Q2 Ee) as (mf & q & Ei & _ & -> & Hq). simpl.
  set (u1 := with_delayed _ _). destruct (repack_perm t u u1) as [H1 K1]; try done.
  - places. rewrite Ei. places.
  - destruct (partition_touch_ok t u1 IN_PARTITION_DRAM_LATENCY_QUEUE (now clk) mf H1) as (h & -> & _ & H2 & K2).
    + left. apply (locs_fst _ _ Down), locs_down. simpl. rewrite fmap_app. simpl. set_solver.
    + eexists. split; [done|]. split; [done|by eapply keeps_trans].
Qed.

(** ** Steps of the DRAM *)

Section dram_steps.
Context (Hc : config_fits c n_shader).

(** A request on its way to the DRAM may be pushed. *)
Lemma down_request t u q r : partition_ok t u -> (q, Down) ∈ locs u -> objects (u_heap u) !! q = Some r -> place_ok c n_shader Down r ->
  DramServe.request_ok dc (u_channel u) q r.
Proof using.
  intros Hu Hq Hr [[R1 R2 R3 R4 R5] R6]. split; try done; [|by rewrite (pa_shader _ _ Hu)].
  intros Hf%locs_fly. pose proof (fl_once _ _ _ _ _ _ _ _ (pa_flow _ _ Hu)) as Hn.
  by specialize (NoDup_fmap_fst _ Hn q Down Fly Hq Hf).
Qed.

Lemma quiet_keeps u u' : quiet (u_channel u) (u_channel u') -> u_ruby u' = u_ruby u -> ruby_msg u' = ruby_msg u -> keeps u u'.
Proof using.
  intros [Ht E] E1 E2. split; unfold ruby_inside; rewrite ?E, ?E1, ?E2; try done. intros q r Hq Hr. left. split; [done|].
  destruct (touched_lookup _ _ _ _ Ht Hr) as (r' & ? & Hs). exists r'. split; [done|by apply same_type].
Qed.

Lemma dram_heap_ok w : dram_ok dc w -> heap_ok (fetches w).
Proof using. intros Hw. apply (fo_heap _ _ _ (co_fetches _ _ _ Hw)). Qed.

Lemma latency_to_dram_ok t u clk : partition_ok t u -> step_ok t u (latency_to_dram c clk u).
Proof using Hc.
  intros Hu. unfold latency_to_dram. destruct (m_dram_latency_queue u) as [|[ready mf] rest] eqn:Ed; [by apply step_ok_done|].
  destruct (_ <=? _); [|by apply step_ok_done]. destruct (dram_full_ok t u Hu) as [[] Ef]; rewrite Ef; simpl; [by apply step_ok_done|].
  assert ((mf, Down) ∈ locs u) as Hin by (apply locs_down; rewrite Ed; set_solver).
  destruct (placed_request t u mf Down Hu Hin) as (r & _ & Hr & Hp & _ & Hru & _).
  destruct (dram_push_ok dc (cg_dram _ _ Hc) clk (u_channel u) mf r (pa_dram _ _ Hu) Ef) as (w & E & Hw & Hfl & Hn); [by apply (down_request t)|].
  rewrite E. simpl. pose proof (dram_push_quiet _ _ _ _ _ E) as Hqt. eexists. split; [done|]. split; [|by apply quiet_keeps].
  eapply repack; try done; simpl; [apply Hu|]. destruct Hqt as [Ht Et]. rewrite Et. eapply flow_touched; [|exact Ht|by apply dram_heap_ok].
  eapply (flow_perm _ _ ((mf, Fly) :: at_place Up ((m_rop u).*2 ++ items (m_icnt_L2_queue u)) ++
    at_place Down (miss_queue u ++ items (m_L2_dram_queue u) ++ rest.*2) ++ at_place Fly (in_flight (u_channel u)) ++
    at_place Back (items (m_dram_L2_queue u)) ++ at_place Out (items (m_L2_icnt_queue u)))); [|places; rewrite Hfl; places|done..].
  eapply flow_move; [|by apply dram_heap_ok, Hu|exact Hr|exact Hr|done|done| | |].
  - eapply flow_perm; [apply Hu| |done..]. places. rewrite Ed. places.
  - intros Hrep. destruct Hp as [_ Hw']. by destruct r as [? ? ? ? ? ? ? ? ? ? [] ?], Hrep.
  - intros Hh. split; [|auto]. destruct (fl_waits _ _ _ _ _ _ _ _ (pa_flow _ _ Hu) mf Hh) as (x & Hx & Hx' & _). by assert (x = r) as -> by congruence.
  - intros Hx. destruct (Hru Hx) as [? _]. done.
Qed.

(** What is in the channel is a request or a reply. *)
Lemma in_flight_kind w q r : dram_ok dc w -> q ∈ in_flight w -> objects (fetches w) !! q = Some r -> waits_reply r \/ is_reply r.
Proof using.
  intros Hw [Hq|Hq]%elem_of_app Hr.
  - destruct (fo_pending _ _ _ (co_fetches _ _ _ Hw) q Hq) as (x & Hx & ?). left. by assert (x = r) as <- by congruence.
  - destruct (fo_replied _ _ _ (co_fetches _ _ _ Hw) q Hq) as (x & Hx & ?). right. by assert (x = r) as <- by congruence.
Qed.

Lemma evolved_suits L H q r r' : evolved r r' -> (forall pl, (q, pl) ∈ L -> pl = Fly) -> (q ∈ H -> waits_reply r' \/ is_reply r') ->
  suits c n_shader L H q r r'.
Proof using.
  intros (st & cy & ty & -> & Hty) HL HH. split; [done|]. split.
  - intros pl ->%HL Hp Hrep. destruct Hty as [->|Hwb]; [|exact Hwb]. apply Hp. exact Hrep.
  - intros Hq (A1 & A2 & A3 & _). split_and!; try done. by apply HH.
Qed.

(** The rest of the places, when those in the channel are taken out. *)
Definition outside u : list (Z * place) :=
  at_place Up ((m_rop u).*2 ++ items (m_icnt_L2_queue u)) ++
  at_place Down (miss_queue u ++ items (m_L2_dram_queue u) ++ (m_dram_latency_queue u).*2) ++
  at_place Back (items (m_dram_L2_queue u)) ++ at_place Out (items (m_L2_icnt_queue u)).
Lemma locs_outside u : locs u ≡ₚ at_place Fly (in_flight (u_channel u)) ++ outside u.
Proof using. unfold locs, outside. solve_Permutation. Qed.

Lemma transferred_flow t u w done : partition_ok t u -> transferred (u_channel u) w done -> dram_ok dc w ->
  in_flight (u_channel u) ≡ₚ option_list done ++ in_flight w ->
  flow c n_shader (at_place Fly (in_flight w) ++ outside u) (held u) (fills u) (m_request_tracker w) (ruby_msg u) (fetches w).
Proof using Hc.
  intros Hu [T1 T2 T3 T4 T5] Hw Hfl. pose proof (pa_flow _ _ Hu) as F. pose proof (fl_once _ _ _ _ _ _ _ _ F) as Hn.
  assert (exists h1, (forall q, objects h1 !! q = if decide (done = Some q) then None else objects (u_heap u) !! q) /\
    flow c n_shader (at_place Fly (in_flight w) ++ outside u) (held u) (fills u) (m_request_tracker w) (ruby_msg u) h1) as (h1 & Hh1 & F1).
  { rewrite T5. destruct done as [q|].
    - destruct (T4 q eq_refl) as (Hq & _ & r & Hr & Hwb). exists (mkHeap (delete q (objects (u_heap u))) (next_object (u_heap u))). simpl. split.
      { intros k. rewrite lookup_delete. destruct (decide (q = k)), (decide (Some q = Some k)); congruence. }
      eapply (flow_leave _ _ _ _ _ (tracker u) _ (ruby_msg u) _ _ _ q Fly).
      + eapply flow_perm; [exact F| |done..]. rewrite locs_outside, Hfl. places.
      + intros k x. simpl. rewrite lookup_delete_Some. intros [_ Hx]. by apply (fl_heap _ _ _ _ _ _ _ _ F k x).
      + intros HH. destruct (fl_waits _ _ _ _ _ _ _ _ F q HH) as (x & Hx & (_ & Hx' & _) & _). congruence.
      + intros k Hk. simpl. by rewrite lookup_delete_ne.
      + set_solver.
      + intros k. case_decide as Hk; [subst k|done]. apply eq_None_not_Some. intros (_ & x & Hx & Hru)%(fl_msg _ _ _ _ _ _ _ _ F).
        assert (x = r) as -> by congruence. unfold write_back in Hwb. by destruct Hru as [E|E]; rewrite E in Hwb.
    - exists (u_heap u). split; [done|]. simpl. rewrite difference_empty_L. eapply flow_perm; [exact F| |done..]. by rewrite locs_outside, Hfl. }
  eapply flow_objects; [exact F1|by apply dram_heap_ok|]. intros q r Hq. rewrite Hh1. case_decide as Hd; [done|]. intros Hr.
  destruct (decide (q ∈ owners (ch_reqs (u_channel u)))) as [Ho|Ho].
  - destruct (T3 q r Ho Hr Hd) as (r' & Hr' & He). exists r'. split; [done|].
    assert (q ∈ in_flight (u_channel u)) as Hin by (unfold in_flight; set_solver). apply evolved_suits; [done| |].
    + intros pl Hpl. apply (NoDup_fmap_fst (locs u) Hn q); [|by apply locs_fly]. rewrite locs_outside, Hfl. unfold at_place at 1.
      rewrite fmap_app, <- app_assoc. apply elem_of_app. by right.
    + intros _. apply (in_flight_kind w q); [done| |done]. rewrite Hfl in Hin. destruct done; set_solver.
  - specialize (T2 q Ho). rewrite Hr in T2. inversion T2 as [a b Hs E1 E2|]; subst. exists b. split; [done|].
    split; [by apply same_type|]. split; [intros pl _; by apply place_ok_same|intros _; by apply held_ok_same].
Qed.

Lemma transferred_keeps t u w done : partition_ok t u -> transferred (u_channel u) w done -> keeps u (with_channel u w).
Proof using Hc.
  intros Hu [T1 T2 T3 T4 T5]. split; try done; simpl; [rewrite T5; set_solver|]. intros q r Hq Hr.
  destruct (decide (done = Some q)) as [->|Hd].
  - right. destruct (T4 q eq_refl) as (_ & _ & x & Hx & Hwb). assert (x = r) as <- by congruence. split; [done|]. rewrite T5. set_solver.
  - left. rewrite T5. split; [destruct done; set_solver|]. destruct (decide (q ∈ owners (ch_reqs (u_channel u)))) as [Ho|Ho].
    + destruct (T3 q r Ho Hr Hd) as (r' & Hr' & (st & cy & ty & -> & _)). by eexists.
    + specialize (T2 q Ho). rewrite Hr in T2. inversion T2 as [a b Hs E1 E2|]; subst. exists b. split; [done|by apply same_type].
Qed.

Lemma dram_turn_ok t u clk : partition_ok t u -> exists w rep, Dram.dram_cycle dc clk (u_channel u) = Ok (w, rep) /\
  partition_ok t (with_channel u w) /\ keeps u (with_channel u w).
Proof using Hc.
  intros Hu. destruct (dram_cycle_ok dc (cg_dram _ _ Hc) clk (u_channel u) (pa_dram _ _ Hu)) as (w & rep & E & Hw & Hfl & Hn).
  pose proof (dram_cycle_transferred _ _ _ _ _ E) as Ht. exists w, rep. split; [done|]. split; [|by eapply transferred_keeps].
  eapply repack; try done; simpl; [apply Hu|]. eapply flow_perm; [by eapply transferred_flow| |done..]. by rewrite (locs_outside (with_channel u w)).
Qed.

(** Deleting a request that is no longer anywhere. *)
Definition without (h : heap) (q : Z) : heap := mkHeap (delete q (objects h)) (next_object h).
Lemma without_ok h q : heap_ok h -> heap_ok (without h q).
Proof using. intros Hh k x. simpl. rewrite lookup_delete_Some. intros [_ ?]. by apply (Hh k x). Qed.
Lemma without_other h q k : k <> q -> objects (without h q) !! k = objects h !! k.
Proof using. intros Hk. simpl. by rewrite lookup_delete_ne. Qed.
Lemma dram_ok_without w q : dram_ok dc w -> q ∉ in_flight w -> dram_ok dc (with_fetches w (without (fetches w) q)).
Proof using.
  intros Hw Hq. apply dram_ok_heap; [done|by apply without_ok, dram_heap_ok|]. intros k r Hk Hr. exists r.
  rewrite without_other by (by intros ->). done.
Qed.

(** Ruby takes a request back. *)
Lemma ruby_inside_back u u' q p : ruby_msg u !! q = Some p -> u_ruby u' = pushResponseRequest (u_ruby u) p -> ruby_msg u' = delete q (ruby_msg u) ->
  ruby_inside u' ≡ₚ ruby_inside u.
Proof using.
  intros E E1 E2. unfold ruby_inside. rewrite E1, E2, <- (map_to_list_delete (ruby_msg u) q p E). simpl. solve_Permutation.
Qed.
Lemma ruby_ok_perm u u' : ruby_ok u -> ruby_inside u' ≡ₚ ruby_inside u -> messages (u_ruby u') = messages (u_ruby u) ->
  next_message (u_ruby u') = next_message (u_ruby u) -> ruby_ok u'.
Proof using.
  intros [R1 R2 R3] P E1 E2. split; [by rewrite P|intros p; rewrite P, E1; apply R2|intros p; rewrite P, E2; apply R3].
Qed.

Lemma dram_to_L2_ok t u clk : partition_ok t u -> step_ok t u (dram_to_L2 clk u).
Proof using Hc.
  intros Hu. unfold dram_to_L2. destruct (full (m_dram_L2_queue u)) eqn:Ef; [by apply step_ok_done|].
  destruct (dram_pop_ok dc (cg_dram _ _ Hc) (u_channel u) (pa_dram _ _ Hu)) as (o & w & E & Hw & Hfl & Hst & Hrep).
  destruct (dram_pop_fetches _ _ _ E) as [Eh Et]. rewrite E. simpl.
  assert (Hq0 : quiet (u_channel u) w) by (by apply quiet_same).
  destruct o as [mf|].
  2: { eexists. split; [done|]. split; [|by apply quiet_keeps]. eapply repack; try done; simpl; [apply Hu|by rewrite Hst|]. rewrite Eh, Et.
       eapply flow_perm; [apply Hu| |done..]. rewrite locs_outside, (locs_outside (with_channel u w)). simpl. by rewrite Hfl. }
  assert ((mf, Fly) ∈ locs u) as Hin by (apply locs_fly; rewrite Hfl; set_solver).
  destruct (placed_request t u mf Fly Hu Hin) as (r & Ed & Hr & Hp & Hal & Hru & _). rewrite Eh, Ed. simpl.
  destruct (Hrep mf eq_refl) as (x & Hx & Hx'). rewrite Eh in Hx. assert (x = r) as -> by congruence. pose proof (Hp Hx') as Hwb.
  assert (mf ∉ in_flight w) as Hno.
  { pose proof (fo_once _ _ _ (co_fetches _ _ _ (pa_dram _ _ Hu))) as Hn. change (NoDup (in_flight (u_channel u))) in Hn.
    rewrite Hfl in Hn. simpl in Hn. by apply NoDup_cons in Hn as [? _]. }
  assert (flow c n_shader ((mf, Fly) :: at_place Fly (in_flight w) ++ outside u) (held u) (fills u) (tracker u) (ruby_msg u) (u_heap u)) as F0.
  { eapply flow_perm; [apply Hu| |done..]. rewrite locs_outside, Hfl. done. }
  rewrite bool_decide_eq_false_2. 2: { intros E1. unfold write_back in Hwb. by rewrite E1 in Hwb. }
  destruct (bool_decide (get_access_type r = RUBY_DRAM_R) || bool_decide (get_access_type r = RUBY_DRAM_W)) eqn:Er.
  - assert (of_ruby r) as Hof by (by apply orb_true_iff in Er as [Er|Er]; apply bool_decide_eq_true in Er; [left|right]).
    destruct (Hru Hof) as [_ [p Hmsg]]. unfold FromGpusimDram_push. simpl. rewrite Hmsg. unfold delete_fetch. simpl. rewrite Eh, Ed. simpl.
    assert (mf ∉ tracker u) as HT.
    { intros HT. destruct (fl_track _ _ _ _ _ _ _ _ (pa_flow _ _ Hu) mf HT) as (_ & y & Hy & _ & _ & Hn). apply Hn. by assert (y = r) as -> by congruence. }
    assert (mf ∉ held u) as HH.
    { intros HH. destruct (fl_waits _ _ _ _ _ _ _ _ (pa_flow _ _ Hu) mf HH) as (y & Hy & (_ & _ & Hn & _) & _). apply Hn. by assert (y = r) as -> by congruence. }
    fold (without (u_heap u) mf). eexists. split; [done|]. split.
    + eapply repack_ruby; try done; simpl.
      * apply Hu.
      * rewrite <- Eh. by apply dram_ok_without.
      * by rewrite Hst.
      * eapply ruby_ok_perm; [apply Hu|by eapply ruby_inside_back|done..].
      * rewrite Et. eapply flow_perm; [eapply flow_leave; [exact F0|..]| |done..].
        -- apply without_ok, (fl_heap _ _ _ _ _ _ _ _ F0).
        -- done.
        -- apply without_other.
        -- intros k. split; [intros Hk; split; [exact Hk|by intros ->]|tauto].
        -- intros k. rewrite lookup_delete. destruct (decide (mf = k)), (decide (k = mf)); congruence.
        -- by rewrite (locs_outside (with_channel _ _)).
    + split; simpl; rewrite ?Et; try done; [|by eapply ruby_inside_back]. intros k y Hk Hy. left. split; [done|]. exists y.
      split; [|done]. simpl. rewrite lookup_delete_ne; [done|by intros ->].
  - destruct (pa_queues _ _ Hu) as (Q1 & Q2 & Q3 & Q4). destruct (queue_push _ mf Q3 Ef) as (q & -> & Hq & Ei). simpl.
    set (u1 := with_dram_L2 (with_channel u w) q). assert (partition_ok t u1) as H1.
    { eapply repack; try done; simpl; [by rewrite Hst|]. rewrite Eh, Et.
      eapply flow_perm; [eapply (flow_move _ _ _ _ _ _ _ _ _ mf Fly Back); [exact F0|..]| |done..].
      - apply (fl_heap _ _ _ _ _ _ _ _ F0).
      - exact Hr.
      - exact Hr.
      - done.
      - done.
      - by split.
      - intros Hh. split; [|auto]. destruct (fl_waits _ _ _ _ _ _ _ _ (pa_flow _ _ Hu) mf Hh) as (y & Hy & ? & _). by assert (y = r) as <- by congruence.
      - intros [E1|E1]; rewrite E1 in Er; done.
      - rewrite (locs_outside u1). unfold outside. places. rewrite Ei. places. }
    destruct (partition_touch_ok t u1 IN_PARTITION_DRAM_TO_L2_QUEUE (now clk) mf H1) as (h & -> & _ & H2 & K2).
    + left. apply (locs_fst _ _ Back), locs_back. simpl. rewrite Ei. set_solver.
    + eexists. split; [done|]. split; [done|]. eapply keeps_trans; [|exact K2]. by apply quiet_keeps.
Qed.

(** A request is made. *)
Lemma flow_new L H X T M h r : flow c n_shader L H X T M h -> flow c n_shader L H X T M (new_object h r).2.
Proof using.
  intros F. pose proof (fl_heap _ _ _ _ _ _ _ _ F) as Hh. eapply flow_objects; [exact F|by apply heap_ok_new|].
  intros q x _ Hx. exists x. simpl. rewrite lookup_insert_ne by (specialize (Hh q x Hx); lia). split; [done|]. by split_and!.
Qed.
Lemma new_not_inside L H X T M h : flow c n_shader L H X T M h -> (next_object h ∉ L.*1) /\ (next_object h ∉ H) /\ (next_object h ∉ T) /\ M !! next_object h = None.
Proof using.
  intros F. pose proof (fl_heap _ _ _ _ _ _ _ _ F) as Hh.
  assert (objects h !! next_object h = None) as Hn.
  { apply eq_None_not_Some. intros [x Hx]. specialize (Hh _ _ Hx). lia. }
  split_and!.
  - intros Hq. destruct (flow_live _ _ _ _ _ _ _ F (or_introl Hq)) as [? E]. congruence.
  - intros Hq. destruct (flow_live _ _ _ _ _ _ _ F (or_intror Hq)) as [? E]. congruence.
  - intros Hq. destruct (fl_track _ _ _ _ _ _ _ _ F _ Hq) as (_ & x & E & _). congruence.
  - apply eq_None_not_Some. intros (_ & x & E & _)%(fl_msg _ _ _ _ _ _ _ _ F). congruence.
Qed.
Lemma dram_ok_new w r : dram_ok dc w -> dram_ok dc (with_fetches w (new_object (fetches w) r).2).
Proof using.
  intros Hw. pose proof (dram_heap_ok w Hw) as Hh. apply dram_ok_heap; [done|by apply heap_ok_new|]. intros k x _ Hx. exists x. simpl.
  rewrite lookup_insert_ne by (specialize (Hh k x Hx); lia). done.
Qed.

(** The request made for a message. *)
Lemma ruby_request clk m : exists r, mem_fetch_new (p_map pl2) (now clk) (mem_access_new (if negb (msg_read m) then RUBY_DRAM_W else RUBY_DRAM_R)
    (msg_addr m) 128 (negb (msg_read m)) 0 0) None 8 (u32 (-1)) 0 (u32 (-1)) = Ok r /\ of_ruby r /\ waits_reply r /\ routed c n_shader r.
Proof using Hc.
  set (a := mem_access_new _ _ _ _ _ _). destruct (cg_map _ _ Hc (a_addr a) (uwrap_range 32 _ ltac:(lia))) as ([k Hk] & d & Hd & Hchip & Hbk).
  unfold mem_fetch_new. subst a. simpl in *. rewrite Hd. simpl. rewrite Hk. simpl. eexists. split; [done|]. split_and!.
  - unfold of_ruby, get_access_type. simpl. destruct (msg_read m); [by left|by right].
  - unfold waits_reply, get_is_write. simpl. by destruct (msg_read m).
  - split; simpl; try done; [|right; pose proof (cg_cores _ _ Hc); lia|pose proof (cg_ruby _ _ Hc); lia].
    unfold get_access_type. simpl. by destruct (msg_read m).
Qed.

Lemma ruby_to_dram_ok t u clk : partition_ok t u -> step_ok t u (ruby_to_dram c clk u).
Proof using Hc.
  intros Hu. unfold ruby_to_dram. destruct (dram_full_ok t u Hu) as [[] Ef]; rewrite Ef; simpl; [by apply step_ok_done|].
  unfold ToGpusimDram_empty, inputQueueEmpty. destruct (usingGpusimDram c); [|by apply step_ok_done].
  case_bool_decide as Ee; simpl; [by apply step_ok_done|].
  unfold ToGpusimDram_take, peekInputRequest, popInputRequest. destruct (m_input_queue (u_ruby u)) as [|p rest] eqn:Eq; [done|]. simpl.
  destruct (ry_live _ (pa_ruby _ _ Hu) p) as [m Hm]; [unfold ruby_inside; rewrite Eq; set_solver|]. rewrite Hm. simpl.
  destruct (ruby_request clk m) as (r & -> & Hof & Hwr & Hrt). simpl.
  set (mf := next_object (u_heap u)). set (h1 := mkHeap _ _). destruct (new_not_inside _ _ _ _ _ _ (pa_flow _ _ Hu)) as (N1 & N2 & N3 & N4).
  fold mf in N1, N2, N3, N4. set (u1 := with_ruby _ _ _).
  assert (objects h1 !! mf = Some r) as Hr by (simpl; apply lookup_insert_eq).
  assert (dram_ok dc (u_channel u1)) as Hd1 by (by apply (dram_ok_new _ r), Hu).
  assert (ruby_inside u1 ≡ₚ ruby_inside u) as Hri.
  { unfold ruby_inside. simpl. rewrite map_to_list_insert by done. rewrite Eq. simpl. solve_Permutation. }
  destruct (dram_push_ok dc (cg_dram _ _ Hc) clk (u_channel u1) mf r Hd1 Ef) as (w & E & Hw & Hfl & Hn).
  { destruct Hrt. split; try done; simpl; [|by rewrite (pa_shader _ _ Hu)]. intros Hq. apply N1, (locs_fst _ _ Fly). by apply locs_fly. }
  simpl in E. rewrite E. simpl. destruct (dram_push_quiet _ _ _ _ _ E) as [Ht Et]. simpl in Ht, Et, Hfl, Hn.
  assert (flow c n_shader ((mf, Fly) :: locs u) (held u) (fills u) (tracker u) (<[mf := p]> (ruby_msg u)) h1) as F1.
  { eapply (flow_enter _ _ _ _ _ (tracker u)); [apply (flow_new _ _ _ _ _ _ r), Hu|done..| | | | | | | |].
    - intros Hrep. by destruct r as [? ? ? ? ? ? ? ? ? ? [] ?], Hrep.
    - unfold is_alloc. by destruct Hof as [-> | ->].
    - intros _. split; [done|]. rewrite lookup_insert_eq. by eexists.
    - by right; right.
    - intros k Hk. by left.
    - done.
    - intros k Hk. by rewrite lookup_insert_ne.
    - done. }
  eexists. split; [done|]. split.
  - eapply repack_ruby; try done; simpl; [apply Hu|eapply ruby_ok_perm; [apply Hu|exact Hri|done..]|]. rewrite Et.
    eapply flow_touched; [|exact Ht|by apply dram_heap_ok]. eapply flow_perm; [exact F1| |done..].
    rewrite (locs_outside (with_channel u1 w)), locs_outside. simpl. by rewrite Hfl.
  - split; simpl; rewrite ?Et; try done. intros k x Hk Hx. left. split; [done|].
    destruct (touched_lookup _ _ k x Ht) as (x' & Hx' & Hs); [|exists x'; split; [done|by apply same_type]].
    simpl. rewrite lookup_insert_ne; [done|]. intros <-. done.
Qed.

Lemma partition_dram_cycle_ok t u clk : partition_ok t u -> step_ok t u (partition_dram_cycle c clk u).
Proof using Hc.
  intros Hu. unfold partition_dram_cycle. apply step_ok_bind; [by apply dram_to_L2_ok|]. intros u1 H1.
  destruct (dram_turn_ok t u1 clk H1) as (w & rep & -> & H2 & K2). simpl.
  destruct (step_ok_bind t (with_channel u1 w) (ruby_to_dram c clk (with_channel u1 w)) (fun u => u ← L2_to_latency c clk u; latency_to_dram c clk u))
    as (u3 & -> & H3 & K3).
  - by apply ruby_to_dram_ok.
  - intros u2 Hu2. apply step_ok_bind; [by apply L2_to_latency_ok|]. intros u3 Hu3. by apply latency_to_dram_ok.
  - exists u3. split; [done|]. split; [done|by eapply keeps_trans].
Qed.
End dram_steps.
End partition.
