(* ===== verification/PartitionCache.v ===== *)
(** * The L2 cache of a memory partition

    The steps of a partition that use its cache keep the invariant of [PartitionInv]:
    accesses, fills, answers, and the requests the cache sends to the DRAM. *)

From S2P Require Import Prelude Coalesce GpuMisc AddrDec TagArray Mshr MemFetch GpuCache GpuCacheInv DelayQueue MemStats FrFcfs Dram DramServe.
From S2P Require Import FetchFrames CacheTraffic Partition PartitionFlow PartitionInv.

Section cache_steps.
Context (c : partition_config) (n_shader : Z) (Hc : config_fits c n_shader).
Abbreviation dc := (pc_dram c).
Abbreviation pl2 := (pc_L2 c).
Implicit Types (u : partition) (t : Z) (s : cache).
Abbreviation ok := (partition_ok c n_shader).
Abbreviation stepped := (step_ok c n_shader).

(** ** Replies *)

Lemma set_reply_ok r : write_back r = false -> waits_reply r \/ is_reply r ->
  exists r', set_reply r = Ok r' /\ is_reply r' /\ get_access_type r' = get_access_type r /\ get_is_write r' = get_is_write r.
Proof using.
  intros Hwb Hk. unfold set_reply. apply orb_false_iff in Hwb as [E1 E2]. rewrite E1, E2. simpl.
  destruct (m_type r) eqn:Et; destruct Hk as [Hk|Hk]; unfold waits_reply, is_reply in Hk; rewrite Et in Hk; try done;
    rewrite ?Hk; simpl; try (eexists; split; [done|]; split; [|done]); unfold is_reply; simpl; auto; try (by destruct Hk).
Qed.

Lemma reply_ok u q r : heap_ok (u_heap u) -> objects (u_heap u) !! q = Some r -> write_back r = false -> waits_reply r \/ is_reply r ->
  exists h r', reply u q = Ok (with_channel u (with_fetches (u_channel u) h)) /\ heap_ok h /\ objects h !! q = Some r' /\ is_reply r' /\
    get_access_type r' = get_access_type r /\ get_is_write r' = get_is_write r /\ (forall k, k <> q -> objects h !! k = objects (u_heap u) !! k).
Proof using.
  intros Hh Hr Hwb Hk. destruct (set_reply_ok r Hwb Hk) as (r' & E & Hrep & Ety & Ew). unfold reply, deref. rewrite Hr. simpl. rewrite E. simpl.
  destruct (update_live (u_heap u) q (fun _ => r')) as [h Eh]; [by exists r|]. rewrite Eh. simpl. exists h, r'.
  destruct (update_at _ _ _ _ Eh) as (a & Ha & Ha'). destruct (update_other _ _ _ _ Eh) as [_ Ho].
  split_and!; try done. by eapply update_heap_ok.
Qed.

(** ** The cache of an enabled partition *)

Lemma L2_state t u : ok t u -> L2_disabled c = false -> exists s, m_L2cache u = Some s /\ L2 u = Ok (with_heap s (u_heap u)) /\
  cache_ok pl2 (with_heap s (u_heap u)) t /\ memport s = [] /\ filling s.
Proof using.
  intros Hu Hd. pose proof (pa_L2 _ _ _ _ Hu) as H. unfold L2_ok, L2 in *. destruct (m_L2cache u) as [s|]; [|congruence]. destruct H as (_ & ? & ? & ?). by exists s.
Qed.

(** The partition after an operation of its cache. *)
Lemma repack_L2 t t' u u' s h0 : ok t u -> m_L2cache u' = Some s -> L2_disabled c = false -> cache_ok pl2 (with_heap s h0) t' -> memport s = [] ->
  filling s -> queues_ok u' -> dram_ok dc (u_channel u') -> m_n_shader (m_stats (u_channel u')) = m_n_shader (m_stats (u_channel u)) ->
  u_icnt u' = u_icnt u -> u_ruby u' = u_ruby u -> ruby_msg u' = ruby_msg u ->
  flow c n_shader (locs u') (held u') (fills u') (tracker u') (ruby_msg u) (u_heap u') -> ok t' u'.
Proof using.
  intros [A1 A2 A3 A4 A5 A6 A7] E1 Hd Hco Hm Hf Hq Hdr E2 E3 E4 E5 F.
  assert (L2_ok c t' (with_channel u' (with_fetches (u_channel u') h0))) as HL by (unfold L2_ok; simpl; by rewrite E1).
  split; try done.
  - eapply L2_ok_heap; [exact HL|done|by rewrite E5].
  - by rewrite E5.
  - by rewrite E3.
  - by eapply ruby_ok_same.
  - congruence.
Qed.

(** Only the request [q] changes in more than its status. *)
Definition changed_at (q : Z) (h h' : heap) : Prop := forall k, k <> q -> option_Forall2 same_but_status (objects h !! k) (objects h' !! k).
Lemma changed_same q h h' : (forall k, k <> q -> objects h' !! k = objects h !! k) -> changed_at q h h'.
Proof using. intros H k Hk. rewrite (H k Hk). destruct (objects h !! k); constructor. apply same_refl. Qed.
Lemma changed_touched q h h1 h2 : changed_at q h h1 -> touched h1 h2 -> changed_at q h h2.
Proof using.
  intros H [_ T] k Hk. specialize (H k Hk). specialize (T k).
  destruct (objects h !! k), (objects h1 !! k), (objects h2 !! k); inversion H; inversion T; subst; constructor. by eapply same_trans.
Qed.
Lemma touched_changed q h h1 h2 : touched h h1 -> changed_at q h1 h2 -> changed_at q h h2.
Proof using.
  intros [_ T] H k Hk. specialize (H k Hk). specialize (T k).
  destruct (objects h !! k), (objects h1 !! k), (objects h2 !! k); inversion H; inversion T; subst; constructor. by eapply same_trans.
Qed.
Lemma changed_lookup q h h' k r : changed_at q h h' -> k <> q -> objects h !! k = Some r -> exists r', objects h' !! k = Some r' /\ same_but_status r r'.
Proof using. intros H Hk Hr. specialize (H k Hk). rewrite Hr in H. inversion H; subst. by eexists. Qed.

Lemma dram_ok_changed w q h : dram_ok dc w -> heap_ok h -> q ∉ in_flight w -> changed_at q (fetches w) h -> dram_ok dc (with_fetches w h).
Proof using.
  intros Hw Hh Hq Hch. apply dram_ok_heap; [done|done|]. intros k r Hk Hr.
  destruct (changed_lookup q _ _ k r Hch) as (r' & Hr' & (st & cy & ->)); [by intros ->|done|]. by eexists.
Qed.

Lemma keeps_changed u u' q : changed_at q (u_heap u) (u_heap u') -> tracker u' ⊆ tracker u -> (forall k, k <> q -> k ∈ tracker u -> k ∈ tracker u') ->
  (forall r, q ∈ tracker u -> objects (u_heap u) !! q = Some r ->
    q ∈ tracker u' /\ (exists r', objects (u_heap u') !! q = Some r' /\ get_access_type r' = get_access_type r) \/ write_back r = true /\ q ∉ tracker u') ->
  u_ruby u' = u_ruby u -> ruby_msg u' = ruby_msg u -> keeps u u'.
Proof using.
  intros Hch HT HT' Hq E1 E2. split; [done| |by unfold ruby_inside; rewrite E1, E2|by rewrite E1].
  intros k r Hk Hr. destruct (Z.eq_dec k q) as [->|Hne]; [by apply Hq|]. left. split; [by apply HT'|].
  destruct (changed_lookup q _ _ k r Hch Hne Hr) as (r' & Hr' & Hs). exists r'. split; [done|by apply same_type].
Qed.

(** What was handed out for a block that came back does not fill a line. *)
Lemma handed_out s t h mf s' : cache_ok pl2 (with_heap s h) t -> filling s -> NoDup (Mshr.waiting (c_mshrs s)) ->
  cache_next_access s = Ok (mf, s') -> m_extra_mf_fields s !! mf = None /\ s' = with_mshrs s (c_mshrs s') /\ filling s'.
Proof using.
  intros Hco Hf Hn E. pose proof (ok_mshrs _ _ _ Hco) as (Hm & _). simpl in Hm. pose proof (ok_linked _ _ _ Hco) as Hl. simpl in Hl.
  unfold cache_next_access in E. destruct (m_current_response (c_mshrs s)) as [|b rest] eqn:Er.
  { unfold mshr_next_access in E. by rewrite Er in E. }
  destruct (next_access_spec (c_mshrs s) b rest Hm Er) as (mf' & l & m' & Hw & E' & Hm' & _ & _ & Er' & Ho & Hb & Hp).
  rewrite E' in E. simpl in E. injection E as -> <-. simpl. split; [|split; [done|]].
  - destruct (m_extra_mf_fields s !! mf) as [e|] eqn:Ex; [|done]. exfalso.
    pose proof (Hf mf e Ex) as Hin. destruct (li_entry _ _ _ _ Hl mf e Ex) as [[en Hen] Hnr].
    assert (ex_block_addr e <> b) as Hne by (intros Hbb; apply Hnr; rewrite Er, Hbb; left).
    assert (mf ∈ Mshr.waiting m') as Hin'.
    { unfold Mshr.waiting. apply list_elem_of_bind. exists (ex_block_addr e, en). split.
      - unfold waiting_for in Hin. by rewrite Hen in Hin.
      - apply elem_of_map_to_list. by rewrite Ho. }
    rewrite Hp in Hn. apply NoDup_cons in Hn as [Hn _]. done.
  - intros q e Hq. simpl in *. pose proof (Hf q e Hq) as Hin. destruct (li_entry _ _ _ _ Hl q e Hq) as [_ Hnr].
    unfold waiting_for in *. rewrite Ho; [done|]. intros Hbb. apply Hnr. rewrite Er, Hbb. left.
Qed.

(** ** Answers *)

Lemma to_icnt_spec u clk q : live (u_heap u) q -> heap_ok (u_heap u) -> queue_ok (m_L2_icnt_queue u) -> full (m_L2_icnt_queue u) = false ->
  exists h f, to_icnt clk u q = Ok (with_L2_icnt (with_channel u (with_fetches (u_channel u) h)) f) /\ touched (u_heap u) h /\ heap_ok h /\
    queue_ok f /\ items f = items (m_L2_icnt_queue u) ++ [q].
Proof using.
  intros Hl Hh Hq Hf. unfold to_icnt, touch. destruct (update_live (u_heap u) q (fun r => set_mf_status r IN_PARTITION_L2_TO_ICNT_QUEUE (now clk)) Hl) as [h E].
  rewrite E. simpl. destruct (queue_push _ q Hq Hf) as (f & -> & Hf' & Ei). simpl. exists h, f. split; [done|]. split_and!; try done.
  - eapply touched_update; [exact E|]. intros x. by eexists _, _.
  - by eapply update_heap_ok.
Qed.

Ltac places := unfold locs, at_place, miss_queue; simpl; rewrite ?fmap_app; simpl; rewrite ?fmap_app; simpl; try solve_Permutation.

Lemma fill_responses_ok t u clk : ok t u -> stepped t u (fill_responses c clk u).
Proof using Hc.
  intros Hu. unfold fill_responses. destruct (L2_disabled c) eqn:Ed; [by apply step_ok_done|].
  destruct (L2_state t u Hu Ed) as (s & Es & EL & Hco & Hmp & Hfi). rewrite EL. simpl.
  destruct (mshr_access_ready (c_mshrs s) && negb (full (m_L2_icnt_queue u))) eqn:Eg; [|by apply step_ok_done].
  apply andb_true_iff in Eg as [Hr Ef%negb_true_iff]. pose proof (pa_flow _ _ _ _ Hu) as F. pose proof (fl_heap _ _ _ _ _ _ _ _ F) as Hh.
  assert (held u = Mshr.waiting (c_mshrs s)) as Eh by (unfold held; by rewrite Es).
  destruct (cache_next_access_spec pl2 _ _ Hco Hr) as (mf & s1 & E & Hco1 & Hw & _ & Hx1). rewrite E. simpl in Hw, Hx1.
  destruct (handed_out (with_heap s (u_heap u)) t (u_heap u) mf s1) as (Hx & E1 & Hfi1); [by destruct s|done| |exact E|].
  { simpl. rewrite <- Eh. apply (fl_held _ _ _ _ _ _ _ _ F). }
  simpl in Hx, E1. assert (c_heap s1 = u_heap u) as Ech by (by rewrite E1). assert (m_miss_queue s1 = m_miss_queue s) as Emq by (by rewrite E1).
  assert (memport s1 = []) as Emp by (by rewrite E1). assert (s1 = with_heap s1 (u_heap u)) as Es1 by (by rewrite E1). rewrite Es1 in Hco1.
  assert (flow c n_shader (locs u) (mf :: Mshr.waiting (c_mshrs s1)) (fills u) (tracker u) (ruby_msg u) (u_heap u)) as F1.
  { eapply flow_perm; [exact F|done| |done]. by rewrite Eh. }
  assert (~ fills u mf) as HX. { unfold fills. rewrite Es, Hx. by intros [? ?]. }
  destruct (fl_waits _ _ _ _ _ _ _ _ F1 mf ltac:(left)) as (r & Hro & (Hrw & Hwb & Hnr & Hkind) & Htr).
  assert (forall k, fills u k <-> fills (after_L2 u s1) k) as Hfe. { intros k. unfold fills, after_L2. simpl. by rewrite Es, Hx1. }
  assert (mf ∉ in_flight (u_channel u)) as Hnf.
  { intros Hin. apply HX. apply (fl_fills _ _ _ _ _ _ _ _ F1). split; [left|]. by apply (locs_fst _ _ Fly), locs_fly. }
  simpl. rewrite Ech. unfold deref at 1. rewrite Hro. simpl. destruct (bool_decide (get_access_type r = L2_WR_ALLOC_R)) eqn:Eal; simpl.
  - apply bool_decide_eq_true in Eal. unfold delete_fetch, untrack, deref. simpl. rewrite Ech, Hro. simpl. fold (without (u_heap u) mf).
    destruct (flow_end _ _ _ _ _ _ _ _ (without (u_heap u) mf) mf r F1) as [F2 HT]; [by apply without_ok|done|done|done|apply without_other|].
    eexists. split; [done|]. split.
    + eapply (repack_L2 t t u _ s1 (u_heap u)); try done; simpl; [apply Hu|by apply (dram_ok_tracker c (with_fetches (u_channel u) (without (u_heap u) mf))), dram_ok_without; [apply Hu|]|].
      rewrite difference_disjoint_L by set_solver. eapply flow_perm; [exact F2| |done|exact Hfe]. places. by rewrite Es, Emq.
    + eapply (keeps_changed _ _ mf); simpl; try done; [apply changed_same, without_other|set_solver|set_solver].
  - destruct (reply_ok (after_L2 u s1) mf r) as (h & r' & -> & Hh' & Hr' & Hrep & Ety & _ & Ho); simpl; rewrite ?Ech; try done.
    destruct (pa_queues _ _ _ _ Hu) as (Q1 & Q2 & Q3 & Q4).
    destruct (to_icnt_spec (with_channel (after_L2 u s1) (with_fetches (with_fetches (u_channel u) (c_heap s1)) h)) clk mf) as (h2 & f & E2 & Ht & Hh2 & Hf & Ei);
      [by exists r'|done|done|done|]. simpl in E2, Ei, Ht, Ho. rewrite Ech in *. rewrite E2.
    assert (changed_at mf (u_heap u) h2) as Hch by (eapply changed_touched; [by apply changed_same|done]).
    eexists. split; [done|]. split.
    + eapply (repack_L2 t t u _ s1 (u_heap u)); try done; simpl; [apply (dram_ok_changed (u_channel u) mf h2); try done; apply Hu|].
      eapply flow_touched; [|exact Ht|done]. eapply flow_perm; [eapply (flow_answer _ _ _ _ _ _ _ _ h mf r r' F1)| |done|exact Hfe]; try done.
      * intros Ha. by rewrite bool_decide_eq_true_2 in Eal.
      * places. rewrite Es, Emq, Ei. places.
    + eapply (keeps_changed _ _ mf); simpl; try done. intros x Hx' Hxo. left. split; [done|]. assert (x = r) as -> by congruence.
      destruct (touched_lookup _ _ mf r' Ht Hr') as (r2 & Hr2 & Hs2). exists r2. split; [done|]. rewrite (same_type _ _ Hs2). done.
Qed.

(** ** What comes back from the DRAM *)

Lemma fill_frame p s mf time s' : cache_fill p s mf time = Ok s' -> memport s' = memport s /\ (filling s -> filling s') /\
  exists n, update (c_heap s) mf (fun r => set_data_size r n) = Ok (c_heap s').
Proof using.
  clear. unfold cache_fill. intros H. destruct (m_extra_mf_fields s !! mf) as [e|]; [|done]. ok_inv.
  match goal with E : mark_ready _ _ = Ok ?p |- _ => destruct p as [ha m]; unfold mark_ready in E end.
  destruct (m_data (c_mshrs s) !! ex_block_addr e); [|done]. ok_inv. simplify_eq. simpl. split; [done|].
  split; [|by eexists]. intros Hf q y. simpl. rewrite lookup_delete_Some. intros [_ Hx]. by apply Hf.
Qed.

Lemma placed_once t u q p1 p2 : ok t u -> (q, p1) ∈ locs u -> (q, p2) ∈ locs u -> p1 = p2.
Proof using. intros Hu. apply (NoDup_fmap_fst (locs u)), (fl_once _ _ _ _ _ _ _ _ (pa_flow _ _ _ _ Hu)). Qed.
Lemma not_in_flight t u q pl : ok t u -> (q, pl) ∈ locs u -> pl <> Fly -> q ∉ in_flight (u_channel u).
Proof using. intros Hu Hq Hpl Hin%locs_fly. by specialize (placed_once t u q pl Fly Hu Hq Hin). Qed.

Lemma set_size_changed h q n h' : update h q (fun r => set_data_size r n) = Ok h' -> heap_ok h -> heap_ok h' /\ changed_at q h h' /\
  exists r, objects h !! q = Some r /\ objects h' !! q = Some (set_data_size r n) /\ forall k, k <> q -> objects h' !! k = objects h !! k.
Proof using.
  intros E Hh. destruct (update_at _ _ _ _ E) as (a & Ha & Ha'). destruct (update_other _ _ _ _ E) as [_ Ho].
  split; [by eapply update_heap_ok|]. split; [by apply changed_same|]. by exists a.
Qed.

Section timed.
Context (clk : gpu_clock) (Htime : time_ok (now clk)).
Abbreviation t := (now clk).

Lemma fill_ok u mf q : ok t u -> L2_disabled c = false -> fills u mf -> items (m_dram_L2_queue u) = mf :: items q -> queue_ok q ->
  exists s s', L2 u = Ok s /\ cache_fill pl2 s mf t = Ok s' /\ ok t (with_dram_L2 (after_L2 u s') q) /\ keeps u (with_dram_L2 (after_L2 u s') q).
Proof using Hc Htime.
  intros Hu Hd Hx Ei Hq. destruct (L2_state t u Hu Hd) as (s & Es & EL & Hco & Hmp & Hfi). exists (with_heap s (u_heap u)).
  pose proof (pa_flow _ _ _ _ Hu) as F. assert ((mf, Back) ∈ locs u) as Hin by (apply locs_back; rewrite Ei; left).
  unfold fills in Hx. rewrite Es in Hx. destruct (cg_L2 _ _ Hc Hd) as (Hp & _).
  destruct (cache_fill_spec pl2 Hp _ _ t mf Hco ltac:(lia) Htime Hx) as (s' & b & E & Hco' & [W1 W2 _ _ W3 _]). exists s'. split; [done|]. split; [done|].
  simpl in W1, W2, W3. destruct (fill_frame _ _ _ _ _ E) as (Emp & Hfi' & n & Eh). simpl in Emp, Eh.
  destruct (set_size_changed _ _ _ _ Eh (fl_heap _ _ _ _ _ _ _ _ F)) as (Hh' & Hch & r & Hr & Hr' & Ho).
  destruct (pa_queues _ _ _ _ Hu) as (Q1 & Q2 & Q3 & Q4).
  assert (held u = Mshr.waiting (c_mshrs s)) as Ehd by (unfold held; by rewrite Es).
  assert (mf ∈ held u) as HH. { apply (fl_fills _ _ _ _ _ _ _ _ F). unfold fills. by rewrite Es. }
  split.
  - eapply (repack_L2 t t u _ s' (c_heap s')); try done; simpl.
    + by destruct s'.
    + by rewrite Emp.
    + by apply Hfi'.
    + apply (dram_ok_changed (u_channel u) mf (c_heap s')); try done; [apply Hu|]. by apply (not_in_flight t u mf Back).
    + eapply flow_perm; [eapply (flow_fill _ _ _ _ _ _ _ _ (c_heap s') mf Back r _)|..]; try done.
      * eapply flow_perm; [exact F| |done|done]. places. rewrite Es, W3, Ei. places.
      * rewrite Ehd. unfold held. simpl. by rewrite W1.
      * intros k. unfold fills. simpl. rewrite Es, W2, lookup_delete. destruct (decide (mf = k)) as [->|]; [|naive_solver].
        split; [by intros [_ ?]|by intros [? ?]].
  - eapply (keeps_changed _ _ mf); simpl; try done. intros x Hx' Hxo. left. split; [done|]. exists (set_data_size r n).
    split; [done|]. by assert (x = r) as -> by congruence.
Qed.

Lemma from_dram_ok u : ok t u -> stepped t u (from_dram c clk u).
Proof using Hc Htime.
  intros Hu. unfold from_dram. destruct (empty (m_dram_L2_queue u)) eqn:Ee; [by apply step_ok_done|].
  destruct (pa_queues _ _ _ _ Hu) as (Q1 & Q2 & Q3 & Q4). destruct (queue_top _ Q3 Ee) as (mf & q & Ei & -> & Ep & Hq). simpl.
  assert ((mf, Back) ∈ locs u) as Hin by (apply locs_back; rewrite Ei; left). pose proof (pa_flow _ _ _ _ Hu) as F.
  assert (exists b : bool, fills_L2 c u mf = Ok b /\ (if b then L2_disabled c = false /\ fills u mf else ~ fills u mf)) as (b & -> & Hb).
  { unfold fills_L2. destruct (L2_disabled c) eqn:Ed.
    - exists false. split; [done|]. pose proof (pa_L2 _ _ _ _ Hu) as H. unfold L2_ok in H. unfold fills. destruct (m_L2cache u); [|tauto]. destruct H; congruence.
    - destruct (L2_state t u Hu Ed) as (s & Es & -> & _). simpl. eexists. split; [done|]. unfold waiting_for_fill, fills. simpl. rewrite Es.
      case_bool_decide; done. }
  simpl. destruct b.
  - destruct Hb as [Ed Hx]. destruct (partition_touch_ok c n_shader t u IN_PARTITION_L2_FILL_QUEUE t mf Hu) as (h & -> & Ht & H1 & K1).
    { left. by apply (locs_fst _ _ Back). }
    simpl. destruct (fill_ok _ mf q H1 Ed Hx Ei Hq) as (s & s' & -> & Ef & H2 & K2). simpl. rewrite Ef. simpl. rewrite Ep. simpl.
    eexists. split; [done|]. split; [done|by eapply keeps_trans].
  - destruct (full (m_L2_icnt_queue u)) eqn:Ef; simpl; [by apply step_ok_done|].
    destruct (placed_request c n_shader t u mf Back Hu Hin) as (r & _ & Hr & Hp & Hal & Hru & _).
    destruct (to_icnt_spec u clk mf) as (h & f & -> & Ht & Hh & Hf & Ei2); try done; [by exists r|apply F|]. simpl. rewrite Ep. simpl.
    assert (mf ∉ held u) as HH. { intros HH. apply Hb, (fl_fills _ _ _ _ _ _ _ _ F). split; [done|]. by apply (locs_fst _ _ Back). }
    eexists. split; [done|]. split.
    + eapply repack; try done; simpl; [apply touched_dram_ok; [apply Hu|done|done]|]. eapply flow_touched; [|exact Ht|done].
      eapply flow_perm; [eapply (flow_move _ _ _ _ _ _ _ _ (u_heap u) mf Back Out r r)|..]; try done.
      * eapply flow_perm; [exact F| |done|done]. instantiate (1 := locs (with_dram_L2 u q)). places. rewrite Ei. places.
      * apply F.
      * destruct Hp as [Hp1 Hp2]. split_and!; try done. split_and!; [|intros ?; by apply HH, Hal|intros ?; by destruct Hru].
        unfold write_back in Hp2. apply orb_false_iff in Hp2 as [_ Hp2]. by apply bool_decide_eq_false in Hp2.
      * intros ?. by destruct Hru.
      * places. rewrite Ei2. places.
    + eapply (keeps_trans _ (with_channel u (with_fetches (u_channel u) h))); [by apply keeps_touched|].
      split; try done. intros k x Hk Hx. left. split; [done|]. by exists x.
Qed.

(** ** What the cache sends to the DRAM *)

Lemma L2_cycle_ok u : ok t u -> stepped t u (L2_cycle c u).
Proof using Hc.
  clear Htime. intros Hu. unfold L2_cycle. destruct (L2_disabled c) eqn:Ed; [by apply step_ok_done|].
  destruct (L2_state t u Hu Ed) as (s & Es & -> & Hco & Hmp & Hfi). simpl. pose proof (pa_flow _ _ _ _ Hu) as F.
  set (idle := after_L2 u (mkCache (u_heap u) (c_tags s) (c_mshrs s) (m_miss_queue s) (m_extra_mf_fields s) [])).
  assert (ok t idle /\ keeps u idle) as [H1 K1].
  { split; [|split; try done; intros k x Hk Hx; left; split; [done|]; by exists x].
    eapply (repack_L2 t t u _ _ (u_heap u)); try done; [destruct Hco; by split|apply Hu|apply (touched_dram_ok c (u_channel u)); [apply Hu|apply touched_refl|apply F]|].
    eapply flow_perm; [exact F|..]; unfold idle; [places|unfold held|unfold fills]; simpl; by rewrite Es. }
  destruct (m_miss_queue s) as [|mf rest] eqn:Eq.
  { unfold cache_cycle. simpl. rewrite Eq. simpl. rewrite Hmp. exists idle. split; [unfold idle; by rewrite Eq|done]. }
  assert ((mf, Down) ∈ locs u) as Hin by (apply locs_down; unfold miss_queue; rewrite Es, Eq; left).
  destruct (placed_request c n_shader t u mf Down Hu Hin) as (r & Er & _).
  unfold cache_cycle. simpl. rewrite Eq, Er. simpl. destruct (full (m_L2_dram_queue u)) eqn:Ef; simpl; rewrite Hmp; simpl; [exists idle; split; [unfold idle; by rewrite Eq|done]|].
  set (u1 := after_L2 u _). unfold L2interface_push.
  destruct (update_live (u_heap u) mf (fun x => set_mf_status x IN_PARTITION_L2_TO_DRAM_QUEUE 0)) as [h Eh]; [eapply flow_live; [exact F|left; by eapply locs_fst]|].
  assert (touched (u_heap u) h) as Ht by (eapply touched_update; [exact Eh|]; intros x; by eexists _, _).
  assert (heap_ok h) as Hh by (eapply update_heap_ok; [exact Eh|apply F]).
  unfold touch. subst u1. simpl. rewrite Eh. simpl. destruct (pa_queues _ _ _ _ Hu) as (Q1 & Q2 & Q3 & Q4).
  destruct (queue_push _ mf Q2 Ef) as (q & -> & Hq & Ei). simpl. eexists. split; [done|]. split.
  - eapply (repack_L2 t t u _ _ (u_heap u)); try done; simpl.
    + destruct Hco as [C1 C2 C3 [C4 C4'] C5 C6]. split; try done. simpl in *. rewrite Eq in C4, C4'. apply Forall_cons in C4' as [_ C4'].
      split; [|done]. unfold zlen in *. simpl in *. lia.
    + apply (touched_dram_ok c (u_channel u) h); [apply Hu|done..].
    + eapply flow_touched; [|exact Ht|done]. eapply flow_perm; [exact F|..]; [places; rewrite Es, Eq, Ei; places|unfold held|unfold fills]; simpl; by rewrite Es.
  - eapply (keeps_changed _ _ mf); simpl; try done; [intros k _; apply Ht|].
    intros x Hmt Hx. left. destruct (touched_lookup _ _ mf x Ht Hx) as (x' & Hx' & Hs). split; [done|]. exists x'. split; [done|by apply same_type].
Qed.
End timed.
End cache_steps.
