(* ===== verification/PartitionAccess.v ===== *)
(** * Accesses of the L2 cache of a memory partition

    A request of the interconnect is given to the L2 cache, or passed on to the DRAM when
    the cache does not take it. *)

From S2P Require Import Prelude Coalesce GpuMisc AddrDec TagArray Mshr MemFetch GpuCache GpuCacheInv DelayQueue MemStats FrFcfs Dram DramServe.
From S2P Require Import FetchFrames CacheTraffic Partition PartitionFlow PartitionInv PartitionCache.

Section access.
Context (c : partition_config) (n_shader : Z) (Hc : config_fits c n_shader) (HL2 : L2_disabled c = false).
Abbreviation dc := (pc_dram c).
Abbreviation pl2 := (pc_L2 c).
Abbreviation flow := (flow c n_shader).

(** ** The requests after an access *)

Lemma cached_place pl r r' : cached pl2 r r' -> place_ok c n_shader pl r -> place_ok c n_shader pl r'.
Proof using Hc HL2.
  destruct (cg_L2 _ _ Hc HL2) as (_ & _ & _ & Hl & Hl'). intros (st & cy & n & -> & Hn) H.
  assert (routed c n_shader r -> routed c n_shader (set_data_size (set_mf_status r st cy) n)) as Hrt.
  { intros [? ? ? ? ?]. split; try done. simpl. destruct Hn as [->| ->]; [done|]. lia. }
  destruct pl; try done.
  - destruct H as (H1 & H2 & H3 & H4 & H5). split_and!; try done; [by apply Hrt|]. intros Hd. destruct (H5 Hd). split; try done. simpl. lia.
  - destruct H as (H1 & H2). split; [by apply Hrt|done].
Qed.
Lemma cached_held r r' : cached pl2 r r' -> held_ok r -> held_ok r'.
Proof using. by intros (st & cy & n & -> & Hn). Qed.
Lemma cached_type r r' : cached pl2 r r' -> get_access_type r' = get_access_type r.
Proof using. by intros (st & cy & n & -> & Hn). Qed.

(** The requests the cache makes go to the DRAM. *)
Lemma placed_routed r x : placed pl2 x -> get_access_type x <> NUM_MEM_ACCESS_TYPE -> m_sid x = u32 (-1) \/ m_sid x = m_sid r ->
  m_data_size x = m_data_size r \/ m_data_size x = m_line_sz (p_config pl2) -> routed c n_shader r -> routed c n_shader x.
Proof using Hc HL2.
  intros [Ha Hd] Ht Hs Hz [R1 R2 R3 R4 R5]. destruct (cg_L2 _ _ Hc HL2) as (_ & _ & _ & Hl & Hl').
  destruct (cg_map _ _ Hc _ Ha) as (_ & d & Ed & H1 & H2). rewrite Hd in Ed. injection Ed as <-. split; try done.
  - destruct Hs as [-> | ->]; [by left|done].
  - destruct Hz as [-> | ->]; [done|lia].
Qed.
Lemma write_back_down r x : routed c n_shader r -> made_write_back pl2 x -> place_ok c n_shader Down x /\ write_back x = true.
Proof using Hc HL2.
  intros Hr (H1 & H2 & H3 & H4 & H5 & H6). destruct (cg_L2 _ _ Hc HL2) as (_ & _ & Hcore & _). split; [|done]. split.
  - apply (placed_routed r); try done; [|left; congruence|by right]. intros E. unfold write_back in H2. by rewrite E in H2.
  - unfold waits_reply. by rewrite H4.
Qed.
Lemma alloc_read_down r x : routed c n_shader r -> made_alloc_read pl2 r x -> place_ok c n_shader Down x /\ held_ok x /\ is_alloc x.
Proof using Hc HL2.
  intros Hr (H1 & H2 & H3 & H4 & H5 & H6). assert (waits_reply x) as Hw by (unfold waits_reply; by rewrite H4). split_and!; try done.
  - split; [|done]. apply (placed_routed r); try done; [by rewrite H2|by right].
  - split; [done|]. split; [unfold write_back; by rewrite H2|]. split; [|by left]. intros [E|E]; rewrite H2 in E; done.
Qed.

Section after_access.
Context (L : list (Z * place)) (H : list Z) (X : Z → Prop) (T : gset Z) (M : gmap Z Z).
Context (s s' : cache) (mf : Z) (r : mem_fetch) (status : cache_request_status) (events : list cache_event) (sent ext : list Z).
Context (F : flow ((mf, Up) :: L) H X T M (c_heap s)) (Hr : objects (c_heap s) !! mf = Some r).
Context (A : answered pl2 r s s' mf status events sent ext).

Lemma inside_lt q : q ∈ ((mf, Up) :: L).*1 \/ q ∈ H -> q < next_object (c_heap s).
Proof using F. intros Hq. destruct (flow_live _ _ _ _ _ _ _ _ _ F Hq) as [x Hx]. by apply (fl_heap _ _ _ _ _ _ _ _ F q x). Qed.

Lemma up_facts : place_ok c n_shader Up r /\ (mf ∉ L.*1) /\ (mf ∉ H) /\ (write_back r = false -> mf ∈ T).
Proof using F Hr.
  pose proof (fl_once _ _ _ _ _ _ _ _ F) as Hn. apply NoDup_cons in Hn as [Hn _].
  destruct (fl_places _ _ _ _ _ _ _ _ F mf Up ltac:(left)) as [(x & B1 & B2 & B3 & B4 & B5) B6]. assert (x = r) as -> by congruence.
  split_and!; try done; [intros HH; by destruct (B6 HH) as [|[|]]|]. intros Hw. destruct B2 as (_ & _ & (_ & Ha & Hru) & _).
  destruct B5 as [?|[?|[?|?]]]; [done|congruence|done|done].
Qed.

Lemma mf_after : exists r', objects (c_heap s') !! mf = Some r' /\ cached pl2 r r'.
Proof using Hr A. pose proof (tr_mf _ _ _ _ _ _ _ (an_traffic _ _ _ _ _ _ _ _ _ A)) as HM. rewrite Hr in HM. inversion HM; subst. by eexists. Qed.

(** Nothing moves yet. *)
Lemma flow_heap : flow ((mf, Up) :: L) H X T M (c_heap s').
Proof using Hc HL2 F Hr A.
  eapply flow_objects; [exact F|apply A, F|]. intros q x Hq Hx. destruct (Z.eq_dec q mf) as [->|Hne].
  - assert (x = r) as -> by congruence. destruct mf_after as (r' & Hr' & Hch). exists r'. split; [done|]. split; [by apply cached_type|].
    split; [intros pl _; by apply cached_place|intros _; by apply cached_held].
  - exists x. rewrite (tr_old _ _ _ _ _ _ _ (an_traffic _ _ _ _ _ _ _ _ _ A)); [split_and!; try done; by split_and!|done|by apply inside_lt].
Qed.

(** The reads that now wait, and those the cache queued. *)
Abbreviation acc := (accepted pl2 s mf r status).
Lemma sent_not_inside q : q ∈ sent -> q <> mf -> (q ∉ L.*1) /\ (q ∉ H).
Proof using Hc HL2 F Hr A.
  intros Hq Hne. destruct (an_sent _ _ _ _ _ _ _ _ _ A q Hq Hne) as (Hge & _).
  split; intros Hin; (assert (q < next_object (c_heap s)); [apply inside_lt|lia]); [left; simpl; set_solver|by right].
Qed.
Lemma sends_ok L' sd : flow L' (acc ++ H) X T M (c_heap s') -> NoDup sd -> sd ⊆ sent -> (forall q, q ∈ sd -> (q ∉ L'.*1) /\ (q = mf -> mf ∈ acc)) ->
  flow (at_place Down sd ++ L') (acc ++ H) (fun k => X k \/ k ∈ sd /\ k ∈ acc ++ H) T M (c_heap s').
Proof using Hc HL2 F Hr A.
  intros F' Hn Hsub HL. apply (flow_sends _ _ _ _ _ _ _ _ sd F' Hn). intros q Hq. destruct (HL q Hq) as [HL1 HL3]. split; [done|].
  destruct up_facts as [(Hrt & Hwr & _) _]. destruct (decide (q ∈ acc)) as [Ha|Ha].
  - destruct (Z.eq_dec q mf) as [->|Hne].
    + destruct mf_after as (r' & Hr' & Hch). exists r'. split; [done|]. split; [apply (cached_place Down r); [done|by split]|left; set_solver].
    + destruct (an_held _ _ _ _ _ _ _ _ _ A q Ha Hne) as (_ & x & Hx & Hm). exists x. destruct (alloc_read_down r x Hrt Hm) as [? _].
      split; [done|]. split; [done|left; set_solver].
  - assert (q <> mf) as Hne by (intros ->; auto). destruct (sent_not_inside q (Hsub q Hq) Hne) as [_ HH].
    destruct (an_sent _ _ _ _ _ _ _ _ _ A q (Hsub q Hq) Hne) as (_ & x & Hx & [?|Hm]); [done|]. exists x.
    destruct (write_back_down r x Hrt Hm) as [? ?]. split; [done|]. split; [done|]. right. set_solver.
Qed.

(** A read that misses. *)
Lemma flow_read_miss : get_is_write r = false -> status = MISS -> flow (at_place Down sent ++ L) (acc ++ H) (fun k => X k \/ k ∈ ext) T M (c_heap s').
Proof using Hc HL2 F Hr A.
  intros Hw Hst. destruct up_facts as ((Hrt & Hwr & Hco & Hwb & _) & HL & HH & HT).
  assert (acc = [mf]) as Ea by (unfold accepted; by rewrite Hst, Hw).
  assert (write_back r = false) as Hnb by (destruct (write_back r); [by rewrite Hwb in Hw|done]).
  destruct mf_after as (r' & Hr' & Hch). eapply flow_perm; [apply (sends_ok L sent); [|apply A|done|]|done|done|].
  - rewrite Ea. eapply flow_hold; [exact flow_heap|exact Hr'| |auto]. apply (cached_held r); [done|]. destruct Hco as (_ & _ & Hco). split_and!; auto.
  - intros q Hq. split; [|intros ->; rewrite Ea; left]. destruct (Z.eq_dec q mf) as [->|Hne]; [done|]. by apply sent_not_inside.
  - intros k. rewrite (an_ext _ _ _ _ _ _ _ _ _ A), elem_of_app. split; [|tauto]. intros [?|[Hk [?|Hin]]]; [tauto..|].
    destruct (Z.eq_dec k mf) as [->|Hne]; [done|]. by destruct (sent_not_inside k Hk Hne).
Qed.

(** The read with which the cache allocates a line for a write. *)
Lemma accepts_ok L' : flow L' H X T M (c_heap s') -> L'.*1 = mf :: L.*1 -> mf ∉ acc -> flow L' (acc ++ H) X T M (c_heap s').
Proof using Hc HL2 F Hr A.
  intros F' EL Ha. destruct acc as [|q l] eqn:Eacc; [done|].
  assert (l = []) as ->. { unfold accepted in Eacc. repeat case_match; by simplify_eq. }
  assert (q <> mf) as Hne by (intros ->; set_solver). assert (q ∈ acc) as Hq by (rewrite Eacc; left).
  destruct (an_held _ _ _ _ _ _ _ _ _ A q Hq Hne) as (Hge & x & Hx & Hm). destruct up_facts as [(Hrt & _) _].
  destruct (alloc_read_down r x Hrt Hm) as (_ & Hh & Hal). eapply flow_wait; [exact F'| | |exact Hx|done|by left].
  - rewrite EL. intros Hin. assert (q < next_object (c_heap s)); [|lia]. apply inside_lt. by left.
  - intros Hin. assert (q < next_object (c_heap s)); [|lia]. apply inside_lt. by right.
Qed.

(** A write that is sent on, with what it makes the cache do. *)
Lemma flow_write_sent : mf ∈ sent -> mf ∉ acc -> flow (at_place Down sent ++ L) (acc ++ H) (fun k => X k \/ k ∈ ext) T M (c_heap s').
Proof using Hc HL2 F Hr A.
  intros Hs Ha. destruct up_facts as ((Hrt & Hwr & Hco & Hwb & _) & HL & HH & HT). destruct mf_after as (r' & Hr' & Hch).
  apply elem_of_Permutation in Hs as Hs'. destruct Hs' as [sd Psd]. pose proof (an_once _ _ _ _ _ _ _ _ _ A) as Hn. rewrite Psd in Hn.
  apply NoDup_cons in Hn as [Hmf Hn]. eapply flow_perm; [apply (sends_ok ((mf, Down) :: L) sd); [|done|rewrite Psd; set_solver|]|rewrite Psd|done|].
  - apply accepts_ok; [|done|done]. eapply flow_move; [exact flow_heap|apply A, F|exact Hr'|exact Hr'|done|done| |done|].
    + apply (cached_place Down r); [done|by split].
    + intros Hof. destruct Hco as (_ & _ & Hco). exfalso. apply Hco. unfold of_ruby in *. by rewrite <- (cached_type _ _ Hch).
  - intros q Hq. assert (q <> mf) as Hne by (by intros ->). destruct (sent_not_inside q) as [? _]; [rewrite Psd; by right|done|]. simpl. set_solver.
  - simpl. symmetry. apply Permutation_middle.
  - intros k. rewrite (an_ext _ _ _ _ _ _ _ _ _ A), Psd, !elem_of_app, elem_of_cons. split; [|intros [?|[[->|?] ?]]; tauto].
    intros [?|[Hk [?|Hin]]]; [tauto..|]. destruct (sent_not_inside k) as [_ ?]; [rewrite Psd; by right|by intros ->|done].
Qed.
End after_access.

(** ** The partition after an access *)

Ltac places := unfold locs, at_place, miss_queue; simpl; rewrite ?fmap_app; simpl; rewrite ?fmap_app; simpl; try solve_Permutation.
Implicit Types (u : partition).
Abbreviation ok := (partition_ok c n_shader).

Section timed.
Context (clk : gpu_clock) (Htime : time_ok (now clk)).
Abbreviation t := (now clk).

Section steps.
Context (u : partition) (mf : Z) (q : fifo_pipeline Z) (s : cache) (r : mem_fetch).
Context (Hu : ok t u) (Ei : items (m_icnt_L2_queue u) = mf :: items q) (Hq : queue_ok q) (Es : m_L2cache u = Some s).
Context (Hr : objects (u_heap u) !! mf = Some r).
Abbreviation s0 := (with_heap s (u_heap u)).

Lemma in_front : flow ((mf, Up) :: locs (with_icnt_L2 u q)) (held u) (fills u) (tracker u) (ruby_msg u) (c_heap s0).
Proof using Hu Ei. eapply flow_perm; [apply Hu| |done|done]. places. rewrite Ei. places. Qed.

Context (status : cache_request_status) (events : list cache_event) (s' : cache) (sent ext : list Z).
Context (A : answered pl2 r s0 s' mf status events sent ext) (Hac : accessed_ok pl2 s0 s' t mf r status).

Lemma heap_accessed : heap_ok (c_heap s').
Proof using Hu A. apply A, Hu. Qed.
Lemma access_old k x : k <> mf -> objects (u_heap u) !! k = Some x -> objects (c_heap s') !! k = Some x.
Proof using Hu A.
  intros Hk Hx. rewrite (tr_old _ _ _ _ _ _ _ (an_traffic _ _ _ _ _ _ _ _ _ A)); [done|done|]. by apply (fl_heap _ _ _ _ _ _ _ _ (pa_flow _ _ _ _ Hu) k x).
Qed.
Lemma access_dram : dram_ok dc (with_fetches (u_channel u) (c_heap s')).
Proof using Hu Ei A.
  apply dram_ok_heap; [apply Hu|apply heap_accessed|]. intros k x Hk Hx. exists x. split; [|done]. apply access_old; [|done]. intros ->.
  eapply (not_in_flight c n_shader t u mf Up); [done|apply locs_up; rewrite Ei; apply elem_of_app; right; left|done|done].
Qed.
Lemma access_keeps u' : u_heap u' = c_heap s' -> tracker u' = tracker u -> u_ruby u' = u_ruby u -> ruby_msg u' = ruby_msg u -> keeps u u'.
Proof using Hu Hr A.
  intros E1 E2 E3 E4. split; rewrite ?E2, ?E3; try done; [|by unfold ruby_inside; rewrite E3, E4]. intros k x Hk Hx. left. split; [done|]. rewrite E1.
  destruct (Z.eq_dec k mf) as [->|Hne]; [|exists x; split; [by apply access_old|done]]. assert (x = r) as -> by congruence.
  destruct (mf_after s0 s' mf r status events sent ext Hr A) as (r' & Hr' & Hch). exists r'. split; [done|by apply cached_type].
Qed.

(** In place of the cache and the heap of [u], those after the access. *)
Lemma access_repack u' : m_L2cache u' = Some s' -> u_channel u' = with_fetches (u_channel u) (c_heap s') -> queues_ok u' -> u_icnt u' = u_icnt u ->
  u_ruby u' = u_ruby u -> ruby_msg u' = ruby_msg u ->
  flow (locs u') (accepted pl2 s0 mf r status ++ held u) (fun k => fills u k \/ k ∈ ext) (tracker u) (ruby_msg u) (c_heap s') ->
  ok t u' /\ keeps u u'.
Proof using HL2 Hu Ei Es Hr A Hac.
  intros E1 E2 Hqs E3 E4 E5 F. split; [|apply access_keeps; by rewrite ?E2].
  destruct (L2_state c n_shader t u Hu HL2) as (s1 & Es1 & _ & _ & Hmp & Hfi). rewrite Es in Es1. injection Es1 as <-.
  pose proof (an_traffic _ _ _ _ _ _ _ _ _ A) as T.
  eapply (repack_L2 c n_shader t t u _ s' (c_heap s')); try done; rewrite ?E2; try done.
  - destruct s'. apply Hac.
  - by rewrite (tr_port _ _ _ _ _ _ _ T).
  - by apply (tr_filling _ _ _ _ _ _ _ T).
  - apply access_dram.
  - eapply flow_perm; [exact F|done| |].
    + unfold held. rewrite E1, Es. symmetry. apply (ac_waiting _ _ _ _ _ _ _ Hac).
    + intros k. unfold fills. rewrite E1, Es, (tr_extra _ _ _ _ _ _ _ T). done.
Qed.

Lemma access_quiet : sent = [] -> accepted pl2 s0 mf r status = [] -> ok t (after_L2 u s') /\ keeps u (after_L2 u s').
Proof using Hc HL2 Hu Ei Es Hr A Hac.
  intros E1 E2. pose proof (an_traffic _ _ _ _ _ _ _ _ _ A) as T. apply access_repack; try done; [apply Hu|]. rewrite E2.
  eapply flow_perm; [eapply flow_heap; [exact in_front|exact Hr|exact A]| |done|].
  - places. rewrite Es, (tr_queue _ _ _ _ _ _ _ T), E1, app_nil_r, Ei. places.
  - intros k. rewrite (an_ext _ _ _ _ _ _ _ _ _ A), E1. split; [by left|]. by intros [?|[?%not_elem_of_nil _]].
Qed.
Lemma access_moved : get_is_write r = false /\ status = MISS \/ mf ∈ sent /\ (mf ∉ accepted pl2 s0 mf r status) ->
  ok t (with_icnt_L2 (after_L2 u s') q) /\ keeps u (with_icnt_L2 (after_L2 u s') q).
Proof using Hc HL2 Hu Ei Es Hr Hq A Hac.
  intros Hk. pose proof (an_traffic _ _ _ _ _ _ _ _ _ A) as T. destruct (pa_queues _ _ _ _ Hu) as (Q1 & Q2 & Q3 & Q4). apply access_repack; try done.
  assert (flow (at_place Down sent ++ locs (with_icnt_L2 u q)) (accepted pl2 s0 mf r status ++ held u) (fun k => fills u k \/ k ∈ ext) (tracker u)
    (ruby_msg u) (c_heap s')) as F.
  { destruct Hk as [[? ?]|[? ?]]; [eapply flow_read_miss|eapply flow_write_sent]; try exact in_front; eauto. }
  eapply flow_perm; [exact F| |done|done]. places. rewrite Es, (tr_queue _ _ _ _ _ _ _ T). places.
Qed.
End steps.

(** The request in front is answered at once ... *)
Lemma answer_front u mf q r : ok t u -> items (m_icnt_L2_queue u) = mf :: items q -> queue_ok q -> pop (m_icnt_L2_queue u) = Ok (Some mf, q) ->
  objects (u_heap u) !! mf = Some r -> write_back r = false -> full (m_L2_icnt_queue u) = false ->
  step_ok c n_shader t u (u ← (u ← reply u mf; to_icnt clk u mf); drop_icnt_L2 u).
Proof using.
  clear Hc HL2 Htime. intros Hu Ei Hq Ep Hr Hwb Hf. destruct (pa_queues _ _ _ _ Hu) as (Q1 & Q2 & Q3 & Q4).
  assert ((mf, Up) ∈ locs u) as Hin by (apply locs_up; rewrite Ei; set_solver).
  destruct (placed_request c n_shader t u mf Up Hu Hin) as (x & _ & Hx & (Hrt & Hwr & Hco & _) & _ & _ & HH). assert (x = r) as -> by congruence.
  destruct (reply_ok u mf r) as (h & r' & -> & Hh & Hr' & Hrep & Ety & _ & Ho); try done; [apply Hu|by left|]. simpl.
  set (u1 := with_channel u _).
  destruct (to_icnt_spec u1 clk mf) as (h2 & f & -> & Ht & Hh2 & Hf' & Ei2); try done; [by exists r'|]. unfold drop_icnt_L2. simpl. rewrite Ep. simpl.
  assert (changed_at mf (u_heap u) h2) as Hch by (eapply changed_touched; [by apply changed_same|done]).
  eexists. split; [done|]. split.
  - eapply repack; try done; simpl.
    + apply (dram_ok_changed c (u_channel u) mf h2); try done; [apply Hu|]. by apply (not_in_flight c n_shader t u mf Up).
    + eapply flow_touched; [|exact Ht|done]. eapply flow_perm; [eapply (flow_move _ _ _ _ _ _ _ _ h mf Up Out r r'); try done| |done|done].
      * eapply flow_perm; [apply Hu| |done|done]. instantiate (1 := locs (with_icnt_L2 u q)). places. rewrite Ei. places.
      * split; [done|]. split; [by rewrite (wb_type _ _ Ety)|by eapply of_core_type].
      * intros Hhd. by destruct (HH Hhd) as [|[|]].
      * intros Hof. by destruct Hco as (_ & _ & Hco).
      * places. rewrite Ei2. places.
  - eapply (keeps_changed _ _ mf); simpl; try done. intros x Hmt Hxo. left. split; [done|]. assert (x = r) as -> by congruence.
    destruct (touched_lookup _ _ mf r' Ht Hr') as (r2 & Hr2 & Hs2). exists r2. split; [done|]. by rewrite (same_type _ _ Hs2).
Qed.

(** ... and a write-back of a core ends here. *)
Lemma delete_front u mf q r : ok t u -> items (m_icnt_L2_queue u) = mf :: items q -> queue_ok q -> pop (m_icnt_L2_queue u) = Ok (Some mf, q) ->
  objects (u_heap u) !! mf = Some r -> write_back r = true ->
  step_ok c n_shader t u (u ← delete_fetch (untrack u mf) mf; drop_icnt_L2 u).
Proof using.
  clear Hc HL2 Htime. intros Hu Ei Hq Ep Hr Hwb. destruct (pa_queues _ _ _ _ Hu) as (Q1 & Q2 & Q3 & Q4). pose proof (pa_flow _ _ _ _ Hu) as F.
  assert ((mf, Up) ∈ locs u) as Hin by (apply locs_up; rewrite Ei; set_solver).
  destruct (placed_request c n_shader t u mf Up Hu Hin) as (x & _ & Hx & (Hrt & Hwr & Hco & _) & _ & Hru & HH). assert (x = r) as -> by congruence.
  unfold delete_fetch, deref. simpl. rewrite Hr. simpl. fold (without (u_heap u) mf). unfold drop_icnt_L2. simpl. rewrite Ep. simpl.
  assert (mf ∉ held u) as HH'. { intros Hhd. by destruct (HH Hhd) as [|[|]]. }
  eexists. split; [done|]. split.
  - eapply repack; try done; simpl.
    + apply (dram_ok_tracker c (with_fetches (u_channel u) (without (u_heap u) mf))), dram_ok_without; [apply Hu|].
      by apply (not_in_flight c n_shader t u mf Up).
    + eapply flow_perm; [eapply (flow_leave c n_shader (locs (with_icnt_L2 u q)) (held u) (fills u) (tracker u) _ (ruby_msg u) (ruby_msg u) (u_heap u) _ mf Up); try done| |done|done].
      * eapply flow_perm; [exact F| |done|done]. places. rewrite Ei. places.
      * apply without_ok, F.
      * apply without_other.
      * intros k. set_solver.
      * intros k. case_decide as Hk; [subst k|done]. apply eq_None_not_Some. intros (_ & x & Hx' & Hof)%(fl_msg _ _ _ _ _ _ _ _ F).
        assert (x = r) as -> by congruence. by destruct (Hru Hof).
      * places.
  - eapply (keeps_changed _ _ mf); simpl; try done; [apply changed_same, without_other|set_solver|set_solver|].
    intros x _ Hxo. right. split; [by assert (x = r) as -> by congruence|set_solver].
Qed.

Lemma access_L2_ok u mf q r : ok t u -> items (m_icnt_L2_queue u) = mf :: items q -> queue_ok q -> pop (m_icnt_L2_queue u) = Ok (Some mf, q) ->
  objects (u_heap u) !! mf = Some r -> full (m_L2_icnt_queue u) = false -> step_ok c n_shader t u (access_L2 c clk u mf r).
Proof using Hc HL2 Htime.
  intros Hu Ei Hq Ep Hr Hf. destruct (L2_state c n_shader t u Hu HL2) as (s & Es & EL & Hco & _).
  pose proof (in_front u mf q s Hu Ei) as F. destruct (up_facts _ _ _ _ _ _ mf r F Hr) as ((Hrt & Hwr & Hcore & Hwb & Hcb) & _ & HH & _).
  destruct (Hcb HL2) as [B1 B2 B3]. destruct (cg_L2 _ _ Hc HL2) as (Hp & Hro & _).
  assert (GpuCacheInv.request_ok pl2 (with_heap s (u_heap u)) mf r) as Hreq.
  { split; try done; [|intros Ha; by destruct (B3 Ha)]. simpl. apply eq_None_not_Some. intros Hx. apply HH.
    apply (fl_fills _ _ _ _ _ _ _ _ F). unfold fills. by rewrite Es. }
  destruct (data_access_spec pl2 Hp _ t t (m_partition_addr r) mf r [] Hco ltac:(lia) Htime B2 Hreq Hro) as (status & events & s' & E & Hac).
  pose proof (fl_heap _ _ _ _ _ _ _ _ F) as Hh.
  destruct (data_access_traffic pl2 _ mf r Hh Hr (Hh mf r Hr) _ _ _ _ _ E) as (sent & ext & A).
  unfold access_L2. rewrite EL. simpl. rewrite E. simpl. pose proof (an_status _ _ _ _ _ _ _ _ _ A) as Hst.
  assert (drop_icnt_L2 (after_L2 u s') = Ok (with_icnt_L2 (after_L2 u s') q)) as Ed by (unfold drop_icnt_L2; simpl; by rewrite Ep).
  destruct status; simpl.
  - destruct Hst as [[-> ->]|(-> & -> & Hw)].
    2: { simpl. rewrite Ed. eexists. split; [done|]. eapply access_moved; eauto. right. split; [left|apply not_elem_of_nil]. }
    simpl. destruct (access_quiet u mf q s r Hu Ei Es Hr HIT [] s' [] ext A Hac eq_refl eq_refl) as [H1 K1].
    destruct (mf_after (with_heap s (u_heap u)) s' mf r _ _ _ _ Hr A) as (r' & Hr' & Hch). pose proof (cached_type _ _ Hch) as Ety.
    assert (forall o, step_ok c n_shader t (after_L2 u s') o -> step_ok c n_shader t u o) as Hafter.
    { intros o (u2 & -> & H2 & K2). exists u2. split; [done|]. split; [done|by eapply keeps_trans]. }
    destruct (bool_decide (get_access_type r = L1_WRBK_ACC)) eqn:E1; apply Hafter.
    + apply bool_decide_eq_true in E1. eapply delete_front; eauto. unfold write_back. by rewrite Ety, E1.
    + apply bool_decide_eq_false in E1. eapply answer_front; eauto. unfold write_back. rewrite Ety. destruct Hcore as (E2 & _).
      apply orb_false_iff. split; by apply bool_decide_eq_false.
  - done.
  - rewrite Ed. eexists. split; [done|]. eapply access_moved; eauto. destruct (get_is_write r) eqn:Ew; [by right|by left].
  - destruct Hst as [-> ->]. simpl. eexists. split; [done|]. eapply access_quiet; eauto.
Qed.
End timed.
End access.

(** ** A cycle of the L2 cache *)

Section cycle.
Context (c : partition_config) (n_shader : Z) (Hc : config_fits c n_shader) (clk : gpu_clock) (Htime : time_ok (now clk)).
Implicit Types (u : partition).
Abbreviation t := (now clk).
Abbreviation ok := (partition_ok c n_shader t).

Ltac places := unfold locs, at_place, miss_queue; simpl; rewrite ?fmap_app; simpl; rewrite ?fmap_app; simpl; try solve_Permutation.

Lemma from_icnt_ok u : ok u -> step_ok c n_shader t u (from_icnt c clk u).
Proof using Hc Htime.
  intros Hu. unfold from_icnt. destruct (negb _ && _) eqn:Eg; [|by apply step_ok_done]. apply andb_true_iff in Eg as [Ef%negb_true_iff Ee%negb_true_iff].
  destruct (pa_queues _ _ _ _ Hu) as (Q1 & Q2 & Q3 & Q4). destruct (queue_top _ Q1 Ee) as (mf & q & Ei & -> & Ep & Hq). simpl.
  assert ((mf, Up) ∈ locs u) as Hin by (apply locs_up; rewrite Ei; set_solver).
  destruct (placed_request c n_shader t u mf Up Hu Hin) as (r & -> & Hr & (Hrt & Hwr & Hco & _) & _ & Hru & HH). simpl.
  destruct (negb (L2_disabled c) && _) eqn:Eg.
  - apply andb_true_iff in Eg as [Hd%negb_true_iff _]. destruct (full (m_L2_icnt_queue u)) eqn:Ef2; simpl; [by apply step_ok_done|].
    by eapply access_L2_ok.
  - destruct (partition_touch_ok c n_shader t u IN_PARTITION_L2_TO_DRAM_QUEUE t mf Hu) as (h & -> & Ht & H1 & K1); [left; by eapply locs_fst|].
    simpl. destruct (queue_push _ mf Q2 Ef) as (q2 & -> & Hq2 & Ei2). simpl. unfold drop_icnt_L2. simpl. rewrite Ep. simpl. eexists. split; [done|].
    destruct (touched_lookup _ _ mf r Ht Hr) as (r' & Hr' & Hs). split; [|eapply keeps_trans; [exact K1|]; split; try done; intros k x Hk Hx; left; split; [done|by exists x]].
    eapply repack; try done; simpl; [apply H1|].
    eapply flow_perm; [eapply (flow_move _ _ (locs (with_icnt_L2 u q)) _ _ _ _ _ h mf Up Down r' r'); try done| |done|done].
    + eapply flow_perm; [apply H1| |done|done]. places. rewrite Ei. places.
    + apply (pa_flow _ _ _ _ H1).
    + apply (place_ok_same c n_shader Down r); [done|by split].
    + intros Hhd. by destruct (HH Hhd) as [|[|]].
    + unfold of_ruby. rewrite (same_type _ _ Hs). intros Hof. by destruct (Hru Hof).
    + places. rewrite Ei2. places.
Qed.

Lemma partition_cache_cycle_ok t0 u cycle : partition_ok c n_shader t0 u -> t0 <= t -> step_ok c n_shader t u (partition_cache_cycle c clk cycle u).
Proof using Hc Htime.
  intros Hu Hle. apply (partition_ok_later _ _ t0 t) in Hu; [|done]. unfold partition_cache_cycle.
  apply step_ok_bind; [by apply fill_responses_ok|]. intros u1 H1.
  apply step_ok_bind; [by apply from_dram_ok|]. intros u2 H2.
  apply step_ok_bind; [by apply L2_cycle_ok|]. intros u3 H3.
  apply step_ok_bind; [by apply from_icnt_ok|]. intros u4 H4. by apply from_rop_ok.
Qed.
End cycle.
