(* ===== verification/PartitionRun.v ===== *)
(** * Runs of a memory partition

    What the interconnect and Ruby do with a partition, in any order with its cycles: no
    operation fails, every request that expects an answer is answered exactly once, and
    every message of Ruby comes back exactly once. *)

From Stdlib Require Import Ascii String.
From S2P Require Import Prelude Coalesce GpuMisc AddrDec TagArray Mshr MemFetch GpuCache GpuCacheInv GpuCacheRun DelayQueue MemStats FrFcfs Dram.
From S2P Require Import DramServe FetchFrames CacheTraffic Partition PartitionFlow PartitionInv PartitionCache PartitionAccess.

(** The requests inside that expect an answer. *)
Definition expects_answer (h : heap) (q : Z) : bool := match objects h !! q with Some r => negb (write_back r) | None => false end.
Definition awaited (u : partition) : list Z := filter (fun q => expects_answer (u_heap u) q = true) (elements (tracker u)).

Lemma elem_awaited u q : q ∈ awaited u <-> q ∈ tracker u /\ expects_answer (u_heap u) q = true.
Proof. unfold awaited. rewrite list_elem_of_filter, elem_of_elements. tauto. Qed.
Lemma awaited_once u : NoDup (awaited u).
Proof. apply NoDup_filter, NoDup_elements. Qed.

Section run.
Context (c : partition_config) (n_shader : Z).
Abbreviation dc := (pc_dram c).
Abbreviation pl2 := (pc_L2 c).
Implicit Types (u : partition) (t : Z).
Abbreviation ok := (partition_ok c n_shader).

(** What the interconnect may deliver: a request of a core that the channel and the cache
    can take, which is not inside already; the latency table has 24 entries. *)
Record arrives u (clk : gpu_clock) (mf : Z) (r : mem_fetch) (timestamp : Z) : Prop := {
  ar_live : objects (u_heap u) !! mf = Some r;
  ar_fresh : (mf ∉ (locs u).*1) /\ (mf ∉ held u);
  ar_routed : routed c n_shader r;
  ar_request : waits_reply r /\ of_core r /\ (write_back r = true -> get_is_write r = true);
  ar_cache : L2_disabled c = false -> cacheable c r;
  ar_latency : gpgpu_memlatency_stat (m_stats (u_channel u)) = true -> u32 (now clk - timestamp) < 2 ^ 24 }.

(** [ins] are the requests pushed that expect an answer, [outs] those popped; [sent] and
    [back] are the messages Ruby put in and took out; [t] is the last time at which the
    cache was used. *)
Inductive runs : list Z → list Z → list Z → list Z → Z → partition → Prop :=
  | runs_start id h aggr st ic u : partition_new c id h aggr st ic interface_new = Ok u -> 0 <= id < m_n_mem dc -> heap_ok h -> has_bins aggr ->
      stats_ok (m_n_mem dc) (nbk dc) st -> m_n_shader st = n_shader -> zlen (icnt2mem_lat_table ic) = 24 -> runs [] [] [] [] 0 u
  | runs_push ins outs sent back t u clk mf r timestamp cycle u' : runs ins outs sent back t u -> partition_full u = false ->
      arrives u clk mf r timestamp -> partition_push c clk u (Some mf) timestamp cycle = Ok u' ->
      runs (if write_back r then ins else mf :: ins) outs sent back t u'
  | runs_pop ins outs sent back t u o u' : runs ins outs sent back t u -> partition_pop u = Ok (o, u') -> runs ins (option_list o ++ outs) sent back t u'
  | runs_top ins outs sent back t u o u' : runs ins outs sent back t u -> partition_top u = Ok (o, u') -> runs ins outs sent back t u'
  | runs_cache_cycle ins outs sent back t u clk cycle u' : runs ins outs sent back t u -> t <= now clk -> time_ok (now clk) ->
      partition_cache_cycle c clk cycle u = Ok u' -> runs ins outs sent back (now clk) u'
  | runs_dram_cycle ins outs sent back t u clk u' : runs ins outs sent back t u -> partition_dram_cycle c clk u = Ok u' -> runs ins outs sent back t u'
  | runs_flush ins outs sent back t u clk u' : runs ins outs sent back t u -> t <= now clk -> time_ok (now clk) -> (forall q, ~ fills u q) ->
      flushL2 c clk u = Ok u' -> runs ins outs sent back (now clk) u'
  | runs_enqueue ins outs sent back t u m : runs ins outs sent back t u ->
      runs ins outs (next_message (u_ruby u) :: sent) back t (with_ruby u (di_enqueue (u_ruby u) m) (ruby_msg u))
  | runs_dequeue ins outs sent back t u p l d : runs ins outs sent back t u -> m_response_queue (u_ruby u) = p :: l -> di_dequeue (u_ruby u) = Ok d ->
      runs ins outs sent (p :: back) t (with_ruby u d (ruby_msg u))
  | runs_wakeup ins outs sent back t u : runs ins outs sent back t u -> runs ins outs sent back t (with_ruby u (di_wakeup (u_ruby u)) (ruby_msg u))
  | runs_others ins outs sent back t u h st ic : runs ins outs sent back t u -> heap_ok h ->
      (forall q, q ∈ (locs u).*1 \/ q ∈ held u -> objects h !! q = objects (u_heap u) !! q) -> stats_ok (m_n_mem dc) (nbk dc) st -> m_n_shader st = n_shader ->
      zlen (icnt2mem_lat_table ic) = 24 ->
      runs ins outs sent back t (with_icnt (with_channel u (with_stats (with_fetches (u_channel u) h) st)) ic).

(** ** The operations from outside *)

Lemma keeps_awaited t u u' : ok t u -> ok t u' -> keeps u u' -> awaited u' ≡ₚ awaited u.
Proof using.
  intros Hu Hu' [K1 K2 _ _]. apply NoDup_Permutation; [apply awaited_once..|]. intros q. rewrite !elem_awaited. unfold expects_answer. split.
  - intros [Hq He]. assert (q ∈ tracker u) as Hqu by set_solver.
    destruct (fl_track _ _ _ _ _ _ _ _ (pa_flow _ _ _ _ Hu) q Hqu) as (_ & r & Hr & _). destruct (K2 q r Hqu Hr) as [(_ & r' & Hr' & Et)|[_ ?]]; [|done].
    rewrite Hr. rewrite Hr', (wb_type _ _ Et) in He. done.
  - intros [Hq He]. destruct (objects (u_heap u) !! q) as [r|] eqn:Hr; [|done]. destruct (K2 q r Hq Hr) as [(Hq' & r' & Hr' & Et)|[Hw _]].
    + split; [done|]. by rewrite Hr', (wb_type _ _ Et).
    + by rewrite Hw in He.
Qed.

Ltac places := unfold locs, at_place, miss_queue; simpl; rewrite ?fmap_app; simpl; rewrite ?fmap_app; simpl; try solve_Permutation.

(** [u] with [mf] under way. *)
Lemma push_flow t u clk mf r ts : ok t u -> arrives u clk mf r ts ->
  flow c n_shader ((mf, Up) :: locs u) (held u) (fills u) ({[mf]} ∪ tracker u) (ruby_msg u) (u_heap u).
Proof using.
  intros Hu [A1 [A2 A2'] A3 (A4 & A5 & A6) A7 _]. pose proof (pa_flow _ _ _ _ Hu) as F.
  eapply (flow_enter _ _ _ _ _ (tracker u) _ (ruby_msg u)); [exact F|done|done|exact A1| | | | | |set_solver|done|].
  - by split_and!.
  - by destruct A5 as (_ & ? & _).
  - by destruct A5 as (_ & _ & ?).
  - left. set_solver.
  - intros k Hk. destruct (decide (k = mf)) as [->|]; [by right|left; set_solver].
  - intros Hm. by destruct (fl_msg _ _ _ _ _ _ _ _ F mf Hm).
Qed.

Lemma icnt_pop_ok t u clk ts T : ok t u -> (gpgpu_memlatency_stat (m_stats (u_channel u)) = true -> u32 (now clk - ts) < 2 ^ 24) ->
  exists ic, memlatstat_icnt2mem_pop clk ts (with_channel u (with_tracker (u_channel u) T)) =
      Ok (with_icnt (with_channel u (with_tracker (u_channel u) T)) ic) /\ zlen (icnt2mem_lat_table ic) = 24.
Proof using.
  intros Hu Hl. pose proof (pa_icnt _ _ _ _ Hu) as Hi. unfold memlatstat_icnt2mem_pop. simpl.
  destruct (gpgpu_memlatency_stat _); [|exists (u_icnt u); by destruct u]. specialize (Hl eq_refl). set (lat := u32 (now clk - ts)) in *.
  assert (0 <= lat) as H0 by (apply uwrap_range; lia). assert (0 <= LOGB2 lat < zlen (icnt2mem_lat_table (u_icnt u))) as Hr.
  { rewrite LOGB2_spec by lia. rewrite Hi. split; [apply Z.log2_nonneg|]. destruct (Z.eq_dec lat 0) as [->|]; [done|]. apply Z.log2_lt_pow2; lia. }
  destruct (aread_in _ _ Hr) as (x & _ & ->). simpl. rewrite awrite_in by done. simpl. eexists. split; [done|]. simpl. by rewrite zlen_zwrite.
Qed.

Lemma icnt_ok t u ic : ok t u -> zlen (icnt2mem_lat_table ic) = 24 -> ok t (with_icnt u ic).
Proof. intros [A1 A2 A3 A4 A5 [] A7] Hi. by split. Qed.

(** What an operation from outside leaves to Ruby. *)
Definition same_ruby u u' : Prop := ruby_inside u' ≡ₚ ruby_inside u /\ messages (u_ruby u') = messages (u_ruby u) /\ next_message (u_ruby u') = next_message (u_ruby u).
Lemma keeps_same_ruby u u' : keeps u u' -> same_ruby u u'.
Proof. by intros [_ _ ? [? ?]]. Qed.

Lemma awaited_push u u' mf r : objects (u_heap u) !! mf = Some r -> (mf ∉ tracker u) -> u_heap u' = u_heap u -> tracker u' = {[mf]} ∪ tracker u ->
  awaited u' ≡ₚ (if write_back r then [] else [mf]) ++ awaited u.
Proof.
  intros Hr Hn Eh Et. apply NoDup_Permutation; [apply awaited_once| |].
  - destruct (write_back r); simpl; [apply awaited_once|]. constructor; [|apply awaited_once]. by intros [? _]%elem_awaited.
  - intros q. rewrite elem_of_app, !elem_awaited, Eh, Et, elem_of_union, elem_of_singleton. unfold expects_answer.
    destruct (write_back r) eqn:Ew; [rewrite elem_of_nil|rewrite list_elem_of_singleton].
    + split; [|tauto]. intros [[->|?] He]; [|tauto]. by rewrite Hr, Ew in He.
    + split; [tauto|]. intros [->|?]; [|tauto]. rewrite Hr, Ew. auto.
Qed.

Lemma partition_push_ok t u clk mf r ts cycle : ok t u -> partition_full u = false -> arrives u clk mf r ts ->
  exists u', partition_push c clk u (Some mf) ts cycle = Ok u' /\ ok t u' /\ awaited u' ≡ₚ (if write_back r then [] else [mf]) ++ awaited u /\ same_ruby u u'.
Proof.
  intros Hu Hf Ha. pose proof (push_flow t u clk mf r ts Hu Ha) as F. destruct Ha as [A1 [A2 A2'] A3 A4 A5 A6].
  unfold partition_push. set (T := {[mf]} ∪ m_request_tracker (u_channel u)).
  destruct (icnt_pop_ok t u clk ts T Hu A6) as (ic & -> & Hic). simpl. unfold deref at 1. rewrite A1. simpl.
  pose proof (icnt_ok t u ic Hu Hic) as Hu1. destruct (pa_queues _ _ _ _ Hu) as (Q1 & Q2 & Q3 & Q4).
  assert (mf ∉ tracker u) as HT. { intros HT. by destruct (fl_track _ _ _ _ _ _ _ _ (pa_flow _ _ _ _ Hu) mf HT) as [[?|?] _]. }
  assert (forall u1, m_L2cache u1 = m_L2cache u -> queues_ok u1 -> u_channel u1 = with_tracker (u_channel u) T -> u_icnt u1 = ic -> u_ruby u1 = u_ruby u ->
    ruby_msg u1 = ruby_msg u -> locs u1 ≡ₚ (mf, Up) :: locs u -> forall st, exists u', touch u1 st (now clk) mf = Ok u' /\ ok t u' /\
      awaited u' ≡ₚ (if write_back r then [] else [mf]) ++ awaited u /\ same_ruby u u') as Hfin.
  { intros u1 E1 Hq E2 E3 E4 E5 HL st. assert (ok t u1) as H1.
    { eapply (repack _ _ t (with_icnt u ic)); try done; rewrite ?E2; [apply dram_ok_tracker, Hu|done|]. eapply flow_perm; [exact F|by rewrite HL|done|done]. }
    destruct (partition_touch_ok c n_shader t u1 st (now clk) mf H1) as (h & -> & _ & H2 & K2); [left; rewrite HL; left|].
    eexists. split; [done|]. split; [done|]. split.
    - rewrite (keeps_awaited t u1 _ H1 H2 K2). by eapply awaited_push; rewrite ?E2.
    - destruct (keeps_same_ruby _ _ K2) as (R1 & R2 & R3). unfold same_ruby. rewrite R1, R2, R3. unfold ruby_inside. by rewrite E4, E5. }
  destruct (istexture r).
  - destruct (queue_push _ mf Q1 Hf) as (q & -> & Hq & Ei). simpl. apply Hfin; try done. places. rewrite Ei. places.
  - apply Hfin; try done. places.
Qed.

Lemma awaited_pop u u' mf r : objects (u_heap u) !! mf = Some r -> write_back r = false -> mf ∈ tracker u -> u_heap u' = u_heap u ->
  tracker u' = tracker u ∖ {[mf]} -> awaited u ≡ₚ mf :: awaited u'.
Proof.
  intros Hr Hw Hin Eh Et. apply NoDup_Permutation; [apply awaited_once| |].
  - constructor; [|apply awaited_once]. rewrite elem_awaited, Et. set_solver.
  - intros q. rewrite elem_of_cons, !elem_awaited, Eh, Et, elem_of_difference, elem_of_singleton. unfold expects_answer.
    destruct (Z.eq_dec q mf) as [->|]; [rewrite Hr, Hw|]; tauto.
Qed.

Lemma partition_pop_ok t u : ok t u -> exists o u', partition_pop u = Ok (o, u') /\ partition_top u = Ok (o, u) /\ ok t u' /\
  awaited u ≡ₚ option_list o ++ awaited u' /\ same_ruby u u' /\
  forall mf, o = Some mf -> exists r, objects (u_heap u') !! mf = Some r /\ is_reply r /\ of_core r.
Proof.
  intros Hu. destruct (pa_queues _ _ _ _ Hu) as (Q1 & Q2 & Q3 & Q4). unfold partition_pop, partition_top. destruct (queue_pop _ Q4) as (q & -> & Hq & Ei).
  assert (top (m_L2_icnt_queue u) = head (items (m_L2_icnt_queue u))) as -> by (apply solid_top, Q4).
  destruct (items (m_L2_icnt_queue u)) as [|mf l] eqn:El; simpl in *.
  - exists None, (with_L2_icnt u q). split_and!; try done. eapply (repack_perm c n_shader t u); try done. places. by rewrite El, <- Ei.
  - assert ((mf, Out) ∈ locs u) as Hin by (apply locs_out; rewrite El; left). pose proof (pa_flow _ _ _ _ Hu) as F.
    destruct (fl_places _ _ _ _ _ _ _ _ F mf Out Hin) as [(r & Hr & (Hp1 & Hp2 & Hp3) & Hal & Hru & Htr) HH].
    unfold deref. rewrite Hr. simpl. assert (is_write_back r = false) as ->.
    { unfold is_write_back. unfold write_back in Hp2. by rewrite orb_comm. }
    assert (mf ∈ tracker u) as HT. { destruct Hp3 as (_ & ? & ?). destruct Htr as [?|[?|[?|?]]]; [done|congruence|done|done]. }
    assert (forall l, ok t (with_atomics (untrack (with_L2_icnt u q) mf) l)) as Hok.
    { intros l'. eapply repack; try done; simpl; [apply (dram_ok_tracker c), Hu|].
      eapply flow_perm; [eapply (flow_leave c n_shader (locs (with_L2_icnt u q)) (held u) (fills u) (tracker u) _ (ruby_msg u) (ruby_msg u) (u_heap u) _ mf Out)| |done|done].
      - eapply flow_perm; [exact F| |done|done]. places. rewrite El. simplify_eq. places.
      - apply F.
      - intros Hh. by destruct (HH Hh) as [|[|]].
      - done.
      - set_solver.
      - intros k. case_decide as Hk; [subst k|done]. apply eq_None_not_Some. intros (_ & x & Hx & Hof)%(fl_msg _ _ _ _ _ _ _ _ F).
        assert (x = r) as -> by congruence. by destruct (Hru Hof).
      - places. }
    eexists (Some mf), _. split; [done|]. split; [done|]. split.
    { destruct (isatomic r); [apply Hok|]. apply (Hok (do_atomics u)). }
    split; [eapply awaited_pop; try done; by destruct (isatomic r)|]. split; [by destruct (isatomic r)|].
    intros k [= <-]. exists r. by destruct (isatomic r).
Qed.

Lemma with_ruby_ok t u d : ok t u -> ruby_ok (with_ruby u d (ruby_msg u)) -> ok t (with_ruby u d (ruby_msg u)).
Proof. intros [A1 A2 A3 A4 A5 A6 A7] Hr. by split. Qed.

Lemma enqueue_ok t u m : ok t u -> let u' := with_ruby u (di_enqueue (u_ruby u) m) (ruby_msg u) in
  ok t u' /\ ruby_inside u' ≡ₚ next_message (u_ruby u) :: ruby_inside u.
Proof.
  intros Hu u'. assert (ruby_inside u' ≡ₚ next_message (u_ruby u) :: ruby_inside u) as HP by (unfold ruby_inside, u'; simpl; solve_Permutation).
  split; [|done]. apply with_ruby_ok; [done|]. fold u'. destruct (pa_ruby _ _ _ _ Hu) as [R1 R2 R3]. split.
  - rewrite HP. constructor; [|done]. intros Hin. specialize (R3 _ Hin). lia.
  - intros p. rewrite HP. simpl. rewrite lookup_insert. case_decide; [by eexists|]. intros [?|?]%elem_of_cons; [congruence|auto].
  - intros p. rewrite HP. simpl. intros [->|Hp%R3]%elem_of_cons; lia.
Qed.
Lemma dequeue_ok t u p l d : ok t u -> m_response_queue (u_ruby u) = p :: l -> di_dequeue (u_ruby u) = Ok d ->
  ok t (with_ruby u d (ruby_msg u)) /\ ruby_inside u ≡ₚ p :: ruby_inside (with_ruby u d (ruby_msg u)).
Proof.
  intros Hu Er E. unfold di_dequeue in E. rewrite Er in E. injection E as <-. set (u' := with_ruby _ _ _).
  assert (ruby_inside u ≡ₚ p :: ruby_inside u') as HP by (unfold ruby_inside, u'; simpl; rewrite Er; solve_Permutation).
  split; [|done]. apply with_ruby_ok; [done|]. fold u'. destruct (pa_ruby _ _ _ _ Hu) as [R1 R2 R3]. rewrite HP in R1. apply NoDup_cons in R1 as [R1 R1']. split.
  - done.
  - intros k Hk. simpl. rewrite lookup_delete_ne by (by intros ->). apply R2. rewrite HP. by right.
  - intros k Hk. simpl. apply R3. rewrite HP. by right.
Qed.
Lemma wakeup_ok t u : ok t u -> let u' := with_ruby u (di_wakeup (u_ruby u)) (ruby_msg u) in ok t u' /\ ruby_inside u' ≡ₚ ruby_inside u.
Proof.
  intros Hu u'. assert (ruby_inside u' ≡ₚ ruby_inside u) as HP.
  { unfold ruby_inside, u', di_wakeup. simpl. destruct (m_input_queue (u_ruby u)) as [|p l] eqn:E; simpl; [by rewrite E|]. solve_Permutation. }
  split; [|done]. apply with_ruby_ok; [done|]. fold u'. apply (ruby_ok_perm u); [apply Hu|done|..]; unfold u', di_wakeup; simpl; by destruct (m_input_queue (u_ruby u)).
Qed.

Lemma others_ok t u h st ic : ok t u -> heap_ok h -> (forall q, q ∈ (locs u).*1 \/ q ∈ held u -> objects h !! q = objects (u_heap u) !! q) ->
  stats_ok (m_n_mem dc) (nbk dc) st -> m_n_shader st = n_shader -> zlen (icnt2mem_lat_table ic) = 24 ->
  let u' := with_icnt (with_channel u (with_stats (with_fetches (u_channel u) h) st)) ic in ok t u' /\ keeps u u'.
Proof.
  intros Hu Hh Ho Hst Hn Hi u'. pose proof (pa_flow _ _ _ _ Hu) as F. split.
  - apply icnt_ok; [|done]. assert (flow c n_shader (locs u) (held u) (fills u) (tracker u) (ruby_msg u) h) as F'.
    { eapply flow_objects; [exact F|done|]. intros q r Hq Hr. exists r. rewrite Ho by done. split; [done|]. by split_and!. }
    destruct Hu as [A1 A2 A3 A4 A5 A6 A7]. split; try done.
    + assert (dram_ok dc (with_fetches (u_channel u) h)) as Hd.
      { apply dram_ok_heap; [done|done|]. intros q r Hq Hr. exists r. rewrite Ho; [done|]. left. by apply (locs_fst _ _ Fly), locs_fly. }
      destruct Hd. by split.
    + by eapply L2_ok_heap.
    + destruct A6. by split.
  - split; try done. intros q r Hq Hr. left. split; [done|]. exists r. simpl. rewrite Ho; [done|]. by apply (fl_track _ _ _ _ _ _ _ _ F).
Qed.

Section started.
Context (Hc : config_fits c n_shader).

Lemma flush_ok t u clk : ok t u -> t <= now clk -> time_ok (now clk) -> (forall q, ~ fills u q) -> L2_disabled c = false ->
  exists u', flushL2 c clk u = Ok u' /\ ok (now clk) u' /\ keeps u u'.
Proof using Hc.
  intros Hu Hle Ht Hf Hd. destruct (L2_state c n_shader t u Hu Hd) as (s & Es & EL & Hco & Hmp & Hfi). destruct (cg_L2 _ _ Hc Hd) as (Hp & _).
  assert (m_extra_mf_fields s = ∅) as Ex.
  { apply map_empty. intros q. apply eq_None_not_Some. intros Hq. apply (Hf q). unfold fills. by rewrite Es. }
  destruct (cache_flush_spec pl2 Hp _ t (now clk) Hco Hle Ht Ex) as (s' & E & Hco' & _). unfold flushL2. rewrite EL. simpl. rewrite E. simpl.
  unfold cache_flush in E. simpl in E. ok_inv. rename x into tg. subst s'. eexists. split; [done|]. pose proof (pa_flow _ _ _ _ Hu) as F. split.
  - eapply (repack_L2 c n_shader t (now clk) u _ _ (u_heap u)); try done; [apply Hu|apply (touched_dram_ok c (u_channel u)); [apply Hu|apply touched_refl|apply F]|].
    eapply flow_perm; [exact F|..]; [places|unfold held|unfold fills]; simpl; by rewrite Es.
  - split; try done. intros q r Hq Hr. left. split; [done|]. by exists r.
Qed.

Lemma partition_new_ok id h aggr st ic : 0 <= id < m_n_mem dc -> heap_ok h -> has_bins aggr -> stats_ok (m_n_mem dc) (nbk dc) st ->
  m_n_shader st = n_shader -> zlen (icnt2mem_lat_table ic) = 24 ->
  exists u, partition_new c id h aggr st ic interface_new = Ok u /\ ok 0 u /\ awaited u = [] /\ ruby_inside u = [].
Proof using Hc.
  intros Hid Hh Ha Hst Hn Hi. destruct (dram_new_ok dc (cg_dram _ _ Hc) id h st Hid Hh Hst) as (d & Ed & Hd). destruct (Hd ∅) as [Hd1 Hd2].
  unfold partition_new. rewrite Ed, bind_of_ok.
  assert (exists s, (if L2_disabled c then mret None else s ← data_cache_new pl2 h aggr; mret (Some s)) = Ok s /\
    match s with Some s => L2_disabled c = false /\ cache_ok pl2 s 0 /\ c_heap s = h /\ memport s = [] /\ m_miss_queue s = [] /\
      m_extra_mf_fields s = ∅ /\ Mshr.waiting (c_mshrs s) = [] | None => L2_disabled c = true end) as (s & -> & Hs).
  { destruct (L2_disabled c) eqn:El; [by exists None|]. destruct (cg_L2 _ _ Hc El) as (Hp & Hro & _).
    destruct (baseline_new_spec pl2 Hp h aggr Hh Ha) as (s & E & Hok & Hw & Hx). exists (Some s). unfold data_cache_new. rewrite E. simpl.
    rewrite bool_decide_eq_false_2 by done. simpl. split; [done|]. unfold baseline_new in E. ok_inv. subst s. by split_and!. }
  rewrite bind_of_ok. destruct (cg_queues _ _ Hc) as (n1 & n2 & n3 & n4 & -> & H1 & H2 & H3 & H4).
  destruct (fifo_new_wf (A := Z) 0 n1) as (q1 & E1 & _); [lia|lia|]. destruct (fifo_new_wf (A := Z) 0 n2) as (q2 & E2 & _); [lia|lia|].
  destruct (fifo_new_wf (A := Z) 0 n3) as (q3 & E3 & _); [lia|lia|]. destruct (fifo_new_wf (A := Z) 0 n4) as (q4 & E4 & _); [lia|lia|].
  rewrite E1, E2, E3, E4. simpl. destruct (queue_new _ _ H1 E1), (queue_new _ _ H2 E2), (queue_new _ _ H3 E3), (queue_new _ _ H4 E4).
  eexists. split; [done|]. set (u := mkPartition _ _ _ _ _ _ _ _ _ _ _ _).
  assert (locs u = []) as EL.
  { unfold locs, miss_queue, u. simpl. rewrite Hd2. assert (match s with Some s0 => m_miss_queue s0 | None => [] end = []) as -> by (destruct s; tauto). repeat match goal with E : items _ = [] |- _ => rewrite E end. done. }
  assert (held u = []) as EH by (unfold held, u; simpl; by destruct s as [s|]; [destruct Hs as (_ & _ & _ & _ & _ & _ & ?)|]).
  assert (forall q, ~ fills u q) as EX.
  { intros q. unfold fills, u. simpl. destruct s as [s|]; [|tauto]. destruct Hs as (_ & _ & _ & _ & _ & -> & _). rewrite lookup_empty. by intros [? ?]. }
  split; [|done]. split; try done.
  - unfold L2_ok, u. simpl. destruct s as [s|]; [|done]. destruct Hs as (? & Hok & Eh & ? & _ & Ex & _). split_and!; try done.
    + rewrite <- Eh. by destruct s.
    + intros q e. by rewrite Ex, lookup_empty.
  - rewrite EL, EH. split; try done.
    + constructor.
    + by intros q pl ?%not_elem_of_nil.
    + constructor.
    + by intros q ?%not_elem_of_nil.
    + intros q. split; [by intros ?%EX|by intros [?%not_elem_of_nil _]].
    + intros q [x Hq]. done.
  - split; unfold ruby_inside; simpl; rewrite ?map_to_list_empty; simpl; [constructor|by intros p ?%not_elem_of_nil..].
Qed.

Lemma runs_ok ins outs sent back t u : runs ins outs sent back t u ->
  ok t u /\ ins ≡ₚ outs ++ awaited u /\ sent ≡ₚ back ++ ruby_inside u.
Proof using Hc.
  induction 1 as [id h aggr st ic u E ? ? ? ? ? ?|ins outs sent back t u clk mf r ts cycle u' _ (IH & I1 & I2) Hf Ha E
    |ins outs sent back t u o u' _ (IH & I1 & I2) E|ins outs sent back t u o u' _ (IH & I1 & I2) E
    |ins outs sent back t u clk cycle u' _ (IH & I1 & I2) Hle Ht E|ins outs sent back t u clk u' _ (IH & I1 & I2) E
    |ins outs sent back t u clk u' _ (IH & I1 & I2) Hle Ht Hfi E|ins outs sent back t u m _ (IH & I1 & I2)
    |ins outs sent back t u p l d _ (IH & I1 & I2) Er E|ins outs sent back t u _ (IH & I1 & I2)|ins outs sent back t u h st ic _ (IH & I1 & I2) ? ? ? ? ?].
  - destruct (partition_new_ok id h aggr st ic) as (u1 & E1 & Hu & A1 & A2); try done. assert (u1 = u) as -> by congruence.
    by rewrite A1, A2.
  - destruct (partition_push_ok t u clk mf r ts cycle IH Hf Ha) as (u1 & E1 & H1 & P1 & R1 & _). assert (u1 = u') as -> by congruence.
    split; [done|]. rewrite R1, P1. split; [|done]. destruct (write_back r); [done|]. rewrite I1. apply Permutation_middle.
  - destruct (partition_pop_ok t u IH) as (o1 & u1 & E1 & _ & H1 & P1 & (R1 & _) & _). rewrite E in E1. injection E1 as <- <-.
    split; [done|]. rewrite R1. split; [|done]. rewrite I1, P1. by rewrite !app_assoc, (Permutation_app_comm outs).
  - destruct (partition_pop_ok t u IH) as (o1 & u1 & _ & E1 & _). rewrite E in E1. by injection E1 as <- ->.
  - destruct (partition_cache_cycle_ok c n_shader Hc clk Ht t u cycle IH Hle) as (u1 & E1 & H1 & K1). assert (u1 = u') as -> by congruence.
    split; [done|]. rewrite (ke_ruby _ _ K1). rewrite (keeps_awaited (now clk) u u'); [done|by eapply partition_ok_later|done|done].
  - destruct (partition_dram_cycle_ok c n_shader Hc t u clk IH) as (u1 & E1 & H1 & K1). assert (u1 = u') as -> by congruence.
    split; [done|]. by rewrite (ke_ruby _ _ K1), (keeps_awaited t u u').
  - destruct (L2_disabled c) eqn:Ed.
    + exfalso. pose proof (pa_L2 _ _ _ _ IH) as HL. unfold L2_ok, flushL2, L2 in *. destruct (m_L2cache u); [|done]. by destruct HL; congruence.
    + destruct (flush_ok t u clk IH Hle Ht Hfi Ed) as (u1 & E1 & H1 & K1). assert (u1 = u') as -> by congruence.
      split; [done|]. rewrite (ke_ruby _ _ K1). rewrite (keeps_awaited (now clk) u u'); [done|by eapply partition_ok_later|done|done].
  - destruct (enqueue_ok t u m IH) as [H1 P1]. split; [done|]. split; [done|]. rewrite P1, I2. apply Permutation_middle.
  - destruct (dequeue_ok t u p l d IH Er E) as [H1 P1]. split; [done|]. split; [done|]. rewrite I2, P1. symmetry. apply Permutation_middle.
  - destruct (wakeup_ok t u IH) as [H1 P1]. split; [done|]. split; [done|]. by rewrite P1.
  - destruct (others_ok t u h st ic IH) as [Hk K1]; try done. split; [done|]. by rewrite (ke_ruby _ _ K1), (keeps_awaited t u _ IH Hk K1).
Qed.

(** C7: A memory partition loses no request, answers none twice and never stops, in any
    order of arrivals, cycles of the cache and of the DRAM, answers taken, flushes and
    messages of Ruby that satisfies the following: requests are delivered when the unit
    is not full, live, routed to the channel, of the access types of the cores (not the
    L2's own write-backs and allocating reads, nor Ruby's), L1 write-backs being writes,
    no larger than an L2 line, atomics being global reads under allocation on a miss,
    not inside already, and under 2^24 cycles old when latencies are recorded; the L2 is
    flushed only with no fill outstanding; cycle numbers do not decrease and stay below
    2^31; and the configuration fits (config_fits). Every request pushed that expects an
    answer was popped or is still inside, exactly once; every message Ruby sent came
    back or is inside, exactly once; the two cycles, pop, top and an allowed push meet
    no failed assertion and no dangling pointer; top and pop show the same request,
    which carries its reply; and when the unit is not busy, every request was answered.
    The conditions are needed: the examples flush_breaks_fill, allocating_read_lost,
    write_back_of_L1_refused and latency_table_overrun show what the code does without
    them. *)
Theorem partition_serves_requests ins outs sent back t u : runs ins outs sent back t u ->
  ins ≡ₚ outs ++ awaited u /\ sent ≡ₚ back ++ ruby_inside u /\
  (forall clk cycle, t <= now clk -> time_ok (now clk) -> is_ok (partition_cache_cycle c clk cycle u)) /\
  (forall clk, is_ok (partition_dram_cycle c clk u)) /\
  (exists o u', partition_pop u = Ok (o, u') /\ partition_top u = Ok (o, u) /\
     forall mf, o = Some mf -> exists r, objects (u_heap u') !! mf = Some r /\ is_reply r) /\
  (forall clk mf r timestamp cycle, partition_full u = false -> arrives u clk mf r timestamp -> is_ok (partition_push c clk u (Some mf) timestamp cycle)) /\
  (busy u = false -> ins ≡ₚ outs).
Proof using Hc.
  intros (Hu & H1 & H2)%runs_ok. split_and!; [done|done|..].
  - intros clk cycle Hle Ht. destruct (partition_cache_cycle_ok c n_shader Hc clk Ht t u cycle Hu Hle) as (u1 & -> & _). by eexists.
  - intros clk. destruct (partition_dram_cycle_ok c n_shader Hc t u clk Hu) as (u1 & -> & _). by eexists.
  - destruct (partition_pop_ok t u Hu) as (o & u' & E1 & E2 & _ & _ & _ & Hr). exists o, u'. split_and!; try done.
    intros mf Ho. destruct (Hr mf Ho) as (r & ? & ? & _). by exists r.
  - intros clk mf r ts cycle Hf Ha. destruct (partition_push_ok t u clk mf r ts cycle Hu Hf Ha) as (u1 & -> & _). by eexists.
  - unfold busy. intros Hb. apply negb_false_iff, bool_decide_eq_true in Hb. rewrite H1. unfold awaited. rewrite Hb, elements_empty. simpl. by rewrite app_nil_r.
Qed.

(** C8: Every state a memory partition reaches, where requests are delivered when the
    unit is not full, live, routed to the channel, of the access types of the cores (not
    the L2's own write-backs and allocating reads, nor Ruby's), L1 write-backs being
    writes, no larger than an L2 line, atomics being global reads under allocation on a
    miss, not inside already, and under 2^24 cycles old when latencies are recorded; the
    L2 is flushed only with no fill outstanding; cycle numbers do not decrease and stay
    below 2^31; and the configuration fits (config_fits), is well formed: each request
    inside is in one place and is of the kind that belongs there; the reads waiting in
    the L2 cache are live, and fill a line exactly while they are on their way through
    the DRAM; the tracker contains requests of cores that are inside, and all of those
    that expect an answer; the L2 cache and the DRAM channel are in order. *)
Theorem partition_state_well_formed ins outs sent back t u : runs ins outs sent back t u ->
  NoDup (locs u).*1 /\ NoDup (held u) /\
  (forall q pl, (q, pl) ∈ locs u -> exists r, objects (u_heap u) !! q = Some r /\ place_ok c n_shader pl r) /\
  (forall q, q ∈ held u -> exists r, objects (u_heap u) !! q = Some r /\ held_ok r) /\
  (forall q, fills u q <-> q ∈ held u /\ q ∈ (locs u).*1) /\
  (forall q, q ∈ tracker u -> (q ∈ (locs u).*1 \/ q ∈ held u) /\ exists r, objects (u_heap u) !! q = Some r /\ of_core r) /\
  (forall q r, q ∈ (locs u).*1 \/ q ∈ held u -> objects (u_heap u) !! q = Some r -> of_core r -> write_back r = false -> q ∈ tracker u) /\
  (forall s, m_L2cache u = Some s -> cache_ok pl2 (with_heap s (u_heap u)) t) /\ dram_ok dc (u_channel u).
Proof using Hc.
  intros (Hu & _)%runs_ok. pose proof (pa_flow _ _ _ _ Hu) as F. split_and!; try apply F; [| | | |apply Hu].
  - intros q pl Hq. destruct (fl_places _ _ _ _ _ _ _ _ F q pl Hq) as [(r & ? & ? & _) _]. by exists r.
  - intros q Hq. destruct (fl_waits _ _ _ _ _ _ _ _ F q Hq) as (r & ? & ? & _). by exists r.
  - intros q r Hq Hr (_ & Hal & Hru) Hw. destruct Hq as [[pl Hq]%elem_fst|Hq].
    + destruct (fl_places _ _ _ _ _ _ _ _ F q pl Hq) as [(x & Hx & _ & _ & _ & Hk) _]. assert (x = r) as -> by congruence.
      destruct Hk as [?|[?|[?|?]]]; [done|congruence|done|done].
    + destruct (fl_waits _ _ _ _ _ _ _ _ F q Hq) as (x & Hx & _ & Hk). assert (x = r) as -> by congruence. tauto.
  - intros s Es. pose proof (pa_L2 _ _ _ _ Hu) as HL. unfold L2_ok in HL. rewrite Es in HL. apply HL.
Qed.
End started.
End run.

(** * A short run *)

(** One channel; the L2 cache of [TagArray.demo_cache]. *)
Definition one_chip : translation :=
  match set_masks (translation_new None 0 false) 1 with Ok t => t | Err _ => translation_new None 0 false end.
Definition demo_L2 : cache_params := mkParams demo_cache IN_PARTITION_L2_MISS_QUEUE one_chip (u32 (-1)) (u32 (-1)).
Definition demo_partition_config : partition_config := mkPart demo_dram_config demo_L2 false 2 3 (list_ascii_of_string "8:8:8:8") true.

(** [n] cycles from time [k], as [gpgpu_sim::cycle] makes them with equal clocks. *)
Fixpoint partition_cycles (n : nat) (c : partition_config) (k : Z) (u : partition) : outcome partition :=
  match n with
  | O => mret u
  | S n' =>
      u ← partition_dram_cycle c (mkClock k 0) u;
      u ← partition_cache_cycle c (mkClock k 0) k u;
      partition_cycles n' c (k + 1) u
  end.
Definition demo_icnt : icnt_stats := mkIcnt 0 (replicate 24 0).
Definition demo_partition : outcome partition :=
  partition_new demo_partition_config 0 demo_fetches (binned_histogram_new 32) (memory_stats_new true 1 1 4) demo_icnt interface_new.

Lemma pack_small m v n : zlen (positions m 0 64) = n -> 0 <= pack m v < 2 ^ n.
Proof.
  intros Hl. destruct (packbits_picks m v 64 0 ltac:(lia)) as [H0 Hp]. change (64 - 0) with 64 in Hp. assert (0 <= n) as Hn by (subst n; apply zlen_nonneg).
  assert (pack m v = pack m v `mod` 2 ^ n) as ->; [|apply Z.mod_pos_bound, Z.pow_pos_nonneg; lia].
  apply Z.bits_inj'. intros k Hk. destruct (Z.lt_ge_cases k n); [by rewrite Z.mod_pow2_bits_low|].
  rewrite Z.mod_pow2_bits_high by lia. rewrite Hp by done. rewrite zread_none; [done|lia].
Qed.

Lemma demo_partition_fits : config_fits demo_partition_config 1.
Proof.
  destruct (builtin_ok 0 10 0x300 0x7FFE000 0x1CFF eq_refl) as [Hok _].
  destruct (set_masks_spec 0 false 1 10 0x300 0x7FFE000 0x1CFF eq_refl Hok ltac:(lia)) as (t & E & _ & Hd).
  assert (one_chip = t) as Et by (unfold one_chip; by rewrite E).
  assert (forall a, 0 <= a < 2 ^ 32 -> is_ok (partition_address one_chip a) /\ exists d, addrdec_tlx one_chip a = Ok d /\ 0 <= chip d < 1 /\ 0 <= bk d < 4) as Hmap.
  { intros a Ha. rewrite Et, (dc_rest _ _ _ _ _ _ Hd a ltac:(lia)). split; [by eexists|]. destruct (dc_tlx _ _ _ _ _ _ Hd a ltac:(lia)) as [bu ->].
    eexists. split; [done|]. simpl. split; [unfold chip_of; rewrite Z.mod_1_r; lia|]. apply (pack_small _ _ 2). vm_compute. reflexivity. }
  split.
  - apply demo_config_ok.
  - intros _. split; [|by split_and!]. split; try done. intros a Ha. destruct (Hmap a Ha) as (? & d & Hd' & _).
    split; [by exists d|done].
  - exact Hmap.
  - done.
  - done.
  - exists 8, 8, 8, 8. split; [vm_compute; reflexivity|lia].
Qed.

Lemma partition_cycles_runs c n_shader n k ins outs sent back t u u' : runs c n_shader ins outs sent back t u -> t <= k -> 0 <= k -> k + Z.of_nat n < 2 ^ 31 ->
  partition_cycles n c k u = Ok u' -> exists t', t' <= k + Z.of_nat n /\ runs c n_shader ins outs sent back t' u'.
Proof.
  revert k t u. induction n as [|n IH]; intros k t u Hr Ht Hk Hn E; cbn [partition_cycles] in E.
  - injection E as <-. exists t. split; [lia|done].
  - ok_inv. assert (now (mkClock k 0) = k) as En by (unfold now; simpl; rewrite Z.add_0_r, uwrap_small; lia).
    match goal with E1 : partition_dram_cycle _ _ u = Ok ?x, E2 : partition_cache_cycle _ _ _ ?x = Ok ?y |- _ =>
      assert (runs c n_shader ins outs sent back (now (mkClock k 0)) y) as H2
        by (eapply runs_cache_cycle; [by eapply runs_dram_cycle| | |exact E2]; unfold time_ok; lia) end.
    rewrite En in H2. destruct (IH (k + 1) k _ H2) as (t' & ? & ?); try done; [lia..|]. exists t'. split; [lia|done].
Qed.

(** A read of a core and a read of Ruby, 60 cycles, and both are taken out. *)
Definition demo_partition_run : outcome (list Z * partition) :=
  u ← demo_partition;
  u ← partition_push demo_partition_config (mkClock 0 0) u (Some 1) 0 0;
  u ← partition_cycles 60 demo_partition_config 1 (with_ruby u (di_enqueue (u_ruby u) (mkMsg 256 true)) (ruby_msg u));
  '(o, u) ← partition_pop u;
  mret (option_list o, u).

Lemma demo_partition_runs l u : demo_partition_run = Ok (l, u) -> exists t, t <= 61 /\ runs demo_partition_config 1 [1] l [1] [] t u.
Proof.
  unfold demo_partition_run. intros H. destruct demo_partition as [u0|] eqn:E0; [|done]. rewrite bind_of_ok in H.
  assert (runs demo_partition_config 1 [] [] [] [] 0 u0) as R0.
  { eapply runs_start; [exact E0|done| |apply has_bins_new|by apply memory_stats_new_ok|done|done].
    intros q r. simpl. rewrite !lookup_insert_Some, lookup_singleton_Some. intros Hq. intuition lia. }
  destruct (partition_push _ _ u0 _ _ _) as [u1|] eqn:E1; [|done]. rewrite bind_of_ok in H.
  assert (arrives demo_partition_config 1 u0 (mkClock 0 0) 1 (demo_fetch 0 (mkAddr 0 0 5 0 0) 32 false) 0) as Ha.
  { vm_compute in E0. injection E0 as <-. split; try done; [split; by intros ?%not_elem_of_nil|split; try done; by right|split_and!; try done; unfold of_core; split_and!; try done; by intros [?|?]]. }
  eapply runs_push in R0; [|by vm_compute in E0; injection E0 as <-|exact Ha|exact E1]. simpl in R0.
  assert (next_message (u_ruby u1) = 1) as Em by (vm_compute in E0; injection E0 as <-; vm_compute in E1; by injection E1 as <-).
  apply (runs_enqueue _ _ _ _ _ _ _ _ (mkMsg 256 true)) in R0. rewrite Em in R0.
  destruct (partition_cycles 60 _ _ _) as [u2|] eqn:E2; [|done]. rewrite bind_of_ok in H.
  destruct (partition_cycles_runs _ _ 60 1 _ _ _ _ 0 _ u2 R0 ltac:(lia) ltac:(lia) ltac:(lia) E2) as (t & Ht & R2).
  destruct (partition_pop u2) as [[o u3]|] eqn:E3; [|done]. rewrite bind_of_ok in H. injection H as <- <-.
  exists t. split; [lia|]. eapply runs_pop in R2; [|exact E3]. by rewrite app_nil_r in R2.
Qed.

Lemma partition_serves_requests_witness : exists u, demo_partition_run = Ok ([1], u) /\ awaited u = [] /\ [1] ≡ₚ ruby_inside u /\ m_response_queue (u_ruby u) = [1] /\
  is_ok (partition_cache_cycle demo_partition_config (mkClock 61 0) 61 u) /\ is_ok (partition_dram_cycle demo_partition_config (mkClock 61 0) u).
Proof.
  assert ((match demo_partition_run with Ok (l, u) => Some (l, awaited u, m_response_queue (u_ruby u)) | Err _ => None end) = Some ([1], [], [1])) as Hv by (vm_compute; reflexivity).
  destruct demo_partition_run as [[l u]|] eqn:E; [|done]. injection Hv as -> Hw Hq. exists u.
  destruct (demo_partition_runs [1] u E) as (t & Ht & Hr).
  destruct (partition_serves_requests demo_partition_config 1 demo_partition_fits _ _ _ _ _ _ Hr) as (_ & Hs & Hcc & Hdc & _).
  split; [done|]. split; [done|]. split; [exact Hs|]. split; [done|]. assert (now (mkClock 61 0) = 61) as En by done.
  split; [apply Hcc; unfold time_ok; rewrite En; lia|apply Hdc].
Defined.

Lemma partition_state_well_formed_witness : exists u, demo_partition_run = Ok ([1], u) /\ NoDup (locs u).*1 /\ dram_ok demo_dram_config (u_channel u).
Proof.
  assert ((match demo_partition_run with Ok (l, _) => l | Err _ => [] end) = [1]) as Hv by (vm_compute; reflexivity).
  destruct demo_partition_run as [[l u]|] eqn:E; [|done]. subst l. exists u. destruct (demo_partition_runs [1] u E) as (t & _ & Hr).
  destruct (partition_state_well_formed demo_partition_config 1 demo_partition_fits _ _ _ _ _ _ Hr) as (Hn & _ & _ & _ & _ & _ & _ & _ & Hd).
  split; [done|]. split; [exact Hn|exact Hd].
Defined.

(** * What the code does not do *)

Definition demo_typed (ty : mem_access_type) (wr : bool) : mem_fetch :=
  mkFetch 0 0 0 MEM_FETCH_INITIALIZED 0 (mem_access_new ty 0 32 wr 0 0) 32 8 0 (mkAddr 0 0 5 0 0) (if wr then WRITE_REQUEST else READ_REQUEST) None.
Definition demo_with (h : heap) : outcome partition :=
  partition_new demo_partition_config 0 h (binned_histogram_new 32) (memory_stats_new true 1 1 4) demo_icnt interface_new.

(** The read with which an L1 cache allocates a line for a write has the access type by
    which the unit knows its own: when it misses in the L2, it is deleted when its block
    is there, and the L1 cache waits for ever. *)
Example allocating_read_lost :
  (u ← demo_with (mkHeap {[ 1 := demo_typed L2_WR_ALLOC_R false ]} 2);
   u ← partition_push demo_partition_config (mkClock 0 0) u (Some 1) 0 0;
   u ← partition_cycles 80 demo_partition_config 1 u;
   mret (busy u, items (m_L2_icnt_queue u), bool_decide (is_Some (objects (u_heap u) !! 1)))) = Ok (false, [], false).
Proof. vm_compute. reflexivity. Qed.

(** The write-back of such an L1 cache has the type of the write-backs of the L2: a hit
    is answered, and [set_reply] refuses that. *)
Example write_back_of_L1_refused :
  (u ← demo_with (mkHeap {[ 1 := demo_typed GLOBAL_ACC_R false; 2 := demo_typed L2_WRBK_ACC true ]} 3);
   u ← partition_push demo_partition_config (mkClock 0 0) u (Some 1) 0 0;
   u ← partition_cycles 60 demo_partition_config 1 u;
   '(o, u) ← partition_pop u;
   u ← partition_push demo_partition_config (mkClock 61 0) u (Some 2) 61 61;
   mret (o, match partition_cycles 20 demo_partition_config 61 u with Ok _ => None | Err e => Some e end)) = Ok (Some 1, Some AssertFailed).
Proof. vm_compute. reflexivity. Qed.

(** The unit is not busy when the write was answered, although its line is still being
    read; a flush now makes the fill find a line that is not reserved. *)
Example flush_breaks_fill :
  (u ← demo_with (mkHeap {[ 1 := demo_typed GLOBAL_ACC_W true ]} 2);
   u ← partition_push demo_partition_config (mkClock 0 0) u (Some 1) 0 0;
   u ← partition_cycles 20 demo_partition_config 1 u;
   '(o, u) ← partition_pop u;
   u' ← flushL2 demo_partition_config (mkClock 21 0) u;
   mret (o, busy u, match partition_cycles 60 demo_partition_config 21 u with Ok _ => true | Err _ => false end, match partition_cycles 60 demo_partition_config 21 u' with Ok _ => true | Err _ => false end)) =
  Ok (Some 1, false, true, false).
Proof. vm_compute. reflexivity. Qed.

(** A request that took 2^24 cycles to arrive is counted past the end of the table. *)
Example latency_table_overrun :
  (u ← demo_with (mkHeap {[ 1 := demo_typed GLOBAL_ACC_R false ]} 2);
   partition_push demo_partition_config (mkClock (2 ^ 24) 0) u (Some 1) 0 (2 ^ 24)) = Err BadAccess.
Proof. vm_compute. reflexivity. Qed.

(** [cache_cycle] takes the cycle as 32 bits and the delay queue keeps 64: a request that
    becomes ready after 2^32 cycles does not leave it. *)
Example rop_queue_stuck :
  (u ← demo_with (mkHeap {[ 1 := demo_typed GLOBAL_ACC_R false ]} 2);
   u ← partition_push demo_partition_config (mkClock (2 ^ 32 - 1) 0) u (Some 1) (2 ^ 32 - 1) (2 ^ 32 - 1);
   u ← partition_cache_cycle demo_partition_config (mkClock (2 ^ 32 + 100) 0) (2 ^ 32 + 100) u;
   mret (m_rop u)) = Ok [(2 ^ 32 + 1, 1)].
Proof. vm_compute. reflexivity. Qed.
