(* ===== verification/StreamManager.v ===== *)
(** * Streams

    [stream_manager.{h,cc}]: the operations that host threads put into CUDA streams, and
    the manager that gives them to the GPU, one stream after the other.  Kernels go to
    the table of running kernels of [Kernel].

    Streams are known by numbers that are not used again, where the code has addresses;
    that of the member [m_stream_zero] is [zero].  A step here is what a thread does while
    it holds the manager's lock.
    What the copies, and kernels that are simulated functionally, do to the memories of
    device and host is the parameter [perform], over any type of memories (the copies of
    [gpgpu_t] are modelled in [PtxMemory]).  Kernels that are launched change the memories
    while they are in the table: that is the parameter [compute] of [StreamHost]. *)

From S2P Require Import Prelude PtxMemory Kernel.

(** * Operations *)

Inductive stream_operation_type :=
  | stream_no_op
  | stream_memcpy_host_to_device
  | stream_memcpy_device_to_host
  | stream_memcpy_device_to_device
  | stream_memcpy_to_symbol
  | stream_memcpy_from_symbol
  | stream_kernel_launch
  | stream_event.
#[export] Instance stream_operation_type_eq_dec : EqDecision stream_operation_type.
Proof. solve_decision. Defined.

(** Members that a constructor does not set are 0 here; the type of the operation says
    which are read. *)
Record stream_operation := mkOp {
  m_stream : option Z;
  m_done : bool;
  m_type : stream_operation_type;
  m_device_address_dst : Z;
  m_device_address_src : Z;
  m_host_address_dst : Z;
  m_host_address_src : Z;
  m_cnt : Z;
  m_symbol : Z;
  m_offset : Z;
  m_sim_mode : bool;
  m_kernel : option Z;
  m_event : Z }.

Definition no_operation : stream_operation := mkOp None true stream_no_op 0 0 0 0 0 0 0 false None 0.
Definition op_to_symbol (src symbol count offset : Z) (stream : option Z) : stream_operation :=
  mkOp stream false stream_memcpy_to_symbol 0 0 0 src count symbol offset false None 0.
Definition op_from_symbol (symbol dst count offset : Z) (stream : option Z) : stream_operation :=
  mkOp stream false stream_memcpy_from_symbol 0 0 dst 0 count symbol offset false None 0.
Definition op_kernel (kernel : Z) (sim_mode : bool) (stream : option Z) : stream_operation :=
  mkOp stream false stream_kernel_launch 0 0 0 0 0 0 0 sim_mode (Some kernel) 0.
Definition op_event (e : Z) (stream : option Z) : stream_operation :=
  mkOp stream false stream_event 0 0 0 0 0 0 0 false None e.
Definition op_host_to_device (host_address_src device_address_dst cnt : Z) (stream : option Z) : stream_operation :=
  mkOp stream false stream_memcpy_host_to_device device_address_dst 0 0 host_address_src cnt 0 0 false None 0.
Definition op_device_to_host (device_address_src host_address_dst cnt : Z) (stream : option Z) : stream_operation :=
  mkOp stream false stream_memcpy_device_to_host 0 device_address_src host_address_dst 0 cnt 0 0 false None 0.
Definition op_device_to_device (device_address_src device_address_dst cnt : Z) (stream : option Z) : stream_operation :=
  mkOp stream false stream_memcpy_device_to_device device_address_dst device_address_src 0 0 cnt 0 0 false None 0.

Definition is_kernel (op : stream_operation) : bool := bool_decide (m_type op = stream_kernel_launch).
Definition is_mem (op : stream_operation) : bool :=
  bool_decide (m_type op = stream_memcpy_host_to_device) || bool_decide (m_type op = stream_memcpy_device_to_host) ||
  bool_decide (m_type op = stream_memcpy_host_to_device).
Definition is_noop (op : stream_operation) : bool := bool_decide (m_type op = stream_no_op).
Definition set_stream (op : stream_operation) (s : Z) : stream_operation :=
  mkOp (Some s) (m_done op) (m_type op) (m_device_address_dst op) (m_device_address_src op) (m_host_address_dst op)
    (m_host_address_src op) (m_cnt op) (m_symbol op) (m_offset op) (m_sim_mode op) (m_kernel op) (m_event op).

(** [CUevent_st]; the wall clock is left out, and the counter does not wrap. *)
Record CUevent_st := mkEvent { m_updates : Z; m_gpu_tot_sim_cycle : Z; ev_done : bool }.
Definition event_new : CUevent_st := mkEvent 0 0 false.
Definition event_update (e : CUevent_st) (cycle : Z) : CUevent_st := mkEvent (m_updates e + 1) cycle true.

(** * Streams and their manager *)

(** The number of a stream is only printed. *)
Record CUstream_st := mkStream { m_operations : list stream_operation; m_pending : bool }.
Definition stream_new : CUstream_st := mkStream [] false.
Definition stream_empty (st : CUstream_st) : bool := match m_operations st with [] => true | _ => false end.

(** A change that the cores make to the memories as they run the kernel [cw_kernel] of
    the table; [cw_step] says which. *)
Record memory_work := mkWork { cw_kernel : Z; cw_step : Z }.

(** What happened: an operation of a stream was pushed, started or ended, or the cores
    changed the memories. *)
Inductive action :=
  | Pushed (s : Z) (op : stream_operation)
  | Started (s : Z) (op : stream_operation)
  | Ended (s : Z) (op : stream_operation)
  | Worked (x : memory_work).

Definition zero : Z := 0.

Section manager.
Context {M : Type} (perform : stream_operation → M → M).

Record manager := mkManager {
  streams : gmap Z CUstream_st;
  next_stream : Z;
  m_streams : list Z;
  m_grid_id_to_stream : gmap Z Z;
  m_service_stream_zero : bool;
  m_cuda_launch_blocking : bool;
  m_gpu : gpgpu_sim;
  events : gmap Z CUevent_st;
  memory : M;
  history : list action }.
Implicit Types (w : manager) (op : stream_operation).

Definition with_streams w m log := mkManager m (next_stream w) (m_streams w) (m_grid_id_to_stream w) (m_service_stream_zero w)
  (m_cuda_launch_blocking w) (m_gpu w) (events w) (memory w) log.
Definition with_grids w m := mkManager (streams w) (next_stream w) (m_streams w) m (m_service_stream_zero w)
  (m_cuda_launch_blocking w) (m_gpu w) (events w) (memory w) (history w).
Definition with_service w b := mkManager (streams w) (next_stream w) (m_streams w) (m_grid_id_to_stream w) b
  (m_cuda_launch_blocking w) (m_gpu w) (events w) (memory w) (history w).
Definition with_gpu w g := mkManager (streams w) (next_stream w) (m_streams w) (m_grid_id_to_stream w) (m_service_stream_zero w)
  (m_cuda_launch_blocking w) g (events w) (memory w) (history w).
Definition with_events w e := mkManager (streams w) (next_stream w) (m_streams w) (m_grid_id_to_stream w) (m_service_stream_zero w)
  (m_cuda_launch_blocking w) (m_gpu w) e (memory w) (history w).
Definition with_memory w m := mkManager (streams w) (next_stream w) (m_streams w) (m_grid_id_to_stream w) (m_service_stream_zero w)
  (m_cuda_launch_blocking w) (m_gpu w) (events w) m (history w).

Definition manager_new (gpu : gpgpu_sim) (cuda_launch_blocking : bool) (ev : gmap Z CUevent_st) (m : M) : manager :=
  mkManager {[ zero := stream_new ]} 1 [] ∅ false cuda_launch_blocking gpu ev m [].

Definition stream_at w (s : Z) : outcome CUstream_st :=
  match streams w !! s with Some st => Ok st | None => Err BadAccess end.

(** ** A stream *)

Definition stream_push w (s : Z) op : outcome manager :=
  st ← stream_at w s;
  mret (with_streams w (<[s := mkStream (m_operations st ++ [op]) (m_pending st)]> (streams w)) (history w ++ [Pushed s op])).

Definition record_next_done w (s : Z) : outcome manager :=
  st ← stream_at w s;
  cassert (m_pending st);;
  match m_operations st with
  | [] => Err BadAccess
  | op :: rest => mret (with_streams w (<[s := mkStream rest false]> (streams w)) (history w ++ [Ended s op]))
  end.

Definition next w (s : Z) : outcome (stream_operation * manager) :=
  st ← stream_at w s;
  match m_operations st with
  | [] => Err BadAccess
  | op :: _ => mret (op, with_streams w (<[s := mkStream (m_operations st) true]> (streams w)) (history w ++ [Started s op]))
  end.

(** ** The manager *)

Fixpoint all_empty w (l : list Z) : outcome bool :=
  match l with
  | [] => mret true
  | s :: l' =>
      st ← stream_at w s;
      b ← all_empty w l';
      mret (stream_empty st && b)
  end.
Definition concurrent_streams_empty w : outcome bool := all_empty w (m_streams w).

Definition manager_empty w : outcome bool :=
  b ← concurrent_streams_empty w;
  st ← stream_at w zero;
  mret (b && stream_empty st).

Definition register_finished_kernel w (grid_uid : Z) : outcome (bool * manager) :=
  if 0 <? grid_uid then
    s ← (match m_grid_id_to_stream w !! grid_uid with Some s => Ok s | None => Err BadAccess end);
    st ← stream_at w s;
    p ← (match m_operations st with op :: _ => match m_kernel op with Some p => Ok p | None => Err BadAccess end | [] => Err BadAccess end);
    k ← kernel_at (m_gpu w) p;
    cassert (grid_uid =? m_uid k);;
    w ← record_next_done w s;
    let w := with_grids w (delete grid_uid (m_grid_id_to_stream w)) in
    kernel_info_delete k;;
    let g := m_gpu w in
    mret (true, with_gpu w (mkGpu (max_concurrent_kernel g) (gpu_max_cta_opt g) (n_thread_per_shader g) (delete p (kernels g))
                              (m_running_kernels g) (m_last_issued_kernel g) (m_total_cta_launched g) (m_finished_kernel g)))
  else mret (false, w).

Definition check_finished_kernel w : outcome (bool * manager) :=
  let '(grid_uid, g) := finished_kernel (m_gpu w) in
  register_finished_kernel (with_gpu w g) grid_uid.

(** The operation in front of [s] starts; a kernel is noted as one of the stream. *)
Definition start_next w (s : Z) : outcome (stream_operation * manager) :=
  '(op, w) ← next w s;
  if is_kernel op then
    p ← (match m_kernel op with Some p => Ok p | None => Err BadAccess end);
    k ← kernel_at (m_gpu w) p;
    mret (op, with_grids w (<[m_uid k := s]> (m_grid_id_to_stream w)))
  else mret (op, w).

Fixpoint first_ready w (l : list Z) : outcome (stream_operation * manager) :=
  match l with
  | [] => mret (no_operation, w)
  | s :: l' =>
      st ← stream_at w s;
      if negb (m_pending st) && negb (stream_empty st) then start_next w s else first_ready w l'
  end.

Definition manager_front w : outcome (stream_operation * manager) :=
  none ← concurrent_streams_empty w;
  let w := if none : bool then with_service w true else w in
  if m_service_stream_zero w then
    st ← stream_at w zero;
    if negb (stream_empty st) then
      if negb (m_pending st) then start_next w zero else mret (no_operation, w)
    else mret (no_operation, with_service w false)
  else first_ready w (m_streams w).

(** [do_operation]; [cycle] is [gpu_tot_sim_cycle]. *)
Definition do_operation (cycle : Z) w op : outcome manager :=
  if is_noop op then mret w
  else
    cassert (negb (m_done op));;
    s ← (match m_stream op with Some s => Ok s | None => Err AssertFailed end);
    match m_type op with
    | stream_kernel_launch =>
        can ← can_start_kernel (m_gpu w);
        if can : bool then
          p ← (match m_kernel op with Some p => Ok p | None => Err BadAccess end);
          if m_sim_mode op then
            k ← kernel_at (m_gpu w) p;
            '(_, w) ← register_finished_kernel (with_memory w (perform op (memory w))) (m_uid k);
            mret w
          else g ← launch (m_gpu w) p; mret (with_gpu w g)
        else mret w
    | stream_event =>
        e ← (match events w !! m_event op with Some e => Ok e | None => Err BadAccess end);
        record_next_done (with_events w (<[m_event op := event_update e cycle]> (events w))) s
    | stream_no_op => Err Undefined
    | _ => record_next_done (with_memory w (perform op (memory w))) s
    end.

Definition operation (cycle : Z) w : outcome manager :=
  '(_, w) ← check_finished_kernel w;
  '(op, w) ← manager_front w;
  do_operation cycle w op.

(** ** The host *)

Definition add_stream w (st : CUstream_st) : Z * manager :=
  (next_stream w, mkManager (<[next_stream w := st]> (streams w)) (next_stream w + 1) (m_streams w ++ [next_stream w]) (m_grid_id_to_stream w)
     (m_service_stream_zero w) (m_cuda_launch_blocking w) (m_gpu w) (events w) (memory w) (history w)).

(** [m_streams.erase] at the first entry for [s]. *)
Fixpoint erase_first (s : Z) (l : list Z) : list Z :=
  match l with [] => [] | x :: l' => if x =? s then l' else x :: erase_first s l' end.

(** The wait for the stream to become empty keeps the lock that [operation] needs. *)
Definition destroy_stream w (s : Z) : outcome manager :=
  st ← stream_at w s;
  if stream_empty st then
    mret (mkManager (delete s (streams w)) (next_stream w) (erase_first s (m_streams w)) (m_grid_id_to_stream w)
            (m_service_stream_zero w) (m_cuda_launch_blocking w) (m_gpu w) (events w) (memory w) (history w))
  else Err OutOfFuel.

(** [push], as the phases of a host thread between which it does not hold the lock. *)
Definition push_blocks w op : bool := bool_decide (m_stream op = None) || m_cuda_launch_blocking w.
Definition push_insert w op : outcome manager :=
  match m_stream op with
  | Some s => if negb (m_cuda_launch_blocking w) then stream_push w s op else stream_push w zero (set_stream op zero)
  | None => stream_push w zero (set_stream op zero)
  end.
Inductive push_phase := Waiting | Inserting | Draining | Returned.
Definition push_begin w op : push_phase := if push_blocks w op then Waiting else Inserting.
Definition push_step w op (phase : push_phase) : outcome (manager * push_phase) :=
  match phase with
  | Waiting => b ← concurrent_streams_empty w; mret (w, if b : bool then Inserting else Waiting)
  | Inserting => w' ← push_insert w op; mret (w', if push_blocks w op then Draining else Returned)
  | Draining => b ← manager_empty w; mret (w, if b : bool then Returned else Draining)
  | Returned => mret (w, Returned)
  end.
End manager.
Arguments manager M : clear implicits.
