(* ===== verification/StreamInv.v ===== *)
(** * The invariant of the stream manager

    What host threads, the GPU thread and the cores may do to the manager and the table
    of running kernels, as a step relation; the invariant of its states. *)

From S2P Require Import Prelude PtxMemory Kernel StreamManager.

(** ** Pointers of kernels in the table *)

Definition running_list (g : gpgpu_sim) : list Z := omap id (m_running_kernels g).

Lemma elem_running g p : p ∈ running_list g <-> Some p ∈ m_running_kernels g.
Proof. unfold running_list. rewrite list_elem_of_omap. split; [intros (o & Ho & E); simpl in E; by subst o|intros H; by exists (Some p)]. Qed.

Lemma running_put (l : list (option Z)) n p : zread l n = Some None -> omap id (zwrite l n (Some p)) ≡ₚ p :: omap id l.
Proof. intros (l1 & l2 & -> & ->)%(zwrite_split _ _ _ (Some p)). rewrite !omap_app. simpl. symmetry. apply Permutation_middle. Qed.
Lemma running_drop (l : list (option Z)) n p : zread l n = Some (Some p) -> omap id l ≡ₚ p :: omap id (zwrite l n None).
Proof. intros (l1 & l2 & -> & ->)%(zwrite_split _ _ _ None). rewrite !omap_app. simpl. symmetry. apply Permutation_middle. Qed.
Lemma running_room (l : list (option Z)) : (length (omap id l) < length l)%nat -> None ∈ l.
Proof.
  induction l as [|[p|] l IH]; intros H; [simpl in H; lia| |left]. right. apply IH. change (omap id (Some p :: l)) with (p :: omap id l) in H. simpl in H. lia.
Qed.

(** The kernels of the table exist and are not done. *)
Definition table_live (g : gpgpu_sim) : Prop := forall p, p ∈ running_list g -> exists k, kernels g !! p = Some k /\ kernel_done k = false.

Lemma live_slot_free g o : table_live g -> o ∈ m_running_kernels g -> slot_free g o = Ok (bool_decide (o = None)).
Proof.
  intros Hl Ho. destruct o as [p|]; [|done]. destruct (Hl p) as (k & Hk & Hd); [by apply elem_running|]. unfold slot_free, kernel_at. rewrite Hk. simpl.
  by rewrite Hd.
Qed.
Lemma can_start_live g : table_live g -> can_start_kernel g = Ok (bool_decide (None ∈ m_running_kernels g)).
Proof.
  intros Hl. unfold can_start_kernel.
  destruct (find_slot_spec (slot_free g) (m_running_kernels g) 0 (fun o => bool_decide (o = None))) as [[-> Hno]|(i & o & -> & Hi & Ho)];
    [intros; by apply live_slot_free|..]; simpl; f_equal; symmetry.
  - apply bool_decide_eq_false. intros H. specialize (Hno _ H). by apply bool_decide_eq_false in Hno.
  - apply bool_decide_eq_true in Ho as ->. apply bool_decide_eq_true. by apply zread_elem_of in Hi.
Qed.
Lemma launch_live g p k : table_live g -> None ∈ m_running_kernels g -> kernels g !! p = Some k -> threads_per_cta k <= n_thread_per_shader g ->
  exists t, launch g p = Ok (with_table g t (m_last_issued_kernel g) (m_finished_kernel g)) /\ omap id t ≡ₚ p :: running_list g /\
    length t = length (m_running_kernels g).
Proof.
  intros Hl Hn Hk Ht. unfold launch, kernel_at. rewrite Hk. simpl. rewrite (proj2 (Z.ltb_ge _ _)) by lia.
  destruct (find_slot_spec (slot_free g) (m_running_kernels g) 0 (fun o => bool_decide (o = None))) as [[-> Hno]|(i & o & -> & Hi & Ho)];
    [intros; by apply live_slot_free|..]; simpl.
  - specialize (Hno _ Hn). by apply bool_decide_eq_false in Hno.
  - apply bool_decide_eq_true in Ho as ->. eexists. split; [done|]. split; [by apply running_put|].
    pose proof (zlen_zwrite (m_running_kernels g) (0 + i) (Some p)). unfold zlen in *. lia.
Qed.
Lemma done_live g p k : kernels g !! p = Some k -> p ∈ running_list g ->
  exists t, set_kernel_done g p = Ok (with_table g t (m_last_issued_kernel g) (m_finished_kernel g ++ [m_uid k])) /\ running_list g ≡ₚ p :: omap id t /\
    length t = length (m_running_kernels g).
Proof.
  intros Hk Hp. unfold set_kernel_done, kernel_at. rewrite Hk. simpl.
  destruct (find_slot_spec (fun o => Ok (bool_decide (o = Some p))) (m_running_kernels g) 0 (fun o => bool_decide (o = Some p)))
    as [[-> Hno]|(i & o & -> & Hi & Ho)]; [done|..]; simpl.
  - apply elem_running, Hno in Hp. by apply bool_decide_eq_false in Hp.
  - apply bool_decide_eq_true in Ho as ->. eexists. split; [done|]. split; [by apply running_drop|].
    pose proof (zlen_zwrite (m_running_kernels g) (0 + i) None). unfold zlen in *. lia.
Qed.

(** ** Kernels that execute

    [X s p]: the kernel [p] is the operation in progress of the stream [s]. *)
Record gpu_ok (X : Z → Z → Prop) (grids : gmap Z Z) (g : gpgpu_sim) : Prop := {
  go_fun : forall s p q, X s p -> X s q -> p = q;
  go_inj : forall s s' p, X s p -> X s' p -> s = s';
  go_live : forall s p, X s p -> exists k, kernels g !! p = Some k /\ 0 < m_uid k;
  go_uids : forall p q k l, kernels g !! p = Some k -> kernels g !! q = Some l -> m_uid k = m_uid l -> p = q;
  go_grids : forall u s, grids !! u = Some s <-> exists p k, X s p /\ kernels g !! p = Some k /\ m_uid k = u;
  go_running : NoDup (running_list g) /\ forall p, p ∈ running_list g -> exists s k, X s p /\ kernels g !! p = Some k /\ kernel_done k = false;
  go_finished : NoDup (m_finished_kernel g) /\ forall u, u ∈ m_finished_kernel g -> exists s p k, X s p /\ kernels g !! p = Some k /\ m_uid k = u /\
    (p ∉ running_list g) /\ m_active_threads k = [] }.

(** Every kernel in progress is in the table or finished. *)
Definition none_lost (X : Z → Z → Prop) (g : gpgpu_sim) : Prop :=
  forall s p k, X s p -> kernels g !! p = Some k -> p ∈ running_list g \/ m_uid k ∈ m_finished_kernel g.

Section gpu.
Context (X : Z → Z → Prop) (grids : gmap Z Z) (g : gpgpu_sim).
Abbreviation with_kernels ks := (mkGpu (max_concurrent_kernel g) (gpu_max_cta_opt g) (n_thread_per_shader g) ks
  (m_running_kernels g) (m_last_issued_kernel g) (m_total_cta_launched g) (m_finished_kernel g)).

Lemma gpu_ok_live : gpu_ok X grids g -> table_live g.
Proof. intros [_ _ _ _ _ [_ H] _] p Hp. destruct (H p Hp) as (s & k & _ & Hk). by exists k. Qed.

Lemma gpu_ext X' : gpu_ok X grids g -> (forall s p, X s p <-> X' s p) -> gpu_ok X' grids g.
Proof.
  intros [A1 A2 A3 A4 A5 [A6 A6'] [A7 A7']] E. split; try done; setoid_rewrite <- E; [apply A1|apply A2|apply A3|apply A5|by split|by split].
Qed.

(** A kernel starts in a stream where none was in progress ... *)
Lemma gpu_start s p k : gpu_ok X grids g -> (forall q, ~ X s q) -> (forall s', ~ X s' p) -> kernels g !! p = Some k -> 0 < m_uid k ->
  gpu_ok (fun s' q => X s' q \/ s' = s /\ q = p) (<[m_uid k := s]> grids) g.
Proof.
  intros [A1 A2 A3 A4 A5 [A6 A6'] [A7 A7']] Hs Hp Hk Hu. split.
  - intros s' q q' [H|[-> ->]] [H'|[? ->]]; subst; try done; [by eapply A1|by destruct (Hs q)|by destruct (Hs q')].
  - intros s1 s2 q [H|[-> ->]] [H'|[? ?]]; subst; try done; [by eapply A2|by destruct (Hp s1)|by destruct (Hp s2)].
  - intros s' q [H|[-> ->]]; [by eapply A3|by exists k].
  - done.
  - intros u s'. rewrite lookup_insert. destruct (decide (m_uid k = u)) as [<-|Hne].
    + split; [intros [= <-]; exists p, k; auto|]. intros (q & l & Hx & Hl & E). rewrite (A4 q p l k Hl Hk E) in Hx.
      destruct Hx as [Hx|[-> _]]; [by destruct (Hp s')|done].
    + rewrite A5. split; [intros (q & l & ? & ?); exists q, l; tauto|]. intros (q & l & [?|[-> ->]] & ? & ?); [by exists q, l|congruence].
  - split; [done|]. intros q Hq. destruct (A6' q Hq) as (s' & l & ? & ?). exists s', l. auto.
  - split; [done|]. intros u Hq. destruct (A7' u Hq) as (s' & q & l & ? & ?). exists s', q, l. auto.
Qed.
(** ... is launched ... *)
Lemma gpu_launch s p k t last : gpu_ok X grids g -> X s p -> kernels g !! p = Some k -> kernel_done k = false -> p ∉ running_list g ->
  m_uid k ∉ m_finished_kernel g -> omap id t ≡ₚ p :: running_list g -> gpu_ok X grids (with_table g t last (m_finished_kernel g)).
Proof.
  intros [A1 A2 A3 A4 A5 [A6 A6'] [A7 A7']] Hx Hk Hd Hp Hu Ht. split; try done; unfold running_list; simpl; setoid_rewrite Ht.
  - split; [by constructor|]. intros q [->|Hq]%elem_of_cons; [by exists s, k|by apply A6'].
  - split; [done|]. intros u Hq. destruct (A7' u Hq) as (s' & q & l & B1 & B2 & B3 & B4 & B5). exists s', q, l. split_and!; try done.
    intros [->|?]%elem_of_cons; [|done]. apply Hu. by assert (l = k) as <- by congruence; rewrite B3.
Qed.
(** ... completes ... *)
Lemma gpu_complete s p k t last : gpu_ok X grids g -> X s p -> kernels g !! p = Some k -> m_active_threads k = [] -> running_list g ≡ₚ p :: omap id t ->
  gpu_ok X grids (with_table g t last (m_finished_kernel g ++ [m_uid k])).
Proof.
  intros [A1 A2 A3 A4 A5 [A6 A6'] [A7 A7']] Hx Hk Ha Ht. rewrite Ht in A6. apply NoDup_cons in A6 as [Hn A6]. split; try done; unfold running_list; simpl.
  - split; [done|]. intros q Hq. apply A6'. rewrite Ht. by right.
  - split.
    + apply NoDup_app. split; [done|]. split; [|apply NoDup_singleton]. intros u Hu ->%list_elem_of_singleton.
      destruct (A7' _ Hu) as (s' & q & l & B1 & B2 & B3 & B4 & B5). apply B4. rewrite Ht, (A4 q p l k B2 Hk B3). left.
    + intros u [Hu| ->%list_elem_of_singleton]%elem_of_app.
      * destruct (A7' _ Hu) as (s' & q & l & B1 & B2 & B3 & B4 & B5). exists s', q, l. split_and!; try done. rewrite Ht in B4. set_solver.
      * by exists s, p, k.
Qed.
(** ... and its completion is collected. *)
Lemma gpu_collect u rest : gpu_ok X grids g -> m_finished_kernel g = u :: rest ->
  gpu_ok X grids (with_table g (m_running_kernels g) (m_last_issued_kernel g) rest).
Proof.
  intros [A1 A2 A3 A4 A5 A6 [A7 A7']] E. split; try done; simpl. rewrite E in A7, A7'. apply NoDup_cons in A7 as [_ A7]. split; [done|].
  intros u' Hu. apply A7'. by right.
Qed.
Lemma gpu_finish s p k : gpu_ok X grids g -> X s p -> kernels g !! p = Some k -> p ∉ running_list g -> m_uid k ∉ m_finished_kernel g ->
  gpu_ok (fun s' q => X s' q /\ s' <> s) (delete (m_uid k) grids) (with_kernels (delete p (kernels g))).
Proof.
  intros [A1 A2 A3 A4 A5 [A6 A6'] [A7 A7']] Hx Hk Hp Hu.
  assert (forall s' q, X s' q -> s' <> s -> q <> p) as Hother by (intros s' q H Hne ->; by apply Hne, (A2 s' s p)).
  split; simpl.
  - intros s' q q' [H _] [H' _]. by eapply A1.
  - intros s1 s2 q [H _] [H' _]. by eapply A2.
  - intros s' q [H Hne]. rewrite lookup_delete_ne by (apply not_eq_sym; eauto). by eapply A3.
  - intros q q' l l' [_ ?]%lookup_delete_Some [_ ?]%lookup_delete_Some. by apply A4.
  - intros u s'. rewrite lookup_delete. destruct (decide (m_uid k = u)) as [<-|Hne].
    + split; [done|]. intros (q & l & [H1 H2] & [_ H3]%lookup_delete_Some & E). rewrite (A4 q p l k H3 Hk E) in H1. by destruct (Hother s' p H1 H2).
    + rewrite A5. split.
      * intros (q & l & H1 & H2 & H3). exists q, l. assert (q <> p) by (intros ->; assert (l = k) by congruence; congruence).
        rewrite lookup_delete_ne by done. split_and!; try done. intros ->. by apply H, (A1 s).
      * intros (q & l & [H1 _] & [_ H2]%lookup_delete_Some & H3). by exists q, l.
  - split; [done|]. intros q Hq. destruct (A6' q Hq) as (s' & l & H1 & H2 & H3). assert (q <> p) by (by intros ->).
    exists s', l. rewrite lookup_delete_ne by done. split_and!; try done. intros ->. by apply H, (A1 s).
  - split; [done|]. intros u Hq. destruct (A7' u Hq) as (s' & q & l & H1 & H2 & H3 & H4 & H5).
    assert (q <> p) by (intros ->; assert (l = k) by congruence; congruence). exists s', q, l. rewrite lookup_delete_ne by done.
    split_and!; try done. intros ->. by apply H, (A1 s).
Qed.
(** A kernel that is in the table, or new, changes. *)
Lemma gpu_kernel p k : gpu_ok X grids g -> (match kernels g !! p with
    | Some l => m_uid k = m_uid l /\ (p ∈ running_list g -> kernel_done k = false) /\ (p ∉ running_list g -> m_active_threads k = m_active_threads l)
    | None => forall q l, kernels g !! q = Some l -> m_uid l <> m_uid k end) -> gpu_ok X grids (with_kernel g p k).
Proof.
  intros [A1 A2 A3 A4 A5 [A6 A6'] [A7 A7']] Hk.
  assert (forall s q l, X s q -> kernels g !! q = Some l -> exists l', kernels (with_kernel g p k) !! q = Some l' /\ m_uid l' = m_uid l /\
    (q ∈ running_list g -> kernel_done l = false -> kernel_done l' = false) /\ (q ∉ running_list g -> m_active_threads l' = m_active_threads l)) as Hstay.
  { intros s q l Hx Hl. simpl. rewrite lookup_insert. destruct (decide (p = q)) as [<-|]; [|by exists l]. rewrite Hl in Hk. exists k. tauto. }
  split; try done.
  - intros s q Hx. destruct (A3 s q Hx) as (l & Hl & Hu). destruct (Hstay s q l Hx Hl) as (l' & ? & E & _). exists l'. by rewrite E.
  - intros q q' l l'. simpl. rewrite !lookup_insert. destruct (decide (p = q)) as [<-|], (decide (p = q')) as [<-|]; try done; [| |by apply A4].
    + intros [= <-] Hl' E. destruct (kernels g !! p) as [x|] eqn:Ex; [|by destruct (Hk q' l' Hl')]. destruct Hk as [Hk _]. apply (A4 p q' x l' Ex Hl'). congruence.
    + intros Hl [= <-] E. destruct (kernels g !! p) as [x|] eqn:Ex; [|by destruct (Hk q l Hl)]. destruct Hk as [Hk _]. apply (A4 q p l x Hl Ex). congruence.
  - intros u s. rewrite A5. split.
    + intros (q & l & Hx & Hl & E). destruct (Hstay s q l Hx Hl) as (l' & ? & E' & _). exists q, l'. by rewrite E'.
    + intros (q & l' & Hx & Hl' & E). destruct (A3 s q Hx) as (l & Hl & _). destruct (Hstay s q l Hx Hl) as (l2 & Hl2 & E' & _). exists q, l. split_and!; try done.
      rewrite Hl2 in Hl'. injection Hl' as <-. congruence.
  - split; [done|]. intros q Hq. destruct (A6' q Hq) as (s & l & Hx & Hl & Hd). destruct (Hstay s q l Hx Hl) as (l' & ? & _ & Hd' & _). exists s, l'. auto.
  - split; [done|]. intros u Hu. destruct (A7' u Hu) as (s & q & l & Hx & Hl & E & Hn & Ha). destruct (Hstay s q l Hx Hl) as (l' & ? & E' & _ & Ha').
    exists s, q, l'. split_and!; try done; [congruence|]. rewrite Ha' by done. done.
Qed.
End gpu.

(** ** Histories *)

Definition action_stream (a : action) : Z := match a with Pushed s _ | Started s _ | Ended s _ => s | Worked _ => zero end.
Definition pushed (s : Z) (h : list action) : list stream_operation :=
  omap (fun a => match a with Pushed s' op => if s' =? s then Some op else None | _ => None end) h.
Definition started (s : Z) (h : list action) : list stream_operation :=
  omap (fun a => match a with Started s' op => if s' =? s then Some op else None | _ => None end) h.
Definition ended (s : Z) (h : list action) : list stream_operation :=
  omap (fun a => match a with Ended s' op => if s' =? s then Some op else None | _ => None end) h.

Lemma history_app s h l : pushed s (h ++ l) = pushed s h ++ pushed s l /\ started s (h ++ l) = started s h ++ started s l /\ ended s (h ++ l) = ended s h ++ ended s l.
Proof. unfold pushed, started, ended. by rewrite !omap_app. Qed.
Lemma history_other s l : (forall a, a ∈ l -> action_stream a <> s) -> pushed s l = [] /\ started s l = [] /\ ended s l = [].
Proof.
  induction l as [|a l IH]; intros H; [done|]. destruct IH as (E1 & E2 & E3); [intros b Hb; apply H; by right|].
  specialize (H a ltac:(left)). unfold pushed, started, ended in *. simpl. destruct a; simpl in H; rewrite ?(proj2 (Z.eqb_neq _ _)) by done; done.
Qed.

Lemma history_pushed s h op : pushed s (h ++ [Pushed s op]) = pushed s h ++ [op] /\ started s (h ++ [Pushed s op]) = started s h /\
  ended s (h ++ [Pushed s op]) = ended s h.
Proof. destruct (history_app s h [Pushed s op]) as (-> & -> & ->). cbn. by rewrite Z.eqb_refl, !app_nil_r. Qed.
Lemma history_started s h op : pushed s (h ++ [Started s op]) = pushed s h /\ started s (h ++ [Started s op]) = started s h ++ [op] /\
  ended s (h ++ [Started s op]) = ended s h.
Proof. destruct (history_app s h [Started s op]) as (-> & -> & ->). cbn. by rewrite Z.eqb_refl, !app_nil_r. Qed.
Lemma history_ended s h op : pushed s (h ++ [Ended s op]) = pushed s h /\ started s (h ++ [Ended s op]) = started s h /\
  ended s (h ++ [Ended s op]) = ended s h ++ [op].
Proof. destruct (history_app s h [Ended s op]) as (-> & -> & ->). cbn. by rewrite Z.eqb_refl, !app_nil_r. Qed.

(** ** Kernels in the queues *)

Definition stream_kernels (st : CUstream_st) : list Z := omap m_kernel (m_operations st).
Definition all_kernels (m : gmap Z CUstream_st) : list Z := map_to_list m ≫= (fun x => stream_kernels x.2).

Lemma all_kernels_at m s st : m !! s = Some st -> all_kernels m ≡ₚ stream_kernels st ++ all_kernels (delete s m).
Proof. intros H. unfold all_kernels. by rewrite <- (map_to_list_delete m s st H). Qed.
Lemma all_kernels_insert m s st : all_kernels (<[s := st]> m) ≡ₚ stream_kernels st ++ all_kernels (delete s m).
Proof. rewrite (all_kernels_at _ s st) by apply lookup_insert_eq. by rewrite delete_insert_eq. Qed.
Lemma elem_all_kernels m p : p ∈ all_kernels m <-> exists s st, m !! s = Some st /\ p ∈ stream_kernels st.
Proof.
  unfold all_kernels. rewrite list_elem_of_bind. split.
  - intros ([s st] & Hp & H%elem_of_map_to_list). by exists s, st.
  - intros (s & st & H & Hp). exists (s, st). split; [done|by apply elem_of_map_to_list].
Qed.
Lemma kernel_in_one m s s' st st' p : NoDup (all_kernels m) -> m !! s = Some st -> m !! s' = Some st' -> p ∈ stream_kernels st -> p ∈ stream_kernels st' -> s = s'.
Proof.
  intros Hn Hs Hs' Hp Hp'. destruct (decide (s = s')) as [|Hne]; [done|]. rewrite (all_kernels_at m s st Hs) in Hn. apply NoDup_app in Hn as (_ & Hd & _).
  destruct (Hd p Hp). apply elem_all_kernels. exists s', st'. by rewrite lookup_delete_ne.
Qed.

(** ** The invariant *)

Section inv.
Context {M : Type}.
Implicit Types (w : manager M) (op : stream_operation) (st : CUstream_st).

Definition executing (m : gmap Z CUstream_st) (s p : Z) : Prop :=
  exists st op rest, m !! s = Some st /\ m_pending st = true /\ m_operations st = op :: rest /\ m_kernel op = Some p.

Record op_ok (ev : gmap Z CUevent_st) (g : gpgpu_sim) (s : Z) op : Prop := {
  oo_stream : m_stream op = Some s;
  oo_done : m_done op = false;
  oo_kind : m_type op <> stream_no_op;
  oo_event : m_type op = stream_event -> is_Some (ev !! m_event op);
  oo_kernel : if is_kernel op then exists p k, m_kernel op = Some p /\ kernels g !! p = Some k /\ 0 < m_uid k /\ threads_per_cta k <= n_thread_per_shader g
    else m_kernel op = None }.

(** The kernels of a stream that have not started. *)
Definition waiting_kernels st : list Z := omap m_kernel (if m_pending st then tail (m_operations st) else m_operations st).

Record streams_ok w : Prop := {
  so_zero : is_Some (streams w !! zero);
  so_list : NoDup (m_streams w);
  so_members : forall s, s ∈ m_streams w <-> s <> zero /\ is_Some (streams w !! s);
  so_fresh : zero < next_stream w /\ (forall s, is_Some (streams w !! s) -> s < next_stream w) /\
    (forall a, a ∈ history w -> action_stream a < next_stream w);
  so_ops : forall s st op, streams w !! s = Some st -> op ∈ m_operations st -> op_ok (events w) (m_gpu w) s op;
  so_once : NoDup (all_kernels (streams w));
  so_front : forall s st, streams w !! s = Some st -> m_pending st = true -> exists op rest, m_operations st = op :: rest /\ is_kernel op = true;
  so_excl : (forall st, streams w !! zero = Some st -> m_pending st = true -> m_service_stream_zero w = true) /\
    (forall s st, s <> zero -> streams w !! s = Some st -> m_pending st = true -> m_service_stream_zero w = false);
  so_history : forall s st, streams w !! s = Some st -> pushed s (history w) = ended s (history w) ++ m_operations st /\
    started s (history w) = ended s (history w) ++ (if m_pending st then take 1 (m_operations st) else []) }.

Record manager_ok w : Prop := {
  mn_streams : streams_ok w;
  mn_gpu : gpu_ok (executing (streams w)) (m_grid_id_to_stream w) (m_gpu w);
  mn_idle : forall s st p, streams w !! s = Some st -> p ∈ waiting_kernels st ->
    exists k, kernels (m_gpu w) !! p = Some k /\ kernel_done k = false /\ m_active_threads k = [] }.

(** One stream changes. *)
Lemma change_stream w s st st' l : streams_ok w -> streams w !! s = Some st -> (forall op, op ∈ m_operations st' -> op_ok (events w) (m_gpu w) s op) ->
  NoDup (stream_kernels st' ++ all_kernels (delete s (streams w))) ->
  (m_pending st' = true -> exists op rest, m_operations st' = op :: rest /\ is_kernel op = true) ->
  (m_pending st' = true -> m_service_stream_zero w = bool_decide (s = zero)) ->
  (forall a, a ∈ l -> action_stream a = s) ->
  (pushed s (history w ++ l) = ended s (history w ++ l) ++ m_operations st' /\
    started s (history w ++ l) = ended s (history w ++ l) ++ (if m_pending st' then take 1 (m_operations st') else [])) ->
  streams_ok (with_streams w (<[s := st']> (streams w)) (history w ++ l)).
Proof.
  intros [A1 A2 A3 (A4 & A4' & A4'') A5 A6 A7 [A8 A8'] A9] Hs Hops Hn Hf He Hl Hh.
  assert (forall k, is_Some (<[s := st']> (streams w) !! k) <-> is_Some (streams w !! k)) as Hdom.
  { intros k. rewrite lookup_insert. destruct (decide (s = k)) as [<-|]; [|done]. rewrite Hs. split; by eexists. }
  split; simpl; try done.
  - by apply Hdom.
  - intros k. rewrite Hdom. apply A3.
  - split; [done|]. split; [intros k; rewrite Hdom; apply A4'|]. intros a [Ha|Ha]%elem_of_app; [by apply A4''|]. rewrite (Hl a Ha). apply A4'. by eexists.
  - intros k x op. rewrite lookup_insert. destruct (decide (s = k)) as [<-|]; [intros [= <-]; apply Hops|apply A5].
  - by rewrite all_kernels_insert.
  - intros k x. rewrite lookup_insert. destruct (decide (s = k)) as [<-|]; [intros [= <-]; apply Hf|apply A7].
  - split.
    + intros x. rewrite lookup_insert. destruct (decide (s = zero)) as [->|Hne]; [|apply A8]. intros [= <-] Hp. by rewrite (He Hp).
    + intros k x Hk. rewrite lookup_insert. destruct (decide (s = k)) as [<-|]; [|by apply A8']. intros [= <-] Hp. rewrite (He Hp).
      by apply bool_decide_eq_false.
  - intros k x. rewrite lookup_insert. destruct (decide (s = k)) as [<-|Hne]; [by intros [= <-]|]. intros Hx.
    destruct (history_app k (history w) l) as (-> & -> & ->). destruct (history_other k l) as (-> & -> & ->); [intros a Ha; by rewrite (Hl a Ha)|].
    rewrite !app_nil_r. by apply A9.
Qed.

Lemma executing_insert m s st' k p : executing (<[s := st']> m) k p <->
  (k <> s /\ executing m k p) \/ (k = s /\ m_pending st' = true /\ exists op rest, m_operations st' = op :: rest /\ m_kernel op = Some p).
Proof.
  unfold executing. rewrite lookup_insert. destruct (decide (s = k)) as [<-|Hne].
  - split; [intros (x & op & rest & [= <-] & ? & ? & ?); right; split; [done|]; split; [done|]; by exists op, rest|].
    intros [[? _]|(_ & ? & op & rest & ? & ?)]; [done|]. by exists st', op, rest.
  - split; [intros H; left; done|]. intros [[_ H]|[-> _]]; done.
Qed.

(** The surroundings of the streams change. *)
Lemma streams_ok_env w w' : streams_ok w -> streams w' = streams w -> next_stream w' = next_stream w -> m_streams w' = m_streams w -> history w' = history w ->
  (m_service_stream_zero w' = m_service_stream_zero w \/ (forall s st, streams w !! s = Some st -> m_pending st = true ->
     m_service_stream_zero w' = bool_decide (s = zero))) ->
  (forall s st op, streams w !! s = Some st -> op ∈ m_operations st -> op_ok (events w) (m_gpu w) s op -> op_ok (events w') (m_gpu w') s op) -> streams_ok w'.
Proof.
  intros [A1 A2 A3 A4 A5 A6 A7 [A8 A8'] A9] E1 E2 E3 E4 E5 Ho. split; rewrite ?E1, ?E2, ?E3, ?E4; try done.
  - intros s st op Hs Hop. apply (Ho s st); eauto.
  - destruct E5 as [->|E5]; [done|]. split.
    + intros st Hs Hp. by rewrite (E5 _ _ Hs Hp).
    + intros s st Hne Hs Hp. rewrite (E5 _ _ Hs Hp). by apply bool_decide_eq_false.
Qed.
End inv.
