(* ===== verification/StreamRun.v ===== *)
(** * Runs of the stream manager

    The operation of the GPU thread, in any state that host threads, the manager and the
    cores can bring about: it succeeds, streams are served in order and exclusively of
    stream zero, and all operations get done when the table has a slot for every
    stream. *)

From S2P Require Import Prelude PtxMemory Kernel StreamManager StreamInv.

Section run.
Context {M : Type} (perform : stream_operation → M → M) (compute : memory_work → M → M).
Implicit Types (w : manager M) (op : stream_operation) (st : CUstream_st).

(** What the end of an operation, and the cores at work, have done to the memories. *)
Definition performs op : bool :=
  match m_type op with
  | stream_no_op | stream_event => false
  | stream_kernel_launch => m_sim_mode op
  | _ => true
  end.
Definition effect (m : M) (a : action) : M := match a with
  | Ended _ op => if performs op then perform op m else m
  | Worked x => compute x m
  | _ => m
  end.

(** From [w] to [w'] with the actions [l]. *)
Record follows w w' (l : list action) : Prop := {
  fo_list : m_streams w' = m_streams w;
  fo_next : next_stream w' = next_stream w;
  fo_blocking : m_cuda_launch_blocking w' = m_cuda_launch_blocking w;
  fo_slots : length (m_running_kernels (m_gpu w')) = length (m_running_kernels (m_gpu w));
  fo_threads : n_thread_per_shader (m_gpu w') = n_thread_per_shader (m_gpu w);
  fo_history : history w' = history w ++ l;
  fo_memory : memory w' = foldl effect (memory w) l }.

Lemma follows_refl w : follows w w [].
Proof. split; try done. by rewrite app_nil_r. Qed.
Lemma follows_trans w1 w2 w3 l1 l2 : follows w1 w2 l1 -> follows w2 w3 l2 -> follows w1 w3 (l1 ++ l2).
Proof.
  intros [A1 A2 A3 A4 A5 A6 A7] [B1 B2 B3 B4 B5 B6 B7]. split; try congruence.
  - by rewrite B6, A6, app_assoc.
  - by rewrite B7, A7, foldl_app.
Qed.

(** Kernels in the table, and those that finished there, are not simulated functionally. *)
Definition timed w : Prop := forall s st op rest p k, streams w !! s = Some st -> m_pending st = true -> m_operations st = op :: rest ->
  m_kernel op = Some p -> kernels (m_gpu w) !! p = Some k -> p ∈ running_list (m_gpu w) \/ m_uid k ∈ m_finished_kernel (m_gpu w) -> m_sim_mode op = false.
Definition run_ok w : Prop := manager_ok w /\ timed w.

Lemma queued_elem w s st op p : streams w !! s = Some st -> op ∈ m_operations st -> m_kernel op = Some p -> p ∈ all_kernels (streams w).
Proof using. intros Hs Hop Hp. apply elem_all_kernels. exists s, st. split; [done|]. apply list_elem_of_omap. by exists op. Qed.
Lemma waiting_queued st p : p ∈ waiting_kernels st -> p ∈ stream_kernels st.
Proof using.
  unfold waiting_kernels, stream_kernels. destruct (m_pending st); [|done]. destruct (m_operations st) as [|op l]; [done|]. simpl.
  intros (o & Ho & E)%list_elem_of_omap. destruct (m_kernel op); [right|]; apply list_elem_of_omap; by exists o.
Qed.
Lemma executing_queued w s p : executing (streams w) s p -> exists st, streams w !! s = Some st /\ p ∈ stream_kernels st.
Proof using.
  intros (st & op & rest & Hs & _ & Eo & Hk). exists st. split; [done|]. apply list_elem_of_omap. exists op. rewrite Eo. split; [left|done].
Qed.

Abbreviation without_kernel g p := (mkGpu (max_concurrent_kernel g) (gpu_max_cta_opt g) (n_thread_per_shader g) (delete p (kernels g))
  (m_running_kernels g) (m_last_issued_kernel g) (m_total_cta_launched g) (m_finished_kernel g)).

Lemma op_ok_delete ev g s op p : m_kernel op <> Some p -> op_ok ev g s op -> op_ok ev (without_kernel g p) s op.
Proof using.
  intros Hne [A1 A2 A3 A4 A5]. split; try done. destruct (is_kernel op); [|done]. destruct A5 as (q & k & E & Hk & Hu & Ht).
  exists q, k. split_and!; try done. simpl. rewrite lookup_delete_ne; [done|]. intros ->. done.
Qed.

(** ** A kernel ends *)

Lemma finish_ok w s st op rest p k : run_ok w -> streams w !! s = Some st -> m_pending st = true -> m_operations st = op :: rest -> m_kernel op = Some p ->
  kernels (m_gpu w) !! p = Some k -> p ∉ running_list (m_gpu w) -> m_uid k ∉ m_finished_kernel (m_gpu w) -> m_active_threads k = [] ->
  exists w', register_finished_kernel w (m_uid k) = Ok (true, w') /\ run_ok w' /\ streams w' = <[s := mkStream rest false]> (streams w) /\
    m_service_stream_zero w' = m_service_stream_zero w /\ m_gpu w' = without_kernel (m_gpu w) p /\ memory w' = memory w /\
    (forall m, follows (with_memory w m) (with_memory w' (effect m (Ended s op))) [Ended s op]).
Proof using.
  intros [[Hso Hg Hi] Ht] Hs Hp Eo Hk Hkk Hnr Hnf Hact. assert (executing (streams w) s p) as Hx by (by exists st, op, rest).
  destruct (go_live _ _ _ Hg s p Hx) as (k' & Hk' & Hu). assert (k' = k) as -> by congruence.
  assert (m_grid_id_to_stream w !! m_uid k = Some s) as Hgr by (apply (go_grids _ _ _ Hg); by exists p, k).
  unfold register_finished_kernel. rewrite (proj2 (Z.ltb_lt _ _)) by lia. rewrite Hgr. simpl. unfold record_next_done, stream_at, kernel_at. rewrite Hs. simpl.
  rewrite Eo. simpl. rewrite Hk. simpl. rewrite Hkk. simpl. rewrite Z.eqb_refl. simpl. rewrite ?Hs. simpl. rewrite ?Hp. simpl. rewrite ?Eo. simpl.
  unfold kernel_info_delete. rewrite Hact. simpl.
  set (w1 := with_streams w (<[s := mkStream rest false]> (streams w)) (history w ++ [Ended s op])).
  pose proof (so_once _ Hso) as Hn. rewrite (all_kernels_at _ _ _ Hs) in Hn. unfold stream_kernels in Hn at 1. rewrite Eo in Hn. simpl in Hn. rewrite Hk in Hn.
  apply NoDup_cons in Hn as [Hpn Hn].
  assert (streams_ok w1) as H1.
  { apply (change_stream w s st); try done.
    - intros o Ho. apply (so_ops _ Hso s st); [done|]. rewrite Eo. by right.
    - by intros a ->%list_elem_of_singleton.
    - destruct (so_history _ Hso s st Hs) as [E1 E2]. rewrite Hp, Eo in *. simpl in *. destruct (history_ended s (history w) op) as (-> & -> & ->).
      rewrite E1, E2, app_nil_r. split; [by rewrite <- app_assoc|done]. }
  assert (p ∉ all_kernels (streams w1)) as Hpn1 by (unfold w1; simpl; by rewrite all_kernels_insert).
  eexists. split; [done|]. split; [split; [split|]|].
  - eapply streams_ok_env; [exact H1|done..|by left|]. intros k0 x o Hx0 Ho Hok. simpl. apply op_ok_delete; [|done].
    intros E. apply Hpn1. by eapply queued_elem.
  - simpl. eapply gpu_ext; [apply (gpu_finish _ _ _ s p k Hg Hx Hkk Hnr Hnf)|]. intros k0 q. simpl.
    split; [intros [? ?]; apply executing_insert; by left|]. intros [[? ?]|(_ & ? & _)]%executing_insert; done.
  - intros k0 x q Hx0 Hq. assert (q <> p) as Hne. { intros ->. apply Hpn1, elem_all_kernels. exists k0, x. split; [done|by apply waiting_queued]. }
    simpl. rewrite lookup_delete_ne by done. simpl in Hx0. rewrite lookup_insert in Hx0. destruct (decide (s = k0)) as [<-|]; [|by eapply Hi].
    injection Hx0 as <-. apply (Hi s st); [done|]. unfold waiting_kernels. rewrite Hp, Eo. done.
  - intros k0 x o r q l. simpl. rewrite lookup_insert. destruct (decide (s = k0)) as [<-|]; [by intros [= <-]|].
    intros Hx0 Hp0 Eo0 Ho Hl. apply lookup_delete_Some in Hl as [_ Hl]. by eapply Ht.
  - by split_and!.
Qed.

(** A kernel in progress enters the table. *)
Lemma launch_ok w s st op rest p k t : run_ok w -> streams w !! s = Some st -> m_pending st = true -> m_operations st = op :: rest -> m_kernel op = Some p ->
  m_sim_mode op = false -> kernels (m_gpu w) !! p = Some k -> kernel_done k = false -> p ∉ running_list (m_gpu w) -> m_uid k ∉ m_finished_kernel (m_gpu w) ->
  omap id t ≡ₚ p :: running_list (m_gpu w) ->
  run_ok (with_gpu w (with_table (m_gpu w) t (m_last_issued_kernel (m_gpu w)) (m_finished_kernel (m_gpu w)))).
Proof using.
  intros [[Hso Hg Hi] Ht] Hs Hp Eo Hk Hm Hkk Hd Hnr Hnf Et. assert (executing (streams w) s p) as Hx by (by exists st, op, rest). split; [split|].
  - eapply streams_ok_env; [exact Hso|done..|by left|]. intros k0 x o _ _ [B1 B2 B3 B4 B5]. by split.
  - by apply (gpu_launch _ _ _ s p k).
  - done.
  - intros k0 x o r q l Hx0 Hpx Eox Hq Hl. simpl in Hx0. unfold running_list. simpl. rewrite Et. intros [[->|Hr]%elem_of_cons|Hf]; [|by eapply Ht; eauto..].
    assert (s = k0) as <- by (apply (go_inj _ _ _ Hg s k0 p Hx); by exists x, o, r). assert (x = st) as -> by congruence. rewrite Eo in Eox. by injection Eox as <- <-.
Qed.

(** ** An operation starts *)

Section starting.
Context (w : manager M) (s : Z) (st : CUstream_st) (op : stream_operation) (rest : list stream_operation).
Context (Hw : run_ok w) (Hs : streams w !! s = Some st) (Hp : m_pending st = false) (Eo : m_operations st = op :: rest).
Context (Hsv : m_service_stream_zero w = bool_decide (s = zero)).

Lemma front_op : op_ok (events w) (m_gpu w) s op.
Proof using Hw Hs Eo. destruct Hw as [[Hso _ _] _]. apply (so_ops _ Hso s st); [done|]. rewrite Eo. left. Qed.

Lemma history_start : started s (history w ++ [Started s op]) = ended s (history w ++ [Started s op]) ++ [op] /\
  pushed s (history w ++ [Started s op]) = ended s (history w ++ [Started s op]) ++ op :: rest.
Proof using Hw Hs Hp Eo.
  destruct Hw as [[Hso _ _] _]. destruct (so_history _ Hso s st Hs) as [E1 E2]. rewrite Hp, Eo in *. rewrite app_nil_r in E2.
  destruct (history_started s (history w) op) as (-> & -> & ->). by rewrite E1, E2.
Qed.

(** Not a kernel: it is done at once. *)
Lemma plain_ok w2 : is_kernel op = false -> streams w2 = <[s := mkStream (m_operations st) true]> (streams w) -> history w2 = history w ++ [Started s op] ->
  next_stream w2 = next_stream w -> m_streams w2 = m_streams w -> m_service_stream_zero w2 = m_service_stream_zero w -> m_gpu w2 = m_gpu w ->
  m_grid_id_to_stream w2 = m_grid_id_to_stream w -> (forall e, is_Some (events w !! e) -> is_Some (events w2 !! e)) ->
  exists w', record_next_done w2 s = Ok w' /\ run_ok w' /\ streams w' = <[s := mkStream rest false]> (streams w) /\
    m_service_stream_zero w' = m_service_stream_zero w /\ m_gpu w' = m_gpu w /\ history w' = history w ++ [Started s op; Ended s op] /\
    m_streams w' = m_streams w /\ next_stream w' = next_stream w /\ m_cuda_launch_blocking w' = m_cuda_launch_blocking w2 /\ memory w' = memory w2.
Proof using Hw Hs Hp Eo Hsv.
  intros Hk E1 E2 E3 E4 E5 E6 E7 E8. unfold record_next_done, stream_at. rewrite E1, lookup_insert_eq. simpl. rewrite Eo, insert_insert_eq, E2. simpl.
  pose proof front_op as Hop. destruct Hw as [[Hso Hg Hi] Ht]. pose proof (oo_kernel _ _ _ _ Hop) as Hnk. rewrite Hk in Hnk.
  pose proof (so_once _ Hso) as Hn. rewrite (all_kernels_at _ _ _ Hs) in Hn. unfold stream_kernels in Hn at 1. rewrite Eo in Hn. simpl in Hn. rewrite Hnk in Hn.
  set (w1 := with_streams w (<[s := mkStream rest false]> (streams w)) (history w ++ [Started s op; Ended s op])).
  assert (streams_ok w1) as H1.
  { apply (change_stream w s st); try done.
    - intros o Ho. apply (so_ops _ Hso s st); [done|]. rewrite Eo. by right.
    - intros a [->|[->|[]%not_elem_of_nil]%elem_of_cons]%elem_of_cons; done.
    - destruct history_start as [F1 F2]. change [Started s op; Ended s op] with ([Started s op] ++ [Ended s op]). rewrite app_assoc.
      destruct (history_ended s (history w ++ [Started s op]) op) as (-> & -> & ->). rewrite F1, F2, app_nil_r.
      split; [by rewrite <- app_assoc|done]. }
  rewrite <- app_assoc. eexists. split; [done|]. split; [split; [split|]|by split_and!].
  - eapply streams_ok_env; [exact H1|done..|left; exact E5|]. intros k0 x o _ _ [B1 B2 B3 B4 B5]. simpl. rewrite E6. split; try done. auto.
  - simpl. rewrite E6, E7. eapply gpu_ext; [exact Hg|]. intros k0 q. rewrite executing_insert. split.
    + intros Hx. left. split; [|done]. intros ->. destruct Hx as (x & ? & ? & Hx & Hpx & _). assert (x = st) as -> by congruence. congruence.
    + intros [[_ ?]|(_ & ? & _)]; done.
  - intros k0 x q. simpl. rewrite lookup_insert, E6. destruct (decide (s = k0)) as [<-|]; [|by apply Hi]. intros [= <-] Hq. apply (Hi s st); [done|].
    unfold waiting_kernels in *. rewrite Hp, Eo. simpl in *. by rewrite Hnk.
  - intros k0 x o r q l. simpl. rewrite lookup_insert, E6. destruct (decide (s = k0)) as [<-|]; [by intros [= <-]|apply Ht].
Qed.

(** A kernel: it is noted as the one in progress. *)
Lemma start_kernel_ok : is_kernel op = true -> exists p k w', start_next w s = Ok (op, w') /\ m_kernel op = Some p /\ kernels (m_gpu w) !! p = Some k /\
  kernel_done k = false /\ m_active_threads k = [] /\ threads_per_cta k <= n_thread_per_shader (m_gpu w) /\ (p ∉ running_list (m_gpu w)) /\
  (m_uid k ∉ m_finished_kernel (m_gpu w)) /\ run_ok w' /\ streams w' = <[s := mkStream (op :: rest) true]> (streams w) /\ m_gpu w' = m_gpu w /\
  m_service_stream_zero w' = m_service_stream_zero w /\ (forall m, follows (with_memory w m) (with_memory w' m) [Started s op]) /\ memory w' = memory w.
Proof using Hw Hs Hp Eo Hsv.
  intros Hk. pose proof front_op as Hop. pose proof (oo_kernel _ _ _ _ Hop) as Hkk. rewrite Hk in Hkk. destruct Hkk as (p & k & Hpk & Hkp & Hu & Hth).
  destruct Hw as [[Hso Hg Hi] Ht].
  destruct (Hi s st p Hs) as (k1 & Hk1 & Hd & Ha). { unfold waiting_kernels. rewrite Hp, Eo. simpl. rewrite Hpk. left. }
  assert (k1 = k) as -> by congruence.
  assert (p ∈ stream_kernels st) as Hin by (unfold stream_kernels; rewrite Eo; simpl; rewrite Hpk; left).
  assert (forall s', ~ executing (streams w) s' p) as Hnx.
  { intros s' Hx. destruct (executing_queued w s' p Hx) as (st' & Hs' & Hin'). pose proof (kernel_in_one _ _ _ _ _ _ (so_once _ Hso) Hs Hs' Hin Hin') as <-.
    destruct Hx as (x & ? & ? & Hx & Hpx & _). assert (x = st) as -> by congruence. congruence. }
  assert (forall q, ~ executing (streams w) s q) as Hnq.
  { intros q (x & ? & ? & Hx & Hpx & _). assert (x = st) as -> by congruence. congruence. }
  assert (p ∉ running_list (m_gpu w)) as Hnr by (intros Hr; destruct (proj2 (go_running _ _ _ Hg) p Hr) as (s' & ? & Hx & _); by apply (Hnx s')).
  assert (m_uid k ∉ m_finished_kernel (m_gpu w)) as Hnf.
  { intros Hf. destruct (proj2 (go_finished _ _ _ Hg) _ Hf) as (s' & q & l & Hx & Hl & El & _). rewrite (go_uids _ _ _ Hg q p l k Hl Hkp El) in Hx. by apply (Hnx s'). }
  unfold start_next, next, stream_at. rewrite Hs. simpl. rewrite Eo. simpl. rewrite Hk, Hpk. simpl. unfold kernel_at. rewrite Hkp. simpl.
  eexists p, k, _. split; [done|]. split_and!; try done. split; [split|].
  - assert (streams_ok (with_streams w (<[s := mkStream (op :: rest) true]> (streams w)) (history w ++ [Started s op]))) as H1.
    { apply (change_stream w s st); try done.
      - intros o Ho. apply (so_ops _ Hso s st); [done|]. by rewrite Eo.
      - pose proof (so_once _ Hso) as Hn. rewrite (all_kernels_at _ _ _ Hs) in Hn. unfold stream_kernels in *. by rewrite Eo in Hn.
      - intros _. by exists op, rest.
      - by intros a ->%list_elem_of_singleton.
      - simpl. rewrite take_0. destruct history_start as [F1 F2]. done. }
    eapply streams_ok_env; [exact H1|done..|by left|done].
  - simpl. eapply gpu_ext; [by apply (gpu_start _ _ _ s p k Hg)|]. intros k0 q. rewrite executing_insert. simpl. split.
    + intros [Hx|[-> ->]]; [left; split; [intros ->; by apply (Hnq q)|done]|right]. split; [done|]. split; [done|]. by exists op, rest.
    + intros [[_ ?]|(-> & _ & o & r & [= <- <-] & E)]; [by left|right]. split; [done|]. congruence.
  - intros k0 x q. simpl. rewrite lookup_insert. destruct (decide (s = k0)) as [<-|]; [|by apply Hi]. intros [= <-] Hq. apply (Hi s st); [done|].
    unfold waiting_kernels in *. rewrite Hp, Eo. simpl in *. rewrite Hpk. by right.
  - intros k0 x o r q l. simpl. rewrite lookup_insert. destruct (decide (s = k0)) as [<-|]; [|apply Ht]. intros [= <-] _ [= <- <-] E Hl [Hr|Hf].
    + exfalso. apply Hnr. by assert (q = p) as <- by congruence.
    + exfalso. apply Hnf. assert (q = p) as -> by congruence. by assert (l = k) as <- by congruence.
Qed.
(** What the operation left behind: it is over, or is a kernel in progress. *)
Definition start_left w' (l : list action) : Prop :=
  (l = [Started s op; Ended s op] /\ streams w' = <[s := mkStream rest false]> (streams w) /\ running_list (m_gpu w') = running_list (m_gpu w) /\
    m_finished_kernel (m_gpu w') = m_finished_kernel (m_gpu w) /\ (forall q, m_kernel op <> Some q -> kernels (m_gpu w') !! q = kernels (m_gpu w) !! q)) \/
  (l = [Started s op] /\ is_kernel op = true /\ streams w' = <[s := mkStream (op :: rest) true]> (streams w) /\
    m_finished_kernel (m_gpu w') = m_finished_kernel (m_gpu w) /\ kernels (m_gpu w') = kernels (m_gpu w) /\
    (forall q, q ∈ running_list (m_gpu w) -> q ∈ running_list (m_gpu w')) /\
    (forall q, q ∈ running_list (m_gpu w') -> q ∈ running_list (m_gpu w) \/ m_kernel op = Some q) /\
    (length (running_list (m_gpu w')) <= S (length (running_list (m_gpu w))))%nat /\
    (None ∈ m_running_kernels (m_gpu w) -> forall p, m_kernel op = Some p -> p ∈ running_list (m_gpu w'))).

Lemma start_do_plain cycle : is_kernel op = false -> exists w' l, ('(o, w1) ← start_next w s; do_operation perform cycle w1 o) = Ok w' /\ run_ok w' /\ follows w w' l /\
  m_service_stream_zero w' = m_service_stream_zero w /\ start_left w' l.
Proof using Hw Hs Hp Eo Hsv.
  intros Hk. pose proof front_op as [Es Ed Ek Ee _]. unfold start_next, next, stream_at. rewrite Hs. simpl. rewrite Eo. simpl. rewrite Hk. simpl.
  set (w1 := with_streams w (<[s := mkStream (op :: rest) true]> (streams w)) (history w ++ [Started s op])).
  unfold do_operation, is_noop. rewrite bool_decide_eq_false_2 by done. rewrite Ed, Es. simpl.
  assert (forall m ev, (forall e, is_Some (events w !! e) -> is_Some (ev !! e)) -> m = (if performs op then perform op (memory w) else memory w) ->
    exists w' l, record_next_done (with_events (with_memory w1 m) ev) s = Ok w' /\ run_ok w' /\ follows w w' l /\
      m_service_stream_zero w' = m_service_stream_zero w /\ start_left w' l) as Hend.
  { intros m ev Hev ->.
    destruct (plain_ok (with_events (with_memory w1 (if performs op then perform op (memory w) else memory w)) ev))
      as (w' & E & Hok & B1 & B2 & B3 & B4 & B5 & B6 & B7 & B8); try done; [simpl; by rewrite Eo|]. exists w', [Started s op; Ended s op]. split; [done|]. split; [done|].
    split; [by split; rewrite ?B3|]. split; [done|]. left. by rewrite B3. }
  unfold is_kernel in Hk. unfold performs in Hend. destruct (m_type op) eqn:E; try done; try exact (Hend _ (events w) (fun e H => H) eq_refl).
  destruct (Ee eq_refl) as [e He]. rewrite He. simpl. apply (Hend (memory w)); [|done]. intros e' He'. simpl. rewrite lookup_insert. destruct (decide (m_event op = e')); [by eexists|exact He'].
Qed.

Lemma start_do_kernel cycle : is_kernel op = true -> exists w' l, ('(o, w1) ← start_next w s; do_operation perform cycle w1 o) = Ok w' /\ run_ok w' /\ follows w w' l /\
  m_service_stream_zero w' = m_service_stream_zero w /\ start_left w' l.
Proof using Hw Hs Hp Eo Hsv.
  intros Hk. pose proof front_op as [Es Ed _ _ _].
  destruct (start_kernel_ok Hk) as (p & k & w1 & -> & Hpk & Hkp & Hd & Ha & Hth & Hnr & Hnf & Hok & E1 & E2 & E3 & E4 & E5). simpl.
  pose proof (E4 (memory w)) as Hfo. assert (with_memory w (memory w) = w) as Ew by (by destruct w).
  assert (with_memory w1 (memory w) = w1) as Ew1 by (rewrite <- E5; by destruct w1). rewrite Ew, Ew1 in Hfo.
  assert (streams w1 !! s = Some (mkStream (op :: rest) true)) as Hs1 by (rewrite E1; apply lookup_insert_eq).
  pose proof Hk as Hty. apply bool_decide_eq_true in Hty. unfold do_operation, is_noop. rewrite Hty, bool_decide_eq_false_2 by done. rewrite Ed, Es. simpl.
  rewrite can_start_live by (eapply gpu_ok_live, (mn_gpu _ (proj1 Hok))). simpl. rewrite E2.
  destruct (bool_decide_reflect (None ∈ m_running_kernels (m_gpu w))) as [Hroom|Hfull].
  2:{ exists w1, [Started s op]. split_and!; try done. right. rewrite E2. split_and!; try done; [by left|lia]. }
  rewrite Hpk. simpl. destruct (m_sim_mode op) eqn:Em.
  - unfold kernel_at. simpl. rewrite ?E2, Hkp. simpl.
    assert (run_ok (with_memory w1 (perform op (memory w1)))) as Hok2.
    { destruct Hok as [[B1 B2 B3] B4]. split; [split; try done|done]. eapply streams_ok_env; [exact B1|done..|by left|done]. }
    destruct (finish_ok _ s (mkStream (op :: rest) true) op rest p k Hok2) as (w' & E & Hok' & F1 & F2 & F3 & F4 & F5); try done; simpl; try (by rewrite E2).
    rewrite E. simpl. exists w', ([Started s op] ++ [Ended s op]). split; [done|]. split; [done|]. split.
    { eapply follows_trans; [exact Hfo|]. specialize (F5 (memory w1)). simpl in F5. unfold performs in F5. rewrite Hty, Em in F5.
      destruct F5 as [G1 G2 G3 G4 G5 G6 G7]. split; try done. rewrite F4. simpl. unfold performs. by rewrite Hty, Em. }
    split; [by rewrite F2|]. left. split; [done|]. rewrite F1, F3. simpl. rewrite E1, E2. split; [by rewrite insert_insert_eq|]. split; [done|]. split; [done|].
    intros q Hq. apply lookup_delete_ne. congruence.
  - destruct (launch_live (m_gpu w) p k) as (t & -> & Et & El); try done; [eapply gpu_ok_live, (mn_gpu _ (proj1 Hw))|]. simpl.
    exists (with_gpu w1 (with_table (m_gpu w) t (m_last_issued_kernel (m_gpu w)) (m_finished_kernel (m_gpu w)))), [Started s op]. split; [done|]. split.
    { rewrite <- E2. eapply (launch_ok w1 s (mkStream (op :: rest) true) op rest p k); try done; by rewrite ?E2. }
    split; [destruct Hfo as [G1 G2 G3 G4 G5 G6 G7]; split; try done|]. split; [done|]. right. split_and!; try done; unfold running_list; simpl; setoid_rewrite Et.
    + intros q Hq. by right.
    + intros q [->|Hq]%elem_of_cons; [by right|by left].
    + apply Nat.le_refl.
    + intros _ q Hq. assert (q = p) as -> by congruence. left.
Qed.

Lemma start_do cycle : exists w' l, ('(o, w1) ← start_next w s; do_operation perform cycle w1 o) = Ok w' /\ run_ok w' /\ follows w w' l /\
  m_service_stream_zero w' = m_service_stream_zero w /\ start_left w' l.
Proof using Hw Hs Hp Eo Hsv. destruct (is_kernel op) eqn:E; [by apply start_do_kernel|by apply start_do_plain]. Qed.
End starting.
(** ** The operation of the GPU thread *)

(** The first finished kernel, if any, is taken out of its stream. *)
Definition collected w w' (l : list action) : Prop :=
  (m_finished_kernel (m_gpu w) = [] /\ w' = w /\ l = []) \/
  exists k fin s st op rest p, m_finished_kernel (m_gpu w) = m_uid k :: fin /\ kernels (m_gpu w) !! p = Some k /\ m_finished_kernel (m_gpu w') = fin /\ streams w !! s = Some st /\
    m_pending st = true /\ m_operations st = op :: rest /\ m_kernel op = Some p /\ streams w' = <[s := mkStream rest false]> (streams w) /\
    running_list (m_gpu w') = running_list (m_gpu w) /\ kernels (m_gpu w') = delete p (kernels (m_gpu w)) /\ l = [Ended s op].

Lemma check_ok w : run_ok w -> exists b w' l, check_finished_kernel w = Ok (b, w') /\ run_ok w' /\ follows w w' l /\
  m_service_stream_zero w' = m_service_stream_zero w /\ collected w w' l.
Proof using.
  intros Hok. unfold check_finished_kernel, finished_kernel. destruct (m_finished_kernel (m_gpu w)) as [|u fin] eqn:Ef.
  { assert (with_gpu w (m_gpu w) = w) as -> by (by destruct w). unfold register_finished_kernel. simpl. exists false, w, []. split_and!; try done; [apply follows_refl|by left]. }
  destruct Hok as [[Hso Hg Hi] Ht]. destruct (go_finished _ _ _ Hg) as [Hnd Hfin]. rewrite Ef in Hnd. apply NoDup_cons in Hnd as [Hu Hnd].
  destruct (Hfin u) as (s & p & k & (st & op & rest & Hs & Hp & Eo & Hk) & Hkp & <- & Hnr & Ha); [rewrite Ef; left|].
  set (w1 := with_gpu w (with_table (m_gpu w) (m_running_kernels (m_gpu w)) (m_last_issued_kernel (m_gpu w)) fin)).
  assert (run_ok w1) as Hok1.
  { split; [split|].
    - eapply streams_ok_env; [exact Hso|done..|by left|]. intros k0 x o _ _ [B1 B2 B3 B4 B5]. by split.
    - by apply (gpu_collect _ _ _ (m_uid k)).
    - exact Hi.
    - intros k0 x o r q l H1 H2 H3 H4 H5 H6. eapply Ht; eauto. destruct H6 as [H6|H6]; [by left|right]. rewrite Ef. by right. }
  destruct (finish_ok w1 s st op rest p k Hok1) as (w' & E & Hok' & F1 & F2 & F3 & F4 & F5); try done.
  assert (performs op = false) as Hpf.
  { unfold performs. pose proof (so_ops _ Hso s st op Hs) as Hop. rewrite Eo in Hop. specialize (Hop ltac:(left)). pose proof (oo_kernel _ _ _ _ Hop) as Hkk.
    unfold is_kernel in Hkk. destruct (bool_decide_reflect (m_type op = stream_kernel_launch)) as [->|]; [|congruence].
    eapply Ht; eauto. right. rewrite Ef. left. }
  exists true, w', [Ended s op]. split; [done|]. split; [done|]. split.
  { destruct (F5 (memory w)) as [G1 G2 G3 G4 G5 G6 G7]. split; try done. simpl. by rewrite Hpf, F4. }
  split; [done|]. right. exists k, fin, s, st, op, rest, p. by rewrite F3.
Qed.

Lemma all_empty_spec w l : (forall s, s ∈ l -> is_Some (streams w !! s)) ->
  exists b, all_empty w l = Ok b /\ (if b then forall s st, s ∈ l -> streams w !! s = Some st -> m_operations st = []
    else exists s st, s ∈ l /\ streams w !! s = Some st /\ m_operations st <> []).
Proof using.
  induction l as [|s l IH]; intros Hl; simpl.
  { exists true. split; [done|]. intros s st []%not_elem_of_nil. }
  destruct IH as (b & -> & Hb); [intros k Hk; apply Hl; by right|]. destruct (Hl s ltac:(left)) as [st Hs]. unfold stream_at. rewrite Hs. simpl.
  exists (stream_empty st && b). split; [done|]. unfold stream_empty. destruct (m_operations st) as [|op rest] eqn:Eo; simpl.
  - destruct b.
    + intros k x [->|Hk]%elem_of_cons Hx; [congruence|by apply (Hb k)].
    + destruct Hb as (k & x & Hk & Hx). exists k, x. split; [by right|done].
  - exists s, st. split; [left|]. split; [done|]. by rewrite Eo.
Qed.

Definition ready_front w s st op rest : Prop := streams w !! s = Some st /\ m_pending st = false /\ m_operations st = op :: rest.

Lemma first_ready_spec w l : (forall s, s ∈ l -> is_Some (streams w !! s)) ->
  (first_ready w l = Ok (no_operation, w) /\ forall s st, s ∈ l -> streams w !! s = Some st -> m_pending st = true \/ m_operations st = []) \/
  (exists s st op rest, s ∈ l /\ ready_front w s st op rest /\ first_ready w l = start_next w s).
Proof using.
  induction l as [|s l IH]; intros Hl; simpl; [left; split; [done|by intros s st ?%not_elem_of_nil]|].
  destruct (Hl s ltac:(left)) as [st Hs]. unfold stream_at. rewrite Hs. simpl. unfold stream_empty.
  destruct (m_pending st) eqn:Hp; [|destruct (m_operations st) as [|op rest] eqn:Eo]; simpl.
  3:{ right. exists s, st, op, rest. split; [left|]. by split. }
  all: destruct IH as [[-> H]|(k & x & o & r & Hk & Hr & ->)]; [intros k Hk; apply Hl; by right|left|right; exists k, x, o, r; split; [by right|done]].
  all: split; [done|]; intros k x [->|Hk]%elem_of_cons Hx; [|by apply (H k)]; assert (x = st) as -> by congruence; auto.
Qed.

(** What [front] and [do_operation] come to. *)
Inductive fronted w : manager M → list action → Prop :=
  | front_start s st op rest w' l :
      ready_front w s st op rest ->
      (m_service_stream_zero w = bool_decide (s = zero) \/ s = zero /\ m_service_stream_zero w = false) ->
      (forall s' st', streams w !! s' = Some st' -> (s' = zero <-> s <> zero) -> m_pending st' = false) ->
      m_service_stream_zero w' = bool_decide (s = zero) ->
      start_left w s op rest w' l ->
      fronted w w' l
  | front_yield : m_service_stream_zero w = true -> (exists s st, streams w !! s = Some st /\ m_operations st <> []) ->
      fronted w (with_service w false) []
  | front_wait s st : streams w !! s = Some st -> m_pending st = true -> fronted w w []
  | front_idle : (forall s st, streams w !! s = Some st -> m_operations st = []) -> fronted w (with_service w false) [].

Lemma with_service_same w b : m_service_stream_zero w = b -> with_service w b = w.
Proof using. intros <-. by destruct w. Qed.
Lemma service_ok w b : run_ok w -> (forall s st, streams w !! s = Some st -> m_pending st = true -> b = bool_decide (s = zero)) -> run_ok (with_service w b).
Proof using.
  intros [[Hso Hg Hi] Ht] H. split; [split; try done|done]. eapply streams_ok_env; [exact Hso|done..|by right|done].
Qed.
Lemma follows_service w b : follows w (with_service w b) [].
Proof using. split; try done. by rewrite app_nil_r. Qed.
Lemma pending_nonempty w s st : run_ok w -> streams w !! s = Some st -> m_pending st = true -> m_operations st <> [].
Proof using. intros [[Hso _ _] _] Hs Hp E. destruct (so_front _ Hso s st Hs Hp) as (? & ? & Eo & _). by rewrite E in Eo. Qed.

Lemma front_begin cycle w b s st op rest : run_ok (with_service w b) -> b = bool_decide (s = zero) -> ready_front w s st op rest ->
  (m_service_stream_zero w = b \/ s = zero /\ m_service_stream_zero w = false) ->
  exists w' l, ('(o, w1) ← start_next (with_service w b) s; do_operation perform cycle w1 o) = Ok w' /\ run_ok w' /\ follows w w' l /\ fronted w w' l.
Proof using.
  intros Hok Hb (Hs & Hp & Eo) Hsv. destruct (start_do (with_service w b) s st op rest Hok Hs Hp Eo Hb cycle) as (w' & l & E & Hok' & Hfo & Ev & Hl).
  exists w', l. split; [done|]. split; [done|]. split; [eapply (follows_trans _ _ _ [] l); [apply follows_service|exact Hfo]|].
  rewrite Hb in Hsv, Ev. apply (front_start w s st op rest); try done. intros s' st' Hs' Hne. destruct (m_pending st') eqn:Hp'; [|done]. exfalso.
  destruct (so_excl _ (mn_streams _ (proj1 Hok))) as [A1 A2]. simpl in A1, A2.
  destruct (decide (s = zero)) as [->|Hz].
  - specialize (A2 s' st' ltac:(tauto) Hs' Hp'). rewrite A2 in Hb. by rewrite bool_decide_eq_true_2 in Hb.
  - assert (s' = zero) as -> by tauto. specialize (A1 st' Hs' Hp'). rewrite A1 in Hb. by rewrite bool_decide_eq_false_2 in Hb.
Qed.

(** [front] starts the operation in front of a stream, or there is none to start. *)
Lemma front_cases w : run_ok w ->
  (exists b s st op rest, run_ok (with_service w b) /\ b = bool_decide (s = zero) /\ ready_front w s st op rest /\
     (m_service_stream_zero w = b \/ s = zero /\ m_service_stream_zero w = false) /\ manager_front w = start_next (with_service w b) s) \/
  (exists w', manager_front w = Ok (no_operation, w') /\ run_ok w' /\ follows w w' [] /\ fronted w w' []).
Proof using.
  intros Hok. pose proof (mn_streams _ (proj1 Hok)) as Hso. destruct (so_zero _ Hso) as [st0 H0].
  assert (forall s, s ∈ m_streams w -> is_Some (streams w !! s)) as Hm by (intros s Hs; by apply (so_members _ Hso)).
  assert (forall s st, streams w !! s = Some st -> s = zero \/ s ∈ m_streams w) as Hcov.
  { intros s st Hs. destruct (decide (s = zero)); [by left|right]. apply (so_members _ Hso). split; [done|by eexists]. }
  destruct (so_excl _ Hso) as [Hx0 Hx]. unfold manager_front, concurrent_streams_empty.
  destruct (all_empty_spec w (m_streams w) Hm) as (b & -> & Hb). cbn [mbind outcome_bind].
  assert (forall v : bool, (if b then v = true else v = m_service_stream_zero w) -> v = true ->
    let front := (st ← stream_at (with_service w v) zero;
      if negb (stream_empty st) then if negb (m_pending st) then start_next (with_service w v) zero else mret (no_operation, with_service w v)
      else mret (no_operation, with_service (with_service w v) false)) in
    (exists b s st op rest, run_ok (with_service w b) /\ b = bool_decide (s = zero) /\ ready_front w s st op rest /\
       (m_service_stream_zero w = b \/ s = zero /\ m_service_stream_zero w = false) /\ front = start_next (with_service w b) s) \/
    (exists w', front = Ok (no_operation, w') /\ run_ok w' /\ follows w w' [] /\ fronted w w' [])) as Hz.
  { intros v Hv -> front. unfold front, stream_at. simpl. rewrite H0. simpl. unfold stream_empty. destruct (m_operations st0) as [|op rest] eqn:Eo; simpl.
    - right. exists (with_service w false). split; [done|]. split.
      + apply service_ok; [done|]. intros s st Hs Hp. destruct (decide (s = zero)) as [->|Hne]; [|by rewrite bool_decide_eq_false_2].
        assert (st = st0) as -> by congruence. by destruct (pending_nonempty w zero st0 Hok H0 Hp).
      + split; [apply follows_service|]. destruct b; [apply front_idle|].
        * intros s st Hs. destruct (Hcov s st Hs) as [->|Hin]; [congruence|by apply (Hb s)].
        * destruct Hb as (s & st & _ & Hs & Hne). apply front_yield; [done|by exists s, st].
    - destruct (m_pending st0) eqn:Hp; simpl.
      + right. rewrite (with_service_same w true (Hx0 st0 H0 Hp)). exists w. split; [done|]. split; [done|]. split; [apply follows_refl|].
        by apply (front_wait w zero st0).
      + left. exists true, zero, st0, op, rest. split_and!; try done.
        * apply service_ok; [done|]. intros s st Hs Hps. destruct (decide (s = zero)) as [->|Hne]; [done|]. exfalso. destruct b.
          -- destruct (Hcov s st Hs) as [|Hin]; [done|]. by apply (pending_nonempty w s st Hok Hs Hps), (Hb s).
          -- specialize (Hx s st Hne Hs Hps). congruence.
        * destruct b; [|by left]. destruct (m_service_stream_zero w); auto. }
  destruct b; [by apply (Hz true)|]. destruct (m_service_stream_zero w) eqn:Ev; [specialize (Hz true eq_refl eq_refl); by rewrite (with_service_same w true Ev) in Hz|].
  destruct (first_ready_spec w (m_streams w) Hm) as [[-> Hall]|(s & st & op & rest & Hin & Hr & ->)].
  - right. exists w. split; [done|]. split; [done|]. split; [apply follows_refl|]. destruct Hb as (s & st & Hin & Hs & Hne).
    destruct (Hall s st Hin Hs) as [Hp|]; [|done]. by apply (front_wait w s st).
  - apply (so_members _ Hso) in Hin as [Hne _]. left. exists false, s, st, op, rest. rewrite (with_service_same w false Ev).
    split_and!; try done; [by rewrite bool_decide_eq_false_2|by left].
Qed.

Lemma front_ok cycle w : run_ok w ->
  exists w' l, ('(op, w1) ← manager_front w; do_operation perform cycle w1 op) = Ok w' /\ run_ok w' /\ follows w w' l /\ fronted w w' l.
Proof using.
  intros Hok. destruct (front_cases w Hok) as [(b & s & st & op & rest & Hb & Eb & Hr & Hv & ->)|(w' & -> & H)].
  - by eapply front_begin.
  - by exists w', [].
Qed.

(** A kernel that [front] starts is in progress, and neither in the table nor reported. *)
Lemma front_kernel_started w op w' : run_ok w -> manager_front w = Ok (op, w') -> is_kernel op = true ->
  exists s p k, m_stream op = Some s /\ m_done op = false /\ m_kernel op = Some p /\ executing (streams w') s p /\ kernels (m_gpu w') !! p = Some k /\
    (p ∉ running_list (m_gpu w')) /\ (m_uid k ∉ m_finished_kernel (m_gpu w')).
Proof using perform compute.
  intros Hok E Hk. destruct (front_cases w Hok) as [(b & s & st & o & rest & Hb & Eb & (Hs & Hp & Eo) & Hv & E')|(w2 & E' & _)]; rewrite E in E'.
  2: { injection E' as -> ->. done. }
  symmetry in E'. assert (o = op) as ->.
  { unfold start_next, next, stream_at in E'. simpl in E'. rewrite Hs in E'. simpl in E'. rewrite Eo in E'. simpl in E'.
    destruct (is_kernel o); [|by injection E']. apply bind_ok in E' as (q & _ & E'). apply bind_ok in E' as (k & _ & E'). by injection E'. }
  destruct (start_kernel_ok (with_service w b) s st op rest Hb Hs Hp Eo Eb Hk) as (p & k & w1 & E1 & Hpk & Hkp & _ & _ & _ & Hnr & Hnf & _ & E2 & E3 & _).
  rewrite E1 in E'. injection E' as <-. pose proof (front_op (with_service w b) s st op rest Hb Hs Eo) as Hop.
  exists s, p, k. rewrite E3. split_and!; try done; [apply Hop|apply Hop|]. rewrite E2. apply executing_insert. right. split; [done|]. split; [done|]. by exists op, rest.
Qed.

Lemma operation_ok cycle w : run_ok w ->
  exists w1 w' l1 l2, operation perform cycle w = Ok w' /\ run_ok w1 /\ run_ok w' /\ follows w w1 l1 /\ follows w1 w' l2 /\
    m_service_stream_zero w1 = m_service_stream_zero w /\ collected w w1 l1 /\ fronted w1 w' l2.
Proof using.
  intros Hok. destruct (check_ok w Hok) as (b & w1 & l1 & E1 & Hok1 & Hf1 & Ev & Hc). destruct (front_ok cycle w1 Hok1) as (w' & l2 & E2 & Hok' & Hf2 & Hfr).
  exists w1, w', l1, l2. split_and!; try done. unfold operation. rewrite E1. simpl. exact E2.
Qed.
End run.
