(* ===== verification/StreamHost.v ===== *)
(** * Host threads, the GPU thread and the cores

    The steps that bring the stream manager from one state to the next, each under the
    manager's lock: the GPU thread's operation, what host threads do, and what the cores
    do to the kernels of the table and, while these run, to the memories.  In every state that is reached the operation of the
    GPU thread succeeds, the operations of a stream start and end in the order in which
    they were pushed, and those of stream zero and of the other streams are never in
    progress together.  *)

From S2P Require Import Prelude PtxMemory Kernel StreamManager StreamInv StreamRun.

Section host.
Context {M : Type} (perform : stream_operation → M → M) (compute : memory_work → M → M).
Implicit Types (w : manager M) (op : stream_operation) (st : CUstream_st).

(** An operation that a host thread may push: its stream, event and kernel exist, and the
    kernel is new. *)
Record host_op w op : Prop := {
  ho_stream : forall s, m_stream op = Some s -> is_Some (streams w !! s);
  ho_done : m_done op = false;
  ho_kind : m_type op <> stream_no_op;
  ho_event : m_type op = stream_event -> is_Some (events w !! m_event op);
  ho_kernel : if is_kernel op then exists p k, m_kernel op = Some p /\ kernels (m_gpu w) !! p = Some k /\ 0 < m_uid k /\
      threads_per_cta k <= n_thread_per_shader (m_gpu w) /\ (p ∉ all_kernels (streams w)) /\ kernel_done k = false /\ m_active_threads k = []
    else m_kernel op = None }.

(** The cores have worked on a kernel. *)
Definition same_kernel (k k' : kernel_info_t) : Prop := m_uid k' = m_uid k /\ m_block_dim k' = m_block_dim k.

Inductive core_step (g : gpgpu_sim) : gpgpu_sim → Prop :=
  | core_work p k k' : p ∈ running_list g -> kernels g !! p = Some k -> same_kernel k k' -> kernel_done k' = false -> core_step g (with_kernel g p k')
  | core_complete p k k' g' : p ∈ running_list g -> kernels g !! p = Some k -> same_kernel k k' -> kernel_done k' = true -> m_active_threads k' = [] ->
      set_kernel_done (with_kernel g p k') p = Ok g' -> core_step g g'.

(** While a kernel is in the table its threads change the memories: [compute x] is what
    one such change does to them. *)
Definition with_work w (x : memory_work) : manager M :=
  mkManager (streams w) (next_stream w) (m_streams w) (m_grid_id_to_stream w) (m_service_stream_zero w) (m_cuda_launch_blocking w)
    (m_gpu w) (events w) (compute x (memory w)) (history w ++ [Worked x]).
Inductive cores_step w : manager M → Prop :=
  | cores_table g' : core_step (m_gpu w) g' -> cores_step w (with_gpu w g')
  | cores_write x : cw_kernel x ∈ running_list (m_gpu w) -> cores_step w (with_work w x).

Inductive stream_step w : manager M → Prop :=
  | step_operation cycle w' : operation perform cycle w = Ok w' -> stream_step w w'
  | step_cores w' : cores_step w w' -> stream_step w w'
  | step_push op phase phase' w' : host_op w op -> push_step w op phase = Ok (w', phase') -> stream_step w w'
  | step_add : stream_step w (add_stream w stream_new).2
  | step_destroy s w' : s <> zero -> destroy_stream w s = Ok w' -> stream_step w w'
  | step_new_event e : events w !! e = None -> stream_step w (with_events w (<[e := event_new]> (events w)))
  | step_new_kernel p k uid next gridDim blockDim entry : kernels (m_gpu w) !! p = None -> 0 < uid ->
      (forall q l, kernels (m_gpu w) !! q = Some l -> m_uid l <> uid) -> kernel_info_new uid gridDim blockDim entry = Ok (k, next) ->
      stream_step w (with_gpu w (with_kernel (m_gpu w) p k)).

(** ** Each step keeps the invariant *)

Lemma op_ok_kernel ev g s op p k : (forall l, kernels g !! p = Some l -> same_kernel l k) -> op_ok ev g s op -> op_ok ev (with_kernel g p k) s op.
Proof using.
  intros Hk [A1 A2 A3 A4 A5]. split; try done. destruct (is_kernel op); [|done]. destruct A5 as (q & l & E & Hl & Hu & Ht).
  destruct (decide (q = p)) as [->|Hne]; [|exists q, l; simpl; by rewrite lookup_insert_ne].
  exists p, k. simpl. rewrite lookup_insert_eq. destruct (Hk l Hl) as [E1 E2]. unfold threads_per_cta in *. rewrite E1, E2. done.
Qed.

Lemma set_stream_same op s : m_stream op = Some s -> set_stream op s = op.
Proof using. destruct op. simpl. by intros ->. Qed.

Lemma host_op_ok w op s : host_op w op -> op_ok (events w) (m_gpu w) s (set_stream op s).
Proof using.
  intros [A1 A2 A3 A4 A5]. split; try done. change (is_kernel (set_stream op s)) with (is_kernel op). destruct (is_kernel op); [|done].
  destruct A5 as (p & k & ? & ? & ? & ? & _). by exists p, k.
Qed.

Lemma stream_push_ok w op s st : run_ok w -> host_op w op -> streams w !! s = Some st ->
  exists w', stream_push w s (set_stream op s) = Ok w' /\ run_ok w' /\ follows perform compute w w' [Pushed s (set_stream op s)] /\
    streams w' = <[s := mkStream (m_operations st ++ [set_stream op s]) (m_pending st)]> (streams w) /\ m_gpu w' = m_gpu w /\
    m_service_stream_zero w' = m_service_stream_zero w.
Proof using.
  intros [[Hso Hg Hi] Ht] Hop Hs. unfold stream_push, stream_at. rewrite Hs. simpl. eexists. split; [done|]. split; [split; [split|]|done].
  - apply (change_stream w s st); try done; simpl.
    + intros o [Ho| ->%list_elem_of_singleton]%elem_of_app; [by apply (so_ops _ Hso s st)|by apply host_op_ok].
    + pose proof (so_once _ Hso) as Hn. rewrite (all_kernels_at _ _ _ Hs) in Hn. unfold stream_kernels in *. cbn [m_operations]. rewrite omap_app. cbn.
      pose proof (ho_kernel _ _ Hop) as Hk. destruct (is_kernel op); [|rewrite Hk; by rewrite app_nil_r].
      destruct Hk as (p & k & -> & _ & _ & _ & Hp & _). rewrite (all_kernels_at _ _ _ Hs) in Hp. rewrite <- app_assoc. simpl.
      rewrite <- Permutation_middle. by constructor.
    + intros Hp. destruct (so_front _ Hso s st Hs Hp) as (o & r & E & Ho). exists o, (r ++ [set_stream op s]). by rewrite E.
    + intros Hp. destruct (so_excl _ Hso) as [A1 A2]. destruct (decide (s = zero)) as [->|Hne]; [by apply (A1 st)|].
      rewrite bool_decide_eq_false_2 by done. by apply (A2 s st).
    + by intros a ->%list_elem_of_singleton.
    + destruct (history_pushed s (history w) (set_stream op s)) as (-> & -> & ->). destruct (so_history _ Hso s st Hs) as [E1 E2].
      rewrite E1, E2. split; [by rewrite app_assoc|]. f_equal. destruct (m_pending st) eqn:Hp; [|done].
      destruct (so_front _ Hso s st Hs Hp) as (o & r & -> & _). simpl. by rewrite !take_0.
  - simpl. eapply gpu_ext; [exact Hg|]. intros k0 q. rewrite executing_insert. simpl. split.
    + intros Hx. destruct (decide (k0 = s)) as [->|]; [right|by left]. destruct Hx as (x & o & r & Hx & Hp & Eo & Hq). assert (x = st) as -> by congruence.
      split; [done|]. split; [done|]. exists o, (r ++ [set_stream op s]). by rewrite Eo.
    + intros [[_ ?]|(-> & Hp & o & r & Eo & Hq)]; [done|]. destruct (so_front _ Hso s st Hs Hp) as (o' & r' & E & _). rewrite E in Eo. simpl in Eo.
      exists st, o', r'. split_and!; try done. congruence.
  - intros k0 x q. simpl. rewrite lookup_insert. destruct (decide (s = k0)) as [<-|]; [|by apply Hi]. intros [= <-] Hq.
    assert (waiting_kernels (mkStream (m_operations st ++ [set_stream op s]) (m_pending st)) = waiting_kernels st ++ omap m_kernel [set_stream op s]) as E.
    { unfold waiting_kernels. simpl. destruct (m_pending st) eqn:Hp; [|by rewrite omap_app].
      destruct (so_front _ Hso s st Hs Hp) as (o & r & -> & _). simpl. by rewrite omap_app. }
    rewrite E in Hq. apply elem_of_app in Hq as [Hq|Hq]; [by apply (Hi s st)|]. pose proof (ho_kernel _ _ Hop) as Hk. simpl in Hq.
    destruct (is_kernel op); [|by rewrite Hk in Hq; apply not_elem_of_nil in Hq]. destruct Hk as (p & k & Ep & H1 & _ & _ & _ & H2 & H3). rewrite Ep in Hq.
    apply list_elem_of_singleton in Hq as ->. by exists k.
  - intros k0 x o r q l. simpl. rewrite lookup_insert. destruct (decide (s = k0)) as [<-|]; [|by apply Ht]. intros [= <-] Hp Eo. simpl in Hp, Eo.
    destruct (so_front _ Hso s st Hs Hp) as (o' & r' & E & _). rewrite E in Eo. simpl in Eo. injection Eo as <- _. by eapply Ht.
Qed.

Lemma push_ok w op : run_ok w -> host_op w op -> exists s st w', push_insert w op = Ok w' /\ streams w !! s = Some st /\ run_ok w' /\
  follows perform compute w w' [Pushed s (set_stream op s)] /\ streams w' = <[s := mkStream (m_operations st ++ [set_stream op s]) (m_pending st)]> (streams w) /\
  m_gpu w' = m_gpu w /\ m_service_stream_zero w' = m_service_stream_zero w.
Proof using.
  intros Hok Hop. destruct (so_zero _ (mn_streams _ (proj1 Hok))) as [st0 H0]. destruct (stream_push_ok w op zero st0 Hok Hop H0) as (w0 & E0 & H).
  assert (forall o, o = Ok w0 -> exists s st w', o = Ok w' /\ streams w !! s = Some st /\ run_ok w' /\
    follows perform compute w w' [Pushed s (set_stream op s)] /\ streams w' = <[s := mkStream (m_operations st ++ [set_stream op s]) (m_pending st)]> (streams w) /\
    m_gpu w' = m_gpu w /\ m_service_stream_zero w' = m_service_stream_zero w) as Hz by (intros o ->; exists zero, st0, w0; tauto).
  unfold push_insert. destruct (m_stream op) as [s|] eqn:Es; [|by apply Hz]. destruct (m_cuda_launch_blocking w); simpl; [by apply Hz|].
  destruct (ho_stream _ _ Hop s Es) as [st Hs]. destruct (stream_push_ok w op s st Hok Hop Hs) as (w' & E & H').
  exists s, st, w'. rewrite (set_stream_same op s Es) in *. tauto.
Qed.

(** ** The cores *)

Lemma waiting_not_executing w s p s' st' : manager_ok w -> executing (streams w) s p -> streams w !! s' = Some st' -> p ∉ waiting_kernels st'.
Proof using.
  intros [Hso _ _] Hx Hs' Hp. pose proof (executing_queued w s p Hx) as (st & Hs & Hq). destruct Hx as (x & op & rest & Hx & Hpe & Eo & Hk).
  assert (x = st) as -> by congruence. pose proof (kernel_in_one _ _ _ _ _ _ (so_once _ Hso) Hs Hs' Hq (waiting_queued _ _ Hp)) as <-.
  assert (st' = st) as -> by congruence. pose proof (so_once _ Hso) as Hn. rewrite (all_kernels_at _ _ _ Hs) in Hn. apply NoDup_app in Hn as [Hn _].
  unfold stream_kernels, waiting_kernels in *. rewrite Hpe, Eo in *. simpl in *. rewrite Hk in Hn. by apply NoDup_cons in Hn as [Hn _].
Qed.

(** A kernel of the table, with changes that leave its number and its blocks. *)
Lemma idle_kernel w p k : manager_ok w -> p ∈ running_list (m_gpu w) -> forall s st q, streams w !! s = Some st -> q ∈ waiting_kernels st ->
  exists l, kernels (with_kernel (m_gpu w) p k) !! q = Some l /\ kernel_done l = false /\ m_active_threads l = [].
Proof using.
  intros Hok Hp s st q Hs Hq. simpl. rewrite lookup_insert_ne; [by apply (mn_idle _ Hok s st)|]. intros <-.
  destruct (proj2 (go_running _ _ _ (mn_gpu _ Hok)) p Hp) as (s' & _ & Hx & _). by apply (waiting_not_executing w s' p s st).
Qed.

Lemma work_ok w p k k' : run_ok w -> p ∈ running_list (m_gpu w) -> kernels (m_gpu w) !! p = Some k -> same_kernel k k' -> kernel_done k' = false ->
  run_ok (with_gpu w (with_kernel (m_gpu w) p k')).
Proof using.
  intros [Hok Ht] Hp Hk [E1 E2] Hd. pose proof Hok as [Hso Hg Hi]. split; [split|].
  - eapply streams_ok_env; [exact Hso|done..|by left|]. intros s st op _ _. apply op_ok_kernel. intros l Hl. by assert (l = k) as -> by congruence.
  - apply gpu_kernel; [done|]. by rewrite Hk.
  - simpl. by apply idle_kernel.
  - intros s st op rest q l Hs Hpe Eo Hq. simpl. rewrite lookup_insert. destruct (decide (p = q)) as [<-|]; [|by apply (Ht s st op rest)].
    intros [= <-] _. by apply (Ht s st op rest p k); try left.
Qed.

Definition without_threads (k : kernel_info_t) : kernel_info_t :=
  mkKernel (m_kernel_entry k) (m_uid k) (m_grid_dim k) (m_block_dim k) (m_next_cta k) (m_next_tid k) (m_num_cores_running k) [] (m_param_mem k).

Lemma complete_ok w p k k' : run_ok w -> p ∈ running_list (m_gpu w) -> kernels (m_gpu w) !! p = Some k -> same_kernel k k' -> m_active_threads k' = [] ->
  exists t, set_kernel_done (with_kernel (m_gpu w) p k') p =
      Ok (with_table (with_kernel (m_gpu w) p k') t (m_last_issued_kernel (m_gpu w)) (m_finished_kernel (m_gpu w) ++ [m_uid k])) /\
    running_list (m_gpu w) ≡ₚ p :: omap id t /\ length t = length (m_running_kernels (m_gpu w)) /\
    run_ok (with_gpu w (with_table (with_kernel (m_gpu w) p k') t (m_last_issued_kernel (m_gpu w)) (m_finished_kernel (m_gpu w) ++ [m_uid k]))).
Proof using.
  intros [Hok Ht] Hp Hk [E1 E2] Ha. pose proof Hok as [Hso Hg Hi].
  destruct (done_live (with_kernel (m_gpu w) p k') p k') as (t & E & Et & El); [simpl; apply lookup_insert_eq|done|]. rewrite E1 in E. exists t.
  split; [done|]. split; [done|]. split; [done|]. destruct (proj2 (go_running _ _ _ Hg) p Hp) as (s & k1 & Hx & Hk1 & Hd).
  assert (k1 = k) as -> by congruence. split; [split|].
  - eapply streams_ok_env; [exact Hso|done..|by left|]. intros s' st op _ _ Hop.
    destruct (op_ok_kernel (events w) (m_gpu w) s' op p k') as [B1 B2 B3 B4 B5]; [|done|by split]. intros l Hl. by assert (l = k) as -> by congruence.
  - set (g1 := with_kernel (m_gpu w) p (without_threads k)). assert (gpu_ok (executing (streams w)) (m_grid_id_to_stream w) g1) as Hg1.
    { apply gpu_kernel; [done|]. by rewrite Hk. }
    pose proof (gpu_complete _ _ g1 s p (without_threads k) t (m_last_issued_kernel (m_gpu w)) Hg1 Hx (lookup_insert_eq _ _ _) eq_refl Et) as Hg2.
    eapply (gpu_kernel _ _ _ p k') in Hg2.
    + unfold with_kernel in Hg2. simpl in Hg2. by rewrite insert_insert_eq in Hg2.
    + simpl. rewrite lookup_insert_eq. split; [done|]. split; [|done]. unfold running_list. simpl. intros Hin.
      pose proof (proj1 (go_running _ _ _ Hg)) as Hn. change (running_list (with_kernel (m_gpu w) p k')) with (running_list (m_gpu w)) in Et. rewrite Et in Hn.
      by apply NoDup_cons in Hn as [Hn _].
  - simpl. by apply idle_kernel.
  - change (running_list (with_kernel (m_gpu w) p k')) with (running_list (m_gpu w)) in Et.
    intros s' st op rest q l Hs Hpe Eo Hq. simpl. rewrite lookup_insert. unfold running_list at 1. simpl.
    destruct (decide (p = q)) as [<-|Hne]; [intros _ _; by apply (Ht s' st op rest p k); try left|]. intros Hl [Hr|[Hf|Hf]%elem_of_app].
    + apply (Ht s' st op rest q l); try done. left. rewrite Et. by right.
    + apply (Ht s' st op rest q l); try done. by right.
    + apply list_elem_of_singleton in Hf. by destruct Hne, (go_uids _ _ _ Hg q p l k).
Qed.

Lemma core_step_ok w g' : run_ok w -> core_step (m_gpu w) g' -> run_ok (with_gpu w g').
Proof using.
  intros Hok [p k k' Hp Hk Hsk Hd|p k k' g'' Hp Hk Hsk Hd Ha E]; [by apply (work_ok w p k)|].
  destruct (complete_ok w p k k' Hok Hp Hk Hsk Ha) as (t & E' & _ & _ & H). rewrite E in E'. by injection E' as ->.
Qed.

(** The actions of the cores are none of a stream. *)
Lemma history_worked h x s : pushed s (h ++ [Worked x]) = pushed s h /\ started s (h ++ [Worked x]) = started s h /\
  ended s (h ++ [Worked x]) = ended s h.
Proof using. destruct (history_app s h [Worked x]) as (-> & -> & ->). cbn. by rewrite !app_nil_r. Qed.

Lemma write_ok w x : run_ok w -> run_ok (with_work w x).
Proof using.
  intros [[Hso Hg Hi] Ht]. split; [split; [|done..]|done]. destruct Hso as [A1 A2 A3 (A4 & A4' & A4'') A5 A6 A7 A8 A9]. split; try done; simpl.
  - split; [done|]. split; [done|]. intros a [Ha| ->%list_elem_of_singleton]%elem_of_app; [by apply A4''|done].
  - intros s st Hs. destruct (history_worked (history w) x s) as (-> & -> & ->). by apply A9.
Qed.

Lemma cores_step_ok w w' : run_ok w -> cores_step w w' -> run_ok w'.
Proof using. intros Hok [g' Hc|x _]; [by apply core_step_ok|by apply write_ok]. Qed.

(** ** Streams, events and kernels come and go *)

Lemma history_fresh w s : streams_ok w -> next_stream w <= s -> pushed s (history w) = [] /\ started s (history w) = [] /\ ended s (history w) = [].
Proof using. intros Hso Hs. apply history_other. intros a Ha. destruct (so_fresh _ Hso) as (_ & _ & H). specialize (H a Ha). lia. Qed.

Lemma executing_new m s : m !! s = None -> forall k p, executing m k p <-> executing (<[s := stream_new]> m) k p.
Proof using.
  intros Hs k p. rewrite executing_insert. simpl. split; [|intros [[_ ?]|(_ & ? & _)]; done].
  intros Hx. left. split; [|done]. intros ->. destruct Hx as (x & _ & _ & Hx & _). congruence.
Qed.

Lemma add_ok w : run_ok w -> run_ok (add_stream w stream_new).2.
Proof using.
  intros [[Hso Hg Hi] Ht]. pose proof Hso as [A1 A2 A3 (A4 & A4' & A4'') A5 A6 A7 [A8 A8'] A9].
  assert (streams w !! next_stream w = None) as Hn. { destruct (streams w !! next_stream w) eqn:E; [|done]. pose proof (A4' (next_stream w)) as H. rewrite E in H. specialize (H ltac:(by eexists)). lia. }
  split; [split; [split|..]|]; simpl.
  - rewrite lookup_insert_ne by lia. done.
  - apply NoDup_app. split; [done|]. split; [|apply NoDup_singleton]. intros s Hs ->%list_elem_of_singleton. apply A3 in Hs as [_ [? ?]]. congruence.
  - intros s. rewrite elem_of_app, list_elem_of_singleton, A3, lookup_insert. destruct (decide (next_stream w = s)) as [<-|Hne]; [|naive_solver].
    split; [intros _; split; [lia|by eexists]|by right].
  - split; [lia|]. split; [|intros a Ha; specialize (A4'' a Ha); lia]. intros s. rewrite lookup_insert. destruct (decide (next_stream w = s)); [lia|].
    intros H. specialize (A4' s H). lia.
  - intros s st op. rewrite lookup_insert. destruct (decide (next_stream w = s)); [by intros [= <-] ?%not_elem_of_nil|apply A5].
  - rewrite all_kernels_insert. by rewrite delete_id.
  - intros s st. rewrite lookup_insert. destruct (decide (next_stream w = s)); [by intros [= <-]|apply A7].
  - split; intros *; rewrite lookup_insert; [destruct (decide (next_stream w = zero)); [lia|apply A8]|].
    intros Hs. destruct (decide (next_stream w = s)); [by intros [= <-]|by apply A8'].
  - intros s st. rewrite lookup_insert. destruct (decide (next_stream w = s)) as [<-|]; [|apply A9]. intros [= <-].
    destruct (history_fresh w (next_stream w) Hso) as (-> & -> & ->); [lia|]. done.
  - eapply gpu_ext; [exact Hg|]. by apply executing_new.
  - intros s st p. rewrite lookup_insert. destruct (decide (next_stream w = s)); [by intros [= <-] ?%not_elem_of_nil|apply Hi].
  - intros s st op rest p k. simpl. rewrite lookup_insert. destruct (decide (next_stream w = s)); [by intros [= <-]|apply Ht].
Qed.

Lemma elem_erase_first s x l : NoDup l -> x ∈ erase_first s l <-> x ∈ l /\ x <> s.
Proof using.
  induction 1 as [|y l Hy _ IH]; simpl; [set_solver|]. destruct (Z.eqb_spec y s) as [->|Hne]; [set_solver|]. rewrite !elem_of_cons, IH. naive_solver.
Qed.
Lemma NoDup_erase_first s l : NoDup l -> NoDup (erase_first s l).
Proof using.
  induction 1 as [|y l Hy Hl IH]; simpl; [constructor|]. destruct (y =? s); [done|]. constructor; [|done]. by intros [? _]%(elem_erase_first _ _ _ Hl).
Qed.

(** Streams that are not in use have nothing that was pushed and has not ended. *)
Definition gone_done w : Prop := forall s, streams w !! s = None -> pushed s (history w) = ended s (history w) /\ started s (history w) = ended s (history w).

Lemma destroy_ok w s w' : run_ok w -> s <> zero -> destroy_stream w s = Ok w' -> run_ok w' /\ history w' = history w /\ memory w' = memory w /\ m_gpu w' = m_gpu w /\
  (gone_done w -> gone_done w') /\ streams w' = delete s (streams w) /\ (forall st, streams w !! s = Some st -> m_operations st = [] /\ m_pending st = false).
Proof using.
  intros [[Hso Hg Hi] Ht] Hz. unfold destroy_stream, stream_at. destruct (streams w !! s) as [st|] eqn:Hs; [|done]. simpl. unfold stream_empty.
  destruct (m_operations st) eqn:Eo; [|done]. intros [= <-]. simpl. pose proof Hso as [A1 A2 A3 (A4 & A4' & A4'') A5 A6 A7 [A8 A8'] A9].
  assert (m_pending st = false) as Hp. { destruct (m_pending st) eqn:Hp; [|done]. destruct (A7 s st Hs Hp) as (? & ? & E & _). congruence. }
  split; [|split; [done|]; split; [done|]; split; [done|]; split; [|split; [done|by intros ? [= <-]]]].
  - split; [split; [split|..]|]; simpl.
    + by rewrite lookup_delete_ne.
    + by apply NoDup_erase_first.
    + intros k. rewrite elem_erase_first by done. rewrite A3, lookup_delete. destruct (decide (s = k)) as [<-|]; [|naive_solver].
      split; [naive_solver|]. intros [_ []%is_Some_None].
    + split; [done|]. split; [|done]. intros k [x [_ Hx]%lookup_delete_Some]. apply A4'. by eexists.
    + intros k x op [_ Hx]%lookup_delete_Some. by apply A5.
    + rewrite (all_kernels_at _ _ _ Hs) in A6. by apply NoDup_app in A6 as (_ & _ & ?).
    + intros k x [_ Hx]%lookup_delete_Some. by apply (A7 k).
    + split; [intros x [_ Hx]%lookup_delete_Some; by apply (A8 x)|]. intros k x Hk [_ Hx]%lookup_delete_Some. by apply (A8' k).
    + intros k x [_ Hx]%lookup_delete_Some. by apply A9.
    + eapply gpu_ext; [exact Hg|]. intros k p. unfold executing. rewrite lookup_delete. destruct (decide (s = k)) as [<-|]; [|done].
      split; [intros (x & _ & _ & Hx & Hpx & _); assert (x = st) as -> by congruence; congruence|by intros (? & _ & _ & ? & _)].
    + intros k x p [_ Hx]%lookup_delete_Some. by apply (Hi k x).
    + intros k x op rest p l. simpl. intros [_ Hx]%lookup_delete_Some. by apply (Ht k x).
  - intros Hgd k. simpl. rewrite lookup_delete. destruct (decide (s = k)) as [<-|]; [|apply Hgd]. intros _. destruct (A9 s st Hs) as [-> ->].
    by rewrite Hp, Eo, !app_nil_r.
Qed.

Lemma event_ok w e : run_ok w -> events w !! e = None -> run_ok (with_events w (<[e := event_new]> (events w))).
Proof using.
  intros [[Hso Hg Hi] Ht] He. split; [split; try done|done]. eapply streams_ok_env; [exact Hso|done..|by left|]. intros s st op _ _ [B1 B2 B3 B4 B5].
  split; try done. simpl. intros E. rewrite lookup_insert. destruct (decide (e = m_event op)); [by eexists|by apply B4].
Qed.

Lemma kernel_ok w p k : run_ok w -> kernels (m_gpu w) !! p = None -> (forall q l, kernels (m_gpu w) !! q = Some l -> m_uid l <> m_uid k) ->
  run_ok (with_gpu w (with_kernel (m_gpu w) p k)).
Proof using.
  intros [[Hso Hg Hi] Ht] Hp Hk. split; [split|].
  - eapply streams_ok_env; [exact Hso|done..|by left|]. intros s st op _ _. apply op_ok_kernel. intros l Hl. congruence.
  - apply gpu_kernel; [done|]. by rewrite Hp.
  - intros s st q Hs Hq. destruct (Hi s st q Hs Hq) as (l & Hl & Hr). exists l. simpl. rewrite lookup_insert_ne; [done|]. congruence.
  - intros s st op rest q l Hs Hpe Eo Hq. simpl. rewrite lookup_insert. destruct (decide (p = q)) as [<-|]; [|by apply (Ht s st op rest)].
    exfalso. simpl in Hs. destruct (go_live _ _ _ Hg s p) as (l' & Hl' & _); [by exists st, op, rest|]. congruence.
Qed.

(** A thread that pushes inserts its operation, or looks on. *)
Lemma push_step_cases w op phase phase' w' : push_step w op phase = Ok (w', phase') -> push_insert w op = Ok w' \/ w' = w.
Proof using.
  destruct phase; simpl; intros H; ok_inv; simplify_eq; auto.
Qed.
End host.
