(* ===== verification/StreamOrder.v ===== *)
(** * Streams run in order

    What holds in every state that host threads, the GPU thread and the cores reach from
    a new manager: the GPU thread's next operation succeeds, the operations of each
    stream start and end in the order of the pushes, stream zero excludes the others,
    the cores work only for kernels in progress, and the memories are what this work and
    the operations that ended made of them, one after the other. *)

From S2P Require Import Prelude PtxMemory Kernel StreamManager StreamInv StreamRun StreamHost.

(** When an operation starts, the operations of the other side have ended: the other
    streams are the other side of stream zero. *)
Definition exclusive (h : list action) : Prop :=
  forall h1 s op h2, h = h1 ++ Started s op :: h2 -> forall s', (s' = zero <-> s <> zero) -> started s' h1 = ended s' h1.

Lemma exclusive_snoc h a : exclusive h -> (match a with Started s _ => forall s', (s' = zero <-> s <> zero) -> started s' h = ended s' h | _ => True end) ->
  exclusive (h ++ [a]).
Proof.
  intros Hh Ha h1 s op h2 E s' Hs'. destruct h2 as [|x h2 _] using rev_ind.
  - apply app_inj_tail in E as [-> ->]. by apply Ha.
  - rewrite app_comm_cons, app_assoc in E. apply app_inj_tail in E as [-> _]. by apply (Hh h1 s op h2).
Qed.

(** The cores change the memories for a kernel that is the operation in progress of a
    stream: it has started and not ended. *)
Definition work_in_progress (h : list action) : Prop :=
  forall h1 x h2, h = h1 ++ Worked x :: h2 -> exists s op, m_kernel op = Some (cw_kernel x) /\ started s h1 = ended s h1 ++ [op].

Lemma work_snoc h a : work_in_progress h ->
  (match a with Worked x => exists s op, m_kernel op = Some (cw_kernel x) /\ started s h = ended s h ++ [op] | _ => True end) -> work_in_progress (h ++ [a]).
Proof.
  intros Hh Ha h1 y h2 E. destruct h2 as [|x h2 _] using rev_ind.
  - apply app_inj_tail in E as [-> ->]. by apply Ha.
  - rewrite app_comm_cons, app_assoc in E. apply app_inj_tail in E as [-> _]. by apply (Hh h1 y h2).
Qed.

Section order.
Context {M : Type} (perform : stream_operation → M → M) (compute : memory_work → M → M).
Implicit Types (w : manager M) (op : stream_operation) (st : CUstream_st).

Record reach_inv (m0 : M) w : Prop := {
  ri_ok : run_ok w;
  ri_memory : memory w = foldl (effect perform compute) m0 (history w);
  ri_gone : gone_done w;
  ri_excl : exclusive (history w);
  ri_work : work_in_progress (history w) }.

Lemma follows_memory m0 w w' l : follows perform compute w w' l -> memory w = foldl (effect perform compute) m0 (history w) ->
  memory w' = foldl (effect perform compute) m0 (history w').
Proof using. intros [_ _ _ _ _ E1 E2] E. by rewrite E2, E1, E, foldl_app. Qed.

Lemma follows_gone w w' l : follows perform compute w w' l -> (forall s, streams w' !! s = None -> streams w !! s = None /\ forall a, a ∈ l -> action_stream a <> s) ->
  gone_done w -> gone_done w'.
Proof using.
  intros Hf Hl Hg s Hs. destruct (Hl s Hs) as [Hn Ha]. rewrite (fo_history _ _ _ _ _ Hf). destruct (history_app s (history w) l) as (-> & -> & ->).
  destruct (history_other s l Ha) as (-> & -> & ->). rewrite !app_nil_r. by apply Hg.
Qed.
(** One stream of [w] changed. *)
Lemma follows_gone_at w w' l s st st' : follows perform compute w w' l -> streams w !! s = Some st -> streams w' = <[s := st']> (streams w) ->
  (forall a, a ∈ l -> action_stream a = s) -> gone_done w -> gone_done w'.
Proof using.
  intros Hf Hs E Ha. apply (follows_gone _ _ l Hf). intros k. rewrite E, lookup_insert. destruct (decide (s = k)) as [|Hne]; [done|]. intros Hk.
  split; [done|]. intros a Hin. by rewrite (Ha a Hin).
Qed.

Lemma quiet_stream w s : run_ok w -> gone_done w -> (forall st, streams w !! s = Some st -> m_pending st = false) -> started s (history w) = ended s (history w).
Proof using.
  intros Hok Hg Hp. destruct (streams w !! s) as [st|] eqn:Hs; [|by apply Hg].
  destruct (so_history _ (mn_streams _ (proj1 Hok)) s st Hs) as [_ ->]. by rewrite (Hp st eq_refl), app_nil_r.
Qed.

Lemma collect_inv m0 w w' l : reach_inv m0 w -> run_ok w' -> follows perform compute w w' l -> collected w w' l -> reach_inv m0 w'.
Proof using.
  intros [A1 A2 A3 A4 A5] Hok Hf [(_ & -> & ->)|(k & fin & s & st & op & rest & p & E1 & Hkp & E2 & Hs & Hp & Eo & Hk & E3 & _ & _ & ->)]; [done|].
  split; [done|by eapply follows_memory| | |].
  - eapply follows_gone_at; [done..| |done]. by intros a ->%list_elem_of_singleton.
  - rewrite (fo_history _ _ _ _ _ Hf). by apply exclusive_snoc.
  - rewrite (fo_history _ _ _ _ _ Hf). by apply work_snoc.
Qed.

Lemma front_inv m0 w w' l : reach_inv m0 w -> run_ok w' -> follows perform compute w w' l -> fronted w w' l -> reach_inv m0 w'.
Proof using.
  intros [A1 A2 A3 A4 A5] Hok Hf Hfr. destruct Hfr as [s st op rest w' l (Hs & Hp & Eo) _ Hother _ Hl|Hv He|s st Hs Hp|Hi]; [|by split..].
  assert (forall s', (s' = zero <-> s <> zero) -> started s' (history w) = ended s' (history w)) as Hq.
  { intros s' Hs'. apply quiet_stream; [done..|]. intros st' H. by apply (Hother s' st'). }
  destruct Hl as [(-> & E & _)|(-> & _ & E & _)]; (split; [done|by eapply follows_memory| | |]).
  - eapply follows_gone_at; [done..| |done]. intros a [->|[->|[]%not_elem_of_nil]%elem_of_cons]%elem_of_cons; done.
  - rewrite (fo_history _ _ _ _ _ Hf). change [Started s op; Ended s op] with ([Started s op] ++ [Ended s op]). rewrite app_assoc.
    by repeat apply exclusive_snoc.
  - rewrite (fo_history _ _ _ _ _ Hf). change [Started s op; Ended s op] with ([Started s op] ++ [Ended s op]). rewrite app_assoc.
    by repeat apply work_snoc.
  - eapply follows_gone_at; [done..| |done]. by intros a ->%list_elem_of_singleton.
  - rewrite (fo_history _ _ _ _ _ Hf). by apply exclusive_snoc.
  - rewrite (fo_history _ _ _ _ _ Hf). by apply work_snoc.
Qed.

Lemma step_inv m0 w w' : reach_inv m0 w -> stream_step perform compute w w' -> reach_inv m0 w'.
Proof using.
  intros Hr Hstep. pose proof Hr as [Hok Hm Hg Hx Hwk].
  destruct Hstep as [cycle w' E|w' Hc|op ph ph' w' Hop E0| |s w' Hz E|e He|p k uid next gd bd entry Hp Hu Hfresh E].
  - destruct (operation_ok perform compute cycle w Hok) as (w1 & w2 & l1 & l2 & E' & Hok1 & Hok2 & Hf1 & Hf2 & _ & Hc & Hfr). rewrite E in E'. injection E' as <-.
    eapply front_inv; [|done..]. by eapply collect_inv.
  - pose proof (cores_step_ok _ _ _ Hok Hc) as Hok'. destruct Hc as [g' Hc|y Hp]; [by split|]. split; [done|..]; simpl.
    + by rewrite foldl_app, <- Hm.
    + intros s Hs. simpl. destruct (history_worked (history w) y s) as (-> & -> & ->). by apply Hg.
    + by apply exclusive_snoc.
    + apply work_snoc; [done|]. destruct (proj2 (go_running _ _ _ (mn_gpu _ (proj1 Hok))) _ Hp) as (s & k & (st & op & rest & Hs & Hpe & Eo & Hk) & _).
      exists s, op. split; [done|]. destruct (so_history _ (mn_streams _ (proj1 Hok)) s st Hs) as [_ ->]. by rewrite Hpe, Eo.
  - destruct (push_step_cases w op ph ph' w' E0) as [E| ->]; [|done]. destruct (push_ok perform compute w op Hok Hop) as (s & st & w2 & E' & Hs & Hok' & Hf & Es & _). rewrite E in E'. injection E' as <-.
    split; [done|by eapply follows_memory| | |].
    + eapply follows_gone_at; [done..| |done]. by intros a ->%list_elem_of_singleton.
    + rewrite (fo_history _ _ _ _ _ Hf). by apply exclusive_snoc.
    + rewrite (fo_history _ _ _ _ _ Hf). by apply work_snoc.
  - split; try done; [by apply add_ok|]. intros s. simpl. rewrite lookup_insert. destruct (decide (next_stream w = s)); [done|apply Hg].
  - destruct (destroy_ok w s w' Hok Hz E) as (Hok' & Eh & Em & _ & Hgd & _). split; [done|by rewrite Em, Eh|by apply Hgd|by rewrite Eh..].
  - split; try done. by apply event_ok.
  - split; try done. apply kernel_ok; [done..|]. unfold kernel_info_new in E. destruct (memory_space_new 8192) as [m|]; [|done]. simpl in E.
    injection E as <- <-. done.
Qed.

(** The states that are reached. *)
Definition streams_reachable (slots max_cta threads : Z) (blocking : bool) (m0 : M) : manager M → Prop :=
  rtc (stream_step perform compute) (manager_new (table_new slots max_cta threads) blocking ∅ m0).

Lemma running_new slots max_cta threads : running_list (table_new slots max_cta threads) = [].
Proof using. unfold running_list, table_new. simpl. by induction (Z.to_nat slots) as [|n IH]. Qed.

Lemma new_inv slots max_cta threads blocking m0 : reach_inv m0 (manager_new (table_new slots max_cta threads) blocking ∅ m0).
Proof using.
  assert (forall s st, ({[zero := stream_new]} : gmap Z CUstream_st) !! s = Some st -> s = zero /\ st = stream_new) as Hone
    by (by intros s st [<- <-]%lookup_singleton_Some).
  split; [split; [split; [split|..]|]|done|done|by intros [|? ?] ? ? ? ?|by intros [|? ?] ? ? ?]; simpl.
  - rewrite lookup_singleton_eq. by eexists.
  - constructor.
  - intros s. split; [by intros ?%not_elem_of_nil|]. intros [Hs [st Hst]]. by destruct (Hone s st Hst).
  - split; [done|]. split; [|by intros a ?%not_elem_of_nil]. intros s [st Hst]. by destruct (Hone s st Hst) as [-> _].
  - intros s st op Hst. destruct (Hone s st Hst) as [_ ->]. by intros ?%not_elem_of_nil.
  - unfold all_kernels. rewrite map_to_list_singleton. simpl. constructor.
  - intros s st Hst. by destruct (Hone s st Hst) as [_ ->].
  - split; intros *; [intros Hst|intros Hs Hst]; by destruct (Hone _ st Hst) as [_ ->].
  - intros s st Hst. by destruct (Hone _ st Hst) as [_ ->].
  - assert (forall s p, ~ executing {[zero := stream_new]} s p) as Hnx. { intros s p (st & op & rest & Hst & Hp & _). by destruct (Hone _ st Hst) as [_ ->]. }
    split; simpl.
    + intros s p q Hx. by destruct (Hnx s p).
    + intros s s' p Hx. by destruct (Hnx s p).
    + intros s p Hx. by destruct (Hnx s p).
    + intros p q k l Hk. by rewrite lookup_empty in Hk.
    + intros u s. split; [by intros E; rewrite lookup_empty in E|]. intros (p & k & Hx & _). by destruct (Hnx s p).
    + rewrite running_new. split; [constructor|by intros p ?%not_elem_of_nil].
    + split; [constructor|by intros p ?%not_elem_of_nil].
  - intros s st p Hst. destruct (Hone _ st Hst) as [_ ->]. by intros ?%not_elem_of_nil.
  - intros s st op rest p k Hst. simpl in Hst. by destruct (Hone _ st Hst) as [_ ->].
Qed.

Lemma reachable_inv slots max_cta threads blocking m0 w : streams_reachable slots max_cta threads blocking m0 w -> reach_inv m0 w.
Proof using.
  intros H. unfold streams_reachable in H. pose proof (new_inv slots max_cta threads blocking m0) as Hi. revert Hi. induction H as [w|w1 w2 w3 Hs _ IH]; [done|].
  intros Hi. by apply IH, (step_inv m0 w1).
Qed.

(** C9: In every state that host threads, the GPU thread and the cores reach, in any
    interleaving, the next operation of the GPU thread succeeds: no assertion fails and
    no pointer dangles. The operations of each stream start in the order in which they
    were pushed and end in the order in which they started, at most one being in
    progress; whenever an operation of stream zero starts, every operation started in
    another stream has ended, and the other way round. The cores change the memories
    only for a kernel that is the operation in progress of its stream, and the memories
    are the result, in order, of these changes and of the operations that ended. Host
    threads push operations on streams and events that exist, and kernels that are new,
    have blocks to run and whose blocks fit a core (the check of launch). *)
Theorem streams_run_in_order slots max_cta threads blocking m0 w : streams_reachable slots max_cta threads blocking m0 w ->
  (forall cycle, exists w', operation perform cycle w = Ok w') /\
  (forall s, exists current queue, started s (history w) = ended s (history w) ++ current /\ pushed s (history w) = started s (history w) ++ queue /\
     (length current <= 1)%nat) /\
  exclusive (history w) /\ work_in_progress (history w) /\ memory w = foldl (effect perform compute) m0 (history w).
Proof using.
  intros Hw. apply reachable_inv in Hw as [Hok Hm Hg Hx Hwk]. split; [|split; [|done]].
  - intros cycle. destruct (operation_ok perform compute cycle w Hok) as (w1 & w' & ? & ? & E & _). by exists w'.
  - intros s. destruct (streams w !! s) as [st|] eqn:Hs.
    + pose proof (mn_streams _ (proj1 Hok)) as Hso. destruct (so_history _ Hso s st Hs) as [-> ->]. destruct (m_pending st).
      * exists (take 1 (m_operations st)), (drop 1 (m_operations st)). rewrite <- app_assoc, take_drop. split_and!; try done. rewrite length_take. lia.
      * exists [], (m_operations st). rewrite !app_nil_r. split_and!; [done..|simpl; lia].
    + exists [], []. destruct (Hg s Hs) as [-> ->]. rewrite !app_nil_r. split_and!; [done..|simpl; lia].
Qed.
End order.

(** ** A small run

    Two streams, with a kernel in each and a copy behind the first kernel; the memories
    are the list of what was done to them. *)

Definition log_operation (op : stream_operation) (m : list stream_operation) : list stream_operation := m ++ [op].
Definition log_work (x : memory_work) (m : list stream_operation) : list stream_operation := m ++ [op_event (cw_step x) (Some (cw_kernel x))].
Definition result {A} (o : outcome A) (d : A) : A := match o with Ok a => a | Err _ => d end.
Definition second_kernel : kernel_info_t := demo_kernel 2 (Dim3 4 1 1) (Dim3 8 1 1).
Definition demo_copy : stream_operation := op_host_to_device 4096 65536 16 (Some 1).

Definition demo_streams (slots : Z) : manager (list stream_operation) :=
  let w := (add_stream (add_stream (manager_new (table_new slots 0 1024) false ∅ []) stream_new).2 stream_new).2 in
  let w := with_gpu w (with_kernel (m_gpu w) 10 demo_k) in
  with_gpu w (with_kernel (m_gpu w) 20 second_kernel).
Definition demo_pushed (slots : Z) : manager (list stream_operation) :=
  let w := demo_streams slots in
  let w := result (push_insert w (op_kernel 10 false (Some 1))) w in
  let w := result (push_insert w (op_kernel 20 false (Some 2))) w in
  result (push_insert w demo_copy) w.
Definition demo_served (slots : Z) : manager (list stream_operation) :=
  let w := demo_pushed slots in
  let w := result (operation log_operation 0 w) w in
  result (operation log_operation 1 w) w.

Ltac demo_host := split; [intros ? [= <-]; vm_compute; by eexists|done|done|done|].
Ltac demo_kernel_ok := split_and!; try (vm_compute; done); apply (bool_decide_eq_true_1 _); vm_compute; reflexivity.

(** Each state leads to the next, whatever else is asked of the states on the way. *)
Lemma demo_pushed_steps slots (P : manager (list stream_operation) → bool) : slots = 1 \/ slots = 2 ->
  (forall w, length (m_streams w) <= 2 -> length (m_running_kernels (m_gpu w)) = Z.to_nat slots -> P w = true)%nat ->
  rtc (fun w w' => P w = true /\ stream_step log_operation log_work w w') (manager_new (table_new slots 0 1024) false ∅ []) (demo_pushed slots).
Proof.
  intros Hs HP. assert (forall w w', (length (m_streams w) <= 2)%nat -> length (m_running_kernels (m_gpu w)) = Z.to_nat slots -> stream_step log_operation log_work w w' ->
    P w = true /\ stream_step log_operation log_work w w') as Hstep by (intros w w' H1 H2 H3; split; [by apply HP|done]). clear HP.
  destruct Hs as [-> | ->].
  all: eapply rtc_l; [apply Hstep; [vm_compute; lia|reflexivity|apply step_add]|].
  all: eapply rtc_l; [apply Hstep; [vm_compute; lia|reflexivity|apply step_add]|].
  all: eapply rtc_l; [apply Hstep; [vm_compute; lia|reflexivity|]; apply (step_new_kernel _ _ _ 10 demo_k 1 2 (Dim3 3 2 1) (Dim3 2 2 2) demo_resources);
    [vm_compute; reflexivity|lia|intros q l Hl; simpl in Hl; by rewrite lookup_empty in Hl|apply demo_k_is_new]|].
  all: eapply rtc_l; [apply Hstep; [vm_compute; lia|reflexivity|]; apply (step_new_kernel _ _ _ 20 second_kernel 2 3 (Dim3 4 1 1) (Dim3 8 1 1) demo_resources);
    [vm_compute; reflexivity|lia|intros q l Hl; simpl in Hl; rewrite lookup_insert in Hl; destruct (decide (10 = q)); [by injection Hl as <-|by rewrite lookup_empty in Hl]
    |vm_compute; reflexivity]|].
  all: eapply rtc_l; [apply Hstep; [vm_compute; lia|reflexivity|]; apply (step_push _ _ _ (op_kernel 10 false (Some 1)) Inserting Returned);
    [demo_host; exists 10, demo_k|vm_compute; reflexivity]; demo_kernel_ok|].
  all: eapply rtc_l; [apply Hstep; [vm_compute; lia|reflexivity|]; apply (step_push _ _ _ (op_kernel 20 false (Some 2)) Inserting Returned);
    [demo_host; exists 20, second_kernel|vm_compute; reflexivity]; demo_kernel_ok|].
  all: eapply rtc_l; [apply Hstep; [vm_compute; lia|reflexivity|]; apply (step_push _ _ _ demo_copy Inserting Returned);
    [demo_host; done|vm_compute; reflexivity]|].
  all: apply rtc_refl.
Qed.

Lemma demo_steps slots (P : manager (list stream_operation) → bool) : slots = 1 \/ slots = 2 ->
  (forall w, length (m_streams w) <= 2 -> length (m_running_kernels (m_gpu w)) = Z.to_nat slots -> P w = true)%nat ->
  rtc (fun w w' => P w = true /\ stream_step log_operation log_work w w') (manager_new (table_new slots 0 1024) false ∅ []) (demo_served slots).
Proof.
  intros Hs HP. etransitivity; [by apply demo_pushed_steps|].
  assert (forall w w', (length (m_streams w) <= 2)%nat -> length (m_running_kernels (m_gpu w)) = Z.to_nat slots -> stream_step log_operation log_work w w' ->
    P w = true /\ stream_step log_operation log_work w w') as Hstep by (intros w w' H1 H2 H3; split; [by apply HP|done]). clear HP.
  destruct Hs as [-> | ->].
  all: eapply rtc_l; [apply Hstep; [vm_compute; lia|reflexivity|]; apply (step_operation _ _ _ 0); vm_compute; reflexivity|].
  all: eapply rtc_l; [apply Hstep; [vm_compute; lia|reflexivity|]; apply (step_operation _ _ _ 1); vm_compute; reflexivity|].
  all: apply rtc_refl.
Qed.

Lemma demo_reachable slots : slots = 1 \/ slots = 2 -> streams_reachable log_operation log_work slots 0 1024 false [] (demo_served slots).
Proof. intros Hs. eapply rtc_subrel; [|by apply (demo_steps slots (fun _ => true))]. by intros w w' [_ ?]. Qed.

(** The first kernel, in the table, writes to memory. *)
Definition demo_worked : manager (list stream_operation) := with_work log_work (demo_served 2) (mkWork 10 7).
Lemma demo_worked_reachable : streams_reachable log_operation log_work 2 0 1024 false [] demo_worked.
Proof.
  eapply rtc_r; [apply demo_reachable; by right|]. apply step_cores, cores_write. apply (bool_decide_eq_true_1 _). vm_compute. reflexivity.
Qed.

Lemma streams_run_in_order_witness :
  (exists w', operation log_operation 2 demo_worked = Ok w') /\ started 1 (history demo_worked) = [op_kernel 10 false (Some 1)] /\
  pushed 1 (history demo_worked) = [op_kernel 10 false (Some 1); demo_copy] /\ exclusive (history demo_worked) /\
  (exists s op, m_kernel op = Some 10 /\ started s (history (demo_served 2)) = ended s (history (demo_served 2)) ++ [op]) /\
  memory demo_worked = [op_event 7 (Some 10)].
Proof.
  destruct (streams_run_in_order log_operation log_work 2 0 1024 false [] demo_worked) as (Hop & _ & Hx & Hwk & Hm); [apply demo_worked_reachable|].
  split; [apply Hop|]. split; [vm_compute; reflexivity|]. split; [vm_compute; reflexivity|]. split; [exact Hx|].
  split; [apply (Hwk _ (mkWork 10 7) []); reflexivity|]. rewrite Hm. vm_compute. reflexivity.
Defined.
