(* ===== verification/StreamLive.v ===== *)
(** * Streams drain

    When the table of running kernels has a slot for every stream, no kernel gets lost:
    the GPU thread and the cores work everything off that was pushed.  Without a slot a
    kernel that is served is lost, and its stream with it. *)

From S2P Require Import Prelude PtxMemory Kernel StreamManager StreamInv StreamRun StreamHost StreamOrder.

(** ** What is left to do *)

(** An operation counts four; its start, the end of a kernel in the table and its
    collection make that less. *)
Definition weight (st : CUstream_st) : nat := 4 * length (m_operations st) - (if m_pending st then 3 else 0).
Definition work (m : gmap Z CUstream_st) : nat := sum_list_with (fun x => weight x.2) (map_to_list m).

Lemma work_at m s st : m !! s = Some st -> work m = (weight st + work (delete s m))%nat.
Proof. intros H. unfold work. by rewrite <- (map_to_list_delete m s st H). Qed.
Lemma work_insert m s st : work (<[s := st]> m) = (weight st + work (delete s m))%nat.
Proof. rewrite (work_at _ s st) by apply lookup_insert_eq. by rewrite delete_insert_eq. Qed.

Section live.
Context {M : Type}.
Implicit Types (w : manager M) (op : stream_operation) (st : CUstream_st).

Definition measure w : nat :=
  work (streams w) + length (running_list (m_gpu w)) + (if m_service_stream_zero w then 1 else 0).

Definition all_done w : Prop := forall s st, streams w !! s = Some st -> m_operations st = [].

Lemma measure_zero w : run_ok w -> measure w = 0%nat -> all_done w.
Proof.
  intros Hok E s st Hs. unfold measure in E. rewrite (work_at _ s st Hs) in E. unfold weight in E. destruct (m_operations st) as [|op [|op2 l]]; [done|..];
    simpl in E; destruct (m_pending st); lia.
Qed.

Lemma all_done_empty w : run_ok w -> all_done w -> manager_empty w = Ok true.
Proof.
  intros Hok Hd. pose proof (mn_streams _ (proj1 Hok)) as Hso. unfold manager_empty, concurrent_streams_empty.
  destruct (all_empty_spec w (m_streams w)) as (b & -> & Hb); [intros s Hs; by apply (so_members _ Hso)|]. destruct b.
  - simpl. unfold stream_at. destruct (so_zero _ Hso) as [st Hst]. rewrite Hst. simpl. unfold stream_empty. by rewrite (Hd zero st Hst).
  - destruct Hb as (s & st & _ & Hs & Hne). by destruct Hne, (Hd s st).
Qed.

(** ** A slot for every stream *)

Definition streams_fit w : Prop := (1 <= length (m_running_kernels (m_gpu w)))%nat /\ (length (m_streams w) <= length (m_running_kernels (m_gpu w)))%nat.
Definition lossless w : Prop := none_lost (executing (streams w)) (m_gpu w).

Lemma length_erase_first s l : s ∈ l -> length l = S (length (erase_first s l)).
Proof.
  induction l as [|x l IH]; intros Hs; [by apply not_elem_of_nil in Hs|]. simpl. destruct (Z.eqb_spec x s) as [->|Hne]; [done|].
  simpl. rewrite IH; [done|]. by apply elem_of_cons in Hs as [->|].
Qed.

(** The kernel in progress of a stream. *)
Definition front_kernel w (s : Z) : option Z :=
  st ← streams w !! s; if m_pending st then op ← head (m_operations st); m_kernel op else None.
Lemma front_kernel_executing w s p : executing (streams w) s p -> front_kernel w s = Some p.
Proof. intros (st & op & rest & Hs & Hp & Eo & Hk). unfold front_kernel. rewrite Hs. simpl. rewrite Hp, Eo. done. Qed.

Lemma room w s st op rest : run_ok w -> streams_fit w -> ready_front w s st op rest ->
  (forall s' st', streams w !! s' = Some st' -> (s' = zero <-> s <> zero) -> m_pending st' = false) -> None ∈ m_running_kernels (m_gpu w).
Proof.
  intros [[Hso Hg Hi] Ht] [Hf1 Hf2] (Hs & Hp & Eo) Hother. apply running_room. change (omap id (m_running_kernels (m_gpu w))) with (running_list (m_gpu w)).
  destruct (go_running _ _ _ Hg) as [Hnd Hrun].
  assert (forall p, p ∈ running_list (m_gpu w) -> exists s', s' <> s /\ s <> zero /\ s' ∈ m_streams w /\ front_kernel w s' = Some p) as Hsrc.
  { intros p Hp'. destruct (Hrun p Hp') as (s' & k & Hx & _). exists s'. pose proof (front_kernel_executing w s' p Hx) as Hk.
    destruct Hx as (x & o & r & Hx & Hpx & _). assert (s' <> s) as Hne by (intros ->; congruence). split; [done|].
    assert (~ (s' = zero <-> s <> zero)) as Hsame by (intros E; rewrite (Hother s' x Hx E) in Hpx; done).
    assert (s <> zero) by (intros ->; apply Hsame; split; done). split; [done|]. split; [|done]. apply (so_members _ Hso).
    split; [intros ->; by apply Hsame|by eexists]. }
  destruct (decide (s = zero)) as [->|Hz].
  - destruct (running_list (m_gpu w)) as [|p l]; [simpl; lia|]. by destruct (Hsrc p ltac:(left)) as (s' & _ & H & _).
  - assert (s ∈ m_streams w) as Hin by (apply (so_members _ Hso); split; [done|by eexists]).
    pose proof (length_erase_first s (m_streams w) Hin) as El.
    assert (length (running_list (m_gpu w)) <= length (omap (front_kernel w) (erase_first s (m_streams w))))%nat as H1.
    { apply submseteq_length, NoDup_submseteq; [done|]. intros p Hp'. destruct (Hsrc p Hp') as (s' & Hne & _ & Hin' & Hk). apply list_elem_of_omap.
      exists s'. split; [|done]. apply elem_erase_first; [apply (so_list _ Hso)|done]. }
    assert (forall l, length (omap (front_kernel w) l) <= length l)%nat as H2 by (intros l; induction l as [|x l IH]; [done|]; cbn; destruct (front_kernel w x); cbn in *; lia).
    specialize (H2 (erase_first s (m_streams w))). lia.
Qed.

(** ** No kernel is lost *)

Lemma core_lossless w g' : run_ok w -> lossless w -> core_step (m_gpu w) g' -> lossless (with_gpu w g') /\
  (length (running_list g') <= length (running_list (m_gpu w)))%nat /\ length (m_running_kernels g') = length (m_running_kernels (m_gpu w)).
Proof.
  intros Hok Hl [p k k' Hp Hk [Hu Hb] Hd|p k k' g'' Hp Hk [Hu Hb] Hd Ha E].
  - split; [|by split]. intros s q l Hx. simpl. rewrite lookup_insert. destruct (decide (p = q)) as [<-|]; [by left|by apply (Hl s)].
  - destruct (complete_ok w p k k' Hok Hp Hk (conj Hu Hb) Ha) as (t & E' & Et & El & _). rewrite E in E'. injection E' as ->. split; [|split; [|done]].
    + intros s q l Hx. simpl. rewrite lookup_insert. unfold running_list. simpl. rewrite elem_of_app, list_elem_of_singleton.
      destruct (decide (p = q)) as [<-|Hne]; [intros [= <-]; right; by right|]. intros Hq. destruct (Hl s q l Hx Hq) as [Hr|Hf]; [|by right; left].
      rewrite Et in Hr. left. by apply elem_of_cons in Hr as [->|].
    + apply Permutation_length in Et. unfold running_list in *. simpl in *. lia.
Qed.

Lemma collect_lossless w w' l : run_ok w -> lossless w -> collected w w' l -> lossless w'.
Proof.
  intros [[Hso Hg _] _] Hl [(_ & -> & _)|(k & fin & s & st & op & rest & p & E1 & Hkp & E2 & Hs & Hp & Eo & Hk & E3 & E4 & E5 & _)]; [done|].
  intros s' q l' Hx. rewrite E3 in Hx. apply executing_insert in Hx as [[Hne Hx]|(_ & ? & _)]; [|done]. rewrite E5, E4, E2. intros [_ Hq]%lookup_delete_Some.
  destruct (Hl s' q l' Hx Hq) as [Hr|Hf]; [by left|right]. rewrite E1 in Hf. apply elem_of_cons in Hf as [Hf|]; [|done]. exfalso. apply Hne.
  apply (go_inj _ _ _ Hg s' s p); [by rewrite <- (go_uids _ _ _ Hg q p l' k Hq Hkp Hf)|by exists st, op, rest].
Qed.

Lemma start_lossless w s st op rest w' l : run_ok w -> lossless w -> streams_fit w -> ready_front w s st op rest ->
  (forall s' st', streams w !! s' = Some st' -> (s' = zero <-> s <> zero) -> m_pending st' = false) -> start_left w s op rest w' l -> lossless w'.
Proof.
  intros Hok Hl Hfit Hr Hother Hleft. pose proof (room w s st op rest Hok Hfit Hr Hother) as Hroom. destruct Hr as (Hs & Hp & Eo).
  destruct Hleft as [(_ & E1 & E2 & E3 & E4)|(_ & _ & E1 & E2 & E3 & E4 & _ & _ & E5)]; intros s' q k Hx; rewrite E1 in Hx;
    apply executing_insert in Hx as [[Hne Hx]|(-> & Hpx & o & r & Eox & Hq)]; try done.
  - rewrite E2, E3. intros Hk. apply (Hl s' q k Hx). rewrite <- Hk. symmetry. apply E4. intros Hq.
    destruct (executing_queued w s' q Hx) as (st' & Hs' & Hin). destruct Hok as [[Hso _ _] _].
    apply Hne. symmetry. apply (kernel_in_one _ _ _ _ _ q (so_once _ Hso) Hs Hs'); [|done]. unfold stream_kernels. rewrite Eo. simpl. rewrite Hq. left.
  - rewrite E3, E2. intros Hk. destruct (Hl s' q k Hx Hk) as [H|H]; [left; by apply E4|by right].
  - simpl in Eox. injection Eox as <- <-. left. by apply E5.
Qed.

Lemma front_lossless w w' l : run_ok w -> lossless w -> streams_fit w -> fronted w w' l -> lossless w'.
Proof. intros Hok Hl Hfit Hfr. destruct Hfr; [by eapply start_lossless|done..]. Qed.

(** ** The measure goes down *)

Lemma collect_measure w w' l : run_ok w -> collected w w' l -> m_service_stream_zero w' = m_service_stream_zero w ->
  (m_finished_kernel (m_gpu w) = [] /\ w' = w) \/ (measure w' < measure w)%nat.
Proof.
  intros Hok [(E & -> & _)|(k & fin & s & st & op & rest & p & E1 & Hkp & E2 & Hs & Hp & Eo & Hk & E3 & E4 & E5 & _)] Ev; [by left|right].
  unfold measure. rewrite Ev, E3, E4, work_insert, (work_at (streams w) s st Hs). unfold weight. rewrite Hp, Eo. simpl. lia.
Qed.
Lemma front_measure w w' l : run_ok w -> fronted w w' l -> (measure w' < measure w)%nat \/ all_done w' \/ (w' = w /\ exists s st, streams w !! s = Some st /\ m_pending st = true).
Proof.
  intros Hok Hfr. destruct Hfr as [s st op rest w' l (Hs & Hp & Eo) Hv _ Ev Hl|Hv He|s st Hs Hp|Hi].
  - left. unfold measure. rewrite (work_at (streams w) s st Hs). assert (weight st = 4 * S (length rest))%nat as -> by (unfold weight; rewrite Hp, Eo; simpl; lia).
    destruct Hl as [(_ & E1 & E2 & _)|(_ & _ & E1 & _ & _ & _ & _ & E2 & _)]; rewrite E1, work_insert; unfold weight; rewrite ?E2; simpl;
      destruct (m_service_stream_zero w'); lia.
  - left. unfold measure. rewrite Hv. simpl. lia.
  - right. right. split; [done|by exists s, st].
  - by right; left.
Qed.
End live.

Section drain.
Context {M : Type} (perform : stream_operation → M → M) (compute : memory_work → M → M).
Implicit Types (w : manager M) (op : stream_operation) (st : CUstream_st).

(** The cores work; when kernels are in the table some complete; then the GPU thread
    takes its turn. *)
Inductive gpu_round w w' : Prop :=
  | round w1 cycle : rtc (cores_step compute) w w1 ->
      running_list (m_gpu w) = [] \/ (length (running_list (m_gpu w1)) < length (running_list (m_gpu w)))%nat ->
      operation perform cycle w1 = Ok w' -> gpu_round w w'.

Record live_inv w : Prop := { li_ok : run_ok w; li_lossless : lossless w; li_fit : streams_fit w }.

Lemma cores_live w w1 : live_inv w -> rtc (cores_step compute) w w1 -> live_inv w1 /\ streams w1 = streams w /\
  m_service_stream_zero w1 = m_service_stream_zero w /\ (length (running_list (m_gpu w1)) <= length (running_list (m_gpu w)))%nat.
Proof using.
  intros Hw Hc. revert Hw. induction Hc as [w|w0 w1 w2 Hs _ IH]; intros Hw; [done|]. destruct Hw as [A1 A2 A3].
  destruct Hs as [g' Hc|x Hx].
  - destruct (core_lossless w0 g' A1 A2 Hc) as (B1 & B2 & B3). destruct IH as (C1 & C2 & C3 & C4).
    { split; [by apply core_step_ok|done|]. unfold streams_fit in *. simpl. by rewrite B3. }
    simpl in *. split_and!; [done..|lia].
  - apply IH. split; [by apply write_ok|done|done].
Qed.

Lemma follows_fit w w' l : follows perform compute w w' l -> streams_fit w -> streams_fit w'.
Proof using. intros [E1 _ _ E2 _ _ _]. unfold streams_fit. by rewrite E1, E2. Qed.

Lemma operation_live cycle w w' : live_inv w -> operation perform cycle w = Ok w' -> live_inv w' /\
  ((measure w' < measure w)%nat \/ all_done w' \/ (w' = w /\ m_finished_kernel (m_gpu w) = [] /\ exists s st, streams w !! s = Some st /\ m_pending st = true)).
Proof using compute.
  intros [A1 A2 A3] E. destruct (operation_ok perform compute cycle w A1) as (w1 & w2 & l1 & l2 & E' & Hok1 & Hok2 & Hf1 & Hf2 & Ev & Hc & Hfr).
  rewrite E in E'. injection E' as <-. pose proof (follows_fit _ _ _ Hf1 A3) as Hfit1. split.
  - split; [done| |by eapply follows_fit]. eapply front_lossless; [exact Hok1| |done..]. by apply (collect_lossless w w1 l1).
  - destruct (front_measure _ _ _ Hok1 Hfr) as [H|[H|[-> H]]]; [|by right; left|].
    + left. destruct (collect_measure w w1 l1 A1 Hc Ev) as [[_ ->]|Hlt]; [done|lia].
    + destruct (collect_measure w w1 l1 A1 Hc Ev) as [[Ef ->]|Hlt]; [by right; right|by left].
Qed.

Lemma round_live w w' : live_inv w -> gpu_round w w' -> live_inv w' /\ ((measure w' < measure w)%nat \/ all_done w').
Proof using.
  intros Hw [w1 cycle Hc Hsome E]. destruct (cores_live w w1 Hw Hc) as (Hg & Es & Ev & Hle). destruct (operation_live cycle _ _ Hg E) as [Hw' H]. split; [done|].
  assert (measure w1 + length (running_list (m_gpu w)) = measure w + length (running_list (m_gpu w1)))%nat as Em by (unfold measure; rewrite Es, Ev; lia).
  destruct H as [H|[H|(-> & Ef & s & st & Hs & Hp)]]; [left; lia|by right|left].
  destruct (so_front _ (mn_streams _ (proj1 (li_ok _ Hg))) s st Hs Hp) as (op & rest & Eo & Hk).
  assert (op_ok (events w1) (m_gpu w1) s op) as Hop by (apply (so_ops _ (mn_streams _ (proj1 (li_ok _ Hg))) s st op Hs); rewrite Eo; left).
  pose proof (oo_kernel _ _ _ _ Hop) as Hkk. rewrite Hk in Hkk. destruct Hkk as (p & k & Hpk & Hkp & _).
  destruct (li_lossless _ Hg s p k) as [Hr|Hf]; [by exists st, op, rest|done| |].
  - destruct Hsome as [E0|]; [|lia]. rewrite E0 in Hle. destruct (running_list (m_gpu w1)); [by apply not_elem_of_nil in Hr|]. simpl in Hle. lia.
  - rewrite Ef in Hf. by apply not_elem_of_nil in Hf.
Qed.

Lemma done_round w w' : live_inv w -> all_done w -> gpu_round w w' -> all_done w'.
Proof using.
  intros Hw Hd [w0 cycle Hc _ E]. destruct (cores_live w w0 Hw Hc) as ([Hok _ _] & Es & _). unfold all_done in Hd. rewrite <- Es in Hd.
  destruct (operation_ok perform compute cycle _ Hok) as (w1 & w2 & l1 & l2 & E' & Hok1 & Hok2 & _ & _ & _ & Hcol & Hfr). rewrite E in E'. injection E' as <-.
  destruct Hcol as [(_ & -> & _)|(k & fin & s & st & op & rest & p & _ & _ & _ & Hs & _ & Eo & _)]; [|simpl in Hs; rewrite (Hd s st Hs) in Eo; done].
  destruct Hfr as [s st op rest w' l (Hs & _ & Eo)|_ (s & st & Hs & Hne)|s st Hs Hp|]; try done.
  simpl in Hs. rewrite (Hd s st Hs) in Eo. done.
Qed.

Definition finished_version (k : kernel_info_t) : kernel_info_t :=
  mkKernel (m_kernel_entry k) (m_uid k) (m_grid_dim k) (m_block_dim k) (m_grid_dim k) (m_next_tid k) 0 [] (m_param_mem k).

Lemma round_exists w : live_inv w -> exists w', gpu_round w w'.
Proof using.
  intros Hw. assert (exists w1, rtc (cores_step compute) w w1 /\
    (running_list (m_gpu w) = [] \/ (length (running_list (m_gpu w1)) < length (running_list (m_gpu w)))%nat)) as (w1 & Hg & H).
  { destruct (running_list (m_gpu w)) as [|p l] eqn:E; [exists w; split; [done|by left]|].
    assert (p ∈ running_list (m_gpu w)) as Hp by (rewrite E; left).
    destruct (proj2 (go_running _ _ _ (mn_gpu _ (proj1 (li_ok _ Hw)))) p Hp) as (s & k & _ & Hk & _).
    destruct (complete_ok w p k (finished_version k) (li_ok _ Hw) Hp Hk) as (t & Ed & Et & _); [done..|]. eexists. split.
    - apply rtc_once, cores_table. by apply (core_complete (m_gpu w) p k (finished_version k)); try done; unfold kernel_done, no_more_ctas_to_run; simpl; rewrite Z.leb_refl.
    - right. apply Permutation_length in Et. rewrite E in Et. unfold running_list. simpl in *. lia. }
  destruct (cores_live w w1 Hw Hg) as (Hw' & _). destruct (operation_ok perform compute 0 _ (li_ok _ Hw')) as (_ & w' & _ & _ & E & _). exists w'. by apply (round w w' w1 0).
Qed.

Lemma rounds_live n : forall w w', live_inv w -> nsteps gpu_round n w w' -> live_inv w' /\ ((measure w' + n <= measure w)%nat \/ all_done w').
Proof using.
  induction n as [|n IH]; intros w w' Hw Hn; inversion Hn as [|? ? w1 ? Hr Hn']; subst; [split; [done|left; lia]|].
  destruct (round_live w w1 Hw Hr) as [Hw1 Hm]. destruct (IH w1 w' Hw1 Hn') as [Hw' Hm']. split; [done|].
  destruct Hm' as [Hm'|]; [|by right]. destruct Hm as [Hm|Hd]; [left; lia|right].
  clear Hm' IH Hn Hr Hw. revert w1 Hn' Hw1 Hd. induction n as [|n IH]; intros w1 Hn Hw1 Hd; inversion Hn as [|? ? w2 ? Hr Hn']; subst; [done|].
  apply (IH w2 Hn'); [by apply (round_live w1)|by apply (done_round w1)].
Qed.

Lemma rounds_exist n : forall w, live_inv w -> exists w', nsteps gpu_round n w w'.
Proof using.
  induction n as [|n IH]; intros w Hw; [exists w; constructor|]. destruct (round_exists w Hw) as [w1 Hr]. destruct (IH w1) as [w' Hn]; [by apply (round_live w)|].
  exists w'. by econstructor.
Qed.
Lemma step_lossless w w' : run_ok w -> lossless w -> streams_fit w -> stream_step perform compute w w' -> lossless w'.
Proof using.
  intros Hok Hl Hfit Hstep. destruct Hstep as [cycle w' E|w' Hc|op ph ph' w' Hop E0| |s w' Hz E|e He|p k uid next gd bd entry Hp Hu Hfresh E].
  - by destruct (operation_live cycle w w') as [[_ H _] _].
  - destruct Hc as [g' Hc|x _]; [by apply core_lossless|done].
  - destruct (push_step_cases w op ph ph' w' E0) as [E| ->]; [|done]. destruct (push_ok perform compute w op Hok Hop) as (s & st & w2 & E' & Hs & _ & _ & Es & Eg & _). rewrite E in E'. injection E' as <-.
    intros s' p k. rewrite Es, Eg. intros [[_ Hx]|(-> & Hpe & o & r & Eo & Hk)]%executing_insert; [by apply (Hl s')|]. simpl in Hpe, Eo.
    destruct (so_front _ (mn_streams _ (proj1 Hok)) s st Hs Hpe) as (o' & r' & Eo' & _). rewrite Eo' in Eo. injection Eo as -> _. apply (Hl s). by exists st, o, r'.
  - intros s' p k. simpl. rewrite <- executing_new; [apply Hl|]. destruct (streams w !! next_stream w) eqn:E; [|done].
    pose proof (proj1 (proj2 (so_fresh _ (mn_streams _ (proj1 Hok)))) (next_stream w)) as H. rewrite E in H. specialize (H ltac:(by eexists)). lia.
  - destruct (destroy_ok w s w' Hok Hz E) as (_ & _ & _ & Eg & _ & Es & _). intros s' p k (st & op & rest & Hs & Hr). rewrite Es in Hs. rewrite Eg.
    apply lookup_delete_Some in Hs as [_ Hs]. apply (Hl s'). by exists st, op, rest.
  - done.
  - intros s q l Hx. simpl. rewrite lookup_insert. destruct (decide (p = q)) as [<-|]; [|by apply (Hl s)].
    destruct (go_live _ _ _ (mn_gpu _ (proj1 Hok)) s p Hx) as (? & ? & _). congruence.
Qed.

(** Reached with a slot for every stream all the way. *)
Definition fit_reachable (slots max_cta threads : Z) (blocking : bool) (m0 : M) : manager M → Prop :=
  rtc (fun w w' => streams_fit w /\ stream_step perform compute w w') (manager_new (table_new slots max_cta threads) blocking ∅ m0).

Lemma fit_lossless slots max_cta threads blocking m0 w : fit_reachable slots max_cta threads blocking m0 w -> run_ok w /\ lossless w.
Proof using.
  intros H. unfold fit_reachable in H.
  assert (reach_inv perform compute m0 (manager_new (table_new slots max_cta threads) blocking ∅ m0) /\ lossless (manager_new (table_new slots max_cta threads) blocking ∅ m0)) as Hi.
  { split; [apply new_inv|]. intros s p k (st & op & rest & Hs & Hp & _). simpl in Hs. apply lookup_singleton_Some in Hs as [_ <-]. done. }
  enough (reach_inv perform compute m0 w /\ lossless w) as [[? _ _ _ _] ?] by done. revert Hi. induction H as [w|w1 w2 w3 [Hf Hs] _ IH]; [done|].
  intros [Hr Hl]. apply IH. split; [by apply (step_inv perform compute m0 w1)|]. by apply (step_lossless w1); [apply Hr|..].
Qed.

(** C10: When the table of running kernels had a slot for every stream all along,
    everything that was pushed gets done: a round, in which the cores complete some
    kernel if the table has any and then the GPU thread takes its turn, is always
    possible, and after at most as many rounds as the measure says (four for each queued
    operation, one for each kernel in the table and one for the flag of stream zero) the
    manager is empty and a host thread that waits in push returns. *)
Theorem streams_drain slots max_cta threads blocking m0 w : fit_reachable slots max_cta threads blocking m0 w -> streams_fit w ->
  (forall n, exists w', nsteps gpu_round n w w') /\
  (forall n w', (measure w <= n)%nat -> nsteps gpu_round n w w' ->
     manager_empty w' = Ok true /\ forall op, push_step w' op Draining = Ok (w', Returned)).
Proof using.
  intros [Hok Hl]%fit_lossless Hfit. assert (live_inv w) as Hw by done. split; [intros n; by apply rounds_exist|]. intros n w' Hn Hr.
  destruct (rounds_live n w w' Hw Hr) as [Hw' Hd]. assert (manager_empty w' = Ok true) as E.
  { apply all_done_empty; [apply Hw'|]. destruct Hd as [Hm|Hd]; [|done]. apply measure_zero; [apply Hw'|lia]. }
  split; [done|]. intros op. simpl. by rewrite E.
Qed.

(** ** A kernel without a slot *)

(** The kernel [p] in front of [s] was started while the table was full: it is neither in
    the table nor reported.  [e] are the operations of the stream that have ended. *)
Definition lost w (s p : Z) (e : list stream_operation) : Prop :=
  executing (streams w) s p /\ ended s (history w) = e /\
  exists k, kernels (m_gpu w) !! p = Some k /\ (p ∉ running_list (m_gpu w)) /\ (m_uid k ∉ m_finished_kernel (m_gpu w)).

(** Another stream changes. *)
Lemma lost_other w w' l s p e s' st' : lost w s p e -> s' <> s -> streams w' = <[s' := st']> (streams w) -> follows perform compute w w' l ->
  (forall a, a ∈ l -> action_stream a = s') -> kernels (m_gpu w') !! p = kernels (m_gpu w) !! p -> (p ∈ running_list (m_gpu w') -> p ∈ running_list (m_gpu w)) ->
  (forall u, u ∈ m_finished_kernel (m_gpu w') -> u ∈ m_finished_kernel (m_gpu w)) -> lost w' s p e.
Proof using.
  intros (Hx & He & k & Hk & Hr & Hf) Hne Es Hfo Hl Ek Er Ef. split; [|split; [|exists k; rewrite Ek; naive_solver]].
  - rewrite Es. apply executing_insert. by left.
  - rewrite (fo_history _ _ _ _ _ Hfo). destruct (history_app s (history w) l) as (_ & _ & ->). destruct (history_other s l) as (_ & _ & ->); [|by rewrite app_nil_r].
    intros a Ha. by rewrite (Hl a Ha).
Qed.

Lemma lost_collect w w' l s p e : run_ok w -> lost w s p e -> follows perform compute w w' l -> collected w w' l -> lost w' s p e.
Proof using.
  intros Hok Hlost Hf [(_ & -> & _)|(k & fin & s' & st & op & rest & q & E1 & Hkq & E2 & Hs & Hp & Eo & Hk & E3 & E4 & E5 & ->)]; [done|].
  pose proof Hlost as (Hx & _ & l & Hl & _ & Hnf). assert (q <> p) as Hqp by (intros ->; apply Hnf; rewrite E1; assert (l = k) as -> by congruence; left).
  apply (lost_other w w' [Ended s' op] s p e s' (mkStream rest false)); try done.
  - intros ->. apply Hqp. apply (go_fun _ _ _ (mn_gpu _ (proj1 Hok)) s); [by exists st, op, rest|done].
  - by intros a ->%list_elem_of_singleton.
  - rewrite E5. by apply lookup_delete_ne.
  - by rewrite E4.
  - rewrite E1, E2. intros u Hu. by right.
Qed.

Lemma lost_front w w' l s p e : run_ok w -> lost w s p e -> follows perform compute w w' l -> fronted w w' l -> lost w' s p e.
Proof using.
  intros Hok Hlost Hf Hfr. destruct Hfr as [s' st op rest w' l (Hs & Hp & Eo) _ _ _ Hl| | |]; try done.
  pose proof Hlost as (Hx & _). destruct Hok as [[Hso _ _] _].
  assert (s' <> s) as Hne by (intros ->; destruct Hx as (x & ? & ? & Hx & Hpx & _); assert (x = st) as -> by congruence; congruence).
  assert (m_kernel op <> Some p) as Hop.
  { intros Hk. destruct (executing_queued w s p Hx) as (st2 & Hs2 & Hq). apply Hne, (kernel_in_one _ _ _ _ _ p (so_once _ Hso) Hs Hs2); [|done].
    apply list_elem_of_omap. exists op. rewrite Eo. split; [left|done]. }
  destruct Hl as [(-> & E1 & E2 & E3 & E4)|(-> & _ & E1 & E2 & E3 & _ & E4 & _)]; eapply (lost_other w w'); try done.
  - intros a [->|[->|[]%not_elem_of_nil]%elem_of_cons]%elem_of_cons; done.
  - by apply E4.
  - by rewrite E2.
  - by rewrite E3.
  - by intros a ->%list_elem_of_singleton.
  - by rewrite E3.
  - intros H. by destruct (E4 p H).
  - by rewrite E2.
Qed.

Lemma lost_step w w' s p e : run_ok w -> lost w s p e -> stream_step perform compute w w' -> lost w' s p e.
Proof using.
  intros Hok Hlost Hstep. pose proof Hlost as (Hx & He & k & Hk & Hr & Hf).
  destruct Hstep as [cycle w' E|w' Hc|op ph ph' w' Hop E0| |s' w' Hz E|ev Hev|q l uid next gd bd entry Hq Hu Hfresh E].
  - destruct (operation_ok perform compute cycle w Hok) as (w1 & w2 & l1 & l2 & E' & Hok1 & Hok2 & Hf1 & Hf2 & _ & Hc & Hfr). rewrite E in E'. injection E' as <-.
    by apply (lost_front w1 w' l2), Hfr; [|apply (lost_collect w w1 l1)|].
  - destruct Hc as [g' Hc|x _].
    2: { split; [done|]. split; [|by exists k]. simpl. by destruct (history_worked (history w) x s) as (_ & _ & ->). }
    split; [done|]. split; [done|]. destruct Hc as [q l l' Hq Hl Hsk Hd|q l l' g' Hq Hl Hsk Hd Ha E]; assert (q <> p) as Hne by (by intros ->).
    + exists k. simpl. by rewrite lookup_insert_ne.
    + destruct (complete_ok w q l l' Hok Hq Hl Hsk Ha) as (t & E' & Et & _). rewrite E in E'. injection E' as ->. exists k. simpl.
      rewrite lookup_insert_ne by done. split_and!; [done|intros Hin; apply Hr; rewrite Et; by right|]. intros [?|Hin%list_elem_of_singleton]%elem_of_app; [done|].
      by apply Hne, (go_uids _ _ _ (mn_gpu _ (proj1 Hok)) q p l k).
  - destruct (push_step_cases w op ph ph' w' E0) as [E| ->]; [|done]. destruct (push_ok perform compute w op Hok Hop) as (s' & st & w2 & E' & Hs & _ & Hfo & Es & Eg & _). rewrite E in E'. injection E' as <-.
    split; [|split; [|exists k; by rewrite Eg]].
    + rewrite Es. apply executing_insert. destruct (decide (s = s')) as [->|]; [right|by left]. destruct Hx as (x & o & r & Hx & Hp & Eo & Ho).
      assert (x = st) as -> by congruence. split; [done|]. split; [done|]. exists o, (r ++ [set_stream op s']). simpl. by rewrite Eo.
    + rewrite (fo_history _ _ _ _ _ Hfo). destruct (history_app s (history w) [Pushed s' (set_stream op s')]) as (_ & _ & ->). by rewrite app_nil_r.
  - split; [|split; [done|by exists k]]. simpl. apply executing_insert. left. split; [|done]. intros ->. destruct Hx as (x & _ & _ & Hx & _).
    pose proof (proj1 (proj2 (so_fresh _ (mn_streams _ (proj1 Hok)))) (next_stream w)) as H. rewrite Hx in H. specialize (H ltac:(by eexists)). lia.
  - destruct (destroy_ok w s' w' Hok Hz E) as (_ & Eh & _ & Eg & _ & Es & Hem). split; [|rewrite Eh, Eg; split; [done|by exists k]].
    destruct Hx as (x & o & r & Hx & Hp & Eo & Ho). exists x, o, r. rewrite Es, lookup_delete_ne; [done|]. intros ->. destruct (Hem x Hx) as [? _]. congruence.
  - split; [done|]. split; [done|]. by exists k.
  - split; [done|]. split; [done|]. exists k. simpl. rewrite lookup_insert_ne; [done|]. congruence.
Qed.

(** C28: When, in a state that host threads, the GPU thread and the cores reach, the GPU
    thread finds a kernel at the front of the streams while the table of running kernels
    is full, its operation returns having neither launched the kernel nor put it back:
    whatever happens from then on, the kernel stays the operation in progress of its
    stream, is never in the table of running kernels nor among the finished ones, and no
    further operation of that stream ends. *)
Theorem lost_kernel_blocks_stream slots max_cta threads blocking m0 w b w1 op w2 : streams_reachable perform compute slots max_cta threads blocking m0 w ->
  check_finished_kernel w = Ok (b, w1) -> manager_front w1 = Ok (op, w2) -> is_kernel op = true -> can_start_kernel (m_gpu w2) = Ok false ->
  exists s p, m_stream op = Some s /\ m_kernel op = Some p /\ (forall cycle, operation perform cycle w = Ok w2) /\
    forall w', rtc (stream_step perform compute) w2 w' -> lost w' s p (ended s (history w2)).
Proof using.
  intros Hw E1 E2 Hk Hfull. apply reachable_inv in Hw. pose proof (ri_ok _ _ _ _ Hw) as Hok.
  destruct (check_ok perform compute w Hok) as (b' & w1' & l & E1' & Hok1 & _). rewrite E1 in E1'. injection E1' as <- <-.
  destruct (front_kernel_started perform compute w1 op w2 Hok1 E2 Hk) as (s & p & k & Hs & Hd & Hp & Hx & Hkp & Hnr & Hnf).
  assert (forall cycle, operation perform cycle w = Ok w2) as Hop.
  { intros cycle. unfold operation. rewrite E1. simpl. rewrite E2. simpl. unfold do_operation, is_noop.
    pose proof Hk as Hty. apply bool_decide_eq_true in Hty. rewrite Hty, bool_decide_eq_false_2, Hd, Hs by done. simpl. by rewrite Hfull. }
  exists s, p. split_and!; try done. assert (lost w2 s p (ended s (history w2))) as Hl by (split; [done|]; split; [done|]; by exists k).
  assert (reach_inv perform compute m0 w2) as Hi by (eapply (step_inv perform compute m0 w); [done|]; by apply (step_operation _ _ _ 0)).
  intros w' Hr. remember (ended s (history w2)) as e eqn:Ee. clear Ee E2 Hfull Hx Hkp Hnr Hnf Hop. revert Hi Hl. induction Hr as [w'|w3 w4 w5 Hst _ IH]; [done|]. intros Hi Hl.
  apply IH; [by apply (step_inv perform compute m0 w3)|]. by apply (lost_step w3); [apply Hi|..].
Qed.
End drain.

(** ** Small runs *)

Definition demo_fits (w : manager (list stream_operation)) : bool :=
  (1 <=? length (m_running_kernels (m_gpu w)))%nat && (length (m_streams w) <=? length (m_running_kernels (m_gpu w)))%nat.

Lemma demo_fit_reachable : fit_reachable log_operation log_work 2 0 1024 false [] (demo_served 2).
Proof.
  eapply rtc_subrel; [|apply (demo_steps 2 demo_fits); [by right|]].
  - intros w w' [[H1 H2]%andb_true_iff Hs]. split; [|done]. split; by apply Nat.leb_le.
  - intros w H1 H2. apply andb_true_iff. rewrite H2. split; apply Nat.leb_le; [lia|exact H1].
Qed.

Lemma streams_drain_witness :
  measure (demo_served 2) = 8%nat /\
  (exists w', nsteps (gpu_round log_operation log_work) 8 (demo_served 2) w' /\ manager_empty w' = Ok true).
Proof.
  destruct (streams_drain log_operation log_work 2 0 1024 false [] (demo_served 2)) as [He Hd].
  - apply demo_fit_reachable.
  - split; vm_compute; lia.
  - split; [vm_compute; reflexivity|]. destruct (He 8%nat) as [w' Hw']. exists w'. split; [exact Hw'|].
    apply (Hd 8%nat); [vm_compute; lia|exact Hw'].
Defined.

(** One slot for two streams: the second kernel is lost. *)
Definition demo_first : manager (list stream_operation) := result (operation log_operation 0 (demo_pushed 1)) (demo_pushed 1).
Lemma demo_first_reachable : streams_reachable log_operation log_work 1 0 1024 false [] demo_first.
Proof.
  apply rtc_r with (demo_pushed 1); [|apply (step_operation _ _ _ 0); vm_compute; reflexivity]. eapply rtc_subrel; [|apply (demo_pushed_steps 1 (fun _ => true))]; [by intros w w' [_ ?]|by left|done].
Qed.

Lemma lost_kernel_blocks_stream_witness :
  operation log_operation 1 demo_first = Ok (demo_served 1) /\
  lost (result (operation log_operation 2 (demo_served 1)) (demo_served 1)) 2 20 [].
Proof.
  destruct (lost_kernel_blocks_stream log_operation log_work 1 0 1024 false [] demo_first false demo_first (op_kernel 20 false (Some 2)) (demo_served 1))
    as (s & p & Es & Ep & Hop & Hl); [apply demo_first_reachable|vm_compute; reflexivity|vm_compute; reflexivity|reflexivity|vm_compute; reflexivity|].
  injection Es as <-. injection Ep as <-. split; [apply Hop|]. apply Hl. apply rtc_once, (step_operation _ _ _ 2). vm_compute. reflexivity.
Defined.

(** A host thread that destroys a stream with operations waits with the lock held. *)
Example destroy_waits : destroy_stream (demo_served 2) 1 = Err OutOfFuel.
Proof. vm_compute. reflexivity. Qed.
Example device_copies_are_not_mem : is_mem (op_device_to_device 0 64 16 (Some 1)) = false /\ is_mem (op_host_to_device 0 64 16 (Some 1)) = true.
Proof. vm_compute. by split. Qed.
