(* ===== verification/MemoryControl.v ===== *)
(** * The memory controller of Ruby

    [system/MemoryControl.{h,C}] and [system/MemoryNode.h]: a DDR channel with a queue for
    each bank, counters that say when banks and buses are free, a shift register for each
    rank that limits activations to four in a window, refresh, and batches of old requests
    against starvation.

    The controller's clock is the event queue: [enqueueMemRef] and [wakeup] ask it for
    wakeups, which are recorded in [m_events].  The time is an argument.  [random] is the
    sequence of results of [random()].  [cycle] and [commands] are not members of the code:
    they count the cycles executed and record, newest first, what was sent to the device;
    [m_enqueued], [m_issued] and [m_responses] record the requests that came, were issued
    and were answered.  Counters are [int]s that stay far from their bounds: they are not
    wrapped. *)

From S2P Require Import Prelude.

(** * Configuration *)

Record mem_config := mkMemConfig {
  m_mem_bus_cycle_multiplier : Z;
  m_banks_per_rank : Z;
  m_ranks_per_dimm : Z;
  m_dimms_per_channel : Z;
  m_bank_bit_0 : Z;
  m_rank_bit_0 : Z;
  m_dimm_bit_0 : Z;
  m_bank_queue_size : Z;
  m_bank_busy_time : Z;
  m_rank_rank_delay : Z;
  m_read_write_delay : Z;
  m_basic_bus_busy_time : Z;
  m_mem_ctl_latency : Z;
  m_refresh_period : Z;
  m_memRandomArbitrate : Z;
  m_tFaw : Z;
  m_memFixedDelay : Z }.

Definition ACTIVATE_PER_TFAW : Z := 4.
Definition IDLECOUNT_MAX_VALUE : Z := 1000.

(** [MemoryNode]; a request without a message is a write-back of the L3 cache. *)
Record mem_node := mkNode {
  n_time : Z;
  n_msg_counter : Z;
  n_msgptr : option Z;
  n_addr : Z;
  n_is_mem_read : bool;
  n_is_dirty_wb : bool }.

(** What the device is told, in which cycle. *)
Inductive command_kind := Refresh | ReadCmd | WriteCmd.
#[export] Instance command_kind_eq_dec : EqDecision command_kind.
Proof. solve_decision. Defined.
Record command := mkCommand { c_cycle : Z; c_bank : Z; c_kind : command_kind }.

(** * State *)

(** The members that say when the device is ready. *)
Record device := mkDevice {
  cycle : Z;
  commands : list command;
  m_bankBusyCounter : list Z;
  m_tfaw_shift : list Z;
  m_tfaw_count : list Z;
  m_busBusyCounter_Basic : Z;
  m_busBusyCounter_Write : Z;
  m_busBusyCounter_ReadNewRank : Z;
  m_busBusy_WhichRank : Z }.

(** Who is to be woken up. *)
Inductive wake_target := Controller | Directory.

Record MemoryControl := mkControl {
  m_device : device;
  m_response_queue : list mem_node;
  m_input_queue : list mem_node;
  m_bankQueues : list (list mem_node);
  m_oldRequest : list Z;
  m_ageCounter : Z;
  m_roundRobin : Z;
  m_refresh_count : Z;
  m_need_refresh : Z;
  m_refresh_bank : Z;
  m_idleCount : Z;
  m_awakened : Z;
  m_msg_counter : Z;
  m_random : nat;
  m_events : list (wake_target * Z);
  m_enqueued : list mem_node;
  m_issued : list mem_node;
  m_responses : list mem_node }.

Section controller.
Context (c : mem_config) (random : nat → Z).
Implicit Types (s : MemoryControl) (d : device).

Definition m_total_banks : Z := m_banks_per_rank c * m_ranks_per_dimm c * m_dimms_per_channel c.
Definition m_total_ranks : Z := m_ranks_per_dimm c * m_dimms_per_channel c.
Definition m_refresh_period_system : Z := Z.quot (m_refresh_period c) m_total_banks.

Definition memory_control_new : outcome MemoryControl :=
  cassert (m_tFaw c <=? 62);;
  if m_total_banks =? 0 then Err Undefined
  else
    let zeros n := replicate (Z.to_nat n) 0 in
    mret (mkControl (mkDevice 0 [] (zeros m_total_banks) (zeros m_total_ranks) (zeros m_total_ranks) 0 0 0 0) [] []
            (replicate (Z.to_nat m_total_banks) []) (zeros m_total_banks) 0 0 1 0 0 0 0 0 0%nat [] [] [] []).

(** * The device *)

Definition getBank (addr : Z) : Z :=
  let dimm := Z.land (Z.shiftr addr (m_dimm_bit_0 c)) (m_dimms_per_channel c - 1) in
  let rank := Z.land (Z.shiftr addr (m_rank_bit_0 c)) (m_ranks_per_dimm c - 1) in
  let bank := Z.land (Z.shiftr addr (m_bank_bit_0 c)) (m_banks_per_rank c - 1) in
  dimm * m_ranks_per_dimm c * m_banks_per_rank c + rank * m_banks_per_rank c + bank.

Definition getRank (bank : Z) : outcome Z :=
  let rank := Z.quot bank (m_banks_per_rank c) in
  cassert (rank <? m_ranks_per_dimm c * m_dimms_per_channel c);; mret rank.

Definition count_down (n : Z) : Z := if 0 <? n then n - 1 else n.

(** The first part of [executeCycle]. *)
Definition dev_tick d : device :=
  mkDevice (cycle d + 1) (commands d) (count_down <$> m_bankBusyCounter d) ((fun x => Z.shiftr x 1) <$> m_tfaw_shift d)
    (zip_with (fun x n => if Z.testbit x 0 then n - 1 else n) (m_tfaw_shift d) (m_tfaw_count d))
    (count_down (m_busBusyCounter_Basic d)) (count_down (m_busBusyCounter_Write d)) (count_down (m_busBusyCounter_ReadNewRank d))
    (m_busBusy_WhichRank d).

(** [1 << (m_tFaw-1)] is an [int]. *)
Definition tfaw_bit : outcome Z := if 32 <=? m_tFaw c - 1 then Err Undefined else mret (u64 (s32 (Z.shiftl 1 (m_tFaw c - 1)))).

Definition with_tfaw d shift count : device :=
  mkDevice (cycle d) (commands d) (m_bankBusyCounter d) shift count (m_busBusyCounter_Basic d) (m_busBusyCounter_Write d)
    (m_busBusyCounter_ReadNewRank d) (m_busBusy_WhichRank d).

Definition markTfaw d (rank : Z) : outcome device :=
  if negb (m_tFaw c =? 0) then
    b ← tfaw_bit;
    x ← aread (m_tfaw_shift d) rank;
    shift ← awrite (m_tfaw_shift d) rank (Z.lor x b);
    n ← aread (m_tfaw_count d) rank;
    count ← awrite (m_tfaw_count d) rank (n + 1);
    mret (with_tfaw d shift count)
  else mret d.

(** The counters after a command to [bank]. *)
Definition occupy d (bank : Z) (k : command_kind) (write read_new_rank rank : Z) : outcome device :=
  busy ← awrite (m_bankBusyCounter d) bank (m_bank_busy_time c);
  mret (mkDevice (cycle d) (mkCommand (cycle d) bank k :: commands d) busy (m_tfaw_shift d) (m_tfaw_count d) (m_basic_bus_busy_time c)
          write read_new_rank rank).

(** The conditions of [issueRefresh], and what it does to the device. *)
Definition refresh_ready d (bank : Z) : outcome bool :=
  busy ← aread (m_bankBusyCounter d) bank;
  if 0 <? busy then mret false
  else if 0 <? m_busBusyCounter_Basic d then mret false
  else
    rank ← getRank bank;
    n ← aread (m_tfaw_count d) rank;
    mret (negb (ACTIVATE_PER_TFAW <=? n)).
Definition dev_refresh d (bank : Z) : outcome device :=
  rank ← getRank bank;
  d ← occupy d bank Refresh (m_basic_bus_busy_time c) (m_basic_bus_busy_time c) (m_busBusy_WhichRank d);
  markTfaw d rank.

(** The conditions of [queueReady] that concern buses and activations. *)
Definition bus_ready d (bank : Z) (is_mem_read : bool) : outcome bool :=
  if m_busBusyCounter_Basic d =? m_basic_bus_busy_time c then mret false
  else if 0 <? m_busBusyCounter_Basic d then mret false
  else
    rank ← getRank bank;
    n ← aread (m_tfaw_count d) rank;
    if ACTIVATE_PER_TFAW <=? n then mret false
    else
      let write := negb is_mem_read in
      if write && (0 <? m_busBusyCounter_Write d) then mret false
      else mret (negb (negb write && negb (rank =? m_busBusy_WhichRank d) && (0 <? m_busBusyCounter_ReadNewRank d))).

(** What [issueRequest] does to the device. *)
Definition dev_issue d (bank : Z) (is_mem_read : bool) : outcome device :=
  rank ← getRank bank;
  d ← markTfaw d rank;
  let basic := m_basic_bus_busy_time c in
  if is_mem_read then occupy d bank ReadCmd (basic + m_read_write_delay c) (basic + m_rank_rank_delay c) rank
  else occupy d bank WriteCmd basic basic rank.
(** * The controller *)

Definition with_device s d : MemoryControl :=
  mkControl d (m_response_queue s) (m_input_queue s) (m_bankQueues s) (m_oldRequest s) (m_ageCounter s) (m_roundRobin s) (m_refresh_count s)
    (m_need_refresh s) (m_refresh_bank s) (m_idleCount s) (m_awakened s) (m_msg_counter s) (m_random s) (m_events s) (m_enqueued s) (m_issued s)
    (m_responses s).
Definition with_refresh s (count need bank : Z) : MemoryControl :=
  mkControl (m_device s) (m_response_queue s) (m_input_queue s) (m_bankQueues s) (m_oldRequest s) (m_ageCounter s) (m_roundRobin s) count
    need bank (m_idleCount s) (m_awakened s) (m_msg_counter s) (m_random s) (m_events s) (m_enqueued s) (m_issued s) (m_responses s).
Definition with_batch s (old : list Z) (age : Z) : MemoryControl :=
  mkControl (m_device s) (m_response_queue s) (m_input_queue s) (m_bankQueues s) old age (m_roundRobin s) (m_refresh_count s)
    (m_need_refresh s) (m_refresh_bank s) (m_idleCount s) (m_awakened s) (m_msg_counter s) (m_random s) (m_events s) (m_enqueued s) (m_issued s)
    (m_responses s).
Definition with_roundRobin s (n : Z) (r : nat) : MemoryControl :=
  mkControl (m_device s) (m_response_queue s) (m_input_queue s) (m_bankQueues s) (m_oldRequest s) (m_ageCounter s) n (m_refresh_count s)
    (m_need_refresh s) (m_refresh_bank s) (m_idleCount s) (m_awakened s) (m_msg_counter s) r (m_events s) (m_enqueued s) (m_issued s)
    (m_responses s).
Definition with_idle s (n : Z) : MemoryControl :=
  mkControl (m_device s) (m_response_queue s) (m_input_queue s) (m_bankQueues s) (m_oldRequest s) (m_ageCounter s) (m_roundRobin s) (m_refresh_count s)
    (m_need_refresh s) (m_refresh_bank s) n (m_awakened s) (m_msg_counter s) (m_random s) (m_events s) (m_enqueued s) (m_issued s)
    (m_responses s).
Definition with_wake s (awake : Z) (ev : list (wake_target * Z)) : MemoryControl :=
  mkControl (m_device s) (m_response_queue s) (m_input_queue s) (m_bankQueues s) (m_oldRequest s) (m_ageCounter s) (m_roundRobin s) (m_refresh_count s)
    (m_need_refresh s) (m_refresh_bank s) (m_idleCount s) awake (m_msg_counter s) (m_random s) ev (m_enqueued s) (m_issued s) (m_responses s).
Definition with_queues s (input : list mem_node) (banks : list (list mem_node)) (issued : list mem_node) : MemoryControl :=
  mkControl (m_device s) (m_response_queue s) input banks (m_oldRequest s) (m_ageCounter s) (m_roundRobin s) (m_refresh_count s)
    (m_need_refresh s) (m_refresh_bank s) (m_idleCount s) (m_awakened s) (m_msg_counter s) (m_random s) (m_events s) (m_enqueued s) issued
    (m_responses s).
Definition with_response s (q ever : list mem_node) : MemoryControl :=
  mkControl (m_device s) q (m_input_queue s) (m_bankQueues s) (m_oldRequest s) (m_ageCounter s) (m_roundRobin s) (m_refresh_count s)
    (m_need_refresh s) (m_refresh_bank s) (m_idleCount s) (m_awakened s) (m_msg_counter s) (m_random s) (m_events s) (m_enqueued s) (m_issued s)
    ever.

(** ** The directory's side *)

Definition enqueueMemRef s (now : Z) (memRef : mem_node) : MemoryControl :=
  let counter := m_msg_counter s + 1 in
  let req := mkNode (n_time memRef) counter (n_msgptr memRef) (n_addr memRef) (n_is_mem_read memRef) (n_is_dirty_wb memRef) in
  let s := mkControl (m_device s) (m_response_queue s) (m_input_queue s ++ [req]) (m_bankQueues s) (m_oldRequest s) (m_ageCounter s) (m_roundRobin s)
    (m_refresh_count s) (m_need_refresh s) (m_refresh_bank s) (m_idleCount s) (m_awakened s) counter (m_random s) (m_events s)
    (m_enqueued s ++ [req]) (m_issued s) (m_responses s) in
  if m_awakened s =? 0 then with_wake s 1 (m_events s ++ [(Controller, now + 1)]) else s.

Definition mem_enqueue s (now message addr : Z) (is_mem_read : bool) (latency : Z) : MemoryControl :=
  enqueueMemRef s now (mkNode (now + latency) 0 (Some message) addr is_mem_read (negb is_mem_read)).

Definition mem_isReady s (now : Z) : bool :=
  match m_response_queue s with [] => false | req :: _ => n_time req <=? now end.
Definition peekNode s (now : Z) : outcome mem_node :=
  cassert (mem_isReady s now);;
  match m_response_queue s with [] => Err BadAccess | req :: _ => mret req end.
Definition mem_peek s (now : Z) : outcome Z :=
  node ← peekNode s now;
  match n_msgptr node with Some m => mret m | None => Err AssertFailed end.
Definition mem_dequeue s (now : Z) : outcome MemoryControl :=
  cassert (mem_isReady s now);;
  match m_response_queue s with [] => Err BadAccess | _ :: q => mret (with_response s q (m_responses s)) end.

(** ** A cycle *)

Definition enqueueToDirectory s (now : Z) (req : mem_node) (latency : Z) : MemoryControl :=
  let arrival_time := now + latency * m_mem_bus_cycle_multiplier c in
  let req := mkNode arrival_time (n_msg_counter req) (n_msgptr req) (n_addr req) (n_is_mem_read req) (n_is_dirty_wb req) in
  let s := with_response s (m_response_queue s ++ [req]) (m_responses s ++ [req]) in
  with_wake s (m_awakened s) (m_events s ++ [(Directory, arrival_time)]).

Definition fixed : bool := negb (m_memFixedDelay c =? 0).

(** The answer, and the state with the random numbers that were drawn. *)
Definition queueReady s (bank : Z) : outcome (bool * MemoryControl) :=
  busy ← aread (m_bankBusyCounter (m_device s)) bank;
  if (0 <? busy) && negb fixed then mret (false, s)
  else
    let draws := 2 <=? m_memRandomArbitrate c in
    let refuse := draws && (random (m_random s) mod 100 <? m_memRandomArbitrate c) in
    let s := if draws then with_roundRobin s (m_roundRobin s) (S (m_random s)) else s in
    if refuse then mret (false, s)
    else if fixed then mret (true, s)
    else
      old ← aread (m_oldRequest s) bank;
      if (2 * m_bank_busy_time c <? m_ageCounter s) && (old =? 0) then mret (false, s)
      else
        q ← aread (m_bankQueues s) bank;
        req ← (match q with req :: _ => Ok req | [] => Err BadAccess end);
        r ← bus_ready (m_device s) bank (n_is_mem_read req);
        mret (r, s).

Definition issueRefresh s (bank : Z) : outcome MemoryControl :=
  if (m_need_refresh s =? 0) || negb (m_refresh_bank s =? bank) then mret s
  else
    r ← refresh_ready (m_device s) bank;
    if r : bool then
      d ← dev_refresh (m_device s) bank;
      let next := m_refresh_bank s + 1 in
      mret (with_device (with_refresh s (m_refresh_count s) (m_need_refresh s - 1) (if m_total_banks <=? next then 0 else next)) d)
    else mret s.

Definition issueRequest s (now bank : Z) : outcome MemoryControl :=
  q ← aread (m_bankQueues s) bank;
  match q with
  | [] => Err BadAccess
  | req :: rest =>
      banks ← awrite (m_bankQueues s) bank rest;
      let s := with_queues s (m_input_queue s) banks (m_issued s ++ [req]) in
      let s := match n_msgptr req with Some _ => enqueueToDirectory s now req (m_mem_ctl_latency c + m_memFixedDelay c) | None => s end in
      old ← awrite (m_oldRequest s) bank 0;
      d ← dev_issue (m_device s) bank (n_is_mem_read req);
      mret (with_device (with_batch s old (m_ageCounter s)) d)
  end.

(** One round of the loop over the banks. *)
Definition visit s (now : Z) : outcome MemoryControl :=
  let next := m_roundRobin s + 1 in
  let s := with_roundRobin s (if m_total_banks <=? next then 0 else next) (m_random s) in
  s ← issueRefresh s (m_roundRobin s);
  q ← aread (m_bankQueues s) (m_roundRobin s);
  if 0 <? zlen q then
    '(ready, s) ← queueReady (with_idle s IDLECOUNT_MAX_VALUE) (m_roundRobin s);
    if ready : bool then issueRequest s now (m_roundRobin s) else mret s
  else mret s.
Fixpoint visits (n : nat) s (now : Z) : outcome MemoryControl :=
  match n with O => mret s | S n => s ← visit s now; visits n s now end.

(** The refresh counter. *)
Definition refresh_tick s : outcome MemoryControl :=
  let count := if fixed then m_refresh_count s else m_refresh_count s - 1 in
  if count =? 0 then
    cassert (m_need_refresh s <? 10);;
    mret (with_refresh s m_refresh_period_system (m_need_refresh s + 1) (m_refresh_bank s))
  else mret (with_refresh s count (m_need_refresh s) (m_refresh_bank s)).

(** The batch of old requests. *)
Definition batch_tick s : MemoryControl :=
  if forallb (fun x => x =? 0) (m_oldRequest s)
  then with_batch s (zip_with (fun q x => match q with [] => x | _ => 1 end) (m_bankQueues s) (m_oldRequest s)) 0
  else with_batch s (m_oldRequest s) (m_ageCounter s + 1).

(** The first request of the input queue moves to its bank. *)
Definition move_input s : outcome MemoryControl :=
  match m_input_queue s with
  | [] => mret s
  | req :: rest =>
      let s := with_idle s IDLECOUNT_MAX_VALUE in
      q ← aread (m_bankQueues s) (getBank (n_addr req));
      if zlen q <? m_bank_queue_size c then
        banks ← awrite (m_bankQueues s) (getBank (n_addr req)) (q ++ [req]);
        mret (with_queues s rest banks (m_issued s))
      else mret s
  end.

Definition executeCycle s (now : Z) : outcome MemoryControl :=
  let s := with_device s (dev_tick (m_device s)) in
  s ← refresh_tick s;
  let s := batch_tick s in
  let s := if negb (m_memRandomArbitrate c =? 0) then with_roundRobin s (random (m_random s) mod m_total_banks) (S (m_random s)) else s in
  s ← visits (Z.to_nat m_total_banks) s now;
  move_input s.

Definition mem_wakeup s (now : Z) : outcome MemoryControl :=
  s ← executeCycle s now;
  let s := with_idle s (m_idleCount s - 1) in
  if m_idleCount s <=? 0 then mret (with_wake s 0 (m_events s))
  else mret (with_wake s (m_awakened s) (m_events s ++ [(Controller, now + m_mem_bus_cycle_multiplier c)])).
End controller.
