(* ===== verification/MemoryTiming.v ===== *)
(** * Commands of the memory controller against the rules of the device

    The rules that the parameters of the controller stand for, as a predicate on the
    record of commands ([legal]), and that the counters keep to them. *)

From S2P Require Import Prelude MemoryControl.

Record mem_config_ok (c : mem_config) : Prop := {
  mk_banks : exists n, 0 <= n /\ m_banks_per_rank c = 2 ^ n;
  mk_ranks : exists n, 0 <= n /\ m_ranks_per_dimm c = 2 ^ n;
  mk_dimms : exists n, 0 <= n /\ m_dimms_per_channel c = 2 ^ n;
  mk_bits : 0 <= m_bank_bit_0 c < 64 /\ 0 <= m_rank_bit_0 c < 64 /\ 0 <= m_dimm_bit_0 c < 64;
  mk_busy : 0 < m_bank_busy_time c;
  mk_bus : 0 < m_basic_bus_busy_time c;
  mk_delays : 0 <= m_read_write_delay c /\ 0 <= m_rank_rank_delay c;
  mk_latency : 0 < m_mem_ctl_latency c /\ 0 <= m_memFixedDelay c /\ 0 < m_mem_bus_cycle_multiplier c;
  mk_refresh : 0 < m_refresh_period c;
  mk_queue : 0 < m_bank_queue_size c;
  mk_arbitrate : 0 <= m_memRandomArbitrate c;
  mk_tFaw : 0 <= m_tFaw c < 32 }.

Section timing.
Context (c : mem_config) (Hc : mem_config_ok c).
Implicit Types (d : device) (x y : command).
Abbreviation basic := (m_basic_bus_busy_time c).

Lemma mem_banks_pos : 0 < m_banks_per_rank c /\ 0 < m_ranks_per_dimm c /\ 0 < m_dimms_per_channel c.
Proof using Hc.
  destruct (mk_banks c Hc) as (i & Hi & ->), (mk_ranks c Hc) as (j & Hj & ->), (mk_dimms c Hc) as (k & Hk & ->). lia.
Qed.

Definition rank_of (bank : Z) : Z := bank / m_banks_per_rank c.

Lemma rank_of_range bank : 0 <= bank < m_total_banks c -> 0 <= rank_of bank < m_total_ranks c.
Proof using Hc.
  intros Hb. pose proof mem_banks_pos. unfold rank_of, m_total_banks, m_total_ranks in *. split; [apply Z.div_pos; lia|]. apply Z.div_lt_upper_bound; [lia|]. lia.
Qed.
Lemma getRank_ok bank : 0 <= bank < m_total_banks c -> getRank c bank = Ok (rank_of bank).
Proof using Hc.
  intros Hb. pose proof mem_banks_pos. pose proof (rank_of_range bank Hb). unfold getRank, m_total_ranks in *. rewrite Z.quot_div_nonneg by lia. fold (rank_of bank).
  rewrite (proj2 (Z.ltb_lt _ _)) by lia. done.
Qed.

Lemma land_field a n : 0 <= a -> (exists k, 0 <= k /\ n = 2 ^ k) -> 0 <= Z.land a (n - 1) < n.
Proof using. intros Ha (k & Hk & ->). replace (2 ^ k - 1) with (Z.ones k) by (rewrite Z.ones_equiv; lia). rewrite Z.land_ones by done. apply Z.mod_pos_bound. lia. Qed.
Lemma getBank_range addr : 0 <= addr -> 0 <= getBank c addr < m_total_banks c.
Proof using Hc.
  intros Ha. pose proof mem_banks_pos. unfold getBank, m_total_banks.
  pose proof (land_field (Z.shiftr addr (m_dimm_bit_0 c)) _ (proj2 (Z.shiftr_nonneg _ _) Ha) (mk_dimms c Hc)).
  pose proof (land_field (Z.shiftr addr (m_rank_bit_0 c)) _ (proj2 (Z.shiftr_nonneg _ _) Ha) (mk_ranks c Hc)).
  pose proof (land_field (Z.shiftr addr (m_bank_bit_0 c)) _ (proj2 (Z.shiftr_nonneg _ _) Ha) (mk_banks c Hc)).
  revert H0 H1 H2. generalize (Z.land (Z.shiftr addr (m_dimm_bit_0 c)) (m_dimms_per_channel c - 1)), (Z.land (Z.shiftr addr (m_rank_bit_0 c)) (m_ranks_per_dimm c - 1)),
    (Z.land (Z.shiftr addr (m_bank_bit_0 c)) (m_banks_per_rank c - 1)). intros i j k Hi Hj Hk.
  assert (0 <= i * m_ranks_per_dimm c + j <= m_ranks_per_dimm c * m_dimms_per_channel c - 1) by nia. nia.
Qed.

(** ** The rules *)

(** Activations of a rank in the window that ends in cycle [T]. *)
Definition recent (r T : Z) (l : list command) : nat := length (filter (fun x => rank_of (c_bank x) = r /\ T - c_cycle x < m_tFaw c) l).
Definition in_window (r T : Z) (l : list command) : nat :=
  length (filter (fun x => rank_of (c_bank x) = r /\ T - m_tFaw c < c_cycle x <= T) l).

(** Data that is read needs time to leave the bus: for a write, or for another rank. *)
Definition turnaround y x : Prop :=
  c_kind y = ReadCmd ->
  (c_kind x = WriteCmd -> c_cycle y + basic + m_read_write_delay c <= c_cycle x) /\
  (c_kind x = ReadCmd -> rank_of (c_bank x) <> rank_of (c_bank y) -> c_cycle y + basic + m_rank_rank_delay c <= c_cycle x).

Fixpoint legal (l : list command) : Prop :=
  match l with
  | [] => True
  | x :: l' =>
      Forall (fun y => c_cycle y + basic <= c_cycle x /\ (c_bank y = c_bank x -> c_cycle y + m_bank_busy_time c <= c_cycle x)) l' /\
      (match l' with y :: _ => turnaround y x | [] => True end) /\
      (recent (rank_of (c_bank x)) (c_cycle x) l' < 4)%nat /\
      legal l'
  end.

Lemma window_recent l r T T' : T <= T' -> (in_window r T' l <= recent r T l)%nat.
Proof using. intros HT. unfold in_window, recent. induction l as [|y l IH]; [done|]. rewrite !filter_cons. repeat case_decide; simpl; lia. Qed.

Lemma legal_window l r T : legal l -> (in_window r T l <= 4)%nat.
Proof using Hc.
  pose proof (mk_bus c Hc) as Hbus. unfold in_window. induction l as [|x l IH]; intros Hl; [simpl; lia|]. destruct Hl as (Hf & _ & Hr & Hl). specialize (IH Hl).
  rewrite filter_cons. case_decide as Hx; [|done]. simpl. destruct Hx as [Hx HT]. unfold recent in Hr. rewrite Hx in Hr.
  pose proof (window_recent l r (c_cycle x) T (proj2 HT)). unfold in_window, recent in *. lia.
Qed.
(** ** The counters *)

Definition hits (r X : Z) (l : list command) : nat := length (filter (fun x => rank_of (c_bank x) = r /\ c_cycle x = X) l).

Lemma recent_tick r T l : recent r T l = (recent r (T + 1) l + hits r (T + 1 - m_tFaw c) l)%nat.
Proof using. unfold recent, hits. induction l as [|y l IH]; [done|]. rewrite !filter_cons. repeat case_decide; simpl; lia. Qed.

Lemma hits_later l r X : Forall (fun y => c_cycle y < X) l -> hits r X l = 0%nat.
Proof using. unfold hits. induction 1 as [|y l Hy _ IH]; [done|]. rewrite filter_cons. case_decide; [lia|done]. Qed.

Lemma hits_once l r X : legal l -> (hits r X l = 1%nat /\ exists y, y ∈ l /\ rank_of (c_bank y) = r /\ c_cycle y = X) \/
  (hits r X l = 0%nat /\ forall y, y ∈ l -> rank_of (c_bank y) = r -> c_cycle y <> X).
Proof using Hc.
  pose proof (mk_bus c Hc) as Hbus. induction l as [|x l IH]; intros Hl; [right; split; [done|by intros y ?%not_elem_of_nil]|].
  destruct Hl as (Hf & _ & _ & Hl). destruct (decide (rank_of (c_bank x) = r /\ c_cycle x = X)) as [[Hr HX]|Hn].
  - left. split; [|exists x; split; [left|done]]. unfold hits. rewrite filter_cons_True by done. simpl. f_equal. apply hits_later.
    eapply Forall_impl; [exact Hf|]. simpl. lia.
  - unfold hits. rewrite filter_cons_False by done. destruct (IH Hl) as [[H (y & Hy & H')]|[H H']]; [left|right]; (split; [done|]).
    + exists y. split; [by right|done].
    + intros y [->|Hy]%elem_of_cons Hr; [tauto|by apply H'].
Qed.

Record device_ok d : Prop := {
  do_banks : zlen (m_bankBusyCounter d) = m_total_banks c;
  do_ranks : zlen (m_tfaw_shift d) = m_total_ranks c /\ zlen (m_tfaw_count d) = m_total_ranks c;
  do_legal : legal (commands d);
  do_past : forall x, x ∈ commands d -> c_cycle x <= cycle d /\ 0 <= c_bank x < m_total_banks c;
  do_bus : 0 <= m_busBusyCounter_Basic d /\ forall x, x ∈ commands d -> c_cycle x + basic <= cycle d + m_busBusyCounter_Basic d;
  do_busy : forall x n, x ∈ commands d -> zread (m_bankBusyCounter d) (c_bank x) = Some n -> c_cycle x + m_bank_busy_time c <= cycle d + n;
  do_turn : forall x l, commands d = x :: l -> c_kind x = ReadCmd -> c_cycle x + basic + m_read_write_delay c <= cycle d + m_busBusyCounter_Write d /\
    c_cycle x + basic + m_rank_rank_delay c <= cycle d + m_busBusyCounter_ReadNewRank d /\ m_busBusy_WhichRank d = rank_of (c_bank x);
  do_shift : forall r n, zread (m_tfaw_shift d) r = Some n -> forall j, 0 <= j ->
    Z.testbit n j = true <-> exists x, x ∈ commands d /\ rank_of (c_bank x) = r /\ j = m_tFaw c - 1 - (cycle d - c_cycle x);
  do_count : forall r n, zread (m_tfaw_count d) r = Some n -> n = Z.of_nat (recent r (cycle d) (commands d)) }.

Lemma device_tick_ok d : device_ok d -> device_ok (dev_tick d).
Proof using Hc.
  intros [A1 [A2 A2'] A3 A4 [A5 A5'] A6 A7 A8 A9]. assert (forall n, n <= count_down n + 1) as Hd by (intros n; unfold count_down; destruct (0 <? n); lia).
  split; simpl.
  - by rewrite zlen_fmap.
  - rewrite zlen_fmap, zlen_zip_with; lia.
  - done.
  - intros x Hx. specialize (A4 x Hx). lia.
  - split; [unfold count_down; destruct (Z.ltb_spec 0 (m_busBusyCounter_Basic d)); lia|]. intros x Hx. specialize (A5' x Hx). specialize (Hd (m_busBusyCounter_Basic d)). lia.
  - intros x n Hx. rewrite zread_fmap. intros (m & Hm & ->)%fmap_Some. specialize (A6 x m Hx Hm). specialize (Hd m). lia.
  - intros x l E Hk. destruct (A7 x l E Hk) as (? & ? & ?). pose proof (Hd (m_busBusyCounter_Write d)). pose proof (Hd (m_busBusyCounter_ReadNewRank d)). split_and!; lia.
  - intros r n. rewrite zread_fmap. intros (m & Hm & ->)%fmap_Some j Hj. rewrite Z.shiftr_spec by done. rewrite (A8 r m Hm) by lia.
    split; intros (x & Hx & Hr & E); exists x; (split; [done|]; split; [done|lia]).
  - intros r n. rewrite zread_zip_with. destruct (zread (m_tfaw_shift d) r) as [x|] eqn:Ex; [|done]. simpl. destruct (zread (m_tfaw_count d) r) as [m|] eqn:Em; [|done].
    intros [= <-]. rewrite (A9 r m Em), (recent_tick r (cycle d)). pose proof (A8 r x Ex 0 ltac:(lia)) as Hb. rewrite Z.bit0_odd in Hb.
    destruct (hits_once (commands d) r (cycle d + 1 - m_tFaw c) A3) as [[-> (y & Hy & Hr & E)]|[-> Hn]].
    + rewrite (proj2 Hb); [lia|]. exists y. split; [done|]. split; [done|lia].
    + destruct (Z.odd x); [|lia]. destruct (proj1 Hb eq_refl) as (y & Hy & Hr & E). destruct (Hn y Hy Hr). lia.
Qed.
(** ** A command *)

Lemma tfaw_bit_ok : 0 < m_tFaw c -> tfaw_bit c = Ok (2 ^ (m_tFaw c - 1)).
Proof using Hc.
  intros Hf. pose proof (mk_tFaw c Hc). unfold tfaw_bit. rewrite (proj2 (Z.leb_gt _ _)) by lia. rewrite Z.shiftl_1_l.
  assert (2 ^ (m_tFaw c - 1) < 2 ^ 31) by (apply Z.pow_lt_mono_r; lia). assert (0 < 2 ^ (m_tFaw c - 1)) by (apply Z.pow_pos_nonneg; lia).
  rewrite swrap_small by lia. by rewrite uwrap_small by lia.
Qed.

(** The shift registers and counts after an activation of the rank [r]. *)
Definition activated d (r : Z) : device :=
  if m_tFaw c =? 0 then d
  else with_tfaw d (zwrite (m_tfaw_shift d) r (Z.lor (default 0 (zread (m_tfaw_shift d) r)) (2 ^ (m_tFaw c - 1))))
         (zwrite (m_tfaw_count d) r (default 0 (zread (m_tfaw_count d) r) + 1)).

Lemma markTfaw_ok d r : zlen (m_tfaw_shift d) = m_total_ranks c -> zlen (m_tfaw_count d) = m_total_ranks c -> 0 <= r < m_total_ranks c ->
  markTfaw c d r = Ok (activated d r).
Proof using Hc.
  intros Hs Hn Hr. unfold markTfaw, activated. destruct (Z.eqb_spec (m_tFaw c) 0) as [|Hf]; [done|]. simpl. rewrite tfaw_bit_ok by (pose proof (mk_tFaw c Hc); lia). simpl.
  destruct (aread_in (m_tfaw_shift d) r) as (x & Ex & ->); [lia|]. destruct (aread_in (m_tfaw_count d) r) as (n & En & ->); [lia|]. simpl.
  rewrite !awrite_in by lia. simpl. by rewrite Ex, En.
Qed.

Definition dev_command d (bank : Z) (k : command_kind) (write read_new_rank rank : Z) : device :=
  mkDevice (cycle d) (mkCommand (cycle d) bank k :: commands d) (zwrite (m_bankBusyCounter d) bank (m_bank_busy_time c)) (m_tfaw_shift d) (m_tfaw_count d) basic
    write read_new_rank rank.

Lemma command_ok d bank k write new rank : device_ok d -> 0 <= bank < m_total_banks c -> m_busBusyCounter_Basic d <= 0 ->
  (forall n, zread (m_bankBusyCounter d) bank = Some n -> n <= 0) -> (forall n, zread (m_tfaw_count d) (rank_of bank) = Some n -> n < 4) ->
  (k = WriteCmd -> m_busBusyCounter_Write d <= 0) -> (k = ReadCmd -> rank_of bank <> m_busBusy_WhichRank d -> m_busBusyCounter_ReadNewRank d <= 0) ->
  (k = ReadCmd -> write = basic + m_read_write_delay c /\ new = basic + m_rank_rank_delay c /\ rank = rank_of bank) ->
  device_ok (activated (dev_command d bank k write new rank) (rank_of bank)).
Proof using Hc.
  intros [A1 [A2 A2'] A3 A4 [A5 A5'] A6 A7 A8 A9] Hb Hbus Hbusy Hfour Hw Hr Hread. pose proof (rank_of_range bank Hb) as Hrr. pose proof (mk_bus c Hc) as Hbasic.
  pose proof (mk_tFaw c Hc) as Hf. set (x := mkCommand (cycle d) bank k).
  assert (legal (x :: commands d)) as Hleg.
  { split; [|split; [|split; [|done]]].
    - apply Forall_forall. intros y Hy. simpl. specialize (A5' y Hy). split; [lia|]. intros E. destruct (zread_is_some (m_bankBusyCounter d) bank) as [n Hn]; [lia|].
      specialize (A6 y n Hy). rewrite E in A6. specialize (A6 Hn). specialize (Hbusy n Hn). lia.
    - destruct (commands d) as [|y l] eqn:El; [done|]. intros Hy. destruct (A7 y l eq_refl Hy) as (B1 & B2 & B3). simpl. split; [intros ->; specialize (Hw eq_refl); lia|].
      intros -> Hne. rewrite <- B3 in Hne. specialize (Hr eq_refl Hne). lia.
    - simpl. destruct (zread_is_some (m_tfaw_count d) (rank_of bank)) as [n Hn]; [lia|]. specialize (Hfour n Hn). rewrite (A9 _ n Hn) in Hfour. lia. }
  assert (forall y, y ∈ x :: commands d -> c_cycle y <= cycle d /\ 0 <= c_bank y < m_total_banks c) as Hpast by (intros y [->|Hy]%elem_of_cons; [simpl; lia|by apply A4]).
  assert (forall y, y ∈ x :: commands d -> c_cycle y + basic <= cycle d + basic) as Hbus' by (intros y Hy; specialize (Hpast y Hy); lia).
  assert (forall y n, y ∈ x :: commands d -> zread (zwrite (m_bankBusyCounter d) bank (m_bank_busy_time c)) (c_bank y) = Some n ->
    c_cycle y + m_bank_busy_time c <= cycle d + n) as Hbusy'.
  { intros y n Hy. rewrite zread_zwrite by lia. destruct (Z.eqb_spec bank (c_bank y)) as [E|Hne]; [intros [= <-]; specialize (Hpast y Hy); lia|].
    apply elem_of_cons in Hy as [->|Hy]; [done|by apply A6]. }
  assert (forall y l, x :: commands d = y :: l -> c_kind y = ReadCmd -> c_cycle y + basic + m_read_write_delay c <= cycle d + write /\
    c_cycle y + basic + m_rank_rank_delay c <= cycle d + new /\ rank = rank_of (c_bank y)) as Hturn.
  { intros y l [= <- _] E. simpl in *. destruct (Hread E) as (-> & -> & ->). lia. }
  unfold activated. destruct (Z.eqb_spec (m_tFaw c) 0) as [E0|Hpos]; split; simpl; rewrite ?zlen_zwrite; try done; try (split; [lia|done]).
  - intros r n Hn j Hj. rewrite (A8 r n Hn j Hj). split; intros (y & Hy & Er & E); [exists y; split; [by right|done]|]. exists y. split; [|done].
    apply elem_of_cons in Hy as [->|]; [|done]. simpl in E. lia.
  - intros r n Hn. rewrite (A9 r n Hn). unfold recent. rewrite filter_cons_False; [done|]. simpl. lia.
  - intros r n. rewrite zread_zwrite by lia. intros Hn j Hj.
    assert ((exists y, y ∈ x :: commands d /\ rank_of (c_bank y) = r /\ j = m_tFaw c - 1 - (cycle d - c_cycle y)) <->
      (exists y, y ∈ commands d /\ rank_of (c_bank y) = r /\ j = m_tFaw c - 1 - (cycle d - c_cycle y)) \/ (rank_of bank = r /\ j = m_tFaw c - 1)) as Hcons.
    { split; [intros (y & [->|Hy]%elem_of_cons & Er & E); [right; simpl in *; split; [done|lia]|left; by exists y]|].
      intros [(y & Hy & H)|[Er E]]; [exists y; split; [by right|done]|exists x; split; [left|simpl; split; [done|lia]]]. }
    etransitivity; [|symmetry; exact Hcons]. destruct (Z.eqb_spec (rank_of bank) r) as [<-|Hne].
    + injection Hn as <-. destruct (zread_is_some (m_tfaw_shift d) (rank_of bank)) as [m Hm]; [lia|]. rewrite Hm. simpl. rewrite Z.lor_spec, orb_true_iff, (A8 _ m Hm j Hj).
      rewrite Z.pow2_bits_eqb, Z.eqb_eq by lia. split; (intros [H|H]; [by left|right]); [split; [done|lia]|lia].
    + rewrite (A8 r n Hn j Hj). split; [by left|]. by intros [H|[? _]].
  - intros r n. rewrite zread_zwrite by lia. destruct (Z.eqb_spec (rank_of bank) r) as [<-|Hne]; intros Hn; unfold recent.
    + injection Hn as <-. destruct (zread_is_some (m_tfaw_count d) (rank_of bank)) as [m Hm]; [lia|]. rewrite Hm. simpl. rewrite (A9 _ m Hm).
      rewrite filter_cons_True by (simpl; split; [done|lia]). simpl. unfold recent. lia.
    + rewrite (A9 r n Hn), filter_cons_False; [done|]. simpl. tauto.
Qed.
(** ** The operations on the device *)

Definition device_shape d : Prop := zlen (m_bankBusyCounter d) = m_total_banks c /\ zlen (m_tfaw_shift d) = m_total_ranks c /\ zlen (m_tfaw_count d) = m_total_ranks c.
Lemma device_ok_shape d : device_ok d -> device_shape d.
Proof using. by intros [A1 [A2 A3] _ _ _ _ _ _ _]. Qed.
Lemma activated_shape d r : device_shape d -> device_shape (activated d r).
Proof using. intros (? & ? & ?). unfold activated, device_shape. destruct (m_tFaw c =? 0); [done|]. simpl. by rewrite !zlen_zwrite. Qed.
Lemma command_shape d bank k write new rank : device_shape d -> device_shape (dev_command d bank k write new rank).
Proof using. intros (? & ? & ?). unfold device_shape. simpl. by rewrite zlen_zwrite. Qed.
Lemma tick_shape d : device_shape d -> device_shape (dev_tick d).
Proof using. intros (? & ? & ?). unfold device_shape. simpl. rewrite !zlen_fmap, zlen_zip_with by lia. done. Qed.
Lemma activated_command d bank k write new rank r : dev_command (activated d r) bank k write new rank = activated (dev_command d bank k write new rank) r.
Proof using. unfold activated. by destruct (m_tFaw c =? 0). Qed.

Section on_device.
Context (d : device) (bank : Z) (Hd : device_shape d) (Hb : 0 <= bank < m_total_banks c).

Lemma dev_refresh_ok : dev_refresh c d bank = Ok (activated (dev_command d bank Refresh basic basic (m_busBusy_WhichRank d)) (rank_of bank)).
Proof using Hc Hd Hb.
  destruct Hd as (E1 & E2 & E3). unfold dev_refresh, occupy. rewrite getRank_ok by done. simpl. rewrite awrite_in by lia. simpl.
  apply markTfaw_ok; [done..|]. by apply rank_of_range.
Qed.
Lemma dev_issue_ok is_read : dev_issue c d bank is_read = Ok (activated (if is_read : bool
    then dev_command d bank ReadCmd (basic + m_read_write_delay c) (basic + m_rank_rank_delay c) (rank_of bank)
    else dev_command d bank WriteCmd basic basic (rank_of bank)) (rank_of bank)).
Proof using Hc Hd Hb.
  pose proof Hd as (E1 & E2 & E3). unfold dev_issue. rewrite getRank_ok by done. simpl. rewrite markTfaw_ok by (try done; by apply rank_of_range). simpl.
  destruct (activated_shape d (rank_of bank) Hd) as (F1 & _). destruct is_read; unfold occupy; rewrite awrite_in by lia; simpl; f_equal; apply activated_command.
Qed.

Lemma refresh_ready_ok : exists b, refresh_ready c d bank = Ok b /\
  (b = true -> m_busBusyCounter_Basic d <= 0 /\
     (device_ok d -> device_ok (activated (dev_command d bank Refresh basic basic (m_busBusy_WhichRank d)) (rank_of bank)))).
Proof using Hc Hd Hb.
  destruct Hd as (E1 & E2 & E3). unfold refresh_ready. destruct (aread_in (m_bankBusyCounter d) bank) as (n & En & ->); [lia|]. simpl.
  destruct (Z.ltb_spec 0 n); [by exists false|]. destruct (Z.ltb_spec 0 (m_busBusyCounter_Basic d)); [by exists false|]. rewrite getRank_ok by done. simpl.
  destruct (aread_in (m_tfaw_count d) (rank_of bank)) as (k & Ek & ->); [rewrite E3; by apply rank_of_range|]. simpl. eexists. split; [done|].
  intros Hk. split; [done|]. intros Hok. apply negb_true_iff, Z.leb_gt in Hk. unfold ACTIVATE_PER_TFAW in Hk. apply command_ok; try done; intros ? ?; simplify_eq; lia.
Qed.

Lemma bus_ready_ok is_read : exists b, bus_ready c d bank is_read = Ok b /\
  (b = true -> (forall n, zread (m_bankBusyCounter d) bank = Some n -> n <= 0) -> device_ok d ->
    device_ok (activated (if is_read : bool then dev_command d bank ReadCmd (basic + m_read_write_delay c) (basic + m_rank_rank_delay c) (rank_of bank)
      else dev_command d bank WriteCmd basic basic (rank_of bank)) (rank_of bank))).
Proof using Hc Hd Hb.
  destruct Hd as (E1 & E2 & E3). unfold bus_ready. destruct (m_busBusyCounter_Basic d =? basic); [by exists false|].
  destruct (Z.ltb_spec 0 (m_busBusyCounter_Basic d)); [by exists false|]. rewrite getRank_ok by done. simpl.
  destruct (aread_in (m_tfaw_count d) (rank_of bank)) as (k & Ek & ->); [rewrite E3; by apply rank_of_range|]. simpl.
  destruct (Z.leb_spec ACTIVATE_PER_TFAW k) as [|Hk]; [by exists false|]. unfold ACTIVATE_PER_TFAW in Hk.
  destruct is_read; simpl.
  - eexists. split; [done|]. intros Hr Hbusy Hok. apply command_ok; try done; [intros; simplify_eq; lia|].
    intros _ Hne. rewrite (proj2 (Z.eqb_neq _ _)) in Hr by done. simpl in Hr. apply negb_true_iff, Z.ltb_ge in Hr. done.
  - destruct (Z.ltb_spec 0 (m_busBusyCounter_Write d)); [by exists false|]. eexists. split; [done|]. intros Hr Hbusy Hok.
    apply command_ok; try done. intros; simplify_eq; lia.
Qed.
End on_device.
End timing.
