(* ===== verification/MemoryServe.v ===== *)
(** * Requests through the memory controller

    The invariant of the controller's states and the runs of controller, directory and
    event queue: the commands keep to the rules of the device, each bank serves its
    requests in the order in which they came, every request with a message is answered
    once, and the controller sleeps only when it has nothing to do. *)

From S2P Require Import Prelude MemoryControl MemoryTiming.

Section serve.
Context (c : mem_config) (random : nat → Z) (Hc : mem_config_ok c) (Hrandom : forall i, 0 <= random i).
Implicit Types (s : MemoryControl) (r : mem_node).

(** ** The invariant *)

Record control_shape s : Prop := {
  cs_device : device_shape c (m_device s);
  cs_timing : fixed c = false -> device_ok c (m_device s);
  cs_banks : zlen (m_bankQueues s) = m_total_banks c;
  cs_old : zlen (m_oldRequest s) = m_total_banks c;
  cs_next : 0 <= m_roundRobin s < m_total_banks c;
  cs_refresh : 0 <= m_refresh_bank s < m_total_banks c;
  cs_need : 0 <= m_need_refresh s <= 10 }.

Abbreviation of_bank b := (filter (fun r => getBank c (n_addr r) = b)).

Record flow s : Prop := {
  fl_addr : forall r, r ∈ m_input_queue s -> 0 <= n_addr r;
  fl_fifo : forall b q, zread (m_bankQueues s) b = Some q -> of_bank b (m_enqueued s) = of_bank b (m_issued s) ++ q ++ of_bank b (m_input_queue s);
  fl_room : forall b q, zread (m_bankQueues s) b = Some q -> zlen q <= m_bank_queue_size c }.

(** A request without its time. *)
Definition strip r : mem_node := mkNode 0 (n_msg_counter r) (n_msgptr r) (n_addr r) (n_is_mem_read r) (n_is_dirty_wb r).
Definition latency : Z := (m_mem_ctl_latency c + m_memFixedDelay c) * m_mem_bus_cycle_multiplier c.
Abbreviation with_message := (filter (fun r => n_msgptr r <> None)).

Record answers (now : Z) s : Prop := {
  an_once : strip <$> m_responses s = strip <$> with_message (m_issued s);
  an_queue : exists popped, m_responses s = popped ++ m_response_queue s;
  an_sorted : StronglySorted (fun r r' => n_time r <= n_time r') (m_responses s);
  an_bound : forall r, r ∈ m_responses s -> n_time r <= now + latency;
  an_events : forall r, r ∈ m_response_queue s -> now < n_time r -> (Directory, n_time r) ∈ m_events s }.

Definition wakes_controller (e : wake_target * Z) : bool := match e.1 with Controller => true | Directory => false end.
Definition queued s : Prop := m_input_queue s <> [] \/ exists b q, zread (m_bankQueues s) b = Some q /\ q <> [].

Record awake s : Prop := {
  aw_events : length (List.filter wakes_controller (m_events s)) = Z.to_nat (m_awakened s);
  aw_flag : m_awakened s = 0 \/ m_awakened s = 1;
  aw_queued : queued s -> m_awakened s = 1 }.

(** ** A request is issued *)

Definition issued_state s (now bank : Z) (req : mem_node) (rest : list mem_node) (d : device) : MemoryControl :=
  let s := with_queues s (m_input_queue s) (zwrite (m_bankQueues s) bank rest) (m_issued s ++ [req]) in
  let s := match n_msgptr req with Some _ => enqueueToDirectory c s now req (m_mem_ctl_latency c + m_memFixedDelay c) | None => s end in
  with_device (with_batch s (zwrite (m_oldRequest s) bank 0) (m_ageCounter s)) d.

Lemma issueRequest_ok s now bank req rest : control_shape s -> zread (m_bankQueues s) bank = Some (req :: rest) ->
  issueRequest c s now bank = Ok (issued_state s now bank req rest (activated c (if n_is_mem_read req
    then dev_command c (m_device s) bank ReadCmd (m_basic_bus_busy_time c + m_read_write_delay c) (m_basic_bus_busy_time c + m_rank_rank_delay c) (rank_of c bank)
    else dev_command c (m_device s) bank WriteCmd (m_basic_bus_busy_time c) (m_basic_bus_busy_time c) (rank_of c bank)) (rank_of c bank))).
Proof using Hc.
  intros Hs Hq. pose proof (zread_range _ _ _ Hq) as Hb. rewrite (cs_banks _ Hs) in Hb. unfold issueRequest. rewrite (proj2 (aread_ok _ _ _) Hq). simpl.
  rewrite awrite_in by (rewrite (cs_banks _ Hs); lia). simpl. unfold issued_state.
  destruct (n_msgptr req); simpl; rewrite awrite_in by (rewrite (cs_old _ Hs); lia); simpl; rewrite (dev_issue_ok c Hc _ _ (cs_device _ Hs) Hb); done.
Qed.

Lemma issued_shape s now bank req rest d : control_shape s -> device_shape c d -> (fixed c = false -> device_ok c d) -> control_shape (issued_state s now bank req rest d).
Proof using.
  intros [A1 A2 A3 A4 A5 A6 A7] Hd Hd'. unfold issued_state. split; simpl; try done; destruct (n_msgptr req); simpl; rewrite ?zlen_zwrite; done.
Qed.

Lemma issued_flow s now bank req rest d : flow s -> zread (m_bankQueues s) bank = Some (req :: rest) -> flow (issued_state s now bank req rest d).
Proof using.
  intros [A1 A2 A3] Hq. pose proof (zread_range _ _ _ Hq) as Hb.
  assert (getBank c (n_addr req) = bank) as Hown.
  { assert (req ∈ of_bank bank (m_enqueued s)) as H by (rewrite (A2 _ _ Hq); apply elem_of_app; right; left). by apply list_elem_of_filter in H as [H _]. }
  unfold issued_state. split; simpl; destruct (n_msgptr req); simpl; try done; intros b q; rewrite zread_zwrite by done; rewrite ?filter_app;
    destruct (Z.eqb_spec bank b) as [<-|Hne]; try (intros [= <-]); try done.
  1,3: rewrite (A2 _ _ Hq), filter_cons_True, filter_nil by done; by rewrite <- app_assoc.
  1,2: rewrite filter_cons_False, filter_nil, app_nil_r by congruence; apply A2.
  all: first [exact (A3 b q)|specialize (A3 _ _ Hq); unfold zlen in *; simpl in *; lia].
Qed.
Lemma sorted_snoc (l : list mem_node) r : StronglySorted (fun r r' => n_time r <= n_time r') l -> (forall x, x ∈ l -> n_time x <= n_time r) ->
  StronglySorted (fun r r' => n_time r <= n_time r') (l ++ [r]).
Proof using.
  induction 1 as [|x l Hl IH Hx]; intros Hr; simpl; [by repeat constructor|]. constructor; [apply IH; intros y Hy; apply Hr; by right|].
  apply Forall_app. split; [done|]. constructor; [|done]. apply Hr. left.
Qed.

Lemma issued_answers s now bank req rest d : answers now s -> answers now (issued_state s now bank req rest d).
Proof using Hc.
  intros [A1 [popped A2] A3 A4 A5]. pose proof (mk_latency c Hc). unfold issued_state. destruct (n_msgptr req) as [m|] eqn:Em; split; simpl.
  - rewrite filter_app, !fmap_app, A1, filter_cons_True by (by rewrite Em). by rewrite filter_nil.
  - exists popped. by rewrite A2, app_assoc.
  - apply sorted_snoc; [done|]. intros x Hx. simpl. specialize (A4 x Hx). unfold latency in A4. done.
  - intros r [Hr| ->%list_elem_of_singleton]%elem_of_app; [by apply A4|]. simpl. unfold latency. lia.
  - intros r [Hr| ->%list_elem_of_singleton]%elem_of_app Ht; apply elem_of_app; [left; by apply A5|right; left].
  - rewrite filter_app, filter_cons_False, filter_nil, app_nil_r by (rewrite Em; naive_solver). done.
  - by exists popped.
  - done.
  - done.
  - done.
Qed.

(** ** The loop over the banks *)

(** What a round leaves alone. *)
Record visited s s' : Prop := {
  vi_input : m_input_queue s' = m_input_queue s;
  vi_enqueued : m_enqueued s' = m_enqueued s;
  vi_awake : m_awakened s' = m_awakened s;
  vi_wakes : List.filter wakes_controller (m_events s') = List.filter wakes_controller (m_events s);
  vi_shrink : forall b q', zread (m_bankQueues s') b = Some q' -> q' <> [] -> exists q, zread (m_bankQueues s) b = Some q /\ q <> [];
  vi_idle : m_idleCount s' = IDLECOUNT_MAX_VALUE \/ m_idleCount s' = m_idleCount s }.

Lemma visited_refl s : visited s s.
Proof using. split; try done; [|by right]. intros b q' H1 H2. by exists q'. Qed.
Lemma visited_trans s1 s2 s3 : visited s1 s2 -> visited s2 s3 -> visited s1 s3.
Proof using.
  intros [A1 A2 A3 A4 A5 A6] [B1 B2 B3 B4 B5 B6]. split; try congruence.
  - intros b q' Hq Hne. destruct (B5 b q' Hq Hne) as (q & Hq' & Hne'). by apply (A5 b q).
  - destruct B6 as [->| ->]; [by left|done].
Qed.

Lemma issueRefresh_ok s bank : control_shape s -> 0 <= bank < m_total_banks c ->
  exists s', issueRefresh c s bank = Ok s' /\ control_shape s' /\
    (s' = s \/ exists next, m_busBusyCounter_Basic (m_device s) <= 0 /\
       s' = with_device (with_refresh s (m_refresh_count s) (m_need_refresh s - 1) next) (activated c (dev_command c (m_device s) bank Refresh
         (m_basic_bus_busy_time c) (m_basic_bus_busy_time c) (m_busBusy_WhichRank (m_device s))) (rank_of c bank))).
Proof using Hc.
  intros Hs Hb. pose proof Hs as [A1 A2 A3 A4 A5 A6 A7]. unfold issueRefresh. destruct (Z.eqb_spec (m_need_refresh s) 0) as [|Hn]; simpl; [exists s; auto|].
  destruct (Z.eqb_spec (m_refresh_bank s) bank) as [E|]; simpl; [|exists s; auto].
  destruct (refresh_ready_ok c Hc (m_device s) bank A1 Hb) as (b & -> & Hrd). simpl. destruct b; [|exists s; auto].
  rewrite (dev_refresh_ok c Hc _ _ A1 Hb). simpl. eexists. split; [done|]. split; [|right; eexists; split; [by apply Hrd|done]].
  split; simpl; try done; [by apply activated_shape, command_shape|intros Hf; apply (proj2 (Hrd eq_refl)); auto| |lia]. destruct (Z.leb_spec (m_total_banks c) (m_refresh_bank s + 1)); lia.
Qed.

Lemma queueReady_ok s bank req rest : control_shape s -> zread (m_bankQueues s) bank = Some (req :: rest) ->
  exists ready k, queueReady c random s bank = Ok (ready, with_roundRobin s (m_roundRobin s) k) /\
    (ready = true -> fixed c = false -> device_ok c (activated c (if n_is_mem_read req
    then dev_command c (m_device s) bank ReadCmd (m_basic_bus_busy_time c + m_read_write_delay c) (m_basic_bus_busy_time c + m_rank_rank_delay c) (rank_of c bank)
    else dev_command c (m_device s) bank WriteCmd (m_basic_bus_busy_time c) (m_basic_bus_busy_time c) (rank_of c bank)) (rank_of c bank))).
Proof using Hc.
  intros Hs Hq. pose proof Hs as [A1 A2 A3 A4 A5 A6 A7]. pose proof (zread_range _ _ _ Hq) as Hb. rewrite A3 in Hb. unfold queueReady.
  destruct (aread_in (m_bankBusyCounter (m_device s)) bank) as (busy & Eb & ->); [destruct A1 as (E & _); lia|]. simpl.
  assert (with_roundRobin s (m_roundRobin s) (m_random s) = s) as Es by (by destruct s).
  destruct ((0 <? busy) && negb (fixed c)) eqn:E1; [exists false, (m_random s); by rewrite Es|].
  set (k := if 2 <=? m_memRandomArbitrate c then S (m_random s) else m_random s).
  assert ((if 2 <=? m_memRandomArbitrate c then with_roundRobin s (m_roundRobin s) (S (m_random s)) else s) = with_roundRobin s (m_roundRobin s) k) as ->
    by (unfold k; destruct (2 <=? m_memRandomArbitrate c); done).
  destruct ((2 <=? m_memRandomArbitrate c) && (random (m_random s) mod 100 <? m_memRandomArbitrate c)); [by exists false, k|].
  destruct (fixed c) eqn:Ef; [by exists true, k|]. simpl.
  destruct (aread_in (m_oldRequest s) bank) as (old & _ & ->); [lia|]. simpl.
  destruct ((2 * m_bank_busy_time c <? m_ageCounter s) && (old =? 0)); [by exists false, k|].
  rewrite (proj2 (aread_ok _ _ _) Hq). simpl. destruct (bus_ready_ok c Hc (m_device s) bank A1 Hb (n_is_mem_read req)) as (r & -> & Hr). simpl.
  exists r, k. split; [done|]. intros Hrt _. apply Hr; [done| |by apply A2]. intros n Hn. assert (n = busy) as -> by congruence. simpl in E1. rewrite andb_true_r in E1. by apply Z.ltb_ge in E1.
Qed.
Record serving (now : Z) s : Prop := { sv_shape : control_shape s; sv_flow : flow s; sv_answers : answers now s }.

(** The next bank in turn. *)
Definition after (n : Z) : Z := (n + 1) mod m_total_banks c.
Lemma after_ok n : 0 <= n < m_total_banks c -> (if m_total_banks c <=? n + 1 then 0 else n + 1) = after n.
Proof using.
  intros Hn. unfold after. destruct (Z.leb_spec (m_total_banks c) (n + 1)); [|by rewrite Z.mod_small by lia].
  assert (n + 1 = m_total_banks c) as -> by lia. by rewrite Z.mod_same by lia.
Qed.
Lemma after_range n : 0 <= n < m_total_banks c -> 0 <= after n < m_total_banks c.
Proof using. intros Hn. apply Z.mod_pos_bound. lia. Qed.

Lemma visited_issue s now bank req rest d : zread (m_bankQueues s) bank = Some (req :: rest) -> visited s (issued_state s now bank req rest d).
Proof using.
  intros Hq. pose proof (zread_range _ _ _ Hq) as Hb. unfold issued_state.
  split; simpl; destruct (n_msgptr req); simpl; try done; try (by right).
  - rewrite List.filter_app. simpl. by rewrite app_nil_r.
  - intros b q'. rewrite zread_zwrite by done. destruct (Z.eqb_spec bank b) as [<-|]; [intros _ _; by exists (req :: rest)|intros ? ?; by exists q'].
  - intros b q'. rewrite zread_zwrite by done. destruct (Z.eqb_spec bank b) as [<-|]; [intros _ _; by exists (req :: rest)|intros ? ?; by exists q'].
Qed.

Lemma visit_ok now s : serving now s -> exists s', visit c random s now = Ok s' /\ serving now s' /\ visited s s' /\ m_roundRobin s' = after (m_roundRobin s) /\
  (forall q, zread (m_bankQueues s) (after (m_roundRobin s)) = Some q -> q <> [] -> m_idleCount s' = IDLECOUNT_MAX_VALUE).
Proof using Hc.
  intros [Hs Hf Ha]. pose proof (cs_next _ Hs) as Hn. pose proof (after_range _ Hn) as Hb. unfold visit. rewrite after_ok by done. set (bank := after (m_roundRobin s)) in *.
  set (s0 := with_roundRobin s bank (m_random s)). assert (control_shape s0) as Hs0 by (destruct Hs; by split).
  destruct (issueRefresh_ok s0 bank Hs0 Hb) as (s1 & E1 & Hs1 & Hcase). simpl. rewrite E1. simpl.
  assert (flow s1 /\ answers now s1 /\ visited s s1 /\ m_roundRobin s1 = bank /\ m_bankQueues s1 = m_bankQueues s) as (Hf1 & Ha1 & Hv1 & Hr1 & Hq1).
  { destruct Hcase as [->|(next & _ & ->)]; (split; [destruct Hf; by split|]; split; [destruct Ha; by split|]; split; [|by split];
      split; simpl; try done; [|by right]; intros b q' ? ?; by exists q'). }
  rewrite Hr1, Hq1. destruct (aread_in (m_bankQueues s) bank) as (q & Eq & ->); [rewrite (cs_banks _ Hs); lia|]. simpl. destruct q as [|req rest]; simpl.
  { exists s1. split; [done|]. split; [done|]. split; [done|]. split; [done|]. intros q Hq Hne. congruence. }
  set (s2 := with_idle s1 IDLECOUNT_MAX_VALUE). assert (control_shape s2) as Hs2 by (destruct Hs1; by split).
  assert (zread (m_bankQueues s2) bank = Some (req :: rest)) as Hq2 by (simpl; by rewrite Hq1).
  destruct (queueReady_ok s2 bank req rest Hs2 Hq2) as (ready & k & E2 & Hready). change (m_roundRobin s2) with (m_roundRobin s1) in E2. rewrite Hr1 in E2. fold s2. rewrite E2. simpl.
  set (s3 := with_roundRobin s2 bank k). assert (control_shape s3) as Hs3 by (destruct Hs2; by split).
  assert (flow s3) as Hf3 by (destruct Hf1; by split). assert (answers now s3) as Ha3 by (destruct Ha1; by split).
  assert (visited s s3) as Hv3 by (destruct Hv1; split; try done; by left).
  destruct ready; [|by exists s3].
  simpl. fold s3. rewrite (issueRequest_ok s3 now bank req rest Hs3 Hq2). eexists. split; [done|]. split; [split|].
  - apply issued_shape; [done| |by intros; apply Hready]. apply activated_shape. destruct (n_is_mem_read req); apply command_shape, Hs3.
  - by apply issued_flow.
  - by apply issued_answers.
  - split; [eapply visited_trans; [exact Hv3|by apply visited_issue]|]. unfold issued_state. destruct (n_msgptr req); by split.
Qed.

Lemma visits_ok now n : forall s, serving now s -> exists s', visits c random n s now = Ok s' /\ serving now s' /\ visited s s' /\
  (forall i q, 1 <= i <= Z.of_nat n -> zread (m_bankQueues s') ((m_roundRobin s + i) mod m_total_banks c) = Some q -> q <> [] -> m_idleCount s' = IDLECOUNT_MAX_VALUE).
Proof using Hc.
  induction n as [|n IH]; intros s Hs; simpl; [exists s; split; [done|]; split; [done|]; split; [apply visited_refl|lia]|].
  destruct (visit_ok now s Hs) as (s1 & -> & Hs1 & Hv1 & Hr1 & Hi1). simpl. destruct (IH s1 Hs1) as (s2 & -> & Hs2 & Hv2 & Hi2). exists s2. split; [done|]. split; [done|].
  split; [by eapply visited_trans|]. intros i q Hi Hq Hne. destruct (decide (i = 1)) as [->|].
  - destruct (vi_idle _ _ Hv2) as [|E]; [done|]. rewrite E. destruct (vi_shrink _ _ (visited_trans _ _ _ Hv1 Hv2) _ _ Hq Hne) as (q0 & Hq0 & Hne0). by apply (Hi1 q0).
  - apply (Hi2 (i - 1) q); [lia| |done]. rewrite Hr1. unfold after. rewrite Zplus_mod_idemp_l. by replace (m_roundRobin s + 1 + (i - 1)) with (m_roundRobin s + i) by lia.
Qed.

(** Every bank has its turn. *)
Lemma bank_in_turn s b : control_shape s -> 0 <= b < m_total_banks c -> exists i, 1 <= i <= m_total_banks c /\ (m_roundRobin s + i) mod m_total_banks c = b.
Proof using.
  intros Hs Hb. pose proof (cs_next _ Hs) as Hn. exists ((b - m_roundRobin s - 1) mod m_total_banks c + 1).
  pose proof (Z.mod_pos_bound (b - m_roundRobin s - 1) (m_total_banks c) ltac:(lia)). split; [lia|].
  replace (m_roundRobin s + ((b - m_roundRobin s - 1) mod m_total_banks c + 1)) with ((b - m_roundRobin s - 1) mod m_total_banks c + (m_roundRobin s + 1)) by lia.
  rewrite Zplus_mod_idemp_l. replace (b - m_roundRobin s - 1 + (m_roundRobin s + 1)) with b by lia. by apply Z.mod_small.
Qed.

Lemma all_banks_ok now s : serving now s -> exists s', visits c random (Z.to_nat (m_total_banks c)) s now = Ok s' /\ serving now s' /\ visited s s' /\
  (forall b q, zread (m_bankQueues s') b = Some q -> q <> [] -> m_idleCount s' = IDLECOUNT_MAX_VALUE).
Proof using Hc.
  intros Hs. destruct (visits_ok now (Z.to_nat (m_total_banks c)) s Hs) as (s' & E & Hs' & Hv & Hi). exists s'. split; [done|]. split; [done|]. split; [done|].
  intros b q Hq. pose proof (zread_range _ _ _ Hq) as Hb. rewrite (cs_banks _ (sv_shape _ _ Hs')) in Hb.
  destruct (bank_in_turn s b) as (i & Hi' & Ei); [apply Hs|done|]. apply (Hi i q); [lia|by rewrite Ei].
Qed.

(** ** A cycle *)

Lemma total_pos : 0 < m_total_banks c.
Proof using Hc. pose proof (mem_banks_pos c Hc). unfold m_total_banks. nia. Qed.

Lemma move_input_ok now s : serving now s -> exists s', move_input c s = Ok s' /\ serving now s' /\ m_awakened s' = m_awakened s /\ m_events s' = m_events s /\
  m_enqueued s' = m_enqueued s /\ ((forall b q, zread (m_bankQueues s) b = Some q -> q <> [] -> m_idleCount s = IDLECOUNT_MAX_VALUE) -> queued s' -> m_idleCount s' = IDLECOUNT_MAX_VALUE).
Proof using Hc.
  intros [Hs Hf Ha]. unfold move_input. destruct (m_input_queue s) as [|req rest] eqn:Ei.
  { exists s. split_and!; try done. intros Hi [H|(b & q & Hq & Hne)]; [done|by apply (Hi b q)]. }
  set (b0 := getBank c (n_addr req)). assert (0 <= b0 < m_total_banks c) as Hb by (apply (getBank_range c Hc), (fl_addr _ Hf); rewrite Ei; left). simpl.
  destruct (aread_in (m_bankQueues s) b0) as (q & Eq & ->); [rewrite (cs_banks _ Hs); lia|]. simpl. destruct (Z.ltb_spec (zlen q) (m_bank_queue_size c)) as [Hroom|Hfull].
  2:{ eexists. split; [done|]. split; [|by split_and!]. destruct Hs, Hf, Ha. by split; split. }
  rewrite awrite_in by (rewrite (cs_banks _ Hs); lia). simpl. eexists. split; [done|]. split; [|by split_and!]. split; [|split|].
  - destruct Hs. split; simpl; try done. by rewrite zlen_zwrite.
  - intros r Hr. apply (fl_addr _ Hf). rewrite Ei. by right.
  - intros b q'. simpl. rewrite zread_zwrite by (rewrite (cs_banks _ Hs); lia). destruct (Z.eqb_spec b0 b) as [<-|Hne].
    + intros [= <-]. rewrite (fl_fifo _ Hf _ _ Eq), Ei, filter_cons_True by done. by rewrite <- app_assoc.
    + intros Hq'. rewrite (fl_fifo _ Hf _ _ Hq'), Ei, filter_cons_False by done. done.
  - intros b q'. simpl. rewrite zread_zwrite by (rewrite (cs_banks _ Hs); lia). destruct (Z.eqb_spec b0 b) as [<-|Hne]; [|apply (fl_room _ Hf)].
    intros [= <-]. unfold zlen in *. rewrite length_app. simpl. lia.
  - destruct Ha. by split.
Qed.

(** The assertion on refreshes is about to fail. *)
Definition overdue s : Prop := (if fixed c then m_refresh_count s else m_refresh_count s - 1) = 0 /\ m_need_refresh s = 10.

Lemma execute_ok now s : serving now s -> (overdue s /\ executeCycle c random s now = Err AssertFailed) \/
  exists s', executeCycle c random s now = Ok s' /\ serving now s' /\ m_awakened s' = m_awakened s /\
    List.filter wakes_controller (m_events s') = List.filter wakes_controller (m_events s) /\ m_enqueued s' = m_enqueued s /\
    (queued s' -> m_idleCount s' = IDLECOUNT_MAX_VALUE).
Proof using Hc Hrandom.
  intros [Hs Hf Ha]. unfold executeCycle. cbv zeta. set (s0 := with_device s (dev_tick (m_device s))).
  assert (control_shape s0) as Hs0. { destruct Hs as [A1 A2 A3 A4 A5 A6 A7]. split; simpl; try done; [by apply tick_shape|intros E; by apply device_tick_ok; auto]. }
  assert (overdue s /\ refresh_tick c s0 = Err AssertFailed \/ exists count need, 0 <= need <= 10 /\ refresh_tick c s0 = Ok (with_refresh s0 count need (m_refresh_bank s0))) as [[Ho E]|(count & need & Hneed & E)].
  { pose proof (cs_need _ Hs) as Hn. unfold refresh_tick, overdue. simpl.
    destruct (Z.eqb_spec (if fixed c then m_refresh_count s else m_refresh_count s - 1) 0) as [Ez|]; [|right; by eexists _, _].
    destruct (Z.ltb_spec (m_need_refresh s) 10) as [Hlt|Hge]; simpl; [right; eexists _, _; split; [|done]; lia|left; split; [split; [done|lia]|done]]. }
  { left. split; [done|]. by rewrite E. }
  right. rewrite E, bind_of_ok. set (s1 := with_refresh s0 count need (m_refresh_bank s0)).
  assert (serving now s1) as [Hs1 Hf1 Ha1] by (split; [destruct Hs0; by split|destruct Hf; by split|destruct Ha; by split]).
  assert (exists old age, batch_tick s1 = with_batch s1 old age /\ zlen old = m_total_banks c) as (old & age & Eb & Hold).
  { pose proof (cs_old _ Hs1) as Ho. pose proof (cs_banks _ Hs1) as Hb. unfold batch_tick. destruct (forallb _ _); eexists _, _; (split; [done|]); [|done].
    rewrite zlen_zip_with by lia. done. }
  rewrite Eb. set (s2 := with_batch s1 old age).
  assert (exists rr k, (if negb (m_memRandomArbitrate c =? 0) then with_roundRobin s2 (random (m_random s2) mod m_total_banks c) (S (m_random s2)) else s2) = with_roundRobin s2 rr k /\
    0 <= rr < m_total_banks c) as (rr & k & Er & Hrr).
  { destruct (m_memRandomArbitrate c =? 0); simpl; [exists (m_roundRobin s2), (m_random s2); split; [done|apply Hs1]|].
    eexists _, _. split; [done|]. apply Z.mod_pos_bound, total_pos. }
  rewrite Er. set (s3 := with_roundRobin s2 rr k).
  assert (serving now s3) as Hs3 by (split; [destruct Hs1; by split|destruct Hf1; by split|destruct Ha1; by split]).
  destruct (all_banks_ok now s3 Hs3) as (s4 & E4 & Hs4 & Hv & Hi). rewrite E4. simpl.
  destruct (move_input_ok now s4 Hs4) as (s5 & E5 & Hs5 & B1 & B2 & B3 & B4). rewrite E5. exists s5. split; [done|]. split; [done|].
  rewrite B1, B2, B3, (vi_awake _ _ Hv), (vi_wakes _ _ Hv), (vi_enqueued _ _ Hv). split_and!; try done. by apply B4.
Qed.

Lemma mem_wakeup_ok now s : serving now s -> m_awakened s = 1 -> List.filter wakes_controller (m_events s) = [] ->
  (overdue s /\ mem_wakeup c random s now = Err AssertFailed) \/
  exists s', mem_wakeup c random s now = Ok s' /\ serving now s' /\ awake s' /\ m_enqueued s' = m_enqueued s.
Proof using Hc Hrandom.
  intros Hs Hw Hev. unfold mem_wakeup. destruct (execute_ok now s Hs) as [[Ho ->]|(s1 & -> & [Hs1 Hf1 Ha1] & B1 & B2 & B3 & B4)]; [by left|right]. simpl.
  rewrite Hev in B2. rewrite Hw in B1. destruct (Z.leb_spec (m_idleCount s1 - 1) 0) as [Hle|Hgt]; (eexists; split; [done|]).
  - split; [split; [destruct Hs1; by split|destruct Hf1; by split|destruct Ha1; by split]|]. split; [|done]. split; simpl; [by rewrite B2|by left|].
    intros Hq. unfold IDLECOUNT_MAX_VALUE in B4. specialize (B4 Hq). lia.
  - split; [split; [destruct Hs1; by split|destruct Hf1; by split|]|].
    + destruct Ha1 as [C1 C2 C3 C4 C5]. split; try done. simpl. intros r Hr Ht. apply elem_of_app. left. by apply C5.
    + split; [|done]. split; simpl; [rewrite List.filter_app, B2; simpl; by rewrite B1|by right|done].
Qed.
End serve.
