(* ===== verification/MemoryRun.v ===== *)
(** * Runs of the memory controller

    Controller, directory and event queue together: requests come at any time, events
    happen when they are due, and answers are taken when they are ready. *)

From S2P Require Import Prelude MemoryControl MemoryTiming MemoryServe.

Section runs.
Context (c : mem_config) (random : nat → Z) (Hc : mem_config_ok c) (Hrandom : forall i, 0 <= random i).
Implicit Types (s : MemoryControl) (now : Z).

Abbreviation happened s l := (with_wake s (m_awakened s) l).

Inductive mem_step : MemoryControl * Z → MemoryControl * Z → Prop :=
  | ms_enqueue s now memRef : 0 <= n_addr memRef -> mem_step (s, now) (enqueueMemRef s now memRef, now)
  | ms_time s now now' : now <= now' -> (forall e, e ∈ m_events s -> now' <= e.2) -> mem_step (s, now) (s, now')
  | ms_directory s now l1 l2 : m_events s = l1 ++ (Directory, now) :: l2 -> mem_step (s, now) (happened s (l1 ++ l2), now)
  | ms_dequeue s now s' : mem_dequeue s now = Ok s' -> mem_step (s, now) (s', now)
  | ms_wakeup s now l1 l2 s' : m_events s = l1 ++ (Controller, now) :: l2 -> mem_wakeup c random (happened s (l1 ++ l2)) now = Ok s' ->
      mem_step (s, now) (s', now).

Definition mem_reachable s now : Prop := exists s0, memory_control_new c = Ok s0 /\ rtc mem_step (s0, 0) (s, now).

Record run_inv s now : Prop := { rn_serving : serving c now s; rn_awake : awake s }.

(** ** The start *)

Lemma new_shape : exists s0, memory_control_new c = Ok s0 /\ run_inv s0 0.
Proof using Hc.
  pose proof (mk_tFaw c Hc) as Hf. pose proof (total_pos c Hc) as Ht. unfold memory_control_new. rewrite (proj2 (Z.leb_le _ _)) by lia. simpl.
  rewrite (proj2 (Z.eqb_neq _ _)) by lia. eexists. split; [done|].
  assert (forall A (x : A) n, 0 < n -> zlen (replicate (Z.to_nat n) x) = n) as Hlen by (intros A x n Hn; unfold zlen; rewrite length_replicate; lia).
  assert (0 < m_total_ranks c) as Hr by (pose proof (mem_banks_pos c Hc); unfold m_total_ranks; nia).
  assert (forall A (x y : A) n i, zread (replicate (Z.to_nat n) x) i = Some y -> y = x) as Hz.
  { intros A x y n i. rewrite zread_replicate. by destruct ((0 <=? i) && (i <? n)); [intros [= <-]|]. }
  assert (forall x : command, x ∈ [] -> False) as Hnil by (by intros x ?%not_elem_of_nil).
  split; [split|]; [split|split|split|split]; simpl; rewrite ?Hlen; try done; try lia.
  - by split_and!; simpl; apply Hlen.
  - intros _. split; simpl; rewrite ?Hlen; try done; try (intros; exfalso; by eapply Hnil).
    + split; [lia|]. intros x Hx. by destruct (Hnil x).
    + intros r n ->%Hz j Hj. rewrite Z.bits_0. split; [done|]. intros (x & Hx & _). by destruct (Hnil x).
    + by intros r n ->%Hz.
  - by intros r ?%not_elem_of_nil.
  - intros b q ->%Hz. done.
  - intros b q ->%Hz. pose proof (mk_queue c Hc). unfold zlen. simpl. lia.
  - by exists [].
  - constructor.
  - by intros r ?%not_elem_of_nil.
  - by intros r ?%not_elem_of_nil.
  - intros [?|(b & q & ->%Hz & ?)]; done.
Qed.

(** ** The steps *)

Lemma enqueue_inv s now r : run_inv s now -> 0 <= n_addr r -> run_inv (enqueueMemRef s now r) now.
Proof using Hc.
  intros [[Hs Hf Ha] Hw] Hr. unfold enqueueMemRef. simpl. set (req := mkNode _ _ _ _ _ _).
  assert (forall s' ev, m_awakened s' = 1 -> control_shape c s' -> m_bankQueues s' = m_bankQueues s -> m_issued s' = m_issued s ->
    m_input_queue s' = m_input_queue s ++ [req] -> m_enqueued s' = m_enqueued s ++ [req] -> m_responses s' = m_responses s -> m_response_queue s' = m_response_queue s ->
    m_events s' = m_events s ++ ev -> length (List.filter wakes_controller (m_events s')) = 1%nat -> run_inv s' now) as Hall.
  { intros s' ev E0 Hs' E1 E2 E3 E4 E5 E6 E7 E8. split; [split; [done|split|split]|split]; rewrite ?E0, ?E1, ?E2, ?E3, ?E4, ?E5, ?E6, ?E7.
    - intros x [Hx| ->%list_elem_of_singleton]%elem_of_app; [by apply (fl_addr _ _ Hf)|done].
    - intros b q Hq. rewrite !filter_app, (fl_fifo _ _ Hf _ _ Hq). by rewrite <- !app_assoc.
    - apply Hf.
    - apply Ha.
    - apply Ha.
    - apply Ha.
    - apply Ha.
    - intros x Hx Ht. apply elem_of_app. left. by apply (an_events _ _ _ Ha).
    - by rewrite <- E7, E8.
    - by right.
    - done. }
  destruct (Z.eqb_spec (m_awakened s) 0) as [E|Hne]; [apply (Hall _ [(Controller, now + 1)])|apply (Hall _ [])]; try done; simpl; rewrite ?app_nil_r; try done.
  - destruct Hs. by split.
  - rewrite List.filter_app, length_app, (aw_events _ Hw), E. done.
  - by destruct (aw_flag _ Hw).
  - destruct Hs. by split.
  - rewrite (aw_events _ Hw). by destruct (aw_flag _ Hw) as [| ->].
Qed.

Lemma dequeue_inv s now s' : run_inv s now -> mem_dequeue s now = Ok s' -> run_inv s' now.
Proof using.
  intros [[Hs Hf Ha] Hw]. unfold mem_dequeue. destruct (mem_isReady s now); [|done]. simpl. destruct (m_response_queue s) as [|r q] eqn:Eq; [done|]. intros [= <-].
  split; [split; [destruct Hs; by split|destruct Hf; by split|]|destruct Hw; by split]. destruct Ha as [A1 [popped A2] A3 A4 A5]. split; simpl; try done.
  - exists (popped ++ [r]). by rewrite A2, Eq, <- app_assoc.
  - intros x Hx. apply A5. rewrite Eq. by right.
Qed.

(** The controller's wakeup is taken from the queue. *)
Lemma wake_ready s now l1 l2 : run_inv s now -> m_events s = l1 ++ (Controller, now) :: l2 ->
  serving c now (happened s (l1 ++ l2)) /\ m_awakened s = 1 /\ List.filter wakes_controller (l1 ++ l2) = [].
Proof using.
  intros [[Hs Hf Ha] Hw] El. pose proof (aw_events _ Hw) as Hn. rewrite El, List.filter_app, length_app in Hn. simpl in Hn.
  assert (m_awakened s = 1) as E1 by (destruct (aw_flag _ Hw) as [E0|]; [rewrite E0 in Hn; simpl in Hn; lia|done]). split; [|split; [done|]].
  - split; [destruct Hs; by split|destruct Hf; by split|]. destruct Ha as [A1 A2 A3 A4 A5]. split; try done. simpl. intros r Hr Ht. specialize (A5 r Hr Ht). rewrite El in A5.
    apply elem_of_app in A5 as [?|[?|?]%elem_of_cons]; [apply elem_of_app; by left|done|apply elem_of_app; by right].
  - rewrite E1 in Hn. rewrite List.filter_app. apply length_zero_iff_nil. rewrite length_app. simpl in Hn. lia.
Qed.

Lemma mem_step_inv s now s' now' : run_inv s now -> mem_step (s, now) (s', now') -> run_inv s' now'.
Proof using Hc Hrandom.
  intros Hi Hstep. inversion Hstep as [? ? r Hr|? ? ? Hle Hev|? ? l1 l2 El|? ? ? E|? ? l1 l2 ? El E]; subst.
  - by apply enqueue_inv.
  - destruct Hi as [[Hs Hf Ha] Hw]. split; [split; [done..|]|done]. destruct Ha as [A1 A2 A3 A4 A5]. split; try done; intros r Hr; [specialize (A4 r Hr); lia|].
    intros Ht. apply A5; [done|lia].
  - destruct Hi as [[Hs Hf Ha] Hw]. split; [split; [destruct Hs; by split|destruct Hf; by split|]|].
    + destruct Ha as [A1 A2 A3 A4 A5]. split; try done. simpl. intros r Hr Ht. specialize (A5 r Hr Ht). rewrite El in A5.
      apply elem_of_app in A5 as [?|[[= E]|?]%elem_of_cons]; [apply elem_of_app; by left|lia|apply elem_of_app; by right].
    + destruct Hw as [A1 A2 A3]. split; try done. simpl. by rewrite <- A1, El, !List.filter_app.
  - by apply (dequeue_inv s).
  - destruct (wake_ready s now' l1 l2 Hi El) as (Hs' & E1 & E2).
    destruct (mem_wakeup_ok c random Hc Hrandom now' _ Hs' E1 E2) as [[_ E']|(s2 & E' & H1 & H2 & _)]; rewrite E in E'; [done|]. by injection E' as ->.
Qed.

Lemma mem_reachable_inv s now : mem_reachable s now -> run_inv s now.
Proof using Hc Hrandom.
  intros (s0 & E & Hr). destruct new_shape as (s1 & E' & Hi). rewrite E in E'. injection E' as <-.
  remember (s0, 0) as x eqn:Ex. remember (s, now) as y eqn:Ey. assert (run_inv x.1 x.2) as Hx by (by subst x). clear Ex Hi E. revert s now Ey.
  induction Hr as [x|x [s1 n1] z Hstep _ IH]; intros s now ->; [done|]. apply IH; [|done]. destruct x as [s2 n2]. by apply (mem_step_inv s2 n2).
Qed.

(** C12: With no fixed delay configured and a tFAW below 32 cycles, the commands of
    Ruby's memory controller keep to the timing of the device in every run: commands are
    at least the bus time apart, those to one bank at least its busy time, a write or a
    read of another rank that directly follows a read waits for the data bus to turn
    around, and no rank is activated more than four times, refreshes included, in any
    window of tFAW cycles. The constructor accepts a tFAW up to 62, for which the code
    shifts an int too far (example wide_windows_overflow); with a fixed delay the source
    drops the limit of one request in a cycle. *)
Theorem memory_commands_legal s now : mem_reachable s now -> m_memFixedDelay c = 0 ->
  legal c (commands (m_device s)) /\ forall r T, (in_window c r T (commands (m_device s)) <= 4)%nat.
Proof using Hc Hrandom.
  intros [[Hs _ _] _]%mem_reachable_inv Hf. assert (device_ok c (m_device s)) as Hd by (apply (cs_timing _ _ Hs); unfold fixed; by rewrite Hf).
  split; [apply Hd|]. intros r T. apply legal_window; [done|apply Hd].
Qed.

(** C13: Ruby's memory controller (with a tFAW below 32 cycles) serves what it is given,
    for any interleaving of requests, wakeups and answers taken: each bank issues its
    requests in the order in which they came, and its queue stays within its size; each
    issued request with a message is answered exactly once, in order, with its wakeup of
    the directory pending until it is due; while anything is queued a wakeup of the
    controller is pending; an answer that is ready can be taken; and a wakeup fails only
    at the assertion that refreshes keep up. *)
Theorem memory_requests_served s now : mem_reachable s now ->
  (forall b, 0 <= b < m_total_banks c -> exists q, zread (m_bankQueues s) b = Some q /\ zlen q <= m_bank_queue_size c /\
     filter (fun r => getBank c (n_addr r) = b) (m_enqueued s) =
       filter (fun r => getBank c (n_addr r) = b) (m_issued s) ++ q ++ filter (fun r => getBank c (n_addr r) = b) (m_input_queue s)) /\
  (strip <$> m_responses s = strip <$> filter (fun r => n_msgptr r <> None) (m_issued s) /\
     (exists taken, m_responses s = taken ++ m_response_queue s) /\ StronglySorted (fun r r' => n_time r <= n_time r') (m_responses s)) /\
  (queued s -> exists T, (Controller, T) ∈ m_events s) /\
  (forall r, r ∈ m_response_queue s -> now < n_time r -> (Directory, n_time r) ∈ m_events s) /\
  (mem_isReady s now = true -> exists m s', mem_peek s now = Ok m /\ mem_dequeue s now = Ok s') /\
  (forall l1 l2, m_events s = l1 ++ (Controller, now) :: l2 ->
     overdue c s \/ exists s', mem_wakeup c random (happened s (l1 ++ l2)) now = Ok s').
Proof using Hc Hrandom.
  intros Hw. pose proof Hw as [[Hs Hf Ha] Haw]%mem_reachable_inv. split; [|split; [|split; [|split; [|split]]]].
  - intros b Hb. destruct (zread_is_some (m_bankQueues s) b) as [q Hq]; [rewrite (cs_banks _ _ Hs); lia|]. exists q. split; [done|].
    split; [by apply (fl_room _ _ Hf b)|by apply (fl_fifo _ _ Hf)].
  - destruct Ha as [A1 A2 A3 A4 A5]. done.
  - intros Hq. pose proof (aw_events _ Haw) as He. rewrite (aw_queued _ Haw Hq) in He. destruct (List.filter wakes_controller (m_events s)) as [|e l] eqn:El; [done|].
    assert (In e (List.filter wakes_controller (m_events s))) as Hin by (rewrite El; by left). apply filter_In in Hin as [Hin Hk].
    destruct e as [[|] T]; [|done]. exists T. by apply list_elem_of_In.
  - apply Ha.
  - intros Hrd. unfold mem_peek, peekNode, mem_dequeue. rewrite Hrd. simpl. unfold mem_isReady in Hrd. destruct (m_response_queue s) as [|r q] eqn:Eq; [done|]. simpl.
    destruct Ha as [A1 [taken A2] _ _ _].
    assert (strip r ∈ strip <$> m_responses s) as Hin by (apply list_elem_of_fmap_2; rewrite A2, Eq; set_solver). rewrite A1 in Hin.
    apply list_elem_of_fmap in Hin as (r' & E & [Hm _]%list_elem_of_filter). assert (n_msgptr r = n_msgptr r') as Em by (change (n_msgptr (strip r) = n_msgptr r'); by rewrite E).
    rewrite <- Em in Hm. destruct (n_msgptr r) as [m|]; [|done]. by eexists m, _.
  - intros l1 l2 El. destruct (wake_ready s now l1 l2) as (Hs' & E1 & E2); [by apply mem_reachable_inv|done|].
    destruct (mem_wakeup_ok c random Hc Hrandom now _ Hs' E1 E2) as [[Ho _]|(s' & E & _)]; [left; exact Ho|right; by exists s'].
Qed.
(** A run in which the controller's clock ticks at least [n] times. *)
Inductive runs_for : nat → MemoryControl * Z → MemoryControl * Z → Prop :=
  | rf_refl x : runs_for O x x
  | rf_step n x y z : mem_step x y -> runs_for n y z -> runs_for n x z
  | rf_tick n s now l1 l2 s' z : m_events s = l1 ++ (Controller, now) :: l2 -> mem_wakeup c random (happened s (l1 ++ l2)) now = Ok s' ->
      runs_for n (s', now) z -> runs_for (S n) (s, now) z.

Lemma runs_for_steps n x y : runs_for n x y -> rtc mem_step x y.
Proof using.
  induction 1 as [x|n x y z Hs _ IH|n s now l1 l2 s' z El E _ IH]; [done|by eapply rtc_l|]. eapply rtc_l; [|exact IH]. by apply (ms_wakeup s now l1 l2).
Qed.

(** ** An executable run: the next [n] wakeups of the controller *)

Fixpoint take_wake (l : list (wake_target * Z)) : option (Z * list (wake_target * Z)) :=
  match l with
  | [] => None
  | (Controller, T) :: l' => Some (T, l')
  | e :: l' => x ← take_wake l'; Some (x.1, e :: x.2)
  end.
Lemma take_wake_ok l T l' : take_wake l = Some (T, l') -> exists l1 l2, l = l1 ++ (Controller, T) :: l2 /\ l' = l1 ++ l2.
Proof using.
  revert T l'. induction l as [|[[|] T0] l IH]; intros T l'; simpl; [done|intros [= <- <-]; by exists [], l|].
  destruct (take_wake l) as [[T1 l1']|]; [|done]. simpl. intros [= <- <-]. destruct (IH T1 l1' eq_refl) as (l1 & l2 & -> & ->). by exists ((Directory, T0) :: l1), l2.
Qed.

Fixpoint ticks (n : nat) s now : outcome (MemoryControl * Z) :=
  match n with
  | O => mret (s, now)
  | S n =>
      match take_wake (m_events s) with
      | Some (T, l) =>
          if (now <=? T) && forallb (fun e => T <=? e.2) (m_events s)
          then s' ← mem_wakeup c random (happened s l) T; ticks n s' T else Err Undefined
      | None => Err Undefined
      end
  end.
Lemma ticks_run n : forall s now y, ticks n s now = Ok y -> runs_for n (s, now) y.
Proof using.
  induction n as [|n IH]; intros s now y; simpl; [intros [= <-]; constructor|]. destruct (take_wake (m_events s)) as [[T l]|] eqn:Et; [|done].
  destruct ((now <=? T) && forallb (fun e => T <=? e.2) (m_events s)) eqn:Eb; [|done]. apply andb_true_iff in Eb as [Hle%Z.leb_le Hall].
  destruct (mem_wakeup c random (happened s l) T) as [s'|] eqn:Ew; [|done]. simpl. intros Hn. destruct (take_wake_ok _ _ _ Et) as (l1 & l2 & El & ->).
  eapply (rf_step _ _ (s, T)); [constructor; [done|]|by apply (rf_tick n s T l1 l2 s'); [..|apply IH]].
  intros e He. rewrite forallb_forall in Hall. apply Z.leb_le, Hall. by apply list_elem_of_In.
Qed.

(** The loop over the banks ends where it began: without random arbitration the banks
    are looked at in the same order in every cycle. *)
Lemma visits_turn now n : forall s s', serving c now s -> visits c random n s now = Ok s' -> m_roundRobin s' = (m_roundRobin s + Z.of_nat n) mod m_total_banks c.
Proof using Hc.
  induction n as [|n IH]; intros s s' Hs; simpl.
  - intros [= <-]. rewrite Z.add_0_r. symmetry. apply Z.mod_small, (cs_next _ _ (sv_shape _ _ _ Hs)).
  - destruct (visit_ok c random Hc now s Hs) as (s1 & -> & Hs1 & _ & Er & _). simpl. intros E. rewrite (IH s1 s' Hs1 E), Er. unfold after. rewrite Zplus_mod_idemp_l. f_equal. lia.
Qed.
Lemma round_robin_stays now s s' : serving c now s -> visits c random (Z.to_nat (m_total_banks c)) s now = Ok s' -> m_roundRobin s' = m_roundRobin s.
Proof using Hc.
  intros Hs E. pose proof (total_pos c Hc). pose proof (cs_next _ _ (sv_shape _ _ _ Hs)). rewrite (visits_turn now _ s s' Hs E), Z2Nat.id by lia.
  replace (m_roundRobin s + m_total_banks c) with (m_roundRobin s + 1 * m_total_banks c) by lia. rewrite Z.mod_add by lia. by apply Z.mod_small.
Qed.
End runs.

(** ** Small runs *)

Definition no_random (_ : nat) : Z := 0.

(** Requests that come together at the start, and [n] cycles. *)
Definition mem_run (c : mem_config) (n : nat) (l : list mem_node) : outcome (MemoryControl * Z) :=
  s ← memory_control_new c;
  ticks c no_random n (foldl (fun s r => enqueueMemRef s 0 r) s l) 0.

Lemma mem_run_reachable c n l s now : Forall (fun r => 0 <= n_addr r) l -> mem_run c n l = Ok (s, now) -> mem_reachable c no_random s now.
Proof.
  intros Hl. unfold mem_run. destruct (memory_control_new c) as [s0|] eqn:E; [|done]. simpl. intros Ht%ticks_run%runs_for_steps. exists s0. split; [done|].
  etrans; [|exact Ht]. clear Ht E. revert s0. induction Hl as [|r l Hr _ IH]; intros s0; simpl; [done|]. eapply rtc_l; [by apply ms_enqueue|apply IH].
Qed.

Definition demo_mem : mem_config := mkMemConfig 10 2 2 1 6 7 8 12 11 1 2 2 12 1560 0 16 0.
Definition demo_requests : list mem_node := [mkNode 1 0 (Some 1) 0 true false; mkNode 1 0 (Some 2) 64 false true; mkNode 1 0 (Some 3) 128 true false].
Lemma demo_mem_ok : mem_config_ok demo_mem.
Proof. split; simpl; try lia; [exists 1|exists 1|exists 0]; lia. Qed.
Lemma demo_mem_reachable n s now : mem_run demo_mem n demo_requests = Ok (s, now) -> mem_reachable demo_mem no_random s now.
Proof. apply mem_run_reachable. repeat constructor; simpl; lia. Qed.

Lemma memory_commands_legal_witness : exists s now, mem_run demo_mem 9 demo_requests = Ok (s, now) /\
  commands (m_device s) = [mkCommand 5 2 ReadCmd; mkCommand 3 1 WriteCmd; mkCommand 1 0 Refresh] /\ legal demo_mem (commands (m_device s)).
Proof.
  eexists _, _. split; [vm_compute; reflexivity|]. split; [reflexivity|].
  eapply (memory_commands_legal demo_mem no_random); [exact demo_mem_ok|intros; reflexivity || (unfold no_random; lia)|apply (demo_mem_reachable 9); vm_compute; reflexivity|reflexivity].
Defined.

Lemma memory_requests_served_witness : exists s now, mem_run demo_mem 9 demo_requests = Ok (s, now) /\ length (m_issued s) = 2%nat /\
  strip <$> m_responses s = strip <$> filter (fun r => n_msgptr r <> None) (m_issued s) /\ (exists T, (Controller, T) ∈ m_events s).
Proof.
  eexists _, _. split; [vm_compute; reflexivity|]. split; [reflexivity|].
  edestruct (memory_requests_served demo_mem no_random) as (_ & (Ha & _) & Hw & _);
    [exact demo_mem_ok|intros; unfold no_random; lia|apply (demo_mem_reachable 9); vm_compute; reflexivity|].
  split; [exact Ha|]. apply Hw. right. eexists 0, _. split; [vm_compute; reflexivity|discriminate].
Defined.

(** Requests for bank 1 keep the refresh of bank 0 from being issued until the assertion
    that refreshes keep up fails. *)
Example refresh_starves :
  mem_run (mkMemConfig 1 2 1 1 6 7 8 12 1 0 0 1 1 2 0 0 0) 13 (replicate 20 (mkNode 0 0 None 64 true false)) = Err AssertFailed.
Proof. vm_compute. reflexivity. Qed.

(** A refresh between a read and a write takes away the time that the read needs to leave
    the bus: with a delay of 9 the write, 6 cycles after the read, is 5 too early. *)
Example refresh_hides_turnaround :
  let c := mkMemConfig 1 2 1 1 6 7 8 12 4 1 9 2 1 20 0 0 0 in
  exists s now s' now', mem_run c 7 [mkNode 0 0 None 64 true false] = Ok (s, now) /\
    ticks c no_random 9 (enqueueMemRef (enqueueMemRef s now (mkNode 0 0 None 64 true false)) now (mkNode 0 0 None 0 false true)) now = Ok (s', now') /\
    take 3 (commands (m_device s')) = [mkCommand 15 0 WriteCmd; mkCommand 13 1 Refresh; mkCommand 9 1 ReadCmd].
Proof. eexists _, _, _, _. split; [vm_compute; reflexivity|]. split; [vm_compute; reflexivity|]. vm_compute. reflexivity. Qed.

(** Windows of 32 cycles set the upper half of the shift register; wider ones, which the
    constructor accepts, shift an [int] too far. *)
Example wide_windows_overflow :
  tfaw_bit (mkMemConfig 10 2 2 1 6 7 8 12 11 1 2 2 12 1560 0 32 0) = Ok (2 ^ 64 - 2 ^ 31) /\
  tfaw_bit (mkMemConfig 10 2 2 1 6 7 8 12 11 1 2 2 12 1560 0 33 0) = Err Undefined /\
  match memory_control_new (mkMemConfig 10 2 2 1 6 7 8 12 11 1 2 2 12 1560 0 62 0) with Ok _ => True | Err _ => False end.
Proof. vm_compute. by split_and!. Qed.
