(* ===== verification/MemoryFair.v ===== *)
(** * No request starves in the memory controller

    The head of the queue of every bank is issued after a bounded number of cycles,
    whatever requests arrive, because newer requests are held off when a batch of old
    ones takes too long.  The bound comes from a measure that every cycle of a batch
    lowers. *)

From S2P Require Import Prelude MemoryControl MemoryTiming MemoryServe MemoryRun.

Section fair.
Context (c : mem_config) (random : nat → Z) (Hc : mem_config_ok c) (Hrandom : forall i, 0 <= random i).
Context (Hfixed : m_memFixedDelay c = 0) (Harb : m_memRandomArbitrate c < 2).
Implicit Types (s : MemoryControl) (d : device).

(** The longest time that any counter keeps the device busy after a command. *)
Definition busiest : Z := Z.max (Z.max (m_bank_busy_time c) (m_tFaw c)) (m_basic_bus_busy_time c + Z.max (m_read_write_delay c) (m_rank_rank_delay c)).

(** Cycles after which the device is certainly idle. *)
Definition rest d : Z := match commands d with [] => 0 | x :: _ => Z.max 0 (c_cycle x + busiest - cycle d) end.

Record fresh d : Prop := {
  fr_basic : m_busBusyCounter_Basic d <= rest d;
  fr_write : m_busBusyCounter_Write d <= rest d;
  fr_read : m_busBusyCounter_ReadNewRank d <= rest d;
  fr_banks : forall b n, zread (m_bankBusyCounter d) b = Some n -> n <= rest d }.

Lemma rest_range d : device_ok c d -> 0 <= rest d <= busiest.
Proof using Hc.
  intros Hd. pose proof (mk_busy c Hc). unfold rest. destruct (commands d) as [|x l] eqn:E; [unfold busiest; lia|].
  destruct (do_past _ _ Hd x) as [H0 _]; [rewrite E; left|]. unfold busiest in *. lia.
Qed.

Lemma rest_tick d : rest (dev_tick d) = Z.max 0 (rest d - 1).
Proof using. unfold rest. simpl. destruct (commands d); lia. Qed.
Lemma fresh_tick d : device_ok c d -> fresh d -> fresh (dev_tick d).
Proof using Hc.
  intros Hd [A1 A2 A3 A4]. pose proof (rest_range d Hd). assert (forall n, n <= rest d -> count_down n <= rest (dev_tick d)) as Hn.
  { intros n Hn. rewrite rest_tick. unfold count_down. destruct (Z.ltb_spec 0 n); lia. }
  split; simpl; auto. intros b n. rewrite zread_fmap. intros (m & Hm & ->)%fmap_Some. eauto.
Qed.

Lemma rest_activated d r : rest (activated c d r) = rest d.
Proof using. unfold activated. by destruct (m_tFaw c =? 0). Qed.
Lemma fresh_activated d r : fresh d -> fresh (activated c d r).
Proof using. intros [A1 A2 A3 A4]. unfold activated. destruct (m_tFaw c =? 0); by split. Qed.
Lemma rest_command d bank k w n r : rest (dev_command c d bank k w n r) = busiest.
Proof using Hc. pose proof (mk_busy c Hc). unfold rest, busiest. simpl. lia. Qed.
Lemma fresh_command d bank k w n r : device_ok c d -> fresh d -> w <= busiest -> n <= busiest -> fresh (dev_command c d bank k w n r).
Proof using Hc.
  intros Hd [A1 A2 A3 A4] Hw Hn. pose proof (rest_range d Hd) as Hr. pose proof (mk_delays c Hc). split; rewrite rest_command; simpl; try done; [unfold busiest; lia|].
  intros b m Hm. apply zread_elem_of, elem_of_zwrite in Hm as [->|Hm]; [unfold busiest; lia|]. apply elem_of_zread in Hm as (i & _ & Hi). specialize (A4 i m Hi). lia.
Qed.

(** An idle device takes any request. *)
Lemma idle_ready d bank is_read : device_ok c d -> fresh d -> rest d = 0 -> 0 <= bank < m_total_banks c -> bus_ready c d bank is_read = Ok true.
Proof using Hc.
  intros Hd [A1 A2 A3 A4] Hr Hb. pose proof (mk_bus c Hc). pose proof (proj1 (do_bus _ _ Hd)). unfold bus_ready.
  rewrite (proj2 (Z.eqb_neq _ _)), (proj2 (Z.ltb_ge _ _)) by lia. rewrite (getRank_ok c Hc) by done. simpl.
  pose proof (rank_of_range c Hc bank Hb) as Hrk. destruct (aread_in (m_tfaw_count d) (rank_of c bank)) as (n & En & ->); [rewrite (proj2 (do_ranks _ _ Hd)); lia|]. simpl.
  assert (n = 0) as ->.
  { rewrite (do_count _ _ Hd _ _ En). unfold recent. enough (filter (fun x => rank_of c (c_bank x) = rank_of c bank /\ cycle d - c_cycle x < m_tFaw c) (commands d) = []) as -> by done.
    apply elem_of_nil_inv. intros x ([_ Hlt] & Hx)%list_elem_of_filter.
    destruct (commands d) as [|y l] eqn:El; [by apply not_elem_of_nil in Hx|]. unfold rest in Hr. rewrite El in Hr.
    assert (c_cycle x <= c_cycle y). { apply elem_of_cons in Hx as [->|Hx]; [lia|]. pose proof (do_legal _ _ Hd) as Hl. rewrite El in Hl. destruct Hl as (Hf & _).
      rewrite Forall_forall in Hf. destruct (Hf x Hx). lia. }
    unfold busiest in Hr. lia. }
  change (ACTIVATE_PER_TFAW <=? 0) with false. simpl. rewrite (proj2 (Z.ltb_ge 0 (m_busBusyCounter_Write d))), (proj2 (Z.ltb_ge 0 (m_busBusyCounter_ReadNewRank d))) by lia.
  rewrite !andb_false_r. done.
Qed.

(** ** A round of the loop *)

(** The members that the loop over the banks may change only with a command. *)
Definition same_work s s' : Prop :=
  m_device s' = m_device s /\ m_bankQueues s' = m_bankQueues s /\ m_oldRequest s' = m_oldRequest s /\ m_need_refresh s' = m_need_refresh s /\ m_issued s' = m_issued s.
Definition same_clock s s' : Prop := m_ageCounter s' = m_ageCounter s /\ m_refresh_count s' = m_refresh_count s /\ cycle (m_device s') = cycle (m_device s).

(** A request that may go when the device is idle. *)
Definition eligible s (bank : Z) : Prop := exists r q n, zread (m_bankQueues s) bank = Some (r :: q) /\ zread (m_oldRequest s) bank = Some n /\
  (m_ageCounter s <= 2 * m_bank_busy_time c \/ n <> 0).

Inductive command_sent s s' : Prop :=
  | sent_refresh : m_bankQueues s' = m_bankQueues s -> m_oldRequest s' = m_oldRequest s -> m_issued s' = m_issued s ->
      m_need_refresh s' = m_need_refresh s - 1 -> command_sent s s'
  | sent_request bank r q : zread (m_bankQueues s) bank = Some (r :: q) -> eligible s bank ->
      m_bankQueues s' = zwrite (m_bankQueues s) bank q -> m_oldRequest s' = zwrite (m_oldRequest s) bank 0 -> m_issued s' = m_issued s ++ [r] ->
      m_need_refresh s' = m_need_refresh s -> command_sent s s'.

Lemma fixed_false : fixed c = false.
Proof using Hfixed. unfold fixed. by rewrite Hfixed. Qed.

Lemma queueReady_plain s bank r q : control_shape c s -> zread (m_bankQueues s) bank = Some (r :: q) -> fresh (m_device s) ->
  exists ready, queueReady c random s bank = Ok (ready, s) /\ (ready = true -> eligible s bank /\ m_busBusyCounter_Basic (m_device s) <= 0) /\
    (ready = false -> rest (m_device s) = 0 -> ~ eligible s bank).
Proof using Hc Hfixed Harb.
  intros Hs Hq Hf. pose proof Hs as [A1 A2 A3 A4 A5 A6 A7]. specialize (A2 fixed_false). pose proof (zread_range _ _ _ Hq) as Hb. rewrite A3 in Hb.
  unfold queueReady. destruct (aread_in (m_bankBusyCounter (m_device s)) bank) as (busy & Eb & ->); [destruct A1 as (E & _); lia|]. simpl. rewrite fixed_false. simpl.
  destruct (Z.ltb_spec 0 busy); simpl.
  { exists false. split; [done|]. split; [done|]. intros _ Hr. pose proof (fr_banks _ Hf _ _ Eb). lia. }
  rewrite (proj2 (Z.leb_gt 2 _)) by done. simpl. destruct (aread_in (m_oldRequest s) bank) as (old & Eo & ->); [lia|]. simpl.
  destruct (Z.ltb_spec (2 * m_bank_busy_time c) (m_ageCounter s)) as [Hage|Hage], (Z.eqb_spec old 0) as [->|Hold]; simpl.
  { exists false. split; [done|]. split; [done|]. intros _ _ (? & ? & n & _ & En & Hn). assert (n = 0) as -> by congruence. lia. }
  all: rewrite (proj2 (aread_ok _ _ _) Hq); simpl; destruct (bus_ready_ok c Hc (m_device s) bank A1 Hb (n_is_mem_read r)) as (b & E & _); rewrite E; simpl;
    exists b; (split; [done|]; split; [intros ->; split; [eexists r, q, _; split; [done|split; [exact Eo|tauto]]|]|intros -> Hr; rewrite (idle_ready _ _ _ A2 Hf Hr Hb) in E; done]).
  all: unfold bus_ready in E; destruct (m_busBusyCounter_Basic (m_device s) =? m_basic_bus_busy_time c); [done|];
    destruct (Z.ltb_spec 0 (m_busBusyCounter_Basic (m_device s))); [done|lia].
Qed.
(** A command keeps the device busy for the rest of the cycle. *)
Definition commanded s s' : Prop :=
  command_sent s s' /\ m_busBusyCounter_Basic (m_device s) <= 0 /\ 0 < m_busBusyCounter_Basic (m_device s') /\ rest (m_device s') = busiest.

Lemma activated_basic d r : m_busBusyCounter_Basic (activated c d r) = m_busBusyCounter_Basic d /\ cycle (activated c d r) = cycle d.
Proof using. unfold activated. by destruct (m_tFaw c =? 0). Qed.

Lemma commanded_device s s' bank k w n r : device_ok c (m_device s) -> fresh (m_device s) -> m_busBusyCounter_Basic (m_device s) <= 0 -> w <= busiest -> n <= busiest ->
  m_device s' = activated c (dev_command c (m_device s) bank k w n r) (rank_of c bank) -> command_sent s s' ->
  commanded s s' /\ fresh (m_device s') /\ cycle (m_device s') = cycle (m_device s).
Proof using Hc.
  intros Hd Hf Hb Hw Hn E Hs. pose proof (mk_bus c Hc). destruct (activated_basic (dev_command c (m_device s) bank k w n r) (rank_of c bank)) as [E1 E2].
  rewrite E. split; [split; [done|]; rewrite E, E1, rest_activated, rest_command; simpl; by split_and!|]. split; [|by rewrite E2]. by apply fresh_activated, fresh_command.
Qed.

Lemma issueRequest_fair now s bank r q : control_shape c s -> fresh (m_device s) -> zread (m_bankQueues s) bank = Some (r :: q) -> eligible s bank ->
  m_busBusyCounter_Basic (m_device s) <= 0 -> exists s', issueRequest c s now bank = Ok s' /\ same_clock s s' /\ fresh (m_device s') /\ commanded s s'.
Proof using Hc Hfixed.
  intros Hs Hf Hq He Hb. pose proof (mk_delays c Hc) as Hdl. rewrite (issueRequest_ok c Hc s now bank r q Hs Hq). eexists. split; [done|].
  match goal with |- context [issued_state c s now bank r q ?d] => set (d' := d); set (s' := issued_state c s now bank r q d') end.
  assert (command_sent s s') as Hsent. { apply (sent_request s s' bank r q); try done; unfold s', issued_state; destruct (n_msgptr r); done. }
  assert (commanded s s' /\ fresh (m_device s') /\ cycle (m_device s') = cycle (m_device s)) as (H1 & H2 & H3).
  { assert (m_device s' = d') as Ed by (unfold s', issued_state; by destruct (n_msgptr r)). unfold d' in Ed. clearbody d'.
    pose proof (cs_timing _ _ Hs fixed_false) as Hd. destruct (n_is_mem_read r); refine (commanded_device s s' bank _ _ _ _ Hd Hf Hb _ _ Ed Hsent); unfold busiest; lia. }
  split; [|done]. split; [|split; [|done]]; unfold s', issued_state; by destruct (n_msgptr r).
Qed.

Lemma visit_fair now s : serving c now s -> fresh (m_device s) -> exists s', visit c random s now = Ok s' /\ serving c now s' /\ m_roundRobin s' = after c (m_roundRobin s) /\
  same_clock s s' /\ fresh (m_device s') /\
  ((same_work s s' /\ (rest (m_device s) = 0 -> ~ eligible s (after c (m_roundRobin s)))) \/ commanded s s').
Proof using Hc Hfixed Harb.
  intros Hsv Hf. destruct (visit_ok c random Hc now s Hsv) as (s' & E & Hsv' & _ & Hrr & _). exists s'. split; [done|]. split; [done|]. split; [done|].
  destruct Hsv as [Hs _ _]. pose proof (cs_next _ _ Hs) as Hn. pose proof (after_range c _ Hn) as Hb. unfold visit in E. rewrite after_ok in E by done. cbv zeta in E.
  set (bank := after c (m_roundRobin s)) in *. set (s0 := with_roundRobin s bank (m_random s)) in *. assert (control_shape c s0) as Hs0 by (destruct Hs; by split).
  change (m_roundRobin s0) with bank in E. destruct (issueRefresh_ok c Hc s0 bank Hs0 Hb) as (s1 & E1 & Hs1 & Hcase). rewrite E1, bind_of_ok in E.
  assert (m_roundRobin s1 = bank /\ m_bankQueues s1 = m_bankQueues s) as [Er1 Eq1] by (by destruct Hcase as [->|(next & _ & ->)]).
  assert (same_clock s s1 /\ fresh (m_device s1) /\ (s1 = s0 \/ commanded s s1)) as (Hc1 & Hf1 & Hcase1).
  { destruct Hcase as [->|(next & Hbasic & ->)]; [split; [done|]; split; [done|by left]|]. set (s1 := with_device _ _) in *.
    assert (commanded s s1 /\ fresh (m_device s1) /\ cycle (m_device s1) = cycle (m_device s)) as (H1 & H2 & H3).
    { pose proof (mk_delays c Hc). refine (commanded_device s s1 bank _ _ _ _ (cs_timing _ _ Hs fixed_false) Hf Hbasic _ _ eq_refl _); [unfold busiest; lia..|by apply sent_refresh]. }
    split; [by split_and!|]. split; [done|by right]. }
  rewrite Er1, Eq1 in E. destruct (aread_in (m_bankQueues s) bank) as (q & Eq & Eqa); [rewrite (cs_banks _ _ Hs); lia|]. rewrite Eqa, bind_of_ok in E.
  destruct q as [|r q]; simpl in E.
  { injection E as <-. split; [done|]. split; [done|]. destruct Hcase1 as [->|]; [left|by right]. split; [done|]. intros _ (? & ? & ? & ? & _). congruence. }
  set (s2 := with_idle s1 IDLECOUNT_MAX_VALUE) in *. assert (control_shape c s2) as Hs2 by (destruct Hs1; by split).
  assert (zread (m_bankQueues s2) bank = Some (r :: q)) as Hq2 by (simpl; by rewrite Eq1).
  destruct (queueReady_plain s2 bank r q Hs2 Hq2 Hf1) as (ready & E2 & Hyes & Hno). rewrite E2 in E. simpl in E. rewrite Er1 in E.
  destruct ready.
  - destruct (Hyes eq_refl) as [He Hbasic]. destruct Hcase1 as [->|Hcm]; [|destruct Hcm as (_ & _ & H & _); simpl in Hbasic; lia].
    destruct (issueRequest_fair now s2 bank r q Hs2 Hf1 Hq2 He Hbasic) as (s3 & E3 & H1 & H2 & H3). rewrite E in E3. injection E3 as ->.
    split; [exact H1|]. split; [exact H2|]. right. destruct H3 as ([F1 F2 F3 F4|bk rr qq F1 F2 F3 F4 F5 F6] & H4 & H5 & H6); (split; [|by split_and!]);
      [by apply sent_refresh|by apply (sent_request s s3 bk rr qq)].
  - injection E as <-. split; [exact Hc1|]. split; [exact Hf1|]. destruct Hcase1 as [->|Hcm]; [left|right].
    + split; [done|]. intros Hr. exact (Hno eq_refl Hr).
    + destruct Hcm as ([F1 F2 F3 F4|bk rr qq F1 F2 F3 F4 F5 F6] & H4 & H5 & H6); (split; [|by split_and!]); [by apply sent_refresh|by apply (sent_request s s2 bk rr qq)].
Qed.
(** ** All rounds of a cycle *)

Lemma eligible_same s s1 b : same_work s s1 -> same_clock s s1 -> eligible s1 b <-> eligible s b.
Proof using. intros (_ & E1 & E2 & _) (E3 & _). unfold eligible. by rewrite E1, E2, E3. Qed.
Lemma commanded_pre s s1 s2 : same_work s s1 -> same_clock s s1 -> commanded s1 s2 -> commanded s s2.
Proof using.
  intros Hw Hk (Hs & H). pose proof Hw as (E1 & E2 & E3 & E4 & E5). unfold commanded. rewrite E1 in H. split; [|done].
  destruct Hs as [F1 F2 F3 F4|b r q F1 F2 F3 F4 F5 F6]; rewrite ?E2, ?E3, ?E4, ?E5 in *; [by apply sent_refresh|]. apply (sent_request s s2 b r q); try done.
  by apply (eligible_same s s1).
Qed.
Lemma commanded_post s s1 s2 : commanded s s1 -> same_work s1 s2 -> commanded s s2.
Proof using.
  intros (Hs & H) (E1 & E2 & E3 & E4 & E5). unfold commanded. rewrite E1. split; [|done].
  destruct Hs as [F1 F2 F3 F4|b r q F1 F2 F3 F4 F5 F6]; [apply sent_refresh|apply (sent_request s s2 b r q)]; congruence || done.
Qed.

Lemma visits_fair now n : forall s, serving c now s -> fresh (m_device s) -> exists s', visits c random n s now = Ok s' /\ serving c now s' /\ same_clock s s' /\ fresh (m_device s') /\
  ((same_work s s' /\ (rest (m_device s) = 0 -> forall i, 1 <= i <= Z.of_nat n -> ~ eligible s ((m_roundRobin s + i) mod m_total_banks c))) \/ commanded s s').
Proof using Hc Hfixed Harb.
  induction n as [|n IH]; intros s Hs Hf; simpl; [exists s; split_and!; try done; left; split; [done|lia]|].
  destruct (visit_fair now s Hs Hf) as (s1 & -> & Hs1 & Hr1 & Hk1 & Hf1 & H1). simpl. destruct (IH s1 Hs1 Hf1) as (s2 & -> & Hs2 & Hk2 & Hf2 & H2).
  exists s2. split; [done|]. split; [done|]. destruct Hk1 as (K1 & K2 & K3), Hk2 as (L1 & L2 & L3). split; [split_and!; congruence|]. split; [done|].
  destruct H1 as [[Hw1 Hn1]|Hc1].
  - destruct H2 as [[Hw2 Hn2]|Hc2]; [left|right; by apply (commanded_pre s s1)].
    assert (same_work s s2) as Hw by (destruct Hw1 as (? & ? & ? & ? & ?), Hw2 as (? & ? & ? & ? & ?); split_and!; congruence). split; [done|].
    intros Hr i Hi. destruct (decide (i = 1)) as [->|]; [by apply Hn1|]. assert (rest (m_device s1) = 0) as Hr' by (destruct Hw1 as (-> & _); done).
    specialize (Hn2 Hr' (i - 1) ltac:(lia)). rewrite Hr1 in Hn2. unfold after in Hn2. rewrite Zplus_mod_idemp_l in Hn2.
    replace (m_roundRobin s + 1 + (i - 1)) with (m_roundRobin s + i) in Hn2 by lia. intros He. apply Hn2. by apply (eligible_same s s1).
  - right. destruct H2 as [[Hw2 _]|(_ & Hb & _)]; [by apply (commanded_post s s1)|]. destruct Hc1 as (_ & _ & H & _). lia.
Qed.

Lemma all_visits_fair now s : serving c now s -> fresh (m_device s) -> exists s', visits c random (Z.to_nat (m_total_banks c)) s now = Ok s' /\ serving c now s' /\ same_clock s s' /\
  fresh (m_device s') /\ ((same_work s s' /\ (rest (m_device s) = 0 -> forall b, ~ eligible s b)) \/ commanded s s').
Proof using Hc Hfixed Harb.
  intros Hs Hf. destruct (visits_fair now (Z.to_nat (m_total_banks c)) s Hs Hf) as (s' & E & Hs' & Hk & Hf' & H). exists s'. split_and!; try done.
  destruct H as [[Hw Hn]|]; [left|by right]. split; [done|]. intros Hr b He. destruct He as (r & q & n & Hq & He). pose proof (zread_range _ _ _ Hq) as Hb.
  rewrite (cs_banks _ _ (sv_shape _ _ _ Hs)) in Hb. destruct (bank_in_turn c s b) as (i & Hi & Ei); [apply Hs|done|].
  apply (Hn Hr i); [lia|]. rewrite Ei. by exists r, q, n.
Qed.
(** ** The measure *)

Definition olds (l : list Z) : Z := zlen (List.filter (fun x => negb (x =? 0)) l).
Lemma olds_app l k : olds (l ++ k) = olds l + olds k.
Proof using. unfold olds, zlen. rewrite List.filter_app, length_app. lia. Qed.
Lemma olds_cons x l : olds (x :: l) = (if x =? 0 then 0 else 1) + olds l.
Proof using. unfold olds, zlen. simpl. destruct (x =? 0); simpl; lia. Qed.
Lemma olds_range l : 0 <= olds l <= zlen l.
Proof using. induction l as [|x l IH]; [done|]. rewrite olds_cons. unfold zlen in *. simpl. destruct (x =? 0); lia. Qed.
Lemma olds_clear l b n : zread l b = Some n -> olds (zwrite l b 0) = olds l - (if n =? 0 then 0 else 1).
Proof using. intros (l1 & l2 & -> & ->)%(zwrite_split _ _ _ 0). rewrite !olds_app, !olds_cons. simpl. lia. Qed.
Lemma olds_none l : forallb (fun x => x =? 0) l = true <-> olds l = 0.
Proof using.
  induction l as [|x l IH]; [done|]. rewrite olds_cons. simpl. rewrite andb_true_iff, IH, Z.eqb_eq. pose proof (olds_range l). destruct (Z.eqb_spec x 0); lia.
Qed.
Lemma olds_some l : 0 < olds l -> exists b n, zread l b = Some n /\ n <> 0.
Proof using.
  induction l as [|x l IH]; [done|]. rewrite olds_cons. destruct (Z.eqb_spec x 0) as [->|Hx]; [|intros _; by exists 0, x].
  intros (b & n & Hb & Hn)%IH. pose proof (zread_range _ _ _ Hb). exists (b + 1), n. split; [|done]. rewrite zread_cons, (proj2 (Z.eqb_neq _ _)) by lia. by replace (b + 1 - 1) with b by lia.
Qed.

Abbreviation period := (m_refresh_period_system c).
Context (Hperiod : busiest + 1 < period).

(** What is left of a batch: its requests and the refreshes take at most [busiest + 1]
    cycles each; more refreshes come; young requests can go for a while. *)
Definition batch_left s : Z :=
  period * ((busiest + 1) * (olds (m_oldRequest s) + m_need_refresh s) + rest (m_device s)) + (busiest + 1) * (period - m_refresh_count s) +
  period * (busiest + 1) * Z.max 0 (2 * m_bank_busy_time c + 1 - m_ageCounter s).
Definition batch_bound : Z := period * (busiest + 1) * (m_total_banks c + 2 * m_bank_busy_time c + 13).

Record fair_inv s : Prop := {
  fi_fresh : fresh (m_device s);
  fi_old : forall b n, zread (m_oldRequest s) b = Some n -> n = 0 \/ exists r q, zread (m_bankQueues s) b = Some (r :: q);
  fi_count : 1 <= m_refresh_count s <= period;
  fi_age : 0 <= m_ageCounter s }.

Lemma batch_left_range s : control_shape c s -> fair_inv s -> 0 <= batch_left s <= batch_bound.
Proof using Hc Hfixed Hperiod.
  intros Hs [A1 A2 A3 A4]. pose proof (rest_range _ (cs_timing _ _ Hs fixed_false)) as Hr. pose proof (olds_range (m_oldRequest s)) as Ho. rewrite (cs_old _ _ Hs) in Ho.
  pose proof (cs_need _ _ Hs) as Hn. pose proof (mk_busy c Hc) as Hb. assert (0 <= busiest) by lia. unfold batch_left, batch_bound.
  assert (0 <= period * (busiest + 1)) by nia.
  assert (0 <= period * rest (m_device s) <= period * (busiest + 1)) by nia. assert (0 <= (busiest + 1) * (period - m_refresh_count s) <= (busiest + 1) * period) by nia.
  assert (0 <= period * (busiest + 1) * (olds (m_oldRequest s) + m_need_refresh s) <= period * (busiest + 1) * (m_total_banks c + 10)) by nia.
  assert (0 <= period * (busiest + 1) * Z.max 0 (2 * m_bank_busy_time c + 1 - m_ageCounter s) <= period * (busiest + 1) * (2 * m_bank_busy_time c + 1)) by nia. nia.
Qed.
(** ** A cycle *)

Definition worked s s' : Prop := same_work s s' \/ commanded s s'.

Lemma worked_head s s' b r q : control_shape c s -> zread (m_bankQueues s) b = Some (r :: q) -> worked s s' ->
  r ∈ m_issued s' \/ (zread (m_bankQueues s') b = Some (r :: q) /\ zread (m_oldRequest s') b = zread (m_oldRequest s) b).
Proof using.
  intros Hs Hq [(_ & -> & -> & _)|([-> -> _ _|bank r' q' Hq' He -> -> -> _] & _)]; [by right..|]. pose proof (zread_range _ _ _ Hq') as Hb.
  pose proof Hb as Hb'. rewrite (cs_banks _ _ Hs) in Hb'. rewrite !zread_zwrite by (rewrite ?(cs_old _ _ Hs); lia).
  destruct (Z.eqb_spec bank b) as [->|]; [left|by right]. assert (r' = r) as -> by congruence. apply elem_of_app. right. left.
Qed.
Lemma worked_issued s s' x : worked s s' -> x ∈ m_issued s -> x ∈ m_issued s'.
Proof using. intros [(_ & _ & _ & _ & ->)|([_ _ -> _|bank r' q' _ _ _ _ -> _] & _)] Hx; [done..|]. apply elem_of_app. by left. Qed.
Lemma worked_old s s' : control_shape c s -> worked s s' ->
  (forall b n, zread (m_oldRequest s) b = Some n -> n = 0 \/ exists r q, zread (m_bankQueues s) b = Some (r :: q)) ->
  (forall b n, zread (m_oldRequest s') b = Some n -> n = 0 \/ exists r q, zread (m_bankQueues s') b = Some (r :: q)).
Proof using.
  intros Hs [(_ & -> & -> & _)|([-> -> _ _|bank r' q' Hq' He -> -> _ _] & _)] Ho; [done..|]. pose proof (zread_range _ _ _ Hq') as Hb.
  pose proof Hb as Hb'. rewrite (cs_banks _ _ Hs) in Hb'. intros b n. rewrite !zread_zwrite by (rewrite ?(cs_old _ _ Hs); lia).
  destruct (Z.eqb_spec bank b) as [->|]; [intros [= <-]; by left|apply Ho].
Qed.

Lemma move_input_fair s s' : control_shape c s -> move_input c s = Ok s' -> m_device s' = m_device s /\ m_oldRequest s' = m_oldRequest s /\ m_need_refresh s' = m_need_refresh s /\
  m_issued s' = m_issued s /\ m_ageCounter s' = m_ageCounter s /\ m_refresh_count s' = m_refresh_count s /\
  (forall b r q, zread (m_bankQueues s) b = Some (r :: q) -> exists q', zread (m_bankQueues s') b = Some (r :: q')).
Proof using.
  intros Hs E. unfold move_input in E. destruct (m_input_queue s) as [|req rst]; [injection E as <-; split_and!; try done; intros b r q ?; by exists q|]. simpl in E.
  destruct (aread (m_bankQueues s) (getBank c (n_addr req))) as [q0|] eqn:Eq; [|done]. simpl in E. apply aread_ok in Eq. pose proof (zread_range _ _ _ Eq) as Hb.
  destruct (zlen q0 <? m_bank_queue_size c); [|injection E as <-; split_and!; try done; intros b r q ?; by exists q].
  rewrite awrite_in in E by done. simpl in E. injection E as <-. split_and!; try done. intros b r q Hq. simpl. rewrite zread_zwrite by done.
  destruct (Z.eqb_spec (getBank c (n_addr req)) b) as [E|]; [|by exists q]. rewrite E in Eq. assert (q0 = r :: q) as -> by congruence. by exists (q ++ [req]).
Qed.

(** The refresh counter and the refreshes that wait keep the measure, but for the cycle. *)
Lemma refresh_tick_fair s s' : 0 <= m_need_refresh s -> 1 <= m_refresh_count s <= period -> refresh_tick c s = Ok s' -> exists count need,
  s' = with_refresh s count need (m_refresh_bank s) /\ 1 <= count <= period /\
  period * (busiest + 1) * need + (busiest + 1) * (period - count) = period * (busiest + 1) * m_need_refresh s + (busiest + 1) * (period - m_refresh_count s) + (busiest + 1).
Proof using Hc Hfixed Hperiod.
  intros Hn Hcount E. pose proof (mk_busy c Hc). assert (0 <= busiest) by (unfold busiest in *; lia). unfold refresh_tick in E. rewrite fixed_false in E. destruct (Z.eqb_spec (m_refresh_count s - 1) 0) as [Ez|].
  - destruct (m_need_refresh s <? 10); [|done]. injection E as <-. eexists _, _. split; [done|]. split; [lia|]. assert (m_refresh_count s = 1) as -> by lia. nia.
  - injection E as <-. eexists _, _. split; [done|]. split; [lia|nia].
Qed.
(** The batch before the loop over the banks. *)
Definition batch_before s s2 : Prop :=
  (0 < olds (m_oldRequest s) /\ m_oldRequest s2 = m_oldRequest s /\ m_ageCounter s2 = m_ageCounter s + 1) \/
  (olds (m_oldRequest s) = 0 /\ m_ageCounter s2 = 0 /\ (forall b n, zread (m_oldRequest s2) b = Some n -> n = 0 \/ exists r q, zread (m_bankQueues s) b = Some (r :: q)) /\
    forall b r q, zread (m_bankQueues s) b = Some (r :: q) -> zread (m_oldRequest s2) b = Some 1).

Lemma batch_tick_fair s : control_shape c s -> exists old age, batch_tick s = with_batch s old age /\ zlen old = m_total_banks c /\ batch_before s (with_batch s old age).
Proof using.
  intros Hs. pose proof (cs_old _ _ Hs) as Ho. pose proof (cs_banks _ _ Hs) as Hb. unfold batch_tick. destruct (forallb (fun x => x =? 0) (m_oldRequest s)) eqn:E.
  - apply olds_none in E. eexists _, _. split; [done|]. split; [rewrite zlen_zip_with; lia|]. right. split; [done|]. split; [done|]. simpl. split.
    + intros b n. rewrite zread_zip_with. destruct (zread (m_bankQueues s) b) as [q|] eqn:Eq; [|done]. simpl. destruct (zread (m_oldRequest s) b) as [x|] eqn:Ex; [|done]. simpl.
      intros [= <-]. destruct q as [|r q]; [left|right; by exists r, q]. apply olds_none in E. rewrite forallb_forall in E. apply Z.eqb_eq, E, list_elem_of_In. by eapply zread_elem_of.
    + intros b r q Hq. pose proof (zread_range _ _ _ Hq). rewrite zread_zip_with, Hq. simpl. destruct (zread_is_some (m_oldRequest s) b) as [x ->]; [lia|done].
  - eexists _, _. split; [done|]. split; [done|]. left. split; [|done]. pose proof (olds_range (m_oldRequest s)). destruct (Z.eq_dec (olds (m_oldRequest s)) 0) as [E0|]; [|lia].
    apply olds_none in E0. congruence.
Qed.

(** The state before the loop over the banks, and after it. *)
Lemma execute_split now s s' : serving c now s -> fair_inv s -> executeCycle c random s now = Ok s' -> exists s2 s3, serving c now s2 /\ serving c now s3 /\
  m_device s2 = dev_tick (m_device s) /\ m_bankQueues s2 = m_bankQueues s /\ m_issued s2 = m_issued s /\ batch_before s s2 /\ 1 <= m_refresh_count s2 <= period /\
  period * (busiest + 1) * m_need_refresh s2 + (busiest + 1) * (period - m_refresh_count s2) =
    period * (busiest + 1) * m_need_refresh s + (busiest + 1) * (period - m_refresh_count s) + (busiest + 1) /\
  same_clock s2 s3 /\ fresh (m_device s3) /\ ((same_work s2 s3 /\ (rest (m_device s2) = 0 -> forall b, ~ eligible s2 b)) \/ commanded s2 s3) /\ move_input c s3 = Ok s'.
Proof using Hc Hfixed Harb Hrandom Hperiod.
  intros [Hs Hf Ha] [Hfr Ho Hcount Hage] E. unfold executeCycle in E. cbv zeta in E. set (s0 := with_device s (dev_tick (m_device s))) in *.
  pose proof (cs_timing _ _ Hs fixed_false) as Hd.
  assert (control_shape c s0) as Hs0. { destruct Hs as [A1 A2 A3 A4 A5 A6 A7]. split; simpl; try done; [by apply tick_shape|intros; by apply device_tick_ok]. }
  destruct (refresh_tick c s0) as [s1|] eqn:E1; [|done]. rewrite bind_of_ok in E.
  assert (0 <= m_need_refresh s1 <= 10) as Hn1.
  { pose proof (cs_need _ _ Hs) as Hn. unfold refresh_tick in E1. rewrite fixed_false in E1. simpl in E1. destruct (m_refresh_count s - 1 =? 0); [|by injection E1 as <-].
    destruct (Z.ltb_spec (m_need_refresh s) 10); [|done]. injection E1 as <-. simpl. lia. }
  destruct (refresh_tick_fair s0 s1) as (count & need & -> & Hc1 & Hm1); [apply (cs_need _ _ Hs)|done|done|].
  set (s1 := with_refresh s0 count need (m_refresh_bank s0)) in *. assert (control_shape c s1) as Hs1 by (destruct Hs0; by split).
  destruct (batch_tick_fair s1 Hs1) as (old & age & Eb & Hold & Hbb). rewrite Eb in E. set (s2 := with_batch s1 old age) in *.
  assert (exists rr k, (if negb (m_memRandomArbitrate c =? 0) then with_roundRobin s2 (random (m_random s2) mod m_total_banks c) (S (m_random s2)) else s2) = with_roundRobin s2 rr k /\
    0 <= rr < m_total_banks c) as (rr & k & Er & Hrr).
  { destruct (m_memRandomArbitrate c =? 0); simpl; [exists (m_roundRobin s2), (m_random s2); split; [done|apply Hs1]|].
    eexists _, _. split; [done|]. apply Z.mod_pos_bound, (total_pos c Hc). }
  rewrite Er in E. set (s3 := with_roundRobin s2 rr k) in *.
  assert (serving c now s3) as Hs3 by (split; [destruct Hs1; by split|destruct Hf; by split|destruct Ha; by split]).
  destruct (all_visits_fair now s3 Hs3) as (s4 & E4 & Hs4 & Hk & Hf4 & Hw); [by apply fresh_tick|]. rewrite E4, bind_of_ok in E.
  exists s3, s4. do 5 (split; [done|]). split; [exact Hbb|]. split; [exact Hc1|]. split; [exact Hm1|]. by split_and!.
Qed.

Lemma execute_fair now s s' : serving c now s -> fair_inv s -> executeCycle c random s now = Ok s' -> fair_inv s' /\
  (forall x, x ∈ m_issued s -> x ∈ m_issued s') /\
  (forall b r q, zread (m_bankQueues s) b = Some (r :: q) -> r ∈ m_issued s' \/ ((exists q', zread (m_bankQueues s') b = Some (r :: q')) /\
     (0 < olds (m_oldRequest s) -> zread (m_oldRequest s') b = zread (m_oldRequest s) b) /\ (olds (m_oldRequest s) = 0 -> zread (m_oldRequest s') b = Some 1))) /\
  (0 < olds (m_oldRequest s) -> batch_left s' < batch_left s).
Proof using Hc Hfixed Harb Hrandom Hperiod.
  intros Hsv Hfi E. destruct (execute_split now s s' Hsv Hfi E) as (s2 & s3 & Hs2 & Hs3 & Ed & Eq & Ei & Hbb & Hcount & Hm & Hk & Hf3 & Hw & Ead).
  destruct Hfi as [Hfr Ho _ Hage]. destruct (move_input_fair s3 s' (sv_shape _ _ _ Hs3) Ead) as (F1 & F2 & F3 & F4 & F5 & F6 & F7).
  assert (worked s2 s3) as Hwork by (destruct Hw as [[? _]|?]; [by left|by right]). destruct Hk as (K1 & K2 & K3).
  assert (forall b n, zread (m_oldRequest s2) b = Some n -> n = 0 \/ exists r q, zread (m_bankQueues s2) b = Some (r :: q)) as Ho2.
  { rewrite Eq. destruct Hbb as [(_ & -> & _)|(_ & _ & H & _)]; [exact Ho|exact H]. }
  split; [|split; [|split]].
  - split; [by rewrite F1| |by rewrite F6, K2|rewrite F5, K1; destruct Hbb as [(_ & _ & ->)|(_ & -> & _)]; lia]. intros b n. rewrite F2. intros Hn.
    destruct (worked_old s2 s3 (sv_shape _ _ _ Hs2) Hwork Ho2 b n Hn) as [|(r & q & Hq)]; [by left|right]. destruct (F7 b r q Hq) as [q' Hq']. by exists r, q'.
  - intros x Hx. rewrite F4. apply (worked_issued s2 s3); [done|]. by rewrite Ei.
  - intros b r q Hq. rewrite F4, F2. rewrite <- Eq in Hq. destruct (worked_head s2 s3 b r q (sv_shape _ _ _ Hs2) Hq Hwork) as [?|[Hq3 Ho3]]; [by left|right].
    split; [by apply (F7 b r q)|]. rewrite Ho3. rewrite Eq in Hq. destruct Hbb as [(H0 & -> & _)|(H0 & _ & _ & H)]; (split; [intros; try lia; done|intros; try lia]). by apply (H b r q).
  - intros Hpos. destruct Hbb as [(_ & Eo & Ea)|(H0 & _)]; [|lia]. pose proof (cs_timing _ _ (sv_shape _ _ _ Hsv) fixed_false) as Hd. pose proof (rest_range _ Hd) as Hr.
    assert (0 <= busiest) by lia. assert (rest (m_device s2) = Z.max 0 (rest (m_device s) - 1)) as Er2 by (rewrite Ed; apply rest_tick).
    assert (0 < period * (busiest + 1)) by nia.
    unfold batch_left. rewrite F1, F2, F3, F5, F6, K1, K2, Ea. destruct Hw as [[(G1 & G2 & G3 & G4 & G5) Hblocked]|(Hsent & _ & _ & Hrest)].
    + rewrite G1, G3, G4, Eo. assert (rest (m_device s2) <> 0) as Hne.
      { intros Hz. destruct (olds_some _ Hpos) as (b & n & Hb & Hn). destruct (Ho b n Hb) as [|(r & q & Hq)]; [done|]. apply (Hblocked Hz b). exists r, q, n. rewrite Eq, Eo. auto. }
      assert (rest (m_device s2) = rest (m_device s) - 1) as -> by lia. nia.
    + rewrite Hrest. destruct Hsent as [_ -> _ ->|b r q Hq (r' & q' & n & _ & Hn & Hel) _ -> _ ->].
      * rewrite Eo. nia.
      * rewrite (olds_clear _ _ _ Hn), Eo. rewrite Ea in Hel. destruct (Z.eqb_spec n 0) as [->|]; [|nia].
        assert (m_ageCounter s + 1 <= 2 * m_bank_busy_time c) by lia. rewrite !Z.max_r by lia. nia.
Qed.
(** ** Runs *)

(** The members that only the controller's cycle changes. *)
Definition same_control s s' : Prop :=
  m_device s' = m_device s /\ m_bankQueues s' = m_bankQueues s /\ m_oldRequest s' = m_oldRequest s /\ m_need_refresh s' = m_need_refresh s /\
  m_issued s' = m_issued s /\ m_ageCounter s' = m_ageCounter s /\ m_refresh_count s' = m_refresh_count s.

Lemma same_control_fair s s' : same_control s s' -> fair_inv s -> fair_inv s'.
Proof using. intros (E1 & E2 & E3 & E4 & E5 & E6 & E7) [A1 A2 A3 A4]. split; rewrite ?E1, ?E2, ?E3, ?E6, ?E7; done. Qed.

Lemma mem_step_cases s now s' now' : mem_step c random (s, now) (s', now') -> same_control s s' \/
  exists l1 l2, m_events s = l1 ++ (Controller, now) :: l2 /\ mem_wakeup c random (with_wake s (m_awakened s) (l1 ++ l2)) now = Ok s' /\ now' = now.
Proof using.
  intros Hstep. inversion Hstep as [? ? r Hr|? ? ? Hle Hev|? ? l1 l2 El|? ? ? E|? ? l1 l2 ? El E]; subst; [left..|right; by exists l1, l2].
  - unfold enqueueMemRef. simpl. by destruct (m_awakened s =? 0).
  - done.
  - done.
  - unfold mem_dequeue in E. destruct (mem_isReady s now'); [|done]. simpl in E. destruct (m_response_queue s); [done|]. by injection E as <-.
Qed.

(** How long the head of the bank [b] can have to wait. *)
Definition waits s (b : Z) : Z := batch_left s + (if bool_decide (zread (m_oldRequest s) b = Some 0) then batch_bound + 1 else 0).

Lemma waits_range s b : control_shape c s -> fair_inv s -> 0 <= waits s b <= 2 * batch_bound + 1.
Proof using Hc Hfixed Hperiod. intros Hs Hf. pose proof (batch_left_range s Hs Hf). unfold waits. case_bool_decide; lia. Qed.
Lemma waits_same s s' b : same_control s s' -> waits s' b = waits s b.
Proof using. intros (E1 & E2 & E3 & E4 & E5 & E6 & E7). unfold waits, batch_left. by rewrite E1, E3, E4, E6, E7. Qed.

Lemma wakeup_fair s now l1 l2 s' : run_inv c s now -> fair_inv s -> m_events s = l1 ++ (Controller, now) :: l2 ->
  mem_wakeup c random (with_wake s (m_awakened s) (l1 ++ l2)) now = Ok s' ->
  fair_inv s' /\ (forall x, x ∈ m_issued s -> x ∈ m_issued s') /\
  (forall b r q, zread (m_bankQueues s) b = Some (r :: q) -> r ∈ m_issued s' \/ (exists q', zread (m_bankQueues s') b = Some (r :: q')) /\ waits s' b < waits s b).
Proof using Hc Hfixed Harb Hrandom Hperiod.
  intros Hi Hf El E. pose proof (mem_step_inv c random Hc Hrandom s now s' now Hi (ms_wakeup c random s now l1 l2 s' El E)) as Hi'.
  destruct (wake_ready c s now l1 l2 Hi El) as (Hs & _ & _). unfold mem_wakeup in E.
  set (s0 := with_wake s (m_awakened s) (l1 ++ l2)) in *. destruct (executeCycle c random s0 now) as [s1|] eqn:E1; [|done]. simpl in E.
  assert (same_control s1 s') as Hsc by (destruct (m_idleCount s1 - 1 <=? 0); by injection E as <-).
  destruct (execute_fair now s0 s1 Hs) as (Hf1 & Hmono & Hhead & Hless); [by apply (same_control_fair s)|done|].
  pose proof (same_control_fair _ _ Hsc Hf1) as Hf'. pose proof (batch_left_range s (sv_shape _ _ _ (rn_serving _ _ _ Hi)) Hf) as Hr.
  pose proof (batch_left_range s' (sv_shape _ _ _ (rn_serving _ _ _ Hi')) Hf') as Hr'.
  pose proof Hsc as (G1 & G2 & G3 & G4 & G5 & G6 & G7). split; [done|]. split; [rewrite G5; exact Hmono|]. intros b r q Hq. rewrite G5, G2.
  destruct (Hhead b r q Hq) as [|(Hk & Hold & Hnew)]; [by left|right]. split; [done|].
  destruct (Z.eq_dec (olds (m_oldRequest s)) 0) as [Ez|Hne].
  - assert (zread (m_oldRequest s) b = Some 0) as Eb.
    { pose proof (zread_range _ _ _ Hq) as Hb. pose proof (sv_shape _ _ _ (rn_serving _ _ _ Hi)) as Hsh. rewrite (cs_banks _ _ Hsh), <- (cs_old _ _ Hsh) in Hb.
      destruct (zread_is_some (m_oldRequest s) b Hb) as [n Hn]. rewrite Hn. apply olds_none in Ez. rewrite forallb_forall in Ez.
      f_equal. apply Z.eqb_eq, Ez, list_elem_of_In. by eapply zread_elem_of. }
    unfold waits. rewrite bool_decide_eq_false_2 by (rewrite G3, (Hnew Ez); done). rewrite bool_decide_eq_true_2 by done. lia.
  - pose proof (olds_range (m_oldRequest s)). assert (0 < olds (m_oldRequest s)) as Hpos by lia. specialize (Hless Hpos). specialize (Hold Hpos).
    change (m_oldRequest s0) with (m_oldRequest s) in Hold. change (batch_left s0) with (batch_left s) in Hless.
    rewrite (waits_same s1 s' b Hsc). unfold waits. rewrite Hold. destruct (bool_decide _); lia.
Qed.

Lemma new_fair s : memory_control_new c = Ok s -> fair_inv s.
Proof using Hc Hperiod.
  unfold memory_control_new. destruct (m_tFaw c <=? 62); [|done]. simpl. destruct (m_total_banks c =? 0); [done|]. intros [= <-]. pose proof (mk_busy c Hc).
  assert (0 <= busiest) by (unfold busiest; lia). split; simpl; [|intros b n; rewrite zread_replicate; destruct ((0 <=? b) && (b <? m_total_banks c)); [intros [= <-]; by left|done]|lia|lia].
  split; simpl; try done. intros b n. rewrite zread_replicate. by destruct ((0 <=? b) && (b <? m_total_banks c)); [intros [= <-]|].
Qed.

Lemma step_fair s now s' now' : run_inv c s now -> fair_inv s -> mem_step c random (s, now) (s', now') -> fair_inv s' /\ (forall x, x ∈ m_issued s -> x ∈ m_issued s') /\
  (forall b r q, zread (m_bankQueues s) b = Some (r :: q) -> r ∈ m_issued s' \/ (exists q', zread (m_bankQueues s') b = Some (r :: q')) /\ waits s' b <= waits s b).
Proof using Hc Hfixed Harb Hrandom Hperiod.
  intros Hi Hf Hstep. destruct (mem_step_cases s now s' now' Hstep) as [Hsc|(l1 & l2 & El & E & ->)].
  - split; [by apply (same_control_fair s)|]. pose proof Hsc as (G1 & G2 & G3 & G4 & G5 & G6 & G7). rewrite G5, G2. split; [done|]. intros b r q Hq. right.
    split; [by exists q|]. rewrite (waits_same s s' b Hsc). lia.
  - destruct (wakeup_fair s now l1 l2 s' Hi Hf El E) as (H1 & H2 & H3). split; [done|]. split; [done|]. intros b r q Hq. destruct (H3 b r q Hq) as [|[? ?]]; [by left|right]. split; [done|lia].
Qed.

Lemma reachable_fair s now : mem_reachable c random s now -> run_inv c s now /\ fair_inv s.
Proof using Hc Hfixed Harb Hrandom Hperiod.
  intros Hr. split; [by apply (mem_reachable_inv c random Hc Hrandom)|]. destruct Hr as (s0 & E & Hr). destruct (new_shape c Hc) as (s1 & E' & Hi).
  rewrite E in E'. injection E' as <-. apply new_fair in E. remember (s0, 0) as x eqn:Ex. remember (s, now) as y eqn:Ey.
  assert (run_inv c x.1 x.2 /\ fair_inv x.1) as Hx by (by subst x). clear Ex Hi E. revert s now Ey.
  induction Hr as [x|[s2 n2] [s3 n3] z Hstep _ IH]; intros s now ->; [apply Hx|]. destruct Hx as [H1 H2]. apply (IH ltac:(split; [by apply (mem_step_inv c random Hc Hrandom s2 n2)|by apply (step_fair s2 n2 s3 n3)]) s now eq_refl).
Qed.

Lemma runs_issued n x y r : runs_for c random n x y -> run_inv c x.1 x.2 -> fair_inv x.1 -> r ∈ m_issued x.1 -> r ∈ m_issued y.1.
Proof using Hc Hfixed Harb Hrandom Hperiod.
  induction 1 as [x|n [s1 n1] [s2 n2] z Hstep _ IH|n s now l1 l2 s' z El E _ IH]; intros Hi Hf Hr; [done|..]; simpl in *.
  - destruct (step_fair s1 n1 s2 n2 Hi Hf Hstep) as (H1 & H2 & _). apply IH; [by apply (mem_step_inv c random Hc Hrandom s1 n1)|done|by apply H2].
  - destruct (wakeup_fair s now l1 l2 s' Hi Hf El E) as (H1 & H2 & _). apply IH; [|done|by apply H2].
    by apply (mem_step_inv c random Hc Hrandom s now), (ms_wakeup c random s now l1 l2).
Qed.

Lemma runs_wait n x y b r q : runs_for c random n x y -> run_inv c x.1 x.2 -> fair_inv x.1 -> zread (m_bankQueues x.1) b = Some (r :: q) -> waits x.1 b < Z.of_nat n -> r ∈ m_issued y.1.
Proof using Hc Hfixed Harb Hrandom Hperiod.
  intros Hrun. revert q. induction Hrun as [x|n [s1 n1] [s2 n2] z Hstep Hrun IH|n s now l1 l2 s' z El E Hrun IH]; intros q Hi Hf Hq Hlt; simpl in *.
  - pose proof (waits_range x.1 b (sv_shape _ _ _ (rn_serving _ _ _ Hi)) Hf). lia.
  - destruct (step_fair s1 n1 s2 n2 Hi Hf Hstep) as (H1 & H2 & H3). pose proof (mem_step_inv c random Hc Hrandom s1 n1 s2 n2 Hi Hstep) as Hi2.
    destruct (H3 b r q Hq) as [Hin|[[q' Hq'] Hw]]; [by eapply runs_issued|]. apply (IH q'); try done. lia.
  - destruct (wakeup_fair s now l1 l2 s' Hi Hf El E) as (H1 & H2 & H3).
    pose proof (mem_step_inv c random Hc Hrandom s now s' now Hi (ms_wakeup c random s now l1 l2 s' El E)) as Hi2.
    destruct (H3 b r q Hq) as [Hin|[[q' Hq'] Hw]]; [by eapply runs_issued|]. apply (IH q'); try done. lia.
Qed.

(** C11: With no fixed delay, a fixed order of the banks or random starting points, and
    refreshes that are rarer than the longest time a command keeps the device busy, the
    request at the head of the queue of a bank is issued within a number of cycles of
    the memory controller that depends only on the configuration, whatever requests
    arrive in the meantime: newer requests are held off until the batch of old ones is
    done, and every cycle of a batch lowers a measure of what is left of it. *)
Theorem memory_never_starves s now b r q n s' now' : mem_reachable c random s now -> zread (m_bankQueues s) b = Some (r :: q) ->
  runs_for c random n (s, now) (s', now') -> 2 * batch_bound + 2 <= Z.of_nat n -> r ∈ m_issued s'.
Proof using Hc Hfixed Harb Hrandom Hperiod.
  intros Hw Hq Hrun Hn. destruct (reachable_fair s now Hw) as [Hi Hf]. pose proof (waits_range s b (sv_shape _ _ _ (rn_serving _ _ _ Hi)) Hf).
  apply (runs_wait n (s, now) (s', now') b r q Hrun Hi Hf Hq). simpl. lia.
Qed.
End fair.

(** ** A small run *)

Definition small_mem : mem_config := mkMemConfig 1 1 1 1 6 7 8 12 1 0 0 1 1 3 0 0 0.
Definition small_request : mem_node := mkNode 0 0 None 0 true false.
Definition queued_request : mem_node := mkNode 0 1 None 0 true false.
Lemma small_mem_ok : mem_config_ok small_mem.
Proof. split; simpl; try lia; exists 0; lia. Qed.

Lemma memory_never_starves_witness : exists s now s' now', mem_run small_mem 1 [small_request] = Ok (s, now) /\ zread (m_bankQueues s) 0 = Some [queued_request] /\
  ticks small_mem no_random 194 s now = Ok (s', now') /\ queued_request ∈ m_issued s'.
Proof.
  eexists _, _, _, _. split; [vm_compute; reflexivity|]. split; [reflexivity|]. split; [vm_compute; reflexivity|].
  eapply (memory_never_starves small_mem no_random small_mem_ok) with (n := 194%nat) (b := 0) (q := []);
    [intros; unfold no_random; lia|reflexivity|reflexivity|vm_compute; reflexivity
    |eapply (mem_run_reachable small_mem 1 [small_request]); [apply Forall_singleton; simpl; lia|vm_compute; reflexivity]|reflexivity
    |apply ticks_run; vm_compute; reflexivity|vm_compute; discriminate].
Defined.
