(* ===== verification/FunctionalSim.v ===== *)
(** * Functional simulation of a kernel

    [gpgpu_cuda_ptx_sim_main_func], [functionalCoreSim] and [ptx_sim_init_thread] of
    [cuda-sim/cuda-sim.cc], with the records of a block ([ptx_cta_info],
    [cuda-sim/ptx_sim.cc]): the blocks of a kernel are run one at a time; the first call
    of [ptx_sim_init_thread] for a block makes all its threads and moves the kernel on to
    the next block, later calls hand the threads out; the warps then execute one
    instruction each in turn, those at a barrier being left out until all are there.

    What one instruction of a warp does ([getExecuteWarp], the instructions of
    [instructions.cc], [updateSIMTStack]) is the argument [warp_instruction]: it changes
    the rest of the machine [M] and the warp's stack, says whether it was a barrier and
    which threads left. *)

From S2P Require Import Prelude Bitset PtxMemory SimtStack Kernel.

(** * Threads and blocks *)

(** [th_cta] is the index of [m_cta_info], [th_local] the number of the local memory and
    [th_hw] what [init] stores. *)
Record ptx_thread_info := mkThreadInfo {
  th_ctaid : dim3; th_tid : dim3; th_local : Z; th_cta : Z; th_done : bool; th_hw : option Z }.

Record ptx_cta_info := mkCta {
  m_threads_in_cta : gset Z; m_threads_that_have_exited : gset Z; m_dangling_pointers : gset Z }.

(** The kernel, the thread objects, the next address of [new], and the static tables
    [ptx_cta_lookup] and [g_ptx_cta_info_sm_idx_used]. *)
Record fsim := mkSim {
  s_kernel : kernel_info_t;
  threads : gmap Z ptx_thread_info;
  next_thread : Z;
  ptx_cta_lookup : gmap Z ptx_cta_info;
  sm_idx_used : gset Z }.

Definition with_kernel_info (s : fsim) (k : kernel_info_t) : fsim :=
  mkSim k (threads s) (next_thread s) (ptx_cta_lookup s) (sm_idx_used s).
Definition with_threads (s : fsim) (t : gmap Z ptx_thread_info) (n : Z) : fsim :=
  mkSim (s_kernel s) t n (ptx_cta_lookup s) (sm_idx_used s).
Definition with_cta (s : fsim) (i : Z) (c : ptx_cta_info) : fsim :=
  mkSim (s_kernel s) (threads s) (next_thread s) (<[i := c]> (ptx_cta_lookup s)) (sm_idx_used s).
Definition with_active (k : kernel_info_t) (l : list Z) : kernel_info_t :=
  mkKernel (m_kernel_entry k) (m_uid k) (m_grid_dim k) (m_block_dim k) (m_next_cta k) (m_next_tid k)
    (m_num_cores_running k) l (m_param_mem k).

Definition thread_at (s : fsim) (p : Z) : outcome ptx_thread_info :=
  match threads s !! p with Some t => Ok t | None => Err BadAccess end.
Definition cta_at (s : fsim) (i : Z) : outcome ptx_cta_info :=
  match ptx_cta_lookup s !! i with Some c => Ok c | None => Err BadAccess end.

Definition ptx_cta_info_new (s : fsim) (sm_idx : Z) : outcome fsim :=
  cassert (bool_decide (sm_idx ∉ sm_idx_used s));;
  mret (mkSim (s_kernel s) (threads s) (next_thread s)
          (<[sm_idx := mkCta ∅ ∅ ∅]> (ptx_cta_lookup s)) ({[sm_idx]} ∪ sm_idx_used s)).
Definition add_thread (c : ptx_cta_info) (p : Z) : ptx_cta_info :=
  mkCta ({[p]} ∪ m_threads_in_cta c) (m_threads_that_have_exited c) (m_dangling_pointers c).
Definition register_thread_exit (c : ptx_cta_info) (p : Z) : outcome ptx_cta_info :=
  cassert (bool_decide (p ∉ m_threads_that_have_exited c));;
  mret (mkCta (m_threads_in_cta c) ({[p]} ∪ m_threads_that_have_exited c) (m_dangling_pointers c)).
Definition register_deleted_thread (c : ptx_cta_info) (p : Z) : ptx_cta_info :=
  mkCta (m_threads_in_cta c) (m_threads_that_have_exited c) ({[p]} ∪ m_dangling_pointers c).

(** A thread of the block is still running: the loop of the second test. *)
Fixpoint some_running (s : fsim) (dangling : gset Z) (l : list Z) : outcome bool :=
  match l with
  | [] => mret false
  | p :: l' =>
      here ← (if bool_decide (p ∈ dangling) then mret false else t ← thread_at s p; mret (negb (th_done t)));
      rest ← some_running s dangling l';
      mret (here || rest)
  end.
Definition check_cta_thread_status_and_reset (s : fsim) (c : ptx_cta_info) : outcome ptx_cta_info :=
  if negb (bool_decide (size (m_threads_that_have_exited c) = size (m_threads_in_cta c))) then Err ErrorMsg
  else
    fail2 ← some_running s (m_dangling_pointers c) (elements (m_threads_in_cta c));
    if (fail2 : bool) then Err ErrorMsg else mret (mkCta ∅ ∅ ∅).

(** [thd->m_cta_info->register_deleted_thread(thd); delete thd;] *)
Definition delete_thread (s : fsim) (p : Z) : outcome fsim :=
  t ← thread_at s p;
  c ← cta_at s (th_cta t);
  mret (with_threads (with_cta s (th_cta t) (register_deleted_thread c p)) (delete p (threads s)) (next_thread s)).

(** * Making the threads of a block *)

(** The loop of [ptx_sim_init_thread]: each thread gets the block and the index that
    are next. *)
Fixpoint make_threads (fuel : nat) (sm_idx tid : Z) (s : fsim) : outcome fsim :=
  match fuel with
  | O => Err OutOfFuel
  | S f =>
      let k := s_kernel s in
      if more_threads_in_cta k then
        let thd := next_thread s in
        let t := mkThreadInfo (m_next_cta k) (m_next_tid k) (u32 (get_next_thread_id k + tid)) sm_idx false None in
        c ← cta_at s sm_idx;
        let k' := with_active (increment_thread_id k) (m_active_threads k ++ [thd]) in
        make_threads f sm_idx tid
          (mkSim k' (<[thd := t]> (threads s)) (thd + 1) (<[sm_idx := add_thread c thd]> (ptx_cta_lookup s))
             (sm_idx_used s))
      else mret s
  end.

(** [thd->init(...)] of the thread taken from the front of [active_threads]. *)
Definition take_thread (s : fsim) (tid threads_left : Z) : outcome (Z * option Z * fsim) :=
  let k := s_kernel s in
  cassert (zlen (m_active_threads k) <=? threads_left);;
  match m_active_threads k with
  | [] => Err BadAccess
  | thd :: rest =>
      t ← thread_at s thd;
      mret (1, Some thd,
            with_threads (with_kernel_info s (with_active k rest))
              (<[thd := mkThreadInfo (th_ctaid t) (th_tid t) (th_local t) (th_cta t) (th_done t) (Some tid)]> (threads s)) (next_thread s))
  end.

(** The result is the number of threads made (0 or 1), [*thread_info] and the state; a
    block has fewer than [2^32] threads, which bounds the loop. *)
Definition ptx_sim_init_thread (num_shaders : Z) (s : fsim) (thread_info : option Z)
    (sid tid threads_left num_threads : Z) : outcome (Z * option Z * fsim) :=
  s ← match thread_info with
      | None => mret s
      | Some p => t ← thread_at s p; cassert (th_done t);; delete_thread s p
      end;
  match m_active_threads (s_kernel s) with
  | _ :: _ => take_thread s tid threads_left
  | [] =>
      if no_more_ctas_to_run (s_kernel s) then mret (0, None, s)
      else if threads_left <? threads_per_cta (s_kernel s) then mret (0, None, s)
      else
        let cta_size := threads_per_cta (s_kernel s) in
        max_cta_per_sm ← udiv num_threads cta_size;
        cassert (0 <? max_cta_per_sm);;
        q ← udiv tid cta_size;
        let sm_idx := u32 (u32 (q * num_shaders) + sid) in
        s ← match ptx_cta_lookup s !! sm_idx with
            | None => ptx_cta_info_new s sm_idx
            | Some c => c' ← check_cta_thread_status_and_reset s c; mret (with_cta s sm_idx c')
            end;
        s ← make_threads (S (Z.to_nat cta_size)) sm_idx tid s;
        take_thread (with_kernel_info s (increment_cta_id (s_kernel s))) tid threads_left
  end.

(** * A block on the functional core *)

(** The entries of [m_simt_stack], [m_warpAtBarrier] and [m_liveThreadCount] of a warp. *)
Record warp_state := mkWarpState { m_simt : simt_stack; m_warpAtBarrier : bool; m_liveThreadCount : Z }.
Record functionalCoreSim := mkCore { m_thread : list (option Z); m_warps : list warp_state }.

Definition warps_count (threads_per_cta maxWarpSize : Z) : outcome Z :=
  if maxWarpSize =? 0 then Err Undefined else mret ((threads_per_cta + maxWarpSize - 1) / maxWarpSize).

Definition init_slot (num_shaders n : Z) (i : Z) (st : fsim * list (option Z)) : outcome (fsim * list (option Z)) :=
  let '(s, slots) := st in
  slot ← aread slots i;
  '(_, thd, s) ← ptx_sim_init_thread num_shaders s slot 0 i (u32 (n - i)) n;
  slots ← awrite slots i thd;
  match thd with
  | None => Err AssertFailed
  | Some p => t ← thread_at s p; cassert (negb (th_done t));; mret (s, slots)
  end.

(** The mask starts full and loses the lanes without a thread. *)
Definition warp_lane (slots : list (option Z)) (first : Z) (i : Z) (st : Z * Z) : outcome (Z * Z) :=
  let '(mask, live) := st in
  slot ← aread slots i;
  match slot with
  | None => mask ← breset MAX_WARP_SIZE mask (i - first); mret (mask, live)
  | Some _ => mret (mask, live + 1)
  end.
Definition createWarp (maxWarpSize start_pc : Z) (slots : list (option Z)) (warpId : Z) (warps : list warp_state) :
    outcome (list warp_state) :=
  let first := warpId * maxWarpSize in
  '(mask, live) ← for_range first (first + maxWarpSize) (warp_lane slots first) (Z.ones MAX_WARP_SIZE, 0);
  slot ← aread slots first;
  match slot with
  | None => Err AssertFailed
  | Some _ => mret (warps ++ [mkWarpState (SimtStack.launch (simt_stack_new warpId maxWarpSize) start_pc mask) false live])
  end.

Definition initializeCTA (num_shaders maxWarpSize start_pc : Z) (s : fsim) : outcome (fsim * functionalCoreSim) :=
  let n := threads_per_cta (s_kernel s) in
  m_warpsCount ← warps_count n maxWarpSize;
  '(s, slots) ← for_range 0 n (init_slot num_shaders n) (s, replicate (Z.to_nat (m_warpsCount * maxWarpSize)) None);
  warps ← for_range 0 m_warpsCount (createWarp maxWarpSize start_pc slots) [];
  mret (s, mkCore slots warps).

(** The threads of a warp that have not left, by lane. *)
Definition live_thread (s : fsim) (slot : option Z) : option (Z * ptx_thread_info) :=
  p ← slot; t ← threads s !! p; if th_done t then None else Some (p, t).
Definition live_threads (maxWarpSize : Z) (s : fsim) (slots : list (option Z)) (w : Z) : list (Z * ptx_thread_info) :=
  omap (live_thread s) (take (Z.to_nat maxWarpSize) (drop (Z.to_nat (w * maxWarpSize)) slots)).

(** [exit_impl]: [set_done] and [registerExit]; then [checkExecutionStatusAndUpdate]. *)
Definition thread_exit (w : Z) (p : Z) (st : fsim * list warp_state) : outcome (fsim * list warp_state) :=
  let '(s, warps) := st in
  t ← thread_at s p;
  let s := with_threads s (<[p := mkThreadInfo (th_ctaid t) (th_tid t) (th_local t) (th_cta t) true (th_hw t)]> (threads s)) (next_thread s) in
  c ← cta_at s (th_cta t);
  c ← register_thread_exit c p;
  x ← aread warps w;
  warps ← awrite warps w (mkWarpState (m_simt x) (m_warpAtBarrier x) (u32 (m_liveThreadCount x - 1)));
  mret (with_cta s (th_cta t) c, warps).
Fixpoint threads_exit (w : Z) (l : list Z) (st : fsim * list warp_state) : outcome (fsim * list warp_state) :=
  match l with [] => mret st | p :: l' => st ← thread_exit w p st; threads_exit w l' st end.

Section functional.
Context {M : Type}.
Context (warp_instruction : M → simt_stack → list (Z * ptx_thread_info) → outcome (M * simt_stack * bool * list Z)).
Context (num_shaders maxWarpSize start_pc : Z).

(** The state of the loop: [allAtBarrier] and [someOneLive] come last. *)
Definition executeWarp (slots : list (option Z)) (i : Z) (st : M * (fsim * list warp_state) * bool * bool) :
    outcome (M * (fsim * list warp_state) * bool * bool) :=
  let '(m, (s, warps), allAtBarrier, someOneLive) := st in
  x ← aread warps i;
  '(m, (s, warps)) ←
    (if negb (m_warpAtBarrier x) && negb (m_liveThreadCount x =? 0) then
       '(m, stack, barrier, gone) ← warp_instruction m (m_simt x) (live_threads maxWarpSize s slots i);
       '(s, warps) ← threads_exit i gone (s, warps);
       y ← aread warps i;
       warps ← awrite warps i (mkWarpState stack (barrier || m_warpAtBarrier y) (m_liveThreadCount y));
       mret (m, (s, warps))
     else mret (m, (s, warps)));
  x ← aread warps i;
  let someOneLive := (0 <? m_liveThreadCount x) || someOneLive in
  let allAtBarrier := if negb (m_warpAtBarrier x) && (0 <? m_liveThreadCount x) then false else allAtBarrier in
  mret (m, (s, warps), allAtBarrier, someOneLive).

Definition no_barrier (x : warp_state) : warp_state := mkWarpState (m_simt x) false (m_liveThreadCount x).
Fixpoint execute_loop (fuel : nat) (slots : list (option Z)) (m : M) (st : fsim * list warp_state) :
    outcome (M * (fsim * list warp_state)) :=
  match fuel with
  | O => Err OutOfFuel
  | S f =>
      '(m, (s, warps), allAtBarrier, someOneLive) ←
        for_range 0 (zlen st.2) (executeWarp slots) (m, st, true, false);
      if negb someOneLive then mret (m, (s, warps))
      else execute_loop f slots m (s, if allAtBarrier : bool then map no_barrier warps else warps)
  end.

(** The destructor: [warp_exit] deletes every thread. *)
Fixpoint warp_exit (slots : list (option Z)) (s : fsim) : outcome fsim :=
  match slots with
  | [] => mret s
  | None :: l => warp_exit l s
  | Some p :: l => s ← delete_thread s p; warp_exit l s
  end.

(** What was put in the slots: the block, the index and the local memory of each
    thread. *)
Definition placed (s : fsim) (slots : list (option Z)) : list (Z * (dim3 * dim3 * Z)) :=
  omap (fun '(i, slot) => p ← slot; t ← threads s !! p; Some (i, (th_ctaid t, th_tid t, th_local t)))
    (zip (seqZ 0 (zlen slots)) slots).

(** [functionalCoreSim cta(...); cta.execute();] and the end of its life; the result
    shows the block that was run. *)
Definition run_block (fuel : nat) (m : M) (s : fsim) : outcome (list (Z * (dim3 * dim3 * Z)) * M * fsim) :=
  '(s, core) ← initializeCTA num_shaders maxWarpSize start_pc s;
  let made := placed s (m_thread core) in
  '(m, (s, _)) ← execute_loop fuel (m_thread core) m (s, m_warps core);
  s ← warp_exit (m_thread core) s;
  mret (made, m, s).

Fixpoint gpgpu_cuda_ptx_sim_main_func (fuel block_fuel : nat) (m : M) (s : fsim) :
    outcome (list (list (Z * (dim3 * dim3 * Z))) * M * fsim) :=
  match fuel with
  | O => Err OutOfFuel
  | S f =>
      if no_more_ctas_to_run (s_kernel s) then mret ([], m, s)
      else
        '(b, m, s) ← run_block block_fuel m s;
        '(l, m, s) ← gpgpu_cuda_ptx_sim_main_func f block_fuel m s;
        mret (b :: l, m, s)
  end.
End functional.

(** * The threads of a block are made and handed out *)

Section block.
Context (k : kernel_info_t).
Abbreviation b := (m_block_dim k).
Abbreviation V := (volume b).
Context (Hb : dim3_ok b) (Hpos : 0 < V) (Hactive : m_active_threads k = []) (Htid : m_next_tid k = Dim3 0 0 0).
Context (N : Z).  (** the address of the first thread *)
Implicit Types (s : fsim) (p q : Z).

(** Thread [t] of the block; [i] threads are handed out. *)
Definition thread_of (i t : Z) : ptx_thread_info :=
  mkThreadInfo (m_next_cta k) (point b t) t 0 false (if t <? i then Some t else None).
Definition store_of (i p : Z) (m : gmap Z ptx_thread_info) : Prop :=
  forall q, m !! q = if decide (N <= q < N + p) then Some (thread_of i (q - N)) else None.
Record cta_of (p : Z) s : Prop := {
  ct_cta : exists c, ptx_cta_lookup s !! 0 = Some c /\ (forall q, q ∈ m_threads_in_cta c <-> N <= q < N + p) /\
    m_threads_that_have_exited c = ∅ /\ m_dangling_pointers c = ∅;
  ct_used : sm_idx_used s = dom (ptx_cta_lookup s) }.
(** [p] threads are made. *)
Record made p s : Prop := {
  md_kernel : s_kernel s = with_active (at_thread k p) (seqZ N p);
  md_next : next_thread s = N + p;
  md_store : store_of 0 p (threads s);
  md_cta : cta_of p s }.

Lemma store_insert i p m : 0 <= p -> store_of i p m -> i <= p -> store_of i (p + 1) (<[N + p := thread_of i p]> m).
Proof.
  intros Hp Hm Hi q. destruct (decide (q = N + p)) as [->|Hq].
  - rewrite lookup_insert_eq, decide_True by lia. by replace (N + p - N) with p by lia.
  - rewrite lookup_insert_ne, Hm by done. repeat case_decide; try done; lia.
Qed.

Lemma make_threads_spec fuel p s : made p s -> 0 <= p <= V -> V - p < Z.of_nat fuel ->
  exists s', make_threads fuel 0 0 s = Ok s' /\ made V s'.
Proof.
  revert p s. induction fuel as [|f IH]; intros p s Hm Hp Hf; [lia|]. pose proof Hm as [Hk Hn Hst [(c & Hc & Hin & Hx & Hd) Hu]].
  simpl. rewrite Hk. change (more_threads_in_cta (with_active (at_thread k p) _)) with (more_threads_in_cta (at_thread k p)).
  rewrite more_threads_at by done. destruct (Z.ltb_spec p V) as [Hlt|]; [|exists s; split; [done|]; by replace V with p by lia].
  unfold cta_at. rewrite Hc. simpl. apply (IH (p + 1)); [|lia|lia]. split; simpl.
  - change (increment_thread_id (with_active ?x ?l)) with (with_active (increment_thread_id x) l).
    rewrite increment_thread_at by (done || lia). rewrite Hn.
    replace (seqZ N (p + 1)) with (seqZ N p ++ [N + p]); [done|].
    by rewrite seqZ_app by lia.
  - lia.
  - rewrite Hn. change (get_next_thread_id (with_active (at_thread k p) _)) with (get_next_thread_id (at_thread k p)).
    rewrite thread_number by (done || lia). pose proof (volume_nonneg b Hb).
    rewrite Z.add_0_r, uwrap_small by lia.
    replace (mkThreadInfo _ _ _ _ _ _) with (thread_of 0 p); [apply store_insert; [lia|done|lia]|].
    unfold thread_of. rewrite (proj2 (Z.ltb_ge p 0)) by lia. done.
  - split; simpl; [|rewrite Hu, dom_insert_L; apply elem_of_dom_2 in Hc; set_solver].
    eexists. rewrite lookup_insert_eq. split; [done|]. simpl. split_and!; [|done|done].
    intros q. rewrite elem_of_union, elem_of_singleton, Hin, Hn. lia.
Qed.

#[local] Arguments make_threads : simpl never.

(** Between blocks nothing is left of the last one. *)
Record idle s : Prop := {
  id_threads : threads s = ∅;
  id_cta : forall c, ptx_cta_lookup s !! 0 = Some c ->
    m_threads_that_have_exited c = m_threads_in_cta c /\ m_threads_in_cta c ⊆ m_dangling_pointers c;
  id_used : sm_idx_used s = dom (ptx_cta_lookup s) }.

Lemma nobody_running s d l : (forall p, p ∈ l -> p ∈ d) -> some_running s d l = Ok false.
Proof.
  induction l as [|p l IH]; intros Hl; [done|]. simpl. rewrite bool_decide_eq_true_2 by (apply Hl; left). simpl.
  rewrite IH; [done|]. intros q Hq. apply Hl. by right.
Qed.

(** [i] threads are handed out, and the kernel has moved on to [k']. *)
Record handed k' (i : Z) s (slots : list (option Z)) : Prop := {
  hd_kernel : s_kernel s = with_active k' (seqZ (N + i) (V - i));
  hd_store : store_of i V (threads s);
  hd_cta : cta_of V s;
  hd_next : next_thread s = N + V;
  hd_slots : forall j, 0 <= j < zlen slots -> zread slots j = Some (if j <? i then Some (N + j) else None) }.

(** Handing out the front of the list. *)
Lemma take_thread_spec k' i s slots : 0 <= i < V -> handed k' i s slots -> V <= zlen slots ->
  exists s', take_thread s i (V - i) = Ok (1, Some (N + i), s') /\ handed k' (i + 1) s' (zwrite slots i (Some (N + i))).
Proof.
  intros Hi [Hk Hst Hc Hn Hsl] Hlen. unfold take_thread. rewrite Hk. cbn [m_active_threads with_active].
  assert (zlen (seqZ (N + i) (V - i)) = V - i) as -> by (unfold zlen; rewrite length_seqZ; lia).
  rewrite Z.leb_refl, seqZ_cons by lia. simpl. unfold thread_at. rewrite Hst, decide_True by lia. simpl.
  eexists. split; [done|]. split; simpl; try done.
  - replace (Z.succ (N + i)) with (N + (i + 1)) by lia. by replace (Z.pred (V - i)) with (V - (i + 1)) by lia.
  - intros q. unfold thread_of. destruct (decide (q = N + i)) as [->|Hq].
    + rewrite lookup_insert_eq, decide_True by lia. simpl. replace (N + i - N) with i by lia.
      by rewrite (proj2 (Z.ltb_lt i (i + 1))) by lia.
    + rewrite lookup_insert_ne, Hst by done. case_decide; [|done]. unfold thread_of. do 2 f_equal.
      destruct (Z.ltb_spec (q - N) i), (Z.ltb_spec (q - N) (i + 1)); done || lia.
  - by destruct Hc; split.
  - rewrite zlen_zwrite. intros j Hj. rewrite zread_zwrite by lia. destruct (Z.eqb_spec i j) as [<-|Hne].
    + by rewrite (proj2 (Z.ltb_lt i (i + 1))) by lia.
    + rewrite Hsl by done. destruct (Z.ltb_spec j i), (Z.ltb_spec j (i + 1)); done || lia.
Qed.
Context (num_shaders : Z) (Hmore : no_more_ctas_to_run k = false).
Abbreviation k1 := (increment_cta_id (at_thread k V)).

Lemma first_thread s slots : idle s -> s_kernel s = k -> next_thread s = N -> V <= zlen slots ->
  (forall j, 0 <= j < zlen slots -> zread slots j = Some None) ->
  exists s', ptx_sim_init_thread num_shaders s None 0 0 V V = Ok (1, Some N, s') /\ handed k1 1 s' (zwrite slots 0 (Some N)).
Proof.
  intros [Ht Hc Hu] Hk Hn Hlen Hsl. unfold ptx_sim_init_thread. simpl. rewrite Hk, Hactive, Hmore.
  unfold threads_per_cta. rewrite dim3_count_ok, Z.ltb_irrefl by done. unfold udiv.
  rewrite !(proj2 (Z.eqb_neq V 0)) by lia. simpl. rewrite Z.div_same by lia. simpl. rewrite Z.div_0_l by lia.
  change (u32 (u32 (0 * num_shaders) + 0)) with 0.
  assert (exists s1, match ptx_cta_lookup s !! 0 with
    | Some c => c' ← check_cta_thread_status_and_reset s c; mret (with_cta s 0 c')
    | None => ptx_cta_info_new s 0 end = Ok s1 /\ made 0 s1) as (s1 & -> & Hm).
  { assert (k = with_active (at_thread k 0) (seqZ N 0)) as Ek.
    { unfold at_thread. rewrite point_0, <- Htid, seqZ_nil, <- Hactive by lia. by destruct k. }
    destruct (ptx_cta_lookup s !! 0) as [c|] eqn:El.
    - destruct (Hc c eq_refl) as [Hx Hd]. unfold check_cta_thread_status_and_reset. rewrite Hx, bool_decide_eq_true_2 by done. simpl.
      rewrite nobody_running by (intros p Hp%elem_of_elements; set_solver). simpl. eexists. split; [done|].
      split; simpl; [congruence|lia|intros q; rewrite Ht, decide_False by lia; by rewrite lookup_empty|]. split; simpl.
      + eexists. rewrite lookup_insert_eq. split; [done|]. simpl. split_and!; [|done|done]. intros q. rewrite elem_of_empty. lia.
      + rewrite Hu, dom_insert_L. apply elem_of_dom_2 in El. set_solver.
    - unfold ptx_cta_info_new. rewrite Hu, bool_decide_eq_true_2 by (by apply not_elem_of_dom). simpl. eexists. split; [done|].
      split; simpl; [congruence|lia|intros q; rewrite Ht, decide_False by lia; by rewrite lookup_empty|]. split; simpl.
      + eexists. rewrite lookup_insert_eq. split; [done|]. simpl. split_and!; [|done|done]. intros q. rewrite elem_of_empty. lia.
      + rewrite dom_insert_L. done. }
  rewrite bind_of_ok. destruct (make_threads_spec (S (Z.to_nat V)) 0 s1 Hm ltac:(lia) ltac:(lia)) as (s2 & E2 & [K2 N2 St2 C2]).
  rewrite E2, bind_of_ok.
  destruct (take_thread_spec k1 0 (with_kernel_info s2 (increment_cta_id (s_kernel s2))) slots) as (s' & E & Hh); [lia| |done|].
  - split; simpl; [|done|by destruct C2; split|done|].
    + rewrite K2, Z.add_0_r, Z.sub_0_r. done.
    + intros j Hj. rewrite Hsl by done. by rewrite (proj2 (Z.ltb_ge j 0)) by lia.
  - rewrite Z.sub_0_r, Z.add_0_r in *. by exists s'.
Qed.

Lemma next_slot i s slots : 0 < i < V -> handed k1 i s slots -> V <= zlen slots ->
  exists s' slots', init_slot num_shaders V i (s, slots) = Ok (s', slots') /\ handed k1 (i + 1) s' slots' /\ zlen slots' = zlen slots.
Proof.
  intros Hi Hh Hlen. unfold init_slot. pose proof (hd_slots _ _ _ _ Hh i ltac:(lia)) as Es. rewrite Z.ltb_irrefl in Es.
  rewrite (proj2 (aread_ok _ _ _) Es), bind_of_ok. unfold ptx_sim_init_thread. simpl.
  rewrite (hd_kernel _ _ _ _ Hh). simpl. rewrite seqZ_cons by lia.
  pose proof (volume_nonneg b Hb). rewrite (uwrap_small 32) by lia.
  destruct (take_thread_spec k1 i s slots ltac:(lia) Hh Hlen) as (s' & -> & Hh'). simpl. rewrite awrite_in by lia. simpl.
  unfold thread_at. rewrite (hd_store _ _ _ _ Hh'), decide_True by lia. simpl. exists s'. eexists. split; [done|].
  split; [done|]. by rewrite zlen_zwrite.
Qed.

Lemma init_slots s slots : idle s -> s_kernel s = k -> next_thread s = N -> V <= zlen slots ->
  (forall j, 0 <= j < zlen slots -> zread slots j = Some None) ->
  exists s' slots', for_range 0 V (init_slot num_shaders V) (s, slots) = Ok (s', slots') /\ handed k1 V s' slots' /\ zlen slots' = zlen slots.
Proof.
  intros Hid Hk Hn Hlen Hsl. destruct (first_thread s slots Hid Hk Hn Hlen Hsl) as (s1 & E1 & H1).
  edestruct (for_range_inv (fun i (st : fsim * list (option Z)) => if i =? 0 then st = (s, slots) else
    handed k1 i st.1 st.2 /\ zlen st.2 = zlen slots) 0 V (init_slot num_shaders V) (s, slots)) as ([s' slots'] & E & H); [lia|done| |].
  - intros i [u l] Hi. destruct (Z.eqb_spec i 0) as [->|Hne].
    + intros [= -> ->]. unfold init_slot. rewrite (proj2 (aread_ok _ _ _) (Hsl 0 ltac:(lia))), bind_of_ok.
      pose proof (volume_nonneg b Hb). rewrite Z.sub_0_r, (uwrap_small 32) by lia. rewrite E1, bind_of_ok. simpl.
      rewrite awrite_in by lia. simpl. unfold thread_at. rewrite (hd_store _ _ _ _ H1), decide_True by lia. simpl.
      eexists. split; [done|]. simpl. by rewrite zlen_zwrite.
    + intros [Hh Hz]. simpl in *. destruct (next_slot i u l) as (u' & l' & E & Hh' & Hz'); [lia|done|lia|].
      exists (u', l'). split; [done|]. rewrite (proj2 (Z.eqb_neq (i + 1) 0)) by lia. simpl. split; [done|lia].
  - rewrite (proj2 (Z.eqb_neq V 0)) in H by lia. simpl in H. exists s', slots'. destruct H. done.
Qed.
End block.

(** * The warps of a block *)

Section warps.
Context (maxWarpSize : Z) (Hws : 0 < maxWarpSize <= MAX_WARP_SIZE).
Implicit Types (s : fsim) (slots : list (option Z)) (warps : list warp_state).

(** Each thread has one slot, and every thread that is there has not left. *)
Definition all_live s slots : Prop :=
  forall j p, zread slots j = Some (Some p) -> exists t, threads s !! p = Some t /\ th_done t = false.

Lemma live_thread_some s slot p t : live_thread s slot = Some (p, t) <-> slot = Some p /\ threads s !! p = Some t /\ th_done t = false.
Proof.
  unfold live_thread. destruct slot as [q|]; simpl; [|by split; [|intros (? & _)]].
  destruct (threads s !! q) as [u|] eqn:E; simpl.
  - destruct (th_done u) eqn:Hd; split.
    + done.
    + intros ([= ->] & Ht & Hn). congruence.
    + by intros [= <- <-].
    + intros ([= ->] & Ht & Hn). congruence.
  - split; [done|]. intros ([= ->] & Ht & _). congruence.
Qed.

Lemma warp_lanes s slots first : all_live s slots -> 0 <= first -> first + maxWarpSize <= zlen slots ->
  exists mask, for_range first (first + maxWarpSize) (warp_lane slots first) (Z.ones MAX_WARP_SIZE, 0) =
    Ok (mask, zlen (omap (live_thread s) (take (Z.to_nat maxWarpSize) (drop (Z.to_nat first) slots)))).
Proof.
  intros Hal Hf Hlen. edestruct (for_range_inv (fun i (st : Z * Z) =>
    st.2 = zlen (omap (live_thread s) (take (Z.to_nat (i - first)) (drop (Z.to_nat first) slots)))) first (first + maxWarpSize)
    (warp_lane slots first) (Z.ones MAX_WARP_SIZE, 0)) as ([mask live] & E & H); [lia|by rewrite Z.sub_diag| |].
  - intros i [mask live] Hi E. simpl in E. unfold warp_lane. destruct (zread_is_some slots i) as [slot Hs]; [lia|].
    rewrite (proj2 (aread_ok _ _ _) Hs), bind_of_ok.
    assert (omap (live_thread s) (take (Z.to_nat (i + 1 - first)) (drop (Z.to_nat first) slots)) =
      omap (live_thread s) (take (Z.to_nat (i - first)) (drop (Z.to_nat first) slots)) ++ option_list (live_thread s slot)) as Et.
    { replace (Z.to_nat (i + 1 - first)) with (S (Z.to_nat (i - first))) by lia.
      rewrite (take_S_r _ _ slot), omap_app; [simpl; by destruct (live_thread s slot)|].
      rewrite lookup_drop. rewrite zread_lookup in Hs by lia. by replace (Z.to_nat first + Z.to_nat (i - first))%nat with (Z.to_nat i) by lia. }
    destruct slot as [p|].
    + destruct (Hal i p Hs) as (t & Ht & Hd). rewrite (proj2 (live_thread_some s (Some p) p t)) in Et by done.
      eexists. split; [done|]. simpl. by rewrite Et, E, zlen_app.
    + unfold breset. unfold MAX_WARP_SIZE in *. rewrite (proj2 (Z.leb_le _ _)), (proj2 (Z.ltb_lt _ _)) by lia. simpl.
      eexists. split; [done|]. simpl. rewrite Et, E, zlen_app. simpl. unfold zlen. simpl. lia.
  - simpl in H. rewrite E, H. exists mask. by replace (first + maxWarpSize - first) with maxWarpSize by lia.
Qed.

(** What holds of the warps when the block starts. *)
Definition fresh_warps s slots n warps : Prop :=
  zlen warps = n /\ forall w x, zread warps w = Some x ->
    m_warpAtBarrier x = false /\ m_liveThreadCount x = zlen (live_threads maxWarpSize s slots w).

Lemma create_warps s slots n start_pc : all_live s slots -> 0 <= n -> zlen slots = n * maxWarpSize ->
  (forall w, 0 <= w < n -> exists p, zread slots (w * maxWarpSize) = Some (Some p)) ->
  exists warps, for_range 0 n (createWarp maxWarpSize start_pc slots) [] = Ok warps /\ fresh_warps s slots n warps.
Proof.
  intros Hal Hn Hlen Hfirst. apply (for_range_inv (fresh_warps s slots)); [lia|split; [done|]|].
  - intros w x Hx. apply zread_range in Hx. by unfold zlen in Hx; simpl in Hx; lia.
  - intros w warps Hw [Hz Hl]. unfold createWarp.
    destruct (warp_lanes s slots (w * maxWarpSize)) as (mask & ->); [done|lia|nia|]. rewrite bind_of_ok.
    destruct (Hfirst w Hw) as (p & Hp). rewrite (proj2 (aread_ok _ _ _) Hp), bind_of_ok. eexists. split; [done|]. split.
    + rewrite zlen_app. unfold zlen at 2. simpl. lia.
    + intros v x. rewrite zread_app. case_match; [apply Hl|]. intros Hx. pose proof (zread_range _ _ _ Hx) as Hr.
      change (zlen [_]) with 1 in Hr. replace (v - zlen warps) with 0 in Hx by lia. injection Hx as <-. simpl.
      split; [done|]. unfold live_threads. by replace v with w by lia.
Qed.
(** ** A block that runs *)

Abbreviation live := (live_threads maxWarpSize).

Record on_core (kr : kernel_info_t) s slots warps : Prop := {
  oc_kernel : s_kernel s = kr;
  oc_once : forall i j p, zread slots i = Some (Some p) -> zread slots j = Some (Some p) -> i = j;
  oc_store : forall p, is_Some (threads s !! p) <-> exists j, zread slots j = Some (Some p);
  oc_zero : forall p t, threads s !! p = Some t -> th_cta t = 0;
  oc_cta : exists c, ptx_cta_lookup s !! 0 = Some c /\ (forall p, p ∈ m_threads_in_cta c <-> is_Some (threads s !! p)) /\
    (forall p, p ∈ m_threads_that_have_exited c <-> exists t, threads s !! p = Some t /\ th_done t = true) /\ m_dangling_pointers c = ∅;
  oc_used : sm_idx_used s = dom (ptx_cta_lookup s);
  oc_size : zlen slots = zlen warps * maxWarpSize;
  oc_count : forall w x, zread warps w = Some x -> m_liveThreadCount x = zlen (live s slots w) }.

Lemma elem_live s slots w p t : 0 <= w ->
  (p, t) ∈ live s slots w <-> exists j, w * maxWarpSize <= j < w * maxWarpSize + maxWarpSize /\ zread slots j = Some (Some p) /\
    threads s !! p = Some t /\ th_done t = false.
Proof using Hws.
  intros Hw. unfold live_threads. rewrite list_elem_of_omap. split.
  - intros (slot & (i & Hi & Hlt)%elem_of_take & (-> & Ht & Hd)%live_thread_some). rewrite lookup_drop in Hi.
    exists (w * maxWarpSize + Z.of_nat i). split_and!; try done; try lia. rewrite zread_lookup by nia.
    rewrite <- Hi. f_equal. nia.
  - intros (j & Hj & Hr & Ht & Hd). exists (Some p). split; [|by apply live_thread_some].
    apply elem_of_take. exists (Z.to_nat (j - w * maxWarpSize)). rewrite lookup_drop. split; [|lia].
    rewrite zread_lookup in Hr by nia. rewrite <- Hr. f_equal. nia.
Qed.

Lemma live_once s (l : list (option Z)) : (forall i j p, l !! i = Some (Some p) -> l !! j = Some (Some p) -> i = j) ->
  NoDup (omap (live_thread s) l).*1.
Proof.
  induction l as [|x l IH]; intros Ho; simpl; [constructor|].
  assert (NoDup (omap (live_thread s) l).*1) as Hl.
  { apply IH. intros i j p Hi Hj. by specialize (Ho (S i) (S j) p Hi Hj) as [= ->]. }
  destruct (live_thread s x) as [[p t]|] eqn:E; [|done]. apply live_thread_some in E as (-> & _). simpl. constructor; [|done].
  intros ([q u] & Eq & (y & Hy & Ey)%list_elem_of_omap)%list_elem_of_fmap. simpl in Eq. subst q.
  apply live_thread_some in Ey as (-> & _). apply list_elem_of_lookup in Hy as [i Hi]. by specialize (Ho 0%nat (S i) p eq_refl Hi).
Qed.
Lemma live_nodup kr s slots warps w : on_core kr s slots warps -> 0 <= w -> NoDup (live s slots w).*1.
Proof using Hws.
  intros Ho Hw. apply live_once. intros i j p Hi Hj. apply lookup_take_Some in Hi as [Hi _], Hj as [Hj _].
  rewrite lookup_drop in Hi, Hj. rewrite <- !zread_of_nat in Hi, Hj. pose proof (oc_once _ _ _ _ Ho _ _ _ Hi Hj). lia.
Qed.

Lemma live_size s slots w : zlen (live s slots w) <= maxWarpSize.
Proof using Hws.
  assert (forall l : list (option Z), (length (omap (live_thread s) l) <= length l)%nat) as H.
  { induction l as [|x l IH]; [done|]. change (omap (live_thread s) (x :: l)) with
      (match live_thread s x with Some y => y :: omap (live_thread s) l | None => omap (live_thread s) l end).
    destruct (live_thread s x); simpl length; lia. }
  unfold zlen, live_threads. set (l := take _ _). specialize (H l).
  assert (length l <= Z.to_nat maxWarpSize)%nat by (unfold l; rewrite length_take; apply Nat.le_min_l). lia.
Qed.

(** A thread that leaves. *)
Definition left_thread (t : ptx_thread_info) : ptx_thread_info :=
  mkThreadInfo (th_ctaid t) (th_tid t) (th_local t) (th_cta t) true (th_hw t).
Lemma live_left s s' slots w p t : threads s' = <[p := left_thread t]> (threads s) ->
  live s' slots w = filter (fun y => y.1 <> p) (live s slots w).
Proof.
  intros E. unfold live_threads. induction (take _ _) as [|x l IH]; simpl; [done|].
  assert (live_thread s' x = match live_thread s x with Some y => if decide (y.1 = p) then None else Some y | None => None end) as ->.
  { unfold live_thread. destruct x as [q|]; simpl; [|done]. rewrite E. destruct (decide (q = p)) as [->|Hq].
    - rewrite lookup_insert_eq. simpl. destruct (threads s !! p) as [u|]; simpl; [|done]. destruct (th_done u); [done|]. simpl. by rewrite decide_True.
    - rewrite lookup_insert_ne by done. destruct (threads s !! q) as [u|]; simpl; [|done]. destruct (th_done u); [done|]. simpl. by rewrite decide_False. }
  destruct (live_thread s x) as [y|]; simpl; [|done]. rewrite filter_cons. case_decide as Hy; case_decide as Hn; try done. by f_equal.
Qed.
Lemma filter_id (P : Z * ptx_thread_info → Prop) `{!forall y, Decision (P y)} (l : list (Z * ptx_thread_info)) :
  (forall y, y ∈ l -> P y) -> filter P l = l.
Proof.
  induction l as [|x l IH]; intros Hy; [done|]. rewrite filter_cons, decide_True by (apply Hy; left).
  f_equal. apply IH. intros y Hin. apply Hy. by right.
Qed.
Lemma filter_once (l : list (Z * ptx_thread_info)) p t : NoDup l.*1 -> (p, t) ∈ l ->
  zlen (filter (fun y => y.1 <> p) l) = zlen l - 1.
Proof.
  induction l as [|[q u] l IH]; intros Hn Hin; [by apply not_elem_of_nil in Hin|]. simpl in Hn. apply NoDup_cons in Hn as [Hq Hn].
  rewrite filter_cons. simpl. case_decide as Hd.
  - apply elem_of_cons in Hin as [[= <- <-]|Hin]; [done|]. unfold zlen in *. simpl. specialize (IH Hn Hin). lia.
  - subst q. rewrite filter_id; [unfold zlen; simpl; lia|]. intros y Hy E. apply Hq. apply list_elem_of_fmap. by exists y.
Qed.

Lemma live_elsewhere kr s slots warps v w p t : on_core kr s slots warps -> 0 <= v -> 0 <= w -> v <> w -> (p, t) ∈ live s slots w ->
  filter (fun y => y.1 <> p) (live s slots v) = live s slots v.
Proof using Hws.
  intros Ho Hv Hw Hne (j & Hj & Hr & _)%elem_live; [|done]. apply filter_id. intros [q u] Hq E. simpl in E. subst q.
  apply elem_live in Hq as (i & Hi & Hr' & _); [|done]. pose proof (oc_once _ _ _ _ Ho _ _ _ Hr Hr'). nia.
Qed.

(** Only the count of warp [w] differs. *)
Definition only_count (w : Z) warps warps' : Prop :=
  (forall v, v <> w -> zread warps' v = zread warps v) /\
  (forall x, zread warps w = Some x -> exists n, zread warps' w = Some (mkWarpState (m_simt x) (m_warpAtBarrier x) n)).

Lemma thread_exit_spec kr s slots warps w p t : on_core kr s slots warps -> 0 <= w < zlen warps -> (p, t) ∈ live s slots w ->
  exists s' warps', thread_exit w p (s, warps) = Ok (s', warps') /\ on_core kr s' slots warps' /\ zlen warps' = zlen warps /\
    (forall v, 0 <= v -> live s' slots v = if v =? w then filter (fun y => y.1 <> p) (live s slots v) else live s slots v) /\
    only_count w warps warps'.
Proof using Hws.
  intros Ho Hw Hin. pose proof Hin as (j & Hj & Hr & Ht & Hd)%elem_live; [|lia]. pose proof (oc_zero _ _ _ _ Ho p t Ht) as Hz.
  unfold thread_exit, thread_at, cta_at. rewrite Ht, bind_of_ok. cbn [ptx_cta_lookup with_threads]. rewrite Hz.
  pose proof (oc_cta _ _ _ _ Ho) as (c & Hc & Hic & Hex & Hdg). rewrite Hc, bind_of_ok.
  unfold register_thread_exit. rewrite bool_decide_eq_true_2 by (rewrite Hex; intros (u & Hu & Hdu); congruence). simpl.
  destruct (aread_in warps w Hw) as (x & Hx & Ex). unfold aread in *. rewrite Hx, bind_of_ok, awrite_in, bind_of_ok by done.
  assert (forall v, 0 <= v -> filter (fun y => y.1 <> p) (live s slots v) = if v =? w then filter (fun y => y.1 <> p) (live s slots v) else live s slots v) as Hfl.
  { intros v Hv. destruct (Z.eqb_spec v w) as [->|Hne]; [done|]. apply (live_elsewhere kr s slots warps v w p t); [done|done|lia|done|done]. }
  pose proof (live_size s slots w). pose proof (filter_once _ p t (live_nodup _ _ _ _ w Ho ltac:(lia)) Hin) as Hcnt.
  pose proof (zlen_nonneg (filter (fun y => y.1 <> p) (live s slots w))).
  eexists _, _. split; [done|]. split_and!; [split; simpl|by rewrite zlen_zwrite| |].
  - apply (oc_kernel _ _ _ _ Ho).
  - apply (oc_once _ _ _ _ Ho).
  - intros q. rewrite <- (oc_store _ _ _ _ Ho). destruct (decide (q = p)) as [->|]; [rewrite lookup_insert_eq, Ht; by split|by rewrite lookup_insert_ne].
  - intros q u. rewrite lookup_insert. case_decide; [by intros [= <-]|apply (oc_zero _ _ _ _ Ho)].
  - eexists. rewrite lookup_insert_eq. split; [done|]. simpl. split_and!; [| |done].
    + intros q. rewrite Hic, lookup_insert. case_decide; [subst q; by rewrite Ht|done].
    + intros q. rewrite elem_of_union, elem_of_singleton, Hex, lookup_insert. case_decide as E; [subst q|].
      * split; [intros _; by eexists|auto].
      * split; [intros [?|?]; [congruence|done]|auto].
  - rewrite (oc_used _ _ _ _ Ho), dom_insert_L. apply elem_of_dom_2 in Hc. set_solver.
  - rewrite zlen_zwrite. apply (oc_size _ _ _ _ Ho).
  - intros v y. rewrite zread_zwrite by done. intros Hy. rewrite (live_left s _ slots v p t) by (simpl; unfold left_thread; by rewrite Hz). rewrite Hfl.
    2: { destruct (Z.eqb_spec w v); [lia|]. apply zread_range in Hy. lia. }
    destruct (Z.eqb_spec w v) as [<-|Hne].
    + injection Hy as <-. simpl. rewrite (oc_count _ _ _ _ Ho w x Hx), Z.eqb_refl. unfold MAX_WARP_SIZE in *.
      rewrite uwrap_small by lia. lia.
    + rewrite (proj2 (Z.eqb_neq v w)) by done. by apply (oc_count _ _ _ _ Ho).
  - intros v Hv. rewrite (live_left s _ slots v p t) by (simpl; unfold left_thread; by rewrite Hz). by apply Hfl.
  - split; [intros v Hv; by rewrite zread_zwrite_ne|]. intros y Hy. assert (y = x) as -> by congruence.
    eexists. by apply zread_zwrite_eq.
Qed.
Lemma threads_exit_spec kr slots w ex s warps : NoDup ex -> on_core kr s slots warps -> 0 <= w < zlen warps -> ex ⊆ (live s slots w).*1 ->
  exists s' warps', threads_exit w ex (s, warps) = Ok (s', warps') /\ on_core kr s' slots warps' /\ zlen warps' = zlen warps /\
    (forall v, 0 <= v -> live s' slots v = if v =? w then filter (fun y => y.1 ∉ ex) (live s slots v) else live s slots v) /\
    only_count w warps warps'.
Proof using Hws.
  revert s warps. induction ex as [|p ex IH]; intros s warps Hn Ho Hw Hsub.
  { exists s, warps. split_and!; try done; [|split; [done|]; intros x Hx; exists (m_liveThreadCount x); by destruct x]. intros v _. destruct (v =? w); [|done]. rewrite filter_id; [done|]. intros y _. apply not_elem_of_nil. }
  apply NoDup_cons in Hn as [Hp Hn]. assert (p ∈ (live s slots w).*1) as ([q t] & E & Hin)%list_elem_of_fmap by (apply Hsub; left).
  simpl in E. subst q. destruct (thread_exit_spec kr s slots warps w p t Ho Hw Hin) as (s1 & w1 & E1 & Ho1 & Hz1 & Hl1 & Hx1).
  simpl. unfold thread_exit in E1 |- *. rewrite E1, bind_of_ok.
  destruct (IH s1 w1) as (s2 & w2 & E2 & Ho2 & Hz2 & Hl2 & Hx2); [done|done|lia| |].
  { intros q Hq. assert (q ∈ (live s slots w).*1) as ([q' u] & E & Hi)%list_elem_of_fmap by (apply Hsub; by right). simpl in E. subst q'.
    apply list_elem_of_fmap. exists (q, u). split; [done|]. rewrite Hl1, Z.eqb_refl by lia. apply list_elem_of_filter. split; [|done]. simpl. by intros ->. }
  exists s2, w2. split_and!; [done|done|lia| |].
  - intros v Hv. rewrite Hl2, Hl1 by done. destruct (v =? w); [|done]. rewrite list_filter_filter. apply list_filter_iff. intros y. rewrite not_elem_of_cons. tauto.
  - destruct Hx1 as [A1 B1], Hx2 as [A2 B2]. split; [intros v Hv; by rewrite A2, A1|]. intros x Hx.
    destruct (B1 x Hx) as (n1 & H1). by destruct (B2 _ H1) as (n2 & H2); simpl in H2; exists n2.
Qed.

(** ** Running the warps in turn *)

(** The warps as the machine sees them: the stack, whether it waits at the barrier, the
    threads that have not left. *)
Abbreviation warp_view := (simt_stack * bool * list (Z * ptx_thread_info))%type.
Definition view s slots warps : list warp_view :=
  imap (fun w x => (m_simt x, m_warpAtBarrier x, live s slots (Z.of_nat w))) warps.
Definition some_live (v : list warp_view) : Prop := exists x, x ∈ v /\ x.2 <> [].
Definition all_waiting (v : list warp_view) : Prop := forall x, x ∈ v -> x.2 <> [] -> x.1.2 = true.

Context {M : Type}.
Context (warp_instruction : M → simt_stack → list (Z * ptx_thread_info) → outcome (M * simt_stack * bool * list Z)).

(** In whatever order the warps take their turns, minding the barriers, their
    instructions go through and all threads have left after at most [n] steps, the
    machine then being as [Q] says. *)
Fixpoint ends_within (n : nat) (Q : M → Prop) (m : M) (v : list warp_view) : Prop :=
  ~ some_live v /\ Q m \/
  match n with
  | O => False
  | S n' =>
      some_live v /\
      (forall w st l, zread v w = Some (st, false, l) -> l <> [] ->
         exists m' st' barrier gone, warp_instruction m st l = Ok (m', st', barrier, gone) /\ NoDup gone /\ gone ⊆ l.*1 /\
           ends_within n' Q m' (zwrite v w (st', barrier, filter (fun y => y.1 ∉ gone) l))) /\
      (all_waiting v -> ends_within n' Q m (map (fun x => (x.1.1, false, x.2)) v))
  end.

Lemma zread_view s slots warps w : zread (view s slots warps) w =
  (fun x => (m_simt x, m_warpAtBarrier x, live s slots w)) <$> zread warps w.
Proof.
  unfold view. rewrite zread_imap. destruct (zread warps w) as [x|] eqn:E; [|done]. simpl.
  apply zread_range in E. by rewrite Z2Nat.id by lia.
Qed.

(** A warp that is to run. *)
Definition runnable (x : warp_state) : Prop := m_warpAtBarrier x = false /\ 0 < m_liveThreadCount x.
#[local] Instance runnable_dec x : Decision (runnable x).
Proof. unfold runnable. apply _. Defined.

Lemma on_core_write kr s slots warps i y z : on_core kr s slots warps -> zread warps i = Some y -> m_liveThreadCount z = m_liveThreadCount y ->
  on_core kr s slots (zwrite warps i z).
Proof.
  intros Ho Hy Hz. split; try apply Ho; [by rewrite zlen_zwrite; apply Ho|]. pose proof (zread_range _ _ _ Hy). intros w x. rewrite zread_zwrite by done.
  destruct (Z.eqb_spec i w) as [<-|]; [intros [= <-]; rewrite Hz|]; apply (oc_count _ _ _ _ Ho); done.
Qed.
Lemma warps_view_write s s' slots warps warps' i st bar c l : 0 <= i < zlen warps -> zlen warps' = zlen warps ->
  (forall v, v <> i -> zread warps' v = zread warps v) ->
  (forall v, 0 <= v -> live s' slots v = if v =? i then l else live s slots v) ->
  view s' slots (zwrite warps' i (mkWarpState st bar c)) = zwrite (view s slots warps) i (st, bar, l).
Proof.
  intros Hi Hz Hsame Hl. assert (forall a b, zlen (view a slots b) = zlen b) as Hv by (intros; apply zlen_imap).
  apply zread_ext; [by rewrite zlen_zwrite, !Hv, zlen_zwrite|]. intros v Hr. rewrite zread_view, !zread_zwrite by (rewrite ?Hv; lia).
  rewrite zread_view. destruct (Z.eqb_spec i v) as [<-|Hne]; simpl; [by rewrite Hl, Z.eqb_refl by lia|].
  rewrite Hsame by done. rewrite Hl, (proj2 (Z.eqb_neq v i)) by lia. done.
Qed.

Lemma executeWarp_spec kr n Q slots i m s warps al so : on_core kr s slots warps -> 0 <= i < zlen warps ->
  ends_within n Q m (view s slots warps) ->
  exists n' m' s' warps' x, executeWarp warp_instruction maxWarpSize slots i (m, (s, warps), al, so) =
      Ok (m', (s', warps'), if decide (runnable x) then false else al, (0 <? m_liveThreadCount x) || so) /\
    on_core kr s' slots warps' /\ zlen warps' = zlen warps /\ ends_within n' Q m' (view s' slots warps') /\ (n' <= n)%nat /\
    zread warps' i = Some x /\ (forall v, v <> i -> zread warps' v = zread warps v) /\ (n' = n -> ~ runnable x).
Proof using Hws.
  intros Ho Hi He. unfold executeWarp. destruct (aread_in warps i Hi) as (x & Hx & Ex). rewrite Ex, bind_of_ok.
  pose proof (oc_count _ _ _ _ Ho i x Hx) as Hcx. pose proof (zlen_nonneg (live s slots i)).
  assert (forall y, (if negb (m_warpAtBarrier y) && (0 <? m_liveThreadCount y) then false else al) = if decide (runnable y) then false else al) as Hal.
  { intros y. case_decide as Hr; unfold runnable in Hr; destruct (m_warpAtBarrier y), (Z.ltb_spec 0 (m_liveThreadCount y)); simpl; try done; exfalso; intuition (congruence || lia). }
  destruct (negb (m_warpAtBarrier x) && negb (m_liveThreadCount x =? 0)) eqn:Hrun.
  - apply andb_true_iff in Hrun as [Hbar%negb_true_iff Hne%negb_true_iff%Z.eqb_neq].
    assert (live s slots i <> []) as Hl by (intros E; rewrite E in Hcx; done).
    assert (zread (view s slots warps) i = Some (m_simt x, false, live s slots i)) as Hv by (rewrite zread_view, Hx; simpl; by rewrite Hbar).
    destruct n as [|n]; simpl in He.
    { destruct He as [[Hns _]|[]]. exfalso. apply Hns. eexists. split; [by eapply zread_elem_of|done]. }
    destruct He as [[Hns _]|(_ & He & _)]; [exfalso; apply Hns; eexists; split; [by eapply zread_elem_of|done]|].
    destruct (He i _ _ Hv Hl) as (m' & st' & bar & gone & -> & Hnd & Hsub & He'). rewrite bind_of_ok.
    destruct (threads_exit_spec kr slots i gone s warps Hnd Ho Hi Hsub) as (s' & w' & E & Ho' & Hz' & Hl' & Hx'). rewrite E, bind_of_ok.
    destruct (aread_in w' i) as (y & Hy & Ey); [lia|]. rewrite Ey, bind_of_ok, awrite_in, !bind_of_ok by lia.
    destruct Hx' as [Hsame Hcnt]. destruct (Hcnt x Hx) as (c & Hc). rewrite Hy in Hc. injection Hc as ->. simpl.
    rewrite Hbar, orb_false_r.
    set (z := mkWarpState st' bar c).
    assert (zread (zwrite w' i z) i = Some z) as Hzi by (apply zread_zwrite_eq; lia).
    rewrite (proj2 (aread_ok _ _ _) Hzi), bind_of_ok. exists n, m', s', (zwrite w' i z), z.
    split; [by rewrite Hal|]. split_and!; [by eapply on_core_write| by rewrite zlen_zwrite| |lia|done| |lia].
    + unfold z. erewrite warps_view_write; [exact He'|lia|done|done|].
      intros v Hv0. rewrite Hl' by done. by destruct (Z.eqb_spec v i) as [->|].
    + intros v Hv0. by rewrite zread_zwrite_ne, Hsame.
  - rewrite bind_of_ok, Ex, bind_of_ok. exists n, m, s, warps, x. split; [by rewrite Hal|].
    split_and!; try done. intros _ [Hb Hl]. rewrite Hb in Hrun. simpl in Hrun. apply negb_false_iff, Z.eqb_eq in Hrun. lia.
Qed.

(** A round of the loop. *)
Lemma warp_round_spec kr n Q slots m s warps : on_core kr s slots warps -> ends_within n Q m (view s slots warps) ->
  exists n' m' s' warps' al so, for_range 0 (zlen warps) (executeWarp warp_instruction maxWarpSize slots) (m, (s, warps), true, false) =
      Ok (m', (s', warps'), al, so) /\
    on_core kr s' slots warps' /\ ends_within n' Q m' (view s' slots warps') /\ (n' <= n)%nat /\
    (al = true <-> forall w x, zread warps' w = Some x -> ~ runnable x) /\
    (so = true <-> exists w x, zread warps' w = Some x /\ 0 < m_liveThreadCount x) /\
    (n' = n -> forall w x, zread warps' w = Some x -> ~ runnable x).
Proof using Hws.
  intros Ho He. pose proof (zlen_nonneg warps).
  edestruct (for_range_inv (fun i (st : M * (fsim * list warp_state) * bool * bool) =>
    let '(m', (s', warps'), al, so) := st in zlen warps' = zlen warps /\ on_core kr s' slots warps' /\
    exists n', ends_within n' Q m' (view s' slots warps') /\ (n' <= n)%nat /\
      (al = true <-> forall w x, w < i -> zread warps' w = Some x -> ~ runnable x) /\
      (so = true <-> exists w x, w < i /\ zread warps' w = Some x /\ 0 < m_liveThreadCount x) /\
      (n' = n -> forall w x, w < i -> zread warps' w = Some x -> ~ runnable x))
    0 (zlen warps) (executeWarp warp_instruction maxWarpSize slots) (m, (s, warps), true, false)) as (st & E & HP); [lia| | |].
  - split; [done|]. split; [done|]. exists n. split; [done|]. split; [done|]. split_and!.
    + split; [|done]. intros _ w x Hw Hr%zread_range. lia.
    + split; [done|]. intros (w & x & Hw & Hr%zread_range & _). lia.
    + intros _ w x Hw Hr%zread_range. lia.
  - intros i [[[m1 [s1 w1]] al] so] Hi (Hz & Ho1 & n1 & He1 & Hn1 & Hal & Hso & Hnn).
    destruct (executeWarp_spec kr n1 Q slots i m1 s1 w1 al so Ho1 ltac:(lia) He1)
      as (n2 & m2 & s2 & w2 & x & -> & Ho2 & Hz2 & He2 & Hn2 & Hx & Hsame & Hrun).
    eexists. split; [done|]. split; [lia|]. split; [done|]. exists n2. split; [done|]. split; [lia|].
    assert (forall w y, w < i + 1 -> zread w2 w = Some y -> w = i /\ y = x \/ w < i /\ zread w1 w = Some y) as Hlt.
    { intros w y Hw Hy. destruct (Z.eq_dec w i) as [->|Hne]; [left; split; congruence|right]. rewrite <- Hsame by done. split; [lia|done]. }
    assert (forall w y, w < i -> zread w1 w = Some y -> zread w2 w = Some y) as Hback by (intros w y Hw Hy; rewrite Hsame; [done|lia]).
    split_and!.
    + case_decide as Hd.
      * split; [done|]. intros H'. exfalso. apply (H' i x); [lia|done|done].
      * rewrite Hal. split; [|intros H' w y Hw Hy; apply (H' w y); [lia|by apply Hback]].
        intros H' w y Hw Hy. destruct (Hlt w y Hw Hy) as [[-> ->]|[? ?]]; [done|by eapply H'].
    + rewrite orb_true_iff, Z.ltb_lt, Hso. split.
      * intros [H'|(w & y & Hw & Hy & Hc)]; [exists i, x; split_and!; [lia|done|done]|exists w, y; split_and!; [lia|by apply Hback|done]].
      * intros (w & y & Hw & Hy & Hc). destruct (Hlt w y Hw Hy) as [[-> ->]|[? ?]]; [by left|right; by exists w, y].
    + intros -> w y Hw Hy. assert (n1 = n) by lia. subst n1.
      destruct (Hlt w y Hw Hy) as [[-> ->]|[? ?]]; [by apply Hrun|by eapply Hnn].
  - destruct st as [[[m' [s' w']] al] so]. destruct HP as (Hz & Ho' & n' & He' & Hn' & Hal & Hso & Hnn).
    exists n', m', s', w', al, so. split_and!; try done.
    + rewrite Hal. split; [|intros H' w x _; apply H']. intros H' w x Hx. apply (H' w x); [apply zread_range in Hx; lia|done].
    + rewrite Hso. split; [intros (w & x & _ & ?); by exists w, x|]. intros (w & x & Hx & ?). exists w, x. apply zread_range in Hx as ?. split_and!; [lia|done|done].
    + intros Hn w x Hx. apply (Hnn Hn w x); [apply zread_range in Hx; lia|done].
Qed.

Lemma view_live kr s slots warps : on_core kr s slots warps ->
  some_live (view s slots warps) <-> exists w x, zread warps w = Some x /\ 0 < m_liveThreadCount x.
Proof.
  intros Ho. unfold some_live. split.
  - intros (v & (w & _ & Hw)%elem_of_zread & Hne). rewrite zread_view in Hw. destruct (zread warps w) as [x|] eqn:E; [|done].
    injection Hw as <-. simpl in Hne. exists w, x. split; [done|]. rewrite (oc_count _ _ _ _ Ho w x E).
    destruct (live s slots w); [done|]. unfold zlen. simpl. lia.
  - intros (w & x & Hx & Hc). exists (m_simt x, m_warpAtBarrier x, live s slots w). split.
    + apply zread_elem_of with w. rewrite zread_view. by rewrite Hx.
    + simpl. intros E. rewrite (oc_count _ _ _ _ Ho w x Hx), E in Hc. done.
Qed.
Lemma view_waiting kr s slots warps : on_core kr s slots warps ->
  (forall w x, zread warps w = Some x -> ~ runnable x) -> all_waiting (view s slots warps).
Proof.
  intros Ho Hr v (w & _ & Hw)%elem_of_zread Hne. rewrite zread_view in Hw. destruct (zread warps w) as [x|] eqn:E; [|done].
  injection Hw as <-. simpl in *. destruct (m_warpAtBarrier x) eqn:Hb; [done|]. exfalso. apply (Hr w x E). split; [done|].
  rewrite (oc_count _ _ _ _ Ho w x E). destruct (live s slots w); [done|]. unfold zlen. simpl. lia.
Qed.
Lemma no_barriers kr s slots warps : on_core kr s slots warps ->
  on_core kr s slots (map no_barrier warps) /\
  view s slots (map no_barrier warps) = map (fun x => (x.1.1, false, x.2)) (view s slots warps).
Proof.
  intros Ho. assert (forall w, zread (map no_barrier warps) w = no_barrier <$> zread warps w) as Hr by (intros; apply zread_fmap).
  assert (zlen (map no_barrier warps) = zlen warps) as Hz by apply zlen_fmap. split.
  - split; try apply Ho; [rewrite Hz; apply Ho|]. intros w x. rewrite Hr. destruct (zread warps w) as [y|] eqn:E; [|done].
    simpl. intros [= <-]. simpl. by apply (oc_count _ _ _ _ Ho w).
  - assert (forall a, zlen (view s slots a) = zlen a) as Hv by (intros; apply zlen_imap).
    apply zread_ext; [rewrite Hv, Hz; unfold zlen at 2; rewrite length_map; symmetry; apply Hv|].
    intros w _. change (map ?f ?l) with (f <$> l) at 2. rewrite zread_fmap, !zread_view, Hr. by destruct (zread warps w).
Qed.

(** The loop ends when every thread has left. *)
Lemma execute_loop_spec kr n Q slots fuel m s warps : on_core kr s slots warps -> ends_within n Q m (view s slots warps) -> (n < fuel)%nat ->
  exists m' s' warps', execute_loop warp_instruction maxWarpSize fuel slots m (s, warps) = Ok (m', (s', warps')) /\
    on_core kr s' slots warps' /\ Q m' /\ (forall p t, threads s' !! p = Some t -> th_done t = true).
Proof using Hws.
  revert n m s warps. induction fuel as [|f IH]; intros n m s warps Ho He Hf; [lia|]. simpl.
  destruct (warp_round_spec kr n Q slots m s warps Ho He) as (n' & m' & s' & w' & al & so & -> & Ho' & He' & Hn' & Hal & Hso & Hnn).
  rewrite bind_of_ok. pose proof (view_live _ _ _ _ Ho') as Hlive. destruct so; cbn [negb].
  - assert (some_live (view s' slots w')) as Hl by (apply Hlive, Hso; done).
    destruct n' as [|n']; simpl in He'; [by destruct He' as [[? _]|[]]|].
    destruct He' as [[? _]|(Hl' & Hstep & Hwait)]; [done|]. destruct al.
    + destruct (no_barriers _ _ _ _ Ho') as [Ho2 Hv2]. apply (IH n'); [done| |lia]. rewrite Hv2. apply Hwait.
      apply (view_waiting _ _ _ _ Ho'). by apply Hal.
    + destruct (decide (S n' = n)) as [E|Hne].
      { exfalso. assert (false = true) as [=]. apply Hal. by apply Hnn. }
      apply (IH (S n')); [done| |lia]. simpl. right. done.
  - exists m', s', w'. split; [done|]. split; [done|]. assert (~ some_live (view s' slots w')) as Hns.
    { rewrite Hlive. intros H. assert (false = true) as [=]. by apply Hso. }
    split; [destruct n'; simpl in He'; destruct He' as [[_ ?]|He']; [done|done|done|by destruct He']|].
    intros p t Ht. destruct (th_done t) eqn:Hd; [done|]. exfalso. apply Hns. apply Hlive.
    destruct (proj1 (oc_store _ _ _ _ Ho' p) ltac:(by eexists)) as (j & Hj). pose proof (zread_range _ _ _ Hj) as Hr.
    rewrite (oc_size _ _ _ _ Ho') in Hr. assert (0 <= j / maxWarpSize < zlen w') as Hw.
    { split; [apply Z.div_pos; lia|]. apply Z.div_lt_upper_bound; lia. }
    destruct (zread_is_some w' _ Hw) as [x Hx]. exists (j / maxWarpSize), x. split; [done|]. rewrite (oc_count _ _ _ _ Ho' _ _ Hx).
    assert ((p, t) ∈ live s' slots (j / maxWarpSize)) as Hin.
    { apply elem_live; [lia|]. exists j. pose proof (Z.div_mod j maxWarpSize ltac:(lia)). pose proof (Z.mod_pos_bound j maxWarpSize ltac:(lia)).
      split_and!; [lia|lia|done|done|done]. }
    destruct (live s' slots (j / maxWarpSize)); [by apply not_elem_of_nil in Hin|]. unfold zlen. simpl. lia.
Qed.
End warps.

(** * A whole block *)

Lemma warp_exit_spec l s c : (forall p, is_Some (threads s !! p) <-> Some p ∈ l) ->
  (forall i j p, l !! i = Some (Some p) -> l !! j = Some (Some p) -> i = j) -> (forall p t, threads s !! p = Some t -> th_cta t = 0) ->
  ptx_cta_lookup s !! 0 = Some c -> sm_idx_used s = dom (ptx_cta_lookup s) ->
  exists s' c', warp_exit l s = Ok s' /\ s_kernel s' = s_kernel s /\ threads s' = ∅ /\
    ptx_cta_lookup s' !! 0 = Some c' /\ sm_idx_used s' = dom (ptx_cta_lookup s') /\
    m_threads_in_cta c' = m_threads_in_cta c /\ m_threads_that_have_exited c' = m_threads_that_have_exited c /\
    (forall p, p ∈ m_dangling_pointers c \/ Some p ∈ l -> p ∈ m_dangling_pointers c').
Proof.
  revert s c. induction l as [|[p|] l IH]; intros s c Hst Hon Hz Hc Hu; simpl.
  - exists s, c. split_and!; try done.
    + apply map_empty. intros p. apply eq_None_not_Some. rewrite Hst. apply not_elem_of_nil.
    + intros p [?|?%elem_of_nil]; done.
  - destruct (proj2 (Hst p)) as [t Ht]; [left|]. unfold delete_thread, thread_at, cta_at. rewrite Ht, bind_of_ok.
    pose proof (Hz p t Ht) as Hzt. rewrite Hzt, Hc, !bind_of_ok.
    edestruct (IH (with_threads (with_cta s 0 (register_deleted_thread c p)) (delete p (threads s)) (next_thread s)) (register_deleted_thread c p))
      as (s' & c' & E & K & T & C & U & I & X & D); simpl.
    + intros q. destruct (decide (q = p)) as [->|Hne].
      * rewrite lookup_delete_eq. split; [by intros []|]. intros [i Hi]%list_elem_of_lookup. by specialize (Hon 0%nat (S i) p eq_refl Hi).
      * rewrite lookup_delete_ne, Hst, elem_of_cons by done. naive_solver.
    + intros i j q Hi Hj. by specialize (Hon (S i) (S j) q Hi Hj) as [= ->].
    + intros q u Hq. apply lookup_delete_Some in Hq as [_ Hq]. by eapply Hz.
    + by rewrite lookup_insert_eq.
    + rewrite Hu, dom_insert_L. apply elem_of_dom_2 in Hc. set_solver.
    + exists s', c'. split_and!; try done. intros q Hq. apply D. simpl. destruct Hq as [?|[[= ->]|?]%elem_of_cons]; set_solver.
  - edestruct (IH s c) as (s' & c' & E & K & T & C & U & I & X & D); try done.
    + intros q. rewrite Hst, elem_of_cons. naive_solver.
    + intros i j q Hi Hj. by specialize (Hon (S i) (S j) q Hi Hj) as [= ->].
    + exists s', c'. split_and!; try done. intros q Hq. apply D. rewrite elem_of_cons in Hq. naive_solver.
Qed.

Lemma seqZ_empty i n : n <= 0 -> seqZ i n = [].
Proof. intros. by apply seqZ_nil. Qed.

Section run.
Context (k : kernel_info_t).
Abbreviation b := (m_block_dim k).
Abbreviation V := (volume b).
Context (Hb : dim3_ok b) (Hpos : 0 < V) (Hactive : m_active_threads k = []) (Htid : m_next_tid k = Dim3 0 0 0).
Context (Hmore : no_more_ctas_to_run k = false).
Context (num_shaders maxWarpSize start_pc : Z) (Hws : 0 < maxWarpSize <= MAX_WARP_SIZE).
Abbreviation k1 := (increment_cta_id (at_thread k V)).

(** The threads of the block by slot: the block, the index and the local memory. *)
Definition block_threads : list (Z * (dim3 * dim3 * Z)) := map (fun t => (t, (m_next_cta k, point b t, t))) (seqZ 0 V).

Lemma placed_from N s slots i : store_of k N V V (threads s) -> 0 <= i -> V <= i + zlen slots ->
  (forall j, 0 <= j < zlen slots -> zread slots j = Some (if i + j <? V then Some (N + (i + j)) else None)) ->
  omap (fun '(i, slot) => p ← slot; t ← threads s !! p; Some (i, (th_ctaid t, th_tid t, th_local t))) (zip (seqZ i (zlen slots)) slots) =
  map (fun t => (t, (m_next_cta k, point b t, t))) (seqZ i (V - i)).
Proof.
  intros Hst. revert i. induction slots as [|x slots IH]; intros i Hi Hlen Hr.
  { rewrite (seqZ_empty i (V - i)); [done|]. change (zlen []) with 0 in Hlen. lia. }
  assert (zlen (x :: slots) = zlen slots + 1) as Hz by (unfold zlen; simpl; lia). pose proof (zlen_nonneg slots).
  rewrite Hz in *. rewrite seqZ_cons by lia. replace (Z.pred (zlen slots + 1)) with (zlen slots) by lia.
  assert (zread (x :: slots) 0 = Some x) as H0 by done. rewrite (Hr 0 ltac:(lia)), Z.add_0_r in H0. injection H0 as <-.
  assert (forall j, 0 <= j < zlen slots -> zread slots j = Some (if i + 1 + j <? V then Some (N + (i + 1 + j)) else None)) as Hr'.
  { intros j Hj. specialize (Hr (j + 1) ltac:(lia)). rewrite zread_cons, (proj2 (Z.eqb_neq (j + 1) 0)) in Hr by lia.
    replace (j + 1 - 1) with j in Hr by lia. rewrite Hr. by replace (i + (j + 1)) with (i + 1 + j) by lia. }
  specialize (IH (i + 1) ltac:(lia) ltac:(lia) Hr'). replace (Z.succ i) with (i + 1) by lia.
  destruct (Z.ltb_spec i V) as [Hlt|Hge].
  - rewrite (seqZ_cons i (V - i)) by lia. replace (Z.pred (V - i)) with (V - (i + 1)) by lia. replace (Z.succ i) with (i + 1) by lia.
    simpl. rewrite Hst, decide_True by lia. simpl. rewrite <- IH. by replace (N + i - N) with i by lia.
  - rewrite (seqZ_empty i (V - i)) by lia. rewrite (seqZ_empty (i + 1) (V - (i + 1))) in IH by lia. exact IH.
Qed.

Lemma handed_all_live N s slots : handed k N k1 V s slots -> all_live s slots.
Proof.
  intros Hh j p Hj. pose proof (zread_range _ _ _ Hj) as Hr. rewrite (hd_slots _ _ _ _ _ _ Hh j Hr) in Hj.
  destruct (Z.ltb_spec j V); [|done]. injection Hj as <-. rewrite (hd_store _ _ _ _ _ _ Hh), decide_True by lia. by eexists.
Qed.

Lemma handed_on_core N s slots warps : handed k N k1 V s slots -> V <= zlen slots -> zlen slots = zlen warps * maxWarpSize ->
  fresh_warps maxWarpSize s slots (zlen warps) warps -> on_core maxWarpSize (with_active k1 []) s slots warps.
Proof.
  intros Hh Hv Hlen [_ Hfw]. pose proof Hh as [Hk Hst [(c & Hc & Hin & Hx & Hd) Hu] _ Hsl].
  assert (forall j p, zread slots j = Some (Some p) <-> 0 <= j < V /\ p = N + j) as Hj.
  { intros j p. split.
    - intros Hj. pose proof (zread_range _ _ _ Hj) as Hr. rewrite Hsl in Hj by done. destruct (Z.ltb_spec j V); [|done]. injection Hj as <-. split; [lia|done].
    - intros [Hj ->]. rewrite Hsl by lia. by rewrite (proj2 (Z.ltb_lt _ _)) by lia. }
  assert (forall p, is_Some (threads s !! p) <-> N <= p < N + V) as Hs.
  { intros p. rewrite Hst. case_decide; split; try done; try by eexists. }
  split; try done.
  - by rewrite Hk, Z.sub_diag.
  - intros i j p (_ & ->)%Hj (_ & ?)%Hj. lia.
  - intros p. rewrite Hs. split; [intros H; exists (p - N); apply Hj; lia|intros (j & H%Hj); lia].
  - intros p t. rewrite Hst. case_decide; [|done]. by intros [= <-].
  - exists c. split_and!; try done; [intros p; by rewrite Hin, Hs|]. intros p. rewrite Hx, elem_of_empty. split; [done|].
    intros (t & Ht & Hdt). rewrite Hst in Ht. case_decide; [|done]. injection Ht as <-. done.
  - intros w x Hwx. by apply Hfw.
Qed.

Lemma initializeCTA_spec s : idle s -> s_kernel s = k ->
  exists s' slots warps, initializeCTA num_shaders maxWarpSize start_pc s = Ok (s', mkCore slots warps) /\
    placed s' slots = block_threads /\ on_core maxWarpSize (with_active k1 []) s' slots warps /\
    fresh_warps maxWarpSize s' slots ((V + maxWarpSize - 1) / maxWarpSize) warps.
Proof using All.
  intros Hid Hk. unfold initializeCTA, warps_count. rewrite (proj2 (Z.eqb_neq maxWarpSize 0)) by lia. simpl.
  rewrite Hk. unfold threads_per_cta. rewrite dim3_count_ok by done. set (n := (V + maxWarpSize - 1) / maxWarpSize).
  pose proof (Z.div_mod (V + maxWarpSize - 1) maxWarpSize ltac:(lia)) as Hdm. fold n in Hdm.
  pose proof (Z.mod_pos_bound (V + maxWarpSize - 1) maxWarpSize ltac:(lia)). assert (0 <= n * maxWarpSize) by nia. assert (0 <= n) by nia.
  destruct (init_slots k Hb Hpos Hactive Htid (next_thread s) num_shaders Hmore s (replicate (Z.to_nat (n * maxWarpSize)) None))
    as (s' & slots & -> & Hh & Hz); try done.
  { rewrite zlen_replicate by lia. lia. }
  { intros j Hj. rewrite zlen_replicate in Hj by lia. rewrite zread_replicate, (proj2 (Z.leb_le _ _)), (proj2 (Z.ltb_lt _ _)) by lia. done. }
  rewrite zlen_replicate in Hz by lia. rewrite bind_of_ok.
  destruct (create_warps maxWarpSize Hws s' slots n start_pc) as (warps & -> & Hf); [by eapply handed_all_live|lia|done| |].
  { intros w Hw. assert (w * maxWarpSize < V) by nia. eexists. rewrite (hd_slots _ _ _ _ _ _ Hh) by nia.
    by rewrite (proj2 (Z.ltb_lt _ _)) by lia. }
  rewrite bind_of_ok. exists s', slots, warps. split; [done|]. pose proof Hf as [Hlen _]. split_and!; [| |exact Hf].
  - unfold placed, block_threads. rewrite (placed_from (next_thread s) s' slots 0); [by rewrite Z.sub_0_r|apply Hh|lia|lia|].
    intros j Hj. rewrite (hd_slots _ _ _ _ _ _ Hh) by done. done.
  - eapply handed_on_core; [done|lia|nia|by rewrite Hlen].
Qed.

Context {M : Type}.
Context (warp_instruction : M → simt_stack → list (Z * ptx_thread_info) → outcome (M * simt_stack * bool * list Z)).

(** From the start of the block all its threads leave within [n] steps. *)
Definition block_ends (n : nat) (Q : M → Prop) (m : M) (s : fsim) : Prop :=
  forall s' core, initializeCTA num_shaders maxWarpSize start_pc s = Ok (s', core) ->
    ends_within warp_instruction n Q m (view maxWarpSize s' (m_thread core) (m_warps core)).

Lemma run_block_spec n Q fuel m s : idle s -> s_kernel s = k -> block_ends n Q m s -> (n < fuel)%nat ->
  exists m' s', run_block warp_instruction num_shaders maxWarpSize start_pc fuel m s = Ok (block_threads, m', s') /\
    Q m' /\ idle s' /\ s_kernel s' = k1.
Proof using All.
  intros Hid Hk He Hf. destruct (initializeCTA_spec s Hid Hk) as (s1 & slots & warps & E1 & Hp & Ho & _). specialize (He _ _ E1).
  unfold run_block. rewrite E1, bind_of_ok. cbn [m_thread m_warps] in *. rewrite Hp.
  destruct (execute_loop_spec maxWarpSize Hws warp_instruction _ n Q slots fuel m s1 warps Ho He Hf) as (m' & s2 & w2 & -> & Ho2 & HQ & Hdone).
  rewrite bind_of_ok. destruct (oc_cta _ _ _ _ _ Ho2) as (c & Hc & Hin & Hex & Hdg).
  assert (forall p, is_Some (threads s2 !! p) <-> Some p ∈ slots) as Hst.
  { intros p. rewrite (oc_store _ _ _ _ _ Ho2). split; [intros (j & Hj); by eapply zread_elem_of|]. intros (j & _ & Hj)%elem_of_zread. by exists j. }
  destruct (warp_exit_spec slots s2 c) as (s3 & c3 & -> & K & T & C & U & I & X & D); try done.
  { intros i j p Hi Hj. rewrite <- !zread_of_nat in Hi, Hj. pose proof (oc_once _ _ _ _ _ Ho2 _ _ _ Hi Hj). lia. }
  { apply Ho2. } { apply Ho2. }
  rewrite bind_of_ok. exists m', s3. split; [done|]. split; [done|]. split; [split; try done|].
  - intros c' Hc'. assert (c' = c3) as -> by congruence. rewrite I, X. split.
    + apply set_eq. intros p. rewrite Hex, Hin. split; [intros (t & Ht & _); by eexists|intros [t Ht]; exists t; split; [done|by eapply Hdone]].
    + intros p Hpp. apply D. right. apply Hst. by apply Hin.
  - rewrite K, (oc_kernel _ _ _ _ _ Ho2). unfold with_active. simpl. rewrite <- Hactive. by destruct k.
Qed.
End run.

(** * A whole grid *)

Section grid.
Context (k : kernel_info_t).
Abbreviation b := (m_block_dim k).
Abbreviation g := (m_grid_dim k).
Context (Hg : dim3_ok g) (Hb : dim3_ok b) (Hactive : m_active_threads k = []).
Context (num_shaders maxWarpSize start_pc : Z) (Hws : 0 < maxWarpSize <= MAX_WARP_SIZE).
Context {M : Type}.
Context (warp_instruction : M → simt_stack → list (Z * ptx_thread_info) → outcome (M * simt_stack * bool * list Z)).
Abbreviation main := (gpgpu_cuda_ptx_sim_main_func warp_instruction num_shaders maxWarpSize start_pc).

(** The threads of block number [c]. *)
Definition threads_of_block (c : Z) : list (Z * (dim3 * dim3 * Z)) := map (fun t => (t, (point g c, point b t, t))) (seqZ 0 (volume b)).

Lemma main_from fine n c fuel block_fuel m s : 0 < volume b -> 0 <= c <= volume g -> idle s -> s_kernel s = at_block k c -> fine c m ->
  (forall c m s, 0 <= c < volume g -> fine c m -> idle s -> s_kernel s = at_block k c ->
     block_ends num_shaders maxWarpSize start_pc warp_instruction n (fine (c + 1)) m s) ->
  volume g - c < Z.of_nat fuel -> (n < block_fuel)%nat ->
  exists m' s', main fuel block_fuel m s = Ok (map threads_of_block (seqZ c (volume g - c)), m', s') /\
    fine (volume g) m' /\ idle s' /\ s_kernel s' = at_block k (volume g).
Proof using All.
  intros Hpos Hc Hid Hk Hfine Hends Hfuel Hbf. revert c m s Hc Hid Hk Hfine Hfuel.
  induction fuel as [|f IH]; intros c m s Hc Hid Hk Hfine Hfuel; [lia|]. simpl. rewrite Hk, no_more_ctas_at by done.
  destruct (Z.ltb_spec c (volume g)) as [Hlt|Hge]; simpl.
  - destruct (run_block_spec (at_block k c) Hb Hpos Hactive eq_refl ltac:(rewrite no_more_ctas_at, (proj2 (Z.ltb_lt _ _)) by (done || lia); done)
      num_shaders maxWarpSize start_pc Hws warp_instruction n (fine (c + 1)) block_fuel m s Hid Hk) as (m1 & s1 & -> & Hf1 & Hid1 & Hk1);
      [apply Hends; [lia|done..]|done|]. rewrite bind_of_ok, increment_cta_at in * by (done || lia).
    destruct (IH (c + 1) m1 s1) as (m2 & s2 & -> & ? & ? & ?); [lia|done|done|done|lia|]. rewrite bind_of_ok.
    exists m2, s2. split_and!; try done. rewrite (seqZ_cons c) by lia. simpl.
    by replace (Z.pred (volume g - c)) with (volume g - (c + 1)) by lia.
  - assert (c = volume g) as -> by lia. exists m, s. split_and!; try done. by rewrite (seqZ_empty _ (volume g - volume g)) by lia.
Qed.

(** A grid of empty blocks: no thread is made, so the kernel never moves on. *)
Lemma main_empty_block fuel block_fuel m s : volume b = 0 -> s_kernel s = at_block k 0 -> 0 < volume g ->
  main fuel block_fuel m s = Err OutOfFuel.
Proof using Hg Hb Hws.
  intros Hv Hk Hpos. induction fuel as [|f IH]; [done|]. simpl. rewrite Hk, no_more_ctas_at, (proj2 (Z.ltb_lt _ _)) by (done || lia). simpl.
  unfold run_block, initializeCTA, warps_count. rewrite (proj2 (Z.eqb_neq maxWarpSize 0)), Hk by lia.
  change (threads_per_cta (at_block k 0)) with (dim3_count b). rewrite dim3_count_ok, Hv by done.
  rewrite !bind_of_ok. replace ((0 + maxWarpSize - 1) / maxWarpSize) with 0 by (symmetry; apply Z.div_small; lia).
  destruct block_fuel as [|bf]; [done|]. change (for_range 0 0 _ ?x) with (@Ok _ x). simpl. rewrite IH. done.
Qed.
End grid.

(** C16: Functional simulation of a kernel terminates, with fuel above the number of
    blocks and above n, where the dimensions and their products are 32-bit numbers,
    warps have 1 to 32 lanes, the kernel is at its first block with nothing left of an
    earlier one, blocks have threads, and all threads of a block leave within n
    instructions of its warps and releases of its barrier, in whatever order the warps
    take their turns (block_ends; what an instruction of a warp does is a parameter). It
    runs every block of the grid exactly once, in the order that runs through x first
    and z last, and makes for every block every thread exactly once, thread number t
    being the one at place t; an empty grid runs nothing; and the kernel is left with no
    block to run and no active thread. When the blocks of a nonempty grid are empty the
    loop never ends: the block is advanced only where a thread is made. *)
Theorem every_block_and_thread_once {M} (warp_instruction : M → simt_stack → list (Z * ptx_thread_info) → outcome (M * simt_stack * bool * list Z))
    (fine : Z → M → Prop) num_shaders maxWarpSize start_pc n fuel block_fuel m s :
  let k := s_kernel s in
  let main := gpgpu_cuda_ptx_sim_main_func warp_instruction num_shaders maxWarpSize start_pc in
  dim3_ok (m_grid_dim k) -> dim3_ok (m_block_dim k) -> 0 < maxWarpSize <= MAX_WARP_SIZE ->
  m_next_cta k = Dim3 0 0 0 -> m_next_tid k = Dim3 0 0 0 -> m_active_threads k = [] -> idle s ->
  (0 < threads_per_cta k -> fine 0 m ->
   (forall c m s, 0 <= c < num_blocks k -> fine c m -> idle s -> s_kernel s = at_block k c ->
      block_ends num_shaders maxWarpSize start_pc warp_instruction n (fine (c + 1)) m s) ->
   num_blocks k < Z.of_nat fuel -> (n < block_fuel)%nat ->
   exists m' s', main fuel block_fuel m s = Ok (map (threads_of_block k) (seqZ 0 (num_blocks k)), m', s') /\
     fine (num_blocks k) m' /\ no_more_ctas_to_run (s_kernel s') = true /\ m_active_threads (s_kernel s') = [] /\ idle s') /\
  (threads_per_cta k = 0 -> 0 < num_blocks k -> forall fuel block_fuel, main fuel block_fuel m s = Err OutOfFuel) /\
  NoDup (map (point (m_grid_dim k)) (seqZ 0 (num_blocks k))) /\
  (forall c, c ∈ map (point (m_grid_dim k)) (seqZ 0 (num_blocks k)) <-> in_box (m_grid_dim k) c) /\
  NoDup (map (point (m_block_dim k)) (seqZ 0 (threads_per_cta k))) /\
  (forall t, t ∈ map (point (m_block_dim k)) (seqZ 0 (threads_per_cta k)) <-> in_box (m_block_dim k) t).
Proof.
  intros k main Hg Hb Hws Hcta Htid Hactive Hid. unfold num_blocks, threads_per_cta. rewrite !dim3_count_ok by done.
  assert (s_kernel s = at_block k 0) as Hk.
  { unfold at_block. rewrite point_0, <- Hcta at 1. rewrite <- Htid. unfold k. by destruct (s_kernel s). }
  pose proof (volume_nonneg _ Hg). split_and!; try by apply points_once.
  - intros Hpos Hfine Hends Hf Hbf.
    destruct (main_from k Hg Hb Hactive num_shaders maxWarpSize start_pc Hws warp_instruction fine n 0 fuel block_fuel m s)
      as (m' & s' & E & Hf' & Hid' & Hk'); try done; [lia|lia|].
    exists m', s'. rewrite Z.sub_0_r in E. split_and!; [done|done| | |done]; rewrite Hk'; [|done].
    rewrite no_more_ctas_at by (done || lia). by rewrite Z.ltb_irrefl.
  - intros Hv Hpos fuel' bf. by apply main_empty_block with k.
Qed.

(** * A small kernel

    Six blocks of four threads in one warp; an instruction makes every thread of the
    warp leave, the machine counts them. *)

Definition demo_instruction (m : Z) (st : simt_stack) (l : list (Z * ptx_thread_info)) : outcome (Z * simt_stack * bool * list Z) :=
  mret (m + zlen l, st, false, l.*1).
Definition demo_k4 : kernel_info_t := demo_kernel 1 (Dim3 3 2 1) (Dim3 2 2 1).
Definition demo_sim : fsim := mkSim demo_k4 ∅ 100 ∅ ∅.

Lemma demo_k4_ok : dim3_ok (m_grid_dim demo_k4) /\ dim3_ok (m_block_dim demo_k4).
Proof. unfold dim3_ok. simpl. lia. Qed.

Lemma demo_ends m (x : simt_stack * bool * list (Z * ptx_thread_info)) : x.1.2 = false -> NoDup x.2.*1 ->
  ends_within demo_instruction 1 (fun _ => True) m [x].
Proof.
  destruct x as [[st bar] l]. simpl. intros -> Hn. destruct l as [|y l].
  { left. split; [|done]. by intros (x & ->%list_elem_of_singleton & ?). }
  right. split_and!.
  - eexists. split; [left|done].
  - intros w st' l' Hw Hl. pose proof (zread_range _ _ _ Hw) as Hr. change (zlen [_]) with 1 in Hr. assert (w = 0) as -> by lia.
    injection Hw as <- <-. eexists _, _, _, _. split; [done|]. split; [done|]. split; [done|]. left. split; [|done].
    intros (x & ->%list_elem_of_singleton & Hx). apply Hx. clear Hx. cbn [snd].
    destruct (filter _ _) as [|z r] eqn:E; [done|]. exfalso. pose proof (list_elem_of_here z r) as Hz. rewrite <- E in Hz.
    apply list_elem_of_filter in Hz as [Hz Hin]. apply Hz. by apply list_elem_of_fmap_2.
  - intros Hw. specialize (Hw (st, false, y :: l) ltac:(left) ltac:(done)). done.
Qed.

Lemma every_block_and_thread_once_witness :
  exists l m s, gpgpu_cuda_ptx_sim_main_func demo_instruction 1 32 0 7 2 0 demo_sim = Ok (l, m, s) /\
    length l = 6%nat /\ no_more_ctas_to_run (s_kernel s) = true.
Proof.
  destruct (every_block_and_thread_once demo_instruction (fun _ _ => True) 1 32 0 1 7 2 0 demo_sim) as (H & _);
    [apply demo_k4_ok|apply demo_k4_ok|done|reflexivity|reflexivity|reflexivity|..].
  - split; [done|by intros c ?|done].
  - destruct H as (m' & s' & E & _ & Hk & _); [by vm_compute|done| |by vm_compute|lia|].
    + intros c m s Hc _ Hid Hk s' core E. change (s_kernel demo_sim) with demo_k4 in *.
      destruct (initializeCTA_spec (at_block demo_k4 c)) with (num_shaders := 1) (maxWarpSize := 32) (start_pc := 0) (s := s)
        as (s1 & slots & warps & E1 & _ & Ho & Hlen & Hf); [apply demo_k4_ok|done|done|done| |done|done|done|].
      { rewrite no_more_ctas_at; [|apply demo_k4_ok|change (volume _) with 6; change (num_blocks _) with 6 in Hc; lia].
        change (volume _) with 6. change (num_blocks _) with 6 in Hc. by rewrite (proj2 (Z.ltb_lt c 6)) by lia. }
      rewrite E1 in E. injection E as <- <-. cbn [m_thread m_warps]. change ((_ + 32 - 1) / 32) with 1 in Hlen.
      destruct warps as [|x [|? ?]]; [done| |by unfold zlen in Hlen; simpl in Hlen; lia].
      apply demo_ends; [by apply (Hf 0 x)|]. simpl. eapply live_nodup; [by unfold MAX_WARP_SIZE|exact Ho|lia].
    + exists (map (threads_of_block (s_kernel demo_sim)) (seqZ 0 (num_blocks (s_kernel demo_sim)))), m', s'. split; [exact E|]. split; [vm_compute; reflexivity|exact Hk].
Defined.

(** The same kernel in warps of three lanes: two warps for a block. *)
Example demo_two_warps :
  (fun '(l, m, _) => (zlen l, m, l !! 4%nat)) <$>
    (match gpgpu_cuda_ptx_sim_main_func demo_instruction 1 3 0 7 3 0 demo_sim with Ok x => Some x | Err _ => None end) =
  Some (6, 24, Some [(0, (Dim3 1 1 0, Dim3 0 0 0, 0)); (1, (Dim3 1 1 0, Dim3 1 0 0, 1)); (2, (Dim3 1 1 0, Dim3 0 1 0, 2)); (3, (Dim3 1 1 0, Dim3 1 1 0, 3))]).
Proof. vm_compute. reflexivity. Qed.

(** A block whose threads have not left stops the making of the next one: the block is
    checked before its record is used again. *)
Example threads_left_behind_stop :
  (let half m st (l : list (Z * ptx_thread_info)) := mret (m, st, false, take 2 l.*1) : outcome (Z * simt_stack * bool * list Z) in
   '(_, s1) ← (match initializeCTA 1 32 0 demo_sim with
               | Ok (s, c) => '(_, (s, w)) ← executeWarp half 32 (m_thread c) 0 (0, (s, m_warps c), true, false) ≫= fun '(m, st, _, _) => mret (m, st);
                              s ← warp_exit (m_thread c) s; mret (0, s)
               | Err e => Err e end);
   run_block half 1 32 0 5 0 s1) = Err ErrorMsg.
Proof. vm_compute. reflexivity. Qed.
